(* ===== verification/_CoqProject ===== *)
-Q . S2P
Prelude.v
RustStr.v
Bounded.v
Primitives.v
Hybrid.v
Nip44.v
Ratchet.v
RatchetChain.v
RatchetSession.v
RatchetTurns.v
RatchetLimits.v
PqcLink.v
LinkSession.v
Slip.v
Packet.v
Routing.v
Link.v
Transport.v
Text.v
Envelope.v
Verify.v
Relay.v
PlumTree.v
Frame.v
Sql.v
Tx.v
Outbox.v
Prolly.v
Gossip.v
HashRing.v
Wot.v
Url.v
UrlLaws.v
Content.v
Store.v
Bolt11.v
Ingest.v
PostLaws.v
Schema.v
ProfileLaws.v
ZapLaws.v
Groups.v
GroupLaws.v
Lru.v
Cas.v
CasLaws.v
Kademlia.v
RateLimit.v
BlobGrab.v
BlobLaws.v
Pin.v
PinLaws.v
Act.v
Json.v
Floats.v
Compat.v
Spatial.v
DatingCore.v
Dating.v
DatingLaws.v
Events.v
Market.v
MarketLaws.v
ConnPool.v
EpochGc.v
LocalStore.v
Console.v
Recorder.v
RecorderLaws.v
Ring.v
Seal.v
AtRest.v
Ble.v
BleLaws.v
Lan.v
Threads.v
BridgeUtil.v
Mdns.v
Signer.v
SignerLaws.v
