(* ===== verification/Prelude.v ===== *)
(** * Verification library for the Soshal cores

    Soshal is a social application whose devices keep their data in a local
    database and exchange signed events over relays and mesh transports. This
    library models the Rust cores of it: the cryptography of a message and its
    way over the mesh, the stores and the sync behind them, the guards of keys
    and identities, and features that the application calls through the bridge.
    Definitions are translated from the source and are executable; each carries
    the file and the lines it translates.

    ** The parts, and how they interact

    Foundations, with little code of the repository:
    - Prelude, RustStr, Text: results and panics, machine integers,
      reachability, bounded queues; UTF-8, trimming, ASCII case, decimal
      printing; [clean], the normal form of identifiers.
    - Primitives: the third-party cryptography as a class with its documented
      laws, and a concrete instance, so that no theorem is vacuous; inflating
      under a cap (content-core/src/compress.rs). Sql: the
      order of rows and of hash sets. Json: values, numbers and the text
      interface. Floats: binary64 and sorting. Act: calls that change a state
      and may fail. Threads: programs over mutexes and their interleaving.

    Messages and their way over the mesh: a payload is sealed by the double
    ratchet over NIP-44 boxes whose keys come from a hybrid KEM; the Reticulum
    links carry such sessions between nodes; the relay floods signed events
    over the nodes and other transports, and the gossip tree, the chunked
    frames and Bluetooth serve the remaining bearers.
    - Bounded: common-core/src/bounded.rs, a window of distinct keys that
      PlumTree and Relay use through its refinement.
    - Hybrid: pqc-core/src/hybrid.rs, promises the class [KemLaws]. Nip44:
      crypto-core/src/nip44.rs, promises the class [AeadLaws]. Ratchet:
      crypto-core/src/pqc_ratchet/, against the two interfaces only;
      RatchetChain (chains, skipped keys, header MAC), RatchetSession (one
      epoch), RatchetTurns (conversations) and RatchetLimits hold the proofs.
    - PqcLink, LinkSession: mesh-core/src/pqc_link.rs, a table of ratchet
      sessions with handshake and key-generation limits, and its frames.
    - Slip, Packet, Routing, Link, Transport: mesh-core/src/reticulum/. Link owns
      the sessions of PqcLink; Transport is the node, one handler per packet
      type behind SLIP and the packet parser.
    - Envelope, Relay, LocalStore: relay-core/src/. Relay runs over the class
      [MeshBackend] of transports and consults Verify, the cache of
      nostr-core/src/models.rs, for every payload.
    - PlumTree, Kademlia, RateLimit: network-core/src/.
      Frame, Ble with BleLaws: mesh-core/src/p2p_frame.rs and ble.rs.
    - Seal, AtRest, Lan: pqc-core/src/kem.rs, seal.rs and crypto-core/src/
      at_rest.rs, lan.rs, pir.rs.

    Stores and sync: verified events are ingested into the tables; what the user
    does is a transaction, waits in the outbox, and is sent by the engine.
    - Store, Schema: db-core/src/repos/, every table a finite map, and its typing.
      ConnPool: the pool of connections, with its threads. Console: the filter
      in front of raw SQL.
    - Ingest with PostLaws, ProfileLaws and ZapLaws: sync-core/src/ingest.rs over
      Store. Tx, Outbox, Gossip, Prolly, HashRing, EpochGc: the other
      parts of sync-core; Gossip gates PlumTree and Ingest.
    - Lru, Cas with CasLaws: the chunk store of media-core/src/cas.rs and its
      cache. BlobGrab with BlobLaws: network-core/src/blob_grab.rs, threads that
      fetch a blob into that store. Wot: identity-core/src/wot.rs.
    - Recorder with RecorderLaws, Ring: telemetry-core/src/.

    Identity, and features behind the bridge (flutter-bridge/src/ffi/):
    - Pin with PinLaws: pin.rs. Signer with SignerLaws: signer.rs and the calls
      of other files that share its locks, every interleaving. BridgeUtil:
      util.rs. Mdns: network-core/src/mdns.rs.
    - Url with UrlLaws, Content, Bolt11: common-core/src/url.rs, content-core,
      zap-core.
    - Groups with GroupLaws: groups.rs. Market with MarketLaws: marketplace.rs
      with marketplace-core. Compat, Spatial, DatingCore: social-core/src/
      compatibility.rs, spatial-core, dating-core; Dating with DatingLaws:
      dating.rs over these, Store and Outbox. Events: events.rs and events-core,
      over the same.

    ** What the theorems show

    - Delivery: conversations over the ratchet (any number of turns, any order
      within a turn, replays refused), sessions over links, sealed boxes and the
      KEM all return what was put in; so do SLIP, packets, envelopes, frames,
      Bluetooth lines, patches, listings and records, and the packet, envelope
      and line parsers accept nothing else.
    - Flooding: a payload is handled at most once and re-broadcast with one more
      hop, never to its source; a gossip bridge pushes only events under an
      identifier and a signature that verified.
    - Bounds: in every reachable state each queue, table, window, cache and
      budget stays within the constant of the code; scores stay within 0..100.
    - Stored data: posts keep their identity and deletions are final, rows are
      typed, zaps are bound to requests that are or were stored, rollbacks visit
      the dependent closure once, blobs and ranges are what their hash says
      unless a file is written in place while it is mapped.
    - Liveness and termination: the outbox drains, the threads of a download end,
      those of the pool and of the signer do not wait for ever (but for nested
      checkouts that use every connection up, and a drain of the browser beside
      a lock of the signer), walks and searches end, and the rounds of a tree
      build exceed its pairs only by levels that do not shrink.
    - Who may do what: no downgrade of an envelope, keys derived from the
      unlocked secret only, ten wrong PINs lock when the settings are durable
      and the checks do not overlap, contributions by members,
      escrows settled by consent or dispute, no internal address let through.
    - Equivalence and refinement: the trust walk and its definition, the cache
      with epochs and a list, the window and the set, interleaved and sequential
      downloads.
    - Limits: where the code does not do what it intends, a theorem says so; the
      findings of the manifest name them.

    ** Conventions

    A byte or word is a [Z] with its range stated where it matters; a fallible
    function returns [result failure A], where [Panic] stands for an abort (the
    workspace builds with overflow checks on). State is passed explicitly, or by
    the actions of Act, which keep what a call wrote before it failed; a
    component's operations form a step relation and its invariants are proved
    for every reachable state. Concurrent code is a step relation over atomic
    sections (ConnPool, BlobGrab, LocalStore, Verify) or a program of Threads.
    Clocks, random bytes and fresh names are arguments. Recursion is structural,
    by a measure, or on fuel that is shown to be enough: twenty digits print
    every 64-bit integer, the frame splitter consumes a byte at each step, so
    the length of the text suffices ([Frame.encode_total]), and the loops of
    traversals are bounded by the rows they mark. A query returns rows in some
    order that satisfies its ORDER BY, and the iteration order of hash sets is
    an argument or left out of the statement. Binary64 numbers are those of
    SpecFloat, rounded as IEEE 754 says. A disk is names that lead
    to files, and a mapping of a file shows what is written into it later (Cas);
    the mapped region of a ring or a recorder is a list of bytes whose bounds
    panic. Plain counters (packets
    received, events published) are unbounded.

    ** What is not modelled

    Sockets and runtimes, the registry of nodes, third-party parsers and codecs
    (interfaces, with a concrete instance where a theorem assumes their laws),
    errors of the SQL engine but for foreign keys and the places that name them,
    migrations and full-text search, platform key stores, the transports over
    Wi-Fi Direct, Freenet and I2P, streams of query results, media codecs,
    moderation models, and the feature cores that the manifest lists as not
    modelled. *)

From Stdlib Require Export ZArith Lia.
From stdpp Require Export base numbers list gmap sets option fin_maps strings sorting.

Declare Scope soshal_scope.
Delimit Scope soshal_scope with soshal.

(** ** Results: Rust's [Result<T, E>] *)

Inductive result (E A : Type) : Type :=
| Ok (a : A)
| Err (e : E).
Arguments Ok {E A} a.
Arguments Err {E A} e.

#[export] Instance result_ret {E} : MRet (result E) := fun A a => Ok a.
#[export] Instance result_bind {E} : MBind (result E) :=
  fun A B f m => match m with Ok a => f a | Err e => Err e end.
#[export] Instance result_fmap {E} : FMap (result E) :=
  fun A B f m => match m with Ok a => Ok (f a) | Err e => Err e end.

#[export] Instance result_eq_dec {E A} `{EqDecision E, EqDecision A} :
  EqDecision (result E A).
Proof. solve_decision. Defined.

Definition is_ok {E A} (r : result E A) : bool :=
  match r with Ok _ => true | Err _ => false end.

(** [Option::ok_or]. *)
Definition ok_or {E A} (e : E) (o : option A) : result E A :=
  match o with Some a => Ok a | None => Err e end.

(** [Result::ok]. *)
Definition ok {E A} (r : result E A) : option A :=
  match r with Ok a => Some a | Err _ => None end.

Lemma result_bind_ok {E A B} (f : A → result E B) (m : result E A) b :
  m ≫= f = Ok b ↔ ∃ a, m = Ok a ∧ f a = Ok b.
Proof. destruct m; simpl; naive_solver. Qed.

(** A failing call of the code: an error value carrying its message, or a
    panic (an out-of-range array copy, an overflow). *)
Inductive failure := Fail (msg : string) | Panic.

#[export] Instance failure_eq_dec : EqDecision failure.
Proof. solve_decision. Defined.

Abbreviation may_fail A := (result failure A) (only parsing).

Definition err {A} (msg : string) : result failure A := Err (Fail msg).

(** [guard!]: continue when the condition holds, return the error otherwise. *)
Definition ensure (b : bool) (msg : string) : result failure unit :=
  if b then Ok () else err msg.

(** [Result::map_err]. *)
Definition map_err {E F A} (f : E → F) (r : result E A) : result F A :=
  match r with Ok a => Ok a | Err e => Err (f e) end.

Lemma not_ok_is_ok {E A} (r : result E A) : (∀ a, r ≠ Ok a) → is_ok r = false.
Proof. destruct r as [a|e]; [|done]. intros Hr. by destruct (Hr a). Qed.

(** [Result::unwrap_or]. *)
Definition unwrap_or {E A} (d : A) (r : result E A) : A :=
  match r with Ok a => a | Err _ => d end.

Lemma unwrap_or_triple {E A B C} (d : A * B * C) (r : result E (A * B * C)) :
  is_ok r = true → r = Ok ((unwrap_or d r).1.1, (unwrap_or d r).1.2, (unwrap_or d r).2).
Proof. by destruct r as [[[??]?]|]. Qed.

Lemma ensure_ok b msg u : ensure b msg = Ok u ↔ b = true.
Proof. unfold ensure, err. destruct b, u; naive_solver. Qed.

Lemma ok_or_ok {E A} (e : E) (o : option A) a : ok_or e o = Ok a ↔ o = Some a.
Proof. destruct o; simpl; naive_solver. Qed.

Lemma map_err_ok {E F A} (f : E → F) (r : result E A) a : map_err f r = Ok a ↔ r = Ok a.
Proof. destruct r; simpl; naive_solver. Qed.

(** Splits a hypothesis saying that a chain of calls succeeded into the
    successes of its links. *)
Ltac inv_ok :=
  repeat match goal with
  | H : (_ ≫= _) = Ok _ |- _ => apply result_bind_ok in H as (? & ? & ?)
  | H : ensure _ _ = Ok _ |- _ => apply ensure_ok in H
  | H : ok_or _ _ = Ok _ |- _ => apply ok_or_ok in H
  | H : map_err _ _ = Ok _ |- _ => apply map_err_ok in H
  | H : err _ = Ok _ |- _ => discriminate H
  | H : Err _ = Ok _ |- _ => discriminate H
  | H : Ok _ = Ok _ |- _ => injection H as H; try subst
  | H : (_ && _)%bool = true |- _ => apply andb_true_iff in H as [? ?]
  end; simplify_eq.

(** ** Machine integers

    Bytes and words are [Z] with their range stated where it matters. The
    workspace builds every profile with overflow checks on (Cargo.toml), so a
    plain [+], [-] or [*] that leaves the range panics: [checked] makes the
    panic a [None]. Saturating and wrapping operations are total. *)

Definition u8_max : Z := 2 ^ 8 - 1.
Definition u16_max : Z := 2 ^ 16 - 1.
Definition u32_max : Z := 2 ^ 32 - 1.
Definition u64_max : Z := 2 ^ 64 - 1.

Definition checked (max z : Z) : option Z :=
  if (0 <=? z)%Z && (z <=? max)%Z then Some z else None.

Definition sat_add (max a b : Z) : Z := Z.min max (a + b).
Definition sat_mul (max a b : Z) : Z := Z.min max (a * b).
(** [saturating_sub] of an unsigned type. *)
Definition sat_sub (a b : Z) : Z := Z.max 0 (a - b).

Definition is_byte (b : Z) : Prop := (0 ≤ b < 256)%Z.
Definition all_bytes (l : list Z) : Prop := Forall is_byte l.

Abbreviation bytes := (list Z) (only parsing).
(** A Rust [str]/[String], as its UTF-8 bytes. *)
Abbreviation str := (list Z) (only parsing).

(** Lengths and sizes compared with the code's [usize] constants. *)
Abbreviation zlen l := (Z.of_nat (length l)) (only parsing).
Abbreviation zsize m := (Z.of_nat (size m)) (only parsing).

(** Literals: the bytes of an ASCII string. *)
Definition lit (s : string) : str :=
  (λ a, Z.of_N (Ascii.N_of_ascii a)) <$> String.list_ascii_of_string s.

Definition i64_max : Z := 2 ^ 63 - 1.
Definition i64_min : Z := - 2 ^ 63.

(** A plain arithmetic result at type [i64]. *)
Definition checked_i64 (z : Z) : result failure Z :=
  if (i64_min <=? z)%Z && (z <=? i64_max)%Z then Ok z else Err Panic.

Lemma checked_i64_ok z : (i64_min ≤ z ≤ i64_max)%Z → checked_i64 z = Ok z.
Proof.
  intros [??]. unfold checked_i64.
  by rewrite (proj2 (Z.leb_le _ _)), (proj2 (Z.leb_le z _)) by done.
Qed.

(** [dst.copy_from_slice(src)] into an array of [n] bytes. *)
Definition to_array (n : nat) (src : bytes) : result failure bytes :=
  if length src =? n then Ok src else Err Panic.

Lemma to_array_ok n l : length l = n → to_array n l = Ok l.
Proof. intros <-. unfold to_array. by rewrite Nat.eqb_refl. Qed.

Lemma checked_Some max z r :
  checked max z = Some r ↔ r = z ∧ (0 ≤ z ≤ max)%Z.
Proof. unfold checked. destruct (Z.leb_spec 0 z), (Z.leb_spec z max); simpl; naive_solver lia. Qed.

(** Little- and big-endian encodings of [n]-byte words. *)
Fixpoint to_le (n : nat) (z : Z) : bytes :=
  match n with
  | O => []
  | S n => (z mod 256)%Z :: to_le n (z / 256)%Z
  end.

Fixpoint from_le (l : bytes) : Z :=
  match l with
  | [] => 0
  | b :: l => b + 256 * from_le l
  end%Z.

Definition to_be (n : nat) (z : Z) : bytes := reverse (to_le n z).
Definition from_be (l : bytes) : Z := from_le (reverse l).

Lemma to_le_length n z : length (to_le n z) = n.
Proof. revert z; induction n; intros; simpl; auto. Qed.

Lemma to_be_length n z : length (to_be n z) = n.
Proof. unfold to_be. by rewrite length_reverse, to_le_length. Qed.

Lemma from_to_le n z :
  (0 ≤ z < 256 ^ Z.of_nat n)%Z → from_le (to_le n z) = z.
Proof.
  revert z; induction n as [|n IH]; intros z Hz; simpl.
  - change (256 ^ Z.of_nat 0)%Z with 1%Z in Hz. lia.
  - rewrite Nat2Z.inj_succ, Z.pow_succ_r in Hz by lia.
    rewrite IH.
    + pose proof (Z.div_mod z 256). lia.
    + split; [apply Z.div_pos; lia|]. apply Z.div_lt_upper_bound; lia.
Qed.

Lemma from_to_be n z :
  (0 ≤ z < 256 ^ Z.of_nat n)%Z → from_be (to_be n z) = z.
Proof. intros. unfold from_be, to_be. rewrite reverse_involutive. by apply from_to_le. Qed.

Lemma to_from_le l : all_bytes l → to_le (length l) (from_le l) = l.
Proof.
  unfold all_bytes, is_byte. induction l as [|b l IH]; intros Hl; simpl; [done|].
  apply Forall_cons in Hl as [Hb Hl].
  assert ((b + 256 * from_le l) mod 256 = b)%Z as ->.
  { rewrite Z.mul_comm, Z_mod_plus_full. apply Z.mod_small; lia. }
  assert ((b + 256 * from_le l) / 256 = from_le l)%Z as ->.
  { rewrite Z.mul_comm, Z_div_plus_full by lia. rewrite (Z.div_small b 256); lia. }
  by rewrite IH.
Qed.

Lemma from_le_range l :
  all_bytes l → (0 ≤ from_le l < 256 ^ Z.of_nat (length l))%Z.
Proof.
  unfold all_bytes, is_byte. induction l as [|b l IH]; intros Hl; simpl from_le; simpl length.
  - simpl; lia.
  - apply Forall_cons in Hl as [Hb Hl]. specialize (IH Hl).
    rewrite Nat2Z.inj_succ, Z.pow_succ_r by lia. lia.
Qed.

Lemma to_le_bytes n z : all_bytes (to_le n z).
Proof.
  unfold all_bytes, is_byte. revert z; induction n; intros; simpl; constructor; auto.
  apply Z.mod_pos_bound; lia.
Qed.

(** Closes a closed [n ≤ m] on [Z] by evaluation. *)
Ltac by_leb := apply Z.leb_le; vm_compute; reflexivity.

(** [VecDeque] as a bounded FIFO: drop the oldest element when the queue is
    already at [cap], then push. *)
Definition push_bounded {A} (cap : Z) (q : list A) (x : A) : list A :=
  (if (cap <=? zlen q)%Z then tail q else q) ++ [x].

Lemma push_bounded_length {A} cap (q : list A) x :
  (0 < cap → zlen q ≤ cap → zlen (push_bounded cap q x) ≤ cap)%Z.
Proof.
  intros Hc Hq. unfold push_bounded. destruct (Z.leb_spec cap (zlen q));
    rewrite length_app; simpl; [destruct q; simpl in *; lia|lia].
Qed.

Lemma push_bounded_in {A} cap (q : list A) x : x ∈ push_bounded cap q x.
Proof. unfold push_bounded. set_solver. Qed.

Lemma push_bounded_inv {A} cap (q : list A) x y :
  y ∈ push_bounded cap q x → y = x ∨ y ∈ q.
Proof.
  unfold push_bounded. rewrite elem_of_app, list_elem_of_singleton.
  intros [Hy| ->]; [right|by left]. case_match; [|done].
  destruct q; simpl in *; [by apply elem_of_nil in Hy|by right].
Qed.

Lemma push_bounded_nodup {A} cap (q : list A) x :
  NoDup q → x ∉ q → NoDup (push_bounded cap q x).
Proof.
  intros Hq Hx. unfold push_bounded. apply NoDup_app. split; [|split; [|apply NoDup_singleton]].
  - case_match; [|done]. destruct q; [done|]. by apply NoDup_cons in Hq as [_ ?].
  - intros y Hy ->%list_elem_of_singleton. apply Hx. case_match; [|done].
    destruct q; simpl in *; [by apply elem_of_nil in Hy|by right].
Qed.

(** ** Reachability of a state machine given by a step relation *)

Section reachable.
Context {S : Type} (init : S → Prop) (step : S → S → Prop).

Definition reachable (s : S) : Prop := ∃ s0, init s0 ∧ rtc step s0 s.

Lemma reachable_invariant (P : S → Prop) :
  (∀ s, init s → P s) → (∀ s s', P s → step s s' → P s') → ∀ s, reachable s → P s.
Proof.
  intros Hi Hs s (s0 & H0 & Hrtc). apply Hi in H0. induction Hrtc; eauto.
Qed.

Lemma reachable_step s s' : reachable s → step s s' → reachable s'.
Proof. intros (s0 & ? & ?) ?. exists s0. split; [done|]. by eapply rtc_r. Qed.

Lemma reachable_init s : init s → reachable s.
Proof. intros. exists s. split; [done|constructor]. Qed.
End reachable.

(** ** Loops

    [loop body fuel s] is [while let Some(s') = body(s) { s = s' }] cut after
    [fuel] rounds. A measure that decreases at each round bounds the rounds. *)

Section loop.
Context {St : Type} (body : St → option St).

Fixpoint loop (fuel : nat) (s : St) : option St :=
  match body s with
  | None => Some s
  | Some s' => match fuel with O => None | S fuel => loop fuel s' end
  end.

Lemma loop_total (I : St → Prop) (m : St → nat) :
  (∀ s s', I s → body s = Some s' → I s' ∧ m s' < m s) →
  ∀ fuel s, I s → m s ≤ fuel → ∃ s', loop fuel s = Some s' ∧ I s' ∧ body s' = None.
Proof.
  intros Hstep fuel. induction fuel as [|fuel IH]; intros s HI Hm; simpl;
    destruct (body s) as [s'|] eqn:Hb; try by exists s.
  - destruct (Hstep s s' HI Hb). lia.
  - destruct (Hstep s s' HI Hb). apply IH; [done|lia].
Qed.
End loop.

(** Removing a member of a finite set from a sum over the set. *)
Lemma sum_elements_remove `{Countable A} (f : A → nat) (X : gset A) x :
  x ∈ X → sum_list_with f (elements X) = f x + sum_list_with f (elements (X ∖ {[ x ]})).
Proof.
  intros Hx. rewrite (union_difference_singleton_L x X Hx) at 1.
  rewrite elements_union_singleton by set_solver. done.
Qed.

(** ** Finite maps and sets *)

Lemma size_list_to_set_le `{Countable A} (l : list A) : size (list_to_set l : gset A) ≤ length l.
Proof.
  induction l as [|x l IH]; cbn [list_to_set length]; [done|].
  rewrite size_union_alt, size_singleton.
  assert (size (list_to_set l ∖ {[ x ]} : gset A) ≤ size (list_to_set l : gset A)) by
    (apply subseteq_size; set_solver).
  lia.
Qed.

Lemma size_filter_le `{Countable K} {A} (P : K * A → Prop) `{∀ x, Decision (P x)}
    (m : gmap K A) : size (filter P m) ≤ size m.
Proof. apply map_subseteq_size, map_filter_subseteq. Qed.

Lemma size_insert_le `{Countable K} {A} (m : gmap K A) k v :
  size (<[k := v]> m) ≤ S (size m).
Proof. rewrite map_size_insert. case_match; simpl; lia. Qed.

Lemma size_insert_present `{Countable K} {A} (m : gmap K A) k v :
  is_Some (m !! k) → size (<[k := v]> m) = size m.
Proof. intros [w Hw]. rewrite map_size_insert, Hw. done. Qed.


(** ** Automation *)

Create HintDb soshal discriminated.
#[export] Hint Resolve to_le_bytes push_bounded_in : soshal.
#[export] Hint Constructors Forall : soshal.

Create Rewrite HintDb soshal_len.
(** Lengths of list expressions, then linear arithmetic. *)
#[export] Hint Rewrite @length_app @length_fmap @length_take @length_drop @length_replicate
  @length_reverse to_le_length to_be_length : soshal_len.
Ltac len := autorewrite with soshal_len in *; simpl in *; autorewrite with soshal_len in *; simpl in *; lia.

Lemma all_bytes_app l k : all_bytes (l ++ k) ↔ all_bytes l ∧ all_bytes k.
Proof. apply Forall_app. Qed.

Lemma all_bytes_take n l : all_bytes l → all_bytes (take n l).
Proof. apply Forall_take. Qed.

Lemma all_bytes_drop n l : all_bytes l → all_bytes (drop n l).
Proof. apply Forall_drop. Qed.

Lemma to_be_bytes n z : all_bytes (to_be n z).
Proof. unfold to_be, all_bytes. apply Forall_reverse, to_le_bytes. Qed.

Lemma all_bytes_replicate n b : is_byte b → all_bytes (replicate n b).
Proof. intros. by apply Forall_replicate. Qed.

#[export] Hint Resolve all_bytes_take all_bytes_drop to_be_bytes all_bytes_replicate : soshal.

Lemma zlen_eq {A} (l : list A) n : zlen l = Z.of_nat n ↔ length l = n.
Proof. lia. Qed.
