(* ===== verification/RustStr.v ===== *)
(** Rust strings as their UTF-8 bytes: validation ([str::from_utf8]),
    character boundaries, [trim], ASCII case, hexadecimal digits and decimal
    printing. These model Rust's standard library; the components use them for
    text they receive or print. *)

From S2P Require Import Prelude.

(** ** Validation *)

Definition between (lo hi b : Z) : bool := (lo <=? b)%Z && (b <=? hi)%Z.
Definition cont (b : Z) : bool := between 0x80 0xBF b.

(** [core::str::from_utf8(l).is_ok()]. *)
Fixpoint utf8_valid (l : bytes) : bool :=
  match l with
  | [] => true
  | b0 :: r0 =>
    if between 0 0x7F b0 then utf8_valid r0
    else
      match r0 with
      | [] => false
      | b1 :: r1 =>
        if between 0xC2 0xDF b0 then cont b1 && utf8_valid r1
        else
          match r1 with
          | [] => false
          | b2 :: r2 =>
            let second :=
              if (b0 =? 0xE0)%Z then between 0xA0 0xBF b1
              else if (b0 =? 0xED)%Z then between 0x80 0x9F b1 else cont b1 in
            if between 0xE0 0xEF b0 then second && cont b2 && utf8_valid r2
            else
              match r2 with
              | [] => false
              | b3 :: r3 =>
                let second :=
                  if (b0 =? 0xF0)%Z then between 0x90 0xBF b1
                  else if (b0 =? 0xF4)%Z then between 0x80 0x8F b1 else cont b1 in
                between 0xF0 0xF4 b0 && second && cont b2 && cont b3 && utf8_valid r3
              end
          end
      end
  end.

Definition from_utf8 (l : bytes) : option str := if utf8_valid l then Some l else None.

Definition is_ascii (l : bytes) : Prop := Forall (λ b, (0 ≤ b < 0x80)%Z) l.

Lemma is_ascii_valid l : is_ascii l → utf8_valid l = true.
Proof.
  unfold is_ascii. induction 1 as [|b l Hb _ IH]; [done|]. simpl.
  unfold between at 1. destruct (Z.leb_spec 0 b), (Z.leb_spec b 0x7F); simpl; (done || lia).
Qed.

Lemma from_utf8_ascii l : is_ascii l → from_utf8 l = Some l.
Proof. intros H. unfold from_utf8. by rewrite is_ascii_valid. Qed.

Lemma from_utf8_Some l s : from_utf8 l = Some s → s = l.
Proof. unfold from_utf8. case_match; naive_solver. Qed.

Lemma is_ascii_app l k : is_ascii (l ++ k) ↔ is_ascii l ∧ is_ascii k.
Proof. apply Forall_app. Qed.

Lemma is_ascii_bytes l : is_ascii l → all_bytes l.
Proof. intros H. eapply Forall_impl; [exact H|]. unfold is_byte. simpl. lia. Qed.

(** ** [str::is_char_boundary] *)

Definition is_char_boundary (s : str) (i : nat) : bool :=
  if i =? 0 then true
  else match s !! i with
       | Some b => negb (cont b)
       | None => i =? length s
       end.

(** ** [str::trim]: the [White_Space] characters at both ends *)

Fixpoint trim_start (l : str) : str :=
  match l with
  | b0 :: r0 =>
    if between 0x09 0x0D b0 || (b0 =? 0x20)%Z then trim_start r0
    else
      match r0 with
      | b1 :: r1 =>
        if (b0 =? 0xC2)%Z && ((b1 =? 0x85)%Z || (b1 =? 0xA0)%Z) then trim_start r1
        else
          match r1 with
          | b2 :: r2 =>
            if ((b0 =? 0xE1)%Z && (b1 =? 0x9A)%Z && (b2 =? 0x80)%Z)
               || ((b0 =? 0xE2)%Z && (b1 =? 0x80)%Z &&
                   (between 0x80 0x8A b2 || (b2 =? 0xA8)%Z || (b2 =? 0xA9)%Z || (b2 =? 0xAF)%Z))
               || ((b0 =? 0xE2)%Z && (b1 =? 0x81)%Z && (b2 =? 0x9F)%Z)
               || ((b0 =? 0xE3)%Z && (b1 =? 0x80)%Z && (b2 =? 0x80)%Z)
            then trim_start r2 else l
          | [] => l
          end
      | [] => l
      end
  | [] => []
  end.

(** The same characters read from the end (the bytes of each reversed). *)
Fixpoint trim_start_rev (l : str) : str :=
  match l with
  | b0 :: r0 =>
    if between 0x09 0x0D b0 || (b0 =? 0x20)%Z then trim_start_rev r0
    else
      match r0 with
      | b1 :: r1 =>
        if (b1 =? 0xC2)%Z && ((b0 =? 0x85)%Z || (b0 =? 0xA0)%Z) then trim_start_rev r1
        else
          match r1 with
          | b2 :: r2 =>
            if ((b2 =? 0xE1)%Z && (b1 =? 0x9A)%Z && (b0 =? 0x80)%Z)
               || ((b2 =? 0xE2)%Z && (b1 =? 0x80)%Z &&
                   (between 0x80 0x8A b0 || (b0 =? 0xA8)%Z || (b0 =? 0xA9)%Z || (b0 =? 0xAF)%Z))
               || ((b2 =? 0xE2)%Z && (b1 =? 0x81)%Z && (b0 =? 0x9F)%Z)
               || ((b2 =? 0xE3)%Z && (b1 =? 0x80)%Z && (b0 =? 0x80)%Z)
            then trim_start_rev r2 else l
          | [] => l
          end
      | [] => l
      end
  | [] => []
  end.

Definition trim_end (l : str) : str := reverse (trim_start_rev (reverse l)).
Definition trim (l : str) : str := trim_end (trim_start l).

(** ASCII text that starts and ends with a visible character is its own trim. *)
Definition visible (b : Z) : Prop := (0x21 ≤ b < 0x80)%Z.

Lemma visible_ascii l : Forall visible l → is_ascii l.
Proof. intros H. eapply Forall_impl; [exact H|]. unfold visible. simpl. lia. Qed.

Lemma trim_start_visible b l : visible b → trim_start (b :: l) = b :: l.
Proof.
  unfold visible. intros Hb. cbn [trim_start]. unfold between.
  destruct (Z.leb_spec 0x09 b), (Z.leb_spec b 0x0D), (Z.eqb_spec b 0x20); simpl; try lia.
  all: destruct l as [|b1 [|b2 l]]; try done.
  all: destruct (Z.eqb_spec b 0xC2), (Z.eqb_spec b 0xE1), (Z.eqb_spec b 0xE2), (Z.eqb_spec b 0xE3);
    simpl; (done || lia).
Qed.

Lemma trim_start_rev_visible b l : visible b → trim_start_rev (b :: l) = b :: l.
Proof.
  unfold visible. intros Hb. cbn [trim_start_rev]. unfold between.
  destruct (Z.leb_spec 0x09 b), (Z.leb_spec b 0x0D), (Z.eqb_spec b 0x20); simpl; try lia.
  all: destruct l as [|b1 [|b2 l]]; try done.
  all: destruct (Z.eqb_spec b 0x85), (Z.eqb_spec b 0xA0), (Z.eqb_spec b 0x80), (Z.eqb_spec b 0xA8),
    (Z.eqb_spec b 0xA9), (Z.eqb_spec b 0xAF), (Z.eqb_spec b 0x9F), (Z.leb_spec 0x80 b);
    simpl; try lia; rewrite ?andb_false_r, ?orb_false_r; done.
Qed.

Lemma trim_visible l : Forall visible l → trim l = l.
Proof.
  intros Hl. unfold trim, trim_end. destruct l as [|b l]; [done|].
  rewrite trim_start_visible by (by inversion Hl).
  destruct (reverse (b :: l)) as [|c k] eqn:E; [by apply (f_equal length) in E; rewrite length_reverse in E|].
  assert (Hc : visible c).
  { rewrite <-(reverse_involutive (b :: l)), E, Forall_reverse in Hl. by inversion Hl. }
  rewrite trim_start_rev_visible by done. by rewrite <-E, reverse_involutive.
Qed.

(** ** ASCII *)

Definition to_ascii_lowercase_byte (b : Z) : Z := if between 0x41 0x5A b then (b + 32)%Z else b.
Definition to_ascii_lowercase (s : str) : str := to_ascii_lowercase_byte <$> s.

Definition is_ascii_digit (b : Z) : bool := between 0x30 0x39 b.
Definition is_ascii_hexdigit (b : Z) : bool :=
  between 0x30 0x39 b || between 0x41 0x46 b || between 0x61 0x66 b.

Lemma to_ascii_lowercase_idemp s : to_ascii_lowercase (to_ascii_lowercase s) = to_ascii_lowercase s.
Proof.
  unfold to_ascii_lowercase. rewrite <-list_fmap_compose. apply list_fmap_ext. intros _ b _. simpl.
  unfold to_ascii_lowercase_byte, between.
  destruct (Z.leb_spec 0x41 b), (Z.leb_spec b 0x5A); simpl;
    destruct (Z.leb_spec 0x41 (b + 32)), (Z.leb_spec (b + 32) 0x5A),
      (Z.leb_spec 0x41 b), (Z.leb_spec b 0x5A); simpl; lia.
Qed.

(** [str::eq_ignore_ascii_case]. *)
Definition eq_ignore_ascii_case (a b : str) : bool := bool_decide (to_ascii_lowercase a = to_ascii_lowercase b).

(** ** Decimal printing of an unsigned integer ([u64]'s [Display]) *)

Fixpoint digits (fuel : nat) (z : Z) : str :=
  match fuel with
  | O => []
  | S fuel => (if (z <? 10)%Z then [] else digits fuel (z / 10)%Z) ++ [(0x30 + z mod 10)%Z]
  end.

(** Twenty digits print every [u64]. *)
Definition print_u64 (z : Z) : str := digits 20 z.

Definition from_digits (s : str) : Z := foldl (λ acc b, acc * 10 + (b - 0x30))%Z 0%Z s.

Lemma from_digits_app s b : from_digits (s ++ [b]) = (from_digits s * 10 + (b - 0x30))%Z.
Proof. unfold from_digits. by rewrite foldl_app. Qed.

Lemma from_digits_digits n z : (0 ≤ z < 10 ^ Z.of_nat n)%Z → from_digits (digits n z) = z.
Proof.
  revert z. induction n as [|n IH]; intros z Hz; [change (10 ^ Z.of_nat 0)%Z with 1%Z in Hz; simpl; unfold from_digits; simpl; lia|].
  rewrite Nat2Z.inj_succ, Z.pow_succ_r in Hz by lia.
  simpl. rewrite from_digits_app. pose proof (Z.div_mod z 10).
  destruct (Z.ltb_spec z 10).
  - rewrite (Z.mod_small z 10) by lia. unfold from_digits. simpl. lia.
  - rewrite IH; [lia|]. split; [apply Z.div_pos; lia|apply Z.div_lt_upper_bound; lia].
Qed.

Lemma print_u64_inj x y :
  (0 ≤ x ≤ u64_max)%Z → (0 ≤ y ≤ u64_max)%Z → print_u64 x = print_u64 y → x = y.
Proof.
  intros Hx Hy E. apply (f_equal from_digits) in E. unfold print_u64 in E.
  assert (u64_max < 10 ^ Z.of_nat 20)%Z by (vm_compute; reflexivity).
  rewrite !from_digits_digits in E; lia.
Qed.

(** ** Signed printing and parsing *)

Definition print_i64 (z : Z) : str :=
  if (z <? 0)%Z then 0x2D%Z :: digits 20 (- z) else digits 20 z.

(** [str::parse] of an unsigned integer in [0..max]: an optional plus sign,
    then at least one digit. *)
Definition parse_digits (s : str) : option Z :=
  if bool_decide (s ≠ []) && forallb is_ascii_digit s then Some (from_digits s) else None.

Definition parse_unsigned (max : Z) (s : str) : option Z :=
  v ← parse_digits (match s with 0x2B%Z :: r => r | _ => s end);
  if (v <=? max)%Z then Some v else None.

Definition parse_u8 : str → option Z := parse_unsigned u8_max.
Definition parse_u64 : str → option Z := parse_unsigned u64_max.

Definition parse_i64 (s : str) : option Z :=
  v ← match s with
      | 0x2D%Z :: r => Z.opp <$> parse_digits r
      | 0x2B%Z :: r => parse_digits r
      | _ => parse_digits s
      end;
  if (i64_min <=? v)%Z && (v <=? i64_max)%Z then Some v else None.

Lemma digits_nonempty n z : n ≠ 0 → digits n z ≠ [].
Proof. destruct n; [done|]. intros _ E. simpl in E. by apply app_nil in E as [_ ?]. Qed.

Lemma digits_digits n z : (0 ≤ z)%Z → forallb is_ascii_digit (digits n z) = true.
Proof.
  revert z. induction n as [|n IH]; intros z Hz; [done|]. simpl. rewrite forallb_app. simpl.
  assert (is_ascii_digit (0x30 + z mod 10) = true) as ->.
  { unfold is_ascii_digit, between. pose proof (Z.mod_pos_bound z 10).
    apply andb_true_iff; split; apply Z.leb_le; lia. }
  rewrite !andb_true_r. destruct (_ <? _)%Z; [done|]. apply IH, Z.div_pos; lia.
Qed.

Lemma digits_head n z c r : (0 ≤ z)%Z → digits n z = c :: r → is_ascii_digit c = true.
Proof.
  intros Hz E. pose proof (digits_digits n z Hz) as H. rewrite E in H. simpl in H.
  by apply andb_true_iff in H as [? _].
Qed.

Lemma parse_digits_digits z : (0 ≤ z < 10 ^ 20)%Z → parse_digits (digits 20 z) = Some z.
Proof.
  intros Hz. unfold parse_digits. rewrite bool_decide_eq_true_2 by (by apply digits_nonempty).
  rewrite digits_digits by lia. simpl andb. cbn iota. f_equal. apply from_digits_digits. lia.
Qed.

Lemma digits_not_sign z c r : (0 ≤ z)%Z → digits 20 z = c :: r → c ≠ 0x2B%Z ∧ c ≠ 0x2D%Z.
Proof.
  intros Hz E%digits_head; [|done]. unfold is_ascii_digit, between in E.
  apply andb_true_iff in E as [?%Z.leb_le ?%Z.leb_le]. lia.
Qed.

Lemma match_sign {A} c (x y w : A) :
  c ≠ 0x2B%Z → c ≠ 0x2D%Z → match c with 0x2D%Z => x | 0x2B%Z => y | _ => w end = w.
Proof. intros. repeat (case_match; try done). Qed.

Lemma parse_print_i64 z : (i64_min ≤ z ≤ i64_max)%Z → parse_i64 (print_i64 z) = Some z.
Proof.
  intros Hz. assert (i64_max < 10 ^ 20 ∧ - i64_min < 10 ^ 20)%Z by (vm_compute; split; reflexivity).
  unfold parse_i64, print_i64. destruct (Z.ltb_spec z 0) as [Hneg|Hpos].
  - rewrite parse_digits_digits by lia. cbn [fmap option_fmap option_map mbind option_bind].
    rewrite Z.opp_involutive, (proj2 (Z.leb_le _ _)), (proj2 (Z.leb_le z _)) by lia. done.
  - destruct (digits 20 z) as [|c r] eqn:E; [by apply digits_nonempty in E|].
    destruct (digits_not_sign z c r) as [H1 H2]; [lia|done|].
    pose proof (match_sign c (Z.opp <$> parse_digits r) (parse_digits r) (parse_digits (c :: r)) H1 H2) as Hm.
    rewrite Hm, <-E, parse_digits_digits by lia. cbn [mbind option_bind].
    rewrite (proj2 (Z.leb_le _ _)), (proj2 (Z.leb_le z _)) by lia. done.
Qed.

(** ** The order of strings: lexicographic on bytes *)

Fixpoint str_leb (a b : str) : bool :=
  match a, b with
  | [], _ => true
  | _ :: _, [] => false
  | x :: a, y :: b => if (x <? y)%Z then true else if (y <? x)%Z then false else str_leb a b
  end.

Lemma str_leb_total a b : str_leb a b = true ∨ str_leb b a = true.
Proof.
  revert b. induction a as [|x a IH]; intros [|y b]; simpl; auto.
  destruct (Z.ltb_spec x y); [auto|]. destruct (Z.ltb_spec y x); [auto|apply IH].
Qed.

Lemma str_leb_antisym a b : str_leb a b = true → str_leb b a = true → a = b.
Proof.
  revert b. induction a as [|x a IH]; intros [|y b]; simpl; try done.
  destruct (Z.ltb_spec x y), (Z.ltb_spec y x); try done; try lia.
  intros. f_equal; [lia|by apply IH].
Qed.

Lemma str_leb_refl a : str_leb a a = true.
Proof. induction a as [|x a IH]; simpl; [done|]. by rewrite Z.ltb_irrefl. Qed.

Lemma str_leb_trans a b c : str_leb a b = true → str_leb b c = true → str_leb a c = true.
Proof.
  revert b c. induction a as [|x a IH]; intros [|y b] [|z c]; simpl; try done.
  destruct (Z.ltb_spec x y), (Z.ltb_spec y z), (Z.ltb_spec y x), (Z.ltb_spec z y),
    (Z.ltb_spec x z), (Z.ltb_spec z x); try done; try lia. apply IH.
Qed.

(** ** Prefixes *)

(** [str::strip_prefix]. *)
Fixpoint strip_prefix (p s : str) : option str :=
  match p, s with
  | [], _ => Some s
  | a :: p, b :: s => if (a =? b)%Z then strip_prefix p s else None
  | _ :: _, [] => None
  end.

Lemma strip_prefix_app p s : strip_prefix p (p ++ s) = Some s.
Proof. induction p as [|a p IH]; simpl; [by destruct s|]. by rewrite Z.eqb_refl. Qed.

Lemma strip_prefix_inv p s r : strip_prefix p s = Some r → s = p ++ r.
Proof.
  revert s. induction p as [|a p IH]; intros s; cbn [strip_prefix]; [by intros [= ->]|].
  destruct s as [|b s]; [done|]. destruct (Z.eqb_spec a b) as [->|]; [|done]. intros ->%IH. done.
Qed.

(** The two sides of [str::split_once] at an ASCII character. *)
Fixpoint split_once (c : Z) (s : str) : option (str * str) :=
  match s with
  | [] => None
  | b :: s => if (b =? c)%Z then Some ([], s) else '(l, r) ← split_once c s; Some (b :: l, r)
  end.

Lemma split_once_app c l r : c ∉ l → split_once c (l ++ c :: r) = Some (l, r).
Proof.
  induction l as [|b l IH]; intros Hl; cbn [app split_once]; [by rewrite Z.eqb_refl|].
  destruct (Z.eqb_spec b c) as [->|_]; [by destruct Hl; left|]. rewrite IH; [done|]. intros ?. apply Hl. by right.
Qed.

Lemma eq_ignore_ascii_case_true a b : eq_ignore_ascii_case a b = true ↔ to_ascii_lowercase a = to_ascii_lowercase b.
Proof. apply bool_decide_eq_true. Qed.

(** ** Characters *)

(** [s.chars().count()]: the bytes that do not continue a character. *)
Definition chars_count (s : str) : Z := Z.of_nat (length (filter (λ b, cont b = false) s)).

(** The hexadecimal form of [format!("{:x}")], for at most [n] digits. *)
Fixpoint hex_digits (n : nat) (z : Z) : str :=
  let digit d := if (d <? 10)%Z then (0x30 + d)%Z else (0x57 + d)%Z in
  match n with
  | O => []
  | S n => (if (z <? 16)%Z then [] else hex_digits n (z / 16)%Z) ++ [digit (z mod 16)%Z]
  end.
