(* ===== verification/Bounded.v ===== *)
(** The bounded FIFO collections shared by the cores
    (src/common-core/src/bounded.rs). [BoundedSet] is shown to implement a
    sliding window of keys, [BoundedMap] a bounded insertion-ordered map; both
    are used by the gossip and relay components through the lemmas here. *)

From S2P Require Import Prelude.

Section bounded_set.
Context `{Countable A}.

(** Source: src/common-core/src/bounded.rs:24-28 (BoundedSet) *)
Record BoundedSet := mk_bset {
  bs_set : gset A;
  bs_order : list A;
  bs_capacity : Z
}.

(** Source: src/common-core/src/bounded.rs:33-39 (BoundedSet::new) *)
Definition bs_new (capacity : Z) : BoundedSet := mk_bset ∅ [] capacity.

(** The loop [while order.len() > capacity { pop_front; set.remove }].
    Source: src/common-core/src/bounded.rs:47-51 (BoundedSet::insert, eviction loop) *)
Fixpoint bs_evict (capacity : Z) (order : list A) (set : gset A) : list A * gset A :=
  match order with
  | [] => ([], set)
  | oldest :: rest =>
      if (capacity <? zlen order)%Z then bs_evict capacity rest (set ∖ {[ oldest ]})
      else (order, set)
  end.

(** Source: src/common-core/src/bounded.rs:44-56 (BoundedSet::insert) *)
Definition bs_insert (s : BoundedSet) (key : A) : BoundedSet * bool :=
  if decide (key ∈ bs_set s) then (s, false)
  else
    let '(order, set) :=
      bs_evict (bs_capacity s) (bs_order s ++ [key]) ({[ key ]} ∪ bs_set s) in
    (mk_bset set order (bs_capacity s), true).

(** Source: src/common-core/src/bounded.rs:59-61 (BoundedSet::contains) *)
Definition bs_contains (s : BoundedSet) (key : A) : bool := bool_decide (key ∈ bs_set s).

(** Source: src/common-core/src/bounded.rs:64-66 (BoundedSet::len) *)
Definition bs_len (s : BoundedSet) : nat := size (bs_set s).

(** Source: src/common-core/src/bounded.rs:69-71 (BoundedSet::is_empty) *)
Definition bs_is_empty (s : BoundedSet) : bool := bool_decide (bs_set s = ∅).

(** Source: src/common-core/src/bounded.rs:74-77 (BoundedSet::clear) *)
Definition bs_clear (s : BoundedSet) : BoundedSet := mk_bset ∅ [] (bs_capacity s).

(** ** Abstract specification: a sliding window of distinct keys *)

Definition lastn (n : nat) (l : list A) : list A := drop (length l - n) l.

Definition window_insert (cap : Z) (w : list A) (k : A) : list A :=
  if decide (k ∈ w) then w else lastn (Z.to_nat cap) (w ++ [k]).

Inductive set_op := SInsert (k : A) | SClear.

Definition window_op (cap : Z) (w : list A) (o : set_op) : list A :=
  match o with SInsert k => window_insert cap w k | SClear => [] end.

Definition bs_op (s : BoundedSet) (o : set_op) : BoundedSet :=
  match o with SInsert k => (bs_insert s k).1 | SClear => bs_clear s end.

(** The refinement relation: [bs_order] is the window and [bs_set] its
    elements. *)
Record bs_refines (s : BoundedSet) (w : list A) : Prop := {
  bsr_order : bs_order s = w;
  bsr_set : bs_set s = list_to_set w;
  bsr_nodup : NoDup w;
  bsr_cap : (zlen w ≤ bs_capacity s)%Z
}.

Lemma bs_evict_spec cap order set :
  (0 ≤ cap)%Z → NoDup order → set = list_to_set order →
  bs_evict cap order set =
    (lastn (Z.to_nat cap) order, list_to_set (lastn (Z.to_nat cap) order)).
Proof.
  intros Hcap. revert set. unfold lastn.
  induction order as [|x rest IH]; intros set Hnd ->; [done|].
  cbn [bs_evict]. apply NoDup_cons in Hnd as [Hx Hnd].
  destruct (Z.ltb_spec cap (zlen (x :: rest))) as [Hlt|Hge]; cbn [length] in *.
  - rewrite IH; [|done|set_solver].
    replace (S (length rest) - Z.to_nat cap) with (S (length rest - Z.to_nat cap)) by lia.
    done.
  - replace (S (length rest) - Z.to_nat cap) with 0 by lia. done.
Qed.

Lemma lastn_length n (l : list A) : length (lastn n l) = length l `min` n.
Proof. unfold lastn. rewrite length_drop. lia. Qed.

Lemma lastn_nodup n (l : list A) : NoDup l → NoDup (lastn n l).
Proof.
  intros Hl. unfold lastn. rewrite <-(take_drop (length l - n) l) in Hl.
  by apply NoDup_app in Hl as (_ & _ & ?).
Qed.

Lemma bs_insert_refines s w k :
  (0 ≤ bs_capacity s)%Z → bs_refines s w →
  bs_refines (bs_insert s k).1 (window_insert (bs_capacity s) w k) ∧
  (bs_insert s k).2 = bool_decide (k ∉ w) ∧
  bs_capacity (bs_insert s k).1 = bs_capacity s.
Proof.
  intros Hcap [Ho Hs Hnd Hc]. unfold bs_insert, window_insert. subst w.
  assert (Hin : k ∈ bs_set s ↔ k ∈ bs_order s) by (rewrite Hs; set_solver).
  destruct (decide (k ∈ bs_set s)) as [Hk|Hk].
  - rewrite decide_True, bool_decide_eq_false_2 by tauto. done.
  - rewrite decide_False, bool_decide_eq_true_2 by tauto.
    assert (NoDup (bs_order s ++ [k])).
    { apply NoDup_app. split; [done|]. split; [|apply NoDup_singleton]. set_solver. }
    rewrite bs_evict_spec; [|done|done|set_solver].
    split; [|done]. constructor; simpl; [done|done|by apply lastn_nodup|].
    rewrite lastn_length, length_app. simpl. lia.
Qed.

Lemma bs_new_refines cap : (0 ≤ cap)%Z → bs_refines (bs_new cap) [].
Proof. intros. constructor; simpl; [done|done|constructor|done]. Qed.

Lemma bs_contains_refines s w k : bs_refines s w → bs_contains s k = bool_decide (k ∈ w).
Proof. intros [<- Hs _ _]. unfold bs_contains. apply bool_decide_ext. rewrite Hs. set_solver. Qed.

Lemma bs_len_refines s w : bs_refines s w → bs_len s = length w.
Proof. intros [<- Hs ? _]. unfold bs_len. rewrite Hs. by apply size_list_to_set. Qed.

Lemma bs_op_refines s w o :
  (0 ≤ bs_capacity s)%Z → bs_refines s w →
  bs_refines (bs_op s o) (window_op (bs_capacity s) w o) ∧
  bs_capacity (bs_op s o) = bs_capacity s.
Proof.
  intros Hcap Hr. destruct o; simpl.
  - by destruct (bs_insert_refines s w k) as (? & _ & ?).
  - split; [|done]. constructor; simpl; [done|done|constructor|lia].
Qed.

(** [BoundedSet] refines the sliding window: after any sequence of
    inserts and clears it holds exactly the window's keys, at most [capacity]
    of them and without repetition, and every observation ([contains], [len],
    the result of the next [insert]) is the window's. *)
Theorem bounded_set_refines_window (cap : Z) (ops : list set_op) (k : A) :
  (0 ≤ cap)%Z →
  let s := foldl bs_op (bs_new cap) ops in
  let w := foldl (window_op cap) [] ops in
  NoDup w ∧ (zlen w ≤ cap)%Z ∧
  bs_contains s k = bool_decide (k ∈ w) ∧
  bs_len s = length w ∧
  (bs_insert s k).2 = bool_decide (k ∉ w).
Proof.
  intros Hcap s w.
  assert (Hr : bs_refines s w ∧ bs_capacity s = cap).
  { subst s w. generalize (bs_new_refines cap Hcap).
    assert (Hcp : bs_capacity (bs_new cap) = cap) by done. revert Hcp.
    generalize (bs_new cap), (@nil A). induction ops as [|o ops IH]; intros s w Hcp Hr; [done|].
    simpl. destruct (bs_op_refines s w o) as [Hr' Hcp']; [lia|done|].
    rewrite Hcp in Hr', Hcp'. by apply IH. }
  destruct Hr as [Hr Hc]. pose proof Hr as [_ _ Hnd Hlen].
  split; [done|]. split; [lia|]. split; [by apply bs_contains_refines|].
  split; [by apply bs_len_refines|]. apply bs_insert_refines; [lia|done].
Qed.

End bounded_set.
Arguments BoundedSet A {_ _}.

Lemma bounded_set_refines_window_witness :
  bs_contains (foldl bs_op (bs_new (A:=nat) 2) [SInsert 1; SInsert 2; SInsert 1; SInsert 3]) 1 = false.
Proof.
  destruct (bounded_set_refines_window (A:=nat) 2
    [SInsert 1; SInsert 2; SInsert 1; SInsert 3] 1) as (_ & _ & H & _); [lia|].
  rewrite H. vm_compute. reflexivity.
Defined.

Section bounded_map.
Context `{Countable K} {V : Type}.

(** Source: src/common-core/src/bounded.rs:89-93 (BoundedMap) *)
Record BoundedMap := mk_bmap {
  bm_map : gmap K V;
  bm_order : list K;
  bm_capacity : Z
}.

(** Source: src/common-core/src/bounded.rs:98-104 (BoundedMap::new) *)
Definition bm_new (capacity : Z) : BoundedMap := mk_bmap ∅ [] capacity.

(** The eviction done before a new key is recorded: the remaining order and
    map. Source: src/common-core/src/bounded.rs:113-117 (BoundedMap::insert, eviction) *)
Definition bm_make_room (m : BoundedMap) : list K * gmap K V :=
  if (bm_capacity m <=? zlen (bm_order m))%Z then
    match bm_order m with
    | oldest :: rest => (rest, delete oldest (bm_map m))
    | [] => ([], bm_map m)
    end
  else (bm_order m, bm_map m).

(** The updated map and the previous value.
    Source: src/common-core/src/bounded.rs:110-121 (BoundedMap::insert) *)
Definition bm_insert (m : BoundedMap) (key : K) (value : V) : BoundedMap * option V :=
  match bm_map m !! key with
  | Some prev => (mk_bmap (<[key := value]> (bm_map m)) (bm_order m) (bm_capacity m), Some prev)
  | None =>
      let '(order, map) := bm_make_room m in
      (mk_bmap (<[key := value]> map) (order ++ [key]) (bm_capacity m), map !! key)
  end.

(** Source: src/common-core/src/bounded.rs:124-126 (BoundedMap::get) *)
Definition bm_get (m : BoundedMap) (key : K) : option V := bm_map m !! key.

(** Source: src/common-core/src/bounded.rs:129-131 (BoundedMap::contains_key) *)
Definition bm_contains_key (m : BoundedMap) (key : K) : bool := bool_decide (is_Some (bm_map m !! key)).

(** Source: src/common-core/src/bounded.rs:135-141 (BoundedMap::remove) *)
Definition bm_remove (m : BoundedMap) (key : K) : BoundedMap * option V :=
  match bm_map m !! key with
  | Some v =>
      (mk_bmap (delete key (bm_map m)) (filter (λ k, k ≠ key) (bm_order m)) (bm_capacity m), Some v)
  | None => (mk_bmap (delete key (bm_map m)) (bm_order m) (bm_capacity m), None)
  end.

(** Source: src/common-core/src/bounded.rs:144-146 (BoundedMap::len) *)
Definition bm_len (m : BoundedMap) : nat := size (bm_map m).

(** Source: src/common-core/src/bounded.rs:149-151 (BoundedMap::is_empty) *)
Definition bm_is_empty (m : BoundedMap) : bool := bool_decide (bm_map m = ∅).

(** Source: src/common-core/src/bounded.rs:154-157 (BoundedMap::clear) *)
Definition bm_clear (m : BoundedMap) : BoundedMap := mk_bmap ∅ [] (bm_capacity m).

(** The insertion order lists exactly the keys, once each; the map holds at
    most [capacity] of them, one when the capacity is zero. *)
Record bm_wf (m : BoundedMap) : Prop := {
  bmw_keys : ∀ k, k ∈ bm_order m ↔ is_Some (bm_map m !! k);
  bmw_nodup : NoDup (bm_order m);
  bmw_cap : (zlen (bm_order m) ≤ Z.max 1 (bm_capacity m))%Z
}.

Inductive map_op := MInsert (k : K) (v : V) | MRemove (k : K) | MClear.

Definition bm_op (m : BoundedMap) (o : map_op) : BoundedMap :=
  match o with
  | MInsert k v => (bm_insert m k v).1
  | MRemove k => (bm_remove m k).1
  | MClear => bm_clear m
  end.

Lemma bm_new_wf cap : bm_wf (bm_new cap).
Proof.
  constructor; simpl; [|constructor|lia].
  intros k. rewrite lookup_empty. split; [by intros ?%elem_of_nil|by intros []].
Qed.

(** The key evicted by the insertion of [key], if any. *)
Definition bm_victim (m : BoundedMap) (key : K) : option K :=
  match bm_map m !! key with
  | Some _ => None
  | None => if (bm_capacity m <=? zlen (bm_order m))%Z then head (bm_order m) else None
  end.

Lemma bm_insert_get m key value k :
  bm_get (bm_insert m key value).1 k =
    if decide (k = key) then Some value
    else if decide (bm_victim m key = Some k) then None else bm_get m k.
Proof.
  unfold bm_insert, bm_get, bm_victim, bm_make_room.
  destruct (decide (k = key)) as [->|Hne].
  - destruct (bm_map m !! key); simpl; [by rewrite lookup_insert_eq|].
    fold (bm_make_room m). destruct (bm_make_room m). simpl. by rewrite lookup_insert_eq.
  - destruct (bm_map m !! key); simpl; [by rewrite lookup_insert_ne|].
    destruct (_ <=? _)%Z; [destruct (bm_order m) as [|x rest]|]; simpl;
      rewrite lookup_insert_ne by done; [done| |done].
    destruct (decide (Some x = Some k)) as [[= ->]|Hx]; [by rewrite lookup_delete_eq|].
    rewrite lookup_delete_ne; [done|congruence].
Qed.

Lemma bm_insert_wf m k v : bm_wf m → bm_wf (bm_insert m k v).1.
Proof.
  intros [Hk Hnd Hc]. unfold bm_insert, bm_make_room.
  destruct (bm_map m !! k) as [p|] eqn:Ek; simpl.
  { constructor; simpl; [|done|done]. intros k'. rewrite Hk, lookup_insert.
    case_decide; [subst; split; [|rewrite Ek]; eauto|done]. }
  assert (Hfresh : k ∉ bm_order m) by (rewrite Hk, Ek; by intros []).
  destruct (Z.leb_spec (bm_capacity m) (zlen (bm_order m))) as [Hfull|Hroom];
    [destruct (bm_order m) as [|x rest] eqn:Eo|]; simpl.
  - constructor; simpl; [|apply NoDup_singleton|lia]. intros k'.
    rewrite list_elem_of_singleton, lookup_insert.
    case_decide; [naive_solver|]. rewrite <-Hk, elem_of_nil. naive_solver.
  - apply NoDup_cons in Hnd as [Hx Hnd]. constructor; simpl.
    + intros k'. rewrite elem_of_app, list_elem_of_singleton, lookup_insert.
      case_decide; [naive_solver|].
      destruct (decide (k' = x)) as [->|Hkx].
      * rewrite lookup_delete_eq. split; [naive_solver|by intros []].
      * rewrite lookup_delete_ne, <-Hk by done. rewrite elem_of_cons. naive_solver.
    + apply NoDup_app. split; [done|]. split; [set_solver|apply NoDup_singleton].
    + rewrite length_app. simpl in *. lia.
  - constructor; simpl.
    + intros k'. rewrite elem_of_app, list_elem_of_singleton, lookup_insert, Hk.
      case_decide; naive_solver.
    + apply NoDup_app. split; [done|]. split; [set_solver|apply NoDup_singleton].
    + rewrite length_app. simpl. lia.
Qed.

Lemma bm_remove_wf m k : bm_wf m → bm_wf (bm_remove m k).1.
Proof.
  intros [Hk Hnd Hc]. unfold bm_remove.
  destruct (bm_map m !! k) as [p|] eqn:Ek; simpl; constructor; simpl.
  - intros k'. rewrite list_elem_of_filter, lookup_delete, Hk. case_decide; naive_solver.
  - by apply NoDup_filter.
  - pose proof (length_filter (λ k', k' ≠ k) (bm_order m)). lia.
  - intros k'. rewrite lookup_delete, Hk. case_decide; [subst; rewrite Ek|done]. naive_solver.
  - done.
  - done.
Qed.

Lemma bm_op_wf m o : bm_wf m → bm_wf (bm_op m o).
Proof.
  destruct o; simpl; [apply bm_insert_wf|apply bm_remove_wf|].
  intros _. apply (bm_new_wf (bm_capacity m)).
Qed.

Lemma bm_wf_len m : bm_wf m → bm_len m = length (bm_order m).
Proof.
  intros [Hk Hnd _]. unfold bm_len. rewrite <-size_dom, <-(size_list_to_set (C:=gset K)) by done.
  f_equal. apply set_eq. intros k. rewrite elem_of_list_to_set, elem_of_dom. by rewrite Hk.
Qed.

(** After any sequence of operations a [BoundedMap] holds at most
    [capacity] entries (one when the capacity is zero), its eviction order
    lists exactly its keys, and one more [insert] stores the new value,
    removes nothing but the oldest key, and that only when a new key meets a
    full map. *)
Theorem bounded_map_correct (cap : Z) (ops : list map_op) (key : K) (value : V) :
  let m := foldl bm_op (bm_new cap) ops in
  (Z.of_nat (bm_len m) ≤ Z.max 1 cap)%Z ∧
  NoDup (bm_order m) ∧ (∀ k, k ∈ bm_order m ↔ is_Some (bm_get m k)) ∧
  (∀ k, bm_get (bm_insert m key value).1 k =
    if decide (k = key) then Some value
    else if decide (bm_victim m key = Some k) then None else bm_get m k) ∧
  (bm_insert m key value).2 = bm_get m key.
Proof.
  intros m.
  assert (Hwf : bm_wf m ∧ bm_capacity m = cap).
  { subst m. generalize (bm_new_wf cap).
    assert (Hc : bm_capacity (bm_new cap) = cap) by done. revert Hc.
    generalize (bm_new cap). induction ops as [|o ops IH]; intros m Hc Hm; [done|].
    simpl. apply IH; [|by apply bm_op_wf]. destruct o; simpl; [| |done].
    - unfold bm_insert, bm_make_room. repeat case_match; simplify_eq; done.
    - unfold bm_remove. repeat case_match; done. }
  destruct Hwf as [Hwf Hc]. pose proof Hwf as [Hk Hnd Hcap].
  rewrite bm_wf_len by done. split; [lia|]. split; [done|]. split; [done|].
  split; [intros; apply bm_insert_get|].
  unfold bm_insert, bm_get. destruct (bm_map m !! key) eqn:Ek; [done|].
  unfold bm_make_room. repeat case_match; simplify_eq; simpl; try done.
  rewrite lookup_delete. by case_decide.
Qed.

End bounded_map.
Arguments BoundedMap K {_ _} V.
