(* ===== verification/Primitives.v ===== *)
(** The third-party cryptographic primitives the code calls, as an interface:
    the operations ([Primitives]), the documented behaviour the proofs rely on
    ([PrimitiveLaws]), and a concrete instance that satisfies the laws, used
    to evaluate the components on concrete inputs. *)

From S2P Require Import Prelude RustStr.

(** What a write to a flate2 decoder comes to: it takes the bytes, the stream
    has ended before their end, or it fails. *)
Inductive written := Taken | StreamEnded | Broken.

Class Primitives := {
  (** ring: SHA-256, HMAC-SHA256 and HKDF-SHA256 *)
  sha256 : bytes → bytes;
  hmac_sha256 : bytes → bytes → bytes;
  hkdf_sha256 : bytes → bytes → bytes → nat → option bytes;
  (** chacha20: the keystream applied to a buffer *)
  chacha20 : bytes → bytes → bytes → bytes;
  (** chacha20poly1305: key, nonce, message, associated data *)
  p1305_encrypt : bytes → bytes → bytes → bytes → option bytes;
  p1305_decrypt : bytes → bytes → bytes → bytes → option bytes;
  (** base64 (standard alphabet) and hex *)
  base64_encode : bytes → str;
  base64_decode : str → option bytes;
  hex_encode : bytes → str;
  hex_decode_str : str → option bytes;
  (** x25519-dalek: the public key of a secret, and the shared secret *)
  x25519_public : bytes → bytes;
  x25519 : bytes → bytes → bytes;
  (** ml-kem: the encapsulation key of a seed; encapsulation with the
      randomness given; decapsulation *)
  mlkem_ek : bytes → bytes;
  mlkem_encapsulate : bytes → bytes → option (bytes * bytes);
  mlkem_decapsulate : bytes → bytes → option bytes;
  (** subtle: comparison of two slices in constant time *)
  ct_eq : bytes → bytes → bool;
  (** flate2: deflate, and a decoder by what was written into it: what a
      further write comes to, how much it has put out, and all it puts out *)
  deflate : bytes → option bytes;
  inflate_write : bytes → bytes → written;
  inflate_total_out : bytes → Z;
  inflate_finish : bytes → option bytes;
  (** serde_json: the contents of a parsed JSON string, or the printed form
      of any other value *)
  json_text : bytes → option bytes
}.

Class PrimitiveLaws `{Primitives} : Prop := {
  sha256_length d : length (sha256 d) = 32;
  sha256_bytes d : all_bytes (sha256 d);
  hmac_length k d : length (hmac_sha256 k d) = 32;
  hmac_bytes k d : all_bytes (hmac_sha256 k d);
  (** RFC 5869: any output of at most 255 blocks *)
  hkdf_some ikm salt info n : n ≤ 255 * 32 →
    ∃ okm, hkdf_sha256 ikm salt info n = Some okm ∧ length okm = n ∧ all_bytes okm;
  (** a stream cipher *)
  chacha20_involutive k n d : all_bytes d → chacha20 k n (chacha20 k n d) = d;
  chacha20_length k n d : length (chacha20 k n d) = length d;
  chacha20_bytes k n d : all_bytes d → all_bytes (chacha20 k n d);
  base64_roundtrip d : all_bytes d → base64_decode (base64_encode d) = Some d;
  base64_length d : length (base64_encode d) = 4 * ((length d + 2) / 3);
  base64_visible d : all_bytes d → Forall visible (base64_encode d);
  hex_roundtrip d : all_bytes d → hex_decode_str (hex_encode d) = Some d;
  hex_length d : length (hex_encode d) = 2 * length d;
  hex_visible d : all_bytes d → Forall visible (hex_encode d);
  x25519_public_length s : length (x25519_public s) = 32;
  x25519_public_bytes s : all_bytes (x25519_public s);
  x25519_agree a b : x25519 a (x25519_public b) = x25519 b (x25519_public a);
  x25519_length a b : length (x25519 a b) = 32;
  mlkem_ek_length s : length (mlkem_ek s) = 1184;
  mlkem_ek_bytes s : all_bytes (mlkem_ek s);
  (** encapsulation to a generated key succeeds, and decapsulates to the
      same secret (up to a decryption failure of negligible probability,
      neglected here as the code does) *)
  mlkem_correct coins s : ∃ ct ss,
    mlkem_encapsulate coins (mlkem_ek s) = Some (ct, ss) ∧
    length ct = 1088 ∧ all_bytes ct ∧ length ss = 32 ∧
    mlkem_decapsulate s ct = Some ss;
  ct_eq_iff a b : ct_eq a b = true ↔ a = b;
  (** what was deflated is taken in pieces, puts out no more on the way than
      there was, and is recovered in the end *)
  inflate_taken d z pre chunk rest : deflate d = Some z → z = pre ++ chunk ++ rest →
    inflate_write pre chunk = Taken ∧ (inflate_total_out (pre ++ chunk) ≤ zlen d)%Z;
  inflate_finished d z : deflate d = Some z → inflate_finish z = Some d;
  deflate_bytes d z : all_bytes d → deflate d = Some z → all_bytes z;
  (** stored blocks bound the expansion *)
  deflate_length d z : deflate d = Some z → (zlen z ≤ 2 * zlen d + 64)%Z;
  deflate_total d : is_Some (deflate d)
}.

(** ** Inflating under a cap *)

Section inflate.
Context `{Primitives}.

Definition INFLATE_CHUNK : nat := Z.to_nat (64 * 1024).

(** What was written when the loop ends; every chunk is longer than nothing, so
    the length of the input is fuel enough.
    Source: src/content-core/src/compress.rs:54-66 (decompress_limited, loop) *)
Fixpoint inflate_chunks (fuel : nat) (max_bytes : Z) (pre rest : bytes) : option bytes :=
  match rest, fuel with
  | [], _ => Some pre
  | _, O => None
  | _, S fuel =>
      let chunk := take INFLATE_CHUNK rest in
      match inflate_write pre chunk with
      | StreamEnded => Some (pre ++ chunk)
      | Broken => None
      | Taken =>
          if (max_bytes <? inflate_total_out (pre ++ chunk))%Z then None
          else inflate_chunks fuel max_bytes (pre ++ chunk) (drop INFLATE_CHUNK rest)
      end
  end.

(** The kind of the error is left out.
    Source: src/content-core/src/compress.rs:52-74 (decompress_limited) *)
Definition decompress_limited (data : bytes) (max_bytes : Z) : option bytes :=
  fed ← inflate_chunks (length data) max_bytes [] data;
  out ← inflate_finish fed;
  if (max_bytes <? zlen out)%Z then None else Some out.

Lemma inflate_chunk_pos : INFLATE_CHUNK ≠ 0.
Proof. unfold INFLATE_CHUNK. lia. Qed.
#[local] Opaque INFLATE_CHUNK.

Lemma inflate_chunks_taken `{!PrimitiveLaws} d z max fuel : ∀ pre rest,
  deflate d = Some z → (zlen d ≤ max)%Z → z = pre ++ rest → length rest ≤ fuel → inflate_chunks fuel max pre rest = Some z.
Proof.
  intros pre rest Hd Hm. revert pre rest. induction fuel as [|fuel IH]; intros pre rest Hz Hf.
  { destruct rest; [|simpl in Hf; lia]. by rewrite Hz, app_nil_r. }
  destruct rest as [|b rest]; [by rewrite Hz, app_nil_r|]. cbn [inflate_chunks]. cbv zeta.
  pose proof (take_drop INFLATE_CHUNK (b :: rest)) as Htd. revert Htd. generalize (take INFLATE_CHUNK (b :: rest)) as chunk. intros chunk Htd.
  destruct (inflate_taken d z pre chunk (drop INFLATE_CHUNK (b :: rest)) Hd) as [-> Hout]; [by rewrite Htd|].
  rewrite (proj2 (Z.ltb_ge _ _)) by lia. apply IH; [by rewrite <- app_assoc, Htd|].
  rewrite length_drop. simpl in Hf |- *. pose proof inflate_chunk_pos. lia.
Qed.

(** Deflate compresses what inflate recovers when it fits the cap. *)
Lemma deflate_roundtrip `{!PrimitiveLaws} d z max : deflate d = Some z → (zlen d ≤ max)%Z → decompress_limited z max = Some d.
Proof.
  intros Hd Hm. unfold decompress_limited. rewrite (inflate_chunks_taken d z max) by done. simpl.
  rewrite (inflate_finished d z Hd). simpl. by rewrite (proj2 (Z.ltb_ge _ _)) by lia.
Qed.
End inflate.

(** ** A concrete instance *)

Module Toy.

(** A fixed-length digest of a byte list: a positional checksum. *)
Definition checksum (l : bytes) : Z := foldl (λ acc b, (acc * 31 + b) mod 251)%Z 7%Z l.
Definition digest (n : nat) (l : bytes) : bytes :=
  let c := checksum l in imap (λ i _, (c + Z.of_nat i) mod 256)%Z (replicate n 0%Z).

Definition hex_digit (n : Z) : Z := if (n <? 10)%Z then (0x30 + n)%Z else (0x57 + n)%Z.
Definition unhex_digit (c : Z) : option Z :=
  if between 0x30 0x39 c then Some (c - 0x30)%Z
  else if between 0x61 0x66 c then Some (c - 0x57)%Z else None.

Fixpoint to_hex (l : bytes) : str :=
  match l with
  | [] => []
  | b :: l => hex_digit (b / 16)%Z :: hex_digit (b mod 16)%Z :: to_hex l
  end.

Fixpoint of_hex (l : str) : option bytes :=
  match l with
  | [] => Some []
  | h :: l :: rest =>
      h ← unhex_digit h; l ← unhex_digit l; rest ← of_hex rest; Some ((16 * h + l)%Z :: rest)
  | [_] => None
  end.

(** Base64 with the alphabet [0x30..0x6F] and padding [0x70]. *)
Definition sextet (s : Z) : Z := (s + 0x30)%Z.
Definition group (a b c : Z) : list Z :=
  let v := (a * 65536 + b * 256 + c)%Z in
  [sextet (v / 262144); sextet (v / 4096 mod 64); sextet (v / 64 mod 64); sextet (v mod 64)]%Z.

Fixpoint to_b64 (l : bytes) : str :=
  match l with
  | [] => []
  | [a] => take 2 (group a 0 0) ++ [0x70; 0x70]%Z
  | [a; b] => take 3 (group a b 0) ++ [0x70]%Z
  | a :: b :: c :: l => group a b c ++ to_b64 l
  end.

Definition ungroup (w x y z : Z) : Z * Z * Z :=
  let v := ((w - 0x30) * 262144 + (x - 0x30) * 4096 + (y - 0x30) * 64 + (z - 0x30))%Z in
  (v / 65536, v / 256 mod 256, v mod 256)%Z.

Fixpoint of_b64 (l : str) : option bytes :=
  match l with
  | [] => Some []
  | w :: x :: y :: z :: l =>
      if (z =? 0x70)%Z then
        if (y =? 0x70)%Z then Some [(ungroup w x 0x30 0x30).1.1]
        else let '(a, b, _) := ungroup w x y 0x30 in Some [a; b]
      else let '(a, b, c) := ungroup w x y z in l ← of_b64 l; Some (a :: b :: c :: l)
  | _ => None
  end.

(** The keystream: an exclusive or with one key-dependent byte. *)
Definition xor_stream (k n d : bytes) : bytes :=
  let c := checksum (k ++ n) in (λ b, Z.lxor b c) <$> d.

#[export] Instance primitives : Primitives := {|
  sha256 := digest 32;
  hmac_sha256 k d := digest 32 (k ++ d);
  hkdf_sha256 ikm salt info n := Some (digest n (ikm ++ salt ++ info));
  chacha20 := xor_stream;
  p1305_encrypt k n m aad := Some (m ++ digest 16 (k ++ n ++ m ++ aad));
  p1305_decrypt k n c aad :=
    let m := take (length c - 16) c in
    if bool_decide (drop (length c - 16) c = digest 16 (k ++ n ++ m ++ aad)) then Some m else None;
  base64_encode := to_b64;
  base64_decode := of_b64;
  hex_encode := to_hex;
  hex_decode_str := of_hex;
  x25519_public s := digest 32 s;
  x25519 a p := digest 32 [(checksum (digest 32 a) + checksum p)%Z];
  mlkem_ek s := digest 1184 s;
  mlkem_encapsulate coins ek := Some (digest 1088 coins, digest 32 ek);
  mlkem_decapsulate s ct := Some (digest 32 (digest 1184 s));
  ct_eq a b := bool_decide (a = b);
  deflate d := Some d;
  inflate_write pre chunk := Taken;
  inflate_total_out pre := zlen pre;
  inflate_finish z := Some z;
  json_text := Some
|}.

Lemma checksum_range l : (0 ≤ checksum l < 251)%Z.
Proof.
  unfold checksum. assert (H : (0 ≤ 7 < 251)%Z) by lia. revert H. generalize 7%Z.
  induction l as [|b l IH]; intros z Hz; simpl; [done|]. apply IH, Z.mod_pos_bound. lia.
Qed.

Lemma digest_length n l : length (digest n l) = n.
Proof. unfold digest. by rewrite length_imap, length_replicate. Qed.

Lemma digest_bytes n l : all_bytes (digest n l).
Proof.
  apply Forall_forall. intros b [i Hi]%list_elem_of_lookup. unfold digest in Hi.
  rewrite list_lookup_imap in Hi. destruct (replicate n 0%Z !! i); simplify_eq/=.
  apply Z.mod_pos_bound. lia.
Qed.

Lemma hex_digit_range n : (0 ≤ n < 16)%Z → visible (hex_digit n) ∧ unhex_digit (hex_digit n) = Some n.
Proof.
  intros Hn. unfold hex_digit, unhex_digit, visible, between.
  destruct (Z.ltb_spec n 10); split; try lia.
  - rewrite (proj2 (Z.leb_le _ _)), (proj2 (Z.leb_le _ 0x39)) by lia. simpl. f_equal. lia.
  - rewrite (proj2 (Z.leb_le 0x30 _)), (proj2 (Z.leb_gt _ 0x39)) by lia. simpl.
    rewrite (proj2 (Z.leb_le _ _)), (proj2 (Z.leb_le _ 0x66)) by lia. simpl. f_equal. lia.
Qed.

Lemma nibbles b : is_byte b → (0 ≤ b / 16 < 16)%Z ∧ (0 ≤ b mod 16 < 16)%Z ∧ (16 * (b / 16) + b mod 16 = b)%Z.
Proof.
  unfold is_byte. intros. pose proof (Z.div_mod b 16). pose proof (Z.mod_pos_bound b 16).
  split; [split; [apply Z.div_pos; lia|apply Z.div_lt_upper_bound; lia]|]. lia.
Qed.

Lemma of_to_hex d : all_bytes d → of_hex (to_hex d) = Some d.
Proof.
  induction 1 as [|b d Hb _ IH]; [done|]. destruct (nibbles b Hb) as (H1 & H2 & H3).
  cbn [to_hex of_hex]. rewrite (proj2 (hex_digit_range _ H1)), (proj2 (hex_digit_range _ H2)), IH.
  simpl. by rewrite H3.
Qed.

Lemma to_hex_visible d : all_bytes d → Forall visible (to_hex d).
Proof.
  induction 1 as [|b d Hb _ IH]; [constructor|]. destruct (nibbles b Hb) as (H1 & H2 & _).
  repeat constructor; try done; by apply hex_digit_range.
Qed.

Lemma to_hex_length d : length (to_hex d) = 2 * length d.
Proof. induction d; simpl; lia. Qed.

Lemma ungroup_group a b c :
  is_byte a → is_byte b → is_byte c →
  let v := (a * 65536 + b * 256 + c)%Z in
  ungroup (sextet (v / 262144)) (sextet (v / 4096 mod 64)) (sextet (v / 64 mod 64)) (sextet (v mod 64)) = (a, b, c).
Proof.
  unfold is_byte, ungroup, sextet. intros Ha Hb Hc. cbv zeta.
  set (v := (a * 65536 + b * 256 + c)%Z).
  assert (Hv : ((v / 262144 + 0x30 - 0x30) * 262144 + (v / 4096 mod 64 + 0x30 - 0x30) * 4096 +
     (v / 64 mod 64 + 0x30 - 0x30) * 64 + (v mod 64 + 0x30 - 0x30) = v)%Z).
  { assert (0 ≤ v)%Z by lia. clearbody v. Z.to_euclidean_division_equations. lia. }
  rewrite Hv. subst v. repeat f_equal; Z.to_euclidean_division_equations; lia.
Qed.

Lemma sextet_range v m : (0 ≤ v)%Z → visible (sextet (v mod 64)) ∧ (sextet (v mod 64) =? 0x70)%Z = false
  ∧ ((v < 262144 * 64)%Z → m = (v / 262144)%Z → visible (sextet m)).
Proof.
  intros Hv. pose proof (Z.mod_pos_bound v 64). unfold visible, sextet. split; [lia|].
  split; [apply Z.eqb_neq; lia|]. intros ? ->. assert (0 ≤ v / 262144 < 64)%Z; [|lia].
  split; [apply Z.div_pos; lia|apply Z.div_lt_upper_bound; lia].
Qed.

Lemma list_ind3 (P : bytes → Prop) :
  P [] → (∀ a, P [a]) → (∀ a b, P [a; b]) → (∀ a b c l, P l → P (a :: b :: c :: l)) → ∀ l, P l.
Proof.
  intros H0 H1 H2 H3. fix IH 1. intros [|a [|b [|c l]]]; [done|apply H1|apply H2|apply H3, IH].
Qed.

Lemma group_range a b c : is_byte a → is_byte b → is_byte c → Forall visible (group a b c).
Proof.
  unfold is_byte. intros. unfold group. set (v := (a * 65536 + b * 256 + c)%Z).
  assert (0 ≤ v < 262144 * 64)%Z by (subst v; lia). clearbody v.
  repeat (apply List.Forall_cons); [| | | |constructor].
  - destruct (sextet_range v (v / 262144)) as (_ & _ & Hs); [lia|]. apply Hs; lia.
  - apply (sextet_range (v / 4096) 0). apply Z.div_pos; lia.
  - apply (sextet_range (v / 64) 0). apply Z.div_pos; lia.
  - apply (sextet_range v 0). lia.
Qed.

Lemma of_to_b64 d : all_bytes d → of_b64 (to_b64 d) = Some d.
Proof.
  unfold all_bytes. induction d as [| a|a b|a b c d IH] using list_ind3; intros Hd;
    repeat (apply Forall_cons in Hd as [? Hd]); [done|..].
  - pose proof (ungroup_group a 0 0) as Hg. cbv zeta in Hg. cbn [to_b64 group take app of_b64]. cbv zeta.
    rewrite !Z.eqb_refl. assert (is_byte 0) by (unfold is_byte; lia).
    replace (sextet ((a * 65536 + 0 * 256 + 0) / 64 mod 64)) with 0x30%Z in Hg.
    2: { unfold sextet. replace ((a * 65536 + 0 * 256 + 0) / 64)%Z with (a * 16 * 64)%Z; [rewrite Z_mod_mult; done|].
         unfold is_byte in *. Z.to_euclidean_division_equations. lia. }
    replace (sextet ((a * 65536 + 0 * 256 + 0) mod 64)) with 0x30%Z in Hg.
    2: { unfold sextet. replace (a * 65536 + 0 * 256 + 0)%Z with (a * 1024 * 64)%Z by lia. by rewrite Z_mod_mult. }
    rewrite Hg by done. done.
  - pose proof (ungroup_group a b 0) as Hg. cbv zeta in Hg. cbn [to_b64 group take app of_b64]. cbv zeta.
    rewrite Z.eqb_refl. assert (is_byte 0) by (unfold is_byte; lia).
    replace (sextet ((a * 65536 + b * 256 + 0) mod 64)) with 0x30%Z in Hg.
    2: { unfold sextet. replace (a * 65536 + b * 256 + 0)%Z with ((a * 1024 + b * 4) * 64)%Z by lia.
         by rewrite Z_mod_mult. }
    destruct (sextet_range ((a * 65536 + b * 256 + 0) / 64) 0) as (_ & -> & _);
      [apply Z.div_pos; unfold is_byte in *; lia|].
    by rewrite Hg.
  - pose proof (ungroup_group a b c) as Hg. cbv zeta in Hg.
    change (to_b64 (a :: b :: c :: d)) with (group a b c ++ to_b64 d).
    cbn [group app of_b64]. cbv zeta.
    destruct (sextet_range (a * 65536 + b * 256 + c) 0) as (_ & -> & _); [unfold is_byte in *; lia|].
    rewrite Hg, IH by done. done.
Qed.

Lemma to_b64_length d : length (to_b64 d) = 4 * ((length d + 2) / 3).
Proof.
  induction d as [|a|a b|a b c d IH] using list_ind3; [done..|].
  change (to_b64 (a :: b :: c :: d)) with (group a b c ++ to_b64 d).
  rewrite length_app, IH. cbn [length group].
  replace (S (S (S (length d))) + 2) with (length d + 2 + 1 * 3) by lia.
  rewrite Nat.div_add by lia. cbv zeta. cbn [length]. lia.
Qed.

Lemma to_b64_visible d : all_bytes d → Forall visible (to_b64 d).
Proof.
  assert (is_byte 0 ∧ visible 0x70) as [? ?] by (unfold is_byte, visible; lia).
  unfold all_bytes. induction d as [|a|a b|a b c d IH] using list_ind3; intros Hd;
    repeat (apply Forall_cons in Hd as [? Hd]); [constructor|..].
  - apply Forall_app. split; [by apply Forall_take, group_range|by repeat constructor].
  - apply Forall_app. split; [by apply Forall_take, group_range|by repeat constructor].
  - apply Forall_app. split; [by apply group_range|by apply IH].
Qed.

Lemma xor_byte a b : is_byte a → is_byte b → is_byte (Z.lxor a b).
Proof.
  unfold is_byte. intros Ha Hb. assert (0 ≤ Z.lxor a b)%Z by (apply Z.lxor_nonneg; lia).
  split; [done|]. destruct (decide (Z.lxor a b = 0)%Z) as [->|]; [lia|].
  apply (Z.log2_lt_pow2 _ 8); [lia|].
  pose proof (Z.log2_lxor a b). pose proof (Z.log2_le_mono a 255). pose proof (Z.log2_le_mono b 255).
  change (Z.log2 255) with 7%Z in *. lia.
Qed.

Lemma xor_stream_bytes k n d : all_bytes d → all_bytes (xor_stream k n d).
Proof.
  intros Hd. apply Forall_fmap. eapply Forall_impl; [exact Hd|]. intros b Hb. simpl.
  apply xor_byte; [done|]. pose proof (checksum_range (k ++ n)). unfold is_byte. lia.
Qed.

Lemma xor_stream_involutive k n d : xor_stream k n (xor_stream k n d) = d.
Proof.
  unfold xor_stream. rewrite <-list_fmap_compose. rewrite <-(list_fmap_id d) at 2.
  apply list_fmap_ext. intros _ b _. simpl.
  by rewrite Z.lxor_assoc, Z.lxor_nilpotent, Z.lxor_0_r.
Qed.

#[export] Instance primitive_laws : PrimitiveLaws.
Proof.
  split.
  - intros. apply digest_length.
  - intros. apply digest_bytes.
  - intros. apply digest_length.
  - intros. apply digest_bytes.
  - intros ikm salt info n _. eexists. split; [done|]. split; [apply digest_length|apply digest_bytes].
  - intros. apply xor_stream_involutive.
  - intros. apply length_fmap.
  - apply xor_stream_bytes.
  - apply of_to_b64.
  - apply to_b64_length.
  - apply to_b64_visible.
  - apply of_to_hex.
  - apply to_hex_length.
  - apply to_hex_visible.
  - intros. apply digest_length.
  - intros. apply digest_bytes.
  - intros. unfold x25519, x25519_public. simpl. by rewrite Z.add_comm.
  - intros. apply digest_length.
  - intros. apply digest_length.
  - intros. apply digest_bytes.
  - intros coins s. do 2 eexists. split; [done|].
    split_and!; [apply digest_length|apply digest_bytes|apply digest_length|done].
  - intros a b. apply bool_decide_eq_true.
  - intros d z pre chunk rest [= <-] ->. cbn. split; [done|]. rewrite !length_app. lia.
  - by intros d z [= <-].
  - intros d z Hd [= <-]. done.
  - intros d z [= <-]. lia.
  - by eexists.
Qed.
End Toy.
