(* ===== verification/Hybrid.v ===== *)
(** The hybrid KEM, X25519 and ML-KEM-768 combined
    (src/pqc-core/src/hybrid.rs, hkdf.rs), and the interface [Kem] it offers
    to the double ratchet. Random draws are arguments: [None] is a failing
    generator. *)

From S2P Require Import Prelude RustStr Primitives.

(** Source: src/pqc-core/src/hybrid.rs:20-20 (HYBRID_VERSION) *)
Definition HYBRID_VERSION : Z := 1.
(** Source: src/pqc-core/src/hybrid.rs:21-21 (X25519_PK_LEN) *)
Definition X25519_PK_LEN : nat := 32.
(** Source: src/pqc-core/src/hybrid.rs:22-22 (X25519_CT_LEN) *)
Definition X25519_CT_LEN : nat := 32.
(** Source: src/pqc-core/src/hybrid.rs:23-23 (MLKEM_PK_LEN) *)
Definition MLKEM_PK_LEN : nat := 1184.
(** Source: src/pqc-core/src/hybrid.rs:24-24 (MLKEM_CT_LEN) *)
Definition MLKEM_CT_LEN : nat := 1088.
(** Source: src/pqc-core/src/hybrid.rs:25-25 (HYBRID_PK_LEN) *)
Definition HYBRID_PK_LEN : nat := 1 + X25519_PK_LEN + MLKEM_PK_LEN.
(** Source: src/pqc-core/src/hybrid.rs:26-26 (HYBRID_CT_LEN) *)
Definition HYBRID_CT_LEN : nat := 1 + X25519_CT_LEN + MLKEM_CT_LEN.
(** Source: src/pqc-core/src/hybrid.rs:27-27 (HYBRID_SK_LEN) *)
Definition HYBRID_SK_LEN : nat := X25519_PK_LEN + 64.
(** Source: src/pqc-core/src/hybrid.rs:28-28 (SS_LEN) *)
Definition SS_LEN : nat := 32.
(** Source: src/pqc-core/src/hybrid.rs:30-30 (DUAL_PRF_SALT) *)
Definition DUAL_PRF_SALT : bytes := lit "soshal-hybrid-v1".

(** ** What a KEM promises to its clients *)

Class Kem := {
  kem_rng : Type;
  hybrid_keygen : kem_rng → may_fail (str * str);
  hybrid_encapsulate : kem_rng → str → bytes → may_fail (str * str);
  hybrid_decapsulate : str → str → bytes → may_fail str;
  (** [kem_pair pk sk]: the two belong to one generated key pair *)
  kem_pair : str → str → Prop
}.

Class KemLaws `{Primitives, Kem} : Prop := {
  keygen_pair r pk sk : hybrid_keygen r = Ok (pk, sk) → kem_pair pk sk;
  pair_pk pk sk : kem_pair pk sk → ∃ b, pk = hex_encode b ∧ all_bytes b ∧ length b = HYBRID_PK_LEN;
  (** a ciphertext for a generated key decapsulates to the encapsulated
      secret *)
  kem_correct r pk sk dom ct ss :
    kem_pair pk sk → hybrid_encapsulate r pk dom = Ok (ct, ss) →
    length ct = 2 * HYBRID_CT_LEN ∧
    (∃ b, ss = hex_encode b ∧ all_bytes b ∧ length b = SS_LEN) ∧
    hybrid_decapsulate ct sk dom = Ok ss;
  kem_ct_visible r pk sk dom ct ss :
    kem_pair pk sk → hybrid_encapsulate r pk dom = Ok (ct, ss) → Forall visible ct
}.

Section hybrid.
Context `{Primitives}.

(** Source: src/pqc-core/src/hkdf.rs:14-31 (hkdf_sha256) *)
Definition pqc_hkdf_sha256 (ikm salt info : bytes) (okm_len : nat) : may_fail bytes :=
  ok_or (Fail "hkdf expand") (Primitives.hkdf_sha256 ikm salt info okm_len).

(** Source: src/pqc-core/src/hybrid.rs:32-58 (hybrid_keygen_bytes) *)
Definition hybrid_keygen_bytes (draw_x25519 draw_mlkem : option bytes) : may_fail (bytes * bytes) :=
  x25519_sk_bytes ← ok_or (Fail "rng") draw_x25519;
  let x25519_pk := x25519_public x25519_sk_bytes in
  mlkem_seed_bytes ← ok_or (Fail "rng") draw_mlkem;
  let ek_bytes := mlkem_ek mlkem_seed_bytes in
  Ok ([HYBRID_VERSION] ++ x25519_pk ++ ek_bytes, x25519_sk_bytes ++ mlkem_seed_bytes).

(** A failing generator inside ML-KEM panics ([UnwrapErr]).
    Source: src/pqc-core/src/hybrid.rs:60-99 (hybrid_encapsulate_bytes) *)
Definition hybrid_encapsulate_bytes (draw_eph draw_mlkem : option bytes) (pk_bytes domain : bytes)
    : may_fail (bytes * bytes) :=
  _ ← ensure (nth 0 pk_bytes 0 =? HYBRID_VERSION)%Z "unsupported hybrid pk version";
  let peer_xpk := take X25519_PK_LEN (drop 1 pk_bytes) in
  eph_sk_bytes ← ok_or (Fail "rng") draw_eph;
  let eph_pk := x25519_public eph_sk_bytes in
  let x25519_ss := x25519 eph_sk_bytes peer_xpk in
  coins ← ok_or Panic draw_mlkem;
  '(mlkem_ct, mlkem_ss) ← ok_or (Fail "bad ek") (mlkem_encapsulate coins (drop (1 + X25519_PK_LEN) pk_bytes));
  let ct := [HYBRID_VERSION] ++ eph_pk ++ mlkem_ct in
  let ikm := x25519_ss ++ mlkem_ss in
  ss ← pqc_hkdf_sha256 ikm DUAL_PRF_SALT domain SS_LEN;
  Ok (ct, ss).

(** Source: src/pqc-core/src/hybrid.rs:101-137 (hybrid_decapsulate_bytes) *)
Definition hybrid_decapsulate_bytes (ct_bytes sk_bytes domain : bytes) : may_fail bytes :=
  _ ← ensure (nth 0 ct_bytes 0 =? HYBRID_VERSION)%Z "unsupported hybrid ct version";
  let x25519_sk := take X25519_PK_LEN sk_bytes in
  let eph_pk := take X25519_CT_LEN (drop 1 ct_bytes) in
  let x25519_ss := x25519 x25519_sk eph_pk in
  let seed := drop X25519_PK_LEN sk_bytes in
  mlkem_ss ← ok_or (Fail "bad ct") (mlkem_decapsulate seed (drop (1 + X25519_CT_LEN) ct_bytes));
  let ikm := x25519_ss ++ mlkem_ss in
  pqc_hkdf_sha256 ikm DUAL_PRF_SALT domain SS_LEN.

(** Source: src/pqc-core/src/hybrid.rs:140-143 (hybrid_keygen) *)
Definition hex_keygen (draws : option bytes * option bytes) : may_fail (str * str) :=
  '(pk, sk) ← hybrid_keygen_bytes draws.1 draws.2;
  Ok (hex_encode pk, hex_encode sk).

(** Source: src/pqc-core/src/hybrid.rs:145-157 (hybrid_encapsulate) *)
Definition hex_encapsulate (draws : option bytes * option bytes) (pk_hex : str) (domain : bytes)
    : may_fail (str * str) :=
  _ ← ensure (zlen domain <=? 1024)%Z "domain exceeds 1024 bytes";
  pk_bytes ← ok_or (Fail "bad pk hex") (hex_decode_str (trim pk_hex));
  _ ← ensure (length pk_bytes =? HYBRID_PK_LEN) "bad pk len";
  '(ct, ss) ← hybrid_encapsulate_bytes draws.1 draws.2 pk_bytes domain;
  Ok (hex_encode ct, hex_encode ss).

(** Source: src/pqc-core/src/hybrid.rs:159-176 (hybrid_decapsulate) *)
Definition hex_decapsulate (ct_hex sk_hex : str) (domain : bytes) : may_fail str :=
  _ ← ensure (zlen domain <=? 1024)%Z "domain exceeds 1024 bytes";
  ct_bytes ← ok_or (Fail "bad ct hex") (hex_decode_str (trim ct_hex));
  sk_bytes ← ok_or (Fail "bad sk hex") (hex_decode_str (trim sk_hex));
  _ ← ensure ((length ct_bytes =? HYBRID_CT_LEN) && (length sk_bytes =? HYBRID_SK_LEN)) "bad input length";
  res ← hybrid_decapsulate_bytes ct_bytes sk_bytes domain;
  Ok (hex_encode res).

(** The key pairs the generator returns when its draws are 32 and 64 bytes. *)
Definition hybrid_pair (pk sk : str) : Prop :=
  ∃ xsk seed, length xsk = X25519_PK_LEN ∧ length seed = 64 ∧ all_bytes (xsk ++ seed) ∧
    hex_keygen (Some xsk, Some seed) = Ok (pk, sk).

(** A draw of [getrandom::fill] on an [n]-byte array. *)
Definition wf_draw (n : nat) (d : option bytes) : Prop :=
  ∀ b, d = Some b → length b = n ∧ all_bytes b.

Lemma wf_draw_replicate n b : is_byte b → wf_draw n (Some (replicate n b)).
Proof. intros Hb l E. injection E as <-. split; [by rewrite length_replicate|by apply all_bytes_replicate]. Qed.

Context `{!PrimitiveLaws}.

Lemma trim_hex b : all_bytes b → trim (hex_encode b) = hex_encode b.
Proof. intros. by apply trim_visible, hex_visible. Qed.

Lemma decode_trim_hex b : all_bytes b → hex_decode_str (trim (hex_encode b)) = Some b.
Proof. intros. rewrite trim_hex by done. by apply hex_roundtrip. Qed.

Definition pk_bytes_of (xsk seed : bytes) : bytes := [HYBRID_VERSION] ++ x25519_public xsk ++ mlkem_ek seed.

Lemma pk_bytes_of_wf xsk seed :
  all_bytes (pk_bytes_of xsk seed) ∧ length (pk_bytes_of xsk seed) = HYBRID_PK_LEN.
Proof.
  unfold pk_bytes_of. split.
  - constructor; [unfold is_byte, HYBRID_VERSION; lia|].
    apply all_bytes_app. split; [apply x25519_public_bytes|apply mlkem_ek_bytes].
  - simpl. by rewrite length_app, x25519_public_length, mlkem_ek_length.
Qed.

Lemma hybrid_pair_pk pk sk :
  hybrid_pair pk sk → ∃ b, pk = hex_encode b ∧ all_bytes b ∧ length b = HYBRID_PK_LEN.
Proof.
  intros (xsk & seed & _ & _ & _ & [= <- _]). exists (pk_bytes_of xsk seed).
  split; [done|]. apply pk_bytes_of_wf.
Qed.

(** The parts of [tag ‖ a ‖ b] with [a] of [n] bytes. *)
Lemma tagged_parts (n : nat) (v : Z) (a b : bytes) :
  length a = n →
  nth 0 ([v] ++ a ++ b) 0%Z = v ∧ take n (drop 1 ([v] ++ a ++ b)) = a ∧
  drop (1 + n) ([v] ++ a ++ b) = b.
Proof.
  intros Ha. split; [done|]. simpl. rewrite drop_0. split; [by apply take_app_length'|].
  by apply drop_app_length'.
Qed.

Lemma pqc_hkdf_ok ikm salt info :
  ∃ okm, pqc_hkdf_sha256 ikm salt info SS_LEN = Ok okm ∧ length okm = SS_LEN ∧ all_bytes okm.
Proof.
  destruct (hkdf_some ikm salt info SS_LEN) as (okm & Hokm & ? & ?); [unfold SS_LEN; lia|].
  exists okm. unfold pqc_hkdf_sha256. by rewrite Hokm.
Qed.

Lemma decapsulate_bytes_correct xsk seed eph coins domain ct ss :
  length xsk = X25519_PK_LEN →
  hybrid_encapsulate_bytes (Some eph) (Some coins) (pk_bytes_of xsk seed) domain = Ok (ct, ss) →
  length ct = HYBRID_CT_LEN ∧ all_bytes ct ∧ length ss = SS_LEN ∧ all_bytes ss ∧
  hybrid_decapsulate_bytes ct (xsk ++ seed) domain = Ok ss.
Proof.
  intros Hx. unfold hybrid_encapsulate_bytes, pk_bytes_of.
  destruct (tagged_parts X25519_PK_LEN HYBRID_VERSION (x25519_public xsk) (mlkem_ek seed)
    (x25519_public_length _)) as (-> & -> & ->).
  rewrite Z.eqb_refl. cbn [ensure ok_or mbind result_bind].
  destruct (mlkem_correct coins seed) as (mct & mss & Hm & Hlen & Hb & Hss & Hdec). rewrite Hm.
  cbn [ensure ok_or mbind result_bind].
  destruct (pqc_hkdf_ok (x25519 eph (x25519_public xsk) ++ mss) DUAL_PRF_SALT domain)
    as (okm & Hokm & Hol & Hob). rewrite Hokm. cbn [mbind result_bind]. intros [= <- <-].
  split_and!; [|constructor; [unfold is_byte, HYBRID_VERSION; lia|]|done|done|].
  - simpl. rewrite length_app, x25519_public_length, Hlen. done.
  - apply all_bytes_app. split; [apply x25519_public_bytes|done].
  - unfold hybrid_decapsulate_bytes.
    change (HYBRID_VERSION :: ?l) with ([HYBRID_VERSION] ++ l).
    destruct (tagged_parts X25519_CT_LEN HYBRID_VERSION (x25519_public eph) mct
      (x25519_public_length _)) as (-> & -> & ->).
    rewrite take_app_length', drop_app_length' by done. rewrite Z.eqb_refl.
    cbn [ensure ok_or mbind result_bind]. rewrite Hdec. cbn [ok_or mbind result_bind].
    by rewrite x25519_agree.
Qed.

Lemma hex_encapsulate_inv draws pk domain ct ss b :
  pk = hex_encode b → all_bytes b → hex_encapsulate draws pk domain = Ok (ct, ss) →
  ∃ eph coins ctb ssb, draws = (Some eph, Some coins) ∧ (zlen domain <=? 1024)%Z = true ∧
    hybrid_encapsulate_bytes (Some eph) (Some coins) b domain = Ok (ctb, ssb) ∧
    ct = hex_encode ctb ∧ ss = hex_encode ssb.
Proof.
  intros -> Hb. unfold hex_encapsulate. rewrite decode_trim_hex by done. destruct draws as [d1 d2].
  destruct (zlen domain <=? 1024)%Z; [|done]. cbn [ensure ok_or mbind result_bind fst snd].
  destruct (length b =? HYBRID_PK_LEN); [|done]. cbn [ensure ok_or mbind result_bind].
  destruct (hybrid_encapsulate_bytes d1 d2 b domain) as [[ctb ssb]|] eqn:E; [|done].
  intros [= <- <-]. unfold hybrid_encapsulate_bytes in E.
  destruct (nth 0 b 0 =? HYBRID_VERSION)%Z eqn:Ev; [|done].
  destruct d1 as [eph|]; [|done]. destruct d2 as [coins|]; [|done].
  exists eph, coins, ctb, ssb. split_and!; try done.
  unfold hybrid_encapsulate_bytes. rewrite Ev. exact E.
Qed.

(** The hybrid KEM as an implementation of the interface. A call's
    randomness is the outcome of its two draws, of 32 and 64 bytes (ML-KEM's
    encapsulation reads what it needs of the second). *)
#[export] Instance hybrid_kem : Kem := {|
  kem_rng := { d : option bytes * option bytes | wf_draw 32 d.1 ∧ wf_draw 64 d.2 };
  hybrid_keygen d := hex_keygen (`d);
  hybrid_encapsulate d := hex_encapsulate (`d);
  hybrid_decapsulate := hex_decapsulate;
  kem_pair := hybrid_pair
|}.

Lemma hex_keygen_pair d pk sk :
  wf_draw 32 d.1 → wf_draw 64 d.2 → hex_keygen d = Ok (pk, sk) → hybrid_pair pk sk.
Proof.
  destruct d as [[xsk|] [seed|]]; simpl; intros Hx Hs Hk; try done.
  destruct (Hx xsk) as [? ?], (Hs seed) as [? ?]; [done..|].
  exists xsk, seed. split_and!; try done. by apply all_bytes_app.
Qed.

Lemma hex_kem_correct d pk sk domain ct ss :
  hybrid_pair pk sk → hex_encapsulate d pk domain = Ok (ct, ss) →
  length ct = 2 * HYBRID_CT_LEN ∧
  (∃ b, ss = hex_encode b ∧ all_bytes b ∧ length b = SS_LEN) ∧
  hex_decapsulate ct sk domain = Ok ss.
Proof.
  intros (xsk & seed & Hx & Hs & Hb & [= <- <-]) He.
  destruct (pk_bytes_of_wf xsk seed) as [Hpb Hpl].
  change ([HYBRID_VERSION] ++ x25519_public xsk ++ mlkem_ek seed) with (pk_bytes_of xsk seed) in He.
  destruct (hex_encapsulate_inv _ _ _ _ _ _ eq_refl Hpb He)
    as (eph & coins & ctb & ssb & -> & Hdom & Hbytes & -> & ->).
  destruct (decapsulate_bytes_correct _ _ _ _ _ _ _ Hx Hbytes) as (Hcl & Hcb & Hsl & Hsb & Hdec).
  split_and!; [by rewrite hex_length, Hcl|by eauto|].
  unfold hex_decapsulate. rewrite Hdom, !decode_trim_hex by done.
  cbn [ensure ok_or mbind result_bind].
  rewrite Hcl, length_app, Hx, Hs, !Nat.eqb_refl. cbn [ensure andb mbind result_bind].
  by rewrite Hdec.
Qed.

Lemma hex_ct_visible d pk sk domain ct ss : hybrid_pair pk sk → hex_encapsulate d pk domain = Ok (ct, ss) → Forall visible ct.
Proof.
  intros (xsk & seed & Hx & _ & _ & [= <- _]) He. destruct (pk_bytes_of_wf xsk seed) as [Hpb _].
  destruct (hex_encapsulate_inv d _ domain ct ss (pk_bytes_of xsk seed) eq_refl Hpb He) as (eph & coins & ctb & ssb & _ & _ & Hbytes & -> & _).
  apply hex_visible. by destruct (decapsulate_bytes_correct _ _ _ _ _ _ _ Hx Hbytes) as (_ & ? & _).
Qed.

#[export] Instance hybrid_kem_laws : KemLaws.
Proof.
  split.
  - intros [d [H1 H2]] pk sk. by apply hex_keygen_pair.
  - apply hybrid_pair_pk.
  - intros [d Hd] pk sk dom ct ss. apply hex_kem_correct.
  - intros [d Hd] pk sk dom ct ss. apply hex_ct_visible.
Qed.

(** Decapsulating what was encapsulated to a generated hybrid key yields
    the same secret, whatever the random draws; the ciphertext has the
    versioned wire length and the secret 32 bytes. *)
Theorem hybrid_kem_correct (k e : option bytes * option bytes) (pk sk : str) (domain : bytes) (ct ss : str) :
  wf_draw 32 k.1 → wf_draw 64 k.2 →
  hex_keygen k = Ok (pk, sk) → hex_encapsulate e pk domain = Ok (ct, ss) →
  hex_decapsulate ct sk domain = Ok ss ∧ length ct = 2 * HYBRID_CT_LEN ∧ length ss = 2 * SS_LEN.
Proof.
  intros H1 H2 Hk He.
  destruct (hex_kem_correct e pk sk domain ct ss) as (Hc & (b & -> & _ & Hl) & Hd);
    [by eapply hex_keygen_pair|done|].
  split_and!; [done..|]. by rewrite hex_length, Hl.
Qed.
End hybrid.

#[local] Existing Instances Toy.primitives Toy.primitive_laws.

Lemma hybrid_kem_correct_witness :
  ∃ pk sk ct ss,
    hex_keygen (Some (replicate 32 1%Z), Some (replicate 64 2%Z)) = Ok (pk, sk) ∧
    hex_encapsulate (Some (replicate 32 3%Z), Some (replicate 32 4%Z)) pk (lit "d") = Ok (ct, ss) ∧
    hex_decapsulate ct sk (lit "d") = Ok ss.
Proof.
  do 4 eexists. split; [vm_compute; reflexivity|]. split; [vm_compute; reflexivity|].
  eapply proj1, (hybrid_kem_correct (Some (replicate 32 1%Z), Some (replicate 64 2%Z))
           (Some (replicate 32 3%Z), Some (replicate 32 4%Z))).
  - apply wf_draw_replicate. unfold is_byte. lia.
  - apply wf_draw_replicate. unfold is_byte. lia.
  - vm_compute. reflexivity.
  - vm_compute. reflexivity.
Defined.
