(* ===== verification/Nip44.v ===== *)
(** NIP-44 (v2) authenticated encryption (src/crypto-core/src/nip44.rs): the
    padding, the key schedule with its bounded cache, the sealed format and
    the legacy decoder. *)

From S2P Require Import Prelude RustStr Primitives Hybrid.

(** What sealing promises to its clients: with a 32-byte nonce every
    non-empty plaintext seals, and opens to itself. *)
Class Aead := {
  aead_seal : option bytes → bytes → bytes → may_fail str;
  aead_open : str → bytes → may_fail bytes
}.

Class AeadLaws `{Aead} : Prop := {
  aead_roundtrip nonce p key :
    length nonce = 32 → all_bytes nonce → all_bytes p → p ≠ [] → (zlen p < 2 ^ 32)%Z →
    ∃ c, aead_seal (Some nonce) p key = Ok c ∧ aead_open c key = Ok p;
  (** sealed texts are non-empty printable ASCII *)
  aead_visible nonce p key c :
    length nonce = 32 → all_bytes nonce → all_bytes p → aead_seal (Some nonce) p key = Ok c →
    Forall visible c ∧ c ≠ []
}.

(** Source: src/crypto-core/src/nip44.rs:21-21 (NIP44_INFO) *)
Definition NIP44_INFO : bytes := lit "nip44-v2".
(** Source: src/crypto-core/src/nip44.rs:22-22 (DERIVED_LEN) *)
Definition DERIVED_LEN : nat := 76.
(** Source: src/crypto-core/src/nip44.rs:23-24 (SALT_LEN) *)
Definition SALT_LEN : nat := 32.
(** Source: src/crypto-core/src/nip44.rs:25-26 (KEY_LEN) *)
Definition KEY_LEN : nat := 32.
(** Source: src/crypto-core/src/nip44.rs:27-27 (NONCE_LEN) *)
Definition NONCE_LEN : nat := 12.
(** Source: src/crypto-core/src/nip44.rs:28-29 (VERSION_LEN) *)
Definition VERSION_LEN : nat := 1.
(** Source: src/crypto-core/src/nip44.rs:30-30 (VERSION_LEGACY) *)
Definition VERSION_LEGACY : Z := 1.
(** Source: src/crypto-core/src/nip44.rs:31-31 (VERSION_PADDED) *)
Definition VERSION_PADDED : Z := 2.
(** Source: src/crypto-core/src/nip44.rs:32-35 (EXTENDED_PREFIX_THRESHOLD) *)
Definition EXTENDED_PREFIX_THRESHOLD : Z := 65536.
(** Source: src/crypto-core/src/nip44.rs:36-37 (PREFIX_LEN_SMALL) *)
Definition PREFIX_LEN_SMALL : nat := 2.
(** Source: src/crypto-core/src/nip44.rs:38-39 (PREFIX_LEN_EXTENDED) *)
Definition PREFIX_LEN_EXTENDED : nat := 6.

(** ** Padding *)

(** [usize::BITS - 1 - n.leading_zeros()] of a positive [n].
    Source: src/crypto-core/src/nip44.rs:58-60 (log2_round_down) *)
Definition log2_round_down (n : Z) : Z := Z.log2 n.

(** Source: src/crypto-core/src/nip44.rs:45-56 (calc_padding) *)
Definition calc_padding (len : Z) : Z :=
  if (len <=? 32)%Z then 32
  else
    let next_power := Z.shiftl 1 (log2_round_down (len - 1) + 1) in
    let chunk := if (next_power <=? 256)%Z then 32%Z else (next_power / 8)%Z in
    chunk * ((len - 1) / chunk + 1).

(** Source: src/crypto-core/src/nip44.rs:65-75 (encode_prefix) *)
Definition encode_prefix (len : Z) : bytes * nat :=
  if (EXTENDED_PREFIX_THRESHOLD <=? len)%Z
  then ([0; 0]%Z ++ to_be 4 (len mod 2 ^ 32), PREFIX_LEN_EXTENDED)
  else (to_be 2 (len mod 2 ^ 16) ++ [0; 0; 0; 0]%Z, PREFIX_LEN_SMALL).

(** Source: src/crypto-core/src/nip44.rs:80-97 (decode_prefix) *)
Definition decode_prefix (padded : bytes) : may_fail (Z * nat) :=
  _ ← ensure (2 <=? length padded) "padded payload too short";
  let first_two := from_be (take 2 padded) in
  if (first_two =? 0)%Z then
    _ ← ensure (PREFIX_LEN_EXTENDED <=? length padded) "padded payload too short";
    let len := from_be (take 4 (drop 2 padded)) in
    _ ← ensure (EXTENDED_PREFIX_THRESHOLD <=? len)%Z "invalid extended padding length";
    Ok (len, PREFIX_LEN_EXTENDED)
  else Ok (first_two, PREFIX_LEN_SMALL).

(** Source: src/crypto-core/src/nip44.rs:99-110 (pad) *)
Definition pad (plaintext : bytes) : may_fail bytes :=
  _ ← ensure (negb (length plaintext =? 0)) "empty plaintext";
  let '(prefix, prefix_len) := encode_prefix (zlen plaintext) in
  let extra := (calc_padding (zlen plaintext) - zlen plaintext)%Z in
  Ok (take prefix_len prefix ++ plaintext ++ replicate (Z.to_nat extra) 0%Z).

(** Source: src/crypto-core/src/nip44.rs:113-125 (unpad) *)
Definition unpad (padded : bytes) : may_fail bytes :=
  _ ← ensure (PREFIX_LEN_SMALL + 32 <=? length padded) "padded payload too short";
  '(unpadded_len, prefix_len) ← decode_prefix padded;
  _ ← ensure (negb (unpadded_len =? 0)%Z) "empty plaintext";
  _ ← ensure (zlen padded =? Z.of_nat prefix_len + calc_padding unpadded_len)%Z "invalid padding";
  Ok (take (Z.to_nat unpadded_len) (drop prefix_len padded)).

(** Source: src/crypto-core/src/nip44.rs:128-151 (unpad_in_place) *)
Definition unpad_in_place (padded : bytes) : may_fail bytes :=
  if length padded <? PREFIX_LEN_SMALL + 32 then err "padded payload too short"
  else
    match decode_prefix padded with
    | Err e => Err e
    | Ok (unpadded_len, prefix_len) =>
        if (unpadded_len =? 0)%Z then err "empty plaintext"
        else if negb (zlen padded =? Z.of_nat prefix_len + calc_padding unpadded_len)%Z
        then err "invalid padding"
        else
          let padded := drop prefix_len padded in
          Ok (take (Z.to_nat unpadded_len) padded)
    end.

(** The chunk the padded length is a multiple of. *)
Definition padding_chunk (len : Z) : Z :=
  let next_power := Z.shiftl 1 (log2_round_down (len - 1) + 1) in
  if (next_power <=? 256)%Z then 32%Z else (next_power / 8)%Z.

Lemma padding_chunk_spec len :
  (32 < len)%Z →
  (32 ≤ padding_chunk len ≤ Z.max 32 ((len - 1) / 4))%Z ∧ (padding_chunk len mod 32 = 0)%Z.
Proof.
  intros Hlen. unfold padding_chunk, log2_round_down.
  pose proof (Z.log2_spec (len - 1)) as [Hlo _]; [lia|].
  set (k := Z.log2 (len - 1)) in *. assert (Hk : (5 ≤ k)%Z).
  { change 5%Z with (Z.log2 32). apply Z.log2_le_mono. lia. }
  rewrite Z.shiftl_1_l. destruct (Z.leb_spec (2 ^ (k + 1)) 256) as [Hsmall|Hbig].
  - split; [|done]. lia.
  - assert (H8 : (8 < k + 1)%Z).
    { apply (Z.pow_lt_mono_r_iff 2); [lia|lia|]. exact Hbig. }
    assert (Hq : (2 ^ (k + 1) / 8 = 2 ^ (k - 2))%Z).
    { replace (k + 1)%Z with (k - 2 + 3)%Z by lia. rewrite Z.pow_add_r by lia.
      apply Z.div_mul. lia. }
    rewrite Hq. assert (Hs : (2 ^ (k - 2) = 2 ^ (k - 7) * 32)%Z).
    { change 32%Z with (2 ^ 5)%Z. rewrite <-Z.pow_add_r by lia. f_equal. lia. }
    assert (0 < 2 ^ (k - 7))%Z by (apply Z.pow_pos_nonneg; lia).
    split; [|rewrite Hs; apply Z_mod_mult].
    assert (4 * 2 ^ (k - 2) = 2 ^ k)%Z.
    { change 4%Z with (2 ^ 2)%Z. rewrite <-Z.pow_add_r by lia. f_equal. lia. }
    assert (2 ^ (k - 2) ≤ (len - 1) / 4)%Z by (apply Z.div_le_lower_bound; lia). lia.
Qed.

Lemma calc_padding_chunk len :
  (32 < len)%Z → calc_padding len = (padding_chunk len * ((len - 1) / padding_chunk len + 1))%Z.
Proof. intros. unfold calc_padding. by rewrite (proj2 (Z.leb_gt len 32)). Qed.

Lemma calc_padding_bounds len :
  (0 < len)%Z →
  (len ≤ calc_padding len ≤ len - 1 + Z.max 32 ((len - 1) / 4))%Z ∧ (calc_padding len mod 32 = 0)%Z ∧
  (32 ≤ calc_padding len)%Z.
Proof.
  intros Hpos. destruct (Z.leb_spec len 32) as [Hle|Hgt].
  { unfold calc_padding. rewrite (proj2 (Z.leb_le len 32)) by done. split; [|done]. lia. }
  rewrite calc_padding_chunk by done.
  destruct (padding_chunk_spec len Hgt) as [[Hc1 Hc2] Hmod]. set (c := padding_chunk len) in *.
  pose proof (Z.div_mod (len - 1) c). pose proof (Z.mod_pos_bound (len - 1) c).
  split; [nia|]. split; [|nia].
  rewrite Z.mul_mod, Hmod by lia. done.
Qed.

Lemma decode_encode_prefix len rest :
  (0 < len < 2 ^ 32)%Z →
  decode_prefix (take (encode_prefix len).2 (encode_prefix len).1 ++ rest) = Ok (len, (encode_prefix len).2) ∧
  length (take (encode_prefix len).2 (encode_prefix len).1) = (encode_prefix len).2.
Proof.
  intros Hlen. unfold encode_prefix, EXTENDED_PREFIX_THRESHOLD, PREFIX_LEN_EXTENDED, PREFIX_LEN_SMALL.
  destruct (Z.leb_spec 65536 len) as [Hbig|Hsmall]; cbn [fst snd].
  - rewrite take_ge by len. split; [|len].
    unfold decode_prefix, PREFIX_LEN_EXTENDED, EXTENDED_PREFIX_THRESHOLD.
    rewrite (proj2 (Nat.leb_le 2 _)), (proj2 (Nat.leb_le 6 _)) by len. cbn [ensure mbind result_bind].
    change (from_be (take 2 _)) with 0%Z. cbn [Z.eqb].
    change (drop 2 _) with (to_be 4 (len mod 2 ^ 32) ++ rest).
    rewrite take_app_length' by len. rewrite Z.mod_small, from_to_be by lia.
    by rewrite (proj2 (Z.leb_le _ _)).
  - rewrite take_app_length' by len. split; [|len].
    unfold decode_prefix. rewrite (proj2 (Nat.leb_le 2 _)) by len. cbn [ensure mbind result_bind].
    rewrite take_app_length' by len.
    rewrite Z.mod_small, from_to_be by (change (2 ^ 16)%Z with 65536%Z; lia).
    by rewrite (proj2 (Z.eqb_neq _ _)) by lia.
Qed.

Lemma encode_prefix_len len :
  ((encode_prefix len).2 = PREFIX_LEN_SMALL ∧ (len < 65536)%Z) ∨
  ((encode_prefix len).2 = PREFIX_LEN_EXTENDED ∧ (65536 ≤ len)%Z).
Proof. unfold encode_prefix, EXTENDED_PREFIX_THRESHOLD. destruct (Z.leb_spec 65536 len); auto. Qed.

(** The padded body of a plaintext, which [pad] returns and [encrypt] seals. *)
Definition padded_body (plaintext : bytes) : bytes :=
  take (encode_prefix (zlen plaintext)).2 (encode_prefix (zlen plaintext)).1 ++ plaintext ++
  replicate (Z.to_nat (calc_padding (zlen plaintext) - zlen plaintext)) 0%Z.

Lemma padded_body_length p :
  p ≠ [] → (zlen p < 2 ^ 32)%Z →
  zlen (padded_body p) = (Z.of_nat (encode_prefix (zlen p)).2 + calc_padding (zlen p))%Z.
Proof.
  intros Hp Hlen. assert (0 < zlen p)%Z by (destruct p; [done|simpl; lia]).
  destruct (calc_padding_bounds (zlen p)) as [[? _] _]; [lia|].
  unfold padded_body. rewrite !length_app, length_replicate.
  rewrite (proj2 (decode_encode_prefix (zlen p) [] ltac:(lia))). lia.
Qed.

Lemma unpad_in_place_eq l : unpad_in_place l = unpad l.
Proof.
  unfold unpad, unpad_in_place. destruct (Nat.leb_spec (PREFIX_LEN_SMALL + 32) (length l)).
  - rewrite (proj2 (Nat.ltb_ge _ _)) by done. simpl. destruct (decode_prefix l) as [[n k]|]; [|done].
    simpl. destruct (n =? 0)%Z; [done|]. simpl. by destruct (_ =? _)%Z.
  - by rewrite (proj2 (Nat.ltb_lt _ _)).
Qed.

Lemma unpad_padded_body p :
  p ≠ [] → (zlen p < 2 ^ 32)%Z → unpad (padded_body p) = Ok p.
Proof.
  intros Hp Hlen. assert (0 < zlen p)%Z by (destruct p; [done|simpl; lia]).
  pose proof (padded_body_length p Hp Hlen) as Hbl.
  destruct (calc_padding_bounds (zlen p)) as ([? _] & _ & Hge); [lia|].
  unfold unpad. rewrite (proj2 (Nat.leb_le _ _)).
  2: { destruct (encode_prefix_len (zlen p)) as [[E _]|[E _]]; rewrite E in Hbl;
       unfold PREFIX_LEN_SMALL, PREFIX_LEN_EXTENDED in *; lia. }
  destruct (decode_encode_prefix (zlen p)
    (p ++ replicate (Z.to_nat (calc_padding (zlen p) - zlen p)) 0%Z)) as [Hd Hl]; [lia|].
  fold (padded_body p) in Hd. cbn [ensure mbind result_bind].
  rewrite Hd. cbn [mbind result_bind]. rewrite (proj2 (Z.eqb_neq (zlen p) 0)) by lia.
  rewrite (proj2 (Z.eqb_eq _ _)) by done. cbn [ensure negb mbind result_bind].
  unfold padded_body. rewrite drop_app_length' by done. rewrite Nat2Z.id.
  by rewrite take_app_length.
Qed.

(** NIP-44 padding: the padded plaintext is its length prefix and between
    1 and [max 32 ((len-1)/4)] bytes more than the plaintext less one, in
    multiples of 32 bytes and never fewer than 32; unpadding recovers the
    plaintext, and both unpadding routines agree on every input. *)
Theorem unpad_pad (p q : bytes) :
  p ≠ [] → (zlen p < 2 ^ 32)%Z →
  (∃ padded, pad p = Ok padded ∧ unpad padded = Ok p ∧
    ∃ n : nat, (n = 2 ∨ n = 6) ∧ zlen padded = (Z.of_nat n + calc_padding (zlen p))%Z) ∧
  (zlen p ≤ calc_padding (zlen p) ≤ zlen p - 1 + Z.max 32 ((zlen p - 1) / 4))%Z ∧
  (calc_padding (zlen p) mod 32 = 0)%Z ∧ (32 ≤ calc_padding (zlen p))%Z ∧
  unpad_in_place q = unpad q.
Proof.
  intros Hp Hlen. assert (0 < zlen p)%Z by (destruct p; [done|simpl; lia]).
  destruct (calc_padding_bounds (zlen p)) as (? & ? & ?); [lia|].
  split_and!; try lia; [|apply unpad_in_place_eq].
  exists (padded_body p). split; [|split; [by apply unpad_padded_body|]].
  - unfold pad. destruct p; [done|]. cbn [ensure length negb Nat.eqb mbind result_bind].
    unfold padded_body. by destruct (encode_prefix _).
  - exists (encode_prefix (zlen p)).2. split; [|by apply padded_body_length].
    destruct (encode_prefix_len (zlen p)) as [[-> _]|[-> _]]; auto.
Qed.

Lemma unpad_pad_witness :
  ∃ padded, pad [7; 8; 9]%Z = Ok padded ∧ unpad padded = Ok [7; 8; 9]%Z ∧
    ∃ n : nat, (n = 2 ∨ n = 6) ∧ zlen padded = (Z.of_nat n + calc_padding 3)%Z.
Proof. apply (unpad_pad [7; 8; 9]%Z [1]%Z); [done|vm_compute; reflexivity]. Defined.

(** ** Key schedule *)

Section nip44.
Context `{Primitives}.

(** Encryption key, ChaCha20 nonce and authentication key.
    Source: src/crypto-core/src/nip44.rs:163-199 (spec_derive_keys) *)
Definition spec_derive_keys (ck nonce : bytes) : bytes * bytes * bytes :=
  let t1 := hmac_sha256 ck (nonce ++ [1%Z]) in
  let t2 := hmac_sha256 ck (t1 ++ nonce ++ [2%Z]) in
  let t3 := hmac_sha256 ck (t2 ++ nonce ++ [3%Z]) in
  (t1, take NONCE_LEN t2, drop NONCE_LEN t2 ++ take NONCE_LEN t3).

(** The process-wide cache of conversation keys.
    Source: src/crypto-core/src/nip44.rs:210-213 (CkCache) *)
Record CkCache := mk_cache {
  ck_map : gmap (list Z) (list Z);
  ck_queue : list (list Z)
}.

(** The cache after the call ([None] is the uninitialised cell) and the key.
    Source: src/crypto-core/src/nip44.rs:221-251 (derive_conversation_key) *)
Definition derive_conversation_key (cell : option CkCache) (key : bytes) : option CkCache * bytes :=
  match cell ≫= (λ cache, ck_map cache !! key) with
  | Some ck => (cell, ck)
  | None =>
      let ck := hmac_sha256 NIP44_INFO key in
      let cache := default (mk_cache ∅ []) cell in
      if bool_decide (is_Some (ck_map cache !! key)) then (Some cache, ck)
      else
        let cache :=
          if (128 <=? zsize (ck_map cache))%Z then
            match ck_queue cache with
            | oldest :: queue => mk_cache (delete oldest (ck_map cache)) queue
            | [] => cache
            end
          else cache in
        (Some (mk_cache (<[key := ck]> (ck_map cache)) (ck_queue cache ++ [key])), ck)
  end.

(** Source: src/crypto-core/src/nip44.rs:254-262 (clear_conversation_key_cache) *)
Definition clear_conversation_key_cache (cell : option CkCache) : option CkCache := None.

(** ** Sealing *)

(** The draw of the 32-byte nonce is an argument.
    Source: src/crypto-core/src/nip44.rs:269-305 (encrypt) *)
Definition encrypt (cell : option CkCache) (draw : option bytes) (plaintext key : bytes)
    : option CkCache * may_fail str :=
  if length plaintext =? 0 then (cell, err "empty plaintext")
  else
    let '(prefix, prefix_len) := encode_prefix (zlen plaintext) in
    match draw with
    | None => (cell, err "rng failed")
    | Some nonce =>
        let '(cell, ck) := derive_conversation_key cell key in
        let '(enc_key, nonce12, auth_key) := spec_derive_keys ck nonce in
        let padded_len := calc_padding (zlen plaintext) in
        let extra := (padded_len - zlen plaintext)%Z in
        let body := take prefix_len prefix ++ plaintext ++ replicate (Z.to_nat extra) 0%Z in
        let body := chacha20 enc_key nonce12 body in
        let mac := hmac_sha256 auth_key (nonce ++ body) in
        (cell, Ok (base64_encode ([VERSION_PADDED] ++ nonce ++ body ++ mac)))
    end.

(** Source: src/crypto-core/src/nip44.rs:342-352 (is_spec_shape) *)
Definition is_spec_shape (decoded : bytes) : bool :=
  let V2_FIXED_SMALL := 67%Z in
  let V2_FIXED_LARGE := 71%Z in
  let V2_MIN_LARGE := (V2_FIXED_LARGE + EXTENDED_PREFIX_THRESHOLD)%Z in
  let n := zlen decoded in
  ((V2_FIXED_SMALL + 32 <=? n) && ((n - V2_FIXED_SMALL) mod 32 =? 0)
   || (V2_MIN_LARGE <=? n) && ((n - V2_FIXED_LARGE) mod 32 =? 0))%Z.

(** Source: src/crypto-core/src/nip44.rs:354-407 (decrypt_spec) *)
Definition decrypt_spec (cell : option CkCache) (decoded key : bytes) : option CkCache * may_fail bytes :=
  if negb (nth 0 decoded 0 =? VERSION_PADDED)%Z then (cell, err "unsupported payload version")
  else if length decoded <? VERSION_LEN + SALT_LEN + 2 + 32 + 32 then (cell, err "payload too short")
  else
    let nonce := take SALT_LEN (drop VERSION_LEN decoded) in
    let body := drop (VERSION_LEN + SALT_LEN) (take (length decoded - 32) decoded) in
    let mac := drop (length decoded - 32) decoded in
    let '(cell, ck) := derive_conversation_key cell key in
    let '(enc_key, nonce12, auth_key) := spec_derive_keys ck nonce in
    let expected := hmac_sha256 auth_key (nonce ++ body) in
    if negb (length expected =? length mac) || negb (ct_eq expected mac)
    then (cell, err "decrypt failed")
    else (cell, unpad_in_place (chacha20 enc_key nonce12 body)).

(** The three parts of the 76 derived bytes of the legacy format.
    Source: src/crypto-core/src/nip44.rs:472-480 (decrypt_legacy, key split) *)
Definition split_derived (derived : bytes) : bytes * bytes * bytes :=
  let rest := drop KEY_LEN derived in
  (take KEY_LEN derived, take KEY_LEN rest, drop KEY_LEN rest).

(** Source: src/crypto-core/src/nip44.rs:413-455 (encrypt_padded) *)
Definition encrypt_padded (draw : option bytes) (plaintext key : bytes) : may_fail bytes :=
  salt ← ok_or (Fail "rng failed") draw;
  derived ← map_err (λ _, Fail "hkdf failed") (pqc_hkdf_sha256 key salt NIP44_INFO DERIVED_LEN);
  let '(enc_key, auth_key, nonce) := split_derived derived in
  let aad := NIP44_INFO ++ auth_key in
  ciphertext ← ok_or (Fail "encrypt failed") (p1305_encrypt enc_key nonce plaintext aad);
  Ok (salt ++ [VERSION_LEGACY] ++ ciphertext).

(** Source: src/crypto-core/src/nip44.rs:457-523 (decrypt_legacy) *)
Definition decrypt_legacy (decoded key : bytes) : may_fail bytes :=
  _ ← ensure (SALT_LEN <? length decoded) "payload too short";
  let salt := take SALT_LEN decoded in
  let tag := nth SALT_LEN decoded 0%Z in
  let tagged := (tag =? VERSION_LEGACY)%Z || (tag =? VERSION_PADDED)%Z in
  let '(version, encrypted) :=
    if tagged then (tag, drop (SALT_LEN + VERSION_LEN) decoded)
    else (VERSION_LEGACY, drop SALT_LEN decoded) in
  derived ← map_err (λ _, Fail "hkdf failed") (pqc_hkdf_sha256 key salt NIP44_INFO DERIVED_LEN);
  let '(enc_key, auth_key, nonce) := split_derived derived in
  let aad := NIP44_INFO ++ auth_key in
  '(version, plaintext) ←
    match p1305_decrypt enc_key nonce encrypted aad with
    | Some pt => Ok (version, pt)
    | None =>
        if tagged then
          pt ← ok_or (Fail "decrypt failed") (p1305_decrypt enc_key nonce (drop SALT_LEN decoded) aad);
          Ok (VERSION_LEGACY, pt)
        else err "decrypt failed"
    end;
  if (version =? VERSION_LEGACY)%Z then Ok plaintext
  else if negb (version =? VERSION_PADDED)%Z then err "unsupported payload version"
  else unpad_in_place plaintext.

(** Source: src/crypto-core/src/nip44.rs:320-332 (decrypt) *)
Definition decrypt (cell : option CkCache) (payload : str) (key : bytes) : option CkCache * may_fail bytes :=
  match base64_decode payload with
  | None => (cell, err "invalid base64")
  | Some decoded =>
      if length decoded =? 0 then (cell, err "empty payload")
      else if (nth 0 decoded 0 =? VERSION_PADDED)%Z && is_spec_shape decoded
      then decrypt_spec cell decoded key
      else (cell, decrypt_legacy decoded key)
  end.

(** ** The key cache is transparent *)

Definition conversation_key (key : bytes) : bytes := hmac_sha256 NIP44_INFO key.

(** The cache stores only true conversation keys, its queue lists exactly its
    keys, and it holds at most 128 of them. *)
Record wf_cache (c : CkCache) : Prop := {
  wfc_true : ∀ k v, ck_map c !! k = Some v → v = conversation_key k;
  wfc_queue : ∀ k, k ∈ ck_queue c ↔ is_Some (ck_map c !! k);
  wfc_cap : (zsize (ck_map c) ≤ 128)%Z
}.

Definition wf_cell (cell : option CkCache) : Prop := ∀ c, cell = Some c → wf_cache c.

Lemma wf_cache_empty : wf_cache (mk_cache ∅ []).
Proof.
  split; simpl; [by intros ?? ?%lookup_empty_Some| |by rewrite map_size_empty].
  intros k. rewrite lookup_empty, elem_of_nil. split; [done|by intros []].
Qed.

Lemma wf_cell_default cell : wf_cell cell → wf_cache (default (mk_cache ∅ []) cell).
Proof. destruct cell; simpl; [by intros H'; apply H'|intros _; apply wf_cache_empty]. Qed.

(** Evicting the oldest key keeps the cache coherent but for the queue, which
    may still list the key when it was queued twice. *)
Lemma insert_key_wf (m : gmap (list Z) (list Z)) queue key :
  (∀ k v, m !! k = Some v → v = conversation_key k) →
  (∀ k, k ∈ queue ↔ is_Some (m !! k)) → (zsize m < 128)%Z →
  wf_cache (mk_cache (<[key := conversation_key key]> m) (queue ++ [key])).
Proof.
  intros Ht Hq Hc. split; simpl.
  - intros k v [(<- & <-)|[_ ?]]%lookup_insert_Some; auto.
  - intros k. rewrite elem_of_app, list_elem_of_singleton, lookup_insert, Hq.
    case_decide; naive_solver.
  - pose proof (size_insert_le m key (conversation_key key)). lia.
Qed.

Record wf_cache_nodup (c : CkCache) : Prop := {
  wfn_wf : wf_cache c;
  wfn_nodup : NoDup (ck_queue c)
}.

Definition wf_ck (cell : option CkCache) : Prop := ∀ c, cell = Some c → wf_cache_nodup c.

Lemma derive_conversation_key_spec cell key :
  wf_ck cell →
  (derive_conversation_key cell key).2 = conversation_key key ∧
  wf_ck (derive_conversation_key cell key).1.
Proof.
  intros Hwf. unfold derive_conversation_key.
  destruct (cell ≫= (λ cache, ck_map cache !! key)) as [ck|] eqn:E.
  { split; [|done]. destruct cell as [c|]; [|done]. simpl in *.
    by eapply wfc_true, E; apply Hwf. }
  assert (Hd : wf_cache_nodup (default (mk_cache ∅ []) cell)).
  { destruct cell; [by apply Hwf|]. split; [apply wf_cache_empty|constructor]. }
  assert (En : ck_map (default (mk_cache ∅ []) cell) !! key = None) by (destruct cell; [done|apply lookup_empty]).
  set (c := default _ cell) in *. clearbody c.
  rewrite bool_decide_eq_false_2 by (rewrite En; by intros []).
  split; [done|]. destruct Hd as [[Ht Hq Hc] Hnd].
  assert (Hk : key ∉ ck_queue c) by (rewrite Hq, En; by intros []).
  intros c' [= <-]. destruct (Z.leb_spec 128 (zsize (ck_map c))) as [Hfull|Hroom].
  - destruct c as [m [|oldest queue]]; simpl in *.
    { assert (m = ∅) as -> by (apply map_empty; intros k; apply eq_None_not_Some; rewrite <-Hq; apply not_elem_of_nil).
      by rewrite map_size_empty in Hfull. }
    apply NoDup_cons in Hnd as [Ho Hnd]. apply not_elem_of_cons in Hk as [Hko Hk]. split.
    + apply insert_key_wf.
      * intros k v [_ ?]%lookup_delete_Some. auto.
      * intros k. destruct (decide (k = oldest)) as [->|Hne].
        -- rewrite lookup_delete_eq. split; [done|by intros []].
        -- rewrite lookup_delete_ne, <-Hq, elem_of_cons by done. naive_solver.
      * rewrite map_size_delete. assert (is_Some (m !! oldest)) as [v ->] by (apply Hq; left).
        lia.
    + simpl. apply NoDup_app. split; [done|]. split; [set_solver|apply NoDup_singleton].
  - split; [by apply insert_key_wf|]. simpl. apply NoDup_app.
    split; [done|]. split; [set_solver|apply NoDup_singleton].
Qed.

Lemma wf_ck_none : wf_ck None.
Proof. by intros c. Qed.

Inductive cache_step : option CkCache → option CkCache → Prop :=
| step_derive cell key : cache_step cell (derive_conversation_key cell key).1
| step_clear cell : cache_step cell (clear_conversation_key_cache cell).

Lemma cache_reachable_wf cell : reachable (λ c, c = None) cache_step cell → wf_ck cell.
Proof.
  revert cell. apply (reachable_invariant _ _ wf_ck).
  - intros s ->. apply wf_ck_none.
  - intros s s' Hs Hstep. destruct Hstep; [by apply derive_conversation_key_spec|apply wf_ck_none].
Qed.

(** The process-wide cache of conversation keys is transparent: however
    it was used and cleared before, a derivation returns the true
    HMAC-derived key, and the cache never holds more than 128 keys. *)
Theorem key_cache_transparent (cell : option CkCache) (key : bytes) :
  reachable (λ c, c = None) cache_step cell →
  (derive_conversation_key cell key).2 = hmac_sha256 NIP44_INFO key ∧
  ∀ c, (derive_conversation_key cell key).1 = Some c → (zsize (ck_map c) ≤ 128)%Z.
Proof.
  intros Hr%cache_reachable_wf. destruct (derive_conversation_key_spec cell key Hr) as [? Hwf].
  split; [done|]. intros c Hc. by apply Hwf.
Qed.

(** ** Round trip and authentication *)

Context `{!PrimitiveLaws}.

(** The sealed bytes of a body under a nonce. *)
Definition sealed (key nonce body : bytes) : bytes :=
  let '(enc_key, nonce12, auth_key) := spec_derive_keys (conversation_key key) nonce in
  let c := chacha20 enc_key nonce12 body in
  [VERSION_PADDED] ++ nonce ++ c ++ hmac_sha256 auth_key (nonce ++ c).

Lemma sealed_length key nonce body :
  length nonce = SALT_LEN → length (sealed key nonce body) = 65 + length body.
Proof.
  intros Hn. unfold sealed. destruct (spec_derive_keys _ _) as [[ek n12] ak]. simpl.
  rewrite !length_app, hmac_length, chacha20_length, Hn. unfold SALT_LEN. lia.
Qed.

Lemma sealed_bytes key nonce body :
  all_bytes nonce → all_bytes body → all_bytes (sealed key nonce body).
Proof.
  intros Hn Hb. unfold sealed. destruct (spec_derive_keys _ _) as [[ek n12] ak].
  constructor; [unfold is_byte, VERSION_PADDED; lia|].
  rewrite !all_bytes_app. split_and!; [done|by apply chacha20_bytes|apply hmac_bytes].
Qed.

Lemma encrypt_spec cell nonce p key :
  wf_ck cell → p ≠ [] →
  (encrypt cell (Some nonce) p key).2 = Ok (base64_encode (sealed key nonce (padded_body p))).
Proof.
  intros Hc Hp. unfold encrypt. destruct p as [|b p]; [done|]. cbn [length Nat.eqb].
  destruct (encode_prefix _) as [prefix pl] eqn:Ep.
  destruct (derive_conversation_key cell key) as [cell' ck] eqn:Ed.
  destruct (derive_conversation_key_spec cell key Hc) as [Hk _]. rewrite Ed in Hk. simpl in Hk. subst ck.
  unfold sealed, padded_body. cbn [length] in *. rewrite Ep.
  destruct (spec_derive_keys _ _) as [[ek n12] ak]. done.
Qed.

(** The slices [decrypt_spec] reads of a sealed blob. *)
Lemma sealed_slices (nonce c mac : bytes) :
  length nonce = SALT_LEN → length mac = 32 →
  let d := [VERSION_PADDED] ++ nonce ++ c ++ mac in
  take SALT_LEN (drop VERSION_LEN d) = nonce ∧
  drop (VERSION_LEN + SALT_LEN) (take (length d - 32) d) = c ∧
  drop (length d - 32) d = mac.
Proof.
  intros Hn Hm d. subst d. split_and!.
  - change (drop VERSION_LEN ([VERSION_PADDED] ++ ?l)) with (drop 0 l). rewrite drop_0.
    by apply take_app_length'.
  - rewrite !(assoc_L (++)). rewrite take_app_length' by len.
    apply drop_app_length'. len.
  - rewrite !(assoc_L (++)). apply drop_app_length'. len.
Qed.

Lemma decrypt_spec_sealed cell key nonce body :
  wf_ck cell → length nonce = SALT_LEN → all_bytes body → 34 ≤ length body →
  (decrypt_spec cell (sealed key nonce body) key).2 = unpad body.
Proof.
  intros Hc Hn Hb Hlen. pose proof (sealed_length key nonce body Hn) as Hl.
  unfold decrypt_spec. rewrite (proj2 (Nat.ltb_ge _ _)) by (rewrite Hl; unfold VERSION_LEN, SALT_LEN; lia).
  revert Hl. unfold sealed. destruct (spec_derive_keys (conversation_key key) nonce) as [[ek n12] ak] eqn:Es.
  intros Hl. change (nth 0 ([VERSION_PADDED] ++ _) 0%Z) with VERSION_PADDED. rewrite Z.eqb_refl. cbn [negb].
  destruct (sealed_slices nonce (chacha20 ek n12 body) (hmac_sha256 ak (nonce ++ chacha20 ek n12 body)) Hn (hmac_length _ _))
    as (-> & -> & ->).
  destruct (derive_conversation_key cell key) as [cell' ck] eqn:Ed.
  destruct (derive_conversation_key_spec cell key Hc) as [Hk _]. rewrite Ed in Hk. simpl in Hk. subst ck.
  rewrite Es, Nat.eqb_refl, (proj2 (ct_eq_iff _ _)) by done. simpl.
  by rewrite chacha20_involutive, unpad_in_place_eq.
Qed.

Lemma sealed_is_spec_shape key nonce p :
  length nonce = SALT_LEN → p ≠ [] → (zlen p < 2 ^ 32)%Z →
  is_spec_shape (sealed key nonce (padded_body p)) = true.
Proof.
  intros Hn Hp Hlen. assert (0 < zlen p)%Z by (destruct p; [done|simpl; lia]).
  pose proof (padded_body_length p Hp Hlen) as Hb.
  destruct (calc_padding_bounds (zlen p)) as ([? _] & Hmod & Hge); [lia|].
  unfold is_spec_shape, EXTENDED_PREFIX_THRESHOLD. rewrite sealed_length by done.
  apply orb_true_iff. destruct (encode_prefix_len (zlen p)) as [[E ?]|[E ?]]; rewrite E in Hb;
    unfold PREFIX_LEN_SMALL, PREFIX_LEN_EXTENDED in Hb; [left|right];
    apply andb_true_iff; split; [apply Z.leb_le; lia|apply Z.eqb_eq|apply Z.leb_le; lia|apply Z.eqb_eq];
    rewrite Nat2Z.inj_add, Hb, <-Hmod; f_equal; lia.
Qed.

Lemma encode_prefix_bytes len : all_bytes (encode_prefix len).1.
Proof.
  assert (is_byte 0) by (unfold is_byte; lia). unfold encode_prefix.
  destruct (_ <=? _)%Z; cbn [fst]; apply all_bytes_app; split; auto with soshal;
    repeat (apply List.Forall_cons; [done|]); constructor.
Qed.

Lemma padded_body_bytes p : all_bytes p → all_bytes (padded_body p).
Proof.
  intros. unfold padded_body. rewrite !all_bytes_app.
  split_and!; [apply all_bytes_take, encode_prefix_bytes|done|].
  apply all_bytes_replicate. unfold is_byte. lia.
Qed.

Lemma decrypt_sealed cell key nonce p :
  wf_ck cell → length nonce = SALT_LEN → all_bytes nonce → all_bytes p →
  p ≠ [] → (zlen p < 2 ^ 32)%Z →
  (decrypt cell (base64_encode (sealed key nonce (padded_body p))) key).2 = Ok p.
Proof.
  intros Hc Hn Hnb Hpb Hp Hlen. assert (0 < zlen p)%Z by (destruct p; [done|simpl; lia]).
  pose proof (padded_body_length p Hp Hlen) as Hb.
  destruct (calc_padding_bounds (zlen p)) as ([? _] & _ & Hge); [lia|].
  assert (34 ≤ length (padded_body p)).
  { destruct (encode_prefix_len (zlen p)) as [[E _]|[E _]]; rewrite E in Hb;
      unfold PREFIX_LEN_SMALL, PREFIX_LEN_EXTENDED in Hb; lia. }
  unfold decrypt. rewrite base64_roundtrip by (by apply sealed_bytes, padded_body_bytes).
  rewrite (proj2 (Nat.eqb_neq _ _)) by (rewrite sealed_length; [lia|done]).
  rewrite sealed_is_spec_shape by done.
  assert (nth 0 (sealed key nonce (padded_body p)) 0%Z = VERSION_PADDED) as ->.
  { unfold sealed. by destruct (spec_derive_keys _ _) as [[??]?]. }
  rewrite Z.eqb_refl. cbn [andb]. rewrite decrypt_spec_sealed; [|done|done|by apply padded_body_bytes|done].
  by apply unpad_padded_body.
Qed.

(** C9: sealing succeeds on every non-empty plaintext, and opening returns
    the plaintext, whatever the nonce and whatever the two processes' key
    caches hold. *)
Theorem nip44_roundtrip (cell1 cell2 : option CkCache) (nonce p key : bytes) :
  reachable (λ c, c = None) cache_step cell1 → reachable (λ c, c = None) cache_step cell2 →
  length nonce = SALT_LEN → all_bytes nonce → all_bytes p → p ≠ [] → (zlen p < 2 ^ 32)%Z →
  ∃ payload, (encrypt cell1 (Some nonce) p key).2 = Ok payload ∧
    (decrypt cell2 payload key).2 = Ok p.
Proof.
  intros H1%cache_reachable_wf H2%cache_reachable_wf ?????.
  eexists. split; [by apply encrypt_spec|]. by apply decrypt_sealed.
Qed.

(** Opening does not depend on the cache, as sealing does not
    ([encrypt_spec]): the interface fixes the empty one. *)
Lemma decrypt_cache_irrelevant cell payload key :
  wf_ck cell → (decrypt cell payload key).2 = (decrypt None payload key).2.
Proof.
  intros Hc. unfold decrypt. destruct (base64_decode payload) as [d|]; [|done].
  destruct (length d =? 0); [done|]. destruct (_ && _); [|done].
  unfold decrypt_spec. destruct (negb _); [done|]. destruct (_ <? _); [done|].
  destruct (derive_conversation_key_spec cell key Hc) as [Hk _].
  destruct (derive_conversation_key_spec None key wf_ck_none) as [Hk' _].
  destruct (derive_conversation_key cell key) as [c1 k1], (derive_conversation_key None key) as [c2 k2].
  cbn [fst snd] in Hk, Hk'. subst k1 k2. repeat case_match; done.
Qed.

#[export] Instance nip44_aead : Aead := {|
  aead_seal draw p key := (encrypt None draw p key).2;
  aead_open payload key := (decrypt None payload key).2
|}.

#[export] Instance nip44_aead_laws : AeadLaws.
Proof.
  split.
  - intros nonce p key ?????. eexists.
    split; [apply encrypt_spec; [apply wf_ck_none|done]|by apply decrypt_sealed; [apply wf_ck_none|..]].
  - intros nonce p key c Hn Hnb Hpb Hs. unfold aead_seal, nip44_aead in Hs.
    assert (Hp : p ≠ []) by (intros ->; done).
    rewrite encrypt_spec in Hs by (done || apply wf_ck_none). injection Hs as <-. split.
    + by apply base64_visible, sealed_bytes, padded_body_bytes.
    + intros E. apply (f_equal length) in E. rewrite base64_length, sealed_length in E by done.
      pose proof (Nat.Div0.div_le_mono 3 (65 + length (padded_body p) + 2) 3 ltac:(lia)) as Hd.
      change (3 / 3) with 1 in Hd. cbn [length] in E. lia.
Qed.

(** C10: no downgrade: a payload with the version-2 layout that opens carries
    a valid authenticator over its nonce and ciphertext under the
    conversation key, and its plaintext is the unpadded decryption; the legacy
    decoder never sees it. *)
Theorem nip44_no_downgrade (cell : option CkCache) (payload : str) (key d p : bytes) :
  reachable (λ c, c = None) cache_step cell →
  base64_decode payload = Some d → nth 0 d 0%Z = VERSION_PADDED → is_spec_shape d = true →
  (decrypt cell payload key).2 = Ok p →
  let nonce := take SALT_LEN (drop VERSION_LEN d) in
  let body := drop (VERSION_LEN + SALT_LEN) (take (length d - 32) d) in
  let '(enc_key, nonce12, auth_key) := spec_derive_keys (hmac_sha256 NIP44_INFO key) nonce in
  drop (length d - 32) d = hmac_sha256 auth_key (nonce ++ body) ∧
  unpad (chacha20 enc_key nonce12 body) = Ok p.
Proof.
  intros Hc%cache_reachable_wf Hd Hv Hs Hdec nonce body. unfold decrypt in Hdec.
  rewrite Hd in Hdec. destruct (length d =? 0); [done|].
  rewrite Hv, Hs, Z.eqb_refl in Hdec. cbn [andb] in Hdec. unfold decrypt_spec in Hdec.
  rewrite Hv, Z.eqb_refl in Hdec. cbn [negb] in Hdec. destruct (length d <? _); [done|].
  destruct (derive_conversation_key_spec cell key Hc) as [Hk _].
  destruct (derive_conversation_key cell key) as [cell' ck]. simpl in Hk. subst ck.
  fold nonce body in Hdec. unfold conversation_key in Hdec.
  destruct (spec_derive_keys _ _) as [[ek n12] ak].
  destruct (negb _ || negb (ct_eq _ _)) eqn:Em; [done|].
  apply orb_false_iff in Em as [_ Em%negb_false_iff]. apply ct_eq_iff in Em.
  rewrite unpad_in_place_eq in Hdec. done.
Qed.
End nip44.

(** ** Concrete runs *)

#[local] Existing Instances Toy.primitives Toy.primitive_laws.

Definition w_key : bytes := replicate 32 5%Z.
Definition w_nonce : bytes := replicate 32 6%Z.

Lemma fresh_reachable : reachable (λ c, c = None) cache_step None.
Proof. by apply reachable_init. Defined.

Lemma used_reachable :
  reachable (λ c, c = None) cache_step (derive_conversation_key None w_key).1.
Proof. eapply reachable_step; [apply fresh_reachable|]. constructor. Defined.

Lemma key_cache_transparent_witness :
  (derive_conversation_key (derive_conversation_key None w_key).1 w_key).2 = hmac_sha256 NIP44_INFO w_key.
Proof. apply (key_cache_transparent _ w_key used_reachable). Defined.

Lemma nip44_roundtrip_witness :
  ∃ payload, (encrypt None (Some w_nonce) (lit "hello") w_key).2 = Ok payload ∧
    (decrypt (derive_conversation_key None w_key).1 payload w_key).2 = Ok (lit "hello").
Proof.
  apply (nip44_roundtrip None _ w_nonce (lit "hello") w_key).
  - apply fresh_reachable.
  - apply used_reachable.
  - reflexivity.
  - repeat constructor; discriminate.
  - repeat constructor; discriminate.
  - discriminate.
  - reflexivity.
Defined.

(** The sealed form of one byte under the concrete primitives. *)
Definition w_blob : bytes := sealed w_key w_nonce (padded_body [7%Z]).

Lemma nip44_no_downgrade_witness :
  let nonce := take SALT_LEN (drop VERSION_LEN w_blob) in
  let body := drop (VERSION_LEN + SALT_LEN) (take (length w_blob - 32) w_blob) in
  let '(enc_key, nonce12, auth_key) := spec_derive_keys (hmac_sha256 NIP44_INFO w_key) nonce in
  drop (length w_blob - 32) w_blob = hmac_sha256 auth_key (nonce ++ body) ∧
  unpad (chacha20 enc_key nonce12 body) = Ok [7%Z].
Proof.
  apply (nip44_no_downgrade None (base64_encode w_blob)).
  - apply fresh_reachable.
  - vm_compute. reflexivity.
  - vm_compute. reflexivity.
  - vm_compute. reflexivity.
  - vm_compute. reflexivity.
Defined.
