(* ===== verification/Ratchet.v ===== *)
(** The double ratchet over the hybrid KEM
    (src/crypto-core/src/pqc_ratchet/mod.rs, ratchet_crypto.rs). Key wiping
    has no functional effect and is not represented; random draws are
    arguments; a panic is the [Panic] failure. *)

From S2P Require Import Prelude RustStr Primitives Hybrid Nip44.

(** Source: src/crypto-core/src/pqc_ratchet/mod.rs:36-37 (RATCHET_VERSION) *)
Definition RATCHET_VERSION : Z := 3.
(** Source: src/crypto-core/src/pqc_ratchet/mod.rs:39-42 (MAX_RATCHET_WINDOW) *)
Definition MAX_RATCHET_WINDOW : Z := 1024.
(** Source: src/crypto-core/src/pqc_ratchet/mod.rs:44-47 (MAX_RATCHET_CIPHERTEXT) *)
Definition MAX_RATCHET_CIPHERTEXT : Z := 64 * 1024.
(** Source: src/crypto-core/src/pqc_ratchet/mod.rs:150-150 (HEADER_MAC_INFO) *)
Definition HEADER_MAC_INFO : bytes := lit "soshal-ratchet-header-mac".
(** Source: src/crypto-core/src/pqc_ratchet/ratchet_crypto.rs:13-13 (RATCHET_DOMAIN) *)
Definition RATCHET_DOMAIN : bytes := lit "soshal-ratchet-v3".
(** Source: src/crypto-core/src/pqc_ratchet/ratchet_crypto.rs:14-14 (INIT_SALT) *)
Definition INIT_SALT : bytes := lit "soshal-ratchet-v3-init".
(** Source: src/crypto-core/src/pqc_ratchet/ratchet_crypto.rs:15-15 (CHAIN_SALT) *)
Definition CHAIN_SALT : bytes := lit "soshal-ratchet-v3-chain".
(** Source: src/crypto-core/src/pqc_ratchet/ratchet_crypto.rs:18-18 (MAX_INPUT_LEN) *)
Definition MAX_INPUT_LEN : Z := 64 * 1024.
(** Source: src/crypto-core/src/pqc_ratchet/ratchet_crypto.rs:46-46 (MAX_OUTPUT) *)
Definition MAX_OUTPUT : Z := 4 * 1024 * 1024.
(** Source: src/crypto-core/src/pqc_ratchet/ratchet_crypto.rs:56-56 (RAW_PLAINTEXT_TAG) *)
Definition RAW_PLAINTEXT_TAG : Z := 0x52.

(** Source: src/crypto-core/src/pqc_ratchet/mod.rs:61-67 (SkippedKey) *)
Record SkippedKey := mk_skipped { sk_seq : Z; sk_key : str }.

#[export] Instance skipped_key_eq_dec : EqDecision SkippedKey.
Proof. solve_decision. Defined.

(** Source: src/crypto-core/src/pqc_ratchet/mod.rs:69-112 (RatchetState) *)
Record RatchetState := mk_state {
  version : Z;
  root_key : str;
  current_sk : str;
  current_pk : str;
  peer_pk : str;
  context : str;
  chain_counter : Z;
  sending_chain_key : str;
  sending_chain_counter : Z;
  sending_epoch_peer_pk : str;
  sending_ct : str;
  receiving_chain_key : str;
  receiving_chain_counter : Z;
  skipped : list SkippedKey;
  prev_epoch_skipped : list SkippedKey
}.

(** Source: src/crypto-core/src/pqc_ratchet/mod.rs:137-147 (HeaderOutput) *)
Record HeaderOutput := mk_header {
  h_version : Z;
  h_pk : str;
  h_ct : str;
  h_seq : Z;
  h_chain_counter : Z;
  h_header_mac : str
}.

#[export] Instance header_eq_dec : EqDecision HeaderOutput.
Proof. solve_decision. Defined.

(** Source: src/crypto-core/src/pqc_ratchet/mod.rs:222-248 (init_state) *)
Definition init_state (peer_pk context current_sk current_pk : str) : RatchetState :=
  mk_state RATCHET_VERSION [] current_sk current_pk peer_pk context 0 [] 0 [] [] [] 0 [] [].

(** [i64::to_le_bytes]: two's complement. *)
Definition i64_le_bytes (z : Z) : bytes := to_le 8 (z mod 2 ^ 64).

(** [Vec::push], then [remove(0)] beyond the window.
    Source: src/crypto-core/src/pqc_ratchet/mod.rs:506-510 (decrypt_ratchet, skipped push) *)
Definition push_skipped (l : list SkippedKey) (s : SkippedKey) : list SkippedKey :=
  let l := l ++ [s] in
  if (MAX_RATCHET_WINDOW <? zlen l)%Z then tail l else l.

(** The previous epoch's keys, rebuilt from the current ones at a transition.
    Source: src/crypto-core/src/pqc_ratchet/mod.rs:425-431 (decrypt_ratchet, skipped drain) *)
Definition retain_skipped (l : list SkippedKey) : list SkippedKey :=
  foldl (push_bounded MAX_RATCHET_WINDOW) [] l.

(** [position(|s| s.seq == seq)] followed by [remove(pos)]: the key and the
    remaining buffer. Source: src/crypto-core/src/pqc_ratchet/mod.rs:478-483 (decrypt_ratchet, skipped lookup) *)
Fixpoint take_skipped (seq : Z) (l : list SkippedKey) : option (str * list SkippedKey) :=
  match l with
  | [] => None
  | s :: rest =>
      if (sk_seq s =? seq)%Z then Some (sk_key s, rest)
      else '(key, rest) ← take_skipped seq rest; Some (key, s :: rest)
  end.

Section ratchet.
Context `{Primitives, Kem, Aead}.
(** ** ratchet_crypto.rs *)

(** Source: src/crypto-core/src/pqc_ratchet/mod.rs:49-57 (hex_decode) *)
Definition hex_decode (hex_str : str) : may_fail bytes :=
  _ ← ensure (Nat.even (length hex_str)) "odd hex length";
  _ ← ensure (zlen hex_str <=? 512 * 1024)%Z "hex too large";
  ok_or (Fail "invalid hex") (hex_decode_str hex_str).

(** The deflate of content-core, with its 16 MiB input cap.
    Source: src/content-core/src/compress.rs:27-40 (compress) *)
Definition compress (data : bytes) : may_fail bytes :=
  _ ← ensure (zlen data <=? 16 * 1024 * 1024)%Z "payload exceeds";
  ok_or (Fail "compress") (deflate data).

(** Source: src/crypto-core/src/pqc_ratchet/ratchet_crypto.rs:67-76 (compress_bytes) *)
Definition compress_bytes (b : bytes) : may_fail bytes :=
  _ ← ensure (zlen b <=? MAX_INPUT_LEN)%Z "input too large";
  compressed ← map_err (λ _, Fail "deflate err") (compress b);
  Ok ([RAW_PLAINTEXT_TAG] ++ compressed).

(** Source: src/crypto-core/src/pqc_ratchet/ratchet_crypto.rs:33-44 (decompress_json) *)
Definition decompress_json (compressed : bytes) : may_fail bytes :=
  if bool_decide (take 2 compressed = lit "z:") then
    src ← ok_or (Fail "bad utf8") (from_utf8 (drop 2 compressed));
    b ← ok_or (Fail "bad b64") (base64_decode src);
    ok_or (Fail "inflate err") (decompress_limited b MAX_OUTPUT)
  else ok_or (Fail "inflate err") (decompress_limited compressed MAX_OUTPUT).

(** Source: src/crypto-core/src/pqc_ratchet/ratchet_crypto.rs:82-93 (decompress_bytes) *)
Definition decompress_bytes (compressed : bytes) : may_fail bytes :=
  let legacy :=
    inflated ← decompress_json compressed;
    ok_or (Fail "bad json") (json_text inflated) in
  match compressed with
  | tag :: rest =>
      if (tag =? RAW_PLAINTEXT_TAG)%Z
      then ok_or (Fail "inflate err") (decompress_limited rest MAX_OUTPUT)
      else legacy
  | [] => legacy
  end.

(** Source: src/crypto-core/src/pqc_ratchet/ratchet_crypto.rs:95-97 (hkdf) *)
Definition hkdf (ikm salt info : bytes) (len : nat) : may_fail bytes :=
  map_err (λ _, Fail "hkdf failed") (pqc_hkdf_sha256 ikm salt info len).

(** Source: src/crypto-core/src/pqc_ratchet/ratchet_crypto.rs:102-108 (init_root) *)
Definition init_root (shared_secret : bytes) (context : str) : may_fail bytes :=
  root ← hkdf shared_secret INIT_SALT (lit "soshal-ratchet-v3:" ++ context) 32;
  to_array 32 root.

(** Source: src/crypto-core/src/pqc_ratchet/ratchet_crypto.rs:112-125 (derive_root_step) *)
Definition derive_root_step (shared_secret : bytes) (root_key_hex context : str)
    : may_fail (bytes * bytes) :=
  root ← map_err (λ _, Fail "bad root hex") (hex_decode root_key_hex);
  out ← hkdf shared_secret root (lit "soshal-ratchet-v3:root:" ++ context) 64;
  Ok (take 32 out, drop 32 out).

(** Source: src/crypto-core/src/pqc_ratchet/ratchet_crypto.rs:128-135 (derive_chain) *)
Definition derive_chain (root_key_hex context : str) : may_fail bytes :=
  root ← map_err (λ _, Fail "bad root hex") (hex_decode root_key_hex);
  out ← hkdf root CHAIN_SALT (lit "soshal-ratchet-v3:chain:" ++ context) 32;
  to_array 32 out.

(** The message key and the next chain key.
    Source: src/crypto-core/src/pqc_ratchet/ratchet_crypto.rs:137-153 (derive_msg_key_bytes) *)
Definition derive_msg_key_bytes (chain_key : bytes) (context : str) : may_fail (bytes * bytes) :=
  out ← map_err (λ _, Fail "hkdf failed")
    (pqc_hkdf_sha256 chain_key (lit "soshal-pqc-ratchet-msg-salt-v3")
       (lit "pqc-ratchet-msg-v3:" ++ context) 64);
  Ok (take 32 out, drop 32 out).

(** Source: src/crypto-core/src/pqc_ratchet/ratchet_crypto.rs:155-161 (derive_msg_key) *)
Definition derive_msg_key (chain_key_hex context : str) : may_fail (bytes * bytes) :=
  chain_key ← hex_decode chain_key_hex;
  derive_msg_key_bytes chain_key context.

(** ** Header authentication *)

(** Source: src/crypto-core/src/pqc_ratchet/mod.rs:155-164 (header_mac_key) *)
Definition header_mac_key (root_key : str) : bytes :=
  sha256 (root_key ++ HEADER_MAC_INFO).

Definition header_mac_input (h : HeaderOutput) : bytes :=
  h_pk h ++ h_ct h ++ i64_le_bytes (h_seq h) ++ i64_le_bytes (h_chain_counter h).

(** Source: src/crypto-core/src/pqc_ratchet/mod.rs:167-177 (compute_header_mac) *)
Definition compute_header_mac (key : bytes) (h : HeaderOutput) : str :=
  hex_encode (hmac_sha256 key (header_mac_input h)).

(** [acc |= e ^ p] over the zipped tags.
    Source: src/crypto-core/src/pqc_ratchet/mod.rs:197-201 (verify_header_mac, comparison) *)
Definition xor_acc (expected provided : bytes) : Z :=
  foldl (λ acc '(e, p), Z.lor acc (Z.lxor e p)) 0%Z (zip expected provided).

(** Source: src/crypto-core/src/pqc_ratchet/mod.rs:180-202 (verify_header_mac) *)
Definition verify_header_mac (key : bytes) (h : HeaderOutput) : bool :=
  let expected := hmac_sha256 key (header_mac_input h) in
  match hex_decode_str (h_header_mac h) with
  | None => false
  | Some provided =>
      if negb (length provided =? length expected) then false
      else (xor_acc expected provided =? 0)%Z
  end.

(** ** Encrypt *)

(** A sender's position: root key, chain key, epoch, sequence number, the peer
    key of the epoch, its KEM ciphertext, and the own key pair. *)
Record send_epoch := mk_epoch {
  se_root : str; se_chain : str; se_cc : Z; se_seq : Z;
  se_peer : str; se_ct : str; se_sk : str; se_pk : str
}.

(** The chain key and root key after a KEM step with secret [ss].
    Source: src/crypto-core/src/pqc_ratchet/mod.rs:277-288 (encrypt_ratchet, root step) *)
Definition root_step (st : RatchetState) (ss : bytes) : may_fail (str * str) :=
  if bool_decide (root_key st = []) then
    root ← init_root ss (context st);
    let root_hex := hex_encode root in
    chain ← derive_chain root_hex (context st);
    Ok (root_hex, hex_encode chain)
  else
    '(new_root, new_chain) ← derive_root_step ss (root_key st) (context st);
    Ok (hex_encode new_root, hex_encode new_chain).

(** Source: src/crypto-core/src/pqc_ratchet/mod.rs:262-263 (encrypt_ratchet, need_new_epoch) *)
Definition need_new_epoch (st : RatchetState) : bool :=
  bool_decide (sending_chain_key st = []) || negb (bool_decide (peer_pk st = sending_epoch_peer_pk st)).

(** Source: src/crypto-core/src/pqc_ratchet/mod.rs:264-313 (encrypt_ratchet, epoch selection) *)
Definition send_epoch_of (st : RatchetState) (r_enc r_gen : kem_rng) : may_fail send_epoch :=
  if need_new_epoch st then
    '(ct_hex, ss_hex) ← map_err (λ _, Fail "bad peer pk hex")
      (hybrid_encapsulate r_enc (peer_pk st) RATCHET_DOMAIN);
    ss ← map_err (λ _, Fail "bad ss hex") (hex_decode ss_hex);
    '(root_hex, chain_hex) ← root_step st ss;
    '(pk, sk) ← map_err (λ _, Fail "rng failed") (hybrid_keygen r_gen);
    cc ← checked_i64 (chain_counter st + 1);
    Ok (mk_epoch root_hex chain_hex cc 0 (peer_pk st) ct_hex sk pk)
  else
    Ok (mk_epoch (root_key st) (sending_chain_key st) (chain_counter st) (sending_chain_counter st)
         (sending_epoch_peer_pk st) (sending_ct st) (current_sk st) (current_pk st)).

(** Source: src/crypto-core/src/pqc_ratchet/mod.rs:252-361 (encrypt_ratchet) *)
Definition encrypt_ratchet (st : RatchetState) (r_enc r_gen : kem_rng) (nonce : option bytes)
    (plaintext : bytes) : may_fail (RatchetState * HeaderOutput * str) :=
  _ ← ensure (version st =? RATCHET_VERSION)%Z "ratchet v3 required";
  _ ← ensure (negb (bool_decide (peer_pk st = []))) "no peer public key";
  e ← send_epoch_of st r_enc r_gen;
  '(msg_key, next_chain) ← derive_msg_key (se_chain e) (context st);
  compressed ← compress_bytes plaintext;
  mk_arr ← to_array 32 msg_key;
  ciphertext ← aead_seal nonce compressed mk_arr;
  let header := mk_header RATCHET_VERSION (se_pk e) (se_ct e) (se_seq e) (se_cc e) [] in
  let mac_key := header_mac_key (se_root e) in
  let header := mk_header RATCHET_VERSION (se_pk e) (se_ct e) (se_seq e) (se_cc e)
                  (compute_header_mac mac_key header) in
  seq' ← checked_i64 (se_seq e + 1);
  Ok (mk_state RATCHET_VERSION (se_root e) (se_sk e) (se_pk e) (peer_pk st) (context st) (se_cc e)
        (hex_encode next_chain) seq' (se_peer e) (se_ct e)
        (receiving_chain_key st) (receiving_chain_counter st) (skipped st) (prev_epoch_skipped st),
      header, ciphertext).

(** ** Decrypt *)

(** The checks before any key work.
    Source: src/crypto-core/src/pqc_ratchet/mod.rs:369-394 (decrypt_ratchet, checks) *)
Definition decrypt_checks (st : RatchetState) (h : HeaderOutput) (ciphertext : str) : may_fail unit :=
  _ ← ensure (version st =? RATCHET_VERSION)%Z "ratchet v3 required";
  _ ← ensure (h_version h =? RATCHET_VERSION)%Z "unsupported ratchet header version";
  _ ← ensure (length (h_pk h) =? HYBRID_PK_LEN * 2) "bad pk size";
  _ ← ensure (length (h_ct h) =? HYBRID_CT_LEN * 2) "bad ct size";
  _ ← ensure (zlen ciphertext <=? MAX_RATCHET_CIPHERTEXT)%Z "ciphertext too large";
  next ← checked_i64 (h_chain_counter h + 1);
  _ ← ensure (chain_counter st <=? next)%Z "replay";
  own_next ← checked_i64 (chain_counter st + 1);
  ensure (h_chain_counter h <=? own_next)%Z
    "message too far ahead of ratchet (lost messages; re-sync required)".

(** The state, chain key and counter a message key is taken from: a KEM root
    step on a transition, the current receiving chain otherwise.
    Source: src/crypto-core/src/pqc_ratchet/mod.rs:395-447 (decrypt_ratchet, epoch transition) *)
Definition receive_epoch (st : RatchetState) (h : HeaderOutput) (r_gen : kem_rng)
    : may_fail (RatchetState * bytes * Z) :=
  if (h_chain_counter h =? chain_counter st + 1)%Z then
    ss_hex ← map_err (λ _, Fail "bad ct/sk hex")
      (hybrid_decapsulate (h_ct h) (current_sk st) RATCHET_DOMAIN);
    ss ← map_err (λ _, Fail "bad ss hex") (hex_decode ss_hex);
    '(root, recv_chain) ←
      if bool_decide (root_key st = []) then
        root ← init_root ss (context st);
        chain ← derive_chain (hex_encode root) (context st);
        Ok (hex_encode root, chain)
      else
        '(new_root, new_chain) ← derive_root_step ss (root_key st) (context st);
        Ok (hex_encode new_root, new_chain);
    '(rotated_pk, rotated_sk) ← map_err (λ _, Fail "rng failed") (hybrid_keygen r_gen);
    let out := mk_state (version st) root rotated_sk rotated_pk (peer_pk st) (context st)
      (h_chain_counter h) (sending_chain_key st) (sending_chain_counter st)
      (sending_epoch_peer_pk st) (sending_ct st) (receiving_chain_key st) 0
      [] (retain_skipped (skipped st)) in
    Ok (out, recv_chain, 0%Z)
  else
    _ ← ensure (negb (bool_decide (receiving_chain_key st = []))) "no receiving chain for chain_counter";
    chain_bytes ← map_err (λ _, Fail "bad chain hex") (hex_decode (receiving_chain_key st));
    Ok (st, chain_bytes, receiving_chain_counter st).

(** The chain advanced over [gap] missed messages, their keys buffered.
    Source: src/crypto-core/src/pqc_ratchet/mod.rs:501-512 (decrypt_ratchet, gap loop) *)
Fixpoint skip_keys (gap : nat) (seq : Z) (chain : bytes) (context : str) (buf : list SkippedKey)
    : may_fail (bytes * list SkippedKey) :=
  match gap with
  | O => Ok (chain, buf)
  | S gap =>
      '(skipped_key, next) ← derive_msg_key_bytes chain context;
      skip_keys gap (seq + 1) next context (push_skipped buf (mk_skipped seq (hex_encode skipped_key)))
  end.

Definition set_prev_skipped (st : RatchetState) (l : list SkippedKey) : RatchetState :=
  mk_state (version st) (root_key st) (current_sk st) (current_pk st) (peer_pk st) (context st)
    (chain_counter st) (sending_chain_key st) (sending_chain_counter st) (sending_epoch_peer_pk st)
    (sending_ct st) (receiving_chain_key st) (receiving_chain_counter st) (skipped st) l.

Definition set_receiving (st : RatchetState) (key : str) (counter : Z) (l : list SkippedKey) : RatchetState :=
  mk_state (version st) (root_key st) (current_sk st) (current_pk st) (peer_pk st) (context st)
    (chain_counter st) (sending_chain_key st) (sending_chain_counter st) (sending_epoch_peer_pk st)
    (sending_ct st) key counter l (prev_epoch_skipped st).

Definition set_peer_pk (st : RatchetState) (pk : str) : RatchetState :=
  mk_state (version st) (root_key st) (current_sk st) (current_pk st) pk (context st)
    (chain_counter st) (sending_chain_key st) (sending_chain_counter st) (sending_epoch_peer_pk st)
    (sending_ct st) (receiving_chain_key st) (receiving_chain_counter st) (skipped st)
    (prev_epoch_skipped st).

(** The message key, the state it leaves, and whether the header's MAC is to
    be verified. [st] is the state before the call, [out] after the epoch
    stage. Source: src/crypto-core/src/pqc_ratchet/mod.rs:455-521 (decrypt_ratchet, message key) *)
Definition message_key (st out : RatchetState) (h : HeaderOutput) (recv_chain : bytes) (prev_counter : Z)
    : may_fail (RatchetState * bytes * bool) :=
  if (h_chain_counter h + 1 =? chain_counter st)%Z then
    '(key_hex, rest) ← ok_or (Fail "replay") (take_skipped (h_seq h) (prev_epoch_skipped out));
    b ← hex_decode key_hex;
    msg_key ← to_array 32 b;
    Ok (set_prev_skipped out rest, msg_key, false)
  else if (h_seq h <? prev_counter)%Z then
    '(key_hex, rest) ← ok_or (Fail "replay") (take_skipped (h_seq h) (skipped out));
    b ← hex_decode key_hex;
    msg_key ← to_array 32 b;
    Ok (set_receiving out (receiving_chain_key out) (receiving_chain_counter out) rest, msg_key, true)
  else
    gap ← checked_i64 (h_seq h - prev_counter);
    _ ← ensure (gap <=? MAX_RATCHET_WINDOW)%Z
          "message too far ahead of ratchet (lost messages; re-sync required)";
    '(chain, buf) ← skip_keys (Z.to_nat gap) prev_counter recv_chain (context st) (skipped out);
    '(mk, next) ← derive_msg_key_bytes chain (context st);
    msg_key ← to_array 32 mk;
    counter ← checked_i64 (h_seq h + 1);
    Ok (set_receiving out (hex_encode next) counter buf, msg_key, true).

(** Source: src/crypto-core/src/pqc_ratchet/mod.rs:365-541 (decrypt_ratchet) *)
Definition decrypt_ratchet (st : RatchetState) (h : HeaderOutput) (ciphertext : str) (r_gen : kem_rng)
    : may_fail (RatchetState * bytes) :=
  _ ← decrypt_checks st h ciphertext;
  '(out, recv_chain, prev_counter) ← receive_epoch st h r_gen;
  '(out, msg_key, mac_ok) ← message_key st out h recv_chain prev_counter;
  compressed_bytes ← aead_open ciphertext msg_key;
  final_plaintext ← decompress_bytes compressed_bytes;
  if (mac_ok : bool) then
    _ ← ensure (verify_header_mac (header_mac_key (root_key out)) h) "bad header mac";
    Ok (set_peer_pk out (h_pk h), final_plaintext)
  else Ok (out, final_plaintext).

(** ** Storage and tags *)

(** Source: src/crypto-core/src/pqc_ratchet/mod.rs:546-548 (state_key) *)
Definition state_key (peer : str) : str := lit "pqc_state:" ++ peer.
End ratchet.

(** Rust compares strings by their bytes.
    Source: src/crypto-core/src/pqc_ratchet/mod.rs:554-561 (ratchet_context) *)
Definition ratchet_context (my_pubkey peer : str) : str :=
  let '(first, second) := if str_leb my_pubkey peer then (my_pubkey, peer) else (peer, my_pubkey) in
  lit "dm:" ++ first ++ lit ":" ++ second.

(** Source: src/crypto-core/src/pqc_ratchet/mod.rs:583-595 (ratchet_wrapper_tags) *)
Definition ratchet_wrapper_tags (out : RatchetState) (h : HeaderOutput) : list (list str) :=
  [[lit "p"; peer_pk out];
   [lit "pqc_pk"; current_pk out];
   [lit "pqc_pk_version"; lit "1"];
   [lit "ratchet_pk"; h_pk h];
   [lit "ratchet_ct"; h_ct h];
   [lit "ratchet_seq"; print_i64 (h_seq h)];
   [lit "ratchet_cc"; print_i64 (h_chain_counter h)];
   [lit "ratchet_header_mac"; h_header_mac h];
   [lit "ratchet_version"; print_u64 (h_version h)]].

(** Source: src/crypto-core/src/pqc_ratchet/mod.rs:600-604 (ratchet_header_from_tags, tag_of) *)
Definition tag_of (tags : list (list str)) (name : str) : option str :=
  t ← head (filter (λ t, head t = Some name) tags); t !! 1.

(** Source: src/crypto-core/src/pqc_ratchet/mod.rs:599-630 (ratchet_header_from_tags) *)
Definition ratchet_header_from_tags (tags : list (list str)) : option HeaderOutput :=
  h_pk ← tag_of tags (lit "ratchet_pk");
  h_ct ← tag_of tags (lit "ratchet_ct");
  h_seq ← tag_of tags (lit "ratchet_seq");
  h_cc ← tag_of tags (lit "ratchet_cc");
  h_version ← tag_of tags (lit "ratchet_version");
  seq ← parse_i64 h_seq;
  cc ← parse_i64 h_cc;
  version ← parse_u8 h_version;
  if negb (version =? RATCHET_VERSION)%Z then None
  else Some (mk_header version h_pk h_ct seq cc (default [] (tag_of tags (lit "ratchet_header_mac")))).
