(* ===== verification/RatchetChain.v ===== *)
(** Properties of the double ratchet's parts: key derivation, the plaintext
    tag, the header authenticator, and the symmetric chain of one epoch with
    its buffer of skipped keys. *)

From S2P Require Import Prelude RustStr Primitives Hybrid Nip44 Ratchet.

Section chain.
Context `{PrimitiveLaws}.

(** A 32-byte key in hexadecimal, as the ratchet state stores keys. *)
Definition key32 (b : bytes) : Prop := length b = 32 ∧ all_bytes b.
Definition hex_key (s : str) : Prop := ∃ b, s = hex_encode b ∧ key32 b.

Lemma hex_decode_encode b : all_bytes b → (zlen b <= 256 * 1024)%Z → hex_decode (hex_encode b) = Ok b.
Proof.
  intros Hb Hl. unfold hex_decode. rewrite hex_length.
  rewrite (proj2 (Nat.even_spec _)) by (by eexists). rewrite (proj2 (Z.leb_le _ _)) by lia.
  simpl. by rewrite hex_roundtrip.
Qed.

Lemma hex_decode_key b : key32 b → hex_decode (hex_encode b) = Ok b.
Proof. intros [Hl ?]. apply hex_decode_encode; [done|]. rewrite Hl. lia. Qed.

Lemma hex_encode_inj a b : all_bytes a → all_bytes b → hex_encode a = hex_encode b → a = b.
Proof. intros Ha Hb E. apply (f_equal hex_decode_str) in E. rewrite !hex_roundtrip in E by done. congruence. Qed.

Lemma hex_key_nonempty s : hex_key s → s ≠ [].
Proof. intros (b & -> & Hl & _) E. apply (f_equal length) in E. rewrite hex_length, Hl in E. done. Qed.

Lemma hkdf_ok ikm salt info n :
  n ≤ 255 * 32 → ∃ okm, hkdf ikm salt info n = Ok okm ∧ length okm = n ∧ all_bytes okm.
Proof.
  intros Hn. destruct (hkdf_some ikm salt info n Hn) as (okm & Hokm & ? & ?). exists okm.
  unfold hkdf, pqc_hkdf_sha256. by rewrite Hokm.
Qed.

Lemma split64 (okm : bytes) : length okm = 64 → all_bytes okm → key32 (take 32 okm) ∧ key32 (drop 32 okm).
Proof. intros. split; split; auto with soshal; rewrite ?length_take, ?length_drop; lia. Qed.

Lemma init_root_ok ss ctx : ∃ root, init_root ss ctx = Ok root ∧ key32 root.
Proof.
  unfold init_root. destruct (hkdf_ok ss INIT_SALT (lit "soshal-ratchet-v3:" ++ ctx) 32) as (o & -> & Hl & ?); [lia|].
  exists o. cbn [mbind result_bind]. by rewrite to_array_ok.
Qed.

Lemma derive_chain_ok root ctx :
  key32 root → ∃ chain, derive_chain (hex_encode root) ctx = Ok chain ∧ key32 chain.
Proof.
  intros Hr. unfold derive_chain. rewrite hex_decode_key by done. cbn [map_err mbind result_bind].
  destruct (hkdf_ok root CHAIN_SALT (lit "soshal-ratchet-v3:chain:" ++ ctx) 32) as (o & -> & Hl & ?); [lia|].
  exists o. cbn [mbind result_bind]. by rewrite to_array_ok.
Qed.

Lemma derive_root_step_ok ss root ctx :
  key32 root → ∃ r c, derive_root_step ss (hex_encode root) ctx = Ok (r, c) ∧ key32 r ∧ key32 c.
Proof.
  intros Hr. unfold derive_root_step. rewrite hex_decode_key by done. cbn [map_err mbind result_bind].
  destruct (hkdf_ok ss root (lit "soshal-ratchet-v3:root:" ++ ctx) 64) as (o & -> & Hl & ?); [lia|].
  eexists _, _. split; [done|]. by apply split64.
Qed.

Lemma derive_msg_key_bytes_ok ch ctx :
  ∃ mk next, derive_msg_key_bytes ch ctx = Ok (mk, next) ∧ key32 mk ∧ key32 next.
Proof.
  unfold derive_msg_key_bytes, pqc_hkdf_sha256.
  destruct (hkdf_some ch (lit "soshal-pqc-ratchet-msg-salt-v3") (lit "pqc-ratchet-msg-v3:" ++ ctx) 64)
    as (o & -> & Hl & ?); [lia|].
  eexists _, _. split; [done|]. by apply split64.
Qed.

(** ** Plaintext compression *)

Lemma compress_bytes_ok p :
  all_bytes p → (zlen p ≤ MAX_INPUT_LEN)%Z →
  ∃ c, compress_bytes p = Ok c ∧ decompress_bytes c = Ok p ∧ all_bytes c ∧ c ≠ [] ∧ (zlen c < 2 ^ 32)%Z.
Proof.
  intros Hb Hl. unfold MAX_INPUT_LEN in *. destruct (deflate_total p) as [z Hz].
  exists (RAW_PLAINTEXT_TAG :: z). unfold compress_bytes, compress, MAX_INPUT_LEN.
  rewrite !(proj2 (Z.leb_le (zlen p) _)) by lia. rewrite Hz. split; [done|].
  cbn [decompress_bytes]. rewrite Z.eqb_refl.
  rewrite (deflate_roundtrip p z MAX_OUTPUT) by (done || unfold MAX_OUTPUT; lia).
  split; [done|]. split; [|split; [done|]].
  - apply List.Forall_cons; [unfold is_byte, RAW_PLAINTEXT_TAG; lia|]. by eapply deflate_bytes.
  - pose proof (deflate_length p z Hz). simpl length. lia.
Qed.

(** ** The header authenticator *)

Lemma xor_acc_range (a b : bytes) acc :
  all_bytes a → all_bytes b → (0 ≤ acc)%Z →
  (foldl (λ acc '(e, p), Z.lor acc (Z.lxor e p)) acc (zip a b) = 0 →
   acc = 0 ∧ (length a = length b → a = b))%Z.
Proof.
  intros Ha. revert b acc. induction Ha as [|x a Hx _ IH]; intros [|y b] acc Hb Hacc; simpl; try done.
  apply Forall_cons in Hb as [Hy Hb]. unfold is_byte in *.
  assert (0 ≤ Z.lxor x y)%Z by (apply Z.lxor_nonneg; lia).
  intros E. apply IH in E as [E1 E2]; [|done|apply Z.lor_nonneg; lia].
  apply Z.lor_eq_0_iff in E1 as [-> E1]. apply Z.lxor_eq in E1 as ->.
  split; [done|]. intros [= ?]. f_equal. auto.
Qed.

Lemma xor_acc_refl a : xor_acc a a = 0%Z.
Proof.
  unfold xor_acc. induction a as [|x a IH]; [done|]. simpl. by rewrite Z.lxor_nilpotent.
Qed.

Lemma verify_compute_header_mac key h :
  verify_header_mac key (mk_header (h_version h) (h_pk h) (h_ct h) (h_seq h) (h_chain_counter h)
    (compute_header_mac key h)) = true.
Proof.
  unfold verify_header_mac, compute_header_mac. cbn [h_header_mac].
  rewrite hex_roundtrip by apply hmac_bytes.
  change (header_mac_input (mk_header _ (h_pk h) (h_ct h) (h_seq h) (h_chain_counter h) _))
    with (header_mac_input h).
  rewrite Nat.eqb_refl. cbn [negb]. by rewrite xor_acc_refl.
Qed.

(** The header check accepts exactly the HMAC of the header's key,
    ciphertext, sequence number and chain counter under the session's MAC key:
    the accumulated exclusive or is zero only when every byte agrees. *)
Theorem header_mac_sound (key : bytes) (h : HeaderOutput) (provided : bytes) :
  hex_decode_str (h_header_mac h) = Some provided → all_bytes provided →
  verify_header_mac key h = true ↔ provided = hmac_sha256 key (header_mac_input h).
Proof.
  intros Hd Hb. unfold verify_header_mac. rewrite Hd. pose proof (hmac_bytes key (header_mac_input h)) as Hm.
  destruct (Nat.eqb_spec (length provided) (length (hmac_sha256 key (header_mac_input h)))) as [Hl|Hl]; cbn [negb].
  - rewrite Z.eqb_eq. split; [|intros ->; apply xor_acc_refl].
    intros E. apply xor_acc_range in E as [_ E]; [|done..]. by rewrite E.
  - split; [done|]. intros ->. done.
Qed.

(** ** The symmetric chain of an epoch *)

Definition msg_step (ctx : str) (ch : bytes) : bytes * bytes :=
  match derive_msg_key_bytes ch ctx with Ok x => x | Err _ => ([], []) end.

Lemma msg_step_ok ch ctx :
  derive_msg_key_bytes ch ctx = Ok (msg_step ctx ch) ∧ key32 (msg_step ctx ch).1 ∧ key32 (msg_step ctx ch).2.
Proof.
  unfold msg_step. destruct (derive_msg_key_bytes_ok ch ctx) as (mk & next & -> & ? & ?). done.
Qed.

Section epoch.
Context (ctx : str) (ch0 : bytes).

(** The [n]-th chain key and message key of the epoch. *)
Definition chain_at (n : nat) : bytes := Nat.iter n (λ c, (msg_step ctx c).2) ch0.
Definition mk_at (n : nat) : bytes := (msg_step ctx (chain_at n)).1.

Lemma chain_at_key n : key32 ch0 → key32 (chain_at n).
Proof. intros. destruct n; [done|]. simpl. apply msg_step_ok. Qed.

Lemma mk_at_key n : key32 (mk_at n).
Proof. apply msg_step_ok. Qed.

Lemma derive_at n : derive_msg_key_bytes (chain_at n) ctx = Ok (mk_at n, chain_at (S n)).
Proof. unfold mk_at. simpl. rewrite (proj1 (msg_step_ok (chain_at n) ctx)). by destruct (msg_step _ _). Qed.

Definition skipped_at (i : nat) : SkippedKey := mk_skipped (Z.of_nat i) (hex_encode (mk_at i)).

Lemma skip_keys_at gap m buf :
  skip_keys gap (Z.of_nat m) (chain_at m) ctx buf =
    Ok (chain_at (m + gap), foldl push_skipped buf (skipped_at <$> seq m gap)).
Proof.
  revert m buf. induction gap as [|gap IH]; intros m buf; cbn [skip_keys seq fmap list_fmap foldl].
  - by rewrite Nat.add_0_r.
  - rewrite derive_at. cbn [mbind result_bind].
    replace (Z.of_nat m + 1)%Z with (Z.of_nat (S m)) by lia. rewrite IH.
    by rewrite Nat.add_succ_r.
Qed.

(** ** The buffer of skipped keys *)

(** The buffer holds keys of this epoch below the counter [m], each once, and
    at most as many as the counter. *)
Record good_buffer (m : nat) (buf : list SkippedKey) : Prop := {
  gb_keys : ∀ s, s ∈ buf → ∃ i, i < m ∧ s = skipped_at i;
  gb_nodup : NoDup (sk_seq <$> buf)
}.

Lemma good_buffer_nil m : good_buffer m [].
Proof. split; [by intros s ?%elem_of_nil|constructor]. Qed.

Lemma skipped_at_seq i : sk_seq (skipped_at i) = Z.of_nat i.
Proof. done. Qed.

Lemma good_buffer_seq m buf i :
  good_buffer m buf → Z.of_nat i ∈ sk_seq <$> buf ↔ skipped_at i ∈ buf.
Proof.
  intros [Hk _]. rewrite list_elem_of_fmap. split.
  - intros (s & Hs & Hin). destruct (Hk s Hin) as (j & _ & ->). rewrite skipped_at_seq in Hs.
    apply Nat2Z.inj in Hs as ->. done.
  - intros. by exists (skipped_at i).
Qed.

Lemma good_buffer_length m buf : good_buffer m buf → length buf ≤ m.
Proof.
  intros [Hk Hnd]. rewrite <-(length_fmap sk_seq buf), <-(length_seq m 0), <-(length_fmap Z.of_nat).
  apply submseteq_length, NoDup_submseteq; [done|].
  intros z (s & -> & Hin)%list_elem_of_fmap. destruct (Hk s Hin) as (i & Hi & ->).
  rewrite skipped_at_seq. apply list_elem_of_fmap. exists i. split; [done|]. apply elem_of_seq. lia.
Qed.

Lemma push_skipped_good m buf :
  good_buffer m buf → (Z.of_nat m < MAX_RATCHET_WINDOW)%Z →
  push_skipped buf (skipped_at m) = buf ++ [skipped_at m] ∧ good_buffer (S m) (buf ++ [skipped_at m]).
Proof.
  intros Hg Hm. pose proof (good_buffer_length _ _ Hg). split.
  - unfold push_skipped. rewrite (proj2 (Z.ltb_ge _ _)); [done|]. rewrite length_app. simpl. lia.
  - destruct Hg as [Hk Hnd]. split.
    + intros s. rewrite elem_of_app, list_elem_of_singleton. intros [Hs| ->]; [|eauto].
      destruct (Hk s Hs) as (i & ? & ->). eauto with lia.
    + rewrite fmap_app. simpl. apply NoDup_app. split; [done|]. split; [|apply NoDup_singleton].
      intros z (s & -> & Hin)%list_elem_of_fmap Hz%list_elem_of_singleton.
      destruct (Hk s Hin) as (i & Hi & ->). rewrite !skipped_at_seq in Hz. lia.
Qed.

Lemma push_all_good gap m buf :
  good_buffer m buf → (Z.of_nat (m + gap) ≤ MAX_RATCHET_WINDOW)%Z →
  foldl push_skipped buf (skipped_at <$> seq m gap) = buf ++ (skipped_at <$> seq m gap) ∧
  good_buffer (m + gap) (buf ++ (skipped_at <$> seq m gap)).
Proof.
  revert m buf. induction gap as [|gap IH]; intros m buf Hg Hm; cbn [seq fmap list_fmap foldl].
  - by rewrite app_nil_r, Nat.add_0_r.
  - destruct (push_skipped_good m buf Hg) as [-> Hg']; [lia|].
    destruct (IH (S m) _ Hg') as [-> Hg'']; [lia|].
    rewrite Nat.add_succ_r. rewrite <-(assoc_L (++)) in *. done.
Qed.

Lemma good_buffer_mono m m' buf : m ≤ m' → good_buffer m buf → good_buffer m' buf.
Proof.
  intros Hm [Hk Hnd]. split; [|done]. intros s Hs. destruct (Hk s Hs) as (i & ? & ->).
  exists i. split; [lia|done].
Qed.

Lemma take_skipped_spec m buf i :
  good_buffer m buf →
  if decide (skipped_at i ∈ buf) then
    ∃ rest, take_skipped (Z.of_nat i) buf = Some (hex_encode (mk_at i), rest) ∧ good_buffer m rest ∧
      ∀ s, s ∈ rest ↔ s ∈ buf ∧ s ≠ skipped_at i
  else take_skipped (Z.of_nat i) buf = None.
Proof.
  induction buf as [|s buf IH]; intros [Hk Hnd]; cbn [take_skipped].
  { rewrite decide_False by apply not_elem_of_nil. done. }
  cbn [fmap list_fmap] in Hnd. apply NoDup_cons in Hnd as [Hs Hnd].
  destruct (Hk s) as (j & Hj & ->); [left|]. rewrite skipped_at_seq in *.
  assert (Hg : good_buffer m buf) by (split; [intros; apply Hk; by right|done]).
  rewrite (good_buffer_seq m) in Hs by done.
  destruct (Z.eqb_spec (Z.of_nat j) (Z.of_nat i)) as [Eij%Nat2Z.inj|Hne].
  - subst j. rewrite decide_True by left. exists buf. split_and!; [done|done|].
    intros s. rewrite elem_of_cons. naive_solver.
  - assert (Hji : skipped_at j ≠ skipped_at i).
    { intros E. apply (f_equal sk_seq) in E. by rewrite !skipped_at_seq in E. }
    specialize (IH Hg). destruct (decide (skipped_at i ∈ buf)) as [Hin|Hni].
    + rewrite decide_True by (by right). destruct IH as (rest & -> & [Hk' Hnd'] & Hrest).
      exists (skipped_at j :: rest). split; [done|]. split.
      * split.
        -- intros s [->|Hs']%elem_of_cons; eauto.
        -- cbn [fmap list_fmap]. apply NoDup_cons. split; [|done].
           rewrite skipped_at_seq, (good_buffer_seq m) by done. naive_solver.
      * intros s. rewrite !elem_of_cons, Hrest. naive_solver.
    + rewrite decide_False; [by rewrite IH|]. rewrite elem_of_cons. naive_solver.
Qed.
End epoch.
End chain.

#[local] Existing Instances Toy.primitives Toy.primitive_laws.

Definition w_mac_header : HeaderOutput :=
  let h := mk_header 3 (lit "pk") (lit "ct") 4 2 [] in
  mk_header 3 (lit "pk") (lit "ct") 4 2 (compute_header_mac (lit "key") h).

Lemma header_mac_sound_witness :
  verify_header_mac (lit "key") w_mac_header = true.
Proof.
  apply (header_mac_sound (lit "key") w_mac_header (hmac_sha256 (lit "key") (header_mac_input w_mac_header))).
  - vm_compute. reflexivity.
  - apply hmac_bytes.
  - reflexivity.
Defined.
