(* ===== verification/RatchetSession.v ===== *)
(** Sessions of the double ratchet: the delivery of one epoch's messages in
    any order, and conversations in which the two parties take turns. *)

From S2P Require Import Prelude RustStr Primitives Hybrid Nip44 Ratchet RatchetChain.

Section session.
Context {P : Primitives} {PL : PrimitiveLaws} {K : Kem} {KL : KemLaws} {A : Aead} {AL : AeadLaws}.

(** The public parameters of an epoch: the pair's context, the first chain
    key, the chain counter, the root key, and the sender's key and KEM
    ciphertext repeated in every header. *)
Record epoch := mk_ep {
  ep_ctx : str; ep_chain : bytes; ep_cc : Z; ep_root : str; ep_pk : str; ep_ct : str
}.

Definition wf_epoch (E : epoch) : Prop :=
  key32 (ep_chain E) ∧ (0 ≤ ep_cc E ∧ ep_cc E + 1 ≤ i64_max)%Z ∧
  length (ep_pk E) = HYBRID_PK_LEN * 2 ∧ length (ep_ct E) = HYBRID_CT_LEN * 2.

(** The [i]-th message of an epoch: header [h] and sealed text [c] of [p]. *)
Record epoch_message (E : epoch) (i : nat) (h : HeaderOutput) (c : str) (p : bytes) : Prop := {
  em_version : h_version h = RATCHET_VERSION;
  em_pk : h_pk h = ep_pk E;
  em_ct : h_ct h = ep_ct E;
  em_seq : h_seq h = Z.of_nat i;
  em_cc : h_chain_counter h = ep_cc E;
  em_mac : verify_header_mac (header_mac_key (ep_root E)) h = true;
  em_open : ∃ comp, aead_open c (mk_at (ep_ctx E) (ep_chain E) i) = Ok comp ∧ decompress_bytes comp = Ok p
}.

(** A receiver's window: the messages below [m] not in [D] have their keys
    buffered; [D] are the messages already delivered. *)
Record window (E : epoch) (st : RatchetState) (m : nat) (D : list nat) : Prop := {
  w_version : version st = RATCHET_VERSION;
  w_ctx : context st = ep_ctx E;
  w_cc : chain_counter st = ep_cc E;
  w_root : root_key st = ep_root E;
  w_counter : receiving_chain_counter st = Z.of_nat m;
  w_max : (Z.of_nat m ≤ MAX_RATCHET_WINDOW)%Z;
  w_good : good_buffer (ep_ctx E) (ep_chain E) m (skipped st);
  w_avail : ∀ i, i < m → skipped_at (ep_ctx E) (ep_chain E) i ∈ skipped st ↔ i ∉ D;
  w_future : ∀ i, i ∈ D → i < m
}.

Definition receiving (E : epoch) (st : RatchetState) (m : nat) : Prop :=
  receiving_chain_key st = hex_encode (chain_at (ep_ctx E) (ep_chain E) m).

(** What a delivery leaves alone. *)
Definition same_sender (st st' : RatchetState) : Prop :=
  current_sk st' = current_sk st ∧ current_pk st' = current_pk st ∧
  sending_chain_key st' = sending_chain_key st ∧
  sending_epoch_peer_pk st' = sending_epoch_peer_pk st.

(** The part of [decrypt_ratchet] after the epoch stage. *)
Definition finish (st out : RatchetState) (h : HeaderOutput) (chain : bytes) (prev : Z) (c : str)
    : may_fail (RatchetState * bytes) :=
  '(out, msg_key, mac_ok) ← message_key st out h chain prev;
  compressed_bytes ← aead_open c msg_key;
  final_plaintext ← decompress_bytes compressed_bytes;
  if (mac_ok : bool) then
    _ ← ensure (verify_header_mac (header_mac_key (root_key out)) h) "bad header mac";
    Ok (set_peer_pk out (h_pk h), final_plaintext)
  else Ok (out, final_plaintext).

Lemma decrypt_finish st h c r :
  decrypt_ratchet st h c r =
    (_ ← decrypt_checks st h c;
     '(out, chain, prev) ← receive_epoch st h r;
     finish st out h chain prev c).
Proof. done. Qed.

(** A message whose key is buffered. *)
Lemma finish_buffered E st out m D i h c p :
  window E out m D → receiving E out m → epoch_message E i h c p →
  i < m → context st = ep_ctx E → (h_chain_counter h + 1 ≠ chain_counter st)%Z →
  if decide (i ∈ D) then finish st out h (chain_at (ep_ctx E) (ep_chain E) m) (Z.of_nat m) c = Err (Fail "replay"%string)
  else ∃ st', finish st out h (chain_at (ep_ctx E) (ep_chain E) m) (Z.of_nat m) c = Ok (st', p) ∧
    window E st' m (i :: D) ∧ receiving E st' m ∧ same_sender out st' ∧ peer_pk st' = ep_pk E.
Proof.
  intros [] Hrecv [] Hi Hctx Hcc. unfold finish, message_key.
  rewrite (proj2 (Z.eqb_neq _ _)) by done. rewrite em_seq0, (proj2 (Z.ltb_lt _ _)) by lia.
  pose proof (take_skipped_spec (ep_ctx E) (ep_chain E) m (skipped out) i w_good0) as Ht.
  destruct (decide (i ∈ D)) as [Hd|Hd].
  { rewrite decide_False in Ht by (rewrite w_avail0 by done; tauto). by rewrite Ht. }
  rewrite decide_True in Ht by (by apply w_avail0). destruct Ht as (rest & -> & Hgood & Hrest).
  destruct em_open0 as (comp & Hopen & Hdec).
  destruct (mk_at_key (ep_ctx E) (ep_chain E) i) as [Hkl Hkb].
  cbn [ok_or mbind result_bind]. rewrite hex_decode_key by done. cbn [mbind result_bind].
  rewrite to_array_ok by done. cbn [mbind result_bind]. rewrite Hopen. cbn [mbind result_bind].
  rewrite Hdec. cbn [mbind result_bind root_key set_receiving]. rewrite w_root0, em_mac0.
  eexists. split; [done|]. split; [|by split_and!].
  split; simpl; try done.
  - intros j Hj. rewrite Hrest, w_avail0, elem_of_cons by done. split.
    + intros [? Hne] [->|?]; [by apply Hne|done].
    + intros Hn. split; [tauto|]. intros Heq%(f_equal sk_seq). rewrite !skipped_at_seq in Heq.
      apply Hn. left. lia.
  - intros j [->|?]%elem_of_cons; auto.
Qed.

(** A message at or beyond the counter. *)
Lemma finish_ahead E st out m D i h c p :
  window E out m D → epoch_message E i h c p →
  m ≤ i → (Z.of_nat i < MAX_RATCHET_WINDOW)%Z → context st = ep_ctx E →
  (h_chain_counter h + 1 ≠ chain_counter st)%Z →
  ∃ st', finish st out h (chain_at (ep_ctx E) (ep_chain E) m) (Z.of_nat m) c = Ok (st', p) ∧
    window E st' (S i) (i :: D) ∧ receiving E st' (S i) ∧ same_sender out st' ∧ peer_pk st' = ep_pk E.
Proof.
  intros [] [] Hi Hmax Hctx Hcc. unfold finish, message_key. unfold MAX_RATCHET_WINDOW in *.
  rewrite (proj2 (Z.eqb_neq _ _)) by done. rewrite em_seq0, (proj2 (Z.ltb_ge _ _)) by lia.
  rewrite (checked_i64_ok (Z.of_nat i - Z.of_nat m)) by (unfold i64_min, i64_max; lia).
  cbn [mbind result_bind]. rewrite (proj2 (Z.leb_le _ _)) by lia. cbn [ensure mbind result_bind].
  replace (Z.to_nat (Z.of_nat i - Z.of_nat m)) with (i - m) by lia.
  rewrite Hctx, skip_keys_at. cbn [mbind result_bind]. replace (m + (i - m)) with i by lia.
  rewrite derive_at. cbn [mbind result_bind].
  destruct em_open0 as (comp & Hopen & Hdec).
  destruct (mk_at_key (ep_ctx E) (ep_chain E) i) as [Hkl Hkb].
  rewrite to_array_ok by done. cbn [mbind result_bind].
  rewrite (checked_i64_ok (Z.of_nat i + 1)) by (unfold i64_min, i64_max; lia). cbn [mbind result_bind].
  rewrite Hopen. cbn [mbind result_bind]. rewrite Hdec. cbn [mbind result_bind root_key set_receiving].
  rewrite w_root0, em_mac0. eexists. split; [done|].
  destruct (push_all_good (ep_ctx E) (ep_chain E) (i - m) m (skipped out) w_good0) as [-> Hg];
    [unfold MAX_RATCHET_WINDOW; lia|].
  replace (m + (i - m)) with i in Hg by lia. split; [|by split_and!].
  split; simpl; try done; [lia|unfold MAX_RATCHET_WINDOW; lia|eapply good_buffer_mono, Hg; lia| |].
  - intros j Hj. rewrite elem_of_app, list_elem_of_fmap, elem_of_cons.
    setoid_rewrite elem_of_seq. destruct (decide (j < m)) as [Hjm|Hjm].
    + rewrite w_avail0 by done. split; [|intros Hn; left; tauto].
      intros [Hn|(j' & Heq%(f_equal sk_seq) & Hj')]; [intros [->|?]; [lia|done]|].
      rewrite !skipped_at_seq in Heq. lia.
    + split.
      * intros [Hin|(j' & Heq%(f_equal sk_seq) & Hj')].
        -- destruct (gb_keys _ _ _ _ w_good0 _ Hin) as (j' & ? & Heq%(f_equal sk_seq)).
           rewrite !skipped_at_seq in Heq. lia.
        -- rewrite !skipped_at_seq in Heq. intros [->|Hin]; [lia|]. apply w_future0 in Hin. lia.
      * intros Hn. right. exists j. split; [done|]. assert (j ≠ i) by tauto. lia.
  - intros j [->|Hj%w_future0]%elem_of_cons; lia.
Qed.

(** One delivery from a window. *)
Definition next_counter (m i : nat) : nat := if i <? m then m else S i.

Lemma finish_spec E st out m D i h c p :
  window E out m D → (0 < m → receiving E out m) → epoch_message E i h c p →
  (Z.of_nat i < MAX_RATCHET_WINDOW)%Z → context st = ep_ctx E →
  (h_chain_counter h + 1 ≠ chain_counter st)%Z →
  if decide (i ∈ D) then finish st out h (chain_at (ep_ctx E) (ep_chain E) m) (Z.of_nat m) c = Err (Fail "replay"%string)
  else ∃ st', finish st out h (chain_at (ep_ctx E) (ep_chain E) m) (Z.of_nat m) c = Ok (st', p) ∧
    window E st' (next_counter m i) (i :: D) ∧ receiving E st' (next_counter m i) ∧
    same_sender out st' ∧ peer_pk st' = ep_pk E.
Proof.
  intros Hw Hr He Hmax Hctx Hcc. unfold next_counter. destruct (Nat.ltb_spec i m) as [Hi|Hi].
  - eapply finish_buffered; try done. apply Hr. lia.
  - rewrite decide_False; [by eapply finish_ahead|]. intros Hin%(w_future _ _ _ _ Hw). lia.
Qed.

(** ** Deliveries within an epoch *)

Lemma decrypt_checks_ok E st i h c p :
  wf_epoch E → epoch_message E i h c p → version st = RATCHET_VERSION →
  (zlen c ≤ MAX_RATCHET_CIPHERTEXT)%Z →
  chain_counter st = ep_cc E ∨ (chain_counter st + 1 = ep_cc E ∧ 0 ≤ chain_counter st)%Z →
  decrypt_checks st h c = Ok ().
Proof.
  intros (_ & Hcc & Hpk & Hct) [] Hv Hc Hst. unfold decrypt_checks.
  rewrite Hv, em_version0, em_pk0, em_ct0, em_cc0, Hpk, Hct, !Nat.eqb_refl, !Z.eqb_refl.
  rewrite (proj2 (Z.leb_le _ MAX_RATCHET_CIPHERTEXT)) by done. cbn [ensure mbind result_bind].
  rewrite !checked_i64_ok by (unfold i64_min; lia). cbn [mbind result_bind].
  rewrite (proj2 (Z.leb_le _ _)) by lia. cbn [ensure mbind result_bind].
  by rewrite (proj2 (Z.leb_le _ _)) by lia.
Qed.

Lemma decrypt_in_epoch E st m D i h c p r :
  wf_epoch E → window E st m D → receiving E st m → epoch_message E i h c p →
  (Z.of_nat i < MAX_RATCHET_WINDOW)%Z → (zlen c ≤ MAX_RATCHET_CIPHERTEXT)%Z →
  if decide (i ∈ D) then decrypt_ratchet st h c r = Err (Fail "replay"%string)
  else ∃ st', decrypt_ratchet st h c r = Ok (st', p) ∧
    window E st' (next_counter m i) (i :: D) ∧ receiving E st' (next_counter m i) ∧
    same_sender st st' ∧ peer_pk st' = ep_pk E.
Proof.
  intros HE Hw Hr He Hmax Hc. rewrite decrypt_finish.
  rewrite (decrypt_checks_ok E _ i _ _ p); [|done..|by apply Hw|done|left; apply Hw].
  cbn [mbind result_bind]. unfold receive_epoch.
  rewrite (em_cc _ _ _ _ _ He), (w_cc _ _ _ _ Hw), (proj2 (Z.eqb_neq _ _)) by lia.
  destruct HE as (Hk & _). pose proof (chain_at_key (ep_ctx E) (ep_chain E) m Hk) as Hkey. rewrite Hr.
  rewrite bool_decide_eq_false_2 by (apply hex_key_nonempty; by eexists).
  cbn [negb ensure mbind result_bind]. rewrite hex_decode_key by done. cbn [map_err mbind result_bind].
  rewrite (w_counter _ _ _ _ Hw).
  apply finish_spec; [done|by intros|done|done|apply Hw|].
  rewrite (em_cc _ _ _ _ _ He), (w_cc _ _ _ _ Hw). lia.
Qed.

(** A run of deliveries: a failed one leaves the state as it was. *)
Fixpoint deliver_all (st : RatchetState) (l : list (HeaderOutput * str * kem_rng))
    : RatchetState * list (may_fail bytes) :=
  match l with
  | [] => (st, [])
  | (h, c, r) :: l =>
      match decrypt_ratchet st h c r with
      | Ok (st', p) => let '(st'', out) := deliver_all st' l in (st'', Ok p :: out)
      | Err e => let '(st'', out) := deliver_all st l in (st'', Err e :: out)
      end
  end.

(** The channel a session implements: each message once, replays refused. *)
Fixpoint once (plain : nat → bytes) (D : list nat) (order : list nat) : list (may_fail bytes) :=
  match order with
  | [] => []
  | i :: order =>
      (if decide (i ∈ D) then Err (Fail "replay"%string) else Ok (plain i)) :: once plain (i :: D) order
  end.

Lemma once_ext plain D D' order : (∀ i, i ∈ D ↔ i ∈ D') → once plain D order = once plain D' order.
Proof.
  revert D D'. induction order as [|i order IH]; intros D D' HD; [done|]. cbn [once]. f_equal.
  - destruct (decide (i ∈ D)), (decide (i ∈ D')); naive_solver.
  - apply IH. intros j. rewrite !elem_of_cons. naive_solver.
Qed.

Lemma deliver_in_epoch E st m D (msgs : nat → HeaderOutput * str) plain (order : list (nat * kem_rng)) :
  wf_epoch E → window E st m D → receiving E st m → peer_pk st = ep_pk E →
  (∀ i, i ∈ order.*1 → epoch_message E i (msgs i).1 (msgs i).2 (plain i) ∧
     (Z.of_nat i < MAX_RATCHET_WINDOW)%Z ∧ (zlen (msgs i).2 ≤ MAX_RATCHET_CIPHERTEXT)%Z) →
  let '(st', out) := deliver_all st ((λ '(i, r), (msgs i, r)) <$> order) in
  out = once plain D order.*1 ∧ same_sender st st' ∧ peer_pk st' = ep_pk E ∧
  ∃ m' D', window E st' m' D' ∧ receiving E st' m'.
Proof.
  intros HE. revert st m D. induction order as [|[i r] order IH]; intros st m D Hw Hr Hpk Hall.
  { cbn. split_and!; try done. by exists m, D. }
  destruct (Hall i) as (He & Hmax & Hc); [left|].
  pose proof (decrypt_in_epoch E st m D i _ _ _ r HE Hw Hr He Hmax Hc) as Hdec.
  cbn [fmap list_fmap deliver_all once]. destruct (msgs i) as [h c]. cbn [fst snd] in *.
  destruct (decide (i ∈ D)) as [Hd|Hd].
  - rewrite Hdec. specialize (IH st m D Hw Hr Hpk). destruct (deliver_all st _) as [st' out].
    destruct IH as (-> & IH); [intros; apply Hall; by right|]. split; [|done]. f_equal.
    apply once_ext. intros j. rewrite elem_of_cons. naive_solver.
  - destruct Hdec as (st1 & -> & Hw1 & Hr1 & (Hs1 & Hs2 & Hs3 & Hs4) & Hp1).
    specialize (IH st1 _ _ Hw1 Hr1 Hp1). destruct (deliver_all st1 _) as [st' out].
    destruct IH as (-> & (H1 & H2 & H3 & H4) & IH); [intros; apply Hall; by right|].
    split; [done|]. split; [|done]. unfold same_sender. split_and!; congruence.
Qed.

End session.
