(* ===== verification/RatchetTurns.v ===== *)
(** Conversations over the double ratchet: one party starts an epoch and sends
    messages, the other receives them in any order and answers with the next
    epoch. *)

From S2P Require Import Prelude RustStr Primitives Hybrid Nip44 Ratchet RatchetChain RatchetSession.

Section turns.
Context {P : Primitives} {PL : PrimitiveLaws} {K : Kem} {KL : KemLaws} {A : Aead} {AL : AeadLaws}.

(** A message to send: the draws of the call and the plaintext. *)
Record outgoing := mk_out {
  o_enc : kem_rng; o_gen : kem_rng; o_nonce : bytes; o_plain : bytes
}.

Definition wf_outgoing (o : outgoing) : Prop :=
  length (o_nonce o) = 32 ∧ all_bytes (o_nonce o) ∧ all_bytes (o_plain o).

Definition encrypt_out (st : RatchetState) (o : outgoing) : may_fail (RatchetState * HeaderOutput * str) :=
  encrypt_ratchet st (o_enc o) (o_gen o) (Some (o_nonce o)) (o_plain o).

(** The sender of an epoch after its [n]-th message. *)
Record sending (E : epoch) (st : RatchetState) (n : nat) : Prop := {
  sd_version : version st = RATCHET_VERSION;
  sd_ctx : context st = ep_ctx E;
  sd_cc : chain_counter st = ep_cc E;
  sd_root : root_key st = ep_root E;
  sd_pk : current_pk st = ep_pk E;
  sd_ct : sending_ct st = ep_ct E;
  sd_chain : sending_chain_key st = hex_encode (chain_at (ep_ctx E) (ep_chain E) n);
  sd_counter : sending_chain_counter st = Z.of_nat n;
  sd_peer : peer_pk st = sending_epoch_peer_pk st ∧ peer_pk st ≠ []
}.

(** What [encrypt_ratchet] does from the epoch it selects. *)
Lemma encrypt_inv st o st' h c :
  encrypt_out st o = Ok (st', h, c) →
  ∃ e mk next comp,
    version st = RATCHET_VERSION ∧ peer_pk st ≠ [] ∧
    send_epoch_of st (o_enc o) (o_gen o) = Ok e ∧
    derive_msg_key (se_chain e) (context st) = Ok (mk, next) ∧
    compress_bytes (o_plain o) = Ok comp ∧ length mk = 32 ∧
    aead_seal (Some (o_nonce o)) comp mk = Ok c ∧
    h = mk_header RATCHET_VERSION (se_pk e) (se_ct e) (se_seq e) (se_cc e)
      (compute_header_mac (header_mac_key (se_root e)) (mk_header RATCHET_VERSION (se_pk e) (se_ct e) (se_seq e) (se_cc e) [])) ∧
    st' = mk_state RATCHET_VERSION (se_root e) (se_sk e) (se_pk e) (peer_pk st) (context st) (se_cc e)
        (hex_encode next) (se_seq e + 1) (se_peer e) (se_ct e)
        (receiving_chain_key st) (receiving_chain_counter st) (skipped st) (prev_epoch_skipped st).
Proof.
  unfold encrypt_out, encrypt_ratchet. destruct (Z.eqb_spec (version st) RATCHET_VERSION) as [Hv|]; [|done].
  destruct (bool_decide (peer_pk st = [])) eqn:Hp; [done|]. apply bool_decide_eq_false in Hp.
  cbn [ensure negb mbind result_bind]. destruct (send_epoch_of st _ _) as [e|] eqn:He; [|done].
  cbn [mbind result_bind]. destruct (derive_msg_key _ _) as [[mk next]|] eqn:Hd; [|done].
  cbn [mbind result_bind]. destruct (compress_bytes _) as [comp|] eqn:Hcomp; [|done].
  cbn [mbind result_bind]. unfold to_array. destruct (Nat.eqb_spec (length mk) 32) as [Hl|]; [|done].
  cbn [mbind result_bind]. destruct (aead_seal _ _ _) as [ct|] eqn:Hs; [|done]. cbn [mbind result_bind].
  unfold checked_i64. destruct (_ && _); [|done]. intros [= <- <- <-].
  exists e, mk, next, comp. by split_and!.
Qed.

Lemma seal_open st_comp p nonce mk c :
  compress_bytes p = Ok st_comp → all_bytes p → length nonce = 32 → all_bytes nonce →
  aead_seal (Some nonce) st_comp mk = Ok c →
  ∃ comp, aead_open c mk = Ok comp ∧ decompress_bytes comp = Ok p.
Proof.
  intros Hc Hp Hn Hnb Hs.
  assert (Hl : (zlen p ≤ MAX_INPUT_LEN)%Z).
  { unfold compress_bytes in Hc. destruct (Z.leb_spec (zlen p) MAX_INPUT_LEN); [done|].
    cbn in Hc. done. }
  destruct (compress_bytes_ok p Hp Hl) as (comp & Hc' & Hd & Hb & Hne & Hlen).
  rewrite Hc in Hc'. injection Hc' as ->.
  destruct (aead_roundtrip nonce comp mk Hn Hnb Hb Hne Hlen) as (c' & Hs' & Ho).
  rewrite Hs in Hs'. injection Hs' as ->. eauto.
Qed.

Lemma header_ok key pk ct seq cc :
  verify_header_mac key (mk_header RATCHET_VERSION pk ct seq cc
    (compute_header_mac key (mk_header RATCHET_VERSION pk ct seq cc []))) = true.
Proof. apply (verify_compute_header_mac key (mk_header RATCHET_VERSION pk ct seq cc [])). Qed.

Lemma encrypt_in_epoch E st n o st' h c :
  key32 (ep_chain E) → sending E st n → wf_outgoing o → encrypt_out st o = Ok (st', h, c) →
  sending E st' (S n) ∧ epoch_message E n h c (o_plain o) ∧
  current_sk st' = current_sk st ∧ sending_epoch_peer_pk st' = sending_epoch_peer_pk st.
Proof.
  intros Hk [] (Hn & Hnb & Hpb) (e & mk & next & comp & Hv & Hp & He & Hd & Hcomp & Hl & Hs & -> & ->)%encrypt_inv.
  pose proof (chain_at_key (ep_ctx E) (ep_chain E) n Hk) as Hkn.
  unfold send_epoch_of, need_new_epoch in He. rewrite sd_chain0 in He.
  rewrite bool_decide_eq_false_2 in He by (apply hex_key_nonempty; by eexists).
  rewrite bool_decide_eq_true_2 in He by apply sd_peer0. injection He as <-. simpl in *.
  unfold derive_msg_key in Hd. rewrite hex_decode_key in Hd by done. simpl in Hd.
  rewrite sd_ctx0, derive_at in Hd. injection Hd as <- <-.
  split; [|split; [|done]].
  - split; simpl; try done; try congruence. lia.
  - split; simpl; try congruence; [rewrite sd_root0; apply header_ok|].
    exact (seal_open _ _ _ _ _ Hcomp Hpb Hn Hnb Hs).
Qed.

(** ** Starting an epoch *)

(** [a] may start an epoch that [b] can follow. *)
Record ready (a b : RatchetState) : Prop := {
  rd_version : version a = RATCHET_VERSION ∧ version b = RATCHET_VERSION;
  rd_ctx : context a = context b;
  rd_root : root_key a = root_key b ∧ (root_key a = [] ∨ hex_key (root_key a));
  rd_cc : chain_counter a = chain_counter b ∧ (0 ≤ chain_counter a)%Z;
  rd_pair : kem_pair (peer_pk a) (current_sk b);
  rd_new : need_new_epoch a = true
}.

Lemma root_step_agree a b ss rh ch :
  root_key a = root_key b → root_key a = [] ∨ hex_key (root_key a) → context a = context b →
  root_step a ss = Ok (rh, ch) →
  hex_key rh ∧ ∃ chain, ch = hex_encode chain ∧ key32 chain ∧
  (if bool_decide (root_key b = []) then
     root ← init_root ss (context b);
     chain ← derive_chain (hex_encode root) (context b);
     Ok (hex_encode root, chain)
   else
     '(new_root, new_chain) ← derive_root_step ss (root_key b) (context b);
     Ok (hex_encode new_root, new_chain)) = Ok (rh, chain).
Proof.
  intros Hr Hk Hc. unfold root_step. rewrite <-Hr, <-Hc.
  destruct (bool_decide_reflect (root_key a = [])) as [E|E].
  - destruct (init_root_ok ss (context a)) as (root & -> & Hroot). cbn [mbind result_bind].
    destruct (derive_chain_ok root (context a) Hroot) as (chain & -> & Hchain). cbn [mbind result_bind].
    intros [= <- <-]. split; [by exists root|]. by exists chain.
  - destruct Hk as [?|(root & -> & Hroot)]; [done|].
    destruct (derive_root_step_ok ss root (context a) Hroot) as (r & c & -> & Hr' & Hc'). cbn [mbind result_bind].
    intros [= <- <-]. split; [by exists r|]. by exists c.
Qed.

(** The receiver's epoch stage follows the sender's new epoch. *)
Definition follows (E : epoch) (b : RatchetState) : Prop :=
  (chain_counter b + 1 = ep_cc E ∧ 0 ≤ chain_counter b)%Z ∧ version b = RATCHET_VERSION ∧
  context b = ep_ctx E ∧
  ∀ h r, h_ct h = ep_ct E → h_chain_counter h = ep_cc E → is_ok (hybrid_keygen r) = true →
    ∃ out, receive_epoch b h r = Ok (out, ep_chain E, 0%Z) ∧ window E out 0 [] ∧
      sending_chain_key out = sending_chain_key b ∧
      sending_epoch_peer_pk out = sending_epoch_peer_pk b ∧ kem_pair (current_pk out) (current_sk out).

Lemma encrypt_new_epoch a b o a' h c :
  ready a b → (chain_counter a + 2 ≤ i64_max)%Z → wf_outgoing o → encrypt_out a o = Ok (a', h, c) →
  ∃ E, wf_epoch E ∧ hex_key (ep_root E) ∧ follows E b ∧ sending E a' 1 ∧
    epoch_message E 0 h c (o_plain o) ∧ kem_pair (current_pk a') (current_sk a') ∧
    ep_cc E = (chain_counter a + 1)%Z.
Proof.
  intros [[Hva Hvb] Hctx [Hroot Hrk] [Hcc Hpos] Hpair Hnew] Hbound (Hn & Hnb & Hpb)
    (e & mk & next & comp & _ & Hp & He & Hd & Hcomp & Hl & Hs & -> & ->)%encrypt_inv.
  unfold send_epoch_of in He. rewrite Hnew in He.
  destruct (hybrid_encapsulate _ _ _) as [[ct ssh]|] eqn:Henc; [|done]. cbn [map_err mbind result_bind] in He.
  destruct (kem_correct _ _ _ _ _ _ Hpair Henc) as (Hct & (ss & -> & Hssb & Hssl) & Hdec).
  rewrite hex_decode_key in He by done. cbn [map_err mbind result_bind] in He.
  destruct (root_step a ss) as [[rh ch]|] eqn:Hrs; [|done]. cbn [mbind result_bind] in He.
  destruct (root_step_agree a b ss rh ch Hroot Hrk Hctx Hrs) as (Hrh & chain & -> & Hchain & Hb).
  destruct (hybrid_keygen (o_gen o)) as [[pk sk]|] eqn:Hgen; [|done]. cbn [map_err mbind result_bind] in He.
  unfold checked_i64 in He. destruct (_ && _) eqn:Hrange; [|done]. cbn [mbind result_bind] in He.
  apply andb_true_iff in Hrange as [_ Hmax%Z.leb_le]. injection He as <-. simpl in *.
  pose proof (keygen_pair _ _ _ Hgen) as Hpair'.
  destruct (pair_pk _ _ Hpair') as (pkb & Epk & _ & Hpkl).
  unfold derive_msg_key in Hd. rewrite hex_decode_key in Hd by done. simpl in Hd.
  set (E := mk_ep (context a) chain (chain_counter a + 1) rh pk ct).
  change chain with (chain_at (ep_ctx E) (ep_chain E) 0) in Hd.
  rewrite (derive_at (ep_ctx E)) in Hd. injection Hd as <- <-.
  exists E. split_and!; try done.
  - split; [done|]. unfold E. cbn [ep_cc ep_pk ep_ct]. rewrite Epk, hex_length, Hpkl, Hct.
    split_and!; [lia|lia|apply Nat.mul_comm|reflexivity].
  - split_and!; simpl; try done; [lia|lia|].
    intros h r Eh Ec Hr. unfold receive_epoch. rewrite Ec, Eh. simpl ep_ct. simpl ep_cc.
    rewrite <-Hcc, Z.eqb_refl, Hdec. cbn [map_err mbind result_bind].
    rewrite hex_decode_key by done. cbn [map_err mbind result_bind]. rewrite Hb. cbn [mbind result_bind].
    destruct (hybrid_keygen r) as [[rpk rsk]|] eqn:Hrg; [|done]. cbn [map_err mbind result_bind].
    eexists. split; [done|]. split; [|split_and!; [done..|by eapply keygen_pair]].
    split; simpl; try done; [apply good_buffer_nil|intros; lia|by intros ? ?%elem_of_nil].
  - split; simpl; try done; [apply header_ok|].
    exact (seal_open _ _ _ _ _ Hcomp Hpb Hn Hnb Hs).
Qed.

(** ** One turn *)

Fixpoint encrypt_all (st : RatchetState) (l : list outgoing)
    : may_fail (RatchetState * list (HeaderOutput * str)) :=
  match l with
  | [] => Ok (st, [])
  | o :: l =>
      '(st, h, c) ← encrypt_out st o;
      '(st, msgs) ← encrypt_all st l;
      Ok (st, (h, c) :: msgs)
  end.

Definition no_message : HeaderOutput * str := (mk_header 0 [] [] 0 0 [], []).

(** Sends [outs] from [a] and delivers to [b] the messages [order] names, in
    that order. *)
Definition turn (a b : RatchetState) (outs : list outgoing) (order : list (nat * kem_rng))
    : may_fail (RatchetState * RatchetState * list (may_fail bytes)) :=
  '(a', msgs) ← encrypt_all a outs;
  let '(b', res) := deliver_all b ((λ '(i, r), (nth i msgs no_message, r)) <$> order) in
  Ok (a', b', res).

Definition plain_of (outs : list outgoing) (i : nat) : bytes :=
  match outs !! i with Some o => o_plain o | None => [] end.

Lemma encrypt_all_in_epoch E st n outs st' msgs :
  key32 (ep_chain E) → sending E st n → Forall wf_outgoing outs →
  encrypt_all st outs = Ok (st', msgs) →
  sending E st' (n + length outs) ∧ current_sk st' = current_sk st ∧
  ∀ i, i < length outs →
    epoch_message E (n + i) (nth i msgs no_message).1 (nth i msgs no_message).2 (plain_of outs i).
Proof.
  intros Hk. revert st n msgs. induction outs as [|o outs IH]; intros st n msgs Hs Hwf; cbn [encrypt_all].
  { intros [= <- <-]. cbn [length]. rewrite Nat.add_0_r. split_and!; [done..|]. lia. }
  apply Forall_cons in Hwf as [Ho Hwf].
  destruct (encrypt_out st o) as [[[st1 h] c]|] eqn:He; [|done]. cbn [mbind result_bind].
  destruct (encrypt_all st1 outs) as [[st2 msgs']|] eqn:Hall; [|done]. cbn [mbind result_bind].
  intros [= <- <-].
  destruct (encrypt_in_epoch E st n o st1 h c Hk Hs Ho He) as (Hs1 & Hm & Hsk & _).
  destruct (IH st1 (S n) msgs' Hs1 Hwf Hall) as (Hs2 & Hsk2 & Hms). cbn [length].
  replace (n + S (length outs)) with (S n + length outs) by lia.
  split; [done|]. split; [congruence|]. intros [|i] Hi.
  - by rewrite Nat.add_0_r.
  - replace (n + S i) with (S n + i) by lia. apply Hms. lia.
Qed.

(** The side conditions of a turn: the draws are well formed, the messages
    stay within the window and the receiver's ciphertext cap, and the
    receiver's key generator does not fail. *)
Record turn_ok (a : RatchetState) (outs : list outgoing) (order : list (nat * kem_rng)) : Prop := {
  to_wf : Forall wf_outgoing outs;
  to_window : (zlen outs ≤ MAX_RATCHET_WINDOW)%Z;
  to_order : ∀ i, i ∈ order.*1 → i < length outs;
  to_gen : ∀ r, r ∈ order.*2 → is_ok (hybrid_keygen r) = true;
  to_size : ∀ a' msgs i, encrypt_all a outs = Ok (a', msgs) →
    (zlen (nth i msgs no_message).2 ≤ MAX_RATCHET_CIPHERTEXT)%Z
}.

Lemma decrypt_first E b i h c p r :
  wf_epoch E → follows E b → epoch_message E i h c p →
  (Z.of_nat i < MAX_RATCHET_WINDOW)%Z → (zlen c ≤ MAX_RATCHET_CIPHERTEXT)%Z →
  is_ok (hybrid_keygen r) = true →
  ∃ b', decrypt_ratchet b h c r = Ok (b', p) ∧ window E b' (S i) [i] ∧ receiving E b' (S i) ∧
    sending_chain_key b' = sending_chain_key b ∧ sending_epoch_peer_pk b' = sending_epoch_peer_pk b ∧
    kem_pair (current_pk b') (current_sk b') ∧ peer_pk b' = ep_pk E.
Proof.
  intros HE [Hcc (Hv & Hctx & Hf)] He Hmax Hc Hr. rewrite decrypt_finish.
  rewrite (decrypt_checks_ok E _ i _ _ p) by (done || by right). cbn [mbind result_bind].
  destruct (Hf h r) as (out & -> & Hw & Hs1 & Hs2 & Hpair); [apply He|apply He|done|].
  cbn [mbind result_bind].
  pose proof (finish_spec E b out 0 [] i h c p Hw) as Hfin.
  rewrite decide_False in Hfin by apply not_elem_of_nil.
  change (ep_chain E) with (chain_at (ep_ctx E) (ep_chain E) 0) at 1. change 0%Z with (Z.of_nat 0).
  destruct Hfin as (b' & -> & Hw' & Hr' & (H1 & H2 & H3 & H4) & Hp); [lia|done|done|done| |].
  { rewrite (em_cc _ _ _ _ _ He). lia. }
  exists b'. split; [done|]. split_and!; try done; try congruence.
Qed.

Lemma once_replace plain i order :
  once plain [] (i :: order) = Ok (plain i) :: once plain [i] order.
Proof. cbn [once]. by rewrite decide_False by apply not_elem_of_nil. Qed.

Lemma turn_correct a b outs order a' b' res :
  ready a b → (chain_counter a + 2 ≤ i64_max)%Z → turn_ok a outs order → outs ≠ [] → order ≠ [] →
  turn a b outs order = Ok (a', b', res) →
  res = once (plain_of outs) [] order.*1 ∧
  (current_pk a' ≠ sending_epoch_peer_pk b → ready b' a') ∧
  chain_counter b' = (chain_counter a + 1)%Z.
Proof.
  intros Hready Hbound [Hwf Hwin Hord Hgen Hsize] Ho Hne. unfold turn.
  destruct (encrypt_all a outs) as [[a1 msgs]|] eqn:Hall; [|done]. cbn [mbind result_bind].
  pose proof (λ i, Hsize _ _ i eq_refl) as Hsz. clear Hsize.
  destruct outs as [|o outs]; [done|]. apply Forall_cons in Hwf as [Hwo Hwf]. cbn [encrypt_all] in Hall.
  destruct (encrypt_out a o) as [[[a0 h0] c0]|] eqn:Heo; [|done]. cbn [mbind result_bind] in Hall.
  destruct (encrypt_all a0 outs) as [[a2 msgs0]|] eqn:Hall0; [|done]. cbn [mbind result_bind] in Hall.
  injection Hall as <- <-.
  destruct (encrypt_new_epoch a b o a0 h0 c0 Hready Hbound Hwo Heo)
    as (E & HE & Hroot & Hf & Hs & Hm0 & Hpair & Hcc).
  pose proof HE as [Hkey _].
  destruct (encrypt_all_in_epoch E a0 1 outs a2 msgs0 Hkey Hs Hwf Hall0) as (Hs2 & Hsk2 & Hms).
  set (msgs := (h0, c0) :: msgs0) in *.
  assert (Hmsg : ∀ i, i < length (o :: outs) →
    epoch_message E i (nth i msgs no_message).1 (nth i msgs no_message).2 (plain_of (o :: outs) i)).
  { intros [|i] Hi; [done|]. apply (Hms i). simpl in Hi. lia. }
  destruct order as [|[i r] order]; [done|]. cbn [fmap list_fmap deliver_all].
  assert (Hb : ∀ j, j ∈ ((i, r) :: order).*1 → (Z.of_nat j < MAX_RATCHET_WINDOW)%Z).
  { intros j Hj%Hord. lia. }
  destruct (decrypt_first E b i (nth i msgs no_message).1 (nth i msgs no_message).2 (plain_of (o :: outs) i) r)
    as (b1 & Hdec & Hw1 & Hr1 & Hsc & Hse & Hbp & Hpk); [done|done|apply Hmsg, Hord; left|apply Hb; left|done|apply Hgen; left|].
  pose proof (deliver_in_epoch E b1 (S i) [i] (λ j, nth j msgs no_message) (plain_of (o :: outs)) order
    HE Hw1 Hr1 Hpk) as Hdel.
  destruct (nth i msgs no_message) as [h c] eqn:Emsg. cbn [fst snd] in *. rewrite Hdec.
  destruct (deliver_all b1 _) as [b2 out]. cbn [mbind result_bind]. intros [= <- <- <-].
  destruct Hdel as (-> & (H1 & H2 & H3 & H4) & Hpk' & m' & D' & Hw' & Hr').
  { intros j Hj. split_and!; [apply Hmsg, Hord; by right|apply Hb; by right|done]. }
  rewrite once_replace. split; [done|]. split.
  - intros Hfresh. destruct Hs2 as [Hv2 Hctx2 Hcc2 Hroot2 Hpk2 _ _ _ _]. split.
    + split; [apply Hw'|done].
    + rewrite Hctx2. apply Hw'.
    + rewrite Hroot2, (w_root _ _ _ _ Hw'). split; [done|by right].
    + rewrite Hcc2, (w_cc _ _ _ _ Hw'). split; [done|]. destruct HE as (_ & ? & _). lia.
    + rewrite Hpk', Hsk2. destruct Hs as [_ _ _ _ <- _ _ _ _]. done.
    + unfold need_new_epoch. apply orb_true_iff. right. apply negb_true_iff, bool_decide_eq_false.
      rewrite Hpk', H4, Hse, <-Hpk2. done.
  - by rewrite (w_cc _ _ _ _ Hw').
Qed.

(** ** Conversations *)

(** The parties take turns; the results of every turn. *)
Fixpoint conversation (a b : RatchetState) (turns : list (list outgoing * list (nat * kem_rng)))
    : may_fail (list (list (may_fail bytes))) :=
  match turns with
  | [] => Ok []
  | (outs, order) :: turns =>
      '(a', b', res) ← turn a b outs order;
      rest ← conversation b' a' turns;
      Ok (res :: rest)
  end.

(** The side conditions along a conversation: those of each turn, and the
    sender's new key differs from the key the receiver's last epoch was built
    against. *)
Fixpoint conversation_ok (a b : RatchetState) (turns : list (list outgoing * list (nat * kem_rng))) : Prop :=
  match turns with
  | [] => True
  | (outs, order) :: turns =>
      outs ≠ [] ∧ order ≠ [] ∧ turn_ok a outs order ∧
      ∀ a' b' res, turn a b outs order = Ok (a', b', res) →
        current_pk a' ≠ sending_epoch_peer_pk b ∧ conversation_ok b' a' turns
  end.

Lemma init_ready ctx alice_sk alice_pk bob_sk bob_pk :
  kem_pair bob_pk bob_sk →
  ready (init_state bob_pk ctx alice_sk alice_pk) (init_state [] ctx bob_sk bob_pk).
Proof. intros. split; simpl; [auto|auto|auto|lia|done|done]. Qed.

Lemma conversation_ready turns : ∀ a b res,
  ready a b → (chain_counter a + zlen turns + 1 ≤ i64_max)%Z → conversation_ok a b turns →
  conversation a b turns = Ok res →
  res = (λ '(outs, order), once (plain_of outs) [] order.*1) <$> turns.
Proof.
  induction turns as [|[outs order] turns IH]; intros a b res Hr Hb Hok; cbn [conversation].
  { by intros [= <-]. }
  destruct Hok as (Ho & Hne & Htok & Hnext). cbn [length] in Hb.
  destruct (turn a b outs order) as [[[a' b'] r]|] eqn:Ht; [|done]. cbn [mbind result_bind].
  destruct (conversation b' a' turns) as [rest|] eqn:Hc; [|done]. cbn [mbind result_bind].
  intros [= <-]. destruct (Hnext _ _ _ eq_refl) as [Hfresh Hok'].
  destruct (turn_correct a b outs order a' b' r Hr ltac:(lia) Htok Ho Hne Ht) as (-> & Hready & Hcc).
  cbn [fmap list_fmap]. f_equal. eapply IH; [by apply Hready| |done|done]. lia.
Qed.

(** The side conditions are decidable on concrete runs. *)
Definition is_byteb (b : Z) : bool := (0 <=? b)%Z && (b <? 256)%Z.

Definition wf_outgoingb (o : outgoing) : bool :=
  (length (o_nonce o) =? 32) && forallb is_byteb (o_nonce o) && forallb is_byteb (o_plain o).

Definition turn_okb (a : RatchetState) (outs : list outgoing) (order : list (nat * kem_rng)) : bool :=
  forallb wf_outgoingb outs && (zlen outs <=? MAX_RATCHET_WINDOW)%Z &&
  forallb (λ i, i <? length outs) order.*1 && forallb (λ r, is_ok (hybrid_keygen r)) order.*2 &&
  match encrypt_all a outs with
  | Ok (_, msgs) => forallb (λ m : HeaderOutput * str, (zlen m.2 <=? MAX_RATCHET_CIPHERTEXT)%Z) msgs
  | Err _ => true
  end.

Fixpoint conversation_okb (a b : RatchetState) (turns : list (list outgoing * list (nat * kem_rng))) : bool :=
  match turns with
  | [] => true
  | (outs, order) :: turns =>
      negb (length outs =? 0) && negb (length order =? 0) && turn_okb a outs order &&
      match turn a b outs order with
      | Ok (a', b', _) =>
          negb (bool_decide (current_pk a' = sending_epoch_peer_pk b)) && conversation_okb b' a' turns
      | Err _ => true
      end
  end.

Lemma forallb_bytes l : forallb is_byteb l = true → all_bytes l.
Proof.
  rewrite forallb_forall. intros Hl. apply Forall_forall. intros b Hb%list_elem_of_In%Hl.
  apply andb_true_iff in Hb as [?%Z.leb_le ?%Z.ltb_lt]. by split.
Qed.

Lemma turn_okb_sound a outs order : turn_okb a outs order = true → turn_ok a outs order.
Proof.
  unfold turn_okb. rewrite !andb_true_iff, !forallb_forall. intros ((((Hw & Hl) & Ho) & Hg) & Hs). split.
  - apply Forall_forall. intros o Ho'%list_elem_of_In%Hw. unfold wf_outgoingb in Ho'.
    apply andb_true_iff in Ho' as [[Hn%Nat.eqb_eq Hnb%forallb_bytes]%andb_true_iff Hp%forallb_bytes]. done.
  - by apply Z.leb_le.
  - intros i Hi%list_elem_of_In%Ho. by apply Nat.ltb_lt.
  - intros r Hr%list_elem_of_In. by apply Hg.
  - intros a' msgs i E. rewrite E in Hs. rewrite forallb_forall in Hs.
    destruct (nth_in_or_default i msgs no_message) as [Hin| ->]; [by apply Z.leb_le, Hs|].
    unfold MAX_RATCHET_CIPHERTEXT. simpl. lia.
Qed.

Lemma conversation_okb_sound turns : ∀ a b, conversation_okb a b turns = true → conversation_ok a b turns.
Proof.
  induction turns as [|[outs order] turns IH]; intros a b; [done|]. cbn [conversation_okb conversation_ok].
  rewrite !andb_true_iff, !negb_true_iff. intros (((Ho & Hn) & Ht) & Hrest). split_and!.
  - by intros ->.
  - by intros ->.
  - by apply turn_okb_sound.
  - intros a' b' res E. rewrite E in Hrest. apply andb_true_iff in Hrest as [Hf Hrest].
    split; [by apply negb_true_iff, bool_decide_eq_false in Hf|by apply IH].
Qed.

(** C1: conversations: starting from a fresh session, whenever the parties
    take turns, each turn's messages being delivered in any order with losses
    and repetitions, every delivered message decrypts to its plaintext the
    first time and is refused as a replay afterwards, through every change of
    epoch. *)
Theorem conversation_correct ctx alice_sk alice_pk bob_sk bob_pk
    (turns : list (list outgoing * list (nat * kem_rng))) res :
  kem_pair bob_pk bob_sk →
  let a := init_state bob_pk ctx alice_sk alice_pk in
  let b := init_state [] ctx bob_sk bob_pk in
  conversation_ok a b turns → (zlen turns + 1 ≤ i64_max)%Z →
  conversation a b turns = Ok res →
  res = (λ '(outs, order), once (plain_of outs) [] order.*1) <$> turns.
Proof.
  intros Hp a b Hok Hl Hc. eapply conversation_ready; [by apply init_ready|simpl; lia|done|done].
Qed.
End turns.

(** ** A concrete conversation *)

#[local] Existing Instances Toy.primitives Toy.primitive_laws.

Definition w_draw (n : Z) (H : is_byte n) : kem_rng (Kem := hybrid_kem) :=
  exist _ (Some (replicate 32 n), Some (replicate 64 n))
    (conj (wf_draw_replicate 32 n H) (wf_draw_replicate 64 n H)).

Lemma w_byte n : (is_byteb n = true) → is_byte n.
Proof. intros [?%Z.leb_le ?%Z.ltb_lt]%andb_true_iff. by split. Qed.

Definition w_rng (n : Z) : kem_rng (Kem := hybrid_kem) :=
  match decide (is_byteb n = true) with
  | left H => w_draw n (w_byte n H)
  | right _ => w_draw 0 (w_byte 0 eq_refl)
  end.

Definition w_keys (n : Z) : str * str :=
  unwrap_or ([], []) (hybrid_keygen (w_rng n)).

Definition w_out (n : Z) (p : string) : outgoing := mk_out (w_rng n) (w_rng (n + 1)) (replicate 32 n) (lit p).

(** Two messages delivered in the order second, first, second; then a reply;
    then one more message. *)
Definition w_turns : list (list outgoing * list (nat * kem_rng)) :=
  [([w_out 10 "hi"; w_out 20 "there"], [(1, w_rng 30); (0, w_rng 31); (1, w_rng 32)]);
   ([w_out 40 "ok"], [(0, w_rng 50)]);
   ([w_out 60 "bye"], [(0, w_rng 70)])].

Lemma w_pair : kem_pair (w_keys 2).1 (w_keys 2).2.
Proof. apply (keygen_pair (w_rng 2)). vm_compute. reflexivity. Qed.

Lemma conversation_correct_witness :
  ∃ res,
    conversation (init_state (w_keys 2).1 (lit "dm:a:b") (w_keys 1).2 (w_keys 1).1)
      (init_state [] (lit "dm:a:b") (w_keys 2).2 (w_keys 2).1) w_turns = Ok res ∧
    res = [[Ok (lit "there"); Ok (lit "hi"); Err (Fail "replay")]; [Ok (lit "ok")]; [Ok (lit "bye")]].
Proof.
  eexists. split; [vm_compute; reflexivity|].
  etransitivity; [|vm_compute; reflexivity].
  refine (eq_trans (conversation_correct (lit "dm:a:b") (w_keys 1).2 (w_keys 1).1 (w_keys 2).2 (w_keys 2).1
    w_turns _ w_pair _ _ _) _).
  - apply conversation_okb_sound. vm_compute. reflexivity.
  - apply Z.leb_le. vm_compute. reflexivity.
  - vm_compute. reflexivity.
  - reflexivity.
Defined.
