(* ===== verification/RatchetLimits.v ===== *)
(** Limits of the double ratchet and its wire encoding: the header's tag form,
    the pair's context, and three inputs the receiver cannot open (a forged
    chain counter, a message that crosses a reply, an incompressible
    payload). *)

From S2P Require Import Prelude RustStr Primitives Hybrid Nip44 Ratchet RatchetChain RatchetSession RatchetTurns.

(** The two parties derive the same context string, whoever computes it. *)
Lemma ratchet_context_comm (a b : str) : ratchet_context a b = ratchet_context b a.
Proof.
  unfold ratchet_context. destruct (str_leb a b) eqn:E1, (str_leb b a) eqn:E2; try done.
  - by rewrite (str_leb_antisym a b).
  - destruct (str_leb_total a b); congruence.
Qed.

(** A header published as wrapper tags parses back to itself. *)
Theorem header_tags_roundtrip (out : RatchetState) (h : HeaderOutput) :
  h_version h = RATCHET_VERSION →
  (i64_min ≤ h_seq h ≤ i64_max)%Z → (i64_min ≤ h_chain_counter h ≤ i64_max)%Z →
  ratchet_header_from_tags (ratchet_wrapper_tags out h) = Some h.
Proof.
  intros Hv Hs Hc. destruct h as [v pk ct seq cc mac]. simpl in *. subst v.
  unfold ratchet_header_from_tags, ratchet_wrapper_tags.
  change (tag_of ?t (lit "ratchet_pk")) with (Some pk).
  change (tag_of ?t (lit "ratchet_ct")) with (Some ct).
  change (tag_of ?t (lit "ratchet_seq")) with (Some (print_i64 seq)).
  change (tag_of ?t (lit "ratchet_cc")) with (Some (print_i64 cc)).
  change (tag_of ?t (lit "ratchet_header_mac")) with (Some mac).
  change (tag_of ?t (lit "ratchet_version")) with (Some (lit "3")).
  cbn [mbind option_bind h_seq h_chain_counter]. rewrite !parse_print_i64 by done. done.
Qed.

Definition w_header : HeaderOutput := mk_header 3 (lit "pk") (lit "ct") (-5) 7 (lit "mac").

Lemma header_tags_roundtrip_witness :
  ratchet_header_from_tags (ratchet_wrapper_tags (init_state [] [] [] []) w_header) = Some w_header.
Proof.
  apply header_tags_roundtrip; [reflexivity| |]; split; apply Z.leb_le; vm_compute; reflexivity.
Defined.

Section limits.
Context {P : Primitives} {K : Kem} {A : Aead}.

(** A header whose chain counter is the largest [i64] makes the receiver
    panic (the release build aborts) before any key or authenticator is
    consulted: only the version and the two length checks come first. *)
Theorem forged_counter_panics (st : RatchetState) (h : HeaderOutput) (c : str) (r : kem_rng) :
  version st = RATCHET_VERSION → h_version h = RATCHET_VERSION →
  length (h_pk h) = HYBRID_PK_LEN * 2 → length (h_ct h) = HYBRID_CT_LEN * 2 →
  (zlen c ≤ MAX_RATCHET_CIPHERTEXT)%Z → h_chain_counter h = i64_max →
  decrypt_ratchet st h c r = Err Panic.
Proof.
  intros Hv Hh Hp Hc Hl Hcc. unfold decrypt_ratchet, decrypt_checks.
  rewrite Hv, Hh, Hp, Hc, Hcc, !Nat.eqb_refl, !Z.eqb_refl, (proj2 (Z.leb_le _ _)) by done. done.
Qed.

(** A message in flight when the receiver replies is lost: once the
    receiver has moved to the next epoch by sending, a message of the epoch it
    was receiving is refused as a replay unless its key had been skipped, even
    when its key is the next one of the receiving chain. *)
Theorem crossing_message_refused (st : RatchetState) (o : outgoing) (st' : RatchetState)
    (h' : HeaderOutput) (c' : str) (h : HeaderOutput) (c : str) (r : kem_rng) :
  need_new_epoch st = true → encrypt_out st o = Ok (st', h', c') →
  h_chain_counter h = chain_counter st → take_skipped (h_seq h) (prev_epoch_skipped st) = None →
  is_ok (decrypt_ratchet st' h c r) = false.
Proof.
  intros Hnew (e & mk & next & comp & _ & _ & He & _ & _ & _ & _ & _ & Hst)%encrypt_inv Hcc Hnone.
  unfold send_epoch_of in He. rewrite Hnew in He.
  assert (Hse : se_cc e = (chain_counter st + 1)%Z).
  { clear -He. destruct (hybrid_encapsulate _ _ _) as [[ct ssh]|]; [|done]. cbn [map_err mbind result_bind] in He.
    destruct (hex_decode _) as [ss|]; [|done]. cbn [map_err mbind result_bind] in He.
    destruct (root_step _ _) as [[rh ch]|]; [|done]. cbn [mbind result_bind] in He.
    destruct (hybrid_keygen _) as [[pk sk]|]; [|done]. cbn [map_err mbind result_bind] in He.
    unfold checked_i64 in He. destruct (_ && _); [|done]. cbn [mbind result_bind] in He.
    by injection He as <-. }
  assert (Hcc' : chain_counter st' = (chain_counter st + 1)%Z) by (by rewrite Hst).
  assert (Hprev : prev_epoch_skipped st' = prev_epoch_skipped st) by (by rewrite Hst). clear Hst He.
  apply not_ok_is_ok. intros p Hd. rewrite decrypt_finish in Hd. destruct (decrypt_checks _ _ _) as [|]; [|done].
  cbn [mbind result_bind] in Hd. unfold receive_epoch in Hd.
  rewrite Hcc, Hcc', (proj2 (Z.eqb_neq _ _)) in Hd by lia.
  destruct (ensure _ _); [|done]. cbn [mbind result_bind] in Hd.
  destruct (hex_decode _) as [ch|]; [|done]. cbn [map_err mbind result_bind] in Hd.
  unfold finish, message_key in Hd. by rewrite Hcc, Hcc', Hprev, Z.eqb_refl, Hnone in Hd.
Qed.
End limits.

(** ** Payloads that do not compress *)

Section oversized.
Context {P : Primitives} {PL : PrimitiveLaws} {K : Kem}.

Lemma calc_padding_large n : (40961 ≤ n)%Z → (49152 ≤ calc_padding n)%Z.
Proof.
  intros Hn. destruct (Z.leb_spec 49152 n) as [Hbig|Hsmall].
  { destruct (calc_padding_bounds n) as [[? _] _]; lia. }
  rewrite calc_padding_chunk by lia. unfold padding_chunk, log2_round_down.
  assert (Z.log2 (n - 1) = 15)%Z as -> by (apply Z.log2_unique; lia).
  change (Z.shiftl 1 (15 + 1) <=? 256)%Z with false. change (Z.shiftl 1 (15 + 1) / 8)%Z with 8192%Z.
  cbn iota. assert (5 ≤ (n - 1) / 8192)%Z by (apply Z.div_le_lower_bound; lia). lia.
Qed.

(** A payload whose compressed form reaches 40,960 bytes seals to a
    ciphertext that every receiver rejects as too large, although sealing
    succeeds: padding and base64 take it past the receiver's 64 KiB cap. *)
Theorem oversized_payload_rejected (st st' st2 : RatchetState) (o : outgoing) (h : HeaderOutput)
    (c : str) (z : bytes) (r : kem_rng) :
  deflate (o_plain o) = Some z → (40960 ≤ zlen z)%Z → (zlen z < 2 ^ 31)%Z → length (o_nonce o) = SALT_LEN →
  encrypt_out st o = Ok (st', h, c) → is_ok (decrypt_ratchet st2 h c r) = false.
Proof.
  intros Hz Hlen Hlen' Hn (e & mk & next & comp & _ & _ & _ & _ & Hcomp & _ & Hseal & _ & _)%encrypt_inv.
  unfold compress_bytes, compress in Hcomp. rewrite Hz in Hcomp.
  destruct (zlen (o_plain o) <=? MAX_INPUT_LEN)%Z; [|done]. cbn [ensure mbind result_bind] in Hcomp.
  destruct (zlen (o_plain o) <=? _)%Z; [|done]. cbn [ensure mbind result_bind ok_or map_err] in Hcomp.
  injection Hcomp as <-. unfold aead_seal, nip44_aead in Hseal.
  set (comp := [RAW_PLAINTEXT_TAG] ++ z) in *.
  assert (Hcl : zlen comp = (zlen z + 1)%Z) by (subst comp; simpl length; lia).
  rewrite encrypt_spec in Hseal by (apply wf_ck_none || done). injection Hseal as <-.
  assert (Hbig : (MAX_RATCHET_CIPHERTEXT <
    zlen (base64_encode (sealed mk (o_nonce o) (padded_body comp))))%Z).
  { rewrite base64_length, sealed_length by done.
    pose proof (padded_body_length comp ltac:(done) ltac:(lia)) as Hb.
    pose proof (calc_padding_large (zlen comp) ltac:(lia)) as Hp.
    unfold MAX_RATCHET_CIPHERTEXT.
    assert (49154 ≤ zlen (padded_body comp))%Z as Hpb.
    { destruct (encode_prefix_len (zlen comp)) as [[E _]|[E _]]; rewrite E in Hb;
        unfold PREFIX_LEN_SMALL, PREFIX_LEN_EXTENDED in Hb; lia. }
    rewrite Nat2Z.inj_mul, Nat2Z.inj_div, !Nat2Z.inj_add.
    assert (16407 ≤ (Z.of_nat 65 + zlen (padded_body comp) + Z.of_nat 2) / Z.of_nat 3)%Z; [|lia].
    apply Z.div_le_lower_bound; lia. }
  unfold comp in Hbig. cbn [app] in Hbig. apply not_ok_is_ok. intros p Hd. rewrite decrypt_finish in Hd. apply result_bind_ok in Hd as (u & Hchecks & _).
  unfold decrypt_checks in Hchecks. inv_ok.
  repeat match goal with H : (_ <=? _)%Z = true |- _ => apply Z.leb_le in H end. lia.
Qed.
End oversized.

(** ** Concrete runs *)

#[local] Existing Instances Toy.primitives Toy.primitive_laws.

Definition w_alice : RatchetState :=
  init_state (w_keys 2).1 (lit "dm:a:b") (w_keys 1).2 (w_keys 1).1.
Definition w_bob : RatchetState := init_state [] (lit "dm:a:b") (w_keys 2).2 (w_keys 2).1.

Lemma forged_counter_panics_witness :
  decrypt_ratchet w_bob
    (mk_header 3 (replicate (HYBRID_PK_LEN * 2) 0x30%Z) (replicate (HYBRID_CT_LEN * 2) 0x30%Z) 0 i64_max [])
    [] (w_rng 1) = Err Panic.
Proof.
  apply forged_counter_panics.
  - reflexivity.
  - reflexivity.
  - apply length_replicate.
  - apply length_replicate.
  - apply Z.leb_le. vm_compute. reflexivity.
  - reflexivity.
Defined.

(** Alice sends two messages; Bob opens the first and replies; the second,
    next in Bob's receiving chain, is refused. *)
Definition w_two : may_fail (RatchetState * list (HeaderOutput * str)) :=
  encrypt_all w_alice [w_out 10 "hi"; w_out 20 "there"].
Definition w_msgs : list (HeaderOutput * str) := (unwrap_or (w_alice, []) w_two).2.
Definition w_first : HeaderOutput * str := nth 0 w_msgs no_message.
Definition w_second : HeaderOutput * str := nth 1 w_msgs no_message.
Definition w_bob1 : RatchetState :=
  (unwrap_or (w_bob, []) (decrypt_ratchet w_bob w_first.1 w_first.2 (w_rng 30))).1.
Definition w_reply : RatchetState * HeaderOutput * str :=
  unwrap_or (w_bob, w_header, []) (encrypt_out w_bob1 (w_out 40 "ok")).

Lemma crossing_message_refused_witness :
  is_ok (decrypt_ratchet w_reply.1.1 w_second.1 w_second.2 (w_rng 50)) = false.
Proof.
  apply (crossing_message_refused w_bob1 (w_out 40 "ok") w_reply.1.1 w_reply.1.2 w_reply.2).
  - vm_compute. reflexivity.
  - vm_compute. reflexivity.
  - vm_compute. reflexivity.
  - vm_compute. reflexivity.
Defined.

(** The first of the two was opened, and the refused one is the next of the
    receiving chain Bob still holds. *)
Example w_second_is_next :
  is_ok w_two = true ∧ h_seq w_second.1 = receiving_chain_counter w_bob1 ∧ chain_counter w_bob1 = 1%Z.
Proof. vm_compute. done. Qed.

Definition w_big : outgoing := mk_out (w_rng 10) (w_rng 11) (replicate 32 1%Z) (replicate (Z.to_nat 41000) 7%Z).
Definition w_big_sent : RatchetState * HeaderOutput * str :=
  unwrap_or (w_alice, w_header, []) (encrypt_out w_alice w_big).

Lemma w_big_ok : is_ok (encrypt_out w_alice w_big) = true.
Proof. vm_compute. reflexivity. Qed.

Lemma w_big_sent_ok :
  encrypt_out w_alice w_big = Ok (w_big_sent.1.1, w_big_sent.1.2, w_big_sent.2).
Proof. exact (unwrap_or_triple (w_alice, w_header, []) (encrypt_out w_alice w_big) w_big_ok). Qed.

Lemma oversized_payload_rejected_witness :
  is_ok (decrypt_ratchet w_bob w_big_sent.1.2 w_big_sent.2 (w_rng 30)) = false.
Proof.
  apply (oversized_payload_rejected w_alice w_big_sent.1.1 w_bob w_big w_big_sent.1.2 w_big_sent.2
    (o_plain w_big)).
  - reflexivity.
  - apply Z.leb_le. vm_compute. reflexivity.
  - apply Z.ltb_lt. vm_compute. reflexivity.
  - reflexivity.
  - exact w_big_sent_ok.
Defined.
