(* ===== verification/PqcLink.v ===== *)
(** Link encryption shared by the mesh transports
    (src/mesh-core/src/pqc_link.rs): per-peer double-ratchet sessions kept in
    memory, the handshake that creates them, and the frames. The per-peer lock
    stripes make each operation atomic; operations are state transformers
    here. The clock reading of a call is an argument. *)

From S2P Require Import Prelude RustStr Primitives Hybrid Nip44 Ratchet.

(** Source: src/mesh-core/src/pqc_link.rs:34-34 (FRAME_TAG_HANDSHAKE) *)
Definition FRAME_TAG_HANDSHAKE : Z := 0.
(** Source: src/mesh-core/src/pqc_link.rs:36-36 (FRAME_TAG_RATCHET) *)
Definition FRAME_TAG_RATCHET : Z := 1.
(** Source: src/mesh-core/src/pqc_link.rs:39-39 (MAX_LINK_HEADER_JSON) *)
Definition MAX_LINK_HEADER_JSON : Z := 8 * 1024.
(** Source: src/mesh-core/src/pqc_link.rs:41-41 (MAX_LINK_FRAME) *)
Definition MAX_LINK_FRAME : Z := 96 * 1024.
(** Source: src/mesh-core/src/pqc_link.rs:45-45 (MAX_LINK_PAYLOAD) *)
Definition MAX_LINK_PAYLOAD : Z := 48 * 1024.
(** Source: src/mesh-core/src/pqc_link.rs:48-48 (MAX_SESSIONS) *)
Definition MAX_SESSIONS : Z := 256.
(** Source: src/mesh-core/src/pqc_link.rs:50-50 (MAX_KEYGEN_PER_SOURCE) *)
Definition MAX_KEYGEN_PER_SOURCE : Z := 4.
(** Source: src/mesh-core/src/pqc_link.rs:51-51 (KEYGEN_WINDOW_SECS) *)
Definition KEYGEN_WINDOW_SECS : Z := 60.
(** Source: src/mesh-core/src/pqc_link.rs:54-54 (STEP_STRIPES) *)
Definition STEP_STRIPES : Z := 32.

(** serde_json for the ratchet header. *)
Class HeaderJson := {
  header_to_json : HeaderOutput → option str;
  header_of_json : str → option HeaderOutput
}.
Class HeaderJsonLaws `{HeaderJson} : Prop := {
  header_json_roundtrip h j : header_to_json h = Some j → header_of_json j = Some h;
  (** only quotes, backslashes and control characters are escaped *)
  header_json_ascii h j : header_to_json h = Some j → is_ascii (h_pk h) → is_ascii (h_ct h) → is_ascii (h_header_mac h) → is_ascii j
}.

(** A session: ratchet state, creation time, last activity.
    Source: src/mesh-core/src/pqc_link.rs:57-62 (PqcLinkCrypto) *)
Record PqcLinkCrypto := mk_crypto {
  states : gmap (list Z) (RatchetState * Z * Z);
  keygens : gmap (list Z) (Z * Z)
}.

(** Source: src/mesh-core/src/pqc_link.rs:71-77 (PqcLinkCrypto::new) *)
Definition crypto_new : PqcLinkCrypto := mk_crypto ∅ ∅.

(** The lock stripe of a peer.
    Source: src/mesh-core/src/pqc_link.rs:79-86 (PqcLinkCrypto::step_guard) *)
Definition step_index (peer : str) : Z :=
  foldl (λ hash b, (((hash * 31) mod 2 ^ 64 + b) mod 2 ^ 64))%Z 0%Z peer mod STEP_STRIPES.

(** The closure of [retain].
    Source: src/mesh-core/src/pqc_link.rs:90-98 (PqcLinkCrypto::prune_stale_sessions, retain) *)
Definition session_live (now : Z) (s : RatchetState * Z * Z) : bool :=
  let '(st, created_at, last_act) := s in
  if bool_decide (peer_pk st = []) && (60 <? sat_sub now created_at)%Z then false
  else if (86400 <? sat_sub now last_act)%Z then false
  else true.

(** Source: src/mesh-core/src/pqc_link.rs:88-99 (PqcLinkCrypto::prune_stale_sessions) *)
Definition prune_stale_sessions (c : PqcLinkCrypto) (now : Z) : PqcLinkCrypto :=
  mk_crypto (filter (λ '(_, s), session_live now s = true) (states c)) (keygens c).

(** Source: src/mesh-core/src/pqc_link.rs:101-105 (PqcLinkCrypto::at_session_capacity) *)
Definition at_session_capacity (c : PqcLinkCrypto) (now : Z) : PqcLinkCrypto * bool :=
  let c := prune_stale_sessions c now in
  (c, MAX_SESSIONS <=? zsize (states c))%Z.

(** Source: src/mesh-core/src/pqc_link.rs:109-124 (PqcLinkCrypto::keygen_budget) *)
Definition keygen_budget (c : PqcLinkCrypto) (now : Z) (peer : str) : PqcLinkCrypto * bool :=
  let ks :=
    if (4096 <? zsize (keygens c))%Z
    then filter (λ '(_, (_, ts)), (sat_sub now ts < KEYGEN_WINDOW_SECS)%Z) (keygens c)
    else keygens c in
  let entry := default (0, now)%Z (ks !! peer) in
  let entry := if (KEYGEN_WINDOW_SECS <=? sat_sub now entry.2)%Z then (0, now)%Z else entry in
  if (MAX_KEYGEN_PER_SOURCE <=? entry.1)%Z then (mk_crypto (states c) (<[peer := entry]> ks), false)
  else (mk_crypto (states c) (<[peer := (entry.1 + 1, entry.2)%Z]> ks), true).

(** Source: src/mesh-core/src/pqc_link.rs:126-133 (PqcLinkCrypto::get) *)
Definition crypto_get (c : PqcLinkCrypto) (peer : str) : may_fail RatchetState :=
  '(s, _, _) ← ok_or (Fail "no ratchet session for peer") (states c !! peer); Ok s.

(** Source: src/mesh-core/src/pqc_link.rs:135-140 (PqcLinkCrypto::put) *)
Definition crypto_put (c : PqcLinkCrypto) (now : Z) (peer : str) (st : RatchetState) : PqcLinkCrypto :=
  let created_at := match states c !! peer with Some (_, created, _) => created | None => now end in
  mk_crypto (<[peer := (st, created_at, now)]> (states c)) (keygens c).

(** Source: src/mesh-core/src/pqc_link.rs:253-258 (PqcLinkCrypto::has_session) *)
Definition has_session (c : PqcLinkCrypto) (peer : str) : bool := bool_decide (is_Some (states c !! peer)).

(** Source: src/mesh-core/src/pqc_link.rs:262-264 (PqcLinkCrypto::own_pk) *)
Definition own_pk (c : PqcLinkCrypto) (peer : str) : option str := current_pk <$> ok (crypto_get c peer).

(** Source: src/mesh-core/src/pqc_link.rs:337-345 (PqcLinkCrypto::remove) *)
Definition crypto_remove (c : PqcLinkCrypto) (peer : str) : PqcLinkCrypto :=
  mk_crypto (delete peer (states c)) (delete peer (keygens c)).

(** Source: src/mesh-core/src/pqc_link.rs:244-251 (PqcLinkCrypto::handshake_frame) *)
Definition handshake_frame (sid pk_hex : str) : bytes :=
  [FRAME_TAG_HANDSHAKE] ++ to_be 4 (zlen sid mod 2 ^ 32) ++ sid ++ pk_hex.

(** Source: src/mesh-core/src/pqc_link.rs:349-360 (parse_handshake_frame) *)
Definition parse_handshake_frame (frame : bytes) : may_fail (str * str) :=
  if (length frame <? 5) || (MAX_LINK_FRAME <? zlen frame)%Z
     || negb (nth 0 frame 0 =? FRAME_TAG_HANDSHAKE)%Z
  then err "bad handshake frame"
  else
    let sid_len := from_be (take 4 (drop 1 frame)) in
    if (1024 <? sid_len)%Z || (zlen frame <? 5 + sid_len + 1)%Z then err "bad handshake frame"
    else
      sid ← ok_or (Fail "handshake sid not ascii") (from_utf8 (take (Z.to_nat sid_len) (drop 5 frame)));
      pk ← ok_or (Fail "handshake pk not ascii") (from_utf8 (drop (5 + Z.to_nat sid_len) frame));
      Ok (sid, pk).

Section pqc_link.
Context {P : Primitives} {K : Kem} {A : Aead} {J : HeaderJson}.

(** The tail the session-creating operations share: key generation, the
    initial ratchet state, and its registration.
    Source: src/mesh-core/src/pqc_link.rs:236-239 (PqcLinkCrypto::accept_handshake_pk, session creation) *)
Definition create_session (c : PqcLinkCrypto) (now : Z) (peer context peer_pk : str) (r : kem_rng)
    : PqcLinkCrypto * may_fail str :=
  match hybrid_keygen r with
  | Err e => (c, Err (match e with Fail m => Fail ("hybrid keygen failed: " ++ m) | Panic => Panic end))
  | Ok (pk, sk) => (crypto_put c now peer (init_state peer_pk context sk pk), Ok pk)
  end.

(** Source: src/mesh-core/src/pqc_link.rs:203-208 (PqcLinkCrypto::accept_handshake, admission) *)
Definition admission (c : PqcLinkCrypto) (now : Z) (peer : str) : PqcLinkCrypto * may_fail unit :=
  let '(c, full) := at_session_capacity c now in
  if (full : bool) then (c, err "ratchet session limit reached")
  else
    let '(c, allowed) := keygen_budget c now peer in
    if negb allowed then (c, err "handshake keygen rate limited") else (c, Ok ()).

(** Source: src/mesh-core/src/pqc_link.rs:145-167 (PqcLinkCrypto::begin_handshake) *)
Definition begin_handshake (c : PqcLinkCrypto) (now : Z) (peer context : str) (r : kem_rng)
    : PqcLinkCrypto * may_fail str :=
  let start :=
    match states c !! peer with
    | Some (existing, created_at, _) =>
        if bool_decide (peer_pk existing = []) && (60 <? sat_sub now created_at)%Z
        then Some (mk_crypto (delete peer (states c)) (keygens c))
        else None
    | None => Some c
    end in
  match start with
  | None => (c, err "ratchet session already exists for peer")
  | Some c =>
      match admission c now peer with
      | (c, Err e) => (c, Err e)
      | (c, Ok _) => create_session c now peer context [] r
      end
  end.

(** Source: src/mesh-core/src/pqc_link.rs:171-180 (PqcLinkCrypto::complete_handshake) *)
Definition complete_handshake (c : PqcLinkCrypto) (now : Z) (peer peer_pk : str)
    : PqcLinkCrypto * may_fail unit :=
  if bool_decide (trim peer_pk = []) then (c, err "empty peer public key")
  else
    match crypto_get c peer with
    | Err e => (c, Err e)
    | Ok st => (crypto_put c now peer (set_peer_pk st peer_pk), Ok ())
    end.

(** Source: src/mesh-core/src/pqc_link.rs:218-240 (PqcLinkCrypto::accept_handshake_pk) *)
Definition accept_handshake_pk (c : PqcLinkCrypto) (now : Z) (peer context peer_pk : str) (r : kem_rng)
    : PqcLinkCrypto * may_fail str :=
  if bool_decide (trim peer_pk = []) then (c, err "empty peer public key")
  else if has_session c peer then (c, err "ratchet session already exists for peer")
  else
    match admission c now peer with
    | (c, Err e) => (c, Err e)
    | (c, Ok _) => create_session c now peer context peer_pk r
    end.

(** Source: src/mesh-core/src/pqc_link.rs:190-213 (PqcLinkCrypto::accept_handshake) *)
Definition accept_handshake (c : PqcLinkCrypto) (now : Z) (context state_key : str) (frame : bytes) (r : kem_rng)
    : PqcLinkCrypto * may_fail (str * str) :=
  match parse_handshake_frame frame with
  | Err e => (c, Err e)
  | Ok (_, peer_pk) =>
      if bool_decide (trim peer_pk = []) then (c, err "empty peer public key")
      else if has_session c state_key then (c, err "ratchet session already exists for peer")
      else
        match admission c now state_key with
        | (c, Err e) => (c, Err e)
        | (c, Ok _) =>
            match create_session c now state_key context peer_pk r with
            | (c, Err e) => (c, Err e)
            | (c, Ok pk) => (c, Ok (state_key, pk))
            end
        end
  end.

(** Source: src/mesh-core/src/pqc_link.rs:268-273 (PqcLinkCrypto::ensure_session) *)
Definition ensure_session (c : PqcLinkCrypto) (now : Z) (peer context peer_pk : str) (r : kem_rng)
    : PqcLinkCrypto * may_fail unit :=
  if negb (has_session c peer) then
    match begin_handshake c now peer context r with
    | (c, Err e) => (c, Err e)
    | (c, Ok _) => complete_handshake c now peer peer_pk
    end
  else complete_handshake c now peer peer_pk.

(** Source: src/mesh-core/src/pqc_link.rs:297-303 (PqcLinkCrypto::encrypt, framing) *)
Definition link_frame (header_json ct : str) : bytes :=
  [FRAME_TAG_RATCHET] ++ to_be 2 (zlen header_json mod 2 ^ 16) ++ header_json ++ ct.

(** Source: src/mesh-core/src/pqc_link.rs:277-304 (PqcLinkCrypto::encrypt) *)
Definition link_encrypt (c : PqcLinkCrypto) (now : Z) (peer : str) (payload : bytes)
    (r_enc r_gen : kem_rng) (nonce : option bytes) : PqcLinkCrypto * may_fail bytes :=
  if (MAX_LINK_PAYLOAD <? zlen payload)%Z then (c, err "payload too large for ratchet link frame")
  else
    match crypto_get c peer with
    | Err e => (c, Err e)
    | Ok st =>
        if bool_decide (peer_pk st = []) then (c, err "ratchet handshake incomplete: no peer public key")
        else
          match encrypt_ratchet st r_enc r_gen nonce payload with
          | Err e => (c, Err e)
          | Ok (new_state, header, ct) =>
              let c := crypto_put c now peer new_state in
              match header_to_json header with
              | None => (c, err "header serialization failed")
              | Some header_json =>
                  if (MAX_LINK_HEADER_JSON <? zlen header_json)%Z then (c, err "ratchet header too large")
                  else (c, Ok (link_frame header_json ct))
              end
          end
    end.

(** The header and ciphertext of a ratchet frame.
    Source: src/mesh-core/src/pqc_link.rs:308-324 (PqcLinkCrypto::decrypt, parsing) *)
Definition parse_link_frame (frame : bytes) : may_fail (HeaderOutput * str) :=
  _ ← ensure ((3 <=? length frame) && (nth 0 frame 0 =? FRAME_TAG_RATCHET)%Z) "bad ratchet frame";
  _ ← ensure (zlen frame <=? MAX_LINK_FRAME)%Z "ratchet frame too large";
  let hlen := from_be (take 2 (drop 1 frame)) in
  _ ← ensure ((hlen <=? MAX_LINK_HEADER_JSON)%Z && (3 + hlen + 1 <=? zlen frame)%Z) "bad ratchet header length";
  header_json ← ok_or (Fail "header not utf8") (from_utf8 (take (Z.to_nat hlen) (drop 3 frame)));
  header ← ok_or (Fail "bad ratchet header json") (header_of_json header_json);
  ct ← ok_or (Fail "ciphertext not utf8") (from_utf8 (drop (3 + Z.to_nat hlen) frame));
  Ok (header, ct).

(** Source: src/mesh-core/src/pqc_link.rs:307-334 (PqcLinkCrypto::decrypt) *)
Definition link_decrypt (c : PqcLinkCrypto) (now : Z) (peer : str) (frame : bytes) (r_gen : kem_rng)
    : PqcLinkCrypto * may_fail bytes :=
  match parse_link_frame frame with
  | Err e => (c, Err e)
  | Ok (header, ct) =>
      match crypto_get c peer with
      | Err e => (c, Err e)
      | Ok st =>
          match decrypt_ratchet st header ct r_gen with
          | Err e => (c, Err e)
          | Ok (new_state, plaintext) => (crypto_put c now peer new_state, Ok plaintext)
          end
      end
  end.

(** ** Sessions and key generation stay bounded *)

Record wf_crypto (c : PqcLinkCrypto) : Prop := {
  wfl_sessions : (zsize (states c) ≤ MAX_SESSIONS)%Z;
  wfl_budget : ∀ peer n t, keygens c !! peer = Some (n, t) → (0 ≤ n ≤ MAX_KEYGEN_PER_SOURCE)%Z
}.

Lemma crypto_new_wf : wf_crypto crypto_new.
Proof. split; simpl; [by rewrite map_size_empty|by intros ??? ?%lookup_empty_Some]. Qed.

Lemma delete_session_wf c peer : wf_crypto c → wf_crypto (mk_crypto (delete peer (states c)) (keygens c)).
Proof.
  intros [Hs Hb]. split; [|done]. cbn [states]. rewrite map_size_delete. unfold id. case_match; lia.
Qed.

Lemma crypto_remove_wf c peer : wf_crypto c → wf_crypto (crypto_remove c peer).
Proof.
  intros [Hs Hb]%(delete_session_wf c peer). split; [done|]. simpl.
  intros p n t [_ Hp]%lookup_delete_Some. eauto.
Qed.

Lemma put_existing_wf c now peer st :
  is_Some (states c !! peer) → wf_crypto c → wf_crypto (crypto_put c now peer st).
Proof. intros Hp [Hs Hb]. split; [|done]. simpl. by rewrite size_insert_present. Qed.

Lemma put_new_wf c now peer st :
  (zsize (states c) < MAX_SESSIONS)%Z → wf_crypto c → wf_crypto (crypto_put c now peer st).
Proof.
  intros Hlt [Hs Hb]. split; [|done]. cbn [states crypto_put].
  set (v := (st, _, now)). pose proof (size_insert_le (states c) peer v). lia.
Qed.

Lemma prune_wf c now : wf_crypto c → wf_crypto (prune_stale_sessions c now).
Proof.
  intros [Hs Hb]. split; [|done]. simpl.
  pose proof (size_filter_le (λ '(_, s), session_live now s = true) (states c)). lia.
Qed.

Lemma keygen_budget_wf c now peer :
  wf_crypto c → wf_crypto (keygen_budget c now peer).1 ∧ states (keygen_budget c now peer).1 = states c.
Proof.
  intros [Hs Hb]. unfold keygen_budget.
  set (ks := if (4096 <? _)%Z then _ else _).
  assert (Hks : ∀ p n t, ks !! p = Some (n, t) → (0 ≤ n ≤ MAX_KEYGEN_PER_SOURCE)%Z).
  { intros p n t. subst ks. case_match; [intros [? _]%map_lookup_filter_Some|]; eauto. }
  set (entry := if (_ <=? sat_sub now (default _ _).2)%Z then _ else _).
  assert (He : (0 ≤ entry.1 ≤ MAX_KEYGEN_PER_SOURCE)%Z).
  { subst entry. destruct (ks !! peer) as [[n t]|] eqn:E; simpl; case_match; simpl;
      try (unfold MAX_KEYGEN_PER_SOURCE; lia). by apply (Hks peer n t). }
  destruct (Z.leb_spec MAX_KEYGEN_PER_SOURCE entry.1); (split; [split; [done|]|done]);
    cbn [fst keygens]; intros p n t [[_ Hp]|[_ ?]]%lookup_insert_Some; try (by eapply Hks).
  - by rewrite Hp in He.
  - injection Hp as <- <-. lia.
Qed.

Lemma admit_wf c now peer :
  wf_crypto c → wf_crypto (admission c now peer).1 ∧
  (is_ok (admission c now peer).2 = true → (zsize (states (admission c now peer).1) < MAX_SESSIONS)%Z).
Proof.
  intros Hc%(prune_wf c now). unfold admission, at_session_capacity.
  set (c' := prune_stale_sessions c now) in *.
  destruct (Z.leb_spec MAX_SESSIONS (zsize (states c'))); [done|].
  destruct (keygen_budget_wf c' now peer Hc) as [Hw Hs].
  destruct (keygen_budget c' now peer) as [c'' b]. simpl in *. destruct b; simpl; rewrite Hs; done.
Qed.

Lemma create_session_wf c now peer context pk r :
  (zsize (states c) < MAX_SESSIONS)%Z → wf_crypto c → wf_crypto (create_session c now peer context pk r).1.
Proof. intros. unfold create_session. destruct (hybrid_keygen r) as [[??]|]; [|done]. by apply put_new_wf. Qed.

(** Admission followed by the creation of a session. *)
Lemma admit_create_wf {X} c now peer context pk r (f : PqcLinkCrypto * may_fail str → PqcLinkCrypto * may_fail X) :
  (∀ x, (f x).1 = x.1) → wf_crypto c →
  wf_crypto (match admission c now peer with
             | (c, Err e) => (c, Err e)
             | (c, Ok _) => f (create_session c now peer context pk r)
             end).1.
Proof.
  intros Hf Hc. destruct (admit_wf c now peer Hc) as [Hw Hs].
  destruct (admission c now peer) as [c' [u|e]]; simpl in *; [|done].
  rewrite Hf. apply create_session_wf; [by apply Hs|done].
Qed.

Lemma begin_handshake_wf c now peer context r :
  wf_crypto c → wf_crypto (begin_handshake c now peer context r).1.
Proof.
  intros Hc. unfold begin_handshake. destruct (states c !! peer) as [[[st created] act]|].
  - destruct (_ && _); [|done]. by apply (admit_create_wf _ _ _ _ _ _ id), delete_session_wf.
  - by apply (admit_create_wf _ _ _ _ _ _ id).
Qed.

Lemma crypto_get_present c peer st : crypto_get c peer = Ok st → is_Some (states c !! peer).
Proof. unfold crypto_get. destruct (states c !! peer); [eauto|done]. Qed.

Lemma complete_handshake_wf c now peer pk :
  wf_crypto c → wf_crypto (complete_handshake c now peer pk).1.
Proof.
  intros Hc. unfold complete_handshake. case_bool_decide; [done|].
  destruct (crypto_get c peer) eqn:E; [|done]. apply put_existing_wf; [by eapply crypto_get_present|done].
Qed.

Lemma accept_handshake_pk_wf c now peer context pk r :
  wf_crypto c → wf_crypto (accept_handshake_pk c now peer context pk r).1.
Proof.
  intros Hc. unfold accept_handshake_pk. repeat (case_match; [done|]).
  by apply (admit_create_wf _ _ _ _ _ _ id).
Qed.

Lemma accept_handshake_wf c now context key frame r :
  wf_crypto c → wf_crypto (accept_handshake c now context key frame r).1.
Proof.
  intros Hc. unfold accept_handshake. destruct (parse_handshake_frame frame) as [[sid pk]|]; [|done].
  repeat (case_match; [done|]).
  by apply (admit_create_wf _ _ _ _ _ _ (λ x, match x with (c, Err e) => (c, Err e) | (c, Ok pk) => (c, Ok (key, pk)) end));
    [intros [? []]|].
Qed.

Lemma ensure_session_wf c now peer context pk r :
  wf_crypto c → wf_crypto (ensure_session c now peer context pk r).1.
Proof.
  intros Hc. unfold ensure_session. case_match; [|by apply complete_handshake_wf].
  pose proof (begin_handshake_wf c now peer context r Hc) as Hb.
  destruct (begin_handshake _ _ _ _ _) as [c' [|]]; [by apply complete_handshake_wf|done].
Qed.

Lemma link_encrypt_wf c now peer p r1 r2 n :
  wf_crypto c → wf_crypto (link_encrypt c now peer p r1 r2 n).1.
Proof.
  intros Hc. unfold link_encrypt. case_match; [done|].
  destruct (crypto_get c peer) eqn:E; [|done]. case_bool_decide; [done|].
  assert (∀ st, wf_crypto (crypto_put c now peer st)).
  { intros. apply put_existing_wf; [by eapply crypto_get_present|done]. }
  repeat case_match; simpl; done.
Qed.

Lemma link_decrypt_wf c now peer f r :
  wf_crypto c → wf_crypto (link_decrypt c now peer f r).1.
Proof.
  intros Hc. unfold link_decrypt. destruct (parse_link_frame f) as [[h ct]|]; [|done].
  destruct (crypto_get c peer) eqn:E; [|done]. destruct (decrypt_ratchet _ _ _ _) as [[st p]|]; [|done].
  apply put_existing_wf; [by eapply crypto_get_present|done].
Qed.

Inductive crypto_step : PqcLinkCrypto → PqcLinkCrypto → Prop :=
| cs_begin c now peer ctx r : crypto_step c (begin_handshake c now peer ctx r).1
| cs_complete c now peer pk : crypto_step c (complete_handshake c now peer pk).1
| cs_accept_pk c now peer ctx pk r : crypto_step c (accept_handshake_pk c now peer ctx pk r).1
| cs_accept c now ctx key frame r : crypto_step c (accept_handshake c now ctx key frame r).1
| cs_ensure c now peer ctx pk r : crypto_step c (ensure_session c now peer ctx pk r).1
| cs_encrypt c now peer p r1 r2 n : crypto_step c (link_encrypt c now peer p r1 r2 n).1
| cs_decrypt c now peer f r : crypto_step c (link_decrypt c now peer f r).1
| cs_remove c peer : crypto_step c (crypto_remove c peer).

Lemma crypto_step_wf c c' : wf_crypto c → crypto_step c c' → wf_crypto c'.
Proof.
  intros Hc Hs. destruct Hs.
  - by apply begin_handshake_wf.
  - by apply complete_handshake_wf.
  - by apply accept_handshake_pk_wf.
  - by apply accept_handshake_wf.
  - by apply ensure_session_wf.
  - by apply link_encrypt_wf.
  - by apply link_decrypt_wf.
  - by apply crypto_remove_wf.
Qed.

(** Whatever peers send and in whatever order the operations run, a node
    holds at most [MAX_SESSIONS] ratchet sessions, and no peer's key-generation
    counter ever exceeds its budget. *)
Theorem link_sessions_bounded (c : PqcLinkCrypto) :
  reachable (λ c, c = crypto_new) crypto_step c →
  (zsize (states c) ≤ MAX_SESSIONS)%Z ∧
  ∀ peer n t, keygens c !! peer = Some (n, t) → (0 ≤ n ≤ MAX_KEYGEN_PER_SOURCE)%Z.
Proof.
  intros Hr. cut (wf_crypto c); [by intros []|]. revert c Hr.
  apply (reachable_invariant _ _ wf_crypto).
  - intros s ->. apply crypto_new_wf.
  - apply crypto_step_wf.
Qed.
End pqc_link.
