(* ===== verification/LinkSession.v ===== *)
(** Frames of the link encryption, and the delivery of data over a link whose
    two ends completed the handshake. *)

From S2P Require Import Prelude RustStr Primitives Hybrid Nip44 Ratchet RatchetChain RatchetSession RatchetTurns PqcLink.

(** A handshake frame parses back to its session id and public key. *)
Theorem handshake_frame_roundtrip (sid pk : str) :
  utf8_valid sid = true → utf8_valid pk = true → (zlen sid ≤ 1024)%Z → pk ≠ [] →
  (zlen sid + zlen pk + 5 ≤ MAX_LINK_FRAME)%Z →
  parse_handshake_frame (handshake_frame sid pk) = Ok (sid, pk).
Proof.
  intros Hsv Hpv Hs Hp Hlen. assert (0 < zlen pk)%Z by (destruct pk; [done|simpl; lia]).
  unfold parse_handshake_frame, handshake_frame.
  set (f := [FRAME_TAG_HANDSHAKE] ++ to_be 4 (zlen sid mod 2 ^ 32) ++ sid ++ pk).
  assert (Hf : zlen f = (5 + zlen sid + zlen pk)%Z) by (subst f; rewrite !length_app, to_be_length; simpl; lia).
  assert (Hd : drop 1 f = to_be 4 (zlen sid mod 2 ^ 32) ++ sid ++ pk) by done.
  assert (Hd5 : drop 5 f = sid ++ pk).
  { change 5 with (1 + 4). rewrite <-drop_drop, Hd. apply drop_app_length'. by rewrite to_be_length. }
  assert (Ht : take 4 (drop 1 f) = to_be 4 (zlen sid mod 2 ^ 32)).
  { rewrite Hd. apply take_app_length'. by rewrite to_be_length. }
  rewrite (proj2 (Nat.ltb_ge _ _)), (proj2 (Z.ltb_ge _ (zlen f))) by lia.
  change (nth 0 f 0%Z) with FRAME_TAG_HANDSHAKE. rewrite Z.eqb_refl. cbn [orb negb].
  rewrite Ht, Z.mod_small, from_to_be by lia.
  rewrite (proj2 (Z.ltb_ge _ (zlen sid))), (proj2 (Z.ltb_ge _ _)) by lia. cbn [orb].
  rewrite Nat2Z.id, <-drop_drop, Hd5, take_app_length, drop_app_length.
  unfold from_utf8. by rewrite Hsv, Hpv.
Qed.

Lemma handshake_frame_roundtrip_witness :
  parse_handshake_frame (handshake_frame (lit "abcd") (lit "01ff")) = Ok (lit "abcd", lit "01ff").
Proof.
  apply handshake_frame_roundtrip; [reflexivity|reflexivity|by_leb|discriminate|by_leb].
Defined.

Section link_session.
Context {P : Primitives} {PL : PrimitiveLaws} {K : Kem} {KL : KemLaws} {A : Aead} {AL : AeadLaws}
  {J : HeaderJson} {JL : HeaderJsonLaws}.

(** The fields of a header that are text: hex digits in every header the ratchet makes. *)
Definition ascii_header (h : HeaderOutput) : Prop := is_ascii (h_pk h) ∧ is_ascii (h_ct h) ∧ is_ascii (h_header_mac h).

Lemma first_header_ascii a b o a' h c : ready a b → encrypt_out a o = Ok (a', h, c) → ascii_header h.
Proof.
  intros [_ _ _ _ Hpair Hnew] (e & mk & next & comp & _ & _ & He & _ & _ & _ & _ & -> & _)%encrypt_inv.
  unfold send_epoch_of in He. rewrite Hnew in He.
  destruct (hybrid_encapsulate _ _ _) as [[ct ssh]|] eqn:Henc; [|done]. cbn [map_err mbind result_bind] in He.
  destruct (hex_decode ssh) as [ss|]; [|done]. cbn [map_err mbind result_bind] in He.
  destruct (root_step a ss) as [[rh ch]|]; [|done]. cbn [mbind result_bind] in He.
  destruct (hybrid_keygen (o_gen o)) as [[pk sk]|] eqn:Hgen; [|done]. cbn [map_err mbind result_bind] in He.
  unfold checked_i64 in He. destruct (_ && _); [|done]. injection He as <-.
  destruct (pair_pk _ _ (keygen_pair _ _ _ Hgen)) as (pkb & -> & Hpkb & _).
  split_and!; apply visible_ascii; cbn; [by apply hex_visible|by eapply kem_ct_visible|apply hex_visible, hmac_bytes].
Qed.

Lemma parse_link_frame_roundtrip h j ct :
  header_to_json h = Some j → ascii_header h → (zlen j ≤ MAX_LINK_HEADER_JSON)%Z →
  is_ascii ct → ct ≠ [] → (zlen (link_frame j ct) ≤ MAX_LINK_FRAME)%Z →
  parse_link_frame (link_frame j ct) = Ok (h, ct).
Proof.
  intros Hj (Hpk & Hkem & Hmac) Hl Hct Hne Hf. unfold MAX_LINK_HEADER_JSON in *.
  assert (0 < zlen ct)%Z by (destruct ct; [done|simpl; lia]).
  unfold parse_link_frame, MAX_LINK_HEADER_JSON. unfold link_frame in *.
  set (f := [FRAME_TAG_RATCHET] ++ to_be 2 (zlen j mod 2 ^ 16) ++ j ++ ct) in *.
  assert (Hfl : zlen f = (3 + zlen j + zlen ct)%Z) by (subst f; rewrite !length_app, to_be_length; simpl; lia).
  assert (Hd : drop 1 f = to_be 2 (zlen j mod 2 ^ 16) ++ j ++ ct) by done.
  assert (Hd3 : drop 3 f = j ++ ct).
  { change 3 with (1 + 2). rewrite <-drop_drop, Hd. apply drop_app_length'. by rewrite to_be_length. }
  assert (Ht : take 2 (drop 1 f) = to_be 2 (zlen j mod 2 ^ 16)).
  { rewrite Hd. apply take_app_length'. by rewrite to_be_length. }
  rewrite (proj2 (Nat.leb_le 3 _)) by lia. change (nth 0 f 0%Z) with FRAME_TAG_RATCHET.
  rewrite Z.eqb_refl, (proj2 (Z.leb_le _ MAX_LINK_FRAME)) by done. cbn [andb ensure mbind result_bind].
  rewrite Ht, Z.mod_small, from_to_be by (change (256 ^ Z.of_nat 2)%Z with 65536%Z || idtac; lia).
  rewrite (proj2 (Z.leb_le _ _)), (proj2 (Z.leb_le _ (zlen f))) by lia. cbn [andb ensure mbind result_bind].
  rewrite Nat2Z.id, <-drop_drop, Hd3, take_app_length, drop_app_length.
  rewrite (from_utf8_ascii j) by (by eapply header_json_ascii). cbn [ok_or mbind result_bind].
  rewrite (header_json_roundtrip h j Hj). cbn [ok_or mbind result_bind].
  by rewrite from_utf8_ascii.
Qed.

(** The session a handshake step registers. *)
Lemma admit_states c now peer c' u k :
  admission c now peer = (c', Ok u) → states c !! k = None → states c' !! k = None.
Proof.
  unfold admission, at_session_capacity, keygen_budget. intros E Hk.
  repeat case_match; simplify_eq; cbn in *; try done; simplify_eq;
    apply map_lookup_filter_None; by left.
Qed.

Lemma create_session_ok c now peer ctx pk r c' own :
  create_session c now peer ctx pk r = (c', Ok own) →
  ∃ sk, hybrid_keygen r = Ok (own, sk) ∧ crypto_get c' peer = Ok (init_state pk ctx sk own).
Proof.
  unfold create_session. destruct (hybrid_keygen r) as [[pk' sk]|]; [|done]. intros [= <- <-].
  exists sk. split; [done|]. unfold crypto_get, crypto_put. cbn [states]. by rewrite lookup_insert_eq.
Qed.

Lemma begin_handshake_ok c now peer ctx r c' own :
  begin_handshake c now peer ctx r = (c', Ok own) →
  ∃ sk, hybrid_keygen r = Ok (own, sk) ∧ crypto_get c' peer = Ok (init_state [] ctx sk own).
Proof.
  unfold begin_handshake. destruct (match states c !! peer with Some _ => _ | None => _ end) as [c0|]; [|done].
  destruct (admission c0 now peer) as [c1 [u|e]]; [|done]. apply create_session_ok.
Qed.

Lemma accept_handshake_pk_ok c now peer ctx pk r c' own :
  accept_handshake_pk c now peer ctx pk r = (c', Ok own) →
  ∃ sk, hybrid_keygen r = Ok (own, sk) ∧ crypto_get c' peer = Ok (init_state pk ctx sk own).
Proof.
  unfold accept_handshake_pk. repeat (case_match; [done|]).
  destruct (admission c now peer) as [c1 [u|e]]; [|done]. apply create_session_ok.
Qed.

Lemma complete_handshake_ok c now peer pk c' u st :
  crypto_get c peer = Ok st → complete_handshake c now peer pk = (c', Ok u) →
  crypto_get c' peer = Ok (set_peer_pk st pk).
Proof.
  intros Hg. unfold complete_handshake. case_bool_decide; [done|]. rewrite Hg. intros [= <- _].
  unfold crypto_get, crypto_put. cbn [states]. by rewrite lookup_insert_eq.
Qed.

Lemma link_encrypt_ok c now peer p r1 r2 n c' frame st :
  crypto_get c peer = Ok st → link_encrypt c now peer p r1 r2 n = (c', Ok frame) →
  ∃ st' h ct j, encrypt_ratchet st r1 r2 n p = Ok (st', h, ct) ∧ header_to_json h = Some j ∧
    (zlen j ≤ MAX_LINK_HEADER_JSON)%Z ∧ frame = link_frame j ct.
Proof.
  intros Hg. unfold link_encrypt. destruct (_ <? _)%Z; [done|]. rewrite Hg. case_bool_decide; [done|].
  destruct (encrypt_ratchet _ _ _ _ _) as [[[st' h] ct]|]; [|done].
  destruct (header_to_json h) as [j|] eqn:Hj; [|done].
  destruct (Z.ltb_spec MAX_LINK_HEADER_JSON (zlen j)); [done|]. intros [= _ <-]. eauto 10.
Qed.

(** C2: data crosses a link: when both ends ran the handshake under the same
    context, whatever other sessions they hold, the first frame the initiator
    seals opens at the responder to the payload, as long as the frame stays
    within 64 KiB. *)
Theorem pqc_link_delivers (c1 c1' c1'' c1f c2 c2' : PqcLinkCrypto) (t : Z) (p q ctx : str)
    (pk1 pk2 : str) (u : unit) (payload nonce frame : bytes) (r1 r2 r3 re rg : kem_rng) :
  begin_handshake c1 t p ctx r1 = (c1', Ok pk1) →
  accept_handshake_pk c2 t q ctx pk1 r2 = (c2', Ok pk2) →
  complete_handshake c1' t p pk2 = (c1'', Ok u) →
  length nonce = 32 → all_bytes nonce → all_bytes payload → is_ok (hybrid_keygen r3) = true →
  link_encrypt c1'' t p payload re rg (Some nonce) = (c1f, Ok frame) →
  (zlen frame ≤ MAX_RATCHET_CIPHERTEXT)%Z →
  (link_decrypt c2' t q frame r3).2 = Ok payload.
Proof.
  intros (sk1 & Hk1 & Hg1)%begin_handshake_ok (sk2 & Hk2 & Hg2)%accept_handshake_pk_ok Hc Hn Hnb Hpb Hr3 He Hlen.
  pose proof (complete_handshake_ok _ _ _ _ _ _ _ Hg1 Hc) as Hg1'.
  destruct (link_encrypt_ok _ _ _ _ _ _ _ _ _ _ Hg1' He) as (st' & h & ct & j & Henc & Hj & Hjl & ->).
  set (a := set_peer_pk (init_state [] ctx sk1 pk1) pk2) in *.
  set (b := init_state pk1 ctx sk2 pk2) in *.
  assert (Hready : ready a b).
  { split; simpl; auto; [lia|by eapply keygen_pair]. }
  set (o := mk_out re rg nonce payload).
  destruct (encrypt_new_epoch a b o st' h ct) as (E & HE & _ & Hf & _ & Hm & _ & _); [done|simpl; unfold i64_max; lia|done|done|].
  assert (Hct : Forall visible ct ∧ ct ≠ []).
  { destruct (encrypt_inv a o st' h ct Henc) as (e & mk & next & comp & _ & _ & _ & _ & Hcomp & _ & Hs & _).
    eapply aead_visible; [exact Hn|exact Hnb| |exact Hs].
    unfold compress_bytes, compress in Hcomp. inv_ok.
    apply List.Forall_cons; [unfold is_byte, RAW_PLAINTEXT_TAG; lia|]. by eapply deflate_bytes. }
  destruct Hct as [Hv Hne].
  assert (Hfl : zlen (link_frame j ct) = (3 + zlen j + zlen ct)%Z).
  { unfold link_frame. rewrite !length_app, to_be_length. simpl. lia. }
  unfold link_decrypt. rewrite (parse_link_frame_roundtrip h j ct); [|done|by eapply (first_header_ascii a b o)|done|by apply visible_ascii|done|].
  2: { unfold MAX_RATCHET_CIPHERTEXT, MAX_LINK_FRAME in *. lia. }
  rewrite Hg2. destruct (decrypt_first E b 0 h ct payload r3) as (b' & -> & _);
    [done|done|done|unfold MAX_RATCHET_WINDOW; lia|lia|done|]. done.
Qed.
End link_session.

(** ** A concrete link *)

(** A printer for headers that refuses what it could not read back. *)
Module ToyJson.
Definition encode (h : HeaderOutput) : str :=
  Toy.to_hex (to_be 4 (zlen (h_pk h)) ++ to_be 4 (zlen (h_ct h)) ++ to_be 8 (h_seq h) ++
    to_be 8 (h_chain_counter h) ++ [h_version h]) ++ h_pk h ++ h_ct h ++ h_header_mac h.

Definition decode (j : str) : option HeaderOutput :=
  b ← Toy.of_hex (take 50 j);
  let n := Z.to_nat (from_be (take 4 b)) in
  let m := Z.to_nat (from_be (take 4 (drop 4 b))) in
  let rest := drop 50 j in
  Some (mk_header (nth 24 b 0%Z) (take n rest) (take m (drop n rest)) (from_be (take 8 (drop 8 b)))
    (from_be (take 8 (drop 16 b))) (drop (n + m) rest)).

Definition is_asciib (l : str) : bool := forallb (λ b, (0 <=? b) && (b <? 0x80))%Z l.

#[export] Instance header_json : HeaderJson := {|
  header_to_json h :=
    let j := encode h in
    if bool_decide (decode j = Some h) && is_asciib j then Some j else None;
  header_of_json := decode
|}.

#[export] Instance header_json_laws : HeaderJsonLaws.
Proof.
  assert (Hj : ∀ h j, header_to_json h = Some j → decode j = Some h ∧ is_asciib j = true).
  { intros h j. unfold header_to_json, header_json. cbv zeta.
    destruct (bool_decide_reflect (decode (encode h) = Some h)) as [Hd|]; [|done].
    destruct (is_asciib (encode h)) eqn:E; [|done]. intros Hs. injection Hs as <-. done. }
  split; intros h j Hh; apply Hj in Hh as [Hd E]; [done|]. intros _ _ _.
  apply Forall_forall. intros b Hb%list_elem_of_In.
  unfold is_asciib in E. rewrite forallb_forall in E. specialize (E b Hb).
  apply andb_true_iff in E as [?%Z.leb_le ?%Z.ltb_lt]. done.
Qed.
End ToyJson.

#[local] Existing Instances Toy.primitives Toy.primitive_laws ToyJson.header_json ToyJson.header_json_laws.

Definition w_begin : PqcLinkCrypto * may_fail str :=
  begin_handshake crypto_new 100 (lit "reticulum:b") (lit "ctx") (w_rng 1).
Definition w_accept : PqcLinkCrypto * may_fail str :=
  accept_handshake_pk crypto_new 100 (lit "reticulum:a") (lit "ctx") (unwrap_or [] w_begin.2) (w_rng 2).
Definition w_complete : PqcLinkCrypto * may_fail unit :=
  complete_handshake w_begin.1 100 (lit "reticulum:b") (unwrap_or [] w_accept.2).
Definition w_sealed : PqcLinkCrypto * may_fail bytes :=
  link_encrypt w_complete.1 100 (lit "reticulum:b") (lit "payload") (w_rng 3) (w_rng 4) (Some (replicate 32 9%Z)).

Lemma pair_unwrap_or {S A} (d : A) (x : S * may_fail A) : is_ok x.2 = true → x = (x.1, Ok (unwrap_or d x.2)).
Proof. by destruct x as [s [a|e]]. Qed.

Lemma pqc_link_delivers_witness :
  (link_decrypt w_accept.1 100 (lit "reticulum:a") (unwrap_or [] w_sealed.2) (w_rng 5)).2 = Ok (lit "payload").
Proof.
  eapply (pqc_link_delivers crypto_new w_begin.1 w_complete.1 w_sealed.1 crypto_new w_accept.1 100
    (lit "reticulum:b") (lit "reticulum:a") (lit "ctx") (unwrap_or [] w_begin.2) (unwrap_or [] w_accept.2)
    tt (lit "payload") (replicate 32 9%Z) _ (w_rng 1) (w_rng 2) (w_rng 5) (w_rng 3) (w_rng 4)).
  - apply (pair_unwrap_or [] w_begin). vm_compute. reflexivity.
  - apply (pair_unwrap_or [] w_accept). vm_compute. reflexivity.
  - apply (pair_unwrap_or tt w_complete). vm_compute. reflexivity.
  - reflexivity.
  - apply all_bytes_replicate. by split.
  - apply forallb_bytes. vm_compute. reflexivity.
  - vm_compute. reflexivity.
  - apply (pair_unwrap_or [] w_sealed). vm_compute. reflexivity.
  - apply Z.leb_le. vm_compute. reflexivity.
Defined.

Lemma link_sessions_bounded_witness : (zsize (states w_begin.1) ≤ MAX_SESSIONS)%Z.
Proof.
  refine (proj1 (link_sessions_bounded w_begin.1 _)). exists crypto_new. split; [reflexivity|].
  apply rtc_once. exact (cs_begin crypto_new 100 (lit "reticulum:b") (lit "ctx") (w_rng 1)).
Defined.
