(* ===== verification/Slip.v ===== *)
(** SLIP framing of Reticulum packets on the wire
    (src/mesh-core/src/reticulum/slip.rs): the encoder, the decoder with its
    escape state, and what a decode of one or of several frames gives. *)

From S2P Require Import Prelude.

(** Source: src/mesh-core/src/reticulum/slip.rs:3-3 (SLIP_END) *)
Definition SLIP_END : Z := 0xC0.
(** Source: src/mesh-core/src/reticulum/slip.rs:4-4 (SLIP_ESC) *)
Definition SLIP_ESC : Z := 0xDB.
(** Source: src/mesh-core/src/reticulum/slip.rs:5-5 (SLIP_ESC_END) *)
Definition SLIP_ESC_END : Z := 0xDC.
(** Source: src/mesh-core/src/reticulum/slip.rs:6-6 (SLIP_ESC_ESC) *)
Definition SLIP_ESC_ESC : Z := 0xDD.
(** Source: src/mesh-core/src/reticulum/slip.rs:29-29 (MAX_SLIP_FRAME_SIZE) *)
Definition MAX_SLIP_FRAME_SIZE : Z := 65536.

(** One byte of the payload, escaped. *)
Definition slip_escape (b : Z) : bytes :=
  if (b =? SLIP_END)%Z then [SLIP_ESC; SLIP_ESC_END]
  else if (b =? SLIP_ESC)%Z then [SLIP_ESC; SLIP_ESC_ESC]
  else [b].

(** Source: src/mesh-core/src/reticulum/slip.rs:9-27 (slip_encode) *)
Definition slip_encode (data : bytes) : bytes :=
  [SLIP_END] ++ (data ≫= slip_escape) ++ [SLIP_END].

Inductive slip_error := FrameTooLarge | DanglingEscape.
#[export] Instance slip_error_eq_dec : EqDecision slip_error.
Proof. solve_decision. Defined.

(** Decoder state: the bytes pushed so far and the [escaping] flag. *)
Definition slip_step (st : bytes * bool) (b : Z) : bytes * bool :=
  let '(out, escaping) := st in
  if escaping then
    (out ++ [if (b =? SLIP_ESC_END)%Z then SLIP_END
             else if (b =? SLIP_ESC_ESC)%Z then SLIP_ESC
             else b], false)
  else if (b =? SLIP_ESC)%Z then (out, true)
  else if (b =? SLIP_END)%Z then (out, false)
  else (out ++ [b], false).

(** Source: src/mesh-core/src/reticulum/slip.rs:32-62 (slip_decode) *)
Definition slip_decode (data : bytes) : result slip_error bytes :=
  if (MAX_SLIP_FRAME_SIZE <? zlen data)%Z then Err FrameTooLarge
  else
    let '(out, escaping) := foldl slip_step ([], false) data in
    if escaping : bool then Err DanglingEscape else Ok out.

(** ** Lemmas *)

Lemma slip_step_escape out b :
  foldl slip_step (out, false) (slip_escape b) = (out ++ [b], false).
Proof.
  unfold slip_escape, slip_step, SLIP_END, SLIP_ESC, SLIP_ESC_END, SLIP_ESC_ESC.
  destruct (Z.eqb_spec b 0xC0) as [->|H1]; [done|].
  destruct (Z.eqb_spec b 0xDB) as [->|H2]; [done|].
  simpl. destruct (Z.eqb_spec b 0xDB), (Z.eqb_spec b 0xC0); done.
Qed.

Lemma slip_step_escape_all data out :
  foldl slip_step (out, false) (data ≫= slip_escape) = (out ++ data, false).
Proof.
  revert out; induction data as [|b data IH]; intros out; simpl.
  - by rewrite app_nil_r.
  - rewrite foldl_app, slip_step_escape, IH, <-app_assoc. done.
Qed.

Lemma slip_step_frame data out :
  foldl slip_step (out, false) (slip_encode data) = (out ++ data, false).
Proof.
  unfold slip_encode. rewrite !foldl_app. simpl foldl at 3.
  by rewrite slip_step_escape_all.
Qed.

Lemma slip_step_frames frames out :
  foldl slip_step (out, false) (frames ≫= slip_encode) = (out ++ concat frames, false).
Proof.
  revert out; induction frames as [|f frames IH]; intros out.
  - simpl. by rewrite app_nil_r.
  - rewrite bind_cons, foldl_app, slip_step_frame, IH. simpl. by rewrite <-app_assoc.
Qed.

Lemma slip_escape_length b : length (slip_escape b) ≤ 2.
Proof. unfold slip_escape. repeat case_match; simpl; lia. Qed.

Lemma slip_encode_length data : length (slip_encode data) ≤ 2 * length data + 2.
Proof.
  unfold slip_encode. rewrite !length_app. cbn [length].
  assert (length (data ≫= slip_escape) ≤ 2 * length data); [|lia].
  induction data as [|b data IH]; [done|].
  rewrite bind_cons, length_app. cbn [length]. pose proof (slip_escape_length b). lia.
Qed.

Lemma slip_decode_ok data out :
  (zlen data ≤ MAX_SLIP_FRAME_SIZE)%Z →
  foldl slip_step ([], false) data = (out, false) → slip_decode data = Ok out.
Proof.
  intros Hlen Hfold. unfold slip_decode.
  destruct (Z.ltb_spec MAX_SLIP_FRAME_SIZE (zlen data)); [lia|]. by rewrite Hfold.
Qed.

(** ** Properties *)

(** A sequence of SLIP frames decodes to the concatenation of its
    payloads whenever it fits the frame cap; in particular a single encoded
    payload decodes to itself, whatever its bytes. (The same statement shows
    that the decoder drops every END byte, not only the ones met while its
    buffer is empty, so frame boundaries inside one datagram are lost.) *)
Theorem slip_roundtrip (frames : list bytes) :
  (zlen (frames ≫= slip_encode) ≤ MAX_SLIP_FRAME_SIZE)%Z →
  slip_decode (frames ≫= slip_encode) = Ok (concat frames).
Proof. intros. apply slip_decode_ok; [done|]. by rewrite slip_step_frames. Qed.

Lemma slip_roundtrip_witness :
  slip_decode ([[1; 0xC0; 3]; [0xDB]]%Z ≫= slip_encode) = Ok [1; 0xC0; 3; 0xDB]%Z.
Proof. apply (slip_roundtrip [[1; 0xC0; 3]; [0xDB]]%Z). by_leb. Defined.

(** A payload of at most 32767 bytes always survives the wire. *)
Lemma slip_decode_encode data :
  (zlen data ≤ 32767)%Z → slip_decode (slip_encode data) = Ok data.
Proof.
  intros H. apply slip_decode_ok.
  - pose proof (slip_encode_length data). unfold MAX_SLIP_FRAME_SIZE. lia.
  - by rewrite slip_step_frame.
Qed.
