(* ===== verification/Packet.v ===== *)
(** Reticulum destination addresses and packets
    (src/mesh-core/src/reticulum/address.rs, packet.rs): the wire format, its
    parser and the hop counter. The hash functions that derive addresses are
    outside the repository and are not modelled. *)

From S2P Require Import Prelude.

(** A 16-byte destination hash.
    Source: src/mesh-core/src/reticulum/address.rs:9-11 (ReticulumAddress) *)
Abbreviation address := (list Z) (only parsing).

Definition wf_address (a : address) : Prop := length a = 16 ∧ all_bytes a.

(** Source: src/mesh-core/src/reticulum/address.rs:20-22 (is_broadcast) *)
Definition is_broadcast (a : address) : bool := forallb (λ b, b =? 0xff)%Z a.

(** The address [[0xffu8; 16]]. *)
Definition broadcast_address : address := replicate 16 0xff%Z.

(** Source: src/mesh-core/src/reticulum/packet.rs:6-6 (MAX_HOPS) *)
Definition MAX_HOPS : Z := 128.

(** Source: src/mesh-core/src/reticulum/packet.rs:8-15 (ReticulumPacketType) *)
Inductive ReticulumPacketType := Data | Announce | LinkRequest | Proof_.

#[export] Instance packet_type_eq_dec : EqDecision ReticulumPacketType.
Proof. solve_decision. Defined.

(** The [#[repr(u8)]] discriminant, read by [as u8].
    Source: src/mesh-core/src/reticulum/packet.rs:8-15 (ReticulumPacketType as u8) *)
Definition packet_type_to_u8 (t : ReticulumPacketType) : Z :=
  match t with Data => 0 | Announce => 1 | LinkRequest => 2 | Proof_ => 3 end.

(** Source: src/mesh-core/src/reticulum/packet.rs:18-26 (ReticulumPacketType::from_u8) *)
Definition packet_type_from_u8 (val : Z) : option ReticulumPacketType :=
  match val with
  | 0 => Some Data
  | 1 => Some Announce
  | 2 => Some LinkRequest
  | 3 => Some Proof_
  | _ => None
  end%Z.

(** Source: src/mesh-core/src/reticulum/packet.rs:29-36 (ReticulumPacket) *)
Record ReticulumPacket := mk_packet {
  flags : Z;
  hops : Z;
  destination : address;
  packet_type : ReticulumPacketType;
  payload : bytes
}.

#[export] Instance packet_eq_dec : EqDecision ReticulumPacket.
Proof. solve_decision. Defined.

(** Source: src/mesh-core/src/reticulum/packet.rs:39-51 (ReticulumPacket::new) *)
Definition packet_new (dest : address) (t : ReticulumPacketType) (p : bytes) : ReticulumPacket :=
  mk_packet 0 0 dest t p.

(** Source: src/mesh-core/src/reticulum/packet.rs:54-62 (ReticulumPacket::to_bytes) *)
Definition to_bytes (p : ReticulumPacket) : bytes :=
  [flags p] ++ [hops p] ++ destination p ++ [packet_type_to_u8 (packet_type p)] ++ payload p.

Inductive packet_error :=
| TooShort
| ExceededMaxHops (h : Z)
| UnknownPacketType (t : Z).

(** Source: src/mesh-core/src/reticulum/packet.rs:65-92 (ReticulumPacket::from_bytes) *)
Definition from_bytes (data : bytes) : result packet_error ReticulumPacket :=
  if length data <? 19 then Err TooShort
  else
    let flags := nth 0 data 0%Z in
    let hops := nth 1 data 0%Z in
    if (MAX_HOPS <? hops)%Z then Err (ExceededMaxHops hops)
    else
      let dest_bytes := take 16 (drop 2 data) in
      let t := nth 18 data 0%Z in
      packet_type ← ok_or (UnknownPacketType t) (packet_type_from_u8 t);
      Ok (mk_packet flags hops dest_bytes packet_type (drop 19 data)).

(** Source: src/mesh-core/src/reticulum/packet.rs:95-103 (ReticulumPacket::increment_hops) *)
Definition increment_hops (p : ReticulumPacket) : option ReticulumPacket :=
  if (MAX_HOPS <=? hops p)%Z then None
  else Some (mk_packet (flags p) (hops p + 1) (destination p) (packet_type p) (payload p)).

(** The updated packet and the returned flag.
    Source: src/mesh-core/src/reticulum/packet.rs:106-113 (ReticulumPacket::increment_hops_in_place) *)
Definition increment_hops_in_place (p : ReticulumPacket) : ReticulumPacket * bool :=
  if (MAX_HOPS <=? hops p)%Z then (p, false)
  else (mk_packet (flags p) (hops p + 1) (destination p) (packet_type p) (payload p), true).

(** What the Rust types guarantee of every packet value. *)
Record wf_packet (p : ReticulumPacket) : Prop := {
  wf_flags : is_byte (flags p);
  wf_hops : is_byte (hops p);
  wf_dest : wf_address (destination p);
  wf_payload : all_bytes (payload p)
}.

(** ** Lemmas *)

Lemma packet_type_roundtrip t : packet_type_from_u8 (packet_type_to_u8 t) = Some t.
Proof. by destruct t. Qed.

Lemma packet_type_from_u8_inv z t : packet_type_from_u8 z = Some t → z = packet_type_to_u8 t.
Proof. unfold packet_type_from_u8. repeat case_match; naive_solver. Qed.

Lemma packet_type_byte t : is_byte (packet_type_to_u8 t).
Proof. unfold is_byte. destruct t; simpl; lia. Qed.

Lemma to_bytes_length p :
  length (destination p) = 16 → length (to_bytes p) = 19 + length (payload p).
Proof. intros H. unfold to_bytes. rewrite !length_app, H. simpl. lia. Qed.

Lemma to_bytes_bytes p : wf_packet p → all_bytes (to_bytes p).
Proof.
  intros [Hf Hh [_ Hd] Hp]. unfold to_bytes, all_bytes.
  repeat (apply Forall_app; split); auto using Forall_cons, Forall_nil, packet_type_byte.
Qed.

Lemma increment_hops_wf p p' : wf_packet p → increment_hops p = Some p' → wf_packet p'.
Proof.
  unfold increment_hops, MAX_HOPS. intros [Hf Hh Hd Hp].
  destruct (Z.leb_spec 128 (hops p)); [done|]. intros [= <-].
  constructor; simpl; auto. unfold is_byte in *. lia.
Qed.

Lemma increment_in_place_spec p :
  increment_hops_in_place p =
  match increment_hops p with Some p' => (p', true) | None => (p, false) end.
Proof. unfold increment_hops_in_place, increment_hops. by case_match. Qed.

Lemma list_split_19 (d : list Z) :
  19 ≤ length d →
  ∃ f h dest t rest, d = [f] ++ [h] ++ dest ++ [t] ++ rest ∧ length dest = 16.
Proof.
  intros Hlen. do 2 (destruct d as [|? d]; [simpl in Hlen; lia|]).
  do 2 eexists. exists (take 16 d).
  assert (length (drop 16 d) ≠ 0) as Hd by (rewrite length_drop; simpl in Hlen; lia).
  destruct (drop 16 d) as [|t rest] eqn:E; [done|].
  exists t, rest. rewrite length_take. split; [|simpl in Hlen; lia].
  simpl. by rewrite <-E, take_drop.
Qed.

Lemma from_bytes_layout f h dest t rest :
  length dest = 16 →
  from_bytes ([f] ++ [h] ++ dest ++ [t] ++ rest) =
  if (MAX_HOPS <? h)%Z then Err (ExceededMaxHops h)
  else match packet_type_from_u8 t with
       | Some ty => Ok (mk_packet f h dest ty rest)
       | None => Err (UnknownPacketType t)
       end.
Proof.
  intros Hd. do 16 (destruct dest as [|? dest]; [simpl in Hd; lia|]).
  destruct dest; [|simpl in Hd; lia]. unfold from_bytes.
  simpl. case_match; [done|]. by destruct (packet_type_from_u8 t).
Qed.

Lemma from_bytes_short d : length d < 19 → from_bytes d = Err TooShort.
Proof. intros. unfold from_bytes. destruct (Nat.ltb_spec (length d) 19); [done|lia]. Qed.

Lemma packet_parses p : wf_packet p → (hops p ≤ MAX_HOPS)%Z → from_bytes (to_bytes p) = Ok p.
Proof.
  intros [Hf Hh [Hl Hd] Hp] Hmax. unfold to_bytes. rewrite from_bytes_layout by done.
  destruct (Z.ltb_spec MAX_HOPS (hops p)); [lia|].
  rewrite packet_type_roundtrip. by destruct p.
Qed.

(** ** Properties *)

(** C40: the parser accepts exactly the encodings of well-formed packets with
    at most [MAX_HOPS] hops, and yields the packet that was encoded: parsing is
    a left inverse of encoding, every accepted input is the canonical encoding
    of its result, and anything else is an error. *)
Theorem packet_parse_iff (d : bytes) (p : ReticulumPacket) :
  all_bytes d →
  from_bytes d = Ok p ↔ (d = to_bytes p ∧ wf_packet p ∧ (hops p ≤ MAX_HOPS)%Z).
Proof.
  intros Hb. split.
  - destruct (decide (length d < 19)) as [Hs|Hs]; [by rewrite from_bytes_short|].
    destruct (list_split_19 d) as (f & h & dest & t & rest & -> & Hdest); [lia|].
    rewrite from_bytes_layout by done.
    destruct (Z.ltb_spec MAX_HOPS h) as [|Hh]; [done|].
    destruct (packet_type_from_u8 t) as [ty|] eqn:Et; [|done]. intros [= <-].
    apply packet_type_from_u8_inv in Et as ->.
    unfold all_bytes in Hb. rewrite !Forall_app, !Forall_singleton in Hb.
    destruct Hb as (? & ? & ? & ? & ?). done.
  - intros (-> & ? & ?). by apply packet_parses.
Qed.

Definition sample_packet : ReticulumPacket :=
  mk_packet 0 3 (replicate 16 7%Z) Announce [1; 2; 0xC0]%Z.

Lemma sample_packet_wf : wf_packet sample_packet.
Proof. repeat constructor; simpl; lia. Qed.

Lemma packet_parse_iff_witness : from_bytes (to_bytes sample_packet) = Ok sample_packet.
Proof.
  apply (packet_parse_iff (to_bytes sample_packet) sample_packet);
    [apply to_bytes_bytes, sample_packet_wf|].
  split; [done|]. split; [apply sample_packet_wf|]. unfold MAX_HOPS; simpl; lia.
Defined.
