(* ===== verification/Routing.v ===== *)
(** The distance-vector path table of the Reticulum node
    (src/mesh-core/src/reticulum/routing.rs). *)

From S2P Require Import Prelude.

(** Source: src/mesh-core/src/reticulum/routing.rs:7-7 (DEFAULT_ROUTE_TTL_SECS) *)
Definition DEFAULT_ROUTE_TTL_SECS : Z := 7200.
(** Source: src/mesh-core/src/reticulum/routing.rs:8-10 (MAX_PATH_TABLE_ROUTES) *)
Definition MAX_PATH_TABLE_ROUTES : Z := 4096.

(** Source: src/mesh-core/src/reticulum/routing.rs:12-18 (PathEntry) *)
Record PathEntry := mk_entry {
  pe_destination : list Z;
  pe_next_hop : list Z;
  pe_hop_count : Z;
  pe_expires_at : Z
}.

(** Source: src/mesh-core/src/reticulum/routing.rs:20-23 (PathTable) *)
Abbreviation PathTable := (gmap (list Z) PathEntry).

(** Source: src/mesh-core/src/reticulum/routing.rs:26-30 (PathTable::new) *)
Definition path_table_new : PathTable := ∅.

(** The remaining table and the number of removed routes.
    Source: src/mesh-core/src/reticulum/routing.rs:81-85 (PathTable::prune_expired) *)
Definition prune_expired (t : PathTable) (now : Z) : PathTable * nat :=
  let t' := filter (λ '(_, e), (now < pe_expires_at e)%Z) t in
  (t', size t - size t').

(** The table after the call and the returned flag; [None] when
    [now_secs + DEFAULT_ROUTE_TTL_SECS] overflows (a panic).
    Source: src/mesh-core/src/reticulum/routing.rs:33-73 (PathTable::update_route) *)
Definition update_route (t : PathTable) (dest next_hop : list Z) (hop_count now : Z)
    : option (PathTable * bool) :=
  expires_at ← checked u64_max (now + DEFAULT_ROUTE_TTL_SECS);
  match t !! dest with
  | Some existing =>
      if bool_decide (pe_next_hop existing = next_hop)
         || (hop_count <=? pe_hop_count existing)%Z
         || (pe_expires_at existing <? now)%Z
      then Some (<[dest := mk_entry (pe_destination existing) next_hop hop_count expires_at]> t, true)
      else Some (t, false)
  | None =>
      let t := if (MAX_PATH_TABLE_ROUTES <=? zsize t)%Z then (prune_expired t now).1 else t in
      if (MAX_PATH_TABLE_ROUTES <=? zsize t)%Z then Some (t, false)
      else Some (<[dest := mk_entry dest next_hop hop_count expires_at]> t, true)
  end.

(** Source: src/mesh-core/src/reticulum/routing.rs:76-78 (PathTable::get_route) *)
Definition get_route (t : PathTable) (dest : list Z) : option PathEntry := t !! dest.

(** Source: src/mesh-core/src/reticulum/routing.rs:88-90 (PathTable::entries) *)
Definition entries (t : PathTable) : list PathEntry := (map_to_list t).*2.

(** Source: src/mesh-core/src/reticulum/routing.rs:93-95 (PathTable::len) *)
Definition table_len (t : PathTable) : nat := size t.

(** Source: src/mesh-core/src/reticulum/routing.rs:97-99 (PathTable::is_empty) *)
Definition table_is_empty (t : PathTable) : bool := bool_decide (t = ∅).

(** ** The invariant *)

Record wf_table (t : PathTable) : Prop := {
  wf_keyed : ∀ d e, t !! d = Some e → pe_destination e = d;
  wf_capped : (zsize t ≤ MAX_PATH_TABLE_ROUTES)%Z
}.

Lemma wf_table_new : wf_table path_table_new.
Proof. unfold path_table_new. split; [by intros ?? ?%lookup_empty_Some|]. by rewrite map_size_empty. Qed.

Lemma prune_expired_lookup t now d e :
  (prune_expired t now).1 !! d = Some e ↔ t !! d = Some e ∧ (now < pe_expires_at e)%Z.
Proof. apply map_lookup_filter_Some. Qed.

Lemma prune_expired_wf t now : wf_table t → wf_table (prune_expired t now).1.
Proof.
  intros [Hk Hc]. split.
  - intros d e [? _]%prune_expired_lookup. eauto.
  - pose proof (size_filter_le (λ '(_, e), (now < pe_expires_at e)%Z) t). simpl. lia.
Qed.

Lemma prune_expired_count t now :
  size (prune_expired t now).1 + (prune_expired t now).2 = size t.
Proof.
  unfold prune_expired; simpl.
  pose proof (size_filter_le (λ '(_, e), (now < pe_expires_at e)%Z) t). lia.
Qed.

(** The table an insertion of a new destination starts from. *)
Lemma make_room_spec t now :
  let t' := if (MAX_PATH_TABLE_ROUTES <=? zsize t)%Z then (prune_expired t now).1 else t in
  (wf_table t → wf_table t') ∧
  (∀ d e, t !! d = Some e → (now < pe_expires_at e)%Z → t' !! d = Some e) ∧
  (∀ d e, t' !! d = Some e → t !! d = Some e).
Proof.
  simpl. case_match; [|naive_solver].
  split; [apply prune_expired_wf|].
  setoid_rewrite prune_expired_lookup. naive_solver.
Qed.

Lemma update_route_wf t d nh hc now t' b :
  wf_table t → update_route t d nh hc now = Some (t', b) → wf_table t'.
Proof.
  intros Hwf. unfold update_route.
  destruct (checked _ _) as [exp|]; [|done]. simpl.
  destruct (t !! d) as [e|] eqn:Ed.
  - case_match; intros [= <- <-]; [|done]. destruct Hwf as [Hk Hc]. split.
    + intros d' e' [(<- & <-)|[? ?]]%lookup_insert_Some; simpl; eauto.
    + rewrite size_insert_present; eauto.
  - pose proof (make_room_spec t now) as (Hwf' & _ & _). specialize (Hwf' Hwf).
    set (t1 := if (_ <=? _)%Z then _ else _) in *.
    destruct (Z.leb_spec MAX_PATH_TABLE_ROUTES (zsize t1)); intros [= <- <-]; [done|].
    destruct Hwf' as [Hk Hc]. split.
    + intros d' e' [(<- & <-)|[? ?]]%lookup_insert_Some; simpl; eauto.
    + pose proof (size_insert_le t1 d (mk_entry d nh hc exp)). lia.
Qed.

(** ** Steps of the table *)

Inductive table_step : PathTable → PathTable → Prop :=
| step_update t d nh hc now t' b :
    update_route t d nh hc now = Some (t', b) → table_step t t'
| step_prune t now : table_step t (prune_expired t now).1.

(** Whatever announces and prunes a node processes, every route is
    stored under its own destination and the table never holds more than
    [MAX_PATH_TABLE_ROUTES] routes. *)
Theorem path_table_invariant (t : PathTable) :
  reachable (λ t, t = path_table_new) table_step t → wf_table t.
Proof.
  revert t. apply (reachable_invariant _ _ wf_table).
  - intros s ->. apply wf_table_new.
  - intros s s' Hs Hstep. destruct Hstep; [by eapply update_route_wf|by apply prune_expired_wf].
Qed.

Lemma path_table_invariant_witness :
  wf_table {[ [1%Z] := mk_entry [1%Z] [2%Z] 3 8200 ]}.
Proof.
  apply path_table_invariant. exists path_table_new. split; [done|].
  apply rtc_once. eapply (step_update _ [1%Z] [2%Z] 3 1000 _ true). reflexivity.
Defined.

Definition route_accepted (t : PathTable) (d nh : list Z) (hc now : Z) : Prop :=
  match t !! d with
  | Some e => pe_next_hop e = nh ∨ (hc ≤ pe_hop_count e)%Z ∨ (pe_expires_at e < now)%Z
  | None => (zsize t < MAX_PATH_TABLE_ROUTES ∨
             zsize (prune_expired t now).1 < MAX_PATH_TABLE_ROUTES)%Z
  end.

(** What one [update_route] does, on every branch. The offer is taken
    exactly when it comes from the current gateway, does not lengthen the
    path, replaces an expired route, or is new and there is room after
    pruning; then the route becomes the offer with a fresh lifetime, otherwise
    it is kept; and no unexpired route to another destination is ever lost or
    changed. *)
Theorem update_route_spec (t t' : PathTable) (d nh : list Z) (hc now : Z) (b : bool) :
  wf_table t →
  update_route t d nh hc now = Some (t', b) →
  (b = true ↔ route_accepted t d nh hc now) ∧
  get_route t' d = (if b then Some (mk_entry d nh hc (now + DEFAULT_ROUTE_TTL_SECS)) else get_route t d) ∧
  ∀ d' e, d' ≠ d →
    (get_route t d' = Some e → (now < pe_expires_at e)%Z → get_route t' d' = Some e) ∧
    (get_route t' d' = Some e → get_route t d' = Some e).
Proof.
  intros Hwf. unfold update_route, route_accepted, get_route.
  destruct (checked _ _) as [exp|] eqn:Hexp; [|done].
  apply checked_Some in Hexp as [-> _]. simpl.
  destruct (t !! d) as [e|] eqn:Ed.
  - destruct (_ || _) eqn:Hacc; intros [= <- <-].
    + apply (wf_keyed _ Hwf) in Ed as ->. rewrite lookup_insert_eq.
      split; [|split; [done|]].
      * rewrite !orb_true_iff, bool_decide_eq_true, Z.leb_le, Z.ltb_lt in Hacc. tauto.
      * intros d' e' Hne. rewrite !lookup_insert_ne by done. done.
    + split; [|split; done].
      rewrite !orb_false_iff, bool_decide_eq_false, Z.leb_gt, Z.ltb_ge in Hacc.
      split; [done|]. intros [?|[?|?]]; [tauto|lia|lia].
  - pose proof (make_room_spec t now) as (_ & Hkeep & Hsub).
    assert (Hroom : (zsize (if MAX_PATH_TABLE_ROUTES <=? zsize t
                            then (prune_expired t now).1 else t) < MAX_PATH_TABLE_ROUTES
        ↔ zsize t < MAX_PATH_TABLE_ROUTES ∨
          zsize (prune_expired t now).1 < MAX_PATH_TABLE_ROUTES)%Z).
    { pose proof (prune_expired_count t now).
      destruct (Z.leb_spec MAX_PATH_TABLE_ROUTES (zsize t)); lia. }
    set (t1 := if (_ <=? _)%Z then _ else _) in *.
    destruct (Z.leb_spec MAX_PATH_TABLE_ROUTES (zsize t1)); intros [= <- <-].
    + split; [split; [done|intros Hr; apply Hroom in Hr; lia]|]. split; [|eauto].
      destruct (t1 !! d) eqn:E1; [|done]. apply Hsub in E1. congruence.
    + split; [split; [intros _; by apply Hroom|done]|]. split; [apply lookup_insert_eq|].
      intros d' e' Hne. rewrite !lookup_insert_ne by done. eauto.
Qed.

Definition sample_table : PathTable := {[ [1%Z] := mk_entry [1%Z] [2%Z] 3 8200 ]}.

Lemma sample_table_wf : wf_table sample_table.
Proof.
  unfold sample_table. split; [|by_leb].
  intros d e [<- <-]%lookup_singleton_Some. done.
Qed.

Lemma update_route_spec_witness :
  get_route {[ [1%Z] := mk_entry [1%Z] [5%Z] 2 8300 ]} [1%Z] =
  Some (mk_entry [1%Z] [5%Z] 2 (1100 + DEFAULT_ROUTE_TTL_SECS)).
Proof.
  destruct (update_route_spec sample_table
    {[ [1%Z] := mk_entry [1%Z] [5%Z] 2 8300 ]} [1%Z] [5%Z] 2 1100 true
    sample_table_wf eq_refl) as (_ & H & _). exact H.
Defined.
