(* ===== verification/Link.v ===== *)
(** Link establishment between Reticulum nodes
    (src/mesh-core/src/reticulum/link.rs, and the address derivations of
    address.rs): the link table, its states and the handshake packets. The
    link table's iteration order, which the fallback of [handle_link_proof]
    depends on, is an argument. *)

From S2P Require Import Prelude RustStr Primitives Hybrid Nip44 Ratchet RatchetTurns PqcLink LinkSession Packet.

(** Source: src/mesh-core/src/reticulum/link.rs:11-11 (LINK_TIMEOUT_SECS) *)
Definition LINK_TIMEOUT_SECS : Z := 300.
(** Source: src/mesh-core/src/reticulum/link.rs:12-12 (MAX_PENDING_LINKS) *)
Definition MAX_PENDING_LINKS : Z := 50.
(** Source: src/mesh-core/src/reticulum/link.rs:15-15 (LINK_REQUEST_PQC) *)
Definition LINK_REQUEST_PQC : Z := 1.
(** Source: src/mesh-core/src/reticulum/link.rs:17-17 (LINK_REQUEST_PQC_SENDER) *)
Definition LINK_REQUEST_PQC_SENDER : Z := 2.
(** Source: src/mesh-core/src/reticulum/link.rs:19-19 (PROOF_PQC_SENDER) *)
Definition PROOF_PQC_SENDER : Z := 2.

(** Source: src/mesh-core/src/reticulum/link.rs:30-34 (LinkState) *)
Inductive LinkState := Pending | Established | Closed.

#[export] Instance link_state_eq_dec : EqDecision LinkState.
Proof. solve_decision. Defined.

(** Source: src/mesh-core/src/reticulum/link.rs:37-44 (LinkInfo) *)
Record LinkInfo := mk_link {
  remote_destination : list Z;
  state : LinkState;
  created_at : Z;
  last_activity : Z;
  tx_packets : Z;
  rx_packets : Z
}.

(** Source: src/mesh-core/src/reticulum/link.rs:46-49 (LinkManager) *)
Record LinkManager := mk_manager {
  links : gmap (list Z) LinkInfo;
  crypto : PqcLinkCrypto
}.

(** Source: src/mesh-core/src/reticulum/link.rs:52-57 (LinkManager::new) *)
Definition manager_new : LinkManager := mk_manager ∅ crypto_new.

Section link.
Context {P : Primitives} {K : Kem} {A : Aead} {J : HeaderJson}.

(** Source: src/mesh-core/src/reticulum/address.rs:25-33 (ReticulumAddress::from_pubkey) *)
Definition from_pubkey (pubkey : str) : address :=
  take 16 (sha256 (lit "soshal.reticulum.pubkey:" ++ pubkey)).

(** Source: src/mesh-core/src/reticulum/address.rs:36-45 (ReticulumAddress::from_aspect) *)
Definition from_aspect (app_name aspect : str) : address :=
  take 16 (sha256 (app_name ++ lit "." ++ aspect)).

(** Source: src/mesh-core/src/reticulum/address.rs:48-50 (ReticulumAddress::to_hex) *)
Definition to_hex (a : address) : str := hex_encode a.

(** Source: src/mesh-core/src/reticulum/address.rs:53-64 (ReticulumAddress::from_hex) *)
Definition from_hex (hex_str : str) : may_fail address :=
  let trimmed := trim hex_str in
  _ ← ensure (length trimmed =? 32) "Expected 32 hex characters (16 bytes)";
  arr ← ok_or (Fail "Invalid hex") (hex_decode_str trimmed);
  if length arr =? 16 then Ok arr else err "Invalid hex".

(** Source: src/mesh-core/src/reticulum/link.rs:21-23 (link_peer_id) *)
Definition link_peer_id (dest : address) : str := lit "reticulum:" ++ to_hex dest.
(** Source: src/mesh-core/src/reticulum/link.rs:25-27 (link_context) *)
Definition link_context (dest : address) : str := lit "reticulum-link:" ++ to_hex dest.

(** Source: src/mesh-core/src/reticulum/link.rs:62-106 (LinkManager::request_link_from) *)
Definition request_link_from (m : LinkManager) (now : Z) (sender_dest : option (list Z))
    (remote_dest : address) (r : kem_rng) : LinkManager * may_fail ReticulumPacket :=
  if (MAX_PENDING_LINKS <=? zsize (links m))%Z then (m, err "Maximum pending links reached")
  else
    match begin_handshake (crypto m) now (link_peer_id remote_dest) (link_context remote_dest) r with
    | (c, Err e) => (mk_manager (links m) c, Err e)
    | (c, Ok own_pk) =>
        let link_info := mk_link remote_dest Pending now now 0 0 in
        let payload :=
          match sender_dest with
          | Some snd => [LINK_REQUEST_PQC_SENDER] ++ snd
          | None => [LINK_REQUEST_PQC]
          end ++ own_pk in
        (mk_manager (<[remote_dest := link_info]> (links m)) c,
         Ok (packet_new remote_dest LinkRequest payload))
    end.

(** Source: src/mesh-core/src/reticulum/link.rs:108-110 (LinkManager::request_link) *)
Definition request_link (m : LinkManager) (now : Z) (remote_dest : address) (r : kem_rng) :=
  request_link_from m now None remote_dest r.

(** The claimed sender and its key.
    Source: src/mesh-core/src/reticulum/link.rs:133-150 (LinkManager::handle_link_request_with_own_dest, parsing) *)
Definition parse_link_request (from_dest : address) (request_payload : bytes) : may_fail (list Z * str) :=
  match request_payload with
  | [] => err "empty link request payload"
  | tag :: _ =>
      if (tag =? LINK_REQUEST_PQC_SENDER)%Z && (17 <? length request_payload) then
        pk ← ok_or (Fail "link request pk not ascii") (from_utf8 (drop 17 request_payload));
        Ok (take 16 (drop 1 request_payload), pk)
      else if (tag =? LINK_REQUEST_PQC)%Z then
        pk ← ok_or (Fail "link request pk not ascii") (from_utf8 (drop 1 request_payload));
        Ok (from_dest, pk)
      else err "unsupported link request payload"
  end.

(** Source: src/mesh-core/src/reticulum/link.rs:125-191 (LinkManager::handle_link_request_with_own_dest) *)
Definition handle_link_request_with_own_dest (m : LinkManager) (now : Z) (own_dest : option (list Z))
    (from_dest : address) (request_payload : bytes) (r : kem_rng)
    : LinkManager * may_fail ReticulumPacket :=
  match parse_link_request from_dest request_payload with
  | Err e => (m, Err e)
  | Ok (actual_from_dest, initiator_pk) =>
      if (MAX_PENDING_LINKS <=? zsize (links m))%Z then (m, err "Maximum pending links reached")
      else
        match accept_handshake_pk (crypto m) now (link_peer_id actual_from_dest)
                (link_context actual_from_dest) initiator_pk r with
        | (c, Err e) => (mk_manager (links m) c, Err e)
        | (c, Ok own_pk) =>
            let link_info := mk_link actual_from_dest Established now now 0 0 in
            let proof_payload :=
              match own_dest with Some od => [PROOF_PQC_SENDER] ++ od | None => [] end ++ own_pk in
            (mk_manager (<[actual_from_dest := link_info]> (links m)) c,
             Ok (packet_new actual_from_dest Proof_ proof_payload))
        end
  end.

(** Source: src/mesh-core/src/reticulum/link.rs:115-121 (LinkManager::handle_link_request) *)
Definition handle_link_request (m : LinkManager) (now : Z) (from_dest : address) (request_payload : bytes)
    (r : kem_rng) := handle_link_request_with_own_dest m now None from_dest request_payload r.

(** The link a proof is for: the prefixed responder, the packet's own
    destination when a link has it, or else the first pending link of the
    table's iteration ([order]).
    Source: src/mesh-core/src/reticulum/link.rs:202-222 (LinkManager::handle_link_proof, target) *)
Definition proof_target (m : LinkManager) (order : list (list Z)) (from_dest : address) (proof_data : bytes)
    : may_fail (list Z * str) :=
  if bool_decide (head proof_data = Some PROOF_PQC_SENDER) && (17 <? length proof_data) then
    pk ← ok_or (Fail "link proof pk not ascii") (from_utf8 (drop 17 proof_data));
    Ok (take 16 (drop 1 proof_data), pk)
  else
    pk ← ok_or (Fail "link proof pk not ascii") (from_utf8 proof_data);
    let dest :=
      if bool_decide (is_Some (links m !! from_dest)) then from_dest
      else
        default from_dest
          (head (filter (λ d, state <$> links m !! d = Some Pending) order)) in
    Ok (dest, pk).

(** Source: src/mesh-core/src/reticulum/link.rs:195-240 (LinkManager::handle_link_proof) *)
Definition handle_link_proof (m : LinkManager) (now : Z) (order : list (list Z)) (from_dest : address)
    (proof_data : bytes) : LinkManager * may_fail unit :=
  match proof_target m order from_dest proof_data with
  | Err e => (m, Err e)
  | Ok (target_dest, responder_pk) =>
      match links m !! target_dest with
      | None => (m, err "Unknown link")
      | Some link =>
          if bool_decide (state link = Pending) then
            match complete_handshake (crypto m) now (link_peer_id target_dest) responder_pk with
            | (c, Err e) => (mk_manager (links m) c, Err e)
            | (c, Ok _) =>
                let link := mk_link (remote_destination link) Established (created_at link) now
                              (tx_packets link) (rx_packets link) in
                (mk_manager (<[target_dest := link]> (links m)) c, Ok ())
            end
          else (m, err "Link not in pending state")
      end
  end.

(** Source: src/mesh-core/src/reticulum/link.rs:244-251 (LinkManager::encrypt_for_link) *)
Definition encrypt_for_link (m : LinkManager) (now : Z) (dest : address) (data : bytes)
    (r_enc r_gen : kem_rng) (nonce : option bytes) : LinkManager * may_fail bytes :=
  let '(c, res) := link_encrypt (crypto m) now (link_peer_id dest) data r_enc r_gen nonce in
  (mk_manager (links m) c, res).

(** Source: src/mesh-core/src/reticulum/link.rs:255-262 (LinkManager::decrypt_from_link) *)
Definition decrypt_from_link (m : LinkManager) (now : Z) (dest : address) (data : bytes) (r : kem_rng)
    : LinkManager * may_fail bytes :=
  let '(c, res) := link_decrypt (crypto m) now (link_peer_id dest) data r in
  (mk_manager (links m) c, res).

(** Source: src/mesh-core/src/reticulum/link.rs:265-271 (LinkManager::update_activity) *)
Definition update_activity (m : LinkManager) (now : Z) (dest : address) : LinkManager :=
  match links m !! dest with
  | Some l =>
      mk_manager (<[dest := mk_link (remote_destination l) (state l) (created_at l) now (tx_packets l) (rx_packets l)]>
        (links m)) (crypto m)
  | None => m
  end.

(** Source: src/mesh-core/src/reticulum/link.rs:274-279 (LinkManager::close_link) *)
Definition close_link (m : LinkManager) (dest : address) : LinkManager :=
  mk_manager (delete dest (links m)) (crypto_remove (crypto m) (link_peer_id dest)).

(** The links [prune_stale_links] drops.
    Source: src/mesh-core/src/reticulum/link.rs:290-290 (LinkManager::prune_stale_links, condition) *)
Definition link_stale (now : Z) (l : LinkInfo) : Prop := (LINK_TIMEOUT_SECS < sat_sub now (last_activity l))%Z.

#[export] Instance link_stale_dec now l : Decision (link_stale now l).
Proof. unfold link_stale. apply _. Defined.

(** Source: src/mesh-core/src/reticulum/link.rs:282-299 (LinkManager::prune_stale_links) *)
Definition prune_stale_links (m : LinkManager) (now : Z) : LinkManager * nat :=
  let stale := filter (λ '(_, l), link_stale now l) (links m) in
  let kept := filter (λ '(_, l), ¬ link_stale now l) (links m) in
  let c := foldl (λ c d, crypto_remove c (link_peer_id d)) (crypto m) (map_to_list stale).*1 in
  (mk_manager kept c, size (links m) - size kept).

(** Source: src/mesh-core/src/reticulum/link.rs:302-305 (LinkManager::get_link_info) *)
Definition get_link_info (m : LinkManager) (dest : address) : option LinkInfo := links m !! dest.

(** Source: src/mesh-core/src/reticulum/link.rs:308-315 (LinkManager::get_active_links) *)
Definition get_active_links (m : LinkManager) : list LinkInfo :=
  filter (λ l, state l = Established) (map_to_list (links m)).*2.

(** Source: src/mesh-core/src/reticulum/link.rs:318-330 (LinkManager::announce) *)
Definition announce (m : LinkManager) : bool :=
  if bool_decide (links m = ∅) then false
  else existsb (λ l, bool_decide (state l = Established)) (map_to_list (links m)).*2.

(** ** The table is bounded and keyed, and links only go from pending to established *)

Record wf_manager (m : LinkManager) : Prop := {
  wfm_cap : (zsize (links m) ≤ MAX_PENDING_LINKS)%Z;
  wfm_keyed : ∀ d l, links m !! d = Some l → remote_destination l = d;
  wfm_open : ∀ d l, links m !! d = Some l → state l ≠ Closed;
  wfm_crypto : wf_crypto (crypto m)
}.

Inductive manager_step : LinkManager → LinkManager → Prop :=
| ms_request m now s d r : manager_step m (request_link_from m now s d r).1
| ms_handle_request m now o f p r : manager_step m (handle_link_request_with_own_dest m now o f p r).1
| ms_handle_proof m now order f p : manager_step m (handle_link_proof m now order f p).1
| ms_encrypt m now d p r1 r2 n : manager_step m (encrypt_for_link m now d p r1 r2 n).1
| ms_decrypt m now d p r : manager_step m (decrypt_from_link m now d p r).1
| ms_activity m now d : manager_step m (update_activity m now d)
| ms_close m d : manager_step m (close_link m d)
| ms_prune m now : manager_step m (prune_stale_links m now).1.

Lemma insert_link_wf m c d l :
  wf_manager m → wf_crypto c → remote_destination l = d → state l ≠ Closed →
  is_Some (links m !! d) ∨ (zsize (links m) < MAX_PENDING_LINKS)%Z →
  wf_manager (mk_manager (<[d := l]> (links m)) c).
Proof.
  intros [Hc Hk Ho _] Hcr Hd Hl Hroom. split; cbn [links crypto].
  - destruct Hroom as [Hp|Hlt]; [by rewrite size_insert_present|].
    pose proof (size_insert_le (links m) d l). lia.
  - intros d' l' [[<- <-]|[_ ?]]%lookup_insert_Some; eauto.
  - intros d' l' [[<- <-]|[_ ?]]%lookup_insert_Some; eauto.
  - done.
Qed.

Lemma set_crypto_wf m c : wf_manager m → wf_crypto c → wf_manager (mk_manager (links m) c).
Proof. intros [? ? ? _] ?. by split. Qed.

Lemma request_link_from_wf m now s d r : wf_manager m → wf_manager (request_link_from m now s d r).1.
Proof.
  intros Hm. unfold request_link_from. destruct (Z.leb_spec MAX_PENDING_LINKS (zsize (links m))); [done|].
  pose proof (begin_handshake_wf (crypto m) now (link_peer_id d) (link_context d) r (wfm_crypto _ Hm)) as Hc.
  destruct (begin_handshake _ _ _ _ _) as [c [pk|e]]; simpl in *; [|by apply set_crypto_wf].
  apply insert_link_wf; [done|done|done|done|by right].
Qed.

Lemma handle_link_request_wf m now o f p r :
  wf_manager m → wf_manager (handle_link_request_with_own_dest m now o f p r).1.
Proof.
  intros Hm. unfold handle_link_request_with_own_dest.
  destruct (parse_link_request f p) as [[d pk]|]; [|done].
  destruct (Z.leb_spec MAX_PENDING_LINKS (zsize (links m))); [done|].
  pose proof (accept_handshake_pk_wf (crypto m) now (link_peer_id d) (link_context d) pk r (wfm_crypto _ Hm)) as Hc.
  destruct (accept_handshake_pk _ _ _ _ _ _) as [c [own|e]]; simpl in *; [|by apply set_crypto_wf].
  apply insert_link_wf; [done|done|done|done|by right].
Qed.

Lemma handle_link_proof_wf m now order f p : wf_manager m → wf_manager (handle_link_proof m now order f p).1.
Proof.
  intros Hm. unfold handle_link_proof. destruct (proof_target m order f p) as [[d pk]|]; [|done].
  destruct (links m !! d) as [l|] eqn:El; [|done]. case_bool_decide; [|done].
  pose proof (complete_handshake_wf (crypto m) now (link_peer_id d) pk (wfm_crypto _ Hm)) as Hc.
  destruct (complete_handshake _ _ _ _) as [c [u|e]]; simpl in *; [|by apply set_crypto_wf].
  apply insert_link_wf; [done|done|exact (wfm_keyed _ Hm _ _ El)|done|left; eauto].
Qed.

Lemma foldl_remove_wf ds c : wf_crypto c → wf_crypto (foldl (λ c d, crypto_remove c (link_peer_id d)) c ds).
Proof. revert c. induction ds as [|d ds IH]; intros c Hc; [done|]. by apply IH, crypto_remove_wf. Qed.

Lemma manager_step_wf m m' : wf_manager m → manager_step m m' → wf_manager m'.
Proof.
  intros Hm Hs. destruct Hs.
  - by apply request_link_from_wf.
  - by apply handle_link_request_wf.
  - by apply handle_link_proof_wf.
  - unfold encrypt_for_link. pose proof (link_encrypt_wf (crypto m) now (link_peer_id d) p r1 r2 n (wfm_crypto _ Hm)).
    destruct (link_encrypt _ _ _ _ _ _ _). by apply set_crypto_wf.
  - unfold decrypt_from_link. pose proof (link_decrypt_wf (crypto m) now (link_peer_id d) p r (wfm_crypto _ Hm)).
    destruct (link_decrypt _ _ _ _ _). by apply set_crypto_wf.
  - unfold update_activity. destruct (links m !! d) as [l|] eqn:El; [|done].
    apply insert_link_wf; [done|apply Hm|exact (wfm_keyed _ Hm _ _ El)|exact (wfm_open _ Hm _ _ El)|left; eauto].
  - destruct Hm as [Hc Hk Ho Hcr]. split; cbn [links crypto close_link].
    + rewrite map_size_delete. unfold id. case_match; lia.
    + intros d' l [_ ?]%lookup_delete_Some. eauto.
    + intros d' l [_ ?]%lookup_delete_Some. eauto.
    + by apply crypto_remove_wf.
  - destruct Hm as [Hc Hk Ho Hcr]. split; cbn [links crypto prune_stale_links fst].
    + pose proof (size_filter_le (λ '(_, l), ¬ link_stale now l) (links m)). lia.
    + intros d' l [? _]%map_lookup_filter_Some. eauto.
    + intros d' l [? _]%map_lookup_filter_Some. eauto.
    + by apply foldl_remove_wf.
Qed.

Lemma manager_new_wf : wf_manager manager_new.
Proof.
  split; simpl; [by rewrite map_size_empty|by intros ?? ?%lookup_empty_Some|
    by intros ?? ?%lookup_empty_Some|apply crypto_new_wf].
Qed.

Lemma manager_reachable_wf m : reachable (λ m, m = manager_new) manager_step m → wf_manager m.
Proof.
  revert m. apply (reachable_invariant _ _ wf_manager); [|apply manager_step_wf].
  intros s ->. apply manager_new_wf.
Qed.

(** The link table of every reachable manager holds at most
    [MAX_PENDING_LINKS] links, each under its own destination, and at most
    [MAX_SESSIONS] ratchet sessions; and a proof establishes a link only if it
    was pending, whose session it completes with the proof's key. *)
Theorem link_manager_invariant (m m' : LinkManager) (now : Z) (order : list (list Z)) (from : address)
    (proof_data : bytes) :
  reachable (λ m, m = manager_new) manager_step m →
  handle_link_proof m now order from proof_data = (m', Ok ()) →
  ((zsize (links m) ≤ MAX_PENDING_LINKS)%Z ∧ (zsize (states (crypto m)) ≤ MAX_SESSIONS)%Z ∧
   ∀ d l, links m !! d = Some l → remote_destination l = d) ∧
  ∃ d pk l st, proof_target m order from proof_data = Ok (d, pk) ∧
    links m !! d = Some l ∧ state l = Pending ∧
    state <$> links m' !! d = Some Established ∧
    (∀ d', d' ≠ d → links m' !! d' = links m !! d') ∧
    crypto_get (crypto m) (link_peer_id d) = Ok st ∧
    crypto_get (crypto m') (link_peer_id d) = Ok (set_peer_pk st pk).
Proof.
  intros Hr%manager_reachable_wf. destruct Hr as [Hc Hk Ho [Hs _]]. intros Hp. split; [done|]. revert Hp.
  unfold handle_link_proof. destruct (proof_target m order from proof_data) as [[d pk]|]; [|done].
  destruct (links m !! d) as [l|] eqn:El; [|done]. case_bool_decide as Hst; [|done].
  unfold complete_handshake. case_bool_decide; [done|].
  destruct (crypto_get (crypto m) (link_peer_id d)) as [st|e] eqn:Eg; [|done]. intros [= <-].
  exists d, pk, l, st. cbn [links crypto]. split_and!; try done.
  - by rewrite lookup_insert_eq.
  - intros d' Hd. by rewrite lookup_insert_ne.
  - unfold crypto_get, crypto_put. cbn [states]. by rewrite lookup_insert_eq.
Qed.

(** ** The context of a link *)

Context {PL : PrimitiveLaws}.

(** What the two ends of one link registered: the initiator's session for the
    responder, and the responder's session for the initiator. *)
Lemma request_context m now s d r m' pkt :
  request_link_from m now s d r = (m', Ok pkt) →
  context <$> ok (crypto_get (crypto m') (link_peer_id d)) = Some (link_context d).
Proof.
  unfold request_link_from. destruct (_ <=? _)%Z; [done|]. unfold begin_handshake.
  destruct (match states (crypto m) !! link_peer_id d with Some _ => _ | None => _ end) as [c0|]; [|done].
  destruct (admission c0 now (link_peer_id d)) as [c1 [u|e]]; [|done].
  unfold create_session. destruct (hybrid_keygen r) as [[pk sk]|]; [|done]. intros [= <- <-].
  unfold crypto_get, crypto_put. cbn [states crypto]. by rewrite lookup_insert_eq.
Qed.

Lemma handle_request_context m now o f p r m' pkt d pk :
  parse_link_request f p = Ok (d, pk) →
  handle_link_request_with_own_dest m now o f p r = (m', Ok pkt) →
  context <$> ok (crypto_get (crypto m') (link_peer_id d)) = Some (link_context d).
Proof.
  intros Hp. unfold handle_link_request_with_own_dest. rewrite Hp. destruct (_ <=? _)%Z; [done|].
  unfold accept_handshake_pk. case_bool_decide; [done|]. destruct (has_session _ _); [done|].
  destruct (admission _ now (link_peer_id d)) as [c1 [u|e]]; [|done].
  unfold create_session. destruct (hybrid_keygen r) as [[own sk]|]; [|done]. intros [= <- <-].
  unfold crypto_get, crypto_put. cbn [states crypto]. by rewrite lookup_insert_eq.
Qed.

Lemma link_context_inj a b : all_bytes a → all_bytes b → link_context a = link_context b → a = b.
Proof.
  intros Ha Hb E. apply (inj (app (lit "reticulum-link:"))) in E.
  apply (f_equal hex_decode_str) in E. unfold to_hex in E. rewrite !hex_roundtrip in E by done. congruence.
Qed.

(** The two ends of a link derive their keys under different contexts: an
    initiator that names itself as the sender of its request registers the
    responder's address as context, the responder registers the initiator's,
    and the two differ unless the node links to itself. *)
Theorem link_contexts_differ (mi mi' mr mr' : LinkManager) (now : Z) (own dest from : address)
    (o : option (list Z)) (ri rr : kem_rng) (pkt proof : ReticulumPacket) :
  length own = 16 → all_bytes own → all_bytes dest → own ≠ dest →
  request_link_from mi now (Some own) dest ri = (mi', Ok pkt) →
  handle_link_request_with_own_dest mr now o from (payload pkt) rr = (mr', Ok proof) →
  ∃ ci cr,
    context <$> ok (crypto_get (crypto mi') (link_peer_id dest)) = Some ci ∧
    context <$> ok (crypto_get (crypto mr') (link_peer_id own)) = Some cr ∧ ci ≠ cr.
Proof.
  intros Hl Ho Hd Hne Hreq Hresp. exists (link_context dest), (link_context own).
  split; [by eapply request_context|]. split; [|by intros E%link_context_inj].
  assert (∃ pk, parse_link_request from (payload pkt) = Ok (own, pk)) as [pk Hp].
  { revert Hreq Hresp. unfold request_link_from. destruct (_ <=? _)%Z; [done|].
    destruct (begin_handshake _ _ _ _ _) as [c [opk|e]]; [|done]. intros [= _ <-].
    unfold handle_link_request_with_own_dest. cbn [payload packet_new].
    destruct (parse_link_request _ _) as [[d pk]|] eqn:Ep; [|done]. intros _.
    revert Ep. cbn [app parse_link_request]. rewrite Z.eqb_refl.
    destruct (17 <? _) eqn:E17; cbn [andb].
    - intros. inv_ok. rewrite drop_0, take_app_length' by done. eauto.
    - done. }
  by eapply handle_request_context.
Qed.
End link.

(** ** A concrete handshake *)

#[local] Existing Instances Toy.primitives Toy.primitive_laws ToyJson.header_json.

Definition w_own : address := replicate 16 1%Z.
Definition w_dest : address := replicate 16 2%Z.
Definition w_packet : ReticulumPacket := packet_new [] Data [].

Definition w_request : LinkManager * may_fail ReticulumPacket :=
  request_link_from manager_new 100 (Some w_own) w_dest (w_rng 1).
Definition w_response : LinkManager * may_fail ReticulumPacket :=
  handle_link_request_with_own_dest manager_new 100 (Some w_dest) (replicate 16 3%Z)
    (payload (unwrap_or w_packet w_request.2)) (w_rng 2).
Definition w_proved : LinkManager * may_fail unit :=
  handle_link_proof w_request.1 101 [] w_own (payload (unwrap_or w_packet w_response.2)).

Lemma link_manager_invariant_witness :
  ∃ d pk l st, proof_target w_request.1 [] w_own (payload (unwrap_or w_packet w_response.2)) = Ok (d, pk) ∧
    links w_request.1 !! d = Some l ∧ state l = Pending ∧
    state <$> links w_proved.1 !! d = Some Established ∧
    (∀ d', d' ≠ d → links w_proved.1 !! d' = links w_request.1 !! d') ∧
    crypto_get (crypto w_request.1) (link_peer_id d) = Ok st ∧
    crypto_get (crypto w_proved.1) (link_peer_id d) = Ok (set_peer_pk st pk).
Proof.
  refine (proj2 (link_manager_invariant w_request.1 w_proved.1 101 [] w_own _ _ _)).
  - exists manager_new. split; [reflexivity|]. apply rtc_once.
    exact (ms_request manager_new 100 (Some w_own) w_dest (w_rng 1)).
  - apply (pair_unwrap_or tt w_proved). vm_compute. reflexivity.
Defined.

Lemma link_contexts_differ_witness :
  ∃ ci cr,
    context <$> ok (crypto_get (crypto w_request.1) (link_peer_id w_dest)) = Some ci ∧
    context <$> ok (crypto_get (crypto w_response.1) (link_peer_id w_own)) = Some cr ∧ ci ≠ cr.
Proof.
  refine (link_contexts_differ manager_new w_request.1 manager_new w_response.1 100 w_own w_dest
    (replicate 16 3%Z) (Some w_dest) (w_rng 1) (w_rng 2) (unwrap_or w_packet w_request.2)
    (unwrap_or w_packet w_response.2) _ _ _ _ _ _).
  - reflexivity.
  - apply all_bytes_replicate. by split.
  - apply all_bytes_replicate. by split.
  - discriminate.
  - apply (pair_unwrap_or w_packet w_request). vm_compute. reflexivity.
  - apply (pair_unwrap_or w_packet w_response). vm_compute. reflexivity.
Defined.
