(* ===== verification/Transport.v ===== *)
(** The Reticulum node (src/mesh-core/src/reticulum/transport.rs): handling of
    one received datagram, the packet entry point without a source, sending
    and draining, and the maintenance of the path table. A socket address is
    abstract, with its text and the private-address test of common-core; the
    socket's effect is the list of datagrams sent. A panic is [None]. *)

From S2P Require Import Prelude RustStr Primitives Hybrid Nip44 Ratchet RatchetTurns PqcLink LinkSession Slip Packet Routing Link.

(** Source: src/mesh-core/src/reticulum/transport.rs:11-11 (MAX_PEERS) *)
Definition MAX_PEERS : Z := 4096.
(** Source: src/mesh-core/src/reticulum/transport.rs:14-14 (MAX_SEEN_DATA) *)
Definition MAX_SEEN_DATA : Z := 4096.
(** Source: src/mesh-core/src/reticulum/transport.rs:29-29 (ROUTE_PRUNE_INTERVAL_SECS) *)
Definition ROUTE_PRUNE_INTERVAL_SECS : Z := 10.
(** The cap of the delivery queue.
    Source: src/mesh-core/src/reticulum/transport.rs:221-221 (ReticulumNode::start_udp_transport, delivered cap) *)
Definition MAX_DELIVERED : Z := 4096.
(** The cap of a Data payload.
    Source: src/mesh-core/src/reticulum/transport.rs:203-203 (ReticulumNode::start_udp_transport, payload cap) *)
Definition MAX_DATA_PAYLOAD : Z := 262144.
(** The receive buffer: longer datagrams are cut.
    Source: src/mesh-core/src/reticulum/transport.rs:163-163 (ReticulumNode::start_udp_transport, receive buffer) *)
Definition RECV_BUFFER : nat := 2048.

(** Source: src/mesh-core/src/reticulum/interface.rs:6-10 (ReticulumInterfaceKind) *)
Inductive ReticulumInterfaceKind := UdpUnicast | UdpMulticast | RNodeSerial.
#[export] Instance interface_kind_eq_dec : EqDecision ReticulumInterfaceKind.
Proof. solve_decision. Defined.

(** Source: src/mesh-core/src/reticulum/interface.rs:13-20 (ReticulumInterfaceStatus) *)
Record ReticulumInterfaceStatus := mk_iface {
  if_name : str;
  if_kind : ReticulumInterfaceKind;
  if_bind_address : str;
  if_active : bool;
  if_rx_packets : Z;
  if_tx_packets : Z
}.

(** Source: src/mesh-core/src/reticulum/interface.rs:23-40 (ReticulumInterfaceStatus::new_udp) *)
Definition new_udp (bind : str) (multicast : bool) : ReticulumInterfaceStatus :=
  mk_iface (if multicast then lit "UDP Multicast (Auto)" else lit "UDP Socket")
    (if multicast then UdpMulticast else UdpUnicast) bind true 0 0.

(** Source: src/mesh-core/src/reticulum/interface.rs:42-51 (ReticulumInterfaceStatus::new_rnode) *)
Definition new_rnode (port : str) : ReticulumInterfaceStatus :=
  mk_iface (lit "RNode Serial (" ++ port ++ lit ")") RNodeSerial port true 0 0.

(** [iter_mut().find(|i| i.kind == UdpUnicast)], then the update.
    Source: src/mesh-core/src/reticulum/transport.rs:358-363 (ReticulumNode::start_udp_transport, interface stats) *)
Fixpoint update_unicast (f : ReticulumInterfaceStatus → ReticulumInterfaceStatus)
    (l : list ReticulumInterfaceStatus) : list ReticulumInterfaceStatus :=
  match l with
  | [] => []
  | i :: l => if bool_decide (if_kind i = UdpUnicast) then f i :: l else i :: update_unicast f l
  end.

Definition count_rx (i : ReticulumInterfaceStatus) : ReticulumInterfaceStatus :=
  mk_iface (if_name i) (if_kind i) (if_bind_address i) (if_active i) (if_rx_packets i + 1) (if_tx_packets i).
Definition count_tx (i : ReticulumInterfaceStatus) : ReticulumInterfaceStatus :=
  mk_iface (if_name i) (if_kind i) (if_bind_address i) (if_active i) (if_rx_packets i) (if_tx_packets i + 1).

(** [seen.contains(digest)], and otherwise the bounded push: the window and
    whether the digest was new.
    Source: src/mesh-core/src/reticulum/transport.rs:265-273 (ReticulumNode::start_udp_transport, dedup) *)
Definition record_seen (seen : list (list Z)) (digest : str) : list (list Z) * bool :=
  if bool_decide (digest ∈ seen) then (seen, false) else (push_bounded MAX_SEEN_DATA seen digest, true).

Section transport.
Context {P : Primitives} {K : Kem} {A : Aead} {J : HeaderJson}.
Context `{Countable SocketAddr}.
Context (addr_string : SocketAddr → str) (is_private : SocketAddr → bool) (sort_addrs : list SocketAddr → list SocketAddr).
Context (blake3_hex : bytes → str).

(** Source: src/mesh-core/src/reticulum/transport.rs:52-67 (ReticulumNode) *)
Record ReticulumNode := mk_node {
  n_destination : list Z;
  path_table : gmap (list Z) PathEntry;
  interfaces : list ReticulumInterfaceStatus;
  rx_count : Z;
  tx_count : Z;
  running : bool;
  link_manager : LinkManager;
  peers : gset SocketAddr;
  delivered : list (list Z);
  seen_data : list (list Z);
  has_socket : bool
}.

(** Source: src/mesh-core/src/reticulum/transport.rs:70-90 (ReticulumNode::new) *)
Definition node_new (pubkey : str) : ReticulumNode :=
  mk_node (from_pubkey pubkey) path_table_new [new_udp (lit "0.0.0.0:4242") true] 0 0 true manager_new ∅ [] [] false.

Definition set_table (n : ReticulumNode) t := mk_node (n_destination n) t (interfaces n) (rx_count n) (tx_count n)
  (running n) (link_manager n) (peers n) (delivered n) (seen_data n) (has_socket n).
Definition set_manager (n : ReticulumNode) m := mk_node (n_destination n) (path_table n) (interfaces n) (rx_count n)
  (tx_count n) (running n) m (peers n) (delivered n) (seen_data n) (has_socket n).
Definition set_interfaces (n : ReticulumNode) i := mk_node (n_destination n) (path_table n) i (rx_count n)
  (tx_count n) (running n) (link_manager n) (peers n) (delivered n) (seen_data n) (has_socket n).
Definition set_queues (n : ReticulumNode) d s := mk_node (n_destination n) (path_table n) (interfaces n) (rx_count n)
  (tx_count n) (running n) (link_manager n) (peers n) d s (has_socket n).
Definition set_rx (n : ReticulumNode) rx p := mk_node (n_destination n) (path_table n) (interfaces n) rx
  (tx_count n) (running n) (link_manager n) p (delivered n) (seen_data n) (has_socket n).
Definition set_tx (n : ReticulumNode) tx := mk_node (n_destination n) (path_table n) (interfaces n) (rx_count n)
  tx (running n) (link_manager n) (peers n) (delivered n) (seen_data n) (has_socket n).

Abbreviation sends := (list (SocketAddr * list Z)).

(** The datagrams of a re-broadcast: the packet with one more hop, to every
    known peer but the source.
    Source: src/mesh-core/src/reticulum/transport.rs:226-241 (ReticulumNode::start_udp_transport, forward) *)
Definition forward (n : ReticulumNode) (src : SocketAddr) (pkt : ReticulumPacket) : sends :=
  if (hops pkt <? MAX_HOPS)%Z then
    let fwd := (increment_hops_in_place pkt).1 in
    let known := filter (λ p, p ≠ src) (elements (peers n)) in
    let fwd_bytes := slip_encode (to_bytes fwd) in
    (λ p, (p, fwd_bytes)) <$> known
  else [].

(** Source: src/mesh-core/src/reticulum/transport.rs:202-243 (ReticulumNode::start_udp_transport, Data) *)
Definition handle_data (n : ReticulumNode) (src : SocketAddr) (pkt : ReticulumPacket) : ReticulumNode * sends :=
  if (zlen (payload pkt) <=? MAX_DATA_PAYLOAD)%Z then
    let '(seen, fresh) := record_seen (seen_data n) (blake3_hex (payload pkt)) in
    if (fresh : bool) then
      let dq :=
        if is_broadcast (destination pkt) || bool_decide (destination pkt = n_destination n)
        then push_bounded MAX_DELIVERED (delivered n) (payload pkt) else delivered n in
      let n := set_queues n dq seen in
      (n, forward n src pkt)
    else (n, [])
  else (n, []).

(** Source: src/mesh-core/src/reticulum/transport.rs:247-290 (ReticulumNode::start_udp_transport, Announce) *)
Definition handle_announce (n : ReticulumNode) (now : Z) (src : SocketAddr) (pkt : ReticulumPacket)
    : option (ReticulumNode * sends) :=
  let next_hop :=
    if (hops pkt =? 0)%Z then destination pkt else from_aspect (lit "reticulum.peer") (addr_string src) in
  '(table, _) ← update_route (path_table n) (destination pkt) next_hop (hops pkt) now;
  let n := set_table n table in
  let '(seen, fresh) := record_seen (seen_data n) (blake3_hex (to_bytes pkt)) in
  if (fresh : bool) then
    let n := set_queues n (delivered n) seen in
    Some (n, forward n src pkt)
  else Some (n, []).

(** Source: src/mesh-core/src/reticulum/transport.rs:291-331 (ReticulumNode::start_udp_transport, LinkRequest) *)
Definition handle_link_request_packet (n : ReticulumNode) (now : Z) (src : SocketAddr) (pkt : ReticulumPacket)
    (r : kem_rng) : ReticulumNode * sends :=
  if bool_decide (destination pkt = n_destination n) then
    let sender_dest :=
      if (17 <? length (payload pkt)) && (nth 0 (payload pkt) 0 =? LINK_REQUEST_PQC_SENDER)%Z
      then take 16 (drop 1 (payload pkt))
      else from_aspect (lit "reticulum.peer") (addr_string src) in
    match handle_link_request_with_own_dest (link_manager n) now (Some (n_destination n)) sender_dest (payload pkt) r with
    | (m, Ok proof_pkt) => (set_manager n m, [(src, slip_encode (to_bytes proof_pkt))])
    | (m, Err _) => (set_manager n m, [])
    end
  else (n, forward n src pkt).

(** Source: src/mesh-core/src/reticulum/transport.rs:332-351 (ReticulumNode::start_udp_transport, Proof) *)
Definition handle_proof_packet (n : ReticulumNode) (now : Z) (order : list (list Z)) (src : SocketAddr)
    (pkt : ReticulumPacket) : ReticulumNode * sends :=
  if bool_decide (destination pkt = n_destination n) then
    (set_manager n (handle_link_proof (link_manager n) now order (destination pkt) (payload pkt)).1, [])
  else (n, forward n src pkt).

(** Source: src/mesh-core/src/reticulum/transport.rs:189-364 (ReticulumNode::start_udp_transport, packet) *)
Definition handle_packet (n : ReticulumNode) (now : Z) (order : list (list Z)) (r : kem_rng)
    (src : SocketAddr) (pkt : ReticulumPacket) : option (ReticulumNode * sends) :=
  let known := if (zsize (peers n) <? MAX_PEERS)%Z then {[ src ]} ∪ peers n else peers n in
  let n := set_rx n (rx_count n + 1) known in
  '(n, out) ←
    match packet_type pkt with
    | Data => Some (handle_data n src pkt)
    | Announce => handle_announce n now src pkt
    | LinkRequest => Some (handle_link_request_packet n now src pkt r)
    | Proof_ => Some (handle_proof_packet n now order src pkt)
    end;
  let n := set_manager n (update_activity (link_manager n) now (destination pkt)) in
  Some (set_interfaces n (update_unicast count_rx (interfaces n)), out).

(** One datagram from the socket.
    Source: src/mesh-core/src/reticulum/transport.rs:181-189 (ReticulumNode::start_udp_transport, receive) *)
Definition handle_datagram (n : ReticulumNode) (now : Z) (order : list (list Z)) (r : kem_rng)
    (src : SocketAddr) (datagram : bytes) : option (ReticulumNode * sends) :=
  if negb (is_private src) then Some (n, [])
  else
    match slip_decode (take RECV_BUFFER datagram) with
    | Err _ => Some (n, [])
    | Ok packet_data =>
        match from_bytes packet_data with
        | Err _ => Some (n, [])
        | Ok pkt => handle_packet n now order r src pkt
        end
    end.

(** The loop's maintenance: the node and the new time of the last prune.
    Source: src/mesh-core/src/reticulum/transport.rs:172-179 (ReticulumNode::start_udp_transport, prune) *)
Definition maintain (n : ReticulumNode) (now last_prune : Z) : ReticulumNode * Z :=
  if (ROUTE_PRUNE_INTERVAL_SECS <=? sat_sub now last_prune)%Z
  then (set_table n (prune_expired (path_table n) now).1, now) else (n, last_prune).

(** A send that reaches the socket; a failing one returns an error.
    Source: src/mesh-core/src/reticulum/transport.rs:402-432 (ReticulumNode::send_packet) *)
Definition send_packet (n : ReticulumNode) (dest_addr : SocketAddr) (pkt : ReticulumPacket) (sent : bool)
    : ReticulumNode * may_fail (SocketAddr * list Z) :=
  if negb (has_socket n) then (n, err "UDP transport not started")
  else if negb sent then (n, err "UDP send failed")
  else
    let n := set_tx n (tx_count n + 1) in
    (set_interfaces n (update_unicast count_tx (interfaces n)), Ok (dest_addr, slip_encode (to_bytes pkt))).

(** Source: src/mesh-core/src/reticulum/transport.rs:461-471 (ReticulumNode::known_peers) *)
Definition known_peers (n : ReticulumNode) : list SocketAddr := sort_addrs (elements (peers n)).

(** Source: src/mesh-core/src/reticulum/transport.rs:474-476 (ReticulumNode::peers_count) *)
Definition peers_count (n : ReticulumNode) : nat := size (peers n).

(** The outcome of each send is an argument.
    Source: src/mesh-core/src/reticulum/transport.rs:435-452 (ReticulumNode::broadcast_data) *)
Definition broadcast_data (n : ReticulumNode) (p : bytes) (sent : SocketAddr → bool)
    : ReticulumNode * sends * nat :=
  if (MAX_DATA_PAYLOAD <? zlen p)%Z then (n, [], 0)
  else
    let known := known_peers n in
    match known with
    | [] => (n, [], 0)
    | _ =>
        let pkt := packet_new broadcast_address Data p in
        let '(n, out) :=
          foldl (λ '(n, out) peer,
            match send_packet n peer pkt (sent peer) with
            | (n, Ok d) => (n, out ++ [d])
            | (n, Err _) => (n, out)
            end) (n, []) known in
        (n, out, length known)
    end.

(** Source: src/mesh-core/src/reticulum/transport.rs:455-458 (ReticulumNode::drain_delivered) *)
Definition drain_delivered (n : ReticulumNode) : ReticulumNode * list (list Z) :=
  (set_queues n [] (seen_data n), delivered n).

(** Source: src/mesh-core/src/reticulum/transport.rs:479-485 (ReticulumNode::send_data_to) *)
Definition send_data_to (n : ReticulumNode) (peer : SocketAddr) (p : bytes) (sent : bool)
    : ReticulumNode * may_fail (SocketAddr * list Z) :=
  if (MAX_DATA_PAYLOAD <? zlen p)%Z then (n, err "Data payload exceeds 256 KiB cap")
  else send_packet n peer (packet_new (n_destination n) Data p) sent.

(** Source: src/mesh-core/src/reticulum/transport.rs:510-520 (ReticulumNode::create_announce) *)
Definition create_announce (n : ReticulumNode) (aspect : option (list Z)) : ReticulumNode * ReticulumPacket :=
  (set_tx n (tx_count n + 1),
   packet_new (n_destination n) Announce (n_destination n ++ default [] aspect)).

(** Source: src/mesh-core/src/reticulum/transport.rs:526-564 (ReticulumNode::process_packet) *)
Definition process_packet (n : ReticulumNode) (now : Z) (pkt : ReticulumPacket)
    : option (ReticulumNode * option ReticulumPacket) :=
  let n := set_rx n (rx_count n + 1) (peers n) in
  n ←
    if bool_decide (packet_type pkt = Announce) then
      let next_hop :=
        if (hops pkt =? 0)%Z then destination pkt
        else from_aspect (lit "reticulum.peer") (to_hex (destination pkt)) in
      '(table, _) ← update_route (path_table n) (destination pkt) next_hop (hops pkt) now;
      Some (set_table n table)
    else Some n;
  if negb (bool_decide (destination pkt = n_destination n)) then
    if bool_decide (packet_type pkt = Data) then
      if (MAX_DATA_PAYLOAD <? zlen (payload pkt))%Z then Some (n, None)
      else
        let '(seen, fresh) := record_seen (seen_data n) (blake3_hex (payload pkt)) in
        if negb fresh then Some (n, None)
        else Some (set_queues n (delivered n) seen, increment_hops pkt)
    else Some (n, increment_hops pkt)
  else Some (n, None).

(** ** Bounds *)

Record wf_node (n : ReticulumNode) : Prop := {
  wn_peers : (zsize (peers n) ≤ MAX_PEERS)%Z;
  wn_seen : (zlen (seen_data n) ≤ MAX_SEEN_DATA)%Z;
  wn_seen_nodup : NoDup (seen_data n);
  wn_delivered : (zlen (delivered n) ≤ MAX_DELIVERED)%Z;
  wn_table : wf_table (path_table n);
  wn_manager : wf_manager (link_manager n)
}.

Lemma record_seen_spec seen digest :
  NoDup seen → (zlen seen ≤ MAX_SEEN_DATA)%Z →
  NoDup (record_seen seen digest).1 ∧ (zlen (record_seen seen digest).1 ≤ MAX_SEEN_DATA)%Z ∧
  digest ∈ (record_seen seen digest).1 ∧
  (record_seen seen digest).2 = bool_decide (digest ∉ seen).
Proof.
  intros Hnd Hlen. unfold record_seen. case_bool_decide as Hin; simpl.
  - by rewrite bool_decide_eq_false_2 by tauto.
  - split_and!; [by apply push_bounded_nodup|by apply push_bounded_length|apply push_bounded_in|].
    by rewrite bool_decide_eq_true_2.
Qed.

Lemma set_queues_wf n d s :
  wf_node n → (zlen d ≤ MAX_DELIVERED)%Z → NoDup s → (zlen s ≤ MAX_SEEN_DATA)%Z → wf_node (set_queues n d s).
Proof. intros []; by split. Qed.

Lemma set_manager_wf n m : wf_node n → wf_manager m → wf_node (set_manager n m).
Proof. intros []; by split. Qed.

Lemma handle_data_wf n src pkt : wf_node n → wf_node (handle_data n src pkt).1.
Proof.
  intros Hn. unfold handle_data. destruct (_ <=? _)%Z; [|done].
  destruct (record_seen_spec (seen_data n) (blake3_hex (payload pkt)) (wn_seen_nodup _ Hn) (wn_seen _ Hn))
    as (? & ? & _ & _).
  destruct (record_seen _ _) as [seen fresh]. simpl in *. destruct fresh; [|done].
  apply set_queues_wf; [done| |done|done]. simpl.
  case_match; [|apply Hn]. apply push_bounded_length; [done|apply Hn].
Qed.

Lemma handle_announce_wf n now src pkt n' out :
  wf_node n → handle_announce n now src pkt = Some (n', out) → wf_node n'.
Proof.
  intros Hn. unfold handle_announce. destruct (update_route _ _ _ _ _) as [[t b]|] eqn:Eu; [|done]. simpl.
  pose proof (update_route_wf _ _ _ _ _ _ _ (wn_table _ Hn) Eu) as Ht.
  destruct (record_seen_spec (seen_data n) (blake3_hex (to_bytes pkt)) (wn_seen_nodup _ Hn) (wn_seen _ Hn))
    as (? & ? & _ & _).
  destruct (record_seen _ _) as [seen fresh]. simpl in *. destruct Hn.
  destruct fresh; intros [= <- _]; by split.
Qed.

Lemma handle_packet_wf n now order r src pkt n' out :
  wf_node n → handle_packet n now order r src pkt = Some (n', out) → wf_node n'.
Proof.
  intros Hn. unfold handle_packet. set (n1 := set_rx n _ _).
  assert (Hn1 : wf_node n1).
  { destruct Hn. split; try done. subst n1. cbn [peers set_rx].
    destruct (Z.ltb_spec (zsize (peers n)) MAX_PEERS); [|done].
    pose proof (size_union_alt {[src]} (peers n)) as Hs. rewrite size_singleton in Hs.
    assert (size (peers n ∖ {[src]}) ≤ size (peers n)) by (apply subseteq_size; set_solver). lia. }
  clearbody n1. set (x := match packet_type pkt with Data => _ | _ => _ end).
  assert (Hx : ∀ n2 out', x = Some (n2, out') → wf_node n2).
  { intros n2 out'. subst x. destruct (packet_type pkt).
    - intros [= E]. pose proof (handle_data_wf n1 src pkt Hn1) as Hd. by rewrite E in Hd.
    - by apply handle_announce_wf.
    - unfold handle_link_request_packet. case_bool_decide; [|by intros [= <- _]].
      set (d := if (_ && _) : bool then _ else _).
      pose proof (handle_link_request_wf (link_manager n1) now (Some (n_destination n1)) d (payload pkt) r (wn_manager _ Hn1)).
      destruct (handle_link_request_with_own_dest _ _ _ _ _ _) as [m [|]]; intros [= <- _]; by apply set_manager_wf.
    - unfold handle_proof_packet. case_bool_decide; intros [= <- _]; [|done].
      by apply set_manager_wf, handle_link_proof_wf; [|apply Hn1]. }
  destruct x as [[n2 out']|]; [|done]. simpl. intros [= <- <-].
  pose proof (Hx _ _ eq_refl) as Hn2.
  assert (Hm : wf_manager (update_activity (link_manager n2) now (destination pkt))).
  { eapply manager_step_wf, ms_activity. apply Hn2. }
  destruct Hn2. by split.
Qed.

Lemma handle_datagram_wf n now order r src d n' out :
  wf_node n → handle_datagram n now order r src d = Some (n', out) → wf_node n'.
Proof.
  intros Hn. unfold handle_datagram. destruct (is_private src); simpl; [|by intros [= <- _]].
  destruct (slip_decode _); [|by intros [= <- _]]. destruct (from_bytes _); [|by intros [= <- _]].
  by apply handle_packet_wf.
Qed.

Lemma process_packet_wf n now pkt n' fwd :
  wf_node n → process_packet n now pkt = Some (n', fwd) → wf_node n'.
Proof.
  intros Hn. unfold process_packet. set (n1 := set_rx n _ _).
  assert (Hn1 : wf_node n1) by (destruct Hn; by split). clearbody n1.
  set (x := if bool_decide (packet_type pkt = Announce) then _ else _).
  assert (Hx : ∀ n2, x = Some n2 → wf_node n2).
  { intros n2. subst x. case_bool_decide; [|by intros [= <-]].
    destruct (update_route _ _ _ _ _) as [[t b]|] eqn:Eu; [|done]. simpl. intros [= <-].
    pose proof (update_route_wf _ _ _ _ _ _ _ (wn_table _ Hn1) Eu). destruct Hn1. by split. }
  destruct x as [n2|]; [|done]. cbn [mbind option_bind]. pose proof (Hx _ eq_refl) as Hn2.
  destruct (record_seen_spec (seen_data n2) (blake3_hex (payload pkt)) (wn_seen_nodup _ Hn2) (wn_seen _ Hn2))
    as (? & ? & _ & _).
  case_bool_decide; simpl; [by intros [= <- _]|]. case_bool_decide; [|by intros [= <- _]].
  destruct (_ <? _)%Z; [by intros [= <- _]|].
  destruct (record_seen _ _) as [seen fresh]. simpl in *.
  destruct fresh; simpl; intros [= <- _]; [|done]. by apply set_queues_wf; [| apply Hn2| |].
Qed.

(** The steps of a node: datagrams, direct packets, maintenance, draining,
    sending, and the link manager's own operations. *)
Inductive node_step : ReticulumNode → ReticulumNode → Prop :=
| ns_datagram n now order r src d n' out : handle_datagram n now order r src d = Some (n', out) → node_step n n'
| ns_process n now pkt n' fwd : process_packet n now pkt = Some (n', fwd) → node_step n n'
| ns_maintain n now last : node_step n (maintain n now last).1
| ns_drain n : node_step n (drain_delivered n).1
| ns_send n d pkt sent : node_step n (send_packet n d pkt sent).1
| ns_announce n asp : node_step n (create_announce n asp).1
| ns_link n m : manager_step (link_manager n) m → node_step n (set_manager n m).

Lemma node_step_wf n n' : wf_node n → node_step n n' → wf_node n'.
Proof.
  intros Hn Hs. destruct Hs.
  - by eapply handle_datagram_wf.
  - by eapply process_packet_wf.
  - unfold maintain. destruct (_ <=? _)%Z; [|done].
    pose proof (prune_expired_wf (path_table n) now (wn_table _ Hn)). destruct Hn. by split.
  - destruct Hn. by split.
  - unfold send_packet. destruct (has_socket n), sent; try done. destruct Hn. by split.
  - destruct Hn. by split.
  - apply set_manager_wf; [done|]. eapply manager_step_wf; [apply Hn|done].
Qed.

(** C14: a node's memory is bounded whatever it receives: at most [MAX_PEERS]
    peers, [MAX_SEEN_DATA] distinct digests, [MAX_DELIVERED] queued payloads,
    a path table of at most [MAX_PATH_TABLE_ROUTES] routes each under its own
    destination, and at most [MAX_PENDING_LINKS] links. *)
Theorem node_bounded (pubkey : str) (n : ReticulumNode) :
  reachable (λ n, n = node_new pubkey) node_step n →
  (zsize (peers n) ≤ MAX_PEERS)%Z ∧
  (zlen (seen_data n) ≤ MAX_SEEN_DATA)%Z ∧ NoDup (seen_data n) ∧
  (zlen (delivered n) ≤ MAX_DELIVERED)%Z ∧
  wf_table (path_table n) ∧ (zsize (links (link_manager n)) ≤ MAX_PENDING_LINKS)%Z.
Proof.
  intros Hr. cut (wf_node n); [intros [? ? ? ? ? []]; done|]. revert n Hr.
  apply (reachable_invariant _ _ wf_node); [|apply node_step_wf].
  intros s ->. split; simpl; try by_leb; [constructor|apply wf_table_new|apply manager_new_wf].
Qed.

(** ** Once per payload *)

(** [d] is in the window, and at most [k] digests entered it later. *)
Definition recent (k : nat) (d : list Z) (w : list (list Z)) : Prop := ∃ old new, w = old ++ d :: new ∧ length new ≤ k.

Lemma recent_in k d w : recent k d w → d ∈ w.
Proof. intros (old & new & -> & _). set_solver. Qed.

Lemma recent_push k d w x : recent k d w → (Z.of_nat k + 1 < MAX_SEEN_DATA)%Z → recent (S k) d (push_bounded MAX_SEEN_DATA w x).
Proof.
  intros (old & new & -> & Hk) Hlt. unfold push_bounded. destruct (Z.leb_spec MAX_SEEN_DATA (zlen (old ++ d :: new))) as [Hge|_].
  - destruct old as [|y old]; [cbn [app length] in Hge; lia|]. exists old, (new ++ [x]). cbn [app tail].
    split; [by rewrite <-app_assoc|]. rewrite length_app. cbn [length]. lia.
  - exists old, (new ++ [x]). split; [by rewrite <-app_assoc|]. rewrite length_app. cbn [length]. lia.
Qed.

(** A step lets at most one digest into the window. *)
Definition window_moves (w w' : list (list Z)) : Prop := w' = w ∨ ∃ x, w' = push_bounded MAX_SEEN_DATA w x.

Lemma record_seen_moves w x : window_moves w (record_seen w x).1.
Proof. unfold record_seen. case_bool_decide; [by left|by right; exists x]. Qed.

Lemma handle_data_moves n src pkt : window_moves (seen_data n) (seen_data (handle_data n src pkt).1).
Proof.
  unfold handle_data. destruct (_ <=? _)%Z; [|by left]. pose proof (record_seen_moves (seen_data n) (blake3_hex (payload pkt))) as Hm.
  destruct (record_seen _ _) as [w [|]]; [done|by left].
Qed.

Lemma handle_packet_moves n now order r src pkt n' out :
  handle_packet n now order r src pkt = Some (n', out) → window_moves (seen_data n) (seen_data n').
Proof.
  unfold handle_packet. set (n1 := set_rx n _ _). change (seen_data n) with (seen_data n1). clearbody n1.
  destruct (packet_type pkt); cbn [mbind option_bind].
  - pose proof (handle_data_moves n1 src pkt) as Hm. destruct (handle_data n1 src pkt) as [n2 o]. by intros [= <- _].
  - unfold handle_announce. destruct (update_route _ _ _ _ _) as [[t b]|]; [|done]. cbn [mbind option_bind].
    pose proof (record_seen_moves (seen_data n1) (blake3_hex (to_bytes pkt))) as Hm. cbn [seen_data set_table] in *.
    destruct (record_seen _ _) as [w [|]]; intros [= <- _]; [done|by left].
  - unfold handle_link_request_packet. case_bool_decide; [|by intros [= <- _]; left].
    destruct (handle_link_request_with_own_dest _ _ _ _ _ _) as [m [|]]; intros [= <- _]; by left.
  - unfold handle_proof_packet. case_bool_decide; intros [= <- _]; by left.
Qed.

Lemma node_step_moves n n' : node_step n n' → window_moves (seen_data n) (seen_data n').
Proof.
  intros Hs. destruct Hs as [n now order r src d n' out Hd|n now pkt n' fwd Hd|n now last|n|n d pkt sent|n asp|n m Hm].
  - revert Hd. unfold handle_datagram. destruct (negb _); [by intros [= <- _]; left|].
    destruct (slip_decode _); [|by intros [= <- _]; left]. destruct (from_bytes _); [|by intros [= <- _]; left]. apply handle_packet_moves.
  - revert Hd. unfold process_packet. set (n1 := set_rx n _ _). change (seen_data n) with (seen_data n1). clearbody n1.
    set (x := if bool_decide (packet_type pkt = Announce) then _ else _).
    assert (Hx : ∀ n2, x = Some n2 → seen_data n2 = seen_data n1).
    { intros n2. subst x. case_bool_decide; [|by intros [= <-]]. by destruct (update_route _ _ _ _ _) as [[t b]|]; [intros [= <-]|]. }
    destruct x as [n2|]; [|done]. cbn [mbind option_bind]. rewrite <-(Hx n2) by done.
    case_bool_decide; simpl; [by intros [= <- _]; left|]. case_bool_decide; [|by intros [= <- _]; left].
    destruct (_ <? _)%Z; [by intros [= <- _]; left|]. pose proof (record_seen_moves (seen_data n2) (blake3_hex (payload pkt))) as Hm.
    destruct (record_seen _ _) as [w [|]]; simpl; intros [= <- _]; [done|by left].
  - unfold maintain. destruct (_ <=? _)%Z; by left.
  - by left.
  - unfold send_packet. destruct (has_socket n), sent; by left.
  - by left.
  - by left.
Qed.

Lemma nsteps_recent k j d n n' :
  recent j d (seen_data n) → (Z.of_nat (j + k) < MAX_SEEN_DATA)%Z → nsteps node_step k n n' → recent (j + k) d (seen_data n').
Proof.
  intros Hr Hlt Hs. revert j Hr Hlt. induction Hs as [n|k n1 n2 n3 Hstep Hs IH]; intros j Hr Hlt; [by rewrite Nat.add_0_r|].
  replace (j + S k) with (S j + k) by lia. apply IH; [|lia]. destruct (node_step_moves _ _ Hstep) as [->|[x ->]].
  - destruct Hr as (old & new & -> & Hl). exists old, new. split; [done|lia].
  - apply recent_push; [done|lia].
Qed.

Lemma handle_packet_data n now order r src pkt n' out :
  packet_type pkt = Data → handle_packet n now order r src pkt = Some (n', out) →
  let n1 := set_rx n (rx_count n + 1) (if (zsize (peers n) <? MAX_PEERS)%Z then {[ src ]} ∪ peers n else peers n) in
  out = (handle_data n1 src pkt).2 ∧ delivered n' = delivered (handle_data n1 src pkt).1 ∧ seen_data n' = seen_data (handle_data n1 src pkt).1.
Proof.
  intros Ht Hh. cbv zeta. unfold handle_packet in Hh. rewrite Ht in Hh. cbn [mbind option_bind] in Hh.
  destruct (handle_data _ _ _) as [n2 o] eqn:E in Hh. rewrite E. injection Hh as <- <-. done.
Qed.

(** C15: a Data payload that is not in the window is handled once: the packet
    that brings it is delivered exactly when it is addressed to the node or to
    all, and goes on to the peers known before but its source, once each, while
    hops remain; and whatever happens to the node in the next steps, fewer than
    the 4096 digests the window holds, a further packet with that payload, from
    whatever source and with whatever header, is neither delivered nor
    forwarded. *)
Theorem data_handled_once (n n1 : ReticulumNode) now order r (src : SocketAddr) (pkt : ReticulumPacket) out :
  packet_type pkt = Data → (zlen (payload pkt) ≤ MAX_DATA_PAYLOAD)%Z → blake3_hex (payload pkt) ∉ seen_data n →
  handle_packet n now order r src pkt = Some (n1, out) →
  delivered n1 =
    (if is_broadcast (destination pkt) || bool_decide (destination pkt = n_destination n)
     then push_bounded MAX_DELIVERED (delivered n) (payload pkt) else delivered n) ∧
  NoDup out.*1 ∧ (∀ p, p ∈ out.*1 ↔ p ∈ peers n ∧ p ≠ src ∧ (hops pkt < MAX_HOPS)%Z) ∧
  ∀ k n2 now' order' r' src' pkt' n3 out',
    nsteps node_step k n1 n2 → (Z.of_nat k < MAX_SEEN_DATA)%Z → packet_type pkt' = Data → payload pkt' = payload pkt →
    handle_packet n2 now' order' r' src' pkt' = Some (n3, out') → delivered n3 = delivered n2 ∧ out' = [].
Proof.
  intros Hd Hlen Hnew (-> & Hdel & Hseen)%handle_packet_data; [|done].
  set (known := if (zsize (peers n) <? MAX_PEERS)%Z then {[ src ]} ∪ peers n else peers n) in *.
  assert (Hknown : ∀ p, p ∈ known ∧ p ≠ src ↔ p ∈ peers n ∧ p ≠ src) by (intros p; subst known; destruct (_ <? _)%Z; set_solver).
  clearbody known.
  unfold handle_data in Hdel, Hseen |- *. rewrite (proj2 (Z.leb_le _ _) Hlen) in Hdel, Hseen |- *. unfold record_seen in Hdel, Hseen |- *.
  cbn [seen_data set_rx] in Hdel, Hseen |- *. rewrite (bool_decide_eq_false_2 _ Hnew) in Hdel, Hseen |- *.
  cbn [fst snd delivered seen_data set_queues] in *. split; [exact Hdel|]. split_and!.
  - unfold forward. destruct (hops pkt <? MAX_HOPS)%Z; [|constructor]. rewrite <-list_fmap_compose. erewrite (list_fmap_ext _ id) by done. rewrite list_fmap_id.
    apply list.NoDup_filter, NoDup_elements.
  - intros p. unfold forward. destruct (Z.ltb_spec (hops pkt) MAX_HOPS) as [Hh|Hh]; [|split; [by intros ?%elem_of_nil|lia]].
    rewrite <-list_fmap_compose. erewrite (list_fmap_ext _ id) by done. rewrite list_fmap_id, list_elem_of_filter, elem_of_elements.
    cbn [peers set_rx set_queues]. specialize (Hknown p). tauto.
  - intros k n2 now' order' r' src' pkt' n3 out' Hs Hk Hd' Hp Hh.
    assert (Hrec : recent 0 (blake3_hex (payload pkt)) (seen_data n1)).
    { rewrite Hseen. unfold push_bounded. destruct (_ <=? _)%Z; eexists _, []; (split; [done|cbn; lia]). }
    pose proof (recent_in _ _ _ (nsteps_recent k 0 _ n1 n2 Hrec ltac:(cbn; lia) Hs)) as Hin.
    apply handle_packet_data in Hh as (-> & -> & _); [|done]. unfold handle_data. rewrite Hp, (proj2 (Z.leb_le _ _) Hlen). unfold record_seen.
    cbn [seen_data set_rx]. by rewrite bool_decide_eq_true_2.
Qed.

(** ** Re-broadcast *)

(** C16: a re-broadcast never returns to the source, goes to known peers only,
    and carries the same packet with one more hop: each datagram sent decodes
    and parses to it, and the hop count never passes [MAX_HOPS], so a packet
    is forwarded along any path at most [MAX_HOPS] times. *)
Theorem forward_spec (n : ReticulumNode) (src peer : SocketAddr) (pkt : ReticulumPacket) (datagram : bytes) :
  wf_packet pkt → (zlen (payload pkt) ≤ 30000)%Z →
  (peer, datagram) ∈ forward n src pkt →
  peer ≠ src ∧ peer ∈ peers n ∧
  ∃ d fwd, slip_decode datagram = Ok d ∧ from_bytes d = Ok fwd ∧
    fwd = mk_packet (flags pkt) (hops pkt + 1) (destination pkt) (packet_type pkt) (payload pkt) ∧
    (hops fwd ≤ MAX_HOPS)%Z.
Proof.
  intros Hwf Hlen. unfold forward. destruct (Z.ltb_spec (hops pkt) MAX_HOPS) as [Hh|]; [|by intros ?%elem_of_nil].
  intros (p & [= -> ->] & [Hne Hin%elem_of_elements]%list_elem_of_filter)%list_elem_of_fmap.
  split; [done|]. split; [done|].
  unfold increment_hops_in_place. rewrite (proj2 (Z.leb_gt _ _)) by done. cbn [fst].
  set (fwd := mk_packet _ _ _ _ _).
  assert (Hwf' : wf_packet fwd).
  { destruct Hwf as [? Hb ? ?]. split; try done. unfold is_byte, MAX_HOPS in *. simpl. lia. }
  exists (to_bytes fwd), fwd. split; [|split; [|split; [done|]]].
  - apply slip_decode_encode.
    rewrite to_bytes_length by apply Hwf'. simpl. lia.
  - apply packet_parses; [done|]. simpl. unfold MAX_HOPS in *. lia.
  - simpl. unfold MAX_HOPS in *. lia.
Qed.

(** ** Link requests do not fit the receive buffer *)

Context {PL : PrimitiveLaws} {KL : KemLaws}.

Lemma slip_escape_ge b : 1 ≤ length (slip_escape b).
Proof. unfold slip_escape. destruct (_ =? _)%Z; [simpl; lia|]. destruct (_ =? _)%Z; simpl; lia. Qed.

Lemma slip_encode_ge d : length d ≤ length (slip_encode d).
Proof.
  unfold slip_encode. rewrite !length_app.
  assert (length d ≤ length (d ≫= slip_escape)); [|lia]. induction d as [|b d IH]; [done|].
  rewrite bind_cons, length_app. pose proof (slip_escape_ge b). cbn [length]. lia.
Qed.

(** A link request never survives the receive buffer: the hybrid public
    key alone is 2,434 characters, so the datagram of every request a node
    creates is longer than the 2,048 bytes the receiver reads. *)
Theorem link_request_truncated (m m' : LinkManager) (now : Z) (s : option (list Z)) (dest : address)
    (r : kem_rng) (pkt : ReticulumPacket) :
  request_link_from m now s dest r = (m', Ok pkt) → RECV_BUFFER < length (slip_encode (to_bytes pkt)).
Proof.
  unfold request_link_from. destruct (_ <=? _)%Z; [done|].
  destruct (begin_handshake _ _ _ _ _) as [c [own|e]] eqn:E; [|done]. intros [= _ <-].
  apply begin_handshake_ok in E as (sk & Hk & _). apply keygen_pair in Hk as (b & -> & _ & Hb)%pair_pk.
  pose proof (slip_encode_ge (to_bytes (packet_new dest LinkRequest
    (match s with Some snd => [LINK_REQUEST_PQC_SENDER] ++ snd | None => [LINK_REQUEST_PQC] end ++ hex_encode b)))) as Hl.
  eapply Nat.lt_le_trans; [|exact Hl]. unfold to_bytes. cbn [payload packet_new].
  rewrite !length_app, hex_length, Hb. unfold RECV_BUFFER.
  assert (2048 < 2 * HYBRID_PK_LEN) by (apply Nat.ltb_lt; vm_compute; reflexivity). lia.
Qed.
End transport.

(** ** A concrete node *)

#[local] Existing Instances Toy.primitives Toy.primitive_laws ToyJson.header_json.

(** Socket addresses are numbers, private below 100. *)
Definition w_addr_string (a : nat) : str := print_u64 (Z.of_nat a).
Definition w_private (a : nat) : bool := a <? 100.

Definition w_node : ReticulumNode (SocketAddr := nat) := node_new (lit "npub").
Definition w_data : ReticulumPacket := packet_new broadcast_address Data (lit "hello mesh").
Definition w_datagram : bytes := slip_encode (to_bytes w_data).

Definition w_received : option (ReticulumNode (SocketAddr := nat) * list (nat * list Z)) :=
  '(n, _) ← handle_datagram w_addr_string w_private id w_node 100 [] (w_rng 1) 7 (slip_encode (to_bytes sample_packet));
  handle_datagram w_addr_string w_private id n 101 [] (w_rng 1) 8 w_datagram.

Definition w_after : ReticulumNode (SocketAddr := nat) :=
  match w_received with Some (n, _) => n | None => w_node end.

Lemma w_after_reachable :
  reachable (λ n, n = node_new (lit "npub")) (node_step w_addr_string w_private id) w_after.
Proof.
  eapply reachable_step; [eapply reachable_step; [by apply reachable_init|]|].
  - eapply (ns_datagram _ _ _ w_node 100 [] (w_rng 1) 7 (slip_encode (to_bytes sample_packet))). reflexivity.
  - eapply (ns_datagram _ _ _ _ 101 [] (w_rng 1) 8 w_datagram). vm_compute. reflexivity.
Qed.

Lemma node_bounded_witness : (zlen (delivered w_after) ≤ MAX_DELIVERED)%Z ∧ delivered w_after = [lit "hello mesh"].
Proof.
  destruct (node_bounded w_addr_string w_private id (lit "npub") w_after w_after_reachable)
    as (_ & _ & _ & H & _).
  split; [exact H|]. vm_compute. reflexivity.
Defined.

(** The greeting is delivered; a while later another peer repeats it. *)
Lemma data_handled_once_witness :
  match handle_packet w_addr_string id w_node 100 [] (w_rng 1) 7 w_data with
  | Some (n1, out) => delivered n1 = [lit "hello mesh"] ∧
      ∀ n3 out', handle_packet w_addr_string id (drain_delivered n1).1 300 [] (w_rng 2) 8 w_data = Some (n3, out') → delivered n3 = [] ∧ out' = []
  | None => False
  end.
Proof.
  destruct (handle_packet w_addr_string id w_node 100 [] (w_rng 1) 7 w_data) as [[n1 out]|] eqn:E; [|by vm_compute in E].
  destruct (data_handled_once w_addr_string w_private id w_node n1 100 [] (w_rng 1) 7 w_data out) as (Hd & _ & _ & Hlater); [done|by_leb|apply not_elem_of_nil|exact E|].
  split; [rewrite Hd; by vm_compute|]. intros n3 out' Hh.
  apply (Hlater 1 (drain_delivered n1).1 300%Z [] (w_rng 2) 8 w_data n3 out'); [|done|done|done|exact Hh].
  apply nsteps_once, ns_drain.
Defined.

Lemma forward_spec_witness :
  7 ≠ 8 ∧ ∃ d fwd, slip_decode (slip_encode (to_bytes (increment_hops_in_place w_data).1)) = Ok d ∧
    from_bytes d = Ok fwd ∧ hops fwd = 1%Z.
Proof.
  destruct (forward_spec w_after 8 7 w_data (slip_encode (to_bytes (increment_hops_in_place w_data).1)))
    as (H1 & _ & d & fwd & H2 & H3 & -> & _).
  - split; [by split|by split|split; [reflexivity|apply all_bytes_replicate; by split]|apply forallb_bytes; vm_compute; reflexivity].
  - by_leb.
  - vm_compute. left.
  - split; [exact H1|]. eexists d, _. split; [exact H2|]. split; [exact H3|reflexivity].
Defined.

Lemma link_request_truncated_witness :
  RECV_BUFFER < length (slip_encode (to_bytes (unwrap_or w_packet w_request.2))).
Proof.
  apply (link_request_truncated manager_new w_request.1 100 (Some w_own) w_dest (w_rng 1)).
  apply (pair_unwrap_or w_packet w_request). vm_compute. reflexivity.
Defined.
