(* ===== verification/Text.v ===== *)
(** Facts about text that the wire formats rely on: [str::trim] removes whole
    characters, so it keeps valid UTF-8 valid, is idempotent and commutes with
    ASCII lower case. [clean] is the normalisation [trim().to_ascii_lowercase()]
    that the components apply to identifiers. *)

From S2P Require Import Prelude RustStr.

(** ** White-space characters *)

Definition ws1 (b : Z) : bool := between 0x09 0x0D b || (b =? 0x20)%Z.
Definition ws2 (a b : Z) : bool := (a =? 0xC2)%Z && ((b =? 0x85)%Z || (b =? 0xA0)%Z).
Definition ws3 (a b c : Z) : bool :=
  ((a =? 0xE1)%Z && (b =? 0x9A)%Z && (c =? 0x80)%Z)
  || ((a =? 0xE2)%Z && (b =? 0x80)%Z &&
      (between 0x80 0x8A c || (c =? 0xA8)%Z || (c =? 0xA9)%Z || (c =? 0xAF)%Z))
  || ((a =? 0xE2)%Z && (b =? 0x81)%Z && (c =? 0x9F)%Z)
  || ((a =? 0xE3)%Z && (b =? 0x80)%Z && (c =? 0x80)%Z).

Definition ws_char (w : str) : bool :=
  match w with
  | [a] => ws1 a
  | [a; b] => ws2 a b
  | [a; b; c] => ws3 a b c
  | _ => false
  end.

Definition no_lead (l : str) : Prop := ∀ w r, ws_char w = true → l ≠ w ++ r.

Ltac beq := repeat match goal with
  | H : (_ && _)%bool = true |- _ => apply andb_true_iff in H as [? ?]
  | H : (_ || _)%bool = true |- _ => apply orb_true_iff in H as [?|?]
  | H : (_ =? _)%Z = true |- _ => apply Z.eqb_eq in H; subst
  end.

Lemma ws_char_inv w : ws_char w = true →
  (∃ a, w = [a] ∧ ws1 a = true) ∨
  (∃ b, w = [0xC2; b]%Z ∧ ws2 0xC2 b = true) ∨
  (∃ a b c, w = [a; b; c]%Z ∧ ws3 a b c = true ∧ (a = 0xE1 ∨ a = 0xE2 ∨ a = 0xE3)%Z ∧
    cont b = true ∧ cont c = true ∧ (a = 0xE2 ∨ b = 0x9A ∨ b = 0x80)%Z).
Proof.
  destruct w as [|a [|b [|c [|? ?]]]]; try done; cbn [ws_char]; intros H.
  - left. eauto.
  - right; left. exists b. pose proof H as H'. unfold ws2 in H. beq; auto.
  - right; right. exists a, b, c. split; [done|]. split; [done|]. unfold ws3 in H. unfold cont.
    beq; split_and!; try reflexivity; eauto.
    unfold between in *. beq. apply andb_true_iff. rewrite !Z.leb_le in *. lia.
Qed.

Lemma trim_start_ws w r : ws_char w = true → trim_start (w ++ r) = trim_start r.
Proof.
  intros [(a & -> & H)|[(b & -> & H)|(a & b & c & -> & H & Ha & _)]]%ws_char_inv; cbn [app].
  - cbn [trim_start]. unfold ws1 in H. by rewrite H.
  - unfold ws2 in H. cbn [trim_start]. by rewrite H.
  - cbn [trim_start]. fold (ws3 a b c). rewrite H. by destruct Ha as [->|[->| ->]].
Qed.

Lemma trim_start_rev_ws w r : ws_char w = true → trim_start_rev (reverse w ++ r) = trim_start_rev r.
Proof.
  intros [(a & -> & H)|[(b & -> & H)|(a & b & c & -> & H & Ha & Hb & Hc & _)]]%ws_char_inv.
  - cbn. unfold ws1 in H. by rewrite H.
  - change (reverse [0xC2; b]%Z ++ r) with (b :: 0xC2%Z :: r). cbn [trim_start_rev].
    fold (ws1 b). unfold ws2 in H. rewrite H.
    assert (ws1 b = false) as ->; [|done].
    beq; reflexivity.
  - change (reverse [a; b; c] ++ r) with (c :: b :: a :: r). cbn [trim_start_rev].
    fold (ws1 c) (ws2 b c) (ws3 a b c). rewrite H.
    assert (ws1 c = false ∧ ws2 b c = false) as [-> ->]; [|done].
    unfold ws1, ws2, cont, between in *. beq. rewrite Z.leb_le in *.
    split; [|by rewrite (proj2 (Z.eqb_neq b 0xC2)) by lia].
    rewrite (proj2 (Z.leb_gt c 0x0D)), (proj2 (Z.eqb_neq c 0x20)), andb_false_r by lia. done.
Qed.

Lemma trim_start_fix l : no_lead l → trim_start l = l.
Proof.
  intros Hl. destruct l as [|a r]; [done|]. cbn [trim_start]. fold (ws1 a).
  destruct (ws1 a) eqn:E; [by destruct (Hl [a] r)|].
  destruct r as [|b r]; [done|]. fold (ws2 a b).
  destruct (ws2 a b) eqn:E2; [by destruct (Hl [a; b] r)|].
  destruct r as [|c r]; [done|]. fold (ws3 a b c).
  destruct (ws3 a b c) eqn:E3; [by destruct (Hl [a; b; c] r)|done].
Qed.

Lemma trim_start_rev_fix l : (∀ w r, ws_char w = true → l ≠ reverse w ++ r) → trim_start_rev l = l.
Proof.
  intros Hl. destruct l as [|a r]; [done|]. cbn [trim_start_rev]. fold (ws1 a).
  destruct (ws1 a) eqn:E; [by destruct (Hl [a] r)|].
  destruct r as [|b r]; [done|]. fold (ws2 b a).
  destruct (ws2 b a) eqn:E2; [by destruct (Hl [b; a] r)|].
  destruct r as [|c r]; [done|]. fold (ws3 c b a).
  destruct (ws3 c b a) eqn:E3; [by destruct (Hl [c; b; a] r)|done].
Qed.

(** Whether a string starts with a white-space character. *)
Lemma lead_dec l : no_lead l ∨ ∃ w r, ws_char w = true ∧ l = w ++ r.
Proof.
  destruct (existsb (λ n, ws_char (take n l)) [1; 2; 3]) eqn:E.
  - right. apply existsb_exists in E as (n & _ & Hn). exists (take n l), (drop n l). by rewrite take_drop.
  - left. intros w r Hw ->. apply not_true_iff_false in E. apply E, existsb_exists.
    exists (length w). rewrite take_app_length. split; [|done].
    by destruct w as [|? [|? [|? [|? ?]]]]; simpl; auto.
Qed.

Lemma trail_dec l :
  (∀ w r, ws_char w = true → l ≠ reverse w ++ r) ∨ ∃ w r, ws_char w = true ∧ l = reverse w ++ r.
Proof.
  destruct (existsb (λ n, ws_char (reverse (take n l))) [1; 2; 3]) eqn:E.
  - right. apply existsb_exists in E as (n & _ & Hn). exists (reverse (take n l)), (drop n l).
    by rewrite reverse_involutive, take_drop.
  - left. intros w r Hw ->. apply not_true_iff_false in E. apply E, existsb_exists.
    exists (length w). rewrite <-length_reverse, take_app_length, reverse_involutive, length_reverse.
    split; [|done]. by destruct w as [|? [|? [|? [|? ?]]]]; simpl; auto.
Qed.

Lemma ws_char_length w : ws_char w = true → 0 < length w.
Proof. destruct w; simpl; [done|lia]. Qed.

(** ** What trimming does *)

Lemma trim_start_split l :
  ∃ ws, Forall (λ w, ws_char w = true) ws ∧ l = concat ws ++ trim_start l ∧ no_lead (trim_start l).
Proof.
  induction l as [l IH] using (induction_ltof1 _ length).
  destruct (lead_dec l) as [Hl|(w & r & Hw & ->)].
  - exists []. rewrite trim_start_fix by done. done.
  - destruct (IH r) as (ws & Hws & Er & Hr).
    { unfold ltof. rewrite length_app. pose proof (ws_char_length w Hw). lia. }
    exists (w :: ws). rewrite trim_start_ws by done. split; [by constructor|]. split; [|done].
    cbn [concat]. by rewrite <-app_assoc, <-Er.
Qed.

Lemma trim_start_rev_split l :
  ∃ ws, Forall (λ w, ws_char w = true) ws ∧ l = reverse (concat ws) ++ trim_start_rev l ∧
    (∀ w r, ws_char w = true → trim_start_rev l ≠ reverse w ++ r).
Proof.
  induction l as [l IH] using (induction_ltof1 _ length).
  destruct (trail_dec l) as [Hl|(w & r & Hw & ->)].
  - exists []. rewrite trim_start_rev_fix by done. done.
  - destruct (IH r) as (ws & Hws & Er & Hr).
    { unfold ltof. rewrite length_app, length_reverse. pose proof (ws_char_length w Hw). lia. }
    exists (ws ++ [w]). rewrite trim_start_rev_ws by done.
    split; [apply Forall_app; auto|]. split; [|done].
    rewrite concat_app, reverse_app. cbn [concat]. rewrite app_nil_r, <-app_assoc. by rewrite <-Er.
Qed.

Lemma trim_end_split l :
  ∃ ws, Forall (λ w, ws_char w = true) ws ∧ l = trim_end l ++ concat ws ∧
    (∀ w r, ws_char w = true → trim_end l ≠ r ++ w).
Proof.
  unfold trim_end. destruct (trim_start_rev_split (reverse l)) as (ws & Hws & E & Hr).
  exists ws. split; [done|]. split.
  - apply (f_equal reverse) in E. by rewrite reverse_involutive, reverse_app, reverse_involutive in E.
  - intros w r Hw E'. apply (Hr w (reverse r) Hw).
    by rewrite <-(reverse_involutive (trim_start_rev _)), E', reverse_app.
Qed.

Lemma trim_end_fix l : (∀ w r, ws_char w = true → l ≠ r ++ w) → trim_end l = l.
Proof.
  intros Hl. unfold trim_end. rewrite trim_start_rev_fix; [apply reverse_involutive|].
  intros w r Hw E. apply (Hl w (reverse r) Hw).
  by rewrite <-(reverse_involutive l), E, reverse_app, reverse_involutive.
Qed.

Lemma trim_idemp l : trim (trim l) = trim l.
Proof.
  unfold trim. set (m := trim_start l).
  destruct (trim_start_split l) as (_ & _ & _ & Hm). fold m in Hm.
  destruct (trim_end_split m) as (ws & _ & E & Ht).
  rewrite trim_start_fix, trim_end_fix; [done|done|].
  intros w r Hw E'. apply (Hm w (r ++ concat ws) Hw). by rewrite E, E', app_assoc.
Qed.

Lemma trim_length l : length (trim l) ≤ length l.
Proof.
  unfold trim. destruct (trim_start_split l) as (ws & _ & E & _).
  destruct (trim_end_split (trim_start l)) as (ws' & _ & E' & _).
  apply (f_equal length) in E, E'. rewrite length_app in *. lia.
Qed.

(** ** Valid strings are sequences of characters *)

Definition second3 (a b : Z) : bool :=
  if (a =? 0xE0)%Z then between 0xA0 0xBF b
  else if (a =? 0xED)%Z then between 0x80 0x9F b else cont b.
Definition second4 (a b : Z) : bool :=
  if (a =? 0xF0)%Z then between 0x90 0xBF b
  else if (a =? 0xF4)%Z then between 0x80 0x8F b else cont b.

(** The UTF-8 encoding of one character. *)
Definition u8char (w : str) : bool :=
  match w with
  | [a] => between 0 0x7F a
  | [a; b] => between 0xC2 0xDF a && cont b
  | [a; b; c] => between 0xE0 0xEF a && second3 a b && cont c
  | [a; b; c; d] => between 0xF0 0xF4 a && second4 a b && cont c && cont d
  | _ => false
  end.

Lemma between_iff lo hi b : between lo hi b = true ↔ (lo ≤ b ≤ hi)%Z.
Proof. unfold between. by rewrite andb_true_iff, !Z.leb_le. Qed.

Lemma between_false lo hi b : (b < lo ∨ hi < b)%Z → between lo hi b = false.
Proof. intros. apply not_true_iff_false. rewrite between_iff. lia. Qed.

Lemma second3_cont a b : second3 a b = true → cont b = true.
Proof. unfold second3, cont. repeat case_match; rewrite !between_iff; lia. Qed.

Lemma second4_cont a b : second4 a b = true → cont b = true.
Proof. unfold second4, cont. repeat case_match; rewrite !between_iff; lia. Qed.

Lemma utf8_char_app w r : u8char w = true → utf8_valid (w ++ r) = utf8_valid r.
Proof.
  destruct w as [|a [|b [|c [|d [|? ?]]]]]; try done; cbn [u8char app utf8_valid]; intros H.
  - by rewrite H.
  - apply andb_true_iff in H as [Ha Hb]. apply between_iff in Ha as Ha'.
    by rewrite between_false, Ha, Hb by lia.
  - apply andb_true_iff in H as [[Ha Hb]%andb_true_iff Hc]. apply between_iff in Ha as Ha'.
    rewrite (between_false 0 _), (between_false 0xC2 _), Ha, Hc by lia.
    fold (second3 a b). by rewrite Hb.
  - apply andb_true_iff in H as [[[Ha Hb]%andb_true_iff Hc]%andb_true_iff Hd].
    apply between_iff in Ha as Ha'.
    rewrite (between_false 0 _), (between_false 0xC2 _), (between_false 0xE0 _), Ha, Hc, Hd by lia.
    fold (second4 a b). by rewrite Hb.
Qed.

Lemma utf8_valid_inv l : utf8_valid l = true →
  l = [] ∨ ∃ w r, u8char w = true ∧ l = w ++ r ∧ utf8_valid r = true.
Proof.
  destruct l as [|a r0]; [by left|]. right. cbn [utf8_valid] in H.
  destruct (between 0 0x7F a) eqn:Ea; [by exists [a], r0|].
  destruct r0 as [|b r1]; [done|].
  destruct (between 0xC2 0xDF a) eqn:Eb.
  { apply andb_true_iff in H as [? ?]. exists [a; b], r1. cbn. by rewrite Eb. }
  destruct r1 as [|c r2]; [done|]. fold (second3 a b) in H.
  destruct (between 0xE0 0xEF a) eqn:Ec.
  { apply andb_true_iff in H as [[Hb Hc]%andb_true_iff ?]. exists [a; b; c], r2. cbn. by rewrite Ec, Hb, Hc. }
  destruct r2 as [|d r3]; [done|]. fold (second4 a b) in H.
  apply andb_true_iff in H as [H ?]. exists [a; b; c; d], r3. done.
Qed.

(** A character starts with a byte that is no continuation byte, and continues
    with continuation bytes. *)
Lemma u8char_cons w : u8char w = true → ∃ a t, w = a :: t ∧ cont a = false ∧ Forall (λ b, cont b = true) t.
Proof.
  destruct w as [|a [|b [|c [|d [|? ?]]]]]; try done; cbn [u8char]; intros H;
    (exists a; eexists; split; [done|]).
  - apply between_iff in H. split; [apply between_false; lia|done].
  - apply andb_true_iff in H as [Ha%between_iff Hb]. split; [apply between_false; lia|auto].
  - apply andb_true_iff in H as [[Ha%between_iff Hb%second3_cont]%andb_true_iff Hc].
    split; [apply between_false; lia|auto].
  - apply andb_true_iff in H as [[[Ha%between_iff Hb%second4_cont]%andb_true_iff Hc]%andb_true_iff Hd].
    split; [apply between_false; lia|auto].
Qed.

(** A valid string cut before a byte that starts a character gives two valid
    strings. *)
Lemma utf8_split l c r :
  cont c = false → utf8_valid (l ++ c :: r) = true → utf8_valid l = true ∧ utf8_valid (c :: r) = true.
Proof.
  intros Hc. induction l as [l IH] using (induction_ltof1 _ length). unfold ltof in IH. intros Hv.
  destruct l as [|x l]; [done|].
  destruct (utf8_valid_inv _ Hv) as [|(w & r' & Hw & E & Hr')]; [done|].
  destruct (u8char_cons w Hw) as (a & t & -> & _ & Ht).
  destruct (decide (length (a :: t) ≤ length (x :: l))) as [Hle|Hgt].
  - apply app_eq_inv in E as [(k & E1 & E2)|(k & E1 & E2)].
    + rewrite E1. subst r'. destruct (IH k) as [Hk ?]; [|done|].
      { rewrite E1, length_app. simpl. lia. }
      rewrite utf8_char_app by done. done.
    + assert (k = []) as -> by (apply (f_equal length) in E1; rewrite length_app in E1; destruct k; [done|simpl in *; lia]).
      rewrite app_nil_r in E1. cbn [app] in E2. subst r'. rewrite <-E1.
      rewrite <-(app_nil_r (a :: t)), utf8_char_app by done. done.
  - exfalso. cbn [app] in E. injection E as -> E.
    assert (Hin : c ∈ t).
    { apply app_eq_inv in E as [(k & E1 & E2)|(k & E1 & E2)].
      - subst l. cbn [length] in Hgt. rewrite length_app in Hgt. lia.
      - destruct k as [|c' k]; [|injection E2 as -> _; subst t; set_solver].
        rewrite app_nil_r in E1. subst. cbn [length] in Hgt. lia. }
    rewrite Forall_forall in Ht. by rewrite Ht in Hc.
Qed.

Lemma utf8_app l k : utf8_valid l = true → utf8_valid (l ++ k) = utf8_valid k.
Proof.
  induction l as [l IH] using (induction_ltof1 _ length). unfold ltof in IH. intros Hl.
  destruct (utf8_valid_inv _ Hl) as [->|(w & r & Hw & -> & Hr)]; [done|].
  rewrite <-app_assoc, utf8_char_app by done. apply IH; [|done].
  destruct (u8char_cons w Hw) as (a & t & -> & _ & _). rewrite length_app. simpl. lia.
Qed.

(** ** Trimming and lower case keep text valid *)

Lemma ws_char_u8 w : ws_char w = true → u8char w = true.
Proof.
  intros [(a & -> & H)|[(b & -> & H)|(a & b & c & -> & H & Ha & Hb & Hc & _)]]%ws_char_inv; cbn [u8char].
  - unfold ws1 in H. apply between_iff. beq; [apply between_iff in H; lia|lia].
  - unfold ws2 in H. beq; reflexivity.
  - rewrite Hc. unfold ws3 in H. beq; reflexivity.
Qed.

Lemma utf8_ws_concat ws r :
  Forall (λ w, ws_char w = true) ws → utf8_valid (concat ws ++ r) = utf8_valid r.
Proof.
  induction 1 as [|w ws Hw%ws_char_u8 _ IH]; [done|]. cbn [concat]. by rewrite <-app_assoc, utf8_char_app.
Qed.

Lemma trim_valid l : utf8_valid l = true → utf8_valid (trim l) = true.
Proof.
  intros Hl. unfold trim. destruct (trim_start_split l) as (ws & Hws & E & _).
  rewrite E, utf8_ws_concat in Hl by done. revert Hl. generalize (trim_start l). intros m Hm.
  destruct (trim_end_split m) as (ws' & Hws' & E' & _).
  destruct ws' as [|w ws']; [by rewrite app_nil_r in E'; rewrite <-E'|].
  apply Forall_cons in Hws' as [Hw%ws_char_u8 _].
  destruct (u8char_cons w Hw) as (a & t & -> & Ha & _).
  rewrite E' in Hm. cbn [concat app] in Hm. by apply utf8_split in Hm as [? _].
Qed.

Lemma lower_ascii b : (b < 0x41 ∨ 0x5A < b)%Z → to_ascii_lowercase_byte b = b.
Proof. intros. unfold to_ascii_lowercase_byte. by rewrite between_false. Qed.

Lemma cont_lower b : cont (to_ascii_lowercase_byte b) = cont b.
Proof.
  unfold to_ascii_lowercase_byte. destruct (between 0x41 0x5A b) eqn:E; [|done].
  apply between_iff in E. unfold cont. rewrite !between_false by lia. done.
Qed.

(** Continuation bytes and the bytes of a multi-byte white-space character are
    not letters. *)
Lemma lower_cont b : cont b = true → to_ascii_lowercase_byte b = b.
Proof. unfold cont. rewrite between_iff. intros. apply lower_ascii. lia. Qed.

Lemma u8char_lower w : u8char w = true → u8char (to_ascii_lowercase w) = true.
Proof.
  intros Hw. destruct (u8char_cons w Hw) as (a & t & -> & _ & Ht).
  unfold to_ascii_lowercase. rewrite fmap_cons.
  assert (to_ascii_lowercase_byte <$> t = t) as ->.
  { rewrite <-(list_fmap_id t) at 2. apply Forall_fmap_ext_1. eapply Forall_impl; [exact Ht|]. apply lower_cont. }
  destruct t as [|b t]; [|rewrite lower_ascii; [done|]].
  - cbn [u8char] in *. apply between_iff in Hw. unfold to_ascii_lowercase_byte.
    destruct (between 0x41 0x5A a) eqn:E; apply between_iff; [apply between_iff in E|]; lia.
  - destruct t as [|c [|d [|? ?]]]; cbn [u8char] in Hw; beq; try done; rewrite !between_iff in *; lia.
Qed.

Lemma lower_valid l : utf8_valid l = true → utf8_valid (to_ascii_lowercase l) = true.
Proof.
  induction l as [l IH] using (induction_ltof1 _ length). unfold ltof in IH. intros Hl.
  destruct (utf8_valid_inv _ Hl) as [->|(w & r & Hw & -> & Hr)]; [done|].
  unfold to_ascii_lowercase. rewrite fmap_app, utf8_char_app by (by apply u8char_lower).
  apply IH; [|done].
  destruct (u8char_cons w Hw) as (a & t & -> & _ & _). rewrite length_app. simpl. lia.
Qed.

Lemma ws_char_lower w : ws_char (to_ascii_lowercase w) = ws_char w.
Proof.
  assert (Hk : ∀ k b, (k < 0x41 ∨ 0x7A < k)%Z → (to_ascii_lowercase_byte b =? k)%Z = (b =? k)%Z).
  { intros k b Hk. unfold to_ascii_lowercase_byte. destruct (between 0x41 0x5A b) eqn:E; [|done].
    apply between_iff in E. rewrite !(proj2 (Z.eqb_neq _ _)) by lia. done. }
  assert (Hr : ∀ lo hi b, (hi < 0x41 ∨ 0x7A < lo)%Z → between lo hi (to_ascii_lowercase_byte b) = between lo hi b).
  { intros lo hi b Hk'. unfold to_ascii_lowercase_byte. destruct (between 0x41 0x5A b) eqn:E; [|done].
    apply between_iff in E. rewrite !between_false by lia. done. }
  destruct w as [|a [|b [|c [|? ?]]]]; try done; cbn [to_ascii_lowercase fmap list_fmap ws_char];
    unfold ws1, ws2, ws3; rewrite ?Hk, ?Hr by lia; done.
Qed.

Lemma no_lead_lower l : no_lead l → no_lead (to_ascii_lowercase l).
Proof.
  intros Hl w r Hw E. unfold to_ascii_lowercase in E. apply fmap_app_inv in E as (w' & r' & -> & -> & ->).
  apply (Hl w' r'); [|done]. by rewrite <-ws_char_lower.
Qed.

Lemma trim_fix l : no_lead l → (∀ w r, ws_char w = true → l ≠ r ++ w) → trim l = l.
Proof. intros ? ?. unfold trim. by rewrite trim_start_fix, trim_end_fix. Qed.

Lemma trim_shape l : no_lead (trim l) ∧ (∀ w r, ws_char w = true → trim l ≠ r ++ w).
Proof.
  unfold trim. destruct (trim_start_split l) as (_ & _ & _ & Hm). revert Hm.
  generalize (trim_start l). intros m Hm.
  destruct (trim_end_split m) as (ws & _ & E & Ht). split; [|done].
  intros w r Hw E'. apply (Hm w (r ++ concat ws) Hw). by rewrite E, E', app_assoc.
Qed.

(** ** The normalisation of identifiers *)

Definition clean (s : str) : str := to_ascii_lowercase (trim s).

Lemma clean_idemp s : clean (clean s) = clean s.
Proof.
  unfold clean. destruct (trim_shape s) as [Hl Ht].
  rewrite (trim_fix (to_ascii_lowercase (trim s))); [apply to_ascii_lowercase_idemp|by apply no_lead_lower|].
  intros w r Hw E. unfold to_ascii_lowercase in E.
  apply fmap_app_inv in E as (r' & w' & -> & -> & E). apply (Ht w' r'); [|done]. by rewrite <-ws_char_lower.
Qed.

Lemma trim_start_lower l : trim_start (to_ascii_lowercase l) = to_ascii_lowercase (trim_start l).
Proof.
  induction l as [l IH] using (induction_ltof1 _ length). destruct (lead_dec l) as [Hl|(w & r & Hw & ->)].
  - rewrite !trim_start_fix; [done..|by apply no_lead_lower].
  - unfold to_ascii_lowercase at 1. rewrite fmap_app, !trim_start_ws by (done || by rewrite ws_char_lower).
    apply IH. unfold ltof. rewrite length_app. pose proof (ws_char_length w Hw). lia.
Qed.

Lemma trim_start_rev_lower l : trim_start_rev (to_ascii_lowercase l) = to_ascii_lowercase (trim_start_rev l).
Proof.
  induction l as [l IH] using (induction_ltof1 _ length). destruct (trail_dec l) as [Hl|(w & r & Hw & ->)].
  - rewrite !trim_start_rev_fix; [done..|]. intros w r Hw E. unfold to_ascii_lowercase in E.
    apply fmap_app_inv in E as (w' & r' & E & -> & ->). apply (Hl (reverse w') r'); [|by rewrite reverse_involutive].
    rewrite <-(reverse_involutive w), E, <-fmap_reverse in Hw. by rewrite <-ws_char_lower.
  - unfold to_ascii_lowercase at 1. rewrite fmap_app, fmap_reverse, !trim_start_rev_ws by (done || by rewrite ws_char_lower).
    apply IH. unfold ltof. rewrite length_app, length_reverse. pose proof (ws_char_length w Hw). lia.
Qed.

Lemma trim_lower s : trim (to_ascii_lowercase s) = to_ascii_lowercase (trim s).
Proof.
  unfold trim, trim_end. rewrite trim_start_lower. unfold to_ascii_lowercase at 1.
  rewrite <-fmap_reverse. fold (to_ascii_lowercase (reverse (trim_start s))). rewrite trim_start_rev_lower.
  unfold to_ascii_lowercase. by rewrite <-fmap_reverse.
Qed.

(** The normal form does not depend on the case. *)
Lemma clean_lower s : clean (to_ascii_lowercase s) = clean s.
Proof. unfold clean. rewrite trim_lower. apply to_ascii_lowercase_idemp. Qed.

Lemma clean_ignores_case a b : eq_ignore_ascii_case a b = true → clean a = clean b.
Proof. intros E%eq_ignore_ascii_case_true. by rewrite <-(clean_lower a), <-(clean_lower b), E. Qed.

Lemma clean_length s : length (clean s) ≤ length s.
Proof. unfold clean, to_ascii_lowercase. rewrite length_fmap. apply trim_length. Qed.

Lemma clean_valid s : utf8_valid s = true → utf8_valid (clean s) = true.
Proof. intros. unfold clean. by apply lower_valid, trim_valid. Qed.

(** Visible text without capitals is its own normal form. *)
Lemma clean_visible s : Forall visible s → to_ascii_lowercase s = s → clean s = s.
Proof. intros. unfold clean. by rewrite trim_visible. Qed.

(** Valid text consists of bytes. *)
Lemma utf8_bytes l : utf8_valid l = true → all_bytes l.
Proof.
  induction l as [l IH] using (induction_ltof1 _ length). unfold ltof in IH. intros Hl.
  destruct (utf8_valid_inv _ Hl) as [->|(w & r & Hw & -> & Hr)]; [constructor|].
  destruct (u8char_cons w Hw) as (a & t & -> & _ & Ht).
  apply all_bytes_app. split; [|apply IH; [rewrite length_app; simpl; lia|done]].
  constructor.
  - destruct t as [|b [|c [|d [|? ?]]]]; cbn [u8char] in Hw; beq; try done; rewrite !between_iff in *;
      unfold is_byte; lia.
  - eapply Forall_impl; [exact Ht|]. unfold cont, is_byte. intros b ?%between_iff. lia.
Qed.
