(* ===== verification/Envelope.v ===== *)
(** The envelope that carries signed events over the mesh
    (src/relay-core/src/envelope.rs): construction, the hop counter, the binary
    encoder and the parser of hostile input. *)

From S2P Require Import Prelude RustStr Text.

(** Source: src/relay-core/src/envelope.rs:10-10 (MAGIC) *)
Definition MAGIC : bytes := lit "sos1".
(** Source: src/relay-core/src/envelope.rs:12-12 (ENVELOPE_VERSION) *)
Definition ENVELOPE_VERSION : Z := 1.
(** Source: src/relay-core/src/envelope.rs:14-14 (MAX_HOP_COUNT) *)
Definition MAX_HOP_COUNT : Z := 6.
(** Source: src/relay-core/src/envelope.rs:16-16 (MAX_PAYLOAD_BYTES) *)
Definition MAX_PAYLOAD_BYTES : Z := 256 * 1024.
(** Source: src/relay-core/src/envelope.rs:18-18 (MAX_ENVELOPE_BYTES) *)
Definition MAX_ENVELOPE_BYTES : Z := MAX_PAYLOAD_BYTES + 512.

(** Source: src/relay-core/src/envelope.rs:22-30 (MeshEnvelope) *)
Record MeshEnvelope := mk_env {
  version : Z;
  hop_count : Z;
  event_id : list Z;
  kind : Z;
  author : list Z;
  created_at : Z;
  payload : list Z
}.

#[export] Instance envelope_eq_dec : EqDecision MeshEnvelope.
Proof. solve_decision. Defined.

(** Source: src/relay-core/src/envelope.rs:34-50 (MeshEnvelope::new) *)
Definition envelope_new (event_id : str) (kind : Z) (author : str) (created_at : Z) (payload : bytes) : MeshEnvelope :=
  mk_env ENVELOPE_VERSION 0 (to_ascii_lowercase (trim event_id)) kind (to_ascii_lowercase (trim author))
    created_at payload.

(** Source: src/relay-core/src/envelope.rs:53-55 (MeshEnvelope::at_hop_limit) *)
Definition at_hop_limit (e : MeshEnvelope) : bool := (MAX_HOP_COUNT <=? hop_count e)%Z.

(** The updated envelope and the returned flag.
    Source: src/relay-core/src/envelope.rs:58-65 (MeshEnvelope::increment_hop_in_place) *)
Definition increment_hop_in_place (e : MeshEnvelope) : MeshEnvelope * bool :=
  if at_hop_limit e then (e, false)
  else (mk_env (version e) (hop_count e + 1) (event_id e) (kind e) (author e) (created_at e) (payload e), true).

(** Source: src/relay-core/src/envelope.rs:68-74 (MeshEnvelope::into_incremented_hop) *)
Definition into_incremented_hop (e : MeshEnvelope) : option MeshEnvelope :=
  let '(e, moved) := increment_hop_in_place e in if (moved : bool) then Some e else None.

(** Source: src/relay-core/src/envelope.rs:77-79 (MeshEnvelope::increment_hop) *)
Definition increment_hop (e : MeshEnvelope) : option MeshEnvelope := into_incremented_hop e.

(** The bytes a string adds to the output.
    Source: src/relay-core/src/envelope.rs:174-181 (push_str) *)
Definition push_str (s : str) : may_fail (list Z) :=
  if (128 <? zlen s)%Z then err "envelope string exceeds 128-byte cap"
  else Ok (to_le 2 (zlen s) ++ s).

(** Source: src/relay-core/src/envelope.rs:82-110 (MeshEnvelope::to_bytes) *)
Definition to_bytes (e : MeshEnvelope) : may_fail (list Z) :=
  ensure (negb (bool_decide (event_id e = []) || bool_decide (author e = [])))
    "envelope event_id and author cannot be empty";;
  id ← push_str (event_id e);
  au ← push_str (author e);
  ensure (zlen (payload e) <=? u32_max)%Z "payload too large";;
  Ok (MAGIC ++ [version e] ++ [hop_count e] ++ id ++ to_le 2 (kind e) ++ au ++ to_le 8 (created_at e)
      ++ to_le 4 (zlen (payload e)) ++ payload e).

(** [&data[pos..pos + n]]. *)
Definition slice (data : bytes) (pos n : nat) : bytes := take n (drop pos data).

(** The string at [pos] and the position after it.
    Source: src/relay-core/src/envelope.rs:184-201 (take_str) *)
Definition take_str (data : bytes) (pos : nat) : option (list Z * nat) :=
  if length data <? pos + 2 then None
  else
    let len := from_le (slice data pos 2) in
    let pos := pos + 2 in
    if (128 <? len)%Z then None
    else
      let len := Z.to_nat len in
      if length data <? pos + len then None
      else s ← from_utf8 (slice data pos len); Some (s, pos + len).

(** Source: src/relay-core/src/envelope.rs:113-171 (MeshEnvelope::from_bytes) *)
Definition from_bytes (data : bytes) : option MeshEnvelope :=
  if length data <? 4 + 1 + 1 + 2 + 2 + 8 + 4 then None
  else if (MAX_ENVELOPE_BYTES <? zlen data)%Z then None
  else if negb (bool_decide (take 4 data = MAGIC)) then None
  else
    let version := nth 4 data 0%Z in
    let hop_count := nth 5 data 0%Z in
    if negb (version =? ENVELOPE_VERSION)%Z then None
    else if (MAX_HOP_COUNT <? hop_count)%Z then None
    else
      '(id, pos) ← take_str data 6;
      let event_id := to_ascii_lowercase (trim id) in
      if bool_decide (event_id = []) then None
      else if length data <? pos + 2 then None
      else
        let kind := from_le (slice data pos 2) in
        '(au, pos) ← take_str data (pos + 2);
        let author := to_ascii_lowercase (trim au) in
        if bool_decide (author = []) then None
        else if length data <? pos + 8 then None
        else
          let created_at := from_le (slice data pos 8) in
          let pos := pos + 8 in
          if length data <? pos + 4 then None
          else
            let payload_len := from_le (slice data pos 4) in
            let pos := pos + 4 in
            if (MAX_PAYLOAD_BYTES <? payload_len)%Z then None
            else
              let payload_len := Z.to_nat payload_len in
              if negb (length data =? pos + payload_len) then None
              else
                Some (mk_env version hop_count event_id kind author created_at (slice data pos payload_len)).

(** What the parser guarantees of an envelope, and what encoding needs. *)
Definition valid_id (s : str) : Prop :=
  clean s = s ∧ s ≠ [] ∧ utf8_valid s = true ∧ (zlen s ≤ 128)%Z.

Record valid_envelope (e : MeshEnvelope) : Prop := {
  ve_version : version e = ENVELOPE_VERSION;
  ve_hops : (0 ≤ hop_count e ≤ MAX_HOP_COUNT)%Z;
  ve_id : valid_id (event_id e);
  ve_kind : (0 ≤ kind e ≤ u16_max)%Z;
  ve_author : valid_id (author e);
  ve_created : (0 ≤ created_at e ≤ u64_max)%Z;
  ve_payload : all_bytes (payload e);
  ve_payload_len : (zlen (payload e) ≤ MAX_PAYLOAD_BYTES)%Z
}.

(** ** Slices *)

Lemma slice_at a b c pos n : pos = length a → n = length b → slice (a ++ b ++ c) pos n = b.
Proof. intros -> ->. unfold slice. by rewrite drop_app_length, take_app_length. Qed.

Lemma slice_bytes d pos n : all_bytes d → all_bytes (slice d pos n).
Proof. intros. unfold slice. auto with soshal. Qed.

Lemma slice_length d pos n : pos + n ≤ length d → length (slice d pos n) = n.
Proof. intros. unfold slice. rewrite length_take, length_drop. lia. Qed.

Lemma slice_le_range d pos n :
  all_bytes d → (0 ≤ from_le (slice d pos n) < 256 ^ Z.of_nat n)%Z.
Proof.
  intros Hd. pose proof (from_le_range (slice d pos n) (slice_bytes d pos n Hd)) as H.
  split; [apply H|]. eapply Z.lt_le_trans; [apply H|]. apply Z.pow_le_mono_r; [done|].
  unfold slice. rewrite length_take. lia.
Qed.

(** Reading back one length-prefixed string, and one little-endian word. *)
Lemma take_str_at a s c pos :
  utf8_valid s = true → (zlen s ≤ 128)%Z → pos = length a →
  take_str (a ++ (to_le 2 (zlen s) ++ s) ++ c) pos = Some (s, pos + 2 + length s).
Proof.
  intros Hs Hl ->. set (d := a ++ _).
  assert (H1 : from_le (slice d (length a) 2) = zlen s).
  { subst d. rewrite <-app_assoc, slice_at by (by rewrite ?to_le_length). apply from_to_le. simpl. lia. }
  assert (H2 : slice d (length a + 2) (length s) = s).
  { subst d. rewrite <-app_assoc, app_assoc. apply slice_at; [|done]. by rewrite length_app, to_le_length. }
  assert (H3 : length d = length a + 2 + length s + length c) by (subst d; len).
  unfold take_str. rewrite H1, H3, Nat2Z.id, H2.
  rewrite (proj2 (Nat.ltb_ge _ (length a + 2))), (proj2 (Z.ltb_ge 128 _)), (proj2 (Nat.ltb_ge _ _)) by lia.
  unfold from_utf8. by rewrite Hs.
Qed.

Lemma take_str_inv d pos s q :
  take_str d pos = Some (s, q) → utf8_valid s = true ∧ (zlen s ≤ 128)%Z ∧ pos + 2 ≤ q ≤ length d.
Proof.
  unfold take_str. destruct (Nat.ltb_spec (length d) (pos + 2)); [done|].
  destruct (Z.ltb_spec 128 (from_le (slice d pos 2))) as [|Hn]; [done|].
  set (n := Z.to_nat (from_le (slice d pos 2))).
  destruct (Nat.ltb_spec (length d) (pos + 2 + n)); [done|].
  unfold from_utf8. destruct (utf8_valid _) eqn:E; [|done]. simpl. intros [= <- <-].
  split; [done|]. rewrite slice_length by lia. lia.
Qed.

Lemma clean_valid_id s :
  utf8_valid s = true → (zlen s ≤ 128)%Z → to_ascii_lowercase (trim s) ≠ [] →
  valid_id (to_ascii_lowercase (trim s)).
Proof.
  fold (clean s). intros Hs Hl Hne. split; [apply clean_idemp|]. split; [done|].
  split; [by apply clean_valid|]. pose proof (clean_length s). lia.
Qed.

Lemma from_bytes_valid d e : all_bytes d → from_bytes d = Some e → valid_envelope e.
Proof.
  intros Hd. unfold from_bytes. destruct (Nat.ltb_spec (length d) (4 + 1 + 1 + 2 + 2 + 8 + 4)); [done|].
  destruct (Z.ltb_spec MAX_ENVELOPE_BYTES (zlen d)); [done|].
  case_bool_decide; [|done]. simpl negb. cbn iota.
  destruct (Z.eqb_spec (nth 4 d 0%Z) ENVELOPE_VERSION); [|done]. simpl negb. cbn iota.
  destruct (Z.ltb_spec MAX_HOP_COUNT (nth 5 d 0%Z)); [done|].
  destruct (take_str d 6) as [[id p1]|] eqn:E1; [|done]. cbn [mbind option_bind].
  case_bool_decide; [done|]. destruct (Nat.ltb_spec (length d) (p1 + 2)); [done|].
  destruct (take_str d (p1 + 2)) as [[au p2]|] eqn:E2; [|done]. cbn [mbind option_bind].
  case_bool_decide; [done|].
  destruct (Nat.ltb_spec (length d) (p2 + 8)); [done|].
  destruct (Nat.ltb_spec (length d) (p2 + 8 + 4)); [done|].
  destruct (Z.ltb_spec MAX_PAYLOAD_BYTES (from_le (slice d (p2 + 8) 4))); [done|].
  destruct (Nat.eqb_spec (length d) (p2 + 8 + 4 + Z.to_nat (from_le (slice d (p2 + 8) 4)))); [|done].
  simpl negb. cbn iota. intros [= <-].
  apply take_str_inv in E1 as (? & ? & ?), E2 as (? & ? & ?).
  pose proof (slice_le_range d p1 2 Hd). pose proof (slice_le_range d p2 8 Hd).
  pose proof (slice_le_range d (p2 + 8) 4 Hd).
  split; cbn [version hop_count event_id kind author created_at payload]; try by apply clean_valid_id.
  - done.
  - split; [|done]. assert (is_byte (nth 5 d 0%Z)) as [? _]; [|done].
    unfold all_bytes in Hd. rewrite Forall_nth in Hd. apply Hd. lia.
  - change (256 ^ Z.of_nat 2)%Z with (u16_max + 1)%Z in *. lia.
  - change (256 ^ Z.of_nat 8)%Z with (u64_max + 1)%Z in *. lia.
  - by apply slice_bytes.
  - rewrite slice_length by lia. lia.
Qed.

(** The encoding of a valid envelope. *)
Definition encoding (e : MeshEnvelope) : bytes :=
  MAGIC ++ [version e] ++ [hop_count e] ++ (to_le 2 (zlen (event_id e)) ++ event_id e) ++ to_le 2 (kind e)
  ++ (to_le 2 (zlen (author e)) ++ author e) ++ to_le 8 (created_at e) ++ to_le 4 (zlen (payload e)) ++ payload e.

Lemma to_bytes_valid e : valid_envelope e → to_bytes e = Ok (encoding e).
Proof.
  intros [? ? (_ & Hi & _ & Hi') ? (_ & Ha & _ & Ha') ? ? ?]. unfold to_bytes, push_str.
  rewrite !bool_decide_eq_false_2, !(proj2 (Z.ltb_ge 128 _)) by done.
  cbn [orb negb ensure mbind result_bind].
  assert ((zlen (payload e) <=? u32_max) = true)%Z as ->; [|done].
  apply Z.leb_le. etrans; [done|]. by_leb.
Qed.

Lemma encoding_bytes e : valid_envelope e → all_bytes (encoding e).
Proof.
  intros [Hv Hh (_ & _ & Hi & _) ? (_ & _ & Ha & _) ? Hp ?]. unfold encoding.
  rewrite !all_bytes_app. unfold MAX_HOP_COUNT, ENVELOPE_VERSION in *.
  split_and!; auto using utf8_bytes with soshal; repeat constructor; simpl; lia.
Qed.

Lemma encoding_length e :
  length (encoding e) = 24 + length (event_id e) + length (author e) + length (payload e).
Proof. unfold encoding. rewrite !length_app, !to_le_length. simpl. lia. Qed.

(** Reading a word at a position of the encoding. *)
Lemma from_le_slice a n z c pos :
  (0 ≤ z < 256 ^ Z.of_nat n)%Z → pos = length a → from_le (slice (a ++ to_le n z ++ c) pos n) = z.
Proof. intros Hz ->. rewrite slice_at by (by rewrite ?to_le_length). by apply from_to_le. Qed.

(** Splits the encoding after a prefix, to read the field that follows. *)
Ltac split_encoding e pre post :=
  replace (encoding e) with (pre ++ post)
    by (unfold encoding; rewrite ?app_nil_r, <-?app_assoc; reflexivity).

(** What the parser reads at each position of the encoding. *)
Lemma encoding_reads e :
  valid_envelope e →
  let p1 := 8 + length (event_id e) in
  let p2 := p1 + 4 + length (author e) in
  take_str (encoding e) 6 = Some (event_id e, p1) ∧
  from_le (slice (encoding e) p1 2) = kind e ∧
  take_str (encoding e) (p1 + 2) = Some (author e, p2) ∧
  from_le (slice (encoding e) p2 8) = created_at e ∧
  from_le (slice (encoding e) (p2 + 8) 4) = zlen (payload e) ∧
  slice (encoding e) (p2 + 8 + 4) (length (payload e)) = payload e.
Proof.
  intros [_ _ (_ & _ & Hi & Hi') Hk (_ & _ & Ha & Ha') Hc _ Hl] p1 p2.
  unfold u16_max, u64_max, MAX_PAYLOAD_BYTES in *.
  set (h := MAGIC ++ [version e] ++ [hop_count e]).
  set (i := to_le 2 (zlen (event_id e)) ++ event_id e).
  set (a := to_le 2 (zlen (author e)) ++ author e).
  set (tl := to_le 8 (created_at e) ++ to_le 4 (zlen (payload e)) ++ payload e).
  set (k := to_le 2 (kind e)).
  assert (length h = 6 ∧ length i = 2 + length (event_id e) ∧ length a = 2 + length (author e) ∧ length k = 2)
    as (Eh & Ei & Ea & Ek) by (subst h i a k; rewrite ?length_app, ?to_le_length; done).
  split_and!.
  - split_encoding e h (i ++ k ++ a ++ tl). by apply take_str_at.
  - split_encoding e (h ++ i) (k ++ a ++ tl). apply from_le_slice; [simpl; lia|]. rewrite !length_app. lia.
  - split_encoding e (h ++ i ++ k) (a ++ tl). etrans; [apply take_str_at; [done|done|rewrite !length_app; lia]|].
    do 2 f_equal. lia.
  - split_encoding e (h ++ i ++ k ++ a) tl. subst tl.
    apply from_le_slice; [simpl; lia|]. rewrite !length_app. lia.
  - split_encoding e (h ++ i ++ k ++ a ++ to_le 8 (created_at e)) (to_le 4 (zlen (payload e)) ++ payload e).
    apply from_le_slice; [simpl; lia|]. rewrite !length_app, to_le_length. lia.
  - split_encoding e (h ++ i ++ k ++ a ++ to_le 8 (created_at e) ++ to_le 4 (zlen (payload e))) (payload e ++ []).
    apply slice_at; [|done]. rewrite !length_app, !to_le_length. lia.
Qed.

Lemma from_bytes_encoding e : valid_envelope e → from_bytes (encoding e) = Some e.
Proof.
  intros He. destruct (encoding_reads e He) as (E1 & E2 & E3 & E4 & E5 & E6).
  destruct He as [Hv Hh (Hi1 & Hi2 & Hi3 & Hi4) Hk (Ha1 & Ha2 & Ha3 & Ha4) Hc Hp Hl].
  pose proof (encoding_length e) as Hd. unfold from_bytes.
  rewrite (proj2 (Nat.ltb_ge _ _)) by (destruct (event_id e), (author e); simpl in *; done || lia).
  rewrite (proj2 (Z.ltb_ge _ _)) by (unfold MAX_ENVELOPE_BYTES in *; lia).
  change (take 4 (encoding e)) with MAGIC. rewrite bool_decide_eq_true_2 by done.
  change (nth 4 (encoding e) 0%Z) with (version e). change (nth 5 (encoding e) 0%Z) with (hop_count e).
  rewrite (proj2 (Z.eqb_eq (version e) _)), (proj2 (Z.ltb_ge MAX_HOP_COUNT _)) by (done || lia).
  cbn [negb]. rewrite E1. cbn [mbind option_bind]. fold (clean (event_id e)). rewrite Hi1.
  rewrite bool_decide_eq_false_2, (proj2 (Nat.ltb_ge _ _)) by (done || lia).
  rewrite E3. cbn [mbind option_bind]. fold (clean (author e)). rewrite Ha1.
  rewrite bool_decide_eq_false_2, !(proj2 (Nat.ltb_ge _ _)) by (done || lia).
  rewrite E2, E4, E5, (proj2 (Z.ltb_ge _ _)), Nat2Z.id, E6, (proj2 (Nat.eqb_eq _ _)) by lia.
  by destruct e.
Qed.

(** The parser accepts exactly the valid envelopes (version 1, at most
    [MAX_HOP_COUNT] hops, normalised non-empty identifiers of at most 128
    bytes, a payload of at most 256 KiB), every valid envelope encodes, and
    its encoding parses back to it; so a parsed envelope can always be encoded
    again for the next hop. *)
Theorem envelope_parse_valid (e : MeshEnvelope) :
  ((∃ d, all_bytes d ∧ from_bytes d = Some e) ↔ valid_envelope e) ∧
  (valid_envelope e → ∃ d, to_bytes e = Ok d ∧ all_bytes d ∧ from_bytes d = Some e).
Proof.
  split; [split|].
  - intros (d & ? & ?). by eapply from_bytes_valid.
  - intros He. exists (encoding e). split; [by apply encoding_bytes|by apply from_bytes_encoding].
  - intros He. exists (encoding e). split; [by apply to_bytes_valid|].
    split; [by apply encoding_bytes|by apply from_bytes_encoding].
Qed.

(** ** The hop counter *)

Lemma incremented_valid e e' : valid_envelope e → into_incremented_hop e = Some e' →
  valid_envelope e' ∧ hop_count e' = (hop_count e + 1)%Z ∧ payload e' = payload e ∧ event_id e' = event_id e.
Proof.
  intros [? ? ? ? ? ? ? ?]. unfold into_incremented_hop, increment_hop_in_place, at_hop_limit.
  destruct (Z.leb_spec MAX_HOP_COUNT (hop_count e)); [done|]. intros [= <-].
  unfold MAX_HOP_COUNT in *.
  split; [split; cbn [version hop_count event_id kind author created_at payload]; try assumption|done].
  unfold MAX_HOP_COUNT. lia.
Qed.

Lemma incremented_none e : into_incremented_hop e = None ↔ (MAX_HOP_COUNT ≤ hop_count e)%Z.
Proof.
  unfold into_incremented_hop, increment_hop_in_place, at_hop_limit.
  destruct (Z.leb_spec MAX_HOP_COUNT (hop_count e)); split; done || lia.
Qed.

(** A fresh envelope of text within the limits is valid. *)
Lemma envelope_new_valid id k au created p :
  utf8_valid id = true → (zlen id ≤ 128)%Z → clean id ≠ [] →
  utf8_valid au = true → (zlen au ≤ 128)%Z → clean au ≠ [] →
  (0 ≤ k ≤ u16_max)%Z → (0 ≤ created ≤ u64_max)%Z → all_bytes p → (zlen p ≤ MAX_PAYLOAD_BYTES)%Z →
  valid_envelope (envelope_new id k au created p).
Proof.
  intros. unfold envelope_new. split; cbn [version hop_count event_id kind author created_at payload];
    try assumption; [done|by split; by_leb|by apply clean_valid_id..].
Qed.

(** ** A concrete envelope *)

Definition w_envelope : MeshEnvelope := envelope_new (lit " AB12 ") 1 (lit "npub1") 1700000000 (lit "{}").

Lemma w_envelope_valid : valid_envelope w_envelope.
Proof.
  apply envelope_new_valid; try by_leb; try (split; by_leb); try (vm_compute; congruence).
  repeat constructor; by_leb.
Qed.

Lemma envelope_parse_valid_witness : ∃ d, to_bytes w_envelope = Ok d ∧ from_bytes d = Some w_envelope.
Proof.
  destruct (proj2 (envelope_parse_valid w_envelope) w_envelope_valid) as (d & H1 & _ & H2).
  exists d. split; [exact H1|exact H2].
Defined.
