(* ===== verification/Verify.v ===== *)
(** The signature-verification cache of src/nostr-core/src/models.rs: two
    generations of digests of (event id, signature). The event type, its
    [verify] method and SHA-256 belong to third-party crates and are
    parameters. The three phases of [verify_event] (read lock, write lock to
    promote, write lock to record) are separate operations, so that a run may
    interleave them with those of other threads. *)

From S2P Require Import Prelude.

(** Source: src/nostr-core/src/models.rs:14-17 (VerifiedCache) *)
Record VerifiedCache := mk_cache {
  current : gset (list Z);
  previous : gset (list Z)
}.

(** Source: src/nostr-core/src/models.rs:20-26 (VerifiedCache::with_capacity) *)
Definition cache_new : VerifiedCache := mk_cache ∅ ∅.

(** The value depends on the build target.
    Source: src/nostr-core/src/models.rs:36-45 (max_cache_capacity) *)
Definition max_cache_capacity (android : bool) : Z := if android then 10000 else 50000.

Section verify.
Context {Event : Type} (event_id event_sig : Event → bytes) (event_verify : Event → bool).
Context (sha256 : bytes → bytes) (android : bool).

(** The global [VERIFIED_CACHE].
    Source: src/nostr-core/src/models.rs:47-47 (VERIFIED_CACHE) *)
Definition cache_state : Type := option VerifiedCache.

(** Source: src/nostr-core/src/models.rs:29-34 (compute_verify_cache_key) *)
Definition compute_verify_cache_key (e : Event) : bytes := sha256 (event_id e ++ event_sig e).

(** Source: src/nostr-core/src/models.rs:50-53 (clear_verified_cache) *)
Definition clear_verified_cache (c : cache_state) : cache_state := None.

(** Under the read lock: a hit in the current generation, or whether the key is
    in the previous one.
    Source: src/nostr-core/src/models.rs:58-68 (verify_event, read) *)
Definition cache_read (c : cache_state) (key : bytes) : option bool :=
  match c with
  | Some c => if bool_decide (key ∈ current c) then None else Some (bool_decide (key ∈ previous c))
  | None => Some false
  end.

(** Under the write lock: the promotion of a key, and whether it was found.
    Source: src/nostr-core/src/models.rs:71-82 (verify_event, promote) *)
Definition cache_promote (c : cache_state) (key : bytes) : cache_state * bool :=
  match c with
  | Some c =>
      if bool_decide (key ∈ current c) then (Some c, true)
      else if bool_decide (key ∈ previous c) then (Some (mk_cache ({[ key ]} ∪ current c) (previous c)), true)
      else (Some c, false)
  | None => (None, false)
  end.

(** Source: src/nostr-core/src/models.rs:88-88 (verify_event, half_cap) *)
Definition half_cap : Z := Z.max (max_cache_capacity android / 2) 512.

(** Under the write lock: a verified key is recorded, after the generations are
    rotated when the current one is full.
    Source: src/nostr-core/src/models.rs:85-94 (verify_event, record) *)
Definition cache_record (c : cache_state) (key : bytes) : cache_state :=
  let cache := default cache_new c in
  let cache := if (half_cap <=? zsize (current cache))%Z then mk_cache ∅ (current cache) else cache in
  Some (mk_cache ({[ key ]} ∪ current cache) (previous cache)).

(** Source: src/nostr-core/src/models.rs:56-99 (verify_event) *)
Definition verify_event (c : cache_state) (e : Event) : cache_state * bool :=
  let key := compute_verify_cache_key e in
  match cache_read c key with
  | None => (c, true)
  | Some in_previous =>
      let '(c, found) := if (in_previous : bool) then cache_promote c key else (c, false) in
      if (found : bool) then (c, true)
      else if event_verify e then (cache_record c key, true)
      else (c, false)
  end.

(** ** What the cache knows *)

(** The steps of the shared cache: any thread's promotion of any key, a record
    of an event that verified, a clear. *)
Inductive cache_step : cache_state → cache_state → Prop :=
| cs_promote c e : cache_step c (cache_promote c (compute_verify_cache_key e)).1
| cs_record c e : event_verify e = true → cache_step c (cache_record c (compute_verify_cache_key e))
| cs_clear c : cache_step c (clear_verified_cache c).

Definition cache_keys (c : cache_state) : gset (list Z) :=
  match c with Some c => current c ∪ previous c | None => ∅ end.

(** The key of an event that verified, among the [seen]. *)
Definition backed (seen : Event → Prop) (key : bytes) : Prop := ∃ e, seen e ∧ event_verify e = true ∧ compute_verify_cache_key e = key.

Lemma promote_keys c key : cache_keys (cache_promote c key).1 = cache_keys c.
Proof.
  destruct c as [[cu pr]|]; [|done]. unfold cache_promote. cbn [current previous].
  repeat case_bool_decide; cbn [fst cache_keys current previous]; set_solver.
Qed.

Lemma record_keys c key k : k ∈ cache_keys (cache_record c key) → k = key ∨ k ∈ cache_keys c.
Proof.
  unfold cache_record. destruct c as [[cu pr]|]; cbn [default cache_keys].
  - case_match; cbn [current previous]; set_solver.
  - case_match; cbn [current previous cache_new]; set_solver.
Qed.

Lemma cache_step_backed c c' :
  (∀ k, k ∈ cache_keys c → backed (λ _, True) k) → cache_step c c' → ∀ k, k ∈ cache_keys c' → backed (λ _, True) k.
Proof.
  intros Hc Hs k. destruct Hs as [c e|c e He|c].
  - rewrite promote_keys. apply Hc.
  - intros [->|?]%record_keys; [by exists e|by apply Hc].
  - by intros ?%elem_of_empty.
Qed.

Lemma read_spec c key :
  match cache_read c key with
  | None => key ∈ cache_keys c
  | Some b => (b = true → key ∈ cache_keys c)
  end.
Proof.
  unfold cache_read. destruct c as [[cu pr]|]; [|done]. cbn [current previous cache_keys].
  case_bool_decide; [set_solver|]. intros ?%bool_decide_eq_true. set_solver.
Qed.

Lemma promote_found c key : (cache_promote c key).2 = true → key ∈ cache_keys c.
Proof.
  destruct c as [[cu pr]|]; [|done]. unfold cache_promote. cbn [current previous cache_keys].
  repeat case_bool_decide; set_solver.
Qed.

(** A call keeps the cache backed, and accepts only events with a backed key. *)
Lemma verify_event_backed seen c e :
  seen e → (∀ k, k ∈ cache_keys c → backed seen k) →
  (∀ k, k ∈ cache_keys (verify_event c e).1 → backed seen k)
  ∧ ((verify_event c e).2 = true → backed seen (compute_verify_cache_key e)).
Proof.
  intros Hseen Hc. unfold verify_event. set (key := compute_verify_cache_key e).
  assert (∀ c', (∀ k, k ∈ cache_keys c' → backed seen k) →
    (∀ k, k ∈ cache_keys (if event_verify e then (cache_record c' key, true) else (c', false)).1 → backed seen k)
    ∧ ((if event_verify e then (cache_record c' key, true) else (c', false)).2 = true → backed seen key)) as Hverify.
  { intros c' Hc'. destruct (event_verify e) eqn:He; cbn [fst snd]; [|done].
    split; [|by intros _; exists e]. intros k [->|?]%record_keys; [by exists e|by apply Hc']. }
  generalize (read_spec c key). destruct (cache_read c key) as [[|]|]; intros Hread.
  - generalize (promote_keys c key), (promote_found c key).
    destruct (cache_promote c key) as [c1 found]; cbn [fst snd]; intros Hk Hf.
    assert (∀ k, k ∈ cache_keys c1 → backed seen k) as Hc1 by (intros k; rewrite Hk; apply Hc).
    destruct found; [|by apply Hverify]. split; [done|]. intros _. by apply Hc, Hf.
  - by apply Hverify.
  - split; [done|]. intros _. by apply Hc.
Qed.

(** In every state of the cache, whatever the threads did before, an event
    that verifies is accepted, and an accepted event either verifies or has the
    (id, signature) digest of an event that did. *)
Theorem verify_event_sound (c : cache_state) (e : Event) :
  reachable (λ c, c = None) cache_step c →
  (event_verify e = true → (verify_event c e).2 = true) ∧
  ((verify_event c e).2 = true →
    event_verify e = true ∨
    ∃ e0, event_verify e0 = true ∧ compute_verify_cache_key e0 = compute_verify_cache_key e).
Proof.
  intros Hr. assert (Hb : ∀ k, k ∈ cache_keys c → ∃ e, event_verify e = true ∧ compute_verify_cache_key e = k).
  { cut (∀ k, k ∈ cache_keys c → backed (λ _, True) k); [intros Hall k (e' & _ & ?)%Hall; by exists e'|].
    revert c Hr. apply (reachable_invariant _ _ (λ c, ∀ k, k ∈ cache_keys c → backed (λ _, True) k)); [|apply cache_step_backed].
    by intros ? -> k ?%elem_of_empty. }
  unfold verify_event. set (key := compute_verify_cache_key e).
  generalize (read_spec c key), (promote_found c key). fold key in Hb. revert Hb.
  destruct (cache_read c key) as [b|]; intros Hb H1 H2; cbn [snd].
  - destruct b; [destruct (cache_promote c key) as [c' [|]]|]; cbn [snd];
      destruct (event_verify e); cbn [snd]; auto; split; try done; intros _; right;
      apply Hb; auto.
  - split; [done|]. intros _. right. by apply Hb.
Qed.

(** The cache binds the id and the signature but not the content: once an
    event has been accepted, any event with its id and signature is accepted
    too, also one whose content was changed so that it does not verify. *)
Theorem tampered_event_accepted (c : cache_state) (e e' : Event) :
  event_verify e = true → event_id e' = event_id e → event_sig e' = event_sig e →
  (verify_event (verify_event c e).1 e').2 = true.
Proof.
  intros He Hid Hsig.
  assert (Hk : compute_verify_cache_key e' = compute_verify_cache_key e).
  { unfold compute_verify_cache_key. by rewrite Hid, Hsig. }
  assert (Hin : ∃ cu pr, (verify_event c e).1 = Some (mk_cache cu pr) ∧ compute_verify_cache_key e ∈ cu).
  { unfold verify_event. set (key := compute_verify_cache_key e). rewrite He.
    assert (Hrec : ∀ c0, ∃ cu pr, cache_record c0 key = Some (mk_cache cu pr) ∧ key ∈ cu).
    { intros c0. unfold cache_record. do 2 eexists. split; [done|]. set_solver. }
    destruct c as [[cu pr]|]; cbn [cache_read cache_promote current previous]; [|apply Hrec].
    case_bool_decide as H1; [by exists cu, pr|]. case_bool_decide as H2; [|apply Hrec].
    do 2 eexists. split; [done|]. set_solver. }
  destruct Hin as (cu & pr & E & Hcu). rewrite E. unfold verify_event. rewrite Hk.
  unfold cache_read. cbn [current]. by rewrite bool_decide_eq_true_2.
Qed.

(** ** The cache outgrows its capacity

    Promotion inserts into the current generation without the rotation check.
    Verifying every event of the previous generation again, and then a new one,
    makes a generation one larger than the last. *)

Abbreviation keys l := (list_to_set (compute_verify_cache_key <$> l) : gset (list Z)).
Abbreviation run c l := (foldl (λ st e, (verify_event st e).1) c l).

Lemma verify_promotes cu pr e :
  compute_verify_cache_key e ∈ pr →
  (verify_event (Some (mk_cache cu pr)) e).1 = Some (mk_cache ({[ compute_verify_cache_key e ]} ∪ cu) pr).
Proof.
  intros Hk. unfold verify_event. cbn [cache_read cache_promote current previous].
  case_bool_decide; [cbn [fst]; do 2 f_equal; set_solver|].
  rewrite bool_decide_eq_true_2 by done. done.
Qed.

Lemma run_promotes cu pr l :
  keys l ⊆ pr → run (Some (mk_cache cu pr)) l = Some (mk_cache (cu ∪ keys l) pr).
Proof.
  revert cu. induction l as [|e l IH]; intros cu Hl; cbn [foldl fmap list_fmap list_to_set] in *.
  { do 2 f_equal. set_solver. }
  rewrite verify_promotes, IH by set_solver. do 2 f_equal. set_solver.
Qed.

Lemma run_fresh e cu pr :
  event_verify e = true → compute_verify_cache_key e ∉ cu ∪ pr →
  (verify_event (Some (mk_cache cu pr)) e).1 =
    if (half_cap <=? zsize cu)%Z then Some (mk_cache {[ compute_verify_cache_key e ]} cu)
    else Some (mk_cache ({[ compute_verify_cache_key e ]} ∪ cu) pr).
Proof.
  intros He Hk. unfold verify_event. cbn [cache_read cache_promote current previous].
  rewrite !bool_decide_eq_false_2 by set_solver. rewrite He. unfold cache_record.
  change (default cache_new (Some (mk_cache cu pr))) with (mk_cache cu pr).
  change (zsize (current (mk_cache cu pr))) with (zsize cu).
  destruct (half_cap <=? zsize cu)%Z; simpl; do 2 f_equal; set_solver.
Qed.

Lemma record_none k : cache_record None k = Some (mk_cache {[ k ]} ∅).
Proof.
  unfold cache_record. change (default cache_new None) with cache_new.
  assert ((half_cap <=? zsize (current cache_new))%Z = false) as ->.
  { apply Z.leb_gt. unfold half_cap, cache_new. cbn [current]. rewrite size_empty. lia. }
  simpl. do 2 f_equal. set_solver.
Qed.

Lemma keys_size l : NoDup (compute_verify_cache_key <$> l) → size (keys l) = length l.
Proof. intros. rewrite size_list_to_set by done. apply length_fmap. Qed.

(** The cache is not bounded by its capacity: for any list of distinct
    events that verify, however long, some sequence of [verify_event] calls on
    those events puts all of them in the current generation. *)
Theorem verified_cache_unbounded (l : list Event) :
  l ≠ [] → Forall (λ e, event_verify e = true) l → NoDup (compute_verify_cache_key <$> l) →
  ∃ es pr, es ⊆ l ∧ run None es = Some (mk_cache (keys l) pr) ∧ size (keys l) = length l.
Proof.
  intros Hne Hv Hnd. rewrite keys_size by done.
  cut (∃ es pr, es ⊆ l ∧ run None es = Some (mk_cache (keys l) pr) ∧ pr ⊆ keys l);
    [intros (es & pr & ? & ? & _); by exists es, pr|].
  induction l as [|e l IH] using rev_ind; [done|].
  rewrite fmap_app in Hnd. apply NoDup_app in Hnd as (Hnd & Hdis & _). apply Forall_app in Hv as [Hv He].
  rewrite Forall_singleton in He.
  assert (Hfresh : compute_verify_cache_key e ∉ keys l).
  { rewrite elem_of_list_to_set. intros Hin. apply (Hdis _ Hin). by left. }
  rewrite fmap_app, list_to_set_app_L. cbn [fmap list_fmap list_to_set].
  destruct (decide (l = [])) as [->|Hl].
  - exists [e], ∅. split; [set_solver|]. cbn. unfold verify_event. cbn [cache_read]. rewrite He.
    cbn [fst]. rewrite record_none. split; [do 2 f_equal; set_solver|set_solver].
  - destruct (IH Hl Hv Hnd) as (es & pr & Hes & Hrun & Hpr).
    pose proof (run_fresh e (keys l) pr He ltac:(set_solver)) as Hf. destruct (_ <=? _)%Z in Hf.
    + exists (es ++ [e] ++ l), (keys l). split; [set_solver|]. rewrite !foldl_app, Hrun. cbn [foldl].
      rewrite Hf, run_promotes by done. split; [do 2 f_equal; set_solver|set_solver].
    + exists (es ++ [e]), pr. split; [set_solver|]. rewrite foldl_app, Hrun. cbn [foldl].
      rewrite Hf. split; [do 2 f_equal; set_solver|set_solver].
Qed.
End verify.

(** ** Concrete caches *)

(** Events of an id, a signature and a content that the id must equal. *)
Definition w_id (e : list Z * list Z * list Z) : list Z := e.1.1.
Definition w_sig (e : list Z * list Z * list Z) : list Z := e.1.2.
Definition w_verify (e : list Z * list Z * list Z) : bool := bool_decide (e.1.1 = e.2).

Definition w_event : list Z * list Z * list Z := ([1], [2], [1])%Z.
Definition w_tampered : list Z * list Z * list Z := ([1], [2], [7])%Z.

Lemma verify_event_sound_witness :
  (verify_event w_id w_sig w_verify (λ d, d) true None w_event).2 = true.
Proof.
  apply (verify_event_sound w_id w_sig w_verify (λ d, d) true None w_event);
    [by apply reachable_init|vm_compute; reflexivity].
Defined.

Lemma tampered_event_accepted_witness :
  w_verify w_tampered = false ∧
  (verify_event w_id w_sig w_verify (λ d, d) true
    (verify_event w_id w_sig w_verify (λ d, d) true None w_event).1 w_tampered).2 = true.
Proof.
  split; [vm_compute; reflexivity|].
  apply (tampered_event_accepted w_id w_sig w_verify (λ d, d) true None w_event w_tampered); vm_compute; reflexivity.
Defined.

(** Twice the capacity of the Android build. *)
Lemma verified_cache_unbounded_witness :
  ∃ es cu pr, foldl (λ st (e : Z), (verify_event (λ e, [e]) (λ _, []) (λ _, true) (λ d, d) true st e).1) None es
      = Some (mk_cache cu pr) ∧ (2 * max_cache_capacity true = zsize cu)%Z.
Proof.
  destruct (verified_cache_unbounded (λ e : Z, [e]) (λ _, []) (λ _, true) (λ d, d) true (seqZ 0 20000))
    as (es & pr & _ & H1 & H2).
  - intros E. apply (f_equal length) in E. rewrite length_seqZ in E. cbn [length] in E. lia.
  - apply Forall_forall. done.
  - apply NoDup_fmap_2; [intros x y E; injection E; done|apply NoDup_seqZ].
  - eexists es, _, pr. split; [exact H1|]. rewrite H2, length_seqZ. reflexivity.
Defined.
