(* ===== verification/Relay.v ===== *)
(** The relay node (src/relay-core/src/relay.rs and bloom_dedup.rs): publish,
    poll with deduplication and re-broadcast, and the app-delivery queue, over
    abstract mesh backends. The Bloom filter (fastbloom), the event parser and
    signature check (nostr) and SHA-256 are third-party and are parameters;
    the only law assumed is that the filter has no false negatives. Counters
    and peer sums are unbounded integers. *)

From S2P Require Import Prelude RustStr Text Bounded Envelope Verify.

(** Source: src/relay-core/src/relay.rs:16-16 (RECENT_CAPACITY) *)
Definition RECENT_CAPACITY : Z := 10000.
(** Source: src/relay-core/src/relay.rs:18-18 (SEEN_CAPACITY) *)
Definition SEEN_CAPACITY : Z := 100000.
(** Source: src/relay-core/src/relay.rs:20-20 (DELIVERED_CAPACITY) *)
Definition DELIVERED_CAPACITY : Z := 4096.

(** Source: src/relay-core/src/backends/mod.rs:13-17 (BackendKind) *)
Inductive BackendKind := KReticulum | KI2p | KFreenet.

(** Source: src/relay-core/src/backends/mod.rs:20-26 (BackendKind::as_str) *)
Definition backend_as_str (k : BackendKind) : str :=
  match k with KReticulum => lit "reticulum" | KI2p => lit "i2p" | KFreenet => lit "freenet" end.

(** What a transport offers to the relay; the state [B] holds its queues.
    Source: src/relay-core/src/backends/mod.rs:30-63 (MeshBackend) *)
Class MeshBackend (B : Type) := {
  mb_kind : B → BackendKind;
  mb_start : B → B * may_fail unit;
  mb_stop : B → B;
  mb_running : B → bool;
  mb_broadcast : B → bytes → B * may_fail Z;
  mb_recv : B → B * list bytes;
  mb_peers_count : B → Z
}.

(** The third-party Bloom filter. *)
Class Bloom (F : Type) := {
  bloom_empty : F;
  bloom_contains : F → bytes → bool;
  bloom_insert : F → bytes → F
}.

Class BloomLaws (F : Type) `{Bloom F} : Prop := {
  bloom_inserted f d : bloom_contains (bloom_insert f d) d = true;
  bloom_kept f d k : bloom_contains f d = true → bloom_contains (bloom_insert f k) d = true
}.

(** [while q.len() > cap { q.pop_front() }].
    Source: src/relay-core/src/relay.rs:276-278 (RelayNode::poll, while) *)
Fixpoint pop_while {A} (cap : Z) (q : list A) : list A :=
  match q with
  | [] => []
  | _ :: rest => if (cap <? zlen q)%Z then pop_while cap rest else q
  end.

(** ** The seen filter *)

Section filter.
Context {F : Type} `{Bloom F}.

(** Source: src/relay-core/src/bloom_dedup.rs:14-18 (FastBloomSeenFilter) *)
Record FastBloomSeenFilter := mk_filter {
  bf_filter : F;
  bf_count : Z;
  bf_capacity : Z
}.

(** Source: src/relay-core/src/bloom_dedup.rs:28-36 (FastBloomSeenFilter::new) *)
Definition filter_new (expected_items : Z) : FastBloomSeenFilter :=
  mk_filter bloom_empty 0 (Z.max expected_items 1024).

(** Source: src/relay-core/src/bloom_dedup.rs:40-42 (FastBloomSeenFilter::contains) *)
Definition filter_contains (f : FastBloomSeenFilter) (digest_hex : str) : bool :=
  bloom_contains (bf_filter f) digest_hex.

(** Source: src/relay-core/src/bloom_dedup.rs:47-55 (FastBloomSeenFilter::insert) *)
Definition filter_insert (f : FastBloomSeenFilter) (digest_hex : str) : FastBloomSeenFilter * bool :=
  if bloom_contains (bf_filter f) digest_hex then (f, false)
  else (mk_filter (bloom_insert (bf_filter f) digest_hex) (bf_count f + 1) (bf_capacity f), true).

Lemma filter_inserted `{!BloomLaws F} f d : filter_contains (filter_insert f d).1 d = true.
Proof.
  unfold filter_insert, filter_contains. destruct (bloom_contains (bf_filter f) d) eqn:E; [done|].
  apply bloom_inserted.
Qed.

Lemma filter_insert_kept `{!BloomLaws F} f d k :
  filter_contains f d = true → filter_contains (filter_insert f k).1 d = true.
Proof.
  unfold filter_insert, filter_contains. case_match; [done|]. apply bloom_kept.
Qed.
End filter.
Arguments FastBloomSeenFilter F : clear implicits.

(** Source: src/network-core/src/transport.rs:10-17 (TransportMode) *)
Inductive TransportMode := TDefault | TReticulum | TFreenet | TI2p | TNostr.

Section relay.
Context {B F Event : Type} `{MeshBackend B} `{Bloom F}.
Context (event_id event_sig : Event → bytes) (event_verify : Event → bool) (event_from_json : str → option Event).
Context (sha256 : bytes → bytes) (lower_hex : bytes → str) (android : bool).
Context (mk_backend : BackendKind → str → B).

(** Source: src/relay-core/src/relay.rs:23-27 (payload_digest) *)
Definition payload_digest (p : bytes) : str := lower_hex (sha256 p).

(** The event of a payload, with the verification cache threaded through.
    Source: src/relay-core/src/relay.rs:45-53 (verified_event_payload) *)
Definition verified_event_payload (c : cache_state) (p : bytes) : cache_state * option Event :=
  match from_utf8 p with
  | None => (c, None)
  | Some json =>
      match event_from_json json with
      | None => (c, None)
      | Some event =>
          let '(c, good) := verify_event event_id event_sig event_verify sha256 android c event in
          (c, if (good : bool) then Some event else None)
      end
  end.

(** Source: src/relay-core/src/relay.rs:56-70 (RelayNode) *)
Record RelayNode := mk_relay {
  backends : list B;
  recent : list MeshEnvelope;
  seen : BoundedSet (list Z);
  seen_bloom : FastBloomSeenFilter F;
  delivered : list Event;
  published : Z;
  received : Z;
  running : bool
}.

(** Source: src/relay-core/src/relay.rs:79-90 (RelayNode::new) *)
Definition relay_new : RelayNode :=
  mk_relay [] [] (bs_new SEEN_CAPACITY) (filter_new SEEN_CAPACITY) [] 0 0 false.

Definition set_backends (n : RelayNode) b :=
  mk_relay b (recent n) (seen n) (seen_bloom n) (delivered n) (published n) (received n) (running n).
Definition set_running (n : RelayNode) r :=
  mk_relay (backends n) (recent n) (seen n) (seen_bloom n) (delivered n) (published n) (received n) r.
Definition set_recent (n : RelayNode) q :=
  mk_relay (backends n) q (seen n) (seen_bloom n) (delivered n) (published n) (received n) (running n).

(** Source: src/relay-core/src/relay.rs:92-94 (RelayNode::add_backend) *)
Definition add_backend (n : RelayNode) (b : B) : RelayNode := set_backends n (backends n ++ [b]).

(** Source: src/relay-core/src/relay.rs:99-128 (RelayNode::new_with_transport) *)
Definition new_with_transport (mode : TransportMode) (pubkey : str) : RelayNode :=
  let pubkey_clean := to_ascii_lowercase (trim pubkey) in
  let node := relay_new in
  match mode with
  | TDefault =>
      add_backend (add_backend (add_backend node (mk_backend KReticulum pubkey_clean)) (mk_backend KI2p []))
        (mk_backend KFreenet [])
  | TReticulum => add_backend node (mk_backend KReticulum pubkey_clean)
  | TFreenet => add_backend node (mk_backend KFreenet [])
  | TI2p => add_backend node (mk_backend KI2p [])
  | TNostr => node
  end.

(** Source: src/relay-core/src/relay.rs:132-138 (RelayNode::running_backends) *)
Definition running_backends (n : RelayNode) : list BackendKind :=
  mb_kind <$> filter (λ b, mb_running b = true) (backends n).

(** Source: src/relay-core/src/relay.rs:141-153 (RelayNode::start) *)
Definition relay_start (n : RelayNode) : RelayNode * may_fail nat :=
  let '(bs, started) :=
    foldl (λ '(bs, started) b, let '(b, r) := mb_start b in (bs ++ [b], if is_ok r then S started else started))
      ([], 0) (backends n) in
  let n := set_running (set_backends n bs) (0 <? started) in
  if started =? 0 then (n, err "no mesh backend started") else (n, Ok started).

(** Source: src/relay-core/src/relay.rs:155-160 (RelayNode::stop) *)
Definition relay_stop (n : RelayNode) : RelayNode := set_running (set_backends n (mb_stop <$> backends n)) false.

(** Source: src/relay-core/src/relay.rs:370-373 (RelayNode::note_seen) *)
Definition note_seen (n : RelayNode) (id : str) : RelayNode :=
  mk_relay (backends n) (recent n) (bs_insert (seen n) id).1 (filter_insert (seen_bloom n) id).1
    (delivered n) (published n) (received n) (running n).

(** The broadcast of one payload to every running backend in turn: the
    backends and the sum of the peer counts.
    Source: src/relay-core/src/relay.rs:196-208 (RelayNode::publish, broadcast) *)
Definition broadcast_all (bs : list B) (encoded : bytes) : list B * Z :=
  foldl (λ '(bs, total) b,
    if mb_running b then
      let '(b, r) := mb_broadcast b encoded in (bs ++ [b], total + unwrap_or 0 r)%Z
    else (bs ++ [b], total)) ([], 0%Z) bs.

(** Source: src/relay-core/src/relay.rs:168-211 (RelayNode::publish) *)
Definition publish (n : RelayNode) (event_id : str) (kind : Z) (author : str) (created_at : Z) (payload : bytes)
    : RelayNode * may_fail Z :=
  if negb (running n) then (n, err "relay node not running")
  else if (MAX_PAYLOAD_BYTES <? zlen payload)%Z then (n, err "payload exceeds mesh cap")
  else
    let event_id_clean := to_ascii_lowercase (trim event_id) in
    let author_clean := to_ascii_lowercase (trim author) in
    if bool_decide (event_id_clean = []) || bool_decide (author_clean = []) then
      (n, err "event id or author cannot be empty")
    else if (128 <? zlen event_id_clean)%Z || (128 <? zlen author_clean)%Z then
      (n, err "event id or author exceeds 128-byte cap")
    else
      let env := envelope_new event_id_clean kind author_clean created_at payload in
      let n := note_seen n (payload_digest (Envelope.payload env)) in
      let q := recent n ++ [env] in
      let n := set_recent n (if (RECENT_CAPACITY <? zlen q)%Z then tail q else q) in
      let '(bs, total) := broadcast_all (backends n) (unwrap_or [] (Envelope.to_bytes env)) in
      (mk_relay bs (recent n) (seen n) (seen_bloom n) (delivered n) (published n + 1) (received n) (running n),
       Ok total).

(** Source: src/relay-core/src/relay.rs:359-368 (RelayNode::re_broadcast) *)
Definition re_broadcast (n : RelayNode) (env : MeshEnvelope) (source_idx : nat) : RelayNode :=
  match Envelope.to_bytes env with
  | Err _ => n
  | Ok bytes =>
      set_backends n
        (imap (λ idx b, if negb (idx =? source_idx) && mb_running b then (mb_broadcast b bytes).1 else b) (backends n))
  end.

(** The parse of the inbound payloads, with the index of their backend, up to
    the cap on jobs.
    Source: src/relay-core/src/relay.rs:227-238 (RelayNode::poll, jobs) *)
Fixpoint collect_jobs (inbound : list (nat * list Z)) (jobs : list (nat * MeshEnvelope)) : list (nat * MeshEnvelope) :=
  match inbound with
  | [] => jobs
  | (idx, payload) :: inbound =>
      if (DELIVERED_CAPACITY <=? zlen jobs)%Z then jobs
      else
        match Envelope.from_bytes payload with
        | None => collect_jobs inbound jobs
        | Some env => collect_jobs inbound (jobs ++ [(idx, env)])
        end
  end.

(** Every job's event, in the order of the jobs (a large batch runs on a
    thread pool, whose accesses to the cache have no fixed order).
    Source: src/relay-core/src/relay.rs:243-252 (RelayNode::poll, verify) *)
Fixpoint verify_jobs (c : cache_state) (jobs : list (nat * MeshEnvelope)) : cache_state * list (option Event) :=
  match jobs with
  | [] => (c, [])
  | (_, env) :: jobs =>
      let '(c, e) := verified_event_payload c (Envelope.payload env) in
      let '(c, es) := verify_jobs c jobs in
      (c, e :: es)
  end.

(** One iteration of the delivery loop, and whether the envelope was new.
    Source: src/relay-core/src/relay.rs:255-292 (RelayNode::poll, deliver) *)
Definition process_job (n : RelayNode) (idx : nat) (env : MeshEnvelope) (event : option Event) : RelayNode * bool :=
  match event with
  | None => (n, false)
  | Some event =>
      let digest := payload_digest (Envelope.payload env) in
      if filter_contains (seen_bloom n) digest || bs_contains (seen n) digest then (n, false)
      else
        let n := note_seen n digest in
        let dq := pop_while DELIVERED_CAPACITY (delivered n ++ [event]) in
        let rq := pop_while RECENT_CAPACITY (recent n ++ [env]) in
        let n := mk_relay (backends n) rq (seen n) (seen_bloom n) dq (published n) (received n + 1) (running n) in
        (match into_incremented_hop env with Some next => re_broadcast n next idx | None => n end, true)
  end.

(** Source: src/relay-core/src/relay.rs:254-294 (RelayNode::poll, loop) *)
Fixpoint process_jobs (n : RelayNode) (jobs : list ((nat * MeshEnvelope) * option Event)) (new_count : nat)
    : RelayNode * nat :=
  match jobs with
  | [] => (n, new_count)
  | ((idx, env), event) :: jobs =>
      let '(n, new) := process_job n idx env event in
      process_jobs n jobs (if (new : bool) then S new_count else new_count)
  end.

(** The payloads of every backend, each with the backend's index.
    Source: src/relay-core/src/relay.rs:216-222 (RelayNode::poll, receive) *)
Definition receive_all (bs : list B) : list B * list (nat * list Z) :=
  ((λ b, (mb_recv b).1) <$> bs,
   concat (imap (λ idx b, (λ p, (idx, p)) <$> (mb_recv b).2) bs)).

(** Source: src/relay-core/src/relay.rs:215-294 (RelayNode::poll) *)
Definition poll (n : RelayNode) (c : cache_state) : RelayNode * cache_state * nat :=
  let '(bs, inbound) := receive_all (backends n) in
  let n := set_backends n bs in
  let jobs := collect_jobs inbound [] in
  let '(c, verified) := verify_jobs c jobs in
  let '(n, new_count) := process_jobs n (zip jobs verified) 0 in
  (n, c, new_count).

(** Source: src/relay-core/src/relay.rs:309-311 (RelayNode::drain_delivered) *)
Definition drain_delivered (n : RelayNode) : RelayNode * list Event :=
  (mk_relay (backends n) (recent n) (seen n) (seen_bloom n) [] (published n) (received n) (running n), delivered n).

(** Source: src/relay-core/src/relay.rs:316-323 (RelayNode::recent_payloads) *)
Definition recent_payloads (n : RelayNode) (limit : nat) : list (list Z) :=
  Envelope.payload <$> take limit (reverse (recent n)).

(** Source: src/relay-core/src/relay.rs:326-331 (RelayNode::peers) *)
Definition relay_peers (n : RelayNode) : list (BackendKind * Z) :=
  (λ b, (mb_kind b, mb_peers_count b)) <$> backends n.

(** ** Invariants *)

Context `{!BloomLaws F} (recv_bytes : ∀ b : B, Forall all_bytes (mb_recv b).2).

Lemma pop_while_lastn {A} cap (q : list A) : (0 ≤ cap)%Z → pop_while cap q = lastn (Z.to_nat cap) q.
Proof.
  intros Hc. unfold lastn. induction q as [|x q IH]; [done|]. cbn [pop_while length].
  destruct (Z.ltb_spec cap (Z.of_nat (S (length q)))).
  - rewrite IH. by replace (S (length q) - Z.to_nat cap) with (S (length q - Z.to_nat cap)) by lia.
  - by replace (S (length q) - Z.to_nat cap) with 0 by lia.
Qed.

Lemma pop_while_length {A} cap (q : list A) : (0 ≤ cap)%Z → (zlen (pop_while cap q) ≤ cap)%Z.
Proof. intros. rewrite pop_while_lastn by done. rewrite lastn_length. lia. Qed.

Lemma pop_while_forall {A} (P : A → Prop) cap q : Forall P q → Forall P (pop_while cap q).
Proof. induction 1; cbn [pop_while]; [constructor|]. case_match; [done|by constructor]. Qed.

Record wf_relay (n : RelayNode) : Prop := {
  wr_recent : (zlen (recent n) ≤ RECENT_CAPACITY)%Z;
  wr_recent_valid : Forall valid_envelope (recent n);
  wr_delivered : (zlen (delivered n) ≤ DELIVERED_CAPACITY)%Z;
  wr_seen : ∃ w, bs_refines (seen n) w ∧ bs_capacity (seen n) = SEEN_CAPACITY;
  wr_bloom : ∀ d, bs_contains (seen n) d = true → filter_contains (seen_bloom n) d = true
}.

Lemma window_insert_inv cap (w : list (list Z)) k x : x ∈ window_insert cap w k → x = k ∨ x ∈ w.
Proof.
  unfold window_insert, lastn. case_decide; [by right|]. intros Hx.
  assert (Hx' : x ∈ w ++ [k]) by (rewrite <-(take_drop (length (w ++ [k]) - Z.to_nat cap) (w ++ [k])); set_solver).
  set_solver.
Qed.

Lemma note_seen_wf n d : wf_relay n → wf_relay (note_seen n d).
Proof.
  intros [? ? ? (w & Hw & Hc) Hb].
  destruct (bs_insert_refines (seen n) w d) as (Hw' & _ & Hc'); [rewrite Hc; by_leb|done|].
  split; try done.
  - eexists. split; [exact Hw'|]. simpl. congruence.
  - intros k. simpl. rewrite (bs_contains_refines _ _ _ Hw'). intros Hk%bool_decide_eq_true.
    apply window_insert_inv in Hk as [->|Hk]; [apply filter_inserted|].
    apply filter_insert_kept, Hb. rewrite (bs_contains_refines _ _ _ Hw). by apply bool_decide_eq_true.
Qed.

Lemma set_backends_wf n bs : wf_relay n → wf_relay (set_backends n bs).
Proof. intros []. by split. Qed.

Lemma re_broadcast_wf n env i : wf_relay n → wf_relay (re_broadcast n env i).
Proof. intros. unfold re_broadcast. case_match; [by apply set_backends_wf|done]. Qed.

Lemma process_job_wf n idx env ev :
  wf_relay n → valid_envelope env → wf_relay (process_job n idx env ev).1.
Proof.
  intros Hn He. unfold process_job. destruct ev as [ev|]; [|done].
  case_match; [done|]. destruct (note_seen_wf n (payload_digest (Envelope.payload env)) Hn) as [? ? ? ? ?].
  set (n1 := note_seen n _) in *. cbn [fst].
  assert (wf_relay (mk_relay (backends n1) (pop_while RECENT_CAPACITY (recent n1 ++ [env])) (seen n1)
    (seen_bloom n1) (pop_while DELIVERED_CAPACITY (delivered n1 ++ [ev])) (published n1) (received n1 + 1)
    (running n1))).
  { split; cbn [recent delivered seen seen_bloom]; [by apply pop_while_length| |by apply pop_while_length|done|done].
    apply pop_while_forall, Forall_app. auto. }
  case_match; [by apply re_broadcast_wf|done].
Qed.

Lemma process_jobs_wf jobs n k :
  wf_relay n → Forall (λ j, valid_envelope j.1.2) jobs → wf_relay (process_jobs n jobs k).1.
Proof.
  revert n k. induction jobs as [|[[idx env] ev] jobs IH]; intros n k Hn Hj; [done|].
  apply Forall_cons in Hj as [He Hj]. cbn [process_jobs].
  pose proof (process_job_wf n idx env ev Hn He) as Hn'.
  destruct (process_job n idx env ev) as [n' new]. by apply IH.
Qed.

Lemma collect_jobs_valid inbound jobs :
  Forall (λ x, all_bytes x.2) inbound → Forall (λ j, valid_envelope j.2) jobs →
  Forall (λ j, valid_envelope j.2) (collect_jobs inbound jobs).
Proof.
  intros Hi. revert jobs. induction Hi as [|[idx p] inbound Hp _ IH]; intros jobs Hj; [done|].
  cbn [collect_jobs]. case_match; [done|]. destruct (Envelope.from_bytes p) as [env|] eqn:E; [|by apply IH].
  apply IH, Forall_app. split; [done|]. constructor; [by eapply from_bytes_valid|done].
Qed.

Lemma receive_all_bytes bs : Forall (λ x, all_bytes x.2) (receive_all bs).2.
Proof.
  unfold receive_all. cbn [snd]. apply Forall_concat, Forall_lookup. intros i l.
  rewrite list_lookup_imap, fmap_Some. intros (b & _ & ->).
  apply Forall_fmap. eapply Forall_impl; [apply recv_bytes|]. done.
Qed.

Lemma poll_wf n c : wf_relay n → wf_relay (poll n c).1.1.
Proof.
  intros Hn. unfold poll. pose proof (receive_all_bytes (backends n)) as Hb.
  destruct (receive_all (backends n)) as [bs inbound]. cbn [snd] in Hb.
  pose proof (collect_jobs_valid inbound [] Hb (Forall_nil_2 _)) as Hj.
  destruct (verify_jobs c _) as [c' es].
  pose proof (process_jobs_wf (zip (collect_jobs inbound []) es) (set_backends n bs) 0 (set_backends_wf n bs Hn)) as Hp.
  destruct (process_jobs _ _ _) as [n' k]. apply Hp.
  apply Forall_lookup. intros i [j e] [Hj' _]%lookup_zip_Some. cbn. by eapply Forall_lookup in Hj.
Qed.

Lemma publish_wf n id k au created p :
  utf8_valid id = true → utf8_valid au = true → (0 ≤ k ≤ u16_max)%Z → (0 ≤ created ≤ u64_max)%Z → all_bytes p →
  wf_relay n → wf_relay (publish n id k au created p).1.
Proof.
  intros ? ? ? ? ? Hn. unfold publish. destruct (running n); [|done]. cbn [negb].
  destruct (Z.ltb_spec MAX_PAYLOAD_BYTES (zlen p)); [done|].
  fold (clean id) (clean au).
  case_match eqn:E1; [done|]. apply orb_false_iff in E1 as [E1%bool_decide_eq_false E2%bool_decide_eq_false].
  case_match eqn:E3; [done|]. apply orb_false_iff in E3 as [E3%Z.ltb_ge E4%Z.ltb_ge].
  assert (Hv : valid_envelope (envelope_new (clean id) k (clean au) created p)).
  { apply envelope_new_valid; rewrite ?clean_idemp; auto using clean_valid. }
  set (env := envelope_new _ _ _ _ _) in *. set (d := payload_digest _).
  destruct (note_seen_wf n d Hn) as [? ? ? ? ?]. set (n1 := note_seen n d) in *.
  destruct (broadcast_all _ _) as [bs total]. split; cbn [fst recent delivered seen set_recent]; try done.
  - destruct (Z.ltb_spec RECENT_CAPACITY (zlen (recent n1 ++ [env]))) as [Hl|Hl]; [|done].
    rewrite length_app in Hl. cbn [length] in Hl.
    destruct (recent n1); cbn [app tail length] in *; [simpl; by_leb|rewrite length_app; cbn [length]; lia].
  - assert (Forall valid_envelope (recent n1 ++ [env])) as Hf by (apply Forall_app; auto).
    case_match; [|done]. destruct Hf; [constructor|done].
Qed.

(** ** Runs *)

(** The node's operations; [rs_world] is whatever the transports do meanwhile. *)
Inductive relay_step : RelayNode → RelayNode → Prop :=
| rs_publish n id k au created p :
    utf8_valid id = true → utf8_valid au = true → (0 ≤ k ≤ u16_max)%Z → (0 ≤ created ≤ u64_max)%Z → all_bytes p →
    relay_step n (publish n id k au created p).1
| rs_poll n c : relay_step n (poll n c).1.1
| rs_drain n : relay_step n (drain_delivered n).1
| rs_start n : relay_step n (relay_start n).1
| rs_stop n : relay_step n (relay_stop n)
| rs_world n bs : relay_step n (set_backends n bs).

Lemma relay_step_wf n n' : wf_relay n → relay_step n n' → wf_relay n'.
Proof.
  intros Hn Hs. destruct Hs.
  - by apply publish_wf.
  - by apply poll_wf.
  - destruct Hn. by split.
  - unfold relay_start. destruct (foldl _ _ _) as [bs started]. destruct Hn. case_match; by split.
  - destruct Hn. by split.
  - by apply set_backends_wf.
Qed.

Lemma reachable_wf mode pubkey n :
  reachable (λ n, n = new_with_transport mode pubkey) relay_step n → wf_relay n.
Proof.
  intros Hr. revert n Hr. apply (reachable_invariant _ _ wf_relay); [|apply relay_step_wf]. intros n ->.
    assert (Hnew : wf_relay relay_new).
    { split; simpl; try by_leb; [constructor|..].
      - exists []. split; [apply bs_new_refines; by_leb|done].
      - intros d. unfold bs_contains. intros ?%bool_decide_eq_true. set_solver. }
    destruct mode; cbn [new_with_transport]; unfold add_backend;
      repeat apply set_backends_wf; done.
Qed.

(** Whatever a relay receives and publishes, its queues stay within their
    caps (10,000 recent envelopes, 4,096 undrained events, 100,000 digests),
    and every envelope it keeps for others is valid. *)
Theorem relay_bounded (mode : TransportMode) (pubkey : str) (n : RelayNode) :
  reachable (λ n, n = new_with_transport mode pubkey) relay_step n →
  (zlen (recent n) ≤ RECENT_CAPACITY)%Z ∧ Forall valid_envelope (recent n) ∧
  (zlen (delivered n) ≤ DELIVERED_CAPACITY)%Z ∧ (Z.of_nat (bs_len (seen n)) ≤ SEEN_CAPACITY)%Z.
Proof.
  intros Hn%reachable_wf.
  destruct Hn as [? ? ? (w & Hw & Hc) _]. split_and!; try done.
  rewrite (bs_len_refines _ w), <-Hc by done. apply Hw.
Qed.

(** ** Deduplication *)

Definition recorded (n : RelayNode) (d : str) : bool := filter_contains (seen_bloom n) d.

Lemma note_seen_recorded n d : recorded (note_seen n d) d = true.
Proof. apply filter_inserted. Qed.

Lemma note_seen_kept n d k : recorded n d = true → recorded (note_seen n k) d = true.
Proof. apply filter_insert_kept. Qed.

Lemma re_broadcast_filter n env i : seen_bloom (re_broadcast n env i) = seen_bloom n.
Proof. unfold re_broadcast. by case_match. Qed.

Lemma process_job_kept n idx env ev d :
  recorded n d = true → recorded (process_job n idx env ev).1 d = true.
Proof.
  intros Hd. unfold process_job. destruct ev as [ev|]; [|done]. case_match; [done|]. cbn [fst].
  unfold recorded. case_match; rewrite ?re_broadcast_filter; by apply note_seen_kept.
Qed.

Lemma process_jobs_kept jobs n k d :
  recorded n d = true → recorded (process_jobs n jobs k).1 d = true.
Proof.
  revert n k. induction jobs as [|[[idx env] ev] jobs IH]; intros n k Hd; [done|]. cbn [process_jobs].
  pose proof (process_job_kept n idx env ev d Hd). destruct (process_job n idx env ev) as [n' new]. by apply IH.
Qed.

Lemma publish_kept n id k au created p d :
  recorded n d = true → recorded (publish n id k au created p).1 d = true.
Proof.
  intros Hd. unfold publish. repeat (case_match; [done|]). destruct (broadcast_all _ _) as [bs total].
  by apply note_seen_kept.
Qed.

Lemma relay_step_kept n n' d : recorded n d = true → relay_step n n' → recorded n' d = true.
Proof.
  intros Hd Hs. destruct Hs as [n id k au created p ? ? ? ? ?|n c|n|n|n|n bs]; try done.
  - by apply publish_kept.
  - unfold poll. destruct (receive_all _) as [bs inbound]. destruct (verify_jobs _ _) as [c' es].
    pose proof (process_jobs_kept (zip (collect_jobs inbound []) es) (set_backends n bs) 0 d Hd) as Hk.
    by destruct (process_jobs _ _ _).
  - unfold relay_start. destruct (foldl _ _ _) as [bs started]. by case_match.
Qed.

Lemma process_job_duplicate n idx env ev :
  recorded n (payload_digest (Envelope.payload env)) = true → process_job n idx env ev = (n, false).
Proof. unfold process_job, recorded. intros ->. by destruct ev. Qed.

(** C3: a payload is handled at most once: after a node has accepted or
    published it, an envelope with the same payload digest, from any backend
    and at any later moment, changes nothing (the recency window may forget a
    digest, the Bloom filter never does). *)
Theorem relay_at_most_once (mode : TransportMode) (pubkey : str) (n0 n1 n : RelayNode) (d : str) :
  reachable (λ n, n = new_with_transport mode pubkey) relay_step n0 →
  (∃ idx env ev, d = payload_digest (Envelope.payload env) ∧ n1 = (process_job n0 idx env (Some ev)).1) ∨
  (∃ id k au created p total, d = payload_digest p ∧ publish n0 id k au created p = (n1, Ok total)) →
  rtc relay_step n1 n →
  ∀ idx env ev, payload_digest (Envelope.payload env) = d → process_job n idx env ev = (n, false).
Proof.
  intros Hn0%reachable_wf Hd Hrun idx env ev Henv. apply process_job_duplicate. rewrite Henv. clear Henv.
  assert (Hrec : recorded n1 d = true).
  { destruct Hd as [(i & e & v & -> & ->)|(id & k & au & cr & p & total & -> & Hp)].
    - unfold process_job. set (dg := payload_digest _).
      destruct (filter_contains (seen_bloom n0) dg) eqn:E; [done|]. cbn [orb].
      destruct (bs_contains (seen n0) dg) eqn:E2; [by apply (wr_bloom _ Hn0)|]. cbn [fst]. unfold recorded.
      case_match; rewrite ?re_broadcast_filter; apply filter_inserted.
    - unfold publish in Hp. repeat (case_match; [done|]).
      destruct (broadcast_all _ _) as [bs t]. injection Hp as <- _. apply filter_inserted. }
  clear Hd Hn0. induction Hrun; eauto using relay_step_kept.
Qed.

(** ** What a new envelope and a publication do *)

Lemma re_broadcast_backends n env i d j b :
  Envelope.to_bytes env = Ok d → backends n !! j = Some b →
  backends (re_broadcast n env i) !! j =
    Some (if negb (j =? i) && mb_running b then (mb_broadcast b d).1 else b).
Proof. intros E Hj. unfold re_broadcast. rewrite E. cbn. by rewrite list_lookup_imap, Hj. Qed.

(** C4: an envelope whose payload is new and verified is queued for the app and
    kept for re-broadcast (dropping the oldest past the caps), counted and
    recorded; below the hop ceiling every running backend but the one it came
    from broadcasts bytes that parse to the same envelope with one more hop,
    and at the ceiling nothing is sent. *)
Theorem relay_accepts_new (n : RelayNode) (idx : nat) (env : MeshEnvelope) (ev : Event) :
  valid_envelope env →
  let d := payload_digest (Envelope.payload env) in
  recorded n d = false → bs_contains (seen n) d = false →
  let '(n', new) := process_job n idx env (Some ev) in
  new = true ∧ recorded n' d = true ∧ received n' = (received n + 1)%Z ∧
  delivered n' = lastn (Z.to_nat DELIVERED_CAPACITY) (delivered n ++ [ev]) ∧
  recent n' = lastn (Z.to_nat RECENT_CAPACITY) (recent n ++ [env]) ∧
  (if (hop_count env <? MAX_HOP_COUNT)%Z then
     ∃ next bytes, Envelope.from_bytes bytes = Some next ∧ hop_count next = (hop_count env + 1)%Z ∧
       Envelope.payload next = Envelope.payload env ∧ Envelope.event_id next = Envelope.event_id env ∧
       ∀ j b, backends n !! j = Some b →
         backends n' !! j = Some (if negb (j =? idx) && mb_running b then (mb_broadcast b bytes).1 else b)
   else backends n' = backends n).
Proof.
  intros He d Hr Hs. unfold process_job. fold d. unfold recorded in Hr. rewrite Hr, Hs. cbn [orb].
  destruct (into_incremented_hop env) as [next|] eqn:E.
  - destruct (incremented_valid env next He E) as (Hv & Hh & Hp & Hid).
    assert ((hop_count env <? MAX_HOP_COUNT)%Z = true) as ->.
    { apply Z.ltb_lt. destruct (Z.lt_ge_cases (hop_count env) MAX_HOP_COUNT) as [|Hge]; [done|].
      apply incremented_none in Hge. congruence. }
    assert (Hkeep : ∀ (n1 : RelayNode),
      received (re_broadcast n1 next idx) = received n1 ∧ delivered (re_broadcast n1 next idx) = delivered n1 ∧
      recent (re_broadcast n1 next idx) = recent n1) by (intros n1; unfold re_broadcast; by case_match).
    set (n1 := mk_relay _ _ _ _ _ _ _ _). destruct (Hkeep n1) as (-> & -> & ->).
    split; [done|]. split; [unfold recorded; rewrite re_broadcast_filter; apply filter_inserted|].
    split; [done|]. split; [by apply pop_while_lastn|]. split; [by apply pop_while_lastn|].
    exists next, (encoding next). split; [by apply from_bytes_encoding|]. do 3 (split; [done|]).
    intros j b Hj. apply re_broadcast_backends; [by apply to_bytes_valid|done].
  - apply incremented_none in E. rewrite (proj2 (Z.ltb_ge _ _)) by done.
    split; [done|]. split; [apply filter_inserted|].
    split; [done|]. split; [by apply pop_while_lastn|]. split; [by apply pop_while_lastn|done].
Qed.

Lemma keep_newest {A} cap (q : list A) x :
  (1 ≤ cap)%Z → last (if (cap <? zlen (q ++ [x]))%Z then tail (q ++ [x]) else q ++ [x]) = Some x.
Proof.
  intros Hc. destruct (Z.ltb_spec cap (zlen (q ++ [x]))) as [Hl|]; [|apply last_snoc].
  destruct q as [|y q]; [simpl in Hl; lia|]. apply (last_snoc x q).
Qed.

(** [publish] refuses exactly when the node is stopped, the payload is over
    256 KiB, or a trimmed identifier is empty or over 128 bytes, and then
    changes nothing; otherwise every running backend broadcasts bytes that
    parse to a hop-0 envelope of the payload and the normalised identifiers,
    which is recorded and kept as the newest recent envelope. *)
Theorem publish_spec (n : RelayNode) (id : str) (k : Z) (au : str) (created : Z) (p : bytes) :
  utf8_valid id = true → utf8_valid au = true → (0 ≤ k ≤ u16_max)%Z → (0 ≤ created ≤ u64_max)%Z → all_bytes p →
  let accepted := running n = true ∧ (zlen p ≤ MAX_PAYLOAD_BYTES)%Z ∧
    (0 < length (clean id) ≤ 128) ∧ (0 < length (clean au) ≤ 128) in
  match publish n id k au created p with
  | (n', Err _) => ¬ accepted ∧ n' = n
  | (n', Ok total) => accepted ∧
      ∃ env bytes, Envelope.from_bytes bytes = Some env ∧
        env = mk_env ENVELOPE_VERSION 0 (clean id) k (clean au) created p ∧
        (backends n', total) = broadcast_all (backends n) bytes ∧
        recorded n' (payload_digest p) = true ∧ last (recent n') = Some env ∧ delivered n' = delivered n
  end.
Proof.
  intros ? ? ? ? ? accepted. unfold publish. fold (clean id) (clean au). subst accepted.
  destruct (running n) eqn:Er; [|split; [|done]; by intros [? _]]. cbn [negb].
  destruct (Z.ltb_spec MAX_PAYLOAD_BYTES (zlen p)); [split; [lia|done]|].
  destruct (bool_decide (clean id = []) || bool_decide (clean au = [])) eqn:E1.
  { split; [|done]. intros (_ & _ & Hi & Ha). apply orb_true_iff in E1 as [E%bool_decide_eq_true|E%bool_decide_eq_true];
      rewrite E in *; simpl in *; lia. }
  apply orb_false_iff in E1 as [E1%bool_decide_eq_false E2%bool_decide_eq_false].
  destruct ((128 <? zlen (clean id))%Z || (128 <? zlen (clean au))%Z) eqn:E3.
  { split; [|done]. intros (_ & _ & Hi & Ha). apply orb_true_iff in E3 as [E%Z.ltb_lt|E%Z.ltb_lt]; lia. }
  apply orb_false_iff in E3 as [E3%Z.ltb_ge E4%Z.ltb_ge].
  assert (Hv : valid_envelope (envelope_new (clean id) k (clean au) created p)).
  { apply envelope_new_valid; rewrite ?clean_idemp; auto using clean_valid. }
  assert (Hpos : ∀ l : str, l ≠ [] → 0 < length l) by (intros [|? ?] ?; simpl; [done|lia]).
  rewrite (to_bytes_valid _ Hv). cbn [unwrap_or].
  set (env := envelope_new _ _ _ _ _) in *.
  assert (Henv : env = mk_env ENVELOPE_VERSION 0 (clean id) k (clean au) created p).
  { unfold env, envelope_new. by rewrite !(clean_idemp _ : to_ascii_lowercase (trim (clean _)) = _). }
  destruct (broadcast_all _ _) as [bs total] eqn:Eb.
  split; [split_and!; auto; lia|].
  exists env, (encoding env). split; [by apply from_bytes_encoding|]. split; [done|].
  split; [symmetry; exact Eb|]. split; [apply filter_inserted|]. split; [|done].
  apply keep_newest. by_leb.
Qed.
End relay.

(** ** A concrete relay *)

Module ToyMesh.

(** A transport with an inbox and an outbox. *)
Record backend := mk_toy { tb_kind : BackendKind; tb_running : bool; tb_in : list (list Z); tb_out : list (list Z) }.

Definition as_bytes (l : list (list Z)) : list (list Z) := (λ p : list Z, (λ x : Z, x mod 256)%Z <$> p) <$> l.

#[export] Instance toy_backend : MeshBackend backend := {|
  mb_kind := tb_kind;
  mb_start b := (mk_toy (tb_kind b) true (tb_in b) (tb_out b), Ok ());
  mb_stop b := mk_toy (tb_kind b) false (tb_in b) (tb_out b);
  mb_running := tb_running;
  mb_broadcast b p := (mk_toy (tb_kind b) (tb_running b) (tb_in b) (tb_out b ++ [p]), Ok 1%Z);
  mb_recv b := (mk_toy (tb_kind b) (tb_running b) [] (tb_out b), as_bytes (tb_in b));
  mb_peers_count b := 1%Z
|}.

Lemma toy_recv_bytes (b : backend) : Forall all_bytes (mb_recv b).2.
Proof.
  cbn. apply Forall_fmap, Forall_forall. intros p _. apply Forall_fmap, Forall_forall. intros x _.
  apply Z.mod_pos_bound. done.
Qed.

(** An exact set as the filter. *)
#[export] Instance toy_bloom : Bloom (list (list Z)) := {|
  bloom_empty := [];
  bloom_contains f d := bool_decide (d ∈ f);
  bloom_insert f d := d :: f
|}.

#[export] Instance toy_bloom_laws : BloomLaws (list (list Z)).
Proof.
  split; intros; cbn in *; rewrite ?bool_decide_eq_true in *; set_solver.
Qed.

(** The I2P transport has one envelope waiting. *)
Definition toy_mk (k : BackendKind) (pubkey : str) : backend :=
  mk_toy k true (match k with KI2p => [encoding w_envelope] | _ => [] end) [].

(** Events are their JSON text. *)
Definition ident (d : list Z) : list Z := d.
Definition accept (d : list Z) : bool := true.
Abbreviation node := (RelayNode (B := backend) (F := list (list Z)) (Event := list Z)).
Definition node0 : node := new_with_transport toy_mk TDefault (lit "npub").
Definition polled : node * cache_state * nat := poll ident ident accept Some ident ident true node0 None.
Definition node1 : node := polled.1.1.
Abbreviation step := (relay_step ident ident accept (Some : list Z → option (list Z)) ident ident true).

Lemma node1_reachable : reachable (λ n : node, n = new_with_transport toy_mk TDefault (lit "npub")) step node1.
Proof. eapply reachable_step; [by apply reachable_init|]. apply (rs_poll _ _ _ _ _ _ _ node0 None). Qed.
Definition node2 : node := (process_job ident ident node0 1 w_envelope (Some (lit "{}"))).1.
End ToyMesh.

#[local] Existing Instances ToyMesh.toy_backend ToyMesh.toy_bloom ToyMesh.toy_bloom_laws.

Example toy_poll_delivers :
  delivered ToyMesh.node1 = [lit "{}"] ∧ ToyMesh.polled.2 = 1 ∧
  (λ b, length (ToyMesh.tb_out b)) <$> backends ToyMesh.node1 = [1; 0; 1].
Proof. vm_compute. done. Qed.

Lemma relay_bounded_witness :
  (zlen (delivered ToyMesh.node1) ≤ DELIVERED_CAPACITY)%Z ∧ Forall valid_envelope (recent ToyMesh.node1).
Proof.
  destruct (relay_bounded ToyMesh.ident ToyMesh.ident ToyMesh.accept Some ToyMesh.ident ToyMesh.ident true
    ToyMesh.toy_mk ToyMesh.toy_recv_bytes TDefault (lit "npub") ToyMesh.node1 ToyMesh.node1_reachable)
    as (_ & H1 & H2 & _).
  split; [exact H2|exact H1].
Defined.

Lemma relay_at_most_once_witness :
  process_job ToyMesh.ident ToyMesh.ident ToyMesh.node2 0 w_envelope (Some (lit "{}")) = (ToyMesh.node2, false).
Proof.
  apply (relay_at_most_once ToyMesh.ident ToyMesh.ident ToyMesh.accept Some ToyMesh.ident ToyMesh.ident true
    ToyMesh.toy_mk ToyMesh.toy_recv_bytes TDefault (lit "npub") ToyMesh.node0 ToyMesh.node2 ToyMesh.node2
    (payload_digest ToyMesh.ident ToyMesh.ident (lit "{}"))).
  - by apply reachable_init.
  - left. exists 1, w_envelope, (lit "{}"). split; [vm_compute; reflexivity|reflexivity].
  - apply rtc_refl.
  - vm_compute. reflexivity.
Defined.

Lemma relay_accepts_new_witness :
  (process_job ToyMesh.ident ToyMesh.ident ToyMesh.node0 1 w_envelope (Some (lit "{}"))).2 = true.
Proof.
  pose proof (relay_accepts_new ToyMesh.ident ToyMesh.ident ToyMesh.node0 1 w_envelope (lit "{}")
    w_envelope_valid) as H.
  cbv zeta in H. specialize (H ltac:(vm_compute; reflexivity) ltac:(vm_compute; reflexivity)).
  destruct (process_job _ _ _ _ _ _) as [n' new]. exact (proj1 H).
Defined.

Lemma publish_spec_witness :
  match publish ToyMesh.ident ToyMesh.ident (relay_start ToyMesh.node0).1 (lit " AB ") 1 (lit "npub") 0 (lit "{}") with
  | (n', Ok total) => last (recent n') = Some (mk_env 1 0 (lit "ab") 1 (lit "npub") 0 (lit "{}"))
  | _ => False
  end.
Proof.
  pose proof (publish_spec ToyMesh.ident ToyMesh.ident (relay_start ToyMesh.node0).1 (lit " AB ") 1 (lit "npub") 0 (lit "{}")
    ltac:(vm_compute; reflexivity) ltac:(vm_compute; reflexivity) ltac:(split; by_leb) ltac:(split; by_leb)
    ltac:(repeat constructor; by_leb)) as H.
  assert (Hok : is_ok (publish ToyMesh.ident ToyMesh.ident (relay_start ToyMesh.node0).1 (lit " AB ") 1 (lit "npub") 0
    (lit "{}")).2 = true) by (vm_compute; reflexivity).
  cbv zeta in H. destruct (publish _ _ _ _ _ _ _ _) as [n' [total|e]]; [|discriminate Hok].
  destruct H as (_ & env & bs & _ & E & _ & _ & H & _). rewrite H, E. vm_compute. reflexivity.
Defined.
