(* ===== verification/PlumTree.v ===== *)
(** The PlumTree gossip node (src/network-core/src/plumtree.rs): eager and lazy
    peers, the four messages, and the per-peer graft credit. The monotonic
    clock is an argument in nanoseconds. The iteration order of a [HashSet] is
    unspecified; [elements] stands for it, and the theorems speak of the
    messages sent, not of their order. *)

From S2P Require Import Prelude RustStr Bounded.

(** Source: src/network-core/src/plumtree.rs:11-11 (MAX_RECEIVED_MESSAGES) *)
Definition MAX_RECEIVED_MESSAGES : Z := 10000.
(** Source: src/network-core/src/plumtree.rs:14-14 (MAX_PENDING_GRAFTS) *)
Definition MAX_PENDING_GRAFTS : Z := 4096.
(** Source: src/network-core/src/plumtree.rs:17-17 (EAGER_PEER_CAP) *)
Definition EAGER_PEER_CAP : Z := 64.
(** Source: src/network-core/src/plumtree.rs:19-19 (LAZY_PEER_CAP) *)
Definition LAZY_PEER_CAP : Z := 256.
(** Source: src/network-core/src/plumtree.rs:22-22 (GRAFT_WINDOW) *)
Definition GRAFT_WINDOW : Z := 1000000000.
(** Source: src/network-core/src/plumtree.rs:23-23 (GRAFT_CREDITS_PER_WINDOW) *)
Definition GRAFT_CREDITS_PER_WINDOW : Z := 16.

(** Source: src/network-core/src/plumtree.rs:27-41 (PlumTreeMessage) *)
Inductive PlumTreeMessage :=
| Gossip (message_id payload_json : list Z) (round : Z)
| IHave (message_id : list Z) (round : Z)
| Graft (message_id : list Z)
| Prune (message_id : list Z).

#[export] Instance message_eq_dec : EqDecision PlumTreeMessage.
Proof. solve_decision. Defined.

(** Source: src/network-core/src/plumtree.rs:45-55 (PlumTreeNode) *)
Record PlumTreeNode := mk_plum {
  self_peer_id : list Z;
  eager_peers : gset (list Z);
  lazy_peers : gset (list Z);
  received_messages : BoundedSet (list Z);
  pending_grafts : BoundedMap (list Z) (list Z);
  payload_cache : BoundedMap (list Z) (list Z);
  graft_windows : gmap (list Z) (Z * Z)
}.

(** Source: src/network-core/src/plumtree.rs:58-68 (PlumTreeNode::new) *)
Definition plum_new (self_peer_id : str) : PlumTreeNode :=
  mk_plum self_peer_id ∅ ∅ (bs_new MAX_RECEIVED_MESSAGES) (bm_new MAX_PENDING_GRAFTS)
    (bm_new MAX_RECEIVED_MESSAGES) ∅.

Definition set_peers (n : PlumTreeNode) eager lazy_ : PlumTreeNode :=
  mk_plum (self_peer_id n) eager lazy_ (received_messages n) (pending_grafts n) (payload_cache n) (graft_windows n).
Definition set_pending (n : PlumTreeNode) p : PlumTreeNode :=
  mk_plum (self_peer_id n) (eager_peers n) (lazy_peers n) (received_messages n) p (payload_cache n) (graft_windows n).
Definition set_windows (n : PlumTreeNode) w : PlumTreeNode :=
  mk_plum (self_peer_id n) (eager_peers n) (lazy_peers n) (received_messages n) (pending_grafts n) (payload_cache n) w.

(** Source: src/network-core/src/plumtree.rs:75-84 (PlumTreeNode::add_peer) *)
Definition add_peer (n : PlumTreeNode) (peer_id : str) : PlumTreeNode :=
  if bool_decide (peer_id = self_peer_id n) then n
  else if (zsize (eager_peers n) <? EAGER_PEER_CAP)%Z then
    set_peers n ({[ peer_id ]} ∪ eager_peers n) (lazy_peers n)
  else if (zsize (lazy_peers n) <? LAZY_PEER_CAP)%Z then
    set_peers n (eager_peers n) ({[ peer_id ]} ∪ lazy_peers n)
  else n.

(** Source: src/network-core/src/plumtree.rs:87-90 (PlumTreeNode::remove_peer) *)
Definition remove_peer (n : PlumTreeNode) (peer_id : str) : PlumTreeNode :=
  set_peers n (eager_peers n ∖ {[ peer_id ]}) (lazy_peers n ∖ {[ peer_id ]}).

(** Source: src/network-core/src/plumtree.rs:227-229 (is_plausible_event_id) *)
Definition is_plausible_event_id (id : str) : bool := (length id =? 64) && forallb is_ascii_hexdigit id.

(** Source: src/network-core/src/plumtree.rs:206-221 (PlumTreeNode::consume_graft_credit) *)
Definition consume_graft_credit (n : PlumTreeNode) (now : Z) (peer : str) : PlumTreeNode * bool :=
  let entry := default (now, GRAFT_CREDITS_PER_WINDOW) (graft_windows n !! peer) in
  let entry :=
    if (GRAFT_WINDOW <=? sat_sub now entry.1)%Z then (now, GRAFT_CREDITS_PER_WINDOW) else entry in
  if (entry.2 =? 0)%Z then (set_windows n (<[peer := entry]> (graft_windows n)), false)
  else (set_windows n (<[peer := (entry.1, entry.2 - 1)%Z]> (graft_windows n)), true).

(** Source: src/network-core/src/plumtree.rs:101-150 (PlumTreeNode::handle_incoming, Gossip) *)
Definition handle_gossip (n : PlumTreeNode) (from_peer message_id payload_json : str) (round : Z)
    : PlumTreeNode * list (list Z * PlumTreeMessage) :=
  if bs_contains (received_messages n) message_id then
    (set_peers n (eager_peers n ∖ {[ from_peer ]}) ({[ from_peer ]} ∪ lazy_peers n),
     [(from_peer, Prune message_id)])
  else
    let n := mk_plum (self_peer_id n) (eager_peers n) (lazy_peers n)
      (bs_insert (received_messages n) message_id).1
      (bm_remove (pending_grafts n) message_id).1
      (bm_insert (payload_cache n) message_id payload_json).1
      (graft_windows n) in
    (n,
     ((λ p, (p, Gossip message_id payload_json (sat_add u32_max round 1)))
        <$> filter (λ p, p ≠ from_peer) (elements (eager_peers n))) ++
     ((λ p, (p, IHave message_id (sat_add u32_max round 1)))
        <$> filter (λ p, p ≠ from_peer) (elements (lazy_peers n)))).

(** Source: src/network-core/src/plumtree.rs:151-172 (PlumTreeNode::handle_incoming, IHave) *)
Definition handle_ihave (n : PlumTreeNode) (now : Z) (from_peer message_id : str)
    : PlumTreeNode * list (list Z * PlumTreeMessage) :=
  if negb (is_plausible_event_id message_id) then (n, [])
  else
    let '(n, granted) := consume_graft_credit n now from_peer in
    if negb granted then (n, [])
    else if negb (bs_contains (received_messages n) message_id)
            && negb (bm_contains_key (pending_grafts n) message_id) then
      (set_pending n (bm_insert (pending_grafts n) message_id from_peer).1, [(from_peer, Graft message_id)])
    else (n, []).

(** Source: src/network-core/src/plumtree.rs:173-192 (PlumTreeNode::handle_incoming, Graft) *)
Definition handle_graft (n : PlumTreeNode) (from_peer message_id : str)
    : PlumTreeNode * list (list Z * PlumTreeMessage) :=
  let n :=
    if bool_decide (from_peer ∈ lazy_peers n) && (zsize (eager_peers n) <? EAGER_PEER_CAP)%Z
    then set_peers n ({[ from_peer ]} ∪ eager_peers n) (lazy_peers n ∖ {[ from_peer ]}) else n in
  (n,
   match bm_get (payload_cache n) message_id with
   | Some payload => [(from_peer, Gossip message_id payload 0)]
   | None => []
   end).

(** Source: src/network-core/src/plumtree.rs:93-201 (PlumTreeNode::handle_incoming) *)
Definition handle_incoming (n : PlumTreeNode) (now : Z) (from_peer : str) (msg : PlumTreeMessage)
    : PlumTreeNode * list (list Z * PlumTreeMessage) :=
  match msg with
  | Gossip message_id payload_json round => handle_gossip n from_peer message_id payload_json round
  | IHave message_id _ => handle_ihave n now from_peer message_id
  | Graft message_id => handle_graft n from_peer message_id
  | Prune _ => (set_peers n (eager_peers n ∖ {[ from_peer ]}) ({[ from_peer ]} ∪ lazy_peers n), [])
  end.

(** ** Runs *)

Inductive plum_event :=
| EAdd (peer : list Z)
| ERemove (peer : list Z)
| EMessage (now : Z) (from_peer : list Z) (msg : PlumTreeMessage).

Definition plum_handle (n : PlumTreeNode) (e : plum_event) : PlumTreeNode * list (list Z * PlumTreeMessage) :=
  match e with
  | EAdd p => (add_peer n p, [])
  | ERemove p => (remove_peer n p, [])
  | EMessage now from msg => handle_incoming n now from msg
  end.

(** The final node and everything sent. *)
Fixpoint plum_run (n : PlumTreeNode) (es : list plum_event) : PlumTreeNode * list (list Z * PlumTreeMessage) :=
  match es with
  | [] => (n, [])
  | e :: es => let '(n, out) := plum_handle n e in let '(n, outs) := plum_run n es in (n, out ++ outs)
  end.

(** ** Bounds *)

Record wf_plum (n : PlumTreeNode) : Prop := {
  wp_eager : (zsize (eager_peers n) ≤ EAGER_PEER_CAP)%Z;
  wp_received : ∃ w, bs_refines (received_messages n) w ∧ bs_capacity (received_messages n) = MAX_RECEIVED_MESSAGES;
  wp_pending : bm_wf (pending_grafts n) ∧ bm_capacity (pending_grafts n) = MAX_PENDING_GRAFTS;
  wp_cache : bm_wf (payload_cache n) ∧ bm_capacity (payload_cache n) = MAX_RECEIVED_MESSAGES;
  wp_credits : map_Forall (λ _ e, 0 ≤ e.2 ≤ GRAFT_CREDITS_PER_WINDOW)%Z (graft_windows n)
}.

Lemma bm_insert_capacity {V} (m : BoundedMap (list Z) V) k v : bm_capacity (bm_insert m k v).1 = bm_capacity m.
Proof. unfold bm_insert. case_match; [done|]. by destruct (bm_make_room m). Qed.

Lemma bm_remove_capacity {V} (m : BoundedMap (list Z) V) k : bm_capacity (bm_remove m k).1 = bm_capacity m.
Proof. unfold bm_remove. by case_match. Qed.

Lemma size_insert_under (s : gset (list Z)) x cap : (zsize s < cap)%Z → (zsize ({[ x ]} ∪ s) ≤ cap)%Z.
Proof.
  intros Hs. pose proof (size_union_alt {[ x ]} s) as E. rewrite size_singleton in E.
  assert (size (s ∖ {[ x ]}) ≤ size s) by (apply subseteq_size; set_solver). lia.
Qed.

Lemma size_remove_le (s : gset (list Z)) x cap : (zsize s ≤ cap)%Z → (zsize (s ∖ {[ x ]}) ≤ cap)%Z.
Proof. intros. assert (size (s ∖ {[ x ]}) ≤ size s) by (apply subseteq_size; set_solver). lia. Qed.

Lemma set_peers_wf n eager lazy_ :
  wf_plum n → (zsize eager ≤ EAGER_PEER_CAP)%Z → wf_plum (set_peers n eager lazy_).
Proof. intros [] ?. by split. Qed.

Lemma consume_wf n now peer : wf_plum n → wf_plum (consume_graft_credit n now peer).1.
Proof.
  intros [? ? ? ? Hc]. unfold consume_graft_credit.
  set (entry := if (GRAFT_WINDOW <=? _)%Z then _ else _).
  assert (He : (0 ≤ entry.2 ≤ GRAFT_CREDITS_PER_WINDOW)%Z).
  { subst entry. unfold GRAFT_CREDITS_PER_WINDOW in *. case_match; [simpl; lia|].
    destruct (graft_windows n !! peer) as [e|] eqn:E; [by apply (Hc peer e E)|simpl; lia]. }
  destruct (Z.eqb_spec entry.2 0); (split; try done); cbn [fst set_windows graft_windows];
    apply map_Forall_insert_2; auto; cbn [snd]; lia.
Qed.

Lemma handle_wf n e : wf_plum n → wf_plum (plum_handle n e).1.
Proof.
  intros Hn. pose proof Hn as [He (w & Hw & Hwc) [Hp Hpc] [Hc Hcc] Hcr]. destruct e as [p|p|now from msg]; cbn [plum_handle fst].
  - unfold add_peer. case_bool_decide; [done|]. destruct (Z.ltb_spec (zsize (eager_peers n)) EAGER_PEER_CAP).
    + apply set_peers_wf; [done|]. by apply size_insert_under.
    + case_match; [|done]. by apply set_peers_wf.
  - by apply set_peers_wf, size_remove_le.
  - destruct msg as [id p r|id r|id|id]; cbn [handle_incoming].
    + unfold handle_gossip. case_match; [by apply set_peers_wf, size_remove_le|].
      destruct (bs_insert_refines (received_messages n) w id) as (? & _ & ?); [rewrite Hwc; by_leb|done|].
      split; cbn [fst eager_peers received_messages pending_grafts payload_cache graft_windows]; try done.
      * eexists. split; [done|congruence].
      * split; [by apply bm_remove_wf|by rewrite bm_remove_capacity].
      * split; [by apply bm_insert_wf|by rewrite bm_insert_capacity].
    + unfold handle_ihave. case_match; [done|]. pose proof (consume_wf n now from Hn) as Hn'.
      destruct (consume_graft_credit n now from) as [n1 granted]. cbn [fst] in Hn'.
      destruct granted; cbn [negb]; [|done]. case_match; [|done].
      destruct Hn' as [? ? [? ?] ? ?]. split; cbn [fst set_pending pending_grafts]; try done.
      split; [by apply bm_insert_wf|by rewrite bm_insert_capacity].
    + unfold handle_graft. cbn [fst]. case_match eqn:E; [|done]. apply andb_true_iff in E as [_ E%Z.ltb_lt].
      by apply set_peers_wf, size_insert_under.
    + by apply set_peers_wf, size_remove_le.
Qed.

Lemma plum_run_wf es n : wf_plum n → wf_plum (plum_run n es).1.
Proof.
  revert n. induction es as [|e es IH]; intros n Hn; [done|]. cbn [plum_run].
  pose proof (handle_wf n e Hn) as Hn'. destruct (plum_handle n e) as [n' out]. specialize (IH n' Hn').
  by destruct (plum_run n' es).
Qed.

Lemma plum_new_wf s : wf_plum (plum_new s).
Proof.
  split; cbn [plum_new eager_peers received_messages pending_grafts payload_cache graft_windows].
  - rewrite size_empty. by_leb.
  - exists []. split; [apply bs_new_refines; by_leb|done].
  - split; [apply bm_new_wf|done].
  - split; [apply bm_new_wf|done].
  - apply map_Forall_empty.
Qed.

Lemma bm_wf_bound {V} (m : BoundedMap (list Z) V) cap :
  bm_wf m → bm_capacity m = cap → (1 ≤ cap)%Z → (Z.of_nat (bm_len m) ≤ cap)%Z.
Proof. intros Hm <- ?. rewrite bm_wf_len by done. destruct Hm. lia. Qed.

(** Whatever messages arrive, a node pushes payloads to at most
    [EAGER_PEER_CAP] peers and remembers at most [MAX_RECEIVED_MESSAGES]
    message ids and payloads and [MAX_PENDING_GRAFTS] outstanding grafts. *)
Theorem plum_bounded (s : str) (es : list plum_event) :
  let n := (plum_run (plum_new s) es).1 in
  (zsize (eager_peers n) ≤ EAGER_PEER_CAP)%Z ∧
  (Z.of_nat (bs_len (received_messages n)) ≤ MAX_RECEIVED_MESSAGES)%Z ∧
  (Z.of_nat (bm_len (payload_cache n)) ≤ MAX_RECEIVED_MESSAGES)%Z ∧
  (Z.of_nat (bm_len (pending_grafts n)) ≤ MAX_PENDING_GRAFTS)%Z.
Proof.
  cbv zeta. destruct (plum_run_wf es (plum_new s) (plum_new_wf s)) as [? (w & Hw & Hc) [? ?] [? ?] _].
  split; [done|]. split; [rewrite (bs_len_refines _ w), <-Hc by done; apply Hw|].
  split; (apply bm_wf_bound; [done|done|by_leb]).
Qed.

(** ** Strangers *)

(** The lazy set is not bounded by [LAZY_PEER_CAP], and a peer nobody added
    can enter the eager set: a [Prune] from each of any number of distinct
    peers makes all of them lazy, and a [Graft] from one of them then makes it
    eager while there is room. *)
Theorem plum_admits_strangers (s : str) (peers : list (list Z)) (now : Z) (id : str) (n : PlumTreeNode) (p : list Z) :
  NoDup peers →
  let n' := (plum_run (plum_new s) ((λ p, EMessage now p (Prune id)) <$> peers)).1 in
  lazy_peers n' = list_to_set peers ∧ size (lazy_peers n') = length peers ∧
  ((zsize (eager_peers n) < EAGER_PEER_CAP)%Z →
   p ∈ eager_peers (plum_run n [EMessage now p (Prune id); EMessage now p (Graft id)]).1).
Proof.
  intros Hnd. cbv zeta.
  assert (Hl : ∀ l n, lazy_peers (plum_run n ((λ p, EMessage now p (Prune id)) <$> l)).1 = list_to_set l ∪ lazy_peers n).
  { induction l as [|q l IH]; intros m; cbn [fmap list_fmap plum_run plum_handle handle_incoming]; [cbn; set_solver|].
    specialize (IH (set_peers m (eager_peers m ∖ {[ q ]}) ({[ q ]} ∪ lazy_peers m))).
    destruct (plum_run _ _) as [m' outs]. cbn [fst set_peers lazy_peers] in *. set_solver. }
  split; [|split].
  - rewrite Hl. cbn [plum_new lazy_peers]. set_solver.
  - rewrite Hl. cbn [plum_new lazy_peers]. rewrite union_empty_r_L. by apply size_list_to_set.
  - intros He. cbn [plum_run plum_handle handle_incoming set_peers lazy_peers eager_peers fst].
    unfold handle_graft. cbn [set_peers lazy_peers eager_peers fst].
    rewrite bool_decide_eq_true_2 by set_solver.
    rewrite (proj2 (Z.ltb_lt (zsize _) EAGER_PEER_CAP)); [cbn [andb set_peers eager_peers fst]; set_solver|].
    assert (size (eager_peers n ∖ {[ p ]}) ≤ size (eager_peers n)) by (apply subseteq_size; set_solver). lia.
Qed.

(** ** Gossip *)

Lemma window_insert_in cap (w : list (list Z)) k : (1 ≤ cap)%Z → k ∈ window_insert cap w k.
Proof.
  intros Hc. unfold window_insert, lastn. case_decide; [done|].
  rewrite drop_app_le by (rewrite length_app; simpl; lia). set_solver.
Qed.

Lemma elem_of_targets (m : list Z → PlumTreeMessage) (s : gset (list Z)) from p x :
  (p, x) ∈ (λ q, (q, m q)) <$> filter (λ q, q ≠ from) (elements s) ↔ p ≠ from ∧ p ∈ s ∧ x = m p.
Proof.
  rewrite list_elem_of_fmap. split.
  - intros (q & [= -> ->] & [? ?%elem_of_elements]%list_elem_of_filter). done.
  - intros (? & ? & ->). exists p. split; [done|]. apply list_elem_of_filter. by rewrite elem_of_elements.
Qed.

(** C17: a payload seen for the first time is stored and pushed to exactly the
    eager peers but the sender, announced to exactly the lazy peers but the
    sender, with the round one higher; once seen, the same payload from any
    peer is answered by a [Prune] to that peer, who becomes lazy, and is sent
    to nobody. *)
Theorem plum_gossip_spec (n : PlumTreeNode) (now : Z) (from id payload : str) (round : Z) :
  wf_plum n →
  let '(n', out) := handle_incoming n now from (Gossip id payload round) in
  if bs_contains (received_messages n) id then
    out = [(from, Prune id)] ∧ (from ∉ eager_peers n') ∧ (from ∈ lazy_peers n') ∧
    (∀ p, p ≠ from → (p ∈ eager_peers n' ↔ p ∈ eager_peers n))
  else
    (∀ p m, (p, m) ∈ out ↔ (p ≠ from ∧
      (p ∈ eager_peers n ∧ m = Gossip id payload (sat_add u32_max round 1) ∨
       p ∈ lazy_peers n ∧ m = IHave id (sat_add u32_max round 1)))) ∧
    bm_get (payload_cache n') id = Some payload ∧
    bm_contains_key (pending_grafts n') id = false ∧
    (∀ q payload' round', (handle_incoming n' now q (Gossip id payload' round')).2 = [(q, Prune id)]).
Proof.
  intros Hn. cbn [handle_incoming]. unfold handle_gossip at 1.
  destruct (bs_contains (received_messages n) id) eqn:Es.
  { cbn [set_peers eager_peers lazy_peers]. split_and!; set_solver. }
  destruct Hn as [_ (w & Hw & Hc) _ _ _].
  destruct (bs_insert_refines (received_messages n) w id) as (Hw' & _ & _); [rewrite Hc; by_leb|done|].
  split; [|split; [|split]].
  - intros p m. rewrite elem_of_app, !elem_of_targets. naive_solver.
  - cbn [payload_cache]. rewrite bm_insert_get. by rewrite decide_True.
  - cbn [pending_grafts]. unfold bm_contains_key, bm_remove. apply bool_decide_eq_false.
    case_match; cbn [fst bm_map]; rewrite lookup_delete_eq; by intros [].
  - intros q payload' round'. unfold handle_gossip. cbn [received_messages].
    rewrite (bs_contains_refines _ _ _ Hw'), bool_decide_eq_true_2; [done|].
    apply window_insert_in. rewrite Hc. by_leb.
Qed.

(** ** The graft rate *)

Definition is_graft_to (p : list Z) (m : list Z * PlumTreeMessage) : bool :=
  match m.2 with Graft _ => bool_decide (m.1 = p) | _ => false end.
Definition grafts_to (p : list Z) (out : list (list Z * PlumTreeMessage)) : Z :=
  zlen (filter (λ m, is_graft_to p m = true) out).

(** The messages' times do not decrease, from [t0] to [T]. *)
Fixpoint timed (t0 T : Z) (es : list plum_event) : Prop :=
  match es with
  | [] => True
  | EMessage now _ _ :: es => (t0 ≤ now ≤ T)%Z ∧ timed now T es
  | _ :: es => timed t0 T es
  end.

(** The grafts a peer can still obtain between [t0] and [T]. *)
Definition graft_budget (n : PlumTreeNode) (p : list Z) (t0 T : Z) : Z :=
  match graft_windows n !! p with
  | Some (s, c) => c + GRAFT_CREDITS_PER_WINDOW * ((T - s) / GRAFT_WINDOW)
  | None => GRAFT_CREDITS_PER_WINDOW + GRAFT_CREDITS_PER_WINDOW * ((T - t0) / GRAFT_WINDOW)
  end.

Definition window_ok (n : PlumTreeNode) (p : list Z) (t0 : Z) : Prop :=
  ∀ e, graft_windows n !! p = Some e → (e.1 ≤ t0 ∧ 0 ≤ e.2)%Z.

Lemma windows_div (T s now : Z) : (GRAFT_WINDOW ≤ now - s)%Z → ((T - now) / GRAFT_WINDOW + 1 ≤ (T - s) / GRAFT_WINDOW)%Z.
Proof.
  intros Hw. unfold GRAFT_WINDOW in *. rewrite <-Z.div_add by lia. apply Z.div_le_mono; lia.
Qed.

Lemma consume_budget n p t0 now T :
  window_ok n p t0 → (t0 ≤ now ≤ T)%Z →
  let '(n', granted) := consume_graft_credit n now p in
  ((if granted then 1 else 0) + graft_budget n' p now T ≤ graft_budget n p t0 T)%Z ∧ window_ok n' p now.
Proof.
  intros Hok Ht. unfold consume_graft_credit, graft_budget, window_ok, GRAFT_CREDITS_PER_WINDOW, sat_sub in *.
  destruct (graft_windows n !! p) as [[s c]|] eqn:E; cbn [default fst snd]; unfold id; cbn [fst snd].
  - destruct (Hok _ eq_refl) as [Hs Hc]. cbn [fst snd] in *.
    destruct (Z.leb_spec GRAFT_WINDOW (Z.max 0 (now - s))) as [Hw|Hw]; cbn [fst snd Z.eqb].
    + cbn [set_windows graft_windows]. rewrite lookup_insert_eq.
      assert (GRAFT_WINDOW ≤ now - s)%Z as ?%(windows_div T) by (unfold GRAFT_WINDOW in *; lia).
      split; [lia|]. intros e [= <-]. cbn. lia.
    + destruct (Z.eqb_spec c 0) as [Hz|Hz]; cbn [set_windows graft_windows]; rewrite lookup_insert_eq;
        (split; [lia|]); intros e [= <-]; cbn; lia.
  - rewrite (proj2 (Z.leb_gt GRAFT_WINDOW _)) by (unfold GRAFT_WINDOW; lia). cbn [snd fst Z.eqb].
    cbn [set_windows graft_windows]. rewrite lookup_insert_eq.
    assert ((T - now) / GRAFT_WINDOW ≤ (T - t0) / GRAFT_WINDOW)%Z by (apply Z.div_le_mono; unfold GRAFT_WINDOW; lia).
    split; [lia|]. intros e [= <-]. cbn. lia.
Qed.

Lemma consume_other n p q now : p ≠ q → graft_windows (consume_graft_credit n now q).1 !! p = graft_windows n !! p.
Proof.
  intros Hne. unfold consume_graft_credit. destruct (_ =? 0)%Z; cbn [fst set_windows graft_windows];
    by rewrite lookup_insert_ne.
Qed.

(** Time passing without a graft. *)
Lemma budget_later n n' p t0 now T :
  graft_windows n' !! p = graft_windows n !! p → window_ok n p t0 → (t0 ≤ now ≤ T)%Z →
  (graft_budget n' p now T ≤ graft_budget n p t0 T)%Z ∧ window_ok n' p now.
Proof.
  intros E Hok Ht. unfold graft_budget, window_ok in *. rewrite E.
  destruct (graft_windows n !! p) as [[s c]|].
  - split; [lia|]. intros e He. destruct (Hok e He). lia.
  - split; [|done]. assert ((T - now) / GRAFT_WINDOW ≤ (T - t0) / GRAFT_WINDOW)%Z
      by (apply Z.div_le_mono; unfold GRAFT_WINDOW; lia).
    unfold GRAFT_CREDITS_PER_WINDOW. lia.
Qed.

Lemma budget_nonneg n p t0 T : window_ok n p t0 → (t0 ≤ T)%Z → (0 ≤ graft_budget n p t0 T)%Z.
Proof.
  intros Hok Ht. unfold graft_budget, window_ok in *. unfold GRAFT_CREDITS_PER_WINDOW.
  assert (∀ s, (s ≤ t0)%Z → (0 ≤ (T - s) / GRAFT_WINDOW)%Z) as Hdiv
    by (intros; apply Z.div_pos; unfold GRAFT_WINDOW; lia).
  destruct (graft_windows n !! p) as [[s c]|].
  - destruct (Hok _ eq_refl) as [Hs Hc]. cbn in Hs, Hc. specialize (Hdiv s Hs). lia.
  - specialize (Hdiv t0 ltac:(lia)). lia.
Qed.

Lemma grafts_to_app p a b : grafts_to p (a ++ b) = (grafts_to p a + grafts_to p b)%Z.
Proof. unfold grafts_to. rewrite filter_app, length_app. lia. Qed.

Lemma grafts_to_none p out : (∀ q m, (q, m) ∈ out → ∀ id, m = Graft id → q ≠ p) → grafts_to p out = 0%Z.
Proof.
  intros Hno. unfold grafts_to. destruct (filter _ out) as [|[q m] l] eqn:E; [done|].
  assert (Hin : (q, m) ∈ filter (λ m, is_graft_to p m = true) out) by (rewrite E; left).
  apply list_elem_of_filter in Hin as [Hg Hin]. unfold is_graft_to in Hg. cbn in Hg.
  destruct m as [| |id|]; try done. apply bool_decide_eq_true in Hg as ->. by destruct (Hno p (Graft id) Hin id).
Qed.

Lemma grafts_to_one p id : grafts_to p [(p, Graft id)] = 1%Z.
Proof. unfold grafts_to, is_graft_to. cbn. by rewrite bool_decide_eq_true_2. Qed.

Lemma ihave_budget n p t0 now T from id :
  window_ok n p t0 → (t0 ≤ now ≤ T)%Z →
  let '(n', out) := handle_ihave n now from id in
  (grafts_to p out + graft_budget n' p now T ≤ graft_budget n p t0 T)%Z ∧ window_ok n' p now.
Proof.
  intros Hok Ht. unfold handle_ihave.
  destruct (is_plausible_event_id id); cbn [negb]; [|by apply budget_later].
  destruct (decide (p = from)) as [<-|Hne].
  - pose proof (consume_budget n p t0 now T Hok Ht) as Hb.
    destruct (consume_graft_credit n now p) as [n1 [|]]; cbn [negb]; [|done].
    destruct Hb as [Hb Hok1]. destruct (_ && _); [|by split; [unfold grafts_to; simpl; lia|]].
    split; [|exact Hok1]. change (graft_budget (set_pending n1 _) p now T) with (graft_budget n1 p now T).
    rewrite grafts_to_one. exact Hb.
  - pose proof (consume_other n p from now Hne) as E.
    destruct (consume_graft_credit n now from) as [n1 [|]]; cbn [negb fst] in *; [|by apply budget_later].
    destruct (budget_later n n1 p t0 now T E Hok Ht) as [Hb Hok1].
    destruct (_ && _); [|by split; [unfold grafts_to; simpl; lia|]]. split; [|exact Hok1].
    rewrite grafts_to_none; [exact Hb|]. intros q m [= -> ->]%list_elem_of_singleton _ _. congruence.
Qed.

Lemma handle_budget n p t0 T now from msg :
  window_ok n p t0 → (t0 ≤ now ≤ T)%Z →
  let '(n', out) := handle_incoming n now from msg in
  (grafts_to p out + graft_budget n' p now T ≤ graft_budget n p t0 T)%Z ∧ window_ok n' p now.
Proof.
  intros Hok Ht.
  assert (Hsame : ∀ n' out, graft_windows n' = graft_windows n → (∀ q m, (q, m) ∈ out → ∀ id, m ≠ Graft id) →
    (grafts_to p out + graft_budget n' p now T ≤ graft_budget n p t0 T)%Z ∧ window_ok n' p now).
  { intros n' out E Hout. rewrite grafts_to_none by (intros q m Hin id ->; by destruct (Hout q _ Hin id)).
    apply budget_later; [by rewrite E|done|done]. }
  destruct msg as [id pl r|id r|id|id]; cbn [handle_incoming].
  - unfold handle_gossip. destruct (bs_contains _ _); apply Hsame; try done.
    + intros q m [= -> ->]%list_elem_of_singleton. done.
    + intros q m. rewrite elem_of_app, !elem_of_targets. naive_solver.
  - by apply ihave_budget.
  - unfold handle_graft. apply Hsame; [by case_match|]. intros q m. case_match; [|by intros ?%elem_of_nil].
    intros [= -> ->]%list_elem_of_singleton. done.
  - apply Hsame; [done|]. by intros q m ?%elem_of_nil.
Qed.

(** A peer cannot make a node send it more than 16 grafts a second: over
    any run of messages whose times lie between [t0] and [T], the grafts sent
    to one peer number at most 16 for each started second, whatever the other
    messages are. *)
Theorem plum_graft_rate (s : str) (p : list Z) (t0 T : Z) (es : list plum_event) :
  timed t0 T es →
  (grafts_to p (plum_run (plum_new s) es).2 ≤
    GRAFT_CREDITS_PER_WINDOW + GRAFT_CREDITS_PER_WINDOW * Z.max 0 ((T - t0) / GRAFT_WINDOW))%Z.
Proof.
  cut (∀ n t0, window_ok n p t0 → timed t0 T es →
    (grafts_to p (plum_run n es).2 ≤ Z.max (graft_budget n p t0 T) 0)%Z).
  { intros Hrun Ht. specialize (Hrun (plum_new s) t0). unfold window_ok in Hrun.
    cbn [plum_new graft_windows] in Hrun. rewrite lookup_empty in Hrun.
    specialize (Hrun ltac:(done) Ht). unfold graft_budget in Hrun. cbn [plum_new graft_windows] in Hrun.
    rewrite lookup_empty in Hrun. unfold GRAFT_CREDITS_PER_WINDOW in *. lia. }
  induction es as [|e es IH]; intros n t1 Hok Ht; [unfold grafts_to; cbn [plum_run snd filter list_filter length]; lia|].
  cbn [plum_run]. destruct e as [q|q|now from msg]; cbn [plum_handle timed] in *.
  - specialize (IH (add_peer n q) t1).
    assert (E : graft_windows (add_peer n q) = graft_windows n) by (unfold add_peer; repeat case_match; done).
    unfold window_ok, graft_budget in *. rewrite E in IH. specialize (IH Hok Ht).
    by destruct (plum_run _ _).
  - specialize (IH (remove_peer n q) t1 Hok Ht). by destruct (plum_run _ _).
  - destruct Ht as [Ht Hts]. pose proof (handle_budget n p t1 T now from msg Hok Ht) as Hb.
    destruct (handle_incoming n now from msg) as [n' out]. destruct Hb as [Hb Hok'].
    specialize (IH n' now Hok' Hts). destruct (plum_run n' es) as [n'' outs]. cbn [snd] in *.
    pose proof (budget_nonneg n' p now T Hok' ltac:(lia)). rewrite grafts_to_app. lia.
Qed.

(** ** A concrete node *)

Definition w_peer (i : Z) : list Z := [i].
Definition w_hash : str := replicate 64 0x61%Z.
Definition w_plum : PlumTreeNode := (plum_run (plum_new (w_peer 0)) [EAdd (w_peer 1); EAdd (w_peer 2)]).1.

Lemma w_plum_wf : wf_plum w_plum.
Proof. apply plum_run_wf, plum_new_wf. Qed.

Lemma plum_admits_strangers_witness :
  w_peer 9 ∈ eager_peers (plum_run w_plum [EMessage 5 (w_peer 9) (Prune w_hash); EMessage 5 (w_peer 9) (Graft w_hash)]).1.
Proof.
  apply (plum_admits_strangers (w_peer 0) [] 5 w_hash w_plum (w_peer 9)); [constructor|vm_compute; reflexivity].
Defined.

Lemma plum_gossip_spec_witness :
  match handle_incoming w_plum 5 (w_peer 1) (Gossip w_hash (lit "{}") 3) with
  | (n', out) => (w_peer 2, Gossip w_hash (lit "{}") 4) ∈ out ∧ bm_get (payload_cache n') w_hash = Some (lit "{}")
  end.
Proof.
  pose proof (plum_gossip_spec w_plum 5 (w_peer 1) w_hash (lit "{}") 3 w_plum_wf) as H.
  destruct (handle_incoming _ _ _ _) as [n' out].
  assert (E : bs_contains (received_messages w_plum) w_hash = false) by (vm_compute; reflexivity). rewrite E in H.
  destruct H as (H1 & H2 & _). split; [|exact H2]. apply H1. split; [done|]. left.
  split; [apply (bool_decide_eq_true (w_peer 2 ∈ eager_peers w_plum)); vm_compute; reflexivity|reflexivity].
Defined.

(** Twenty announcements within one second obtain sixteen grafts. *)
Definition w_flood : list plum_event :=
  (λ i, EMessage (Z.of_nat i) (w_peer 1) (IHave (replicate 62 0x61%Z ++ [0x30 + Z.of_nat i / 10; 0x30 + Z.of_nat i mod 10]%Z) 0))
    <$> seq 0 20.

Lemma plum_graft_rate_witness :
  (grafts_to (w_peer 1) (plum_run (plum_new (w_peer 0)) w_flood).2 ≤ 16)%Z ∧
  grafts_to (w_peer 1) (plum_run (plum_new (w_peer 0)) w_flood).2 = 16%Z.
Proof.
  split; [|vm_compute; reflexivity].
  assert (H : timed 0 19 w_flood) by (vm_compute; repeat split; discriminate).
  exact (plum_graft_rate (w_peer 0) (w_peer 1) 0 19 w_flood H).
Defined.
