(* ===== verification/Frame.v ===== *)
(** The chunked frames of the offline transports
    (src/mesh-core/src/p2p_frame.rs): splitting a text payload at character
    boundaries, and reassembling a set of chunks received in any order. JSON
    (serde_json) and CRC-32 (crc32fast) are third-party and parameters; slicing
    a string off a character boundary is a panic. *)

From S2P Require Import Prelude RustStr Text.

(** Source: src/mesh-core/src/p2p_frame.rs:12-12 (MAX_CHUNKS) *)
Definition MAX_CHUNKS : Z := 256.
(** Source: src/mesh-core/src/p2p_frame.rs:13-13 (MAX_TOTAL_BYTES) *)
Definition MAX_TOTAL_BYTES : Z := 1024 * 1024.
(** Source: src/mesh-core/src/p2p_frame.rs:14-14 (MAX_CHUNK_SIZE) *)
Definition MAX_CHUNK_SIZE : Z := 64 * 1024.

(** Source: src/mesh-core/src/p2p_frame.rs:36-39 (FramePacketInput) *)
Record FramePacketInput := mk_input { in_payload : list Z; in_chunk_size : Z }.

(** The chunks of both directions have the same fields.
    Source: src/mesh-core/src/p2p_frame.rs:66-71 (ChunkOutput) *)
Record Chunk := mk_chunk { index : Z; total : Z; data : list Z; checksum : Z }.

(** Source: src/mesh-core/src/p2p_frame.rs:75-78 (FramePacketResult) *)
Record FramePacketResult := mk_result { chunks : list Chunk; crc32 : Z }.

(** Source: src/mesh-core/src/p2p_frame.rs:89-92 (DecodeFrameInput) *)
Record DecodeFrameInput := mk_decode { de_chunks : list Chunk; expected_crc32 : option Z }.

(** Source: src/mesh-core/src/p2p_frame.rs:95-99 (DecodeFrameResult) *)
Record DecodeFrameResult := mk_decoded { payload : list Z; valid : bool; res_crc32 : Z }.

(** ** Splitting *)

(** [&s[a..b]]: a panic unless both ends are character boundaries in order. *)
Definition str_slice (s : str) (a b : nat) : may_fail (list Z) :=
  if (a <=? b) && (b <=? length s) && is_char_boundary s a && is_char_boundary s b
  then Ok (take (b - a) (drop a s)) else Err Panic.

(** [while end > start && !s.is_char_boundary(end) { end -= 1 }].
    Source: src/mesh-core/src/p2p_frame.rs:203-205 (encode_chunks, back off) *)
Fixpoint back_off (s : str) (start : nat) (e : nat) : nat :=
  match e with
  | O => O
  | S e' => if (start <? e) && negb (is_char_boundary s e) then back_off s start e' else e
  end.

(** The start of the second character from [i - 1] on, or the length:
    [char_indices().nth(1)] with its default.
    Source: src/mesh-core/src/p2p_frame.rs:207-211 (encode_chunks, next character) *)
Fixpoint next_boundary (s : str) (fuel i : nat) : nat :=
  match fuel with
  | O => length s
  | S fuel => if length s <=? i then length s else if is_char_boundary s i then i else next_boundary s fuel (S i)
  end.

(** The end of the chunk that starts at [start].
    Source: src/mesh-core/src/p2p_frame.rs:202-212 (encode_chunks, end) *)
Definition chunk_end (s : str) (chunk_size start : nat) : nat :=
  let e := back_off s start (Nat.min (start + chunk_size) (length s)) in
  if e =? start then next_boundary s (length s) (S start) else e.

(** Source: src/mesh-core/src/p2p_frame.rs:199-215 (encode_chunks, loop) *)
Fixpoint split_loop (fuel : nat) (s : str) (chunk_size start : nat) : may_fail (list (list Z)) :=
  match fuel with
  | O => Ok []
  | S fuel =>
      if start <? length s then
        let e := chunk_end s chunk_size start in
        slice ← str_slice s start e;
        rest ← split_loop fuel s chunk_size e;
        Ok (slice :: rest)
      else Ok []
  end.

(** ** Splitting is total and loses nothing *)

Lemma boundary_split s i :
  utf8_valid s = true → is_char_boundary s i = true →
  utf8_valid (take i s) = true ∧ utf8_valid (drop i s) = true.
Proof.
  intros Hs Hb. unfold is_char_boundary in Hb. destruct (Nat.eqb_spec i 0) as [->|Hi].
  { by rewrite take_0, drop_0. }
  destruct (s !! i) as [c|] eqn:E.
  - rewrite <-(take_drop_middle s i c E) in Hs. apply utf8_split in Hs; [|by apply negb_true_iff].
    by rewrite (drop_S s c i E).
  - apply Nat.eqb_eq in Hb as ->. by rewrite take_ge, drop_ge by lia.
Qed.

Lemma boundary_end s : is_char_boundary s (length s) = true.
Proof.
  unfold is_char_boundary. case_match; [done|]. by rewrite lookup_ge_None_2, Nat.eqb_refl by lia.
Qed.

Lemma back_off_spec s start e :
  start ≤ e → let r := back_off s start e in start ≤ r ≤ e ∧ (r = start ∨ is_char_boundary s r = true).
Proof.
  induction e as [|e IH]; intros He; cbn [back_off]; [split; [lia|by right]|].
  destruct (Nat.ltb_spec start (S e)); cbn [andb].
  - destruct (is_char_boundary s (S e)) eqn:E; cbn [negb]; [by split; [lia|right]|].
    destruct IH as [? ?]; [lia|]. split; [lia|done].
  - split; [lia|]. left. lia.
Qed.

Lemma next_boundary_spec s fuel i :
  i ≤ length s → length s - i ≤ fuel →
  i ≤ next_boundary s fuel i ≤ length s ∧ is_char_boundary s (next_boundary s fuel i) = true.
Proof.
  revert i. induction fuel as [|fuel IH]; intros i Hi Hf; cbn [next_boundary].
  - replace i with (length s) by lia. split; [lia|apply boundary_end].
  - destruct (Nat.leb_spec (length s) i); [by split; [lia|apply boundary_end]|].
    destruct (is_char_boundary s i) eqn:E; [by split; [lia|]|].
    destruct (IH (S i)) as [? ?]; [lia|lia|]. split; [lia|done].
Qed.

Lemma chunk_end_spec s n start :
  start < length s → start < chunk_end s n start ≤ length s ∧ is_char_boundary s (chunk_end s n start) = true.
Proof.
  intros Hs. unfold chunk_end.
  destruct (back_off_spec s start (Nat.min (start + n) (length s))) as [Hr Hb]; [lia|].
  destruct (Nat.eqb_spec (back_off s start (Nat.min (start + n) (length s))) start) as [E|E].
  - destruct (next_boundary_spec s (length s) (S start)) as [? ?]; [lia|lia|]. split; [lia|done].
  - destruct Hb as [?|?]; [done|]. split; [lia|done].
Qed.

Lemma boundary_shift s start i : start + i ≤ length s → 0 < i →
  is_char_boundary (drop start s) i = is_char_boundary s (start + i).
Proof.
  intros Hl Hi. unfold is_char_boundary. rewrite lookup_drop, length_drop.
  destruct (Nat.eqb_spec i 0), (Nat.eqb_spec (start + i) 0); try lia.
  case_match; [done|]. destruct (Nat.eqb_spec i (length s - start)), (Nat.eqb_spec (start + i) (length s)); done || lia.
Qed.

Lemma split_loop_spec fuel s n start :
  utf8_valid s = true → start ≤ length s → is_char_boundary s start = true → length s - start ≤ fuel →
  ∃ l, split_loop fuel s n start = Ok l ∧ concat l = drop start s ∧
    Forall (λ c, utf8_valid c = true ∧ c ≠ []) l.
Proof.
  intros Hs. revert start. induction fuel as [|fuel IH]; intros start Hl Hb Hf; cbn [split_loop].
  { exists []. split; [done|]. rewrite drop_ge by lia. by split; [|constructor]. }
  destruct (Nat.ltb_spec start (length s)) as [Hlt|]; [|exists []; rewrite drop_ge by lia; by split; [|split; [|constructor]]].
  destruct (chunk_end_spec s n start Hlt) as [He Heb]. set (e := chunk_end s n start) in *.
  unfold str_slice. rewrite (proj2 (Nat.leb_le start e)), (proj2 (Nat.leb_le e _)), Hb, Heb by lia.
  cbn [andb mbind result_bind]. destruct (IH e) as (l & -> & Hc & Hv); [lia|done|lia|].
  cbn [mbind result_bind]. eexists. split; [done|]. cbn [concat]. split.
  - rewrite Hc. rewrite <-(take_drop (e - start) (drop start s)) at 2. rewrite drop_drop.
    by replace (start + (e - start)) with e by lia.
  - constructor; [|done]. split.
    + destruct (boundary_split s start Hs Hb) as [_ Hd].
      apply (boundary_split (drop start s) (e - start)); [done|].
      rewrite boundary_shift by lia. by replace (start + (e - start)) with e by lia.
    + intros E. apply (f_equal length) in E. rewrite length_take, length_drop in E. simpl in E. lia.
Qed.

Section frame.
Context (compute_crc32 : bytes → Z) (from_utf8_lossy : bytes → str).

(** Source: src/mesh-core/src/p2p_frame.rs:193-197 (encode_chunks, chunk_size) *)
Definition effective_chunk_size (n : Z) : Z := if (n =? 0)%Z then 512 else Z.min n MAX_CHUNK_SIZE.

(** Every step of the loop consumes a byte, so the length of the payload is
    enough fuel.
    Source: src/mesh-core/src/p2p_frame.rs:187-240 (encode_chunks) *)
Definition encode_chunks (input : FramePacketInput) : may_fail (option FramePacketResult) :=
  let s := in_payload input in
  if (MAX_TOTAL_BYTES <? zlen s)%Z then Ok None
  else
    slices ← split_loop (length s) s (Z.to_nat (effective_chunk_size (in_chunk_size input))) 0;
    let total := zlen slices in
    if (MAX_CHUNKS <? total)%Z then Ok None
    else
      Ok (Some (mk_result
        (imap (λ idx slice, mk_chunk (Z.of_nat idx) total slice (compute_crc32 slice)) slices)
        (compute_crc32 s))).

Definition rejected : DecodeFrameResult := mk_decoded [] false 0.

(** The order of [sort_unstable_by_key(|c| c.index)]. *)
Definition index_le (a b : Chunk) : Prop := (index a ≤ index b)%Z.
#[local] Instance index_le_dec : RelDecision index_le.
Proof. intros a b. unfold index_le. apply _. Defined.

(** Source: src/mesh-core/src/p2p_frame.rs:254-314 (decode_p2p_frame, body) *)
Definition decode_chunks (input : DecodeFrameInput) : DecodeFrameResult :=
  match de_chunks input with
  | [] => rejected
  | c0 :: _ =>
      let cs := de_chunks input in
      if (MAX_CHUNKS <? zlen cs)%Z then rejected
      else
        let expected_total := total c0 in
        if (expected_total =? 0)%Z || (MAX_CHUNKS <? expected_total)%Z || negb (zlen cs =? expected_total)%Z
        then rejected
        else if existsb (λ c, negb (total c =? expected_total)%Z || (expected_total <=? index c)%Z) cs then rejected
        else if negb (bool_decide (NoDup (index <$> cs))) then rejected
        else if (MAX_TOTAL_BYTES <? Z.of_nat (sum_list_with (length ∘ data) cs))%Z then rejected
        else
          let sorted_chunks := merge_sort index_le cs in
          let valid := forallb (λ c, (checksum c =? 0)%Z || (compute_crc32 (data c) =? checksum c)%Z) sorted_chunks in
          let payload_bytes := concat (data <$> sorted_chunks) in
          let total_crc := compute_crc32 payload_bytes in
          let valid :=
            match expected_crc32 input with
            | Some exp => valid && (exp =? total_crc)%Z
            | None => valid
            end in
          match from_utf8 payload_bytes with
          | Some s => mk_decoded s valid total_crc
          | None => mk_decoded (from_utf8_lossy payload_bytes) false total_crc
          end
  end.

(** Encoding never panics, whatever the text and the chunk size: it refuses
    a payload over 1 MiB or one that needs more than [MAX_CHUNKS] chunks, and
    otherwise yields non-empty valid texts, numbered from 0, whose
    concatenation is the payload. *)
Theorem encode_total (input : FramePacketInput) :
  utf8_valid (in_payload input) = true →
  ∃ o, encode_chunks input = Ok o ∧
  match o with
  | None => (MAX_TOTAL_BYTES < zlen (in_payload input))%Z ∨
      ∃ l, split_loop (length (in_payload input)) (in_payload input)
             (Z.to_nat (effective_chunk_size (in_chunk_size input))) 0 = Ok l ∧ (MAX_CHUNKS < zlen l)%Z
  | Some r =>
      concat (data <$> chunks r) = in_payload input ∧ (zlen (chunks r) ≤ MAX_CHUNKS)%Z ∧
      (∀ i c, chunks r !! i = Some c → index c = Z.of_nat i ∧ total c = zlen (chunks r) ∧
        utf8_valid (data c) = true ∧ data c ≠ [] ∧ checksum c = compute_crc32 (data c)) ∧
      crc32 r = compute_crc32 (in_payload input)
  end.
Proof.
  intros Hs. unfold encode_chunks. destruct (Z.ltb_spec MAX_TOTAL_BYTES (zlen (in_payload input))) as [|Hl].
  { exists None. split; [done|by left]. }
  destruct (split_loop_spec (length (in_payload input)) (in_payload input)
    (Z.to_nat (effective_chunk_size (in_chunk_size input))) 0) as (l & El & Hc & Hv); [done|lia|done|lia|].
  rewrite El. cbn [mbind result_bind]. destruct (Z.ltb_spec MAX_CHUNKS (zlen l)).
  { exists None. split; [done|]. right. by exists l. }
  eexists. split; [done|]. cbn [chunks crc32]. rewrite length_imap. split_and!; [|done| |done].
  - rewrite fmap_imap. rewrite drop_0 in Hc. rewrite <-Hc. f_equal.
    rewrite <-(list_fmap_id l) at 2. rewrite <-imap_const. apply imap_ext. done.
  - intros i c. rewrite list_lookup_imap, fmap_Some. intros (x & Hx & ->). cbn.
    rewrite Forall_forall in Hv. destruct (Hv x) as [? ?]; [by eapply list_elem_of_lookup_2|]. done.
Qed.

(** ** Reassembly *)

#[local] Instance index_le_trans : Transitive index_le.
Proof. unfold index_le. intros a b c. lia. Qed.
#[local] Instance index_le_total : Total index_le.
Proof. unfold index_le. intros a b. lia. Qed.

Lemma numbered_sorted k cs :
  (∀ i c, cs !! i = Some c → index c = k + Z.of_nat i)%Z → StronglySorted index_le cs.
Proof.
  revert k. induction cs as [|a cs IH]; intros k Hi; constructor.
  - apply (IH (k + 1)%Z). intros i c Hc. rewrite (Hi (S i) c Hc). lia.
  - apply Forall_lookup. intros i c Hc. unfold index_le.
    rewrite (Hi 0 a eq_refl), (Hi (S i) c Hc). lia.
Qed.

Lemma sorted_chunks_unique cs cs' :
  cs' ≡ₚ cs → (∀ i c, cs !! i = Some c → index c = Z.of_nat i) → merge_sort index_le cs' = cs.
Proof.
  intros Hp Hi. apply (StronglySorted_unique_strong index_le).
  - intros a b Ha Hb Hab Hba. rewrite merge_sort_Permutation, Hp in Ha.
    apply list_elem_of_lookup in Ha as [i Ha], Hb as [j Hb]. unfold index_le in *.
    pose proof (Hi i a Ha). pose proof (Hi j b Hb). assert (i = j) as -> by lia. congruence.
  - apply StronglySorted_merge_sort; apply _.
  - by apply (numbered_sorted 0).
  - by rewrite merge_sort_Permutation.
Qed.

Lemma indices_nodup cs :
  (∀ i c, cs !! i = Some c → index c = Z.of_nat i) → NoDup (index <$> cs).
Proof.
  intros Hi. apply NoDup_alt. intros i j x. rewrite !list_lookup_fmap, !fmap_Some.
  intros (a & Ha & ->) (b & Hb & E). pose proof (Hi i a Ha). pose proof (Hi j b Hb). lia.
Qed.

Lemma sum_data cs : sum_list_with (length ∘ data) cs = length (concat (data <$> cs)).
Proof. induction cs as [|c cs IH]; [done|]. cbn. by rewrite length_app, IH. Qed.

#[local] Instance sum_data_proper : Proper ((≡ₚ) ==> eq) (sum_list_with (length ∘ data)).
Proof. intros a b E. by rewrite E. Qed.

(** A frame survives transport in any order: the chunks of an encoded
    non-empty payload, received in any permutation with the frame's checksum,
    decode to the payload, valid, with the same checksum. *)
Theorem frame_roundtrip (input : FramePacketInput) (r : FramePacketResult) (received : list Chunk) :
  utf8_valid (in_payload input) = true → in_payload input ≠ [] →
  encode_chunks input = Ok (Some r) → received ≡ₚ chunks r →
  decode_chunks (mk_decode received (Some (crc32 r))) = mk_decoded (in_payload input) true (crc32 r).
Proof.
  intros Hs Hne He Hp. destruct (encode_total input Hs) as (o & Ho & Hspec).
  assert (Hlen : (zlen (in_payload input) ≤ MAX_TOTAL_BYTES)%Z).
  { unfold encode_chunks in He. destruct (Z.ltb_spec MAX_TOTAL_BYTES (zlen (in_payload input))); [done|lia]. }
  rewrite He in Ho. injection Ho as <-. destruct Hspec as (Hc & Hmax & Hch & Hcrc).
  assert (Hin : ∀ c, c ∈ received → total c = zlen (chunks r) ∧ (index c < zlen (chunks r))%Z).
  { intros c Hcin. rewrite Hp in Hcin. apply list_elem_of_lookup in Hcin as [i Hi].
    destruct (Hch i c Hi) as (-> & -> & _). apply lookup_lt_Some in Hi. lia. }
  assert (Hidx : ∀ i c, chunks r !! i = Some c → index c = Z.of_nat i) by (intros i c Hi; apply (Hch i c Hi)).
  pose proof (Permutation_length Hp) as Hl.
  unfold decode_chunks. cbn [de_chunks expected_crc32].
  destruct received as [|c0 rest] eqn:Er.
  { destruct (chunks r) eqn:E; [|done]. cbn in Hc. congruence. }
  rewrite <-Er in *. destruct (Hin c0) as [-> _]; [rewrite Er; left|].
  assert (0 < length (chunks r)) by (rewrite <-Hl, Er; simpl; lia).
  rewrite (proj2 (Z.ltb_ge _ _)), Hl, (proj2 (Z.eqb_neq _ 0)), (proj2 (Z.ltb_ge _ _)), Z.eqb_refl by lia.
  cbn [orb negb].
  assert (existsb (λ c, negb (total c =? zlen (chunks r))%Z || (zlen (chunks r) <=? index c)%Z) received = false) as ->.
  { apply not_true_iff_false. intros (c & Hcin%list_elem_of_In & Hb)%existsb_exists.
    destruct (Hin c Hcin) as [E ?]. rewrite E, Z.eqb_refl, (proj2 (Z.leb_gt _ _)) in Hb by done. done. }
  rewrite bool_decide_eq_true_2 by (rewrite Hp; by apply indices_nodup). cbn [negb].
  rewrite Hp, sum_data, Hc, (proj2 (Z.ltb_ge _ _)) by done.
  rewrite (sorted_chunks_unique (chunks r) received Hp Hidx), Hc, <-Hcrc, Z.eqb_refl, andb_true_r.
  unfold from_utf8. rewrite Hs. f_equal. apply forallb_forall. intros c Hcin%list_elem_of_In.
  apply list_elem_of_lookup in Hcin as [i Hi]. destruct (Hch i c Hi) as (_ & _ & _ & _ & ->).
  by rewrite Z.eqb_refl, orb_true_r.
Qed.

(** ** The JSON entry points *)

Context (parse_input : str → option FramePacketInput) (print_result : FramePacketResult → option (list Z)).
Context (parse_decode : str → option DecodeFrameInput) (print_decoded : DecodeFrameResult → option (list Z)).

(** Source: src/mesh-core/src/p2p_frame.rs:157-157 (ENCODE_REJECTED) *)
Definition ENCODE_REJECTED : str :=
  lit "{" ++ [34%Z] ++ lit "chunks" ++ [34%Z] ++ lit ":[]," ++ [34%Z] ++ lit "crc32" ++ [34%Z] ++ lit ":0}".

(** Source: src/mesh-core/src/p2p_frame.rs:162-179 (encode_p2p_frame) *)
Definition encode_p2p_frame (json_input : str) : may_fail (list Z) :=
  if (MAX_TOTAL_BYTES * 2 <? zlen json_input)%Z then Ok ENCODE_REJECTED
  else
    match parse_input json_input with
    | None => Ok ENCODE_REJECTED
    | Some input =>
        r ← encode_chunks input;
        Ok (match r with Some r => default ENCODE_REJECTED (print_result r) | None => ENCODE_REJECTED end)
    end.

(** The literal that every rejection returns.
    Source: src/mesh-core/src/p2p_frame.rs:247-247 (decode_p2p_frame, literal) *)
Definition DECODE_REJECTED : str :=
  lit "{" ++ [34%Z] ++ lit "payload" ++ [34%Z] ++ lit ":" ++ [34; 34]%Z ++ lit "," ++ [34%Z] ++ lit "valid" ++ [34%Z]
  ++ lit ":false," ++ [34%Z] ++ lit "crc32" ++ [34%Z] ++ lit ":0}".

(** A rejection inside the body prints the same literal as [rejected].
    Source: src/mesh-core/src/p2p_frame.rs:245-318 (decode_p2p_frame) *)
Definition decode_p2p_frame (json_input : str) : str :=
  if (MAX_TOTAL_BYTES * 4 <? zlen json_input)%Z then DECODE_REJECTED
  else
    match parse_decode json_input with
    | None => DECODE_REJECTED
    | Some input => default DECODE_REJECTED (print_decoded (decode_chunks input))
    end.
End frame.

(** ** A concrete frame *)

Definition w_crc (d : bytes) : Z := foldr Z.add 0%Z d.
(** Five characters, the second of two bytes, in chunks of at most three. *)
Definition w_input : FramePacketInput := mk_input [0x68; 0xC3; 0xA9; 0x6C; 0x6C; 0x6F]%Z 2.
Definition w_frame : option FramePacketResult := unwrap_or None (encode_chunks w_crc w_input).

Example w_frame_chunks :
  (λ r, data <$> chunks r) <$> w_frame = Some [[0x68]; [0xC3; 0xA9]; [0x6C; 0x6C]; [0x6F]]%Z.
Proof. vm_compute. done. Qed.

Lemma encode_total_witness : is_ok (encode_chunks w_crc w_input) = true.
Proof.
  destruct (encode_total w_crc w_input) as (o & -> & _); [vm_compute; reflexivity|reflexivity].
Defined.

Lemma frame_roundtrip_witness :
  match w_frame with
  | Some r => decode_chunks w_crc id (mk_decode (reverse (chunks r)) (Some (crc32 r)))
              = mk_decoded (in_payload w_input) true (crc32 r)
  | None => False
  end.
Proof.
  assert (E : encode_chunks w_crc w_input = Ok w_frame) by (vm_compute; reflexivity).
  assert (N : w_frame ≠ None) by (vm_compute; discriminate).
  revert E N. destruct w_frame as [r|]; intros E N; [|by destruct N].
  apply (frame_roundtrip w_crc id w_input r (reverse (chunks r)));
    [vm_compute; reflexivity|discriminate|exact E|apply reverse_Permutation].
Defined.
