(* ===== verification/Sql.v ===== *)
(** What the cores rely on of SQLite and of Rust's hash collections, shared by
    the components that keep their state in tables: the rows of a query come in
    an order that satisfies its ORDER BY and is otherwise unspecified, and so do
    the members of a hash set. No code of the repository is modelled here. *)

From S2P Require Import Prelude.

(** ORDER BY over a relation: some sorted rearrangement of the rows. *)
Class OrderBy {A} (R : A → A → Prop) := {
  order_by : list A → list A;
  order_by_perm l : order_by l ≡ₚ l;
  order_by_sorted l : StronglySorted R (order_by l)
}.
Arguments order_by {A} R {_}.

(** One such order: merge sort. *)
#[export] Instance merge_order {A} (R : A → A → Prop) `{∀ x y, Decision (R x y)} `{!Total R, !Transitive R} :
  OrderBy R.
Proof.
  exists (merge_sort R); [apply merge_sort_Permutation|intros; by apply StronglySorted_merge_sort].
Defined.

(** Rows compared by an integer column, ascending and descending. *)
Definition asc {A} (key : A → Z) (x y : A) : Prop := (key x ≤ key y)%Z.
Definition desc {A} (key : A → Z) (x y : A) : Prop := (key y ≤ key x)%Z.

#[export] Instance asc_dec {A} (key : A → Z) x y : Decision (asc key x y).
Proof. unfold asc. apply _. Defined.
#[export] Instance desc_dec {A} (key : A → Z) x y : Decision (desc key x y).
Proof. unfold desc. apply _. Defined.
#[export] Instance asc_total {A} (key : A → Z) : Total (asc key).
Proof. intros x y. unfold asc. lia. Qed.
#[export] Instance desc_total {A} (key : A → Z) : Total (desc key).
Proof. intros x y. unfold desc. lia. Qed.
#[export] Instance asc_trans {A} (key : A → Z) : Transitive (asc key).
Proof. intros x y z. unfold asc. lia. Qed.
#[export] Instance desc_trans {A} (key : A → Z) : Transitive (desc key).
Proof. intros x y z. unfold desc. lia. Qed.

(** The rows of a table keyed by [K], in ORDER BY order, at most [limit]. *)
Definition select_rows `{Countable K} {A} (R : A → A → Prop) `{!OrderBy R} (P : A → Prop)
    `{∀ x, Decision (P x)} (limit : nat) (table : gmap K A) : list A :=
  take limit (order_by R (filter P (map_to_list table).*2)).

Lemma elem_of_select `{Countable K} {A} (R : A → A → Prop) `{!OrderBy R} (P : A → Prop)
    `{∀ x, Decision (P x)} limit (table : gmap K A) x :
  x ∈ select_rows R P limit table → P x ∧ ∃ k, table !! k = Some x.
Proof.
  unfold select_rows. intros Hx%subseteq_take. rewrite order_by_perm in Hx.
  apply list_elem_of_filter in Hx as [HP Hx]. split; [done|].
  apply list_elem_of_fmap in Hx as ([k y] & -> & Hk%elem_of_map_to_list). eauto.
Qed.

Lemma select_all `{Countable K} {A} (R : A → A → Prop) `{!OrderBy R} (P : A → Prop)
    `{∀ x, Decision (P x)} limit (table : gmap K A) :
  length (filter P (map_to_list table).*2) ≤ limit →
  select_rows R P limit table ≡ₚ filter P (map_to_list table).*2.
Proof. intros Hl. unfold select_rows. rewrite take_ge; [apply order_by_perm|by rewrite order_by_perm]. Qed.

Lemma select_length `{Countable K} {A} (R : A → A → Prop) `{!OrderBy R} (P : A → Prop)
    `{∀ x, Decision (P x)} limit (table : gmap K A) :
  length (select_rows R P limit table) = min limit (length (filter P (map_to_list table).*2)).
Proof. unfold select_rows. by rewrite length_take, order_by_perm. Qed.

(** All rows of a table. *)
Lemma elem_of_table `{Countable K} {A} (t : gmap K A) x : x ∈ (map_to_list t).*2 ↔ ∃ k, t !! k = Some x.
Proof.
  rewrite list_elem_of_fmap. split.
  - intros ([k y] & -> & Hk%elem_of_map_to_list). by exists k.
  - intros [k Hk]. exists (k, x). split; [done|]. by apply elem_of_map_to_list.
Qed.

(** The one row that satisfies a condition. *)
Lemma only_row `{Countable K} {A} (t : gmap K A) (P : A → Prop) `{∀ x, Decision (P x)} k x :
  t !! k = Some x → P x → (∀ k' y, t !! k' = Some y → P y → k' = k) → filter P (map_to_list t).*2 = [x].
Proof.
  intros Hk HP Hu. apply Permutation_singleton_r. rewrite <-(insert_delete_id t k x Hk).
  rewrite map_to_list_insert by apply lookup_delete_eq. cbn [fmap list_fmap snd]. rewrite filter_cons_True by done. constructor.
  enough (filter P (map_to_list (delete k t)).*2 = []) as -> by done.
  apply elem_of_nil_inv. intros y. rewrite list_elem_of_filter, elem_of_table. intros [Hy [k' Hk']].
  apply lookup_delete_Some in Hk' as [Hne Hk']. by destruct Hne; symmetry; eapply Hu.
Qed.

(** An iteration over a hash set visits its members once, in some order. *)
Definition enumerates `{Countable A} (l : list A) (X : gset A) : Prop := l ≡ₚ elements X.

Lemma enumerates_elem `{Countable A} (l : list A) (X : gset A) x : enumerates l X → x ∈ l ↔ x ∈ X.
Proof. unfold enumerates. intros ->. apply elem_of_elements. Qed.
