(* ===== verification/Tx.v ===== *)
(** The transaction graph of src/sync-core/src/tx.rs and the reverts of
    revert.rs. Each user action is a row of [tx_nodes]; [tx_edges] links an
    action to those that depend on it. When an action fails, [tx_fail] computes
    everything that depends on it and undoes the local effects, dependents
    first. Both loops of the traversal are proved to end. Of the tables posts,
    reactions and users the model keeps the columns the reverts touch. JSON is
    a parameter; errors of the SQL engine are left out. *)

From S2P Require Import Prelude Sql.

(** serde_json, as far as the reverts use it. *)
Class Json := {
  Value : Type;
  from_str : str → option Value;
  get : Value → str → option Value;
  as_str : Value → option str
}.

(** Source: src/sync-core/src/tx.rs:16-16 (STATUS_PENDING) *)
Definition STATUS_PENDING : str := lit "pending".
(** Source: src/sync-core/src/tx.rs:17-17 (STATUS_APPLIED) *)
Definition STATUS_APPLIED : str := lit "applied".
(** Source: src/sync-core/src/tx.rs:18-18 (STATUS_FAILED) *)
Definition STATUS_FAILED : str := lit "failed".
(** Source: src/sync-core/src/tx.rs:19-19 (STATUS_ROLLED_BACK) *)
Definition STATUS_ROLLED_BACK : str := lit "rolled_back".

(** Source: src/sync-core/src/tx.rs:22-28 (TxNode) *)
Record TxNode := mk_node {
  node_id : str;
  node_kind : str;
  payload_json : str;
  status : str;
  node_created_at : Z
}.

(** The tables: the nodes by id, the edges (parent, child), the deletion flag
    of a post by id, the ids of the reactions, and the text columns of a user
    by public key. *)
Record tx_db := mk_db {
  tx_nodes : gmap str TxNode;
  tx_edges : list (str * str);
  posts : gmap str bool;
  reactions : gset str;
  users : gmap str (gmap str str)
}.

Definition set_nodes (db : tx_db) t := mk_db t (tx_edges db) (posts db) (reactions db) (users db).

(** Source: src/sync-core/src/tx.rs:31-46 (tx_begin) *)
Definition tx_begin (db : tx_db) (id kind payload : str) (now_secs : Z) : tx_db :=
  set_nodes db (<[id := mk_node id kind payload STATUS_PENDING now_secs]> (tx_nodes db)).

(** Source: src/sync-core/src/tx.rs:49-57 (tx_link) *)
Definition tx_link (db : tx_db) (parent_id child_id : str) : tx_db :=
  if bool_decide ((parent_id, child_id) ∈ tx_edges db) then db
  else mk_db (tx_nodes db) (tx_edges db ++ [(parent_id, child_id)]) (posts db) (reactions db) (users db).

Definition with_status (s : str) (n : TxNode) : TxNode :=
  mk_node (node_id n) (node_kind n) (payload_json n) s (node_created_at n).

(** Source: src/sync-core/src/tx.rs:203-210 (set_status) *)
Definition set_status (db : tx_db) (id s : str) : tx_db :=
  set_nodes db (alter (with_status s) id (tx_nodes db)).

(** Source: src/sync-core/src/tx.rs:60-63 (tx_mark_applied) *)
Definition tx_mark_applied (db : tx_db) (id : str) : tx_db := set_status db id STATUS_APPLIED.

(** Source: src/sync-core/src/tx.rs:222-242 (tx_statuses) *)
Definition tx_statuses `{!OrderBy (desc node_created_at)} (db : tx_db) : list TxNode :=
  select_rows (desc node_created_at) (λ _, True) 200 (tx_nodes db).

(** ** The dependency graph *)

(** Source: src/sync-core/src/tx.rs:123-142 (load_edges) *)
Definition load_edges (edges : list (str * str)) : gmap str (list str) :=
  fold_left (λ adj e, <[e.1 := default [] (adj !! e.1) ++ [e.2]]> adj) edges ∅.

Section graph.
Context (adj : gmap str (list str)).

Definition children (n : str) : list str := default [] (adj !! n).

(** One round of the worklist; a stack is kept with its top first.
    Source: src/sync-core/src/tx.rs:151-160 (dependent_closure, loop) *)
Definition closure_body (s : gset str * list str) : option (gset str * list str) :=
  let '(closure, stack) := s in
  match stack with
  | [] => None
  | cur :: stack =>
      if bool_decide (cur ∈ closure) then Some (closure, stack)
      else Some ({[ cur ]} ∪ closure, reverse (children cur) ++ stack)
  end.

Definition out_degree (n : str) : nat := length (children n).
Definition closure_fuel : nat := S (sum_list_with out_degree (elements (dom adj))).

(** Source: src/sync-core/src/tx.rs:145-162 (dependent_closure) *)
Definition dependent_closure (root : str) : option (gset str) :=
  fst <$> loop closure_body closure_fuel (∅, [root]).

(** The state of the depth-first traversal. *)
Record dfs := mk_dfs {
  order : list str;
  visited : gset str;
  in_progress : gset str;
  stack : list (str * bool)
}.

(** Source: src/sync-core/src/tx.rs:174-194 (reverse_topological, loop) *)
Definition dfs_body (closure : gset str) (s : dfs) : option dfs :=
  match stack s with
  | [] => None
  | (node, true) :: rest =>
      let in_progress' := in_progress s ∖ {[ node ]} in
      if bool_decide (node ∈ visited s) then Some (mk_dfs (order s) (visited s) in_progress' rest)
      else Some (mk_dfs (order s ++ [node]) ({[ node ]} ∪ visited s) in_progress' rest)
  | (node, false) :: rest =>
      if bool_decide (node ∈ visited s) || bool_decide (node ∈ in_progress s)
      then Some (mk_dfs (order s) (visited s) (in_progress s) rest)
      else
        let in_progress' := {[ node ]} ∪ in_progress s in
        let next := filter (λ c, c ∈ closure ∧ (c ∉ visited s) ∧ (c ∉ in_progress')) (children node) in
        Some (mk_dfs (order s) (visited s) in_progress'
                (((λ c, (c, false)) <$> reverse next) ++ ((node, true) :: rest)))
  end.

Definition dfs_fuel (closure : gset str) : nat :=
  size closure + sum_list_with (λ n, S (out_degree n)) (elements closure).

(** [iter] is the order in which the hash set yields its members.
    Source: src/sync-core/src/tx.rs:166-196 (reverse_topological) *)
Definition reverse_topological (closure : gset str) (iter : list str) : option (list str) :=
  order <$> loop (dfs_body closure) (dfs_fuel closure)
              (mk_dfs [] ∅ ∅ (reverse ((λ n, (n, false)) <$> iter))).
End graph.

(** ** Reverts *)

(** Source: src/sync-core/src/revert.rs:11-11 (KIND_POST) *)
Definition KIND_POST : str := lit "post".
(** Source: src/sync-core/src/revert.rs:12-12 (KIND_LIKE) *)
Definition KIND_LIKE : str := lit "like".
(** Source: src/sync-core/src/revert.rs:13-13 (KIND_PROFILE) *)
Definition KIND_PROFILE : str := lit "profile".

Section revert.
Context `{!Json}.

Definition get_str (v : Value) (k : str) : option str := get v k ≫= as_str.

(** The assignments of an UPDATE of [users].
    Source: src/sync-core/src/revert.rs:47-54 (revert_tx, columns) *)
Definition prior_columns (prior : Value) : list (str * str) :=
  omap (λ k, pair k <$> get_str prior k)
    [lit "name"; lit "display_name"; lit "about"; lit "picture"].

Definition set_columns (cols : list (str * str)) (row : gmap str str) : gmap str str :=
  fold_left (λ r c, <[c.1 := c.2]> r) cols row.

(** Source: src/sync-core/src/revert.rs:20-70 (revert_tx) *)
Definition revert_tx (db : tx_db) (kind payload_json : str) : may_fail tx_db :=
  payload ← ok_or (Fail "revert payload") (from_str payload_json);
  if bool_decide (kind = KIND_POST) then
    match get_str payload (lit "id") with
    | Some id => Ok (mk_db (tx_nodes db) (tx_edges db) (alter (λ _, true) id (posts db)) (reactions db) (users db))
    | None => Ok db
    end
  else if bool_decide (kind = KIND_LIKE) then
    match get_str payload (lit "id") with
    | Some id => Ok (mk_db (tx_nodes db) (tx_edges db) (posts db) (reactions db ∖ {[ id ]}) (users db))
    | None => Ok db
    end
  else if bool_decide (kind = KIND_PROFILE) then
    match get_str payload (lit "pubkey"), get payload (lit "prior") with
    | Some pubkey, Some prior =>
        let cols := prior_columns prior in
        if bool_decide (cols = []) then Ok db
        else Ok (mk_db (tx_nodes db) (tx_edges db) (posts db) (reactions db)
                   (alter (set_columns cols) pubkey (users db)))
    | _, _ => Ok db
    end
  else Ok db.

(** Source: src/sync-core/src/revert.rs:16-18 (revert) *)
Definition revert (db : tx_db) (kind payload_json : str) : may_fail tx_db := revert_tx db kind payload_json.

(** One node of the rollback: its kind and payload as read before the chain
    started, empty when the node was never recorded.
    Source: src/sync-core/src/tx.rs:94-107 (tx_fail, chain) *)
Definition rollback_node (nodes : gmap str TxNode) (acc : tx_db * list str * list str) (node : str)
    : tx_db * list str * list str :=
  let '(db, revert_errors, rolled_back) := acc in
  let '(kind, payload) :=
    default ([], []) ((λ n, (node_kind n, payload_json n)) <$> nodes !! node) in
  match revert_tx db kind payload with
  | Err _ => (db, revert_errors ++ [node], rolled_back)
  | Ok db' => (set_status db' node STATUS_ROLLED_BACK, revert_errors, rolled_back ++ [node])
  end.

(** Source: src/sync-core/src/tx.rs:198-201 (rolled_back_after) *)
Definition rolled_back_after (rolled order : list str) : list str := rolled ++ order.

(** The new tables, and the ids rolled back or the ids whose revert failed;
    [None] is lack of fuel. [iter] chooses the iteration order of a hash set.
    Source: src/sync-core/src/tx.rs:67-121 (tx_fail) *)
Definition tx_fail (iter : gset str → list str) (db : tx_db) (id : str)
    : option (tx_db * result (list str) (list str)) :=
  let adj := load_edges (tx_edges db) in
  closure ← dependent_closure adj id;
  order ← reverse_topological adj closure (iter closure);
  Some (
    if bool_decide (order = []) then (db, Ok [])
    else
      let '(db', revert_errors, rolled_back) := fold_left (rollback_node (tx_nodes db)) order (db, [], []) in
      let db' := set_status db' id STATUS_FAILED in
      if bool_decide (revert_errors = []) then (db', Ok (rolled_back_after rolled_back []))
      else (db', Err revert_errors)).
End revert.

(** ** The graph and its closure *)

Section graph_proofs.
Context (adj : gmap str (list str)).

(** [c] depends directly on [n]. *)
Definition edge (n c : str) : Prop := c ∈ children adj n.

Lemma no_children n : n ∉ dom adj → children adj n = [].
Proof. intros Hn%not_elem_of_dom. unfold children. by rewrite Hn. Qed.

(** The members of the worklist are reachable, and what is reachable is behind
    the worklist. *)
Definition closure_inv (root : str) (s : gset str * list str) : Prop :=
  (∀ n, n ∈ s.1 ∨ n ∈ s.2 → rtc edge root n)
  ∧ (root ∈ s.1 ∨ root ∈ s.2)
  ∧ (∀ n c, n ∈ s.1 → edge n c → c ∈ s.1 ∨ c ∈ s.2).

Definition closure_measure (s : gset str * list str) : nat :=
  length s.2 + sum_list_with (out_degree adj) (elements (dom adj ∖ s.1)).

Lemma closure_step root s s' :
  closure_inv root s → closure_body adj s = Some s' →
  closure_inv root s' ∧ closure_measure s' < closure_measure s.
Proof.
  destruct s as [C [|cur st]]; [done|]. intros (Hr & Hroot & Hc). simpl in *.
  case_bool_decide as Hin; intros [= <-].
  - split; [|unfold closure_measure; simpl; lia].
    split_and!; simpl.
    + intros n [?|?]; apply Hr; [by left|right; by right].
    + destruct Hroot as [?|[->|?]%elem_of_cons]; auto.
    + intros n c Hn He. destruct (Hc n c Hn He) as [?|[->|?]%elem_of_cons]; auto.
  - split; [split_and!; simpl|unfold closure_measure; simpl].
    + intros n [[->%elem_of_singleton|?]%elem_of_union|[Hn|?]%elem_of_app].
      * apply Hr. right. by left.
      * apply Hr. by left.
      * eapply rtc_r; [apply Hr; right; by left|]. unfold edge. by rewrite elem_of_reverse in Hn.
      * apply Hr. right. by right.
    + destruct Hroot as [?|[->|?]%elem_of_cons]; set_solver.
    + intros n c [->%elem_of_singleton|Hn]%elem_of_union He.
      * right. apply elem_of_app. left. by rewrite elem_of_reverse.
      * destruct (Hc n c Hn He) as [?|[->|?]%elem_of_cons]; set_solver.
    + rewrite length_app, length_reverse.
      assert (dom adj ∖ ({[cur]} ∪ C) = (dom adj ∖ C) ∖ {[ cur ]}) as -> by set_solver.
      destruct (decide (cur ∈ dom adj)) as [Hd|Hd].
      * rewrite (sum_elements_remove _ (dom adj ∖ C) cur) by set_solver.
        unfold out_degree at 2. lia.
      * rewrite no_children by done. simpl.
        assert ((dom adj ∖ C) ∖ {[cur]} = dom adj ∖ C) as -> by set_solver. lia.
Qed.

(** The worklist ends with exactly what can be reached from the root. *)
Lemma dependent_closure_spec root :
  ∃ C, dependent_closure adj root = Some C ∧ ∀ n, n ∈ C ↔ rtc edge root n.
Proof.
  destruct (loop_total (closure_body adj) (closure_inv root) closure_measure
    (closure_step root) (closure_fuel adj) (∅, [root])) as ([C st] & Hl & (Hr & Hroot & Hc) & Hend).
  - split_and!; simpl; [|set_solver|set_solver].
    intros n [?%elem_of_empty| ->%list_elem_of_singleton]; done.
  - unfold closure_measure, closure_fuel. simpl.
    assert (dom adj ∖ ∅ = dom adj) as -> by set_solver. lia.
  - unfold dependent_closure. rewrite Hl. exists C. split; [done|].
    destruct st as [|cur st]; [|by unfold closure_body in Hend; case_match].
    intros n. split; [intros; apply Hr; by left|].
    assert (∀ m, rtc edge m n → m ∈ C → n ∈ C) as Hclosed.
    { intros m Hm. induction Hm as [|a b c He _ IH]; [done|]. intros Ha. apply IH.
      destruct (Hc a b Ha He) as [?|?%elem_of_nil]; done. }
    intros Hn. apply (Hclosed root Hn). destruct Hroot as [?|?%elem_of_nil]; done.
Qed.

(** ** The depth-first order *)

Section dfs_proofs.
Context (C : gset str).

(** What every round keeps: the order lists the visited nodes once, all of
    the closure, and misses only what the stack still holds. *)
Definition dfs_inv (s : dfs) : Prop :=
  (∀ n, n ∈ visited s ↔ n ∈ order s)
  ∧ NoDup (order s)
  ∧ (∀ n, n ∈ visited s → n ∈ C)
  ∧ (∀ e, e ∈ stack s → e.1 ∈ C)
  ∧ (∀ n, n ∈ C → n ∈ visited s ∨ n ∈ (stack s).*1)
  ∧ (∀ n, (n, true) ∈ stack s → n ∈ visited s ∨ n ∈ in_progress s)
  ∧ (∀ n, n ∈ in_progress s → (n, true) ∈ stack s).

Definition dfs_measure (s : dfs) : nat :=
  length (stack s)
  + sum_list_with (λ n, S (out_degree adj n)) (elements (C ∖ (visited s ∪ in_progress s))).

Definition next_children (n : str) (v p : gset str) : list str :=
  filter (λ c, c ∈ C ∧ (c ∉ v) ∧ (c ∉ ({[ n ]} ∪ p))) (children adj n).

(** The three kinds of rounds. *)
Lemma dfs_cases s s' :
  dfs_body adj C s = Some s' →
  (∃ n rest, stack s = (n, true) :: rest
     ∧ s' = mk_dfs (if bool_decide (n ∈ visited s) then order s else order s ++ [n])
              ({[ n ]} ∪ visited s) (in_progress s ∖ {[ n ]}) rest)
  ∨ (∃ n rest, stack s = (n, false) :: rest ∧ (n ∈ visited s ∨ n ∈ in_progress s)
     ∧ s' = mk_dfs (order s) (visited s) (in_progress s) rest)
  ∨ (∃ n rest, stack s = (n, false) :: rest ∧ (n ∉ visited s) ∧ (n ∉ in_progress s)
     ∧ s' = mk_dfs (order s) (visited s) ({[ n ]} ∪ in_progress s)
         (((λ c, (c, false)) <$> reverse (next_children n (visited s) (in_progress s)))
           ++ ((n, true) :: rest))).
Proof.
  unfold dfs_body. destruct s as [o v p st]. cbn [stack visited in_progress order].
  destruct st as [|[n [|]] rest]; [done| |].
  - case_bool_decide as Hv; intros [= <-]; left; exists n, rest.
    + rewrite bool_decide_true by done. assert ({[n]} ∪ v = v) as -> by set_solver. done.
    + by rewrite bool_decide_false.
  - destruct (bool_decide (n ∈ v) || bool_decide (n ∈ p)) eqn:Hb; intros [= <-]; right.
    + left. exists n, rest. apply orb_true_iff in Hb. rewrite !bool_decide_eq_true in Hb. done.
    + right. exists n, rest. apply orb_false_iff in Hb. rewrite !bool_decide_eq_false in Hb.
      by destruct Hb.
Qed.

Lemma dfs_step s s' :
  dfs_inv s → dfs_body adj C s = Some s' → dfs_inv s' ∧ dfs_measure s' < dfs_measure s.
Proof.
  destruct s as [o v p st]. intros (Hvo & Hnd & Hv & Hst & Hall & Hpr & Hps).
  cbn [stack visited in_progress order] in *.
  intros [(n & rest & Hs & ->)|[(n & rest & Hs & Hn & ->)|(n & rest & Hs & Hn1 & Hn2 & ->)]]%dfs_cases;
    cbn [stack visited in_progress order] in *; subst st; unfold dfs_inv, dfs_measure;
    cbn [stack visited in_progress order] in *.
  - split; [split_and!|].
    + intros m. case_bool_decide; rewrite ?elem_of_app, ?list_elem_of_singleton, <- ?Hvo; set_solver.
    + case_bool_decide as Hnv; [done|]. apply NoDup_app. split_and!; [done| |apply NoDup_singleton].
      intros m Hm ->%list_elem_of_singleton. apply Hnv, Hvo, Hm.
    + intros m [->%elem_of_singleton|?]%elem_of_union; [apply (Hst (n, true)); by left|by apply Hv].
    + intros e He. apply Hst. by right.
    + intros m Hm. destruct (Hall m Hm) as [?|[->|?]%elem_of_cons]; set_solver.
    + intros m Hm. destruct (Hpr m) as [?|?]; [by right|set_solver|].
      destruct (decide (m = n)); set_solver.
    + intros m [Hm Hne]%elem_of_difference. destruct (proj1 (elem_of_cons _ _ _) (Hps m Hm)) as [[= ->]|?]; set_solver.
    + simpl. assert (C ∖ (v ∪ p) = C ∖ ({[n]} ∪ v ∪ p ∖ {[n]})) as <-; [|lia].
      destruct (Hpr n) as [Hn|Hn]; [by left| |];
        apply set_eq; intros m; destruct (decide (m = n)); set_solver.
  - split; [split_and!|simpl; lia].
    + done.
    + done.
    + done.
    + intros e He. apply Hst. by right.
    + intros m Hm. destruct (Hall m Hm) as [?|[->|?]%elem_of_cons]; [by left| |by right].
      destruct Hn as [?|Hn]; [by left|]. right.
      apply list_elem_of_fmap. exists (n, true). split; [done|].
      by destruct (proj1 (elem_of_cons _ _ _) (Hps n Hn)) as [?|?].
    + intros m Hm. apply Hpr. by right.
    + intros m Hm. by destruct (proj1 (elem_of_cons _ _ _) (Hps m Hm)) as [?|?].
  - assert (n ∈ C) as HnC by (apply (Hst (n, false)); by left). split; [split_and!|].
    + done.
    + done.
    + done.
    + intros e [He|[->|He]%elem_of_cons]%elem_of_app; [|done|by apply Hst; right].
      apply list_elem_of_fmap in He as (c & -> & Hc). rewrite elem_of_reverse in Hc.
      by apply list_elem_of_filter in Hc as [(? & _) _].
    + intros m Hm. rewrite fmap_app, elem_of_app. cbn.
      destruct (Hall m Hm) as [?|Hc]; [by left|right; by right].
    + intros m [Hm|[[= ->]|Hm]%elem_of_cons]%elem_of_app; [|set_solver|].
      * by apply list_elem_of_fmap in Hm as (? & ? & ?).
      * destruct (Hpr m); [by right|by left|set_solver].
    + intros m [->%elem_of_singleton|Hm]%elem_of_union; apply elem_of_app; right; [by left|].
      destruct (proj1 (elem_of_cons _ _ _) (Hps m Hm)) as [?|?]; [done|by right].
    + rewrite length_app, length_fmap, length_reverse. cbn [length].
      assert (C ∖ (v ∪ ({[n]} ∪ p)) = (C ∖ (v ∪ p)) ∖ {[ n ]}) as -> by set_solver.
      rewrite (sum_elements_remove _ (C ∖ (v ∪ p)) n) by set_solver.
      pose proof (length_filter (λ c, c ∈ C ∧ (c ∉ v) ∧ (c ∉ ({[ n ]} ∪ p))) (children adj n)) as Hf.
      unfold next_children, out_degree at 2. lia.
Qed.

(** Above an open node the stack holds descendants of it, among them every
    child not yet visited. *)
Definition stack_ok (v : gset str) (st : list (str * bool)) : Prop :=
  ∀ s1 n s2, st = s1 ++ ((n, true) :: s2) →
    (∀ e, e ∈ s1 → tc edge n e.1) ∧ (∀ c, edge n c → c ∈ v ∨ c ∈ s1.*1).

(** A node comes after all its children. *)
Definition children_first (o : list str) : Prop :=
  ∀ o1 n o2, o = o1 ++ n :: o2 → ∀ c, edge n c → c ∈ o1.

Section acyclic.
Hypothesis C_closed : ∀ n c, n ∈ C → edge n c → c ∈ C.
Hypothesis acyclic : ∀ n, n ∈ C → ¬ tc edge n n.

Definition topo_inv (s : dfs) : Prop :=
  dfs_inv s ∧ stack_ok (visited s) (stack s) ∧ children_first (order s).

Lemma stack_ok_above v x b s1 n s2 :
  stack_ok v ((x, b) :: s1 ++ ((n, true) :: s2)) → tc edge n x.
Proof. intros Hok. destruct (Hok ((x, b) :: s1) n s2 eq_refl) as [Ha _]. apply (Ha (x, b)). by left. Qed.

(** Leaving an entry whose node is visited, or is still open below. *)
Lemma stack_ok_pop v v' x b st :
  stack_ok v ((x, b) :: st) → v ⊆ v' → x ∈ C → x ∈ v' ∨ (x, true) ∈ st → stack_ok v' st.
Proof.
  intros Hok Hv HxC Hx s1 n s2 ->. pose proof (stack_ok_above _ _ _ _ _ _ Hok) as Hnx.
  destruct (Hok ((x, b) :: s1) n s2 eq_refl) as [Ha Hc]. split.
  - intros e He. apply Ha. by right.
  - intros c Hnc. destruct (Hc c Hnc) as [?|[->|?]%elem_of_cons]; [left; by apply Hv| |by right].
    destruct Hx as [?|[Hx|[[= <-]|Hx]%elem_of_cons]%elem_of_app]; [by left| | |].
    + right. apply list_elem_of_fmap. by exists (x, true).
    + by destruct (acyclic x).
    + destruct (acyclic x HxC). apply list_elem_of_split in Hx as (t1 & t2 & ->).
      destruct (Hok (((x, b) :: s1) ++ ((n, true) :: t1)) x t2) as [Hd _]; [by rewrite <- app_assoc|].
      eapply tc_r; [|exact Hnc]. apply (Hd (n, true)). apply elem_of_app. right. by left.
Qed.

(** Opening a node. *)
Lemma stack_ok_expand v p n rest :
  stack_ok v ((n, false) :: rest) → n ∈ C → (∀ m, m ∈ p → (m, true) ∈ rest) →
  stack_ok v (((λ c, (c, false)) <$> reverse (next_children n v p)) ++ ((n, true) :: rest)).
Proof.
  intros Hok Hn Hp. set (next := (λ c, (c, false)) <$> reverse (next_children n v p)).
  assert (∀ e, e ∈ next → edge n e.1 ∧ e.2 = false) as Hnext.
  { intros e (c & -> & Hc)%list_elem_of_fmap. rewrite elem_of_reverse in Hc.
    by apply list_elem_of_filter in Hc as [_ ?]. }
  assert (∀ c, edge n c → c ∈ v ∨ c ∈ next.*1) as Hcover.
  { intros c Hc. destruct (decide (c ∈ v)) as [|Hcv]; [by left|right].
    apply list_elem_of_fmap. exists (c, false). split; [done|].
    apply list_elem_of_fmap. exists c. split; [done|]. rewrite elem_of_reverse.
    apply list_elem_of_filter. split; [|done]. split_and!; [by apply (C_closed n)|done|].
    intros [->%elem_of_singleton|Hcp]%elem_of_union; [by destruct (acyclic n Hn); apply tc_once|].
    apply (acyclic n Hn). eapply tc_l; [exact Hc|].
    apply Hp, list_elem_of_split in Hcp as (t1 & t2 & ->). by eapply stack_ok_above. }
  intros s1 m s2 Heq. apply app_eq_inv in Heq as [([|e k] & Hk & Heq)|([|e k] & -> & Heq)].
  - injection Heq as [= -> ->]. rewrite app_nil_r in Hk. rewrite <- Hk.
    split; [intros e He; by apply tc_once, Hnext|done].
  - injection Heq as <- _. destruct (Hnext (m, true)) as [_ ?]; [|done].
    rewrite Hk. apply elem_of_app. right. by left.
  - injection Heq as [= -> ->]. rewrite app_nil_r. split; [intros e He; by apply tc_once, Hnext|done].
  - injection Heq as <- ->. destruct (Hok ((n, false) :: k) m s2 eq_refl) as [Ha Hc].
    assert (tc edge m n) as Hmn by (apply (Ha (n, false)); by left).
    split.
    + intros e [He|[->|He]%elem_of_cons]%elem_of_app; [|done|apply Ha; by right].
      eapply tc_r; [exact Hmn|by apply Hnext].
    + intros c Hmc. rewrite fmap_app, elem_of_app. destruct (Hc c Hmc) as [?|?]; [by left|right; by right].
Qed.

Lemma children_first_snoc (o : list str) (n : str) (v : gset str) :
  children_first o → (∀ c, c ∈ v → c ∈ o) → (∀ c, edge n c → c ∈ v) → children_first (o ++ [n]).
Proof.
  intros Ho Hv Hn o1 m o2 Heq c Hc. apply app_eq_inv in Heq as [(k & -> & Heq)|(k & -> & Heq)].
  - destruct k as [|x k]; simpl in Heq; injection Heq as -> ->.
    + rewrite app_nil_r in Hv. by apply Hv, Hn.
    + by eapply (Ho o1 x k).
  - destruct k as [|x k]; simpl in Heq; [injection Heq as -> ->|by destruct k].
    apply elem_of_app. left. by apply Hv, Hn.
Qed.

Lemma topo_step s s' :
  topo_inv s → dfs_body adj C s = Some s' → topo_inv s' ∧ dfs_measure s' < dfs_measure s.
Proof.
  intros (Hinv & Hok & Ho) Hb. destruct (dfs_step s s' Hinv Hb) as [Hinv' Hm]. split; [|done].
  split; [done|]. clear Hm Hinv'.
  destruct Hinv as (Hvo & _ & _ & Hst & _ & _ & Hps).
  apply dfs_cases in Hb as [(n & rest & Hs & ->)|[(n & rest & Hs & Hn & ->)|(n & rest & Hs & Hn1 & Hn2 & ->)]];
    cbn [stack visited in_progress order]; rewrite Hs in *;
    assert (n ∈ C) as HnC by (eapply (Hst (n, ?[b])); by left).
  - split.
    + eapply (stack_ok_pop _ _ n); [exact Hok|set_solver|done|set_solver].
    + case_bool_decide; [done|]. apply (children_first_snoc _ _ (visited s)); [done|apply Hvo|].
      intros c Hc. destruct (Hok [] n rest eq_refl) as [_ Hcov].
      by destruct (Hcov c Hc) as [?|?%elem_of_nil].
  - split; [|done]. eapply (stack_ok_pop _ _ n); [exact Hok|done|done|].
    destruct Hn as [?|Hn]; [by left|right].
    by destruct (proj1 (elem_of_cons _ _ _) (Hps n Hn)) as [?|?].
  - split; [|done]. apply stack_ok_expand; [done|done|].
    intros m Hm. by destruct (proj1 (elem_of_cons _ _ _) (Hps m Hm)) as [?|?].
Qed.
End acyclic.
End dfs_proofs.

(** The traversal ends, whatever the order in which the set is enumerated. *)
Lemma reverse_topological_spec C root iter :
  enumerates iter C → (∀ n, n ∈ C ↔ rtc edge root n) →
  ∃ o, reverse_topological adj C iter = Some o ∧ o ≡ₚ elements C
     ∧ ((∀ n, n ∈ C → ¬ tc edge n n) → children_first o).
Proof.
  intros Hiter HC.
  set (s0 := mk_dfs [] ∅ ∅ (reverse ((λ n, (n, false)) <$> iter))).
  assert (∀ n b, (n, b) ∈ stack s0 ↔ n ∈ C ∧ b = false) as Hs0.
  { intros n b. unfold s0. cbn [stack]. rewrite elem_of_reverse, list_elem_of_fmap, <- (enumerates_elem iter) by done.
    naive_solver. }
  assert (dfs_inv C s0) as Hinv0.
  { split_and!; cbn [visited order in_progress s0].
    - set_solver.
    - constructor.
    - set_solver.
    - intros [n b] [? _]%Hs0. done.
    - intros n Hn. right. apply list_elem_of_fmap. exists (n, false). split; [done|by apply Hs0].
    - intros n [_ ?]%Hs0. done.
    - set_solver. }
  assert (dfs_measure C s0 ≤ dfs_fuel adj C) as Hfuel.
  { unfold dfs_measure, dfs_fuel, s0. cbn [stack visited in_progress].
    rewrite length_reverse, length_fmap, (Permutation_length Hiter).
    assert (C ∖ (∅ ∪ ∅) = C) as -> by set_solver. unfold size, set_size. simpl. lia. }
  destruct (loop_total (dfs_body adj C) (dfs_inv C) (dfs_measure C) (dfs_step C) _ s0 Hinv0 Hfuel)
    as (s & Hl & (Hvo & Hnd & Hv & _ & Hall & _) & Hend).
  assert (stack s = []) as Hempty.
  { unfold dfs_body in Hend. destruct (stack s) as [|[n [|]] rest]; [done| |]; by case_match. }
  exists (order s). unfold reverse_topological. fold s0. rewrite Hl. split_and!; [done| |].
  - apply NoDup_Permutation; [done|apply NoDup_elements|]. intros n. rewrite elem_of_elements, <- Hvo.
    split; [apply Hv|]. intros Hn. destruct (Hall n Hn) as [?|Hn']; [done|].
    rewrite Hempty in Hn'. by apply elem_of_nil in Hn'.
  - intros Hac.
    assert (∀ n c, n ∈ C → edge n c → c ∈ C) as Hcl
      by (intros n c Hn Hc; apply HC; eapply rtc_r; [by apply HC|done]).
    destruct (loop_total (dfs_body adj C) (topo_inv C) (dfs_measure C) (topo_step C Hcl Hac) (dfs_fuel adj C) s0)
      as (s' & Hl' & (_ & _ & Ho) & _); [|done|by rewrite Hl in Hl'; injection Hl' as ->].
    split; [done|]. split; cbn [order visited].
    + intros s1 n s2 Heq. exfalso. assert ((n, true) ∈ stack s0) as [_ ?]%Hs0; [|done].
      cbn [stack s0] in *. rewrite Heq. apply elem_of_app. right. by left.
    + intros o1 n o2 Heq. by destruct o1.
Qed.
End graph_proofs.

(** [c] depends on [p] in a table of edges. *)
Definition depends (es : list (str * str)) (p c : str) : Prop := (p, c) ∈ es.

Lemma edge_load_edges es p c : edge (load_edges es) p c ↔ depends es p c.
Proof.
  unfold load_edges, edge, depends.
  enough (∀ adj, c ∈ children (fold_left (λ adj e, <[e.1:=default [] (adj !! e.1) ++ [e.2]]> adj) es adj) p
    ↔ c ∈ children adj p ∨ (p, c) ∈ es) as Hgen.
  { rewrite Hgen. unfold children. rewrite lookup_empty. set_solver. }
  induction es as [|[p' c'] es IH]; intros adj; cbn [fold_left fst snd]; [set_solver|].
  rewrite IH. unfold children at 1. destruct (decide (p = p')) as [->|Hp].
  - rewrite lookup_insert_eq. simpl. fold (children adj p'). set_solver.
  - rewrite lookup_insert_ne by done. fold (children adj p). set_solver.
Qed.

Lemma rtc_load_edges es p c : rtc (edge (load_edges es)) p c ↔ rtc (depends es) p c.
Proof. split; apply (rtc_congruence id); intros ??; apply edge_load_edges. Qed.

Lemma tc_load_edges es p c : tc (edge (load_edges es)) p c → tc (depends es) p c.
Proof. apply (tc_congruence id). intros ??. apply edge_load_edges. Qed.

(** C7: the order in which a failed action is rolled back: both loops of the
    traversal end whatever the graph, also on cycles; the order lists exactly
    the actions reachable from the failed one over the dependency edges, each
    once, whatever the iteration order of the hash set; and when no reachable
    action depends on itself every action comes after all that depend on it. *)
Theorem rollback_order (es : list (str * str)) (root : str) (iter : gset str → list str)
    (Hiter : ∀ X, enumerates (iter X) X) :
  ∃ closure order,
    dependent_closure (load_edges es) root = Some closure
    ∧ reverse_topological (load_edges es) closure (iter closure) = Some order
    ∧ NoDup order
    ∧ (∀ n, n ∈ order ↔ rtc (depends es) root n)
    ∧ ((∀ n, n ∈ order → ¬ tc (depends es) n n) →
       ∀ o1 n o2 c, order = o1 ++ n :: o2 → depends es n c → c ∈ o1).
Proof.
  destruct (dependent_closure_spec (load_edges es) root) as (C & HC & HCiff).
  destruct (reverse_topological_spec (load_edges es) C root (iter C) (Hiter C) HCiff) as (o & Ho & Hperm & Htopo).
  exists C, o. split_and!; [done|done| | |].
  - rewrite Hperm. apply NoDup_elements.
  - intros n. by rewrite Hperm, elem_of_elements, HCiff, rtc_load_edges.
  - intros Hac o1 n o2 c Heq Hc. eapply Htopo; [|exact Heq|by apply edge_load_edges].
    intros m Hm Htc%tc_load_edges. apply (Hac m); [|done]. by rewrite Hperm, elem_of_elements.
Qed.

(** A post with two comments, the first of which has a like. *)
Example rollback_order_witness :
  let es := [(lit "p", lit "c1"); (lit "p", lit "c2"); (lit "c1", lit "l"); (lit "x", lit "p")] in
  ∃ closure order,
    dependent_closure (load_edges es) (lit "p") = Some closure
    ∧ reverse_topological (load_edges es) closure (elements closure) = Some order
    ∧ NoDup order
    ∧ (∀ n, n ∈ order ↔ rtc (depends es) (lit "p") n)
    ∧ ((∀ n, n ∈ order → ¬ tc (depends es) n n) →
       ∀ o1 n o2 c, order = o1 ++ n :: o2 → depends es n c → c ∈ o1).
Proof. intros es. apply (rollback_order es (lit "p") elements). intros X. unfold enumerates. done. Defined.

(** ** The rollback *)

Section tx_proofs.
Context `{!Json}.
Context (nodes : gmap str TxNode).

(** Kind and payload of an action, as the chain sees them. *)
Definition action (n : str) : str * str :=
  default ([], []) ((λ n, (node_kind n, payload_json n)) <$> nodes !! n).

Definition parses (n : str) : bool := if from_str (action n).2 is Some _ then true else false.

(** What an action of a kind names in a field of its payload. *)
Definition names (kind field : str) (n : str) : option str :=
  if bool_decide ((action n).1 = kind) then from_str (action n).2 ≫= (λ v, get_str v field) else None.

Definition tombstones (n p : str) : Prop := names KIND_POST (lit "id") n = Some p.
Definition unlikes (n r : str) : Prop := names KIND_LIKE (lit "id") n = Some r.
Definition edits (n u : str) : Prop := names KIND_PROFILE (lit "pubkey") n = Some u.

#[global] Instance tombstones_dec n p : Decision (tombstones n p).
Proof. unfold tombstones. apply _. Defined.

(** Rows of a table that are marked by [f] when a condition holds. *)
Definition marked {A} (b : bool) (f : A → A) (o : option A) : option A := (if b then f else id) <$> o.

Lemma marked_twice {A} (f : A → A) a b o :
  (∀ x, f (f x) = f x) → marked a f (marked b f o) = marked (b || a) f o.
Proof. intros Hf. destruct o, a, b; simpl; unfold id; by rewrite ?Hf. Qed.

(** The tables after the actions of a list were undone. *)
Record undone (todo : list str) (db db' : tx_db) : Prop := {
  undone_edges : tx_edges db' = tx_edges db;
  undone_nodes n : tx_nodes db' !! n =
    marked (bool_decide (n ∈ todo) && parses n) (with_status STATUS_ROLLED_BACK) (tx_nodes db !! n);
  undone_posts p : posts db' !! p =
    marked (bool_decide (Exists (λ n, tombstones n p) todo)) (λ _, true) (posts db !! p);
  undone_reactions r : r ∈ reactions db' ↔ r ∈ reactions db ∧ ∀ n, n ∈ todo → ¬ unlikes n r;
  undone_users u : (∀ n, n ∈ todo → ¬ edits n u) → users db' !! u = users db !! u
}.

Lemma undone_nil db : undone [] db db.
Proof.
  split; [done| | | |done].
  - intros n. simpl. by destruct (tx_nodes db !! n).
  - intros p. rewrite bool_decide_false by (intros ?%Exists_nil; done). by destruct (posts db !! p).
  - intros r. split; [|by intros [? _]]. intros Hr. split; [done|]. by intros n ?%elem_of_nil.
Qed.

Lemma undone_cons n todo db db1 db2 :
  undone [n] db db1 → undone todo db1 db2 → undone (n :: todo) db db2.
Proof.
  intros [He1 Hn1 Hp1 Hr1 Hu1] [He2 Hn2 Hp2 Hr2 Hu2]. split.
  - by rewrite He2.
  - intros m. rewrite Hn2, Hn1, marked_twice by done. f_equal.
    rewrite <- andb_orb_distrib_l. f_equal. rewrite <- bool_decide_or. apply bool_decide_ext. set_solver.
  - intros p. rewrite Hp2, Hp1, marked_twice by done. f_equal.
    rewrite <- bool_decide_or. apply bool_decide_ext. rewrite !Exists_cons, Exists_nil. tauto.
  - intros r. rewrite Hr2, Hr1. set_solver.
  - intros u Hu. rewrite Hu2, Hu1; [done| |]; intros m Hm; apply Hu; set_solver.
Qed.

(** One action: enough to look at the tables it touches. *)
Lemma undone_one n db db' :
  tx_edges db' = tx_edges db →
  tx_nodes db' = (if parses n then alter (with_status STATUS_ROLLED_BACK) n (tx_nodes db) else tx_nodes db) →
  posts db' = (if names KIND_POST (lit "id") n is Some p then alter (λ _, true) p (posts db) else posts db) →
  reactions db' = (if names KIND_LIKE (lit "id") n is Some r then reactions db ∖ {[ r ]} else reactions db) →
  (∀ u, ¬ edits n u → users db' !! u = users db !! u) →
  undone [n] db db'.
Proof.
  intros He Hn Hp Hr Hu. split; [done| | | |].
  - intros m. rewrite Hn. destruct (parses n) eqn:Hpn.
    + destruct (decide (m = n)) as [->|Hm].
      * by rewrite lookup_alter_eq, bool_decide_true, Hpn by (by left).
      * rewrite lookup_alter_ne, bool_decide_false by set_solver. by destruct (tx_nodes db !! m).
    + destruct (decide (m = n)) as [->|Hm]; [rewrite Hpn, andb_false_r|
        rewrite bool_decide_false by set_solver]; by destruct (tx_nodes db !! _).
  - intros p. rewrite Hp, (bool_decide_ext _ (tombstones n p)) by (rewrite Exists_cons, Exists_nil; tauto).
    destruct (decide (tombstones n p)) as [Ht|Ht].
    + rewrite bool_decide_true by done. unfold tombstones in Ht. by rewrite Ht, lookup_alter_eq.
    + rewrite bool_decide_false by done. unfold tombstones in Ht.
      destruct (names KIND_POST (lit "id") n) as [q|]; [|by destruct (posts db !! p)].
      rewrite lookup_alter_ne by congruence. by destruct (posts db !! p).
  - intros r. rewrite Hr. unfold unlikes. destruct (names KIND_LIKE (lit "id") n) as [q|] eqn:Hq.
    + rewrite elem_of_difference, elem_of_singleton. split; intros [? Hr']; (split; [done|]).
      * intros m ->%list_elem_of_singleton. congruence.
      * intros ->. apply (Hr' n); [by left|done].
    + split; [|by intros [? _]]. intros ?. split; [done|]. intros m ->%list_elem_of_singleton. congruence.
  - intros u Hu'. apply Hu, Hu'. by left.
Qed.

Lemma rollback_node_spec n db errs rolled :
  ∃ db', rollback_node nodes (db, errs, rolled) n =
    (db', errs ++ filter (λ n, parses n = false) [n], rolled ++ filter (λ n, parses n = true) [n])
  ∧ undone [n] db db'.
Proof.
  pose proof (undone_one n db) as Hone. unfold edits, names in Hone.
  unfold rollback_node. fold (action n). rewrite !filter_cons, !filter_nil. unfold parses in *.
  destruct (action n) as [kind payload]. cbn [fst snd] in *. unfold revert_tx.
  destruct (from_str payload) as [v|]; cbn [ok_or mbind result_bind].
  2: { exists db. rewrite app_nil_r. split; [done|]. apply Hone; clear Hone; [done|done|by case_bool_decide|by case_bool_decide|done]. }
  rewrite app_nil_r. destruct (decide (kind = KIND_POST)) as [->|Hpost].
  - rewrite (bool_decide_true (KIND_POST = KIND_POST)) in * by done.
    cbn [mbind option_bind] in Hone. destruct (get_str v (lit "id")) as [p|];
      (eexists; split; [done|]; apply Hone; done).
  - rewrite (bool_decide_false (kind = KIND_POST)) in * by done.
    destruct (decide (kind = KIND_LIKE)) as [->|Hlike].
    + rewrite (bool_decide_true (KIND_LIKE = KIND_LIKE)) in * by done.
      cbn [mbind option_bind] in Hone. destruct (get_str v (lit "id")) as [p|];
        (eexists; split; [done|]; apply Hone; done).
    + rewrite (bool_decide_false (kind = KIND_LIKE)) in * by done.
      destruct (decide (kind = KIND_PROFILE)) as [->|Hprof];
        [|rewrite bool_decide_false by done; eexists; split; [done|]; by apply Hone].
      rewrite (bool_decide_true (KIND_PROFILE = KIND_PROFILE)) in * by done.
      cbn [mbind option_bind] in Hone. destruct (get_str v (lit "pubkey")) as [u|];
        [|eexists; split; [done|]; by apply Hone].
      destruct (get v (lit "prior")) as [prior|]; [|eexists; split; [done|]; by apply Hone].
      case_bool_decide; (eexists; split; [done|]; apply Hone; try done).
      intros u' Hu'. cbn [users set_status set_nodes]. rewrite lookup_alter_ne by congruence. done.
Qed.

Lemma chain_spec todo db errs rolled :
  ∃ db', fold_left (rollback_node nodes) todo (db, errs, rolled) =
    (db', errs ++ filter (λ n, parses n = false) todo, rolled ++ filter (λ n, parses n = true) todo)
  ∧ undone todo db db'.
Proof.
  revert db errs rolled. induction todo as [|n todo IH]; intros db errs rolled.
  - exists db. simpl. rewrite !filter_nil, !app_nil_r. split; [done|apply undone_nil].
  - cbn [fold_left]. destruct (rollback_node_spec n db errs rolled) as (db1 & -> & H1).
    edestruct IH as (db2 & -> & H2). exists db2. split; [|by eapply undone_cons].
    rewrite <- !app_assoc, <- !filter_app. done.
Qed.

Lemma filter_parses todo :
  Forall (λ n, parses n = true) todo ↔ filter (λ n, parses n = false) todo = [].
Proof.
  induction todo as [|n todo IH]; [done|]. rewrite Forall_cons, filter_cons.
  destruct (parses n) eqn:Hn; simpl; [|by split; [intros [[=] _]|intros [=]]].
  rewrite <- IH. naive_solver.
Qed.
End tx_proofs.

(** The effect of [tx_fail], which always returns. With [order] the actions
    reachable from the failed one: the call reports the rolled-back actions, or
    the list of those whose payload is not JSON (an action that was never
    recorded is one of them); the failed action, when recorded, is marked failed, every
    other action of [order] with a readable payload is marked rolled back, and
    every other row of [tx_nodes] is unchanged; exactly the posts created by
    [order] are tombstoned, exactly its reactions are deleted, and no user is
    touched but those whose profile it edited. The tables change in the same
    way when an error is reported. *)
Theorem tx_fail_spec `{!Json} (iter : gset str → list str) (db : tx_db) (id : str)
    (Hiter : ∀ X, enumerates (iter X) X) :
  let nodes := tx_nodes db in
  ∃ order db',
    tx_fail iter db id = Some (db',
      if bool_decide (Forall (λ n, parses nodes n = true) order) then Ok order
      else Err (filter (λ n, parses nodes n = false) order))
    ∧ (∀ n, n ∈ order ↔ rtc (depends (tx_edges db)) id n)
    ∧ tx_edges db' = tx_edges db
    ∧ tx_nodes db' !! id = with_status STATUS_FAILED <$> tx_nodes db !! id
    ∧ (∀ n, n ≠ id → tx_nodes db' !! n =
         marked (bool_decide (n ∈ order) && parses nodes n) (with_status STATUS_ROLLED_BACK) (tx_nodes db !! n))
    ∧ (∀ p, posts db' !! p = marked (bool_decide (Exists (λ n, tombstones nodes n p) order)) (λ _, true) (posts db !! p))
    ∧ (∀ r, r ∈ reactions db' ↔ r ∈ reactions db ∧ ∀ n, n ∈ order → ¬ unlikes nodes n r)
    ∧ (∀ u, (∀ n, n ∈ order → ¬ edits nodes n u) → users db' !! u = users db !! u).
Proof.
  intros nodes. destruct (dependent_closure_spec (load_edges (tx_edges db)) id) as (C & HC & HCiff).
  destruct (reverse_topological_spec (load_edges (tx_edges db)) C id (iter C) (Hiter C) HCiff) as (o & Ho & Hperm & _).
  destruct (chain_spec nodes o db [] []) as (db' & Hfold & [He Hn Hp Hr Hu]).
  assert (∀ n, n ∈ o ↔ rtc (depends (tx_edges db)) id n) as Hmem
    by (intros n; by rewrite Hperm, elem_of_elements, HCiff, rtc_load_edges).
  exists o, (set_status db' id STATUS_FAILED). split; [|split_and!; try done].
  - unfold tx_fail. rewrite HC. cbn [mbind option_bind]. rewrite Ho. cbn [mbind option_bind]. fold nodes.
    rewrite Hfold, (bool_decide_false (o = [])).
    2: { intros ->. by apply (not_elem_of_nil id), Hmem. }
    cbn [app]. destruct (decide (Forall (λ n, parses nodes n = true) o)) as [Hall|Hall].
    + rewrite (bool_decide_true (Forall _ _)) by done. rewrite bool_decide_true.
      * unfold rolled_back_after. rewrite app_nil_r. do 3 f_equal.
        clear -Hall. induction Hall; [done|]. rewrite filter_cons, decide_True by done. by f_equal.
      * by apply filter_parses.
    + rewrite (bool_decide_false (Forall _ _)) by done. rewrite bool_decide_false; [done|].
      by rewrite <- filter_parses.
  - cbn. rewrite lookup_alter_eq, Hn. fold nodes. destruct (nodes !! id); [|done].
    by destruct (bool_decide (id ∈ o) && parses nodes id).
  - intros n Hne. cbn. by rewrite lookup_alter_ne, Hn.
Qed.

(** JSON objects of strings, enough to run the examples: [k=v;k=v;]. *)
#[local] Fixpoint cut_at (c : Z) (s : str) : option (str * str) :=
  match s with
  | [] => None
  | x :: s => if bool_decide (x = c) then Some ([], s) else (λ ab, (x :: ab.1, ab.2)) <$> cut_at c s
  end.

#[local] Fixpoint parse_pairs (fuel : nat) (s : str) : option (list (str * str)) :=
  match fuel, s with
  | _, [] => Some []
  | O, _ => None
  | S fuel, s =>
      k ← cut_at 61%Z s;
      v ← cut_at 59%Z k.2;
      cons (k.1, v.1) <$> parse_pairs fuel v.2
  end.

#[local] Instance pairs_json : Json := {
  Value := list (str * str) + str;
  from_str s := inl <$> parse_pairs (length s) s;
  get v k := if v is inl kvs then (λ kv, inr kv.2.2) <$> list_find (λ kv, kv.1 = k) kvs else None;
  as_str v := if v is inr s then Some s else None
}.

(** A post, a comment on it, a like of the comment, and an unrecorded child. *)
Definition example_db : tx_db :=
  let db := mk_db ∅ [] (list_to_map [(lit "P", false); (lit "C", false); (lit "Q", false)]) {[ lit "L"; lit "M" ]} ∅ in
  let db := tx_begin db (lit "p") KIND_POST (lit "id=P;") 1 in
  let db := tx_begin db (lit "c") KIND_POST (lit "id=C;") 2 in
  let db := tx_begin db (lit "l") KIND_LIKE (lit "id=L;") 3 in
  tx_link (tx_link db (lit "p") (lit "c")) (lit "c") (lit "l").

Example tx_fail_spec_witness :
  (λ r, (r.2, posts r.1 !! lit "C", posts r.1 !! lit "Q", bool_decide (lit "L" ∈ reactions r.1)))
    <$> tx_fail elements example_db (lit "p")
  = Some (Ok [lit "l"; lit "c"; lit "p"], Some true, Some false, false)
  ∧ ∃ order db',
    tx_fail elements example_db (lit "p") = Some (db',
      if bool_decide (Forall (λ n, parses (tx_nodes example_db) n = true) order) then Ok order
      else Err (filter (λ n, parses (tx_nodes example_db) n = false) order))
    ∧ (∀ n, n ∈ order ↔ rtc (depends (tx_edges example_db)) (lit "p") n)
    ∧ tx_nodes db' !! lit "p" = with_status STATUS_FAILED <$> tx_nodes example_db !! lit "p".
Proof.
  split.
  - vm_compute. reflexivity.
  - destruct (tx_fail_spec elements example_db (lit "p") (λ X, reflexivity _)) as (o & db' & H1 & H2 & _ & H3 & _).
    exists o, db'. exact (conj H1 (conj H2 H3)).
Defined.
