(* ===== verification/Outbox.v ===== *)
(** The offline outbox: src/sync-core/src/outbox.rs and the replay pass of
    src/sync-core/src/engine.rs. A queued event waits as a row of
    [outbox_queue]; each pass of the engine sends the rows that are due, marks
    them completed or counts a failure with an exponential delay, and prunes
    the settled rows. Payloads are compressed, then sealed, before storage.
    zstd, the seal of the bridge, the event parser and the relay client are
    parameters; errors of the SQL engine are left out. *)

From S2P Require Import Prelude RustStr Text Primitives Sql.

(** zstd: a compressed buffer, and the first bytes of a decompressed stream. *)
Class Zstd := {
  zstd_encode_all : bytes → option bytes;
  zstd_read : Z → bytes → option bytes
}.

Class ZstdLaws `{Zstd} : Prop := {
  zstd_bytes d z : all_bytes d → zstd_encode_all d = Some z → all_bytes z ∧ z ≠ [];
  zstd_roundtrip d z n : zstd_encode_all d = Some z → zstd_read n z = Some (take (Z.to_nat n) d)
}.

(** Source: src/sync-core/src/outbox.rs:10-19 (OutboxItem) *)
Record OutboxItem := mk_item {
  item_id : str;
  action_type : str;
  item_payload : str;
  media_path : option str;
  item_status : str;
  retry_count : Z;
  next_retry_at : Z;
  item_created_at : Z
}.

#[export] Instance item_eq_dec : EqDecision OutboxItem.
Proof. solve_decision. Defined.

(** Source: src/sync-core/src/outbox.rs:22-26 (OutboxSummary) *)
Record OutboxSummary := mk_summary {
  pending_count : Z;
  failed_count : Z;
  total_count : Z
}.

Definition PENDING : str := lit "pending".
Definition FAILED : str := lit "failed".
Definition COMPLETED : str := lit "completed".

(** The table, and the flag that asks for a prune.
    Source: src/sync-core/src/outbox.rs:310-310 (SETTLED_DIRTY) *)
Record outbox := mk_outbox {
  queue : gmap str OutboxItem;
  settled_dirty : bool
}.

(** Source: src/sync-core/src/outbox.rs:28-28 (ZSTD_MAGIC) *)
Definition ZSTD_MAGIC : bytes := lit "Zstd".
(** Source: src/sync-core/src/outbox.rs:34-34 (SEAL_PREFIX) *)
Definition SEAL_PREFIX : str := lit "__seal_b64__:".
Definition ZSTD_B64 : str := lit "__zstd_b64__:".
Definition ZSTD_HEX : str := lit "__zstd__:".

Section payload.
Context `{!Primitives, !Zstd}.

(** Source: src/sync-core/src/outbox.rs:36-48 (compress_payload) *)
Definition compress_payload (payload : str) : str :=
  if (256 <? zlen payload)%Z then
    match zstd_encode_all payload with
    | Some compressed => ZSTD_B64 ++ base64_encode (ZSTD_MAGIC ++ compressed)
    | None => payload
    end
  else payload.

(** Source: src/sync-core/src/outbox.rs:54-54 (decompress_payload, MAX_DECOMPRESSED) *)
Definition MAX_DECOMPRESSED : Z := 1024 * 1024.

(** The capped decoder.
    Source: src/sync-core/src/outbox.rs:55-66 (decompress_payload, cap) *)
Definition decompress_cap (b : bytes) : option str :=
  out ← zstd_read (MAX_DECOMPRESSED + 1) b;
  if (MAX_DECOMPRESSED <? zlen out)%Z then None else from_utf8 out.

(** A decoded envelope: the magic, then the compressed bytes.
    Source: src/sync-core/src/outbox.rs:70-74 (decompress_payload, magic) *)
Definition decompress_envelope (b : bytes) : option str :=
  if (4 <? zlen b)%Z && bool_decide (take 4 b = ZSTD_MAGIC) then decompress_cap (drop 4 b) else None.

(** Source: src/sync-core/src/outbox.rs:50-86 (decompress_payload) *)
Definition decompress_payload (raw : str) : str :=
  match strip_prefix (lit "__zstd") raw with
  | None => raw
  | Some _ =>
      default raw
        (match strip_prefix ZSTD_B64 raw with
         | Some b64_data => base64_decode b64_data ≫= decompress_envelope
         | None =>
             match strip_prefix ZSTD_HEX raw with
             | Some hex_data => hex_decode_str hex_data ≫= decompress_envelope
             | None => None
             end
         end)
  end.

(** Source: src/sync-core/src/outbox.rs:156-164 (unseal_payload) *)
Definition unseal_payload (payload : str) (unseal : str → may_fail str) : str :=
  match strip_prefix SEAL_PREFIX payload with
  | Some inner => match unseal inner with Ok plain => decompress_payload plain | Err _ => payload end
  | None => payload
  end.

(** ** The queue *)

(** Source: src/sync-core/src/outbox.rs:103-147 (enqueue_outbox_item_with_seal) *)
Definition enqueue_outbox_item_with_seal (ob : outbox) (id action payload : str) (media : option str)
    (now_secs : Z) (seal : str → may_fail str) : may_fail outbox :=
  ensure (negb (bool_decide (trim id = []) || (128 <? zlen id)%Z)) "id must be between 1 and 128 chars" ≫= λ _,
  ensure (negb (bool_decide (trim action = []) || (64 <? zlen action)%Z)) "action_type must be between 1 and 64 chars" ≫= λ _,
  ensure (negb (16 * 1024 * 1024 <? zlen payload)%Z) "payload_json exceeds 16MB cap" ≫= λ _,
  ensure (if media is Some mp then negb (1024 <? zlen mp)%Z else true) "media_path exceeds 1024 chars" ≫= λ _,
  stored ← map_err (λ _, Fail "Failed to seal outbox payload") (seal (compress_payload payload));
  Ok (mk_outbox (<[id := mk_item id action stored media PENDING 0 0 now_secs]> (queue ob)) (settled_dirty ob)).

(** Source: src/sync-core/src/outbox.rs:88-97 (enqueue_outbox_item) *)
Definition enqueue_outbox_item (ob : outbox) (id action payload : str) (media : option str) (now_secs : Z)
    : may_fail outbox :=
  enqueue_outbox_item_with_seal ob id action payload media now_secs Ok.

(** The WHERE clause of a fetch. *)
Definition due (now_secs : Z) (include_media : bool) (r : OutboxItem) : Prop :=
  item_status r = PENDING ∧ (include_media = true ∨ media_path r = None) ∧ (next_retry_at r ≤ now_secs)%Z.

#[export] Instance due_dec now m r : Decision (due now m r).
Proof. unfold due. apply _. Defined.

Context `{!OrderBy (asc item_created_at), !OrderBy (desc item_created_at)}.

(** Source: src/sync-core/src/outbox.rs:192-240 (fetch_pending_outbox_items_with_unseal) *)
Definition fetch_pending_outbox_items_with_unseal (ob : outbox) (now_secs : Z) (limit : nat)
    (include_media : bool) (unseal : str → may_fail str) : list OutboxItem :=
  (λ r, mk_item (item_id r) (action_type r) (unseal_payload (decompress_payload (item_payload r)) unseal)
          (media_path r) (item_status r) (retry_count r) (next_retry_at r) (item_created_at r))
    <$> select_rows (asc item_created_at) (due now_secs include_media) limit (queue ob).

(** Source: src/sync-core/src/outbox.rs:174-187 (fetch_pending_outbox_items_filtered) *)
Definition fetch_pending_outbox_items_filtered (ob : outbox) (now_secs : Z) (limit : nat)
    (include_media : bool) : list OutboxItem :=
  fetch_pending_outbox_items_with_unseal ob now_secs limit include_media Ok.

(** Source: src/sync-core/src/outbox.rs:166-172 (fetch_pending_outbox_items) *)
Definition fetch_pending_outbox_items (ob : outbox) (now_secs : Z) (limit : nat) : list OutboxItem :=
  fetch_pending_outbox_items_filtered ob now_secs limit false.

Definition with_state (s : str) (rc next : Z) (r : OutboxItem) : OutboxItem :=
  mk_item (item_id r) (action_type r) (item_payload r) (media_path r) s rc next (item_created_at r).

Definition complete_row (r : OutboxItem) : OutboxItem := with_state COMPLETED (retry_count r) (next_retry_at r) r.

(** Source: src/sync-core/src/outbox.rs:242-251 (mark_outbox_item_completed) *)
Definition mark_outbox_item_completed (ob : outbox) (id : str) : outbox :=
  mk_outbox (alter complete_row id (queue ob)) true.

(** Source: src/sync-core/src/outbox.rs:256-277 (mark_outbox_item_failed) *)
Definition mark_outbox_item_failed (ob : outbox) (id : str) (rc next : Z) : outbox :=
  let s := if (10 <=? rc)%Z then FAILED else PENDING in
  mk_outbox (alter (with_state s rc next) id (queue ob)) (bool_decide (s = FAILED) || settled_dirty ob).

(** Source: src/sync-core/src/outbox.rs:323-336 (mark_outbox_items_completed) *)
Definition mark_outbox_items_completed (ob : outbox) (ids : list str) : outbox :=
  if bool_decide (ids = []) then ob
  else mk_outbox (map_imap (λ k r, Some (if bool_decide (k ∈ ids) then complete_row r else r)) (queue ob)) true.

(** Source: src/sync-core/src/outbox.rs:318-320 (settled_dirty_take) *)
Definition settled_dirty_take (ob : outbox) : outbox * bool :=
  (mk_outbox (queue ob) false, settled_dirty ob).

Definition count_status (s : str) (ob : outbox) : Z :=
  zsize (filter (λ kr, item_status kr.2 = s) (queue ob)).

(** Source: src/sync-core/src/outbox.rs:279-305 (summarize_outbox) *)
Definition summarize_outbox (ob : outbox) : OutboxSummary :=
  mk_summary (count_status PENDING ob mod 2 ^ 32) (count_status FAILED ob mod 2 ^ 32) (zsize (queue ob) mod 2 ^ 32).

Definition settled (r : OutboxItem) : Prop := item_status r = COMPLETED ∨ item_status r = FAILED.
#[export] Instance settled_dec r : Decision (settled r).
Proof. unfold settled. apply _. Defined.

(** The new table and the number of rows removed.
    Source: src/sync-core/src/outbox.rs:341-356 (prune_outbox_settled) *)
Definition prune_outbox_settled (ob : outbox) (keep_latest : nat) : outbox * Z :=
  let keep := item_id <$> select_rows (desc item_created_at) settled keep_latest (queue ob) in
  let q := filter (λ kr, settled kr.2 → kr.1 ∈ keep) (queue ob) in
  (mk_outbox q (settled_dirty ob), zsize (queue ob) - zsize q)%Z.

(** ** The replay pass of the engine *)

(** The sum stays in range for every clock reading below 2^63 - 256.
    Source: src/sync-core/src/engine.rs:158-161 (retry_at) *)
Definition retry_at (now_secs rc : Z) : Z :=
  now_secs + Z.shiftl 1 (Z.max 0 (Z.min rc 8)).

Section replay.
Context {Event : Type} (event_from_str : str → option Event) (unseal : str → may_fail str).

(** One fetched item; [send] is the relay client during this pass.
    Source: src/sync-core/src/engine.rs:110-141 (replay_outbox_sealed, item) *)
Definition replay_item (now : Z) (send : Event → bool) (acc : outbox * list str) (item : OutboxItem)
    : outbox * list str :=
  let '(ob, completed) := acc in
  let failed := (mark_outbox_item_failed ob (item_id item) (retry_count item + 1)
                   (retry_at now (retry_count item + 1)), completed) in
  if media_path item is Some _ then acc
  else match event_from_str (item_payload item) with
       | Some event => if send event then (ob, completed ++ [item_id item]) else failed
       | None => failed
       end.

(** Source: src/sync-core/src/engine.rs:95-155 (replay_outbox_sealed) *)
Definition replay_outbox_sealed (ob : outbox) (now : Z) (send : Event → bool) : outbox :=
  let items := fetch_pending_outbox_items_with_unseal ob now 32 false unseal in
  let '(ob, completed) := fold_left (replay_item now send) items (ob, []) in
  let ob := mark_outbox_items_completed ob completed in
  let '(ob, dirty) := settled_dirty_take ob in
  if (dirty : bool) then (prune_outbox_settled ob 500).1 else ob.

(** ** What one pass does to each row *)

Definition keyed (ob : outbox) : Prop := ∀ k r, queue ob !! k = Some r → item_id r = k.

Definition selected (ob : outbox) (now : Z) : list OutboxItem :=
  select_rows (asc item_created_at) (due now false) 32 (queue ob).

Definition fetched (r : OutboxItem) : OutboxItem :=
  mk_item (item_id r) (action_type r) (unseal_payload (decompress_payload (item_payload r)) unseal)
    (media_path r) (item_status r) (retry_count r) (next_retry_at r) (item_created_at r).

(** The item parses and the relay takes it. *)
Definition sent (send : Event → bool) (item : OutboxItem) : bool :=
  if event_from_str (item_payload item) is Some e then send e else false.

Definition fail_row (now : Z) (i r : OutboxItem) : OutboxItem :=
  with_state (if (10 <=? retry_count i + 1)%Z then FAILED else PENDING) (retry_count i + 1)
    (retry_at now (retry_count i + 1)) r.

Definition row_after (ob : outbox) (now : Z) (send : Event → bool) (r : OutboxItem) : OutboxItem :=
  if bool_decide (r ∈ selected ob now)
  then if sent send (fetched r) then complete_row r else fail_row now (fetched r) r
  else r.

Lemma replay_item_fold now send items ob completed :
  (∀ i, i ∈ items → media_path i = None) → NoDup (item_id <$> items) →
  let '(ob', completed') := fold_left (replay_item now send) items (ob, completed) in
  completed' = completed ++ (item_id <$> filter (λ i, sent send i = true) items)
  ∧ (∀ i, i ∈ items → sent send i = false → queue ob' !! item_id i = fail_row now i <$> queue ob !! item_id i)
  ∧ (∀ k, (∀ i, i ∈ items → sent send i = false → item_id i ≠ k) → queue ob' !! k = queue ob !! k).
Proof.
  revert ob completed. induction items as [|i items IH]; intros ob completed Hm Hnd.
  - cbn. rewrite app_nil_r. split_and!; [done| |done]. by intros i ?%elem_of_nil.
  - cbn [fold_left]. apply NoDup_cons in Hnd as [Hi Hnd].
    assert (replay_item now send (ob, completed) i =
      if sent send i then (ob, completed ++ [item_id i])
      else (mark_outbox_item_failed ob (item_id i) (retry_count i + 1) (retry_at now (retry_count i + 1)), completed))
      as ->.
    { unfold replay_item, sent. rewrite Hm by (by left). by destruct (event_from_str (item_payload i)). }
    rewrite filter_cons. destruct (sent send i) eqn:Hs.
    + specialize (IH ob (completed ++ [item_id i])). destruct (fold_left _ _ _) as [ob' c'].
      destruct IH as (-> & Hf & Hu); [by intros; apply Hm; right|done|].
      split_and!; [by rewrite <- app_assoc| |].
      * intros j [->|Hj]%elem_of_cons Hsj; [congruence|by apply Hf].
      * intros k Hk. apply Hu. intros j Hj. apply Hk. by right.
    + set (ob1 := mark_outbox_item_failed ob _ _ _).
      specialize (IH ob1 completed). destruct (fold_left _ _ _) as [ob' c'].
      destruct IH as (-> & Hf & Hu); [by intros; apply Hm; right|done|].
      split_and!; [done| |].
      * intros j [->|Hj]%elem_of_cons Hsj.
        -- rewrite Hu by (intros j Hj _ Heq; apply Hi; rewrite <- Heq; by apply list_elem_of_fmap_2).
           unfold ob1, mark_outbox_item_failed. cbn [queue]. by rewrite lookup_alter_eq.
        -- rewrite Hf by done. unfold ob1, mark_outbox_item_failed. cbn [queue].
           rewrite lookup_alter_ne; [done|]. intros Heq. apply Hi. rewrite Heq. by apply list_elem_of_fmap_2.
      * intros k Hk. rewrite Hu by (intros j Hj; apply Hk; by right).
        unfold ob1, mark_outbox_item_failed. cbn [queue].
        rewrite lookup_alter_ne; [done|]. apply Hk; [by left|done].
Qed.

Lemma selected_inv ob now r :
  keyed ob → r ∈ selected ob now → due now false r ∧ queue ob !! item_id r = Some r.
Proof.
  intros Hk [Hdue (k & Hr)]%elem_of_select. split; [done|]. by rewrite (Hk k r Hr).
Qed.

Lemma selected_nodup ob now : keyed ob → NoDup (item_id <$> selected ob now).
Proof.
  intros Hk. apply NoDup_fmap_2_strong.
  { intros x y Hx Hy Heq. apply selected_inv in Hx as [_ Hx], Hy as [_ Hy]; [congruence|done..]. }
  unfold selected, select_rows.
  assert (item_id <$> (map_to_list (queue ob)).*2 = (map_to_list (queue ob)).*1) as Hids.
  { rewrite <- list_fmap_compose. apply list_fmap_ext. intros j [k r] Hl. simpl.
    apply Hk. apply elem_of_map_to_list. by eapply list_elem_of_lookup_2. }
  eapply sublist_NoDup; [|apply sublist_take]. rewrite order_by_perm.
  eapply sublist_NoDup; [|apply sublist_filter].
  apply (NoDup_fmap_1 item_id). rewrite Hids. apply NoDup_fst_map_to_list.
Qed.

(** The table between the sends and the prune. *)
Definition replayed (ob : outbox) (now : Z) (send : Event → bool) : outbox :=
  let '(ob, completed) :=
    fold_left (replay_item now send) (fetch_pending_outbox_items_with_unseal ob now 32 false unseal) (ob, []) in
  mark_outbox_items_completed ob completed.

Lemma replayed_lookup ob now send k :
  keyed ob → queue (replayed ob now send) !! k = row_after ob now send <$> queue ob !! k.
Proof.
  intros Hk. unfold replayed, fetch_pending_outbox_items_with_unseal. fold (selected ob now).
  change (λ r, mk_item _ _ _ _ _ _ _ _) with fetched.
  pose proof (replay_item_fold now send (fetched <$> selected ob now) ob []) as Hfold.
  destruct (fold_left _ _ _) as [ob' completed]. destruct Hfold as (-> & Hf & Hu).
  { intros i (r & -> & Hr)%list_elem_of_fmap. apply selected_inv in Hr as [(_ & [?|?] & _) _]; done. }
  { rewrite <- list_fmap_compose. by apply selected_nodup. }
  cbn [app]. set (ids := item_id <$> _).
  assert (∀ r, r ∈ selected ob now → item_id r ∈ ids ↔ sent send (fetched r) = true) as Hids.
  { intros r Hr. unfold ids. rewrite list_elem_of_fmap. split.
    - intros (i & Hi & [Hs (r' & -> & Hr')%list_elem_of_fmap]%list_elem_of_filter).
      apply selected_inv in Hr as [_ Hr], Hr' as [_ Hr']; [|done..]. simpl in Hi. congruence.
    - intros Hs. exists (fetched r). split; [done|]. apply list_elem_of_filter. split; [done|].
      by apply list_elem_of_fmap_2. }
  assert (∀ i, i ∈ ids → ∃ r, r ∈ selected ob now ∧ i = item_id r) as Hidsel.
  { intros i (x & -> & [_ (r & -> & Hr)%list_elem_of_fmap]%list_elem_of_filter)%list_elem_of_fmap. by exists r. }
  assert (queue (mark_outbox_items_completed ob' ids) !! k =
    (λ r, if bool_decide (k ∈ ids) then complete_row r else r) <$> queue ob' !! k) as ->.
  { unfold mark_outbox_items_completed. case_bool_decide as He; cbn [queue].
    - destruct (queue ob' !! k); [|done]. cbn [fmap option_fmap option_map].
      rewrite bool_decide_false; [done|]. rewrite He. apply not_elem_of_nil.
    - rewrite map_lookup_imap. by destruct (queue ob' !! k). }
  destruct (queue ob !! k) as [r|] eqn:Hr.
  - assert (item_id r = k) as <- by by apply Hk. simpl. unfold row_after.
    destruct (decide (r ∈ selected ob now)) as [Hsel|Hsel].
    + rewrite (bool_decide_true (r ∈ _)) by done.
      rewrite (bool_decide_ext _ _ (Hids r Hsel)). destruct (sent send (fetched r)) eqn:Hs.
      * rewrite bool_decide_true by done. rewrite Hu, Hr; [done|].
        intros i (r' & -> & Hr')%list_elem_of_fmap Hs' Heq.
        apply selected_inv in Hr' as [_ Hr']; [|done]. simpl in Heq. congruence.
      * rewrite bool_decide_false by done.
        change (item_id r) with (item_id (fetched r)). rewrite Hf; [|by apply list_elem_of_fmap_2|done].
        cbn [item_id fetched]. by rewrite Hr.
    + rewrite (bool_decide_false (r ∈ _)) by done.
      assert (item_id r ∉ ids) as Hni.
      { intros (r' & Hr' & Heq)%Hidsel. apply selected_inv in Hr' as Hr''; [|done].
        destruct Hr'' as [_ Hr'']. congruence. }
      rewrite (bool_decide_false (item_id r ∈ ids)) by done. rewrite Hu, Hr; [done|].
      intros i (r' & -> & Hr')%list_elem_of_fmap _ Heq.
      apply selected_inv in Hr' as Hr''; [|done]. destruct Hr'' as [_ Hr'']. simpl in Heq. congruence.
  - rewrite Hu, Hr; [done|]. intros i (r & -> & Hr')%list_elem_of_fmap _ <-.
    apply selected_inv in Hr' as [_ Hr']; [|done]. simpl in Hr. congruence.
Qed.

(** A pass: the rows as replayed, less some settled ones. *)
Lemma pass_spec ob now send :
  keyed ob →
  let ob' := replay_outbox_sealed ob now send in
  settled_dirty ob' = false
  ∧ (∀ k r', queue ob' !! k = Some r' → ∃ r, queue ob !! k = Some r ∧ r' = row_after ob now send r)
  ∧ (∀ k r, queue ob !! k = Some r → ¬ settled (row_after ob now send r) →
      queue ob' !! k = Some (row_after ob now send r))
  ∧ ((settled_dirty ob' = settled_dirty (replayed ob now send) ∧ queue ob' = queue (replayed ob now send))
     ∨ queue ob' = queue (prune_outbox_settled (replayed ob now send) 500).1).
Proof.
  intros Hk. pose proof (λ k, replayed_lookup ob now send k Hk) as Hl.
  unfold replay_outbox_sealed. unfold replayed in *.
  destruct (fold_left _ _ _) as [ob1 completed]. set (ob2 := mark_outbox_items_completed ob1 completed) in *.
  unfold settled_dirty_take. destruct (settled_dirty ob2) eqn:Hd; cbn [fst queue settled_dirty prune_outbox_settled].
  - split_and!; [done| | |by right].
    + intros k r' [Hr' _]%map_lookup_filter_Some. rewrite Hl in Hr'.
      apply fmap_Some in Hr' as (r & Hr & ->). by exists r.
    + intros k r Hr Hs. apply map_lookup_filter_Some. split; [by rewrite Hl, Hr|]. simpl. intros ?. done.
  - split_and!; [done| | |by left].
    + intros k r' Hr'. rewrite Hl in Hr'. apply fmap_Some in Hr' as (r & Hr & ->). by exists r.
    + intros k r Hr _. by rewrite Hl, Hr.
Qed.

(** ** Draining *)

Definition eligible (r : OutboxItem) : Prop := item_status r = PENDING ∧ media_path r = None.
#[local] Instance eligible_dec r : Decision (eligible r).
Proof. unfold eligible. apply _. Defined.

(** The attempts a row may still need. *)
Definition weight (r : OutboxItem) : nat :=
  if decide (eligible r) then Z.to_nat (10 - retry_count r) else 0.

Definition backlog (keys : list str) (ob : outbox) : nat :=
  sum_list_with (λ k, from_option weight 0 (queue ob !! k)) keys.

(** Every row still to be sent is due at [t] and has attempts left. *)
Definition ready (t : Z) (ob : outbox) : Prop :=
  keyed ob ∧ ∀ k r, queue ob !! k = Some r → eligible r →
    (0 ≤ retry_count r < 10 ∧ next_retry_at r ≤ t)%Z.

Lemma retry_at_bound now rc : (now < retry_at now rc ≤ now + 256)%Z.
Proof.
  unfold retry_at. rewrite Z.shiftl_mul_pow2, Z.mul_1_l by lia.
  assert (2 ^ 0 ≤ 2 ^ Z.max 0 (Z.min rc 8) ≤ 2 ^ 8)%Z; [|change (2 ^ 8)%Z with 256%Z in *; lia].
  split; apply Z.pow_le_mono_r; lia.
Qed.

Lemma row_after_weight ob now send r :
  ready now ob → queue ob !! item_id r = Some r →
  weight (row_after ob now send r) ≤ weight r
  ∧ (r ∈ selected ob now → weight (row_after ob now send r) < weight r)
  ∧ (eligible (row_after ob now send r) → eligible r)
  ∧ (eligible (row_after ob now send r) →
      (0 ≤ retry_count (row_after ob now send r) < 10
       ∧ next_retry_at (row_after ob now send r) ≤ now + 256)%Z).
Proof.
  intros [Hk Hr0] Hr. unfold row_after. case_bool_decide as Hsel; [|
    split_and!; [lia|done|done|intros He; destruct (Hr0 _ r Hr He); lia]].
  destruct (selected_inv ob now r Hk Hsel) as [(Hp & [?|Hm] & _) _]; [done|].
  assert (eligible r) as He by done. destruct (Hr0 _ r Hr He) as [Hrc _].
  assert (weight r = Z.to_nat (10 - retry_count r)) as Hw by (unfold weight; by rewrite decide_True).
  destruct (sent send (fetched r)).
  - assert (¬ eligible (complete_row r)) as Hne by by intros [? _].
    assert (weight (complete_row r) = 0) as -> by (unfold weight; by rewrite decide_False).
    split_and!; [lia|lia|done|done].
  - pose proof (retry_at_bound now (retry_count r + 1)). unfold fail_row. cbn [retry_count fetched].
    destruct (Z.leb_spec 10 (retry_count r + 1)).
    + assert (weight (with_state FAILED (retry_count r + 1) (retry_at now (retry_count r + 1)) r) = 0) as ->
        by (unfold weight; rewrite decide_False; [done|by intros [? _]]).
      split_and!; [lia|lia|done|by intros [? _]].
    + assert (weight (with_state PENDING (retry_count r + 1) (retry_at now (retry_count r + 1)) r) =
        Z.to_nat (10 - (retry_count r + 1))) as -> by (unfold weight; rewrite decide_True; done).
      split_and!; [lia|lia|done|]. intros _. cbn [retry_count next_retry_at with_state]. lia.
Qed.

Lemma ready_pass ob now send t :
  ready now ob → (now + 256 ≤ t)%Z → ready t (replay_outbox_sealed ob now send).
Proof.
  intros Hr Ht. destruct (pass_spec ob now send (proj1 Hr)) as (_ & Hq & _). split.
  - intros k r' (r & Hk & ->)%Hq. unfold row_after. pose proof (proj1 Hr k r Hk) as <-.
    case_bool_decide; [|done]. by destruct (sent send (fetched r)).
  - intros k r' (r & Hk & ->)%Hq He. pose proof (proj1 Hr k r Hk) as Hid. subst k.
    destruct (row_after_weight ob now send r Hr Hk) as (_ & _ & _ & Hb). specialize (Hb He). lia.
Qed.

(** While something is to be sent, a pass makes progress. *)
Lemma backlog_pass keys ob now send :
  ready now ob → NoDup keys → (∀ k r, queue ob !! k = Some r → k ∈ keys) →
  backlog keys (replay_outbox_sealed ob now send) ≤ backlog keys ob
  ∧ ((∃ k r, queue ob !! k = Some r ∧ eligible r) →
     backlog keys (replay_outbox_sealed ob now send) < backlog keys ob).
Proof.
  intros Hr Hnd Hkeys. destruct (pass_spec ob now send (proj1 Hr)) as (_ & Hq & _).
  assert (∀ k, from_option weight 0 (queue (replay_outbox_sealed ob now send) !! k)
    ≤ from_option weight 0 (queue ob !! k)) as Hle.
  { intros k. destruct (queue (replay_outbox_sealed ob now send) !! k) as [r'|] eqn:Hr'; [|simpl; lia].
    destruct (Hq k r' Hr') as (r & Hk & ->). rewrite Hk. simpl.
    pose proof (proj1 Hr k r Hk) as <-. by apply row_after_weight. }
  split.
  - unfold backlog. clear Hnd Hkeys. induction keys as [|k keys IH]; simpl; [done|].
    specialize (Hle k). lia.
  - intros (k0 & r0 & Hk0 & He0).
    assert (∃ r, r ∈ selected ob now) as (r & Hsel).
    { destruct (selected ob now) as [|r l] eqn:Hs; [|exists r; by left].
      exfalso. pose proof (select_length (asc item_created_at) (due now false) 32 (queue ob)) as Hlen.
      fold (selected ob now) in Hlen. rewrite Hs in Hlen.
      assert (r0 ∈ filter (due now false) (map_to_list (queue ob)).*2) as Hin.
      { apply list_elem_of_filter. split.
        - destruct He0. split_and!; [done|by right|]. apply (proj2 Hr k0 r0 Hk0). done.
        - apply list_elem_of_fmap. exists (k0, r0). split; [done|]. by apply elem_of_map_to_list. }
      destruct (filter _ _); [by apply elem_of_nil in Hin|simpl in Hlen; lia]. }
    destruct (selected_inv ob now r (proj1 Hr) Hsel) as [_ Hrq].
    assert (from_option weight 0 (queue (replay_outbox_sealed ob now send) !! item_id r)
      < from_option weight 0 (queue ob !! item_id r)) as Hlt.
    { destruct (row_after_weight ob now send r Hr Hrq) as (_ & Hlt & _ & _). specialize (Hlt Hsel).
      destruct (queue (replay_outbox_sealed ob now send) !! item_id r) as [r'|] eqn:Hr'; rewrite Hrq; simpl; [|lia].
      destruct (Hq _ r' Hr') as (r2 & Hk & ->). by rewrite Hrq in Hk; injection Hk as <-. }
    pose proof (Hkeys _ _ Hrq) as Hin. unfold backlog. clear -Hle Hlt Hin.
    induction keys as [|k keys IH]; [by apply elem_of_nil in Hin|]. simpl.
    assert (∀ ks, sum_list_with (λ k, from_option weight 0 (queue (replay_outbox_sealed ob now send) !! k)) ks
      ≤ sum_list_with (λ k, from_option weight 0 (queue ob !! k)) ks) as Hsum.
    { intros ks. induction ks as [|k' ks IHk]; simpl; [done|]. specialize (Hle k'). lia. }
    apply elem_of_cons in Hin as [<-|Hin].
    + specialize (Hsum keys). lia.
    + specialize (Hle k). specialize (IH Hin). lia.
Qed.

(** A sequence of passes, and passes at least 256 seconds apart. *)
Definition run_passes (ob : outbox) (passes : list (Z * (Event → bool))) : outbox :=
  fold_left (λ ob p, replay_outbox_sealed ob p.1 p.2) passes ob.

Fixpoint spaced (t : Z) (passes : list (Z * (Event → bool))) : Prop :=
  match passes with
  | [] => True
  | p :: passes => (t ≤ p.1)%Z ∧ spaced (p.1 + 256) passes
  end.

Lemma run_passes_backlog keys t ob passes :
  ready t ob → spaced t passes → NoDup keys → (∀ k r, queue ob !! k = Some r → k ∈ keys) →
  (∃ t', ready t' (run_passes ob passes))
  ∧ (∀ k r, queue (run_passes ob passes) !! k = Some r → k ∈ keys)
  ∧ backlog keys (run_passes ob passes) ≤ backlog keys ob - length passes.
Proof.
  intros Hr Hs Hnd Hkeys. revert t ob Hr Hs Hkeys.
  induction passes as [|[now send] passes IH]; intros t ob Hr Hs Hkeys.
  { cbn. split_and!; [by exists t|done|lia]. }
  destruct Hs as [Ht Hs]. cbn [fst] in *.
  assert (ready now ob) as Hr'.
  { destruct Hr as [Hk Hr]. split; [done|]. intros k r Hkr He. destruct (Hr k r Hkr He). lia. }
  change (run_passes ob ((now, send) :: passes)) with (run_passes (replay_outbox_sealed ob now send) passes).
  set (ob1 := replay_outbox_sealed ob now send).
  pose proof (ready_pass ob now send (now + 256) Hr' (Z.le_refl _)) as Hr1.
  destruct (pass_spec ob now send (proj1 Hr')) as (_ & Hq & _). fold ob1 in Hq, Hr1.
  assert (∀ k r, queue ob1 !! k = Some r → k ∈ keys) as Hkeys1.
  { intros k r' (r & Hkr & _)%Hq. by eapply Hkeys. }
  destruct (backlog_pass keys ob now send Hr' Hnd Hkeys) as [Hle Hlt]. fold ob1 in Hle, Hlt.
  destruct (IH (now + 256)%Z ob1 Hr1 Hs Hkeys1) as (Hready & Hsub & Hdec). split_and!; [done|done|].
  destruct (decide (backlog keys ob = 0)) as [Hz|Hz].
  - simpl. lia.
  - assert (∃ k r, queue ob !! k = Some r ∧ eligible r) as Hex.
    { unfold backlog in Hz. clear -Hz. induction keys as [|k keys IH]; simpl in Hz; [done|].
      destruct (queue ob !! k) as [r|] eqn:Hkr; [|by apply IH].
      destruct (decide (eligible r)) as [He|He]; [by exists k, r|].
      apply IH. simpl in Hz. unfold weight in Hz at 1. by rewrite decide_False in Hz. }
    specialize (Hlt Hex). simpl. lia.
Qed.

Lemma media_waits ob now send k r :
  keyed ob → queue ob !! k = Some r → is_Some (media_path r) → item_status r = PENDING →
  queue (replay_outbox_sealed ob now send) !! k = Some r.
Proof.
  intros Hk Hr [mp Hm] Hp. destruct (pass_spec ob now send Hk) as (_ & _ & Hq & _).
  assert (row_after ob now send r = r) as Hafter.
  { unfold row_after. rewrite bool_decide_false; [done|].
    intros [(_ & [?|?] & _) _]%selected_inv; [done|congruence|done]. }
  specialize (Hq k r Hr). rewrite Hafter in Hq. apply Hq. intros [Hs|Hs]; by rewrite Hp in Hs.
Qed.

(** ** The invariant of the queue *)

Definition settled_count (ob : outbox) : nat := size (filter (λ kr, settled kr.2) (queue ob)).

Definition outbox_inv (ob : outbox) : Prop :=
  keyed ob
  ∧ (∀ k r, queue ob !! k = Some r →
      (0 ≤ retry_count r)%Z ∧ (item_status r = PENDING ∧ (retry_count r < 10)%Z ∨ settled r))
  ∧ (settled_dirty ob = false → settled_count ob ≤ 500).

(** Everything that changes the queue. *)
Inductive outbox_step : outbox → outbox → Prop :=
| os_enqueue ob ob' id action payload media now seal :
    enqueue_outbox_item_with_seal ob id action payload media now seal = Ok ob' → outbox_step ob ob'
| os_completed ob id : outbox_step ob (mark_outbox_item_completed ob id)
| os_completed_many ob ids : outbox_step ob (mark_outbox_items_completed ob ids)
| os_failed ob id rc next : (0 ≤ rc)%Z → outbox_step ob (mark_outbox_item_failed ob id rc next)
| os_prune ob keep : outbox_step ob (prune_outbox_settled ob keep).1
| os_replay ob now send : outbox_step ob (replay_outbox_sealed ob now send).

Definition outbox_init (ob : outbox) : Prop := ob = mk_outbox ∅ false.

Lemma settled_count_le ob ob' :
  (∀ k r', queue ob' !! k = Some r' → settled r' → ∃ r, queue ob !! k = Some r ∧ settled r) →
  settled_count ob' ≤ settled_count ob.
Proof.
  intros Hsub. unfold settled_count. rewrite <- !size_dom. apply subseteq_size.
  intros k [r' [Hr' Hs]%map_lookup_filter_Some]%elem_of_dom.
  destruct (Hsub k r' Hr' Hs) as (r & Hr & Hs'). apply elem_of_dom. exists r.
  by apply map_lookup_filter_Some.
Qed.

Lemma inv_enqueue ob ob' id action payload media now seal :
  outbox_inv ob → enqueue_outbox_item_with_seal ob id action payload media now seal = Ok ob' → outbox_inv ob'.
Proof.
  intros (Hk & Hr & Hd) Henq. unfold enqueue_outbox_item_with_seal in Henq. inv_ok. subst.
  split_and!; unfold keyed; cbn [queue settled_dirty] in *.
  - intros k r [[<- <-]|[? Hkr]]%lookup_insert_Some; [done|by apply Hk].
  - intros k r [[<- <-]|[? Hkr]]%lookup_insert_Some; [|by eapply Hr].
    cbn. split; [lia|]. left. split; [done|lia].
  - intros Hf. etrans; [|by apply Hd]. apply settled_count_le. cbn [queue].
    intros k r' [[<- <-]|[? Hkr]]%lookup_insert_Some Hs; [by destruct Hs|by exists r'].
Qed.

(** A row-wise update that raises the flag when it settles something. *)
Lemma inv_alter ob f id d :
  outbox_inv ob →
  (∀ r, item_id (f r) = item_id r) →
  (∀ r, (0 ≤ retry_count r)%Z →
    (0 ≤ retry_count (f r))%Z ∧ (item_status (f r) = PENDING ∧ (retry_count (f r) < 10)%Z ∨ settled (f r) ∧ d = true)) →
  outbox_inv (mk_outbox (alter f id (queue ob)) (d || settled_dirty ob)).
Proof.
  intros (Hk & Hr & Hd) Hid Hf. split_and!; unfold keyed; cbn [queue settled_dirty] in *.
  - intros k r Hkr. apply lookup_alter_Some in Hkr as [(<- & r0 & Hr0 & ->)|[_ Hkr]]; [|by apply Hk].
    rewrite Hid. by apply Hk.
  - intros k r Hkr. apply lookup_alter_Some in Hkr as [(<- & r0 & Hr0 & ->)|[_ Hkr]]; [|by eapply Hr].
    destruct (Hf r0 (proj1 (Hr _ _ Hr0))) as [? Hfr]. split; [done|]. naive_solver.
  - intros [-> Hfl]%orb_false_iff. etrans; [|by apply Hd]. apply settled_count_le. cbn [queue].
    intros k r Hkr Hs. apply lookup_alter_Some in Hkr as [(<- & r0 & Hr0 & ->)|[_ Hkr]]; [|by exists r].
    destruct (Hf r0 (proj1 (Hr _ _ Hr0))) as [_ [[Hp _]|[_ ?]]]; [|done].
    destruct Hs as [Hs|Hs]; by rewrite Hp in Hs.
Qed.

Lemma inv_failed ob id rc next :
  outbox_inv ob → (0 ≤ rc)%Z → outbox_inv (mark_outbox_item_failed ob id rc next).
Proof.
  intros Hinv Hrc. apply inv_alter; [done|done|]. intros r _. cbn [with_state retry_count item_status].
  split; [done|]. destruct (Z.leb_spec 10 rc); [right|left]; (split; [|done]).
  - by right.
  - done.
Qed.

Lemma inv_completed_many ob ids :
  outbox_inv ob → outbox_inv (mark_outbox_items_completed ob ids).
Proof.
  intros (Hk & Hr & Hd). unfold mark_outbox_items_completed. case_bool_decide; [by split_and!|].
  split_and!; unfold keyed; cbn [queue settled_dirty]; [| |done].
  - intros k r'. rewrite map_lookup_imap. intros (r & Hkr & [= <-])%bind_Some.
    case_bool_decide; exact (Hk k r Hkr).
  - intros k r'. rewrite map_lookup_imap. intros (r & Hkr & [= <-])%bind_Some. destruct (Hr k r Hkr).
    case_bool_decide; [|done]. split; [done|]. right. by left.
Qed.

Lemma inv_prune ob keep d :
  outbox_inv ob → (d = false → keep ≤ 500 ∨ settled_dirty ob = false) →
  outbox_inv (mk_outbox (queue (prune_outbox_settled ob keep).1) d).
Proof.
  intros (Hk & Hr & Hd) Hkeep. split_and!; unfold keyed; cbn [queue settled_dirty prune_outbox_settled fst].
  - intros k r [Hkr _]%map_lookup_filter_Some. by apply Hk.
  - intros k r [Hkr _]%map_lookup_filter_Some. by eapply Hr.
  - intros Hf. destruct (Hkeep Hf) as [Hle|Hf'].
    + set (ids := item_id <$> select_rows (desc item_created_at) settled keep (queue ob)).
      transitivity (length ids).
      2: { unfold ids. rewrite length_fmap, select_length. lia. }
      transitivity (size (list_to_set ids : gset str)); [|apply size_list_to_set_le].
      unfold settled_count. rewrite <- size_dom. apply subseteq_size.
      intros k [r [[_ Hin]%map_lookup_filter_Some Hs]%map_lookup_filter_Some]%elem_of_dom.
      apply elem_of_list_to_set. by apply Hin.
    + etrans; [|by apply Hd]. apply settled_count_le. cbn [queue].
      intros k r [Hkr _]%map_lookup_filter_Some Hs. by exists r.
Qed.

Lemma inv_replay ob now send : outbox_inv ob → outbox_inv (replay_outbox_sealed ob now send).
Proof.
  intros Hinv. destruct (pass_spec ob now send (proj1 Hinv)) as (Hd & _ & _ & Hq).
  assert (outbox_inv (replayed ob now send)) as Hrep.
  { unfold replayed. set (items := fetch_pending_outbox_items_with_unseal ob now 32 false unseal).
    assert (∀ i, i ∈ items → (0 ≤ retry_count i)%Z) as Hitems.
    { intros i (r & -> & Hr)%list_elem_of_fmap. cbn.
      apply selected_inv in Hr as [_ Hr]; [|apply Hinv]. by apply (proj1 (proj2 Hinv) _ _ Hr). }
    clearbody items. clear Hq Hd.
    enough (∀ acc, outbox_inv acc.1 → outbox_inv (fold_left (replay_item now send) items acc).1) as Hfold.
    { specialize (Hfold (ob, []) Hinv). destruct (fold_left _ _ _). by apply inv_completed_many. }
    induction items as [|i items IH]; intros acc Hacc; [done|]. cbn [fold_left].
    apply IH; [by intros; apply Hitems; right|]. destruct acc as [ob1 c]. simpl in Hacc. unfold replay_item.
    assert (outbox_inv (mark_outbox_item_failed ob1 (item_id i) (retry_count i + 1) (retry_at now (retry_count i + 1)))).
    { apply inv_failed; [done|]. assert (0 ≤ retry_count i)%Z by (apply Hitems; by left). lia. }
    by destruct (media_path i), (event_from_str (item_payload i)) as [e|]; try destruct (send e). }
  destruct (replay_outbox_sealed ob now send) as [q d]. cbn [queue settled_dirty] in *. subst d.
  destruct Hq as [[Hfl ->]| ->].
  - destruct (replayed ob now send) as [q' d']. cbn in *. by subst.
  - by apply inv_prune; [|left].
Qed.

Lemma outbox_invariant_step ob ob' : outbox_inv ob → outbox_step ob ob' → outbox_inv ob'.
Proof.
  intros Hinv Hs. destruct Hs.
  - by eapply inv_enqueue.
  - apply (inv_alter ob complete_row id true); [done|done|]. intros r Hr. split; [done|]. right. by split; [left|].
  - by apply inv_completed_many.
  - by apply inv_failed.
  - apply (inv_prune ob keep (settled_dirty ob)); [done|by right].
  - by apply inv_replay.
Qed.

Lemma reachable_inv ob : reachable outbox_init outbox_step ob → outbox_inv ob.
Proof.
  apply reachable_invariant; [|apply outbox_invariant_step].
  intros ? ->. split_and!; [intros k r Hr; cbn [queue] in Hr; by apply lookup_empty_Some in Hr..|]. intros _. vm_compute. lia.
Qed.

(** In every reachable state of the outbox a row is stored under its own
    id, its attempt count is never negative, it is pending with fewer than ten
    attempts or settled, and while no prune is asked for at most 500 settled
    rows are kept; so is it after each replay pass, which clears the request. *)
Theorem outbox_invariant (ob : outbox) (Hreach : reachable outbox_init outbox_step ob) :
  (∀ k r, queue ob !! k = Some r →
     item_id r = k ∧ (0 ≤ retry_count r)%Z
     ∧ (item_status r = PENDING ∧ (retry_count r < 10)%Z ∨ settled r))
  ∧ (settled_dirty ob = false → settled_count ob ≤ 500)
  ∧ ∀ now send, settled_count (replay_outbox_sealed ob now send) ≤ 500.
Proof.
  pose proof (reachable_inv ob Hreach) as Hinv. split_and!.
  - intros k r Hr. split; [by apply Hinv|]. by eapply (proj1 (proj2 Hinv)).
  - apply Hinv.
  - intros now send. apply (inv_replay ob now send Hinv). by apply pass_spec, Hinv.
Qed.

(** C5: every event queued in the outbox is settled after finitely many passes,
    whatever the relay answers: from any reachable state whose rows are due at
    [t], passes at least 256 seconds apart, ten for each row, leave no row
    pending except those with a media file; and these the passes never touch. *)
Theorem outbox_drains (ob : outbox) (t : Z) (passes : list (Z * (Event → bool)))
    (Hreach : reachable outbox_init outbox_step ob)
    (Hdue : ∀ k r, queue ob !! k = Some r → (next_retry_at r ≤ t)%Z)
    (Hspaced : spaced t passes) (Hlen : 10 * size (queue ob) ≤ length passes) :
  (∀ k r, queue (run_passes ob passes) !! k = Some r → item_status r = PENDING → is_Some (media_path r))
  ∧ (∀ k r, queue ob !! k = Some r → item_status r = PENDING → is_Some (media_path r) →
       queue (run_passes ob passes) !! k = Some r).
Proof.
  pose proof (reachable_inv ob Hreach) as (Hk & Hr & _).
  assert (ready t ob) as Hready.
  { split; [done|]. intros k r Hkr [Hp _]. destruct (Hr k r Hkr) as [? [[_ ?]|[Hs|Hs]]];
      [|by rewrite Hp in Hs..]. split; [lia|]. by eapply Hdue. }
  set (keys := elements (dom (queue ob))).
  destruct (run_passes_backlog keys t ob passes Hready Hspaced) as ([t' Hready'] & Hkeys' & Hdec).
  { apply NoDup_elements. }
  { intros k r Hkr. apply elem_of_elements, elem_of_dom. by exists r. }
  assert (backlog keys ob ≤ 10 * size (queue ob)) as Hub.
  { rewrite <- size_dom. change (size (dom (queue ob))) with (length keys). unfold backlog.
    clear -Hr. induction keys as [|k keys IH]; simpl; [lia|].
    assert (from_option weight 0 (queue ob !! k) ≤ 10); [|lia].
    destruct (queue ob !! k) as [r|] eqn:Hkr; simpl; [|lia].
    unfold weight. case_decide; [|lia]. destruct (Hr k r Hkr). lia. }
  split.
  - intros k r Hkr Hp. destruct (media_path r) as [mp|] eqn:Hm; [by exists mp|]. exfalso.
    destruct (proj2 Hready' k r Hkr (conj Hp Hm)) as [Hrc _].
    assert (1 ≤ backlog keys (run_passes ob passes)); [|lia].
    pose proof (Hkeys' k r Hkr) as Hin. unfold backlog. clearbody keys. clear -Hin Hkr Hrc Hp Hm.
    induction keys as [|k' keys IH]; [by apply elem_of_nil in Hin|]. simpl.
    apply elem_of_cons in Hin as [<-|Hin]; [|specialize (IH Hin); lia].
    rewrite Hkr. simpl. unfold weight at 1. rewrite decide_True by done. lia.
  - intros k r Hkr Hp Hm. clear Hdec Hkeys' Hlen keys Hub Hready' t' Hdue Hr Hreach.
    revert t ob Hk Hready Hspaced Hkr. induction passes as [|[now send] passes IH]; intros t ob Hk Hready Hspaced Hkr; [done|].
    destruct Hspaced as [Ht Hspaced]. cbn [fst] in *.
    assert (ready now ob) as Hnow.
    { split; [done|]. intros k' r' Hr' He. destruct (proj2 Hready k' r' Hr' He). lia. }
    pose proof (ready_pass ob now send _ Hnow (Z.le_refl _)) as Hnext.
    apply (IH (now + 256)%Z); [apply Hnext|done|done|]. by apply media_waits.
Qed.

(** ** Payloads *)

Context `{!PrimitiveLaws, !ZstdLaws}.

(** What a stored compressed payload is read back as. *)
Lemma decompress_compressed d z :
  all_bytes d → zstd_encode_all d = Some z →
  decompress_payload (ZSTD_B64 ++ base64_encode (ZSTD_MAGIC ++ z)) =
    if (MAX_DECOMPRESSED <? zlen d)%Z then ZSTD_B64 ++ base64_encode (ZSTD_MAGIC ++ z)
    else default (ZSTD_B64 ++ base64_encode (ZSTD_MAGIC ++ z)) (from_utf8 d).
Proof.
  intros Hd Hz. destruct (zstd_bytes d z Hd Hz) as [Hzb Hz0]. unfold decompress_payload.
  assert (strip_prefix (lit "__zstd") (ZSTD_B64 ++ base64_encode (ZSTD_MAGIC ++ z)) =
    Some (lit "_b64__:" ++ base64_encode (ZSTD_MAGIC ++ z))) as ->.
  { exact (strip_prefix_app (lit "__zstd") (lit "_b64__:" ++ _)). }
  rewrite strip_prefix_app, base64_roundtrip.
  2: { apply all_bytes_app. split; [|done]. repeat constructor; unfold is_byte; lia. }
  cbn [mbind option_bind]. unfold decompress_envelope, decompress_cap.
  assert ((4 <? zlen (ZSTD_MAGIC ++ z))%Z = true) as ->.
  { apply Z.ltb_lt. rewrite length_app. destruct z; [done|]. simpl. lia. }
  rewrite bool_decide_true by done. cbn [andb].
  change (drop 4 (ZSTD_MAGIC ++ z)) with z. rewrite (zstd_roundtrip d z _ Hz). cbn [mbind option_bind].
  rewrite length_take. assert (MAX_DECOMPRESSED = 1048576)%Z as HM by done.
  destruct (Z.ltb_spec MAX_DECOMPRESSED (zlen d)).
  - by rewrite (proj2 (Z.ltb_lt _ _)) by lia.
  - rewrite (proj2 (Z.ltb_ge _ _)) by lia. rewrite take_ge by lia. done.
Qed.

Lemma decompress_plain p : strip_prefix (lit "__zstd") p = None → decompress_payload p = p.
Proof. intros Hp. unfold decompress_payload. by rewrite Hp. Qed.

Lemma decompress_compress p :
  utf8_valid p = true → strip_prefix (lit "__zstd") p = None → (zlen p ≤ MAX_DECOMPRESSED)%Z →
  decompress_payload (compress_payload p) = p.
Proof.
  intros Hu Hp Hlen. unfold compress_payload. destruct (256 <? zlen p)%Z; [|by apply decompress_plain].
  destruct (zstd_encode_all p) as [z|] eqn:Hz; [|by apply decompress_plain].
  rewrite (decompress_compressed p z) by (try done; by apply utf8_bytes).
  rewrite (proj2 (Z.ltb_ge _ _)) by lia. unfold from_utf8. by rewrite Hu.
Qed.

Lemma compressed_valid p z : all_bytes p → zstd_encode_all p = Some z → utf8_valid (ZSTD_B64 ++ base64_encode (ZSTD_MAGIC ++ z)) = true.
Proof.
  intros Hp Hz. destruct (zstd_bytes p z Hp Hz) as [Hb _]. apply is_ascii_valid, is_ascii_app. split; [repeat constructor; lia|].
  apply visible_ascii, base64_visible, all_bytes_app. split; [|done]. repeat constructor; unfold is_byte; lia.
Qed.

Lemma compress_valid p : utf8_valid p = true → utf8_valid (compress_payload p) = true.
Proof.
  intros Hp. unfold compress_payload. destruct (256 <? zlen p)%Z; [|done].
  destruct (zstd_encode_all p) as [z|] eqn:Hz; [|done]. eapply compressed_valid; [by apply utf8_bytes|done].
Qed.

(** The seal of the bridge: an envelope that [unseal] opens, or, while the
    signer is locked, nothing at all. *)
Definition seal_ok (seal : str → may_fail str) : Prop :=
  ∀ x s, utf8_valid x = true → seal x = Ok s → s = x ∨ ∃ c, s = SEAL_PREFIX ++ c ∧ unseal c = Ok x.

Lemma enqueued_item ob ob' id action payload media now seal t limit im i :
  keyed ob →
  enqueue_outbox_item_with_seal ob id action payload media now seal = Ok ob' →
  i ∈ fetch_pending_outbox_items_with_unseal ob' t limit im unseal → item_id i = id →
  ∃ stored, seal (compress_payload payload) = Ok stored
    ∧ item_payload i = unseal_payload (decompress_payload stored) unseal.
Proof.
  intros Hk Henq Hi Hid. unfold enqueue_outbox_item_with_seal in Henq. inv_ok.
  apply list_elem_of_fmap in Hi as (r & -> & [_ (k & Hr)]%elem_of_select). cbn [queue item_id item_payload] in *.
  eexists. split; [done|].
  apply lookup_insert_Some in Hr as [[_ <-]|[Hne Hr]]; [done|]. apply Hk in Hr. congruence.
Qed.

(** A payload put into the outbox is the payload the engine parses, through
    compression, sealing, storage and back: whatever the other rows, for every
    UTF-8 text of at most 1 MiB that does not look like an envelope itself, and
    every seal that its [unseal] opens or that stores the text in the clear. *)
Theorem outbox_payload_roundtrip ob ob' id action payload media now seal t limit im
    (Hreach : reachable outbox_init outbox_step ob) (Hseal : seal_ok seal)
    (Hutf8 : utf8_valid payload = true) (Hlen : (zlen payload ≤ MAX_DECOMPRESSED)%Z)
    (Hplain : strip_prefix (lit "__zstd") payload = None ∧ strip_prefix SEAL_PREFIX payload = None)
    (Henq : enqueue_outbox_item_with_seal ob id action payload media now seal = Ok ob') :
  ∀ i, i ∈ fetch_pending_outbox_items_with_unseal ob' t limit im unseal → item_id i = id →
    item_payload i = payload.
Proof.
  intros i Hi Hid. destruct Hplain as [Hz Hs].
  destruct (enqueued_item _ _ _ _ _ _ _ _ _ _ _ _ (proj1 (reachable_inv ob Hreach)) Henq Hi Hid)
    as (stored & Hst & ->).
  destruct (Hseal _ _ (compress_valid _ Hutf8) Hst) as [->|(c & -> & Hc)].
  - rewrite decompress_compress by done. unfold unseal_payload. by rewrite Hs.
  - rewrite (decompress_plain (SEAL_PREFIX ++ c)) by done.
    unfold unseal_payload. rewrite strip_prefix_app, Hc. by apply decompress_compress.
Qed.

(** The queue accepts payloads up to 16 MiB but restores at most 1 MiB: an
    accepted compressible payload above 1 MiB is handed to the engine as its
    compressed envelope, which is not the payload and not an event, so the row
    only collects failures. *)
Theorem outbox_large_payload_lost ob ob' id action payload media now seal t limit im z
    (Hreach : reachable outbox_init outbox_step ob) (Hseal : seal_ok seal)
    (Hbytes : all_bytes payload) (Hlen : (MAX_DECOMPRESSED < zlen payload)%Z)
    (Hz : zstd_encode_all payload = Some z)
    (Henq : enqueue_outbox_item_with_seal ob id action payload media now seal = Ok ob') :
  ∀ i, i ∈ fetch_pending_outbox_items_with_unseal ob' t limit im unseal → item_id i = id →
    is_Some (strip_prefix ZSTD_B64 (item_payload i)).
Proof.
  intros i Hi Hid.
  destruct (enqueued_item _ _ _ _ _ _ _ _ _ _ _ _ (proj1 (reachable_inv ob Hreach)) Henq Hi Hid)
    as (stored & Hst & ->).
  assert (compress_payload payload = ZSTD_B64 ++ base64_encode (ZSTD_MAGIC ++ z)) as Hc.
  { unfold compress_payload. rewrite Hz. unfold MAX_DECOMPRESSED in Hlen. by rewrite (proj2 (Z.ltb_lt _ _)) by lia. }
  assert (decompress_payload (compress_payload payload) = ZSTD_B64 ++ base64_encode (ZSTD_MAGIC ++ z)) as Hd.
  { rewrite Hc, (decompress_compressed payload z) by done. by rewrite (proj2 (Z.ltb_lt _ _)). }
  assert (utf8_valid (compress_payload payload) = true) as Hcv by (rewrite Hc; by eapply compressed_valid).
  destruct (Hseal _ _ Hcv Hst) as [->|(c & -> & Hcc)].
  - rewrite Hd. unfold unseal_payload.
    assert (strip_prefix SEAL_PREFIX (ZSTD_B64 ++ base64_encode (ZSTD_MAGIC ++ z)) = None) as -> by done.
    rewrite strip_prefix_app. done.
  - rewrite (decompress_plain (SEAL_PREFIX ++ c)) by done.
    unfold unseal_payload. rewrite strip_prefix_app, Hcc, Hd, strip_prefix_app. done.
Qed.
End replay.
End payload.

(** ** A concrete compressor, and the theorems on a queue of one event *)

Module OutboxExamples.
#[local] Existing Instances Toy.primitives Toy.primitive_laws.

#[local] Instance toy_zstd : Zstd := {
  zstd_encode_all d := Some (0%Z :: d);
  zstd_read n z := Some (take (Z.to_nat n) (tail z))
}.

#[local] Instance toy_zstd_laws : ZstdLaws.
Proof.
  split.
  - intros d z Hd [= <-]. split; [|done]. constructor; [unfold is_byte; lia|done].
  - by intros d z n [= <-].
Qed.

Definition event_of (s : str) : option str := if bool_decide (take 1 s = lit "{") then Some s else None.
Definition unseal (c : str) : may_fail str := Ok c.
Definition seal (s : str) : may_fail str := Ok (SEAL_PREFIX ++ s).

Definition ob0 : outbox := mk_outbox ∅ false.
Definition ob1 : outbox :=
  mk_outbox {[ lit "e1" := mk_item (lit "e1") (lit "note") (SEAL_PREFIX ++ lit "{e1}") None PENDING 0 0 7 ]} false.

Lemma enqueue_e1 :
  enqueue_outbox_item_with_seal ob0 (lit "e1") (lit "note") (lit "{e1}") None 7 seal = Ok ob1.
Proof. vm_compute. reflexivity. Qed.

Lemma reachable_ob0 : reachable outbox_init (outbox_step event_of unseal) ob0.
Proof. by apply reachable_init. Qed.

Lemma reachable_ob1 : reachable outbox_init (outbox_step event_of unseal) ob1.
Proof. eapply reachable_step; [exact reachable_ob0|]. eapply os_enqueue, enqueue_e1. Qed.

Lemma seal_ok_seal : seal_ok unseal seal.
Proof. intros x s _ [= <-]. right. by exists x. Qed.

Example outbox_invariant_witness :
  (∀ k r, queue ob1 !! k = Some r →
     item_id r = k ∧ (0 ≤ retry_count r)%Z
     ∧ (item_status r = PENDING ∧ (retry_count r < 10)%Z ∨ settled r))
  ∧ settled_count (replay_outbox_sealed event_of unseal ob1 100 (λ _, false)) ≤ 500.
Proof.
  destruct (outbox_invariant event_of unseal ob1 reachable_ob1) as (H1 & _ & H2).
  exact (conj H1 (H2 100%Z (λ _, false))).
Defined.

(** Ten refusals settle the event as failed. *)
Definition ten_passes : list (Z * (str → bool)) := (λ t, (300 * t, λ _, false)%Z) <$> seqZ 1 10.

Example outbox_drains_witness :
  item_status <$> queue (run_passes event_of unseal ob1 ten_passes) !! lit "e1" = Some FAILED
  ∧ (∀ k r, queue (run_passes event_of unseal ob1 ten_passes) !! k = Some r →
       item_status r = PENDING → is_Some (media_path r)).
Proof.
  split; [vm_compute; reflexivity|].
  refine (proj1 (outbox_drains event_of unseal ob1 300 ten_passes reachable_ob1 _ _ _)).
  - intros k r Hr. unfold ob1 in Hr. cbn [queue] in Hr.
    apply lookup_singleton_Some in Hr as [_ <-]. cbn. lia.
  - repeat (split; [by_leb|]). exact I.
  - vm_compute. lia.
Defined.

Example outbox_payload_roundtrip_witness :
  item_payload <$> fetch_pending_outbox_items_with_unseal ob1 100 32 false unseal = [lit "{e1}"]
  ∧ ∀ i, i ∈ fetch_pending_outbox_items_with_unseal ob1 100 32 false unseal → item_id i = lit "e1" →
    item_payload i = lit "{e1}".
Proof.
  split; [vm_compute; reflexivity|].
  refine (outbox_payload_roundtrip event_of unseal ob0 ob1 (lit "e1") (lit "note") (lit "{e1}") None 7 seal
    100 32 false reachable_ob0 seal_ok_seal _ _ _ enqueue_e1).
  - vm_compute. reflexivity.
  - by_leb.
  - split; vm_compute; reflexivity.
Defined.

(** A text one byte over the limit. *)
Definition large : str := replicate (Z.to_nat 1048577) 97%Z.

Lemma large_length : zlen large = 1048577%Z.
Proof. unfold large. rewrite length_replicate. lia. Qed.

Definition ob_large : outbox :=
  mk_outbox (<[lit "e2" := mk_item (lit "e2") (lit "note") (SEAL_PREFIX ++ compress_payload large) None PENDING 0 0 7]> ∅) false.

Lemma enqueue_large :
  enqueue_outbox_item_with_seal ob0 (lit "e2") (lit "note") large None 7 seal = Ok ob_large.
Proof. unfold enqueue_outbox_item_with_seal. rewrite large_length. reflexivity. Qed.

Example outbox_large_payload_lost_witness :
  zlen large = 1048577%Z
  ∧ ∀ i, i ∈ fetch_pending_outbox_items_with_unseal ob_large 100 32 false unseal → item_id i = lit "e2" →
    is_Some (strip_prefix ZSTD_B64 (item_payload i)).
Proof.
  split; [exact large_length|].
  refine (outbox_large_payload_lost event_of unseal ob0 ob_large (lit "e2") (lit "note") large None 7 seal
    100 32 false (0%Z :: large) reachable_ob0 seal_ok_seal _ _ eq_refl enqueue_large).
  - apply all_bytes_replicate. unfold is_byte. lia.
  - rewrite large_length. reflexivity.
Defined.
End OutboxExamples.
