(* ===== verification/Prolly.v ===== *)
(** The Prolly trees of src/sync-core/src/prolly_tree.rs and the sync session
    of prolly_sync.rs. A tree is built bottom-up: the sorted pairs are cut into
    nodes at content-defined boundaries, the first keys and hashes of the nodes
    are the pairs of the next level, until one node is left. A session compares
    root hashes with a peer and asks for the keys it misses. At the end, the
    binary event patches of delta.rs: a VCDIFF delta against a stored event, or
    the full bytes when the delta is no shorter; the receiver checks the hash of
    what it reconstructs. *)

From S2P Require Import Prelude RustStr Primitives.

(** Source: src/sync-core/src/prolly_tree.rs:8-8 (TARGET_CHUNK_SIZE) *)
Definition TARGET_CHUNK_SIZE : Z := 4096.
(** Source: src/sync-core/src/prolly_tree.rs:10-10 (GEAR_MASK) *)
Definition GEAR_MASK : Z := 0x0FFF.

(** Source: src/sync-core/src/prolly_tree.rs:14-19 (ProllyNode) *)
Record ProllyNode := mk_pnode {
  level : Z;
  node_hash : str;
  keys : list str;
  values_or_child_hashes : list str
}.

(** Source: src/sync-core/src/prolly_tree.rs:23-26 (ProllyTree) *)
Record ProllyTree := mk_ptree {
  root_hash : str;
  nodes : list ProllyNode
}.

(** One byte of the rolling hash, on 32 bits.
    Source: src/sync-core/src/prolly_tree.rs:33-33 (gear_hash, step) *)
Definition gear_step (hash byte : Z) : Z :=
  ((Z.shiftl hash 1) mod 2 ^ 32 + byte) mod 2 ^ 32.

(** Source: src/sync-core/src/prolly_tree.rs:30-36 (gear_hash) *)
Definition gear_hash (data : bytes) : Z := fold_left gear_step data 0%Z.

(** Source: src/sync-core/src/prolly_tree.rs:39-49 (is_kv_boundary) *)
Definition is_kv_boundary (k v : str) : bool :=
  let hash := fold_left gear_step k 0%Z in
  let hash := gear_step hash 58 in
  let hash := fold_left gear_step v hash in
  (Z.land hash GEAR_MASK =? 0)%Z.

(** Source: src/sync-core/src/prolly_tree.rs:52-54 (is_boundary) *)
Definition is_boundary (data : bytes) : bool := (Z.land (gear_hash data) GEAR_MASK =? 0)%Z.

Section build.
Context `{!Primitives}.

(** Source: src/sync-core/src/prolly_tree.rs:57-68 (compute_node_hash) *)
Definition compute_node_hash (level : Z) (keys children : list str) : str :=
  hex_encode (sha256 (to_be 4 level ++ concat keys ++ concat children)).

Definition make_node (level : Z) (chunk : list (str * str)) : ProllyNode :=
  mk_pnode level (compute_node_hash level chunk.*1 chunk.*2) chunk.*1 chunk.*2.

(** One pair of a level: the nodes emitted so far and the open chunk.
    Source: src/sync-core/src/prolly_tree.rs:95-115 (build, pair) *)
Definition build_pair (level : Z) (acc : list ProllyNode * list (str * str)) (kv : str * str)
    : list ProllyNode * list (str * str) :=
  let '(level_nodes, chunk) := acc in
  let boundary := is_kv_boundary kv.1 kv.2 in
  let chunk := chunk ++ [kv] in
  if boundary || (100 <=? zlen chunk)%Z then (level_nodes ++ [make_node level chunk], [])
  else (level_nodes, chunk).

(** Source: src/sync-core/src/prolly_tree.rs:91-125 (build, level) *)
Definition build_level (level : Z) (current : list (str * str)) : list ProllyNode :=
  let '(level_nodes, chunk) := fold_left (build_pair level) current ([], []) in
  if bool_decide (chunk = []) then level_nodes else level_nodes ++ [make_node level chunk].

(** Source: src/sync-core/src/prolly_tree.rs:138-142 (build, next level) *)
Definition next_pairs (level_nodes : list ProllyNode) : list (str * str) :=
  (λ n, (default (node_hash n) (head (keys n)), node_hash n)) <$> level_nodes.

(** The loop over the levels; [None] is lack of fuel.
    Source: src/sync-core/src/prolly_tree.rs:85-145 (build, loop) *)
Fixpoint build_levels (fuel : nat) (level : Z) (current : list (str * str)) (all_nodes : list ProllyNode)
    : option ProllyTree :=
  let level_nodes := build_level level current in
  match level_nodes with
  | [root] => Some (mk_ptree (node_hash root) (all_nodes ++ level_nodes))
  | _ =>
      match fuel with
      | O => None
      | S fuel => build_levels fuel (level + 1) (next_pairs level_nodes) (all_nodes ++ level_nodes)
      end
  end.

(** Source: src/sync-core/src/prolly_tree.rs:71-146 (build) *)
Definition build (fuel : nat) (kv_pairs : list (str * str)) : option ProllyTree :=
  match kv_pairs with
  | [] =>
      let empty_hash := compute_node_hash 0 [] [] in
      Some (mk_ptree empty_hash [mk_pnode 0 empty_hash [] []])
  | _ => build_levels fuel 0 kv_pairs []
  end.
End build.

(** ** The session *)

(** Source: src/sync-core/src/prolly_sync.rs:9-35 (ProllySyncMessage) *)
Inductive ProllySyncMessage :=
| RootExchange (root : str)
| Match
| RequestBranch (lvl : Z) (hash : str)
| ResponseBranch (hash : str) (ks child_hashes : list str)
| RequestDeltas (missing_ids : list str)
| ResponseDeltas (payload_json : str)
| ResponsePatch (base_id new_id patch_b64 : str) (full_b64 : option str).

(** Source: src/sync-core/src/prolly_sync.rs:38-38 (MAX_KEYS_PER_BRANCH) *)
Definition MAX_KEYS_PER_BRANCH : Z := 10000.
(** Source: src/sync-core/src/prolly_sync.rs:40-40 (MAX_MISSING_KEYS_TOTAL) *)
Definition MAX_MISSING_KEYS_TOTAL : Z := 100000.

(** Source: src/sync-core/src/prolly_sync.rs:44-50 (ProllySyncSession) *)
Record ProllySyncSession := mk_session {
  local_tree : ProllyTree;
  peer_root_hash : option str;
  missing_keys : list str;
  node_index : gmap str nat;
  local_key_set : gset str
}.

(** Later nodes replace earlier ones with the same hash.
    Source: src/sync-core/src/prolly_sync.rs:54-59 (new, node_index) *)
Definition index_nodes (ns : list ProllyNode) : gmap str nat :=
  fold_left (λ m e, <[e.1 := e.2]> m) (imap (λ i n, (node_hash n, i)) ns) ∅.

(** Source: src/sync-core/src/prolly_sync.rs:53-73 (new) *)
Definition session_new (tree : ProllyTree) : ProllySyncSession :=
  mk_session tree None [] (index_nodes (nodes tree)) (list_to_set (concat (keys <$> nodes tree))).

(** The keys of a branch that are asked for.
    Source: src/sync-core/src/prolly_sync.rs:107-111 (handle_message, missing) *)
Definition wanted (s : ProllySyncSession) (ks : list str) : list str :=
  filter (λ k, (k ∉ local_key_set s) ∧ (k ∉ missing_keys s))
    (filter (λ k, k ≠ [] ∧ (zlen k ≤ 128)%Z) ks).

(** [nodes[idx]] of an index that is out of range would panic; the indices of
    the map are in range ([index_nodes_lookup]).
    Source: src/sync-core/src/prolly_sync.rs:76-134 (handle_message) *)
Definition handle_message (s : ProllySyncSession) (msg : ProllySyncMessage)
    : ProllySyncSession * option ProllySyncMessage :=
  match msg with
  | RootExchange root =>
      let s := mk_session (local_tree s) (Some root) (missing_keys s) (node_index s) (local_key_set s) in
      (s, Some (if bool_decide (root = root_hash (local_tree s)) then Match else RequestBranch 0 root))
  | Match => (s, None)
  | RequestBranch _ hash =>
      (s, idx ← node_index s !! hash;
          n ← nodes (local_tree s) !! idx;
          Some (ResponseBranch hash (keys n) (values_or_child_hashes n)))
  | ResponseBranch _ ks _ =>
      if (MAX_KEYS_PER_BRANCH <? zlen ks)%Z then (s, None)
      else
        let missing := wanted s ks in
        if bool_decide (missing = []) then (s, Some Match)
        else if (MAX_MISSING_KEYS_TOTAL <? zlen (missing_keys s) + zlen missing)%Z then (s, None)
        else (mk_session (local_tree s) (peer_root_hash s) (missing_keys s ++ missing) (node_index s)
                (local_key_set s), Some (RequestDeltas missing))
  | RequestDeltas _ => (s, None)
  | ResponseDeltas _ | ResponsePatch _ _ _ _ => (s, None)
  end.

(** ** The boundary *)

(** The number written by the bytes with weight 1 for the last, 2 before. *)
Definition weighed (data : bytes) : Z := fold_left (λ h b, 2 * h + b)%Z data 0%Z.

Lemma gear_fold data h g :
  (h mod 2 ^ 32 = g mod 2 ^ 32)%Z →
  (fold_left gear_step data h mod 2 ^ 32 = fold_left (λ h b, 2 * h + b) data g mod 2 ^ 32)%Z.
Proof.
  revert h g. induction data as [|b data IH]; intros h g Hhg; [done|]. cbn [fold_left]. apply IH.
  unfold gear_step. rewrite Z.shiftl_mul_pow2 by lia. change (2 ^ 1)%Z with 2%Z.
  rewrite Zmod_mod, Zplus_mod_idemp_l, (Z.mul_comm h 2).
  rewrite <- (Zplus_mod_idemp_l (2 * h)), <- (Zplus_mod_idemp_l (2 * g)).
  rewrite <- (Zmult_mod_idemp_r h), <- (Zmult_mod_idemp_r g), Hhg. done.
Qed.

Lemma land_gear_mask z : Z.land z GEAR_MASK = (z mod 4096)%Z.
Proof. change GEAR_MASK with (Z.ones 12). rewrite Z.land_ones by lia. done. Qed.

Lemma mod_4096_32 z : ((z mod 2 ^ 32) mod 4096 = z mod 4096)%Z.
Proof. apply Z.mod_mod_divide. by exists (2 ^ 20)%Z. Qed.

Lemma weighed_from data h :
  (fold_left (λ h b, 2 * h + b) data h = 2 ^ Z.of_nat (length data) * h + weighed data)%Z.
Proof.
  unfold weighed. revert h. induction data as [|b data IH]; intros h; [simpl; lia|]. cbn [fold_left length].
  rewrite IH, (IH (2 * 0 + b)%Z), Nat2Z.inj_succ, Z.pow_succ_r by lia. lia.
Qed.

(** The allocation-free boundary test agrees with the rolling hash of the
    text "key:value", and that test is content-defined by the end of the text:
    the 32-bit wrap-around is harmless, and only the last twelve bytes, weighed
    by powers of two modulo 4096, decide. *)
Theorem kv_boundary_equiv (k v : str) :
  is_kv_boundary k v = is_boundary (k ++ [58%Z] ++ v)
  ∧ ∀ data, is_boundary data = (weighed (drop (length data - 12) data) mod 4096 =? 0)%Z.
Proof.
  split.
  - unfold is_kv_boundary, is_boundary, gear_hash. by rewrite !fold_left_app.
  - intros data. unfold is_boundary, gear_hash. rewrite land_gear_mask.
    rewrite <- mod_4096_32, (gear_fold data 0 0 eq_refl), mod_4096_32. fold (weighed data).
    f_equal. destruct (decide (length data ≤ 12)) as [Hl|Hl].
    { replace (length data - 12) with 0 by lia. done. }
    rewrite <- (take_drop (length data - 12) data) at 1. unfold weighed. rewrite fold_left_app, weighed_from.
    fold (weighed (take (length data - 12) data)). rewrite length_drop.
    replace (length data - (length data - 12)) with 12 by lia.
    change (2 ^ Z.of_nat 12)%Z with 4096%Z. by rewrite Z.add_comm, Z.mul_comm, Z_mod_plus_full.
Qed.

(** ** The tree *)

Section build_proofs.
Context `{!Primitives}.

Definition node_pairs (n : ProllyNode) : list (str * str) := zip (keys n) (values_or_child_hashes n).
Definition entries (ns : list ProllyNode) : list (str * str) := concat (node_pairs <$> ns).
Definition boundary_pair (kv : str * str) : bool := is_kv_boundary kv.1 kv.2.

(** An open chunk: below the cap, and no boundary in it. *)
Definition chunk_open (chunk : list (str * str)) : Prop :=
  length chunk < 100 ∧ Forall (λ kv, boundary_pair kv = false) chunk.

(** A node of a level: one to a hundred pairs, hashed, cut nowhere inside. *)
Definition node_ok (lvl : Z) (n : ProllyNode) : Prop :=
  n = make_node lvl (node_pairs n) ∧ ∃ init kv, node_pairs n = init ++ [kv] ∧ chunk_open init.

(** A node that ends where the text or the cap says so. *)
Definition node_closed (n : ProllyNode) : Prop :=
  length (node_pairs n) = 100 ∨ ∃ init kv, node_pairs n = init ++ [kv] ∧ boundary_pair kv = true.

(** The nodes of a level over its pairs; this determines them. *)
Definition level_ok (lvl : Z) (pairs : list (str * str)) (ns : list ProllyNode) : Prop :=
  entries ns = pairs ∧ Forall (node_ok lvl) ns
  ∧ ∀ ns1 n ns2, ns = ns1 ++ n :: ns2 → ns2 ≠ [] → node_closed n.

Lemma make_node_pairs lvl chunk : node_pairs (make_node lvl chunk) = chunk.
Proof. apply zip_fst_snd. Qed.

Lemma entries_app ns1 ns2 : entries (ns1 ++ ns2) = entries ns1 ++ entries ns2.
Proof. unfold entries. by rewrite fmap_app, concat_app. Qed.

Lemma build_pairs_spec lvl current ns chunk :
  Forall (node_ok lvl) ns → Forall node_closed ns → chunk_open chunk →
  let '(ns', chunk') := fold_left (build_pair lvl) current (ns, chunk) in
  entries ns' ++ chunk' = entries ns ++ chunk ++ current
  ∧ Forall (node_ok lvl) ns' ∧ Forall node_closed ns' ∧ chunk_open chunk'.
Proof.
  revert ns chunk. induction current as [|kv current IH]; intros ns chunk Hok Hcl Hopen.
  { cbn. by rewrite app_nil_r. }
  cbn [fold_left]. unfold build_pair at 2. fold (boundary_pair kv).
  destruct (boundary_pair kv || (100 <=? zlen (chunk ++ [kv]))%Z) eqn:Hb.
  - specialize (IH (ns ++ [make_node lvl (chunk ++ [kv])]) []).
    destruct (fold_left _ _ _) as [ns' chunk']. destruct IH as (He & ? & ? & ?).
    + apply Forall_app. split; [done|]. apply Forall_singleton. split.
      * by rewrite make_node_pairs.
      * exists chunk, kv. by rewrite make_node_pairs.
    + apply Forall_app. split; [done|]. apply Forall_singleton. unfold node_closed. rewrite make_node_pairs.
      apply orb_true_iff in Hb as [Hb|Hb]; [right; by exists chunk, kv|left].
      apply Z.leb_le in Hb. destruct Hopen as [Hl _]. rewrite length_app in *. simpl in *. lia.
    + split; [simpl; lia|constructor].
    + split_and!; [|done..]. rewrite He, entries_app. unfold entries at 2. cbn [fmap list_fmap concat app].
      rewrite make_node_pairs, app_nil_r, <- !app_assoc. done.
  - apply orb_false_iff in Hb as [Hb1 Hb2]. apply Z.leb_gt in Hb2.
    specialize (IH ns (chunk ++ [kv]) Hok Hcl). destruct (fold_left _ _ _) as [ns' chunk'].
    destruct IH as (He & ? & ? & ?).
    + split; [lia|]. apply Forall_app. split; [apply Hopen|]. by apply Forall_singleton.
    + split_and!; [|done..]. by rewrite He, <- app_assoc.
Qed.

Lemma build_level_spec lvl current : level_ok lvl current (build_level lvl current).
Proof.
  unfold build_level. pose proof (build_pairs_spec lvl current [] []) as Hspec.
  destruct (fold_left _ _ _) as [ns chunk].
  destruct Hspec as (He & Hok & Hcl & Hopen); [constructor|constructor|by split; [simpl; lia|]|].
  cbn [entries fmap list_fmap concat app] in He. case_bool_decide as Hc.
  - subst chunk. rewrite app_nil_r in He. split_and!; [done|done|]. intros ns1 n ns2 -> _.
    by apply Forall_app in Hcl as [_ [? _]%Forall_cons].
  - split_and!.
    + rewrite entries_app. unfold entries at 2. cbn [fmap list_fmap concat].
      by rewrite make_node_pairs, app_nil_r.
    + apply Forall_app. split; [done|]. apply Forall_singleton. split; [by rewrite make_node_pairs|].
      rewrite make_node_pairs. destruct Hopen as [Hl Hf].
      destruct (exists_last Hc) as (init & kv & ->). exists init, kv. split; [done|].
      rewrite length_app in Hl. apply Forall_app in Hf as [? _]. split; [simpl in *; lia|done].
    + intros ns1 n ns2 Heq Hne. destruct (exists_last Hne) as (ns2' & m & ->).
      rewrite app_comm_cons, app_assoc in Heq. apply app_inj_tail in Heq as [-> _].
      by apply Forall_app in Hcl as [_ [? _]%Forall_cons].
Qed.







(** ** The levels *)







(** The root hash does not identify the stored pairs: keys and values are
    hashed without separators, so two different stores of one pair have the
    same root, and a session between them ends in [Match]. *)
Theorem prolly_root_collision :
  let store1 := [(lit "ab", lit "c")] in
  let store2 := [(lit "a", lit "bc")] in
  ∃ t1 t2, build 1 store1 = Some t1 ∧ build 1 store2 = Some t2
    ∧ concat (keys <$> nodes t1) ≠ concat (keys <$> nodes t2)
    ∧ (handle_message (session_new t1) (RootExchange (root_hash t2))).2 = Some Match.
Proof.
  intros store1 store2.
  exists (mk_ptree (compute_node_hash 0 [lit "ab"] [lit "c"]) [make_node 0 store1]).
  exists (mk_ptree (compute_node_hash 0 [lit "a"] [lit "bc"]) [make_node 0 store2]).
  split_and!; [done|done|done|]. cbn [handle_message root_hash local_tree session_new snd].
  assert (compute_node_hash 0 [lit "a"] [lit "bc"] = compute_node_hash 0 [lit "ab"] [lit "c"]) as -> by done.
  by rewrite bool_decide_true.
Qed.
End build_proofs.

(** ** The session *)

Lemma index_nodes_last ns n : index_nodes (ns ++ [n]) !! node_hash n = Some (length ns).
Proof.
  unfold index_nodes. rewrite imap_app, fold_left_app. cbn. by rewrite Nat.add_0_r, lookup_insert_eq.
Qed.

(** The indices of a session point to nodes with the hash they are stored under. *)
Lemma index_nodes_lookup ns h i :
  index_nodes ns !! h = Some i → ∃ n, ns !! i = Some n ∧ node_hash n = h.
Proof.
  unfold index_nodes.
  enough (∀ es (m : gmap str nat), (∀ h i, m !! h = Some i → ∃ n, ns !! i = Some n ∧ node_hash n = h) →
    (∀ e, e ∈ es → ∃ n, ns !! e.2 = Some n ∧ node_hash n = e.1) →
    ∀ h i, fold_left (λ m e, <[e.1 := e.2]> m) es m !! h = Some i → ∃ n, ns !! i = Some n ∧ node_hash n = h) as Hgen.
  { apply Hgen; [intros ?? Hl; by apply lookup_empty_Some in Hl|].
    intros e He. apply elem_of_lookup_imap in He as (j & n & -> & Hj). by exists n. }
  intros es. induction es as [|e es IH]; intros m Hm Hes h' i' Hl; [by apply Hm|]. cbn [fold_left] in Hl.
  eapply IH; [|by intros; apply Hes; right|exact Hl].
  intros h2 i2 [[<- <-]|[_ Hl2]]%lookup_insert_Some; [apply Hes; by left|by apply Hm].
Qed.

(** What a session may hold. *)
Definition session_inv (s : ProllySyncSession) : Prop :=
  (zlen (missing_keys s) ≤ MAX_MISSING_KEYS_TOTAL)%Z
  ∧ ∀ k, k ∈ missing_keys s → k ≠ [] ∧ (zlen k ≤ 128)%Z ∧ k ∉ local_key_set s.

Lemma wanted_elem s ks k :
  k ∈ wanted s ks → k ∈ ks ∧ k ≠ [] ∧ (zlen k ≤ 128)%Z ∧ k ∉ local_key_set s.
Proof.
  unfold wanted. intros [[Hl _] [[Hk Hlen] Hin]%list_elem_of_filter]%list_elem_of_filter. done.
Qed.

Lemma handle_message_inv s msg : session_inv s → session_inv (handle_message s msg).1.
Proof.
  intros [Hlen Hk]. destruct msg; try done. cbn [handle_message].
  case_match; [done|]. case_bool_decide; [done|]. case_match eqn:Hcap; [done|].
  apply Z.ltb_ge in Hcap. split; cbn [fst missing_keys local_key_set].
  - rewrite length_app. lia.
  - intros k [?|Hw]%elem_of_app; [by apply Hk|]. by apply wanted_elem in Hw as (_ & ? & ? & ?).
Qed.

(** An exchange: [you] handles the message and the roles swap while there is a
    reply. Returns both sessions, the sender of the first message first. *)
Fixpoint converse (fuel : nat) (me you : ProllySyncSession) (msg : ProllySyncMessage)
    : option (ProllySyncSession * ProllySyncSession) :=
  let '(you', reply) := handle_message you msg in
  match reply, fuel with
  | None, _ => Some (me, you')
  | Some _, O => None
  | Some msg, S fuel => (λ yy, (yy.2, yy.1)) <$> converse fuel you' me msg
  end.

Section sync.
Context `{!Primitives}.

Lemma build_levels_last fuel lvl pairs all t :
  build_levels fuel lvl pairs all = Some t →
  ∃ ns root, nodes t = ns ++ [root] ∧ root_hash t = node_hash root ∧ length (keys root) ≤ 100.
Proof.
  revert lvl pairs all. induction fuel as [|fuel IH]; intros lvl pairs all; cbn [build_levels];
    pose proof (build_level_spec lvl pairs) as (_ & Hok & _);
    destruct (build_level lvl pairs) as [|root [|n2 ns]]; try done; try (by apply IH).
  all: intros [= <-]; exists all, root; split_and!; [done|done|].
  all: apply Forall_cons in Hok as [[Hn (init & kv & Hi & Hopen)] _].
  all: rewrite Hn; cbn [make_node keys]; rewrite length_fmap, Hi, length_app; destruct Hopen; simpl; lia.
Qed.

Lemma build_last fuel kv t :
  build fuel kv = Some t →
  ∃ ns root, nodes t = ns ++ [root] ∧ root_hash t = node_hash root ∧ length (keys root) ≤ 100.
Proof.
  destruct kv; [intros [= <-]|by apply build_levels_last]. by eexists [], _; split_and!; [done|done|simpl; lia].
Qed.

(** A session between two peers ends after the first branch: when a peer
    with tree [ta] opens it towards a peer with tree [tb], the exchange takes
    at most four messages, nothing is asked for when the root hashes agree, and
    otherwise exactly the missing keys of the root node of [ta] are asked for;
    the child hashes that come with them are dropped. *)
Theorem prolly_sync_stops_at_root (fuel : nat) (kv : list (str * str)) (ta tb : ProllyTree)
    (Hbuild : build fuel kv = Some ta) :
  ∃ root a b, last (nodes ta) = Some root
    ∧ converse 3 (session_new ta) (session_new tb) (RootExchange (root_hash ta)) = Some (a, b)
    ∧ missing_keys a = []
    ∧ missing_keys b = if bool_decide (root_hash ta = root_hash tb) then []
                       else wanted (session_new tb) (keys root).
Proof.
  destruct (build_last fuel kv ta Hbuild) as (ns & root & Hns & Hroot & Hlen).
  exists root. rewrite Hns, last_snoc.
  cbn [converse handle_message session_new local_tree]. case_bool_decide as Heq.
  { do 2 eexists. split_and!; done. }
  cbn [converse handle_message session_new local_tree node_index].
  rewrite Hroot, Hns, index_nodes_last. cbn [mbind option_bind].
  rewrite list_lookup_middle by done. cbn [mbind option_bind converse handle_message].
  rewrite (proj2 (Z.ltb_ge _ _)) by (unfold MAX_KEYS_PER_BRANCH; lia).
  set (s1 := mk_session _ _ _ _ _).
  assert (wanted s1 (keys root) = wanted (session_new tb) (keys root)) as -> by done.
  case_bool_decide as Hw.
  - rewrite Hw. cbn [converse handle_message fmap option_fmap option_map]. do 2 eexists. split_and!; done.
  - assert (length (wanted (session_new tb) (keys root)) ≤ 100) as Hwl.
    { unfold wanted. etrans; [apply length_filter|]. etrans; [apply length_filter|done]. }
    rewrite (proj2 (Z.ltb_ge _ _)) by
      (unfold MAX_MISSING_KEYS_TOTAL; change (missing_keys s1) with (@nil str); cbn [length]; lia).
    cbn [converse handle_message fmap option_fmap option_map]. do 2 eexists. split_and!; done.
Qed.
End sync.

(** ** Examples: a store of three keys whose first value ends a node *)

Module ProllyExamples.
#[local] Existing Instances Toy.primitives Toy.primitive_laws.

Definition store : list (str * str) :=
  [(lit "a", replicate 12 0%Z); (lit "b", lit "x"); (lit "c", lit "y")].


Definition empty_tree : ProllyTree := default (mk_ptree [] []) (build 0 []).
Definition store_tree : ProllyTree := default empty_tree (build 3 store).

(** The peer never learns of the key "c". *)
Example prolly_sync_stops_at_root_witness :
  ∃ root a b, last (nodes store_tree) = Some root
    ∧ converse 3 (session_new store_tree) (session_new empty_tree) (RootExchange (root_hash store_tree)) = Some (a, b)
    ∧ missing_keys a = [] ∧ missing_keys b = [lit "a"; lit "b"].
Proof.
  destruct (prolly_sync_stops_at_root 3 store store_tree empty_tree) as (root & a & b & H1 & H2 & H3 & H4).
  - vm_compute. reflexivity.
  - exists root, a, b. split; [exact H1|]. split; [exact H2|]. split; [exact H3|].
    rewrite H4. vm_compute in H1. injection H1 as <-. vm_compute. reflexivity.
Defined.
End ProllyExamples.

(** ** Event patches *)

(** The oxidelta crate. *)
Class Vcdiff := {
  vcdiff_encode : bytes → bytes → option bytes;
  vcdiff_decode : bytes → bytes → option bytes
}.

Class VcdiffLaws `{Vcdiff} : Prop := {
  vcdiff_bytes old new d : all_bytes old → all_bytes new → vcdiff_encode old new = Some d → all_bytes d;
  vcdiff_roundtrip old new d : vcdiff_encode old new = Some d → vcdiff_decode old d = Some new
}.

(** Source: src/sync-core/src/delta.rs:18-28 (EventPatch) *)
Record EventPatch := mk_patch {
  base_id : str;
  new_id : str;
  patch_b64 : str;
  full_b64 : option str
}.

Section delta.
Context `{!Primitives, !Vcdiff}.

(** Source: src/sync-core/src/delta.rs:32-57 (compute_event_patch) *)
Definition compute_event_patch (base new : str) (old_bytes new_bytes : bytes) : may_fail EventPatch :=
  delta ← ok_or (Fail "vcdiff encode failed") (vcdiff_encode old_bytes new_bytes);
  let '(patch, full) :=
    if (zlen new_bytes <=? zlen delta)%Z then ([], Some (base64_encode new_bytes))
    else (base64_encode delta, None) in
  Ok (mk_patch base new patch full).

(** Source: src/sync-core/src/delta.rs:74-88 (verify_new_id) *)
Definition verify_new_id (b : bytes) (expected : str) : may_fail bytes :=
  match (if length expected =? 64 then hex_decode_str expected else None) with
  | None => err "invalid expected hash hex"
  | Some expected_bytes =>
      if bool_decide (sha256 b = expected_bytes) then Ok b else err "patch result hash mismatch"
  end.

(** Source: src/sync-core/src/delta.rs:61-72 (apply_event_patch) *)
Definition apply_event_patch (old_bytes : bytes) (p : EventPatch) : may_fail bytes :=
  match full_b64 p with
  | Some full =>
      b ← ok_or (Fail "full b64") (base64_decode full);
      verify_new_id b (new_id p)
  | None =>
      delta ← ok_or (Fail "patch b64") (base64_decode (patch_b64 p));
      new_bytes ← ok_or (Fail "vcdiff apply failed") (vcdiff_decode old_bytes delta);
      verify_new_id new_bytes (new_id p)
  end.

Lemma verify_new_id_ok b expected r :
  verify_new_id b expected = Ok r ↔
    r = b ∧ length expected = 64 ∧ hex_decode_str expected = Some (sha256 b).
Proof.
  unfold verify_new_id. destruct (Nat.eqb_spec (length expected) 64) as [Hl|Hl]; [|naive_solver].
  destruct (hex_decode_str expected) as [e|]; [|naive_solver].
  case_bool_decide as He; [subst; naive_solver|]. split; [done|]. intros (_ & _ & [= ->]). done.
Qed.

Context `{!PrimitiveLaws, !VcdiffLaws}.

(** Patches are sound and lossless: whatever the patch and the base, what
    [apply_event_patch] returns hashes to the announced id; and the patch
    computed between two byte strings, announced under the hash of the new one,
    turns the old one into the new one, with or without the fallback. *)
Theorem event_patch_correct (base : str) (old_bytes new_bytes : bytes) (p : EventPatch)
    (Hold : all_bytes old_bytes) (Hnew : all_bytes new_bytes)
    (Hp : compute_event_patch base (hex_encode (sha256 new_bytes)) old_bytes new_bytes = Ok p) :
  apply_event_patch old_bytes p = Ok new_bytes
  ∧ ∀ q b r, apply_event_patch b q = Ok r → hex_decode_str (new_id q) = Some (sha256 r).
Proof.
  split.
  - unfold compute_event_patch in Hp. apply result_bind_ok in Hp as (delta & Hd & Hp). apply ok_or_ok in Hd.
    assert (verify_new_id new_bytes (hex_encode (sha256 new_bytes)) = Ok new_bytes) as Hv.
    { apply verify_new_id_ok. split_and!; [done|by rewrite hex_length, sha256_length|apply hex_roundtrip, sha256_bytes]. }
    destruct (zlen new_bytes <=? zlen delta)%Z; injection Hp as <-; unfold apply_event_patch; cbn [full_b64 new_id patch_b64].
    + rewrite base64_roundtrip by exact Hnew. exact Hv.
    + rewrite base64_roundtrip by exact (vcdiff_bytes _ _ _ Hold Hnew Hd). cbn [ok_or mbind result_bind].
      rewrite (vcdiff_roundtrip _ _ _ Hd). exact Hv.
  - intros q b r Hq. unfold apply_event_patch in Hq.
    destruct (full_b64 q); inv_ok;
      match goal with H : verify_new_id _ _ = Ok r |- _ => by apply verify_new_id_ok in H as (-> & _ & ?) end.
Qed.
End delta.

(** ** An example: a delta that replaces everything *)

Module DeltaExamples.
#[local] Existing Instances Toy.primitives Toy.primitive_laws.

#[local] Instance toy_vcdiff : Vcdiff := {
  vcdiff_encode _ new := Some new;
  vcdiff_decode _ d := Some d
}.

#[local] Instance toy_vcdiff_laws : VcdiffLaws.
Proof. split; [by intros old new d _ Hn [= <-]|by intros old new d [= <-]]. Defined.

Definition example_patch : EventPatch :=
  mk_patch (lit "b") (hex_encode (sha256 (lit "new"))) [] (Some (base64_encode (lit "new"))).

Example event_patch_correct_witness :
  apply_event_patch (lit "old") example_patch = Ok (lit "new")
  ∧ ∀ q b r, apply_event_patch b q = Ok r → hex_decode_str (new_id q) = Some (sha256 r).
Proof.
  refine (event_patch_correct (lit "b") (lit "old") (lit "new") example_patch _ _ _).
  - repeat constructor; unfold is_byte; lia.
  - repeat constructor; unfold is_byte; lia.
  - vm_compute. reflexivity.
Defined.
End DeltaExamples.
