(* ===== verification/Gossip.v ===== *)
(** The gossip bridge of src/sync-core/src/gossip.rs: the gate in front of the
    PlumTree node. A pushed event is checked before it changes the node or is
    forwarded (the cache of the check looks at identifier and signature only),
    and is handed to the ingest pipeline once per account. The
    process-wide set [SEEN_GOSSIP] and the verification cache are the shared
    state; what is handed to the pipeline (src/sync-core/src/ingest.rs) is an
    output. The event parser and the hex id of an event are parameters, like in
    Verify. *)

From S2P Require Import Prelude Bounded RustStr PlumTree Verify.

(** Source: src/sync-core/src/gossip.rs:19-19 (SEEN_GOSSIP_CAP) *)
Definition SEEN_GOSSIP_CAP : Z := 10000.

(** What the bridges of a process share.
    Source: src/sync-core/src/gossip.rs:16-17 (SEEN_GOSSIP) *)
Record shared := mk_shared {
  seen_gossip : BoundedSet (list Z);
  verify_cache : cache_state
}.

Definition shared_new : shared := mk_shared (bs_new SEEN_GOSSIP_CAP) None.

Section gossip.
Context {Event : Type} (event_from_str : str → option Event) (id_hex : Event → str).
Context (event_id event_sig : Event → bytes) (event_verify : Event → bool).
Context (sha256 : bytes → bytes) (android : bool).

Abbreviation check := (verify_event event_id event_sig event_verify sha256 android) (only parsing).
Abbreviation digest := (compute_verify_cache_key event_id event_sig sha256) (only parsing).

(** Source: src/sync-core/src/gossip.rs:36-51 (verified_gossip) *)
Definition verified_gossip (c : cache_state) (msg : PlumTreeMessage) : cache_state * option Event :=
  match msg with
  | Gossip message_id payload_json _ =>
      match event_from_str payload_json with
      | Some event =>
          if bool_decide (id_hex event = message_id) then
            let '(c, ok) := check c event in
            (c, if (ok : bool) then Some event else None)
          else (c, None)
      | None => (c, None)
      end
  | _ => (c, None)
  end.

(** Source: src/sync-core/src/gossip.rs:55-57 (is_gossip) *)
Definition is_gossip (msg : PlumTreeMessage) : bool := if msg is Gossip _ _ _ then true else false.

(** The gate and the node, common to both entry points.
    Source: src/sync-core/src/gossip.rs:80-90 (process_gossip, gate) *)
Definition gate (n : PlumTreeNode) (c : cache_state) (now : Z) (from : str) (msg : PlumTreeMessage)
    : PlumTreeNode * cache_state * list (list Z * PlumTreeMessage) * option Event :=
  let '(c, verified) := verified_gossip c msg in
  if is_gossip msg && bool_decide (verified = None) then (n, c, [], None)
  else let '(n, out) := handle_incoming n now from msg in (n, c, out, verified).

(** The per-account key of an event in the shared set.
    Source: src/sync-core/src/gossip.rs:93-93 (process_gossip, key) *)
Definition seen_key (my_pubkey : str) (e : Event) : str := my_pubkey ++ [58%Z] ++ id_hex e.

(** The node, the shared state, what to send, and the event handed to ingest.
    Source: src/sync-core/src/gossip.rs:73-118 (process_gossip) *)
Definition process_gossip (n : PlumTreeNode) (sh : shared) (now : Z) (from : str) (msg : PlumTreeMessage)
    : PlumTreeNode * shared * list (list Z * PlumTreeMessage) * list Event :=
  let my_pubkey := self_peer_id n in
  let '(n, c, outgoing, verified) := gate n (verify_cache sh) now from msg in
  match verified with
  | Some event =>
      let '(seen, fresh) := bs_insert (seen_gossip sh) (seen_key my_pubkey event) in
      (n, mk_shared seen c, outgoing, if (fresh : bool) then [event] else [])
  | None => (n, mk_shared (seen_gossip sh) c, outgoing, [])
  end.

(** One message of a batch, under the node's lock.
    Source: src/sync-core/src/gossip.rs:133-145 (process_gossip_batch, message) *)
Definition batch_message (acc : PlumTreeNode * cache_state * list (list Z * PlumTreeMessage) * list Event)
    (m : Z * str * PlumTreeMessage) : PlumTreeNode * cache_state * list (list Z * PlumTreeMessage) * list Event :=
  let '(n, c, all_outgoing, verified_events) := acc in
  let '(now, from, msg) := m in
  let '(n, c, out, verified) := gate n c now from msg in
  (n, c, all_outgoing ++ out, verified_events ++ option_list verified).

(** The filter on the shared set.
    Source: src/sync-core/src/gossip.rs:149-157 (process_gossip_batch, fresh) *)
Definition batch_fresh (my_pubkey : str) (acc : BoundedSet (list Z) * list Event) (event : Event)
    : BoundedSet (list Z) * list Event :=
  let '(seen, fresh_events) := acc in
  let '(seen, fresh) := bs_insert seen (seen_key my_pubkey event) in
  (seen, if (fresh : bool) then fresh_events ++ [event] else fresh_events).

(** Source: src/sync-core/src/gossip.rs:122-166 (process_gossip_batch) *)
Definition process_gossip_batch (n : PlumTreeNode) (sh : shared) (messages : list (Z * str * PlumTreeMessage))
    : PlumTreeNode * shared * list (list Z * PlumTreeMessage) * list Event :=
  let my_pubkey := self_peer_id n in
  let '(n, c, all_outgoing, verified_events) :=
    fold_left batch_message messages (n, verify_cache sh, [], []) in
  let '(seen, fresh_events) := fold_left (batch_fresh my_pubkey) verified_events (seen_gossip sh, []) in
  (n, mk_shared seen c, all_outgoing, fresh_events).

(** ** The batch does what the single calls do *)

(** The messages one by one. *)
Fixpoint process_all (n : PlumTreeNode) (sh : shared) (messages : list (Z * str * PlumTreeMessage))
    : PlumTreeNode * shared * list (list Z * PlumTreeMessage) * list Event :=
  match messages with
  | [] => (n, sh, [], [])
  | (now, from, msg) :: messages =>
      let '(n, sh, out, ingested) := process_gossip n sh now from msg in
      let '(n, sh, outs, ingesteds) := process_all n sh messages in
      (n, sh, out ++ outs, ingested ++ ingesteds)
  end.

Lemma handle_incoming_self n now from msg : self_peer_id (handle_incoming n now from msg).1 = self_peer_id n.
Proof.
  destruct msg as [id p r|id r|id|id]; cbn [handle_incoming]; [| | |done].
  - unfold handle_gossip. by case_match.
  - unfold handle_ihave. case_match; [done|]. unfold consume_graft_credit.
    repeat case_match; simplify_eq; done.
  - unfold handle_graft. repeat case_match; simplify_eq; done.
Qed.

Lemma gate_self n c now from msg : self_peer_id (gate n c now from msg).1.1.1 = self_peer_id n.
Proof.
  unfold gate. destruct (verified_gossip c msg) as [c' v]. case_match; [done|].
  pose proof (handle_incoming_self n now from msg) as Hs. by destruct (handle_incoming n now from msg).
Qed.

Lemma batch_message_acc msgs n c o v :
  fold_left batch_message msgs (n, c, o, v) =
    let '(n', c', o', v') := fold_left batch_message msgs (n, c, [], []) in (n', c', o ++ o', v ++ v').
Proof.
  revert n c o v. induction msgs as [|[[now from] msg] msgs IH]; intros n c o v; cbn [fold_left].
  { by rewrite !app_nil_r. }
  unfold batch_message at 2 4. destruct (gate n c now from msg) as [[[n1 c1] out] ver].
  rewrite IH, (IH _ _ ([] ++ out)).
  destruct (fold_left batch_message msgs (n1, c1, [], [])) as [[[n2 c2] o2] v2]. cbn [app].
  by rewrite <- !app_assoc.
Qed.

Lemma batch_fresh_acc my es s f :
  fold_left (batch_fresh my) es (s, f) =
    let '(s', f') := fold_left (batch_fresh my) es (s, []) in (s', f ++ f').
Proof.
  revert s f. induction es as [|e es IH]; intros s f; cbn [fold_left]; [by rewrite app_nil_r|].
  unfold batch_fresh at 2 4. destruct (bs_insert s (seen_key my e)) as [s1 [|]]; [|apply IH].
  rewrite IH, (IH _ ([] ++ [e])). destruct (fold_left (batch_fresh my) es (s1, [])) as [s2 f2].
  by rewrite <- app_assoc.
Qed.

Lemma batch_cons n sh now from msg msgs :
  process_gossip_batch n sh ((now, from, msg) :: msgs) =
    let '(n1, sh1, out, ingested) := process_gossip n sh now from msg in
    let '(n2, sh2, outs, ingesteds) := process_gossip_batch n1 sh1 msgs in
    (n2, sh2, out ++ outs, ingested ++ ingesteds).
Proof.
  unfold process_gossip_batch, process_gossip. cbn [fold_left]. unfold batch_message at 2.
  pose proof (gate_self n (verify_cache sh) now from msg) as Hself.
  destruct (gate n (verify_cache sh) now from msg) as [[[n1 c1] out] ver]. cbn [fst] in Hself.
  rewrite batch_message_acc. rewrite <- Hself.
  assert (∀ s1, let '(n', c', o', v') := fold_left batch_message msgs (n1, c1, [], []) in
    process_gossip_batch n1 (mk_shared s1 c1) msgs =
      let '(seen, fresh) := fold_left (batch_fresh (self_peer_id n1)) v' (s1, []) in
      (n', mk_shared seen c', o', fresh)) as Hbatch.
  { intros s1. unfold process_gossip_batch. cbn [verify_cache seen_gossip].
    by destruct (fold_left batch_message msgs (n1, c1, [], [])) as [[[n2 c2] o2] v2]. }
  unfold process_gossip_batch in Hbatch. cbn [verify_cache seen_gossip] in Hbatch.
  destruct ver as [e|]; cbn [option_list].
  - destruct (bs_insert (seen_gossip sh) (seen_key (self_peer_id n1) e)) as [s1 fresh] eqn:Hins.
    cbn [verify_cache seen_gossip].
    destruct (fold_left batch_message msgs (n1, c1, [], [])) as [[[n2 c2] o2] v2].
    change (option_list (Some e)) with [e]. cbn [app fold_left]. unfold batch_fresh at 2. rewrite Hins.
    rewrite batch_fresh_acc. destruct (fold_left (batch_fresh (self_peer_id n1)) v2 (s1, [])) as [s2 f2].
    by destruct fresh.
  - cbn [verify_cache seen_gossip].
    destruct (fold_left batch_message msgs (n1, c1, [], [])) as [[[n2 c2] o2] v2].
    change (option_list (@None Event)) with (@nil Event). cbn [app].
    by destruct (fold_left (batch_fresh (self_peer_id n1)) v2 (seen_gossip sh, [])) as [s2 f2].
Qed.

(** Processing a batch of gossip messages is equivalent to processing them
    one at a time in the same order: the same node, the same shared state, the
    same messages to send in the same order, and the same events handed to the
    ingest pipeline. *)
Theorem gossip_batch_equiv (n : PlumTreeNode) (sh : shared) (messages : list (Z * str * PlumTreeMessage)) :
  process_gossip_batch n sh messages = process_all n sh messages.
Proof.
  revert n sh. induction messages as [|[[now from] msg] messages IH]; intros n sh.
  - unfold process_gossip_batch. cbn. by destruct sh.
  - rewrite batch_cons. cbn [process_all].
    destruct (process_gossip n sh now from msg) as [[[n1 sh1] out] ingested]. by rewrite IH.
Qed.

(** ** Nothing unverified is amplified *)

(** What can happen to a bridge: a message, a change of its peers, a
    verification by another thread of the process. *)
Inductive bridge_event :=
| BMessage (now : Z) (from : list Z) (msg : PlumTreeMessage)
| BAddPeer (p : list Z)
| BRemovePeer (p : list Z)
| BVerify (e : Event).

(** The events that reach the check. *)
Definition carried (ev : bridge_event) : list Event :=
  match ev with
  | BMessage _ _ (Gossip _ p _) => option_list (event_from_str p)
  | BVerify e => [e]
  | _ => []
  end.

Section seen.
Context (seen : list Event).

(** An event of [seen] that verified, or shares its id and signature with one
    that did (see Verify). *)
Definition backed_event (e : Event) : Prop := e ∈ seen ∧ backed event_id event_sig event_verify sha256 (.∈ seen) (digest e).

(** A payload that parses to such an event with the announced id. *)
Definition vetted (id payload : list Z) : Prop :=
  ∃ e, event_from_str payload = Some e ∧ id_hex e = id ∧ backed_event e.

Definition vetted_state (n : PlumTreeNode) (c : cache_state) : Prop :=
  (∀ id p, bm_get (payload_cache n) id = Some p → vetted id p)
  ∧ (∀ k, k ∈ cache_keys c → backed event_id event_sig event_verify sha256 (.∈ seen) k).

Definition vetted_out (out : list (list Z * PlumTreeMessage)) : Prop :=
  ∀ to id p r, (to, Gossip id p r) ∈ out → vetted id p.

Definition known (msg : PlumTreeMessage) : Prop := ∀ id p r e, msg = Gossip id p r → event_from_str p = Some e → e ∈ seen.

Lemma verified_gossip_vetted c msg :
  known msg →
  (∀ k, k ∈ cache_keys c → backed event_id event_sig event_verify sha256 (.∈ seen) k) →
  (∀ k, k ∈ cache_keys (verified_gossip c msg).1 → backed event_id event_sig event_verify sha256 (.∈ seen) k)
  ∧ ∀ e, (verified_gossip c msg).2 = Some e → ∃ id p r, msg = Gossip id p r ∧ vetted id p ∧ event_from_str p = Some e.
Proof.
  intros Hk Hc. destruct msg as [id p r|id r|id|id]; try done. cbn [verified_gossip].
  destruct (event_from_str p) as [e|] eqn:He; [|done]. case_bool_decide as Hid; [|done].
  pose proof (Hk id p r e eq_refl He) as Hin.
  destruct (verify_event_backed event_id event_sig event_verify sha256 android (.∈ seen) c e Hin Hc) as [H1 H2].
  destruct (check c e) as [c' [|]]; cbn [fst snd] in *; split; try done.
  intros e' [= <-]. exists id, p, r. split; [done|]. split; [|done]. exists e. split_and!; [done|done|]. by split; [|apply H2].
Qed.

Lemma handle_incoming_vetted n now from msg :
  (∀ id p, bm_get (payload_cache n) id = Some p → vetted id p) →
  (∀ id p r, msg = Gossip id p r → vetted id p) →
  (∀ id p, bm_get (payload_cache (handle_incoming n now from msg).1) id = Some p → vetted id p)
  ∧ vetted_out (handle_incoming n now from msg).2.
Proof.
  intros Hn Hmsg. destruct msg as [id p r|id r|id|id]; cbn [handle_incoming].
  - specialize (Hmsg id p r eq_refl). unfold handle_gossip. case_match.
    { split; [done|]. by intros to i q r' [= ]%list_elem_of_singleton. }
    cbn [fst snd payload_cache]. split.
    + intros i q. rewrite bm_insert_get. case_decide as Hi; [intros [= <-]; by subst|].
      case_decide; [done|]. apply Hn.
    + intros to i q r' [(x & [= -> -> -> ->] & _)%list_elem_of_fmap|(x & [=] & _)%list_elem_of_fmap]%elem_of_app.
      done.
  - unfold handle_ihave. case_match; [by split; [|intros ???? ?%elem_of_nil]|].
    assert (payload_cache (consume_graft_credit n now from).1 = payload_cache n) as Hpc.
    { unfold consume_graft_credit. cbv zeta. by repeat case_match. }
    destruct (consume_graft_credit n now from) as [n1 granted]. cbn [fst] in Hpc.
    repeat case_match; cbn [fst snd set_pending payload_cache]; rewrite ?Hpc; (split; [done|]);
      intros to i q r' Hin; first [by apply elem_of_nil in Hin|by apply list_elem_of_singleton in Hin].
  - unfold handle_graft. cbv zeta.
    match goal with |- context [bm_get (payload_cache ?m) id] => set (n1 := m) end.
    assert (payload_cache n1 = payload_cache n) as Hpc by (unfold n1; by case_match).
    cbn [fst snd]. rewrite Hpc. split; [done|].
    destruct (bm_get (payload_cache n) id) as [q|] eqn:Hq; [|by intros ???? ?%elem_of_nil].
    intros to i q' r' [= -> -> -> ->]%list_elem_of_singleton. by apply Hn.
  - split; [done|]. by intros ???? ?%elem_of_nil.
Qed.

Lemma gate_vetted n c now from msg :
  known msg → vetted_state n c →
  let '(n', c', out, v) := gate n c now from msg in vetted_state n' c' ∧ vetted_out out.
Proof.
  intros Hk [Hn Hc]. unfold gate. destruct (verified_gossip_vetted c msg Hk Hc) as [Hc' Hv].
  destruct (verified_gossip c msg) as [c' v]. cbn [fst snd] in *.
  destruct (is_gossip msg && bool_decide (v = None)) eqn:Hg.
  { split; [done|]. by intros ???? ?%elem_of_nil. }
  destruct (handle_incoming_vetted n now from msg Hn) as [Hn' Ho].
  { intros id p r ->. cbn [is_gossip andb] in Hg. apply bool_decide_eq_false in Hg.
    destruct v as [e|]; [|done]. destruct (Hv e eq_refl) as (? & ? & ? & [= <- <- <-] & ? & _). done. }
  destruct (handle_incoming n now from msg) as [n' out]. by split.
Qed.

Definition bridge_handle (s : PlumTreeNode * shared) (ev : bridge_event)
    : PlumTreeNode * shared * list (list Z * PlumTreeMessage) * list Event :=
  let '(n, sh) := s in
  match ev with
  | BMessage now from msg => process_gossip n sh now from msg
  | BAddPeer p => (add_peer n p, sh, [], [])
  | BRemovePeer p => (remove_peer n p, sh, [], [])
  | BVerify e => (n, mk_shared (seen_gossip sh) (check (verify_cache sh) e).1, [], [])
  end.

(** Everything sent and everything ingested in a run. *)
Fixpoint bridge_run (s : PlumTreeNode * shared) (evs : list bridge_event)
    : list (list Z * PlumTreeMessage) * list Event :=
  match evs with
  | [] => ([], [])
  | ev :: evs =>
      let '(n, sh, out, ingested) := bridge_handle s ev in
      let '(outs, ingesteds) := bridge_run (n, sh) evs in
      (out ++ outs, ingested ++ ingesteds)
  end.

Lemma process_gossip_vetted n sh now from msg :
  known msg → vetted_state n (verify_cache sh) →
  let '(n', sh', out, ingested) := process_gossip n sh now from msg in
  vetted_state n' (verify_cache sh') ∧ vetted_out out ∧ ∀ e, e ∈ ingested → backed_event e.
Proof.
  intros Hk Hs. unfold process_gossip. pose proof (gate_vetted n (verify_cache sh) now from msg Hk Hs) as Hg.
  assert (∀ e, (gate n (verify_cache sh) now from msg).2 = Some e → backed_event e) as Hv.
  { intros e. unfold gate. destruct (verified_gossip_vetted (verify_cache sh) msg Hk (proj2 Hs)) as [_ Hv].
    destruct (verified_gossip (verify_cache sh) msg) as [c v]. cbn [snd] in Hv.
    destruct (is_gossip msg && _); [done|]. destruct (handle_incoming n now from msg). cbn [snd]. intros ->.
    destruct (Hv e eq_refl) as (id' & q & r & _ & (e' & He' & _ & Hb) & He). rewrite He in He'. by injection He' as <-. }
  destruct (gate n (verify_cache sh) now from msg) as [[[n1 c1] out] [e|]]; cbn [snd] in Hv.
  - destruct (bs_insert _ _) as [s fresh]. destruct Hg. split; [done|]. split; [done|].
    destruct fresh; [|by intros ? ?%elem_of_nil]. intros e' ->%list_elem_of_singleton. by apply Hv.
  - destruct Hg. split; [done|]. split; [done|]. by intros ? ?%elem_of_nil.
Qed.

Lemma bridge_run_vetted evs n sh :
  (∀ e, e ∈ evs ≫= carried → e ∈ seen) → vetted_state n (verify_cache sh) →
  vetted_out (bridge_run (n, sh) evs).1 ∧ ∀ e, e ∈ (bridge_run (n, sh) evs).2 → backed_event e.
Proof.
  revert n sh. induction evs as [|ev evs IH]; intros n sh Hsub Hs; cbn [bridge_run].
  { by split; [intros ???? ?%elem_of_nil|intros ? ?%elem_of_nil]. }
  assert (let '(n', sh', out, ingested) := bridge_handle (n, sh) ev in
    vetted_state n' (verify_cache sh') ∧ vetted_out out ∧ ∀ e, e ∈ ingested → backed_event e) as Hstep.
  { destruct ev as [now from msg|p|p|e]; cbn [bridge_handle].
    - apply process_gossip_vetted; [|done]. intros id p r e -> He. apply Hsub. cbn. rewrite He. by left.
    - split; [|split; [by intros ???? ?%elem_of_nil|by intros ? ?%elem_of_nil]].
      split; [|apply Hs]. unfold add_peer. repeat case_match; apply Hs.
    - split; [|split; [by intros ???? ?%elem_of_nil|by intros ? ?%elem_of_nil]]. by split; apply Hs.
    - split; [|split; [by intros ???? ?%elem_of_nil|by intros ? ?%elem_of_nil]].
      split; [apply Hs|]. apply verify_event_backed; [|apply Hs]. apply Hsub. by left. }
  destruct (bridge_handle (n, sh) ev) as [[[n1 sh1] out] ingested]. destruct Hstep as (Hs1 & Ho & Hi).
  destruct (IH n1 sh1) as [Ho' Hi']; [intros e He; apply Hsub; cbn; set_solver|done|]. destruct (bridge_run (n1, sh1) evs) as [outs ingesteds].
  cbn [fst snd] in *. split.
  - intros to id p r [?|?]%elem_of_app; [by eapply Ho|by eapply Ho'].
  - intros e [?|?]%elem_of_app; auto.
Qed.

End seen.

(** No two events come under one identifier and signature. *)
Definition apart (events : list Event) : Prop := ∀ e e', e ∈ events → e' ∈ events → digest e = digest e' → e = e'.

(** C8: what is amplified or stored was checked, up to the cache of the check:
    in every run of a fresh bridge, whatever peers send, every payload it pushes
    to a peer, also one served later from the payload cache on a Graft, parses
    to an event whose id is the announced message id and whose id and signature
    are those of an event of the run that verified; and so is every event handed
    to the ingest pipeline. When no two events of the run share an identifier and a signature
    (the cache of the check looks at nothing else), all of them verified
    themselves. *)
Theorem gossip_only_verified (my_pubkey : str) (evs : list bridge_event) :
  let run := bridge_run (plum_new my_pubkey, shared_new) evs in
  let seen := evs ≫= carried in
  (∀ to id p r, (to, Gossip id p r) ∈ run.1 → vetted seen id p)
  ∧ (∀ e, e ∈ run.2 → ∃ e0, e0 ∈ seen ∧ event_verify e0 = true ∧ digest e0 = digest e)
  ∧ (apart seen →
     (∀ to id p r, (to, Gossip id p r) ∈ run.1 → ∃ e, event_from_str p = Some e ∧ id_hex e = id ∧ event_verify e = true)
     ∧ (∀ e, e ∈ run.2 → event_verify e = true)).
Proof.
  intros run seen. destruct (bridge_run_vetted seen evs (plum_new my_pubkey) shared_new) as [H1 H2]; [done| |].
  { split; [by intros id p|by intros k ?%elem_of_empty]. }
  split; [exact H1|]. split; [intros e He; exact (proj2 (H2 e He))|]. intros Hone.
  assert (Hv : ∀ e, backed_event seen e → event_verify e = true) by (intros e (Hin & e0 & Hin0 & Hv & Hd); by rewrite <-(Hone e0 e)).
  split; [|intros e He; by apply Hv, H2]. intros to id p r Hin. destruct (H1 to id p r Hin) as (e & He & Hi & Hb). exists e. by split_and!; [| |apply Hv].
Qed.
End gossip.
