(* ===== verification/HashRing.v ===== *)
(** Hash routing: src/sync-core/src/hash_routing.rs. A router that spreads keys
    over a fixed number of partitions, and a consistent-hashing ring that maps
    a key to the first virtual point clockwise of its hash. XXHash64 is a
    parameter. The ring, a BTreeMap, is a finite map whose iteration is the
    list of its entries sorted by key. *)

From S2P Require Import Prelude RustStr.

(** The entries of a BTreeMap, in key order. *)
Definition by_key {V} (x y : Z * V) : Prop := (x.1 ≤ y.1)%Z.
#[export] Instance by_key_dec {V} (x y : Z * V) : Decision (by_key x y).
Proof. unfold by_key. apply _. Defined.
#[export] Instance by_key_total {V} : Total (@by_key V).
Proof. intros x y. unfold by_key. lia. Qed.
#[export] Instance by_key_trans {V} : Transitive (@by_key V).
Proof. intros x y z. unfold by_key. lia. Qed.

Definition btree_iter {V} (m : gmap Z V) : list (Z * V) := merge_sort by_key (map_to_list m).

(** [range(lo..)]. *)
Definition btree_range {V} (m : gmap Z V) (lo : Z) : list (Z * V) :=
  filter (λ e, (lo ≤ e.1)%Z) (btree_iter m).

Section routing.
Context (xxhash64 : bytes → Z).

(** Source: src/sync-core/src/hash_routing.rs:9-13 (xxhash64_bytes) *)
Definition xxhash64_bytes (b : bytes) : Z := xxhash64 b.
(** Source: src/sync-core/src/hash_routing.rs:16-18 (xxhash64_str) *)
Definition xxhash64_str (s : str) : Z := xxhash64_bytes s.

(** ** Partitions *)

(** Source: src/sync-core/src/hash_routing.rs:22-24 (PartitionRouter) *)
Record PartitionRouter := mk_router { num_partitions : Z }.

(** Source: src/sync-core/src/hash_routing.rs:28-32 (new) *)
Definition router_new (n : Z) : PartitionRouter := mk_router (Z.max n 1).

(** Source: src/sync-core/src/hash_routing.rs:40-42 (route_bytes) *)
Definition route_bytes (r : PartitionRouter) (b : bytes) : Z := (xxhash64_bytes b mod num_partitions r)%Z.
(** Source: src/sync-core/src/hash_routing.rs:45-47 (route_key) *)
Definition route_key (r : PartitionRouter) (key : str) : Z := route_bytes r key.

(** [buckets[idx].push(item)]; an index out of range would panic.
    Source: src/sync-core/src/hash_routing.rs:50-66 (partition_items) *)
Definition partition_items {T} (r : PartitionRouter) (items : list T) (key_fn : T → str) : list (list T) :=
  fold_left (λ buckets item, alter (λ b, b ++ [item]) (Z.to_nat (route_key r (key_fn item))) buckets)
    items (replicate (Z.to_nat (num_partitions r)) []).

(** ** The ring *)

(** The ring, src/sync-core/src/hash_routing.rs, lines 71 to 73: points to nodes. *)
Abbreviation ConsistentHashRing := (gmap Z (list Z)) (only parsing).

(** Source: src/sync-core/src/hash_routing.rs:77-81 (new) *)
Definition ring_new : ConsistentHashRing := ∅.

(** The hash of a virtual point.
    Source: src/sync-core/src/hash_routing.rs:87-88 (add_node, vnode) *)
Definition vnode_hash (node : str) (i : Z) : Z := xxhash64_str (node ++ lit "#vn" ++ print_u64 i).

(** Source: src/sync-core/src/hash_routing.rs:84-91 (add_node) *)
Definition add_node (ring : ConsistentHashRing) (node : str) (vnodes : Z) : ConsistentHashRing :=
  fold_left (λ ring i, <[vnode_hash node i := node]> ring) (seqZ 0 (Z.max vnodes 1)) ring.

(** Source: src/sync-core/src/hash_routing.rs:94-96 (remove_node) *)
Definition remove_node (ring : ConsistentHashRing) (node : str) : ConsistentHashRing :=
  filter (λ e, e.2 ≠ node) ring.

(** Source: src/sync-core/src/hash_routing.rs:99-113 (get_node) *)
Definition get_node (ring : ConsistentHashRing) (key : str) : option (list Z) :=
  if bool_decide (ring = ∅) then None
  else match btree_range ring (xxhash64_str key) with
       | e :: _ => Some e.2
       | [] => snd <$> head (btree_iter ring)
       end.

(** Source: src/sync-core/src/hash_routing.rs:116-118 (is_empty) *)
Definition ring_is_empty (ring : ConsistentHashRing) : bool := bool_decide (ring = ∅).
(** Source: src/sync-core/src/hash_routing.rs:121-123 (len) *)
Definition ring_len (ring : ConsistentHashRing) : nat := size ring.

(** ** The first entry from a bound *)

Lemma elem_of_btree_iter {V} (m : gmap Z V) h v : (h, v) ∈ btree_iter m ↔ m !! h = Some v.
Proof. unfold btree_iter. rewrite merge_sort_Permutation. apply elem_of_map_to_list. Qed.

Lemma btree_iter_sorted {V} (m : gmap Z V) : StronglySorted by_key (btree_iter m).
Proof. unfold btree_iter. apply StronglySorted_merge_sort; apply _. Qed.

(** [e] is the first entry at or after [lo]. *)
Definition first_from {V} (m : gmap Z V) (lo : Z) (e : Z * V) : Prop :=
  m !! e.1 = Some e.2 ∧ (lo ≤ e.1)%Z ∧ ∀ h v, m !! h = Some v → (lo ≤ h)%Z → (e.1 ≤ h)%Z.

Lemma first_from_unique {V} (m : gmap Z V) lo e e' : first_from m lo e → first_from m lo e' → e = e'.
Proof.
  destruct e as [h v], e' as [h' v']. intros (H1 & H2 & H3) (H1' & H2' & H3'). simpl in *.
  assert (h = h') as <- by (pose proof (H3 _ _ H1' H2'); pose proof (H3' _ _ H1 H2); lia). congruence.
Qed.

Lemma btree_range_head {V} (m : gmap Z V) lo e es : btree_range m lo = e :: es → first_from m lo e.
Proof.
  intros Hr. unfold btree_range in Hr. destruct e as [h v].
  assert ((h, v) ∈ filter (λ e, (lo ≤ e.1)%Z) (btree_iter m)) as [Hlo Hin]%list_elem_of_filter by (rewrite Hr; left).
  apply elem_of_btree_iter in Hin. split_and!; [done|done|]. intros h' v' Hh' Hlo'. simpl.
  assert ((h', v') ∈ (h, v) :: es) as [[= -> ->]|Hes]%elem_of_cons; [|lia|].
  { rewrite <- Hr. apply list_elem_of_filter. split; [done|]. by apply elem_of_btree_iter. }
  assert (StronglySorted by_key ((h, v) :: es)) as Hs.
  { rewrite <- Hr. clear Hr. generalize (btree_iter_sorted m). generalize (btree_iter m). clear.
    intros l. induction 1 as [|x l Hl IH Hx]; [constructor|]. rewrite filter_cons. case_decide; [|done].
    constructor; [done|]. rewrite Forall_forall in *. intros y [_ Hy]%list_elem_of_filter. by apply Hx. }
  apply StronglySorted_inv in Hs as [_ Hs]. rewrite Forall_forall in Hs. apply (Hs _ Hes).
Qed.

Lemma btree_range_nil {V} (m : gmap Z V) lo : btree_range m lo = [] ↔ ∀ h v, m !! h = Some v → (h < lo)%Z.
Proof.
  unfold btree_range. split.
  - intros Hr h v Hh. destruct (decide (lo ≤ h)%Z); [|lia].
    assert ((h, v) ∈ filter (λ e, (lo ≤ e.1)%Z) (btree_iter m)) as Hin
      by (apply list_elem_of_filter; split; [done|by apply elem_of_btree_iter]).
    rewrite Hr in Hin. by apply elem_of_nil in Hin.
  - intros Hm. destruct (filter _ _) as [|[h v] es] eqn:Hr; [done|]. exfalso.
    assert ((h, v) ∈ filter (λ e, (lo ≤ e.1)%Z) (btree_iter m)) as [Hlo Hin]%list_elem_of_filter by (rewrite Hr; left).
    apply elem_of_btree_iter, Hm in Hin. simpl in *. lia.
Qed.

(** ** Where a key goes *)

(** The point clockwise of [lo]: the first at or after it, else the first of all. *)
Definition successor (m : ConsistentHashRing) (lo : Z) (e : Z * list Z) : Prop :=
  m !! e.1 = Some e.2
  ∧ ((lo ≤ e.1)%Z ∧ (∀ h v, m !! h = Some v → (lo ≤ h)%Z → (e.1 ≤ h)%Z)
     ∨ (∀ h v, m !! h = Some v → (h < lo)%Z ∧ (e.1 ≤ h)%Z)).

Lemma successor_unique m lo e e' : successor m lo e → successor m lo e' → e = e'.
Proof.
  destruct e as [h v], e' as [h' v']. intros [H1 H2] [H1' H2']. simpl in *.
  assert (h = h') as <-; [|congruence].
  destruct H2 as [[? H2]|H2], H2' as [[? H2']|H2'];
    pose proof (H2 _ _ H1); pose proof (H2 _ _ H1'); pose proof (H2' _ _ H1); pose proof (H2' _ _ H1'); lia.
Qed.

Lemma get_node_spec ring key node :
  get_node ring key = Some node ↔ ∃ h, successor ring (xxhash64_str key) (h, node).
Proof.
  assert (∀ node, get_node ring key = Some node → ∃ h, successor ring (xxhash64_str key) (h, node)) as Hsome.
  { intros n. unfold get_node. case_bool_decide as Hr; [done|].
    destruct (btree_range ring (xxhash64_str key)) as [|[h v] es] eqn:Hrange.
    - pose proof (proj1 (btree_range_nil ring (xxhash64_str key)) Hrange) as Hlt.
      destruct (btree_range ring (xxhash64_str key)) eqn:?; [|done]. clear Hrange.
      destruct (btree_iter ring) as [|[h v] es] eqn:Hit; [done|]. intros [= <-]. exists h.
      assert ((h, v) ∈ btree_iter ring) as Hin by (rewrite Hit; left).
      split; [by apply elem_of_btree_iter|]. right. intros h' v' Hh'. split; [by eapply Hlt|]. simpl.
      apply elem_of_btree_iter in Hh'. pose proof (btree_iter_sorted ring) as Hs. rewrite Hit in Hs, Hh'.
      apply StronglySorted_inv in Hs as [_ Hs]. rewrite Forall_forall in Hs.
      apply elem_of_cons in Hh' as [[= -> ->]|Hh']; [lia|]. apply (Hs _ Hh').
    - intros [= <-]. exists h. apply btree_range_head in Hrange as (H1 & H2 & H3). split; [done|]. by left. }
  split; [apply Hsome|]. intros [h Hh].
  destruct (get_node ring key) as [n|] eqn:Hg.
  - destruct (Hsome n eq_refl) as [h' Hh']. f_equal.
    by pose proof (successor_unique _ _ _ _ Hh Hh') as [= _ ->].
  - exfalso. unfold get_node in Hg. destruct Hh as [Hh _]. simpl in Hh.
    case_bool_decide as Hr; [by subst|].
    destruct (btree_range ring (xxhash64_str key)); [|done].
    apply elem_of_btree_iter in Hh. destruct (btree_iter ring); [by apply elem_of_nil in Hh|done].
Qed.

Lemma get_node_nonempty ring key : ring ≠ ∅ → is_Some (get_node ring key).
Proof.
  intros Hr. unfold get_node. rewrite bool_decide_false by done. destruct (btree_range _ _); [|by eexists].
  destruct (btree_iter ring) as [|e es] eqn:Hit; [|by eexists]. exfalso. apply Hr, map_empty. intros h.
  apply eq_None_not_Some. intros [v Hv%elem_of_btree_iter]. rewrite Hit in Hv. by apply elem_of_nil in Hv.
Qed.

(** A point stays the successor when the ring loses other points. *)
Lemma successor_sub m m' lo e :
  m' !! e.1 = Some e.2 → (∀ h, is_Some (m' !! h) → is_Some (m !! h)) → successor m lo e → successor m' lo e.
Proof.
  intros He Hsub [_ Hs]. split; [done|]. destruct Hs as [[Hlo Hs]|Hs]; [left; split; [done|]|right].
  - intros h v Hh. destruct (Hsub h) as [v' Hv']; [by exists v|]. by eapply Hs.
  - intros h v Hh. destruct (Hsub h) as [v' Hv']; [by exists v|]. by eapply Hs.
Qed.

Lemma add_node_lookup ring node vnodes h :
  add_node ring node vnodes !! h = Some node ∨ add_node ring node vnodes !! h = ring !! h.
Proof.
  unfold add_node. generalize (seqZ 0 (Z.max vnodes 1)). intros l. revert ring.
  induction l as [|i l IH]; intros ring; cbn [fold_left]; [by right|].
  destruct (IH (<[vnode_hash node i:=node]> ring)) as [H|H]; [by left|].
  destruct (decide (h = vnode_hash node i)) as [->|Hne].
  - left. by rewrite H, lookup_insert_eq.
  - right. by rewrite H, lookup_insert_ne.
Qed.

(** The ring is a consistent hash. A key belongs to the node of the first
    virtual point clockwise of its hash, so that a non-empty ring always has an
    answer. Removing a node moves only the keys of that node, none of which
    stay with it; adding a node moves keys only to the new node, also when its
    points collide with points of other nodes. *)
Theorem ring_consistent (ring : ConsistentHashRing) (node : str) (vnodes : Z) (key : str) :
  (∀ n, get_node ring key = Some n ↔ ∃ h, successor ring (xxhash64_str key) (h, n))
  ∧ (ring ≠ ∅ → is_Some (get_node ring key))
  ∧ (get_node ring key ≠ Some node → get_node (remove_node ring node) key = get_node ring key)
  ∧ get_node (remove_node ring node) key ≠ Some node
  ∧ (get_node (add_node ring node vnodes) key = Some node
     ∨ get_node (add_node ring node vnodes) key = get_node ring key).
Proof.
  split_and!.
  - intros n. apply get_node_spec.
  - apply get_node_nonempty.
  - intros Hne. destruct (get_node ring key) as [n|] eqn:Hg.
    + apply get_node_spec in Hg as [h Hh]. apply get_node_spec. exists h.
      apply (successor_sub ring); [|intros h' [v [Hv _]%map_lookup_filter_Some]; by exists v|done].
      apply map_lookup_filter_Some. split; [apply Hh|]. simpl. congruence.
    + destruct (decide (ring = ∅)) as [->|Hr]; [|by destruct (get_node_nonempty ring key Hr); congruence].
      assert (remove_node ∅ node = ∅) as -> by apply map_filter_empty. done.
  - intros [h [Hh _]]%get_node_spec. simpl in Hh. by apply map_lookup_filter_Some in Hh as [_ ?].
  - destruct (get_node (add_node ring node vnodes) key) as [n|] eqn:Hg.
    + destruct (decide (n = node)) as [->|Hne]; [by left|right]. symmetry.
      apply get_node_spec in Hg as [h Hh]. apply get_node_spec. exists h.
      apply (successor_sub (add_node ring node vnodes)); [| |done].
      * destruct Hh as [Hh _]. simpl in *. destruct (add_node_lookup ring node vnodes h); congruence.
      * intros h' [v Hv]. destruct (add_node_lookup ring node vnodes h') as [H|H]; [by exists node|].
        rewrite H. by exists v.
    + right. destruct (decide (ring = ∅)) as [->|Hr]; [by unfold get_node; rewrite bool_decide_true|].
      assert (add_node ring node vnodes ≠ ∅) as Hr'.
      { intros He. apply Hr, map_empty. intros h.
        assert (add_node ring node vnodes !! h = None) as Hn by (rewrite He; apply lookup_empty).
        destruct (add_node_lookup ring node vnodes h); congruence. }
      by destruct (get_node_nonempty _ key Hr'); congruence.
Qed.

Lemma partition_fold {T} (r : PartitionRouter) (items : list T) (key_fn : T → str) (buckets : list (list T)) (i : nat) :
  fold_left (λ buckets item, alter (λ b, b ++ [item]) (Z.to_nat (route_key r (key_fn item))) buckets)
    items buckets !! i
  = (λ b, b ++ filter (λ x, Z.to_nat (route_key r (key_fn x)) = i) items) <$> buckets !! i.
Proof.
  revert buckets. induction items as [|x items IH]; intros buckets; cbn [fold_left].
  - destruct (buckets !! i); simpl; [by rewrite app_nil_r|done].
  - rewrite IH, filter_cons. case_decide as Hi.
    + rewrite Hi, list_lookup_alter_eq. destruct (buckets !! i); simpl; [|done].
      by rewrite <- app_assoc.
    + by rewrite list_lookup_alter_ne.
Qed.

(** Partitioning loses nothing: there is one bucket per partition, and each
    holds, in their order, exactly the items whose key is routed to it; every
    key is routed to an existing bucket, so no index is out of range. *)
Theorem partition_items_spec {T} (n : Z) (items : list T) (key_fn : T → str) :
  let r := router_new n in
  partition_items r items key_fn =
    (λ i, filter (λ x, Z.to_nat (route_key r (key_fn x)) = i) items) <$> seq 0 (Z.to_nat (num_partitions r))
  ∧ ∀ key, (0 ≤ route_key r key < num_partitions r)%Z.
Proof.
  intros r. assert (1 ≤ num_partitions r)%Z as Hn by (simpl; lia). split.
  - apply list_eq. intros i. unfold partition_items. rewrite partition_fold, list_lookup_fmap.
    destruct (decide (i < Z.to_nat (num_partitions r))) as [Hi|Hi].
    + rewrite lookup_replicate_2, lookup_seq_lt by done. done.
    + rewrite lookup_seq_ge by lia. rewrite lookup_ge_None_2; [done|]. rewrite length_replicate. lia.
  - intros key. unfold route_key, route_bytes. apply Z.mod_pos_bound. lia.
Qed.
End routing.
