(* ===== verification/Wot.v ===== *)
(** The web of trust of src/identity-core/src/wot.rs: mutual contacts, trust
    distances by a breadth-first walk of the contact lists, the partition of
    the peers by distance and its process-wide cache. The walk is proved equal
    to a direct definition of the distance and of the introducers. Scores are
    binary64 numbers of the Standard Library's [SpecFloat]. The second graph
    of the file, a wrapper around petgraph, is not modelled. *)

From Stdlib Require Import SpecFloat.
From S2P Require Import Prelude RustStr.

(** Source: src/identity-core/src/wot.rs:17-20 (WotUser) *)
Record WotUser := mk_user { pubkey : str; contacts : list str }.

Abbreviation f64 := spec_float (only parsing).

(** Source: src/identity-core/src/wot.rs:23-28 (WotUpdate) *)
Record WotUpdate := mk_update {
  u_pubkey : str;
  u_distance : Z;
  u_trust_score : f64;
  u_introduced_by : option (list str)
}.

(** Source: src/identity-core/src/wot.rs:10-14 (TrustScore) *)
Record TrustScore := mk_score { ts_score : f64; ts_distance : Z; ts_mutual_count : nat }.

(** ** Mutual contacts *)

(** One round of the loop: the keys seen and the count.
    Source: src/identity-core/src/wot.rs:37-42 (count_mutual, loop) *)
Definition mutual_step (set_a : gset str) (s : gset str * nat) (b : str) : gset str * nat :=
  let b_lower := to_ascii_lowercase b in
  if bool_decide (b_lower ∈ s.1) then s
  else ({[ b_lower ]} ∪ s.1, if bool_decide (b_lower ∈ set_a) then S s.2 else s.2).

Definition lower_set (l : list str) : gset str := list_to_set (to_ascii_lowercase <$> l).

(** Source: src/identity-core/src/wot.rs:30-44 (count_mutual) *)
Definition count_mutual (contacts_a contacts_b : list str) : nat :=
  match contacts_a, contacts_b with
  | [], _ | _, [] => 0
  | _, _ => (fold_left (mutual_step (lower_set contacts_a)) contacts_b (∅, 0)).2
  end.

(** Source: src/identity-core/src/wot.rs:46-65 (compute_distance) *)
Definition compute_distance (user_pubkey target_pubkey : str) (direct_follows : list str)
    (mutual_count : nat) : Z :=
  let eq x := bool_decide (to_ascii_lowercase x = to_ascii_lowercase target_pubkey) in
  if eq user_pubkey then 0
  else if existsb eq direct_follows then 1
  else if 0 <? mutual_count then 2
  else 3.

(** ** Scores *)

Definition F (m : positive) (e : Z) : f64 := S754_finite false m e.
Definition f_0 : f64 := S754_zero false.
Definition f_1 : f64 := F 4503599627370496 (-52).
Definition f_0_6 : f64 := F 5404319552844595 (-53).
Definition f_0_3 : f64 := F 5404319552844595 (-54).
Definition f_0_2 : f64 := F 7205759403792794 (-55).
Definition f_0_1 : f64 := F 7205759403792794 (-56).
Definition f_0_05 : f64 := F 7205759403792794 (-57).
Definition f_0_03 : f64 := F 8646911284551352 (-58).

Definition fadd : f64 → f64 → f64 := SFadd 53 1024.
Definition fmul : f64 → f64 → f64 := SFmul 53 1024.
(** [n as f64]. *)
Definition of_usize (n : nat) : f64 := binary_normalize 53 1024 (Z.of_nat n) 0 false.
(** [f64::min] when the second number is not a NaN. *)
Definition fmin (x y : f64) : f64 := if SFleb x y then x else y.
(** [f64::clamp]. *)
Definition fclamp (x lo hi : f64) : f64 :=
  let x := if SFltb x lo then lo else x in if SFltb hi x then hi else x.

(** Source: src/identity-core/src/wot.rs:67-79 (calculate_trust_score) *)
Definition calculate_trust_score (distance : Z) (mutual_count introducer_count : nat) : f64 :=
  if (distance =? 0)%Z then f_1
  else
    let score :=
      if (distance =? 1)%Z then
        fadd (fadd f_0_6 (fmin (fmul (of_usize mutual_count) f_0_05) f_0_3))
             (fmin (fmul (of_usize introducer_count) f_0_05) f_0_1)
      else if (distance =? 2)%Z then fadd f_0_3 (fmin (fmul (of_usize mutual_count) f_0_03) f_0_2)
      else f_0_1 in
    fclamp score f_0 f_1.

(** Source: src/identity-core/src/wot.rs:81-95 (compute_trust_score) *)
Definition compute_trust_score (user_pubkey target_pubkey : str)
    (user_contacts target_contacts : list str) : TrustScore :=
  let mutual := count_mutual user_contacts target_contacts in
  let distance := compute_distance user_pubkey target_pubkey user_contacts mutual in
  mk_score (calculate_trust_score distance mutual mutual) distance mutual.

(** ** The contact lists, capped *)

(** One user of the list: the map and the number of edges so far.
    Source: src/identity-core/src/wot.rs:105-117 (recalculate_wot, contact_map loop) *)
Definition contact_step (max_contacts max_edges : Z) (s : gmap str (list str) * Z)
    (user : WotUser) : gmap str (list str) * Z :=
  let '(contact_map, total_edges) := s in
  if (max_edges <=? total_edges)%Z then
    (match contact_map !! pubkey user with
     | Some _ => contact_map
     | None => <[pubkey user := []]> contact_map
     end, total_edges)
  else
    let slice := if (max_contacts <? zlen (contacts user))%Z
                 then take (Z.to_nat max_contacts) (contacts user) else contacts user in
    (<[pubkey user := slice]> contact_map, total_edges + zlen slice)%Z.

Definition contact_map (max_contacts max_edges : Z) (users : list WotUser) : gmap str (list str) :=
  (fold_left (contact_step max_contacts max_edges) users (∅, 0%Z)).1.

(** ** The walk *)

(** Source: src/identity-core/src/wot.rs:124-130 (recalculate_wot, state) *)
Record walk := mk_walk {
  distances : gmap str Z;
  introduced_by : gmap str (list str);
  queue : list (str * Z)
}.

Definition MAX_INTRODUCERS : nat := 64.

Section walk.
Context (cm : gmap str (list str)) (self_pubkey : str).

Definition contacts_of (k : str) : list str := default [] (cm !! k).

(** Source: src/identity-core/src/wot.rs:119-122 (recalculate_wot, self_contacts) *)
Definition self_contacts : gset str := list_to_set (contacts_of self_pubkey).

(** Source: src/identity-core/src/wot.rs:154-160 (recalculate_wot, introducers) *)
Definition introduce (current contact : str) (l : list str) : list str :=
  if (length l <? MAX_INTRODUCERS) &&
     (negb (bool_decide (current = self_pubkey)) || bool_decide (contact ∈ self_contacts)) &&
     negb (bool_decide (current ∈ l))
  then l ++ [current] else l.

(** One contact of the current peer.
    Source: src/identity-core/src/wot.rs:142-161 (recalculate_wot, contact loop) *)
Definition relax (current : str) (new_dist : Z) (s : walk) (contact : str) : walk :=
  let intro s := mk_walk (distances s)
    (<[contact := introduce current contact (default [] (introduced_by s !! contact))]> (introduced_by s))
    (queue s) in
  match distances s !! contact with
  | Some existing => if (existing <? new_dist)%Z then s else intro s
  | None =>
      intro (mk_walk (<[contact := new_dist]> (distances s)) (introduced_by s)
               (if (new_dist <? 2)%Z then queue s ++ [(contact, new_dist)] else queue s))
  end.

(** [new_dist] of a dequeued peer. *)
Definition next_dist (current_dist : Z) : Z := Z.min 3 (sat_add u32_max current_dist 1).

(** The loop; the argument is what [max_processed] still allows.
    Source: src/identity-core/src/wot.rs:135-163 (recalculate_wot, queue loop) *)
Fixpoint bfs (budget : nat) (s : walk) : walk :=
  match queue s, budget with
  | [], _ | _, O => s
  | (current, current_dist) :: q, S budget =>
      bfs budget (fold_left (relax current (next_dist current_dist)) (contacts_of current)
                  (mk_walk (distances s) (introduced_by s) q))
  end.

Definition walk_start : walk := mk_walk {[ self_pubkey := 0%Z ]} {[ self_pubkey := [] ]} [(self_pubkey, 0%Z)].
End walk.

(** Source: src/identity-core/src/wot.rs:132-132 (recalculate_wot, max_processed) *)
Definition max_processed (users : list WotUser) : nat := Z.to_nat (Z.min (zlen users) 10000).

(** The update of one user.
    Source: src/identity-core/src/wot.rs:167-190 (recalculate_wot, result) *)
Definition wot_update (cm : gmap str (list str)) (self_pubkey : str) (s : walk) (user : WotUser) : WotUpdate :=
  let distance := default 3%Z (distances s !! pubkey user) in
  let mutual_count := length (filter (.∈ self_contacts cm self_pubkey) (contacts user)) in
  let introducers := introduced_by s !! pubkey user in
  let introducer_count := length (default [] introducers) in
  mk_update (pubkey user) distance (calculate_trust_score distance mutual_count introducer_count)
    (match introducers with Some (x :: l) => Some (x :: l) | _ => None end).

(** Source: src/identity-core/src/wot.rs:97-192 (recalculate_wot) *)
Definition recalculate_wot (self_pubkey : str) (users : list WotUser) : list WotUpdate :=
  let cm := contact_map 5000 500000 users in
  wot_update cm self_pubkey (bfs cm self_pubkey (max_processed users) (walk_start self_pubkey)) <$> users.

(** ** Partition by distance *)

(** One contact of the current peer; nothing is recorded about introducers.
    Source: src/identity-core/src/wot.rs:284-297 (partition_wot_peers, contact loop) *)
Definition relax_distance (new_dist : Z) (s : gmap str Z * list (str * Z)) (contact : str)
    : gmap str Z * list (str * Z) :=
  match s.1 !! contact with
  | Some existing => s
  | None => (<[contact := new_dist]> s.1, if (new_dist <? 2)%Z then s.2 ++ [(contact, new_dist)] else s.2)
  end.

(** Source: src/identity-core/src/wot.rs:277-298 (partition_wot_peers, queue loop) *)
Fixpoint bfs_distances (cm : gmap str (list str)) (budget : nat) (s : gmap str Z * list (str * Z))
    : gmap str Z * list (str * Z) :=
  match s.2, budget with
  | [], _ | _, O => s
  | (current, current_dist) :: q, S budget =>
      bfs_distances cm budget
        (fold_left (relax_distance (next_dist current_dist)) (contacts_of cm current) (s.1, q))
  end.

(** Source: src/identity-core/src/wot.rs:301-309 (partition_wot_peers, result) *)
Definition partition_step (distances : gmap str Z) (max_distance : Z) (result : gmap Z (list str))
    (user : WotUser) : gmap Z (list str) :=
  let distance := default 3%Z (distances !! pubkey user) in
  if ((0 <? distance) && (distance <=? max_distance))%Z
  then <[distance := default [] (result !! distance) ++ [pubkey user]]> result else result.

(** Source: src/identity-core/src/wot.rs:239-311 (partition_wot_peers) *)
Definition partition_wot_peers (self_pubkey : str) (users : list WotUser) (max_distance : Z)
    : gmap Z (list str) :=
  if ((max_distance =? 0)%Z || bool_decide (users = []))%bool then ∅
  else
    let cm := contact_map 2000 100000 users in
    let s := bfs_distances cm (max_processed users) ({[ self_pubkey := 0%Z ]}, [(self_pubkey, 0%Z)]) in
    fold_left (partition_step s.1 max_distance) users ∅.

(** ** The cache of partitions *)

(** Source: src/identity-core/src/wot.rs:7-7 (WOT_PEERS_CACHE) *)
Record wot_cache := mk_cache {
  wc_map : gmap (str * Z) (gmap Z (list str));
  wc_order : list (str * Z)
}.

Definition wot_cache_new : wot_cache := mk_cache ∅ [].

(** Source: src/identity-core/src/wot.rs:212-219 (get_wot_peers_by_distance, eviction) *)
Fixpoint evict (order : list (str * Z)) (map : gmap (str * Z) (gmap Z (list str))) : wot_cache :=
  if (16 <=? size map) then
    match order with
    | oldest :: order => evict order (delete oldest map)
    | [] => mk_cache ∅ []
    end
  else mk_cache map order.

(** Source: src/identity-core/src/wot.rs:196-226 (get_wot_peers_by_distance) *)
Definition get_wot_peers_by_distance (c : wot_cache) (self_pubkey : str) (users : list WotUser)
    (max_distance : Z) : wot_cache * gmap Z (list str) :=
  let result := partition_wot_peers self_pubkey users max_distance in
  if 64 <? length users then
    let key := (self_pubkey, max_distance) in
    match wc_map c !! key with
    | Some cached => (c, cached)
    | None =>
        let c := evict (wc_order c) (wc_map c) in
        (mk_cache (<[key := result]> (wc_map c)) (filter (λ k, k ≠ key) (wc_order c) ++ [key]), result)
    end
  else (c, result).

(** Source: src/identity-core/src/wot.rs:230-237 (invalidate_wot_peers_cache) *)
Definition invalidate_wot_peers_cache (c : wot_cache) : wot_cache := wot_cache_new.

(** ** Reference definitions

    The peers at distance two are the contacts of the direct contacts the walk
    gets to: [met] is the first [budget - 1] distinct contacts of the user. *)

Fixpoint fresh (seen : gset str) (l : list str) : list str :=
  match l with
  | [] => []
  | x :: l => if bool_decide (x ∈ seen) then fresh seen l else x :: fresh ({[ x ]} ∪ seen) l
  end.

Definition met (cm : gmap str (list str)) (self : str) (budget : nat) : list str :=
  take (budget - 1) (fresh {[ self ]} (contacts_of cm self)).

Section reference.
Context (cm : gmap str (list str)) (self : str) (met : list str).

Definition wot_distance (k : str) : Z :=
  if bool_decide (k = self) then 0
  else if bool_decide (k ∈ contacts_of cm self) then 1
  else if bool_decide (k ∈ met ≫= contacts_of cm) then 2
  else 3.

Definition wot_introducers (k : str) : list str :=
  if bool_decide (k = self) then []
  else if bool_decide (k ∈ contacts_of cm self) then [self]
  else take MAX_INTRODUCERS (filter (λ c, k ∈ contacts_of cm c) met).

Definition reference_update (user : WotUser) : WotUpdate :=
  let k := pubkey user in
  let mutual := length (filter (.∈ self_contacts cm self) (contacts user)) in
  mk_update k (wot_distance k)
    (calculate_trust_score (wot_distance k) mutual (length (wot_introducers k)))
    (match wot_introducers k with [] => None | l => Some l end).
End reference.

(** ** Proofs *)

Lemma fresh_elem seen l x : x ∈ fresh seen l ↔ x ∈ l ∧ x ∉ seen.
Proof.
  revert seen. induction l as [|y l IH]; intros seen; simpl; [set_solver|].
  case_bool_decide; rewrite ?elem_of_cons, IH; [set_solver|].
  rewrite elem_of_union, elem_of_singleton. destruct (decide (x = y)); naive_solver.
Qed.

Lemma fresh_nodup seen l : NoDup (fresh seen l).
Proof.
  revert seen. induction l as [|y l IH]; intros seen; simpl; [constructor|].
  case_bool_decide; [done|]. constructor; [|done]. rewrite fresh_elem. set_solver.
Qed.

Lemma fresh_ext X Y l : (∀ x, x ∈ l → x ∈ X ↔ x ∈ Y) → fresh X l = fresh Y l.
Proof.
  revert X Y. induction l as [|y l IH]; intros X Y HXY; simpl; [done|].
  rewrite (bool_decide_ext (y ∈ X) (y ∈ Y)) by (apply HXY; set_solver).
  case_bool_decide; [|f_equal]; apply IH; set_solver.
Qed.

Lemma count_mutual_step set_a l seen n :
  (fold_left (mutual_step set_a) l (seen, n)).2 =
  n + size ((lower_set l ∖ seen) ∩ set_a).
Proof.
  revert seen n. induction l as [|b l IH]; intros seen n; cbn [fold_left].
  { unfold lower_set; simpl. replace ((∅ ∖ seen) ∩ set_a) with (∅ : gset str) by set_solver. rewrite size_empty. simpl. lia. }
  unfold mutual_step at 2; cbn zeta. set (x := to_ascii_lowercase b).
  assert (lower_set (b :: l) = {[ x ]} ∪ lower_set l) as -> by done.
  cbn [fst snd]. case_bool_decide as Hx.
  - rewrite IH. do 2 f_equal. set_solver.
  - rewrite IH. case_bool_decide as Ha.
    + replace ((({[ x ]} ∪ lower_set l) ∖ seen) ∩ set_a)
        with ({[ x ]} ∪ ((lower_set l ∖ ({[ x ]} ∪ seen)) ∩ set_a)).
      2:{ apply set_eq. intros y. destruct (decide (y = x)); set_solver. }
      rewrite (size_union {[ x ]}), size_singleton by set_solver. lia.
    + do 2 f_equal. set_solver.
Qed.

Lemma count_mutual_spec a b : count_mutual a b = size (lower_set a ∩ lower_set b).
Proof.
  unfold count_mutual. destruct a as [|x a].
  { unfold lower_set at 1; simpl. by rewrite intersection_empty_l_L, size_empty. }
  destruct b as [|y b].
  { unfold lower_set at 2; simpl. by rewrite intersection_empty_r_L, size_empty. }
  rewrite count_mutual_step. simpl. f_equal. set_solver.
Qed.

Section walk_facts.
Context (cm : gmap str (list str)) (self : str).

Abbreviation step := (relax cm self) (only parsing).
Abbreviation intro_of s k := (default [] (introduced_by s !! k)) (only parsing).

Lemma introduce_idemp c k l :
  introduce cm self c k (introduce cm self c k l) = introduce cm self c k l.
Proof.
  unfold introduce at 2 3. destruct (_ && _) eqn:E; [|unfold introduce; by rewrite E].
  unfold introduce. rewrite (bool_decide_eq_true_2 (c ∈ l ++ [c])) by set_solver.
  by rewrite andb_false_r.
Qed.

Lemma relax_dist c nd s x k :
  distances (step c nd s x) !! k =
  match distances s !! k with Some d => Some d | None => if decide (k = x) then Some nd else None end.
Proof.
  unfold relax. destruct (distances s !! x) as [e|] eqn:E.
  - assert (distances (if (e <? nd)%Z then s else mk_walk (distances s) (<[x:=introduce cm self c x (intro_of s x)]> (introduced_by s)) (queue s)) = distances s) as ->
      by by destruct (e <? nd)%Z.
    case_decide as Hk; [subst; rewrite E; done|]. by destruct (distances s !! k).
  - simpl. case_decide as Hk.
    + subst. rewrite lookup_insert_eq, E. done.
    + rewrite lookup_insert_ne by done. by destruct (distances s !! k).
Qed.

Lemma relax_queue c nd s x :
  queue (step c nd s x) =
  queue s ++ (if bool_decide (x ∈ dom (distances s)) then [] else if (nd <? 2)%Z then [(x, nd)] else []).
Proof.
  unfold relax. destruct (distances s !! x) as [e|] eqn:E.
  - rewrite bool_decide_eq_true_2 by (apply elem_of_dom; eauto). rewrite app_nil_r.
    by destruct (e <? nd)%Z.
  - rewrite bool_decide_eq_false_2 by (by apply not_elem_of_dom). simpl.
    destruct (nd <? 2)%Z; [done|by rewrite app_nil_r].
Qed.

Lemma relax_intro c nd s x k :
  intro_of (step c nd s x) k =
  if decide (k = x ∧ (nd ≤ default nd (distances s !! k))%Z)
  then introduce cm self c k (intro_of s k) else intro_of s k.
Proof.
  unfold relax. destruct (distances s !! x) as [e|] eqn:E.
  - destruct (Z.ltb_spec e nd) as [He|He].
    + case_decide as Hk; [|done]. destruct Hk as [-> Hk]. rewrite E in Hk. simpl in Hk. lia.
    + simpl. case_decide as Hk.
      * destruct Hk as [-> _]. by rewrite lookup_insert_eq.
      * rewrite lookup_insert_ne; [done|]. intros ->. apply Hk. rewrite E. done.
  - simpl. case_decide as Hk.
    + destruct Hk as [-> _]. by rewrite lookup_insert_eq.
    + rewrite lookup_insert_ne; [done|]. intros ->. apply Hk. rewrite E. split; [done|simpl; lia].
Qed.

Lemma relax_all_dist c nd l s k :
  distances (fold_left (step c nd) l s) !! k =
  match distances s !! k with Some d => Some d | None => if decide (k ∈ l) then Some nd else None end.
Proof.
  revert s. induction l as [|x l IH]; intros s; cbn [fold_left].
  { destruct (distances s !! k); [done|]. case_decide as H; [by apply elem_of_nil in H|done]. }
  rewrite IH, relax_dist. destruct (distances s !! k) as [d|]; [done|].
  destruct (decide (k = x)) as [Hx|Hx], (decide (k ∈ x :: l)) as [Hl|Hl]; try done;
    rewrite elem_of_cons in Hl; destruct (decide (k ∈ l)); tauto.
Qed.

Lemma relax_all_queue c nd l s :
  queue (fold_left (step c nd) l s) =
  queue s ++ (if (nd <? 2)%Z then (λ x, (x, nd)) <$> fresh (dom (distances s)) l else []).
Proof.
  revert s. induction l as [|x l IH]; intros s; cbn [fold_left fresh].
  { destruct (nd <? 2)%Z; by rewrite app_nil_r. }
  rewrite IH, relax_queue, <- app_assoc. f_equal.
  assert (dom (distances (step c nd s x)) = {[ x ]} ∪ dom (distances s)) as ->.
  { apply set_eq. intros k. rewrite elem_of_union, elem_of_singleton, !elem_of_dom, relax_dist.
    destruct (distances s !! k); [naive_solver|]. case_decide; naive_solver. }
  case_bool_decide as Hx; destruct (nd <? 2)%Z; try done.
  by rewrite (fresh_ext ({[ x ]} ∪ dom (distances s)) (dom (distances s))) by set_solver.
Qed.

Lemma relax_all_intro c nd l s k :
  intro_of (fold_left (step c nd) l s) k =
  if decide (k ∈ l ∧ (nd ≤ default nd (distances s !! k))%Z)
  then introduce cm self c k (intro_of s k) else intro_of s k.
Proof.
  revert s. induction l as [|x l IH]; intros s; cbn [fold_left].
  { case_decide as H; [|done]. set_solver. }
  rewrite IH. assert (default nd (distances (step c nd s x) !! k) = default nd (distances s !! k)) as ->.
  { rewrite relax_dist. destruct (distances s !! k); [done|]. by destruct (decide (k = x)). }
  rewrite relax_intro. pose proof (introduce_idemp c k (intro_of s k)) as Hi.
  destruct (decide (nd ≤ default nd (distances s !! k))%Z) as [Hd|Hd].
  - destruct (decide (k = x)) as [->|Hk].
    + rewrite (decide_True (P := x = x ∧ _)) by done.
      rewrite (decide_True (P := x ∈ x :: l ∧ _)) by (split; [left|done]).
      by destruct (decide _).
    + rewrite (decide_False (P := k = x ∧ _)) by tauto.
      destruct (decide (k ∈ l ∧ _)) as [H1|H1], (decide (k ∈ x :: l ∧ _)) as [H2|H2]; try done;
        rewrite elem_of_cons in H2; tauto.
  - rewrite !decide_False by tauto. done.
Qed.
Definition gather (k : str) (l : list str) (c : str) : list str :=
  if decide (k ∈ contacts_of cm c) then introduce cm self c k l else l.

Lemma bfs_unfold budget s c d M :
  queue s = (c, d) :: M →
  bfs cm self (S budget) s =
  bfs cm self budget (fold_left (step c (next_dist d)) (contacts_of cm c)
                        (mk_walk (distances s) (introduced_by s) M)).
Proof. intros HM. cbn [bfs]. by rewrite HM. Qed.

Lemma bfs_stop s budget : queue s = [] ∨ budget = 0 → bfs cm self budget s = s.
Proof. destruct budget; simpl; [intros; by destruct (queue s) as [|[]]|]. by intros [->|]. Qed.

(** The rounds on direct contacts: nothing more is queued. *)
Lemma bfs_direct M budget s :
  queue s = (λ c, (c, 1%Z)) <$> M →
  (∀ k, distances (bfs cm self budget s) !! k =
     match distances s !! k with
     | Some d => Some d
     | None => if decide (k ∈ take budget M ≫= contacts_of cm) then Some 2%Z else None
     end) ∧
  (∀ k, intro_of (bfs cm self budget s) k =
     if decide (2 ≤ default 2 (distances s !! k))%Z
     then fold_left (gather k) (take budget M) (intro_of s k) else intro_of s k).
Proof.
  revert budget s. induction M as [|c M IH]; intros budget s HM;
    [|destruct budget as [|budget]].
  1,2: rewrite bfs_stop by auto; rewrite ?take_nil; simpl; split; intros k;
    [by destruct (distances s !! k)|by destruct (decide _)].
  rewrite (bfs_unfold budget s c 1 _ HM).
  set (s' := fold_left _ _ _). change (next_dist 1) with 2%Z in s'.
  assert (Hd : ∀ k, distances s' !! k = match distances s !! k with Some d => Some d
            | None => if decide (k ∈ contacts_of cm c) then Some 2%Z else None end)
    by (intros k; unfold s'; by rewrite relax_all_dist).
  assert (Hdef : ∀ k, default 2%Z (distances s' !! k) = default 2%Z (distances s !! k))
    by (intros k; rewrite Hd; destruct (distances s !! k); [done|by destruct (decide _)]).
  destruct (IH budget s') as [H1 H2]; [unfold s'; rewrite relax_all_queue; by rewrite app_nil_r|].
  split; intros k.
  - rewrite H1, Hd. simpl. destruct (distances s !! k); [done|].
    destruct (decide (k ∈ contacts_of cm c)) as [Hc|Hc], (decide (k ∈ contacts_of cm c ++ _)) as [Hb|Hb];
      try done; rewrite elem_of_app in Hb; destruct (decide (k ∈ take budget M ≫= contacts_of cm)); tauto.
  - rewrite H2, Hdef. simpl. unfold s'. rewrite relax_all_intro. unfold gather at 3.
    cbn [distances introduced_by].
    destruct (decide (2 ≤ default 2 (distances s !! k))%Z) as [Hle|Hle].
    + destruct (decide (k ∈ contacts_of cm c)) as [Hc|Hc].
      * by rewrite (decide_True (P := k ∈ contacts_of cm c ∧ _)).
      * by rewrite (decide_False (P := k ∈ contacts_of cm c ∧ _)) by tauto.
    + by rewrite decide_False by tauto.
Qed.

(** Distinct peers other than the user are recorded up to the cap. *)
Lemma gather_all k M l :
  NoDup (l ++ M) → self ∉ M → length l ≤ MAX_INTRODUCERS →
  fold_left (gather k) M l = take MAX_INTRODUCERS (l ++ filter (λ c, k ∈ contacts_of cm c) M).
Proof.
  revert l. induction M as [|c M IH]; intros l Hnd Hs Hl; cbn [fold_left].
  { by rewrite filter_nil, app_nil_r, take_ge. }
  rewrite filter_cons. unfold gather at 2. apply not_elem_of_cons in Hs as [Hcs Hs].
  assert (Hcl : c ∉ l) by (apply NoDup_app in Hnd as (_ & Hd & _); intros Hin; apply (Hd _ Hin); left).
  assert (Hnd' : NoDup (l ++ M)) by (apply NoDup_app; apply NoDup_app in Hnd as (? & Hd & Hn);
    apply NoDup_cons in Hn as [_ ?]; split; [done|split; [set_solver|done]]).
  destruct (decide (k ∈ contacts_of cm c)) as [Hc|Hc]; [|by apply IH].
  unfold introduce. rewrite (bool_decide_eq_false_2 (c = self)), (bool_decide_eq_false_2 (c ∈ l)) by done.
  rewrite !andb_true_r. destruct (Nat.ltb_spec (length l) MAX_INTRODUCERS) as [Hlt|Hge].
  - rewrite IH, <- app_assoc; [done| |done|len]. rewrite <- app_assoc. done.
  - rewrite IH by done. rewrite !take_app, !(take_ge l) by lia.
    by replace (MAX_INTRODUCERS - length l) with 0 by lia.
Qed.

(** The state after the user's own contacts. *)
Lemma bfs_first budget :
  let M := fresh {[ self ]} (contacts_of cm self) in
  ∃ s, bfs cm self (S budget) (walk_start self) = bfs cm self budget s ∧
    queue s = (λ c, (c, 1%Z)) <$> M ∧
    (∀ k, distances s !! k = if bool_decide (k = self) then Some 0%Z
       else if bool_decide (k ∈ contacts_of cm self) then Some 1%Z else None) ∧
    (∀ k, intro_of s k = if bool_decide (k = self) then []
       else if bool_decide (k ∈ contacts_of cm self) then [self] else []).
Proof.
  intros M. eexists. split; [by apply bfs_unfold|]. change (next_dist 0) with 1%Z.
  cbn [walk_start distances introduced_by]. split; [|split].
  - rewrite relax_all_queue. cbn [queue distances]. rewrite app_nil_l. unfold M.
    simpl. f_equal. apply fresh_ext. intros x _. by rewrite dom_singleton_L.
  - intros k. rewrite relax_all_dist. cbn [distances]. destruct (decide (k = self)) as [->|Hk].
    + rewrite lookup_singleton_eq, bool_decide_eq_true_2 by done. done.
    + rewrite lookup_singleton_ne, bool_decide_eq_false_2 by done.
      case_bool_decide; [by rewrite decide_True|by rewrite decide_False].
  - intros k. rewrite relax_all_intro. cbn [distances introduced_by].
    destruct (decide (k = self)) as [->|Hk].
    + rewrite (bool_decide_eq_true_2 (self = self)), !lookup_singleton_eq by done.
      rewrite decide_False by (simpl; lia). done.
    + rewrite (bool_decide_eq_false_2 (k = self)), !lookup_singleton_ne by done. simpl.
      destruct (decide (k ∈ contacts_of cm self)) as [Hc|Hc].
      * rewrite decide_True by (split; [done|lia]). rewrite (bool_decide_eq_true_2 _ Hc).
        unfold introduce, self_contacts. rewrite (bool_decide_eq_true_2 (k ∈ _)) by set_solver.
        by rewrite orb_true_r.
      * rewrite decide_False by tauto. by rewrite (bool_decide_eq_false_2 _ Hc).
Qed.

End walk_facts.

Section walk_correct.
Context (cm : gmap str (list str)) (self : str).

Lemma walk_correct budget :
  0 < budget →
  let m := met cm self budget in
  let s := bfs cm self budget (walk_start self) in
  (∀ k, default 3%Z (distances s !! k) = wot_distance cm self m k) ∧
  (∀ k, default [] (introduced_by s !! k) = wot_introducers cm self m k).
Proof.
  intros Hb m. destruct budget as [|budget]; [lia|]. unfold m, met.
  destruct (bfs_first cm self budget) as (s & -> & Hq & Hd & Hi).
  destruct (bfs_direct cm self _ budget s Hq) as [H1 H2].
  replace (S budget - 1) with budget by lia. set (M := fresh _ _) in *.
  split; intros k.
  - rewrite H1, Hd. unfold wot_distance. do 2 (case_bool_decide; [done|]).
    case_bool_decide; [by rewrite decide_True|by rewrite decide_False].
  - rewrite H2, Hd, Hi. unfold wot_introducers. case_bool_decide; [done|].
    case_bool_decide; [done|]. rewrite decide_True by (simpl; lia).
    rewrite gather_all; [done| | |simpl; lia].
    + simpl. eapply sublist_NoDup; [|apply sublist_take]. apply fresh_nodup.
    + intros Hs. assert (Hin : self ∈ M) by (rewrite <- (take_drop budget M), elem_of_app; by left).
      apply fresh_elem in Hin. set_solver.
Qed.

Lemma relax_simulates c nd s x :
  relax_distance nd (distances s, queue s) x =
  (distances (relax cm self c nd s x), queue (relax cm self c nd s x)).
Proof. unfold relax, relax_distance. simpl. destruct (distances s !! x); [by case_match|done]. Qed.

Lemma bfs_simulates budget s :
  bfs_distances cm budget (distances s, queue s) =
  (distances (bfs cm self budget s), queue (bfs cm self budget s)).
Proof.
  revert s. induction budget as [|budget IH]; intros s; simpl.
  { by destruct (queue s) as [|[]] eqn:Hq; rewrite ?Hq. }
  destruct (queue s) as [|[c d] q] eqn:Hq; [by rewrite Hq|]. rewrite <- IH. f_equal.
  set (s0 := mk_walk (distances s) (introduced_by s) q).
  change (distances s, q) with (distances s0, queue s0). generalize s0.
  induction (contacts_of cm c) as [|x l IHl]; intros s1; [done|]. cbn [fold_left].
  by rewrite (relax_simulates c).
Qed.
End walk_correct.

Lemma max_processed_pos users : users ≠ [] → 0 < max_processed users.
Proof. unfold max_processed. destruct users; [done|]. simpl. lia. Qed.

Lemma wot_update_reference cm self budget user :
  0 < budget →
  wot_update cm self (bfs cm self budget (walk_start self)) user =
  reference_update cm self (met cm self budget) user.
Proof.
  intros Hb. destruct (walk_correct cm self budget Hb) as [Hd Hi].
  unfold wot_update, reference_update. rewrite Hd, <- Hi. f_equal.
  by destruct (introduced_by _ !! _) as [[]|].
Qed.

(** C19: the breadth-first walk over the capped contact lists computes exactly
    the direct definition: distance 0 is the user, 1 a contact of the user, 2 a
    contact of one of the first direct contacts the walk gets to, 3 everyone
    else; a direct contact is introduced by the user, a peer at distance 2 by
    the first 64 direct contacts that list it. *)
Theorem wot_walk_equiv self users :
  let cm := contact_map 5000 500000 users in
  recalculate_wot self users =
  reference_update cm self (met cm self (max_processed users)) <$> users.
Proof.
  intros cm. unfold recalculate_wot. fold cm. apply list_fmap_ext. intros i u Hu.
  apply wot_update_reference, max_processed_pos. by intros ->.
Qed.

(** ** The partition *)

Lemma filter_fmap {A B} (f : A → B) (P : B → Prop) `{∀ y, Decision (P y)} (l : list A) :
  filter P (f <$> l) = f <$> filter (λ x, P (f x)) l.
Proof.
  induction l as [|x l IH]; [done|]. rewrite fmap_cons, !filter_cons, IH. by destruct (decide (P (f x))).
Qed.

Definition bucket (dist : str → Z) (d : Z) (users : list WotUser) : list str :=
  pubkey <$> filter (λ u, dist (pubkey u) = d) users.

Lemma partition_wot_fold dist distances max_distance users r d :
  (∀ k, default 3%Z (distances !! k) = dist k) →
  default [] (fold_left (partition_step distances max_distance) users r !! d) =
  default [] (r !! d) ++ (if ((0 <? d) && (d <=? max_distance))%Z then bucket dist d users else []).
Proof.
  intros Hdist. revert r. induction users as [|u users IH]; intros r; cbn [fold_left].
  { unfold bucket. rewrite filter_nil. simpl. case_match; by rewrite app_nil_r. }
  rewrite IH. unfold partition_step. rewrite Hdist. unfold bucket. rewrite filter_cons.
  destruct (decide (dist (pubkey u) = d)) as [->|Hd].
  - destruct ((0 <? d) && (d <=? max_distance))%Z; [|done].
    rewrite lookup_insert_eq. simpl. by rewrite <- app_assoc.
  - destruct ((0 <? dist (pubkey u)) && _)%Z; [|done]. by rewrite lookup_insert_ne.
Qed.

Lemma partition_reference self users max_distance d :
  let cm := contact_map 2000 100000 users in
  default [] (partition_wot_peers self users max_distance !! d) =
  if ((0 <? d) && (d <=? max_distance))%Z
  then bucket (wot_distance cm self (met cm self (max_processed users))) d users else [].
Proof.
  intros cm. unfold partition_wot_peers. destruct (Z.eqb_spec max_distance 0) as [->|Hm].
  { cbn [orb]. rewrite lookup_empty. simpl. destruct (Z.ltb_spec 0 d), (Z.leb_spec d 0); try done; lia. }
  case_bool_decide as Hu; cbn [orb].
  { subst users. rewrite lookup_empty. unfold bucket. rewrite filter_nil. by case_match. }
  fold cm. change ({[self := 0%Z]}, [(self, 0%Z)]) with (distances (walk_start self), queue (walk_start self)).
  rewrite (bfs_simulates cm self). destruct (walk_correct cm self _ (max_processed_pos _ Hu)) as [Hd _].
  by rewrite (partition_wot_fold _ _ _ _ _ _ Hd), lookup_empty.
Qed.

(** Without a capped list the map holds the last list of every user. *)
Lemma contact_map_uncapped mc me users m n :
  (∀ u, u ∈ users → zlen (contacts u) ≤ mc)%Z →
  (n + Z.of_nat (sum_list_with (λ u, length (contacts u)) users) < me)%Z →
  (fold_left (contact_step mc me) users (m, n)).1 =
  fold_left (λ m u, <[pubkey u := contacts u]> m) users m.
Proof.
  revert m n. induction users as [|u users IH]; intros m n Hc Hs; simpl in *; [done|].
  rewrite (proj2 (Z.leb_gt me n)) by lia.
  rewrite (proj2 (Z.ltb_ge mc (zlen (contacts u)))) by (apply Hc; left).
  apply IH; [|lia]. intros v Hv. apply Hc. by right.
Qed.

(** When no contact list exceeds 2,000 entries and the lists hold fewer
    than 100,000 in total, the partition puts every user in the bucket of the
    distance that the full recalculation gives it, in the order of the list,
    for the distances 1 to the requested one; no other bucket exists. *)
Theorem wot_partition_agrees self users max_distance d :
  (∀ u, u ∈ users → zlen (contacts u) ≤ 2000)%Z →
  (Z.of_nat (sum_list_with (λ u, length (contacts u)) users) < 100000)%Z →
  default [] (partition_wot_peers self users max_distance !! d) =
  if ((0 <? d) && (d <=? max_distance))%Z
  then u_pubkey <$> filter (λ u, u_distance u = d) (recalculate_wot self users) else [].
Proof.
  intros Hc Hs. rewrite partition_reference, wot_walk_equiv. case_match; [|done].
  assert (contact_map 5000 500000 users = contact_map 2000 100000 users) as ->.
  { unfold contact_map. rewrite !contact_map_uncapped; [done|..]; try lia; [done|].
    intros u Hu. specialize (Hc u Hu). lia. }
  unfold bucket. by rewrite filter_fmap, <- list_fmap_compose.
Qed.

(** ** The cache *)

Record cache_ok (c : wot_cache) : Prop := {
  co_nodup : NoDup (wc_order c);
  co_keys : dom (wc_map c) = list_to_set (wc_order c);
  co_size : size (wc_map c) ≤ 16
}.

Lemma wot_cache_new_ok : cache_ok wot_cache_new.
Proof. split; simpl; [constructor|set_solver|rewrite map_size_empty; lia]. Qed.

Lemma evict_spec order map :
  NoDup order → dom map = list_to_set order →
  let c := evict order map in
  ∃ n, wc_order c = drop n order ∧ cache_ok c ∧ size (wc_map c) < 16 ∧ wc_map c ⊆ map.
Proof.
  revert map. induction order as [|k order IH]; intros map Hnd Hdom; cbn [evict]; cbv zeta.
  - assert (map = ∅) as -> by (apply dom_empty_inv_L; rewrite Hdom; done).
    exists 0. rewrite map_size_empty. cbn [Nat.leb wc_order wc_map]. rewrite map_size_empty.
    split; [done|split; [apply wot_cache_new_ok|split; [lia|done]]].
  - apply NoDup_cons in Hnd as [Hk Hnd]. destruct (Nat.leb_spec 16 (size map)) as [Hs|Hs].
    + destruct (IH (delete k map) Hnd) as (n & Ho & Hc & Hl & Hsub).
      { rewrite dom_delete_L, Hdom. set_solver. }
      exists (S n). split; [done|split; [done|split; [done|]]].
      etrans; [exact Hsub|apply delete_subseteq].
    + exists 0. split; [done|split; [|done]]. split; simpl; [by constructor|done|lia].
Qed.

(** What the callers of the process do with the cache. *)
Inductive cache_op :=
| Lookup (self : str) (users : list WotUser) (max_distance : Z)
| Invalidate.

Definition cache_run_op (c : wot_cache) (o : cache_op) : wot_cache :=
  match o with
  | Lookup self users d => (get_wot_peers_by_distance c self users d).1
  | Invalidate => invalidate_wot_peers_cache c
  end.

Definition cache_run (ops : list cache_op) : wot_cache := fold_left cache_run_op ops wot_cache_new.

Lemma get_peers_ok c self users d :
  cache_ok c → cache_ok (get_wot_peers_by_distance c self users d).1.
Proof.
  intros Hc. unfold get_wot_peers_by_distance. destruct (64 <? length users); [|done].
  destruct (wc_map c !! (self, d)) as [r|] eqn:Hr; [done|].
  destruct (evict_spec (wc_order c) (wc_map c)) as (n & Ho & [Hnd Hk Hs] & Hl & Hsub);
    [apply Hc|apply Hc|]. simpl. set (e := evict _ _) in *.
  assert (Hin : (self, d) ∉ wc_order e).
  { intros H. assert (H2 : (self, d) ∈ dom (wc_map e)) by (rewrite Hk; by apply elem_of_list_to_set).
    apply elem_of_dom in H2 as [x Hx]. apply (lookup_weaken _ _ _ _ Hx) in Hsub. congruence. }
  split; simpl.
  - apply NoDup_app. split; [by apply NoDup_filter|split; [|apply NoDup_singleton]].
    intros x [Hx _]%list_elem_of_filter ->%list_elem_of_singleton. done.
  - rewrite dom_insert_L, Hk. apply set_eq. intros k.
    rewrite elem_of_union, elem_of_singleton, !elem_of_list_to_set, elem_of_app,
      list_elem_of_filter, list_elem_of_singleton.
    destruct (decide (k = (self, d))); naive_solver.
  - etrans; [apply size_insert_le|]. lia.
Qed.

Lemma get_peers_entry c self users d k r :
  cache_ok c → wc_map (get_wot_peers_by_distance c self users d).1 !! k = Some r →
  wc_map c !! k = Some r ∨ (k = (self, d) ∧ r = partition_wot_peers self users d).
Proof.
  intros Hc. unfold get_wot_peers_by_distance. destruct (64 <? length users); [|by left].
  destruct (wc_map c !! (self, d)) as [r'|] eqn:Hr; [by left|].
  destruct (evict_spec (wc_order c) (wc_map c)) as (n & _ & _ & _ & Hsub); [apply Hc|apply Hc|].
  simpl. intros [[<- <-]|[? Hk]]%lookup_insert_Some; [by right|left]. by eapply lookup_weaken.
Qed.

Lemma cache_run_app ops o : cache_run (ops ++ [o]) = cache_run_op (cache_run ops) o.
Proof. unfold cache_run. by rewrite fold_left_app. Qed.

Lemma cache_run_spec ops :
  cache_ok (cache_run ops) ∧
  ∀ self d r, wc_map (cache_run ops) !! (self, d) = Some r →
    ∃ pre users post, ops = pre ++ Lookup self users d :: post ∧ (Invalidate ∉ post) ∧
      r = partition_wot_peers self users d.
Proof.
  induction ops as [|o ops [Hc IH]] using rev_ind.
  { split; [apply wot_cache_new_ok|]. intros self d r. unfold cache_run. simpl. by rewrite lookup_empty. }
  rewrite cache_run_app. destruct o as [self users d|]; simpl;
    [|split; [apply wot_cache_new_ok|intros self d r; by rewrite lookup_empty]].
  split; [by apply get_peers_ok|]. intros self' d' r Hr.
  apply get_peers_entry in Hr as [Hr|[? ->]]; [|simplify_eq; exists ops, users, []; set_solver|done].
  apply IH in Hr as (pre & users' & post & -> & Hi & ->).
  exists pre, users', (post ++ [Lookup self users d]). rewrite <- app_assoc. set_solver.
Qed.

(** In every run the cache holds at most sixteen partitions, each the
    partition computed by a lookup for the same user and distance after the
    last invalidation; so an answer is the partition of the list given or that
    of a list given earlier, whatever changed in between. *)
Theorem wot_cache_answers ops self users d :
  let c := cache_run ops in
  let r := (get_wot_peers_by_distance c self users d).2 in
  size (wc_map c) ≤ 16 ∧
  (r = partition_wot_peers self users d ∨
   ∃ pre users' post, ops = pre ++ Lookup self users' d :: post ∧ (Invalidate ∉ post) ∧
     r = partition_wot_peers self users' d).
Proof.
  intros c r. destruct (cache_run_spec ops) as [Hc Hr]. split; [apply Hc|]. unfold r.
  unfold get_wot_peers_by_distance. destruct (64 <? length users); [|by left].
  destruct (wc_map c !! (self, d)) as [r'|] eqn:E; [|by left]. right. by apply Hr.
Qed.

(** A second list is answered with the partition of the first. *)
Lemma wot_cache_stale c self users users' d :
  64 < length users → 64 < length users' → wc_map c !! (self, d) = None →
  (get_wot_peers_by_distance (get_wot_peers_by_distance c self users d).1 self users' d).2 =
  partition_wot_peers self users d.
Proof.
  intros H1 H2 Hn. unfold get_wot_peers_by_distance at 2. rewrite (proj2 (Nat.ltb_lt _ _) H1), Hn.
  unfold get_wot_peers_by_distance. rewrite (proj2 (Nat.ltb_lt _ _) H2). simpl.
  by rewrite lookup_insert_eq.
Qed.

(** ** Runs *)

Module WotExamples.

Definition user (k : string) (l : list string) : WotUser := mk_user (lit k) (lit <$> l).

Definition five : list WotUser :=
  [user "me" ["a"; "b"]; user "a" ["me"; "c"]; user "b" ["me"]; user "c" ["a"]; user "loner" []].

Example recalculate_five :
  (λ u, (u_distance u, u_introduced_by u)) <$> recalculate_wot (lit "me") five =
  [(0%Z, None); (1%Z, Some [lit "me"]); (1%Z, Some [lit "me"]); (2%Z, Some [lit "a"]); (3%Z, None)].
Proof. vm_compute. reflexivity. Qed.

(** The scores are the program's: 1.0 for the user, 0.7000000000000001 for a
    direct contact with one mutual contact and one introducer, 0.1 for a
    stranger; no contact reaches 1.0, the largest score is 0.9999999999999999. *)
Example scores :
  (u_trust_score <$> recalculate_wot (lit "me") five) !! 0 = Some f_1 ∧
  calculate_trust_score 1 1 1 = F 6305039478318695 (-53) ∧
  calculate_trust_score 3 5 5 = f_0_1 ∧ calculate_trust_score 1 100 100 = F 9007199254740991 (-53).
Proof. vm_compute. repeat split. Qed.

(** Contacts that are not in the list use up the budget: with three users, a
    direct contact is never expanded and its contact is left at distance 3. *)
Definition crowd : list WotUser := [user "me" ["x"; "y"; "a"]; user "a" ["c"]; user "c" []].

Example budget_spent :
  u_distance <$> recalculate_wot (lit "me") crowd = [0; 1; 3]%Z ∧
  u_distance <$> recalculate_wot (lit "me") (crowd ++ [user "z" []]) = [0; 1; 2; 3]%Z.
Proof. vm_compute. done. Qed.

Lemma wot_partition_agrees_witness :
  (partition_wot_peers (lit "me") five 2 !! 2%Z = Some [lit "c"]) ∧
  default [] (partition_wot_peers (lit "me") five 2 !! 2%Z) =
  u_pubkey <$> filter (λ u, u_distance u = 2%Z) (recalculate_wot (lit "me") five).
Proof.
  split; [vm_compute; reflexivity|]. rewrite (wot_partition_agrees (lit "me") five 2 2); [done| |done].
  intros u Hu. repeat (apply elem_of_cons in Hu as [->|Hu]; [done|]). by apply elem_of_nil in Hu.
Defined.

End WotExamples.
