(* ===== verification/Url.v ===== *)
(** The URL checks: src/common-core/src/url.rs. Parsing a URL is the url crate
    (an interface); the addresses are read as the Standard Library of Rust
    reads them; each regular expression is written out on ASCII hosts, which
    is what the parser returns for the schemes that are let through. *)

From S2P Require Import Prelude RustStr Text.

(** ** The url crate *)

(** Source: src/common-core/src/url.rs:100-112 (is_valid_media_url, Url) *)
Record Url := mk_url { u_scheme : str; u_username : str; u_password : option str; u_host : option str }.

Class UrlCrate := { url_parse : str → option Url }.

(** Source: src/common-core/src/url.rs:8-8 (MAX_URL_LENGTH) *)
Definition MAX_URL_LENGTH : Z := 2048.
(** Source: src/common-core/src/url.rs:9-9 (MAX_EXTRACT_COUNT) *)
Definition MAX_EXTRACT_COUNT : nat := 1024.

(** ** Text *)

(** [str::contains] on a string. *)
Fixpoint contains (p s : str) : bool :=
  match strip_prefix p s with
  | Some _ => true
  | None => match s with [] => false | _ :: s => contains p s end
  end.

Definition starts_with (p s : str) : bool := bool_decide (is_Some (strip_prefix p s)).
Definition ends_with (p s : str) : bool := starts_with (reverse p) (reverse s).

(** [trim_start_matches] and [trim_end_matches] on a character. *)
Fixpoint trim_start_char (c : Z) (s : str) : str :=
  match s with b :: r => if (b =? c)%Z then trim_start_char c r else s | [] => [] end.
Definition trim_end_char (c : Z) (s : str) : str := reverse (trim_start_char c (reverse s)).

(** The longest prefix of bytes that satisfy [p], and the rest. *)
Fixpoint span (p : Z → bool) (s : str) : str * str :=
  match s with
  | [] => ([], [])
  | b :: r => if p b then let '(l, r) := span p r in (b :: l, r) else ([], s)
  end.

(** [str::split(c).count()]. *)
Definition pieces (c : Z) (s : str) : nat := S (length (filter (λ b, b = c) s)).

(** ** Addresses, as [std::net] reads them *)

Inductive IpAddr := V4 (a b c d : Z) | V6 (segments : list Z).

Definition digit_of (radix b : Z) : option Z :=
  let d := if between 0x30 0x39 b then (b - 0x30)%Z
           else if between 0x61 0x66 b then (b - 0x57)%Z
           else if between 0x41 0x46 b then (b - 0x37)%Z else radix in
  if (d <? radix)%Z then Some d else None.

(** A number of at most [max_digits] digits. *)
Definition read_number (radix : Z) (max_digits : nat) (allow_zero_prefix : bool) (max : Z) (s : str) : option (Z * str) :=
  let '(ds, rest) := span (λ b, bool_decide (is_Some (digit_of radix b))) s in
  let n := foldl (λ acc b, acc * radix + default 0 (digit_of radix b))%Z 0%Z ds in
  if (length ds =? 0) || (max_digits <? length ds)
     || (negb allow_zero_prefix && bool_decide (head s = Some 0x30%Z) && (1 <? length ds))
     || (max <? n)%Z then None
  else Some (n, rest).

Definition read_separator (sep : Z) (index : nat) (s : str) : option str :=
  if index =? 0 then Some s else match s with b :: s => if (b =? sep)%Z then Some s else None | [] => None end.

Definition read_ipv4 (s : str) : option ((Z * Z * Z * Z) * str) :=
  '(a, s) ← read_number 10 3 false 255 s;
  s ← read_separator 0x2E 1 s; '(b, s) ← read_number 10 3 false 255 s;
  s ← read_separator 0x2E 2 s; '(c, s) ← read_number 10 3 false 255 s;
  s ← read_separator 0x2E 3 s; '(d, s) ← read_number 10 3 false 255 s;
  Some ((a, b, c, d), s).

(** At most [n] groups, from group [i] on; the last two may be an IPv4
    address, which ends the sequence. *)
Fixpoint read_groups (n i : nat) (s : str) : list Z * bool * str :=
  match n with
  | O => ([], false, s)
  | S n =>
      let v4 := if n =? 0 then None else read_separator 0x3A i s ≫= read_ipv4 in
      match v4 with
      | Some ((a, b, c, d), s) => ([a * 256 + b; c * 256 + d]%Z, true, s)
      | None =>
          match read_separator 0x3A i s ≫= read_number 16 4 true 65535 with
          | None => ([], false, s)
          | Some (g, s) => let '(gs, v4, s) := read_groups n (S i) s in (g :: gs, v4, s)
          end
      end
  end.

Definition read_ipv6 (s : str) : option (list Z * str) :=
  let '(front, has_v4, s) := read_groups 8 0 s in
  if length front =? 8 then Some (front, s)
  else if has_v4 then None
  else
    s ← strip_prefix (lit "::") s;
    let '(back, _, s) := read_groups (8 - (length front + 1)) 0 s in
    Some (front ++ replicate (8 - length front - length back) 0%Z ++ back, s).

Definition parse_ipv6 (s : str) : option (list Z) :=
  match read_ipv6 s with Some (segs, []) => Some segs | _ => None end.

Definition parse_ip (s : str) : option IpAddr :=
  match read_ipv4 s with
  | Some ((a, b, c, d), []) => Some (V4 a b c d)
  | Some _ => None
  | None => V6 <$> parse_ipv6 s
  end.

(** ** The address predicates *)

(** Source: src/common-core/src/url.rs:157-169 (is_private_ipv4) *)
Definition is_private_ipv4 (a b c d : Z) : bool :=
  ((a =? 0) || (a =? 10) || (a =? 127)
   || ((a =? 169) && (b =? 254))
   || ((a =? 172) && between 16 31 b)
   || ((a =? 192) && (b =? 168))
   || ((a =? 100) && between 64 127 b)
   || ((a =? 198) && ((b =? 18) || (b =? 19)))
   || (240 <=? a)
   || between 224 239 a)%Z.

Definition seg (segs : list Z) (i : nat) : Z := nth i segs 0%Z.

(** The IPv4 address in two segments. *)
Definition v4_private (hi lo : Z) : bool :=
  is_private_ipv4 (Z.land (Z.shiftr hi 8) 0xff) (Z.land hi 0xff) (Z.land (Z.shiftr lo 8) 0xff) (Z.land lo 0xff).

Definition zero_segs (segs : list Z) (from n : nat) : bool := forallb (λ i, seg segs i =? 0)%Z (seq from n).

(** [Ipv6Addr::to_ipv4_mapped]: ::ffff:a.b.c.d. *)
Definition to_ipv4_mapped (segs : list Z) : option (Z * Z * Z * Z) :=
  if zero_segs segs 0 5 && (seg segs 5 =? 0xffff)%Z
  then Some (seg segs 6 / 256, seg segs 6 mod 256, seg segs 7 / 256, seg segs 7 mod 256)%Z else None.

(** Source: src/common-core/src/url.rs:171-240 (is_private_ipv6) *)
Definition is_private_ipv6 (segs : list Z) : bool :=
  if zero_segs segs 0 8 || (zero_segs segs 0 7 && (seg segs 7 =? 1)%Z) || (Z.land (seg segs 0) 0xff00 =? 0xff00)%Z then true
  else if (Z.land (seg segs 0) 0xffc0 =? 0xfe80)%Z then true
  else if (Z.land (seg segs 0) 0xfe00 =? 0xfc00)%Z then true
  else
    match to_ipv4_mapped segs with
    | Some (a, b, c, d) => is_private_ipv4 a b c d
    | None =>
        if zero_segs segs 0 4 && (seg segs 4 =? 0xffff)%Z && (seg segs 5 =? 0)%Z then v4_private (seg segs 6) (seg segs 7)
        else if (seg segs 0 =? 0x64)%Z && (seg segs 1 =? 0xff9b)%Z && ((seg segs 2 =? 0)%Z || (seg segs 2 =? 1)%Z)
                && zero_segs segs 3 3 then v4_private (seg segs 6) (seg segs 7)
        else if (seg segs 0 =? 0x2001)%Z && (seg segs 1 =? 0)%Z then true
        else if (seg segs 0 =? 0x2002)%Z then v4_private (seg segs 1) (seg segs 2)
        else if zero_segs segs 0 6 then v4_private (seg segs 6) (seg segs 7)
        else false
    end.

Definition bare_host (host : str) : str := trim_end_char 0x5D (trim_start_char 0x5B (trim host)).

(** Source: src/common-core/src/url.rs:246-251 (is_private_ipv6_str) *)
Definition is_private_ipv6_str (host : str) : bool :=
  match parse_ipv6 (bare_host host) with Some segs => is_private_ipv6 segs | None => false end.

(** Source: src/common-core/src/url.rs:255-265 (is_private_ip) *)
Definition is_private_ip (ip : IpAddr) : bool :=
  match ip with
  | V4 a b c d => is_private_ipv4 a b c d
  | V6 segs =>
      match to_ipv4_mapped segs with
      | Some (a, b, c, d) => is_private_ipv4 a b c d
      | None => is_private_ipv6 segs
      end
  end.

(** Source: src/common-core/src/url.rs:270-277 (is_private_ip_str) *)
Definition is_private_ip_str (host : str) : bool :=
  match parse_ip (bare_host host) with Some ip => is_private_ip ip | None => false end.

(** [IpAddr::is_loopback]. *)
Definition is_loopback (ip : IpAddr) : bool :=
  match ip with V4 a _ _ _ => (a =? 127)%Z | V6 segs => zero_segs segs 0 7 && (seg segs 7 =? 1)%Z end.

(** Source: src/common-core/src/url.rs:283-295 (is_loopback_host) *)
Definition is_loopback_host (host : str) : bool :=
  let host := bare_host host in
  if eq_ignore_ascii_case host (lit "localhost") then true
  else
    match parse_ip host with
    | Some ip => is_loopback ip
    | None =>
        let '(first, rest) := default ([], []) (split_once 0x2E host) in
        bool_decide (first = lit "127") && (pieces 0x2E rest <=? 3)
    end.

(** ** The patterns *)

Definition digits_prefix (s : str) : nat := length (span is_ascii_digit s).1.

(** [^\d{5,}].
    Source: src/common-core/src/url.rs:16-18 (re_digits_5) *)
Definition re_digits_5 (s : str) : bool := 5 <=? digits_prefix s.

(** [(?i)^0x[0-9a-f]+$].
    Source: src/common-core/src/url.rs:20-22 (re_hex_host) *)
Definition re_hex_host (s : str) : bool :=
  match strip_prefix (lit "0x") (to_ascii_lowercase s) with
  | Some (_ :: _ as r) => forallb is_ascii_hexdigit r
  | _ => false
  end.

(** [^\d+$].
    Source: src/common-core/src/url.rs:28-30 (re_digits_only) *)
Definition re_digits_only (s : str) : bool := negb (bool_decide (s = [])) && forallb is_ascii_digit s.

(** One to three digits, then the rest. *)
Fixpoint re_dotted (n : nat) (s : str) : bool :=
  let '(ds, r) := span is_ascii_digit s in
  (1 <=? length ds) && (length ds <=? 3) &&
  match n with
  | O => bool_decide (r = [])
  | S n => match r with b :: r => (b =? 0x2E)%Z && re_dotted n r | [] => false end
  end.

(** [^\d{1,3}(\.\d{1,3}){3}$].
    Source: src/common-core/src/url.rs:24-26 (re_ipv4_host) *)
Definition re_ipv4_host (s : str) : bool := re_dotted 3 s.

(** [^172\.(1[6-9]|2[0-9]|3[0-1])\.]. *)
Definition re_172 (s : str) : bool :=
  match strip_prefix (lit "172.") s with
  | Some (x :: y :: z :: _) =>
      ((z =? 0x2E) && (((x =? 0x31) && between 0x36 0x39 y) || ((x =? 0x32) && between 0x30 0x39 y)
                       || ((x =? 0x33) && between 0x30 0x31 y)))%Z
  | _ => false
  end.

(** [^0[0-7]+\.]. *)
Definition re_octal (s : str) : bool :=
  match s with
  | 0x30%Z :: r =>
      let '(ds, rest) := span (between 0x30 0x37) r in
      (1 <=? length ds) && match rest with b :: _ => (b =? 0x2E)%Z | [] => false end
  | _ => false
  end.

(** [(?i)^0x[0-9a-f]+\.]. *)
Definition re_hex_label (s : str) : bool :=
  match strip_prefix (lit "0x") (to_ascii_lowercase s) with
  | Some r =>
      let '(ds, rest) := span is_ascii_hexdigit r in
      (1 <=? length ds) && match rest with b :: _ => (b =? 0x2E)%Z | [] => false end
  | None => false
  end.

Definition contains_ci (p s : str) : bool := contains p (to_ascii_lowercase s).
Definition ends_with_ci (p s : str) : bool := ends_with p (to_ascii_lowercase s).

(** The domains under which any address can be spelled. *)
Definition REBINDING_SUFFIXES : list (list Z) :=
  [lit ".nip.io"; lit ".xip.io"; lit ".sslip.io"; lit ".localtest.me"; lit ".loca.lt"; lit ".customer.your-server.de";
   lit ".dns.to"; lit ".traefik.me"].
Definition REBINDING_APEXES : list (list Z) :=
  [lit "nip.io"; lit "xip.io"; lit "sslip.io"; lit "localtest.me"; lit "loca.lt"].

(** Source: src/common-core/src/url.rs:37-75 (host_security_regex_set) *)
Definition host_security_regex_set (s : str) : bool :=
  contains_ci (lit "localhost") s || contains (lit "127.0.0.1") s || starts_with (lit "127.") s
  || contains_ci (lit "0x7f") s || starts_with (lit "169.254.") s || starts_with (lit "192.168.") s
  || starts_with (lit "10.") s || re_172 s || contains (lit "::1") s || contains_ci (lit "fc00:") s
  || contains_ci (lit "fe80:") s || bool_decide (s = lit "0.0.0.0") || bool_decide (s = lit "0")
  || re_octal s || re_hex_label s || re_digits_5 s
  || existsb (λ p, ends_with_ci p s) REBINDING_SUFFIXES
  || existsb (λ p, bool_decide (to_ascii_lowercase s = p)) REBINDING_APEXES.

(** ** Links in a text *)

(** The run of the class [^\s<>{}|\\^`\[\]]: the bytes before the first
    excluded character. *)
Definition excluded (s : str) : bool :=
  match s with
  | a :: b :: c :: _ => ws1 a || ws2 a b || ws3 a b c
  | [a; b] => ws1 a || ws2 a b
  | [a] => ws1 a
  | [] => false
  end || match s with a :: _ => bool_decide (a ∈ lit "<>{}|\^`[]") | [] => false end.

Fixpoint link_run (s : str) : str :=
  match s with
  | [] => []
  | b :: r => if excluded s then [] else b :: link_run r
  end.

(** A match of the pattern at the start of [s]. *)
Definition link_at (s : str) : option str :=
  let take_run p := r ← strip_prefix (lit p) s; match link_run r with [] => None | run => Some (lit p ++ run) end in
  match take_run "http://" with Some m => Some m | None => take_run "https://" end.

(** [find_iter]: the leftmost matches that do not overlap; [skip] bytes still
    belong to the last one. *)
Fixpoint find_links (skip : nat) (s : str) : list (list Z) :=
  match s with
  | [] => []
  | _ :: r =>
      match skip with
      | S skip => find_links skip r
      | O => match link_at s with Some m => m :: find_links (length m - 1) r | None => find_links 0 r end
      end
  end.

(** First occurrences of the links short enough, in order. *)
Fixpoint first_seen (seen : list (list Z)) (ms : list (list Z)) : list (list Z) :=
  match ms with
  | [] => []
  | m :: ms =>
      if (zlen m <=? MAX_URL_LENGTH)%Z && negb (bool_decide (m ∈ seen)) then m :: first_seen (m :: seen) ms
      else first_seen seen ms
  end.

(** Source: src/common-core/src/url.rs:77-88 (extract) *)
Definition extract (text : str) : list (list Z) := take MAX_EXTRACT_COUNT (first_seen [] (find_links 0 text)).

Section url.
Context `{UrlCrate}.

(** Source: src/common-core/src/url.rs:90-92 (is_valid) *)
Definition is_valid (url_str : str) : bool := bool_decide (is_Some (url_parse url_str)).

(** Source: src/common-core/src/url.rs:94-98 (domain) *)
Definition domain (url_str : str) : option str := (λ u, default [] (u_host u)) <$> url_parse url_str.

(** Embedded credentials. *)
Definition has_credentials (u : Url) : bool :=
  negb (bool_decide (u_username u = [])) || bool_decide (is_Some (u_password u)).

(** Source: src/common-core/src/url.rs:100-137 (is_valid_media_url) *)
Definition is_valid_media_url (url : str) : bool :=
  if (MAX_URL_LENGTH <? zlen url)%Z || bool_decide (url = []) then false
  else
    match url_parse url with
    | None => false
    | Some parsed =>
        let hostname := default [] (u_host parsed) in
        if negb (bool_decide (u_scheme parsed = lit "http") || bool_decide (u_scheme parsed = lit "https")) then false
        else if has_credentials parsed then false
        else if is_private_ip_str hostname || is_private_ipv6_str hostname then false
        else if host_security_regex_set hostname then false
        else if re_digits_5 hostname then false
        else if re_digits_only hostname then false
        else negb (re_hex_host hostname)
    end.

(** Source: src/common-core/src/url.rs:139-145 (sanitize_link_url) *)
Definition sanitize_link_url (url : str) : option str := if is_valid_media_url url then Some url else None.

(** Source: src/common-core/src/url.rs:150-152 (safe_href) *)
Definition safe_href (url : str) : option str := sanitize_link_url url.

(** Source: src/common-core/src/url.rs:302-340 (is_valid_relay_url) *)
Definition is_valid_relay_url (url : str) : bool * bool :=
  if bool_decide (url = []) || (MAX_URL_LENGTH <? zlen url)%Z then (false, false)
  else
    match url_parse url with
    | None => (false, false)
    | Some parsed =>
        if negb (bool_decide (u_scheme parsed = lit "ws") || bool_decide (u_scheme parsed = lit "wss")) then (false, false)
        else if has_credentials parsed then (false, false)
        else
          match u_host parsed with
          | None | Some [] => (false, false)
          | Some hostname =>
              if negb (contains (lit ".") hostname) then (false, false)
              else if re_ipv4_host hostname || contains (lit ":") hostname || re_hex_host hostname
                      || re_digits_only hostname then (false, false)
              else if host_security_regex_set hostname then (false, false)
              else (true, starts_with (lit "xn--") hostname || contains (lit ".xn--") hostname)
          end
    end.

(** Source: src/common-core/src/url.rs:345-350 (is_valid_event_relay_url) *)
Definition is_valid_event_relay_url (url : str) : bool :=
  if starts_with (lit "wss://") url then (is_valid_relay_url url).1 else false.
End url.
