(* ===== verification/UrlLaws.v ===== *)
(** The URL checks let no internal address through: the address predicates are
    equivalent to lists of networks, whatever the notation an IPv4 address is
    carried in; a valid media URL names no internal address and a valid relay
    URL names no address at all. *)

From S2P Require Import Prelude RustStr Text Url.

(** ** Networks *)

(** [x] lies in the network [base/len] of [w]-bit addresses. *)
Definition in_net (w : Z) (net : Z * Z) (x : Z) : Prop := Z.shiftr x (w - net.2) = Z.shiftr net.1 (w - net.2).

#[export] Instance in_net_dec w net x : Decision (in_net w net x).
Proof. unfold in_net. apply _. Defined.

Definition v4_bits (a b c d : Z) : Z := ((a * 256 + b) * 256 + c) * 256 + d.

(** "This network", private use (3), shared, loopback, link-local,
    benchmarking, multicast, reserved. *)
Definition internal_v4_nets : list (Z * Z) :=
  [(v4_bits 0 0 0 0, 8); (v4_bits 10 0 0 0, 8); (v4_bits 100 64 0 0, 10); (v4_bits 127 0 0 0, 8);
   (v4_bits 169 254 0 0, 16); (v4_bits 172 16 0 0, 12); (v4_bits 192 168 0 0, 16); (v4_bits 198 18 0 0, 15);
   (v4_bits 224 0 0 0, 4); (v4_bits 240 0 0 0, 4)]%Z.

Definition internal_v4 (x : Z) : Prop := Exists (λ net, in_net 32 net x) internal_v4_nets.

Lemma v4_bits_high a b c d n :
  is_byte c → is_byte d → (0 ≤ n ≤ 16)%Z → Z.shiftr (v4_bits a b c d) (32 - n) = Z.shiftr (a * 256 + b) (16 - n).
Proof.
  unfold is_byte, v4_bits. intros Hc Hd Hn. replace (32 - n)%Z with (16 + (16 - n))%Z by lia.
  rewrite <- Z.shiftr_shiftr by lia. f_equal. rewrite Z.shiftr_div_pow2 by lia. change (2 ^ 16)%Z with 65536%Z.
  symmetry. apply Z.div_unique with (c * 256 + d)%Z; [left; lia|lia].
Qed.

Definition byte_pairs : list (Z * Z) := a ← Z.of_nat <$> seq 0 256; b ← Z.of_nat <$> seq 0 256; [(a, b)].

Lemma byte_pairs_spec a b : is_byte a → is_byte b → (a, b) ∈ byte_pairs.
Proof.
  unfold is_byte, byte_pairs. intros Ha Hb.
  assert (Hin : ∀ z, (0 ≤ z < 256)%Z → z ∈ Z.of_nat <$> seq 0 256).
  { intros z Hz. apply list_elem_of_fmap. exists (Z.to_nat z). split; [lia|]. apply elem_of_seq. lia. }
  apply list_elem_of_bind. exists a. split; [|by apply Hin]. apply list_elem_of_bind. exists b. split; [|by apply Hin]. by left.
Qed.

Lemma private_v4_table :
  Forall (λ ab, is_private_ipv4 ab.1 ab.2 0 0
    = existsb (λ net, Z.shiftr (ab.1 * 256 + ab.2) (16 - net.2) =? Z.shiftr net.1 (32 - net.2))%Z internal_v4_nets) byte_pairs.
Proof.
  assert (Hb : forallb (λ ab, Bool.eqb (is_private_ipv4 ab.1 ab.2 0 0)
    (existsb (λ net, Z.shiftr (ab.1 * 256 + ab.2) (16 - net.2) =? Z.shiftr net.1 (32 - net.2))%Z internal_v4_nets)) byte_pairs = true)
    by (by vm_compute).
  apply Forall_forall. intros ab Hab. rewrite forallb_forall in Hb. apply list_elem_of_In in Hab. specialize (Hb ab Hab).
  by apply Bool.eqb_prop in Hb.
Qed.

(** The IPv4 predicate is membership in the networks. *)
Theorem private_ipv4_nets a b c d :
  is_byte a → is_byte b → is_byte c → is_byte d →
  is_private_ipv4 a b c d = true ↔ internal_v4 (v4_bits a b c d).
Proof.
  intros Ha Hb Hc Hd. change (is_private_ipv4 a b c d) with (is_private_ipv4 a b 0 0).
  pose proof private_v4_table as Ht. rewrite Forall_forall in Ht. specialize (Ht _ (byte_pairs_spec a b Ha Hb)).
  cbn [fst snd] in Ht. rewrite Ht. unfold internal_v4. rewrite existsb_exists, Exists_exists.
  assert (Hlen : ∀ net, net ∈ internal_v4_nets → (0 ≤ net.2 ≤ 16)%Z).
  { intros net Hn. unfold internal_v4_nets in Hn. repeat (apply elem_of_cons in Hn as [->|Hn]; [cbn; lia|]). by apply elem_of_nil in Hn. }
  split; intros (net & Hn & Hx); exists net.
  - apply list_elem_of_In in Hn. split; [done|]. unfold in_net. rewrite v4_bits_high by auto. by apply Z.eqb_eq.
  - split; [by apply list_elem_of_In|]. apply Z.eqb_eq. unfold in_net in Hx. by rewrite v4_bits_high in Hx by auto.
Qed.

(** ** IPv6 *)

Definition seg_bits (segs : list Z) : Z := foldl (λ acc s, acc * 65536 + s)%Z 0%Z segs.
Definition segment (s : Z) : Prop := (0 ≤ s < 65536)%Z.
Definition segments (segs : list Z) : Prop := length segs = 8 ∧ Forall segment segs.

Lemma seg_bits_snoc l s : seg_bits (l ++ [s]) = (seg_bits l * 65536 + s)%Z.
Proof. unfold seg_bits. by rewrite foldl_snoc. Qed.

Lemma seg_bits_prefix l r : Forall segment r → Z.shiftr (seg_bits (l ++ r)) (16 * zlen r) = seg_bits l.
Proof.
  induction r as [|s r IH] using rev_ind; intros Hr; [by rewrite app_nil_r, Z.mul_0_r|].
  apply Forall_app in Hr as [Hr Hs]. apply Forall_cons in Hs as [Hs _]. unfold segment in Hs.
  rewrite app_assoc, seg_bits_snoc, length_app. cbn [length].
  replace (16 * Z.of_nat (length r + 1))%Z with (16 + 16 * zlen r)%Z by lia. rewrite <- Z.shiftr_shiftr by lia.
  rewrite <- IH by done. f_equal. rewrite Z.shiftr_div_pow2 by lia. change (2 ^ 16)%Z with 65536%Z.
  symmetry. apply Z.div_unique with s; [left; lia|lia].
Qed.

Lemma seg_bits_inj l k : length l = length k → Forall segment l → Forall segment k → seg_bits l = seg_bits k → l = k.
Proof.
  revert k. induction l as [|s l IH] using rev_ind; intros k Hk Hl Hk' E; [by destruct k|].
  destruct k as [|t k _] using rev_ind; [rewrite length_app in Hk; simpl in Hk; lia|].
  rewrite !length_app in Hk. cbn [length] in Hk. rewrite !seg_bits_snoc in E.
  apply Forall_app in Hl as [Hl Hs], Hk' as [Hk' Ht]. apply Forall_cons in Hs as [Hs _], Ht as [Ht _]. unfold segment in *.
  assert (s = t) as -> by lia. f_equal. apply IH; [lia|done..|lia].
Qed.

(** Membership in a network whose length is a multiple of 16. *)
Lemma in_net_segs (n : nat) (len : Z) (base segs : list Z) :
  len = (16 * Z.of_nat n)%Z → segments segs → segments base → n ≤ 8 →
  in_net 128 (seg_bits base, len)%Z (seg_bits segs) ↔ take n segs = take n base.
Proof.
  intros -> [Ls Fs] [Lb Fb] Hn. unfold in_net. cbn [fst snd].
  assert (Hp : ∀ l, length l = 8 → Forall segment l → Z.shiftr (seg_bits l) (128 - 16 * Z.of_nat n) = seg_bits (take n l)).
  { intros l Ll Fl. rewrite <- (take_drop n l) at 1. replace (128 - 16 * Z.of_nat n)%Z with (16 * zlen (drop n l))%Z
      by (rewrite length_drop, Ll; lia). apply seg_bits_prefix. by apply Forall_drop. }
  rewrite !Hp by done. split; [|by intros ->]. apply seg_bits_inj; [rewrite !length_take; lia|by apply Forall_take..].
Qed.

(** Membership in a network of at most 16 bits. *)
Lemma in_net_first (n : Z) (segs : list Z) (s base : Z) :
  segments (s :: segs) → (0 ≤ n ≤ 16)%Z → segment base →
  in_net 128 (seg_bits [base; 0; 0; 0; 0; 0; 0; 0], n)%Z (seg_bits (s :: segs)) ↔ Z.shiftr s (16 - n) = Z.shiftr base (16 - n).
Proof.
  intros [Ls Fs] Hn Hb. apply Forall_cons in Fs as [_ Fs]. unfold in_net. cbn [fst snd].
  assert (Hp : ∀ x l, length (x :: l) = 8 → Forall segment l → Z.shiftr (seg_bits (x :: l)) (128 - n) = Z.shiftr x (16 - n)).
  { intros x l Hl Hf. change (x :: l) with ([x] ++ l). simpl in Hl. replace (128 - n)%Z with (16 * zlen l + (16 - n))%Z by lia.
    rewrite <- Z.shiftr_shiftr by lia. by rewrite seg_bits_prefix. }
  rewrite !Hp; [done|done| |done|done]. unfold segment in *. repeat constructor; lia.
Qed.

Definition v6 (s0 s1 s2 s3 s4 s5 s6 s7 : Z) : Z := seg_bits [s0; s1; s2; s3; s4; s5; s6; s7].

(** The unspecified address, loopback, multicast, link-local, unique local,
    Teredo. *)
Definition internal_v6_nets : list (Z * Z) :=
  [(v6 0 0 0 0 0 0 0 0, 128); (v6 0 0 0 0 0 0 0 1, 128); (v6 0xff00 0 0 0 0 0 0 0, 8); (v6 0xfe80 0 0 0 0 0 0 0, 10);
   (v6 0xfc00 0 0 0 0 0 0 0, 7); (v6 0x2001 0 0 0 0 0 0 0, 32)]%Z.

(** The networks that carry an IPv4 address, and how far it is shifted:
    mapped, translated, the two NAT64 prefixes, 6to4, compatible. *)
Definition v4_carriers : list ((Z * Z) * Z) :=
  [((v6 0 0 0 0 0 0xffff 0 0, 96), 0); ((v6 0 0 0 0 0xffff 0 0 0, 96), 0); ((v6 0x64 0xff9b 0 0 0 0 0 0, 96), 0);
   ((v6 0x64 0xff9b 1 0 0 0 0 0, 96), 0); ((v6 0x2002 0 0 0 0 0 0 0, 16), 80); ((v6 0 0 0 0 0 0 0 0, 96), 0)]%Z.

Definition internal_v6 (x : Z) : Prop :=
  Exists (λ net, in_net 128 net x) internal_v6_nets ∨
  Exists (λ c, in_net 128 c.1 x ∧ internal_v4 (Z.shiftr x c.2 mod 2 ^ 32)) v4_carriers.

(** The high bits of the first segment. *)
Lemma first_seg_table :
  Forall (λ hl, let s := (hl.1 * 256 + hl.2)%Z in
    ((Z.land s 0xff00 =? 0xff00) = (Z.shiftr s 8 =? 0xff) ∧ (Z.land s 0xffc0 =? 0xfe80) = (Z.shiftr s 6 =? 0x3fa)
    ∧ (Z.land s 0xfe00 =? 0xfc00) = (Z.shiftr s 9 =? 0x7e))%Z) byte_pairs.
Proof.
  assert (Hb : forallb (λ hl, let s := (hl.1 * 256 + hl.2)%Z in
    Bool.eqb (Z.land s 0xff00 =? 0xff00)%Z (Z.shiftr s 8 =? 0xff)%Z
    && Bool.eqb (Z.land s 0xffc0 =? 0xfe80)%Z (Z.shiftr s 6 =? 0x3fa)%Z
    && Bool.eqb (Z.land s 0xfe00 =? 0xfc00)%Z (Z.shiftr s 9 =? 0x7e)%Z) byte_pairs = true) by (by vm_compute).
  apply Forall_forall. intros s Hs. rewrite forallb_forall in Hb. apply list_elem_of_In in Hs. specialize (Hb s Hs). cbv zeta in *.
  repeat (apply andb_true_iff in Hb as [Hb ?]). repeat match goal with H : Bool.eqb _ _ = true |- _ => apply Bool.eqb_prop in H end. done.
Qed.

Lemma halves s : segment s → is_byte (s / 256) ∧ is_byte (s mod 256) ∧ (s = s / 256 * 256 + s mod 256)%Z ∧
  Z.land (Z.shiftr s 8) 0xff = (s / 256)%Z ∧ Z.land s 0xff = (s mod 256)%Z.
Proof.
  unfold segment, is_byte. intros Hs. pose proof (Z.div_mod s 256). pose proof (Z.mod_pos_bound s 256).
  assert (0 ≤ s / 256 < 256)%Z by (split; [apply Z.div_pos; lia|apply Z.div_lt_upper_bound; lia]).
  change 0xff%Z with (Z.ones 8). rewrite !Z.land_ones by lia. rewrite Z.shiftr_div_pow2 by lia. change (2 ^ 8)%Z with 256%Z.
  rewrite (Z.mod_small (s / 256)) by lia. split_and!; lia.
Qed.

Lemma first_seg s :
  segment s → ((Z.land s 0xff00 =? 0xff00) = (Z.shiftr s 8 =? 0xff) ∧ (Z.land s 0xffc0 =? 0xfe80) = (Z.shiftr s 6 =? 0x3fa)
    ∧ (Z.land s 0xfe00 =? 0xfc00) = (Z.shiftr s 9 =? 0x7e))%Z.
Proof.
  intros Hs. destruct (halves s Hs) as (Hh & Hl & E & _). pose proof first_seg_table as Ht. rewrite Forall_forall in Ht.
  specialize (Ht _ (byte_pairs_spec _ _ Hh Hl)). cbv zeta in Ht. cbn [fst snd] in Ht. by rewrite <- E in Ht.
Qed.

Lemma v4_private_spec hi lo : segment hi → segment lo → v4_private hi lo = true ↔ internal_v4 (hi * 65536 + lo).
Proof.
  intros Hh Hl. destruct (halves hi Hh) as (?&?&Eh&Eh1&Eh2), (halves lo Hl) as (?&?&El&El1&El2). unfold v4_private.
  rewrite Eh1, Eh2, El1, El2, private_ipv4_nets by done. unfold v4_bits.
  replace (((hi / 256 * 256 + hi mod 256) * 256 + lo / 256) * 256 + lo mod 256)%Z with (hi * 65536 + lo)%Z by lia. done.
Qed.

Lemma carried_low l a b : segment a → segment b → (Z.shiftr (seg_bits (l ++ [a; b])) 0 mod 2 ^ 32)%Z = (a * 65536 + b)%Z.
Proof.
  unfold segment. intros. rewrite Z.shiftr_0_r. change [a; b] with ([a] ++ [b]). rewrite app_assoc, !seg_bits_snoc.
  change (2 ^ 32)%Z with 4294967296%Z. symmetry. apply Z.mod_unique with (seg_bits l); [left; lia|lia].
Qed.

Lemma carried_high l a b r : length r = 5 → segment a → segment b → Forall segment r →
  (Z.shiftr (seg_bits ((l ++ [a; b]) ++ r)) 80 mod 2 ^ 32)%Z = (a * 65536 + b)%Z.
Proof.
  intros Hl Ha Hb Hr. replace 80%Z with (16 * zlen r)%Z by lia. rewrite seg_bits_prefix by done.
  rewrite <- (carried_low l a b Ha Hb). by rewrite Z.shiftr_0_r.
Qed.

Lemma segments8 a b c d e f g h :
  segment a → segment b → segment c → segment d → segment e → segment f → segment g → segment h →
  segments [a; b; c; d; e; f; g; h].
Proof. intros; split; [done|by repeat (apply Forall_cons_2; [done|])]. Qed.

Section eight.
Context (s0 s1 s2 s3 s4 s5 s6 s7 : Z).
Context (S0 : segment s0) (S1 : segment s1) (S2 : segment s2) (S3 : segment s3)
        (S4 : segment s4) (S5 : segment s5) (S6 : segment s6) (S7 : segment s7).
Abbreviation segs := [s0; s1; s2; s3; s4; s5; s6; s7].

Lemma internal_nets_spec :
  Exists (λ net, in_net 128 net (seg_bits segs)) internal_v6_nets ↔
  (s0 = 0 ∧ s1 = 0 ∧ s2 = 0 ∧ s3 = 0 ∧ s4 = 0 ∧ s5 = 0 ∧ s6 = 0 ∧ (s7 = 0 ∨ s7 = 1) ∨ Z.shiftr s0 8 = 0xff ∨ Z.shiftr s0 6 = 0x3fa
   ∨ Z.shiftr s0 9 = 0x7e ∨ (s0 = 0x2001 ∧ s1 = 0))%Z.
Proof.
  pose proof (segments8 s0 s1 s2 s3 s4 s5 s6 s7 S0 S1 S2 S3 S4 S5 S6 S7) as Hs.
  unfold internal_v6_nets. rewrite !Exists_cons, Exists_nil. unfold v6.
  rewrite !(in_net_segs 8 128), (in_net_segs 2 32) by (done || lia || (apply segments8; unfold segment; lia)).
  rewrite !in_net_first by (done || (unfold segment; lia)). cbn [take].
  change (Z.shiftr 65280 (16 - 8)) with 255%Z. change (Z.shiftr 65152 (16 - 10)) with 1018%Z. change (Z.shiftr 64512 (16 - 7)) with 126%Z.
  change (16 - 8)%Z with 8%Z. change (16 - 10)%Z with 6%Z. change (16 - 7)%Z with 9%Z. naive_solver.
Qed.

Lemma carriers_spec :
  Exists (λ c, in_net 128 c.1 (seg_bits segs) ∧ internal_v4 (Z.shiftr (seg_bits segs) c.2 mod 2 ^ 32)) v4_carriers ↔
  ((s0 = 0 ∧ s1 = 0 ∧ s2 = 0 ∧ s3 = 0 ∧ s4 = 0 ∧ s5 = 0xffff) ∧ v4_private s6 s7 = true ∨
   (s0 = 0 ∧ s1 = 0 ∧ s2 = 0 ∧ s3 = 0 ∧ s4 = 0xffff ∧ s5 = 0) ∧ v4_private s6 s7 = true ∨
   (s0 = 0x64 ∧ s1 = 0xff9b ∧ (s2 = 0 ∨ s2 = 1) ∧ s3 = 0 ∧ s4 = 0 ∧ s5 = 0) ∧ v4_private s6 s7 = true ∨
   s0 = 0x2002 ∧ v4_private s1 s2 = true ∨
   (s0 = 0 ∧ s1 = 0 ∧ s2 = 0 ∧ s3 = 0 ∧ s4 = 0 ∧ s5 = 0) ∧ v4_private s6 s7 = true)%Z.
Proof.
  pose proof (segments8 s0 s1 s2 s3 s4 s5 s6 s7 S0 S1 S2 S3 S4 S5 S6 S7) as Hs.
  unfold v4_carriers. rewrite !Exists_cons, Exists_nil. unfold v6. cbn [fst snd].
  rewrite !(in_net_segs 6 96), (in_net_segs 1 16) by (done || lia || (apply segments8; unfold segment; lia)).
  pose proof (carried_low [s0; s1; s2; s3; s4; s5] s6 s7 S6 S7) as E0. cbn [app] in E0. rewrite E0.
  pose proof (carried_high [s0] s1 s2 [s3; s4; s5; s6; s7] eq_refl S1 S2) as E1. cbn [app] in E1.
  rewrite E1 by (by repeat (apply Forall_cons_2; [done|])). rewrite <- !v4_private_spec by done. cbn [take]. naive_solver.
Qed.

Lemma mapped_private :
  is_private_ipv4 (s6 / 256) (s6 mod 256) (s7 / 256) (s7 mod 256) = v4_private s6 s7.
Proof.
  destruct (halves s6 S6) as (_&_&_&E1&E2), (halves s7 S7) as (_&_&_&E3&E4). unfold v4_private. by rewrite E1, E2, E3, E4.
Qed.

Lemma match_mapped (t : bool) a b c d k :
  match (if t then Some (a, b, c, d) else None) with Some (a, b, c, d) => is_private_ipv4 a b c d | None => k end
  = if t then is_private_ipv4 a b c d else k.
Proof. by destruct t. Qed.

Lemma private_ipv6_eight : is_private_ipv6 segs = true ↔ internal_v6 (seg_bits segs).
Proof.
  unfold internal_v6. rewrite internal_nets_spec, carriers_spec. destruct (first_seg s0 S0) as (E1 & E2 & E3).
  unfold is_private_ipv6, to_ipv4_mapped, zero_segs. cbn [seg nth seq forallb]. rewrite E1, E2, E3, match_mapped, mapped_private. clear E1 E2 E3. split.
  - repeat (match goal with |- context [if ?b then _ else _] => let T := fresh "T" in destruct b eqn:T end);
      repeat match goal with T : _ = false |- _ => clear T end; rewrite ?andb_true_iff, ?orb_true_iff, ?Z.eqb_eq in *; intuition lia.
  - intros [Hn|Hc].
    + destruct Hn as [(-> & -> & -> & -> & -> & -> & -> & [->| ->])|[->|[->|[->|[-> ->]]]]]; try done.
      * by rewrite Z.eqb_refl, !orb_true_r.
      * rewrite Z.eqb_refl. by repeat (match goal with |- context [if ?b then _ else _] => destruct b end).
      * rewrite Z.eqb_refl. by repeat (match goal with |- context [if ?b then _ else _] => destruct b end).
    + destruct Hc as [[(-> & -> & -> & -> & -> & ->) Hv]|[[(-> & -> & -> & -> & -> & ->) Hv]|[[(-> & -> & [->| ->] & -> & -> & ->) Hv]|[[-> Hv]|[(-> & -> & -> & -> & -> & ->) Hv]]]]];
        rewrite Hv; try done; cbn; by repeat (match goal with |- context [if ?b then _ else _] => destruct b end).
Qed.
End eight.

(** The IPv6 predicate: an internal network, or a carried internal IPv4
    address. *)
Theorem private_ipv6_nets segs :
  segments segs → is_private_ipv6 segs = true ↔ internal_v6 (seg_bits segs).
Proof.
  intros [Hl Hf]. destruct segs as [|s0 [|s1 [|s2 [|s3 [|s4 [|s5 [|s6 [|s7 [|? ?]]]]]]]]]; try discriminate Hl.
  repeat (apply Forall_cons in Hf as [? Hf]). by apply private_ipv6_eight.
Qed.

(** ** What the parsers return *)

Lemma digit_of_nonneg radix b d : (0 ≤ radix)%Z → digit_of radix b = Some d → (0 ≤ d)%Z.
Proof.
  unfold digit_of. intros Hr. case_match; [|done]. intros [= <-].
  repeat match goal with |- context [if between ?l ?h ?b then _ else _] => destruct (between l h b) eqn:? end;
    rewrite ?between_iff in *; lia.
Qed.

Lemma digit_of_10 b : is_Some (digit_of 10 b) ↔ is_ascii_digit b = true.
Proof.
  unfold digit_of, is_ascii_digit. destruct (between 48 57 b) eqn:E; cbv iota.
  - rewrite between_iff in E. rewrite (proj2 (Z.ltb_lt _ _)) by lia. naive_solver.
  - split; [|done]. intros [d Hd]. exfalso. revert Hd.
    repeat match goal with |- context [if between ?l ?h ?b then _ else _] => destruct (between l h b) eqn:? end;
      rewrite ?between_iff in *; case_match eqn:Hl; try done; rewrite Z.ltb_lt in Hl; lia.
Qed.

Lemma read_number_range radix m z max s n r :
  (0 ≤ radix)%Z → read_number radix m z max s = Some (n, r) → (0 ≤ n ≤ max)%Z.
Proof.
  unfold read_number. intros Hr. destruct (span _ s) as [ds rest].
  set (v := foldl _ 0%Z ds). assert (Hv : (0 ≤ v)%Z).
  { unfold v. assert (Hg : ∀ l acc, (0 ≤ acc)%Z → (0 ≤ foldl (λ acc b, acc * radix + default 0 (digit_of radix b)) acc l)%Z).
    { induction l as [|b l IH]; intros acc Ha; [done|]. cbn [foldl]. apply IH.
      pose proof (Z.mul_nonneg_nonneg acc radix Ha Hr).
      destruct (digit_of radix b) as [d|] eqn:E; simpl; [apply digit_of_nonneg in E; [|done]|]; lia. }
    by apply Hg. }
  destruct (_ || _) eqn:E; [done|]. intros [= <- <-]. apply orb_false_iff in E as [_ E]. apply Z.ltb_ge in E. lia.
Qed.

Lemma read_number_digits m z max s n r :
  read_number 10 m z max s = Some (n, r) →
  ∃ ds, span is_ascii_digit s = (ds, r) ∧ 1 ≤ length ds ≤ m.
Proof.
  unfold read_number. assert (Hs : span (λ b, bool_decide (is_Some (digit_of 10 b))) s = span is_ascii_digit s).
  { clear. induction s as [|b s IH]; [done|]. cbn [span]. rewrite IH. destruct (is_ascii_digit b) eqn:E.
    - rewrite bool_decide_eq_true_2; [done|]. by apply digit_of_10.
    - rewrite bool_decide_eq_false_2; [done|]. rewrite digit_of_10. by rewrite E. }
  rewrite Hs. destruct (span is_ascii_digit s) as [ds rest]. destruct (_ || _) eqn:E; [done|]. intros [= _ <-].
  exists ds. split; [done|]. rewrite !orb_false_iff in E. destruct E as [[[E1 E2] _] _].
  apply Nat.eqb_neq in E1. apply Nat.ltb_ge in E2. lia.
Qed.

Lemma read_ipv4_bytes s a b c d r : read_ipv4 s = Some ((a, b, c, d), r) → is_byte a ∧ is_byte b ∧ is_byte c ∧ is_byte d.
Proof.
  unfold read_ipv4, is_byte. intros Hr.
  repeat (apply bind_Some in Hr as ([? ?] & ? & Hr) || apply bind_Some in Hr as (? & ? & Hr)). injection Hr as <- <- <- <- <-.
  repeat match goal with H : read_number _ _ _ _ _ = Some _ |- _ => apply read_number_range in H; [|lia] end. lia.
Qed.

Lemma read_groups_segments n i s gs v4 r : read_groups n i s = (gs, v4, r) → length gs ≤ n ∧ Forall segment gs.
Proof.
  revert i s gs v4 r. induction n as [|n IH]; intros i s gs v4 r; cbn [read_groups]; [intros [= <- _ _]; by split|].
  destruct (if n =? 0 then None else read_separator 58 i s ≫= read_ipv4) as [[[[[a b] c] d] r4]|] eqn:E4.
  - intros [= <- _ _]. destruct n as [|n]; [done|]. cbn [Nat.eqb] in E4. apply bind_Some in E4 as (s' & _ & E4).
    apply read_ipv4_bytes in E4 as (?&?&?&?). unfold is_byte, segment in *. split; [cbn; lia|].
    repeat (apply Forall_cons_2; [lia|]). done.
  - destruct (read_separator 58 i s ≫= read_number 16 4 true 65535) as [[g s']|] eqn:Eg; [|intros [= <- _ _]; split; [cbn; lia|done]].
    apply bind_Some in Eg as (s1 & _ & Eg). apply read_number_range in Eg; [|lia].
    destruct (read_groups n (S i) s') as [[gs' v4'] r'] eqn:Er. intros [= <- _ _]. apply IH in Er as [Hl Hf].
    split; [cbn; lia|]. apply Forall_cons_2; [unfold segment; lia|done].
Qed.

Lemma parse_ipv6_segments s segs : parse_ipv6 s = Some segs → segments segs.
Proof.
  unfold parse_ipv6, read_ipv6. destruct (read_groups 8 0 s) as [[front has_v4] r] eqn:E1. apply read_groups_segments in E1 as [L1 F1].
  destruct (Nat.eqb_spec (length front) 8) as [H8|H8]; [case_match; [|done]; intros [= <-]; by split|].
  destruct has_v4; [done|]. destruct (strip_prefix _ r) as [r'|]; [|done]. cbn [mbind option_bind].
  destruct (read_groups _ 0 r') as [[back v4'] r''] eqn:E2. apply read_groups_segments in E2 as [L2 F2].
  case_match; [|done]. intros [= <-]. split.
  - rewrite !length_app, length_replicate. lia.
  - apply Forall_app. split; [done|]. apply Forall_app. split; [|done]. apply Forall_replicate. unfold segment. lia.
Qed.

Lemma parse_ip_v6 s segs : parse_ip s = Some (V6 segs) → parse_ipv6 s = Some segs.
Proof.
  unfold parse_ip. destruct (read_ipv4 s) as [[[[[a b] c] d] [|? ?]]|]; [done|done|].
  destruct (parse_ipv6 s); [|done]. by intros [= ->].
Qed.

Lemma parse_ip_v4 s a b c d : parse_ip s = Some (V4 a b c d) → read_ipv4 s = Some ((a, b, c, d), []).
Proof.
  unfold parse_ip. destruct (read_ipv4 s) as [[[[[a' b'] c'] d'] [|? ?]]|]; [by intros [= -> -> -> ->]|done|].
  by destruct (parse_ipv6 s).
Qed.

Lemma separator_head c i s r : read_separator c (S i) s = Some r → s = c :: r.
Proof. unfold read_separator. destruct s as [|b s]; [done|]. cbn [Nat.eqb]. destruct (Z.eqb_spec b c); [|done]. by intros [= <-]; subst. Qed.

(** A dotted address matches the pattern of [re_ipv4_host]. *)
Lemma dotted_matches s a b c d : read_ipv4 s = Some ((a, b, c, d), []) → re_ipv4_host s = true.
Proof.
  unfold read_ipv4, re_ipv4_host. intros Hr.
  repeat (apply bind_Some in Hr as ([? ?] & ? & Hr) || apply bind_Some in Hr as (? & ? & Hr)). injection Hr as <- <- <- <- ->.
  repeat match goal with
  | H : read_number 10 _ _ _ _ = Some _ |- _ => apply read_number_digits in H as (? & ? & ?)
  | H : read_separator _ _ _ = Some _ |- _ => apply separator_head in H; subst
  end.
  assert (Hl : ∀ ds : list Z, 1 ≤ length ds ≤ 3 → (1 <=? length ds) && (length ds <=? 3) = true).
  { intros ds [??]. by rewrite (proj2 (Nat.leb_le _ _)), (proj2 (Nat.leb_le _ 3)). }
  cbn [re_dotted]. do 4 (match goal with H : span is_ascii_digit _ = _ |- _ => rewrite H; clear H end;
    rewrite Hl by done; cbn [andb Z.eqb Pos.eqb]).
  by apply bool_decide_eq_true.
Qed.

Lemma contains_cons c b s : contains [c] (b :: s) = (b =? c)%Z || contains [c] s.
Proof. cbn [contains strip_prefix]. rewrite (Z.eqb_sym c b). destruct (b =? c)%Z; [by destruct s|done]. Qed.

Lemma contains_suffix c l r : contains [c] (l ++ r) = false → contains [c] r = false.
Proof. induction l as [|b l IH]; [done|]. cbn [app]. rewrite contains_cons. intros [_ ?]%orb_false_iff. by apply IH. Qed.

Lemma span_app p s l r : span p s = (l, r) → s = l ++ r.
Proof.
  revert l r. induction s as [|b s IH]; intros l r; cbn [span]; [by intros [= <- <-]|].
  destruct (p b); [|by intros [= <- <-]]. destruct (span p s) as [l' r']. intros [= <- <-]. cbn [app]. f_equal. by apply IH.
Qed.

Lemma read_number_suffix radix m z max s n r : read_number radix m z max s = Some (n, r) → ∃ l, s = l ++ r.
Proof. unfold read_number. destruct (span _ s) as [ds rest] eqn:E. case_match; [done|]. intros [= _ <-]. exists ds. by eapply span_app. Qed.

Lemma read_ipv4_suffix s v r : read_ipv4 s = Some (v, r) → ∃ l, s = l ++ r.
Proof.
  unfold read_ipv4. intros Hr.
  repeat (apply bind_Some in Hr as ([? ?] & ? & Hr) || apply bind_Some in Hr as (? & ? & Hr)). injection Hr as _ <-.
  repeat match goal with
  | H : read_number 10 _ _ _ _ = Some _ |- _ => apply read_number_suffix in H as [? ->]
  | H : read_separator _ _ _ = Some _ |- _ => apply separator_head in H; subst
  end.
  eexists. rewrite !app_comm_cons, !app_assoc. reflexivity.
Qed.

Lemma read_groups_no_colon n i s : contains [0x3A%Z] s = false → read_groups n (S i) s = ([], false, s).
Proof.
  intros Hc. destruct n as [|n]; [done|]. cbn [read_groups].
  assert (read_separator 0x3A (S i) s = None) as ->.
  { destruct s as [|b s]; [done|]. rewrite contains_cons in Hc. apply orb_false_iff in Hc as [Hb _]. unfold read_separator. cbn [Nat.eqb]. by rewrite Hb. }
  by destruct (n =? 0).
Qed.

Lemma read_groups_first n s front has_v4 r :
  contains [0x3A%Z] s = false → read_groups (S n) 0 s = (front, has_v4, r) → length front ≤ 2 ∧ contains [0x3A%Z] r = false.
Proof.
  intros Hc E. cbn [read_groups] in E. cbv zeta in E. unfold read_separator in E. cbn [Nat.eqb mbind option_bind] in E.
  destruct (if n =? 0 then None else read_ipv4 s) as [[[[[a b] c] d] r4]|] eqn:E4.
  - injection E as <- _ <-. destruct (n =? 0); [done|]. apply read_ipv4_suffix in E4 as [l ->]. split; [done|]. by eapply contains_suffix.
  - destruct (read_number 16 4 true 65535 s) as [[g r']|] eqn:Eg; [|by injection E as <- _ <-; split; [cbn; lia|]].
    apply read_number_suffix in Eg as [l ->]. apply contains_suffix in Hc. rewrite (read_groups_no_colon n 0 r' Hc) in E.
    injection E as <- _ <-. split; [cbn; lia|done].
Qed.

(** An IPv6 address has a colon. *)
Lemma ipv6_colon s segs : parse_ipv6 s = Some segs → contains [0x3A%Z] s = true.
Proof.
  intros Hp. destruct (contains [0x3A%Z] s) eqn:Hc; [done|]. exfalso. revert Hp. unfold parse_ipv6, read_ipv6.
  destruct (read_groups 8 0 s) as [[front has_v4] r] eqn:E. apply read_groups_first in E as [Hl Hr]; [|done].
  rewrite (proj2 (Nat.eqb_neq _ _)) by lia. destruct has_v4; [done|].
  destruct r as [|b r]; [done|]. rewrite contains_cons in Hr. apply orb_false_iff in Hr as [Hb _]. apply Z.eqb_neq in Hb.
  change (lit "::") with [0x3A; 0x3A]%Z. cbn [strip_prefix]. rewrite (proj2 (Z.eqb_neq _ _)) by congruence. done.
Qed.

(** ** What a valid URL names *)

Definition internal (ip : IpAddr) : Prop :=
  match ip with V4 a b c d => internal_v4 (v4_bits a b c d) | V6 segs => internal_v6 (seg_bits segs) end.

Section url.
Context `{UrlCrate}.

(** C25: a media URL that is let through is http or https, carries no
    credentials, and when its host is an address, in any notation, neither
    that address nor an IPv4 address it carries is internal. *)
Theorem media_url_public url :
  is_valid_media_url url = true →
  ∃ u, url_parse url = Some u ∧ (u_scheme u = lit "http" ∨ u_scheme u = lit "https") ∧
    u_username u = [] ∧ u_password u = None ∧
    ∀ ip, parse_ip (bare_host (default [] (u_host u))) = Some ip → ¬ internal ip.
Proof.
  unfold is_valid_media_url. destruct (_ || _); [done|]. destruct (url_parse url) as [u|]; [|done].
  destruct (negb _) eqn:Hs; [done|]. destruct (has_credentials u) eqn:Hc; [done|].
  destruct (is_private_ip_str _ || _) eqn:Hp; [done|]. intros _. exists u. split; [done|].
  apply negb_false_iff, orb_true_iff in Hs. rewrite !bool_decide_eq_true in Hs.
  unfold has_credentials in Hc. apply orb_false_iff in Hc as [Hc1 Hc2]. apply negb_false_iff, bool_decide_eq_true in Hc1.
  apply bool_decide_eq_false, eq_None_not_Some in Hc2. split_and!; [done..|]. intros ip Hip Hint.
  unfold is_private_ip_str, is_private_ipv6_str in Hp. rewrite Hip in Hp. apply orb_false_iff in Hp as [Hp1 Hp2]. destruct ip as [a b c d|segs].
  - apply parse_ip_v4, read_ipv4_bytes in Hip as (?&?&?&?). apply private_ipv4_nets in Hint; [|done..]. simpl in Hp1. congruence.
  - apply parse_ip_v6 in Hip. rewrite Hip in Hp2. apply parse_ipv6_segments in Hip. apply private_ipv6_nets in Hint; [|done]. congruence.
Qed.

(** A relay URL that is let through is ws or wss, carries no credentials, and
    its host is a name: no address, and no rebinding domain by suffix. *)
Theorem relay_url_named url :
  (is_valid_relay_url url).1 = true →
  ∃ u host, url_parse url = Some u ∧ u_host u = Some host ∧ (u_scheme u = lit "ws" ∨ u_scheme u = lit "wss") ∧
    u_username u = [] ∧ u_password u = None ∧ parse_ip host = None ∧
    Forall (λ p, ends_with p (to_ascii_lowercase host) = false) REBINDING_SUFFIXES.
Proof.
  unfold is_valid_relay_url. destruct (_ || _); [done|]. destruct (url_parse url) as [u|]; [|done].
  destruct (negb _) eqn:Hs; [done|]. destruct (has_credentials u) eqn:Hc; [done|]. destruct (u_host u) as [[|b h]|] eqn:Hh; [done| |done].
  set (host := b :: h) in *. destruct (negb (contains _ _)); [done|]. destruct (_ || _ || _ || _) eqn:Ha; [done|]. destruct (host_security_regex_set host) eqn:Hr; [done|].
  intros _. exists u, host. split; [done|]. split; [done|].
  apply negb_false_iff, orb_true_iff in Hs. rewrite !bool_decide_eq_true in Hs.
  unfold has_credentials in Hc. apply orb_false_iff in Hc as [Hc1 Hc2]. apply negb_false_iff, bool_decide_eq_true in Hc1.
  apply bool_decide_eq_false, eq_None_not_Some in Hc2. rewrite !orb_false_iff in Ha. destruct Ha as [[[Hd Hcol] _] _]. split_and!; try done.
  - destruct (parse_ip host) as [[a b' c d|segs]|] eqn:Hip; [| |done]; exfalso.
    + apply parse_ip_v4, dotted_matches in Hip. congruence.
    + apply parse_ip_v6, ipv6_colon in Hip. change (lit ":") with [0x3A%Z] in Hcol. congruence.
  - unfold host_security_regex_set in Hr. apply orb_false_iff in Hr as [Hr _]. apply orb_false_iff in Hr as [_ Hr].
    apply Forall_forall. intros p Hp. unfold ends_with_ci in Hr. destruct (ends_with p _) eqn:He; [|done]. exfalso.
    enough (existsb (λ p, ends_with p (to_ascii_lowercase host)) REBINDING_SUFFIXES = true) by congruence.
    apply existsb_exists. exists p. split; [by apply list_elem_of_In|done].
Qed.
End url.

(** ** A parser of plain URLs *)

Module UrlExamples.

(** scheme://host/path, without credentials or ports. *)
#[export] Instance plain_urls : UrlCrate := {
  url_parse s :=
    '(scheme, rest) ← split_once 0x3A s;
    rest ← strip_prefix (lit "//") rest;
    Some (mk_url scheme [] None (Some (span (λ b, negb (b =? 0x2F)%Z) rest).1))
}.

Lemma media_url_public_witness :
  is_valid_media_url (lit "https://[2001:db8::7]/a.png") = true ∧
  ∃ u, url_parse (lit "https://[2001:db8::7]/a.png") = Some u ∧ (u_scheme u = lit "http" ∨ u_scheme u = lit "https") ∧
    u_username u = [] ∧ u_password u = None ∧
    ∀ ip, parse_ip (bare_host (default [] (u_host u))) = Some ip → ¬ internal ip.
Proof. split; [by vm_compute|]. apply (media_url_public (lit "https://[2001:db8::7]/a.png")). by vm_compute. Defined.

Example mapped_refused : is_valid_media_url (lit "http://[::ffff:10.0.0.7]/") = false.
Proof. by vm_compute. Qed.

(** The root label gets around the rebinding domains. *)
Example trailing_dot :
  is_valid_media_url (lit "http://app-0a000001.nip.io/") = false ∧ is_valid_media_url (lit "http://app-0a000001.nip.io./") = true ∧
  (is_valid_relay_url (lit "wss://app-0a000001.nip.io./")).1 = true.
Proof. by vm_compute. Qed.

(** A public resolver is refused for the text of its address. *)
Example public_refused : is_valid_media_url (lit "https://[2606:4700:4700::1111]/") = false ∧
  parse_ip (lit "2606:4700:4700::1111") = Some (V6 [0x2606; 0x4700; 0x4700; 0; 0; 0; 0; 0x1111]%Z) ∧
  is_private_ip_str (lit "[2606:4700:4700::1111]") = false.
Proof. by vm_compute. Qed.

Example links : extract (lit "see https://a.b/c, https://a.b/c and http://x<y http://") =
  [lit "https://a.b/c,"; lit "https://a.b/c"; lit "http://x"].
Proof. by vm_compute. Qed.
End UrlExamples.
