(* ===== verification/Content.v ===== *)
(** Text helpers of src/content-core: the hashtags of a post (hashtag.rs) and
    the cleaning of notification texts (sanitize.rs). The regex crate's word
    class beyond ASCII and the HTML sanitiser are interfaces. *)

From S2P Require Import Prelude RustStr Text.

(** ** Characters *)

(** The characters of a string: a byte with the continuation bytes that
    follow it. *)
Fixpoint chars (s : str) : list (list Z) :=
  match s with
  | [] => []
  | b :: s =>
      match chars s with
      | ((x :: _) as c) :: cs => if cont x then (b :: c) :: cs else [b] :: c :: cs
      | cs => [b] :: cs
      end
  end.

Lemma chars_concat s : concat (chars s) = s.
Proof.
  induction s as [|b s IH]; [done|]. cbn [chars]. destruct (chars s) as [|[|x c] cs] eqn:E; simpl in *; try congruence.
  destruct (cont x); simpl; congruence.
Qed.

Lemma chars_nonempty s : Forall (λ c, c ≠ []) (chars s).
Proof.
  induction s as [|b s IH]; [done|]. cbn [chars]. destruct (chars s) as [|[|x c] cs]; [by constructor| |].
  - apply Forall_cons in IH as [? _]. done.
  - destruct (cont x); [|by constructor]. apply Forall_cons in IH as [_ ?]. by constructor.
Qed.

(** ASCII characters are single bytes. *)
Lemma chars_ascii s : Forall (λ b, (0 ≤ b < 128)%Z) s → chars s = (λ b, [b]) <$> s.
Proof.
  induction 1 as [|b s Hb Hs IH]; [done|]. cbn [chars]. rewrite IH. destruct s as [|x s]; [done|]. cbn [fmap list_fmap].
  apply Forall_cons in Hs as [Hx _]. assert (cont x = false) as ->; [|done]. unfold cont, between. apply andb_false_iff. left. apply Z.leb_gt. lia.
Qed.

(** [str::split_whitespace]. *)
Fixpoint words_of (word : str) (cs : list (list Z)) : list (list Z) :=
  match cs with
  | [] => if bool_decide (word = []) then [] else [word]
  | c :: cs =>
      if ws_char c then if bool_decide (word = []) then words_of [] cs else word :: words_of [] cs
      else words_of (word ++ c) cs
  end.
Definition split_whitespace (s : str) : list (list Z) := words_of [] (chars s).

(** [str::floor_char_boundary]: the largest boundary not above [n]. *)
Fixpoint floor_boundary (s : str) (n : nat) : nat :=
  match n with
  | O => O
  | S n' => if is_char_boundary s n then n else floor_boundary s n'
  end.

Lemma floor_boundary_le s n : floor_boundary s n ≤ n.
Proof. induction n as [|n IH]; cbn [floor_boundary]; [done|]. case_match; lia. Qed.

Lemma floor_boundary_is s n : is_char_boundary s (floor_boundary s n) = true.
Proof. induction n as [|n IH]; cbn [floor_boundary]; [done|]. by destruct (is_char_boundary s (S n)) eqn:E. Qed.

(** At most [n] bytes of a string, cut at a boundary.
    Source: src/common-core/src/ui_safe.rs:74-86 (truncate_str) *)
Definition truncate_str (s : str) (n : nat) : str := if length s <=? n then s else take (floor_boundary s n) s.

Lemma truncate_str_length s n : length (truncate_str s n) ≤ n.
Proof.
  unfold truncate_str. destruct (Nat.leb_spec (length s) n); [done|]. rewrite length_take.
  pose proof (floor_boundary_le s n). lia.
Qed.

(** At most [max_len] characters, the last one kept replaced by an ellipsis
    when the text is longer.
    Source: src/common-core/src/format.rs:20-46 (truncate) *)
Definition truncate (s : str) (max_len : nat) : str :=
  match max_len with
  | O => []
  | S n => if length (chars s) <=? max_len then s else concat (take n (chars s)) ++ [0xE2; 0x80; 0xA6]%Z
  end.

(** What the cleaning and the patterns take from other crates. *)
Class ContentCrates := {
  (** ammonia: every tag removed, the text escaped *)
  ammonia_text : str → str;
  (** regex: the word class outside ASCII *)
  unicode_word : str → bool
}.

Section content.
Context `{ContentCrates}.

(** ** Hashtags *)

(** Source: src/content-core/src/hashtag.rs:10-13 (Segment) *)
Record Segment := mk_segment { seg_text : list Z; is_hashtag : bool }.

(** [\w]. *)
Definition word_char (c : str) : bool :=
  match c with
  | [b] => is_ascii_digit b || between 0x41 0x5A b || between 0x61 0x7A b || (b =? 0x5F)%Z
  | _ => unicode_word c
  end.

Definition MAX_HASHTAG_CHARS : nat := 50.

(** At most [n] word characters. *)
Fixpoint word_run (n : nat) (cs : list (list Z)) : list (list Z) :=
  match n, cs with
  | S n, c :: cs => if word_char c then c :: word_run n cs else []
  | _, _ => []
  end.

(** A match of [#(\w{1,50})] at the start: its word.
    Source: src/content-core/src/hashtag.rs:4-7 (hashtag_re) *)
Definition tag_at (cs : list (list Z)) : option (list (list Z)) :=
  match cs with
  | [0x23%Z] :: cs => match word_run MAX_HASHTAG_CHARS cs with [] => None | run => Some run end
  | _ => None
  end.

Definition text_segment (acc : str) : list Segment := if bool_decide (acc = []) then [] else [mk_segment acc false].

(** The matches and the texts between them; [skip] characters still belong to
    the last match.
    Source: src/content-core/src/hashtag.rs:24-47 (split, loop) *)
Fixpoint segments (skip : nat) (acc : str) (cs : list (list Z)) : list Segment :=
  match cs with
  | [] => text_segment acc
  | c :: r =>
      match skip with
      | S skip => segments skip acc r
      | O =>
          match tag_at cs with
          | Some run => text_segment acc ++ mk_segment (c ++ concat run) true :: segments (length run) [] r
          | None => segments 0 (acc ++ c) r
          end
      end
  end.

(** Source: src/content-core/src/hashtag.rs:15-49 (split) *)
Definition split (text : str) : list Segment :=
  if bool_decide (text = []) then []
  else if bool_decide (0x23%Z ∉ text) then [mk_segment text false]
  else segments 0 [] (chars text).

Fixpoint tags (skip : nat) (cs : list (list Z)) : list (list Z) :=
  match cs with
  | [] => []
  | _ :: r =>
      match skip with
      | S skip => tags skip r
      | O => match tag_at cs with Some run => concat run :: tags (length run) r | None => tags 0 r end
      end
  end.

(** Source: src/content-core/src/hashtag.rs:51-64 (extract) *)
Definition extract (text : str) : list (list Z) :=
  if bool_decide (text = []) || bool_decide (0x23%Z ∉ text) then [] else tags 0 (chars text).

(** ** Notification texts *)

(** The words after the first, while there is room.
    Source: src/content-core/src/sanitize.rs:85-91 (sanitize_notif_content, words) *)
Fixpoint join_words (max_len : nat) (out : str) (words : list (list Z)) : str :=
  match words with
  | [] => out
  | w :: words => if max_len <=? length out then out else join_words max_len (out ++ [0x20%Z] ++ w) words
  end.

(** Source: src/content-core/src/sanitize.rs:64-97 (sanitize_notif_content) *)
Definition sanitize_notif_content (raw : str) (max_len : nat) : str :=
  if (max_len =? 0) || bool_decide (raw = []) then []
  else
    let no_tags := if bool_decide (0x3C%Z ∈ raw) then ammonia_text raw else raw in
    match split_whitespace no_tags with
    | [] => []
    | first :: words => truncate_str (join_words max_len first words) max_len
    end.

(** ** Properties *)

Lemma word_run_prefix n cs : ∃ r, cs = word_run n cs ++ r.
Proof.
  revert cs. induction n as [|n IH]; intros [|c cs]; cbn [word_run]; try by eexists.
  destruct (word_char c); [|by eexists]. destruct (IH cs) as [r Hr]. exists r. simpl. by rewrite <- Hr.
Qed.

Lemma word_run_length n cs : length (word_run n cs) ≤ n.
Proof. revert cs. induction n as [|n IH]; intros [|c cs]; cbn [word_run]; simpl; try lia. case_match; simpl; [|lia]. specialize (IH cs). lia. Qed.

Lemma tag_at_spec cs run : tag_at cs = Some run →
  ∃ r, cs = [0x23%Z] :: run ++ r ∧ 1 ≤ length run ≤ MAX_HASHTAG_CHARS.
Proof.
  unfold tag_at. destruct cs as [|c cs]; [done|]. intros Hc.
  assert (Hh : c = [0x23%Z] ∧ word_run MAX_HASHTAG_CHARS cs = run ∧ run ≠ []).
  { destruct c as [|z [|? ?]]; try by (repeat case_match; done).
    destruct (decide (z = 0x23%Z)) as [->|Hz]; [destruct (word_run _ cs); [done|]; by injection Hc as <-|].
    exfalso. revert Hc. repeat case_match; simplify_eq; done. }
  destruct Hh as (-> & Hr & Hne). destruct (word_run_prefix MAX_HASHTAG_CHARS cs) as [r Hcs]. rewrite Hr in Hcs.
  exists r. split; [by rewrite Hcs at 1|]. split; [destruct run; [done|simpl; lia]|]. rewrite <- Hr. apply word_run_length.
Qed.

Lemma text_segment_concat acc : concat (seg_text <$> text_segment acc) = acc.
Proof. unfold text_segment. case_bool_decide as E; [by rewrite E|]. simpl. by rewrite app_nil_r. Qed.

Lemma segments_concat skip acc cs :
  skip ≤ length cs → concat (seg_text <$> segments skip acc cs) = acc ++ concat (drop skip cs).
Proof.
  revert skip acc. induction cs as [|c cs IH]; intros skip acc Hs.
  - cbn [segments]. rewrite text_segment_concat, drop_nil. simpl. by rewrite app_nil_r.
  - cbn [segments]. destruct skip as [|skip].
    + destruct (tag_at (c :: cs)) as [run|] eqn:E.
      * apply tag_at_spec in E as (r & [= -> ->] & _). rewrite fmap_app, concat_app, text_segment_concat. cbn [fmap list_fmap concat seg_text].
        rewrite IH by (rewrite length_app; lia). rewrite drop_app_length. cbn [app drop concat]. by rewrite concat_app, !app_comm_cons, <- ?app_assoc.
      * rewrite IH by lia. rewrite !drop_0. cbn [concat]. by rewrite app_assoc.
    + cbn [drop]. apply IH. simpl in Hs. lia.
Qed.

(** The segments of a text put together are the text. *)
Theorem split_lossless text : concat (seg_text <$> split text) = text.
Proof.
  unfold split. case_bool_decide as E; [by rewrite E|]. case_bool_decide; [simpl; by rewrite app_nil_r|].
  rewrite segments_concat by lia. by rewrite drop_0, chars_concat.
Qed.

Lemma segments_tags skip acc cs :
  skip ≤ length cs → (λ s, drop 1 (seg_text s)) <$> filter (λ s, is_hashtag s = true) (segments skip acc cs) = tags skip cs.
Proof.
  assert (Ht : ∀ acc, filter (λ s, is_hashtag s = true) (text_segment acc) = []).
  { intros a. unfold text_segment. case_bool_decide; [done|]. by rewrite filter_cons_False. }
  revert skip acc. induction cs as [|c cs IH]; intros skip acc Hs; cbn [segments tags]; [by rewrite Ht|].
  destruct skip as [|skip]; [|apply IH; simpl in Hs; lia]. destruct (tag_at (c :: cs)) as [run|] eqn:E; [|apply IH; lia].
  apply tag_at_spec in E as (r & [= -> ->] & _). rewrite filter_app, Ht, filter_cons_True by done. cbn [app fmap list_fmap seg_text drop].
  f_equal. apply IH. rewrite length_app. lia.
Qed.

(** The tags of a text are its hashtag segments without the sign. *)
Theorem extract_split text :
  extract text = (λ s, drop 1 (seg_text s)) <$> filter (λ s, is_hashtag s = true) (split text).
Proof.
  unfold extract, split. case_bool_decide; [done|]. cbn [orb]. case_bool_decide; [by rewrite filter_cons_False|].
  by rewrite segments_tags by lia.
Qed.

(** A cleaned notification text keeps to its limit. *)
Theorem sanitize_bounded raw max_len : length (sanitize_notif_content raw max_len) ≤ max_len.
Proof.
  unfold sanitize_notif_content. destruct (_ || _); [simpl; lia|]. cbv zeta. destruct (split_whitespace _); [simpl; lia|].
  apply truncate_str_length.
Qed.
End content.

Module ContentExamples.
#[local] Instance crates : ContentCrates := {| ammonia_text s := filter (λ b, b ≠ 0x3C%Z) s; unicode_word c := true |}.
Example some_tags : extract (lit "see #rust, ##rocq_9 # and #") = [lit "rust"; lit "rocq_9"].
Proof. by vm_compute. Qed.
Example cleaned : sanitize_notif_content (lit "  hello   world  and more ") 8 = lit "hello wo".
Proof. by vm_compute. Qed.
End ContentExamples.
