(* ===== verification/Store.v ===== *)
(** The tables behind the social features and the repositories that write them,
    src/db-core/src/repos/: users, posts, reactions, reposts, bookmarks, zaps,
    relays, hashtags and notifications. Each table is a finite map from its
    primary key to its row; each operation has the effect of its SQL text,
    conflict clauses and triggers included. The derived search and category
    columns are left out, and so are errors of the SQL engine. *)

From Stdlib Require Import SpecFloat.
From S2P Require Import Prelude RustStr Text Sql.

(** Errors the repositories raise themselves. *)
Inductive DbError := Oversized (id : str) | Migration (msg : string).

(** ** Rows *)

(** Source: src/db-core/src/repos/user.rs:532-555 (UserRow) *)
Record UserRow := mk_user_row {
  usr_pubkey : str;
  usr_npub : str;
  usr_name : option str;
  usr_display_name : option str;
  usr_about : option str;
  usr_picture : option str;
  usr_banner : option str;
  usr_nip05 : option str;
  usr_lud16 : option str;
  usr_created_at : Z;
  usr_updated_at : Z;
  usr_metadata_json : option str;
  usr_contact_pubkeys : str;
  usr_relay_list : str;
  usr_follower_count : Z
}.

(** Source: src/db-core/src/repos/post.rs:607-626 (PostRow) *)
Record PostRow := mk_post_row {
  pst_id : str;
  pst_pubkey : str;
  pst_content : str;
  pst_kind : Z;
  pst_created_at : Z;
  pst_tags_json : str;
  pst_sig : option str;
  pst_reply_to : option str;
  pst_root_id : option str;
  pst_mentioned_pubkeys : str;
  pst_mentioned_hashtags : str;
  pst_subject : option str;
  pst_sync_status : str;
  pst_is_deleted : bool;
  pst_scheduled_at : option Z;
  pst_freenet_key : option str;
  pst_is_freenet_native : bool;
  pst_rsvp_event_id : option str
}.

(** A stored post also counts its reposts. *)
Record Post := mk_post { post_row : PostRow; reposts_count : Z }.

(** Source: src/db-core/src/repos/reaction.rs:100-107 (ReactionRow) *)
Record ReactionRow := mk_reaction {
  rct_id : str; rct_pubkey : str; rct_event_id : str; rct_kind : Z; rct_content : option str; rct_created_at : Z
}.

(** Source: src/db-core/src/repos/repost.rs:58-63 (RepostRow) *)
Record RepostRow := mk_repost { rpt_id : str; rpt_pubkey : str; rpt_event_id : str; rpt_created_at : Z }.

(** Source: src/db-core/src/repos/bookmark.rs:170-175 (BookmarkRow) *)
Record BookmarkRow := mk_bookmark { bmk_id : str; bmk_pubkey : str; bmk_event_id : str; bmk_created_at : Z }.

(** Source: src/db-core/src/repos/zap.rs:69-79 (ZapRow) *)
Record ZapRow := mk_zap {
  zap_id : str; zap_pubkey : str; zap_recipient_pubkey : str; zap_event_id : option str;
  zap_amount : Z; zap_amount_msat : Z; zap_content : option str; zap_created_at : Z; zap_type : str
}.

(** Source: src/db-core/src/repos/relay.rs:119-128 (RelayRow) *)
Record RelayRow := mk_relay {
  rly_url : str; rly_pubkey : option str; rly_name : option str; rly_read : bool; rly_write : bool;
  rly_priority : Z; rly_last_connected_at : option Z; rly_health_score : spec_float
}.

(** Source: src/db-core/src/repos/hashtag.rs:148-153 (HashtagRow) *)
Record HashtagRow := mk_hashtag { htg_tag : str; htg_pubkey : str; htg_last_used_at : Z; htg_count : Z }.

(** Source: src/db-core/src/repos/notification.rs:228-237 (NotificationRow) *)
Record NotificationRow := mk_notification {
  ntf_id : str; ntf_pubkey : str; ntf_type : str; ntf_event_id : option str; ntf_from_pubkey : option str;
  ntf_content : option str; ntf_created_at : Z; ntf_is_read : bool
}.

(** Source: src/db-core/src/schema/migrations/v001_initial.rs:9-50 (v1_create_tables, users and posts) *)
Record db := mk_db {
  users : gmap str UserRow;
  posts : gmap str Post;
  reactions : gmap str ReactionRow;
  reposts : gmap str RepostRow;
  bookmarks : gmap str BookmarkRow;
  zaps : gmap str ZapRow;
  relays : gmap str RelayRow;
  hashtags : gmap (str * str) HashtagRow;
  notifications : gmap str NotificationRow;
  settings : gmap str str
}.

Definition db_empty : db := mk_db ∅ ∅ ∅ ∅ ∅ ∅ ∅ ∅ ∅ ∅.

Definition on_users f (d : db) := mk_db (f (users d)) (posts d) (reactions d) (reposts d) (bookmarks d)
  (zaps d) (relays d) (hashtags d) (notifications d) (settings d).
Definition on_posts f (d : db) := mk_db (users d) (f (posts d)) (reactions d) (reposts d) (bookmarks d)
  (zaps d) (relays d) (hashtags d) (notifications d) (settings d).
Definition on_reactions f (d : db) := mk_db (users d) (posts d) (f (reactions d)) (reposts d) (bookmarks d)
  (zaps d) (relays d) (hashtags d) (notifications d) (settings d).
Definition on_reposts f (d : db) := mk_db (users d) (posts d) (reactions d) (f (reposts d)) (bookmarks d)
  (zaps d) (relays d) (hashtags d) (notifications d) (settings d).
Definition on_bookmarks f (d : db) := mk_db (users d) (posts d) (reactions d) (reposts d) (f (bookmarks d))
  (zaps d) (relays d) (hashtags d) (notifications d) (settings d).
Definition on_zaps f (d : db) := mk_db (users d) (posts d) (reactions d) (reposts d) (bookmarks d)
  (f (zaps d)) (relays d) (hashtags d) (notifications d) (settings d).
Definition on_relays f (d : db) := mk_db (users d) (posts d) (reactions d) (reposts d) (bookmarks d)
  (zaps d) (f (relays d)) (hashtags d) (notifications d) (settings d).
Definition on_hashtags f (d : db) := mk_db (users d) (posts d) (reactions d) (reposts d) (bookmarks d)
  (zaps d) (relays d) (f (hashtags d)) (notifications d) (settings d).
Definition on_notifications f (d : db) := mk_db (users d) (posts d) (reactions d) (reposts d) (bookmarks d)
  (zaps d) (relays d) (hashtags d) (f (notifications d)) (settings d).
Definition on_settings f (d : db) := mk_db (users d) (posts d) (reactions d) (reposts d) (bookmarks d)
  (zaps d) (relays d) (hashtags d) (notifications d) (f (settings d)).

(** INSERT ... ON CONFLICT(key) DO UPDATE: a new row, or the merge of the
    stored row with the new one. *)
Definition upsert `{Countable K} {A} (merge : A → A → A) (k : K) (new : A) (t : gmap K A) : gmap K A :=
  <[k := match t !! k with Some old => merge old new | None => new end]> t.

(** ** Users *)

(** INSERT OR IGNORE INTO users (pubkey, npub), with the defaults of the schema.
    Source: src/db-core/src/repos/user.rs:297-306 (ensure_exists) *)
Definition ensure_exists (pubkey : str) (d : db) : db :=
  let k := clean pubkey in
  on_users (λ t, match t !! k with
    | Some _ => t
    | None => <[k := mk_user_row k [] None None None None None None None 0 0 None (lit "[]") (lit "[]") 0]> t
    end) d.

(** Source: src/db-core/src/repos/user.rs:125-137 (get_by_pubkey_in) *)
Definition get_by_pubkey (d : db) (pubkey : str) : option UserRow := users d !! clean pubkey.

(** Kept on conflict: the keys, the creation time and the follower count.
    Source: src/db-core/src/repos/user.rs:7-11 (USER_UPSERT_SQL, conflict) *)
Definition merge_user (old new : UserRow) : UserRow :=
  mk_user_row (usr_pubkey old) (usr_npub old) (usr_name new) (usr_display_name new) (usr_about new)
    (usr_picture new) (usr_banner new) (usr_nip05 new) (usr_lud16 new) (usr_created_at old)
    (usr_updated_at new) (usr_metadata_json new) (usr_contact_pubkeys new) (usr_relay_list new)
    (usr_follower_count old).

Definition user_with_pubkey (k : str) (r : UserRow) : UserRow :=
  mk_user_row k (usr_npub r) (usr_name r) (usr_display_name r) (usr_about r) (usr_picture r) (usr_banner r)
    (usr_nip05 r) (usr_lud16 r) (usr_created_at r) (usr_updated_at r) (usr_metadata_json r)
    (usr_contact_pubkeys r) (usr_relay_list r) (usr_follower_count r).

(** Source: src/db-core/src/repos/user.rs:230-258 (upsert_in) *)
Definition user_upsert (row : UserRow) (d : db) : db :=
  let k := clean (usr_pubkey row) in
  on_users (upsert merge_user k (user_with_pubkey k row)) d.

Definition with_followers (n : Z) (r : UserRow) : UserRow :=
  mk_user_row (usr_pubkey r) (usr_npub r) (usr_name r) (usr_display_name r) (usr_about r) (usr_picture r)
    (usr_banner r) (usr_nip05 r) (usr_lud16 r) (usr_created_at r) (usr_updated_at r) (usr_metadata_json r)
    (usr_contact_pubkeys r) (usr_relay_list r) n.

Definition bump (delta : Z) (r : UserRow) : UserRow := with_followers (Z.max 0 (usr_follower_count r + delta)) r.

(** Source: src/db-core/src/repos/user.rs:373-386 (bump_follower_count_in) *)
Definition bump_follower_count (pubkey : str) (delta : Z) (d : db) : db :=
  on_users (alter (bump delta) (clean pubkey)) d.

(** The deltas summed per user.
    Source: src/db-core/src/repos/user.rs:332-335 (bump_follower_counts_in, sums) *)
Definition delta_sums (deltas : list (str * Z)) : gmap str Z :=
  fold_left (λ sums e, <[clean e.1 := (default 0%Z (sums !! clean e.1) + e.2)%Z]> sums) deltas ∅.

(** One statement per distinct delta; every user is in one of them.
    Source: src/db-core/src/repos/user.rs:325-366 (bump_follower_counts_in) *)
Definition bump_follower_counts (deltas : list (str * Z)) (d : db) : db :=
  on_users (map_imap (λ k r, Some match delta_sums deltas !! k with
                                   | Some delta => if (delta =? 0)%Z then r else bump delta r
                                   | None => r
                                   end)) d.

(** ** Posts *)

Definition MAX_CONTENT_BYTES : Z := 64 * 1024.
(** Source: src/db-core/src/repos/limits.rs:13-13 (MAX_BATCH_BYTES) *)
Definition MAX_BATCH_BYTES : Z := 2 * 1024 * 1024.
(** Source: src/db-core/src/repos/limits.rs:16-16 (MAX_NOTIFICATION_BYTES) *)
Definition MAX_NOTIFICATION_BYTES : Z := 4 * 1024.

(** Source: src/db-core/src/repos/limits.rs:19-25 (row_too_big) *)
Definition row_too_big (content tags_json : str) : bool :=
  (MAX_CONTENT_BYTES <? zlen content)%Z || (MAX_BATCH_BYTES <? zlen content + zlen tags_json)%Z.

(** Source: src/db-core/src/repos/limits.rs:28-30 (notification_too_big) *)
Definition notification_too_big (content : str) : bool := (MAX_NOTIFICATION_BYTES <? zlen content)%Z.

(** The row as it is bound, with its keys normalised.
    Source: src/db-core/src/repos/post.rs:590-603 (PostKeys::from) *)
Definition normalize_post (p : PostRow) : PostRow :=
  mk_post_row (clean (pst_id p)) (clean (pst_pubkey p)) (pst_content p) (pst_kind p) (pst_created_at p)
    (pst_tags_json p) (pst_sig p) (clean <$> pst_reply_to p) (clean <$> pst_root_id p)
    (pst_mentioned_pubkeys p) (pst_mentioned_hashtags p) (pst_subject p) (pst_sync_status p)
    (pst_is_deleted p) (pst_scheduled_at p) (pst_freenet_key p) (pst_is_freenet_native p)
    (pst_rsvp_event_id p).

(** Source: src/db-core/src/repos/post.rs:11-11 (POST_UPSERT_SQL, conflict) *)
Definition merge_post (old new : Post) : Post :=
  let o := post_row old in let n := post_row new in
  if pst_is_deleted o then old
  else mk_post
    (mk_post_row (pst_id o) (pst_pubkey o) (pst_content n) (pst_kind o) (pst_created_at o)
       (pst_tags_json n) (pst_sig n) (pst_reply_to o) (pst_root_id o)
       (pst_mentioned_pubkeys n) (pst_mentioned_hashtags n) (pst_subject n) (pst_sync_status n)
       (pst_is_deleted n) (pst_scheduled_at n) (pst_freenet_key n) (pst_is_freenet_native n)
       (pst_rsvp_event_id n))
    (reposts_count old).

(** The two statements of one post. *)
Definition store_post (p : PostRow) (d : db) : db :=
  let p := normalize_post p in
  on_posts (upsert merge_post (pst_id p) (mk_post p 0)) (ensure_exists (pst_pubkey p) d).

(** Source: src/db-core/src/repos/post.rs:201-245 (upsert_in) *)
Definition post_upsert (p : PostRow) (d : db) : result DbError db :=
  if row_too_big (pst_content p) (pst_tags_json p) then Err (Oversized (pst_id p)) else Ok (store_post p d).

(** Source: src/db-core/src/repos/post.rs:247-287 (upsert_batch_in) *)
Definition post_upsert_batch (ps : list PostRow) (d : db) : db :=
  fold_left (λ d p, if row_too_big (pst_content p) (pst_tags_json p) then d else store_post p d) ps d.

Definition with_deleted (p : Post) : Post :=
  let r := post_row p in
  mk_post (mk_post_row (pst_id r) (pst_pubkey r) (pst_content r) (pst_kind r) (pst_created_at r)
    (pst_tags_json r) (pst_sig r) (pst_reply_to r) (pst_root_id r) (pst_mentioned_pubkeys r)
    (pst_mentioned_hashtags r) (pst_subject r) (pst_sync_status r) true (pst_scheduled_at r)
    (pst_freenet_key r) (pst_is_freenet_native r) (pst_rsvp_event_id r)) (reposts_count p).

(** Source: src/db-core/src/repos/post.rs:305-319 (mark_deleted_in) *)
Definition mark_deleted (id author : str) (d : db) : db :=
  on_posts (alter (λ p, if bool_decide (pst_pubkey (post_row p) = clean author) then with_deleted p else p)
                  (clean id)) d.

(** Source: src/db-core/src/repos/post.rs:289-299 (delete) *)
Definition post_delete (id : str) (d : db) : db := on_posts (alter with_deleted (clean id)) d.

(** The rows affected are also counted.
    Source: src/db-core/src/repos/post.rs:323-334 (delete_older_than) *)
Definition delete_older_than (cutoff_secs : Z) (d : db) : db * nat :=
  let old p := negb (pst_is_deleted (post_row p)) && (pst_created_at (post_row p) <? cutoff_secs)%Z in
  (on_posts (fmap (λ p, if old p then with_deleted p else p)) d,
   size (filter (λ kp, old kp.2 = true) (posts d))).

(** Newest first, at most eight.
    Source: src/db-core/src/repos/post.rs:92-108 (get_zap_requests_for_note_in) *)
Definition get_zap_requests_for_note `{!OrderBy (desc (λ p, pst_created_at (post_row p)))} (note_id : str)
    (d : db) : list PostRow :=
  post_row <$> select_rows (desc (λ p, pst_created_at (post_row p)))
    (λ p, pst_kind (post_row p) = 9734%Z ∧ pst_reply_to (post_row p) = Some note_id) 8 (posts d).

(** ** Reactions and reposts *)

(** The reactions of one author to one event. *)
Definition own_reaction (event_id pubkey : str) (r : ReactionRow) : bool :=
  bool_decide (rct_event_id r = event_id) && bool_decide (rct_pubkey r = pubkey).

(** Source: src/db-core/src/repos/reaction.rs:11-63 (upsert_in) *)
Definition reaction_upsert (row : ReactionRow) (d : db) : db :=
  let norm_eid := clean (rct_event_id row) in
  let norm_pk := clean (rct_pubkey row) in
  let norm_id := clean (rct_id row) in
  let existing := head (filter (λ r, own_reaction norm_eid norm_pk r = true) (map_to_list (reactions d)).*2) in
  if (if existing is Some r then (rct_created_at row <? rct_created_at r)%Z else false) then d
  else
    let d := on_reactions (filter (λ kr, own_reaction norm_eid norm_pk kr.2 = false)) d in
    if bool_decide (rct_content row = Some (lit "-")) then d
    else
      on_reactions
        (upsert (λ old new, mk_reaction (rct_id old) (rct_pubkey old) (rct_event_id old) (rct_kind old)
                              (rct_content new) (rct_created_at old))
           norm_id (mk_reaction norm_id norm_pk norm_eid (rct_kind row) (rct_content row) (rct_created_at row)))
        (ensure_exists norm_pk d).

(** The trigger on an inserted repost.
    Source: src/db-core/src/schema/migrations/v001_initial.rs:876-878 (reposts_ai) *)
Definition reposts_ai (event_id : str) (d : db) : db :=
  on_posts (alter (λ p, mk_post (post_row p) (reposts_count p + 1)) event_id) d.

(** Source: src/db-core/src/repos/repost.rs:20-43 (upsert_in) *)
Definition repost_upsert (r : RepostRow) (d : db) : db :=
  let norm_pk := clean (rpt_pubkey r) in
  let norm_eid := clean (rpt_event_id r) in
  let norm_id := clean (rpt_id r) in
  let d := ensure_exists norm_pk d in
  match reposts d !! norm_id with
  | Some _ => d
  | None => reposts_ai norm_eid
              (on_reposts (insert norm_id (mk_repost norm_id norm_pk norm_eid (rpt_created_at r))) d)
  end.

(** ** Bookmarks *)

(** Source: src/db-core/src/repos/bookmark.rs:183-190 (normalize) *)
Definition normalize_bookmark (r : BookmarkRow) : BookmarkRow :=
  mk_bookmark (clean (bmk_id r)) (clean (bmk_pubkey r)) (clean (bmk_event_id r)) (bmk_created_at r).

(** Source: src/db-core/src/repos/bookmark.rs:74-127 (upsert_many_in) *)
Definition bookmark_upsert_many (rows : list BookmarkRow) (d : db) : db :=
  let normed := normalize_bookmark <$> rows in
  let d := fold_left (λ d r, ensure_exists (bmk_pubkey r) d) normed d in
  on_bookmarks (λ t, fold_left (λ t r,
    upsert (λ old new, mk_bookmark (bmk_id old) (bmk_pubkey new) (bmk_event_id new) (bmk_created_at new))
      (bmk_id r) r t) normed t) d.

(** Source: src/db-core/src/repos/bookmark.rs:132-145 (delete_for_deleted_targets_in) *)
Definition delete_for_deleted_targets (pubkey : str) (d : db) : db :=
  on_bookmarks (filter (λ kb,
    negb (bool_decide (bmk_pubkey kb.2 = clean pubkey) &&
          (if posts d !! bmk_event_id kb.2 is Some p then pst_is_deleted (post_row p) else false)) = true)) d.

(** ** Zaps, relays, hashtags *)

(** Source: src/db-core/src/repos/zap.rs:11-45 (upsert_in) *)
Definition zap_upsert (row : ZapRow) (d : db) : db :=
  let id := clean (zap_id row) in
  let new := mk_zap id (clean (zap_pubkey row)) (clean (zap_recipient_pubkey row)) (clean <$> zap_event_id row)
               (zap_amount row) (zap_amount_msat row) (zap_content row) (zap_created_at row) (zap_type row) in
  on_zaps (upsert (λ old new, mk_zap (zap_id old) (zap_pubkey old) (zap_recipient_pubkey new) (zap_event_id old)
                     (zap_amount new) (zap_amount_msat new) (zap_content old) (zap_created_at old) (zap_type old))
             id new) (ensure_exists (zap_pubkey row) d).

(** Source: src/db-core/src/repos/relay.rs:43-63 (upsert_in) *)
Definition relay_upsert (row : RelayRow) (d : db) : db :=
  on_relays (upsert (λ old new, mk_relay (rly_url old) (rly_pubkey old) (rly_name new) (rly_read new)
                       (rly_write new) (rly_priority new) (rly_last_connected_at new) (rly_health_score new))
               (rly_url row) row) d.

(** Source: src/db-core/src/repos/hashtag.rs:14-17 (UPSERT_TAIL) *)
Definition merge_hashtag (old new : HashtagRow) : HashtagRow :=
  if (htg_last_used_at old <? htg_last_used_at new)%Z
  then mk_hashtag (htg_tag old) (htg_pubkey old) (Z.max (htg_last_used_at old) (htg_last_used_at new))
         (htg_count old + htg_count new)
  else old.

(** Source: src/db-core/src/repos/hashtag.rs:85-118 (upsert_many_in) *)
Definition hashtag_upsert_many (rows : list HashtagRow) (d : db) : db :=
  on_hashtags (λ t, fold_left (λ t r, upsert merge_hashtag (htg_tag r, htg_pubkey r) r t) rows t) d.

(** ** Notifications and settings *)

(** A row marked read stays read; the text follows the newest.
    Source: src/db-core/src/repos/notification.rs:81-81 (upsert_batch_in, conflict) *)
Definition merge_notification (old new : NotificationRow) : NotificationRow :=
  let newer := (ntf_created_at old <? ntf_created_at new)%Z in
  mk_notification (ntf_id old) (ntf_pubkey old) (ntf_type old)
    (if newer then ntf_event_id new else ntf_event_id old) (ntf_from_pubkey old)
    (if newer then ntf_content new else ntf_content old)
    (if newer then ntf_created_at new else ntf_created_at old)
    (if ntf_is_read old then true else ntf_is_read new).

(** Source: src/db-core/src/repos/notification.rs:73-113 (upsert_batch_in) *)
Definition notification_upsert_batch (rows : list NotificationRow) (d : db) : db :=
  fold_left (λ d n,
    if notification_too_big (default [] (ntf_content n)) then d
    else
      let id := clean (ntf_id n) in
      let new := mk_notification id (clean (ntf_pubkey n)) (ntf_type n) (clean <$> ntf_event_id n)
                   (clean <$> ntf_from_pubkey n) (ntf_content n) (ntf_created_at n) (ntf_is_read n) in
      on_notifications (upsert merge_notification id new) (ensure_exists (ntf_pubkey n) d)) rows d.

(** Source: src/db-core/src/repos/notification.rs:183-196 (mark_as_read) *)
Definition mark_as_read (pubkey id : str) (d : db) : db * bool :=
  let hit n := bool_decide (ntf_pubkey n = clean pubkey) && negb (ntf_is_read n) in
  (on_notifications (alter (λ n, if hit n
     then mk_notification (ntf_id n) (ntf_pubkey n) (ntf_type n) (ntf_event_id n) (ntf_from_pubkey n)
            (ntf_content n) (ntf_created_at n) true else n) (clean id)) d,
   if notifications d !! clean id is Some n then hit n else false).

(** Source: src/db-core/src/repos/settings.rs:13-23 (set) *)
Definition settings_set (key value : str) (d : db) : db := on_settings (insert key value) d.
(** Source: src/db-core/src/repos/settings.rs:65-73 (get) *)
Definition settings_get (d : db) (key : str) : option str := settings d !! key.
