(* ===== verification/Bolt11.v ===== *)
(** Lightning invoices as src/zap-core/src/lib.rs reads them: the amount, the
    checksum test, the description hash and the daily spending cap. The bech32
    decoder is the crate bech32 and a parameter; it yields the data part as
    8-bit bytes. *)

From S2P Require Import Prelude RustStr Text.

(** Source: src/zap-core/src/lib.rs:37-37 (MULT_M) *)
Definition MULT_M : Z := 100000000.
(** Source: src/zap-core/src/lib.rs:38-38 (MULT_U) *)
Definition MULT_U : Z := 100000.
(** Source: src/zap-core/src/lib.rs:39-39 (MULT_N) *)
Definition MULT_N : Z := 100.
(** Source: src/zap-core/src/lib.rs:43-43 (MULT_DEFAULT) *)
Definition MULT_DEFAULT : Z := 100000000000.
(** Source: src/zap-core/src/lib.rs:47-47 (MAX_PARSE_BOLT11_MSATS) *)
Definition MAX_PARSE_BOLT11_MSATS : Z := 1000000000000.
Definition u128_max : Z := 2 ^ 128 - 1.

(** The leading digits: the amount and their number.
    Source: src/zap-core/src/lib.rs:95-110 (parse_msats_from_bolt11, digits) *)
Fixpoint amount_digits (amount : Z) (digit_len : nat) (s : str) : may_fail (Z * nat) :=
  match s with
  | b :: s =>
      if is_ascii_digit b then
        let n := (amount * 10 + (b - 0x30))%Z in
        if (u128_max <? n)%Z then err "BOLT-11 amount overflow"
        else if 18 <? S digit_len then err "BOLT-11 amount exceeds range"
        else amount_digits n (S digit_len) s
      else Ok (amount, digit_len)
  | [] => Ok (amount, digit_len)
  end.

(** Source: src/zap-core/src/lib.rs:115-132 (parse_msats_from_bolt11, unit) *)
Definition scale_amount (amount : Z) (unit : option Z) : may_fail Z :=
  let mul m := ok_or (Fail "BOLT-11 amount overflow") (checked u128_max (amount * m)) in
  match unit with
  | Some 0x70%Z => if (amount mod 10 =? 0)%Z then Ok (amount / 10)%Z
                   else err "BOLT-11 pico amount below msat resolution"
  | Some 0x6E%Z => mul MULT_N
  | Some 0x75%Z => mul MULT_U
  | Some 0x6D%Z => mul MULT_M
  | Some 0x31%Z | None => mul MULT_DEFAULT
  | _ => err "invalid BOLT-11 multiplier"
  end.

(** Source: src/zap-core/src/lib.rs:79-89 (parse_msats_from_bolt11, prefix) *)
Definition strip_network (lower : str) : option str :=
  match strip_prefix (lit "lnbcrt") lower with
  | Some r => Some r
  | None =>
      match strip_prefix (lit "lnbc") lower with
      | Some r => Some r
      | None => match strip_prefix (lit "lntb") lower with
                | Some r => Some r
                | None => strip_prefix (lit "lnsb") lower
                end
      end
  end.

(** Source: src/zap-core/src/lib.rs:69-143 (parse_msats_from_bolt11) *)
Definition parse_msats_from_bolt11 (bolt11 : str) : may_fail Z :=
  if (4096 <? zlen bolt11)%Z || bool_decide (bolt11 = []) then Ok 0%Z
  else
    match strip_network (to_ascii_lowercase bolt11) with
    | None | Some [] => Ok 0%Z
    | Some rest =>
        '(amount, digit_len) ← amount_digits 0 0 rest;
        if digit_len =? 0 then Ok 0%Z
        else
          msats ← scale_amount amount (rest !! digit_len);
          _ ← ensure (msats <=? u64_max)%Z "BOLT-11 amount exceeds u64 msat range";
          _ ← ensure (msats <=? MAX_PARSE_BOLT11_MSATS)%Z "BOLT-11 amount exceeds zap cap";
          Ok msats
    end.

(** Source: src/zap-core/src/lib.rs:154-160 (bolt11_amount_sats) *)
Definition bolt11_amount_sats (invoice : str) : option Z :=
  msats ← ok (parse_msats_from_bolt11 invoice);
  let sats := (msats / 1000)%Z in
  if (sats =? 0)%Z then None else Some sats.

(** Source: src/zap-core/src/lib.rs:148-148 (NWC_DAILY_MAX_MSATS) *)
Definition NWC_DAILY_MAX_MSATS : Z := 10000000.

(** Source: src/zap-core/src/lib.rs:208-217 (apply_daily_spend) *)
Definition apply_daily_spend (spent_msats amount_sats : Z) : may_fail Z :=
  let new_total := sat_add u64_max spent_msats (sat_mul u64_max amount_sats 1000) in
  _ ← ensure (new_total <=? NWC_DAILY_MAX_MSATS)%Z "daily NWC spend cap reached";
  Ok new_total.

(** ** Description hash *)

(** The inner loop of the regrouping: whole bytes leave the accumulator, which
    is 32 bits wide.
    Source: src/zap-core/src/lib.rs:193-197 (bolt11_description_hash, while) *)
Fixpoint drain_bits (fuel : nat) (bits bit_len : Z) (out : bytes) : Z * bytes :=
  match fuel with
  | S fuel =>
      if (8 <=? bit_len)%Z && (length out <? 32) then
        let bit_len := (bit_len - 8)%Z in
        drain_bits fuel bits bit_len (out ++ [(Z.shiftr bits bit_len mod 256)%Z])
      else (bit_len, out)
  | O => (bit_len, out)
  end.

(** Source: src/zap-core/src/lib.rs:190-198 (bolt11_description_hash, for) *)
Definition take_word (s : Z * Z * bytes) (w : Z) : Z * Z * bytes :=
  let '(bits, bit_len, out) := s in
  let bits := Z.lor (Z.shiftl bits 5 mod 2 ^ 32) w in
  let bit_len := (bit_len + 5)%Z in
  let '(bit_len, out) := drain_bits (Z.to_nat bit_len) bits bit_len out in
  (bits, bit_len, out).

(** Source: src/zap-core/src/lib.rs:184-199 (bolt11_description_hash, h) *)
Definition hash_field (words : bytes) : option bytes :=
  let '(_, _, out) := fold_left take_word words (0%Z, 0%Z, []) in
  if 32 <=? length out then Some out else None.

(** The walk over the tagged fields; every round moves at least three places.
    Source: src/zap-core/src/lib.rs:176-203 (bolt11_description_hash, fields) *)
Fixpoint find_hash (fuel : nat) (data : bytes) (i : nat) : option bytes :=
  match fuel with
  | O => None
  | S fuel =>
      if i + 3 <=? length data then
        let at_ k := default 0%Z (data !! k) in
        let field_len := Z.to_nat (at_ (i + 1) * 32 + at_ (i + 2)) in
        let start := i + 3 in
        let last := start + field_len in
        if length data <? last then None
        else if (at_ i =? 23)%Z then hash_field (take field_len (drop start data))
        else find_hash fuel data last
      else None
  end.

Section bech32.
Context (bech32_decode : str → option (str * bytes)).

(** Source: src/zap-core/src/lib.rs:53-63 (bolt11_checksum_valid) *)
Definition bolt11_checksum_valid (bolt11 : str) : bool :=
  if bool_decide (bolt11 = []) || (4096 <? zlen bolt11)%Z then false
  else bool_decide (is_Some (bech32_decode (to_ascii_lowercase bolt11))).

(** Source: src/zap-core/src/lib.rs:168-204 (bolt11_description_hash) *)
Definition bolt11_description_hash (bolt11 : str) : option bytes :=
  let normalized := clean bolt11 in
  if bool_decide (normalized = []) || (4096 <? zlen normalized)%Z || negb (bool_decide (0x31%Z ∈ normalized))
  then None
  else '(_, data) ← bech32_decode normalized; find_hash (length data) data 8.
End bech32.

(** ** Amounts *)

Lemma is_ascii_digit_range b : is_ascii_digit b = true ↔ (0x30 ≤ b ≤ 0x39)%Z.
Proof. apply between_iff. Qed.

Definition all_digits (s : str) : Prop := Forall (λ b, is_ascii_digit b = true) s.
Definition no_digit_head (s : str) : Prop := if s is b :: _ then is_ascii_digit b = false else True.

Lemma amount_digits_spec a n s rest :
  all_digits s → no_digit_head rest → n + length s ≤ 18 → (0 ≤ a < 10 ^ Z.of_nat n)%Z →
  amount_digits a n (s ++ rest) =
  Ok (foldl (λ acc b, acc * 10 + (b - 0x30))%Z a s, n + length s).
Proof.
  revert a n. induction s as [|b s IH]; intros a n Hs Hr Hn Ha; simpl.
  - rewrite Nat.add_0_r. destruct rest as [|b rest]; [done|]. simpl. simpl in Hr. by rewrite Hr.
  - apply Forall_cons in Hs as [Hb Hs]. rewrite Hb. simpl in Hn.
    apply is_ascii_digit_range in Hb.
    assert (Hp : (10 ^ Z.of_nat (S n) = 10 * 10 ^ Z.of_nat n)%Z) by (rewrite Nat2Z.inj_succ, Z.pow_succ_r; lia).
    assert (Hle : (10 ^ Z.of_nat (S n) ≤ 10 ^ 18)%Z) by (apply Z.pow_le_mono_r; lia).
    assert ((10 ^ 18 ≤ u128_max)%Z) by by_leb.
    rewrite (proj2 (Z.ltb_ge _ _)) by lia. rewrite (proj2 (Nat.ltb_ge _ _)) by lia.
    rewrite IH; [f_equal; f_equal; lia|done|done|lia|lia].
Qed.

Lemma strip_network_digits s rest :
  all_digits s → s ≠ [] → strip_network (lit "lnbc" ++ s ++ rest) = Some (s ++ rest).
Proof.
  intros Hs Hne. unfold strip_network. destruct s as [|b s]; [done|].
  apply Forall_cons in Hs as [Hb _]. apply is_ascii_digit_range in Hb.
  assert (strip_prefix (lit "lnbcrt") (lit "lnbc" ++ (b :: s) ++ rest) = None) as ->.
  { change (lit "lnbcrt") with (lit "lnbc" ++ lit "rt"). generalize (lit "lnbc"). intros p.
    induction p as [|c p IH]; [|simpl; by rewrite Z.eqb_refl]. change (lit "rt") with [0x72; 0x74]%Z.
    cbn [strip_prefix app]. destruct (Z.eqb_spec 0x72 b); [lia|done]. }
  by rewrite strip_prefix_app.
Qed.

Lemma lower_digits s : all_digits s → to_ascii_lowercase s = s.
Proof.
  unfold to_ascii_lowercase. induction 1 as [|b s Hb Hs IH]; [done|].
  apply is_ascii_digit_range in Hb. rewrite fmap_cons, IH, lower_ascii by lia. done.
Qed.

(** The amount of an invoice with between one and eighteen leading digits
    is the number scaled by its unit letter, refused when it is not a whole
    number of millisatoshi, out of range, above the cap, or when the letter is
    unknown. *)
Theorem bolt11_amount_spec s rest :
  all_digits s → 1 ≤ length s ≤ 18 → no_digit_head rest → to_ascii_lowercase rest = rest →
  (zlen (lit "lnbc" ++ s ++ rest) ≤ 4096)%Z →
  parse_msats_from_bolt11 (lit "lnbc" ++ s ++ rest) =
  match scale_amount (from_digits s) (head rest) with
  | Ok m => if (m <=? MAX_PARSE_BOLT11_MSATS)%Z then Ok m
            else err (if (m <=? u64_max)%Z then "BOLT-11 amount exceeds zap cap"
                      else "BOLT-11 amount exceeds u64 msat range")
  | Err e => Err e
  end.
Proof.
  intros Hs Hl Hr Hlow Hlen. unfold parse_msats_from_bolt11.
  rewrite (proj2 (Z.ltb_ge _ _)) by done. rewrite bool_decide_eq_false_2 by done. cbn [orb].
  assert (to_ascii_lowercase (lit "lnbc" ++ s ++ rest) = lit "lnbc" ++ s ++ rest) as ->.
  { unfold to_ascii_lowercase. rewrite !fmap_app. f_equal.
    fold (to_ascii_lowercase s) (to_ascii_lowercase rest). by rewrite (lower_digits s), Hlow. }
  rewrite strip_network_digits by (done || by intros ->; simpl in *; lia).
  destruct (s ++ rest) as [|b r] eqn:E; [destruct s; simpl in *; [lia|done]|]. rewrite <- E.
  rewrite (amount_digits_spec 0 0 s rest) by (done || lia). cbn [mbind result_bind Nat.add].
  rewrite (proj2 (Nat.eqb_neq _ _)) by lia.
  rewrite lookup_app_r, Nat.sub_diag by lia.
  replace (rest !! 0) with (head rest) by (by destruct rest).
  fold (from_digits s).
  destruct (scale_amount _ _) as [m|e]; [|done]. cbn [mbind result_bind]. unfold ensure.
  assert (MAX_PARSE_BOLT11_MSATS ≤ u64_max)%Z by by_leb.
  destruct (Z.leb_spec m u64_max), (Z.leb_spec m MAX_PARSE_BOLT11_MSATS); simpl; try done. lia.
Qed.

(** ** The hash field *)

(** [n] five-bit words of a number, the most significant first. *)
Fixpoint to_words (n : nat) (z : Z) : bytes :=
  match n with O => [] | S n => to_words n (z / 32)%Z ++ [(z mod 32)%Z] end.

Lemma from_be_snoc l b : from_be (l ++ [b]) = (from_be l * 256 + b)%Z.
Proof. unfold from_be. rewrite reverse_app. simpl. lia. Qed.

Lemma from_be_inj l k : all_bytes l → all_bytes k → length l = length k → from_be l = from_be k → l = k.
Proof.
  intros Hl Hk Hlen E. unfold from_be in E.
  rewrite <- (reverse_involutive l), <- (reverse_involutive k). f_equal.
  rewrite <- (to_from_le (reverse l)), <- (to_from_le (reverse k)) by (by apply Forall_reverse).
  by rewrite E, !length_reverse, Hlen.
Qed.

(** What the accumulator knows after [n] words of the number [v]. *)
Record regroup (n : nat) (v : Z) (s : Z * Z * bytes) : Prop := {
  rg_bits : (0 ≤ s.1.1 < 2 ^ 32)%Z;
  rg_len : (0 ≤ s.1.2 < 8)%Z;
  rg_total : (8 * zlen s.2 + s.1.2 = 5 * Z.of_nat n)%Z;
  rg_value : v = (from_be s.2 * 2 ^ s.1.2 + s.1.1 mod 2 ^ s.1.2)%Z;
  rg_bytes : all_bytes s.2
}.

Lemma lor_low k w : (0 ≤ w < 32)%Z → Z.lor (k * 32) w = (k * 32 + w)%Z.
Proof.
  intros Hw. assert (Z.land (k * 32) w = 0)%Z as Hz.
  { apply Z.bits_inj'. intros i Hi. rewrite Z.land_spec, Z.bits_0. change 32%Z with (2 ^ 5)%Z.
    destruct (Z.lt_ge_cases i 5); [by rewrite Z.mul_pow2_bits_low|].
    rewrite <- (Z.mod_small w (2 ^ 5)), Z.mod_pow2_bits_high by lia. apply andb_false_r. }
  by rewrite <- Z.lxor_lor, <- Z.add_nocarry_lxor.
Qed.

(** The residue of the accumulator after a word. *)
Lemma shift_in bits bl w :
  (0 ≤ bl < 8)%Z → (0 ≤ w < 32)%Z →
  let x := Z.lor (Z.shiftl bits 5 mod 2 ^ 32) w in
  (0 ≤ x < 2 ^ 32)%Z ∧ (x mod 2 ^ (bl + 5) = (bits mod 2 ^ bl) * 32 + w)%Z.
Proof.
  intros Hl Hw. cbv zeta. rewrite Z.shiftl_mul_pow2 by lia. change (2 ^ 5)%Z with 32%Z.
  assert ((bits * 32) mod 2 ^ 32 = (bits mod 2 ^ 27) * 32)%Z as E.
  { change (2 ^ 32)%Z with (2 ^ 27 * 32)%Z. by rewrite Z.mul_mod_distr_r. }
  rewrite E, lor_low by done. pose proof (Z.mod_pos_bound bits (2 ^ 27) eq_refl). split; [lia|].
  rewrite Z.pow_add_r by lia. change (2 ^ 5)%Z with 32%Z. set (p := (2 ^ bl)%Z).
  assert (Hp : (0 < p)%Z) by (apply Z.pow_pos_nonneg; lia).
  assert (Hd : ((bits mod 2 ^ 27) mod p = bits mod p)%Z).
  { apply Z.mod_mod_divide. unfold p.
    exists (2 ^ (27 - bl))%Z. rewrite <- Z.pow_add_r by lia. f_equal. lia. }
  rewrite Z.add_mod, Z.mul_mod_distr_r, (Z.mod_small w) by nia. rewrite Hd, Z.mod_small; [done|].
  pose proof (Z.mod_pos_bound bits p Hp). nia.
Qed.

Lemma take_word_regroup n v s w :
  regroup n v s → n < 52 → (0 ≤ w < 32)%Z → regroup (S n) (v * 32 + w) (take_word s w).
Proof.
  intros [Hb Hl Ht Hv Hout] Hn Hw. destruct s as [[bits bl] out]. cbn [fst snd] in *.
  unfold take_word. destruct (shift_in bits bl w Hl Hw) as [Hx Hm].
  set (x := Z.lor _ w) in *. pose proof (Z.mod_pos_bound x (2 ^ (bl + 5))).
  assert (E5 : (2 ^ (bl + 5) = 2 ^ bl * 32)%Z) by (by rewrite Z.pow_add_r by lia).
  destruct (Z.to_nat (bl + 5)) as [|fuel] eqn:Hf; [lia|]. cbn [drain_bits].
  destruct (Z.leb_spec 8 (bl + 5)) as [H8|H8]; cbn [andb].
  - rewrite (proj2 (Nat.ltb_lt _ _)) by lia.
    assert (drain_bits fuel x (bl + 5 - 8) (out ++ [(Z.shiftr x (bl + 5 - 8) mod 256)%Z]) =
            ((bl + 5 - 8)%Z, out ++ [(Z.shiftr x (bl + 5 - 8) mod 256)%Z])) as ->.
    { destruct fuel; [done|]. cbn [drain_bits]. by rewrite (proj2 (Z.leb_gt _ _)) by lia. }
    set (b := (bl + 5 - 8)%Z) in *. assert (Hbb : (2 ^ (bl + 5) = 2 ^ b * 256)%Z).
    { replace (bl + 5)%Z with (b + 8)%Z by lia. by rewrite Z.pow_add_r by lia. }
    assert (Hp : (0 < 2 ^ b)%Z) by (apply Z.pow_pos_nonneg; lia).
    assert (Hsplit : (x mod 2 ^ (bl + 5) = (Z.shiftr x b mod 256) * 2 ^ b + x mod 2 ^ b)%Z).
    { rewrite Hbb, Z.shiftr_div_pow2 by lia. rewrite Z.rem_mul_r by lia. lia. }
    split; cbn [fst snd].
    + done.
    + lia.
    + rewrite length_app. simpl. lia.
    + rewrite from_be_snoc, Hv. nia.
    + apply Forall_app. split; [done|]. constructor; [|constructor]. apply Z.mod_pos_bound. lia.
  - split; cbn [fst snd]; [done|lia|lia| |done]. rewrite Hv, Hm, E5. lia.
Qed.

Lemma to_words_regroup n z :
  n ≤ 52 → (0 ≤ z < 32 ^ Z.of_nat n)%Z → regroup n z (fold_left take_word (to_words n z) (0%Z, 0%Z, [])).
Proof.
  revert z. induction n as [|n IH]; intros z Hn Hz.
  - change (32 ^ Z.of_nat 0)%Z with 1%Z in Hz. assert (z = 0)%Z as -> by lia.
    split; simpl; [lia|lia|lia|done|constructor].
  - rewrite Nat2Z.inj_succ, Z.pow_succ_r in Hz by lia. cbn [to_words]. rewrite fold_left_app. cbn [fold_left].
    rewrite (Z.div_mod z 32) at 1 by lia. rewrite (Z.mul_comm 32).
    apply take_word_regroup; [|lia|by apply Z.mod_pos_bound].
    apply IH; [lia|]. split; [apply Z.div_pos; lia|apply Z.div_lt_upper_bound; lia].
Qed.

(** The 52 words of a 32-byte hash, 256 bits and four bits of padding, give
    the hash back. *)
Theorem hash_field_roundtrip h :
  all_bytes h → length h = 32 → hash_field (to_words 52 (from_be h * 16)) = Some h.
Proof.
  intros Hh Hl. assert (Hr : (0 ≤ from_be h < 256 ^ 32)%Z).
  { unfold from_be. pose proof (from_le_range (reverse h)) as Hr. rewrite length_reverse, Hl in Hr.
    apply Hr. by apply Forall_reverse. }
  assert (H260 : (256 ^ 32 * 16 = 32 ^ Z.of_nat 52)%Z) by (vm_compute; reflexivity).
  pose proof (to_words_regroup 52 (from_be h * 16)) as Hg. unfold hash_field.
  destruct (fold_left _ _ _) as [[bits bl] out]. destruct Hg as [Hb Hbl Ht Hv Hout]; [lia|lia|].
  cbn [fst snd] in *. assert (Hlen : length out = 32) by lia. assert (bl = 4)%Z as -> by lia.
  rewrite Hlen. simpl. f_equal. apply from_be_inj; [done|done|lia|].
  change (2 ^ 4)%Z with 16%Z in Hv. pose proof (Z.mod_pos_bound bits 16 eq_refl). lia.
Qed.

(** The fuel of the field walk is enough: more does not change the answer. *)
Lemma find_hash_fuel data fuel fuel' i :
  length data ≤ fuel + i → length data ≤ fuel' + i → find_hash fuel data i = find_hash fuel' data i.
Proof.
  revert fuel' i. induction fuel as [|fuel IH]; intros fuel' i H H'.
  - destruct fuel'; cbn [find_hash]; [done|]. by rewrite (proj2 (Nat.leb_gt _ _)) by lia.
  - destruct fuel' as [|fuel'].
    { cbn [find_hash]. by rewrite (proj2 (Nat.leb_gt _ _)) by lia. }
    cbn [find_hash]. destruct (i + 3 <=? length data); [|done].
    destruct (length data <? _); [done|]. destruct (_ =? 23)%Z; [done|]. apply IH; lia.
Qed.

Module Bolt11Examples.

Definition hash : bytes := replicate 32 0xAB%Z.

(** The data part read as one five-bit word per byte, after a leading word. *)
Definition words_as_bytes : bytes := replicate 8 0%Z ++ [23; 1; 20]%Z ++ to_words 52 (from_be hash * 16).

(** An invoice as BOLT-11 lays it out: 35 bits of time stamp, the tagged
    fields, a 520-bit signature; the decoder yields its words eight bits at a
    time. *)
Definition invoice_words : bytes :=
  replicate 7 5%Z ++ [23; 1; 20]%Z ++ to_words 52 (from_be hash * 16) ++ replicate 104 9%Z.
Definition words_value (ws : bytes) : Z := fold_left (λ v w, v * 32 + w)%Z ws 0%Z.
Definition invoice_bytes : bytes := to_be 103 (words_value invoice_words / 64).

(** The hash of a genuine invoice is not found. *)
Example hash_found_only_in_words :
  find_hash 63 words_as_bytes 8 = Some hash ∧ find_hash 103 invoice_bytes 8 = None.
Proof. vm_compute. done. Qed.

Lemma bolt11_amount_spec_witness :
  parse_msats_from_bolt11 (lit "lnbc" ++ lit "2500" ++ lit "u1pvjluez") = Ok 250000000%Z ∧
  all_digits (lit "2500").
Proof.
  split; [rewrite bolt11_amount_spec; [vm_compute; reflexivity|..]|]; try by_leb; try done;
    try (repeat constructor); vm_compute; lia.
Defined.

Lemma hash_field_roundtrip_witness : hash_field (to_words 52 (from_be hash * 16)) = Some hash ∧ length hash = 32.
Proof. split; [apply hash_field_roundtrip; [repeat constructor; lia|done]|done]. Defined.

End Bolt11Examples.
