(* ===== verification/Ingest.v ===== *)
(** The ingest of src/sync-core/src/ingest.rs: what a verified relay event does
    to the local tables and which updates it sends to the application, one
    event at a time and in batches. Parameters stand for what other crates
    give: JSON text, the verification primitive, bech32, the parser of URLs, the
    word class of expressions, the HTML sanitiser. Errors of the SQL engine are left
    out; the full update channel is not. *)

From Stdlib Require Import SpecFloat.
From S2P Require Import Url Content Prelude RustStr Text Sql Verify Store Bolt11.

(** A Nostr event; identifiers and signature as their lower-case hex. *)
Record Event := mk_event {
  ev_id : str;
  ev_pubkey : str;
  ev_created_at : Z;
  ev_kind : Z;
  ev_tags : list (list str);
  ev_content : str;
  ev_sig : str
}.

(** serde_json as the ingest uses it: lists of strings, lists of tags, one
    string, a text field of an object. *)
Class Serde := {
  strings_to_json : list str → str;
  strings_from_json : str → option (list str);
  tags_to_json : list (list str) → str;
  tags_from_json : str → option (list (list str));
  string_to_json : str → str;
  object_field : str → option (str → option str);
  strings_roundtrip l : strings_from_json (strings_to_json l) = Some l;
  strings_empty : strings_to_json [] = lit "[]";
  strings_bracket l : ∃ m, strings_to_json l = lit "[" ++ m ++ lit "]"
}.

(** What the ingest takes from elsewhere: SHA-256, bech32, the verification
    of an event and its raw identifier and signature, the parser of URLs, the
    text crates of Content, the order of equal rows. *)
Class Env := {
  sha256 : bytes → bytes;
  bech32_decode : str → option (str * bytes);
  to_bech32 : str → str;
  event_id : Event → bytes;
  event_sig : Event → bytes;
  event_verify : Event → bool;
  android : bool;
  urls :: UrlCrate;
  content_crates :: ContentCrates;
  post_order :: OrderBy (desc (λ p, pst_created_at (post_row p)))
}.

(** Source: src/sync-core/src/lib.rs:40-71 (SyncUpdate) *)
Inductive SyncUpdate :=
| Feed (id pubkey content : str) (created_at kind : Z)
| Dm (id sender recipient content : str) (created_at : Z) (tags_json : str)
| Reaction (id event_id pubkey content : str) (created_at : Z)
| Profile (pubkey : str).

(** Source: src/sync-core/src/lib.rs:34-34 (WM_FEED) *)
Definition WM_FEED : str := lit "sync_watermark_k1".
(** Source: src/sync-core/src/lib.rs:35-35 (WM_DM) *)
Definition WM_DM : str := lit "sync_watermark_k4".
(** Source: src/sync-core/src/lib.rs:36-36 (WM_META) *)
Definition WM_META : str := lit "sync_watermark_k0".

(** Source: src/sync-core/src/ingest.rs:19-19 (TS_GRACE_SECS) *)
Definition TS_GRACE_SECS : Z := 300.
(** Source: src/sync-core/src/ingest.rs:74-74 (MAX_CACHED_CONTENT) *)
Definition MAX_CACHED_CONTENT : Z := 64 * 1024.
(** Source: src/common-core/src/consts.rs:30-30 (MAX_TAGS) *)
Definition MAX_TAGS : Z := 2000.
(** Source: src/sync-core/src/ingest.rs:308-308 (ZAP_REQUEST_DIGEST_CACHE_CAP) *)
Definition ZAP_REQUEST_DIGEST_CACHE_CAP : Z := 2048.

(** The kinds of nostr's [Kind]. *)
Definition Metadata : Z := 0.
Definition TextNote : Z := 1.
Definition ContactList : Z := 3.
Definition EncryptedDirectMessage : Z := 4.
Definition EventDeletion : Z := 5.
Definition Repost : Z := 6.
Definition ReactionKind : Z := 7.
Definition ZapRequest : Z := 9734.
Definition ZapReceipt : Z := 9735.
Definition RelayList : Z := 10002.
Definition Bookmarks : Z := 10003.
Definition KIND_REACTION : Z := 7.
Definition KIND_EVENT_RSVP : Z := 31924.
Definition KIND_MINIS : Z := 31020.

(** Source: src/sync-core/src/ingest.rs:39-58 (POST_KIND_ALLOWLIST) *)
Definition POST_KIND_ALLOWLIST : list Z :=
  [1; 6; 7; 1059; 30080; 30081; 30078; 30082; 30085; 30311; 30402; 30403; 31020; 31923; 31924; 38383; 39003; 9734]%Z.

(** ** Tags *)

(** The value of a tag of the given kind. *)
Definition tag_value (kind : str) (t : list str) : option str :=
  match t with k :: v :: _ => if bool_decide (k = kind) then Some v else None | _ => None end.

Definition values (kind : str) (e : Event) : list str := omap (tag_value kind) (ev_tags e).

(** Source: src/sync-core/src/ingest.rs:76-83 (e_tags) *)
Definition e_tags (e : Event) : list str := values (lit "e") e.
(** Source: src/sync-core/src/ingest.rs:93-100 (p_tags) *)
Definition p_tags (e : Event) : list str := values (lit "p") e.
(** Source: src/sync-core/src/ingest.rs:102-109 (r_tags) *)
Definition r_tags (e : Event) : list str := values (lit "r") e.

(** The value of the first [e] tag, when it has one.
    Source: src/sync-core/src/ingest.rs:85-91 (first_e_tag) *)
Definition first_e_tag (e : Event) : option str :=
  t ← head (filter (λ t, head t = Some (lit "e")) (ev_tags e));
  t !! 1.

(** Source: src/sync-core/src/ingest.rs:133-142 (has_p_tag) *)
Definition has_p_tag (e : Event) (pubkey : str) : bool :=
  match pubkey with [] => false | _ => existsb (λ c, eq_ignore_ascii_case c pubkey) (p_tags e) end.

(** [str::split] at a byte. *)
Fixpoint split_at_byte (c : Z) (s : str) : list (list Z) :=
  match s with
  | [] => [[]]
  | b :: s =>
      if (b =? c)%Z then [] :: split_at_byte c s
      else match split_at_byte c s with w :: ws => (b :: w) :: ws | [] => [[b]] end
  end.

(** The comma-separated form. *)
Definition split_commas (s : str) : list str :=
  filter (λ p, p ≠ []) (trim <$> split_at_byte 0x2C s).

(** Source: src/sync-core/src/ingest.rs:32-35 (sanitize_ts_u64) *)
Definition sanitize_ts (now secs : Z) : Z := Z.min secs (sat_add u64_max (Z.max 0 now) TS_GRACE_SECS).

Section ingest.
Context `{Serde}.

(** Source: src/sync-core/src/ingest.rs:115-131 (split_pubkey_list) *)
Definition split_pubkey_list (s : str) : list str :=
  let trimmed := trim s in
  if bool_decide (trimmed = []) || bool_decide (trimmed = lit "[]") then []
  else
    match (if bool_decide (head trimmed = Some 0x5B%Z) then strings_from_json trimmed else None) with
    | Some v => v
    | None => split_commas trimmed
    end.
End ingest.

(** ** Rows of an event *)

(** What the loop over the tags collects.
    Source: src/sync-core/src/ingest.rs:197-204 (post_row, state) *)
Record tag_scan := mk_scan {
  marked_root : option str;
  marked_reply : option str;
  first_e : option str;
  last_e : option str;
  ps : list str;
  ts : list str;
  freenet_key : option str
}.

Definition scan_e (s : tag_scan) (c : str) (marker : option str) : tag_scan :=
  if bool_decide (marker = Some (lit "root"))
  then mk_scan (Some c) (marked_reply s) (first_e s) (last_e s) (ps s) (ts s) (freenet_key s)
  else if bool_decide (marker = Some (lit "reply"))
  then mk_scan (marked_root s) (Some c) (first_e s) (last_e s) (ps s) (ts s) (freenet_key s)
  else if bool_decide (marker = Some (lit "mention")) then s
  else mk_scan (marked_root s) (marked_reply s)
         (if first_e s is Some f then Some f else Some c) (Some c) (ps s) (ts s) (freenet_key s).

(** Source: src/sync-core/src/ingest.rs:205-239 (post_row, loop) *)
Definition scan_tag (s : tag_scan) (tag : list str) : tag_scan :=
  match head tag with
  | Some k =>
      if bool_decide (k = lit "e") then
        match tag !! 1 with Some c => scan_e s c (tag !! 3) | None => s end
      else if bool_decide (k = lit "p") then
        mk_scan (marked_root s) (marked_reply s) (first_e s) (last_e s)
          (ps s ++ option_list (tag !! 1)) (ts s) (freenet_key s)
      else if bool_decide (k = lit "t") then
        mk_scan (marked_root s) (marked_reply s) (first_e s) (last_e s) (ps s)
          (ts s ++ option_list (tag !! 1)) (freenet_key s)
      else if bool_decide (k = lit "freenet") && bool_decide (freenet_key s = None) then
        mk_scan (marked_root s) (marked_reply s) (first_e s) (last_e s) (ps s) (ts s) (tag !! 1)
      else s
  | None => s
  end.

(** [slice::join] with a separator. *)
Fixpoint join (sep : str) (l : list str) : str :=
  match l with [] => [] | [x] => x | x :: l => x ++ sep ++ join sep l end.

(** [Option::or]. *)
Definition or {A} (x y : option A) : option A := match x with Some a => Some a | None => y end.

(** A quoted key and its colon. *)
Definition json_key (k : string) : str := [0x22%Z] ++ lit k ++ [0x22%Z] ++ lit ":".

Section rows.
Context `{Serde, Env}.

(** Source: src/sync-core/src/ingest.rs:193-276 (post_row) *)
Definition post_row_of (now : Z) (e : Event) : option PostRow :=
  if (MAX_CACHED_CONTENT <? zlen (ev_content e))%Z then None
  else
    let tags := take (Z.to_nat MAX_TAGS) (ev_tags e) in
    let s := fold_left scan_tag tags (mk_scan None None None None [] [] None) in
    let threaded := (ev_kind e =? TextNote)%Z || (ev_kind e =? ZapRequest)%Z in
    Some (mk_post_row (ev_id e) (ev_pubkey e) (ev_content e) (ev_kind e)
      (sanitize_ts now (ev_created_at e)) (tags_to_json tags) (Some (ev_sig e))
      (if threaded then or (or (marked_reply s) (last_e s)) (marked_root s) else None)
      (if threaded then or (marked_root s) (first_e s) else None)
      (join (lit ",") (ps s)) (join (lit ",") (ts s)) None (lit "synced") false None
      (freenet_key s) (bool_decide (is_Some (freenet_key s)))
      (if (ev_kind e =? KIND_EVENT_RSVP)%Z then first_e s else None)).

(** A user row without profile fields. *)
Definition bare_user (pubkey npub : str) (created : Z) (relays : str) : UserRow :=
  mk_user_row pubkey npub None None None None None None None created created None [] relays 0.

(** Source: src/sync-core/src/ingest.rs:333-347 (ensure_author_user) *)
Definition ensure_author_user (now : Z) (e : Event) (d : db) : db :=
  on_users (λ t, match t !! ev_pubkey e with
    | Some _ => t
    | None => <[ev_pubkey e := bare_user (ev_pubkey e) [] (sanitize_ts now (ev_created_at e)) (lit "[]")]> t
    end) d.

(** Source: src/sync-core/src/ingest.rs:349-396 (user_row) *)
Definition user_row_of (now : Z) (e : Event) : option UserRow :=
  field ← object_field (ev_content e);
  let created := sanitize_ts now (ev_created_at e) in
  let media k := (u ← field (lit k); if is_valid_media_url u then Some u else None) in
  Some (mk_user_row (ev_pubkey e) (to_bech32 (ev_pubkey e)) (field (lit "name")) (field (lit "display_name"))
    (field (lit "about")) (media "picture") (media "banner") (field (lit "nip05")) (field (lit "lud16"))
    created created (Some (ev_content e)) [] [] 0).

(** Source: src/sync-core/src/ingest.rs:281-298 (zap_request_canonical_json) *)
Definition zap_request_canonical_json (req : PostRow) : str :=
  let raw_tags := trim (pst_tags_json req) in
  let tags_slice := if bool_decide (head raw_tags = Some 0x5B%Z) then raw_tags else lit "[]" in
  lit "{" ++ json_key "id" ++ string_to_json (pst_id req) ++
  lit "," ++ json_key "pubkey" ++ string_to_json (pst_pubkey req) ++
  lit "," ++ json_key "created_at" ++ print_i64 (pst_created_at req) ++
  lit "," ++ json_key "kind" ++ print_i64 (pst_kind req) ++
  lit "," ++ json_key "tags" ++ tags_slice ++
  lit "," ++ json_key "content" ++ string_to_json (pst_content req) ++
  lit "," ++ json_key "sig" ++ string_to_json (default [] (pst_sig req)) ++ lit "}".

(** Source: src/sync-core/src/ingest.rs:400-415 (bolt11_from_event) *)
Definition bolt11_from_event (e : Event) : option str :=
  let tagged := (t ← head (filter (λ t, head t = Some (lit "bolt11")) (ev_tags e));
                 v ← t !! 1; if bool_decide (v = []) then None else Some v) in
  let c := trim (ev_content e) in
  let starts p := bool_decide (is_Some (strip_prefix (lit p) c)) in
  or tagged (if starts "lnbc" || starts "LNBC" then Some c else None).
End rows.

(** ** The state *)

(** The tables, the digest cache of zap requests, the updates sent so far and
    the room left in the channel.
    Source: src/sync-core/src/ingest.rs:305-307 (ZAP_REQUEST_DIGEST_CACHE) *)
Record store := mk_store {
  st_db : db;
  st_digests : gmap str bytes;
  st_sent : list SyncUpdate;
  st_room : nat
}.

Definition on_db (f : db → db) (s : store) : store :=
  mk_store (f (st_db s)) (st_digests s) (st_sent s) (st_room s).

(** [Sender::try_send]. *)
Definition try_send (u : SyncUpdate) (s : store) : option store :=
  match st_room s with
  | O => None
  | S room => Some (mk_store (st_db s) (st_digests s) (st_sent s ++ [u]) room)
  end.

(** A full channel only drops the update. *)
Definition send (u : SyncUpdate) (s : store) : store := default s (try_send u s).

(** ** Notifications *)

Section notifications.
Context `{Env}.

Definition or_default (s d : str) : str := match s with [] => d | _ => s end.

(** The tags only matter for live streams.
    Source: src/notification-core/src/aggregator.rs:33-92 (format_notification_content) *)
Definition format_notification_content (notif_type content : str) (title : option str) : str :=
  let text empty :=
    let trimmed := trim content in
    or_default (if bool_decide (trimmed = []) then [] else sanitize_notif_content trimmed 140) (lit empty) in
  if bool_decide (notif_type = lit "reaction") then
    let trimmed := trim content in
    if bool_decide (trimmed = []) || bool_decide (trimmed = lit "+") then lit "Liked your post"
    else
      let safe := sanitize_notif_content trimmed 140 in
      if bool_decide (safe = []) || bool_decide (safe = lit "+") then lit "Liked your post" else safe
  else if bool_decide (notif_type = lit "zap") then text "Sent you a zap"
  else if bool_decide (notif_type = lit "reply") then text "Replied to your post"
  else if bool_decide (notif_type = lit "follow") then lit "Started following you"
  else if bool_decide (notif_type = lit "repost") then lit "Reposted your post"
  else if bool_decide (notif_type = lit "mention") then lit "Mentioned you in a post"
  else if bool_decide (notif_type = lit "friend_request") then lit "Sent you a friend request"
  else if bool_decide (notif_type = lit "live_stream") then
    let title := default [] title in
    if bool_decide (title = []) then lit "Went live!" else lit "Went live: " ++ title
  else sanitize_notif_content content 140.

(** Source: src/notification-core/src/events.rs:51-61 (notif_id) *)
Definition notif_id (notif_type event_id from_pubkey : str) : str :=
  notif_type ++ lit ":" ++ clean event_id ++ lit ":" ++ clean from_pubkey.

(** Source: src/sync-core/src/ingest.rs:164-190 (notify_me) *)
Definition notify_me (now : Z) (my_pubkey : str) (e : Event) (notif_type event_id content : str) (d : db) : db :=
  if eq_ignore_ascii_case (ev_pubkey e) my_pubkey then d
  else
    notification_upsert_batch
      [mk_notification (notif_id notif_type event_id (ev_pubkey e)) my_pubkey notif_type (Some event_id)
         (Some (ev_pubkey e)) (Some (format_notification_content notif_type content None))
         (sanitize_ts now (ev_created_at e)) false] d.

(** The author of a stored, visible post.
    Source: src/sync-core/src/ingest.rs:146-159 (post_author_id) *)
Definition post_author_id (d : db) (event_id : str) : option str :=
  p ← head (filter (λ p, eq_ignore_ascii_case (pst_id (post_row p)) event_id = true ∧
                         pst_is_deleted (post_row p) = false) (map_to_list (posts d)).*2);
  Some (pst_pubkey (post_row p)).

(** Source: src/sync-core/src/ingest.rs:492-543 (maybe_notify_text_note) *)
Definition maybe_notify_text_note (now : Z) (my_pubkey : str) (e : Event) (row : PostRow) (d : db) : db :=
  if eq_ignore_ascii_case (ev_pubkey e) my_pubkey then d
  else
    let friend_request :=
      existsb (λ c, eq_ignore_ascii_case c (lit "friend-request")) (values (lit "t") e) in
    let reply_target := or (pst_reply_to row) (pst_root_id row) in
    let reply_to_me :=
      if (rt ← reply_target; post_author_id d rt) is Some a then eq_ignore_ascii_case a my_pubkey else false in
    if friend_request && has_p_tag e my_pubkey then
      notify_me now my_pubkey e (lit "friend_request") (pst_id row) (pst_content row) d
    else if reply_to_me then
      notify_me now my_pubkey e (lit "reply") (default (pst_id row) reply_target) (pst_content row) d
    else if has_p_tag e my_pubkey then
      notify_me now my_pubkey e (lit "mention") (default (ev_id e) (first_e_tag e)) (pst_content row) d
    else d.
End notifications.

(** ** One handler per kind *)

Section handlers.
Context `{Serde, Env}.

(** Only payloads addressed to the user or by the user are passed on; a full
    channel is an error here.
    Source: src/sync-core/src/ingest.rs:559-589 (handle_impl, EncryptedDirectMessage) *)
Definition handle_dm (now : Z) (my_pubkey : str) (e : Event) (s : store) : result DbError store :=
  if has_p_tag e my_pubkey || eq_ignore_ascii_case (ev_pubkey e) my_pubkey then
    let recipient := default my_pubkey (t ← head (filter (λ t, head t = Some (lit "p")) (ev_tags e)); t !! 1) in
    ok_or (Migration "DM notification channel full; not advancing watermark")
      (try_send (Dm (ev_id e) (ev_pubkey e) recipient (ev_content e)
                   (sanitize_ts now (ev_created_at e)) (tags_to_json (ev_tags e))) s)
  else Ok s.

(** Source: src/sync-core/src/ingest.rs:592-622 (handle_impl, Metadata) *)
Definition handle_metadata (now : Z) (e : Event) (s : store) : store :=
  match user_row_of now e with
  | None => s
  | Some row =>
      match get_by_pubkey (st_db s) (usr_pubkey row) with
      | None => send (Profile (usr_pubkey row)) (on_db (user_upsert row) s)
      | Some stored =>
          if (usr_updated_at stored <? usr_updated_at row)%Z then
            let updated := mk_user_row (usr_pubkey row) (usr_npub row) (usr_name row) (usr_display_name row)
              (usr_about row) (usr_picture row) (usr_banner row) (usr_nip05 row) (usr_lud16 row)
              (usr_created_at row) (usr_updated_at row) (usr_metadata_json row)
              (usr_contact_pubkeys stored) (usr_relay_list stored) (usr_follower_count row) in
            send (Profile (usr_pubkey row)) (on_db (user_upsert updated) s)
          else s
      end
  end.

Definition with_lists (contacts relays : str) (r : UserRow) : UserRow :=
  mk_user_row (usr_pubkey r) (usr_npub r) (usr_name r) (usr_display_name r) (usr_about r) (usr_picture r)
    (usr_banner r) (usr_nip05 r) (usr_lud16 r) (usr_created_at r) (usr_updated_at r) (usr_metadata_json r)
    contacts relays (usr_follower_count r).

(** The follower deltas of a new list; [removed] lists the keys of the old list
    that the new one lacks, in the order of the hash set.
    Source: src/sync-core/src/ingest.rs:660-676 (handle_impl, follower_deltas) *)
Definition follower_deltas (pubkey : str) (before new_list : list str) : list (str * Z) :=
  ((λ k, (k, 1%Z)) <$> filter (λ k, k ≠ pubkey ∧ k ∉ before) new_list) ++
  ((λ k, (k, (-1)%Z)) <$> filter (λ k, k ≠ pubkey)
     (elements (list_to_set before ∖ list_to_set new_list : gset str))).

(** Source: src/sync-core/src/ingest.rs:623-688 (handle_impl, ContactList) *)
Definition handle_contact_list (now : Z) (my_pubkey : str) (e : Event) (d : db) : db :=
  let pubkey := ev_pubkey e in
  let existing := get_by_pubkey d pubkey in
  let stored_list := default [] (usr_contact_pubkeys <$> existing) in
  let row := default (bare_user pubkey (to_bech32 pubkey) (sanitize_ts now (ev_created_at e)) []) existing in
  let row := with_lists (strings_to_json (p_tags e)) (strings_to_json (r_tags e)) row in
  let d := user_upsert row d in
  let before := split_pubkey_list stored_list in
  let new_list := split_pubkey_list (usr_contact_pubkeys row) in
  let d := bump_follower_counts (follower_deltas pubkey before new_list) d in
  if negb (eq_ignore_ascii_case pubkey my_pubkey) && has_p_tag e my_pubkey &&
     negb (existsb (λ p, eq_ignore_ascii_case p my_pubkey) before)
  then notify_me now my_pubkey e (lit "follow") (ev_id e) [] d else d.

(** Source: src/sync-core/src/ingest.rs:689-695 (handle_impl, ZapRequest) *)
Definition handle_post (now : Z) (e : Event) (d : db) : result DbError db :=
  match post_row_of now e with
  | Some row => post_upsert row (ensure_author_user now e d)
  | None => Ok d
  end.

(** The digest of a request, from the cache when it is there.
    Source: src/sync-core/src/ingest.rs:310-328 (zap_request_digest) *)
Definition zap_request_digest (cache : gmap str bytes) (req : PostRow) : gmap str bytes * bytes :=
  match cache !! pst_id req with
  | Some d => (cache, d)
  | None =>
      let cache := if (ZAP_REQUEST_DIGEST_CACHE_CAP <=? zsize cache)%Z then ∅ else cache in
      let digest := sha256 (zap_request_canonical_json req) in
      (<[pst_id req := digest]> cache, digest)
  end.

(** Source: src/sync-core/src/ingest.rs:740-750 (handle_impl, tags of a request) *)
Definition request_tags_match (my_pubkey : str) (amount_msats : Z) (req : PostRow) : bool :=
  let tags := default [] (tags_from_json (pst_tags_json req)) in
  existsb (λ t, bool_decide (head t = Some (lit "p")) &&
                if t !! 1 is Some v then eq_ignore_ascii_case v my_pubkey else false) tags &&
  existsb (λ t, bool_decide (head t = Some (lit "amount")) &&
                bool_decide ((v ← t !! 1; parse_u64 v) = Some amount_msats)) tags.

(** [any] stops at the first request that matches.
    Source: src/sync-core/src/ingest.rs:730-751 (handle_impl, matched) *)
Fixpoint any_request (my_pubkey : str) (amount_msats : Z) (desc_hash : bytes) (cache : gmap str bytes)
    (requests : list PostRow) : gmap str bytes * bool :=
  match requests with
  | [] => (cache, false)
  | req :: requests =>
      let '(cache, digest) := zap_request_digest cache req in
      if bool_decide (digest = desc_hash) && request_tags_match my_pubkey amount_msats req then (cache, true)
      else any_request my_pubkey amount_msats desc_hash cache requests
  end.

(** What a receipt must carry before its requests are looked at.
    Source: src/sync-core/src/ingest.rs:697-726 (handle_impl, ZapReceipt guards) *)
Definition zap_receipt (my_pubkey : str) (e : Event) : option (Z * bytes * str) :=
  if has_p_tag e my_pubkey then
    bolt11 ← bolt11_from_event e;
    amount_msats ← ok (parse_msats_from_bolt11 bolt11);
    if (amount_msats =? 0)%Z || negb (bolt11_checksum_valid bech32_decode bolt11) then None
    else
      desc_hash ← bolt11_description_hash bech32_decode bolt11;
      zapped_event ← first_e_tag e;
      Some (amount_msats, desc_hash, zapped_event)
  else None.

(** Source: src/sync-core/src/ingest.rs:696-769 (handle_impl, ZapReceipt) *)
Definition handle_zap_receipt (now : Z) (my_pubkey : str) (e : Event) (s : store) : store :=
  match zap_receipt my_pubkey e with
  | None => s
  | Some (amount_msats, desc_hash, zapped_event) =>
      let requests := get_zap_requests_for_note zapped_event (st_db s) in
      let '(digests, matched) := any_request my_pubkey amount_msats desc_hash (st_digests s) requests in
      let s := mk_store (st_db s) digests (st_sent s) (st_room s) in
      if (matched : bool) then
        let row := mk_zap (ev_id e) (ev_pubkey e) my_pubkey (Some zapped_event)
          (Z.min ((amount_msats + 999) / 1000) i64_max) (Z.min amount_msats i64_max) (Some (ev_content e))
          (sanitize_ts now (ev_created_at e)) (lit "public") in
        on_db (λ d, notify_me now my_pubkey e (lit "zap") zapped_event [] (zap_upsert row d)) s
      else s
  end.

(** Source: src/sync-core/src/ingest.rs:770-800 (handle_impl, RelayList) *)
Definition handle_relay_list (e : Event) (d : db) : db :=
  fold_left (λ d tag,
    match tag with
    | k :: url :: rest =>
        if bool_decide (k = lit "r") && is_valid_event_relay_url url then
          let mode := head rest in
          relay_upsert (mk_relay url (Some (ev_pubkey e)) None
            (negb (bool_decide (mode = Some (lit "write")))) (negb (bool_decide (mode = Some (lit "read"))))
            0 None (S754_finite false 4503599627370496 (-52))) d
        else d
    | _ => d
    end) (ev_tags e) d.

(** Source: src/sync-core/src/ingest.rs:815-828 (handle_impl, bookmark rows) *)
Definition bookmark_rows (now : Z) (e : Event) : list BookmarkRow :=
  imap (λ idx event_id,
    mk_bookmark (if idx =? 0 then ev_id e else ev_id e ++ lit ":" ++ event_id) (ev_pubkey e) event_id
      (sanitize_ts now (ev_created_at e))) (e_tags e).

(** Source: src/sync-core/src/ingest.rs:801-833 (handle_impl, Bookmarks) *)
Definition handle_bookmarks (now : Z) (e : Event) (d : db) : db :=
  match e_tags e with
  | [] => d
  | _ => delete_for_deleted_targets (ev_pubkey e)
           (bookmark_upsert_many (bookmark_rows now e) (ensure_author_user now e d))
  end.

Definition authored_by (my_pubkey : str) (a : option str) : bool :=
  if a is Some a then eq_ignore_ascii_case a my_pubkey else false.

(** Source: src/sync-core/src/ingest.rs:834-876 (handle_impl, Reaction) *)
Definition handle_reaction (now : Z) (my_pubkey : str) (e : Event) (s : store) : store :=
  match first_e_tag e with
  | None => s
  | Some target =>
      let row := mk_reaction (ev_id e) (ev_pubkey e) target KIND_REACTION (Some (ev_content e))
                   (sanitize_ts now (ev_created_at e)) in
      let d := reaction_upsert row (ensure_author_user now e (st_db s)) in
      let d := if authored_by my_pubkey (post_author_id d target)
               then notify_me now my_pubkey e (lit "reaction") target (ev_content e) d else d in
      send (Reaction (ev_id e) target (ev_pubkey e) (ev_content e) (sanitize_ts now (ev_created_at e)))
        (on_db (λ _, d) s)
  end.

(** Source: src/sync-core/src/ingest.rs:877-896 (handle_impl, Repost) *)
Definition handle_repost (now : Z) (my_pubkey : str) (e : Event) (d : db) : db :=
  match first_e_tag e with
  | None => d
  | Some target =>
      let d := repost_upsert (mk_repost (ev_id e) (ev_pubkey e) target (sanitize_ts now (ev_created_at e)))
                 (ensure_author_user now e d) in
      if authored_by my_pubkey (post_author_id d target)
      then notify_me now my_pubkey e (lit "repost") target [] d else d
  end.

(** The first occurrence of each tag, ignoring case, at most MAX_TAGS.
    Source: src/sync-core/src/ingest.rs:905-919 (handle_impl, tag_rows) *)
Definition tag_rows (now : Z) (e : Event) : list HashtagRow :=
  let fix first_seen seen l :=
    match l with
    | [] => []
    | t :: l =>
        let k := to_ascii_lowercase t in
        if bool_decide (k ∈ (seen : gset str)) then first_seen seen l
        else t :: first_seen ({[ k ]} ∪ seen) l
    end in
  (λ t, mk_hashtag t (ev_pubkey e) (sanitize_ts now (ev_created_at e)) 1) <$>
    take (Z.to_nat MAX_TAGS) (first_seen ∅ (Content.extract (ev_content e))).

(** Source: src/sync-core/src/ingest.rs:899-938 (handle_impl, TextNote) *)
Definition handle_text_note (now : Z) (my_pubkey : str) (e : Event) (s : store) : result DbError store :=
  match post_row_of now e with
  | None => Ok s
  | Some row =>
      d ← post_upsert row (ensure_author_user now e (st_db s));
      let d := hashtag_upsert_many (tag_rows now e) d in
      let d := maybe_notify_text_note now my_pubkey e row d in
      Ok (send (Feed (pst_id row) (pst_pubkey row) (pst_content row) (sanitize_ts now (ev_created_at e))
                  (ev_kind e)) (on_db (λ _, d) s))
  end.

(** Source: src/sync-core/src/ingest.rs:939-950 (handle_impl, EventDeletion) *)
Definition handle_deletion (e : Event) (d : db) : db :=
  fold_left (λ d eid, mark_deleted eid (ev_pubkey e) d) (e_tags e) d.

(** A verified event.
    Source: src/sync-core/src/ingest.rs:559-964 (handle_impl, match) *)
Definition handle_kind (now : Z) (my_pubkey : str) (e : Event) (s : store) : result DbError store :=
  let k := ev_kind e in
  if (k =? EncryptedDirectMessage)%Z then handle_dm now my_pubkey e s
  else if (k =? Metadata)%Z then Ok (handle_metadata now e s)
  else if (k =? ContactList)%Z then Ok (on_db (handle_contact_list now my_pubkey e) s)
  else if (k =? ZapReceipt)%Z then Ok (handle_zap_receipt now my_pubkey e s)
  else if (k =? RelayList)%Z then Ok (on_db (handle_relay_list e) s)
  else if (k =? Bookmarks)%Z then Ok (on_db (handle_bookmarks now e) s)
  else if (k =? ReactionKind)%Z then Ok (handle_reaction now my_pubkey e s)
  else if (k =? Repost)%Z then Ok (on_db (handle_repost now my_pubkey e) s)
  else if (k =? TextNote)%Z then handle_text_note now my_pubkey e s
  else if (k =? EventDeletion)%Z then Ok (on_db (handle_deletion e) s)
  else if (k =? ZapRequest)%Z || bool_decide (k ∈ POST_KIND_ALLOWLIST)
  then d ← handle_post now e (st_db s); Ok (on_db (λ _, d) s)
  else Ok s.

(** The kinds the batch hands to the single-event path.
    Source: src/sync-core/src/ingest.rs:1073-1081 (handle_batch_masked, kinds) *)
Definition handled_at_once (k : Z) : bool :=
  bool_decide (k ∈ [EncryptedDirectMessage; Metadata; ContactList; ZapReceipt; RelayList; Bookmarks;
                    ReactionKind; Repost; EventDeletion]).

(** What the loop over a batch keeps: the rows to write, the positions that
    succeeded, the notes to notify about, the authors ensured.
    Source: src/sync-core/src/ingest.rs:1051-1067 (handle_batch_masked, state) *)
Record batch := mk_batch {
  bt_store : store;
  bt_rows : list PostRow;
  bt_ok : list nat;
  bt_notify : list (Event * PostRow);
  bt_authors : gset str
}.

(** Source: src/sync-core/src/ingest.rs:1090-1151 (handle_batch_masked, posts) *)
Definition batch_post (now : Z) (b : batch) (pos : nat) (e : Event) : batch :=
  if bool_decide (ev_kind e ∈ POST_KIND_ALLOWLIST) then
    match post_row_of now e with
    | None => b
    | Some row =>
        let s := if bool_decide (ev_pubkey e ∈ bt_authors b) then bt_store b
                 else on_db (ensure_author_user now e) (bt_store b) in
        let note := (ev_kind e =? TextNote)%Z in
        let s := if note then on_db (hashtag_upsert_many (tag_rows now e)) s else s in
        mk_batch s (bt_rows b ++ [row]) (bt_ok b ++ [pos])
          (if note then bt_notify b ++ [(e, row)] else bt_notify b) ({[ ev_pubkey e ]} ∪ bt_authors b)
    end
  else b.

(** One event of a batch; a failing handler is skipped.
    Source: src/sync-core/src/ingest.rs:1068-1154 (handle_batch_masked, loop) *)
Definition batch_event (now : Z) (my_pubkey : str) (b : batch) (pos : nat) (e : Event) : batch :=
  if handled_at_once (ev_kind e) then
    match handle_kind now my_pubkey e (bt_store b) with
    | Ok s => mk_batch s (bt_rows b) (bt_ok b ++ [pos]) (bt_notify b) (bt_authors b)
    | Err _ => b
    end
  else batch_post now b pos e.

Fixpoint batch_loop (now : Z) (my_pubkey : str) (b : batch) (pos : nat) (events : list (Event * bool)) : batch :=
  match events with
  | [] => b
  | (e, verified) :: events =>
      batch_loop now my_pubkey (if (verified : bool) then batch_event now my_pubkey b pos e else b) (S pos) events
  end.

(** The rows, then the notifications, then the updates.
    Source: src/sync-core/src/ingest.rs:1034-1183 (handle_batch_masked) *)
Definition handle_batch_masked (now : Z) (my_pubkey : str) (events : list (Event * bool)) (s : store)
    : store * list nat :=
  match events with
  | [] => (s, [])
  | _ =>
      let b := batch_loop now my_pubkey (mk_batch s [] [] [] ∅) 0 events in
      let s := on_db (post_upsert_batch (bt_rows b)) (bt_store b) in
      let s := on_db (λ d, fold_left (λ d en,
                 maybe_notify_text_note now my_pubkey en.1 en.2 d) (bt_notify b) d) s in
      let s := fold_left (λ s row,
                 if (pst_kind row =? TextNote)%Z
                 then send (Feed (pst_id row) (pst_pubkey row) (pst_content row) (pst_created_at row) (pst_kind row)) s
                 else s) (bt_rows b) s in
      (s, bt_ok b)
  end.

(** ** Entry points *)

Abbreviation check := (verify_event event_id event_sig event_verify sha256 android) (only parsing).

(** The transaction is rolled back on an error.
    Source: src/sync-core/src/ingest.rs:439-451 (handle) *)
Definition handle (now : Z) (my_pubkey : str) (c : cache_state) (e : Event) (s : store)
    : cache_state * result DbError store :=
  let '(c, ok) := check c e in
  (c, if (ok : bool) then handle_kind now my_pubkey e s else Err (Migration "event verification failed")).

(** Source: src/sync-core/src/ingest.rs:473-485 (handle_verified) *)
Definition handle_verified (now : Z) (my_pubkey : str) (e : Event) (s : store) : result DbError store :=
  handle_kind now my_pubkey e s.

(** The signatures of a batch, in order.
    Source: src/sync-core/src/ingest.rs:981-994 (handle_batch, verified_mask) *)
Fixpoint verify_all (c : cache_state) (events : list Event) : cache_state * list (Event * bool) :=
  match events with
  | [] => (c, [])
  | e :: events =>
      let '(c, ok) := check c e in
      let '(c, rest) := verify_all c events in (c, (e, ok) :: rest)
  end.

(** Source: src/sync-core/src/ingest.rs:971-997 (handle_batch) *)
Definition handle_batch (now : Z) (my_pubkey : str) (c : cache_state) (events : list Event) (s : store)
    : cache_state * (store * list nat) :=
  let '(c, masked) := verify_all c events in (c, handle_batch_masked now my_pubkey masked s).

(** Source: src/sync-core/src/ingest.rs:1019-1029 (handle_batch_verified) *)
Definition handle_batch_verified (now : Z) (my_pubkey : str) (events : list Event) (s : store) : store * list nat :=
  handle_batch_masked now my_pubkey ((λ e, (e, true)) <$> events) s.
End handlers.

(** Source: src/sync-core/src/ingest.rs:1186-1198 (watermark_key) *)
Definition watermark_key (kind : Z) : str :=
  if (kind =? KIND_MINIS)%Z then WM_META
  else if (kind =? TextNote)%Z then WM_FEED
  else if (kind =? EncryptedDirectMessage)%Z then WM_DM
  else if (kind =? Metadata)%Z then WM_META
  else if bool_decide (kind ∈ [ContactList; RelayList; Bookmarks; ZapReceipt]) then WM_META
  else WM_FEED.

(** Source: src/sync-core/src/ingest.rs:418-425 (watermark) *)
Definition watermark (d : db) (key : str) : Z :=
  default 0%Z (v ← settings_get d key; parse_u64 v).

(** Source: src/sync-core/src/ingest.rs:429-433 (set_watermark) *)
Definition set_watermark (key : str) (ts : Z) (d : db) : db := settings_set key (print_u64 ts) d.

(** ** A concrete environment *)

Module IngestExamples.

(** Lists of strings with each string preceded by its length. *)
Definition pack (l : list str) : str := l ≫= (λ s, zlen s :: s).

Fixpoint unpack (fuel : nat) (s : str) : option (list str) :=
  match s, fuel with
  | [], _ => Some []
  | n :: s, S fuel =>
      l ← unpack fuel (drop (Z.to_nat n) s);
      Some (take (Z.to_nat n) s :: l)
  | _ :: _, O => None
  end.

Definition unbracket (s : str) : option str :=
  match s with 0x5B%Z :: s => Some (take (length s - 1) s) | _ => None end.

Lemma unpack_pack l : unpack (length l) (pack l) = Some l.
Proof.
  induction l as [|s l IH]; [done|]. unfold pack. cbn [length mbind list_bind app unpack].
  fold (pack l). rewrite Nat2Z.id, drop_app_length, take_app_length, IH. done.
Qed.

Lemma unpack_fuel fuel fuel' s l : unpack fuel s = Some l → fuel ≤ fuel' → unpack fuel' s = Some l.
Proof.
  revert fuel' s l. induction fuel as [|fuel IH]; intros fuel' s l Hu Hle.
  - destruct s; [|done]. by destruct fuel'.
  - destruct s as [|n s]; [by destruct fuel'|]. destruct fuel' as [|fuel']; [lia|]. cbn [unpack] in *.
    destruct (unpack fuel _) as [l'|] eqn:E; [|done]. rewrite (IH fuel' _ _ E) by lia. done.
Qed.

Lemma pack_length l : length l ≤ length (pack l).
Proof.
  induction l as [|s l IH]; [done|]. change (pack (s :: l)) with (zlen s :: s ++ pack l).
  cbn [length]. rewrite length_app. lia.
Qed.

#[export] Instance packed : Serde.
Proof.
  refine {| strings_to_json l := lit "[" ++ pack l ++ lit "]";
            strings_from_json s := t ← unbracket s; unpack (length t) t;
            tags_to_json l := pack (pack <$> l);
            tags_from_json s := None;
            string_to_json s := s;
            object_field s := Some (λ k, if bool_decide (k = lit "name") then Some s else None) |}.
  - intros l. cbn [lit app]. simpl. rewrite length_app, Nat.add_sub. rewrite take_app_length. simpl.
    eapply unpack_fuel; [apply unpack_pack|apply pack_length].
  - done.
  - intros l. by exists (pack l).
Defined.

(** An event verifies when its signature is its identifier. *)
#[export] Instance env : Env := {|
  sha256 s := s;
  bech32_decode s := Some (s, []);
  to_bech32 s := s;
  event_id e := ev_id e;
  event_sig e := ev_sig e;
  event_verify e := bool_decide (ev_sig e = ev_id e);
  android := false;
  urls := {| url_parse s := None |};
  content_crates := {| ammonia_text s := s; unicode_word s := true |};
  post_order := _
|}.

Definition event (id author : string) (at_ kind : Z) (tags : list (list string)) (content : string) : Event :=
  mk_event (lit id) (lit author) at_ kind ((λ t : list string, lit <$> t) <$> tags) (lit content) (lit id).

Definition empty_store : store := mk_store db_empty ∅ [] 10.

End IngestExamples.
