(* ===== verification/PostLaws.v ===== *)
(** What the ingest keeps true of the posts table: a post never disappears and
    never changes its author, kind, time or place in a thread; a deleted post
    stays as it was; a post is deleted only by a deletion of its own author
    under an identifier and a signature that verified. Batches store the posts that the events one by one would store, but
    lose a deletion that arrives with its post. *)

From S2P Require Import Prelude RustStr Text Sql Verify Store Ingest.

(** How a stored post may change; [del] says whether its author deleted it. *)
Record evolves (del : Prop) (p p' : Post) : Prop := {
  evo_key : pst_id (post_row p') = pst_id (post_row p);
  evo_author : pst_pubkey (post_row p') = pst_pubkey (post_row p);
  evo_kind : pst_kind (post_row p') = pst_kind (post_row p);
  evo_time : pst_created_at (post_row p') = pst_created_at (post_row p);
  evo_reply : pst_reply_to (post_row p') = pst_reply_to (post_row p);
  evo_root : pst_root_id (post_row p') = pst_root_id (post_row p);
  evo_tombstone : pst_is_deleted (post_row p) = true → post_row p' = post_row p;
  evo_deleted : pst_is_deleted (post_row p') = true → pst_is_deleted (post_row p) = true ∨ del
}.

(** [D id author]: the author asked for the deletion of the post. *)
Definition posts_evolve (D : str → str → Prop) (d d' : db) : Prop :=
  ∀ k p, posts d !! k = Some p →
    ∃ p', posts d' !! k = Some p' ∧ evolves (D k (pst_pubkey (post_row p))) p p'.

Lemma evolves_refl D p : evolves D p p.
Proof. split; auto. Qed.

Lemma posts_evolve_eq D d d' : posts d' = posts d → posts_evolve D d d'.
Proof. intros E k p Hp. exists p. rewrite E. split; [done|apply evolves_refl]. Qed.

Lemma posts_evolve_trans (D1 D2 D : str → str → Prop) d1 d2 d3 :
  (∀ k a, D1 k a → D k a) → (∀ k a, D2 k a → D k a) →
  posts_evolve D1 d1 d2 → posts_evolve D2 d2 d3 → posts_evolve D d1 d3.
Proof.
  intros H1 H2 E1 E2 k p Hp. destruct (E1 k p Hp) as (p2 & Hp2 & [A1 A2 A3 A4 A5 A6 A7 A8]).
  destruct (E2 k p2 Hp2) as (p3 & Hp3 & [B1 B2 B3 B4 B5 B6 B7 B8]). exists p3. split; [done|].
  split; try congruence.
  - intros Ht. rewrite B7; [auto|]. by rewrite A7.
  - intros Ht. destruct (B8 Ht) as [Hd|Hd]; [destruct (A8 Hd); auto|]. right. apply H2. by rewrite <- A2.
Qed.

(** The same with one [D]; for chains of steps. *)
Lemma posts_evolve_step D d1 d2 d3 :
  posts_evolve D d1 d2 → posts_evolve D d2 d3 → posts_evolve D d1 d3.
Proof. by apply posts_evolve_trans. Qed.

Lemma store_post_evolves D p d : pst_is_deleted p = false → posts_evolve D d (store_post p d).
Proof.
  intros Hv k q Hq. unfold store_post. cbn [posts on_posts ensure_exists on_users]. unfold upsert.
  set (p' := normalize_post p). destruct (decide (k = pst_id p')) as [->|Hk].
  - rewrite Hq, lookup_insert_eq. eexists. split; [done|]. unfold merge_post. cbn [post_row].
    destruct (pst_is_deleted (post_row q)) eqn:Hd; [apply evolves_refl|].
    split; try done; simpl; [by rewrite Hd|]. by rewrite Hv.
  - rewrite lookup_insert_ne by done. exists q. split; [done|apply evolves_refl].
Qed.

Lemma post_upsert_batch_evolves D ps d :
  Forall (λ p, pst_is_deleted p = false) ps → posts_evolve D d (post_upsert_batch ps d).
Proof.
  intros Hps. unfold post_upsert_batch. revert d. induction Hps as [|p ps Hp Hps IH]; intros d; cbn [fold_left].
  { by apply posts_evolve_eq. }
  eapply posts_evolve_step; [|apply IH]. destruct (row_too_big _ _); [by apply posts_evolve_eq|].
  by apply store_post_evolves.
Qed.

Lemma mark_deleted_evolves (D : str → str → Prop) id author d :
  D (clean id) (clean author) → posts_evolve D d (mark_deleted id author d).
Proof.
  intros HD k p Hp. unfold mark_deleted. cbn [posts on_posts].
  destruct (decide (k = clean id)) as [->|Hk].
  - rewrite lookup_alter_eq, Hp. eexists. split; [done|]. case_bool_decide as Ha; [|apply evolves_refl].
    split; try done; simpl.
    + intros Ht. destruct p as [[] n]. simpl in *. by subst.
    + intros _. right. by rewrite Ha.
  - rewrite lookup_alter_ne by done. exists p. split; [done|apply evolves_refl].
Qed.

Lemma reposts_ai_evolves D id d : posts_evolve D d (reposts_ai id d).
Proof.
  intros k p Hp. unfold reposts_ai. cbn [posts on_posts].
  destruct (decide (k = id)) as [->|Hk].
  - rewrite lookup_alter_eq, Hp. eexists. split; [done|]. split; auto.
  - rewrite lookup_alter_ne by done. exists p. split; [done|apply evolves_refl].
Qed.

(** Operations on the other tables. *)
Lemma notification_posts rows d : posts (notification_upsert_batch rows d) = posts d.
Proof.
  unfold notification_upsert_batch. revert d. induction rows as [|n rows IH]; intros d; cbn [fold_left]; [done|].
  rewrite IH. by destruct (notification_too_big _).
Qed.

Section ingest.
Context `{Serde, Env}.

Lemma notify_me_posts now me e t i c d : posts (notify_me now me e t i c d) = posts d.
Proof. unfold notify_me. destruct (eq_ignore_ascii_case _ _); [done|apply notification_posts]. Qed.

Lemma maybe_notify_posts now me e row d : posts (maybe_notify_text_note now me e row d) = posts d.
Proof.
  unfold maybe_notify_text_note. destruct (eq_ignore_ascii_case _ _); [done|].
  repeat match goal with |- context [if ?b then notify_me _ _ _ _ _ _ _ else _] => destruct b end;
    rewrite ?notify_me_posts; done.
Qed.

Lemma bookmarks_posts rows d : posts (bookmark_upsert_many rows d) = posts d.
Proof.
  unfold bookmark_upsert_many. cbn [posts on_bookmarks]. generalize (normalize_bookmark <$> rows). intros l.
  revert d. induction l as [|r l IH]; intros d; cbn [fold_left]; [done|]. by rewrite IH.
Qed.

Lemma relay_list_posts e d : posts (handle_relay_list e d) = posts d.
Proof.
  unfold handle_relay_list. revert d. induction (ev_tags e) as [|t l IH]; intros d; cbn [fold_left]; [done|].
  rewrite IH. destruct t as [|k [|u r]]; [done..|]. by destruct (_ && _).
Qed.

Lemma reaction_posts row d : posts (reaction_upsert row d) = posts d.
Proof.
  unfold reaction_upsert. destruct (head _) as [r|]; [destruct (_ <? _)%Z; [done|]|];
    by case_bool_decide.
Qed.

(** What an event asks to delete. *)
Definition deletes (e : Event) (k a : str) : Prop :=
  ev_kind e = EventDeletion ∧ a = clean (ev_pubkey e) ∧ ∃ eid, eid ∈ e_tags e ∧ clean eid = k.

Lemma deletion_evolves e d : ev_kind e = EventDeletion → posts_evolve (deletes e) d (handle_deletion e d).
Proof.
  intros Hk. unfold handle_deletion.
  assert (Hs : ∀ eid, eid ∈ e_tags e → eid ∈ e_tags e) by done. revert Hs.
  generalize (e_tags e) at 1 3. intros l. revert d. induction l as [|i l IH]; intros d Hl; cbn [fold_left].
  { by apply posts_evolve_eq. }
  eapply posts_evolve_step; [|apply IH; intros; apply Hl; by right].
  apply mark_deleted_evolves. split; [done|split; [done|]]. exists i. split; [apply Hl; left|done].
Qed.

Lemma post_row_visible now e row : post_row_of now e = Some row → pst_is_deleted row = false.
Proof. unfold post_row_of. destruct (_ <? _)%Z; [done|]. by intros [= <-]. Qed.

Lemma post_upsert_evolves D row d d' :
  pst_is_deleted row = false → post_upsert row d = Ok d' → posts_evolve D d d'.
Proof.
  intros Hv. unfold post_upsert. destruct (row_too_big _ _); [done|]. intros [= <-]. by apply store_post_evolves.
Qed.

Lemma handle_post_evolves D now e d d' : handle_post now e d = Ok d' → posts_evolve D d d'.
Proof.
  unfold handle_post. destruct (post_row_of now e) as [row|] eqn:Hr; [|intros [= <-]; by apply posts_evolve_eq].
  intros Hu. apply (post_upsert_evolves D) in Hu; [done|]. by eapply post_row_visible.
Qed.

Lemma send_db u s : st_db (send u s) = st_db s.
Proof. unfold send, try_send. by destruct (st_room s). Qed.

(** The effect of one verified event on the posts. *)
Lemma handle_kind_evolves now me e s s' :
  handle_kind now me e s = Ok s' → posts_evolve (deletes e) (st_db s) (st_db s').
Proof.
  unfold handle_kind. intros Hs.
  repeat match type of Hs with (if ?b then _ else _) = _ => destruct b eqn:? end.
  - unfold handle_dm in Hs. destruct (_ || _); [|by injection Hs as <-; apply posts_evolve_eq].
    unfold try_send in Hs. destruct (st_room s); [done|]. injection Hs as <-. by apply posts_evolve_eq.
  - injection Hs as <-. apply posts_evolve_eq. unfold handle_metadata.
    destruct (user_row_of now e); [|done]. destruct (get_by_pubkey _ _); [destruct (_ <? _)%Z; [|done]|];
      by rewrite send_db.
  - injection Hs as <-. apply posts_evolve_eq. simpl. unfold handle_contact_list. cbv zeta.
    destruct (_ && _ && _); [by rewrite notify_me_posts|done].
  - injection Hs as <-. apply posts_evolve_eq. unfold handle_zap_receipt.
    destruct (zap_receipt me e) as [[[a h] z]|]; [|done]. destruct (any_request _ _ _ _ _) as [c [|]]; [|done].
    simpl. by rewrite notify_me_posts.
  - injection Hs as <-. apply posts_evolve_eq, relay_list_posts.
  - injection Hs as <-. apply posts_evolve_eq. cbn [st_db on_db]. unfold handle_bookmarks.
    destruct (e_tags e); [done|]. unfold delete_for_deleted_targets. cbn [posts on_bookmarks].
    by rewrite bookmarks_posts.
  - injection Hs as <-. apply posts_evolve_eq. unfold handle_reaction. destruct (first_e_tag e); [|done].
    rewrite send_db. simpl. destruct (authored_by _ _); by rewrite ?notify_me_posts, reaction_posts.
  - injection Hs as <-. simpl. unfold handle_repost. destruct (first_e_tag e) as [t|]; [|by apply posts_evolve_eq].
    apply (posts_evolve_step _ _ (repost_upsert (mk_repost (ev_id e) (ev_pubkey e) t
      (sanitize_ts now (ev_created_at e))) (ensure_author_user now e (st_db s)))).
    + unfold repost_upsert. destruct (_ !! _); [by apply posts_evolve_eq|].
      eapply posts_evolve_step; [|apply reposts_ai_evolves]. by apply posts_evolve_eq.
    + apply posts_evolve_eq. destruct (authored_by _ _); by rewrite ?notify_me_posts.
  - unfold handle_text_note in Hs. destruct (post_row_of now e) as [row|] eqn:Hr;
      [|by injection Hs as <-; apply posts_evolve_eq].
    apply result_bind_ok in Hs as (d' & Hd & [= <-]). rewrite send_db. cbn [st_db on_db].
    eapply posts_evolve_step; [|apply posts_evolve_eq, maybe_notify_posts].
    apply (post_upsert_evolves (deletes e)) in Hd; [|by eapply post_row_visible].
    eapply posts_evolve_step; [|eapply posts_evolve_step; [exact Hd|]]; by apply posts_evolve_eq.
  - injection Hs as <-. apply deletion_evolves. by apply Z.eqb_eq.
  - inv_ok. simpl. by eapply handle_post_evolves.
  - injection Hs as <-. by apply posts_evolve_eq.
Qed.
(** ** Batches *)

(** Some verified event of the list asked for the deletion. *)
Definition deletes_any (events : list (Event * bool)) (k a : str) : Prop :=
  ∃ e, (e, true) ∈ events ∧ deletes e k a.

Definition visible_rows (b : batch) : Prop := Forall (λ p, pst_is_deleted p = false) (bt_rows b).

Lemma batch_event_evolves now me b pos e :
  visible_rows b →
  visible_rows (batch_event now me b pos e) ∧
  posts_evolve (deletes e) (st_db (bt_store b)) (st_db (bt_store (batch_event now me b pos e))).
Proof.
  intros Hv. unfold batch_event. destruct (handled_at_once _).
  - destruct (handle_kind now me e (bt_store b)) as [s|er] eqn:Hs; [|split; [done|by apply posts_evolve_eq]].
    split; [done|]. by eapply handle_kind_evolves.
  - unfold batch_post. case_bool_decide; [|split; [done|by apply posts_evolve_eq]].
    destruct (post_row_of now e) as [row|] eqn:Hr; [|split; [done|by apply posts_evolve_eq]]. split.
    + apply Forall_app. split; [done|]. constructor; [by eapply post_row_visible|constructor].
    + apply posts_evolve_eq. cbn [bt_store]. case_bool_decide; by destruct (_ =? _)%Z.
Qed.

Lemma batch_loop_evolves now me events b pos :
  visible_rows b →
  let b' := batch_loop now me b pos events in
  visible_rows b' ∧ posts_evolve (deletes_any events) (st_db (bt_store b)) (st_db (bt_store b')).
Proof.
  revert b pos. induction events as [|[e v] events IH]; intros b pos Hv; cbn [batch_loop]; cbv zeta.
  { split; [done|by apply posts_evolve_eq]. }
  set (b1 := if v then _ else b).
  assert (H1 : visible_rows b1 ∧ posts_evolve (deletes_any ((e, v) :: events))
                 (st_db (bt_store b)) (st_db (bt_store b1))).
  { unfold b1. destruct v; [|split; [done|by apply posts_evolve_eq]].
    destruct (batch_event_evolves now me b pos e Hv) as [? Hp]. split; [done|].
    eapply posts_evolve_trans; [| |exact Hp|by apply posts_evolve_eq].
    - intros k a Hd. exists e. split; [left|done].
    - intros k a Hd. exact Hd. }
  destruct H1 as [Hv1 Hp1]. destruct (IH b1 (S pos) Hv1) as [Hv2 Hp2]. split; [done|].
  eapply posts_evolve_trans; [| |exact Hp1|exact Hp2]; [done|].
  intros k a (e' & He & Hd). exists e'. split; [by right|done].
Qed.

Lemma send_feeds_db rows s :
  st_db (fold_left (λ s row, if (pst_kind row =? TextNote)%Z
    then send (Feed (pst_id row) (pst_pubkey row) (pst_content row) (pst_created_at row) (pst_kind row)) s
    else s) rows s) = st_db s.
Proof.
  revert s. induction rows as [|r rows IH]; intros s; cbn [fold_left]; [done|]. rewrite IH.
  destruct (_ =? _)%Z; [apply send_db|done].
Qed.

Lemma notify_queue_posts now me q d :
  posts (fold_left (λ d en, maybe_notify_text_note now me en.1 en.2 d) q d) = posts d.
Proof.
  revert d. induction q as [|en q IH]; intros d; cbn [fold_left]; [done|]. by rewrite IH, maybe_notify_posts.
Qed.

Lemma handle_batch_masked_db now me events s :
  let b := batch_loop now me (mk_batch s [] [] [] ∅) 0 events in
  st_db (handle_batch_masked now me events s).1 =
  fold_left (λ d en, maybe_notify_text_note now me en.1 en.2 d) (bt_notify b)
    (post_upsert_batch (bt_rows b) (st_db (bt_store b))).
Proof. destruct events as [|ev events]; [done|]. cbn [fst handle_batch_masked]. cbv zeta. by rewrite send_feeds_db. Qed.

Lemma handle_batch_masked_evolves now me events s :
  posts_evolve (deletes_any events) (st_db s) (st_db (handle_batch_masked now me events s).1).
Proof.
  rewrite handle_batch_masked_db.
  destruct (batch_loop_evolves now me events (mk_batch s [] [] [] ∅) 0) as [Hv Hp]; [constructor|].
  eapply posts_evolve_step; [exact Hp|].
  eapply posts_evolve_step; [by apply post_upsert_batch_evolves|].
  apply posts_evolve_eq, notify_queue_posts.
Qed.

(** ** Runs *)

Inductive action :=
| One (now : Z) (e : Event)
| Many (now : Z) (events : list Event).

Definition events_of (a : action) : list Event := match a with One _ e => [e] | Many _ es => es end.

(** A failed single ingest leaves the tables as they were. *)
Definition act (me : str) (cs : cache_state * store) (a : action) : cache_state * store :=
  match a with
  | One now e => let '(c, r) := handle now me cs.1 e cs.2 in (c, unwrap_or cs.2 r)
  | Many now es => let '(c, r) := handle_batch now me cs.1 es cs.2 in (c, r.1)
  end.

Definition run (me : str) (s : store) (acts : list action) : cache_state * store :=
  fold_left (act me) acts (None, s).

Abbreviation check := (verify_event event_id event_sig event_verify sha256 android) (only parsing).
Abbreviation key_of := (compute_verify_cache_key event_id event_sig sha256) (only parsing).

(** An event of [seen] with this identifier and signature verified. *)
Definition vouched (seen : list Event) (e : Event) : Prop := backed event_id event_sig event_verify sha256 (.∈ seen) (key_of e).

Definition all_backed (seen : list Event) (c : cache_state) : Prop :=
  ∀ k, k ∈ cache_keys c → backed event_id event_sig event_verify sha256 (.∈ seen) k.

(** The deletions of [acts] that count. *)
Definition asked (seen : list Event) (acts : list action) (k a : str) : Prop :=
  ∃ e, e ∈ acts ≫= events_of ∧ deletes e k a ∧ vouched seen e.

Section seen.
Context (seen : list Event).

Lemma check_backed c e :
  e ∈ seen → all_backed seen c → all_backed seen (check c e).1 ∧ ((check c e).2 = true → vouched seen e).
Proof. apply (verify_event_backed _ _ _ _ _ (.∈ seen)). Qed.

Lemma verify_all_backed events c :
  (∀ e, e ∈ events → e ∈ seen) → all_backed seen c →
  all_backed seen (verify_all c events).1 ∧
  ∀ e, (e, true) ∈ (verify_all c events).2 → e ∈ events ∧ vouched seen e.
Proof.
  revert c. induction events as [|e events IH]; intros c Hsub Hc; cbn [verify_all].
  { split; [done|]. intros e He. by apply elem_of_nil in He. }
  destruct (check_backed c e (Hsub e ltac:(by left)) Hc) as [H1 H2]. destruct (check c e) as [c1 ok].
  destruct (IH c1 (λ e' He', Hsub e' ltac:(by right)) H1) as [H3 H4]. destruct (verify_all c1 events) as [c2 rest]. split; [done|].
  intros e' He'. cbn [snd] in He'. apply elem_of_cons in He' as [[= -> <-]|He']; [split; [left|auto]|].
  destruct (H4 e' He'). split; [by right|done].
Qed.

Lemma act_evolves me c s a :
  (∀ e, e ∈ events_of a → e ∈ seen) → all_backed seen c →
  all_backed seen (act me (c, s) a).1 ∧
  posts_evolve (asked seen [a]) (st_db s) (st_db (act me (c, s) a).2).
Proof.
  intros Hsub Hc. destruct a as [now e|now es]; unfold act, handle, handle_batch; cbn [fst snd].
  - destruct (check_backed c e (Hsub e ltac:(by left)) Hc) as [H1 H2]. destruct (check c e) as [c1 [|]]; cbn [fst snd] in *;
      (split; [done|]); [|by apply posts_evolve_eq].
    destruct (handle_kind now me e s) as [s'|er] eqn:Hs; [|by apply posts_evolve_eq]. simpl.
    apply handle_kind_evolves in Hs.
    eapply (posts_evolve_trans (deletes e) (deletes e)); [| |exact Hs|by apply posts_evolve_eq];
      intros k a Hd; exists e; set_solver.
  - destruct (verify_all_backed es c Hsub Hc) as [H1 H2]. destruct (verify_all c es) as [c1 masked].
    cbn [fst snd] in *. pose proof (handle_batch_masked_evolves now me masked s) as Hp.
    destruct (handle_batch_masked now me masked s) as [s' oks]. split; [done|]. cbn [fst snd] in *.
    eapply (posts_evolve_trans (deletes_any masked) (deletes_any masked));
      [| |exact Hp|by apply posts_evolve_eq];
      intros k a (e & He & Hd); exists e; destruct (H2 e He); set_solver.
Qed.

Lemma run_evolves me s acts :
  (∀ e, e ∈ acts ≫= events_of → e ∈ seen) → posts_evolve (asked seen acts) (st_db s) (st_db (run me s acts).2).
Proof.
  intros Hsub. unfold run. assert (Hc : all_backed seen None) by (intros k Hk; set_solver).
  cut (all_backed seen (fold_left (act me) acts (None, s)).1 ∧
       posts_evolve (asked seen acts) (st_db s) (st_db (fold_left (act me) acts (None, s)).2)); [tauto|].
  revert Hc. generalize (None : cache_state). intros c Hc. induction acts as [|a acts IH] using rev_ind.
  { split; [done|by apply posts_evolve_eq]. }
  rewrite fold_left_app. cbn [fold_left]. rewrite bind_app in Hsub. destruct IH as [Hc1 Hp1]; [set_solver|].
  set (x := fold_left (act me) acts (c, s)) in *.
  destruct (act_evolves me x.1 x.2 a) as [Hc2 Hp2]; [set_solver|done|]. rewrite <- surjective_pairing in Hc2, Hp2.
  split; [exact Hc2|].
  eapply posts_evolve_trans; [| |exact Hp1|exact Hp2]; intros k b (e & He & Hd); exists e;
    (split; [|done]); rewrite bind_app; set_solver.
Qed.
End seen.

(** No two events come under one identifier and signature. *)
Definition told_apart (events : list Event) : Prop := ∀ e e', e ∈ events → e' ∈ events → key_of e = key_of e' → e = e'.

(** The deletions that verify. *)
Definition truly_asked (acts : list action) (k a : str) : Prop :=
  ∃ e, e ∈ acts ≫= events_of ∧ deletes e k a ∧ event_verify e = true.

Lemma asked_truly acts k a : told_apart (acts ≫= events_of) → asked (acts ≫= events_of) acts k a → truly_asked acts k a.
Proof.
  intros Hone (e & He & Hd & e0 & He0 & Hv & Hk). exists e. split; [done|]. split; [done|]. by rewrite <-(Hone e0 e).
Qed.

(** C6: whatever events and batches arrive, a stored post keeps its identifier,
    author, kind, time and thread; once deleted its row never changes again;
    and it is deleted only by a deletion that names it, of its author, whose
    identifier and signature are those of an event of the run that verified:
    by one that verified itself, when no two events of the run share an
    identifier and a signature (the cache of the check looks at nothing else). *)
Theorem ingest_posts_evolve me s acts :
  posts_evolve (asked (acts ≫= events_of) acts) (st_db s) (st_db (run me s acts).2) ∧
  (told_apart (acts ≫= events_of) → posts_evolve (truly_asked acts) (st_db s) (st_db (run me s acts).2)).
Proof.
  assert (He : posts_evolve (asked (acts ≫= events_of) acts) (st_db s) (st_db (run me s acts).2)) by (by apply run_evolves).
  split; [exact He|]. intros Hone.
  eapply posts_evolve_trans; [| |exact He|by apply posts_evolve_eq]; intros k a; [by apply asked_truly|done].
Qed.

(** ** A deletion in the batch of its post *)

Lemma post_row_ids now e row :
  post_row_of now e = Some row → pst_id row = ev_id e ∧ pst_pubkey row = ev_pubkey e ∧ pst_kind row = ev_kind e
    ∧ pst_content row = ev_content e.
Proof. unfold post_row_of. destruct (_ <? _)%Z; [done|]. by intros [= <-]. Qed.

Lemma store_post_fresh p d k :
  clean (pst_id p) = k → posts d !! k = None → posts (store_post p d) !! k = Some (mk_post (normalize_post p) 0).
Proof.
  intros <- Hn. unfold store_post. cbn [posts on_posts ensure_exists on_users]. unfold upsert. cbn [pst_id normalize_post].
  by rewrite Hn, lookup_insert_eq.
Qed.

Lemma handle_deletion_absent e d k : posts d !! k = None → posts (handle_deletion e d) !! k = None.
Proof.
  unfold handle_deletion. generalize (e_tags e). intros l. revert d.
  induction l as [|i l IH]; intros d Hd; cbn [fold_left]; [done|]. apply IH. unfold mark_deleted.
  cbn [posts on_posts]. destruct (decide (k = clean i)) as [->|Hk]; [by rewrite lookup_alter_eq, Hd|].
  by rewrite lookup_alter_ne.
Qed.

Lemma handle_deletion_marks e d k p eid :
  posts d !! k = Some p → pst_pubkey (post_row p) = clean (ev_pubkey e) → eid ∈ e_tags e → clean eid = k →
  ∃ p', posts (handle_deletion e d) !! k = Some p' ∧ pst_is_deleted (post_row p') = true.
Proof.
  intros Hp Ha Hin Hk. unfold handle_deletion.
  assert (Hstep : ∀ d i p, posts d !! k = Some p → pst_pubkey (post_row p) = clean (ev_pubkey e) →
    ∃ p', posts (mark_deleted i (ev_pubkey e) d) !! k = Some p' ∧ pst_pubkey (post_row p') = clean (ev_pubkey e) ∧
      (pst_is_deleted (post_row p) = true ∨ clean i = k → pst_is_deleted (post_row p') = true)).
  { intros d0 i p0 Hp0 Ha0. unfold mark_deleted. cbn [posts on_posts]. destruct (decide (k = clean i)) as [->|Hne].
    - rewrite lookup_alter_eq, Hp0. eexists. split; [done|]. by rewrite bool_decide_eq_true_2.
    - rewrite lookup_alter_ne by done. exists p0. split; [done|split; [done|]]. intros [?|?]; [done|congruence]. }
  revert d p Hp Ha. induction (e_tags e) as [|i l IH]; intros d p Hp Ha; [set_solver|]. cbn [fold_left].
  destruct (Hstep d i p Hp Ha) as (p1 & Hp1 & Ha1 & Hd1).
  apply elem_of_cons in Hin as [<-|Hin]; [|by eapply IH].
  specialize (Hd1 (or_intror Hk)). clear IH Hp Ha. revert Hp1 Ha1 Hd1. generalize (mark_deleted eid (ev_pubkey e) d).
  revert p1. induction l as [|i l IH]; intros p1 d1 Hp1 Ha1 Hd1; cbn [fold_left]; [by exists p1|].
  destruct (Hstep d1 i p1 Hp1 Ha1) as (p2 & Hp2 & Ha2 & Hd2). eapply IH; [exact Hp2|done|tauto].
Qed.

Lemma batch_event_note now me b pos e row :
  ev_kind e = TextNote → post_row_of now e = Some row →
  bt_rows (batch_event now me b pos e) = bt_rows b ++ [row] ∧
  posts (st_db (bt_store (batch_event now me b pos e))) = posts (st_db (bt_store b)).
Proof.
  intros Hk Hr. unfold batch_event. rewrite Hk. change (handled_at_once TextNote) with false. cbn iota.
  unfold batch_post. rewrite Hk, Hr, (bool_decide_eq_true_2 (TextNote ∈ POST_KIND_ALLOWLIST)) by (by left).
  cbn [bt_rows bt_store]. split; [done|]. by case_bool_decide.
Qed.

(** A deletion that arrives in the same batch as the post it deletes is
    lost: the batch runs it before the rows are written, so the post stays
    visible. The same two events one after the other leave it deleted. *)
Theorem batch_deletion_lost now me s note del row k :
  ev_kind note = TextNote → post_row_of now note = Some row →
  row_too_big (pst_content row) (pst_tags_json row) = false →
  k = clean (ev_id note) → posts (st_db s) !! k = None →
  ev_kind del = EventDeletion → ev_id note ∈ e_tags del → clean (ev_pubkey del) = clean (ev_pubkey note) →
  (∃ p, posts (st_db (handle_batch_verified now me [note; del] s).1) !! k = Some p ∧
        pst_is_deleted (post_row p) = false) ∧
  (∃ s1 s2 p, handle_verified now me note s = Ok s1 ∧ handle_verified now me del s1 = Ok s2 ∧
        posts (st_db s2) !! k = Some p ∧ pst_is_deleted (post_row p) = true).
Proof.
  intros Hk Hrow Hbig -> Hnone Hdel Hin Hauth.
  destruct (post_row_ids _ _ _ Hrow) as (Hid & Hpk & _).
  assert (Hpost : handle_kind now me del = λ s, Ok (on_db (handle_deletion del) s)).
  { unfold handle_kind. by rewrite Hdel. }
  split.
  - unfold handle_batch_verified. rewrite handle_batch_masked_db. cbn [fmap list_fmap batch_loop].
    destruct (batch_event_note now me (mk_batch s [] [] [] ∅) 0 note row Hk Hrow) as (Hr & Hp).
    set (b1 := batch_event now me _ 0 note) in *.
    assert (batch_event now me b1 1 del =
            mk_batch (on_db (handle_deletion del) (bt_store b1)) (bt_rows b1) (bt_ok b1 ++ [1]) (bt_notify b1)
              (bt_authors b1)) as ->.
    { unfold batch_event. rewrite Hdel. change (handled_at_once EventDeletion) with true. by rewrite Hpost. }
    cbn [bt_rows bt_store bt_notify st_db on_db]. rewrite notify_queue_posts, Hr. unfold post_upsert_batch. cbn [bt_rows app fold_left]. rewrite Hbig.
    rewrite (store_post_fresh _ _ (clean (ev_id note))); [|by rewrite Hid|].
    + eexists. split; [done|]. apply (post_row_visible now note row Hrow).
    + apply handle_deletion_absent. by rewrite Hp.
  - unfold handle_verified. rewrite Hpost.
    assert (Hn : ∃ s1 p, handle_kind now me note s = Ok s1 ∧ posts (st_db s1) !! clean (ev_id note) = Some p ∧
                   pst_pubkey (post_row p) = clean (ev_pubkey note)).
    { unfold handle_kind. rewrite Hk. cbn [Z.eqb TextNote EncryptedDirectMessage]. simpl.
      unfold handle_text_note. rewrite Hrow. unfold post_upsert. rewrite Hbig. eexists _, _. split; [done|].
      rewrite send_db. cbn [st_db on_db]. rewrite maybe_notify_posts. cbn [posts hashtag_upsert_many on_hashtags].
      rewrite (store_post_fresh _ _ (clean (ev_id note))); [|by rewrite Hid|done]. split; [done|].
      simpl. by rewrite Hpk. }
    destruct Hn as (s1 & p & Hs1 & Hp & Ha).
    destruct (handle_deletion_marks del (st_db s1) _ p (ev_id note) Hp) as (p' & Hp' & Hd'); [congruence|done..|].
    eexists s1, _, p'. split; [exact Hs1|split; [done|split; [exact Hp'|exact Hd']]].
Qed.
(** ** Batches of posts *)

(** The kinds that only write a post. *)
Definition plain_post (now : Z) (e : Event) : Prop :=
  handled_at_once (ev_kind e) = false ∧ ev_kind e ∈ POST_KIND_ALLOWLIST ∧
  ∀ row, post_row_of now e = Some row → row_too_big (pst_content row) (pst_tags_json row) = false.

Definition put_post (row : PostRow) (t : gmap str Post) : gmap str Post :=
  upsert merge_post (clean (pst_id row)) (mk_post (normalize_post row) 0) t.

Definition put_event (now : Z) (t : gmap str Post) (e : Event) : gmap str Post :=
  if post_row_of now e is Some row then put_post row t else t.

Definition put_tags (now : Z) (t : gmap (str * str) HashtagRow) (e : Event) : gmap (str * str) HashtagRow :=
  if bool_decide (is_Some (post_row_of now e)) && (ev_kind e =? TextNote)%Z
  then fold_left (λ t r, upsert merge_hashtag (htg_tag r, htg_pubkey r) r t) (tag_rows now e) t else t.

Lemma notify_me_hashtags now me e t i c d : hashtags (notify_me now me e t i c d) = hashtags d.
Proof.
  unfold notify_me. destruct (eq_ignore_ascii_case _ _); [done|]. unfold notification_upsert_batch.
  cbn [fold_left]. by destruct (notification_too_big _).
Qed.

Lemma maybe_notify_hashtags now me e row d : hashtags (maybe_notify_text_note now me e row d) = hashtags d.
Proof.
  unfold maybe_notify_text_note. destruct (eq_ignore_ascii_case _ _); [done|].
  repeat match goal with |- context [if ?b then notify_me _ _ _ _ _ _ _ else _] => destruct b end;
    rewrite ?notify_me_hashtags; done.
Qed.

(** One such event on its own. *)
Lemma single_post now me e s :
  plain_post now e →
  let d := st_db (unwrap_or s (handle_verified now me e s)) in
  posts d = put_event now (posts (st_db s)) e ∧ hashtags d = put_tags now (hashtags (st_db s)) e.
Proof.
  intros (Hk & Hin & Hbig). unfold handle_verified, handle_kind.
  unfold handled_at_once in Hk. apply bool_decide_eq_false_1 in Hk. rewrite !not_elem_of_cons in Hk.
  destruct Hk as (H1 & H2 & H3 & H4 & H5 & H6 & H7 & H8 & H9 & _).
  apply Z.eqb_neq in H1, H2, H3, H4, H5, H6, H7, H8, H9.
  rewrite H1, H2, H3, H4, H5, H6, H7, H8, H9. unfold put_event, put_tags.
  destruct (Z.eqb_spec (ev_kind e) TextNote) as [Ht|Ht].
  - unfold handle_text_note. destruct (post_row_of now e) as [row|] eqn:Hr; [|done].
    unfold post_upsert. rewrite (Hbig row) by done. cbn [mbind result_bind unwrap_or]. rewrite send_db.
    cbn [st_db on_db]. rewrite maybe_notify_posts, maybe_notify_hashtags. done.
  - rewrite (bool_decide_eq_true_2 _ Hin), orb_true_r. unfold handle_post.
    destruct (post_row_of now e) as [row|] eqn:Hr; [|done]. unfold post_upsert. by rewrite (Hbig row).
Qed.

(** One such event in a batch: the row waits, the hashtags are counted. *)
Lemma batch_event_post now me b pos e :
  plain_post now e →
  let b' := batch_event now me b pos e in
  bt_rows b' = bt_rows b ++ option_list (post_row_of now e) ∧
  posts (st_db (bt_store b')) = posts (st_db (bt_store b)) ∧
  hashtags (st_db (bt_store b')) = put_tags now (hashtags (st_db (bt_store b))) e.
Proof.
  intros (Hk & Hin & _). unfold batch_event. rewrite Hk. unfold batch_post, put_tags.
  rewrite (bool_decide_eq_true_2 _ Hin).
  destruct (post_row_of now e) as [row|]; [|by rewrite app_nil_r]. cbn [bt_rows bt_store]. split; [done|].
  rewrite (bool_decide_eq_true_2 (is_Some (Some row))) by done. cbn [andb].
  destruct (bool_decide (ev_pubkey e ∈ bt_authors b)); by destruct (ev_kind e =? TextNote)%Z.
Qed.

Lemma batch_loop_posts now me es b pos :
  Forall (plain_post now) es →
  let b' := batch_loop now me b pos ((λ e, (e, true)) <$> es) in
  bt_rows b' = bt_rows b ++ omap (post_row_of now) es ∧
  posts (st_db (bt_store b')) = posts (st_db (bt_store b)) ∧
  hashtags (st_db (bt_store b')) = fold_left (put_tags now) es (hashtags (st_db (bt_store b))).
Proof.
  intros Hes. revert b pos. induction Hes as [|e es He Hes IH]; intros b pos; cbn [fmap list_fmap batch_loop].
  { by rewrite app_nil_r. }
  destruct (batch_event_post now me b pos e He) as (R1 & P1 & H1).
  destruct (IH (batch_event now me b pos e) (S pos)) as (R2 & P2 & H2). cbv zeta. cbn [fold_left].
  rewrite R2, P2, H2, R1, P1, H1, <- app_assoc. split; [|done]. f_equal. simpl.
  by destruct (post_row_of now e).
Qed.

Lemma post_upsert_batch_posts rows d :
  Forall (λ p, row_too_big (pst_content p) (pst_tags_json p) = false) rows →
  posts (post_upsert_batch rows d) = fold_left (λ t p, put_post p t) rows (posts d) ∧
  hashtags (post_upsert_batch rows d) = hashtags d.
Proof.
  intros Hr. unfold post_upsert_batch. revert d. induction Hr as [|p rows Hp Hr IH]; intros d; cbn [fold_left]; [done|].
  rewrite Hp. destruct (IH (store_post p d)) as [-> ->]. done.
Qed.

Lemma put_events now es t :
  fold_left (λ t p, put_post p t) (omap (post_row_of now) es) t = fold_left (put_event now) es t.
Proof.
  revert t. induction es as [|e es IH]; intros t; [done|]. cbn [fold_left]. rewrite <- IH. unfold put_event. simpl.
  by destruct (post_row_of now e).
Qed.

Lemma notify_queue_hashtags now me q d :
  hashtags (fold_left (λ d en, maybe_notify_text_note now me en.1 en.2 d) q d) = hashtags d.
Proof.
  revert d. induction q as [|en q IH]; intros d; cbn [fold_left]; [done|]. by rewrite IH, maybe_notify_hashtags.
Qed.

(** A batch of posts (any kind of the allowlist without a handler of its
    own) leaves the posts and the hashtag counts exactly as the same events
    handled one by one. *)
Theorem batch_posts_equiv now me s es :
  Forall (plain_post now) es →
  let batch := st_db (handle_batch_verified now me es s).1 in
  let single := st_db (fold_left (λ s e, unwrap_or s (handle_verified now me e s)) es s) in
  posts batch = posts single ∧ hashtags batch = hashtags single.
Proof.
  intros Hes. cbv zeta.
  assert (Hsingle : ∀ s, let d := st_db (fold_left (λ s e, unwrap_or s (handle_verified now me e s)) es s) in
    posts d = fold_left (put_event now) es (posts (st_db s)) ∧
    hashtags d = fold_left (put_tags now) es (hashtags (st_db s))).
  { clear s. induction Hes as [|e es He Hes IH]; intros s; [done|]. cbn [fold_left]. cbv zeta.
    destruct (IH (unwrap_or s (handle_verified now me e s))) as [-> ->].
    destruct (single_post now me e s He) as [-> ->]. done. }
  destruct (Hsingle s) as [-> ->]. unfold handle_batch_verified. rewrite handle_batch_masked_db.
  destruct (batch_loop_posts now me es (mk_batch s [] [] [] ∅) 0 Hes) as (R & P & Hh).
  set (b := batch_loop _ _ _ _ _) in *. rewrite notify_queue_posts, notify_queue_hashtags.
  destruct (post_upsert_batch_posts (bt_rows b) (st_db (bt_store b))) as [-> ->].
  - rewrite R. simpl. clear -Hes. induction Hes as [|e es (_ & _ & He) Hes IH]; [constructor|]. simpl.
    destruct (post_row_of now e); [constructor; auto|done].
  - rewrite P, Hh, R. simpl. by rewrite put_events.
Qed.
End ingest.

Module PostExamples.
Import IngestExamples.

Definition note : Event := event "aa" "bb" 100 1 [["e"; "cc"; ""; "root"]; ["p"; "dd"]] "#hello".
Definition del : Event := event "ee" "bb" 101 5 [["e"; "aa"]] "".
Definition story : Event := event "ff" "bb" 102 30078 [] "story".
Lemma batch_deletion_lost_witness :
  (∃ p, posts (st_db (handle_batch_verified 1000 (lit "me") [note; del] empty_store).1) !! lit "aa" = Some p ∧
        pst_is_deleted (post_row p) = false) ∧ ev_kind del = EventDeletion.
Proof.
  split; [|done].
  eapply (batch_deletion_lost 1000 (lit "me") empty_store note del _ (lit "aa"));
    try (vm_compute; reflexivity). left.
Defined.

Lemma batch_posts_equiv_witness :
  hashtags (st_db (handle_batch_verified 1000 (lit "me") [note; story] empty_store).1) !! (lit "hello", lit "bb")
    = Some (mk_hashtag (lit "hello") (lit "bb") 100 1) ∧
  posts (st_db (handle_batch_verified 1000 (lit "me") [note; story] empty_store).1) =
  posts (st_db (fold_left (λ s e, unwrap_or s (handle_verified 1000 (lit "me") e s)) [note; story] empty_store)).
Proof.
  split; [vm_compute; reflexivity|]. apply (batch_posts_equiv 1000 (lit "me") empty_store [note; story]).
  constructor; [|constructor; [|constructor]]; (split; [done|split; [set_solver|]]);
    intros row Hr; vm_compute in Hr; injection Hr as <-; vm_compute; reflexivity.
Defined.

End PostExamples.
