(* ===== verification/Schema.v ===== *)
(** The typing of the tables: every row sits under its own primary key, the
    foreign keys that PRAGMA foreign_keys enforces hold, follower counts are
    not negative, and an author has at most one reaction to an event. The
    ingest and the repositories keep all of it, so none of their statements
    violates a constraint of the schema. *)

From S2P Require Import Prelude RustStr Text Sql Verify Store Ingest PostLaws.

(** ** Tables *)

(** Rows under their primary key, whose [owner] is a user. *)
Definition rows_ok {A} (key owner : A → str) (us : gmap str UserRow) (t : gmap str A) : Prop :=
  ∀ k r, t !! k = Some r → key r = k ∧ is_Some (us !! owner r).

(** Rows under a key computed from the row. *)
Definition keyed `{Countable K} {A} (key : A → K) (t : gmap K A) : Prop := ∀ k r, t !! k = Some r → key r = k.

Definition users_ok (us : gmap str UserRow) : Prop :=
  ∀ k r, us !! k = Some r → usr_pubkey r = k ∧ (0 ≤ usr_follower_count r)%Z.

(** At most one reaction per event and author. *)
Definition reactions_unique (t : gmap str ReactionRow) : Prop :=
  ∀ k1 k2 r1 r2, t !! k1 = Some r1 → t !! k2 = Some r2 →
    rct_event_id r1 = rct_event_id r2 → rct_pubkey r1 = rct_pubkey r2 → k1 = k2.

Abbreviation post_id := (λ p, pst_id (post_row p)).
Abbreviation post_author := (λ p, pst_pubkey (post_row p)).

Record store_typed (d : db) : Prop := {
  ty_users : users_ok (users d);
  ty_posts : rows_ok post_id post_author (users d) (posts d);
  ty_reactions : rows_ok rct_id rct_pubkey (users d) (reactions d);
  ty_one_reaction : reactions_unique (reactions d);
  ty_reposts : rows_ok rpt_id rpt_pubkey (users d) (reposts d);
  ty_bookmarks : rows_ok bmk_id bmk_pubkey (users d) (bookmarks d);
  ty_zaps : keyed zap_id (zaps d);
  ty_relays : keyed rly_url (relays d);
  ty_hashtags : keyed (λ r, (htg_tag r, htg_pubkey r)) (hashtags d);
  ty_notifications : rows_ok ntf_id ntf_pubkey (users d) (notifications d)
}.

(** ** Generic lemmas *)

Definition grows (us us' : gmap str UserRow) : Prop := ∀ k, is_Some (us !! k) → is_Some (us' !! k).

Lemma grows_refl us : grows us us.
Proof. by intros k. Qed.

Lemma grows_trans u1 u2 u3 : grows u1 u2 → grows u2 u3 → grows u1 u3.
Proof. unfold grows. auto. Qed.

Lemma rows_grow {A} (key owner : A → str) us us' t : grows us us' → rows_ok key owner us t → rows_ok key owner us' t.
Proof. intros Hg Ht k r Hr. destruct (Ht k r Hr). auto. Qed.

Lemma rows_empty {A} (key owner : A → str) us : rows_ok key owner us ∅.
Proof. intros k r. by rewrite lookup_empty. Qed.

Lemma rows_upsert {A} (key owner : A → str) us t merge k new :
  rows_ok key owner us t → key new = k → is_Some (us !! owner new) →
  (∀ old, key (merge old new) = key old ∧ (owner (merge old new) = owner old ∨ owner (merge old new) = owner new)) →
  rows_ok key owner us (upsert merge k new t).
Proof.
  intros Ht Hk Ho Hm k' r. unfold upsert. destruct (decide (k' = k)) as [->|Hne].
  - rewrite lookup_insert_eq. intros [= <-]. destruct (t !! k) as [old|] eqn:Hold; [|done].
    destruct (Ht k old Hold) as [<- Hs]. destruct (Hm old) as [-> [-> | ->]]; done.
  - rewrite lookup_insert_ne by done. apply Ht.
Qed.

Lemma keyed_upsert `{Countable K} {A} (key : A → K) t merge k new :
  keyed key t → key new = k → (∀ old, key (merge old new) = key old) → keyed key (upsert merge k new t).
Proof.
  intros Ht Hk Hm k' r. unfold upsert. destruct (decide (k' = k)) as [->|Hne].
  - rewrite lookup_insert_eq. intros [= <-]. destruct (t !! k) as [old|] eqn:Hold; [|done].
    rewrite Hm. by apply Ht.
  - rewrite lookup_insert_ne by done. apply Ht.
Qed.

Lemma rows_alter {A} (key owner : A → str) us t f k :
  (∀ r, key (f r) = key r ∧ owner (f r) = owner r) →
  rows_ok key owner us t → rows_ok key owner us (alter f k t).
Proof.
  intros Hf Ht k' r. destruct (decide (k' = k)) as [->|Hne].
  - rewrite lookup_alter_eq. intros (r0 & Hr & ->)%fmap_Some. destruct (Hf r0) as [-> ->]. by apply Ht.
  - rewrite lookup_alter_ne by done. apply Ht.
Qed.

Lemma rows_fmap {A} (key owner : A → str) us t f :
  (∀ r, key (f r) = key r ∧ owner (f r) = owner r) →
  rows_ok key owner us t → rows_ok key owner us (f <$> t).
Proof.
  intros Hf Ht k r. rewrite lookup_fmap. intros (r0 & Hr & ->)%fmap_Some. destruct (Hf r0) as [-> ->]. by apply Ht.
Qed.

Lemma rows_filter {A} (key owner : A → str) us t (P : str * A → Prop) `{∀ x, Decision (P x)} :
  rows_ok key owner us t → rows_ok key owner us (filter P t).
Proof. intros Ht k r [Hr _]%map_lookup_filter_Some. by apply Ht. Qed.

(** ** Users *)

Lemma ensure_exists_grows pk d : grows (users d) (users (ensure_exists pk d)).
Proof.
  intros k Hk. unfold ensure_exists. cbn [users on_users]. destruct (users d !! clean pk); [done|].
  destruct (decide (k = clean pk)) as [->|]; [by rewrite lookup_insert_eq|by rewrite lookup_insert_ne].
Qed.

Lemma ensure_exists_has pk d : is_Some (users (ensure_exists pk d) !! clean pk).
Proof.
  unfold ensure_exists. cbn [users on_users]. destruct (users d !! clean pk) eqn:E; [by eexists|].
  by rewrite lookup_insert_eq.
Qed.

Lemma ensure_exists_clean pk d : is_Some (users (ensure_exists (clean pk) d) !! clean pk).
Proof. pose proof (ensure_exists_has (clean pk) d) as Hu. by rewrite clean_idemp in Hu. Qed.

Lemma users_insert us k r : users_ok us → usr_pubkey r = k → (0 ≤ usr_follower_count r)%Z → users_ok (<[k := r]> us).
Proof.
  intros Hu Hk Hc k' r'. destruct (decide (k' = k)) as [->|]; [rewrite lookup_insert_eq; by intros [= <-]|].
  rewrite lookup_insert_ne by done. apply Hu.
Qed.

(** An operation that only adds or changes users. *)
Lemma typed_on_users f d :
  (users_ok (users d) → users_ok (f (users d))) → grows (users d) (f (users d)) →
  store_typed d → store_typed (on_users f d).
Proof.
  intros Hf Hg [H1 H2 H3 H4 H5 H6 H7 H8 H9 H10].
  split; cbn [users posts reactions reposts bookmarks zaps relays hashtags notifications on_users]; auto;
    by eapply rows_grow.
Qed.

Lemma typed_ensure_exists pk d : store_typed d → store_typed (ensure_exists pk d).
Proof.
  intros Hd. apply typed_on_users; [|apply (ensure_exists_grows pk)|done].
  intros Hu. destruct (users d !! clean pk); [done|]. by apply users_insert.
Qed.

Lemma typed_user_upsert row d : (0 ≤ usr_follower_count row)%Z → store_typed d → store_typed (user_upsert row d).
Proof.
  intros Hc Hd. unfold user_upsert. apply typed_on_users; [| |done].
  - intros Hu. unfold upsert. apply users_insert; [done| |].
    + destruct (users d !! _) as [old|] eqn:Ho; [|done]. by destruct (Hu _ _ Ho).
    + destruct (users d !! _) as [old|] eqn:Ho; [|done]. by destruct (Hu _ _ Ho).
  - intros k Hk. unfold upsert. destruct (decide (k = clean (usr_pubkey row))) as [->|].
    + by rewrite lookup_insert_eq.
    + by rewrite lookup_insert_ne.
Qed.

Lemma typed_bump_counts l d : store_typed d → store_typed (bump_follower_counts l d).
Proof.
  intros Hd. unfold bump_follower_counts. apply typed_on_users; [| |done].
  - intros Hu k r. rewrite map_lookup_imap. destruct (users d !! k) as [r0|] eqn:Hr; [|done]. simpl.
    destruct (Hu k r0 Hr). destruct (delta_sums l !! k) as [delta|]; [destruct (delta =? 0)%Z|]; intros [= <-]; simpl;
      split; (done || lia).
  - intros k [r Hr]. rewrite map_lookup_imap, Hr. by eexists.
Qed.

(** ** The other tables *)

(** The components of the typing, with the tables of an updated store
    computed; what the update does not touch is closed. *)
Ltac typed_cases H :=
  destruct H as [? ? ? ? ? ? ? ? ? ?]; split;
  cbn [users posts reactions reposts bookmarks zaps relays hashtags notifications
       on_users on_posts on_reactions on_reposts on_bookmarks on_zaps on_relays on_hashtags on_notifications];
  try assumption.

Lemma typed_store_post p d : store_typed d → store_typed (store_post p d).
Proof.
  intros Hd. apply (typed_ensure_exists (pst_pubkey (normalize_post p))) in Hd. unfold store_post.
  typed_cases Hd. apply rows_upsert; [done|done|apply ensure_exists_clean|].
  intros old. unfold merge_post. cbn [post_row]. destruct (pst_is_deleted _); auto.
Qed.

Lemma typed_posts_alter f id d :
  (∀ p, post_id (f p) = post_id p ∧ post_author (f p) = post_author p) →
  store_typed d → store_typed (on_posts (alter f id) d).
Proof. intros Hf Hd. typed_cases Hd. by apply rows_alter. Qed.

Lemma typed_mark_deleted id author d : store_typed d → store_typed (mark_deleted id author d).
Proof. apply typed_posts_alter. intros p. by destruct (bool_decide _). Qed.

Lemma typed_delete_older_than cutoff d : store_typed d → store_typed (delete_older_than cutoff d).1.
Proof. intros Hd. unfold delete_older_than. cbn [fst]. typed_cases Hd. apply rows_fmap; [|done]. intros p. by destruct (_ && _). Qed.

Lemma typed_reaction_upsert row d : store_typed d → store_typed (reaction_upsert row d).
Proof.
  intros Hd. unfold reaction_upsert. destruct (if head _ is Some r then _ else false); [done|].
  set (eid := clean (rct_event_id row)). set (pk := clean (rct_pubkey row)). set (id := clean (rct_id row)).
  set (d1 := on_reactions (filter _) d).
  assert (H1 : store_typed d1 ∧ ∀ k r, reactions d1 !! k = Some r → own_reaction eid pk r = false).
  { unfold d1. split.
    - typed_cases Hd; [by apply rows_filter|]. intros k1 k2 r1 r2 [? _]%map_lookup_filter_Some [? _]%map_lookup_filter_Some. eauto.
    - intros k r. cbn [reactions on_reactions]. by intros [_ ?]%map_lookup_filter_Some. }
  clearbody d1. destruct H1 as [Hd1 Hnone]. case_bool_decide; [done|].
  apply (typed_ensure_exists pk) in Hd1 as Hd2. typed_cases Hd2.
  - apply rows_upsert; [done|done|apply ensure_exists_clean|auto].
  - set (new := mk_reaction id pk eid (rct_kind row) (rct_content row) (rct_created_at row)).
    assert (Hown : ∀ r, rct_event_id r = eid → rct_pubkey r = pk → own_reaction eid pk r = true).
    { intros r He Hp. unfold own_reaction. by rewrite !bool_decide_eq_true_2. }
    set (merge := λ old new : ReactionRow, _).
    assert (Hup : ∀ k r, upsert merge id new (reactions d1) !! k = Some r →
      (∃ r0, reactions d1 !! k = Some r0 ∧ rct_event_id r = rct_event_id r0 ∧ rct_pubkey r = rct_pubkey r0) ∨
      (k = id ∧ r = new)).
    { intros k r. unfold upsert. destruct (decide (k = id)) as [->|].
      - rewrite lookup_insert_eq. intros [= <-]. destruct (reactions d1 !! id) as [old|] eqn:Ho; [|by right].
        left. by exists old.
      - rewrite lookup_insert_ne by done. intros Hr. left. by exists r. }
    intros k1 k2 r1 r2 [(r1' & L1 & E1 & P1)|[-> ->]]%Hup [(r2' & L2 & E2 & P2)|[-> ->]]%Hup He Hp.
    + apply (ty_one_reaction _ Hd1 k1 k2 r1' r2'); congruence.
    + specialize (Hnone k1 r1' L1). rewrite Hown in Hnone; [done|rewrite <- E1|rewrite <- P1]; done.
    + specialize (Hnone k2 r2' L2). rewrite Hown in Hnone; [done|rewrite <- E2|rewrite <- P2]; done.
    + done.
Qed.

Lemma typed_repost_upsert row d : store_typed d → store_typed (repost_upsert row d).
Proof.
  intros Hd. unfold repost_upsert. apply (typed_ensure_exists (clean (rpt_pubkey row))) in Hd.
  pose proof (ensure_exists_clean (rpt_pubkey row) d) as Hu.
  set (d1 := ensure_exists _ _) in *. clearbody d1. destruct (reposts d1 !! _) eqn:Hn; [done|].
  unfold reposts_ai. apply typed_posts_alter; [done|]. typed_cases Hd.
  intros k r. destruct (decide (k = clean (rpt_id row))) as [->|].
  - rewrite lookup_insert_eq. by intros [= <-].
  - rewrite lookup_insert_ne by done. auto.
Qed.

Lemma fold_users {A} (f : A → str) l d :
  store_typed d →
  let d' := fold_left (λ d r, ensure_exists (f r) d) l d in
  store_typed d' ∧ grows (users d) (users d') ∧ ∀ r, r ∈ l → is_Some (users d' !! clean (f r)).
Proof.
  revert d. induction l as [|x l IH]; intros d Hd; cbn [fold_left]; cbv zeta.
  { split; [done|split; [apply grows_refl|]]. by intros r ?%elem_of_nil. }
  destruct (IH (ensure_exists (f x) d)) as (Ht & Hg & Hl); [by apply typed_ensure_exists|].
  split; [done|split]; [eapply grows_trans; [apply (ensure_exists_grows (f x))|done]|].
  intros r [->|Hr]%elem_of_cons; [|auto]. apply Hg, ensure_exists_has.
Qed.

Lemma typed_bookmarks rows d : store_typed d → store_typed (bookmark_upsert_many rows d).
Proof.
  intros Hd. unfold bookmark_upsert_many. cbv zeta.
  destruct (fold_users bmk_pubkey (normalize_bookmark <$> rows) d Hd) as (Ht & _ & Hl).
  set (d1 := fold_left (λ d r, ensure_exists (bmk_pubkey r) d) _ d) in *. clearbody d1. typed_cases Ht.
  assert (Hn : Forall (λ r, clean (bmk_id r) = bmk_id r ∧ is_Some (users d1 !! bmk_pubkey r)) (normalize_bookmark <$> rows)).
  { apply Forall_forall. intros r Hr. specialize (Hl r Hr). apply list_elem_of_fmap in Hr as (r0 & -> & _).
    cbn [bmk_id bmk_pubkey normalize_bookmark] in *. rewrite clean_idemp in *. done. }
  clear Hl. revert Hn. generalize (normalize_bookmark <$> rows). intros l Hn.
  assert (Hb : rows_ok bmk_id bmk_pubkey (users d1) (bookmarks d1)) by done. revert Hb. generalize (bookmarks d1).
  induction Hn as [|r l [_ Hr] Hl IH]; intros t Ht; cbn [fold_left]; [done|].
  apply IH, rows_upsert; auto.
Qed.

Lemma typed_delete_targets pk d : store_typed d → store_typed (delete_for_deleted_targets pk d).
Proof. intros Hd. unfold delete_for_deleted_targets. typed_cases Hd. by apply rows_filter. Qed.

Lemma typed_zap_upsert row d : store_typed d → store_typed (zap_upsert row d).
Proof.
  intros Hd. apply (typed_ensure_exists (zap_pubkey row)) in Hd. unfold zap_upsert. typed_cases Hd.
  by apply keyed_upsert.
Qed.

Lemma typed_relay_upsert row d : store_typed d → store_typed (relay_upsert row d).
Proof. intros Hd. unfold relay_upsert. typed_cases Hd. by apply keyed_upsert. Qed.

Lemma typed_hashtags rows d : store_typed d → store_typed (hashtag_upsert_many rows d).
Proof.
  intros Hd. unfold hashtag_upsert_many. typed_cases Hd.
  match goal with H : keyed _ (hashtags d) |- _ => revert H end. generalize (hashtags d).
  induction rows as [|r rows IH]; intros t Ht; cbn [fold_left]; [done|]. apply IH, keyed_upsert; [done|done|].
  intros old. unfold merge_hashtag. by destruct (_ <? _)%Z.
Qed.

Lemma typed_notifications rows d : store_typed d → store_typed (notification_upsert_batch rows d).
Proof.
  unfold notification_upsert_batch. revert d. induction rows as [|n rows IH]; intros d Hd; cbn [fold_left]; [done|].
  apply IH. destruct (notification_too_big _); [done|]. apply (typed_ensure_exists (ntf_pubkey n)) in Hd.
  typed_cases Hd. apply rows_upsert; [done|done|apply ensure_exists_has|auto].
Qed.

Lemma typed_mark_as_read pk id d : store_typed d → store_typed (mark_as_read pk id d).1.
Proof.
  intros Hd. unfold mark_as_read. cbn [fst]. typed_cases Hd. apply rows_alter; [|done].
  intros n. by destruct (_ && _).
Qed.

(** ** The ingest *)

Create HintDb typed.
#[local] Hint Resolve typed_ensure_exists typed_store_post typed_mark_deleted typed_delete_older_than
  typed_reaction_upsert typed_repost_upsert typed_bookmarks typed_delete_targets typed_zap_upsert
  typed_relay_upsert typed_hashtags typed_notifications typed_mark_as_read typed_bump_counts : typed.

Section ingest.
Context `{Serde, Env}.

Lemma typed_author now e d : store_typed d → store_typed (ensure_author_user now e d).
Proof.
  intros Hd. unfold ensure_author_user. apply typed_on_users; [| |done].
  - intros Hu. destruct (users d !! ev_pubkey e); [done|]. by apply users_insert.
  - intros k Hk. destruct (users d !! ev_pubkey e); [done|].
    destruct (decide (k = ev_pubkey e)) as [->|]; [by rewrite lookup_insert_eq|by rewrite lookup_insert_ne].
Qed.
#[local] Hint Resolve typed_author : typed.

Lemma typed_notify_me now me e t i c d : store_typed d → store_typed (notify_me now me e t i c d).
Proof. unfold notify_me. destruct (eq_ignore_ascii_case _ _); auto with typed. Qed.
#[local] Hint Resolve typed_notify_me : typed.

Lemma typed_maybe_notify now me e row d : store_typed d → store_typed (maybe_notify_text_note now me e row d).
Proof.
  intros Hd. unfold maybe_notify_text_note. destruct (eq_ignore_ascii_case _ _); [done|].
  repeat match goal with |- context [if ?b then notify_me _ _ _ _ _ _ _ else _] => destruct b end; auto with typed.
Qed.
#[local] Hint Resolve typed_maybe_notify : typed.

Lemma typed_send u s : store_typed (st_db s) → store_typed (st_db (send u s)).
Proof. unfold send, try_send. by destruct (st_room s). Qed.

Lemma typed_handle_post now e d d' : store_typed d → handle_post now e d = Ok d' → store_typed d'.
Proof.
  intros Hd. unfold handle_post, post_upsert. destruct (post_row_of now e); [|intros [= <-]; done].
  destruct (row_too_big _ _); [done|]. intros [= <-]. auto with typed.
Qed.

Lemma typed_handle_metadata now e s : store_typed (st_db s) → store_typed (st_db (handle_metadata now e s)).
Proof.
  intros Hd. unfold handle_metadata. destruct (user_row_of now e) as [row|] eqn:Hr; [|done].
  assert (Hc : usr_follower_count row = 0%Z) by (unfold user_row_of in Hr; apply bind_Some in Hr as (f & _ & [= <-]); done).
  destruct (get_by_pubkey _ _); [destruct (_ <? _)%Z; [|done]|]; apply typed_send; cbn [st_db on_db];
    apply typed_user_upsert; simpl; (done || lia).
Qed.

Lemma typed_contact_list now me e d : store_typed d → store_typed (handle_contact_list now me e d).
Proof.
  intros Hd. unfold handle_contact_list. cbv zeta. set (row := with_lists _ _ _).
  assert (Hc : (0 ≤ usr_follower_count row)%Z).
  { unfold row, get_by_pubkey. cbn [usr_follower_count with_lists].
    destruct (users d !! clean (ev_pubkey e)) as [r|] eqn:Hr; simpl; [|done]. by destruct (ty_users d Hd _ _ Hr). }
  destruct (_ && _ && _); [apply typed_notify_me|]; by apply typed_bump_counts, typed_user_upsert.
Qed.

Lemma typed_deletion e d : store_typed d → store_typed (handle_deletion e d).
Proof. unfold handle_deletion. revert d. induction (e_tags e) as [|i l IH]; intros d Hd; cbn [fold_left]; auto with typed. Qed.

Lemma typed_relay_list e d : store_typed d → store_typed (handle_relay_list e d).
Proof.
  unfold handle_relay_list. revert d. induction (ev_tags e) as [|t l IH]; intros d Hd; cbn [fold_left]; [done|].
  apply IH. destruct t as [|k [|u r]]; [done..|]. destruct (_ && _); auto with typed.
Qed.

Lemma typed_handle_kind now me e s s' :
  store_typed (st_db s) → handle_kind now me e s = Ok s' → store_typed (st_db s').
Proof.
  unfold handle_kind. intros Hd Hs.
  repeat match type of Hs with (if ?b then _ else _) = _ => destruct b eqn:? end.
  - unfold handle_dm, try_send in Hs. destruct (_ || _); [|by injection Hs as <-].
    destruct (st_room s); [done|]. by injection Hs as <-.
  - injection Hs as <-. by apply typed_handle_metadata.
  - injection Hs as <-. by apply typed_contact_list.
  - injection Hs as <-. unfold handle_zap_receipt. destruct (zap_receipt me e) as [[[a h] z]|]; [|done].
    destruct (any_request _ _ _ _ _) as [c [|]]; cbn [st_db on_db]; auto with typed.
  - injection Hs as <-. by apply typed_relay_list.
  - injection Hs as <-. cbn [st_db on_db]. unfold handle_bookmarks. destruct (e_tags e); auto 6 with typed.
  - injection Hs as <-. unfold handle_reaction. destruct (first_e_tag e); [|done]. apply typed_send. cbn [st_db on_db].
    cbv zeta. destruct (authored_by _ _); auto with typed.
  - injection Hs as <-. cbn [st_db on_db]. unfold handle_repost. destruct (first_e_tag e); [|done]. cbv zeta.
    destruct (authored_by _ _); auto with typed.
  - unfold handle_text_note, post_upsert in Hs. destruct (post_row_of now e); [|by injection Hs as <-].
    destruct (row_too_big _ _); [done|]. injection Hs as <-. apply typed_send. cbn [st_db on_db]. auto with typed.
  - injection Hs as <-. by apply typed_deletion.
  - apply result_bind_ok in Hs as (d & Hp & [= <-]). by eapply typed_handle_post.
  - by injection Hs as <-.
Qed.

Lemma typed_upsert_batch ps d : store_typed d → store_typed (post_upsert_batch ps d).
Proof.
  unfold post_upsert_batch. revert d. induction ps as [|p ps IH]; intros d Hd; cbn [fold_left]; [done|].
  apply IH. destruct (row_too_big _ _); auto with typed.
Qed.

Lemma typed_batch_event now me b pos e :
  store_typed (st_db (bt_store b)) → store_typed (st_db (bt_store (batch_event now me b pos e))).
Proof.
  intros Hd. unfold batch_event. destruct (handled_at_once _).
  - destruct (handle_kind now me e (bt_store b)) as [s|er] eqn:Hs; [|done]. by eapply typed_handle_kind.
  - unfold batch_post. destruct (bool_decide (ev_kind e ∈ POST_KIND_ALLOWLIST)); [|done].
    destruct (post_row_of now e); [|done]. cbn [bt_store].
    destruct (bool_decide (ev_pubkey e ∈ bt_authors b)), (_ =? _)%Z; cbn [st_db on_db]; auto with typed.
Qed.

Lemma typed_batch_loop now me events b pos :
  store_typed (st_db (bt_store b)) → store_typed (st_db (bt_store (batch_loop now me b pos events))).
Proof.
  revert b pos. induction events as [|[e v] events IH]; intros b pos Hd; cbn [batch_loop]; [done|].
  apply IH. destruct v; [by apply typed_batch_event|done].
Qed.

Lemma typed_batch now me events s :
  store_typed (st_db s) → store_typed (st_db (handle_batch_masked now me events s).1).
Proof.
  intros Hd. rewrite handle_batch_masked_db. set (b := batch_loop _ _ _ _ _).
  assert (Hb : store_typed (post_upsert_batch (bt_rows b) (st_db (bt_store b))))
    by (apply typed_upsert_batch, typed_batch_loop, Hd).
  revert Hb. generalize (post_upsert_batch (bt_rows b) (st_db (bt_store b))).
  induction (bt_notify b) as [|en q IH]; intros d Hd'; cbn [fold_left]; [done|]. auto with typed.
Qed.

(** The stores that ingesting, batches and the local operations build. *)
Inductive reachable : store → Prop :=
| fresh room : reachable (mk_store db_empty ∅ [] room)
| ingested now me e s s' : reachable s → handle_verified now me e s = Ok s' → reachable s'
| ingested_batch now me events s : reachable s → reachable (handle_batch_masked now me events s).1
| notification_read pk id s : reachable s → reachable (on_db (λ d, (mark_as_read pk id d).1) s)
| post_removed id s : reachable s → reachable (on_db (post_delete id) s)
| posts_expired cutoff s : reachable s → reachable (on_db (λ d, (delete_older_than cutoff d).1) s)
| watermark_set key ts s : reachable s → reachable (on_db (set_watermark key ts) s).

Lemma typed_empty : store_typed db_empty.
Proof.
  split; cbn [users posts reactions reposts bookmarks zaps relays hashtags notifications db_empty];
    try apply rows_empty; intros k r; try intros r1 r2; by rewrite lookup_empty.
Qed.

(** C13: in every store that ingesting events, batches and local operations
    build, each row has its own primary key, every foreign key refers to a
    user, follower counts are not negative, and an author has at most one
    reaction to an event. *)
Theorem store_well_typed s : reachable s → store_typed (st_db s).
Proof.
  induction 1 as [room|now me e s s' _ IH Hs|now me events s _ IH|pk id s _ IH|id s _ IH|cutoff s _ IH|key ts s _ IH].
  - apply typed_empty.
  - by eapply typed_handle_kind.
  - by apply typed_batch.
  - by apply typed_mark_as_read.
  - by apply typed_posts_alter.
  - by apply typed_delete_older_than.
  - cbn [st_db on_db]. unfold set_watermark, settings_set. by typed_cases IH.
Qed.
End ingest.

Module SchemaExamples.
Import IngestExamples.

Definition like : Event := event "l1" "bob" 7 ReactionKind [["e"; "n1"]] "+".
Definition like_again : Event := event "l2" "bob" 8 ReactionKind [["e"; "n1"]] "wow".
Definition note : Event := event "n1" "ann" 5 TextNote [] "hi".

Definition after : store := (handle_batch_verified 100 (lit "me") [like; note; like_again] empty_store).1.

(** The second reaction replaced the first; the author of the note and the
    author of the reactions have rows. *)
Lemma store_well_typed_witness :
  store_typed (st_db after) ∧
  ((map_to_list (reactions (st_db after))).*1 = [lit "l2"] ∧
   bool_decide (is_Some (users (st_db after) !! lit "ann")) = true).
Proof.
  split; [apply (store_well_typed after), ingested_batch, fresh|]. by vm_compute.
Defined.
End SchemaExamples.
