(* ===== verification/ProfileLaws.v ===== *)
(** Profiles, contact lists and follower counts under the ingest. The newest
    profile wins in whatever order profiles arrive, but a row that an earlier
    post left behind refuses profiles older than the post; a contact list
    replaces the stored one whatever its age, and moves the follower counts by
    the number of times it names a user. *)

From S2P Require Import Prelude RustStr Text Sql Verify Store Ingest PostLaws Schema.

(** The columns a profile event sets. *)
Definition profile (r : UserRow) :=
  (usr_name r, usr_display_name r, usr_about r, usr_picture r, usr_banner r, usr_nip05 r, usr_lud16 r,
   usr_updated_at r, usr_metadata_json r).

(** ** Rows that an operation leaves alone *)

Definition users_keep (d d' : db) : Prop := ∀ k r, users d !! k = Some r → users d' !! k = Some r.

Lemma users_keep_trans d1 d2 d3 : users_keep d1 d2 → users_keep d2 d3 → users_keep d1 d3.
Proof. unfold users_keep. auto. Qed.

Lemma ensure_exists_keep k d : users_keep d (ensure_exists k d).
Proof.
  intros k' r Hr. unfold ensure_exists. cbn [users on_users]. destruct (users d !! clean k) eqn:E; [done|].
  rewrite lookup_insert_ne; [done|]. intros <-. congruence.
Qed.

Lemma notification_keep rows d : users_keep d (notification_upsert_batch rows d).
Proof.
  unfold notification_upsert_batch. revert d. induction rows as [|n rows IH]; intros d; cbn [fold_left]; [by intros ? ?|].
  eapply users_keep_trans; [|apply IH]. destruct (notification_too_big _); [by intros ? ?|].
  apply (ensure_exists_keep (ntf_pubkey n)).
Qed.

Lemma store_post_keep p d : users_keep d (store_post p d).
Proof. apply (ensure_exists_keep (pst_pubkey (normalize_post p))). Qed.

Section ingest.
Context `{Serde, Env}.

Lemma notify_me_keep now me e t i c d : users_keep d (notify_me now me e t i c d).
Proof. unfold notify_me. destruct (eq_ignore_ascii_case _ _); [by intros ? ?|apply notification_keep]. Qed.

Lemma maybe_notify_keep now me e row d : users_keep d (maybe_notify_text_note now me e row d).
Proof.
  unfold maybe_notify_text_note. destruct (eq_ignore_ascii_case _ _); [by intros ? ?|].
  repeat match goal with |- context [if ?b then notify_me _ _ _ _ _ _ _ else _] => destruct b end;
    try apply notify_me_keep; by intros ? ?.
Qed.

(** ** Profiles *)

Lemma user_row_key now e row :
  user_row_of now e = Some row →
  usr_pubkey row = ev_pubkey e ∧ usr_updated_at row = sanitize_ts now (ev_created_at e).
Proof. unfold user_row_of. intros (f & _ & [= <-])%bind_Some. done. Qed.

(** One profile event. *)
Lemma handle_metadata_row now e s row k :
  user_row_of now e = Some row → k = clean (ev_pubkey e) →
  users (st_db (handle_metadata now e s)) !! k =
  match users (st_db s) !! k with
  | None => Some (user_with_pubkey k row)
  | Some old =>
      if (usr_updated_at old <? usr_updated_at row)%Z
      then Some (merge_user old (with_lists (usr_contact_pubkeys old) (usr_relay_list old) row)) else Some old
  end.
Proof.
  intros Hrow ->. destruct (user_row_key now e row Hrow) as [Hpk Ht]. unfold handle_metadata. rewrite Hrow.
  unfold get_by_pubkey. rewrite Hpk. destruct (users (st_db s) !! clean (ev_pubkey e)) as [old|] eqn:Ho.
  - destruct (usr_updated_at old <? usr_updated_at row)%Z; [|done]. rewrite send_db.
    cbn [st_db on_db users user_upsert on_users usr_pubkey]. unfold upsert.
    rewrite Ho, lookup_insert_eq. done.
  - rewrite send_db. cbn [st_db on_db users user_upsert on_users]. rewrite Hpk. unfold upsert.
    by rewrite Ho, lookup_insert_eq.
Qed.

(** The profiles of one author, handled in the order given. *)
Definition handle_profiles (now : Z) (es : list Event) (s : store) : store :=
  fold_left (λ s e, handle_metadata now e s) es s.

(** The row is absent or older than [t]. *)
Definition older_than (t : Z) (r : option UserRow) : Prop :=
  match r with Some r => (usr_updated_at r < t)%Z | None => True end.

(** A profile by [k] that parses, with its time. *)
Definition profile_at (now : Z) (k : str) (e : Event) (t : Z) : Prop :=
  clean (ev_pubkey e) = k ∧ is_Some (user_row_of now e) ∧ sanitize_ts now (ev_created_at e) = t.

(** The profile of [row] is stored for [k]. *)
Definition stored_profile (k : str) (row : UserRow) (s : store) : Prop :=
  ∃ r, users (st_db s) !! k = Some r ∧ profile r = profile row.

Lemma profile_time r row : profile r = profile row → usr_updated_at r = usr_updated_at row.
Proof. unfold profile. intros. by simplify_eq. Qed.

(** The event itself stores its profile over an older row; a stored profile
    stays. *)
Lemma metadata_step_newest now k e s row t :
  user_row_of now e = Some row → profile_at now k e t →
  older_than t (users (st_db s) !! k) ∨ stored_profile k row s →
  stored_profile k row (handle_metadata now e s).
Proof.
  intros Hrow (Hk & _ & Ht) Hs. destruct (user_row_key now e row Hrow) as [_ Hu]. unfold stored_profile.
  rewrite (handle_metadata_row now e s row k) by done. destruct Hs as [Hs|(r & -> & Hr)].
  - destruct (users (st_db s) !! k) as [old|]; [|by eexists]. simpl in Hs.
    rewrite (proj2 (Z.ltb_lt _ _)) by lia. by eexists.
  - rewrite (profile_time r row Hr), Z.ltb_irrefl. eauto.
Qed.

(** An older event leaves an older row or the stored profile. *)
Lemma metadata_step_older now k e s row t t' :
  profile_at now k e t' → (t' < t)%Z →
  (older_than t (users (st_db s) !! k) → older_than t (users (st_db (handle_metadata now e s)) !! k)) ∧
  (usr_updated_at row = t → stored_profile k row s → stored_profile k row (handle_metadata now e s)).
Proof.
  intros (Hk & [row' Hrow'] & Ht') Hlt. destruct (user_row_key now e row' Hrow') as [_ Hu].
  unfold stored_profile. rewrite (handle_metadata_row now e s row' k) by done. split.
  - intros Hold. destruct (users (st_db s) !! k) as [old|]; [|simpl; lia]. destruct (_ <? _)%Z; simpl in *; lia.
  - intros Ht (r & -> & Hr). apply profile_time in Hr as Hr'. rewrite (proj2 (Z.ltb_ge _ _)) by lia. eauto.
Qed.

(** Among profiles of one author with distinct times, the newest is the one
    stored, in whatever order they arrive, unless the row was newer before. *)
Theorem metadata_newest_wins now k es s e row t :
  e ∈ es → user_row_of now e = Some row → profile_at now k e t →
  (∀ e', e' ∈ es → e' = e ∨ ∃ t', profile_at now k e' t' ∧ (t' < t)%Z) →
  older_than t (users (st_db s) !! k) →
  ∃ r, users (st_db (handle_profiles now es s)) !! k = Some r ∧ profile r = profile row.
Proof.
  intros Hin Hrow He Hes Hold. change (stored_profile k row (handle_profiles now es s)).
  assert (Ht : usr_updated_at row = t) by (destruct He as (_ & _ & <-); by apply (user_row_key now e row)).
  assert (Hs : older_than t (users (st_db s) !! k) ∧ e ∈ es ∨ stored_profile k row s) by auto. clear Hin Hold.
  unfold handle_profiles. revert s Hs. induction es as [|e' es IH]; intros s Hs; cbn [fold_left].
  { destruct Hs as [[_ Hs]|Hs]; [by apply elem_of_nil in Hs|done]. }
  apply IH; [intros e'' Hin; apply Hes; by right|].
  destruct (Hes e') as [->|(t' & He' & Hlt)]; [left| |].
  - right. apply (metadata_step_newest now k e s row t); [done..|tauto].
  - destruct (metadata_step_older now k e' s row t t' He' Hlt) as [H1 H2].
    destruct Hs as [[Hs Hin]|Hs]; [|right; auto]. apply elem_of_cons in Hin as [->|Hin]; [|left; auto].
    right. apply (metadata_step_newest now k e' s row t); auto.
Qed.

(** A post by an author without a row leaves a row dated like the post; a
    profile of that author no newer than the post is then refused. *)
Theorem placeholder_blocks_profile now me s s' note e :
  ev_kind note = TextNote → is_Some (post_row_of now note) →
  clean (ev_pubkey note) = ev_pubkey note → users (st_db s) !! ev_pubkey note = None →
  handle_kind now me note s = Ok s' →
  ev_pubkey e = ev_pubkey note → (sanitize_ts now (ev_created_at e) ≤ sanitize_ts now (ev_created_at note))%Z →
  handle_metadata now e s' = s' ∧
  ∃ r, users (st_db s') !! ev_pubkey note = Some r ∧ usr_name r = None.
Proof.
  intros Hk [row Hrow] Hclean Hnone Hs Hpk Hle. unfold handle_kind in Hs. rewrite Hk in Hs. simpl in Hs.
  unfold handle_text_note in Hs. rewrite Hrow in Hs. apply result_bind_ok in Hs as (d & Hd & [= <-]).
  unfold post_upsert in Hd. destruct (row_too_big _ _); [done|]. injection Hd as <-.
  set (s1 := send _ _).
  assert (Hr : users (st_db s1) !! ev_pubkey note =
    Some (bare_user (ev_pubkey note) [] (sanitize_ts now (ev_created_at note)) (lit "[]"))).
  { unfold s1. rewrite send_db. cbn [st_db on_db]. apply maybe_notify_keep.
    cbn [users hashtag_upsert_many on_hashtags]. apply store_post_keep. unfold ensure_author_user.
    cbn [users on_users]. by rewrite Hnone, lookup_insert_eq. }
  split; [|by eexists]. unfold handle_metadata. destruct (user_row_of now e) as [r|] eqn:He; [|done].
  destruct (user_row_key now e r He) as [Hp Hu]. unfold get_by_pubkey. rewrite Hp, Hpk, Hclean, Hr. simpl.
  by rewrite (proj2 (Z.ltb_ge _ _)) by lia.
Qed.
(** ** Contact lists *)

(** What a list of deltas does to one user. *)
Fixpoint delta_of (k : str) (l : list (str * Z)) : Z :=
  match l with
  | [] => 0
  | e :: l => (if bool_decide (clean e.1 = k) then e.2 else 0) + delta_of k l
  end%Z.

Lemma delta_sums_of l k : default 0%Z (delta_sums l !! k) = delta_of k l.
Proof.
  unfold delta_sums. cut (∀ m : gmap str Z, default 0%Z (fold_left (λ sums e, <[clean e.1 :=
    (default 0%Z (sums !! clean e.1) + e.2)%Z]> sums) l m !! k) = (default 0%Z (m !! k) + delta_of k l)%Z).
  { intros Hc. rewrite Hc, lookup_empty. done. }
  induction l as [|e l IH]; intros m; cbn [fold_left delta_of]; [lia|]. rewrite IH.
  case_bool_decide as Hk; [rewrite Hk, lookup_insert_eq; simpl; lia|]. rewrite lookup_insert_ne by done. lia.
Qed.

Lemma delta_of_app k l1 l2 : delta_of k (l1 ++ l2) = (delta_of k l1 + delta_of k l2)%Z.
Proof. induction l1 as [|e l1 IH]; simpl; [done|]. rewrite IH. lia. Qed.

Lemma delta_of_const k (l : list str) c :
  Forall (λ x, clean x = x) l →
  delta_of k ((λ x, (x, c)) <$> l) = (c * Z.of_nat (length (filter (λ x, x = k) l)))%Z.
Proof.
  induction 1 as [|x l Hx Hl IH]; [simpl; lia|]. cbn [fmap list_fmap delta_of fst snd]. rewrite Hx, filter_cons.
  fold (fmap (M := list) (λ x, (x, c)) l). rewrite IH.
  case_bool_decide as Hk; [rewrite decide_True by done; cbn [length]; lia|rewrite decide_False by done; lia].
Qed.

(** How often a list names a user. *)
Definition times (k : str) (l : list str) : Z := Z.of_nat (length (filter (λ x, x = k) l)).

Lemma times_filter (k : str) (P : str → Prop) `{∀ x, Decision (P x)} l :
  length (filter (λ x, x = k) (filter P l)) = if bool_decide (P k) then length (filter (λ x, x = k) l) else 0.
Proof.
  rewrite list_filter_filter. case_bool_decide as HP.
  - f_equal. apply list_filter_iff. intros x. naive_solver.
  - induction l as [|x l IH]; [done|]. rewrite filter_cons. destruct (decide (x = k ∧ P x)) as [[-> ?]|]; [done|].
    done.
Qed.

Lemma times_nodup (k : str) (l : list str) : NoDup l → length (filter (λ x, x = k) l) = if bool_decide (k ∈ l) then 1 else 0.
Proof.
  induction 1 as [|x l Hx Hl IH]; [done|]. rewrite filter_cons. destruct (decide (x = k)) as [->|Hk].
  - cbn [length]. rewrite IH, (bool_decide_eq_false_2 (k ∈ l)), bool_decide_eq_true_2 by (done || left). done.
  - rewrite IH. destruct (bool_decide_reflect (k ∈ l)), (bool_decide_reflect (k ∈ x :: l)); set_solver.
Qed.

(** The change of a follower count: one for every mention in the new list of a
    user the old list lacks, minus one for a user the new list lacks. *)
Definition follower_change (k : str) (before new_list : list str) : Z :=
  ((if bool_decide (k ∈ before) then 0 else times k new_list) -
   (if bool_decide (k ∈ before ∧ k ∉ new_list) then 1 else 0))%Z.

Lemma follower_deltas_of pk k before new_list :
  k ≠ pk → Forall (λ x, clean x = x) before → Forall (λ x, clean x = x) new_list →
  delta_of k (follower_deltas pk before new_list) = follower_change k before new_list.
Proof.
  intros Hk Hb Hn. unfold follower_deltas, follower_change, times. rewrite delta_of_app, !delta_of_const.
  - rewrite times_filter, (times_filter k (λ k0, k0 ≠ pk)), (bool_decide_eq_true_2 (k ≠ pk)) by done.
    set (gone := elements (list_to_set before ∖ list_to_set new_list : gset str)).
    rewrite (times_nodup k gone) by apply NoDup_elements.
    rewrite (bool_decide_ext (k ∈ gone) (k ∈ before ∧ k ∉ new_list)) by (unfold gone; set_solver).
    destruct (bool_decide_reflect (k ∈ before)), (bool_decide_reflect (k ∈ before ∧ k ∉ new_list)),
      (bool_decide_reflect (k ≠ pk ∧ k ∉ before)); naive_solver lia.
  - apply Forall_forall. intros x [_ Hx]%list_elem_of_filter. rewrite elem_of_elements in Hx.
    rewrite Forall_forall in Hb. set_solver.
  - apply Forall_forall. intros x [_ Hx]%list_elem_of_filter. rewrite Forall_forall in Hn. auto.
Qed.

(** A stored list reads back. *)
Lemma split_json l : split_pubkey_list (strings_to_json l) = l.
Proof.
  destruct (strings_bracket l) as [m Hm]. unfold split_pubkey_list.
  assert (Ht : trim (strings_to_json l) = strings_to_json l).
  { rewrite Hm. change (lit "[") with [0x5B%Z]. change (lit "]") with [0x5D%Z]. unfold trim, trim_end.
    cbn [app]. rewrite trim_start_visible by (unfold visible; lia).
    rewrite app_comm_cons, reverse_snoc, trim_start_rev_visible by (unfold visible; lia).
    by rewrite <- reverse_snoc, reverse_involutive. }
  rewrite Ht, (bool_decide_eq_false_2 (strings_to_json l = [])) by (by rewrite Hm). cbn [orb].
  case_bool_decide as He.
  { rewrite <- strings_empty in He. apply (f_equal strings_from_json) in He.
    rewrite !strings_roundtrip in He. by injection He. }
  rewrite bool_decide_eq_true_2 by (by rewrite Hm). by rewrite strings_roundtrip.
Qed.

(** The count of a user moves by [delta], not below zero. *)
Definition move_count (delta : Z) (r : UserRow) : UserRow := if (delta =? 0)%Z then r else bump delta r.

Lemma bump_counts_lookup l d k r :
  users d !! k = Some r → users (bump_follower_counts l d) !! k = Some (move_count (delta_of k l) r).
Proof.
  intros Hr. unfold bump_follower_counts, move_count. cbn [users on_users]. rewrite map_lookup_imap, Hr. simpl.
  rewrite <- delta_sums_of. by destruct (delta_sums l !! k).
Qed.

Lemma move_count_list delta r : usr_contact_pubkeys (move_count delta r) = usr_contact_pubkeys r.
Proof. unfold move_count. by destruct (delta =? 0)%Z. Qed.

(** The list stored for a user. *)
Definition stored_contacts (k : str) (d : db) : list str :=
  split_pubkey_list (default [] (usr_contact_pubkeys <$> users d !! k)).

(** A contact list replaces the author's stored list, whatever the times of
    the two; every other user with a row has its follower count moved by the
    difference of the lists, where a repeated name counts repeatedly. *)
Theorem contact_list_spec now me e d :
  let pk := ev_pubkey e in
  users_ok (users d) → clean pk = pk →
  Forall (λ x, clean x = x) (stored_contacts pk d) → Forall (λ x, clean x = x) (p_tags e) →
  stored_contacts pk (handle_contact_list now me e d) = p_tags e ∧
  ∀ k r, k ≠ pk → users d !! k = Some r →
    users (handle_contact_list now me e d) !! k =
    Some (move_count (follower_change k (stored_contacts pk d) (p_tags e)) r).
Proof.
  intros pk Hu Hpk Hb Hn. unfold handle_contact_list, get_by_pubkey. fold pk. rewrite Hpk.
  set (row := with_lists _ _ _). set (deltas := follower_deltas _ _ _). set (d1 := user_upsert row d).
  set (d2 := bump_follower_counts deltas d1). set (d3 := if _ && _ then _ else _).
  assert (H3 : users_keep d2 d3) by (unfold d3; destruct (_ && _); [apply notify_me_keep|by intros ? ?]).
  assert (Hkey : clean (usr_pubkey row) = pk).
  { unfold row. cbn [usr_pubkey with_lists]. destruct (users d !! pk) as [r|] eqn:Hr; [|done].
    destruct (Hu pk r Hr) as [E _]. simpl. by rewrite E. }
  assert (Hd1 : users d1 = upsert merge_user pk (user_with_pubkey pk row) (users d)).
  { unfold d1, user_upsert. rewrite Hkey. done. }
  split.
  - assert (H1 : ∃ r, users d1 !! pk = Some r ∧ usr_contact_pubkeys r = strings_to_json (p_tags e)).
    { rewrite Hd1. unfold upsert. rewrite lookup_insert_eq. destruct (users d !! pk); by eexists. }
    destruct H1 as (r & Hr & Hc). unfold stored_contacts.
    rewrite (H3 _ _ (bump_counts_lookup deltas d1 pk r Hr)). cbn [fmap option_fmap option_map default].
    rewrite move_count_list, Hc. apply split_json.
  - intros k r Hk Hr. apply H3. unfold d2. rewrite (bump_counts_lookup deltas d1 k r).
    + f_equal. f_equal. unfold deltas. rewrite follower_deltas_of; [|done..|].
      * unfold row. cbn [usr_contact_pubkeys with_lists]. by rewrite split_json.
      * unfold row. cbn [usr_contact_pubkeys with_lists]. by rewrite split_json.
    + rewrite Hd1. unfold upsert. by rewrite lookup_insert_ne.
Qed.
End ingest.

Module ProfileExamples.
Import IngestExamples.

Definition named_ann : Event := event "m2" "ann" 9 Metadata [] "Ann".
Definition named_old : Event := event "m1" "ann" 5 Metadata [] "Old".

(** The newer profile arrives first and stays. *)
Lemma metadata_newest_wins_witness :
  (∃ row, user_row_of 100 named_ann = Some row ∧
     ∃ r, users (st_db (handle_profiles 100 [named_ann; named_old] empty_store)) !! lit "ann" = Some r ∧
          profile r = profile row) ∧
  usr_name <$> users (st_db (handle_profiles 100 [named_ann; named_old] empty_store)) !! lit "ann"
    = Some (Some (lit "Ann")).
Proof.
  split; [|by vm_compute]. destruct (user_row_of 100 named_ann) as [row|] eqn:Hrow; [|by vm_compute in Hrow].
  exists row. split; [done|].
  apply (metadata_newest_wins 100 (lit "ann") [named_ann; named_old] empty_store named_ann row 9).
  - left.
  - done.
  - split; [by vm_compute|split; [by rewrite Hrow|by vm_compute]].
  - intros e' He. apply elem_of_cons in He as [->|He]; [by left|]. right. exists 5%Z.
    apply elem_of_cons in He as [->|He]; [|by apply elem_of_nil in He].
    split; [|lia]. split; [by vm_compute|split; [by eexists|by vm_compute]].
  - exact I.
Defined.

Definition note : Event := event "n1" "ann" 50 TextNote [] "hi".
Definition older_name : Event := event "m3" "ann" 40 Metadata [] "Ann".

(** The profile of time 40 is refused because a post of time 50 came first. *)
Lemma placeholder_blocks_profile_witness :
  ∃ s', handle_kind 100 (lit "me") note empty_store = Ok s' ∧ handle_metadata 100 older_name s' = s' ∧
    ∃ r, users (st_db s') !! lit "ann" = Some r ∧ usr_name r = None.
Proof.
  eexists. split; [reflexivity|].
  apply (placeholder_blocks_profile 100 (lit "me") empty_store _ note older_name); try by vm_compute.
  - by eexists.
Defined.

Definition follows : Event :=
  event "c2" "ann" 3 ContactList [["p"; "bob"]; ["p"; "bob"]; ["p"; "carl"]] "".

Definition person (k : string) (contacts : list string) (count : Z) : str * UserRow :=
  (lit k, with_followers count (with_lists (strings_to_json (lit <$> contacts)) [] (bare_user (lit k) [] 9 []))).

Definition people : db :=
  on_users (λ _, list_to_map [person "ann" ["carl"; "dan"] 0; person "bob" [] 4; person "carl" [] 5;
                              person "dan" [] 6]) db_empty.

(** A list older than the rows; bob is named twice and counts twice. *)
Lemma contact_list_spec_witness :
  (stored_contacts (lit "ann") (handle_contact_list 100 (lit "me") follows people) = p_tags follows ∧
   ∀ k r, k ≠ lit "ann" → users people !! k = Some r →
     users (handle_contact_list 100 (lit "me") follows people) !! k =
     Some (move_count (follower_change k (stored_contacts (lit "ann") people) (p_tags follows)) r)) ∧
  (λ k, usr_follower_count <$> users (handle_contact_list 100 (lit "me") follows people) !! lit k)
    <$> ["bob"; "carl"; "dan"]%string = [Some 6; Some 5; Some 5]%Z.
Proof.
  split; [|by vm_compute]. apply (contact_list_spec 100 (lit "me") follows people).
  - assert (Hall : map_Forall (λ k r, usr_pubkey r = k ∧ (0 ≤ usr_follower_count r)%Z) (users people)).
    { apply map_Forall_to_list. vm_compute. repeat constructor; done. }
    intros k r Hr. apply (Hall k r Hr).
  - by vm_compute.
  - assert (Hl : stored_contacts (ev_pubkey follows) people = [lit "carl"; lit "dan"]) by (by vm_compute).
    rewrite Hl. repeat constructor; by vm_compute.
  - repeat constructor; by vm_compute.
Defined.
End ProfileExamples.
