(* ===== verification/ZapLaws.v ===== *)
(** Zap receipts under the ingest. A receipt adds a zap only when a stored
    request for the zapped note carries the invoice's amount and the canonical
    JSON of a request that is or was stored under its identifier hashes to the
    invoice's description hash; no other event changes the zaps. *)

From S2P Require Import Url Content Prelude RustStr Text Sql Verify Store Bolt11 Ingest PostLaws Schema.

(** ** What leaves the zaps alone *)

Lemma notification_zaps rows d : zaps (notification_upsert_batch rows d) = zaps d.
Proof.
  unfold notification_upsert_batch. revert d. induction rows as [|n rows IH]; intros d; cbn [fold_left]; [done|].
  rewrite IH. by destruct (notification_too_big _).
Qed.

Lemma reaction_zaps row d : zaps (reaction_upsert row d) = zaps d.
Proof.
  unfold reaction_upsert. destruct (if head _ is Some r then _ else false); [done|]. by destruct (bool_decide _).
Qed.

Lemma bookmarks_zaps rows d : zaps (bookmark_upsert_many rows d) = zaps d.
Proof.
  unfold bookmark_upsert_many. cbn [zaps on_bookmarks]. generalize (normalize_bookmark <$> rows). intros l.
  revert d. induction l as [|r l IH]; intros d; cbn [fold_left]; [done|]. by rewrite IH.
Qed.

Lemma repost_zaps row d : zaps (repost_upsert row d) = zaps d.
Proof. unfold repost_upsert. by destruct (reposts _ !! _). Qed.

Section ingest.
Context `{Serde, Env}.

Lemma notify_me_zaps now me e t i c d : zaps (notify_me now me e t i c d) = zaps d.
Proof. unfold notify_me. destruct (eq_ignore_ascii_case _ _); [done|apply notification_zaps]. Qed.

Lemma maybe_notify_zaps now me e row d : zaps (maybe_notify_text_note now me e row d) = zaps d.
Proof.
  unfold maybe_notify_text_note. destruct (eq_ignore_ascii_case _ _); [done|].
  repeat match goal with |- context [if ?b then notify_me _ _ _ _ _ _ _ else _] => destruct b end;
    rewrite ?notify_me_zaps; done.
Qed.

Lemma relay_list_zaps e d : zaps (handle_relay_list e d) = zaps d.
Proof.
  unfold handle_relay_list. revert d. induction (ev_tags e) as [|t l IH]; intros d; cbn [fold_left]; [done|].
  rewrite IH. destruct t as [|k [|u r]]; [done..|]. by destruct (_ && _).
Qed.

Lemma deletion_zaps e d : zaps (handle_deletion e d) = zaps d.
Proof.
  unfold handle_deletion. revert d. induction (e_tags e) as [|i l IH]; intros d; cbn [fold_left]; [done|]. by rewrite IH.
Qed.

Lemma handle_post_zaps now e d d' : handle_post now e d = Ok d' → zaps d' = zaps d.
Proof.
  unfold handle_post, post_upsert. destruct (post_row_of now e); [|by intros [= <-]].
  destruct (row_too_big _ _); [done|]. by intros [= <-].
Qed.

(** Only receipts change the zaps. *)
Lemma handle_kind_zaps now me e s s' :
  handle_kind now me e s = Ok s' → zaps (st_db s') = zaps (st_db s) ∨ s' = handle_zap_receipt now me e s.
Proof.
  unfold handle_kind. intros Hs.
  repeat match type of Hs with (if ?b then _ else _) = _ => destruct b eqn:? end.
  - left. unfold handle_dm, try_send in Hs. destruct (_ || _); [|by injection Hs as <-].
    destruct (st_room s); [done|]. by injection Hs as <-.
  - left. injection Hs as <-. unfold handle_metadata. destruct (user_row_of now e); [|done].
    destruct (get_by_pubkey _ _); [destruct (_ <? _)%Z; [|done]|]; by rewrite send_db.
  - left. injection Hs as <-. cbn [st_db on_db]. unfold handle_contact_list. cbv zeta.
    destruct (_ && _ && _); [by rewrite notify_me_zaps|done].
  - right. by injection Hs as <-.
  - left. injection Hs as <-. apply relay_list_zaps.
  - left. injection Hs as <-. cbn [st_db on_db]. unfold handle_bookmarks.
    destruct (e_tags e); [done|]. unfold delete_for_deleted_targets. cbn [zaps on_bookmarks]. by rewrite bookmarks_zaps.
  - left. injection Hs as <-. unfold handle_reaction. destruct (first_e_tag e); [|done]. rewrite send_db.
    cbn [st_db on_db]. cbv zeta. destruct (authored_by _ _); by rewrite ?notify_me_zaps, reaction_zaps.
  - left. injection Hs as <-. cbn [st_db on_db]. unfold handle_repost. destruct (first_e_tag e); [|done]. cbv zeta.
    destruct (authored_by _ _); by rewrite ?notify_me_zaps, repost_zaps.
  - left. unfold handle_text_note, post_upsert in Hs. destruct (post_row_of now e); [|by injection Hs as <-].
    destruct (row_too_big _ _); [done|]. injection Hs as <-. rewrite send_db. cbn [st_db on_db].
    by rewrite maybe_notify_zaps.
  - left. injection Hs as <-. apply deletion_zaps.
  - left. apply result_bind_ok in Hs as (d & Hp & [= <-]). by eapply handle_post_zaps.
  - left. by injection Hs as <-.
Qed.

(** ** The binding of a receipt *)

(** The states of a process, the latest first: it handles verified events, and
    otherwise changes the tables and sends updates, without the cache of
    digests, which a restart empties. *)
Inductive history : list store → Prop :=
| h_fresh s : st_digests s = ∅ → history [s]
| h_event now me e s s' h : history (s :: h) → handle_kind now me e s = Ok s' → history (s' :: s :: h)
| h_other s s' h : history (s :: h) → st_digests s' = st_digests s ∨ st_digests s' = ∅ → history (s' :: s :: h).

(** A row of the posts in one of these states. *)
Definition was_stored (h : list store) (row : PostRow) : Prop := ∃ s k p, s ∈ h ∧ posts (st_db s) !! k = Some p ∧ post_row p = row.

Lemma was_stored_cons s h row : was_stored h row → was_stored (s :: h) row.
Proof. intros (s0 & k & p & Hs & ?). exists s0, k, p. split; [by right|done]. Qed.

(** A cached digest is that of a request that was stored under its identifier. *)
Definition from_rows (W : PostRow → Prop) (cache : gmap str bytes) : Prop :=
  ∀ id dg, cache !! id = Some dg → ∃ req0, W req0 ∧ pst_kind req0 = ZapRequest ∧ pst_id req0 = id ∧ dg = sha256 (zap_request_canonical_json req0).

Lemma from_rows_mono (W W' : PostRow → Prop) cache : (∀ r, W r → W' r) → from_rows W cache → from_rows W' cache.
Proof. intros HW Hc id dg (r & Hr & ?)%Hc. exists r. split; [by apply HW|done]. Qed.

Lemma digest_from_rows W cache req :
  W req → pst_kind req = ZapRequest → from_rows W cache →
  let '(cache', dg) := zap_request_digest cache req in
  from_rows W cache' ∧ ∃ req0, W req0 ∧ pst_kind req0 = ZapRequest ∧ pst_id req0 = pst_id req ∧ dg = sha256 (zap_request_canonical_json req0).
Proof.
  intros Hw Hk Hc. unfold zap_request_digest. destruct (cache !! pst_id req) as [dg|] eqn:Hd; [by split; [|apply Hc]|].
  split; [|by exists req]. intros id dg. rewrite lookup_insert_Some. intros [[<- <-]|[_ Hl]]; [by exists req|].
  destruct (_ <=? _)%Z; [by rewrite lookup_empty in Hl|by apply Hc].
Qed.

Lemma any_request_spec W me amount hash reqs cache :
  (∀ req, req ∈ reqs → W req ∧ pst_kind req = ZapRequest) → from_rows W cache →
  from_rows W (any_request me amount hash cache reqs).1 ∧
  ((any_request me amount hash cache reqs).2 = true →
   ∃ req req0, req ∈ reqs ∧ request_tags_match me amount req = true ∧ W req0 ∧ pst_kind req0 = ZapRequest ∧ pst_id req0 = pst_id req ∧
     sha256 (zap_request_canonical_json req0) = hash).
Proof.
  revert cache. induction reqs as [|req reqs IH]; intros cache Hw Hc; cbn [any_request]; [done|].
  pose proof (digest_from_rows W cache req) as Hdg. destruct (zap_request_digest cache req) as [cache' dg].
  destruct (Hw req) as [Hwr Hkr]; [by left|]. destruct (Hdg Hwr Hkr Hc) as (Hc' & req0 & Hw0 & Hk0 & Hi0 & ->).
  destruct (bool_decide (_ = hash)) eqn:Hh; cbn [andb]; [destruct (request_tags_match me amount req) eqn:Ht|].
  - split; [done|]. intros _. exists req, req0. apply bool_decide_eq_true_1 in Hh. split_and!; try done. by left.
  - destruct (IH cache') as [H1' H2']; [by intros r Hr; apply Hw; right|done|]. split; [done|].
    intros (r & r0 & Hr & Hrest)%H2'. exists r, r0. split; [by right|done].
  - destruct (IH cache') as [H1' H2']; [by intros r Hr; apply Hw; right|done|]. split; [done|].
    intros (r & r0 & Hr & Hrest)%H2'. exists r, r0. split; [by right|done].
Qed.

(** The requests a receipt is compared with: the newest eight for the note. *)
Definition candidates (note : str) (s : store) : list PostRow := get_zap_requests_for_note note (st_db s).

Lemma candidates_stored note s req :
  req ∈ candidates note s →
  pst_kind req = ZapRequest ∧ pst_reply_to req = Some note ∧ ∃ k p, posts (st_db s) !! k = Some p ∧ post_row p = req.
Proof.
  unfold candidates, get_zap_requests_for_note. intros (p & -> & Hp)%list_elem_of_fmap.
  apply elem_of_select in Hp as ([? ?] & k & Hk). eauto 6.
Qed.

Lemma candidates_were note s h req : s ∈ h → req ∈ candidates note s → was_stored h req ∧ pst_kind req = ZapRequest.
Proof. intros Hs (Hk & _ & k & p & Hp & Hreq)%candidates_stored. split; [by exists s, k, p|done]. Qed.

(** One of the newest stored requests for the note: one of its tags names the
    user and one has the amount. *)
Definition names_zap (me : str) (amount : Z) (note : str) (s : store) (req : PostRow) : Prop :=
  req ∈ candidates note s ∧ pst_kind req = ZapRequest ∧ pst_reply_to req = Some note ∧
  ∃ tags, tags_from_json (pst_tags_json req) = Some tags ∧
    (∃ pk rest, lit "p" :: pk :: rest ∈ tags ∧ eq_ignore_ascii_case pk me = true) ∧
    (∃ msats rest, lit "amount" :: msats :: rest ∈ tags ∧ parse_u64 msats = Some amount).

Lemma request_tags_match_spec me amount req : request_tags_match me amount req = true →
  ∃ tags, tags_from_json (pst_tags_json req) = Some tags ∧
    (∃ pk rest, lit "p" :: pk :: rest ∈ tags ∧ eq_ignore_ascii_case pk me = true) ∧
    (∃ msats rest, lit "amount" :: msats :: rest ∈ tags ∧ parse_u64 msats = Some amount).
Proof.
  unfold request_tags_match. destruct (tags_from_json _) as [tags|]; [|done]. simpl default.
  intros [(t & Ht%list_elem_of_In & [Hp Hm]%andb_true_iff)%existsb_exists
          (u & Hu%list_elem_of_In & [Ha Hb]%andb_true_iff)%existsb_exists]%andb_true_iff.
  apply bool_decide_eq_true in Hp, Ha, Hb. exists tags. split; [done|]. split.
  - destruct t as [|n [|pk rest]]; [done|done|]. injection Hp as ->. by exists pk, rest.
  - destruct u as [|n [|a rest]]; [done|done|]. injection Ha as ->. by exists a, rest.
Qed.

(** Nothing but a receipt touches the cache. *)
Lemma sends_digests u s : st_digests (send u s) = st_digests s.
Proof. unfold send, try_send. by destruct (st_room s). Qed.

Lemma handle_kind_digests now me e s s' :
  handle_kind now me e s = Ok s' → st_digests s' = st_digests s ∨ s' = handle_zap_receipt now me e s.
Proof.
  unfold handle_kind. intros Hs. repeat match type of Hs with (if ?b then _ else _) = _ => destruct b eqn:? end.
  - left. unfold handle_dm, try_send in Hs. destruct (_ || _); [|by injection Hs as <-]. destruct (st_room s); [done|]. by injection Hs as <-.
  - left. injection Hs as <-. unfold handle_metadata. destruct (user_row_of now e); [|done].
    destruct (get_by_pubkey _ _); [destruct (_ <? _)%Z; [|done]|]; by rewrite sends_digests.
  - left. by injection Hs as <-.
  - right. by injection Hs as <-.
  - left. by injection Hs as <-.
  - left. by injection Hs as <-.
  - left. injection Hs as <-. unfold handle_reaction. destruct (first_e_tag e); [|done]. by rewrite sends_digests.
  - left. by injection Hs as <-.
  - left. unfold handle_text_note, post_upsert in Hs. destruct (post_row_of now e); [|by injection Hs as <-].
    destruct (row_too_big _ _); [done|]. injection Hs as <-. by rewrite sends_digests.
  - left. by injection Hs as <-.
  - left. by apply result_bind_ok in Hs as (d & Hp & [= <-]).
  - left. by injection Hs as <-.
Qed.

Lemma history_digests h : history h → ∀ s, head h = Some s → from_rows (was_stored h) (st_digests s).
Proof.
  induction 1 as [s Hs|now me e s s' h Hh IH Hk|s s' h Hh IH Hd]; intros x [= <-].
  - rewrite Hs. intros id dg. by rewrite lookup_empty.
  - specialize (IH s eq_refl). assert (Hs : from_rows (was_stored (s' :: s :: h)) (st_digests s))
      by (eapply from_rows_mono, IH; apply was_stored_cons).
    destruct (handle_kind_digests now me e s s' Hk) as [->| ->]; [done|]. unfold handle_zap_receipt.
    destruct (zap_receipt me e) as [[[amount hash] note]|]; [|eapply from_rows_mono, IH; apply was_stored_cons].
    match goal with |- context [was_stored (?x :: s :: h)] => set (s2 := x) end.
    destruct (any_request_spec (was_stored (s2 :: s :: h)) me amount hash (candidates note s) (st_digests s)) as [Hc _].
    { intros req Hreq. apply (candidates_were note s); [by right; left|done]. }
    { eapply from_rows_mono, IH. apply was_stored_cons. }
    assert (st_digests s2 = (any_request me amount hash (st_digests s) (candidates note s)).1) as ->; [|done].
    subst s2. unfold candidates. by destruct (any_request _ _ _ _ _) as [cache [|]].
  - destruct Hd as [->| ->]; [eapply from_rows_mono, (IH s eq_refl); apply was_stored_cons|]. intros id dg. by rewrite lookup_empty.
Qed.

(** The ingest, batches included, is such a process. *)
Lemma batch_loop_history now me events b pos h :
  history (bt_store b :: h) → ∃ h', history (bt_store (batch_loop now me b pos events) :: h') ∧ (bt_store b :: h) `suffix_of` (bt_store (batch_loop now me b pos events) :: h').
Proof.
  revert b pos h. induction events as [|[e v] events IH]; intros b pos h Hh; cbn [batch_loop]; [by exists h|].
  assert (∃ h1, history (bt_store (if v then batch_event now me b pos e else b) :: h1) ∧
    (bt_store b :: h) `suffix_of` (bt_store (if v then batch_event now me b pos e else b) :: h1)) as (h1 & Hh1 & Hs1).
  { destruct v; [|by exists h]. unfold batch_event. destruct (handled_at_once _).
    - destruct (handle_kind now me e (bt_store b)) as [s'|] eqn:E; [|by exists h]. exists (bt_store b :: h). cbn [bt_store].
      split; [by eapply h_event|by apply suffix_cons_r].
    - unfold batch_post. destruct (bool_decide _); [|by exists h]. destruct (post_row_of now e); [|by exists h]. exists (bt_store b :: h). cbn [bt_store].
      split; [apply h_other; [done|left]|by apply suffix_cons_r]. by repeat destruct (bool_decide _); repeat destruct (_ =? _)%Z. }
  destruct (IH _ (S pos) h1 Hh1) as (h2 & Hh2 & Hs2). exists h2. split; [done|]. by etrans.
Qed.

Lemma handle_batch_history now me events s h :
  history (s :: h) → ∃ h', history ((handle_batch_masked now me events s).1 :: h').
Proof.
  intros Hh. destruct events as [|ev events]; [by exists h|]. cbn [handle_batch_masked]. cbv zeta.
  destruct (batch_loop_history now me (ev :: events) (mk_batch s [] [] [] ∅) 0 h Hh) as (h1 & Hh1 & _).
  exists (bt_store (batch_loop now me (mk_batch s [] [] [] ∅) 0 (ev :: events)) :: h1). apply h_other; [done|]. left. cbn [fst].
  match goal with |- st_digests (fold_left _ ?rows ?s0) = _ => transitivity (st_digests s0); [generalize rows s0|done] end.
  intros rows. induction rows as [|row rows IH]; intros s0; [done|]. cbn [fold_left]. rewrite IH. destruct (_ =? _)%Z; [apply sends_digests|done].
Qed.

Lemma reachable_history s : reachable s → ∃ h, history (s :: h).
Proof.
  induction 1 as [room|now me e s s' _ [h Hh] Hs|now me events s _ [h Hh]|pk id s _ [h Hh]|id s _ [h Hh]|cutoff s _ [h Hh]|key ts s _ [h Hh]].
  - exists []. by apply h_fresh.
  - exists (s :: h). by eapply h_event.
  - by eapply handle_batch_history.
  - exists (s :: h). apply h_other; [done|by left].
  - exists (s :: h). apply h_other; [done|by left].
  - exists (s :: h). apply h_other; [done|by left].
  - exists (s :: h). apply h_other; [done|by left].
Qed.

(** C20: whatever happened to the process before, an event changes the zaps only
    when it is a receipt that names the user, whose invoice carries an amount
    and a description hash, and a stored request for the zapped note names the
    user and that amount, while the hash is that of the canonical JSON of a
    request that is or was stored under its identifier (digests are cached by
    identifier): of the request itself, when its row never changed. The zap it
    adds has the amount of the invoice. *)
Theorem zap_bound now me e s s' h :
  history (s :: h) → handle_kind now me e s = Ok s' → zaps (st_db s') ≠ zaps (st_db s) →
  ∃ amount hash note req req0,
    zap_receipt me e = Some (amount, hash, note) ∧
    names_zap me amount note s req ∧
    was_stored (s :: h) req0 ∧ pst_kind req0 = ZapRequest ∧ pst_id req0 = pst_id req ∧ sha256 (zap_request_canonical_json req0) = hash ∧
    ((∀ row, was_stored (s :: h) row → pst_id row = pst_id req → row = req) → sha256 (zap_request_canonical_json req) = hash) ∧
    ∃ z, zaps (st_db s') !! clean (ev_id e) = Some z ∧ zap_amount_msat z = Z.min amount i64_max.
Proof.
  intros Hh Hs Hz. destruct (handle_kind_zaps now me e s s' Hs) as [Hno| ->]; [done|].
  unfold handle_zap_receipt in *. destruct (zap_receipt me e) as [[[amount hash] note]|]; [|done].
  fold (candidates note s) in *.
  destruct (any_request_spec (was_stored (s :: h)) me amount hash (candidates note s) (st_digests s)) as [_ Hany].
  { intros req Hreq. apply (candidates_were note s); [by left|done]. }
  { by apply (history_digests (s :: h)). }
  destruct (any_request _ _ _ _ _) as [cache [|]]; [|done]. destruct (Hany eq_refl) as (req & req0 & Hreq & Hm & Hw0 & Hk0 & Hi0 & Hh0).
  destruct (candidates_stored _ _ _ Hreq) as (Hk & Hr & _).
  exists amount, hash, note, req, req0. split; [done|]. split; [split_and!; [done|done|done|by apply request_tags_match_spec]|].
  split_and!; try done; [intros Hrow; by rewrite <-(Hrow req0)|]. cbn [st_db on_db]. rewrite notify_me_zaps.
  unfold zap_upsert, upsert. cbn [zaps on_zaps zap_id]. rewrite lookup_insert_eq. eexists. split; [done|].
  by destruct (zaps _ !! _).
Qed.
End ingest.

Module ZapExamples.
Import IngestExamples.

(** Tags that name the user and an amount of 2000 millisatoshi. *)
Definition tags_of_request : Serde := {|
  strings_to_json := @strings_to_json packed;
  strings_from_json := @strings_from_json packed;
  tags_to_json l := lit "[]";
  tags_from_json s := Some [[lit "p"; lit "me"]; [lit "amount"; lit "2000"]];
  string_to_json s := s;
  object_field s := None;
  strings_roundtrip := @strings_roundtrip packed;
  strings_empty := @strings_empty packed;
  strings_bracket := @strings_bracket packed
|}.

(** Every invoice carries the digest that every request has. *)
Definition one_digest : Env := {|
  sha256 s := Bolt11Examples.hash;
  bech32_decode s := Some (s, Bolt11Examples.words_as_bytes);
  to_bech32 s := s;
  event_id e := ev_id e;
  event_sig e := ev_sig e;
  event_verify e := bool_decide (ev_sig e = ev_id e);
  android := false;
  urls := {| url_parse s := None |};
  content_crates := {| ammonia_text s := s; unicode_word s := true |};
  post_order := _
|}.
#[local] Existing Instance tags_of_request | 0.
#[local] Existing Instance one_digest | 0.

Definition request : Event := event "r1" "ann" 5 ZapRequest [["e"; "n1"]; ["p"; "me"]] "".
Definition receipt : Event :=
  event "z1" "ln" 9 ZapReceipt [["p"; "me"]; ["e"; "n1"]; ["bolt11"; "lnbc20n1xyz"]] "".

Definition requested : store :=
  match handle_verified 100 (lit "me") request empty_store with Ok s => s | Err _ => empty_store end.
Definition zapped : store :=
  match handle_kind 100 (lit "me") receipt requested with Ok s => s | Err _ => requested end.

Lemma zap_bound_witness :
  (∃ amount hash note req,
    zap_receipt (lit "me") receipt = Some (amount, hash, note) ∧ names_zap (lit "me") amount note requested req ∧
    ∃ z, zaps (st_db zapped) !! clean (ev_id receipt) = Some z ∧ zap_amount_msat z = Z.min amount i64_max) ∧
  (zap_amount <$> zaps (st_db zapped) !! lit "z1") = Some 2%Z.
Proof.
  split; [|by vm_compute].
  destruct (zap_bound 100 (lit "me") receipt requested zapped [empty_store]) as (amount & hash & note & req & req0 & Hr & Hn & _ & _ & _ & _ & _ & Hz).
  - apply (h_event 100 (lit "me") request); [by apply h_fresh|by vm_compute].
  - by vm_compute.
  - assert (Hz : bool_decide (is_Some (zaps (st_db zapped) !! lit "z1")) = true) by (by vm_compute).
    assert (Hn : bool_decide (is_Some (zaps (st_db requested) !! lit "z1")) = false) by (by vm_compute).
    intros E. rewrite E in Hz. rewrite Hz in Hn. discriminate Hn.
  - exists amount, hash, note, req. split; [exact Hr|]. split; [exact Hn|exact Hz].
Defined.
End ZapExamples.
