(* ===== verification/Groups.v ===== *)
(** Communities: src/flutter-bridge/src/ffi/groups.rs over the repositories of
    db-core (group, banned_member, role, room, thread, voice) and the access
    rules of groups-core. Every call that changes state is a function from the
    state of the process (its tables, the unlocked signer, the key cache of
    the sealing, the counters of password attempts) to the new state and a
    result; a failing call keeps what it wrote before it failed. *)

From S2P Require Import Url Prelude RustStr Text Primitives Nip44 Sql.

(** ** Rows *)

(** Source: src/db-core/src/repos/group.rs:204-216 (GroupRow) *)
Record GroupRow := mk_group {
  grp_id : str;
  grp_name : str;
  grp_about : option str;
  grp_picture : option str;
  grp_pubkey : str;
  grp_created_at : Z;
  grp_updated_at : Z;
  grp_access_type : str;
  grp_relay : option str;
  grp_sync_status : str;
  grp_password_hash : option str
}.

(** Keyed by group and member.
    Source: src/db-core/src/repos/group.rs:218-223 (GroupMemberRow) *)
Record GroupMemberRow := mk_member { mbr_group : str; mbr_pubkey : str; mbr_role : str; mbr_joined_at : Z }.

(** Source: src/db-core/src/repos/role.rs:7-15 (GroupRoleRow) *)
Record GroupRoleRow := mk_role {
  rol_id : str; rol_group : str; rol_name : str; rol_color : str; rol_position : Z;
  rol_permissions : str; rol_created_at : Z
}.

(** Source: src/db-core/src/repos/room.rs:7-17 (GroupRoomRow) *)
Record GroupRoomRow := mk_room {
  rom_id : str; rom_group : str; rom_name : str; rom_topic : str; rom_emoji : str; rom_color : str;
  rom_position : Z; rom_created_by : str; rom_created_at : Z
}.

(** Source: src/db-core/src/repos/thread.rs:7-17 (GroupThreadRow) *)
Record GroupThreadRow := mk_thread {
  thr_id : str; thr_group : str; thr_title : str; thr_body : str; thr_author : str; thr_created_at : Z;
  thr_is_pinned : bool
}.

(** Source: src/db-core/src/repos/thread.rs:20-27 (GroupThreadReplyRow) *)
Record GroupThreadReplyRow := mk_reply {
  rpl_id : str; rpl_thread : str; rpl_parent : str; rpl_author : str; rpl_content : str; rpl_created_at : Z
}.

(** Source: src/db-core/src/repos/voice.rs:7-14 (GroupVoiceChannelRow) *)
Record GroupVoiceChannelRow := mk_channel {
  vch_id : str; vch_group : str; vch_name : str; vch_position : Z; vch_created_by : str; vch_created_at : Z
}.

(** Source: src/flutter-bridge/src/ffi/groups.rs:443-451 (GroupMessageRow) *)
Record GroupMessageRow := mk_message {
  msg_id : str; msg_group : str; msg_room : str; msg_sender : str; msg_content : str; msg_created_at : Z;
  msg_is_deleted : bool
}.

(** Source: src/db-core/src/schema/migrations/v001_initial.rs:124-155 (v1_create_tables, groups) *)
Record gdb := mk_gdb {
  g_users : gset str;
  g_groups : gmap str GroupRow;
  g_members : gmap (str * str) GroupMemberRow;
  g_banned : gset (str * str);
  g_keys : gmap str str;
  g_roles : gmap str GroupRoleRow;
  g_rooms : gmap str GroupRoomRow;
  g_messages : gmap str GroupMessageRow;
  g_room_reactions : gmap (str * str * str) (str * str);
  g_threads : gmap str GroupThreadRow;
  g_replies : gmap str GroupThreadReplyRow;
  g_thread_reactions : gset (str * str * str * str);
  g_channels : gmap str GroupVoiceChannelRow;
  g_presence : gset (str * str)
}.

(** The process: tables, signer, key cache, password attempts per group.
    Source: src/flutter-bridge/src/ffi/groups.rs:1308-1309 (ATTEMPTS) *)
Record gstate := mk_gstate {
  gs_db : gdb;
  gs_signer : option str;
  gs_cell : option CkCache;
  gs_attempts : gmap str (Z * Z)
}.

(** ** What is drawn from elsewhere *)

(** The password hash, the signer, the at-rest sealing of keys, the URL parser,
    and the orders of rows that compare equal. [sign_event key now content] is the JSON
    and the identifier of a signed event of kind 1059. *)
Class GroupEnv := {
  pbkdf2 : bytes → bytes → bytes;
  sign_event : str → Z → str → str * str;
  seal_at_rest : str → bytes → may_fail str;
  open_at_rest : str → str → may_fail bytes;
  group_urls :: UrlCrate;
  members_order :: OrderBy (asc mbr_joined_at);
  messages_order :: OrderBy (desc msg_created_at);
  attempts_order :: OrderBy (asc (λ e : str * (Z * Z), e.2.2))
}.

(** ** Actions *)

Definition act (A : Type) : Type := gstate → gstate * may_fail A.

#[export] Instance act_ret : MRet act := λ A a s, (s, Ok a).
#[export] Instance act_bind : MBind act := λ A B f m s,
  match m s with (s, Ok a) => f a s | (s, Err e) => (s, Err e) end.

Definition fail {A} (msg : string) : act A := λ s, (s, err msg).
Definition guard_else (b : bool) (msg : string) : act unit := λ s, (s, ensure b msg).
Definition lift {A} (r : may_fail A) : act A := λ s, (s, r).
Definition read {A} (f : gdb → A) : act A := λ s, (s, Ok (f (gs_db s))).
Definition write (f : gdb → gdb) : act unit := λ s,
  (mk_gstate (f (gs_db s)) (gs_signer s) (gs_cell s) (gs_attempts s), Ok ()).
Definition found {A} (o : option A) : act A := λ s, (s, ok_or (Fail "not found") o).

Definition on_groups f (d : gdb) := mk_gdb (g_users d) (f (g_groups d)) (g_members d) (g_banned d) (g_keys d)
  (g_roles d) (g_rooms d) (g_messages d) (g_room_reactions d) (g_threads d) (g_replies d)
  (g_thread_reactions d) (g_channels d) (g_presence d).
Definition on_members f (d : gdb) := mk_gdb (g_users d) (g_groups d) (f (g_members d)) (g_banned d) (g_keys d)
  (g_roles d) (g_rooms d) (g_messages d) (g_room_reactions d) (g_threads d) (g_replies d)
  (g_thread_reactions d) (g_channels d) (g_presence d).
Definition on_keys f (d : gdb) := mk_gdb (g_users d) (g_groups d) (g_members d) (g_banned d) (f (g_keys d))
  (g_roles d) (g_rooms d) (g_messages d) (g_room_reactions d) (g_threads d) (g_replies d)
  (g_thread_reactions d) (g_channels d) (g_presence d).
Definition on_roles f (d : gdb) := mk_gdb (g_users d) (g_groups d) (g_members d) (g_banned d) (g_keys d)
  (f (g_roles d)) (g_rooms d) (g_messages d) (g_room_reactions d) (g_threads d) (g_replies d)
  (g_thread_reactions d) (g_channels d) (g_presence d).
Definition on_rooms f (d : gdb) := mk_gdb (g_users d) (g_groups d) (g_members d) (g_banned d) (g_keys d)
  (g_roles d) (f (g_rooms d)) (g_messages d) (g_room_reactions d) (g_threads d) (g_replies d)
  (g_thread_reactions d) (g_channels d) (g_presence d).
Definition on_messages f (d : gdb) := mk_gdb (g_users d) (g_groups d) (g_members d) (g_banned d) (g_keys d)
  (g_roles d) (g_rooms d) (f (g_messages d)) (g_room_reactions d) (g_threads d) (g_replies d)
  (g_thread_reactions d) (g_channels d) (g_presence d).
Definition on_room_reactions f (d : gdb) := mk_gdb (g_users d) (g_groups d) (g_members d) (g_banned d) (g_keys d)
  (g_roles d) (g_rooms d) (g_messages d) (f (g_room_reactions d)) (g_threads d) (g_replies d)
  (g_thread_reactions d) (g_channels d) (g_presence d).
Definition on_threads f (d : gdb) := mk_gdb (g_users d) (g_groups d) (g_members d) (g_banned d) (g_keys d)
  (g_roles d) (g_rooms d) (g_messages d) (g_room_reactions d) (f (g_threads d)) (g_replies d)
  (g_thread_reactions d) (g_channels d) (g_presence d).
Definition on_replies f (d : gdb) := mk_gdb (g_users d) (g_groups d) (g_members d) (g_banned d) (g_keys d)
  (g_roles d) (g_rooms d) (g_messages d) (g_room_reactions d) (g_threads d) (f (g_replies d))
  (g_thread_reactions d) (g_channels d) (g_presence d).
Definition on_thread_reactions f (d : gdb) := mk_gdb (g_users d) (g_groups d) (g_members d) (g_banned d) (g_keys d)
  (g_roles d) (g_rooms d) (g_messages d) (g_room_reactions d) (g_threads d) (g_replies d)
  (f (g_thread_reactions d)) (g_channels d) (g_presence d).
Definition on_channels f (d : gdb) := mk_gdb (g_users d) (g_groups d) (g_members d) (g_banned d) (g_keys d)
  (g_roles d) (g_rooms d) (g_messages d) (g_room_reactions d) (g_threads d) (g_replies d)
  (g_thread_reactions d) (f (g_channels d)) (g_presence d).
Definition on_presence f (d : gdb) := mk_gdb (g_users d) (g_groups d) (g_members d) (g_banned d) (g_keys d)
  (g_roles d) (g_rooms d) (g_messages d) (g_room_reactions d) (g_threads d) (g_replies d)
  (g_thread_reactions d) (g_channels d) (f (g_presence d)).

(** ** Access rules *)

(** Source: src/groups-core/src/group_enc/envelope.rs:43-50 (validate_group_permissions) *)
Definition validate_group_permissions (role : str) (permissions_mask required_bit : Z) : bool :=
  let is_admin_or_owner := eq_ignore_ascii_case (trim role) (lit "owner")
                           || eq_ignore_ascii_case (trim role) (lit "admin") in
  let bitmask_allowed := (required_bit =? 0)%Z
                         || (Z.land permissions_mask required_bit =? required_bit)%Z in
  is_admin_or_owner || bitmask_allowed.

(** Source: src/groups-core/src/access.rs:92-94 (is_community_private) *)
Definition is_community_private (access_type : str) (has_password_hash : bool) : bool :=
  eq_ignore_ascii_case (trim access_type) (lit "private") || has_password_hash.

(** Source: src/groups-core/src/access.rs:8-8 (COMMUNITY_PASSWORD_MIN_LEN) *)
Definition COMMUNITY_PASSWORD_MIN_LEN : Z := 8.
(** Source: src/groups-core/src/access.rs:9-9 (COMMUNITY_PASSWORD_MAX_LEN) *)
Definition COMMUNITY_PASSWORD_MAX_LEN : Z := 128.
(** Source: src/groups-core/src/access.rs:11-11 (COMMUNITY_PASSWORD_SALT_BYTES) *)
Definition COMMUNITY_PASSWORD_SALT_BYTES : Z := 16.

Section access.
Context `{Primitives, GroupEnv}.

(** The salt is what the generator draws.
    Source: src/groups-core/src/access.rs:16-47 (hash_community_password) *)
Definition hash_community_password (salt : option bytes) (password : str) : may_fail str :=
  _ ← ensure (COMMUNITY_PASSWORD_MIN_LEN <=? zlen password)%Z "Password must be at least 8 characters";
  _ ← ensure (zlen password <=? COMMUNITY_PASSWORD_MAX_LEN)%Z "Password must not exceed 128 characters";
  salt ← ok_or (Fail "failed to draw password salt from OS RNG") salt;
  Ok (hex_encode salt ++ [0x3A%Z] ++ hex_encode (pbkdf2 password salt)).

(** Source: src/groups-core/src/access.rs:51-89 (verify_community_password) *)
Definition verify_community_password (password stored_hash : str) : bool :=
  if bool_decide (password = []) || (COMMUNITY_PASSWORD_MAX_LEN <? zlen password)%Z
     || bool_decide (stored_hash = []) || (256 <? zlen stored_hash)%Z then false
  else
    match split_once 0x3A stored_hash with
    | None => false
    | Some (salt_hex, expected_hash_hex) =>
        match hex_decode_str salt_hex with
        | None => false
        | Some salt =>
            if (zlen salt <? COMMUNITY_PASSWORD_SALT_BYTES)%Z then false
            else ct_eq (hex_encode (pbkdf2 password salt)) (to_ascii_lowercase expected_hash_hex)
        end
    end.
End access.

(** ** Repositories *)

(** Source: src/db-core/src/repos/group.rs:11-19 (get_by_id) *)
Definition get_by_id (d : gdb) (id : str) : option GroupRow := g_groups d !! id.

(** The owner and the creation time stay on conflict.
    Source: src/db-core/src/repos/group.rs:31-54 (upsert) *)
Definition group_upsert (g : GroupRow) (d : gdb) : gdb :=
  on_groups (λ t, <[grp_id g :=
    match t !! grp_id g with
    | Some old => mk_group (grp_id old) (grp_name g) (grp_about g) (grp_picture g) (grp_pubkey old)
        (grp_created_at old) (grp_updated_at g) (grp_access_type g) (grp_relay g) (grp_sync_status g)
        (grp_password_hash g)
    | None => mk_group (grp_id g) (grp_name g) (grp_about g) (grp_picture g) (clean (grp_pubkey g))
        (grp_created_at g) (grp_updated_at g) (grp_access_type g) (grp_relay g) (grp_sync_status g)
        (grp_password_hash g)
    end]> t) d.

(** The row is deleted before it is written again; the foreign keys refuse an
    unknown group or user.
    Source: src/db-core/src/repos/group.rs:56-79 (add_member) *)
Definition add_member (group_id pubkey role : str) (joined_at : Z) : act unit :=
  let pk := clean pubkey in
  _ ← write (on_members (delete (group_id, pk)));
  known ← read (λ d, bool_decide (is_Some (g_groups d !! group_id)) && bool_decide (pk ∈ g_users d));
  _ ← guard_else known "FOREIGN KEY constraint failed";
  write (on_members (insert (group_id, pk) (mk_member group_id pk role joined_at))).

(** Source: src/db-core/src/repos/group.rs:81-92 (remove_member) *)
Definition remove_member (group_id pubkey : str) (d : gdb) : gdb :=
  on_members (delete (group_id, clean pubkey)) d.

(** Source: src/db-core/src/repos/group.rs:95-104 (is_member) *)
Definition is_member (d : gdb) (group_id pubkey : str) : bool :=
  bool_decide (is_Some (g_members d !! (group_id, clean pubkey))).

(** Source: src/db-core/src/repos/banned_member.rs:33-42 (is_banned) *)
Definition is_banned (d : gdb) (group_id pubkey : str) : bool := bool_decide ((group_id, clean pubkey) ∈ g_banned d).

(** A role of an unknown group violates the foreign key.
    Source: src/db-core/src/repos/role.rs:45-54 (upsert) *)
Definition role_upsert (r : GroupRoleRow) : act unit :=
  known ← read (λ d, bool_decide (is_Some (g_groups d !! rol_group r)));
  _ ← guard_else known "FOREIGN KEY constraint failed";
  write (on_roles (insert (rol_id r) r)).

(** Source: src/db-core/src/repos/room.rs:101-110 (delete) *)
Definition room_delete (room_id : str) (d : gdb) : gdb :=
  on_rooms (delete room_id)
    (on_room_reactions (fmap (λ r, if bool_decide (r.1 = room_id) then ([], r.2) else r)) d).

(** The key is message, author and emoji; the row holds the room and the group.
    Source: src/db-core/src/repos/room.rs:113-146 (toggle_reaction) *)
Definition room_toggle_reaction (group_id room_id message_id pubkey emoji : str) : act bool :=
  let k := (message_id, clean pubkey, emoji) in
  there ← read (λ d, bool_decide (is_Some (g_room_reactions d !! k)));
  if (there : bool) then _ ← write (on_room_reactions (delete k)); mret false
  else _ ← write (on_room_reactions (insert k (room_id, group_id))); mret true.

(** Source: src/db-core/src/repos/thread.rs:163-181 (delete) *)
Definition thread_delete (thread_id : str) (d : gdb) : gdb :=
  on_threads (delete thread_id)
    (on_replies (filter (λ kr, rpl_thread kr.2 ≠ thread_id))
      (on_thread_reactions (filter (λ k, k.1.1.1 ≠ thread_id)) d)).

(** Source: src/db-core/src/repos/thread.rs:153-161 (set_pinned) *)
Definition set_pinned (thread_id : str) (pinned : bool) (d : gdb) : gdb :=
  on_threads (alter (λ t, mk_thread (thr_id t) (thr_group t) (thr_title t) (thr_body t) (thr_author t)
                             (thr_created_at t) pinned) thread_id) d.

(** Source: src/db-core/src/repos/thread.rs:283-314 (toggle_reaction) *)
Definition thread_toggle_reaction (thread_id reply_id pubkey emoji : str) : act bool :=
  let k := (thread_id, reply_id, clean pubkey, emoji) in
  there ← read (λ d, bool_decide (k ∈ g_thread_reactions d));
  if (there : bool) then _ ← write (on_thread_reactions (λ t, t ∖ {[ k ]})); mret false
  else _ ← write (on_thread_reactions (λ t, {[ k ]} ∪ t)); mret true.

(** ** Identity *)

(** Source: src/flutter-bridge/src/ffi/signer.rs:122-128 (signer_pubkey) *)
Definition signer_pubkey : act str := λ s, (s, ok_or (Fail "signer locked") (gs_signer s)).

Section calls.
Context `{Primitives, GroupEnv}.

(** Oldest members first, at most 10,000.
    Source: src/db-core/src/repos/group.rs:106-124 (get_members) *)
Definition get_members (d : gdb) (group_id : str) : list GroupMemberRow :=
  select_rows (asc mbr_joined_at) (λ m, mbr_group m = group_id) (Z.to_nat 10000) (g_members d).

(** Source: src/flutter-bridge/src/ffi/signer.rs:134-147 (require_identity) *)
Definition require_identity (expected : str) : act unit :=
  actual ← signer_pubkey;
  guard_else (ct_eq (clean actual) (clean expected)) "identity mismatch: caller is not the claimed pubkey".

(** Source: src/flutter-bridge/src/ffi/groups.rs:633-645 (require_owner) *)
Definition require_owner (group_id actor : str) : act unit :=
  g ← read (λ d, get_by_id d group_id);
  g ← found g;
  _ ← guard_else (eq_ignore_ascii_case (grp_pubkey g) actor) "only the group owner can do that";
  require_identity actor.

(** The gate of every contribution: the owner or a member, not banned.
    Source: src/flutter-bridge/src/ffi/groups.rs:407-428 (groups_post_message, gate) *)
Definition may_contribute (group_id pubkey : str) : act unit :=
  g ← read (λ d, get_by_id d group_id);
  let is_owner := if g is Some g then eq_ignore_ascii_case (grp_pubkey g) pubkey else false in
  member ← read (λ d, is_member d group_id pubkey);
  _ ← guard_else (is_owner || member) "not a member of this group";
  banned ← read (λ d, is_banned d group_id pubkey);
  guard_else (negb banned) "banned from this group".

(** What a reader sees: nothing when banned, nothing of a private group
    without membership; an unknown group is not checked.
    Source: src/flutter-bridge/src/ffi/groups.rs:465-489 (groups_fetch_messages, gate) *)
Definition may_read (viewer : option str) (group_id : str) (d : gdb) : bool :=
  match get_by_id d group_id with
  | None => true
  | Some g =>
      let banned := if viewer is Some pk then is_banned d group_id pk else false in
      let private := is_community_private (grp_access_type g) (bool_decide (is_Some (grp_password_hash g))) in
      let belongs := if viewer is Some pk
                     then eq_ignore_ascii_case (grp_pubkey g) pk || is_member d group_id pk else false in
      negb banned && (negb private || belongs)
  end.

(** ** Membership *)

(** Source: src/flutter-bridge/src/ffi/groups.rs:307-327 (groups_join, password) *)
Definition join_password (g : GroupRow) (password : option str) : act unit :=
  if is_community_private (grp_access_type g) (bool_decide (is_Some (grp_password_hash g))) then
    let stored_hash := default [] (grp_password_hash g) in
    _ ← guard_else (negb (bool_decide (stored_hash = [])))
          "private community has no password on record; cannot verify access";
    let candidate := trim (default [] password) in
    _ ← guard_else (negb (bool_decide (candidate = []))) "password required for private community";
    guard_else (verify_community_password candidate stored_hash) "incorrect community password"
  else mret ().

(** Source: src/flutter-bridge/src/ffi/groups.rs:291-351 (groups_join) *)
Definition groups_join (now : Z) (group_id user_pubkey : str) (password : option str) : act bool :=
  _ ← require_identity user_pubkey;
  g ← read (λ d, get_by_id d group_id);
  g ← found g;
  banned ← read (λ d, is_banned d group_id user_pubkey);
  _ ← guard_else (negb banned) "banned from this group";
  _ ← join_password g password;
  members ← read (λ d, get_members d group_id);
  if existsb (λ m, eq_ignore_ascii_case (trim (mbr_pubkey m)) (trim user_pubkey)) members then mret true
  else
    let role := if eq_ignore_ascii_case (trim (grp_pubkey g)) (trim user_pubkey)
                then lit "owner" else lit "member" in
    _ ← add_member group_id user_pubkey role now;
    mret true.

(** Source: src/flutter-bridge/src/ffi/groups.rs:355-369 (groups_leave) *)
Definition groups_leave (group_id user_pubkey : str) : act bool :=
  _ ← require_identity user_pubkey;
  g ← read (λ d, get_by_id d group_id);
  _ ← guard_else (if g is Some g then negb (eq_ignore_ascii_case (trim (grp_pubkey g)) (trim user_pubkey)) else true)
        "group owner cannot leave the group";
  _ ← write (remove_member group_id user_pubkey);
  mret true.

(** Source: src/flutter-bridge/src/ffi/groups.rs:523-539 (groups_set_member_role) *)
Definition groups_set_member_role (now : Z) (group_id member_pubkey role admin_pubkey : str) : act bool :=
  _ ← require_owner group_id admin_pubkey;
  _ ← add_member group_id member_pubkey role now;
  mret true.

(** Source: src/flutter-bridge/src/ffi/groups.rs:543-559 (groups_remove_member) *)
Definition groups_remove_member (group_id member_pubkey admin_pubkey : str) : act bool :=
  _ ← require_owner group_id admin_pubkey;
  _ ← guard_else (negb (eq_ignore_ascii_case (trim member_pubkey) (trim admin_pubkey))) "cannot remove group owner";
  _ ← write (remove_member group_id member_pubkey);
  mret true.

(** ** Groups *)

Definition none_if_empty (s : str) : option str := match s with [] => None | _ => Some s end.

(** Source: src/flutter-bridge/src/ffi/groups.rs:1236-1244 (groups_create, password_hash) *)
Definition create_password (salt : option bytes) (is_private : bool) (password : option str) : act (option str) :=
  if is_private then
    let pwd := trim (default [] password) in
    _ ← guard_else (negb (bool_decide (pwd = []))) "password required for private community";
    h ← lift (hash_community_password salt pwd);
    mret (Some h)
  else mret None.

(** The result stands for the printed group.
    Source: src/flutter-bridge/src/ffi/groups.rs:1210-1274 (groups_create) *)
Definition groups_create (now : Z) (salt : option bytes) (group_id name description picture_url
    creator_pubkey : str) (is_private : bool) (password : option str) : act str :=
  let group_id := trim group_id in
  _ ← guard_else (negb (bool_decide (group_id = []) || (128 <? zlen group_id)%Z)) "invalid group_id";
  let trimmed_name := trim name in
  _ ← guard_else (negb (bool_decide (trimmed_name = []) || (200 <? zlen trimmed_name)%Z)) "invalid group name";
  _ ← guard_else (zlen description <=? 5000)%Z "group description too long";
  _ ← guard_else (bool_decide (picture_url = []) || is_valid_media_url picture_url) "invalid picture url";
  _ ← guard_else (negb (bool_decide (trim creator_pubkey = []) || (128 <? zlen creator_pubkey)%Z))
        "invalid creator pubkey";
  password_hash ← create_password salt is_private password;
  let access_type := if is_private then lit "private" else lit "open" in
  let row := mk_group group_id name (none_if_empty description) (none_if_empty picture_url) creator_pubkey
               now now access_type None (lit "local") password_hash in
  _ ← write (group_upsert row);
  _ ← add_member group_id creator_pubkey (lit "owner") now;
  mret group_id.

(** Source: src/flutter-bridge/src/ffi/groups.rs:1278-1303 (groups_set_password) *)
Definition groups_set_password (now : Z) (salt : option bytes) (group_id : str) (new_password : option str)
    (actor_pubkey : str) : act bool :=
  _ ← require_owner group_id actor_pubkey;
  '(access_type, password_hash) ←
    (let p := trim (default [] new_password) in
     if bool_decide (p = []) then mret (lit "open", None)
     else h ← lift (hash_community_password salt p); mret (lit "private", Some h));
  g ← read (λ d, get_by_id d group_id);
  g ← found g;
  _ ← write (group_upsert (mk_group (grp_id g) (grp_name g) (grp_about g) (grp_picture g) (grp_pubkey g)
        (grp_created_at g) now access_type (grp_relay g) (grp_sync_status g) password_hash));
  mret true.

(** The salt and the random parts of identifiers are arguments; the result is
    the identifier that the code prints. *)
Definition fresh_id (prefix : string) (now r : Z) : str :=
  lit prefix ++ print_i64 now ++ lit "_" ++ hex_digits 8 r.

(** ** Messages *)

Definition SEAL1 : str := lit "seal1:".

(** A key stored in the clear is sealed in place when it is hexadecimal.
    Source: src/flutter-bridge/src/ffi/groups.rs:66-105 (shared_key_for_group) *)
Definition shared_key_for_group (group_id : str) : act (option str) :=
  stored ← read (λ d, g_keys d !! group_id);
  match stored with
  | None => mret None
  | Some k =>
      match strip_prefix SEAL1 k with
      | Some sealed =>
          signer ← signer_pubkey;
          plain ← lift (open_at_rest signer sealed);
          mret (Some (hex_encode plain))
      | None =>
          match hex_decode_str k with
          | Some raw =>
              signer ← signer_pubkey;
              sealed ← lift (seal_at_rest signer raw);
              _ ← write (on_keys (insert group_id (SEAL1 ++ sealed)));
              mret (Some k)
          | None => mret (Some k)
          end
      end
  end.

(** Source: src/groups-core/src/group_enc/seal.rs:7-13 (nip44_seal_group) *)
Definition nip44_seal_group (nonce : option bytes) (plaintext key_hex : str) : act str := λ s,
  match hex_decode_str key_hex with
  | Some key =>
      if length key =? 32 then
        let '(cell, r) := encrypt (gs_cell s) nonce plaintext key in
        (mk_gstate (gs_db s) (gs_signer s) cell (gs_attempts s), r)
      else (s, err "bad group key hex")
  | None => (s, err "bad group key hex")
  end.

(** The literal text around the payload. *)
Definition ENVELOPE_OPEN : str := lit "{" ++ [0x22%Z] ++ lit "v" ++ [0x22%Z] ++ lit ":1," ++ [0x22%Z]
  ++ lit "payload" ++ [0x22%Z] ++ lit ":" ++ [0x22%Z].
Definition ENVELOPE_CLOSE : str := [0x22%Z] ++ lit "}".

(** Source: src/groups-core/src/group_enc/seal.rs:30-38 (group_message_envelope) *)
Definition group_message_envelope (nonce : option bytes) (content : str) (key_hex : option str) : act str :=
  match key_hex with
  | Some k => payload ← nip44_seal_group nonce content k; mret (ENVELOPE_OPEN ++ payload ++ ENVELOPE_CLOSE)
  | None => mret content
  end.

(** INSERT ... ON CONFLICT(id) DO UPDATE SET content.
    Source: src/flutter-bridge/src/ffi/groups.rs:429-436 (groups_post_message, insert) *)
Definition message_upsert (m : GroupMessageRow) (d : gdb) : gdb :=
  on_messages (λ t, <[msg_id m :=
    match t !! msg_id m with
    | Some old => mk_message (msg_id old) (msg_group old) (msg_room old) (msg_sender old) (msg_content m)
                    (msg_created_at old) (msg_is_deleted old)
    | None => m
    end]> t) d.

(** Source: src/flutter-bridge/src/ffi/groups.rs:376-440 (groups_post_message) *)
Definition groups_post_message (now : Z) (nonce : option bytes) (group_id room_id content : str) : act str :=
  let group_id := trim group_id in
  _ ← guard_else (negb (bool_decide (group_id = []) || (128 <? zlen group_id)%Z)) "invalid group_id";
  let room_id := trim room_id in
  _ ← guard_else (zlen room_id <=? 128)%Z "invalid room_id";
  _ ← guard_else (negb (bool_decide (content = []) || (65536 <? zlen content)%Z))
        "content must be between 1 and 65536 bytes";
  key ← shared_key_for_group group_id;
  content ← group_message_envelope nonce content key;
  sender ← signer_pubkey;
  let '(signed, id) := sign_event sender now content in
  _ ← may_contribute group_id sender;
  _ ← write (message_upsert (mk_message id group_id room_id sender content now false));
  mret signed.

(** Newest first.
    Source: src/flutter-bridge/src/ffi/groups.rs:456-519 (groups_fetch_messages) *)
Definition groups_fetch_messages (viewer : option str) (group_id room_id : str) (limit offset : Z) (d : gdb)
    : list GroupMessageRow :=
  let limit := Z.to_nat (Z.min (Z.max limit 1) 200) in
  let offset := Z.to_nat (Z.max offset 0) in
  if may_read viewer group_id d then
    drop offset (select_rows (desc msg_created_at)
      (λ m, msg_group m = group_id ∧ msg_room m = room_id ∧ msg_is_deleted m = false) (offset + limit) (g_messages d))
  else [].

(** ** Roles and rooms *)

(** Source: src/flutter-bridge/src/ffi/groups.rs:573-599 (groups_role_upsert) *)
Definition groups_role_upsert (now r : Z) (role_id group_id name color : str) (position : Z) (permissions : str)
    : act bool :=
  let id := if bool_decide (role_id = []) then fresh_id "role_" now r else role_id in
  _ ← role_upsert (mk_role id group_id name color position permissions now);
  mret true.

(** Source: src/flutter-bridge/src/ffi/groups.rs:603-608 (groups_role_delete) *)
Definition groups_role_delete (role_id : str) : act bool :=
  _ ← write (on_roles (delete role_id));
  mret true.

(** Source: src/flutter-bridge/src/ffi/groups.rs:659-686 (groups_rooms_create) *)
Definition groups_rooms_create (now r : Z) (group_id name topic emoji color creator : str) : act str :=
  _ ← require_owner group_id creator;
  let id := fresh_id "room_" now r in
  _ ← write (on_rooms (insert id (mk_room id group_id name topic emoji color 0 creator now)));
  mret id.

(** Source: src/flutter-bridge/src/ffi/groups.rs:690-719 (groups_rooms_update) *)
Definition groups_rooms_update (room_id group_id name topic emoji color actor : str) : act bool :=
  _ ← require_owner group_id actor;
  existing ← read (λ d, g_rooms d !! room_id);
  existing ← found existing;
  _ ← write (on_rooms (insert room_id (mk_room room_id group_id name topic emoji color (rom_position existing)
        (rom_created_by existing) (rom_created_at existing))));
  mret true.

(** Source: src/flutter-bridge/src/ffi/groups.rs:723-742 (groups_rooms_delete) *)
Definition groups_rooms_delete (room_id actor : str) : act bool :=
  room ← read (λ d, g_rooms d !! room_id);
  room ← found room;
  _ ← require_owner (rom_group room) actor;
  _ ← write (λ d, on_messages (fmap (λ m, if bool_decide (msg_room m = room_id)
        then mk_message (msg_id m) (msg_group m) [] (msg_sender m) (msg_content m) (msg_created_at m) (msg_is_deleted m)
        else m)) (room_delete room_id d));
  mret true.

Definition emoji_ok (emoji : str) : bool := negb (bool_decide (emoji = []) || (16 <? chars_count emoji)%Z).

(** Source: src/flutter-bridge/src/ffi/groups.rs:746-782 (groups_rooms_react) *)
Definition groups_rooms_react (group_id room_id message_id pubkey emoji : str) : act bool :=
  _ ← guard_else (emoji_ok emoji) "invalid reaction emoji";
  _ ← require_identity pubkey;
  _ ← may_contribute group_id pubkey;
  room_toggle_reaction group_id room_id message_id pubkey emoji.

(** ** Threads *)

(** Source: src/flutter-bridge/src/ffi/groups.rs:841-894 (groups_threads_create) *)
Definition groups_threads_create (now r : Z) (group_id title body author : str) : act str :=
  let group_id := trim group_id in
  _ ← guard_else (negb (bool_decide (group_id = []) || (128 <? zlen group_id)%Z)) "invalid group_id";
  let title := trim title in
  _ ← guard_else (negb (bool_decide (title = []) || (500 <? zlen title)%Z))
        "title must be between 1 and 500 characters";
  _ ← guard_else (zlen body <=? 65536)%Z "body exceeds 65536 bytes";
  let author := clean author in
  _ ← require_identity author;
  let id := fresh_id "thr_" now r in
  _ ← may_contribute group_id author;
  _ ← write (on_threads (insert id (mk_thread id group_id title body author now false)));
  mret id.

Definition thread_group (thread_id : str) : act str :=
  t ← read (λ d, g_threads d !! thread_id);
  t ← found t;
  mret (thr_group t).

(** Source: src/flutter-bridge/src/ffi/groups.rs:898-910 (groups_threads_delete) *)
Definition groups_threads_delete (thread_id actor : str) : act bool :=
  g ← thread_group thread_id;
  _ ← require_owner g actor;
  _ ← write (thread_delete thread_id);
  mret true.

(** Source: src/flutter-bridge/src/ffi/groups.rs:914-926 (groups_threads_pin) *)
Definition groups_threads_pin (thread_id : str) (pinned : bool) (actor : str) : act bool :=
  g ← thread_group thread_id;
  _ ← require_owner g actor;
  _ ← write (set_pinned thread_id pinned);
  mret true.

(** Source: src/flutter-bridge/src/ffi/groups.rs:930-985 (groups_threads_reply) *)
Definition groups_threads_reply (now r : Z) (thread_id parent_id content author : str) : act str :=
  let thread_id := trim thread_id in
  _ ← guard_else (negb (bool_decide (thread_id = []) || (128 <? zlen thread_id)%Z)) "invalid thread_id";
  let parent_id := trim parent_id in
  _ ← guard_else (zlen parent_id <=? 128)%Z "invalid parent_id";
  let content := trim content in
  _ ← guard_else (negb (bool_decide (content = []) || (65536 <? zlen content)%Z))
        "content must be between 1 and 65536 bytes";
  let author := clean author in
  _ ← require_identity author;
  let id := fresh_id "rpl_" now r in
  g ← thread_group thread_id;
  _ ← may_contribute g author;
  _ ← write (on_replies (insert id (mk_reply id thread_id parent_id author content now)));
  mret id.

(** Source: src/flutter-bridge/src/ffi/groups.rs:1000-1033 (groups_threads_react) *)
Definition groups_threads_react (thread_id reply_id pubkey emoji : str) : act bool :=
  _ ← require_identity pubkey;
  _ ← guard_else (emoji_ok emoji) "invalid reaction emoji";
  g ← thread_group thread_id;
  _ ← may_contribute g pubkey;
  thread_toggle_reaction thread_id reply_id pubkey emoji.

(** ** Voice channels *)

(** Source: src/flutter-bridge/src/ffi/groups.rs:1063-1084 (groups_voice_channels_create) *)
Definition groups_voice_channels_create (now r : Z) (group_id name creator : str) : act str :=
  _ ← require_owner group_id creator;
  let id := fresh_id "vc_" now r in
  _ ← write (on_channels (insert id (mk_channel id group_id name 0 creator now)));
  mret id.

Definition channel_group (channel_id : str) : act str :=
  c ← read (λ d, g_channels d !! channel_id);
  c ← found c;
  mret (vch_group c).

(** Source: src/flutter-bridge/src/ffi/groups.rs:1088-1114 (groups_voice_channels_delete) *)
Definition groups_voice_channels_delete (channel_id actor : str) : act bool :=
  g ← channel_group channel_id;
  _ ← require_owner g actor;
  _ ← write (λ d, on_channels (delete channel_id) (on_presence (filter (λ k, k.1 ≠ channel_id)) d));
  mret true.

(** Source: src/flutter-bridge/src/ffi/groups.rs:1119-1149 (groups_voice_join) *)
Definition groups_voice_join (channel_id pubkey : str) : act bool :=
  _ ← require_identity pubkey;
  g ← channel_group channel_id;
  _ ← may_contribute g pubkey;
  _ ← write (on_presence (λ t, {[ (channel_id, clean pubkey) ]} ∪ t));
  mret true.

(** Source: src/flutter-bridge/src/ffi/groups.rs:1153-1159 (groups_voice_leave) *)
Definition groups_voice_leave (channel_id pubkey : str) : act bool :=
  _ ← require_identity pubkey;
  _ ← write (on_presence (λ t, t ∖ {[ (channel_id, clean pubkey) ]}));
  mret true.

(** ** Passwords *)

(** Source: src/flutter-bridge/src/ffi/groups.rs:1310-1310 (MAX_ATTEMPTS) *)
Definition MAX_ATTEMPTS : Z := 5.
(** Source: src/flutter-bridge/src/ffi/groups.rs:1311-1311 (WINDOW_SECS) *)
Definition WINDOW_SECS : Z := 30.
(** Source: src/flutter-bridge/src/ffi/groups.rs:1312-1312 (MAX_ATTEMPTS_MAP) *)
Definition MAX_ATTEMPTS_MAP : nat := Z.to_nat 1000.

(** The oldest entries beyond the cap are dropped; which of equal age first is
    up to the order of the map.
    Source: src/flutter-bridge/src/ffi/groups.rs:1315-1328 (sweep_attempts) *)
Definition sweep_attempts (now : Z) (attempts : gmap str (Z * Z)) : gmap str (Z * Z) :=
  let attempts := filter (λ kv, (now - kv.2.2 < WINDOW_SECS)%Z) attempts in
  let excess := size attempts - MAX_ATTEMPTS_MAP in
  let entries := order_by (asc (λ e : str * (Z * Z), e.2.2)) (map_to_list attempts) in
  foldr delete attempts (take excess entries).*1.

(** The entry of a group after the sweep, opened when it is absent.
    Source: src/flutter-bridge/src/ffi/groups.rs:1340-1346 (groups_verify_password, entry) *)
Definition attempt_entry (now : Z) (group_id : str) (attempts : gmap str (Z * Z)) : gmap str (Z * Z) * (Z * Z) :=
  let attempts := sweep_attempts now attempts in
  let entry := default (0, now)%Z (attempts !! group_id) in
  let entry := if (entry.2 + WINDOW_SECS <=? now)%Z then (0, now)%Z else entry in
  (<[group_id := entry]> attempts, entry).

Definition set_attempts (f : gmap str (Z * Z) → gmap str (Z * Z)) : act unit := λ s,
  (mk_gstate (gs_db s) (gs_signer s) (gs_cell s) (f (gs_attempts s)), Ok ()).

(** The lock check of the first and the third phase.
    Source: src/flutter-bridge/src/ffi/groups.rs:1338-1353 (groups_verify_password, phase 1) *)
Definition check_lockout (now : Z) (group_id : str) : act Z := λ s,
  let '(attempts, entry) := attempt_entry now group_id (gs_attempts s) in
  (mk_gstate (gs_db s) (gs_signer s) (gs_cell s) attempts,
   _ ← ensure (entry.1 <? MAX_ATTEMPTS)%Z "too many password attempts for this group"; Ok entry.1).

(** Source: src/flutter-bridge/src/ffi/groups.rs:1334-1399 (groups_verify_password) *)
Definition groups_verify_password (now : Z) (group_id password : str) : act bool :=
  _ ← check_lockout now group_id;
  g ← read (λ d, get_by_id d group_id);
  g ← found g;
  let stored := default [] (grp_password_hash g) in
  _ ← guard_else (negb (bool_decide (stored = []))) "group has no password set; cannot verify access";
  _ ← check_lockout now group_id;
  _ ← set_attempts (alter (λ e, (e.1 + 1, e.2)%Z) group_id);
  let ok := verify_community_password (trim password) stored in
  _ ← (if ok then
         set_attempts (λ a, alter (λ e, (0, e.2)%Z) group_id (sweep_attempts now a))
       else mret ());
  mret ok.
End calls.
