(* ===== verification/GroupLaws.v ===== *)
(** Who may change what in a community. Messages, threads, replies, reactions
    and voice presence are added only for the unlocked signer, as the owner or
    an unbanned member of the group; memberships come from joining with the
    password, from the owner, or from [groups_create], which does not look
    whether the group exists; wrong passwords are counted per group. *)

From S2P Require Import Url Prelude RustStr Text Primitives Nip44 Sql Groups.

(** ** Actions *)

(** A sequence either runs its first part to the end or stops in it. *)
Lemma bind_split {A B} (m : act A) (f : A → act B) s :
  (∃ a s1, m s = (s1, Ok a) ∧ (m ≫= f) s = f a s1) ∨
  (∃ e s1, m s = (s1, Err e) ∧ (m ≫= f) s = (s1, Err e)).
Proof. unfold mbind, act_bind. destruct (m s) as [s1 [a|e]]; [left|right]; eauto. Qed.

Lemma guard_ok b msg s s1 a : guard_else b msg s = (s1, Ok a) → s1 = s ∧ b = true.
Proof. unfold guard_else. intros [= <- E]. split; [done|]. by apply ensure_ok in E. Qed.

Lemma found_ok {A} (o : option A) s s1 a : found o s = (s1, Ok a) → s1 = s ∧ o = Some a.
Proof. unfold found. intros [= <- E]. split; [done|]. by apply ok_or_ok in E. Qed.

Lemma read_ok {A} (f : gdb → A) s s1 a : read f s = (s1, Ok a) → s1 = s ∧ a = f (gs_db s).
Proof. unfold read. by intros [= <- <-]. Qed.

Lemma signer_ok s s1 pk : signer_pubkey s = (s1, Ok pk) → s1 = s ∧ gs_signer s = Some pk.
Proof. unfold signer_pubkey. intros [= <- E]. split; [done|]. by apply ok_or_ok in E. Qed.

(** Inverts the steps that only read. *)
Ltac act_inv :=
  repeat match goal with
  | H : guard_else _ _ _ = (_, Ok _) |- _ => apply guard_ok in H as [-> H]
  | H : found _ _ = (_, Ok _) |- _ => apply found_ok in H as [-> H]
  | H : read _ _ = (_, Ok _) |- _ => apply read_ok in H as [-> ->]
  | H : signer_pubkey _ = (_, Ok _) |- _ => apply signer_ok in H as [-> H]
  | H : guard_else _ _ _ = (_, Err _) |- _ => unfold guard_else in H; injection H as <- H
  | H : found _ _ = (_, Err _) |- _ => unfold found in H; injection H as <- H
  | H : read _ _ = (_, Err _) |- _ => unfold read in H; discriminate H
  | H : signer_pubkey _ = (_, Err _) |- _ => unfold signer_pubkey in H; injection H as <- H
  end.

(** One step of the sequence in the goal. *)
Ltac act_step :=
  match goal with |- context [(?m ≫= ?f) ?s] =>
    let a := fresh "a" in let e := fresh "e" in let s1 := fresh "s" in let E := fresh "E" in
    destruct (bind_split m f s) as [(a & s1 & E & ->)|(e & s1 & E & ->)]; act_inv; try discriminate
  end.

(** *** What an action leaves alone *)

(** The action changes neither the observed part of the tables nor the signer. *)
Definition keeps {A T} (f : gdb → T) (m : act A) : Prop :=
  ∀ s, f (gs_db (m s).1) = f (gs_db s) ∧ gs_signer (m s).1 = gs_signer s.

Section keeps.
Context {T : Type} (f : gdb → T).

Lemma keeps_bind {A B} (m : act A) (k : A → act B) : keeps f m → (∀ a, keeps f (k a)) → keeps f (m ≫= k).
Proof.
  intros Hm Hk s. specialize (Hm s). destruct (bind_split m k s) as [(a & s1 & E & ->)|(e & s1 & E & ->)];
    rewrite E in Hm; cbn [fst] in Hm; [|done]. destruct (Hk a s1) as [-> ->]. done.
Qed.

Lemma keeps_ret {A} (a : A) : keeps f (mret a).
Proof. by intros s. Qed.
Lemma keeps_guard b msg : keeps f (guard_else b msg).
Proof. by intros s. Qed.
Lemma keeps_found {A} (o : option A) : keeps f (found o).
Proof. by intros s. Qed.
Lemma keeps_read {A} (g : gdb → A) : keeps f (read g).
Proof. by intros s. Qed.
Lemma keeps_lift {A} (r : may_fail A) : keeps f (lift r).
Proof. by intros s. Qed.
Lemma keeps_signer : keeps f signer_pubkey.
Proof. by intros s. Qed.
Lemma keeps_attempts g : keeps f (set_attempts g).
Proof. by intros s. Qed.
Lemma keeps_write g : (∀ d, f (g d) = f d) → keeps f (write g).
Proof. intros Hg s. split; [apply Hg|done]. Qed.
End keeps.

Create HintDb keeps.
#[export] Hint Resolve keeps_bind keeps_ret keeps_guard keeps_found keeps_read keeps_lift keeps_signer
  keeps_attempts keeps_write : keeps.

(** Goes through the branches of an action. *)
Ltac keeps_tac :=
  intros; repeat first
    [ match goal with |- keeps _ (if ?b then _ else _) => destruct b end
    | match goal with |- keeps _ (match ?x with _ => _ end) => destruct x end
    | progress (cbv zeta) | solve [auto 2 with keeps] | apply keeps_bind; [|intros ?] | apply keeps_write; done ].

Section laws.
Context `{PrimitiveLaws, GroupEnv}.

Lemma keeps_identity {T} (f : gdb → T) pk : keeps f (require_identity pk).
Proof. unfold require_identity. keeps_tac. Qed.
Lemma keeps_owner {T} (f : gdb → T) g pk : keeps f (require_owner g pk).
Proof. unfold require_owner. keeps_tac. Qed.
Lemma keeps_contribute {T} (f : gdb → T) g pk : keeps f (may_contribute g pk).
Proof. unfold may_contribute. keeps_tac. Qed.
Lemma keeps_thread {T} (f : gdb → T) t : keeps f (thread_group t).
Proof. unfold thread_group. keeps_tac. Qed.
Lemma keeps_channel {T} (f : gdb → T) t : keeps f (channel_group t).
Proof. unfold channel_group. keeps_tac. Qed.
Lemma keeps_lockout {T} (f : gdb → T) now g : keeps f (check_lockout now g).
Proof. intros s. unfold check_lockout. by destruct (attempt_entry _ _ _). Qed.
Lemma keeps_seal {T} (f : gdb → T) n p k : keeps f (nip44_seal_group n p k).
Proof.
  intros s. unfold nip44_seal_group. destruct (hex_decode_str k); [|done]. destruct (_ =? _); [|done].
  by destruct (encrypt _ _ _ _).
Qed.
Lemma keeps_envelope {T} (f : gdb → T) n c k : keeps f (group_message_envelope n c k).
Proof. unfold group_message_envelope. keeps_tac. apply keeps_seal. Qed.
Lemma keeps_shared_key {T} (f : gdb → T) g : (∀ h d, f (on_keys h d) = f d) → keeps f (shared_key_for_group g).
Proof. intros Hf. unfold shared_key_for_group. keeps_tac. Qed.
Lemma keeps_join_password {T} (f : gdb → T) g p : keeps f (join_password g p).
Proof. unfold join_password. keeps_tac. Qed.
Lemma keeps_create_password {T} (f : gdb → T) salt b p : keeps f (create_password salt b p).
Proof. unfold create_password. keeps_tac. Qed.
Lemma keeps_add_member {T} (f : gdb → T) g p r t : (∀ h d, f (on_members h d) = f d) → keeps f (add_member g p r t).
Proof. intros Hf. unfold add_member. keeps_tac. Qed.
End laws.
#[export] Hint Resolve keeps_identity keeps_owner keeps_contribute keeps_thread keeps_channel keeps_lockout
  keeps_envelope keeps_shared_key keeps_join_password keeps_create_password
  keeps_add_member : keeps.

(** ** Runs *)

(** The calls that change the state, with the time and the random draws they
    see; unlocking and locking the signer are the steps of the session. *)
Inductive group_op :=
| Join (now : Z) (g pk : str) (password : option str)
| Leave (g pk : str)
| SetRole (now : Z) (g member role admin : str)
| Remove (g member admin : str)
| Create (now : Z) (salt : option bytes) (g name about picture creator : str) (private : bool)
    (password : option str)
| SetPassword (now : Z) (salt : option bytes) (g : str) (password : option str) (actor : str)
| Post (now : Z) (nonce : option bytes) (g room content : str)
| RoleUpsert (now r : Z) (role g name color : str) (position : Z) (permissions : str)
| RoleDelete (role : str)
| RoomCreate (now r : Z) (g name topic emoji color creator : str)
| RoomUpdate (room g name topic emoji color actor : str)
| RoomDelete (room actor : str)
| RoomReact (g room message pk emoji : str)
| ThreadCreate (now r : Z) (g title body author : str)
| ThreadDelete (thread actor : str)
| ThreadPin (thread : str) (pinned : bool) (actor : str)
| ThreadReply (now r : Z) (thread parent content author : str)
| ThreadReact (thread reply pk emoji : str)
| VoiceCreate (now r : Z) (g name creator : str)
| VoiceDelete (channel actor : str)
| VoiceJoin (channel pk : str)
| VoiceLeave (channel pk : str)
| VerifyPassword (now : Z) (g password : str)
| SetSigner (pk : option str).

Section runs.
Context `{PrimitiveLaws, GroupEnv}.

Definition perform (o : group_op) (s : gstate) : gstate :=
  match o with
  | Join now g pk p => (groups_join now g pk p s).1
  | Leave g pk => (groups_leave g pk s).1
  | SetRole now g m r a => (groups_set_member_role now g m r a s).1
  | Remove g m a => (groups_remove_member g m a s).1
  | Create now salt g n d pic c pr p => (groups_create now salt g n d pic c pr p s).1
  | SetPassword now salt g p a => (groups_set_password now salt g p a s).1
  | Post now nonce g room c => (groups_post_message now nonce g room c s).1
  | RoleUpsert now r role g n c pos perms => (groups_role_upsert now r role g n c pos perms s).1
  | RoleDelete role => (groups_role_delete role s).1
  | RoomCreate now r g n t e c by_ => (groups_rooms_create now r g n t e c by_ s).1
  | RoomUpdate room g n t e c a => (groups_rooms_update room g n t e c a s).1
  | RoomDelete room a => (groups_rooms_delete room a s).1
  | RoomReact g room m pk e => (groups_rooms_react g room m pk e s).1
  | ThreadCreate now r g t b a => (groups_threads_create now r g t b a s).1
  | ThreadDelete t a => (groups_threads_delete t a s).1
  | ThreadPin t p a => (groups_threads_pin t p a s).1
  | ThreadReply now r t p c a => (groups_threads_reply now r t p c a s).1
  | ThreadReact t r pk e => (groups_threads_react t r pk e s).1
  | VoiceCreate now r g n c => (groups_voice_channels_create now r g n c s).1
  | VoiceDelete c a => (groups_voice_channels_delete c a s).1
  | VoiceJoin c pk => (groups_voice_join c pk s).1
  | VoiceLeave c pk => (groups_voice_leave c pk s).1
  | VerifyPassword now g p => (groups_verify_password now g p s).1
  | SetSigner pk => mk_gstate (gs_db s) pk (gs_cell s) (gs_attempts s)
  end.

(** ** Contributions *)

(** The owner of the group or a member, not banned. *)
Definition contributor (d : gdb) (g pk : str) : Prop :=
  ((∃ row, g_groups d !! g = Some row ∧ eq_ignore_ascii_case (grp_pubkey row) pk = true) ∨
   is_Some (g_members d !! (g, clean pk))) ∧
  (g, clean pk) ∉ g_banned d.

(** The unlocked signer may contribute to the group. *)
Definition signer_contributes (s : gstate) (g : str) : Prop :=
  ∃ pk who, gs_signer s = Some pk ∧ clean who = clean pk ∧ contributor (gs_db s) g who.

Lemma contribute_ok g pk s s1 a : may_contribute g pk s = (s1, Ok a) → s1 = s ∧ contributor (gs_db s) g pk.
Proof.
  intros E. assert (Hc : contributor (gs_db s) g pk).
  - revert E. unfold may_contribute. do 4 act_step. intros Hb. act_inv.
    split; [|unfold is_banned in Hb; by apply negb_true_iff, bool_decide_eq_false in Hb].
    apply orb_true_iff in E as [Ho|Hm].
    + left. unfold get_by_id in Ho. destruct (g_groups _ !! g) as [row|]; [by exists row|done].
    + right. by apply bool_decide_eq_true in Hm.
  - split; [|done]. revert E. unfold may_contribute. do 4 act_step. intros Hb. by act_inv.
Qed.

Lemma identity_ok pk s s1 a :
  require_identity pk s = (s1, Ok a) → s1 = s ∧ ∃ me, gs_signer s = Some me ∧ clean pk = clean me.
Proof.
  unfold require_identity. act_step. intros Hi. act_inv. split; [done|].
  apply ct_eq_iff in Hi. eauto.
Qed.

Lemma owner_ok g actor s s1 a :
  require_owner g actor s = (s1, Ok a) →
  s1 = s ∧ ∃ row me, g_groups (gs_db s) !! g = Some row ∧ eq_ignore_ascii_case (grp_pubkey row) actor = true ∧
                     gs_signer s = Some me ∧ clean actor = clean me.
Proof.
  unfold require_owner. do 3 act_step. intros Hi. apply identity_ok in Hi as (-> & me & Hme & Hc).
  eauto 8.
Qed.

(** Every row that is new in [s'] was contributed by the signer of [s]. *)
Record contributions_gated (s s' : gstate) : Prop := {
  cg_message k m : g_messages (gs_db s') !! k = Some m → g_messages (gs_db s) !! k = None →
    gs_signer s = Some (msg_sender m) ∧ signer_contributes s (msg_group m);
  cg_room_reaction k r : g_room_reactions (gs_db s') !! k = Some r → g_room_reactions (gs_db s) !! k = None →
    signer_contributes s r.2;
  cg_thread k t : g_threads (gs_db s') !! k = Some t → g_threads (gs_db s) !! k = None →
    signer_contributes s (thr_group t);
  cg_reply k r : g_replies (gs_db s') !! k = Some r → g_replies (gs_db s) !! k = None →
    ∃ t, g_threads (gs_db s) !! rpl_thread r = Some t ∧ signer_contributes s (thr_group t);
  cg_thread_reaction k : k ∈ g_thread_reactions (gs_db s') → k ∉ g_thread_reactions (gs_db s) →
    ∃ t, g_threads (gs_db s) !! k.1.1.1 = Some t ∧ signer_contributes s (thr_group t);
  cg_presence k : k ∈ g_presence (gs_db s') → k ∉ g_presence (gs_db s) →
    ∃ c, g_channels (gs_db s) !! k.1 = Some c ∧ signer_contributes s (vch_group c)
}.

(** The tables of contributions. *)
Definition contributions (d : gdb) :=
  (g_messages d, g_room_reactions d, g_threads d, g_replies d, g_thread_reactions d, g_presence d).

(** Nothing is new when no table gains a key. *)
Definition no_more (d d' : gdb) : Prop :=
  (dom (g_messages d') ⊆ dom (g_messages d) ∧ dom (g_room_reactions d') ⊆ dom (g_room_reactions d) ∧
   dom (g_threads d') ⊆ dom (g_threads d)) ∧
  (dom (g_replies d') ⊆ dom (g_replies d) ∧ g_thread_reactions d' ⊆ g_thread_reactions d ∧
   g_presence d' ⊆ g_presence d).

Lemma dom_new {A} (t t' : gmap str A) k a : dom t' ⊆ dom t → t' !! k = Some a → t !! k = None → False.
Proof. intros Hd Ht' Ht. apply not_elem_of_dom in Ht. apply elem_of_dom_2 in Ht'. set_solver. Qed.

Lemma gated_no_more s s' : no_more (gs_db s) (gs_db s') → contributions_gated s s'.
Proof.
  intros ((Hm & Hr & Ht) & Hp & Htr & Hv). split; intros k.
  - intros m Hk Hn. by destruct (dom_new _ _ _ _ Hm Hk Hn).
  - intros m Hk Hn. apply not_elem_of_dom in Hn. apply elem_of_dom_2 in Hk. set_solver.
  - intros m Hk Hn. by destruct (dom_new _ _ _ _ Ht Hk Hn).
  - intros m Hk Hn. by destruct (dom_new _ _ _ _ Hp Hk Hn).
  - set_solver.
  - set_solver.
Qed.

Lemma gated_keeps {A} (m : act A) s : keeps contributions m → contributions_gated s (m s).1.
Proof.
  intros Hm. apply gated_no_more. destruct (Hm s) as [E _]. unfold contributions in E. unfold no_more.
  injection E as -> -> -> -> -> ->. done.
Qed.

Lemma gated_refl s : contributions_gated s s.
Proof. by apply gated_no_more. Qed.

(** What the gate of contributions looks at. *)
Definition gate_view (d : gdb) := (contributions d, (g_groups d, g_members d, g_banned d, g_channels d)).

(** A step that only seals keys does not change what may be contributed. *)
Lemma gated_from {A} (m : act A) s s1 r s' :
  keeps gate_view m → m s = (s1, r) → contributions_gated s1 s' → contributions_gated s s'.
Proof.
  intros Hm Em1. destruct (Hm s) as [Ev Es]. rewrite Em1 in Ev, Es. cbn [fst] in Ev, Es.
  unfold gate_view, contributions in Ev. injection Ev as E1 E2 E3 E4 E5 E6 Eg Em Eb Ech.
  assert (Hs : ∀ g, signer_contributes s1 g → signer_contributes s g).
  { intros g (pk & who & Hpk & Hw & Hc). exists pk, who. unfold contributor in *. by rewrite <- Es, <- Eg, <- Em, <- Eb. }
  intros [G1 G2 G3 G4 G5 G6]. rewrite E1, Es in G1. rewrite E2 in G2. rewrite E3 in G3. rewrite E4, E3 in G4.
  rewrite E5, E3 in G5. rewrite E6, Ech in G6. split.
  - intros k mg Hk Hn. destruct (G1 k mg Hk Hn). auto.
  - eauto.
  - eauto.
  - intros k rp Hk Hn. destruct (G4 k rp Hk Hn) as (t & ? & ?). eauto.
  - intros k Hk Hn. destruct (G5 k Hk Hn) as (t & ? & ?). eauto.
  - intros k Hk Hn. destruct (G6 k Hk Hn) as (t & ? & ?). eauto.
Qed.

(** The calls that add nothing. *)
Lemma gated_quiet o s :
  match o with
  | Join _ _ _ _ | Leave _ _ | SetRole _ _ _ _ _ | Remove _ _ _ | Create _ _ _ _ _ _ _ _ _ | SetPassword _ _ _ _ _
  | RoleUpsert _ _ _ _ _ _ _ _ | RoleDelete _ | RoomCreate _ _ _ _ _ _ _ _ | RoomUpdate _ _ _ _ _ _ _
  | VoiceCreate _ _ _ _ _ | VerifyPassword _ _ _ | SetSigner _ => True
  | _ => False
  end → contributions_gated s (perform o s).
Proof.
  destruct o; intros Ho; try done; cbn [perform]; try (by apply gated_no_more); apply gated_keeps.
  all: unfold groups_join, groups_leave, groups_set_member_role, groups_remove_member, groups_create,
    groups_set_password, groups_role_upsert, role_upsert, groups_rooms_create, groups_rooms_update,
    groups_voice_channels_create, groups_verify_password; keeps_tac.
Qed.

Lemma gated_stop {A} (m : act A) s s1 r : keeps contributions m → m s = (s1, r) → contributions_gated s s1.
Proof. intros Hm E. pose proof (gated_keeps m s Hm) as Hg. by rewrite E in Hg. Qed.

Lemma bind_ret_state {A B} (m : act A) (v : B) s : ((m ≫= λ _, mret v) s).1 = (m s).1.
Proof. unfold mbind, act_bind. by destruct (m s) as [s1 [a|e]]. Qed.

Lemma write_ret {A} f (v : A) s :
  (write f ≫= λ _, mret v) s = (mk_gstate (f (gs_db s)) (gs_signer s) (gs_cell s) (gs_attempts s), Ok v).
Proof. done. Qed.

Lemma thread_ok t s s1 g :
  thread_group t s = (s1, Ok g) → s1 = s ∧ ∃ row, g_threads (gs_db s) !! t = Some row ∧ g = thr_group row.
Proof. unfold thread_group. do 2 act_step. intros [= <- <-]. eauto. Qed.

Lemma channel_ok c s s1 g :
  channel_group c s = (s1, Ok g) → s1 = s ∧ ∃ row, g_channels (gs_db s) !! c = Some row ∧ g = vch_group row.
Proof. unfold channel_group. do 2 act_step. intros [= <- <-]. eauto. Qed.

(** Inverts the checks; the state is the same. *)
Ltac checked :=
  repeat match goal with
  | E : require_owner _ _ _ = (_, Ok _) |- _ =>
      let R := fresh "Hrow" in let M := fresh "Hme" in
      apply owner_ok in E as (-> & ? & ? & R & ? & M & ?)
  | E : require_identity _ _ = (_, Ok _) |- _ =>
      let M := fresh "Hme" in apply identity_ok in E as (-> & ? & M & ?)
  | E : may_contribute _ _ _ = (_, Ok _) |- _ =>
      let C := fresh "Hc" in apply contribute_ok in E as (-> & C)
  | E : thread_group _ _ = (_, Ok _) |- _ =>
      let T := fresh "Ht" in apply thread_ok in E as (-> & ? & T & ->)
  | E : channel_group _ _ = (_, Ok _) |- _ =>
      let T := fresh "Ht" in apply channel_ok in E as (-> & ? & T & ->)
  end.

(** One step, whose failure adds nothing. *)
Ltac gated_step :=
  act_step; checked; cbn [fst]; try apply gated_refl;
  try match goal with
      | E : _ = (?s1, Err _) |- contributions_gated _ ?s1 => eapply gated_stop; [|exact E]; solve [auto with keeps]
      end.

(** The calls that delete or blank rows. *)
Lemma gated_removal o s :
  match o with
  | RoomDelete _ _ | ThreadDelete _ _ | ThreadPin _ _ _ | VoiceDelete _ _ | VoiceLeave _ _ => True
  | _ => False
  end → contributions_gated s (perform o s).
Proof.
  destruct o; intros Ho; try done; cbn [perform].
  - unfold groups_rooms_delete. do 3 gated_step. rewrite write_ret. apply gated_no_more.
    unfold no_more. simpl. rewrite !dom_fmap_L. done.
  - unfold groups_threads_delete. do 2 gated_step. rewrite write_ret.
    apply gated_no_more. unfold no_more. simpl. rewrite dom_delete_L.
    split_and!; try done; [set_solver|apply dom_filter_subseteq|set_solver].
  - unfold groups_threads_pin. do 2 gated_step. rewrite write_ret.
    apply gated_no_more. unfold no_more. simpl. by rewrite dom_alter_L.
  - unfold groups_voice_channels_delete. do 2 gated_step. rewrite write_ret.
    apply gated_no_more. unfold no_more. simpl. split_and!; try done. set_solver.
  - unfold groups_voice_leave. gated_step. rewrite write_ret.
    apply gated_no_more. unfold no_more. simpl. split_and!; try done. set_solver.
Qed.

(** A new row of a table after an insertion is the inserted one. *)
Lemma insert_new {A} `{Countable K} (t : gmap K A) i x k a :
  <[i := x]> t !! k = Some a → t !! k = None → k = i ∧ a = x.
Proof.
  intros Hk Hn. destruct (decide (k = i)) as [->|Hne]; [by rewrite lookup_insert_eq in Hk; simplify_eq|].
  rewrite lookup_insert_ne in Hk by done. congruence.
Qed.

(** The tables that a step left alone have no new rows. *)
Ltac gated_rows :=
  split; cbn [gs_db fst message_upsert on_messages on_room_reactions on_threads on_replies on_thread_reactions
    on_presence g_messages g_room_reactions g_threads g_replies g_thread_reactions g_presence];
  try congruence; try (intros; done).

Lemma contributes s me who g :
  gs_signer s = Some me → clean who = clean me → contributor (gs_db s) g who → signer_contributes s g.
Proof. intros ???. by exists me, who. Qed.

Lemma gated_post now nonce g room content s :
  contributions_gated s (perform (Post now nonce g room content) s).
Proof.
  cbn [perform]. unfold groups_post_message. cbv zeta. do 4 gated_step.
  eapply (gated_from _ _ _ _ _ (keeps_shared_key gate_view _ (λ _ _, eq_refl)) E2).
  gated_step. eapply (gated_from _ _ _ _ _ (keeps_envelope gate_view _ _ _) E3). gated_step.
  destruct (sign_event _ _ _) as [signed id]. gated_step. rewrite write_ret.
  assert (Hs : signer_contributes s1 (trim g)) by (by eapply contributes).
  gated_rows. intros k m Hk Hn. apply insert_new in Hk as [-> ->]; [|done]. cbn [msg_id] in *. by rewrite Hn.
Qed.

Lemma gated_room_react g room message pk emoji s :
  contributions_gated s (perform (RoomReact g room message pk emoji) s).
Proof.
  cbn [perform]. unfold groups_rooms_react. do 3 gated_step.
  assert (Hs : signer_contributes s g) by (by eapply contributes).
  unfold room_toggle_reaction. act_step. case_match; rewrite write_ret.
  - apply gated_no_more. unfold no_more. simpl. rewrite dom_delete_L. split_and!; set_solver.
  - gated_rows. intros k r Hk Hn. by apply insert_new in Hk as [-> ->].
Qed.

Lemma gated_thread_create now r g title body author s :
  contributions_gated s (perform (ThreadCreate now r g title body author) s).
Proof.
  cbn [perform]. unfold groups_threads_create. cbv zeta. do 5 gated_step. rewrite write_ret.
  assert (Hs : signer_contributes s (trim g)) by (by eapply contributes).
  gated_rows. intros k t Hk Hn. by apply insert_new in Hk as [-> ->].
Qed.

Lemma gated_thread_reply now r t parent content author s :
  contributions_gated s (perform (ThreadReply now r t parent content author) s).
Proof.
  cbn [perform]. unfold groups_threads_reply. cbv zeta. do 6 gated_step. rewrite write_ret.
  gated_rows. intros k rp Hk Hn. apply insert_new in Hk as [-> ->]; [|done]. cbn [rpl_thread].
  eexists. split; [done|]. by eapply contributes.
Qed.

Lemma gated_thread_react t reply pk emoji s :
  contributions_gated s (perform (ThreadReact t reply pk emoji) s).
Proof.
  cbn [perform]. unfold groups_threads_react. do 4 gated_step.
  unfold thread_toggle_reaction. act_step. case_match; rewrite write_ret.
  - apply gated_no_more. unfold no_more. simpl. split_and!; set_solver.
  - gated_rows. intros k [->%elem_of_singleton|]%elem_of_union Hn; [|done]. cbn [fst].
    eexists. split; [done|]. by eapply contributes.
Qed.

Lemma gated_voice_join c pk s : contributions_gated s (perform (VoiceJoin c pk) s).
Proof.
  cbn [perform]. unfold groups_voice_join. do 3 gated_step. rewrite write_ret.
  gated_rows. intros k [->%elem_of_singleton|]%elem_of_union Hn; [|done]. cbn [fst].
  eexists. split; [done|]. by eapply contributes.
Qed.

(** C21: whatever call is made, a message, thread, reply, reaction or voice
    presence that is new after it was contributed by the unlocked signer, who
    was the owner of the group or a member of it and was not banned; a message
    carries the signer's key. *)
Theorem contributions_by_members o s : contributions_gated s (perform o s).
Proof.
  destruct o; first [by apply gated_quiet | by apply gated_removal | apply gated_post | apply gated_room_react
    | apply gated_thread_create | apply gated_thread_reply | apply gated_thread_react | apply gated_voice_join].
Qed.

(** ** Memberships *)

(** Why the call may put this membership row there. *)
Definition admitted_by (o : group_op) (s : gstate) (g pk : str) (m : GroupMemberRow) : Prop :=
  match o with
  | Join _ g' user password =>
      g = g' ∧ pk = clean user ∧ (∃ me, gs_signer s = Some me ∧ clean user = clean me) ∧
      ((g, pk) ∉ g_banned (gs_db s)) ∧
      ∃ row, g_groups (gs_db s) !! g = Some row ∧
        (is_community_private (grp_access_type row) (bool_decide (is_Some (grp_password_hash row))) = true →
         ∃ h, grp_password_hash row = Some h ∧ verify_community_password (trim (default [] password)) h = true)
  | SetRole _ g' member role admin =>
      g = g' ∧ pk = clean member ∧ mbr_role m = role ∧
      ∃ row me, g_groups (gs_db s) !! g = Some row ∧ eq_ignore_ascii_case (grp_pubkey row) admin = true ∧
        gs_signer s = Some me ∧ clean admin = clean me
  | Create _ _ g' _ _ _ creator _ _ => g = trim g' ∧ pk = clean creator ∧ mbr_role m = lit "owner"
  | _ => False
  end.

(** A row that differs afterwards is the one written. *)
Lemma add_member_rows g who role t s k m :
  g_members (gs_db (add_member g who role t s).1) !! k = Some m → g_members (gs_db s) !! k ≠ Some m →
  k = (g, clean who) ∧ m = mk_member g (clean who) role t.
Proof.
  unfold add_member. cbv zeta. act_step.
  unfold write in E. injection E as <- <-. do 2 act_step; unfold write; cbn; intros Hk Hn.
  - rewrite lookup_insert_Some in Hk. rewrite lookup_delete_Some in Hk. naive_solver.
  - rewrite lookup_delete_Some in Hk. naive_solver.
Qed.

Lemma add_member_ok g who role t s s1 u :
  add_member g who role t s = (s1, Ok u) →
  gs_db s1 = on_members (λ l, <[(g, clean who) := mk_member g (clean who) role t]> (delete (g, clean who) l)) (gs_db s).
Proof.
  unfold add_member. cbv zeta. do 3 act_step. unfold write in *. injection E as <- _. by intros [= <- _].
Qed.

Lemma verified_password g password s s1 u :
  join_password g password s = (s1, Ok u) →
  s1 = s ∧
  (is_community_private (grp_access_type g) (bool_decide (is_Some (grp_password_hash g))) = true →
   ∃ h, grp_password_hash g = Some h ∧ verify_community_password (trim (default [] password)) h = true).
Proof.
  unfold join_password. destruct (is_community_private _ _); [|by intros [= <-]]. cbv zeta. do 2 act_step. intros Hv. act_inv.
  split; [done|]. intros _. destruct (grp_password_hash g) as [h|]; [by exists h|done].
Qed.

(** The calls that leave the memberships alone. *)
Lemma members_kept o s :
  match o with
  | Join _ _ _ _ | Leave _ _ | SetRole _ _ _ _ _ | Remove _ _ _ | Create _ _ _ _ _ _ _ _ _ => False
  | _ => True
  end → g_members (gs_db (perform o s)) = g_members (gs_db s).
Proof.
  destruct o; intros Ho; try done; cbn [perform];
    match goal with |- g_members (gs_db (?m s).1) = _ => refine (proj1 ((_ : keeps g_members m) s)) end.
  all: unfold groups_set_password, groups_role_upsert, role_upsert, groups_role_delete, groups_rooms_create,
    groups_rooms_update, groups_rooms_delete, groups_rooms_react, room_toggle_reaction, groups_threads_create,
    groups_threads_delete, groups_threads_pin, groups_threads_reply, groups_threads_react, thread_toggle_reaction,
    groups_voice_channels_create, groups_voice_channels_delete, groups_voice_join, groups_voice_leave,
    groups_verify_password, groups_post_message; keeps_tac.
Qed.

Lemma members_stop {A} (m : act A) s s1 r :
  keeps g_members m → m s = (s1, r) → g_members (gs_db s1) = g_members (gs_db s).
Proof. intros Hm E. destruct (Hm s) as [Ev _]. by rewrite E in Ev. Qed.

(** One step, whose failure leaves the memberships. *)
Ltac adm_step :=
  act_step; checked; cbn [fst];
  try match goal with
      | E : _ ?s0 = (?s1, Err _) |- context [g_members (gs_db ?s1)] =>
          let Hm := fresh in
          assert (Hm : g_members (gs_db s1) = g_members (gs_db s0))
            by (eapply members_stop; [|exact E]; solve [auto with keeps]);
          rewrite Hm
      end;
  try done.

(** C22: a membership row that a call leaves different from before was written
    by joining, as the unlocked signer, unbanned and, in a private group, with
    the password; by the owner; or by [groups_create]. *)
Theorem memberships_by_admission o s g pk m :
  g_members (gs_db (perform o s)) !! (g, pk) = Some m → g_members (gs_db s) !! (g, pk) ≠ Some m →
  admitted_by o s g pk m.
Proof.
  intros Hk Hn. destruct o; try (by rewrite members_kept in Hk); cbn [perform admitted_by] in *; revert Hk.
  - unfold groups_join. do 6 adm_step. apply verified_password in E1 as [-> Hp]. adm_step.
    destruct (existsb _ _); [done|]. rewrite bind_ret_state. intros [[= -> ->] _]%add_member_rows; [|done].
    unfold is_banned in E0. apply negb_true_iff, bool_decide_eq_false in E0. eauto 9.
  - unfold groups_leave. do 3 adm_step. rewrite write_ret. simpl. rewrite lookup_delete_Some. naive_solver.
  - unfold groups_set_member_role. adm_step. rewrite bind_ret_state.
    intros [[= -> ->] ->]%add_member_rows; [|done]. eauto 10.
  - unfold groups_remove_member. do 2 adm_step. rewrite write_ret. simpl. rewrite lookup_delete_Some. naive_solver.
  - unfold groups_create. cbv zeta. do 6 adm_step.
    pose proof (members_stop _ _ _ _ (keeps_create_password _ _ _ _) E4) as Em. act_step.
    unfold write in E5. injection E5 as <- _. rewrite bind_ret_state. intros [[= -> ->] ->]%add_member_rows; [done|].
    simpl. by rewrite Em.
Qed.


(** No call bans anybody, so the checks for a ban never refuse. *)
Lemma bans_never_change o s : g_banned (gs_db (perform o s)) = g_banned (gs_db s).
Proof.
  destruct o; cbn [perform]; try done;
    match goal with |- g_banned (gs_db (?m s).1) = _ => refine (proj1 ((_ : keeps g_banned m) s)) end.
  all: unfold groups_join, groups_leave, groups_set_member_role, groups_remove_member, groups_create,
    groups_set_password, groups_role_upsert, role_upsert, groups_role_delete, groups_rooms_create,
    groups_rooms_update, groups_rooms_delete, groups_rooms_react, room_toggle_reaction, groups_threads_create,
    groups_threads_delete, groups_threads_pin, groups_threads_reply, groups_threads_react, thread_toggle_reaction,
    groups_voice_channels_create, groups_voice_channels_delete, groups_voice_join, groups_voice_leave,
    groups_verify_password, groups_post_message; keeps_tac.
Qed.

(** ** What is not checked *)

(** [groups_create] on a group that exists, by anybody and with the signer
    locked as well, replaces the password of the group and makes the creator a
    member with the role of owner; only the stored owner stays. *)
Theorem create_takes_over now salt g name about picture creator password s s' r row :
  g_groups (gs_db s) !! trim g = Some row →
  groups_create now (Some salt) g name about picture creator true (Some password) s = (s', Ok r) →
  ∃ row' h, g_groups (gs_db s') !! trim g = Some row' ∧ grp_pubkey row' = grp_pubkey row ∧
    hash_community_password (Some salt) (trim password) = Ok h ∧ grp_password_hash row' = Some h ∧
    g_members (gs_db s') !! (trim g, clean creator) = Some (mk_member (trim g) (clean creator) (lit "owner") now).
Proof.
  intros Hrow. unfold groups_create. cbv zeta. do 6 act_step. unfold create_password in E4. revert E4. cbv zeta.
  do 2 act_step. unfold lift in E5. injection E5 as <- Hh. intros [= <- <-]. act_step. unfold write in E5.
  injection E5 as <- _. act_step. intros [= <- <-].
  apply add_member_ok in E5. rewrite E5. simpl in *. rewrite Hrow, lookup_insert_eq.
  eexists _, _. split; [done|]. do 3 (split; [done|]). by rewrite lookup_insert_eq.
Qed.

(** The room need not belong to the group whose owner asks: the owner of any
    group can rename a room of another and move it. *)
Lemma room_update_moves room g name topic emoji color actor s old :
  (require_owner g actor s).2 = Ok () → g_rooms (gs_db s) !! room = Some old →
  g_rooms (gs_db (perform (RoomUpdate room g name topic emoji color actor) s)) !! room =
  Some (mk_room room g name topic emoji color (rom_position old) (rom_created_by old) (rom_created_at old)).
Proof.
  intros Ho Hr. cbn [perform]. unfold groups_rooms_update. act_step; [|by rewrite E in Ho]. checked.
  do 2 act_step; [|by rewrite Hr in E]. rewrite write_ret. simpl. rewrite lookup_insert_eq.
  rewrite Hr in E. by injection E as <-.
Qed.

(** Anybody changes the roles of any group. *)
Lemma roles_unguarded now r role g name color position permissions s row :
  role ≠ [] → g_groups (gs_db s) !! g = Some row →
  g_roles (gs_db (perform (RoleUpsert now r role g name color position permissions) s)) !! role =
  Some (mk_role role g name color position permissions now).
Proof.
  intros Hr Hg. cbn [perform]. unfold groups_role_upsert, role_upsert. rewrite bool_decide_eq_false_2 by done.
  rewrite bind_ret_state. do 2 act_step.
  - simpl. by rewrite lookup_insert_eq.
  - simpl in E. by rewrite Hg in E.
Qed.

(** ** Counting wrong passwords *)

Definition alive (now : Z) (e : Z * Z) : Prop := (now - e.2 < WINDOW_SECS)%Z.

#[local] Instance alive_dec now e : Decision (alive now e).
Proof. unfold alive. apply _. Defined.

(** The entry that a check at [now] works with. *)
Definition entry_at (now : Z) (o : option (Z * Z)) : Z * Z :=
  match o with Some e => if decide (alive now e) then e else (0, now)%Z | None => (0, now)%Z end.

Definition still_alive (now : Z) (o : option (Z * Z)) : option (Z * Z) :=
  match o with Some e => if decide (alive now e) then Some e else None | None => None end.

Lemma entry_alive now o : alive now (entry_at now o).
Proof.
  unfold entry_at. destruct o as [e|]; [destruct (decide (alive now e)); [done|]|]; unfold alive, WINDOW_SECS; simpl; lia.
Qed.

Lemma sweep_lookup now t k : size t ≤ MAX_ATTEMPTS_MAP → sweep_attempts now t !! k = still_alive now (t !! k).
Proof.
  intros Hs. unfold sweep_attempts. set (t' := filter _ t).
  assert (Hle : size t' ≤ size t) by apply size_filter_le.
  replace (size t' - MAX_ATTEMPTS_MAP) with 0 by lia. rewrite take_0.
  unfold t', still_alive. simpl. destruct (t !! k) as [e|] eqn:Hk.
  - destruct (decide (alive now e)) as [Ha|Ha]; [by apply map_lookup_filter_Some|].
    apply map_lookup_filter_None. right. naive_solver.
  - apply map_lookup_filter_None. by left.
Qed.

(** The effect of a lockout check while few groups are tracked. *)
Lemma attempt_entry_small now g t :
  size t ≤ MAX_ATTEMPTS_MAP →
  (attempt_entry now g t).2 = entry_at now (t !! g) ∧
  ∀ k, (attempt_entry now g t).1 !! k =
       if decide (k = g) then Some (entry_at now (t !! g)) else still_alive now (t !! k).
Proof.
  intros Hs. unfold attempt_entry. rewrite sweep_lookup by done. set (e := default (0, now)%Z _).
  assert (He : e = entry_at now (t !! g)).
  { unfold e, still_alive, entry_at. destruct (t !! g) as [x|]; [|done]. by destruct (decide (alive now x)). }
  assert (Ha := entry_alive now (t !! g)). rewrite <- He in *. unfold alive in Ha.
  rewrite (proj2 (Z.leb_gt _ _)) by lia. split; [done|]. intros k. cbn [fst].
  destruct (decide (k = g)) as [->|Hk]; [by rewrite lookup_insert_eq|].
  by rewrite lookup_insert_ne, sweep_lookup by done.
Qed.

(** The counters of the groups in [X]. *)
Definition tracked (X : gset str) (t : gmap str (Z * Z)) : Prop := dom t ⊆ X ∧ size X ≤ MAX_ATTEMPTS_MAP.

Lemma tracked_size X t : tracked X t → size t ≤ MAX_ATTEMPTS_MAP.
Proof. intros [Hd Hx]. rewrite <- size_dom. etransitivity; [by apply subseteq_size|done]. Qed.

(** What a sequence of checks and updates at one time may do to the counters. *)
Record counted (X : gset str) (now : Z) (g : str) (t t' : gmap str (Z * Z)) (e : Z * Z) : Prop := {
  ct_tracked : tracked X t';
  ct_own : t' !! g = Some e;
  ct_other k : k ≠ g → t' !! k = still_alive now (t !! k)
}.

Lemma still_alive_idemp now o : still_alive now (still_alive now o) = still_alive now o.
Proof. unfold still_alive. destruct o as [e|]; [|done]. destruct (decide (alive now e)) as [|]; [|done]. by rewrite decide_True. Qed.

Lemma still_alive_some now o e : still_alive now o = Some e → o = Some e.
Proof. unfold still_alive. destruct o; [|done]. by destruct (decide _). Qed.

Lemma counted_check X now g t :
  g ∈ X → tracked X t → counted X now g t (attempt_entry now g t).1 (entry_at now (t !! g)).
Proof.
  intros Hg Ht. destruct (attempt_entry_small now g t (tracked_size _ _ Ht)) as [_ Hk]. split.
  - split; [|apply Ht]. intros k [e He]%elem_of_dom. rewrite Hk in He. destruct (decide (k = g)) as [->|]; [done|].
    apply still_alive_some in He. apply Ht. by apply elem_of_dom_2 in He.
  - rewrite Hk. by rewrite decide_True.
  - intros k Hne. rewrite Hk. by rewrite decide_False.
Qed.

Lemma counted_again X now g t t' e :
  g ∈ X → alive now e → counted X now g t t' e → counted X now g t (attempt_entry now g t').1 e.
Proof.
  intros Hg Ha [Ht Ho Hk]. destruct (counted_check X now g t' Hg Ht) as [Ht' Ho' Hk']. split; [done| |].
  - rewrite Ho', Ho. unfold entry_at. by rewrite decide_True.
  - intros k Hne. by rewrite Hk', Hk, still_alive_idemp.
Qed.

Lemma counted_alter X now g t t' e f :
  counted X now g t t' e → counted X now g t (alter f g t') (f e).
Proof.
  intros [[Hd Hx] Ho Hk]. split.
  - split; [|done]. by rewrite dom_alter_L.
  - by rewrite lookup_alter_eq, Ho.
  - intros k Hne. by rewrite lookup_alter_ne, Hk.
Qed.

Lemma counted_sweep X now g t t' e :
  alive now e → counted X now g t t' e → counted X now g t (sweep_attempts now t') e.
Proof.
  intros Ha [Ht Ho Hk]. pose proof (tracked_size _ _ Ht) as Hs. split.
  - split; [|apply Ht]. intros k [x Hx]%elem_of_dom. rewrite sweep_lookup in Hx by done.
    apply still_alive_some, elem_of_dom_2 in Hx. by apply Ht.
  - rewrite sweep_lookup, Ho by done. simpl. by rewrite decide_True.
  - intros k Hne. by rewrite sweep_lookup, Hk, still_alive_idemp.
Qed.

Lemma lockout_effect X now g t s s' r e :
  g ∈ X → alive now e → counted X now g t (gs_attempts s) e → check_lockout now g s = (s', r) →
  counted X now g t (gs_attempts s') e ∧ ((∃ n, r = Ok n) → (e.1 < MAX_ATTEMPTS)%Z).
Proof.
  intros Hg Ha Hc. assert (Hc' := counted_again X now g t _ e Hg Ha Hc).
  destruct (attempt_entry_small now g _ (tracked_size _ _ (ct_tracked _ _ _ _ _ _ Hc))) as [He _].
  rewrite (ct_own _ _ _ _ _ _ Hc) in He. unfold entry_at in He. rewrite decide_True in He by done.
  unfold check_lockout. destruct (attempt_entry _ _ _) as [t1 e1]. simpl in *. subst e1. intros [= <- <-].
  split; [done|]. intros [n Hn]. unfold ensure in Hn. by destruct (Z.ltb_spec e.1 MAX_ATTEMPTS).
Qed.

Lemma lockout_first X now g s s' r :
  g ∈ X → tracked X (gs_attempts s) → check_lockout now g s = (s', r) →
  let e := entry_at now (gs_attempts s !! g) in
  counted X now g (gs_attempts s) (gs_attempts s') e ∧ ((∃ n, r = Ok n) → (e.1 < MAX_ATTEMPTS)%Z).
Proof.
  intros Hg Ht. cbv zeta. assert (Hc := counted_check X now g _ Hg Ht).
  destruct (attempt_entry_small now g _ (tracked_size _ _ Ht)) as [He _].
  unfold check_lockout. destruct (attempt_entry _ _ _) as [t1 e1]. simpl in *. subst e1. intros [= <- <-].
  split; [done|]. intros [n Hn]. unfold ensure in Hn. by destruct (Z.ltb_spec (entry_at now (gs_attempts s !! g)).1 MAX_ATTEMPTS).
Qed.

(** The counter of the group after a call. *)
Definition counter_after (e : Z * Z) (r : may_fail bool) : Z * Z :=
  match r with Ok true => (0, e.2)%Z | Ok false => (e.1 + 1, e.2)%Z | Err _ => e end.

Lemma verify_effect X now g p s s' r :
  g ∈ X → tracked X (gs_attempts s) → groups_verify_password now g p s = (s', r) →
  let e := entry_at now (gs_attempts s !! g) in
  counted X now g (gs_attempts s) (gs_attempts s') (counter_after e r) ∧
  (r = Ok false → (e.1 < MAX_ATTEMPTS)%Z).
Proof.
  intros Hg Ht. cbv zeta. assert (Ha := entry_alive now (gs_attempts s !! g)). unfold groups_verify_password.
  act_step; destruct (lockout_first X now g _ _ _ Hg Ht E) as [Hc _]; [|by intros [= <- <-]].
  do 3 (act_step; try by intros [= <- <-]).
  act_step; destruct (lockout_effect X now g _ _ _ _ _ Hg Ha Hc E2) as [Hc0 Hlt]; [|by intros [= <- <-]].
  act_step; unfold set_attempts in E3. injection E3 as <- _.
  apply (counted_alter X now g _ _ _ (λ e, (e.1 + 1, e.2)%Z)) in Hc0.
  destruct (verify_community_password _ _).
  - act_step. injection E3 as <- _. intros [= <- <-]. split; [|done]. simpl in *.
    apply (counted_sweep X now g) in Hc0; [|done]. by apply (counted_alter X now g _ _ _ (λ e, (0, e.2)%Z)) in Hc0.
  - act_step. injection E3 as <- _. intros [= <- <-]. split; [done|]. intros _. apply Hlt. by eexists.
Qed.

(** A call: the tables it finds, when, the group, and the password. *)
Definition guess : Type := gdb * Z * str * str.

(** Calls one after the other; what happens in between may change the tables
    at will, and leaves the counters. *)
Fixpoint verify_calls (cs : list guess) (t : gmap str (Z * Z)) : gmap str (Z * Z) * list (str * may_fail bool) :=
  match cs with
  | [] => (t, [])
  | (d, now, g, p) :: cs =>
      let '(s, r) := groups_verify_password now g p (mk_gstate d None None t) in
      let '(t, rs) := verify_calls cs (gs_attempts s) in (t, (g, r) :: rs)
  end.

(** The answers that say that the password is wrong. *)
Definition refused (g : str) (rs : list (str * may_fail bool)) : Z :=
  zlen (filter (λ x, x = (g, Ok false)) rs).

Definition call_time (c : guess) : Z := c.1.1.2.

(** What bounds the wrong passwords for [g] so far by its counter. *)
Definition rate_inv (t0 last : Z) (w : Z) (o : option (Z * Z)) : Prop :=
  match o with
  | Some (c, ts) => (t0 <= ts <= last ∧ 0 <= c <= MAX_ATTEMPTS ∧ w <= 5 * ((ts - t0) / 30) + c)%Z
  | None => (t0 <= last ∧ w <= 5 * ((last - t0) / 30))%Z
  end.

Lemma rate_entry t0 last now w o :
  (last <= now)%Z → rate_inv t0 last w o → rate_inv t0 now w (Some (entry_at now o)) ∧ rate_inv t0 now w (still_alive now o).
Proof.
  unfold rate_inv, entry_at, still_alive, MAX_ATTEMPTS. intros Hn Hi.
  assert (Hfrom : ∀ c ts, (t0 <= ts <= last)%Z → (0 <= c <= 5)%Z → (w <= 5 * ((ts - t0) / 30) + c)%Z →
    ¬ alive now (c, ts) → (w <= 5 * ((now - t0) / 30))%Z).
  { unfold alive, WINDOW_SECS. simpl. intros c ts ? ? ? ?.
    assert ((ts - t0) / 30 + 1 <= (now - t0) / 30)%Z; [|lia].
    replace ((ts - t0) / 30 + 1)%Z with ((ts - t0 + 1 * 30) / 30)%Z by (rewrite Z.div_add by lia; lia).
    apply Z.div_le_mono; lia. }
  destruct o as [[c ts]|]; [destruct (decide (alive now (c, ts))) as [Ha|Ha]|].
  - split; lia.
  - destruct Hi as (Ht & Hc & Hw). specialize (Hfrom c ts Ht Hc Hw Ha). split; lia.
  - assert ((last - t0) / 30 <= (now - t0) / 30)%Z by (apply Z.div_le_mono; lia). split; lia.
Qed.

Lemma refused_cons g x rs : refused g (x :: rs) = ((if decide (x = (g, Ok false)) then 1 else 0) + refused g rs)%Z.
Proof.
  unfold refused. destruct (decide (x = (g, Ok false))) as [Hx|Hx].
  - rewrite filter_cons_True by done. rewrite length_cons. lia.
  - by rewrite filter_cons_False.
Qed.

Lemma rate_run X g t0 cs : ∀ t last w t' rs,
  tracked X t → g ∈ X → rate_inv t0 last w (t !! g) →
  Forall (λ c : guess, c.1.2 ∈ X ∧ (last <= call_time c)%Z) cs → StronglySorted Z.le (call_time <$> cs) →
  verify_calls cs t = (t', rs) → (g, Ok true) ∉ rs →
  ∃ last', (last <= last')%Z ∧ (last' = last ∨ Exists (λ c, call_time c = last') cs) ∧
    rate_inv t0 last' (w + refused g rs)%Z (t' !! g).
Proof.
  induction cs as [|[[[d now] h] p] cs IH]; intros t last w t' rs Ht Hg Hi Hc Hs.
  { intros [= <- <-] _. exists last. split; [lia|]. split; [by left|]. unfold refused. rewrite filter_nil. cbn [length].
    by rewrite Z.add_0_r. }
  cbn [verify_calls]. destruct (groups_verify_password now h p _) as [s r] eqn:E.
  destruct (verify_calls cs _) as [t1 rs1] eqn:E1. intros [= <- <-] Hok.
  apply not_elem_of_cons in Hok as [Hr Hok]. apply Forall_cons in Hc as [[Hh Hn] Hc]. simpl in Hh.
  rewrite fmap_cons in Hs. apply StronglySorted_inv in Hs as [Hs Hall]. change (call_time (d, now, h, p)) with now in *.
  destruct (verify_effect X now h p (mk_gstate d None None t) _ _ Hh Ht E) as [[Ht1 Ho Hk] Hlt]. cbn [gs_attempts] in *.
  assert (Hnext : rate_inv t0 now (w + (if decide ((h, r) = (g, Ok false)) then 1 else 0))%Z (gs_attempts s !! g)).
  { destruct (rate_entry t0 last now w _ Hn Hi) as [He Hal].
    destruct (decide (g = h)) as [->|Hne].
    - rewrite Ho. destruct r as [[]|]; simpl in *.
      + done.
      + rewrite decide_True by done. specialize (Hlt eq_refl). unfold MAX_ATTEMPTS in *.
        destruct (entry_at now (t !! h)) as [c ts]. simpl in *. lia.
      + rewrite decide_False by done. rewrite Z.add_0_r. exact He.
    - rewrite Hk by done. rewrite decide_False by congruence. rewrite Z.add_0_r. exact Hal. }
  assert (Hc' : Forall (λ c : guess, c.1.2 ∈ X ∧ (now <= call_time c)%Z) cs).
  { rewrite Forall_forall in Hc. rewrite Forall_forall in Hall. apply Forall_forall. intros c Hin. split; [by apply Hc|]. apply Hall, list_elem_of_fmap. eauto. }
  destruct (IH _ now _ _ _ Ht1 Hg Hnext Hc' Hs E1 Hok) as (last' & Hle & Hex & Hfin).
  exists last'. split; [lia|]. rewrite refused_cons. split.
  - right. destruct Hex as [->|]; [by left|by right].
  - by rewrite Z.add_assoc.
Qed.

(** While at most 1000 groups are asked about, the calls between [t0] and
    [tn] that answer that the password of [g] is wrong are at most five per
    started 30 seconds, as long as none finds the right one. *)
Theorem password_guess_rate (X : gset str) g t0 tn cs t' rs :
  g ∈ X → size X ≤ MAX_ATTEMPTS_MAP → (t0 <= tn)%Z →
  Forall (λ c : guess, c.1.2 ∈ X ∧ (t0 <= call_time c <= tn)%Z) cs → StronglySorted Z.le (call_time <$> cs) →
  verify_calls cs ∅ = (t', rs) → (g, Ok true) ∉ rs →
  (refused g rs <= 5 * (1 + (tn - t0) / 30))%Z.
Proof.
  intros Hg HX Hn Hc Hs Hr Hok.
  destruct (rate_run X g t0 cs ∅ t0 0 t' rs) as (last & Hle & Hex & Hi); try done.
  - rewrite lookup_empty. simpl. rewrite Z.sub_diag. split; [lia|]. by rewrite Z.div_0_l.
  - eapply Forall_impl; [exact Hc|]. simpl. intros c (? & ? & ?). done.
  - assert (last <= tn)%Z.
    { destruct Hex as [->|(c & Hin & <-)%Exists_exists]; [done|]. rewrite Forall_forall in Hc.
      by apply Hc in Hin as (_ & _ & ?). }
    assert (Hm : ∀ ts, (ts <= last)%Z → ((ts - t0) / 30 <= (tn - t0) / 30)%Z) by (intros; apply Z.div_le_mono; lia).
    unfold rate_inv, MAX_ATTEMPTS in Hi. destruct (t' !! g) as [[c ts]|]; [|specialize (Hm last)];
      [specialize (Hm ts)|]; lia.
Qed.
End runs.

(** ** Examples *)

Module GroupExamples.
Import Toy.

#[local] Instance toy_groups : GroupEnv := {|
  pbkdf2 p salt := p ++ salt;
  sign_event pk now content := (content, pk ++ content);
  seal_at_rest pk raw := Ok (hex_encode raw);
  open_at_rest pk sealed := ok_or (Fail "bad key") (hex_decode_str sealed);
  group_urls := {| url_parse s := Some (mk_url (lit "https") [] None (Some (lit "a.example"))) |};
  members_order := _;
  messages_order := _;
  attempts_order := _
|}.

Definition salt : bytes := replicate 16 7%Z.
Definition nobody : gstate :=
  mk_gstate (mk_gdb {[ lit "ann"; lit "bob" ]} ∅ ∅ ∅ ∅ ∅ ∅ ∅ ∅ ∅ ∅ ∅ ∅ ∅) (Some (lit "ann")) None ∅.

(** Ann founds a private group. *)
Definition founded : gstate :=
  perform (Create 1 (Some salt) (lit "g") (lit "Club") [] [] (lit "ann") true (Some (lit "correct horse"))) nobody.

(** Bob joins it with the password. *)
Definition bob : gstate := perform (SetSigner (Some (lit "bob"))) founded.
Definition join_bob : group_op := Join 2 (lit "g") (lit "bob") (Some (lit "correct horse")).
Definition joined : gstate := perform join_bob bob.
Definition hello : group_op := Post 3 (Some salt) (lit "g") [] (lit "hello").

Lemma contributions_by_members_witness :
  contributions_gated joined (perform hello joined) ∧
  size (g_messages (gs_db (perform hello joined))) = 1 ∧ size (g_messages (gs_db (perform hello bob))) = 0.
Proof. split; [apply contributions_by_members|]. by vm_compute. Defined.

Lemma memberships_by_admission_witness :
  admitted_by join_bob bob (lit "g") (lit "bob") (mk_member (lit "g") (lit "bob") (lit "member") 2) ∧
  g_members (gs_db (perform (Join 2 (lit "g") (lit "bob") (Some (lit "wrong horse"))) bob)) !! (lit "g", lit "bob") = None.
Proof. split; [|by vm_compute]. by apply memberships_by_admission; vm_compute. Defined.

(** Five guesses in the same second are refused one by one, a sixth is not
    looked at, and the one after half a minute is. *)
Definition guess_at (now : Z) : guess := (gs_db founded, now, lit "g", lit "wrong horse").
Definition guesses : list guess := guess_at <$> [10; 10; 10; 10; 10; 10; 40]%Z.

Lemma password_guess_rate_witness :
  (refused (lit "g") (verify_calls guesses ∅).2 <= 5 * (1 + (40 - 10) / 30))%Z ∧
  refused (lit "g") (verify_calls guesses ∅).2 = 6%Z.
Proof.
  split; [|by vm_compute].
  apply (password_guess_rate {[ lit "g" ]} (lit "g") 10 40 guesses (verify_calls guesses ∅).1 (verify_calls guesses ∅).2).
  - set_solver.
  - rewrite size_singleton. unfold MAX_ATTEMPTS_MAP. lia.
  - lia.
  - repeat constructor; try (by apply elem_of_singleton); unfold call_time; simpl; lia.
  - repeat constructor; unfold call_time; simpl; lia.
  - apply surjective_pairing.
  - assert (Hb : bool_decide ((lit "g", Ok true) ∈ (verify_calls guesses ∅).2) = false) by (by vm_compute).
    by apply bool_decide_eq_false in Hb.
Defined.

(** Bob founds Ann's group again, with a password of his own. *)
Lemma create_takes_over_witness :
  ∃ s', (∃ row' h, g_groups (gs_db s') !! lit "g" = Some row' ∧ grp_pubkey row' = lit "ann" ∧
      hash_community_password (Some salt) (lit "mine and mine") = Ok h ∧ grp_password_hash row' = Some h ∧
      g_members (gs_db s') !! (lit "g", lit "bob") = Some (mk_member (lit "g") (lit "bob") (lit "owner") 4)) ∧
    gs_signer s' = None.
Proof.
  set (op := groups_create 4 (Some salt) (lit "g") (lit "Club") [] [] (lit "bob") true (Some (lit "mine and mine"))).
  set (locked := perform (SetSigner None) founded).
  destruct (g_groups (gs_db locked) !! lit "g") as [row|] eqn:Hrow; [|vm_compute in Hrow; discriminate Hrow].
  assert (Ho : bool_decide (grp_pubkey row = lit "ann") = true).
  { assert (Hl : (grp_pubkey <$> g_groups (gs_db locked) !! lit "g") = Some (lit "ann")) by (by vm_compute).
    rewrite Hrow in Hl. injection Hl as ->. by vm_compute. }
  apply bool_decide_eq_true in Ho. rewrite <- Ho.
  exists (op locked).1. split; [|by vm_compute].
  apply (create_takes_over 4 salt (lit "g") (lit "Club") [] [] (lit "bob") (lit "mine and mine") locked _ (lit "g") row Hrow).
  by vm_compute.
Defined.
End GroupExamples.
