(* ===== verification/Lru.v ===== *)
(** The cache of the chunk store (src/media-core/src/cas.rs): a map whose
    entries carry the epoch of their last use, and the set of these epochs in
    order. It behaves as the list of its entries from the least to the most
    recently used, cut to the capacity. *)

From S2P Require Import Prelude RustStr Sql.

(** ** The code *)

(** Source: src/media-core/src/cas.rs:56-61 (FifoCache) *)
Record FifoCache (V : Type) := mk_fifo {
  ff_order : gset (Z * str);
  ff_map : gmap str (Z * V);
  ff_cap : Z;
  ff_next_epoch : Z
}.
Arguments mk_fifo {V} _ _ _ _.
Arguments ff_order {V} _.
Arguments ff_map {V} _.
Arguments ff_cap {V} _.
Arguments ff_next_epoch {V} _.

(** The order of pairs in a BTreeSet. *)
Definition pair_le (x y : Z * str) : Prop := (x.1 < y.1)%Z ∨ x.1 = y.1 ∧ str_leb x.2 y.2 = true.

#[export] Instance pair_le_dec x y : Decision (pair_le x y).
Proof. unfold pair_le. apply _. Defined.
#[export] Instance pair_le_total : Total pair_le.
Proof. intros [a x] [b y]. unfold pair_le. simpl. destruct (str_leb_total x y); destruct (Z.lt_total a b) as [|[|]]; eauto. Qed.
#[export] Instance pair_le_trans : Transitive pair_le.
Proof.
  intros [a x] [b y] [c z]. unfold pair_le. simpl. intros [?|[-> ?]] [?|[-> ?]]; try (left; lia).
  right. split; [done|]. by eapply str_leb_trans.
Qed.

(** The least element of a BTreeSet and the rest. *)
Definition pop_first (X : gset (Z * str)) : option (Z * str) := head (merge_sort pair_le (elements X)).

Section cache.
Context {V : Type}.
Implicit Types (c : FifoCache V) (k : str) (v : V).

(** Source: src/media-core/src/cas.rs:64-71 (FifoCache::default) *)
Definition fifo_new (cap : Z) : FifoCache V := mk_fifo ∅ ∅ cap 0.

(** Source: src/media-core/src/cas.rs:75-83 (FifoCache::get) *)
Definition fifo_get c k : FifoCache V * option V :=
  match ff_map c !! k with
  | None => (c, None)
  | Some (old_epoch, val) =>
      let next := (ff_next_epoch c + 1)%Z in
      (mk_fifo ({[ (next, k) ]} ∪ ff_order c ∖ {[ (old_epoch, k) ]}) (<[k := (next, val)]> (ff_map c))
         (ff_cap c) next, Some val)
  end.

(** Source: src/media-core/src/cas.rs:85-102 (FifoCache::put) *)
Definition fifo_put c k v : FifoCache V :=
  let next := (ff_next_epoch c + 1)%Z in
  match ff_map c !! k with
  | Some (old_epoch, _) =>
      mk_fifo ({[ (next, k) ]} ∪ ff_order c ∖ {[ (old_epoch, k) ]}) (<[k := (next, v)]> (ff_map c)) (ff_cap c) next
  | None =>
      let '(order, map) :=
        if (0 <? ff_cap c)%Z && (ff_cap c <=? zsize (ff_map c))%Z then
          match pop_first (ff_order c) with
          | Some oldest => (ff_order c ∖ {[ oldest ]}, delete oldest.2 (ff_map c))
          | None => (ff_order c, ff_map c)
          end
        else (ff_order c, ff_map c) in
      mk_fifo ({[ (next, k) ]} ∪ order) (<[k := (next, v)]> map) (ff_cap c) next
  end.

(** Source: src/media-core/src/cas.rs:104-108 (FifoCache::invalidate) *)
Definition fifo_invalidate c k : FifoCache V :=
  match ff_map c !! k with
  | Some (epoch, _) => mk_fifo (ff_order c ∖ {[ (epoch, k) ]}) (delete k (ff_map c)) (ff_cap c) (ff_next_epoch c)
  | None => c
  end.

(** Source: src/media-core/src/cas.rs:536-537 (ChunkStore::clear, manifest cache) *)
Definition fifo_clear c : FifoCache V := mk_fifo ∅ ∅ (ff_cap c) (ff_next_epoch c).

(** ** What it is for *)

Inductive cache_op :=
| CGet (k : str)
| CPut (k : str) (v : V)
| CInvalidate (k : str)
| CClear.

Definition fifo_step c (o : cache_op) : FifoCache V * option V :=
  match o with
  | CGet k => fifo_get c k
  | CPut k v => (fifo_put c k v, None)
  | CInvalidate k => (fifo_invalidate c k, None)
  | CClear => (fifo_clear c, None)
  end.

(** Entries from the least to the most recently used. *)
Definition lru_find (l : list (str * V)) k : option V := snd <$> (snd <$> list_find (λ x, x.1 = k) l).
Definition lru_without (l : list (str * V)) k : list (str * V) := filter (λ x, x.1 ≠ k) l.

Definition lru_step (cap : Z) (l : list (str * V)) (o : cache_op) : list (str * V) * option V :=
  match o with
  | CGet k => match lru_find l k with Some v => (lru_without l k ++ [(k, v)], Some v) | None => (l, None) end
  | CPut k v =>
      match lru_find l k with
      | Some _ => (lru_without l k ++ [(k, v)], None)
      | None => ((if (0 <? cap)%Z && (cap <=? zlen l)%Z then tail l else l) ++ [(k, v)], None)
      end
  | CInvalidate k => (lru_without l k, None)
  | CClear => ([], None)
  end.

Fixpoint answers {St} (step : St → cache_op → St * option V) (s : St) (os : list cache_op) : St * list (option V) :=
  match os with
  | [] => (s, [])
  | o :: os => let '(s, a) := step s o in let '(s, r) := answers step s os in (s, a :: r)
  end.
End cache.
Arguments cache_op V : clear implicits.

(** ** Refinement *)

Section refine.
Context {V : Type}.
Implicit Types (c : FifoCache V) (t : list (Z * (str * V))).

(** The cache holds these entries, listed by epoch. *)
Record tracks c t : Prop := {
  tr_sorted : StronglySorted Z.lt t.*1;
  tr_max : Forall (λ e, e ≤ ff_next_epoch c)%Z t.*1;
  tr_keys : NoDup t.*2.*1;
  tr_map k e v : ff_map c !! k = Some (e, v) ↔ (e, (k, v)) ∈ t;
  tr_order e k : (e, k) ∈ ff_order c ↔ ∃ v, (e, (k, v)) ∈ t
}.

Definition drop_key (k : str) t : list (Z * (str * V)) := filter (λ x, x.2.1 ≠ k) t.

Lemma sublist_map {A B} (f : A → B) (l l' : list A) : sublist l l' → sublist (f <$> l) (f <$> l').
Proof. induction 1; simpl; by constructor. Qed.

Lemma filter_all {A} (P : A → Prop) `{∀ x, Decision (P x)} (l : list A) : Forall P l → filter P l = l.
Proof. induction 1; [done|]. rewrite filter_cons_True by done. by f_equal. Qed.

Lemma drop_key_sub k t : sublist (drop_key k t) t.
Proof. apply sublist_filter. Qed.

Lemma drop_key_snd k t : (drop_key k t).*2 = lru_without t.*2 k.
Proof.
  unfold drop_key, lru_without. induction t as [|[e [k' v]] t IH]; [done|]. rewrite fmap_cons.
  destruct (decide (k' = k)) as [Hk|Hk].
  - do 2 (rewrite filter_cons_False by (simpl; tauto)). exact IH.
  - do 2 (rewrite filter_cons_True by done). rewrite fmap_cons. by f_equal.
Qed.

Lemma in_drop_key e k' v k t : (e, (k', v)) ∈ drop_key k t ↔ k' ≠ k ∧ (e, (k', v)) ∈ t.
Proof. unfold drop_key. by rewrite list_elem_of_filter. Qed.

Lemma ssorted_sub (l l' : list Z) : sublist l l' → StronglySorted Z.lt l' → StronglySorted Z.lt l.
Proof.
  induction 1 as [|x l l' Hs IH|x l l' Hs IH]; intros Ht; [done| |]; apply StronglySorted_inv in Ht as [Ht Hx]; auto.
  constructor; [auto|]. rewrite Forall_forall in Hx |- *. intros y Hy. apply Hx.
  by eapply sublist_subseteq.
Qed.

Lemma tracks_entry c t k e e' v v' : tracks c t → (e, (k, v)) ∈ t → (e', (k, v')) ∈ t → e = e' ∧ v = v'.
Proof. intros Ht H1 H2. apply (tr_map _ _ Ht) in H1, H2. rewrite H1 in H2. by simplify_eq. Qed.

Lemma tracks_find c t k : tracks c t → lru_find t.*2 k = snd <$> ff_map c !! k.
Proof.
  intros Ht. unfold lru_find. destruct (list_find _ t.*2) as [[i [k' v]]|] eqn:Hf.
  - apply list_find_Some in Hf as (Hi & Hk & _). simpl in *. subst k'.
    apply list_elem_of_lookup_2, list_elem_of_fmap in Hi as ([e [k' v']] & [= <- <-] & Hin).
    apply (tr_map _ _ Ht) in Hin. by rewrite Hin.
  - apply list_find_None in Hf. destruct (ff_map c !! k) as [[e v]|] eqn:Hm; [|done].
    apply (tr_map _ _ Ht) in Hm. rewrite Forall_forall in Hf.
    destruct (Hf (k, v)); [|done]. apply list_elem_of_fmap. by exists (e, (k, v)).
Qed.

Lemma tracks_remove c t k e v :
  tracks c t → ff_map c !! k = Some (e, v) →
  tracks (mk_fifo (ff_order c ∖ {[ (e, k) ]}) (delete k (ff_map c)) (ff_cap c) (ff_next_epoch c)) (drop_key k t).
Proof.
  intros Ht Hk. pose proof (drop_key_sub k t) as Hsub. assert (Hin := proj1 (tr_map _ _ Ht _ _ _) Hk). split; simpl.
  - eapply ssorted_sub; [by apply sublist_map|apply Ht].
  - pose proof (tr_max _ _ Ht) as Hm. rewrite Forall_forall in Hm |- *. intros x Hx. apply Hm.
    eapply sublist_subseteq; [by apply sublist_map|done].
  - eapply sublist_NoDup; [apply Ht|by do 2 apply sublist_map].
  - intros k' e' v'. rewrite in_drop_key, lookup_delete_Some, (tr_map _ _ Ht). naive_solver.
  - intros e' k'. rewrite elem_of_difference, elem_of_singleton, (tr_order _ _ Ht). setoid_rewrite in_drop_key. split.
    + intros [[v' Hv'] Hne]. exists v'. split; [|done]. intros ->.
      by destruct (tracks_entry _ _ _ _ _ _ _ Ht Hin Hv') as [-> _].
    + intros (v' & Hne & Hv'). split; [by exists v'|]. naive_solver.
Qed.

Lemma tracks_add c t k v :
  tracks c t → ff_map c !! k = None →
  tracks (mk_fifo ({[ (ff_next_epoch c + 1, k)%Z ]} ∪ ff_order c) (<[k := ((ff_next_epoch c + 1)%Z, v)]> (ff_map c))
            (ff_cap c) (ff_next_epoch c + 1)) (t ++ [((ff_next_epoch c + 1)%Z, (k, v))]).
Proof.
  intros Ht Hk. assert (Hno : ∀ e v', (e, (k, v')) ∉ t).
  { intros e v' Hin. apply (tr_map _ _ Ht) in Hin. by rewrite Hk in Hin. }
  pose proof (tr_max _ _ Ht) as Hm. split; simpl.
  - rewrite fmap_app. apply StronglySorted_app_2; [|apply Ht|repeat constructor].
    intros x y Hx ->%list_elem_of_singleton. rewrite Forall_forall in Hm. apply Hm in Hx. simpl. lia.
  - rewrite fmap_app. apply Forall_app. split; [|repeat constructor; simpl; lia].
    eapply Forall_impl; [exact Hm|]. simpl. lia.
  - rewrite !fmap_app. apply NoDup_app. split; [apply Ht|]. split; [|repeat constructor; set_solver].
    intros x Hx Hy. apply list_elem_of_singleton in Hy as ->.
    apply list_elem_of_fmap in Hx as ([k' v'] & Hk' & Hx). simpl in Hk'. subst k'.
    apply list_elem_of_fmap in Hx as ([e [k' v2]] & [= <- <-] & Hx). by apply Hno in Hx.
  - intros k' e' v'. rewrite elem_of_app, list_elem_of_singleton, lookup_insert_Some, (tr_map _ _ Ht).
    split; [naive_solver|]. intros [Hin|[= -> -> ->]]; [|by left]. right. split; [|done].
    intros <-. by apply Hno in Hin.
  - intros e' k'. rewrite elem_of_union, elem_of_singleton, (tr_order _ _ Ht).
    setoid_rewrite elem_of_app. setoid_rewrite list_elem_of_singleton. naive_solver.
Qed.

Lemma tracks_touch c t k e v v' :
  tracks c t → ff_map c !! k = Some (e, v) →
  tracks (mk_fifo ({[ (ff_next_epoch c + 1, k)%Z ]} ∪ ff_order c ∖ {[ (e, k) ]})
            (<[k := ((ff_next_epoch c + 1)%Z, v')]> (ff_map c)) (ff_cap c) (ff_next_epoch c + 1))
    (drop_key k t ++ [((ff_next_epoch c + 1)%Z, (k, v'))]).
Proof.
  intros Ht Hk. apply (tracks_remove _ _ _ _ _ Ht) in Hk as Hr.
  apply (tracks_add _ _ k v') in Hr; [|by apply lookup_delete_eq]. simpl in Hr. by rewrite insert_delete_eq in Hr.
Qed.

Lemma tracks_size c t : tracks c t → size (ff_map c) = length t.
Proof.
  intros Ht. rewrite <- size_dom. replace (dom (ff_map c)) with (list_to_set t.*2.*1 : gset str).
  - rewrite size_list_to_set by apply Ht. by rewrite !length_fmap.
  - apply set_eq. intros k. rewrite elem_of_list_to_set, elem_of_dom. split.
    + intros ([k' v] & -> & ([e kv] & Hkv & Hin)%list_elem_of_fmap)%list_elem_of_fmap. simpl in Hkv. subst kv.
      apply (tr_map _ _ Ht) in Hin. by eexists.
    + intros [[e v] Hk]. apply (tr_map _ _ Ht) in Hk. apply list_elem_of_fmap. exists (k, v). split; [done|].
      apply list_elem_of_fmap. by eexists (e, (k, v)).
Qed.

(** The first pair of the order is the least recently used entry. *)
Lemma tracks_first c e k v t : tracks c ((e, (k, v)) :: t) → pop_first (ff_order c) = Some (e, k).
Proof.
  intros Ht. unfold pop_first. set (l := merge_sort pair_le (elements (ff_order c))).
  assert (Hp : ∀ x, x ∈ l ↔ x ∈ ff_order c) by (intros x; unfold l; rewrite merge_sort_Permutation; apply elem_of_elements).
  assert (Hin : (e, k) ∈ l) by (apply Hp, (tr_order _ _ Ht); exists v; by left).
  pose proof (StronglySorted_merge_sort pair_le (elements (ff_order c))) as Hs. fold l in Hs.
  destruct l as [|[e' k'] l]; [by apply not_elem_of_nil in Hin|]. simpl. f_equal.
  apply StronglySorted_inv in Hs as [_ Hs]. apply elem_of_cons in Hin as [Hin|Hin]; [done|].
  rewrite Forall_forall in Hs. apply Hs in Hin. assert (Hx : (e', k') ∈ ff_order c) by (apply Hp; by left).
  apply (tr_order _ _ Ht) in Hx as [v' Hx]. apply elem_of_cons in Hx as [[= -> -> ->]|Hx]; [done|].
  pose proof (tr_sorted _ _ Ht) as Hst. apply StronglySorted_inv in Hst as [_ Hst]. rewrite Forall_forall in Hst.
  assert (e < e')%Z by (apply Hst, list_elem_of_fmap; by exists (e', (k', v'))).
  unfold pair_le in Hin. simpl in Hin. lia.
Qed.

Lemma tracks_head c e k v t : tracks c ((e, (k, v)) :: t) → drop_key k ((e, (k, v)) :: t) = t.
Proof.
  intros Ht. pose proof (tr_keys _ _ Ht) as Hn. simpl in Hn. apply NoDup_cons in Hn as [Hk _].
  unfold drop_key. rewrite filter_cons_False by naive_solver. apply filter_all.
  apply Forall_forall. intros [e' [k' v']] Hin. simpl. intros ->. apply Hk.
  apply list_elem_of_fmap. exists (k, v'). split; [done|]. apply list_elem_of_fmap. by eexists (e', (k, v')).
Qed.

Lemma tracks_new cap : tracks (fifo_new cap) [].
Proof.
  split; try (by constructor); simpl.
  - intros k e v. rewrite lookup_empty. set_solver.
  - intros e k. set_solver.
Qed.

Lemma tracks_clear c t : tracks c t → tracks (fifo_clear c) [].
Proof.
  split; try (by constructor); simpl.
  - intros k e v. rewrite lookup_empty. set_solver.
  - intros e k. set_solver.
Qed.

Lemma tracks_evict c t :
  tracks c t → ∃ t', t'.*2 = tail t.*2 ∧
    match pop_first (ff_order c) with
    | Some oldest => tracks (mk_fifo (ff_order c ∖ {[ oldest ]}) (delete oldest.2 (ff_map c)) (ff_cap c) (ff_next_epoch c)) t'
    | None => tracks c t'
    end.
Proof.
  intros Ht. destruct t as [|[e [k v]] t].
  - exists []. split; [done|]. destruct (pop_first _) as [[e k]|] eqn:Hp; [|done].
    assert (Hin : (e, k) ∈ ff_order c).
    { unfold pop_first in Hp. apply head_Some_elem_of in Hp. rewrite merge_sort_Permutation in Hp.
      by apply elem_of_elements. }
    apply (tr_order _ _ Ht) in Hin as [v Hin]. by apply not_elem_of_nil in Hin.
  - exists t. split; [done|]. rewrite (tracks_first _ _ _ _ _ Ht). simpl.
    apply (tracks_remove _ _ k e v) in Ht as Hr; [|by apply (tr_map _ _ Ht); left].
    by rewrite (tracks_head _ _ _ _ _ Ht) in Hr.
Qed.

Lemma tracks_put_new c t k v :
  tracks c t → ff_map c !! k = None → ∃ t', tracks (fifo_put c k v) t' ∧ ff_cap (fifo_put c k v) = ff_cap c ∧
    t'.*2 = (lru_step (ff_cap c) t.*2 (CPut k v)).1.
Proof.
  intros Ht Hk. unfold fifo_put. rewrite Hk. cbn [lru_step]. rewrite (tracks_find _ _ _ Ht), Hk. simpl.
  rewrite (tracks_size _ _ Ht), length_fmap.
  destruct ((0 <? ff_cap c)%Z && (ff_cap c <=? zlen t)%Z).
  - destruct (tracks_evict _ _ Ht) as (t' & Htl & Hev). destruct (pop_first _) as [[e0 k0]|].
    + eexists. split; [apply (tracks_add _ _ _ _ Hev)|]; simpl.
      * apply lookup_delete_None. by right.
      * split; [done|]. rewrite fmap_app. by rewrite Htl.
    + eexists. split; [by apply tracks_add|]. split; [done|]. rewrite fmap_app. by rewrite Htl.
  - eexists. split; [by apply tracks_add|]. split; [done|]. by rewrite fmap_app.
Qed.

(** One operation on both sides. *)
Lemma fifo_step_refines c t o :
  tracks c t → ∃ t', tracks (fifo_step c o).1 t' ∧ ff_cap (fifo_step c o).1 = ff_cap c ∧
    lru_step (ff_cap c) t.*2 o = (t'.*2, (fifo_step c o).2).
Proof.
  intros Ht. destruct o as [k|k v|k|].
  - cbn [fifo_step lru_step]. rewrite (tracks_find _ _ _ Ht). unfold fifo_get.
    destruct (ff_map c !! k) as [[e v]|] eqn:Hk; [|by exists t]. eexists. split; [by eapply tracks_touch|].
    split; [done|]. rewrite fmap_app. by rewrite drop_key_snd.
  - destruct (ff_map c !! k) as [[e v0]|] eqn:Hk.
    + cbn [fifo_step lru_step]. rewrite (tracks_find _ _ _ Ht). unfold fifo_put. rewrite Hk.
      eexists. split; [by eapply tracks_touch|]. split; [done|]. rewrite fmap_app. by rewrite drop_key_snd.
    + destruct (tracks_put_new _ _ _ v Ht Hk) as (t' & Ht' & Hc & Hl). exists t'. split; [done|]. split; [done|].
      rewrite Hl. cbn [fifo_step lru_step]. by destruct (lru_find _ _).
  - cbn [fifo_step lru_step]. unfold fifo_invalidate. destruct (ff_map c !! k) as [[e v]|] eqn:Hk.
    + eexists. split; [by eapply tracks_remove|]. split; [done|]. by rewrite drop_key_snd.
    + exists t. split; [done|]. split; [done|]. f_equal. apply filter_all.
      pose proof (tracks_find _ _ k Ht) as Hf. rewrite Hk in Hf. unfold lru_find in Hf.
      destruct (list_find _ _) as [[i x]|] eqn:Hl; [done|]. by apply list_find_None in Hl.
  - exists []. split; [by eapply tracks_clear|]. done.
Qed.

Lemma lru_step_bounded (cap : Z) (l : list (str * V)) o :
  (0 < cap → zlen l ≤ cap → zlen (lru_step cap l o).1 ≤ cap)%Z.
Proof.
  intros Hc Hl. assert (Hw : ∀ k v, lru_find l k = Some v → (zlen (lru_without l k) < zlen l)%Z).
  { intros k v Hf. unfold lru_find in Hf. destruct (list_find _ l) as [[i x]|] eqn:E; [|done].
    apply list_find_Some in E as (Hi & Hx & _). apply Nat2Z.inj_lt.
    apply length_filter_lt with x; [by eapply list_elem_of_lookup_2|]. naive_solver. }
  destruct o as [k|k v|k|]; simpl.
  - destruct (lru_find l k) as [v|] eqn:Hf; simpl; [|done]. specialize (Hw _ _ Hf). rewrite length_app. simpl. lia.
  - destruct (lru_find l k) as [v0|] eqn:Hf; simpl; rewrite length_app; simpl; [specialize (Hw _ _ Hf); lia|].
    destruct (Z.leb_spec cap (zlen l)); destruct (Z.ltb_spec 0 cap); simpl; try lia.
    destruct l; simpl in *; lia.
  - pose proof (length_filter (λ x : str * V, x.1 ≠ k) l) as Hle. unfold lru_without. lia.
  - lia.
Qed.

(** A property of all entries survives lookups, and insertions that have it. *)
Definition entries_all (P : str → V → Prop) c : Prop := ∀ k e v, ff_map c !! k = Some (e, v) → P k v.

Lemma entries_get P c k : entries_all P c → entries_all P (fifo_get c k).1 ∧ ∀ v, (fifo_get c k).2 = Some v → P k v.
Proof.
  intros HP. unfold fifo_get. destruct (ff_map c !! k) as [[e v]|] eqn:Hk; [|done]. apply HP in Hk as Hv. split.
  - intros k' e' v'. simpl. intros [(<- & [= <- <-])|[_ ?]]%lookup_insert_Some; [done|by eapply HP].
  - by intros v' [= <-].
Qed.

Lemma entries_put P c k v : entries_all P c → P k v → entries_all P (fifo_put c k v).
Proof.
  intros HP Hv. unfold fifo_put. intros k' e' v'. destruct (ff_map c !! k) as [[e v0]|] eqn:Hk.
  - simpl. intros [(<- & [= <- <-])|[_ ?]]%lookup_insert_Some; [done|by eapply HP].
  - match goal with |- context [match ?x with (_, _) => _ end] => destruct x as [order map] eqn:E end. assert (Hm : map ⊆ ff_map c).
    { destruct (_ && _); [destruct (pop_first _)|]; injection E as <- <-; try done. apply delete_subseteq. }
    simpl. intros [(<- & [= <- <-])|[_ Hl]]%lookup_insert_Some; [done|]. eapply HP. by eapply lookup_weaken.
Qed.

(** What was put in is there. *)
Lemma fifo_put_lookup c k v : ∃ e, ff_map (fifo_put c k v) !! k = Some (e, v).
Proof.
  unfold fifo_put. destruct (ff_map c !! k) as [[e v0]|]; [eexists; apply lookup_insert_eq|].
  match goal with |- context [match ?x with (_, _) => _ end] => destruct x as [order map] end. eexists. apply lookup_insert_eq.
Qed.

(** C39: the cache answers every sequence of lookups, insertions, invalidations
    and clearings as the list of its entries in order of use, which the least
    recently used entry leaves when it is full; it never holds more than its
    capacity. *)
Theorem fifo_refines_lru (cap : Z) (os : list (cache_op V)) :
  let '(c, answered) := answers fifo_step (fifo_new cap) os in
  let '(l, expected) := answers (lru_step cap) [] os in
  answered = expected ∧ size (ff_map c) = length l ∧ (0 < cap → zsize (ff_map c) ≤ cap)%Z.
Proof.
  assert (Hrun : ∀ c t, tracks c t → ff_cap c = cap → (0 < cap → zlen t.*2 ≤ cap)%Z →
    let '(c', r) := answers fifo_step c os in let '(l, r') := answers (lru_step cap) t.*2 os in
    r = r' ∧ size (ff_map c') = length l ∧ (0 < cap → zsize (ff_map c') ≤ cap)%Z).
  { induction os as [|o os IH]; intros c t Ht Hc Hl; cbn [answers].
    - rewrite length_fmap in *. rewrite (tracks_size _ _ Ht). done.
    - destruct (fifo_step_refines c t o Ht) as (t' & Ht' & Hc' & Hst). rewrite Hc in Hst, Hc'.
      pose proof (lru_step_bounded cap t.*2 o) as Hb. rewrite Hst in Hb |- *.
      destruct (fifo_step c o) as [c1 a]. simpl in *.
      specialize (IH c1 t' Ht' Hc'). destruct (answers fifo_step c1 os) as [c2 r].
      destruct (answers _ t'.*2 os) as [l r']. destruct IH as (-> & ? & ?); [auto|done]. }
  apply (Hrun (fifo_new cap) []); [apply tracks_new|done|]. simpl. lia.
Qed.
End refine.
