(* ===== verification/Cas.v ===== *)
(** The content-addressed chunk store: src/media-core/src/chunking.rs and
    src/media-core/src/cas.rs. The disk is names for files, and files have
    numbers: a mapping of a file is its number, so it shows what is written
    into the file later and outlives its name. A write goes to a temporary name
    and is renamed, so it either happens or not (the argument [io]), and makes
    a new file. A file that shrinks while it is mapped is left out. Reads of
    several chunks are modelled in manifest order; the code runs them in
    parallel from four chunks on, with the same bytes. *)

From S2P Require Import Prelude RustStr Sql Lru.

(** ** Manifests *)

(** Source: src/media-core/src/chunking.rs:16-16 (MIN_CHUNK) *)
Definition MIN_CHUNK : Z := 64 * 1024.
(** Source: src/media-core/src/chunking.rs:18-18 (AVG_CHUNK) *)
Definition AVG_CHUNK : Z := 256 * 1024.
(** Source: src/media-core/src/chunking.rs:20-20 (MAX_CHUNK) *)
Definition MAX_CHUNK : Z := 1024 * 1024.

(** Source: src/media-core/src/chunking.rs:24-28 (ChunkingParams) *)
Record ChunkingParams := mk_params { cp_min : Z; cp_avg : Z; cp_max : Z }.

(** Source: src/media-core/src/chunking.rs:31-37 (ChunkingParams::default) *)
Definition default_params : ChunkingParams := mk_params MIN_CHUNK AVG_CHUNK MAX_CHUNK.

(** Source: src/media-core/src/chunking.rs:42-58 (ChunkingParams::for_mime) *)
Definition for_mime (mime : str) : ChunkingParams :=
  if bool_decide (is_Some (strip_prefix (lit "video/") mime)) then
    mk_params (1024 * 1024) (4 * 1024 * 1024) (16 * 1024 * 1024)
  else if bool_decide (is_Some (strip_prefix (lit "audio/") mime)) then
    mk_params (32 * 1024) (128 * 1024) (512 * 1024)
  else default_params.

(** Source: src/media-core/src/chunking.rs:63-70 (ChunkRef) *)
Record ChunkRef := mk_chunk { ck_blake3 : str; ck_offset : Z; ck_len : Z }.

(** Source: src/media-core/src/chunking.rs:74-81 (ChunkManifest) *)
Record ChunkManifest := mk_manifest { mf_blob_hash : str; mf_total_size : Z; mf_chunks : list ChunkRef }.

(** Source: src/media-core/src/cas.rs:27-29 (is_valid_hash) *)
Definition is_valid_hash (hash : str) : bool := (zlen hash =? 64)%Z && forallb is_ascii_hexdigit hash.

(** The loop over the chunks: the end of the last one.
    Source: src/media-core/src/chunking.rs:91-103 (ChunkManifest::is_valid, loop) *)
Fixpoint tiles_to (total next : Z) (chunks : list ChunkRef) : option Z :=
  match chunks with
  | [] => Some next
  | c :: chunks =>
      if negb (ck_offset c =? next)%Z || (ck_len c =? 0)%Z || negb (is_valid_hash (ck_blake3 c)) then None
      else
        let next := sat_add u64_max (ck_offset c) (ck_len c) in
        if (total <? next)%Z then None else tiles_to total next chunks
  end.

(** Source: src/media-core/src/chunking.rs:87-105 (ChunkManifest::is_valid) *)
Definition is_valid (m : ChunkManifest) : bool :=
  if (mf_total_size m =? 0)%Z then bool_decide (mf_chunks m = [])
  else bool_decide (tiles_to (mf_total_size m) 0 (mf_chunks m) = Some (mf_total_size m)).

(** ** What is drawn from elsewhere *)

(** BLAKE3 in lowercase hex, the content-defined chunker over a reader, the
    JSON of manifests, the order in which a directory lists its entries, and
    which key a hash map shows first. *)
Class ChunkEnv := {
  blake3 : bytes → str;
  Reader : Type;
  stream_cdc : ChunkingParams → Reader → list (may_fail (Z * bytes));
  manifest_to_json : ChunkManifest → bytes;
  manifest_from_json : bytes → option ChunkManifest;
  read_dir {A} : gmap (list str) A → list (list str * A);
  first_key : gmap str (Z * option Z) → option str
}.

(** What the code relies on of them. *)
Class ChunkLaws `{ChunkEnv} : Prop := {
  blake3_valid x : is_valid_hash (blake3 x) = true;
  blake3_lower x : to_ascii_lowercase (blake3 x) = blake3 x;
  manifest_json m : manifest_from_json (manifest_to_json m) = Some m;
  read_dir_perm {A} (d : gmap (list str) A) : read_dir d ≡ₚ map_to_list d;
  first_key_in v k : first_key v = Some k → k ∈ dom v
}.

(** ** State *)

(** A file: its bytes and the time of its last change. *)
Record file := mk_file { fl_data : bytes; fl_mtime : option Z }.

Abbreviation disk := (gmap (list str) file) (only parsing).

(** Source: src/media-core/src/cas.rs:115-117 (ChunkIndex) *)
Definition ChunkIndex : Type := gmap str (list (str * Z)).

(** The names under the root, the files also when they have no name any more,
    and the caches; a mapping is the number of its file.
    Source: src/media-core/src/cas.rs:38-53 (ChunkStore) *)
Record cas := mk_cas {
  cs_names : gmap (list str) nat;
  cs_files : gmap nat file;
  cs_index : option ChunkIndex;
  cs_verified : gmap str (Z * option Z);
  cs_manifests : FifoCache ChunkManifest;
  cs_maps : FifoCache nat
}.

Definition with_names (d : gmap (list str) nat) (s : cas) : cas :=
  mk_cas d (cs_files s) (cs_index s) (cs_verified s) (cs_manifests s) (cs_maps s).
Definition with_files (d : gmap nat file) (s : cas) : cas :=
  mk_cas (cs_names s) d (cs_index s) (cs_verified s) (cs_manifests s) (cs_maps s).
Definition with_index (i : option ChunkIndex) (s : cas) : cas :=
  mk_cas (cs_names s) (cs_files s) i (cs_verified s) (cs_manifests s) (cs_maps s).
Definition with_verified (v : gmap str (Z * option Z)) (s : cas) : cas :=
  mk_cas (cs_names s) (cs_files s) (cs_index s) v (cs_manifests s) (cs_maps s).
Definition with_manifests (c : FifoCache ChunkManifest) (s : cas) : cas :=
  mk_cas (cs_names s) (cs_files s) (cs_index s) (cs_verified s) c (cs_maps s).
Definition with_maps (c : FifoCache nat) (s : cas) : cas :=
  mk_cas (cs_names s) (cs_files s) (cs_index s) (cs_verified s) (cs_manifests s) c.

(** What the names lead to. *)
Definition cs_disk (s : cas) : disk := omap (λ i, cs_files s !! i) (cs_names s).

(** A number that no file has and no name leads to. *)
Definition new_file (s : cas) : nat := S (max_list ((map_to_list (cs_files s)).*1 ++ (map_to_list (cs_names s)).*2)).

(** A new file under the name, in the place of one that was there. *)
Definition write_file (path : list str) (f : file) (s : cas) : cas :=
  let i := new_file s in with_names (<[path := i]> (cs_names s)) (with_files (<[i := f]> (cs_files s)) s).

Definition unlink (path : list str) (s : cas) : cas := with_names (delete path (cs_names s)) s.

(** The bytes that a mapping shows now. *)
Definition mapped (s : cas) (i : nat) : bytes := match cs_files s !! i with Some f => fl_data f | None => [] end.

(** Source: src/media-core/src/cas.rs:158-172 (ChunkStore::new) *)
Definition cas_new (names : gmap (list str) nat) (files : gmap nat file) : cas :=
  mk_cas names files None ∅ (fifo_new 64) (fifo_new 64).

Definition is_ascii_alphanumeric (b : Z) : bool := between 0x30 0x39 b || between 0x41 0x5A b || between 0x61 0x7A b.

(** The components of the path below the root.
    Source: src/media-core/src/cas.rs:202-230 (ChunkStore::chunk_path) *)
Definition chunk_path (hash : str) : list str :=
  if is_valid_hash hash then
    let hash_lower := to_ascii_lowercase hash in
    [take 2 hash_lower; drop 2 hash_lower ++ lit ".chunk"]
  else
    let safe_hash := if (2 <=? zlen hash)%Z then filter (λ c, is_ascii_alphanumeric c = true) hash else lit "invalid" in
    let prefix := if (2 <=? zlen safe_hash)%Z then take 2 safe_hash else lit "00" in
    [lit "invalid"; prefix; safe_hash ++ lit ".chunk"].

(** Source: src/media-core/src/cas.rs:563-577 (ChunkStore::manifest_path) *)
Definition manifest_path (blob_hash : str) : list str :=
  if is_valid_hash blob_hash then [lit "manifests"; blob_hash ++ lit ".json"]
  else [lit "invalid_manifests"; filter (λ c, is_ascii_alphanumeric c = true) blob_hash ++ lit ".json"].

(** [c.offset as usize + c.len] on 64 bits, with overflow checks on. *)
Definition usize_add (a b : Z) : may_fail Z := if (a + b <=? u64_max)%Z then Ok (a + b)%Z else Err Panic.

Section store.
Context `{ChunkEnv}.

(** ** Chunking *)

(** The references of the chunks that were read, with the bytes, up to the
    first error.
    Source: src/media-core/src/chunking.rs:127-138 (chunk_reader_with_data_params, loop) *)
Fixpoint chunk_items (items : list (may_fail (Z * bytes))) : may_fail (list (ChunkRef * bytes)) :=
  match items with
  | [] => Ok []
  | item :: items =>
      '(offset, data) ← map_err (λ _, Fail "FastCDC chunking failed") item;
      rest ← chunk_items items;
      Ok ((mk_chunk (blake3 data) offset (zlen data), data) :: rest)
  end.

(** Source: src/media-core/src/chunking.rs:140-147 (chunk_reader_with_data_params, manifest) *)
Definition manifest_of (chunks : list (ChunkRef * bytes)) : ChunkManifest :=
  mk_manifest (blake3 (concat chunks.*2))
    (match last chunks with Some (c, _) => ck_offset c + ck_len c | None => 0 end)%Z chunks.*1.

(** Source: src/media-core/src/chunking.rs:113-149 (chunk_reader_with_data_params) *)
Definition chunk_reader_with_data_params (reader : Reader) (params : ChunkingParams)
    : may_fail (ChunkManifest * list (ChunkRef * bytes)) :=
  chunks ← chunk_items (stream_cdc params reader);
  Ok (manifest_of chunks, chunks).

(** Source: src/media-core/src/chunking.rs:157-179 (chunk_reader) *)
Definition chunk_reader (reader : Reader) : may_fail ChunkManifest :=
  chunks ← chunk_items (stream_cdc default_params reader);
  Ok (manifest_of chunks).

(** ** Chunks *)

(** Source: src/media-core/src/cas.rs:232-237 (ChunkStore::contains) *)
Definition contains (s : cas) (hash : str) : bool :=
  is_valid_hash hash && bool_decide (is_Some (cs_disk s !! chunk_path hash)).

(** Source: src/media-core/src/cas.rs:317-326 (ChunkStore::mark_verified) *)
Definition mark_verified (hash : str) (size : Z) (mtime : option Z) (s : cas) : cas :=
  let v := cs_verified s in
  let v :=
    if negb (bool_decide (is_Some (v !! hash))) && (256 <=? zsize v)%Z then
      match first_key v with Some first => delete first v | None => v end
    else v in
  with_verified (<[hash := (size, mtime)]> v) s.

(** The mapping of the file of the name, if its bytes have the hash now.
    Source: src/media-core/src/cas.rs:263-296 (ChunkStore::get_mmap) *)
Definition get_mmap (s : cas) (hash : str) : cas * option nat :=
  if negb (is_valid_hash hash) then (s, None)
  else match i ← cs_names s !! chunk_path hash; f ← cs_files s !! i; Some (i, f) with
  | None => (s, None)
  | Some (i, f) =>
      if bool_decide (fl_data f = []) then (s, None)
      else if negb (eq_ignore_ascii_case (blake3 (fl_data f)) hash) then (s, None)
      else (mark_verified hash (zlen (fl_data f)) (fl_mtime f) s, Some i)
  end.

(** Source: src/media-core/src/cas.rs:240-257 (ChunkStore::get) *)
Definition get (s : cas) (hash : str) : cas * option bytes :=
  if negb (is_valid_hash hash) then (s, None)
  else match cs_disk s !! chunk_path hash with
  | None => (s, None)
  | Some f =>
      if bool_decide (fl_data f = []) then (s, if bool_decide (blake3 [] = hash) then Some [] else None)
      else let '(s, m) := get_mmap s hash in (s, mapped s <$> m)
  end.

(** A mapping that is cached is given out as it is.
    Source: src/media-core/src/cas.rs:301-315 (ChunkStore::get_mmap_cached) *)
Definition get_mmap_cached (s : cas) (hash : str) : cas * option nat :=
  if negb (zlen hash =? 64)%Z then (s, None)
  else
    let '(maps, hit) := fifo_get (cs_maps s) hash in
    match hit with
    | Some m => (with_maps maps s, Some m)
    | None =>
        let '(s, m) := get_mmap s hash in
        match m with
        | Some m => (with_maps (fifo_put (cs_maps s) hash m) s, Some m)
        | None => (s, None)
        end
    end.

(** A file that is there is kept.
    Source: src/media-core/src/cas.rs:336-364 (ChunkStore::put_trusted) *)
Definition put_trusted (io : bool) (now : Z) (s : cas) (hash : str) (data : bytes) : cas * bool :=
  if negb (is_valid_hash hash) then (s, false)
  else if bool_decide (is_Some (cs_disk s !! chunk_path hash)) then (s, false)
  else if negb io then (s, false)
  else (write_file (chunk_path hash) (mk_file data (Some now)) s, true).

(** Source: src/media-core/src/cas.rs:330-333 (ChunkStore::put) *)
Definition put (io : bool) (now : Z) (s : cas) (data : bytes) : cas * bool :=
  put_trusted io now s (blake3 data) data.

(** Source: src/media-core/src/cas.rs:367-374 (ChunkStore::put_verified) *)
Definition put_verified (io : bool) (now : Z) (s : cas) (expected : str) (data : bytes) : cas * bool :=
  if negb (zlen expected =? 64)%Z || negb (eq_ignore_ascii_case expected (blake3 data)) then (s, false)
  else put_trusted io now s expected data.

(** The chunks of a blob are stored as they are read; those stored before an
    error stay.
    Source: src/media-core/src/chunking.rs:188-219 (store_reader_with_data) *)
Fixpoint store_items (io : bool) (now : Z) (s : cas) (items : list (may_fail (Z * bytes)))
    : cas * may_fail (list (ChunkRef * bytes)) :=
  match items with
  | [] => (s, Ok [])
  | Err _ :: _ => (s, err "FastCDC chunking failed")
  | Ok (offset, data) :: items =>
      let '(s, _) := put_trusted io now s (blake3 data) data in
      let '(s, rest) := store_items io now s items in
      (s, rest ← rest; Ok ((mk_chunk (blake3 data) offset (zlen data), data) :: rest))
  end.

(** Source: src/media-core/src/cas.rs:390-395 (ChunkStore::store_reader) *)
Definition store_reader (io : bool) (now : Z) (s : cas) (reader : Reader) : cas * may_fail ChunkManifest :=
  let '(s, chunks) := store_items io now s (stream_cdc default_params reader) in
  (s, chunks ← chunks; Ok (manifest_of chunks)).

(** Source: src/media-core/src/cas.rs:406-413 (ChunkStore::write_chunk_to) *)
Definition write_chunk_to (s : cas) (c : ChunkRef) (out : bytes) : cas * may_fail bytes :=
  let '(s, m) := get_mmap_cached s (ck_blake3 c) in
  (s, match m with Some m => Ok (out ++ mapped s m) | None => err "chunk missing" end).

(** ** Manifests and their index *)

(** The names that end in .json and have a stem. *)
Definition is_json (path : list str) : bool :=
  match path with
  | [dir; name] => bool_decide (dir = lit "manifests") && (5 <? zlen name)%Z
      && bool_decide (drop (length name - 5) name = lit ".json")
  | _ => false
  end.

(** Source: src/media-core/src/cas.rs:144-151 (ChunkIndex::ingest) *)
Definition ingest (m : ChunkManifest) (idx : ChunkIndex) : ChunkIndex :=
  foldl (λ idx c, <[ck_blake3 c := default [] (idx !! ck_blake3 c) ++ [(mf_blob_hash m, ck_offset c)]]> idx)
    idx (mf_chunks m).

(** Source: src/media-core/src/cas.rs:120-142 (ChunkIndex::build) *)
Definition build (d : disk) : ChunkIndex :=
  foldl (λ idx f,
    match manifest_from_json (fl_data f.2) with
    | Some m => if is_valid m then ingest m idx else idx
    | None => idx
    end) ∅ (read_dir (filter (λ f, is_json f.1 = true) d)).

(** Source: src/media-core/src/cas.rs:174-191 (ChunkStore::index) *)
Definition index (s : cas) : cas * ChunkIndex :=
  match cs_index s with
  | Some idx => (s, idx)
  | None => let built := build (cs_disk s) in (with_index (Some built) s, built)
  end.

(** Source: src/media-core/src/cas.rs:195-198 (ChunkStore::refresh_index) *)
Definition refresh_index (s : cas) : cas := with_index (Some (build (cs_disk s))) s.

(** Source: src/media-core/src/cas.rs:579-606 (ChunkStore::save_manifest) *)
Definition save_manifest (io : bool) (now : Z) (s : cas) (m : ChunkManifest) : cas * may_fail unit :=
  if negb (is_valid_hash (mf_blob_hash m)) || negb (is_valid m) then (s, err "invalid manifest or blob_hash")
  else
    let s := with_manifests (fifo_invalidate (cs_manifests s) (mf_blob_hash m)) s in
    if negb io then (s, err "manifest write")
    else
      let s := write_file (manifest_path (mf_blob_hash m)) (mk_file (manifest_to_json m) (Some now)) s in
      let idx := match cs_index s with Some idx => idx | None => build (cs_disk s) end in
      (with_index (Some (ingest m idx)) s, Ok ()).

(** Source: src/media-core/src/cas.rs:608-627 (ChunkStore::load_manifest) *)
Definition load_manifest (s : cas) (blob_hash : str) : cas * option ChunkManifest :=
  if negb (is_valid_hash blob_hash) then (s, None)
  else
    let '(cache, hit) := fifo_get (cs_manifests s) blob_hash in
    match hit with
    | Some m => (with_manifests cache s, Some m)
    | None =>
        match cs_disk s !! manifest_path blob_hash with
        | None => (s, None)
        | Some f =>
            match manifest_from_json (fl_data f) with
            | None => (s, None)
            | Some m =>
                if bool_decide (mf_blob_hash m = blob_hash) && is_valid m then
                  (with_manifests (fifo_put (cs_manifests s) blob_hash m) s, Some m)
                else (s, None)
            end
        end
    end.

(** The first candidate that loads.
    Source: src/media-core/src/cas.rs:639-643 (ChunkStore::find_manifest_containing_chunk, loop) *)
Fixpoint first_loaded (s : cas) (candidates : list (str * Z)) : cas * option ChunkManifest :=
  match candidates with
  | [] => (s, None)
  | (blob_hash, _) :: candidates =>
      let '(s, m) := load_manifest s blob_hash in
      match m with Some m => (s, Some m) | None => first_loaded s candidates end
  end.

(** Source: src/media-core/src/cas.rs:633-646 (ChunkStore::find_manifest_containing_chunk) *)
Definition find_manifest_containing_chunk (s : cas) (chunk_hash : str) : cas * option ChunkManifest :=
  if negb (zlen chunk_hash =? 64)%Z then (s, None)
  else let '(s, idx) := index s in first_loaded s (default [] (idx !! chunk_hash)).

(** ** Ranges *)

(** The chunks that overlap the range, up to the first that starts after it.
    Source: src/media-core/src/cas.rs:726-731 (ChunkStore::blob_slice, overlapping) *)
Fixpoint overlapping (offset to : Z) (chunks : list ChunkRef) : may_fail (list ChunkRef) :=
  match chunks with
  | [] => Ok []
  | c :: chunks =>
      if (ck_offset c <? to)%Z then
        c_end ← usize_add (ck_offset c) (ck_len c);
        rest ← overlapping offset to chunks;
        Ok (if (offset <? c_end)%Z then c :: rest else rest)
      else Ok []
  end.

(** Source: src/media-core/src/cas.rs:816-820 (SourceWindow) *)
Record SourceWindow := mk_window { sw_mmap : nat; sw_from : Z; sw_to : Z }.

(** Source: src/media-core/src/cas.rs:745-767 (ChunkStore::blob_slice, resolve) *)
Definition resolve (offset to : Z) (s : cas) (c : ChunkRef) : cas * option SourceWindow :=
  let '(s, m) := get_mmap_cached s (ck_blake3 c) in
  (s, chunk ← m;
      let c_start := ck_offset c in
      let c_end := (c_start + ck_len c)%Z in
      if (c_end <=? offset)%Z || (to <=? c_start)%Z then Some (mk_window chunk 0 0)
      else
        let from := sat_sub offset c_start in
        let upto := Z.min (to - c_start) (zlen (mapped s chunk)) in
        if (upto <? from)%Z then None else Some (mk_window chunk from upto)).

(** Every chunk is resolved, also after one that is missing.
    Source: src/media-core/src/cas.rs:768-772 (ChunkStore::blob_slice, windows) *)
Fixpoint resolve_all (offset to : Z) (s : cas) (chunks : list ChunkRef) : cas * list (option SourceWindow) :=
  match chunks with
  | [] => (s, [])
  | c :: chunks =>
      let '(s, w) := resolve offset to s c in
      let '(s, ws) := resolve_all offset to s chunks in
      (s, w :: ws)
  end.

Definition window_bytes (s : cas) (w : SourceWindow) : bytes :=
  take (Z.to_nat (sw_to w - sw_from w)) (drop (Z.to_nat (sw_from w)) (mapped s (sw_mmap w))).

Definition window_len (w : SourceWindow) : Z := (sw_to w - sw_from w)%Z.

(** Source: src/media-core/src/cas.rs:707-810 (ChunkStore::blob_slice) *)
Definition blob_slice (s : cas) (m : ChunkManifest) (offset len : Z) : cas * may_fail bytes :=
  if negb (is_valid m) || (len =? 0)%Z then (s, err "None")
  else if (u64_max <? offset + len)%Z then (s, err "None")
  else
    let to := (offset + len)%Z in
    if (mf_total_size m <? to)%Z then (s, err "None")
    else match overlapping offset to (mf_chunks m) with
    | Err e => (s, Err e)
    | Ok [] => (s, err "None")
    | Ok chunks =>
        let '(s, windows) := resolve_all offset to s chunks in
        (s, match mapM id windows with
            | None => err "None"
            | Some ws =>
                if negb (foldr Z.add 0 (window_len <$> ws) =? len)%Z then err "None"
                else Ok (concat (window_bytes s <$> ws))
            end)
    end.

(** Source: src/media-core/src/cas.rs:678-681 (ChunkStore::blob_range_mapped, find) *)
Fixpoint enclosing (offset to : Z) (chunks : list ChunkRef) : may_fail (option ChunkRef) :=
  match chunks with
  | [] => Ok None
  | c :: chunks =>
      if (ck_offset c <=? offset)%Z then
        c_end ← usize_add (ck_offset c) (ck_len c);
        if (to <=? c_end)%Z then Ok (Some c) else enclosing offset to chunks
      else enclosing offset to chunks
  end.

(** Source: src/media-core/src/cas.rs:665-694 (ChunkStore::blob_range_mapped) *)
Definition blob_range_mapped (s : cas) (m : ChunkManifest) (offset len : Z) : cas * may_fail SourceWindow :=
  if negb (is_valid m) || (len =? 0)%Z then (s, err "None")
  else if (u64_max <? offset + len)%Z then (s, err "None")
  else
    let to := (offset + len)%Z in
    if (mf_total_size m <? to)%Z then (s, err "None")
    else match enclosing offset to (mf_chunks m) with
    | Err e => (s, Err e)
    | Ok None => (s, err "None")
    | Ok (Some c) =>
        let '(s, mmap) := get_mmap_cached s (ck_blake3 c) in
        (s, mmap ← ok_or (Fail "None") mmap;
            let upto := Z.min (to - ck_offset c) (zlen (mapped s mmap)) in
            let from := (offset - ck_offset c)%Z in
            if (upto <? from)%Z then err "None" else Ok (mk_window mmap from upto))
    end.

(** Chunks that are missing are left out.
    Source: src/media-core/src/cas.rs:829-837 (manifest_bytes) *)
Fixpoint chunk_bytes_of (s : cas) (chunks : list ChunkRef) : cas * bytes :=
  match chunks with
  | [] => (s, [])
  | c :: chunks =>
      let '(s, m) := get_mmap_cached s (ck_blake3 c) in
      let '(s, rest) := chunk_bytes_of s chunks in
      (s, default [] (mapped s <$> m) ++ rest)
  end.

Definition manifest_bytes (s : cas) (m : ChunkManifest) : cas * bytes := chunk_bytes_of s (mf_chunks m).

(** ** Quota *)

(** Files directly under the root or one directory below.
    Source: src/media-core/src/cas.rs:447-480 (ChunkStore::walk_store) *)
Definition walk_store (d : disk) : list (list str * Z * Z) :=
  (λ f : list str * file, (f.1, zlen (fl_data f.2), default 0%Z (fl_mtime f.2))) <$>
    read_dir (filter (λ f : list str * file, length f.1 ≤ 2) d).

Definition total_of (files : list (list str * Z * Z)) : Z := foldr Z.add 0%Z ((λ f, f.1.2) <$> files).

(** Source: src/media-core/src/cas.rs:416-434 (ChunkStore::total_bytes) *)
Definition total_bytes (s : cas) : Z := total_of (walk_store (cs_disk s)).

(** Until the rest fits; a file that cannot be removed is passed over.
    Source: src/media-core/src/cas.rs:510-518 (ChunkStore::enforce_cache_quota, loop) *)
Fixpoint evict {A} (can_remove : list str → bool) (max_bytes remaining reclaimed : Z) (d : gmap (list str) A)
    (files : list (list str * Z * Z)) : gmap (list str) A * Z :=
  match files with
  | [] => (d, reclaimed)
  | (path, size, _) :: files =>
      if (remaining <=? max_bytes)%Z then (d, reclaimed)
      else if can_remove path then
        evict can_remove max_bytes (sat_sub remaining size) (reclaimed + size) (delete path d) files
      else evict can_remove max_bytes remaining reclaimed d files
  end.

(** Source: src/media-core/src/cas.rs:498-524 (ChunkStore::enforce_cache_quota) *)
Definition enforce_cache_quota (can_remove : list str → bool) (s : cas) (max_bytes : Z) : cas * Z :=
  let files := walk_store (cs_disk s) in
  let current := total_of files in
  if (current <=? max_bytes)%Z then (s, 0%Z)
  else
    let files := merge_sort (asc (λ f : list str * Z * Z, f.2)) files in
    let '(d, reclaimed) := evict can_remove max_bytes current 0 (cs_names s) files in
    let s := with_names d s in
    (if (0 <? reclaimed)%Z then refresh_index s else s, reclaimed).

(** The mapped chunks stay cached.
    Source: src/media-core/src/cas.rs:527-539 (ChunkStore::clear) *)
Definition clear (s : cas) : cas :=
  mk_cas ∅ (cs_files s) None ∅ (fifo_clear (cs_manifests s)) (cs_maps s).
End store.
