(* ===== verification/CasLaws.v ===== *)
(** What the chunk store promises: reads return bytes of the hash asked for,
    whatever happened to the disk, as long as no file is written in place while
    it is mapped; a range of a blob is that range or nothing; what was stored
    is read back; and the quota is kept by removing the oldest files. *)

From S2P Require Import Prelude RustStr Sql Lru Cas.

Section laws.
Context `{ChunkLaws}.

(** The bytes have this hash. *)
Definition genuine (hash : str) (data : bytes) : Prop := to_ascii_lowercase hash = blake3 data.

(** No other bytes are known with the hash of these. *)
Definition unique (p : bytes) : Prop := ∀ x, blake3 x = blake3 p → x = p.

Lemma genuine_iff h x : eq_ignore_ascii_case (blake3 x) h = true ↔ genuine h x.
Proof. rewrite eq_ignore_ascii_case_true, blake3_lower. done. Qed.

Lemma genuine_unique h p x : unique p → genuine h p → genuine h x → x = p.
Proof. intros Hu Hp Hx. apply Hu. by rewrite <- Hx. Qed.

Lemma genuine_blake3 p : genuine (blake3 p) p.
Proof. unfold genuine. by rewrite blake3_lower. Qed.

(** ** Names and files *)

(** The names lead to the same files, which have the same bytes. *)
Definition same_disk (s s' : cas) : Prop := cs_names s' = cs_names s ∧ cs_files s' = cs_files s.

Lemma same_disk_trans s1 s2 s3 : same_disk s1 s2 → same_disk s2 s3 → same_disk s1 s3.
Proof. intros [E1 E2] [E3 E4]. split; congruence. Qed.
Lemma same_disk_eq s s' : same_disk s s' → cs_disk s' = cs_disk s.
Proof. intros [E1 E2]. unfold cs_disk. by rewrite E1, E2. Qed.
Lemma same_mapped s s' i : same_disk s s' → mapped s' i = mapped s i.
Proof. intros [_ E]. unfold mapped. by rewrite E. Qed.

Lemma disk_lookup s path f : cs_disk s !! path = Some f ↔ ∃ i, cs_names s !! path = Some i ∧ cs_files s !! i = Some f.
Proof. unfold cs_disk. rewrite lookup_omap_Some. naive_solver. Qed.

Lemma max_list_elem n l : n ∈ l → n ≤ max_list l.
Proof. induction 1; simpl; lia. Qed.

Lemma new_file_free s : cs_files s !! new_file s = None ∧ ∀ path, cs_names s !! path ≠ Some (new_file s).
Proof.
  assert (Hn : ∀ i, i ∈ (map_to_list (cs_files s)).*1 ++ (map_to_list (cs_names s)).*2 → i ≠ new_file s).
  { intros i Hi%max_list_elem ->. unfold new_file in Hi. lia. }
  split.
  - apply eq_None_not_Some. intros [f Hf]. apply (Hn (new_file s)); [|done]. apply elem_of_app. left.
    apply list_elem_of_fmap. exists (new_file s, f). by rewrite elem_of_map_to_list.
  - intros path Hp. apply (Hn (new_file s)); [|done]. apply elem_of_app. right.
    apply list_elem_of_fmap. exists (path, new_file s). by rewrite elem_of_map_to_list.
Qed.

Lemma disk_write path f s : cs_disk (write_file path f s) = <[path := f]> (cs_disk s).
Proof.
  destruct (new_file_free s) as [Hf Hn]. apply map_eq. intros q. apply option_eq. intros g.
  rewrite disk_lookup. unfold write_file. simpl. destruct (decide (path = q)) as [->|Hq].
  - rewrite !lookup_insert_eq. split; [intros (i & [= <-] & Hi); by rewrite lookup_insert_eq in Hi|].
    intros E. exists (new_file s). by rewrite lookup_insert_eq.
  - rewrite !lookup_insert_ne by done. rewrite disk_lookup. split; intros (i & Hi & Hg); exists i; (split; [done|]);
      rewrite lookup_insert_ne in *; try done; intros <-; by apply (Hn q).
Qed.

Lemma disk_unlink path s : cs_disk (unlink path s) = delete path (cs_disk s).
Proof. unfold cs_disk, unlink. simpl. apply omap_delete. Qed.

(** A file that is there is not touched when another is made. *)
Lemma write_file_keeps path f s i g : cs_files s !! i = Some g → cs_files (write_file path f s) !! i = Some g.
Proof.
  intros Hi. unfold write_file. simpl. rewrite lookup_insert_ne; [done|]. intros <-. by rewrite (proj1 (new_file_free s)) in Hi.
Qed.

(** The bytes that this number stands for have the hash. *)
Definition holds (s : cas) (h : str) (i : nat) : Prop := ∃ f, cs_files s !! i = Some f ∧ genuine h (fl_data f).

Lemma holds_mapped s h i : holds s h i → genuine h (mapped s i).
Proof. intros (f & Hf & Hg). unfold mapped. by rewrite Hf. Qed.

(** The mapped chunks have the hash they are kept under. *)
Definition maps_ok (s : cas) : Prop := entries_all (holds s) (cs_maps s).

(** Nothing happened to the mappings or to the files. *)
Definition same_maps (s s' : cas) : Prop := cs_maps s' = cs_maps s ∧ ∀ i f, cs_files s !! i = Some f → cs_files s' !! i = Some f.

#[export] Instance same_maps_preorder : PreOrder same_maps.
Proof. split; [done|]. intros s1 s2 s3 [E1 H1] [E2 H2]. split; [congruence|]. eauto. Qed.

Lemma write_file_maps path f s : same_maps s (write_file path f s).
Proof. split; [done|]. intros i g. apply write_file_keeps. Qed.

Lemma maps_ok_same s s' : same_maps s s' → maps_ok s → maps_ok s'.
Proof. intros [E Hf] Hm h e i. rewrite E. intros (f & Hi & Hg)%Hm. exists f. eauto. Qed.

(** ** Reading a chunk *)

Lemma get_mmap_spec s h :
  same_disk s (get_mmap s h).1 ∧ cs_maps (get_mmap s h).1 = cs_maps s ∧
  ∀ i, (get_mmap s h).2 = Some i → holds s h i.
Proof.
  unfold get_mmap. destruct (is_valid_hash h) eqn:Hh; [|done]. simpl. destruct (_ ≫= _) as [[i f]|] eqn:Hi; [|done].
  apply bind_Some in Hi as (i' & Hn & (f' & Hf & [= -> ->])%bind_Some).
  destruct (bool_decide (fl_data f = [])) eqn:He; [done|].
  destruct (eq_ignore_ascii_case _ _) eqn:Hg; simpl; [|done]. apply genuine_iff in Hg.
  split; [done|]. split; [done|]. intros j [= <-]. by exists f.
Qed.

Lemma get_mmap_cached_same s h : same_disk s (get_mmap_cached s h).1.
Proof.
  unfold get_mmap_cached. destruct (negb _); [done|]. destruct (fifo_get _ _) as [maps [i|]]; [done|].
  destruct (get_mmap_spec s h) as (Hd & _). by destruct (get_mmap s h) as [s1 [i|]].
Qed.

Lemma get_mmap_cached_spec s h :
  maps_ok s →
  maps_ok (get_mmap_cached s h).1 ∧ same_disk s (get_mmap_cached s h).1 ∧
  ∀ i, (get_mmap_cached s h).2 = Some i → genuine h (mapped s i).
Proof.
  intros Hm. unfold get_mmap_cached. destruct (zlen h =? 64)%Z; [|done]. simpl.
  destruct (entries_get (holds s) _ h Hm) as [Hget Hhit]. destruct (fifo_get (cs_maps s) h) as [maps [i|]]; simpl in *.
  - split; [done|]. split; [done|]. intros j [= <-]. by apply holds_mapped, Hhit.
  - destruct (get_mmap_spec s h) as ([En Ef] & Hmap & Hx). destruct (get_mmap s h) as [s1 [i|]]; simpl in *.
    + specialize (Hx i eq_refl). split; [|split; [done|]; intros j [= <-]; by apply holds_mapped].
      unfold maps_ok, holds. cbn [with_maps cs_files cs_maps]. rewrite Ef. apply entries_put; [by rewrite Hmap|done].
    + split; [|done]. unfold maps_ok, holds. by rewrite Hmap, Ef.
Qed.

(** A chunk that nothing else collides with is read back or missed. *)
Lemma get_mmap_cached_piece s h p :
  maps_ok s → unique p → genuine h p → is_valid_hash h = true → p ≠ [] →
  let r := (get_mmap_cached s h).2 in
  (∀ i, r = Some i → mapped s i = p) ∧ ((∃ t, cs_disk s !! chunk_path h = Some (mk_file p t)) → is_Some r).
Proof.
  intros Hm Hu Hg Hv Hp. cbv zeta. destruct (get_mmap_cached_spec s h Hm) as (_ & _ & Hx). split.
  - intros i Hi. apply (genuine_unique h p _ Hu Hg). by apply Hx.
  - intros [t Ht]. clear Hx. unfold get_mmap_cached. unfold is_valid_hash in Hv.
    rewrite (proj1 (andb_prop _ _ Hv)). simpl. fold (is_valid_hash h) in Hv.
    destruct (fifo_get (cs_maps s) h) as [maps [i|]]; simpl; [by eexists|].
    apply disk_lookup in Ht as (i & Hn & Hf). unfold get_mmap. rewrite Hv, Hn. simpl. rewrite Hf. simpl.
    rewrite bool_decide_eq_false_2 by done. rewrite (proj2 (genuine_iff h p) Hg). by eexists.
Qed.

(** ** Manifests that describe a blob *)

(** These references, from [off] on, describe these pieces. *)
Inductive tiled : Z → list ChunkRef → list bytes → Prop :=
| tiled_nil off : tiled off [] []
| tiled_cons off h p cs ps :
    p ≠ [] → is_valid_hash h = true → genuine h p → tiled (off + zlen p) cs ps →
    tiled off (mk_chunk h off (zlen p) :: cs) (p :: ps).

(** The manifest describes the blob, cut into these pieces. *)
Definition describes (m : ChunkManifest) (ps : list bytes) : Prop :=
  tiled 0 (mf_chunks m) ps ∧ mf_total_size m = zlen (concat ps).

Lemma tiled_app_last off cs ps :
  tiled off cs ps → (match last cs with Some c => ck_offset c + ck_len c | None => off end = off + zlen (concat ps))%Z.
Proof.
  induction 1 as [|off h p cs ps Hp Hv Hg Ht IH]; simpl; [lia|]. rewrite length_app.
  destruct cs as [|c cs]; [inversion Ht; subst; simpl; lia|].
  rewrite last_cons_cons. destruct (last (c :: cs)) eqn:El; [lia|]. by apply last_None in El.
Qed.

Lemma tiled_valid off cs ps total :
  tiled off cs ps → (0 ≤ off → off + zlen (concat ps) ≤ total → total ≤ u64_max →
  tiles_to total off cs = Some (off + zlen (concat ps)))%Z.
Proof.
  induction 1 as [off|off h p cs ps Hp Hv Hg Ht IH]; simpl; intros Hnn Hle Hmax; [f_equal; lia|].
  rewrite length_app in *. destruct p as [|b p]; [done|]. rewrite Z.eqb_refl, Hv. cbn [negb orb length].
  rewrite (proj2 (Z.eqb_neq _ _)) by lia. simpl orb. unfold sat_add. cbn [length] in *.
  rewrite Z.min_r by lia. rewrite (proj2 (Z.ltb_ge _ _)) by lia. rewrite IH by lia. f_equal. lia.
Qed.

Lemma describes_valid m ps : describes m ps → (zlen (concat ps) ≤ u64_max)%Z → is_valid m = true.
Proof.
  intros [Ht Htot] Hmax. unfold is_valid. rewrite Htot. destruct (Z.eqb_spec (zlen (concat ps)) 0) as [Hz|Hz].
  - inversion Ht as [|off h p cs ps' Hp Hv Hg Ht' E1 E2]; [by apply bool_decide_eq_true|]. subst ps.
    simpl in Hz. rewrite length_app in Hz. destruct p; [done|]. simpl in Hz. lia.
  - apply bool_decide_eq_true. rewrite (tiled_valid 0 _ ps) by (done || lia). done.
Qed.

(** ** Ranges *)

(** The part of [data], which starts at [off], between [offset] and [to]. *)
Definition range (off offset to : Z) (data : bytes) : bytes :=
  take (Z.to_nat (to - Z.max offset off)) (drop (Z.to_nat (offset - off)) data).

(** Every piece is the file of its reference. *)
Definition stored (d : gmap (list str) file) (cs : list ChunkRef) (ps : list bytes) : Prop :=
  Forall2 (λ c p, ∃ t, d !! chunk_path (ck_blake3 c) = Some (mk_file p t)) cs ps.

Lemma range_split off offset to p q :
  (off < to)%Z →
  range off offset to (p ++ q) =
  take (Z.to_nat (Z.min (to - off) (zlen p) - Z.max 0 (offset - off))) (drop (Z.to_nat (Z.max 0 (offset - off))) p) ++
  range (off + zlen p) offset to q.
Proof.
  intros Hto. unfold range. rewrite drop_app, take_app, length_drop. f_equal.
  - replace (Z.to_nat (Z.max 0 (offset - off))) with (Z.to_nat (offset - off)) by lia.
    destruct (decide (to - off ≤ zlen p)%Z).
    + f_equal. lia.
    + rewrite !take_ge; [done| |]; rewrite length_drop; lia.
  - f_equal; [lia|]. f_equal. lia.
Qed.

Lemma range_after off offset to q : (to ≤ off)%Z → range off offset to q = [].
Proof. intros Hle. unfold range. by replace (Z.to_nat (to - Z.max offset off)) with 0 by lia. Qed.

Lemma range_before off offset to p q :
  (off + zlen p ≤ offset)%Z → range off offset to (p ++ q) = range (off + zlen p) offset to q.
Proof.
  intros Hle. unfold range. rewrite drop_app. rewrite (drop_ge p) by lia. simpl. f_equal; [lia|]. f_equal. lia.
Qed.

Lemma resolve_piece s h p off offset to :
  maps_ok s → unique p → genuine h p → is_valid_hash h = true → p ≠ [] →
  (off < to → offset < off + zlen p → offset ≤ to →
  let '(s', r) := resolve offset to s (mk_chunk h off (zlen p)) in
  maps_ok s' ∧ same_disk s s' ∧
  (∀ w, r = Some w → ∃ i, mapped s i = p ∧ w = mk_window i (Z.max 0 (offset - off)) (Z.min (to - off) (zlen p))) ∧
  ((∃ t, cs_disk s !! chunk_path h = Some (mk_file p t)) → is_Some r))%Z.
Proof.
  intros Hm Hu Hg Hv Hp Hto Hoff Hle. destruct (get_mmap_cached_spec s h Hm) as (Hm' & Hd & _).
  destruct (get_mmap_cached_piece s h p Hm Hu Hg Hv Hp) as [Hr Hs]. unfold resolve. simpl.
  destruct (get_mmap_cached s h) as [s' r]. simpl in *. split; [done|]. split; [done|].
  destruct r as [i|]; simpl; [|split; [done|]; intros Ht; by apply Hs in Ht as [? [=]]].
  specialize (Hr i eq_refl). rewrite (same_mapped _ _ i Hd), Hr. rewrite (proj2 (Z.leb_gt _ _)) by lia. rewrite (proj2 (Z.leb_gt _ _)) by lia.
  simpl. unfold sat_sub. rewrite (proj2 (Z.ltb_ge _ _)) by lia. split; [|by eexists]. intros w [= <-]. by exists i.
Qed.

(** The windows of the chunks that overlap the range make up the range. *)
Lemma resolve_range off cs ps offset to s :
  tiled off cs ps → Forall unique ps → maps_ok s → (off + zlen (concat ps) ≤ u64_max)%Z → (offset ≤ to)%Z →
  ∃ ov, overlapping offset to cs = Ok ov ∧
    (offset < to → off ≤ offset → offset < off + zlen (concat ps) → ov ≠ [])%Z ∧
    let '(s', ws) := resolve_all offset to s ov in
    maps_ok s' ∧ same_disk s s' ∧
    (∀ ws', mapM id ws = Some ws' → concat (window_bytes s' <$> ws') = range off offset to (concat ps) ∧
       foldr Z.add 0%Z (window_len <$> ws') = zlen (range off offset to (concat ps))) ∧
    (stored (cs_disk s) cs ps → is_Some (mapM id ws)).
Proof.
  intros Ht. revert s. induction Ht as [off|off h p cs ps Hp Hv Hg Ht IH]; intros s Hu Hm Hmax Hle.
  { exists []. split; [done|]. split; [simpl; lia|]. simpl. split; [done|]. split; [done|]. split; [|done].
    intros ws [= <-]. unfold range. simpl. by rewrite drop_nil, take_nil. }
  apply Forall_cons in Hu as [Hu Hus]. cbn [overlapping ck_offset ck_len concat] in *. rewrite length_app in Hmax.
  destruct (Z.ltb_spec off to) as [Hto|Hto].
  2: { exists []. split; [done|]. split; [lia|]. simpl. split; [done|]. split; [done|]. split; [|done].
       intros ws [= <-]. by rewrite range_after. }
  unfold usize_add. rewrite (proj2 (Z.leb_le _ _)) by lia. cbn [mbind result_bind].
  destruct (Z.ltb_spec offset (off + zlen p)) as [Ho|Ho].
  - pose proof (resolve_piece s h p off offset to Hm Hu Hg Hv Hp Hto Ho Hle) as Hres.
    destruct (resolve offset to s _) as [s1 w] eqn:Ew. destruct Hres as (Hm1 & Hd1 & Hw & Hst).
    destruct (IH s1 Hus Hm1) as (ov & -> & _ & Hrest); [lia|done|]. eexists. split; [done|]. split; [done|].
    cbn [resolve_all]. rewrite Ew. destruct (resolve_all offset to s1 ov) as [s2 ws].
    destruct Hrest as (Hm2 & Hd2 & Hws & Hsw). split; [done|]. pose proof (same_disk_trans _ _ _ Hd1 Hd2) as Hd. split; [done|]. split.
    + intros ws' Hws'. cbn [mapM] in Hws'. apply bind_Some in Hws' as (w1 & Hw1 & Hws').
      apply bind_Some in Hws' as (ws1 & Hws1 & [= <-]). unfold id in Hw1. apply Hw in Hw1 as (i & Hi & ->).
      destruct (Hws ws1 Hws1) as [Hc Hl].
      rewrite !fmap_cons. cbn [concat foldr]. rewrite Hc, Hl, range_split by done. unfold window_bytes. cbn [sw_mmap sw_from sw_to].
      rewrite (same_mapped _ _ i Hd), Hi. split; [done|].
      rewrite length_app, length_take, length_drop. unfold window_len. simpl. lia.
    + intros Hs. apply Forall2_cons in Hs as [Hh Hs]. simpl in Hh. destruct (Hst Hh) as [w' ->].
      rewrite <- (same_disk_eq _ _ Hd1) in Hs. apply Hsw in Hs as [ws' Hs]. exists (w' :: ws').
      cbn [mapM]. apply bind_Some. eexists. split; [done|]. apply bind_Some. by exists ws'.
  - destruct (IH s Hus Hm) as (ov & -> & Hne & Hrest); [lia|done|]. exists ov. split; [done|]. split.
    + intros. apply Hne; rewrite ?length_app in *; lia.
    + destruct (resolve_all offset to s ov) as [s2 ws]. destruct Hrest as (Hm2 & Hd2 & Hws & Hsw).
      split; [done|]. split; [done|]. split.
      * rewrite range_before by done. done.
      * intros Hs. apply Forall2_cons in Hs as [_ Hs]. by apply Hsw.
Qed.

Lemma range_length offset len (data : bytes) :
  (0 ≤ offset → 0 ≤ len → offset + len ≤ zlen data → zlen (range 0 offset (offset + len) data) = len)%Z.
Proof. intros. unfold range. rewrite length_take, length_drop. lia. Qed.

Lemma range_slice offset len (data : bytes) :
  (0 ≤ offset)%Z → range 0 offset (offset + len) data = take (Z.to_nat len) (drop (Z.to_nat offset) data).
Proof. intros. unfold range. f_equal; [lia|]. f_equal. lia. Qed.

(** The result of a range read of a described blob. *)
Lemma blob_slice_spec s m ps offset len :
  maps_ok s → describes m ps → Forall unique ps → (zlen (concat ps) ≤ u64_max)%Z → (0 ≤ offset)%Z → (0 ≤ len)%Z →
  let data := concat ps in
  let '(s', r) := blob_slice s m offset len in
  maps_ok s' ∧ same_disk s s' ∧
  (r = Ok (take (Z.to_nat len) (drop (Z.to_nat offset) data)) ∧ (0 < len ∧ offset + len ≤ zlen data)%Z ∨ r = err "None") ∧
  (stored (cs_disk s) (mf_chunks m) ps → (0 < len)%Z → (offset + len ≤ zlen data)%Z →
   r = Ok (take (Z.to_nat len) (drop (Z.to_nat offset) data))).
Proof.
  intros Hm Hd Hu Hmax Ho Hl. cbv zeta. unfold blob_slice. rewrite (describes_valid m ps) by done. simpl negb.
  destruct Hd as [Ht Htot]. destruct (Z.eqb_spec len 0) as [->|Hlen]; simpl orb; [(split; [done|]; split; [done|]; split; [by right|lia])|].
  destruct (Z.ltb_spec u64_max (offset + len)); [(split; [done|]; split; [done|]; split; [by right|lia])|]. rewrite Htot.
  destruct (Z.ltb_spec (zlen (concat ps)) (offset + len)); [(split; [done|]; split; [done|]; split; [by right|lia])|].
  destruct (resolve_range 0 _ _ offset (offset + len) s Ht Hu Hm) as (ov & -> & Hne & Hres); [lia|lia|].
  destruct ov as [|c ov]; [exfalso; apply Hne; [lia|lia|lia|done]|].
  destruct (resolve_all _ _ s (c :: ov)) as [s' ws]. destruct Hres as (Hm' & Hd' & Hws & Hst).
  split; [done|]. split; [done|]. destruct (mapM id ws) as [ws'|]; [|split; [by right|]].
  - destruct (Hws ws' eq_refl) as [Hc Hs]. rewrite Hs, range_length by lia. rewrite Z.eqb_refl. simpl.
    rewrite Hc, range_slice by done. split; [left; split; [done|lia]|done].
  - intros Hsd. apply Hst in Hsd as [? [=]].
Qed.

(** *** Ranges inside one chunk *)

Lemma enclosing_none off cs ps offset to :
  tiled off cs ps → (offset < off)%Z → enclosing offset to cs = Ok None.
Proof.
  induction 1 as [|off h p cs ps Hp Hv Hg Ht IH]; intros Ho; [done|]. cbn [enclosing ck_offset].
  rewrite (proj2 (Z.leb_gt _ _)) by lia. apply IH. lia.
Qed.

Lemma enclosing_spec off cs ps offset to :
  tiled off cs ps → (offset < to)%Z → (off + zlen (concat ps) ≤ u64_max)%Z →
  enclosing offset to cs = Ok None ∨
  ∃ h o p, enclosing offset to cs = Ok (Some (mk_chunk h o (zlen p))) ∧
    (o ≤ offset ∧ to ≤ o + zlen p)%Z ∧ p ≠ [] ∧ p ∈ ps ∧ is_valid_hash h = true ∧ genuine h p ∧
    range off offset to (concat ps) = take (Z.to_nat (to - offset)) (drop (Z.to_nat (offset - o)) p).
Proof.
  intros Ht Hto. induction Ht as [off|off h p cs ps Hp Hv Hg Ht IH]; intros Hmax; [by left|].
  cbn [enclosing ck_offset ck_len concat] in *. rewrite length_app in Hmax.
  destruct (Z.leb_spec off offset) as [Ho|Ho]; [|left; apply (enclosing_none _ _ _ _ _ Ht); lia].
  unfold usize_add. rewrite (proj2 (Z.leb_le _ _)) by lia. cbn [mbind result_bind].
  destruct (Z.leb_spec to (off + zlen p)) as [He|He].
  - right. exists h, off, p. split; [done|]. split; [lia|]. split; [done|]. split; [apply list_elem_of_here|]. do 2 (split; [done|]).
    rewrite range_split, range_after, app_nil_r by lia. f_equal; [lia|]. f_equal. lia.
  - destruct (Z.ltb_spec offset (off + zlen p)).
    + left. by apply (enclosing_none _ _ _ _ _ Ht).
    + destruct IH as [->|(h' & o & p' & -> & Hb & Hp' & Hin & Hv' & Hg' & Hr)]; [lia|by left|].
      right. exists h', o, p'. split; [done|]. split; [done|]. split; [done|]. split; [by right|].
      split; [done|]. split; [done|]. by rewrite range_before.
Qed.

Lemma blob_range_mapped_spec s m ps offset len :
  maps_ok s → describes m ps → Forall unique ps → (zlen (concat ps) ≤ u64_max)%Z → (0 ≤ offset)%Z → (0 ≤ len)%Z →
  let '(s', r) := blob_range_mapped s m offset len in
  maps_ok s' ∧ same_disk s s' ∧
  ((∃ w, r = Ok w ∧ window_bytes s' w = take (Z.to_nat len) (drop (Z.to_nat offset) (concat ps)) ∧ window_len w = len)
   ∨ r = err "None").
Proof.
  intros Hm Hd Hu Hmax Ho Hl. unfold blob_range_mapped. rewrite (describes_valid m ps) by done. simpl negb.
  destruct Hd as [Ht Htot]. destruct (Z.eqb_spec len 0) as [->|Hlen]; simpl orb; [by split; [|split; [|right]]|].
  destruct (Z.ltb_spec u64_max (offset + len)); [by split; [|split; [|right]]|].
  destruct (Z.ltb_spec (mf_total_size m) (offset + len)); [by split; [|split; [|right]]|].
  destruct (enclosing_spec 0 _ _ offset (offset + len) Ht) as [->|(h & o & p & -> & Hb & Hp & Hin & Hv & Hg & Hr)];
    [lia|lia|by split; [|split; [|right]]|].
  rewrite Forall_forall in Hu. cbn [ck_blake3 ck_offset].
  destruct (get_mmap_cached_spec s h Hm) as (Hm' & Hd' & _).
  destruct (get_mmap_cached_piece s h p Hm (Hu p Hin) Hg Hv Hp) as [Hx _].
  destruct (get_mmap_cached s h) as [s' [i|]]; simpl in *; (split; [done|]; split; [done|]); [|by right].
  specialize (Hx i eq_refl). left. rewrite (same_mapped _ _ i Hd'), Hx. rewrite (proj2 (Z.ltb_ge _ _)) by lia. eexists. split; [done|].
  split; [|unfold window_len; simpl; lia].
  rewrite <- range_slice, Hr by done. unfold window_bytes. cbn [sw_mmap sw_from sw_to]. rewrite (same_mapped _ _ i Hd'), Hx. f_equal. lia.
Qed.

(** ** Runs *)

(** This file is mapped. *)
Definition is_mapped (s : cas) (i : nat) : Prop := ∃ h e, ff_map (cs_maps s) !! h = Some (e, i).

(** Any call, or any change to the files from outside: a file may appear, be
    replaced or disappear under any name, and a file that is not mapped may be
    written in place. *)
Inductive cas_step : cas → cas → Prop :=
| StepPut io now s h data : cas_step s (put_trusted io now s h data).1
| StepStore io now s reader : cas_step s (store_reader io now s reader).1
| StepGet s h : cas_step s (get s h).1
| StepCached s h : cas_step s (get_mmap_cached s h).1
| StepSlice s m offset len : cas_step s (blob_slice s m offset len).1
| StepMapped s m offset len : cas_step s (blob_range_mapped s m offset len).1
| StepSave io now s m : cas_step s (save_manifest io now s m).1
| StepLoad s h : cas_step s (load_manifest s h).1
| StepFind s h : cas_step s (find_manifest_containing_chunk s h).1
| StepQuota can_remove s max_bytes : cas_step s (enforce_cache_quota can_remove s max_bytes).1
| StepRefresh s : cas_step s (refresh_index s)
| StepClear s : cas_step s (clear s)
| StepReplaced path f s : cas_step s (write_file path f s)
| StepRemoved path s : cas_step s (unlink path s)
| StepWritten i f s : ¬ is_mapped s i → cas_step s (with_files (<[i := f]> (cs_files s)) s).

Definition cas_init (s : cas) : Prop := ∃ names files, s = cas_new names files.

Lemma put_maps io now s h data : same_maps s (put_trusted io now s h data).1.
Proof.
  unfold put_trusted. destruct (negb _); [done|]. destruct (bool_decide _); [done|]. destruct (negb _); [done|].
  apply write_file_maps.
Qed.

Lemma store_items_maps io now items s : same_maps s (store_items io now s items).1.
Proof.
  revert s. induction items as [|[[o data]|] items IH]; intros s; [done| |done]. cbn [store_items].
  pose proof (put_maps io now s (blake3 data) data) as Hp. destruct (put_trusted _ _ _ _ _) as [s1 b].
  specialize (IH s1). destruct (store_items io now s1 items) as [s2 r]. simpl in *. by etrans.
Qed.

Lemma load_maps s h : same_maps s (load_manifest s h).1.
Proof.
  unfold load_manifest. destruct (negb _); [done|]. destruct (fifo_get _ _) as [c [m|]]; [done|].
  destruct (cs_disk s !! _) as [f|]; [|done]. destruct (manifest_from_json _) as [m|]; [|done].
  by destruct (bool_decide _ && _).
Qed.

Lemma first_loaded_maps l s : same_maps s (first_loaded s l).1.
Proof.
  revert s. induction l as [|[h o] l IH]; intros s; [done|]. cbn [first_loaded].
  pose proof (load_maps s h) as Hl. destruct (load_manifest s h) as [s1 [m|]]; simpl in *; [done|]. etrans; [exact Hl|apply IH].
Qed.

Lemma save_maps io now s m : same_maps s (save_manifest io now s m).1.
Proof.
  unfold save_manifest. destruct (_ || _); [done|]. destruct (negb io); [done|].
  apply (write_file_maps _ _ (with_manifests _ s)).
Qed.

Lemma resolve_all_maps offset to cs s : maps_ok s → maps_ok (resolve_all offset to s cs).1.
Proof.
  revert s. induction cs as [|c cs IH]; intros s Hm; [done|]. cbn [resolve_all]. unfold resolve.
  destruct (get_mmap_cached_spec s (ck_blake3 c) Hm) as (Hm1 & _ & _).
  destruct (get_mmap_cached s (ck_blake3 c)) as [s1 r]. specialize (IH s1 Hm1).
  by destruct (resolve_all offset to s1 cs) as [s2 ws].
Qed.

Lemma cas_step_maps s s' : maps_ok s → cas_step s s' → maps_ok s'.
Proof.
  intros Hm Hs. destruct Hs as [io now s h data|io now s reader|s h|s h|s m offset len|s m offset len|io now s m
    |s h|s h|can_remove s max_bytes|s|s|path f s|path s|i f s Hi]; try exact Hm.
  - by eapply maps_ok_same; [apply put_maps|].
  - unfold store_reader. pose proof (store_items_maps io now (stream_cdc default_params reader) s) as E.
    destruct (store_items _ _ _ _) as [s1 r]. by eapply maps_ok_same.
  - unfold get. destruct (negb _); [done|]. destruct (cs_disk s !! _) as [f|]; [|done]. destruct (bool_decide _); [done|].
    destruct (get_mmap_spec s h) as ([_ Ef] & Em & _). destruct (get_mmap s h) as [s1 r]. simpl in *.
    eapply maps_ok_same; [|exact Hm]. split; [done|]. by rewrite Ef.
  - by apply get_mmap_cached_spec.
  - unfold blob_slice. destruct (_ || _); [done|]. destruct (_ <? _)%Z; [done|]. destruct (_ <? _)%Z; [done|].
    destruct (overlapping _ _ _) as [[|c cs]|e]; [done| |done].
    pose proof (resolve_all_maps offset (offset + len) (c :: cs) s Hm). by destruct (resolve_all _ _ _ _).
  - unfold blob_range_mapped. destruct (_ || _); [done|]. destruct (_ <? _)%Z; [done|]. destruct (_ <? _)%Z; [done|].
    destruct (enclosing _ _ _) as [[c|]|e]; [|done|done].
    destruct (get_mmap_cached_spec s (ck_blake3 c) Hm) as (Hm1 & _ & _). by destruct (get_mmap_cached s _).
  - by eapply maps_ok_same; [apply save_maps|].
  - by eapply maps_ok_same; [apply load_maps|].
  - unfold find_manifest_containing_chunk. destruct (negb _); [done|]. unfold index.
    destruct (cs_index s); (eapply maps_ok_same; [apply first_loaded_maps|done]).
  - unfold enforce_cache_quota. destruct (_ <=? _)%Z; [done|]. destruct (evict _ _ _ _ _ _) as [d r].
    by destruct (0 <? r)%Z.
  - eapply maps_ok_same; [apply write_file_maps|exact Hm].
  - intros h e j Hj. destruct (Hm h e j Hj) as (g & Hg & ?). exists g. split; [|done]. simpl. rewrite lookup_insert_ne; [done|].
    intros <-. apply Hi. by exists h, e.
Qed.

Lemma cas_reachable_maps s : reachable cas_init cas_step s → maps_ok s.
Proof.
  apply reachable_invariant; [|intros; by eapply cas_step_maps].
  intros s0 (names & files & ->) k e v. simpl. by rewrite lookup_empty.
Qed.

(** C38: after whatever calls, and whatever files of the store were replaced,
    removed or damaged from outside, as long as no file was written in place
    while it was mapped: a mapped chunk has the hash it was asked for, and a
    range of a blob that the manifest describes is read as these very bytes or
    not at all, by both ways of reading it; neither panics. A chunk that is
    damaged in place under its mapping is served as it is: see
    [warmed_chunk_served]. *)
Theorem ranges_genuine s m ps offset len :
  reachable cas_init cas_step s → describes m ps → Forall unique ps →
  (zlen (concat ps) ≤ u64_max)%Z → (0 ≤ offset)%Z → (0 ≤ len)%Z →
  let wanted := take (Z.to_nat len) (drop (Z.to_nat offset) (concat ps)) in
  (∀ h i, (get_mmap_cached s h).2 = Some i → genuine h (mapped (get_mmap_cached s h).1 i)) ∧
  ((blob_slice s m offset len).2 = Ok wanted ∨ (blob_slice s m offset len).2 = err "None") ∧
  ((∃ w, (blob_range_mapped s m offset len).2 = Ok w ∧ window_bytes (blob_range_mapped s m offset len).1 w = wanted) ∨
   (blob_range_mapped s m offset len).2 = err "None").
Proof.
  intros Hs%cas_reachable_maps Hd Hu Hmax Ho Hl. cbv zeta. split.
  { intros h i Hi. destruct (get_mmap_cached_spec s h Hs) as (_ & Hsd & Hg). rewrite (same_mapped _ _ _ Hsd). by apply Hg. }
  pose proof (blob_slice_spec s m ps offset len Hs Hd Hu Hmax Ho Hl) as Hb. cbv zeta in Hb.
  pose proof (blob_range_mapped_spec s m ps offset len Hs Hd Hu Hmax Ho Hl) as Hr.
  destruct (blob_slice s m offset len) as [s1 r1], (blob_range_mapped s m offset len) as [s2 r2]. simpl in *.
  split; naive_solver.
Qed.

(** ** Storing a blob *)

(** The items that the chunker yields for these pieces. *)
Fixpoint cut_at (off : Z) (ps : list bytes) : list (may_fail (Z * bytes)) :=
  match ps with [] => [] | p :: ps => Ok (off, p) :: cut_at (off + zlen p) ps end.

(** No file stands in the place of a piece with other bytes. *)
Definition slots_free (d : gmap (list str) file) (ps : list bytes) : Prop :=
  ∀ p f, p ∈ ps → d !! chunk_path (blake3 p) = Some f → fl_data f = p.

Lemma chunk_path_inj h h' :
  is_valid_hash h = true → is_valid_hash h' = true → chunk_path h = chunk_path h' →
  to_ascii_lowercase h = to_ascii_lowercase h'.
Proof.
  intros Hh Hh'. unfold chunk_path. rewrite Hh, Hh'. intros [= E1 E2]. apply app_inv_tail in E2.
  rewrite <- (take_drop 2 (to_ascii_lowercase h)), E1, E2. apply take_drop.
Qed.

Lemma blake3_path p q : chunk_path (blake3 p) = chunk_path (blake3 q) → blake3 p = blake3 q.
Proof. intros E%chunk_path_inj; [|apply blake3_valid..]. by rewrite !blake3_lower in E. Qed.

Definition tile_of (off : Z) (p : bytes) : ChunkRef * bytes := (mk_chunk (blake3 p) off (zlen p), p).

Fixpoint tiles_of (off : Z) (ps : list bytes) : list (ChunkRef * bytes) :=
  match ps with [] => [] | p :: ps => tile_of off p :: tiles_of (off + zlen p) ps end.

Lemma tiles_of_snd ps : ∀ off, (tiles_of off ps).*2 = ps.
Proof. induction ps as [|p ps IH]; intros off; [done|]. simpl. by rewrite IH. Qed.

Lemma tiles_of_tiled ps : ∀ off, Forall (λ p, p ≠ []) ps → tiled off (tiles_of off ps).*1 ps.
Proof.
  induction ps as [|p ps IH]; intros off; [constructor|]. intros [Hp Hps]%Forall_cons. simpl.
  constructor; [done|apply blake3_valid|apply genuine_blake3|]. by apply IH.
Qed.

Lemma chunk_items_cut ps : ∀ off, chunk_items (cut_at off ps) = Ok (tiles_of off ps).
Proof. induction ps as [|p ps IH]; intros off; [done|]. cbn [cut_at chunk_items]. simpl. by rewrite IH. Qed.

Lemma manifest_of_describes ps : Forall (λ p, p ≠ []) ps → describes (manifest_of (tiles_of 0 ps)) ps.
Proof.
  intros Hp. pose proof (tiles_of_tiled ps 0 Hp) as Ht. split; [exact Ht|]. simpl.
  pose proof (tiled_app_last _ _ _ Ht) as Hl. rewrite fmap_last in Hl. rewrite <- (Z.add_0_l (zlen (concat ps))), <- Hl.
  by destruct (last (tiles_of 0 ps)) as [[c p]|].
Qed.

(** What is in a slot stays in it. *)
Lemma put_keeps now s h data path f :
  cs_disk s !! path = Some f → cs_disk (put_trusted true now s h data).1 !! path = Some f.
Proof.
  intros Hp. unfold put_trusted. destruct (negb (is_valid_hash h)); [done|]. destruct (bool_decide _) eqn:Hb; [done|].
  apply bool_decide_eq_false in Hb. simpl. rewrite disk_write, lookup_insert_ne; [done|]. intros E. apply Hb. by rewrite E, Hp.
Qed.

Lemma put_slot now s p :
  (∀ f, cs_disk s !! chunk_path (blake3 p) = Some f → fl_data f = p) →
  ∃ t, cs_disk (put_trusted true now s (blake3 p) p).1 !! chunk_path (blake3 p) = Some (mk_file p t).
Proof.
  intros Hf. unfold put_trusted. rewrite blake3_valid. simpl.
  destruct (bool_decide _) eqn:Hb; [|eexists; simpl; rewrite disk_write; apply lookup_insert_eq].
  apply bool_decide_eq_true in Hb as [f Hb]. destruct f as [x t]. apply Hf in Hb as Hx. simpl in *. subst x. eauto.
Qed.

Lemma put_free now s p ps :
  Forall unique ps → slots_free (cs_disk s) ps → slots_free (cs_disk (put_trusted true now s (blake3 p) p).1) ps.
Proof.
  intros Hu Hf q f Hq. unfold put_trusted. rewrite blake3_valid. simpl. destruct (bool_decide _); [by apply Hf|].
  simpl. rewrite disk_write. intros [(E & <-)|[_ Hl]]%lookup_insert_Some; [|by eapply Hf]. apply blake3_path in E.
  rewrite Forall_forall in Hu. by apply (Hu q Hq).
Qed.

Lemma store_items_spec now ps : ∀ off s,
  Forall unique ps → slots_free (cs_disk s) ps →
  let '(s', r) := store_items true now s (cut_at off ps) in
  r = Ok (tiles_of off ps) ∧ (∀ path f, cs_disk s !! path = Some f → cs_disk s' !! path = Some f) ∧
  stored (cs_disk s') (tiles_of off ps).*1 ps.
Proof.
  induction ps as [|p ps IH]; intros off s Hu Hf; [by repeat constructor|]. cbn [cut_at store_items].
  pose proof Hu as Hu'. apply Forall_cons in Hu' as [Hup Hus].
  pose proof (put_keeps now s (blake3 p) p) as Hk.
  destruct (put_slot now s p) as [t Ht]; [intros f; apply Hf; apply list_elem_of_here|].
  pose proof (put_free now s p (p :: ps) Hu Hf) as Hf1. destruct (put_trusted true now s (blake3 p) p) as [s1 b]. simpl in *.
  specialize (IH (off + zlen p)%Z s1 Hus). destruct (store_items true now s1 _) as [s2 r].
  destruct IH as (-> & Hk2 & Hst); [intros q f Hq; apply Hf1; by right|]. split; [done|]. split; [by eauto|].
  constructor; [|done]. simpl. eauto.
Qed.

(** A blob that was stored while the disk accepts writes is read back, as a
    whole and in every range, from any state of the store that has no other
    bytes in the places of its chunks. *)
Theorem store_then_slice now s reader ps offset len :
  reachable cas_init cas_step s → stream_cdc default_params reader = cut_at 0 ps →
  Forall (λ p, p ≠ []) ps → Forall unique ps → slots_free (cs_disk s) ps → (zlen (concat ps) ≤ u64_max)%Z →
  (0 ≤ offset)%Z → (0 < len)%Z → (offset + len ≤ zlen (concat ps))%Z →
  ∃ s' m, store_reader true now s reader = (s', Ok m) ∧
    mf_blob_hash m = blake3 (concat ps) ∧ mf_total_size m = zlen (concat ps) ∧ is_valid m = true ∧
    (blob_slice s' m offset len).2 = Ok (take (Z.to_nat len) (drop (Z.to_nat offset) (concat ps))).
Proof.
  intros Hr Hcut Hne Hu Hf Hmax Ho Hl Hle. apply cas_reachable_maps in Hr.
  pose proof (cas_step_maps s _ Hr (StepStore true now s reader)) as Hm. unfold store_reader in *. rewrite Hcut in *.
  pose proof (store_items_spec now ps 0 s Hu Hf) as Hs. destruct (store_items true now s _) as [s' r].
  destruct Hs as (-> & _ & Hst). pose proof (manifest_of_describes ps Hne) as Hd.
  exists s', (manifest_of (tiles_of 0 ps)). split; [done|]. split; [simpl; by rewrite tiles_of_snd|].
  split; [apply Hd|]. split; [by eapply describes_valid|].
  pose proof (blob_slice_spec s' _ ps offset len Hm Hd Hu Hmax Ho) as Hb. cbv zeta in Hb.
  destruct (blob_slice s' _ offset len) as [s2 r2]. apply Hb; [lia|exact Hst|done|done].
Qed.

(** ** The quota *)

(** What a directory walk sees of a file. *)
Definition seen (path : list str) (f : file) : list str * Z * Z := (path, zlen (fl_data f), default 0%Z (fl_mtime f)).

Definition shallow (d : gmap (list str) file) : gmap (list str) file := filter (λ f : list str * file, length f.1 ≤ 2) d.

Lemma total_perm l l' : l ≡ₚ l' → total_of l = total_of l'.
Proof. unfold total_of. induction 1; rewrite ?fmap_cons; cbn [foldr]; lia. Qed.

Lemma walk_perm d : walk_store d ≡ₚ (λ f : list str * file, seen f.1 f.2) <$> map_to_list (shallow d).
Proof. unfold walk_store. apply fmap_Permutation, read_dir_perm. Qed.

Lemma walk_elem d path n t :
  (path, n, t) ∈ walk_store d ↔ ∃ f, seen path f = (path, n, t) ∧ d !! path = Some f ∧ length path ≤ 2.
Proof.
  rewrite walk_perm, list_elem_of_fmap. split.
  - intros ([p f] & E & Hin%elem_of_map_to_list). unfold shallow in Hin.
    apply map_lookup_filter_Some in Hin as [Hin Hl]. simpl in *. unfold seen in E |- *. injection E as -> -> ->. eauto.
  - intros (f & E & Hf & Hl). exists (path, f). split; [done|]. apply elem_of_map_to_list, map_lookup_filter_Some. done.
Qed.

Lemma total_delete d path f :
  d !! path = Some f → length path ≤ 2 → total_of (walk_store (delete path d)) = (total_of (walk_store d) - zlen (fl_data f))%Z.
Proof.
  intros Hf Hl. rewrite (total_perm _ _ (walk_perm d)), (total_perm _ _ (walk_perm (delete path d))).
  unfold shallow. rewrite map_filter_delete.
  assert (Hs : filter (λ f : list str * file, length f.1 ≤ 2) d !! path = Some f) by (by apply map_lookup_filter_Some).
  rewrite <- (total_perm _ _ (fmap_Permutation _ _ _ (map_to_list_delete _ _ _ Hs))). unfold total_of. rewrite !fmap_cons. cbn [foldr]. simpl. lia.
Qed.

Lemma walk_nodup d : NoDup ((λ f, f.1.1) <$> walk_store d).
Proof.
  rewrite (fmap_Permutation _ _ _ (walk_perm d)), <- list_fmap_compose. unfold compose. simpl.
  apply NoDup_fst_map_to_list.
Qed.

Lemma total_nonneg d : (0 ≤ total_of (walk_store d))%Z.
Proof.
  unfold total_of. assert (Hf : Forall (λ f, 0 ≤ f.1.2)%Z (walk_store d)).
  { apply Forall_forall. intros [[p n] t] (f & E & _)%walk_elem. injection E as <- _. simpl. lia. }
  induction Hf; [simpl; lia|]. rewrite fmap_cons. cbn [foldr]. lia.
Qed.

(** The loop removes the first files of the list, until the rest fits. *)
Lemma evict_files_spec can_remove max_bytes files : ∀ d reclaimed,
  (∀ path, can_remove path = true) → NoDup ((λ f, f.1.1) <$> files) → (∀ f, f ∈ files → f ∈ walk_store d) →
  ∃ gone kept d' n, files = gone ++ kept ∧
    evict can_remove max_bytes (total_of (walk_store d)) reclaimed d files = (d', (reclaimed + n)%Z) ∧
    (∀ path, d' !! path = if decide (path ∈ (λ f, f.1.1) <$> gone) then None else d !! path) ∧
    total_of (walk_store d') = (total_of (walk_store d) - n)%Z ∧
    (kept = [] ∨ total_of (walk_store d') ≤ max_bytes)%Z.
Proof.
  induction files as [|[[path n] t] files IH]; intros d reclaimed Hcan Hnd Hin.
  { exists [], [], d, 0%Z. split; [done|]. split; [simpl; f_equal; lia|]. split; [done|]. split; [lia|by left]. }
  cbn [evict]. destruct (Z.leb_spec (total_of (walk_store d)) max_bytes) as [Hle|Hgt].
  { exists [], ((path, n, t) :: files), d, 0%Z. split; [done|]. split; [f_equal; lia|]. split; [done|]. split; [lia|by right]. }
  rewrite Hcan. destruct (proj1 (walk_elem d path n t) (Hin _ (list_elem_of_here _ _))) as (f & [= <- <-] & Hf & Hl).
  simpl in Hnd. apply NoDup_cons in Hnd as [Hnew Hnd]. pose proof (total_delete d path f Hf Hl) as Htot.
  pose proof (total_nonneg (delete path d)) as Hnn. unfold sat_sub. rewrite Z.max_r by lia. rewrite <- Htot.
  destruct (IH (delete path d) (reclaimed + zlen (fl_data f))%Z Hcan Hnd) as (gone & kept & d' & m & -> & He & Hd & Ht & Hk).
  { intros [[p' n'] t'] Hp'. apply walk_elem. destruct (proj1 (walk_elem d p' n' t') (Hin _ (list_elem_of_further _ _ _ Hp')))
      as (f' & Es & Hf' & Hl'). exists f'. split; [done|]. split; [|done]. rewrite lookup_delete_ne; [done|].
    intros ->. apply Hnew, list_elem_of_fmap. by exists (p', n', t'). }
  exists ((path, zlen (fl_data f), default 0%Z (fl_mtime f)) :: gone), kept, d', (zlen (fl_data f) + m)%Z. split; [done|].
  split; [rewrite He; f_equal; lia|]. split; [|split; [lia|done]].
  intros p. rewrite Hd. simpl. destruct (decide (p ∈ _ <$> gone)) as [Hg|Hg].
  - by rewrite decide_True by (by right).
  - destruct (decide (p = path)) as [->|Hne]; [rewrite decide_True by left; by rewrite lookup_delete_eq|].
    rewrite decide_False; [by rewrite lookup_delete_ne|]. by intros [|]%elem_of_cons.
Qed.

(** Removing names removes what they lead to. *)
Lemma evict_omap {A B} (g : A → option B) can_remove max_bytes files : ∀ (d : gmap (list str) A) remaining reclaimed,
  evict can_remove max_bytes remaining reclaimed (omap g d) files =
  (omap g (evict can_remove max_bytes remaining reclaimed d files).1, (evict can_remove max_bytes remaining reclaimed d files).2).
Proof.
  induction files as [|[[path n] t] files IH]; intros d remaining reclaimed; [done|]. cbn [evict].
  destruct (_ <=? _)%Z; [done|]. destruct (can_remove path); [|apply IH]. rewrite <- IH. by rewrite omap_delete.
Qed.

(** Enforcing a quota leaves the files of the store within it, reports
    exactly the bytes it removed, keeps every other file as it was, and removes
    no file while an older one stays. *)
Theorem quota_enforced can_remove s max_bytes s' reclaimed :
  (∀ path, can_remove path = true) → (0 ≤ max_bytes)%Z → enforce_cache_quota can_remove s max_bytes = (s', reclaimed) →
  (total_bytes s' ≤ max_bytes)%Z ∧ reclaimed = (total_bytes s - total_bytes s')%Z ∧
  (∀ path f, cs_disk s' !! path = Some f → cs_disk s !! path = Some f) ∧
  (∀ path f, cs_disk s !! path = Some f → cs_disk s' !! path = None → length path ≤ 2 ∧
     ∀ path' f', cs_disk s' !! path' = Some f' → length path' ≤ 2 → (default 0 (fl_mtime f) ≤ default 0 (fl_mtime f'))%Z).
Proof.
  intros Hcan Hmax. unfold enforce_cache_quota, total_bytes.
  destruct (Z.leb_spec (total_of (walk_store (cs_disk s))) max_bytes) as [Hle|Hgt].
  { intros [= <- <-]. split; [done|]. split; [lia|]. split; [done|]. intros path f Hf Hn. by rewrite Hf in Hn. }
  set (files := merge_sort _ _). assert (Hp : files ≡ₚ walk_store (cs_disk s)) by apply merge_sort_Permutation.
  pose proof (StronglySorted_merge_sort (asc (λ f : list str * Z * Z, f.2)) (walk_store (cs_disk s))) as Hsort.
  fold files in Hsort.
  destruct (evict_files_spec can_remove max_bytes files (cs_disk s) 0) as (gone & kept & d' & n & Hfl & He & Hd & Ht & Hk); [done| | |].
  { rewrite (fmap_Permutation _ _ _ Hp). apply walk_nodup. }
  { intros f. by rewrite Hp. }
  unfold cs_disk in He. rewrite evict_omap in He.
  destruct (evict _ _ _ _ (cs_names s) _) as [names r]. simpl in He. injection He as Hd' ->. intros [= <- <-].
  assert (Hds : cs_disk (if (0 <? 0 + n)%Z then refresh_index (with_names names s) else with_names names s) = d')
    by (by destruct (0 <? 0 + n)%Z).
  rewrite Hds. assert (Hin : ∀ p f, cs_disk s !! p = Some f → length p ≤ 2 → seen p f ∈ gone ++ kept).
  { intros p f Hf Hl. rewrite <- Hfl, Hp. apply walk_elem. eauto. }
  assert (Hgone : ∀ x, x ∈ gone → ∃ f, x = seen x.1.1 f ∧ cs_disk s !! x.1.1 = Some f ∧ length x.1.1 ≤ 2).
  { intros [[p a] b] Hx. assert (Hx' : (p, a, b) ∈ walk_store (cs_disk s)) by (rewrite <- Hp, Hfl; apply elem_of_app; by left).
    apply walk_elem in Hx' as (f & E & ? & ?). exists f. simpl. split; [by symmetry|done]. }
  assert (Hsub : ∀ path f, d' !! path = Some f → cs_disk s !! path = Some f ∧ path ∉ (λ f, f.1.1) <$> gone).
  { intros path f. rewrite Hd. by destruct (decide _). }
  split; [|split; [lia|split; [intros; by apply Hsub|]]].
  - destruct Hk as [->|]; [|done]. enough (E : walk_store d' = []) by (by rewrite E).
    destruct (walk_store d') as [|[[p a] b] l] eqn:E; [done|]. exfalso.
    destruct (proj1 (walk_elem d' p a b)) as (f & _ & Hf & Hl); [rewrite E; left|].
    apply Hsub in Hf as [Hf Hng]. apply Hng, list_elem_of_fmap. exists (seen p f). split; [done|].
    specialize (Hin p f Hf Hl). by rewrite app_nil_r in Hin.
  - intros path f Hf Hn. rewrite Hd in Hn. destruct (decide _) as [Hg|]; [|by rewrite Hf in Hn].
    apply list_elem_of_fmap in Hg as (x & -> & Hx). destruct (Hgone x Hx) as (f0 & Ex & Hf0 & Hl0).
    rewrite Hf in Hf0. injection Hf0 as <-. split; [done|]. intros path' f' Hf' Hl'. apply Hsub in Hf' as [Hf' Hng].
    specialize (Hin path' f' Hf' Hl'). apply elem_of_app in Hin as [Hin|Hin].
    + exfalso. apply Hng, list_elem_of_fmap. by exists (seen path' f').
    + rewrite Hfl in Hsort. pose proof (StronglySorted_app_1_elem_of _ _ _ _ _ Hsort Hx Hin) as Ha.
      rewrite Ex in Ha. exact Ha.
Qed.

(** ** What the checks miss *)

(** A manifest whose chunk lengths add up beyond 64 bits is valid, because the
    sum saturates, and reading a range of it panics. *)
Theorem crafted_manifest_panics s h :
  is_valid_hash h = true →
  let m := mk_manifest h u64_max [mk_chunk h 0 10; mk_chunk h 10 u64_max] in
  is_valid m = true ∧ blob_slice s m 5 10 = (s, Err Panic) ∧ blob_range_mapped s m 10 20 = (s, Err Panic).
Proof.
  intros Hh. cbv zeta. assert (Hv : is_valid (mk_manifest h u64_max [mk_chunk h 0 10; mk_chunk h 10 u64_max]) = true).
  { unfold is_valid. cbn [mf_total_size mf_chunks tiles_to ck_offset ck_len ck_blake3]. rewrite Hh. by vm_compute. }
  unfold blob_slice, blob_range_mapped. rewrite Hv. done.
Qed.

(** A file with other bytes than its name says stays, and its chunk cannot be
    stored again. *)
Theorem corrupt_slot_stays io now s p f :
  cs_disk s !! chunk_path (blake3 p) = Some f → blake3 (fl_data f) ≠ blake3 p →
  put io now s p = (s, false) ∧ put_verified io now s (blake3 p) p = (s, false) ∧ (get s (blake3 p)).2 = None.
Proof.
  intros Hf Hne. assert (Ht : put_trusted io now s (blake3 p) p = (s, false)).
  { unfold put_trusted. rewrite blake3_valid, Hf. done. }
  split; [exact Ht|]. split.
  - unfold put_verified. rewrite Ht. by destruct (negb _ || negb _).
  - unfold get. rewrite blake3_valid, Hf. simpl. destruct (bool_decide (fl_data f = [])) eqn:He.
    + simpl. apply bool_decide_eq_true in He. rewrite He in Hne. by rewrite bool_decide_eq_false_2.
    + unfold get_mmap. apply disk_lookup in Hf as (i & Hn & Hi). rewrite blake3_valid, Hn. simpl. rewrite Hi. simpl. rewrite He.
      destruct (eq_ignore_ascii_case _ _) eqn:Hg; [|done]. apply genuine_iff in Hg. unfold genuine in Hg.
      by rewrite blake3_lower in Hg.
Qed.

(** The bytes of a mapping are checked when the file is mapped and never again:
    a chunk that was damaged in place after it was first read is served as it
    is, and only a read that maps the file anew refuses it. *)
Theorem warmed_chunk_served s h i f x :
  is_valid_hash h = true → (get_mmap_cached s h).2 = Some i → cs_names s !! chunk_path h = Some i →
  cs_files s !! i = Some f → ¬ genuine h x → x ≠ [] →
  let warmed := (get_mmap_cached s h).1 in
  let damaged := with_files (<[i := mk_file x (fl_mtime f)]> (cs_files warmed)) warmed in
  (get_mmap_cached damaged h).2 = Some i ∧ mapped damaged i = x ∧ (get_mmap damaged h).2 = None.
Proof.
  intros Hv Hi Hn Hf Hx Hne. cbv zeta. split; [|split].
  - assert (Hin : ∃ e, ff_map (cs_maps (get_mmap_cached s h).1) !! h = Some (e, i)).
    { revert Hi. unfold get_mmap_cached. destruct (negb _); [done|]. destruct (fifo_get (cs_maps s) h) as [maps [j|]] eqn:Eg; simpl.
      - intros [= ->]. unfold fifo_get in Eg. destruct (ff_map (cs_maps s) !! h) as [[e v]|]; [|done]. injection Eg as <- ->.
        eexists. apply lookup_insert_eq.
      - destruct (get_mmap s h) as [s1 [j|]]; simpl; [|done]. intros [= ->]. apply fifo_put_lookup. }
    destruct Hin as [e He]. unfold get_mmap_cached at 1. unfold is_valid_hash in Hv. rewrite (proj1 (andb_prop _ _ Hv)). simpl.
    unfold fifo_get. by rewrite He.
  - unfold mapped. simpl. by rewrite lookup_insert_eq.
  - unfold get_mmap at 1. rewrite Hv. simpl. destruct (proj1 (get_mmap_cached_same s h)). rewrite Hn. simpl.
    rewrite lookup_insert_eq. simpl. rewrite bool_decide_eq_false_2 by done. destruct (eq_ignore_ascii_case _ _) eqn:Hg; [|done].
    by apply genuine_iff in Hg.
Qed.
End laws.

(** ** Examples *)

Module CasExamples.

(** A hash that tells the bytes used here apart. *)
Definition tag (x : bytes) : str :=
  if bool_decide (x = [1; 2; 3]%Z) then replicate 64 0x61%Z
  else if bool_decide (x = [4; 5]%Z) then replicate 64 0x62%Z
  else if bool_decide (x = [1; 2; 3; 4; 5]%Z) then replicate 64 0x63%Z
  else replicate 64 0x30%Z.

(** A chunk as its digest and a manifest as its numbers; enough for manifests of
    the chunks used here. *)
Fixpoint split_refs (n : nat) (l : bytes) : option (list ChunkRef) :=
  match n with
  | O => if bool_decide (l = []) then Some [] else None
  | S n =>
      match l with
      | k :: off :: len :: l =>
          rest ← split_refs n (drop (Z.to_nat k) l); Some (mk_chunk (take (Z.to_nat k) l) off len :: rest)
      | _ => None
      end
  end.

Fixpoint join_refs (cs : list ChunkRef) : bytes :=
  match cs with
  | [] => []
  | c :: cs => zlen (ck_blake3 c) :: ck_offset c :: ck_len c :: ck_blake3 c ++ join_refs cs
  end.

Lemma split_join cs : split_refs (length cs) (join_refs cs) = Some cs.
Proof.
  induction cs as [|[h o n] cs IH]; [done|]. cbn [join_refs split_refs length ck_blake3].
  rewrite Nat2Z.id, drop_app_length, IH. simpl. by rewrite take_app_length.
Qed.

#[local] Instance toy_chunks : ChunkEnv := {|
  blake3 := tag;
  Reader := list bytes;
  stream_cdc params ps := cut_at 0 ps;
  manifest_to_json m := zlen (mf_chunks m) :: mf_total_size m :: zlen (mf_blob_hash m) :: mf_blob_hash m ++ join_refs (mf_chunks m);
  manifest_from_json l :=
    match l with
    | n :: total :: k :: l =>
        cs ← split_refs (Z.to_nat n) (drop (Z.to_nat k) l); Some (mk_manifest (take (Z.to_nat k) l) total cs)
    | _ => None
    end;
  read_dir A d := map_to_list d;
  first_key v := fst <$> head (map_to_list v)
|}.

#[local] Instance toy_chunk_laws : ChunkLaws.
Proof.
  split.
  - intros x. cbn [blake3 toy_chunks]. unfold tag. by repeat destruct (bool_decide _).
  - intros x. cbn [blake3 toy_chunks]. unfold tag. by repeat destruct (bool_decide _).
  - intros [h t cs]. cbn [manifest_to_json manifest_from_json toy_chunks mf_chunks mf_blob_hash mf_total_size].
    rewrite !Nat2Z.id, drop_app_length, split_join. simpl. by rewrite take_app_length.
  - done.
  - intros v k. cbn [first_key toy_chunks]. destruct (head _) as [[k' x]|] eqn:E; [|done].
    intros [= <-]. apply head_Some_elem_of, elem_of_map_to_list in E. apply elem_of_dom. eauto.
Qed.

Lemma unique_pieces : Forall unique [[1; 2; 3]; [4; 5]]%Z.
Proof.
  apply Forall_forall. intros p Hp x. assert (Hp' : p = [1; 2; 3]%Z ∨ p = [4; 5]%Z) by set_solver.
  cbn [blake3 toy_chunks]. unfold tag.
  destruct (decide (x = [1; 2; 3]%Z)) as [->|?]; [|rewrite (bool_decide_eq_false_2 (x = [1; 2; 3]%Z)) by done];
    (destruct (decide (x = [4; 5]%Z)) as [->|?] || idtac); [..|rewrite (bool_decide_eq_false_2 (x = [4; 5]%Z)) by done];
    try destruct (bool_decide (x = [1; 2; 3; 4; 5]%Z)); destruct Hp' as [->| ->];
    (done || (intros E; vm_compute in E; discriminate E)).
Qed.

Definition empty : cas := cas_new ∅ ∅.
Definition blob : @Reader toy_chunks := [[1; 2; 3]; [4; 5]]%Z.
Definition kept : cas * may_fail ChunkManifest := store_reader true 7 empty blob.
Definition manifest : ChunkManifest := match kept.2 with Ok m => m | Err _ => mk_manifest [] 0 [] end.

Lemma empty_reachable : reachable cas_init cas_step empty.
Proof. apply reachable_init. by exists ∅, ∅. Qed.

Lemma store_then_slice_witness :
  (∃ s' m, store_reader true 7 empty blob = (s', Ok m) ∧
    mf_blob_hash m = tag [1; 2; 3; 4; 5]%Z ∧ mf_total_size m = 5%Z ∧ is_valid m = true ∧
    (blob_slice s' m 2 2).2 = Ok [3; 4]%Z) ∧
  (blob_slice empty manifest 2 2).2 = err "None".
Proof.
  split; [|by vm_compute].
  apply (store_then_slice 7 empty blob [[1; 2; 3]; [4; 5]]%Z 2 2);
    [apply empty_reachable|done|by repeat constructor|apply unique_pieces| |simpl; unfold u64_max; lia|lia|lia|simpl; lia].
  intros p f Hp. change (cs_disk empty) with (∅ : gmap (list str) file). by rewrite lookup_empty.
Defined.

(** The first chunk is written over in place before it was ever read. *)
Definition first_file : nat := default 0 (cs_names kept.1 !! chunk_path (tag [1; 2; 3]%Z)).
Definition damage (s : cas) : cas := with_files (<[first_file := mk_file [9; 9; 9]%Z (Some 7%Z)]> (cs_files s)) s.
Definition damaged : cas := damage kept.1.

Lemma nothing_mapped : ¬ is_mapped kept.1 first_file.
Proof.
  intros (h & e & Hm). assert (Hn : ff_map (cs_maps kept.1) = ∅) by (by vm_compute). generalize first_file Hm. rewrite Hn. intros j Hj. rewrite lookup_empty in Hj. discriminate Hj.
Qed.

Lemma ranges_genuine_witness :
  ((∀ h i, (get_mmap_cached damaged h).2 = Some i → genuine h (mapped (get_mmap_cached damaged h).1 i)) ∧
   ((blob_slice damaged manifest 2 2).2 = Ok [3; 4]%Z ∨ (blob_slice damaged manifest 2 2).2 = err "None") ∧
   ((∃ w, (blob_range_mapped damaged manifest 2 2).2 = Ok w ∧ window_bytes (blob_range_mapped damaged manifest 2 2).1 w = [3; 4]%Z) ∨
    (blob_range_mapped damaged manifest 2 2).2 = err "None")) ∧
  (blob_slice damaged manifest 2 2).2 = err "None" ∧ (blob_slice kept.1 manifest 2 2).2 = Ok [3; 4]%Z.
Proof.
  split; [|by vm_compute]. apply (ranges_genuine damaged manifest [[1; 2; 3]; [4; 5]]%Z 2 2).
  - eapply reachable_step; [|apply StepWritten, nothing_mapped]. eapply reachable_step; [apply empty_reachable|apply StepStore].
  - apply (manifest_of_describes [[1; 2; 3]; [4; 5]]%Z). by repeat constructor.
  - apply unique_pieces.
  - simpl. unfold u64_max. lia.
  - lia.
  - lia.
Defined.

Lemma quota_enforced_witness :
  let r := enforce_cache_quota (λ _, true) kept.1 2 in
  ((total_bytes r.1 ≤ 2)%Z ∧ r.2 = (total_bytes kept.1 - total_bytes r.1)%Z ∧
   (∀ path f, cs_disk r.1 !! path = Some f → cs_disk kept.1 !! path = Some f) ∧
   (∀ path f, cs_disk kept.1 !! path = Some f → cs_disk r.1 !! path = None → length path ≤ 2 ∧
     ∀ path' f', cs_disk r.1 !! path' = Some f' → length path' ≤ 2 → (default 0 (fl_mtime f) ≤ default 0 (fl_mtime f'))%Z)) ∧
  total_bytes kept.1 = 5%Z.
Proof.
  split; [|by vm_compute]. apply (quota_enforced (λ _, true) kept.1 2); [done|lia|apply surjective_pairing].
Defined.

(** The same damage after the chunk was read once: the range has the wrong
    bytes. *)
Lemma warmed_range_served :
  (blob_slice (damage (blob_slice kept.1 manifest 0 5).1) manifest 0 5).2 = Ok [9; 9; 9; 4; 5]%Z ∧
  (blob_slice damaged manifest 0 5).2 = err "None".
Proof. by vm_compute. Qed.

(** A manifest that says the chunk is twice as long as it is: the range is
    refused when it is copied, and served short when it is mapped. *)
Definition overlong : ChunkManifest := mk_manifest (tag [1; 2; 3]%Z) 6 [mk_chunk (tag [1; 2; 3]%Z) 0 6].

Lemma short_chunk_served :
  is_valid overlong = true ∧ (blob_slice kept.1 overlong 0 6).2 = err "None" ∧
  (window_bytes (blob_range_mapped kept.1 overlong 0 6).1 <$> ok (blob_range_mapped kept.1 overlong 0 6).2) = Some [1; 2; 3]%Z.
Proof. by vm_compute. Qed.

(** A mapped chunk is still served after the store was cleared. *)
Lemma clear_keeps_mapped :
  let s := clear (get_mmap_cached kept.1 (tag [4; 5]%Z)).1 in
  (mapped s <$> (get_mmap_cached s (tag [4; 5]%Z)).2) = Some [4; 5]%Z ∧ (get_mmap s (tag [4; 5]%Z)).2 = None.
Proof. by vm_compute. Qed.

(** Saving a manifest twice, and then another for the same blob: the index lists
    the blob three times for the first chunk, which its manifest no longer has. *)
Definition resaved : cas :=
  let m1 := mk_manifest (tag []) 3 [mk_chunk (tag [1; 2; 3]%Z) 0 3] in
  let m2 := mk_manifest (tag []) 2 [mk_chunk (tag [4; 5]%Z) 0 2] in
  (save_manifest true 9 (save_manifest true 8 (save_manifest true 7 empty m1).1 m1).1 m2).1.

Lemma index_goes_stale :
  (find_manifest_containing_chunk resaved (tag [1; 2; 3]%Z)).2 =
    Some (mk_manifest (tag []) 2 [mk_chunk (tag [4; 5]%Z) 0 2]) ∧
  (length <$> (cs_index resaved ≫= λ i, i !! tag [1; 2; 3]%Z)) = Some 3.
Proof. by vm_compute. Qed.
End CasExamples.
