(* ===== verification/Kademlia.v ===== *)
(** The distance table of the overlay: src/network-core/src/skademlia.rs.
    Node identifiers are 32 bytes, bound to a public key by proof of work;
    peers sit in buckets by the length of the prefix they share with the
    node itself. Reputation scores are binary64 numbers given by their bits.
    Proved: the bit tests compute what they say, buckets hold proven
    identifiers of one prefix length within the capacity, the proof of work
    search is exhaustive, and the closest peers are the closest. *)

From S2P Require Import Prelude RustStr Sql.

(** ** Bits *)

(** Source: src/network-core/src/skademlia.rs:16-16 (POW_STATIC_DIFFICULTY_BITS) *)
Definition POW_STATIC_DIFFICULTY_BITS : Z := 21.
(** Source: src/network-core/src/skademlia.rs:17-17 (POW_DYNAMIC_DIFFICULTY_BITS) *)
Definition POW_DYNAMIC_DIFFICULTY_BITS : Z := 8.

(** Source: src/network-core/src/skademlia.rs:43-64 (check_leading_zeros) *)
Definition check_leading_zeros (hash : bytes) (bits : Z) : bool :=
  if (256 <? bits)%Z then false
  else
    let full_bytes := Z.to_nat (bits / 8) in
    let rem_bits := (bits mod 8)%Z in
    if negb (forallb (λ b, (b =? 0)%Z) (take full_bytes hash)) then false
    else if (0 <? rem_bits)%Z then
      let mask := (Z.shiftl 0xFF (8 - rem_bits) mod 256)%Z in
      (Z.land (default 0%Z (hash !! full_bytes)) mask =? 0)%Z
    else true.

(** Source: src/network-core/src/skademlia.rs:109-115 (xor_distance) *)
Definition xor_distance (a b : bytes) : bytes := zip_with Z.lxor a b.

(** [u8::leading_zeros]. *)
Definition leading_zeros_u8 (b : Z) : Z := if (b =? 0)%Z then 8 else (7 - Z.log2 b)%Z.

(** Source: src/network-core/src/skademlia.rs:154-159 (SkademliaRoutingTable::bucket_index, loop) *)
Fixpoint first_one (i : Z) (dist : bytes) : Z :=
  match dist with
  | [] => 256
  | byte :: dist => if (byte =? 0)%Z then first_one (i + 1) dist else (i * 8 + leading_zeros_u8 byte)%Z
  end.

(** [f64] comparison on the bits: [total_cmp] and [<]. *)
Definition f64_sign (x : Z) : bool := (2 ^ 63 <=? x)%Z.
Definition f64_magnitude (x : Z) : Z := (x mod 2 ^ 63)%Z.
Definition f64_nan (x : Z) : bool := (0x7FF * 2 ^ 52 <? f64_magnitude x)%Z.
Definition f64_total (x : Z) : Z := if f64_sign x then (- f64_magnitude x - 1)%Z else f64_magnitude x.
Definition f64_value (x : Z) : Z := if f64_sign x then (- f64_magnitude x)%Z else f64_magnitude x.
Definition f64_lt (x y : Z) : bool := negb (f64_nan x) && negb (f64_nan y) && (f64_value x <? f64_value y)%Z.

(** ** Peers *)

(** Source: src/network-core/src/skademlia.rs:124-133 (SkademliaPeer) *)
Record SkademliaPeer := mk_peer {
  pr_node_id : bytes;
  pr_pubkey : str;
  pr_address : str;
  pr_reputation_score : Z;
  pr_static_nonce : Z;
  pr_dynamic_nonce : Z
}.

(** Source: src/network-core/src/skademlia.rs:136-140 (SkademliaRoutingTable) *)
Record SkademliaRoutingTable := mk_table {
  tb_self : bytes;
  tb_buckets : gmap Z (list SkademliaPeer);
  tb_capacity : Z
}.

(** Source: src/network-core/src/skademlia.rs:143-149 (SkademliaRoutingTable::new) *)
Definition table_new (self_node_id : bytes) (bucket_capacity : Z) : SkademliaRoutingTable :=
  mk_table self_node_id ∅ bucket_capacity.

(** Source: src/network-core/src/skademlia.rs:152-160 (SkademliaRoutingTable::bucket_index) *)
Definition bucket_index (self other : bytes) : Z := first_one 0 (xor_distance self other).

(** The first of the peers with the least score, and where it is.
    Source: src/network-core/src/skademlia.rs:192-196 (SkademliaRoutingTable::add_peer, lowest) *)
Fixpoint lowest (i : nat) (best : option (nat * SkademliaPeer)) (bucket : list SkademliaPeer)
    : option (nat * SkademliaPeer) :=
  match bucket with
  | [] => best
  | p :: bucket =>
      let best := match best with
        | Some (j, q) =>
            if (f64_total (pr_reputation_score p) <? f64_total (pr_reputation_score q))%Z then Some (i, p)
            else Some (j, q)
        | None => Some (i, p)
        end in
      lowest (S i) best bucket
  end.

(** The distances to the target, compared byte by byte. *)
Definition nearer (target : bytes) (a b : SkademliaPeer) : Prop :=
  str_leb (xor_distance (pr_node_id a) target) (xor_distance (pr_node_id b) target) = true.

#[export] Instance nearer_dec target a b : Decision (nearer target a b).
Proof. unfold nearer. apply _. Defined.
#[export] Instance nearer_total target : Total (nearer target).
Proof. intros a b. unfold nearer. apply str_leb_total. Qed.
#[export] Instance nearer_trans target : Transitive (nearer target).
Proof. intros a b c. unfold nearer. apply str_leb_trans. Qed.

(** The buckets of a BTreeMap in the order of their index. *)
Definition all_peers (t : SkademliaRoutingTable) : list SkademliaPeer :=
  concat (merge_sort (asc fst) (map_to_list (tb_buckets t))).*2.

Section kademlia.
Context (sha256 : bytes → bytes).

(** Source: src/network-core/src/skademlia.rs:21-24 (generate_node_id, static) *)
Definition static_hash (pubkey : str) (static_nonce : Z) : bytes := sha256 (pubkey ++ to_be 8 static_nonce).

(** Source: src/network-core/src/skademlia.rs:30-33 (generate_node_id, dynamic) *)
Definition dynamic_hash (static : bytes) (dynamic_nonce : Z) : bytes := sha256 (static ++ to_be 8 dynamic_nonce).

(** Source: src/network-core/src/skademlia.rs:20-40 (generate_node_id) *)
Definition generate_node_id (pubkey : str) (static_nonce dynamic_nonce : Z) : option bytes :=
  let static := static_hash pubkey static_nonce in
  if negb (check_leading_zeros static POW_STATIC_DIFFICULTY_BITS) then None
  else
    let node_id := dynamic_hash static dynamic_nonce in
    if check_leading_zeros node_id POW_DYNAMIC_DIFFICULTY_BITS then Some node_id else None.

(** Source: src/network-core/src/skademlia.rs:95-103 (find_pow_nonces_where, inner loop) *)
Fixpoint search_dynamic (predicate : bytes → bool) (static : bytes) (budget : nat) (nonce : Z) : option (Z * bytes) :=
  match budget with
  | O => None
  | S budget =>
      let node_id := dynamic_hash static nonce in
      if check_leading_zeros node_id POW_DYNAMIC_DIFFICULTY_BITS && predicate node_id then Some (nonce, node_id)
      else search_dynamic predicate static budget (nonce + 1)
  end.

(** Source: src/network-core/src/skademlia.rs:87-105 (find_pow_nonces_where, outer loop) *)
Fixpoint search_static (predicate : bytes → bool) (pubkey : str) (dynamic_budget budget : nat) (nonce : Z)
    : option (Z * Z * bytes) :=
  match budget with
  | O => None
  | S budget =>
      let static := static_hash pubkey nonce in
      if negb (check_leading_zeros static POW_STATIC_DIFFICULTY_BITS) then
        search_static predicate pubkey dynamic_budget budget (nonce + 1)
      else
        match search_dynamic predicate static dynamic_budget 0 with
        | Some (d, node_id) => Some (nonce, d, node_id)
        | None => search_static predicate pubkey dynamic_budget budget (nonce + 1)
        end
  end.

(** Source: src/network-core/src/skademlia.rs:81-106 (find_pow_nonces_where) *)
Definition find_pow_nonces_where (pubkey : str) (static_budget dynamic_budget : nat) (predicate : bytes → bool)
    : option (Z * Z * bytes) :=
  search_static predicate pubkey dynamic_budget static_budget 0.

(** Source: src/network-core/src/skademlia.rs:71-77 (find_pow_nonces) *)
Definition find_pow_nonces (pubkey : str) (static_budget dynamic_budget : nat) : option (Z * Z * bytes) :=
  find_pow_nonces_where pubkey static_budget dynamic_budget (λ _, true).

(** The bucket is created before its room is checked.
    Source: src/network-core/src/skademlia.rs:168-205 (SkademliaRoutingTable::add_peer) *)
Definition add_peer (t : SkademliaRoutingTable) (peer : SkademliaPeer) : SkademliaRoutingTable * bool :=
  if bool_decide (pr_node_id peer = tb_self t) then (t, false)
  else if bool_decide (generate_node_id (pr_pubkey peer) (pr_static_nonce peer) (pr_dynamic_nonce peer)
                       ≠ Some (pr_node_id peer)) then (t, false)
  else
    let index := bucket_index (tb_self t) (pr_node_id peer) in
    let bucket := default [] (tb_buckets t !! index) in
    let put b := mk_table (tb_self t) (<[index := b]> (tb_buckets t)) (tb_capacity t) in
    match list_find (λ p, pr_node_id p = pr_node_id peer) bucket with
    | Some (i, _) => (put (<[i := peer]> bucket), true)
    | None =>
        if (zlen bucket <? tb_capacity t)%Z then (put (bucket ++ [peer]), true)
        else
          match lowest 0 None bucket with
          | Some (i, worst) =>
              if f64_lt (pr_reputation_score worst) (pr_reputation_score peer) then (put (<[i := peer]> bucket), true)
              else (put bucket, false)
          | None => (put bucket, false)
          end
    end.
End kademlia.

Section closest.
(** [select_nth_unstable_by] of the standard library, by the distance to the
    target. *)
Context (select_nth : bytes → nat → list SkademliaPeer → list SkademliaPeer).

(** Source: src/network-core/src/skademlia.rs:208-240 (SkademliaRoutingTable::find_closest) *)
Definition find_closest (t : SkademliaRoutingTable) (target : bytes) (count : nat) : list SkademliaPeer :=
  let peers := all_peers t in
  if (count =? 0) || bool_decide (peers = []) then []
  else if count <? length peers then merge_sort (nearer target) (take count (select_nth target count peers))
  else merge_sort (nearer target) peers.
End closest.

(** * Laws *)

(** ** Bits as numbers *)

Lemma from_be_cons b l : from_be (b :: l) = (b * 256 ^ zlen l + from_be l)%Z.
Proof.
  unfold from_be. rewrite reverse_cons. assert (Hs : ∀ k x, from_le (k ++ [x]) = (from_le k + x * 256 ^ zlen k)%Z).
  { intros k x. induction k as [|y k IH]; [simpl; lia|]. cbn [app from_le length]. rewrite IH, Nat2Z.inj_succ, Z.pow_succ_r by lia. lia. }
  rewrite Hs, length_reverse. lia.
Qed.

Lemma from_be_range l : all_bytes l → (0 ≤ from_be l < 256 ^ zlen l)%Z.
Proof.
  intros Hl. unfold from_be. rewrite <- (length_reverse l). apply from_le_range. unfold all_bytes.
  by apply Forall_reverse.
Qed.

Lemma from_be_zero l : all_bytes l → forallb (λ b, (b =? 0)%Z) l = true ↔ from_be l = 0%Z.
Proof.
  induction l as [|b l IH]; intros Hl; [done|]. apply Forall_cons in Hl as [Hb Hl]. rewrite from_be_cons. simpl.
  pose proof (from_be_range l Hl) as Hr. rewrite andb_true_iff, Z.eqb_eq, IH by done. unfold is_byte in Hb.
  assert (0 < 256 ^ zlen l)%Z by (apply Z.pow_pos_nonneg; lia). nia.
Qed.

Lemma log2_bounds b : (0 < b < 256)%Z → (2 ^ Z.log2 b ≤ b < 2 ^ (Z.log2 b + 1))%Z ∧ (0 ≤ Z.log2 b < 8)%Z.
Proof.
  intros Hb. pose proof (Z.log2_spec b) as Hs. rewrite Z.add_1_r. split; [lia|]. split; [apply Z.log2_nonneg|].
  apply Z.log2_lt_pow2; lia.
Qed.

(** The position of the first bit that is set, for a number of [length l] bytes
    after [i] zero bytes. *)
Lemma first_one_spec l : ∀ i, all_bytes l → (0 < from_be l)%Z → (i + zlen l = 32)%Z →
  (2 ^ (255 - first_one i l) ≤ from_be l < 2 ^ (256 - first_one i l))%Z ∧ (8 * i ≤ first_one i l < 256)%Z.
Proof.
  induction l as [|b l IH]; intros i Hl Hpos Hi; [simpl in Hpos; unfold from_be in Hpos; simpl in Hpos; lia|].
  apply Forall_cons in Hl as [Hb Hl]. rewrite from_be_cons in *. pose proof (from_be_range l Hl) as Hr.
  cbn [first_one length] in *. destruct (Z.eqb_spec b 0) as [->|Hb0].
  - rewrite Z.mul_0_l, Z.add_0_l in *. destruct (IH (i + 1)%Z Hl) as [? ?]; [lia|lia|]. split; [done|lia].
  - unfold is_byte in Hb. destruct (log2_bounds b) as [Hlo Hlog]; [lia|]. unfold leading_zeros_u8.
    rewrite (proj2 (Z.eqb_neq _ _)) by lia. set (k := Z.log2 b) in *.
    replace (255 - (i * 8 + (7 - k)))%Z with (k + 8 * zlen l)%Z by lia.
    replace (256 - (i * 8 + (7 - k)))%Z with (k + 1 + 8 * zlen l)%Z by lia.
    rewrite !(Z.pow_add_r 2 _ (8 * zlen l)) by lia. rewrite (Z.pow_mul_r 2 8) by lia. change (2 ^ 8)%Z with 256%Z.
    assert (0 < 256 ^ zlen l)%Z by (apply Z.pow_pos_nonneg; lia). nia.
Qed.

Lemma lxor_byte a b : is_byte a → is_byte b → is_byte (Z.lxor a b).
Proof.
  unfold is_byte. intros Ha Hb. split; [apply Z.lxor_nonneg; lia|].
  destruct (Z.eq_dec (Z.lxor a b) 0%Z) as [->|]; [lia|]. change 256%Z with (2 ^ 8)%Z. apply Z.log2_lt_pow2.
  - pose proof (proj2 (Z.lxor_nonneg a b)). lia.
  - pose proof (Z.log2_lxor a b). assert (∀ x, 0 ≤ x < 256 → Z.log2 x < 8)%Z.
    { intros x Hx. destruct (Z.eq_dec x 0%Z) as [->|]; [simpl; lia|]. apply Z.log2_lt_pow2; lia. }
    assert (Z.log2 a < 8 ∧ Z.log2 b < 8)%Z by auto. lia.
Qed.

Lemma xor_bytes a b : all_bytes a → all_bytes b → all_bytes (xor_distance a b).
Proof.
  unfold xor_distance. revert b. induction a as [|x a IH]; intros [|y b] Ha Hb; simpl; try constructor.
  - apply Forall_cons in Ha as [Ha _], Hb as [Hb _]. by apply lxor_byte.
  - apply Forall_cons in Ha as [_ Ha], Hb as [_ Hb]. by apply IH.
Qed.

Lemma xor_length a b : length (xor_distance a b) = min (length a) (length b).
Proof. unfold xor_distance. apply length_zip_with. Qed.

Lemma xor_inj a b t : length a = length t → length b = length t → xor_distance a t = xor_distance b t → a = b.
Proof.
  unfold xor_distance. revert a b. induction t as [|z t IH]; intros [|x a] [|y b]; simpl; try done.
  intros [= Ha] [= Hb] [= Hx Ht]. f_equal; [|by apply IH].
  assert (Hz : Z.lxor (Z.lxor x z) z = Z.lxor (Z.lxor y z) z) by (by rewrite Hx).
  by rewrite !Z.lxor_assoc, Z.lxor_nilpotent, !Z.lxor_0_r in Hz.
Qed.

(** The index of the bucket of an identifier is the number of leading zero
    bits of its distance: two identifiers of 32 bytes are in bucket [i] when
    their distance as a number lies between [2 ^ (255 - i)] and [2 ^ (256 - i)],
    and bucket 256 holds only the node itself. *)
Theorem bucket_index_spec self other :
  length self = 32 → length other = 32 → all_bytes self → all_bytes other →
  let i := bucket_index self other in
  let d := from_be (xor_distance self other) in
  if decide (self = other) then i = 256%Z else (0 ≤ i < 256 ∧ 2 ^ (255 - i) ≤ d < 2 ^ (256 - i))%Z.
Proof.
  intros Hs Ho Hbs Hbo. cbv zeta. unfold bucket_index. pose proof (xor_bytes _ _ Hbs Hbo) as Hb.
  assert (Hlen : length (xor_distance self other) = 32) by (rewrite xor_length; lia).
  destruct (decide (self = other)) as [->|Hne].
  - clear. assert (Hz : ∀ l i, first_one i (xor_distance l l) = 256%Z); [|apply Hz].
    unfold xor_distance. intros l. induction l as [|x l IH]; intros i; simpl; [done|]. rewrite Z.lxor_nilpotent. apply IH.
  - assert (0 < from_be (xor_distance self other))%Z.
    { pose proof (from_be_range _ Hb). enough (from_be (xor_distance self other) ≠ 0%Z) by lia.
      intros E. apply from_be_zero in E; [|done]. apply Hne. clear -E Hs Ho.
      assert (Hl : length self = length other) by lia. clear Hs Ho. revert other E Hl. unfold xor_distance.
      induction self as [|x a IH]; intros [|y b]; simpl; try done. intros [E1 E2]%andb_true_iff [= Hl].
      apply Z.eqb_eq, Z.lxor_eq in E1. f_equal; [done|by apply IH]. }
    destruct (first_one_spec _ 0 Hb) as [? ?]; [done|lia|]. split; [lia|done].
Qed.

Lemma land_mask b r : is_byte b → (0 < r < 8)%Z → Z.land b (Z.shiftl 0xFF (8 - r) mod 256) = 0%Z ↔ (b < 2 ^ (8 - r))%Z.
Proof.
  unfold is_byte. intros Hb Hr.
  assert (Hall : forallb (λ r, forallb (λ b, bool_decide (Z.land b (Z.shiftl 0xFF (8 - r) mod 256) = 0%Z ↔ (b < 2 ^ (8 - r))%Z))
    (seqZ 0 256)) (seqZ 1 7) = true) by (by vm_compute).
  rewrite forallb_forall in Hall. specialize (Hall r). rewrite forallb_forall in Hall.
  specialize (Hall ltac:(apply list_elem_of_In, elem_of_seqZ; lia) b ltac:(apply list_elem_of_In, elem_of_seqZ; lia)).
  by apply bool_decide_eq_true in Hall.
Qed.

(** A hash has the leading zero bits when it is below the power of two that
    the difficulty stands for. *)
Theorem check_leading_zeros_spec hash bits :
  length hash = 32 → all_bytes hash → (0 ≤ bits)%Z →
  check_leading_zeros hash bits = true ↔ (bits ≤ 256 ∧ from_be hash < 2 ^ (256 - bits))%Z.
Proof.
  intros Hl Hb Hbits. unfold check_leading_zeros. destruct (Z.ltb_spec 256 bits); [split; [done|lia]|].
  set (n := Z.to_nat (bits / 8)). pose proof (Z.div_mod bits 8) as Hdm. pose proof (Z.mod_pos_bound bits 8) as Hm.
  assert (Hn : n ≤ 32) by (unfold n; lia). pose proof Hb as Hbt. rewrite <- (take_drop n hash) in Hbt.
  apply Forall_app in Hbt as [Ht Hd].
  assert (Hval : from_be hash = (from_be (take n hash) * 256 ^ (32 - Z.of_nat n) + from_be (drop n hash))%Z).
  { rewrite <- (take_drop n hash) at 1. replace (32 - Z.of_nat n)%Z with (zlen (drop n hash)) by (rewrite length_drop; lia).
    generalize (take n hash) (drop n hash). intros x y. induction x as [|z x IH]; [unfold from_be; simpl; lia|].
    cbn [app]. rewrite !from_be_cons, IH, length_app, Nat2Z.inj_add, Z.pow_add_r by lia. lia. }
  pose proof (from_be_range _ Hd) as Hdr. pose proof (from_be_range _ Ht) as Htr.
  assert (Hdl : zlen (drop n hash) = (32 - Z.of_nat n)%Z) by (rewrite length_drop; lia). rewrite Hdl in Hdr.
  assert (Hpow : (2 ^ (256 - bits) = 2 ^ (8 - bits mod 8) * 256 ^ (31 - Z.of_nat n))%Z ∨ (n = 32 ∧ bits = 256%Z)).
  { destruct (decide (n = 32)); [right; unfold n in *; lia|left]. change 256%Z with (2 ^ 8)%Z at 2.
    rewrite <- Z.pow_mul_r, <- Z.pow_add_r by lia. f_equal. unfold n. lia. }
  destruct (forallb _ (take n hash)) eqn:Hz; simpl negb; cbn iota.
  2: { split; [done|]. intros [_ Hlt]. exfalso. assert (from_be (take n hash) ≠ 0%Z).
       { intros E. apply from_be_zero in E; [|done]. congruence. }
       assert (256 ^ (32 - Z.of_nat n) ≤ from_be hash)%Z by nia.
       assert (2 ^ (256 - bits) ≤ 256 ^ (32 - Z.of_nat n))%Z; [|lia].
       change 256%Z with (2 ^ 8)%Z at 2. rewrite <- Z.pow_mul_r by lia. apply Z.pow_le_mono_r; unfold n; lia. }
  apply from_be_zero in Hz; [|done]. rewrite Hval, Hz, Z.mul_0_l, Z.add_0_l.
  destruct (Z.ltb_spec 0 (bits mod 8)) as [Hr|Hr].
  - destruct Hpow as [->|[_ ->]]; [|by vm_compute in Hr]. destruct (drop n hash) as [|b rest] eqn:Ed.
    { exfalso. simpl in Hdl. unfold n in Hdl. lia. }
    assert (Hnb : hash !! n = Some b) by (rewrite <- (Nat.add_0_r n), <- lookup_drop, Ed; done). rewrite Hnb. simpl default.
    apply Forall_cons in Hd as [Hbb Hrest]. rewrite Z.eqb_eq, land_mask by (done || lia).
    rewrite from_be_cons. pose proof (from_be_range _ Hrest) as Hrr. simpl length in Hdl.
    replace (31 - Z.of_nat n)%Z with (zlen rest) by lia.
    assert (0 < 256 ^ zlen rest)%Z by (apply Z.pow_pos_nonneg; lia).
    split; [intros; split; [lia|nia]|]. intros [_ ?]. nia.
  - split; [|done]. intros _. split; [lia|]. replace (2 ^ (256 - bits))%Z with (256 ^ (32 - Z.of_nat n))%Z; [lia|].
    change 256%Z with (2 ^ 8)%Z at 1. rewrite <- Z.pow_mul_r by lia. f_equal. unfold n. lia.
Qed.

(** ** The table *)

Section laws.
Context (sha256 : bytes → bytes).
Hypothesis sha256_length : ∀ x, length (sha256 x) = 32.
Hypothesis sha256_bytes : ∀ x, all_bytes (sha256 x).

(** The identifier is the proof of work of its key. *)
Definition proven (p : SkademliaPeer) : Prop :=
  generate_node_id sha256 (pr_pubkey p) (pr_static_nonce p) (pr_dynamic_nonce p) = Some (pr_node_id p).

Record table_ok (t : SkademliaRoutingTable) : Prop := {
  tk_size i b : tb_buckets t !! i = Some b → (zlen b ≤ tb_capacity t)%Z;
  tk_nodup i b : tb_buckets t !! i = Some b → NoDup (pr_node_id <$> b);
  tk_peer i b p : tb_buckets t !! i = Some b → p ∈ b →
    bucket_index (tb_self t) (pr_node_id p) = i ∧ proven p ∧ pr_node_id p ≠ tb_self t
}.

Lemma table_new_ok self capacity : table_ok (table_new self capacity).
Proof. split; intros i b; simpl; rewrite lookup_empty; done. Qed.

Lemma proven_bytes p : proven p → length (pr_node_id p) = 32 ∧ all_bytes (pr_node_id p) ∧
  (from_be (pr_node_id p) < 2 ^ 248)%Z.
Proof.
  unfold proven, generate_node_id. destruct (negb _); [done|]. destruct (check_leading_zeros _ _) eqn:Hc; [|done].
  intros [= <-]. unfold dynamic_hash in *. split; [apply sha256_length|]. split; [apply sha256_bytes|].
  apply check_leading_zeros_spec in Hc; [apply Hc|apply sha256_length|apply sha256_bytes|done].
Qed.

Lemma lowest_in i best b j p : lowest i best b = Some (j, p) → best = Some (j, p) ∨ i ≤ j ∧ b !! (j - i) = Some p.
Proof.
  revert i best. induction b as [|q b IH]; intros i best; cbn [lowest]; [by left|]. intros Hl.
  apply IH in Hl as [Hl|[Hle Hl]].
  - destruct best as [[k r]|]; [destruct (_ <? _)%Z; [|by left]|]; injection Hl as <- <-; right; (split; [done|]);
      by rewrite Nat.sub_diag.
  - right. split; [lia|]. replace (j - i) with (S (j - S i)) by lia. done.
Qed.

(** One bucket replaced. *)
Lemma table_put t i b :
  table_ok t → (zlen b ≤ tb_capacity t)%Z → NoDup (pr_node_id <$> b) →
  (∀ p, p ∈ b → bucket_index (tb_self t) (pr_node_id p) = i ∧ proven p ∧ pr_node_id p ≠ tb_self t) →
  table_ok (mk_table (tb_self t) (<[i := b]> (tb_buckets t)) (tb_capacity t)).
Proof.
  intros Ht Hs Hn Hp. split; simpl.
  - intros j c [[<- <-]|[_ ?]]%lookup_insert_Some; [done|by eapply tk_size].
  - intros j c [[<- <-]|[_ ?]]%lookup_insert_Some; [done|by eapply tk_nodup].
  - intros j c p [[<- <-]|[_ ?]]%lookup_insert_Some; [apply Hp|by eapply tk_peer].
Qed.

Lemma ids_insert (b : list SkademliaPeer) i q p :
  b !! i = Some q → NoDup (pr_node_id <$> b) → (∀ r, r ∈ b → pr_node_id r = pr_node_id p → pr_node_id q = pr_node_id p) →
  NoDup (pr_node_id <$> <[i := p]> b).
Proof.
  intros Hi Hn Hq. rewrite list_fmap_insert. apply NoDup_alt. intros j k x Hj Hk.
  pose proof (lookup_lt_Some _ _ _ Hi) as Hlt. rewrite NoDup_alt in Hn.
  assert (Hl : ∀ m y, m ≠ i → (pr_node_id <$> b) !! m = Some y → y = pr_node_id p → m = i).
  { intros m y Hm Hy ->. rewrite list_lookup_fmap in Hy. apply fmap_Some in Hy as (r & Hr & Er).
    apply (Hn m i (pr_node_id p)); rewrite list_lookup_fmap; [by rewrite Hr, Er|].
    rewrite Hi. simpl. f_equal. apply (Hq r); [by eapply list_elem_of_lookup_2|done]. }
  apply list_lookup_insert_Some in Hj as [(<- & <- & _)|[Hj Hj']], Hk as [(<- & Hx & _)|[Hk Hk']]; try done.
  - symmetry. by apply (Hl k (pr_node_id p)).
  - by apply (Hl j x).
  - by eapply Hn.
Qed.

(** C37: whatever peers are offered, every bucket stays within the capacity and
    holds distinct identifiers, none of them the node's own, all of the prefix
    length of the bucket and each the proof of work of its public key. *)
Theorem table_invariant self capacity (ps : list SkademliaPeer) :
  (0 ≤ capacity)%Z → table_ok (foldl (λ t p, (add_peer sha256 t p).1) (table_new self capacity) ps).
Proof.
  intros Hcap. assert (Hrun : ∀ t, table_ok t → (0 ≤ tb_capacity t)%Z →
    table_ok (foldl (λ t p, (add_peer sha256 t p).1) t ps)); [|by apply Hrun; [apply table_new_ok|]].
  induction ps as [|p ps IH]; intros t Ht Hc; [done|]. simpl. apply IH; cycle 1.
  { unfold add_peer. destruct (bool_decide _); [done|]. destruct (bool_decide _); [done|]. cbv zeta.
    destruct (list_find _ _) as [[i q]|]; [done|]. destruct (_ <? _)%Z; [done|].
    destruct (lowest _ _ _) as [[i w]|]; [by destruct (f64_lt _ _)|done]. }
  unfold add_peer. destruct (bool_decide _) eqn:Hself; [done|]. apply bool_decide_eq_false in Hself.
  destruct (bool_decide _) eqn:Hpow; [done|]. apply bool_decide_eq_false, dec_stable in Hpow. cbv zeta.
  set (i := bucket_index (tb_self t) (pr_node_id p)). set (b := default [] (tb_buckets t !! i)).
  assert (Hb : (zlen b ≤ tb_capacity t)%Z ∧ NoDup (pr_node_id <$> b) ∧
    ∀ q, q ∈ b → bucket_index (tb_self t) (pr_node_id q) = i ∧ proven q ∧ pr_node_id q ≠ tb_self t).
  { unfold b. destruct (tb_buckets t !! i) as [c|] eqn:Hc'; simpl.
    - split; [by eapply tk_size|]. split; [by eapply tk_nodup|]. intros q. by eapply tk_peer.
    - split; [done|]. split; [constructor|]. intros q Hq. by apply not_elem_of_nil in Hq. }
  destruct Hb as (Hsize & Hnd & Hpeers).
  assert (Hins : ∀ j, ∀ q, q ∈ <[j := p]> b → bucket_index (tb_self t) (pr_node_id q) = i ∧ proven q ∧ pr_node_id q ≠ tb_self t).
  { intros j q Hq. apply list_elem_of_lookup_1 in Hq as [k Hk].
    apply list_lookup_insert_Some in Hk as [(_ & <- & _)|[_ Hk]]; [done|]. apply Hpeers. by eapply list_elem_of_lookup_2. }
  destruct (list_find _ b) as [[j q]|] eqn:Hf.
  - apply list_find_Some in Hf as (Hj & Hq & _). apply table_put; try done; [by rewrite length_insert| |apply Hins].
    by eapply ids_insert.
  - apply list_find_None in Hf. rewrite Forall_forall in Hf. destruct (Z.ltb_spec (zlen b) (tb_capacity t)).
    + apply table_put; try done.
      * rewrite length_app. simpl. lia.
      * rewrite fmap_app. apply NoDup_app. split; [done|]. split; [|apply NoDup_singleton].
        intros x Hx ->%list_elem_of_singleton. apply list_elem_of_fmap in Hx as (q & Hq & Hin). by apply (Hf q).
      * intros q [Hq|Hq%list_elem_of_singleton]%elem_of_app; [by apply Hpeers|]. by subst q.
    + destruct (lowest 0 None b) as [[j w]|] eqn:Hlow; [|by apply table_put]. destruct (f64_lt _ _); [|by apply table_put].
      apply lowest_in in Hlow as [|[_ Hj]]; [done|]. rewrite Nat.sub_0_r in Hj.
      apply table_put; try done; [by rewrite length_insert| |apply Hins].
      eapply ids_insert; [done|done|]. intros r Hr Er. by apply (Hf r) in Hr.
Qed.

(** ** Proof of work *)

Lemma search_dynamic_spec pred static n : ∀ d0,
  match search_dynamic sha256 pred static n d0 with
  | Some (d, id) => (d0 ≤ d < d0 + Z.of_nat n)%Z ∧ id = dynamic_hash sha256 static d ∧
      check_leading_zeros id POW_DYNAMIC_DIFFICULTY_BITS = true ∧ pred id = true
  | None => ∀ d, (d0 ≤ d < d0 + Z.of_nat n)%Z →
      check_leading_zeros (dynamic_hash sha256 static d) POW_DYNAMIC_DIFFICULTY_BITS = true →
      pred (dynamic_hash sha256 static d) = false
  end.
Proof.
  induction n as [|n IH]; intros d0; cbn [search_dynamic]; [lia|].
  destruct (_ && _) eqn:Hc; [apply andb_prop in Hc as [? ?]; split; [lia|done]|].
  specialize (IH (d0 + 1)%Z). destruct (search_dynamic _ _ _ n _) as [[d id]|].
  - destruct IH as [? ?]. split; [lia|done].
  - intros d Hd Hl. destruct (decide (d = d0)) as [->|]; [|apply IH; [lia|done]]. by rewrite Hl in Hc.
Qed.

(** The search returns nonces within the budgets that mint an identifier the
    caller accepts, and finds one when there is one. *)
Theorem pow_search_spec pubkey static_budget dynamic_budget pred :
  match find_pow_nonces_where sha256 pubkey static_budget dynamic_budget pred with
  | Some (s, d, id) => (0 ≤ s < Z.of_nat static_budget)%Z ∧ (0 ≤ d < Z.of_nat dynamic_budget)%Z ∧
      generate_node_id sha256 pubkey s d = Some id ∧ pred id = true
  | None => ∀ s d id, (0 ≤ s < Z.of_nat static_budget)%Z → (0 ≤ d < Z.of_nat dynamic_budget)%Z →
      generate_node_id sha256 pubkey s d = Some id → pred id = false
  end.
Proof.
  unfold find_pow_nonces_where, generate_node_id.
  assert (Hrun : ∀ n s0, match search_static sha256 pred pubkey dynamic_budget n s0 with
    | Some (s, d, id) => (s0 ≤ s < s0 + Z.of_nat n)%Z ∧ (0 ≤ d < Z.of_nat dynamic_budget)%Z ∧
        generate_node_id sha256 pubkey s d = Some id ∧ pred id = true
    | None => ∀ s d id, (s0 ≤ s < s0 + Z.of_nat n)%Z → (0 ≤ d < Z.of_nat dynamic_budget)%Z →
        generate_node_id sha256 pubkey s d = Some id → pred id = false
    end); [|apply (Hrun static_budget 0%Z)].
  induction n as [|n IH]; intros s0; cbn [search_static]; [lia|]. specialize (IH (s0 + 1)%Z).
  pose proof (search_dynamic_spec pred (static_hash sha256 pubkey s0) dynamic_budget 0) as Hd.
  unfold generate_node_id in *. destruct (check_leading_zeros (static_hash sha256 pubkey s0) _) eqn:Hs; simpl negb; cbn iota;
    [destruct (search_dynamic _ _ _ _ _) as [[d id]|]|].
  - destruct Hd as (Hb & -> & Hl & Hp). split; [lia|]. split; [lia|]. by rewrite Hs, Hl.
  - destruct (search_static _ _ _ _ _ _) as [[[s d] id]|]; [destruct IH as (? & ?); split; [lia|done]|].
    intros s d id Hsr Hdr. destruct (decide (s = s0)) as [->|]; [|apply IH; lia]. rewrite Hs. simpl negb. cbn iota.
    destruct (check_leading_zeros (dynamic_hash _ _ _) _) eqn:Hl; [|done]. intros [= <-]. apply Hd; [lia|done].
  - destruct (search_static _ _ _ _ _ _) as [[[s d] id]|]; [destruct IH as (? & ?); split; [lia|done]|].
    intros s d id Hsr Hdr. destruct (decide (s = s0)) as [->|]; [by rewrite Hs|apply IH; lia].
Qed.

(** ** The closest peers *)

Section closest.
Context (select_nth : bytes → nat → list SkademliaPeer → list SkademliaPeer).
(** What the standard library documents of [select_nth_unstable_by]: the list is
    rearranged, with nothing after position [n] before anything up to it. *)
Hypothesis select_nth_perm : ∀ t n l, n < length l → select_nth t n l ≡ₚ l.
Hypothesis select_nth_split : ∀ t n l a b, n < length l →
  a ∈ take n (select_nth t n l) → b ∈ drop n (select_nth t n l) → nearer t a b.

Lemma elem_of_concat {A} (x : A) (ls : list (list A)) : x ∈ concat ls ↔ ∃ l, l ∈ ls ∧ x ∈ l.
Proof. induction ls as [|l ls IH]; simpl; [set_solver|]. rewrite elem_of_app, IH. set_solver. Qed.

Lemma buckets_elem t p : p ∈ all_peers t ↔ ∃ i b, tb_buckets t !! i = Some b ∧ p ∈ b.
Proof.
  unfold all_peers. rewrite elem_of_concat. split.
  - intros (b & ([i b'] & -> & Hin)%list_elem_of_fmap & Hp). rewrite merge_sort_Permutation in Hin.
    apply elem_of_map_to_list in Hin. eauto.
  - intros (i & b & Hb & Hp). exists b. split; [|done]. apply list_elem_of_fmap. exists (i, b). split; [done|].
    rewrite merge_sort_Permutation. by apply elem_of_map_to_list.
Qed.

(** Two peers at one distance are one peer. *)
Lemma peers_distinct t p q : table_ok t → p ∈ all_peers t → q ∈ all_peers t → pr_node_id p = pr_node_id q → p = q.
Proof.
  intros Ht (i & b & Hb & Hp)%buckets_elem (j & c & Hc & Hq)%buckets_elem E.
  destruct (tk_peer _ Ht _ _ _ Hb Hp) as [Hi _]. destruct (tk_peer _ Ht _ _ _ Hc Hq) as [Hj _].
  rewrite E, Hj in Hi. subst j. rewrite Hb in Hc. injection Hc as <-.
  apply list_elem_of_lookup_1 in Hp as [k Hk]. apply list_elem_of_lookup_1 in Hq as [m Hm].
  pose proof (tk_nodup _ Ht _ _ Hb) as Hn. rewrite NoDup_alt in Hn.
  assert (k = m) as ->; [|congruence].
  apply (Hn k m (pr_node_id p)); rewrite list_lookup_fmap; [by rewrite Hk|by rewrite Hm, E].
Qed.

Lemma nearer_antisym t target p q :
  table_ok t → length target = 32 → p ∈ all_peers t → q ∈ all_peers t → nearer target p q → nearer target q p → p = q.
Proof.
  intros Ht Hl Hp Hq H1 H2. apply (peers_distinct t); try done.
  assert (Hlen : ∀ r, r ∈ all_peers t → length (pr_node_id r) = length target).
  { intros r (i & b & Hb & Hr)%buckets_elem. rewrite Hl. apply proven_bytes. by eapply tk_peer. }
  apply (xor_inj _ _ target); [by apply Hlen..|]. by apply str_leb_antisym.
Qed.

(** The closest peers are the first of all peers of the table in the order
    of their distance to the target. *)
Theorem find_closest_spec t target count :
  table_ok t → length target = 32 →
  find_closest select_nth t target count = take count (merge_sort (nearer target) (all_peers t)).
Proof.
  intros Ht Hl. unfold find_closest. set (ps := all_peers t).
  destruct (Nat.eqb_spec count 0) as [->|Hc]; [done|]. simpl orb.
  destruct (bool_decide (ps = [])) eqn:He; [apply bool_decide_eq_true in He; rewrite He; by destruct count|].
  destruct (Nat.ltb_spec count (length ps)) as [Hlt|Hge]; [|by rewrite take_ge by (by rewrite merge_sort_Permutation)].
  set (l := select_nth target count ps). assert (Hp : l ≡ₚ ps) by (by apply select_nth_perm).
  set (front := merge_sort (nearer target) (take count l)). set (back := merge_sort (nearer target) (drop count l)).
  assert (Hfront : length front = count).
  { unfold front. rewrite merge_sort_Permutation, length_take, Hp. lia. }
  assert (Heq : front ++ back = merge_sort (nearer target) ps).
  { apply (StronglySorted_unique_strong (nearer target)).
    - intros p q Hpin Hqin. apply (nearer_antisym t); try done.
      + change (p ∈ ps). rewrite <- Hp, <- (take_drop count l). rewrite elem_of_app in Hpin |- *.
        unfold front, back in Hpin. by rewrite !merge_sort_Permutation in Hpin.
      + change (q ∈ ps). by rewrite merge_sort_Permutation in Hqin.
    - apply StronglySorted_app_2; [|apply StronglySorted_merge_sort..]; try apply _.
      intros p q Hpin Hqin. unfold front, back in *. rewrite merge_sort_Permutation in Hpin, Hqin.
      by apply (select_nth_split target count ps).
    - apply StronglySorted_merge_sort; apply _.
    - unfold front, back. rewrite !merge_sort_Permutation, take_drop. done. }
  rewrite <- Heq, take_app_le by lia. by rewrite take_ge by lia.
Qed.
End closest.
End laws.

(** ** Examples *)

Module KademliaExamples.

(** A digest that ends in a checksum of the input. *)
Definition digest (x : bytes) : bytes := replicate 31 0%Z ++ [(foldl (λ acc b, acc * 7 + b) 3 x mod 256)%Z].
Definition self : bytes := replicate 32 0%Z.

Definition peer (name : string) (score n : Z) : SkademliaPeer :=
  mk_peer (default [] (generate_node_id digest (lit name) n 0)) (lit name) [] score n 0.
Definition offered : list SkademliaPeer :=
  [peer "ann" 5 1; peer "bob" 6 2; peer "cat" 4 3; mk_peer self (lit "eve") [] 9 0 0; peer "dan" 7 4; peer "ann" 8 1].
Definition table : SkademliaRoutingTable := foldl (λ t p, (add_peer digest t p).1) (table_new self 2) offered.

Lemma digest_size x : length (digest x) = 32.
Proof. unfold digest. by rewrite length_app, length_replicate. Qed.

Lemma digest_is_bytes x : all_bytes (digest x).
Proof.
  unfold digest. apply Forall_app. split; [by apply all_bytes_replicate|]. repeat constructor; apply Z.mod_pos_bound; lia.
Qed.

Lemma table_invariant_witness : table_ok digest table ∧ length (all_peers table) = 4.
Proof. split; [apply (table_invariant digest self 2 offered); lia|by vm_compute]. Defined.

Definition select (t : bytes) (n : nat) (l : list SkademliaPeer) : list SkademliaPeer := merge_sort (nearer t) l.

Lemma select_perm t n l : n < length l → select t n l ≡ₚ l.
Proof. intros _. apply merge_sort_Permutation. Qed.

Lemma select_split t n l a b : n < length l → a ∈ take n (select t n l) → b ∈ drop n (select t n l) → nearer t a b.
Proof.
  intros _. unfold select. pose proof (StronglySorted_merge_sort (nearer t) l) as Hs.
  rewrite <- (take_drop n (merge_sort (nearer t) l)) in Hs. by apply StronglySorted_app_1_elem_of.
Qed.

Lemma find_closest_spec_witness :
  find_closest select table self 2 = take 2 (merge_sort (nearer self) (all_peers table)) ∧
  length (find_closest select table self 2) = 2.
Proof.
  split; [|by vm_compute].
  apply (find_closest_spec digest digest_size digest_is_bytes select select_perm select_split table self 2); [|done].
  apply (table_invariant digest self 2 offered). lia.
Defined.
End KademliaExamples.
