(* ===== verification/RateLimit.v ===== *)
(** The attempt limiter: src/network-core/src/rate_limit.rs. A pure function
    from the stored counters and the clock to the decision and the counters to
    store; its JSON wrapper is not modelled. *)

From S2P Require Import Prelude.

(** Source: src/network-core/src/rate_limit.rs:5-12 (RateLimitInput) *)
Record RateLimitInput := mk_input {
  rl_attempts : Z;
  rl_first_attempt : Z;
  rl_now : Z;
  rl_max_attempts : Z;
  rl_window_ms : Z;
  rl_blocked_until : option Z
}.

(** Source: src/network-core/src/rate_limit.rs:15-22 (RateLimitOutput) *)
Record RateLimitOutput := mk_output {
  rl_allowed : bool;
  rl_remaining_attempts : Z;
  rl_retry_after : option Z;
  rl_new_attempts : Z;
  rl_new_first_attempt : Z;
  rl_new_blocked_until : option Z
}.

(** Source: src/network-core/src/rate_limit.rs:52-66 (rate_limit_check, refusal) *)
Definition refuse (i : RateLimitInput) : RateLimitOutput :=
  let exp := Z.min (rl_attempts i) 30 in
  let backoff_secs := Z.min (Z.min u64_max (2 ^ exp)) 3600 in
  let backoff_ms := (backoff_secs * 1000)%Z in
  mk_output false 0 (Some backoff_ms) (rl_attempts i) (rl_first_attempt i) (Some (sat_add u64_max (rl_now i) backoff_ms)).

(** Source: src/network-core/src/rate_limit.rs:27-28 (rate_limit_check, block) *)
Definition is_blocked (i : RateLimitInput) : bool :=
  match rl_blocked_until i with Some blocked_until => (rl_now i <? blocked_until)%Z | None => false end.

(** Source: src/network-core/src/rate_limit.rs:24-80 (rate_limit_check) *)
Definition rate_limit_check (i : RateLimitInput) : RateLimitOutput :=
  if is_blocked i then
    mk_output false 0 ((λ b, b - rl_now i)%Z <$> rl_blocked_until i) (rl_attempts i) (rl_first_attempt i) (rl_blocked_until i)
  else if (rl_window_ms i <=? sat_sub (rl_now i) (rl_first_attempt i))%Z then
    mk_output true (sat_sub (rl_max_attempts i) 1) None 1 (rl_now i) None
  else if (rl_max_attempts i <=? rl_attempts i)%Z then refuse i
  else
    let new_attempts := sat_add u32_max (rl_attempts i) 1 in
    mk_output true (sat_sub (rl_max_attempts i) new_attempts) None new_attempts (rl_first_attempt i) None.

(** ** A sequence of attempts *)

(** What a caller stores between two attempts. *)
Record counters := mk_counters { cn_attempts : Z; cn_first : Z; cn_blocked : option Z }.

Definition attempt (max window : Z) (c : counters) (now : Z) : counters * bool :=
  let o := rate_limit_check (mk_input (cn_attempts c) (cn_first c) now max window (cn_blocked c)) in
  (mk_counters (rl_new_attempts o) (rl_new_first_attempt o) (rl_new_blocked_until o), rl_allowed o).

Fixpoint attempts (max window : Z) (c : counters) (times : list Z) : counters * list bool :=
  match times with
  | [] => (c, [])
  | now :: times =>
      let '(c, a) := attempt max window c now in
      let '(c, r) := attempts max window c times in (c, a :: r)
  end.

Definition allowed (r : list bool) : Z := zlen (filter (λ a, a = true) r).

Lemma allowed_cons a r : allowed (a :: r) = ((if a then 1 else 0) + allowed r)%Z.
Proof.
  unfold allowed. destruct a; [rewrite filter_cons_True by done; rewrite length_cons; lia|by rewrite filter_cons_False].
Qed.

Lemma next_window t0 first now window :
  (0 < window → t0 <= first → window <= now - first → (first - t0) / window + 1 <= (now - t0) / window)%Z.
Proof.
  intros Hw Ht Hn. replace ((first - t0) / window + 1)%Z with ((first - t0 + 1 * window) / window)%Z by (rewrite Z.div_add by lia; lia).
  apply Z.div_le_mono; lia.
Qed.

(** What bounds the attempts that were let through by the counters. *)
Definition within (max window t0 last w : Z) (c : counters) : Prop :=
  (t0 <= cn_first c <= last ∧ 0 <= cn_attempts c <= Z.max 1 max ∧
   w <= Z.max 1 max * ((cn_first c - t0) / window) + cn_attempts c)%Z.

Lemma attempt_within max window t0 last w c now :
  (0 < window)%Z → (0 <= max <= u32_max)%Z → (last <= now)%Z → within max window t0 last w c →
  let '(c', a) := attempt max window c now in within max window t0 now (w + if a then 1 else 0)%Z c'.
Proof.
  intros Hw Hm Hn (Hf & Hc & Hb). unfold attempt, rate_limit_check, within. cbn [rl_window_ms rl_now rl_first_attempt rl_attempts rl_max_attempts rl_blocked_until].
  destruct (is_blocked _); simpl; [lia|]. unfold sat_sub, sat_add.
  destruct (Z.leb_spec window (Z.max 0 (now - cn_first c))) as [Hr|Hr]; simpl.
  - pose proof (next_window t0 (cn_first c) now window Hw) as Hnw. split; [lia|]. split; [lia|]. nia.
  - destruct (Z.leb_spec max (cn_attempts c)); simpl; lia.
Qed.

(** Between [t0] and [tn], the limiter lets at most the allowed attempts
    through per started window (one, when none are allowed), however the
    attempts are spread. *)
Theorem attempts_bounded max window t0 tn times :
  (0 < window)%Z → (0 <= max <= u32_max)%Z → (t0 <= tn)%Z →
  StronglySorted Z.le times → Forall (λ t, t0 <= t <= tn)%Z times →
  (allowed (attempts max window (mk_counters 0 t0 None) times).2 <= Z.max 1 max * (1 + (tn - t0) / window))%Z.
Proof.
  intros Hw Hm Ht Hs Hr.
  assert (Hrun : ∀ last w c, within max window t0 last w c → (last <= tn)%Z → Forall (λ t, last <= t)%Z times →
    (w + allowed (attempts max window c times).2 <= Z.max 1 max * (1 + (tn - t0) / window))%Z).
  { induction Hs as [|now times Hs IH Hnow]; intros last w c Hi Hl Hf; cbn [attempts].
    - destruct Hi as (Hft & Hc & Hb). unfold allowed. simpl.
      assert ((cn_first c - t0) / window <= (tn - t0) / window)%Z by (apply Z.div_le_mono; lia). nia.
    - apply Forall_cons in Hf as [Hln Hf], Hr as [Hnr Hr].
      pose proof (attempt_within max window t0 last w c now Hw Hm Hln Hi) as Hi'.
      destruct (attempt max window c now) as [c1 a]. specialize (IH Hr now _ c1 Hi').
      destruct (attempts max window c1 times) as [c2 r]. simpl in *. rewrite allowed_cons, Z.add_assoc. apply IH; [lia|done]. }
  apply (Hrun t0 0%Z (mk_counters 0 t0 None)); [|done|].
  - unfold within. simpl. rewrite Z.sub_diag, Z.div_0_l by lia. lia.
  - eapply Forall_impl; [exact Hr|]. simpl. lia.
Qed.

(** After a refusal that backs off, nothing is let through before its end, and
    the wait that is reported is the time that is left. *)
Lemma block_holds max window c now until :
  cn_blocked c = Some until → (now < until)%Z →
  attempt max window c now = (c, false) ∧
  rl_retry_after (rate_limit_check (mk_input (cn_attempts c) (cn_first c) now max window (cn_blocked c))) = Some (until - now)%Z.
Proof.
  intros Hb Hn. destruct c as [a f b]. simpl in *. subst b. unfold attempt, rate_limit_check, is_blocked. simpl.
  by rewrite (proj2 (Z.ltb_lt _ _) Hn).
Qed.

Module RateExamples.
Lemma attempts_bounded_witness :
  (allowed (attempts 3 1000 (mk_counters 0 0 None) [1; 2; 3; 4; 9000; 9001; 9002; 9003]).2 <= 3 * (1 + (9003 - 0) / 1000))%Z ∧
  (attempts 3 1000 (mk_counters 0 0 None) [1; 2; 3; 4; 9000; 9001; 9002; 9003]%Z).2 =
    [true; true; true; false; true; true; true; false].
Proof.
  split; [|by vm_compute]. apply (attempts_bounded 3 1000 0 9003); [lia|unfold u32_max; lia|lia| |].
  - repeat constructor; lia.
  - repeat constructor; lia.
Defined.
End RateExamples.
