(* ===== verification/BlobGrab.v ===== *)
(** Fetching a blob from a peer: src/network-core/src/blob_grab.rs. Workers
    take chunk numbers from a shared cursor and hand the bodies, in the order
    in which they complete, through a channel of one slot to a consumer, which
    puts them into the chunk store and the output file in manifest order. The
    threads are a step relation; what the network answers, the file system's
    failures and the checks of the output path are parameters. *)

From S2P Require Import Prelude RustStr Lru Cas.

(** Source: src/network-core/src/blob_grab.rs:52-52 (MAX_BLOB_FETCH_BYTES) *)
Definition MAX_BLOB_FETCH_BYTES : Z := 512 * 1024 * 1024.
(** Source: src/network-core/src/blob_grab.rs:54-54 (QUIC_MAX_CHUNK) *)
Definition QUIC_MAX_CHUNK : Z := 16 * 1024 * 1024.
(** Source: src/network-core/src/blob_grab.rs:60-60 (CONCURRENT_CHUNKS) *)
Definition CONCURRENT_CHUNKS : nat := 8.

(** The chunk store, the temporary file and the chunks that were new.
    Source: src/network-core/src/blob_grab.rs:267-274 (fetch_blob_from_peer, state) *)
Record grab := mk_grab { gb_cas : cas; gb_file : bytes; gb_new : list str }.

Section grab.
Context `{ChunkEnv}.

(** ** One chunk *)

(** Source: src/network-core/src/lan_transport.rs:661-691 (fetch_verified_chunk) *)
Definition fetch_verified_chunk (tcp : ChunkRef → may_fail bytes) (c : ChunkRef) : may_fail bytes :=
  _ ← ensure (zlen (ck_blake3 c) =? 64)%Z "invalid chunk hash";
  data ← tcp c;
  _ ← ensure (eq_ignore_ascii_case (blake3 data) (ck_blake3 c)) "chunk hash mismatch after transfer";
  Ok data.

(** Source: src/network-core/src/blob_grab.rs:118-154 (fetch_chunk_bytes, quic) *)
Definition fetch_quic_chunk (quic : ChunkRef → may_fail bytes) (c : ChunkRef) : may_fail bytes :=
  _ ← ensure (negb ((ck_len c =? 0)%Z || (QUIC_MAX_CHUNK <? ck_len c)%Z)) "bad chunk request";
  data ← quic c;
  _ ← ensure (bool_decide (blake3 data = ck_blake3 c)) "chunk hash mismatch after transfer";
  Ok data.

(** Source: src/network-core/src/blob_grab.rs:106-177 (fetch_chunk_bytes) *)
Definition fetch_chunk_bytes (quic : option (ChunkRef → may_fail bytes)) (tcp : ChunkRef → may_fail bytes)
    (c : ChunkRef) : may_fail bytes :=
  match quic with
  | Some quic =>
      match fetch_quic_chunk quic c with
      | Ok data => Ok data
      | Err _ => map_err (λ _, Fail "quic; tcp") (fetch_verified_chunk tcp c)
      end
  | None => map_err (λ _, Fail "tcp") (fetch_verified_chunk tcp c)
  end.

(** ** The consumer *)

(** What the disk answers to the store and to the file, per chunk. *)
Context (io_store io_write : nat → bool) (now : Z).

(** Source: src/network-core/src/blob_grab.rs:342-364 (fetch_blob_from_peer, consumer) *)
Definition consume (bi : nat) (c : ChunkRef) (res : may_fail bytes) (g : grab) : grab * may_fail unit :=
  match res with
  | Err e => (g, Err e)
  | Ok bytes =>
      if negb (zlen bytes =? ck_len c)%Z then (g, err "chunk short")
      else
        let '(s, stored) := put_trusted (io_store bi) now (gb_cas g) (ck_blake3 c) bytes in
        if negb stored && negb (contains s (ck_blake3 c)) then (mk_grab s (gb_file g) (gb_new g), err "chunk store failed")
        else
          let newly := if stored then gb_new g ++ [ck_blake3 c] else gb_new g in
          if io_write bi then (mk_grab s (gb_file g ++ bytes) newly, Ok ())
          else (mk_grab s (gb_file g) newly, err "write")
  end.

(** ** The threads *)

Context (chunks : list ChunkRef) (body : nat → may_fail bytes).

(** What a worker is doing: between two chunks, fetching one, or waiting until
    its body fits into the channel. *)
Inductive worker :=
| Idle
| Fetching (idx : nat)
| Sending (idx : nat) (res : may_fail bytes)
| Stopped.

(** The cursor, the workers, the slot of the channel, the bodies that came
    early, the next chunk to write, and how the consumer ended.
    Source: src/network-core/src/blob_grab.rs:303-309 (fetch_blob_from_peer, pool) *)
Record pipe := mk_pipe {
  pp_cursor : nat;
  pp_workers : list worker;
  pp_slot : option (nat * may_fail bytes);
  pp_pending : gmap nat (may_fail bytes);
  pp_next : nat;
  pp_grab : grab;
  pp_result : option (may_fail unit)
}.

Definition set_worker (w : nat) (x : worker) (p : pipe) : pipe :=
  mk_pipe (pp_cursor p) (<[w := x]> (pp_workers p)) (pp_slot p) (pp_pending p) (pp_next p) (pp_grab p) (pp_result p).
Definition advance (p : pipe) : pipe :=
  mk_pipe (S (pp_cursor p)) (pp_workers p) (pp_slot p) (pp_pending p) (pp_next p) (pp_grab p) (pp_result p).
Definition set_slot (x : option (nat * may_fail bytes)) (p : pipe) : pipe :=
  mk_pipe (pp_cursor p) (pp_workers p) x (pp_pending p) (pp_next p) (pp_grab p) (pp_result p).
Definition set_pending (x : gmap nat (may_fail bytes)) (p : pipe) : pipe :=
  mk_pipe (pp_cursor p) (pp_workers p) (pp_slot p) x (pp_next p) (pp_grab p) (pp_result p).
Definition set_result (x : may_fail unit) (p : pipe) : pipe :=
  mk_pipe (pp_cursor p) (pp_workers p) (pp_slot p) (pp_pending p) (pp_next p) (pp_grab p) (Some x).

(** The chunk whose turn it is was received. *)
Definition take_turn (c : ChunkRef) (res : may_fail bytes) (p : pipe) : pipe :=
  let '(g, r) := consume (pp_next p) c res (pp_grab p) in
  match r with
  | Ok _ => mk_pipe (pp_cursor p) (pp_workers p) (pp_slot p) (pp_pending p) (S (pp_next p)) g None
  | Err e => mk_pipe (pp_cursor p) (pp_workers p) (pp_slot p) (pp_pending p) (pp_next p) g (Some (Err e))
  end.

(** Source: src/network-core/src/blob_grab.rs:310-367 (fetch_blob_from_peer, scope) *)
Inductive pipe_step : pipe → pipe → Prop :=
| WorkerPulls p w : pp_workers p !! w = Some Idle → pp_cursor p < length chunks →
    pipe_step p (set_worker w (Fetching (pp_cursor p)) (advance p))
| WorkerStops p w : pp_workers p !! w = Some Idle → length chunks ≤ pp_cursor p →
    pipe_step p (set_worker w Stopped (advance p))
| WorkerFetches p w i : pp_workers p !! w = Some (Fetching i) → pipe_step p (set_worker w (Sending i (body i)) p)
| WorkerSends p w i r : pp_workers p !! w = Some (Sending i r) → pp_slot p = None → pp_result p = None →
    pipe_step p (set_worker w Idle (set_slot (Some (i, r)) p))
| WorkerGivesUp p w i r : pp_workers p !! w = Some (Sending i r) → is_Some (pp_result p) →
    pipe_step p (set_worker w Stopped p)
| TakePending p c r : pp_result p = None → chunks !! pp_next p = Some c → pp_pending p !! pp_next p = Some r →
    pipe_step p (take_turn c r (set_pending (delete (pp_next p) (pp_pending p)) p))
| TakeSlot p c r : pp_result p = None → chunks !! pp_next p = Some c → pp_pending p !! pp_next p = None →
    pp_slot p = Some (pp_next p, r) → pipe_step p (take_turn c r (set_slot None p))
| KeepSlot p c i r : pp_result p = None → chunks !! pp_next p = Some c → pp_pending p !! pp_next p = None →
    pp_slot p = Some (i, r) → i ≠ pp_next p → pipe_step p (set_pending (<[i := r]> (pp_pending p)) (set_slot None p))
| Disconnected p c : pp_result p = None → chunks !! pp_next p = Some c → pp_pending p !! pp_next p = None →
    pp_slot p = None → Forall (λ x, x = Stopped) (pp_workers p) → pipe_step p (set_result (err "chunk thread panic") p)
| AllWritten p : pp_result p = None → length chunks ≤ pp_next p → pipe_step p (set_result (Ok ()) p).

(** Source: src/network-core/src/blob_grab.rs:305-305 (fetch_blob_from_peer, workers) *)
Definition pool_size : nat := min CONCURRENT_CHUNKS (max (length chunks) 1).

Definition pipe_start (g : grab) : pipe := mk_pipe 0 (replicate pool_size Idle) None ∅ 0 g None.
End grab.

Section fetch.
Context `{ChunkEnv}.
Context (io_store io_write : nat → bool) (now : Z).

(** The chunks one after the other, up to the first that fails: what the
    threads compute. *)
Fixpoint absorb (body : nat → may_fail bytes) (bi : nat) (chunks : list ChunkRef) (g : grab) : grab * may_fail unit :=
  match chunks with
  | [] => (g, Ok ())
  | c :: chunks =>
      match consume io_store io_write now bi c (body bi) g with
      | (g, Ok _) => absorb body (S bi) chunks g
      | (g, Err e) => (g, Err e)
      end
  end.

(** Source: src/network-core/src/blob_grab.rs:252-262 (fetch_blob_from_peer, manifest) *)
Definition check_manifest (blob_hash : str) (json : bytes) : may_fail ChunkManifest :=
  manifest ← ok_or (Fail "hostile manifest json") (manifest_from_json json);
  _ ← ensure (bool_decide (mf_blob_hash manifest = blob_hash)) "manifest hash mismatch";
  _ ← ensure (mf_total_size manifest <=? MAX_BLOB_FETCH_BYTES)%Z "blob too large";
  _ ← ensure (is_valid manifest) "hostile manifest structure";
  Ok manifest.

(** Source: src/network-core/src/blob_grab.rs:383-385 (fetch_blob_from_peer, clean-up) *)
Definition remove_chunks (hashes : list str) (s : cas) : cas := foldr (λ h, unlink (chunk_path h)) s hashes.

(** The store, what stands at the output path if anything was put there, and
    the answer. [renamed] and [saved] tell whether the rename and the writing of
    the manifest succeed.
    Source: src/network-core/src/blob_grab.rs:225-388 (fetch_blob_from_peer) *)
Definition fetch_blob_from_peer (private : bool) (out_path : may_fail unit) (created renamed saved : bool)
    (manifest_json : may_fail bytes) (body : ChunkRef → may_fail bytes) (blob_hash : str) (s : cas)
    : cas * option bytes * may_fail Z :=
  match
    (_ ← ensure (zlen blob_hash =? 64)%Z "invalid blob hash";
     _ ← ensure private "refusing non-private LAN peer";
     _ ← out_path;
     json ← manifest_json;
     check_manifest blob_hash json)
  with
  | Err e => (s, None, Err e)
  | Ok manifest =>
      if negb created then (s, None, err "write")
      else
        let bodies i := match mf_chunks manifest !! i with Some c => body c | None => err "" end in
        let '(g, r) := absorb bodies 0 (mf_chunks manifest) (mk_grab s [] []) in
        match r with
        | Err e => (remove_chunks (gb_new g) (gb_cas g), None, Err e)
        | Ok _ =>
            if negb (bool_decide (blake3 (gb_file g) = blob_hash)) then
              (remove_chunks (gb_new g) (gb_cas g), None, err "blob hash mismatch after transfer")
            else if negb renamed then (remove_chunks (gb_new g) (gb_cas g), None, err "atomic rename")
            else
              let '(s, r) := save_manifest saved now (gb_cas g) manifest in
              match r with
              | Err _ => (remove_chunks (gb_new g) s, Some (gb_file g), err "manifest persist")
              | Ok _ => (s, Some (gb_file g), Ok (zlen (gb_file g)))
              end
        end
  end.
End fetch.
