(* ===== verification/BlobLaws.v ===== *)
(** Fetching a blob: the worker threads always finish and leave exactly what
    fetching the chunks one after the other leaves; a blob that is reported as
    fetched has the hash that was asked for and is in the store, unless a
    damaged file hides a chunk; a failure leaves the store as it was. *)

From S2P Require Import Prelude RustStr Sql Lru Cas CasLaws BlobGrab.

Section threads.
Context `{ChunkEnv}.
Context (io_store io_write : nat → bool) (now : Z) (chunks : list ChunkRef) (body : nat → may_fail bytes) (g0 : grab).

Abbreviation step := (pipe_step io_store io_write now chunks body).
Abbreviation start := (pipe_start chunks g0).

(** The first [k] chunks, one after the other. *)
Definition absorbed (k : nat) : grab * may_fail unit := absorb io_store io_write now body 0 (take k chunks) g0.

Lemma absorb_app l1 l2 i g :
  absorb io_store io_write now body i (l1 ++ l2) g =
  match absorb io_store io_write now body i l1 g with
  | (g, Ok _) => absorb io_store io_write now body (i + length l1) l2 g
  | (g, Err e) => (g, Err e)
  end.
Proof.
  revert i g. induction l1 as [|c l1 IH]; intros i g; cbn [absorb app length]; [by rewrite Nat.add_0_r|].
  destruct (consume _ _ _ _ _ _ _) as [g1 [u|e]]; [|done]. rewrite IH. by replace (S i + length l1) with (i + S (length l1)) by lia.
Qed.

Lemma absorbed_next k c :
  chunks !! k = Some c →
  absorbed (S k) = match absorbed k with
    | (g, Ok _) => consume io_store io_write now k c (body k) g
    | (g, Err e) => (g, Err e)
    end.
Proof.
  intros Hc. unfold absorbed. rewrite (take_S_r _ _ _ Hc), absorb_app. destruct (absorb _ _ _ _ _ (take k chunks) _) as [g [u|e]]; [|done].
  cbn [absorb]. rewrite length_take_le by (apply lookup_lt_Some in Hc; lia). simpl.
  by destruct (consume _ _ _ _ _ _ _) as [g1 [[]|e]].
Qed.

(** A failure is where the whole run stops. *)
Lemma absorbed_error k g e : absorbed k = (g, Err e) → absorbed (length chunks) = (g, Err e).
Proof.
  intros Hk. unfold absorbed in *. rewrite take_ge by done. rewrite <- (take_drop k chunks), absorb_app. by rewrite Hk.
Qed.

Definition holds (w : worker) (i : nat) : Prop := w = Fetching i ∨ ∃ r, w = Sending i r.

Record pipe_ok (p : pipe) : Prop := {
  po_progress : pp_result p = None → pp_next p ≤ length chunks ∧ absorbed (pp_next p) = (pp_grab p, Ok ());
  po_result r : pp_result p = Some r → absorbed (length chunks) = (pp_grab p, r);
  po_pending i r : pp_pending p !! i = Some r → r = body i;
  po_slot i r : pp_slot p = Some (i, r) → r = body i;
  po_sending w i r : pp_workers p !! w = Some (Sending i r) → r = body i;
  po_placed i : pp_result p = None → i < pp_cursor p → i < length chunks → pp_next p ≤ i →
    is_Some (pp_pending p !! i) ∨ (∃ r, pp_slot p = Some (i, r)) ∨ (∃ w x, pp_workers p !! w = Some x ∧ holds x i);
  po_stopped w : pp_result p = None → pp_workers p !! w = Some Stopped → length chunks ≤ pp_cursor p;
  po_pool : pp_workers p ≠ []
}.

Lemma pipe_start_ok : pipe_ok start.
Proof.
  split; simpl; try done.
  - intros _. split; [lia|done].
  - intros w i r [? _]%lookup_replicate_1. done.
  - intros i _ Hi. lia.
  - intros w _ [? _]%lookup_replicate_1. done.
  - unfold pool_size. destruct (min CONCURRENT_CHUNKS _) eqn:E; [unfold CONCURRENT_CHUNKS in E; lia|done].
Qed.

(** A worker changes what it does. *)
Lemma worker_other p w x v y :
  pp_workers (set_worker w x p) !! v = Some y → (v = w ∧ y = x) ∨ (v ≠ w ∧ pp_workers p !! v = Some y).
Proof. simpl. intros [(<- & <- & _)|[Hv Hy]]%list_lookup_insert_Some; [by left|right]. split; [congruence|done]. Qed.

Lemma placed_worker p w x y i :
  pp_workers p !! w = Some x → (holds x i → holds y i) →
  (∃ v z, pp_workers p !! v = Some z ∧ holds z i) → ∃ v z, <[w := y]> (pp_workers p) !! v = Some z ∧ holds z i.
Proof.
  intros Hw Hxy (v & z & Hv & Hz). pose proof (lookup_lt_Some _ _ _ Hw). destruct (decide (v = w)) as [->|Hne].
  - exists w, y. rewrite list_lookup_insert_eq by done. split; [done|]. apply Hxy. congruence.
  - exists v, z. by rewrite list_lookup_insert_ne.
Qed.

Lemma insert_not_nil {A} i (x : A) (l : list A) : l ≠ [] → <[i := x]> l ≠ [].
Proof. destruct l; [done|]. by destruct i. Qed.

Lemma take_turn_ok p q c r :
  pipe_ok p → pp_result p = None → chunks !! pp_next p = Some c → r = body (pp_next p) →
  pp_cursor q = pp_cursor p → pp_workers q = pp_workers p → pp_next q = pp_next p → pp_grab q = pp_grab p →
  pp_result q = pp_result p →
  (∀ i x, pp_pending q !! i = Some x → pp_pending p !! i = Some x) →
  (∀ i x, pp_slot q = Some (i, x) → pp_slot p = Some (i, x)) →
  (∀ i, i ≠ pp_next p → is_Some (pp_pending p !! i) ∨ (∃ x, pp_slot p = Some (i, x)) →
        is_Some (pp_pending q !! i) ∨ (∃ x, pp_slot q = Some (i, x))) →
  pipe_ok (take_turn io_store io_write now c r q).
Proof.
  intros Hp Hn Hc -> Ecur Ew Enx Eg Er Hpend Hslot Hplaced. unfold take_turn. rewrite Enx, Eg.
  destruct (po_progress _ Hp Hn) as [Hle Hab]. pose proof (absorbed_next _ _ Hc) as Hnx. rewrite Hab in Hnx.
  pose proof (lookup_lt_Some _ _ _ Hc) as Hlt.
  destruct (consume _ _ _ _ _ _ _) as [g [[]|e]]; split; simpl; rewrite ?Ecur, ?Ew; try done.
  - intros i x Hx. by apply (po_pending _ Hp), Hpend.
  - intros i x Hx. by apply (po_slot _ Hp), Hslot.
  - apply (po_sending _ Hp).
  - intros i _ Hi Hil Hni. destruct (po_placed _ Hp i Hn Hi Hil) as [Hx|[Hx|Hx]]; [lia| | |by right; right].
    + destruct (Hplaced i) as [|]; [lia|by left|by left|by right; left].
    + destruct (Hplaced i) as [|]; [lia|by right|by left|by right; left].
  - intros w _. by apply (po_stopped _ Hp).
  - apply (po_pool _ Hp).
  - intros r [= <-]. by eapply absorbed_error.
  - intros i x Hx. by apply (po_pending _ Hp), Hpend.
  - intros i x Hx. by apply (po_slot _ Hp), Hslot.
  - apply (po_sending _ Hp).
  - apply (po_pool _ Hp).
Qed.

Lemma pipe_step_ok p p' : pipe_ok p → step p p' → pipe_ok p'.
Proof.
  intros Hp Hs. destruct Hs as [p w Hw Hc|p w Hw Hc|p w i Hw|p w i r Hw Hsl Hr|p w i r Hw [r' Hr]|p c r Hr Hc Hpe
    |p c r Hr Hc Hpe Hsl|p c i r Hr Hc Hpe Hsl Hne|p c Hr Hc Hpe Hsl Hall|p Hr Hn].
  - split; try apply Hp.
    + intros v i r [[-> ?]|[_ Hv]]%worker_other; [done|by apply (po_sending _ Hp v)].
    + simpl. intros i Hr Hi Hil Hni. destruct (decide (i = pp_cursor p)) as [->|].
      * right; right. exists w, (Fetching (pp_cursor p)). split; [|by left].
        apply list_lookup_insert_eq. by eapply lookup_lt_Some.
      * destruct (po_placed _ Hp i Hr) as [|[|Hx]]; [lia|done|done|by left|by right; left|]. right; right.
        eapply placed_worker; [exact Hw| |done]. intros [?|[? ?]]; done.
    + intros v Hr [[-> ?]|[_ Hv]]%worker_other; [done|]. pose proof (po_stopped _ Hp v Hr Hv). simpl. lia.
    + by apply insert_not_nil, Hp.
  - split; try apply Hp.
    + intros v i r [[-> ?]|[_ Hv]]%worker_other; [done|by apply (po_sending _ Hp v)].
    + simpl. intros i Hr Hi Hil Hni. destruct (po_placed _ Hp i Hr) as [|[|Hx]]; [lia|done|done|by left|by right; left|].
      right; right. eapply placed_worker; [exact Hw| |done]. intros [?|[? ?]]; done.
    + simpl. lia.
    + by apply insert_not_nil, Hp.
  - split; try apply Hp.
    + intros v j r [[-> [= -> ->]]|[_ Hv]]%worker_other; [done|by apply (po_sending _ Hp v)].
    + simpl. intros j Hr Hj Hjl Hnj. destruct (po_placed _ Hp j Hr) as [|[|Hx]]; [done|done|done|by left|by right; left|].
      right; right. eapply placed_worker; [exact Hw| |done]. intros [[= ->]|[? ?]]; [right; by eexists|done].
    + intros v Hr [[-> ?]|[_ Hv]]%worker_other; [done|]. by apply (po_stopped _ Hp v).
    + by apply insert_not_nil, Hp.
  - pose proof (po_sending _ Hp _ _ _ Hw) as ->. split; try apply Hp; simpl.
    + by intros j x [= <- <-].
    + intros v j x [[-> ?]|[_ Hv]]%(worker_other p w Idle v); [done|by apply (po_sending _ Hp v)].
    + intros j _ Hj Hjl Hnj. destruct (decide (j = i)) as [->|Hji]; [right; left; by eexists|].
      destruct (po_placed _ Hp j Hr) as [|[[x Hx]|Hx]]; [done|done|done|by left|by rewrite Hsl in Hx|]. right; right.
      eapply placed_worker; [exact Hw| |done]. intros [?|[? [= ? ?]]]; [done|congruence].
    + intros v _ [[-> ?]|[_ Hv]]%(worker_other p w Idle v); [done|]. by apply (po_stopped _ Hp v).
    + by apply insert_not_nil, Hp.
  - split; try apply Hp; simpl.
    + intros v j x [[-> ?]|[_ Hv]]%(worker_other p w Stopped v); [done|by apply (po_sending _ Hp v)].
    + intros j Hr0. by rewrite Hr in Hr0.
    + intros v Hr0. by rewrite Hr in Hr0.
    + by apply insert_not_nil, Hp.
  - eapply (take_turn_ok p); try done; simpl.
    + by apply (po_pending _ Hp).
    + intros i x [_ Hx]%lookup_delete_Some. done.
    + intros i Hi [Hx|Hx]; [left|by right]. by rewrite lookup_delete_ne.
  - eapply (take_turn_ok p); try done; simpl.
    + by apply (po_slot _ Hp).
    + intros i Hi [Hx|[x Hx]]; [by left|]. rewrite Hsl in Hx. by injection Hx as <- _.
  - pose proof (po_slot _ Hp _ _ Hsl) as ->. split; try apply Hp; simpl; try done.
    + intros j x [[<- <-]|[_ Hx]]%lookup_insert_Some; [done|by apply (po_pending _ Hp)].
    + intros j _ Hj Hjl Hnj. destruct (decide (j = i)) as [->|Hji]; [left; by rewrite lookup_insert_eq|].
      destruct (po_placed _ Hp j Hr) as [Hx|[[x Hx]|Hx]]; [done|done|done| | |by right; right].
      * left. by rewrite lookup_insert_ne.
      * rewrite Hsl in Hx. injection Hx as <- _. done.
  - exfalso. pose proof (lookup_lt_Some _ _ _ Hc) as Hlt.
    destruct (pp_workers p) as [|x l] eqn:Ew; [by apply (po_pool _ Hp)|]. apply Forall_cons in Hall as Hx. destruct Hx as [-> Hx].
    assert (length chunks ≤ pp_cursor p) by (apply (po_stopped _ Hp 0 Hr); by rewrite Ew).
    destruct (po_placed _ Hp (pp_next p) Hr) as [[x Hp1]|[[x Hx1]|(w & x & Hw & Hh)]]; [lia|lia|lia|congruence|congruence|].
    rewrite Ew in Hw. apply list_elem_of_lookup_2 in Hw. rewrite Forall_forall in Hall. rewrite (Hall _ Hw) in Hh.
    by destruct Hh as [?|[? ?]].
  - destruct (po_progress _ Hp Hr) as [Hle Hab]. split; try apply Hp; simpl; try done.
    intros r [= <-]. rewrite <- Hab. f_equal. lia.
Qed.

Lemma pipe_reachable_ok p : reachable (λ q, q = start) step p → pipe_ok p.
Proof. apply reachable_invariant; [intros q ->; apply pipe_start_ok|apply pipe_step_ok]. Qed.

(** ** Every run ends *)

Definition worker_weight (w : worker) : nat :=
  match w with Idle => 1 | Fetching _ => 4 | Sending _ _ => 3 | Stopped => 0 end.

Definition work_left (p : pipe) : nat :=
  4 * (length chunks - pp_cursor p) + sum_list_with worker_weight (pp_workers p) +
  (if pp_slot p is Some _ then 1 else 0) + (length chunks - pp_next p) + (if pp_result p is Some _ then 0 else 1).

Lemma sum_insert (l : list worker) w x y :
  l !! w = Some x →
  sum_list_with worker_weight (<[w := y]> l) + worker_weight x = sum_list_with worker_weight l + worker_weight y.
Proof.
  revert w. induction l as [|z l IH]; intros [|w] Hw; [done|done| |]; simpl in *; [injection Hw as ->; lia|].
  specialize (IH w Hw). lia.
Qed.

Lemma take_turn_work p c r :
  chunks !! pp_next p = Some c → pp_result p = None → work_left (take_turn io_store io_write now c r p) < work_left p.
Proof.
  intros Hc%lookup_lt_Some Hr. unfold take_turn, work_left. destruct (consume _ _ _ _ _ _ _) as [g [u|e]]; simpl; rewrite Hr; lia.
Qed.

Lemma step_work p p' : step p p' → work_left p' < work_left p.
Proof.
  intros Hs. destruct Hs as [p w Hw Hc|p w Hw Hc|p w i Hw|p w i r Hw Hsl Hr|p w i r Hw [r' Hr]|p c r Hr Hc Hpe
    |p c r Hr Hc Hpe Hsl|p c i r Hr Hc Hpe Hsl Hne|p c Hr Hc Hpe Hsl Hall|p Hr Hn].
  - pose proof (sum_insert _ w _ (Fetching (pp_cursor p)) Hw). unfold work_left. simpl in *. lia.
  - pose proof (sum_insert _ w _ Stopped Hw). unfold work_left. simpl in *. lia.
  - pose proof (sum_insert _ w _ (Sending i (body i)) Hw). unfold work_left. simpl in *. lia.
  - pose proof (sum_insert _ w _ Idle Hw). unfold work_left. simpl in *. rewrite Hsl. lia.
  - pose proof (sum_insert _ w _ Stopped Hw). unfold work_left. simpl in *. lia.
  - eapply Nat.lt_le_trans; [by apply take_turn_work|]. unfold work_left. simpl. lia.
  - eapply Nat.lt_le_trans; [by apply take_turn_work|]. unfold work_left. simpl. destruct (pp_slot p); lia.
  - unfold work_left. simpl. rewrite Hsl. lia.
  - unfold work_left. simpl. rewrite Hr. lia.
  - unfold work_left. simpl. rewrite Hr. lia.
Qed.

#[local] Instance stopped_dec (x : worker) : Decision (x = Stopped).
Proof. destruct x; (by left) || by right. Defined.

(** While the consumer has not ended, something can happen. *)
Lemma never_stuck p : pipe_ok p → pp_result p = None → ∃ p', step p p'.
Proof.
  intros Hp Hr. destruct (po_progress _ Hp Hr) as [Hle _]. destruct (chunks !! pp_next p) as [c|] eqn:Hc.
  2: { apply lookup_ge_None in Hc. eexists. by apply AllWritten. }
  destruct (pp_pending p !! pp_next p) as [r|] eqn:Hpe; [eexists; by eapply TakePending|].
  destruct (pp_slot p) as [[i r]|] eqn:Hsl.
  { destruct (decide (i = pp_next p)) as [->|]; eexists; [by eapply TakeSlot|by eapply KeepSlot]. }
  destruct (decide (Forall (λ x, x = Stopped) (pp_workers p))) as [Hall|Hall]; [eexists; by eapply Disconnected|].
  apply not_Forall_Exists, Exists_exists in Hall as (x & Hx & Hne); [|apply _].
  apply list_elem_of_lookup_1 in Hx as [w Hw]. destruct x as [|i|i r|]; [|eexists; by eapply WorkerFetches|eexists; by eapply WorkerSends|by destruct Hne].
  destruct (decide (pp_cursor p < length chunks)); eexists; [by eapply WorkerPulls|eapply WorkerStops; [done|lia]].
Qed.

(** C34: however the threads interleave and whatever the network answers, every
    run of the pool ends, and it ends with the store, the file and the outcome
    that fetching the chunks one after the other has; no body is lost and no
    thread waits forever. *)
Theorem pool_runs_in_order p :
  reachable (λ q, q = start) step p →
  sn step p ∧
  (∀ r, pp_result p = Some r → absorb io_store io_write now body 0 chunks g0 = (pp_grab p, r)) ∧
  (nf step p → is_Some (pp_result p) ∧ Forall (λ w, w = Stopped) (pp_workers p)).
Proof.
  intros Hp%pipe_reachable_ok. split; [|split].
  - assert (Hwf : ∀ n q, work_left q < n → sn step q); [|by apply (Hwf (S (work_left p))); lia].
    intros n. induction n as [|n IH]; intros q Hq; [lia|]. constructor. intros q' Hs. apply IH.
    apply step_work in Hs. lia.
  - intros r Hr. apply (po_result _ Hp) in Hr. unfold absorbed in Hr. by rewrite take_ge in Hr.
  - intros Hnf. destruct (pp_result p) as [r|] eqn:Hr.
    2: { exfalso. apply Hnf. by destruct (never_stuck p Hp Hr) as [p' Hs]; exists p'. }
    split; [by eexists|]. apply Forall_forall. intros x Hx. apply list_elem_of_lookup_1 in Hx as [w Hw].
    destruct x as [|i|i x|]; [| | |done]; exfalso; apply Hnf.
    + destruct (decide (pp_cursor p < length chunks)); eexists; [by eapply WorkerPulls|eapply WorkerStops; [done|lia]].
    + eexists. by eapply WorkerFetches.
    + eexists. eapply WorkerGivesUp; [done|]. rewrite Hr. by eexists.
Qed.

(** *** The bodies that wait for their turn *)

(** While the first chunk is slow, the others are fetched one after the other. *)
Fixpoint early (k : nat) : gmap nat (may_fail bytes) :=
  match k with O => ∅ | S k => <[S k := body (S k)]> (early k) end.

Lemma early_lookup k i : early k !! i = if decide (1 ≤ i ≤ k) then Some (body i) else None.
Proof.
  induction k as [|k IH]; cbn [early]; [rewrite lookup_empty, decide_False; [done|lia]|].
  destruct (decide (i = S k)) as [->|]; [rewrite lookup_insert_eq, decide_True by lia; done|].
  rewrite lookup_insert_ne, IH by done. destruct (decide (1 ≤ i ≤ k)); [rewrite decide_True by lia|rewrite decide_False by lia]; done.
Qed.

Lemma early_size k : size (early k) = k.
Proof.
  induction k as [|k IH]; [done|]. cbn [early]. rewrite map_size_insert_None, IH; [done|].
  rewrite early_lookup, decide_False; [done|lia].
Qed.

Definition waiting (k : nat) : pipe :=
  mk_pipe (S k) (Fetching 0 :: replicate (pool_size chunks - 1) Idle) None (early k) 0 g0 None.

(** Nothing bounds the bodies that wait for their turn: while the first
    chunk is being fetched, the bodies of all others can be in memory. *)
Theorem reorder_buffer_unbounded :
  2 ≤ length chunks → ∃ p, reachable (λ q, q = start) step p ∧
    pp_result p = None ∧ size (pp_pending p) = length chunks - 1.
Proof.
  intros Hn. assert (Hpool : pool_size chunks = S (S (pool_size chunks - 2))) by (unfold pool_size, CONCURRENT_CHUNKS; lia).
  assert (Hrun : ∀ k, k < length chunks → reachable (λ q, q = start) step (waiting k)).
  { induction k as [|k IH]; intros Hk.
    - apply (reachable_step _ _ start); [by apply reachable_init|].
      replace (waiting 0) with (set_worker 0 (Fetching (pp_cursor start)) (advance start)).
      + apply WorkerPulls; [|simpl; lia]. simpl. rewrite Hpool. done.
      + unfold waiting, set_worker, advance, pipe_start. simpl. rewrite Hpool. done.
    - assert (Hw : waiting k = mk_pipe (S k) (Fetching 0 :: Idle :: replicate (pool_size chunks - 2) Idle) None (early k) 0 g0 None).
      { unfold waiting. rewrite Hpool at 1. done. }
      specialize (IH ltac:(lia)). rewrite Hw in IH.
      eassert (IH1 : reachable (λ q, q = start) step _).
      { eapply reachable_step; [exact IH|]. apply (WorkerPulls _ _ _ _ _ _ 1); [done|simpl; lia]. }
      eassert (IH2 : reachable (λ q, q = start) step _).
      { eapply reachable_step; [exact IH1|]. by apply (WorkerFetches _ _ _ _ _ _ 1 (S k)). }
      eassert (IH3 : reachable (λ q, q = start) step _).
      { eapply reachable_step; [exact IH2|]. by apply (WorkerSends _ _ _ _ _ _ 1 (S k) (body (S k))). }
      destruct (lookup_lt_is_Some_2 chunks 0) as [c Hc]; [lia|].
      eassert (IH4 : reachable (λ q, q = start) step _).
      { eapply reachable_step; [exact IH3|]. apply (KeepSlot _ _ _ _ _ _ c (S k) (body (S k))); try done.
        simpl. rewrite early_lookup, decide_False; [done|lia]. }
      unfold waiting. rewrite Hpool at 1. exact IH4. }
  exists (waiting (length chunks - 1)). split; [apply Hrun; lia|]. split; [done|]. apply early_size.
Qed.
End threads.

(** ** The fetched blob *)

Section fetched.
Context `{ChunkLaws}.
Context (io_store io_write : nat → bool) (now : Z).

Lemma fetch_chunk_genuine quic tcp c x : fetch_chunk_bytes quic tcp c = Ok x → genuine (ck_blake3 c) x.
Proof.
  assert (Ht : ∀ y, fetch_verified_chunk tcp c = Ok y → genuine (ck_blake3 c) y).
  { unfold fetch_verified_chunk. intros y Hy. inv_ok. by apply genuine_iff. }
  unfold fetch_chunk_bytes. destruct quic as [q|]; [|by intros Hx%map_err_ok; apply Ht].
  destruct (fetch_quic_chunk q c) as [y|e] eqn:E; [|by intros Hx%map_err_ok; apply Ht].
  intros [= <-]. unfold fetch_quic_chunk in E. inv_ok.
  match goal with Hb : bool_decide _ = true |- _ => apply bool_decide_eq_true in Hb; rewrite <- Hb end.
  apply genuine_blake3.
Qed.

(** *** What the consumer leaves in the store *)

(** The files of [d], and those of the new chunks. *)
Definition grown (d : gmap (list str) file) (g : grab) : Prop :=
  (∀ path f, d !! path = Some f → cs_disk (gb_cas g) !! path = Some f) ∧
  (∀ path f, cs_disk (gb_cas g) !! path = Some f → d !! path = Some f ∨ path ∈ chunk_path <$> gb_new g) ∧
  (∀ h, h ∈ gb_new g → d !! chunk_path h = None).

Lemma put_trusted_cases io s h x :
  (put_trusted io now s h x = (s, false)) ∨
  (put_trusted io now s h x = (write_file (chunk_path h) (mk_file x (Some now)) s, true) ∧
   is_valid_hash h = true ∧ cs_disk s !! chunk_path h = None).
Proof.
  unfold put_trusted. destruct (is_valid_hash h); simpl; [|by left]. destruct (bool_decide _) eqn:Hb; [by left|].
  destruct io; simpl; [|by left]. right. split; [done|]. split; [done|].
  apply bool_decide_eq_false in Hb. by apply eq_None_not_Some.
Qed.

Lemma consume_grown d bi c r g : grown d g → grown d (consume io_store io_write now bi c r g).1.
Proof.
  intros (Hk & Hn & Hf). unfold consume. destruct r as [x|e]; [|done]. destruct (negb _); [done|].
  destruct (put_trusted_cases (io_store bi) (gb_cas g) (ck_blake3 c) x) as [->|(-> & Hv & Hnone)]; simpl.
  - destruct (negb _); [done|]. by destruct (io_write bi).
  - assert (Hg : grown d (mk_grab (write_file (chunk_path (ck_blake3 c)) (mk_file x (Some now)) (gb_cas g)) (gb_file g)
      (gb_new g ++ [ck_blake3 c]))).
    { split; [|split]; simpl.
      - intros path f Hp. apply Hk in Hp. rewrite disk_write, lookup_insert_ne; [done|]. intros E. by rewrite E, Hp in Hnone.
      - intros path f. rewrite disk_write. intros [[<- _]|[_ Hp]]%lookup_insert_Some; rewrite fmap_app, elem_of_app; [right; right; left|].
        destruct (Hn path f Hp); [by left|right; by left].
      - intros h [Hh|Hh%list_elem_of_singleton]%elem_of_app; [by apply Hf|]. subst h.
        destruct (d !! _) as [f|] eqn:E; [|done]. apply Hk in E. by rewrite E in Hnone. }
    by destruct (io_write bi).
Qed.

Lemma absorb_grown d body cs : ∀ bi g, grown d g → grown d (absorb io_store io_write now body bi cs g).1.
Proof.
  induction cs as [|c cs IH]; intros bi g Hg; [done|]. cbn [absorb]. pose proof (consume_grown d bi c (body bi) g Hg) as Hc.
  destruct (consume _ _ _ _ _ _ _) as [g1 [u|e]]; [by apply IH|done].
Qed.

Lemma remove_chunks_disk l s : cs_disk (remove_chunks l s) = foldr (λ h, delete (chunk_path h)) (cs_disk s) l.
Proof. induction l as [|h l IH]; [done|]. cbn [foldr]. rewrite <- IH. apply disk_unlink. Qed.

(** Removing the new chunks gives the disk back. *)
Lemma remove_chunks_grown d g : grown d g → cs_disk (remove_chunks (gb_new g) (gb_cas g)) = d.
Proof.
  intros (Hk & Hn & Hf). rewrite remove_chunks_disk. apply map_eq. intros path.
  assert (Hdel : ∀ l (m : gmap (list str) file), foldr (λ h, delete (chunk_path h)) m l !! path =
    if decide (path ∈ chunk_path <$> l) then None else m !! path).
  { induction l as [|h l IH]; intros m; [done|]. simpl. destruct (decide (path = chunk_path h)) as [->|Hne].
    - rewrite lookup_delete_eq, decide_True by left. done.
    - rewrite lookup_delete_ne, IH by done. destruct (decide (path ∈ _ <$> l)) as [|Hl]; [by rewrite decide_True by (by right)|].
      rewrite decide_False; [done|]. by intros [|]%elem_of_cons. }
  rewrite Hdel. destruct (decide _) as [Hin|Hin].
  - apply list_elem_of_fmap in Hin as (h & -> & Hh). symmetry. by apply Hf.
  - destruct (d !! path) as [f|] eqn:E; [by apply Hk|]. destruct (cs_disk (gb_cas g) !! path) as [f|] eqn:E'; [|done].
    apply Hn in E' as [E'|]; [by rewrite E in E'|done].
Qed.

(** *** What a successful run has written *)

Definition matches (c : ChunkRef) (x : bytes) : Prop := zlen x = ck_len c ∧ genuine (ck_blake3 c) x.

Lemma consume_ok bi c r g g' :
  consume io_store io_write now bi c r g = (g', Ok ()) →
  ∃ x, r = Ok x ∧ zlen x = ck_len c ∧ gb_file g' = gb_file g ++ x ∧
    contains (gb_cas g') (ck_blake3 c) = true ∧ same_maps (gb_cas g) (gb_cas g').
Proof.
  unfold consume. destruct r as [x|e]; [|done]. destruct (Z.eqb_spec (zlen x) (ck_len c)); [|done]. simpl.
  destruct (put_trusted_cases (io_store bi) (gb_cas g) (ck_blake3 c) x) as [->|(-> & Hv & Hn)]; simpl.
  - destruct (contains _ _) eqn:Hc; [|done]. simpl. destruct (io_write bi); [|done]. intros [= <-]. by exists x.
  - destruct (io_write bi); [|done]. intros [= <-]. exists x. do 3 (split; [done|]). simpl. split; [|apply write_file_maps].
    unfold contains. rewrite Hv, disk_write. simpl. by rewrite lookup_insert_eq.
Qed.

(** Files stay. *)
Lemma absorb_keeps body cs : ∀ bi g path f,
  cs_disk (gb_cas g) !! path = Some f → cs_disk (gb_cas (absorb io_store io_write now body bi cs g).1) !! path = Some f.
Proof.
  induction cs as [|c cs IH]; intros bi g path f Hp; [done|]. cbn [absorb].
  assert (Hc : cs_disk (gb_cas (consume io_store io_write now bi c (body bi) g).1) !! path = Some f).
  { unfold consume. destruct (body bi) as [x|e]; [|done]. destruct (negb _); [done|].
    destruct (put_trusted_cases (io_store bi) (gb_cas g) (ck_blake3 c) x) as [->|(-> & Hv & Hn)]; simpl.
    - destruct (negb _); [done|]. by destruct (io_write bi).
    - assert (cs_disk (write_file (chunk_path (ck_blake3 c)) (mk_file x (Some now)) (gb_cas g)) !! path = Some f).
      { rewrite disk_write, lookup_insert_ne; [done|]. intros E. by rewrite E, Hp in Hn. }
      by destruct (io_write bi). }
  destruct (consume _ _ _ _ _ _ _) as [g1 [u|e]]; [by apply IH|done].
Qed.

Lemma absorb_ok body cs : ∀ bi g g',
  (∀ i c x, cs !! i = Some c → body (bi + i) = Ok x → genuine (ck_blake3 c) x) →
  absorb io_store io_write now body bi cs g = (g', Ok ()) →
  ∃ xs, gb_file g' = gb_file g ++ concat xs ∧ Forall2 matches cs xs ∧
    Forall (λ c, contains (gb_cas g') (ck_blake3 c) = true) cs ∧ same_maps (gb_cas g) (gb_cas g').
Proof.
  induction cs as [|c cs IH]; intros bi g g' Hb; cbn [absorb].
  { intros [= <-]. exists []. simpl. by rewrite app_nil_r. }
  destruct (consume _ _ _ bi c (body bi) g) as [g1 [[]|e]] eqn:Hc; [|done]. intros Ha.
  apply consume_ok in Hc as (x & Hx & Hl & Hf & Hin & Hm).
  destruct (IH (S bi) g1 g') as (xs & Hf' & Hxs & Hall & Hm'); [|done|].
  { intros i c' y Hi Hy. apply (Hb (S i) c' y Hi). by rewrite Nat.add_succ_r. }
  exists (x :: xs). split; [rewrite Hf', Hf; simpl; by rewrite app_assoc|]. split.
  { constructor; [|done]. split; [done|]. apply (Hb 0 c x eq_refl). by rewrite Nat.add_0_r. }
  split; [|by etrans]. constructor; [|done].
  unfold contains in *. apply andb_true_iff in Hin as [-> [f Hin]%bool_decide_eq_true].
  pose proof (absorb_keeps body cs (S bi) g1 _ _ Hin) as Hk. rewrite Ha in Hk. simpl in Hk. by rewrite Hk.
Qed.

(** The slots of unique pieces keep their bytes. *)
Lemma absorb_slots ps body cs : ∀ bi g,
  Forall unique ps → (∀ i c x, cs !! i = Some c → body (bi + i) = Ok x → genuine (ck_blake3 c) x) →
  slots_free (cs_disk (gb_cas g)) ps → slots_free (cs_disk (gb_cas (absorb io_store io_write now body bi cs g).1)) ps.
Proof.
  intros bi g Hu. revert bi g. induction cs as [|c cs IH]; intros bi g Hb Hs; [done|]. cbn [absorb].
  assert (Hc : slots_free (cs_disk (gb_cas (consume io_store io_write now bi c (body bi) g).1)) ps).
  { unfold consume. destruct (body bi) as [x|e] eqn:Hx; [|done]. destruct (negb _); [done|].
    assert (Hg : genuine (ck_blake3 c) x) by (apply (Hb 0 c x eq_refl); by rewrite Nat.add_0_r).
    destruct (put_trusted_cases (io_store bi) (gb_cas g) (ck_blake3 c) x) as [->|(-> & Hv & Hn)]; simpl.
    - destruct (negb _); [done|]. by destruct (io_write bi).
    - assert (slots_free (cs_disk (write_file (chunk_path (ck_blake3 c)) (mk_file x (Some now)) (gb_cas g))) ps).
      { rewrite disk_write. intros p f Hp [[E <-]|[_ Hl]]%lookup_insert_Some; [|by eapply Hs]. simpl.
        apply chunk_path_inj in E; [|done|apply blake3_valid]. rewrite blake3_lower in E. unfold genuine in Hg.
        rewrite Forall_forall in Hu. apply (Hu p Hp). congruence. }
      by destruct (io_write bi). }
  destruct (consume _ _ _ _ _ _ _) as [g1 [u|e]]; [|done]. apply IH; [|done].
  intros i c' y Hi Hy. apply (Hb (S i) c' y Hi). by rewrite Nat.add_succ_r.
Qed.

(** A valid manifest within the limit describes the bodies that matched it. *)
Lemma matches_tiled total cs xs : ∀ off t,
  Forall2 matches cs xs → tiles_to total off cs = Some t → (0 ≤ off)%Z → (total < u64_max)%Z →
  tiled off cs xs ∧ t = (off + zlen (concat xs))%Z.
Proof.
  intros off t Hm. revert off t. induction Hm as [|[h o n] x cs xs [Hl Hg] Hm IH]; intros off t Ht Hnn Hmax.
  { injection Ht as <-. split; [constructor|simpl; lia]. }
  cbn [tiles_to ck_offset ck_len ck_blake3] in *. destruct (Z.eqb_spec o off) as [->|]; [|done].
  destruct (Z.eqb_spec n 0); [done|]. destruct (is_valid_hash h) eqn:Hv; [|done]. simpl in Ht. unfold sat_add in Ht.
  destruct (Z.ltb_spec total (Z.min u64_max (off + n))); [done|]. rewrite Z.min_r in Ht by lia.
  destruct (IH _ _ Ht) as [Htl ->]; [lia|done|]. subst n. split; [|simpl; rewrite length_app; lia].
  constructor; try done. by intros ->.
Qed.

Lemma valid_describes m xs :
  is_valid m = true → (mf_total_size m < u64_max)%Z → Forall2 matches (mf_chunks m) xs → describes m xs.
Proof.
  unfold is_valid, describes. intros Hv Hmax Hm. destruct (Z.eqb_spec (mf_total_size m) 0) as [Hz|Hz]; apply bool_decide_eq_true in Hv.
  - rewrite Hv in Hm |- *. apply Forall2_nil_inv_l in Hm as ->. split; [constructor|done].
  - apply (matches_tiled _ _ xs) in Hv as [Ht Htot]; [|done|done|done]. split; [done|lia].
Qed.
(** *** The whole fetch *)

Lemma fifo_invalidated {V} (c : FifoCache V) k : (fifo_get (fifo_invalidate c k) k).2 = None.
Proof.
  unfold fifo_invalidate. destruct (ff_map c !! k) as [[e v]|] eqn:Hk; unfold fifo_get; simpl.
  - by rewrite lookup_delete_eq.
  - by rewrite Hk.
Qed.

Lemma save_manifest_ok io s m s' :
  save_manifest io now s m = (s', Ok ()) →
  (load_manifest s' (mf_blob_hash m)).2 = Some m ∧ same_maps s s' ∧
  cs_disk s' = <[manifest_path (mf_blob_hash m) := mk_file (manifest_to_json m) (Some now)]> (cs_disk s).
Proof.
  intros Hs. pose proof (save_maps io now s m) as Hmaps. rewrite Hs in Hmaps. revert Hs.
  unfold save_manifest. destruct (is_valid_hash _) eqn:Hh; [|done]. destruct (is_valid m) eqn:Hv; [|done]. simpl.
  destruct io; [|done]. simpl. intros [= <-]. set (w := write_file _ _ _) in *.
  assert (Hd : cs_disk w = <[manifest_path (mf_blob_hash m) := mk_file (manifest_to_json m) (Some now)]> (cs_disk s))
    by (unfold w; rewrite disk_write; done).
  split; [|split; [done|exact Hd]]. unfold load_manifest. rewrite Hh. simpl.
  pose proof (fifo_invalidated (cs_manifests s) (mf_blob_hash m)) as Hf.
  destruct (fifo_get _ _) as [c hit]. simpl in Hf. subst hit. change (cs_disk (with_index _ w)) with (cs_disk w).
  rewrite Hd, lookup_insert_eq. simpl. rewrite manifest_json. by rewrite bool_decide_eq_true_2, Hv.
Qed.

Lemma save_manifest_err io s m s' e : save_manifest io now s m = (s', Err e) → cs_disk s' = cs_disk s.
Proof. unfold save_manifest. destruct (_ || _); [by intros [= <-]|]. destruct io; simpl; [done|by intros [= <-]]. Qed.

(** A chunk never stands where a manifest does. *)
Lemma path_apart h b : is_valid_hash h = true → is_valid_hash b = true → chunk_path h ≠ manifest_path b.
Proof.
  unfold chunk_path, manifest_path. intros -> Hb. rewrite Hb. intros [= E _]. apply (f_equal length) in E.
  rewrite length_take in E. vm_compute (length (lit "manifests")) in E. lia.
Qed.

Lemma genuine_path h x : is_valid_hash h = true → genuine h x → chunk_path h = chunk_path (blake3 x).
Proof. intros Hv Hg. unfold chunk_path. rewrite Hv, blake3_valid, blake3_lower. by rewrite Hg. Qed.

Lemma slots_stored s cs xs :
  Forall2 matches cs xs → Forall (λ c, contains s (ck_blake3 c) = true) cs → slots_free (cs_disk s) xs →
  stored (cs_disk s) cs xs.
Proof.
  intros Hm. induction Hm as [|c x cs xs [Hl Hg] Hm IH]; intros Hc Hf; [constructor|].
  apply Forall_cons in Hc as [Hc Hcs]. unfold contains in Hc. apply andb_true_iff in Hc as [Hv [f Hc]%bool_decide_eq_true].
  constructor; [|apply IH; [done|]; intros p f' Hp; apply Hf; by right].
  exists (fl_mtime f). rewrite Hc. f_equal. destruct f as [y t]. simpl. f_equal. rewrite (genuine_path _ x Hv Hg) in Hc.
  apply (Hf x (mk_file y t)); [left|done].
Qed.

Section peer.
Context (private : bool) (out_path : may_fail unit) (created renamed saved : bool) (manifest_json : may_fail bytes)
  (quic : option (ChunkRef → may_fail bytes)) (tcp : ChunkRef → may_fail bytes).

Definition bodies (cs : list ChunkRef) (i : nat) : may_fail bytes :=
  match cs !! i with Some c => fetch_chunk_bytes quic tcp c | None => err "" end.

Lemma bodies_genuine cs i c x : cs !! i = Some c → bodies cs (0 + i) = Ok x → genuine (ck_blake3 c) x.
Proof. intros Hc. unfold bodies. simpl. rewrite Hc. apply fetch_chunk_genuine. Qed.

(** C35: a blob that is reported as fetched, from a peer that may send anything,
    stands at the output path, has the hash that was asked for and at most the
    maximal size, and its manifest is saved. If no other bytes have the hashes
    of its chunks, every range of it is then read from the store as these bytes
    or not at all; and it is read, if before the fetch no damaged file stood
    under the name of a chunk. Such a file stays and hides the chunk: see
    [corrupt_slot_stays]. *)
Theorem fetched_blob s blob_hash s' out n :
  maps_ok s →
  fetch_blob_from_peer io_store io_write now private out_path created renamed saved manifest_json
    (fetch_chunk_bytes quic tcp) blob_hash s = (s', out, Ok n) →
  ∃ m xs, out = Some (concat xs) ∧ blake3 (concat xs) = blob_hash ∧ n = zlen (concat xs) ∧
    (n ≤ MAX_BLOB_FETCH_BYTES)%Z ∧ (load_manifest s' blob_hash).2 = Some m ∧ describes m xs ∧
    (Forall unique xs → ∀ offset len, (0 ≤ offset)%Z → (0 < len)%Z → (offset + len ≤ n)%Z →
       let wanted := take (Z.to_nat len) (drop (Z.to_nat offset) (concat xs)) in
       ((blob_slice s' m offset len).2 = Ok wanted ∨ (blob_slice s' m offset len).2 = err "None") ∧
       (slots_free (cs_disk s) xs → (blob_slice s' m offset len).2 = Ok wanted)).
Proof.
  intros Hmaps. unfold fetch_blob_from_peer. destruct (_ ≫= _) as [m|e] eqn:Hm; [|done].
  assert (Hc : mf_blob_hash m = blob_hash ∧ (mf_total_size m ≤ MAX_BLOB_FETCH_BYTES)%Z ∧ is_valid m = true).
  { unfold check_manifest in Hm. inv_ok.
    repeat match goal with
    | Hb : bool_decide _ = true |- _ => apply bool_decide_eq_true in Hb
    | Hb : (_ <=? _)%Z = true |- _ => apply Z.leb_le in Hb
    end. done. }
  destruct Hc as (Hh & Hmax & Hv). clear Hm. destruct created; [|done]. simpl negb. cbn iota. cbv zeta.
  change (λ i, match mf_chunks m !! i with Some c => fetch_chunk_bytes quic tcp c | None => err "" end) with (bodies (mf_chunks m)).
  pose proof (absorb_grown (cs_disk s) (bodies (mf_chunks m)) (mf_chunks m) 0 (mk_grab s [] [])) as Hgr.
  pose proof (λ ps Hu Hs, absorb_slots ps (bodies (mf_chunks m)) (mf_chunks m) 0 (mk_grab s [] []) Hu
    (bodies_genuine (mf_chunks m)) Hs) as Hsl.
  destruct (absorb _ _ _ _ _ _ _) as [g [[]|e]] eqn:Ha; [|done].
  apply absorb_ok in Ha as (xs & Hf & Hxs & Hall & Hmp); [|apply bodies_genuine].
  destruct (bool_decide _) eqn:Hhash; [|done]. apply bool_decide_eq_true in Hhash. destruct renamed; [|done]. simpl.
  destruct (save_manifest saved now (gb_cas g) m) as [s2 [[]|e]] eqn:Hs; [|done]. intros [= <- <- <-].
  apply save_manifest_ok in Hs as (Hload & Hmp2 & Hd2). simpl in Hf. rewrite Hh in *. rewrite Hf in *.
  assert (Hdesc : describes m xs).
  { apply valid_describes; [done| |done]. unfold MAX_BLOB_FETCH_BYTES, u64_max in *. lia. }
  exists m, xs. do 3 (split; [done|]). split; [rewrite <- (proj2 Hdesc); done|]. do 2 (split; [done|]).
  intros Hu offset len Ho Hl Hle. cbv zeta.
  assert (Hms : maps_ok s2) by (eapply maps_ok_same; [etrans; [exact Hmp|exact Hmp2]|done]).
  pose proof (blob_slice_spec s2 m xs offset len Hms Hdesc Hu) as Hb. cbv zeta in Hb.
  destruct (blob_slice s2 m offset len) as [s3 r]. destruct Hb as (_ & _ & Hr & Hst0); [|done|lia|].
  { rewrite <- (proj2 Hdesc). unfold MAX_BLOB_FETCH_BYTES, u64_max in *. lia. }
  split; [by destruct Hr as [[? _]|]; [left|right]|]. intros Hfree. apply Hst0; [|done|done]. specialize (Hsl xs Hu Hfree). simpl in Hsl.
  rewrite Hd2. pose proof (slots_stored _ _ _ Hxs Hall Hsl) as Hst.
  apply Forall2_lookup. intros i. apply Forall2_lookup with (i := i) in Hst.
  destruct (mf_chunks m !! i) as [c|] eqn:Hci, (xs !! i) as [x|]; inversion Hst as [? ? Hx|]; subst; [|constructor].
  constructor. destruct Hx as [t Hx]. exists t. rewrite lookup_insert_ne; [done|].
  apply Forall_lookup_1 with (i := i) (x := c) in Hall; [|done]. unfold contains in Hall.
  apply andb_true_iff in Hall as [Hvc _]. apply not_eq_sym, path_apart; [done|]. rewrite <- Hhash. apply blake3_valid.
Qed.

(** A fetch that fails, at whatever point, leaves the files of the store as they were. *)
Theorem failed_fetch_restores s blob_hash s' out e :
  fetch_blob_from_peer io_store io_write now private out_path created renamed saved manifest_json
    (fetch_chunk_bytes quic tcp) blob_hash s = (s', out, Err e) →
  cs_disk s' = cs_disk s.
Proof.
  unfold fetch_blob_from_peer. destruct (_ ≫= _) as [m|e0]; [|by intros [= <- _ _]].
  destruct created; [|by intros [= <- _ _]]. simpl negb. cbn iota. cbv zeta.
  change (λ i, match mf_chunks m !! i with Some c => fetch_chunk_bytes quic tcp c | None => err "" end) with (bodies (mf_chunks m)).
  pose proof (absorb_grown (cs_disk s) (bodies (mf_chunks m)) (mf_chunks m) 0 (mk_grab s [] [])) as Hgr.
  destruct (absorb _ _ _ _ _ _ _) as [g r]. simpl in Hgr.
  assert (Hr : cs_disk (remove_chunks (gb_new g) (gb_cas g)) = cs_disk s).
  { apply remove_chunks_grown, Hgr. split; [done|]. split; [by left|]. intros h Hh. by apply not_elem_of_nil in Hh. }
  destruct r as [[]|e1]; [|by intros [= <- _ _]]. destruct (bool_decide _); [|by intros [= <- _ _]]. simpl.
  destruct renamed; [|by intros [= <- _ _]]. simpl.
  destruct (save_manifest saved now (gb_cas g) m) as [s2 [[]|e2]] eqn:Hs; [done|]. apply save_manifest_err in Hs.
  intros [= <- _ _]. rewrite <- Hr. rewrite !remove_chunks_disk. by rewrite Hs.
Qed.
End peer.
End fetched.

(** ** Examples *)

Module BlobExamples.
Import CasExamples.
#[local] Existing Instance toy_chunks.
#[local] Existing Instance toy_chunk_laws.

(** A peer that has the blob of the chunk store's examples. *)
Definition tcp (c : ChunkRef) : may_fail bytes :=
  if bool_decide (ck_offset c = 0%Z) then Ok [1; 2; 3]%Z else Ok [4; 5]%Z.
Definition whole : str := tag [1; 2; 3; 4; 5]%Z.
Definition fetched : cas * option bytes * may_fail Z :=
  fetch_blob_from_peer (λ _, true) (λ _, true) 9 true (Ok ()) true true true
    (Ok (manifest_to_json manifest)) (fetch_chunk_bytes None tcp) whole empty.

Lemma fetched_blob_witness :
  ∃ m xs, fetched.1.2 = Some (concat xs) ∧ blake3 (concat xs) = whole ∧ (load_manifest fetched.1.1 whole).2 = Some m ∧
    concat xs = [1; 2; 3; 4; 5]%Z ∧
    (Forall unique xs → ((blob_slice fetched.1.1 m 1 3).2 = Ok [2; 3; 4]%Z ∨ (blob_slice fetched.1.1 m 1 3).2 = err "None") ∧
      (slots_free (cs_disk empty) xs → (blob_slice fetched.1.1 m 1 3).2 = Ok [2; 3; 4]%Z)).
Proof.
  destruct (fetched_blob (λ _, true) (λ _, true) 9 true (Ok ()) true true true (Ok (manifest_to_json manifest)) None tcp
    empty whole fetched.1.1 fetched.1.2 5) as (m & xs & Hout & Hh & Hn & _ & Hm & _ & Hr).
  - apply cas_reachable_maps, empty_reachable.
  - change (fetched = (fetched.1.1, fetched.1.2, Ok 5%Z)).
    assert (Hf : fetched.2 = Ok 5%Z) by (by vm_compute). rewrite <- Hf. by destruct fetched as [[? ?] ?].
  - assert (Hxs : concat xs = [1; 2; 3; 4; 5]%Z).
    { assert (Hf : fetched.1.2 = Some [1; 2; 3; 4; 5]%Z) by (by vm_compute). rewrite Hf in Hout. by injection Hout. }
    exists m, xs. split_and!; [done..|]. intros Hu. specialize (Hr Hu 1%Z 3%Z). rewrite Hxs in Hr. by apply Hr.
Defined.

(** The second chunk is missing. *)
Definition broken (c : ChunkRef) : may_fail bytes :=
  if bool_decide (ck_offset c = 0%Z) then Ok [1; 2; 3]%Z else err "closed".
Definition failed : cas * option bytes * may_fail Z :=
  fetch_blob_from_peer (λ _, true) (λ _, true) 9 true (Ok ()) true true true
    (Ok (manifest_to_json manifest)) (fetch_chunk_bytes None broken) whole empty.

Lemma failed_fetch_restores_witness :
  cs_disk failed.1.1 = cs_disk empty ∧ is_ok failed.2 = false ∧
  gb_new (absorb (λ _, true) (λ _, true) 9 (bodies None broken (mf_chunks manifest)) 0 (mf_chunks manifest) (mk_grab empty [] [])).1
    = [tag [1; 2; 3]%Z].
Proof.
  split; [|by vm_compute]. destruct failed.2 as [n|e] eqn:He; [vm_compute in He; discriminate He|].
  apply (failed_fetch_restores (λ _, true) (λ _, true) 9 true (Ok ()) true true true (Ok (manifest_to_json manifest)) None broken
    empty whole failed.1.1 failed.1.2 e).
  change (failed = (failed.1.1, failed.1.2, Err e)). rewrite <- He. by destruct failed as [[? ?] ?].
Defined.

(** Three slow chunks. *)
Definition three : list ChunkRef := replicate 3 (mk_chunk whole 0 1).

Lemma reorder_buffer_unbounded_witness :
  (∃ p, reachable (λ q, q = pipe_start three (mk_grab empty [] []))
     (pipe_step (λ _, true) (λ _, true) 9 three (λ _, err "")) p ∧ pp_result p = None ∧ size (pp_pending p) = 3 - 1) ∧
  pool_size three = 3.
Proof. split; [|done]. apply (reorder_buffer_unbounded (λ _, true) (λ _, true) 9 three (λ _, err "")). simpl. lia. Defined.

Lemma pool_runs_in_order_witness :
  let g := mk_grab empty [] [] in let p := pipe_start (mf_chunks manifest) g in
  let body i := match mf_chunks manifest !! i with Some c => tcp c | None => err "" end in
  let step := pipe_step (λ _, true) (λ _, true) 9 (mf_chunks manifest) body in
  (sn step p ∧
   (∀ r, pp_result p = Some r → absorb (λ _, true) (λ _, true) 9 body 0 (mf_chunks manifest) g = (pp_grab p, r)) ∧
   (nf step p → is_Some (pp_result p) ∧ Forall (λ w, w = Stopped) (pp_workers p))) ∧
  gb_file (absorb (λ _, true) (λ _, true) 9 body 0 (mf_chunks manifest) g).1 = [1; 2; 3; 4; 5]%Z.
Proof.
  cbv zeta. split; [|by vm_compute].
  apply (pool_runs_in_order (λ _, true) (λ _, true) 9 (mf_chunks manifest)
    (λ i, match mf_chunks manifest !! i with Some c => tcp c | None => err "" end) (mk_grab empty [] [])).
  by apply reachable_init.
Defined.
End BlobExamples.
