(* ===== verification/Pin.v ===== *)
(** The PIN lock: src/flutter-bridge/src/ffi/pin.rs over the settings table
    of db-core and the lockout counters of src/identity-core/src/security.rs,
    with the calls of ffi/db.rs that read or write one setting. Every write of
    a call may fail: [io] tells which of its writes succeed, and a failed call
    keeps what it wrote before. A check of a PIN reads the counters first and
    writes them when the key derivation is done; the two halves are separate
    definitions, so that two checks may overlap. *)

From S2P Require Import Prelude RustStr Primitives.

(** ** identity-core: the lockout counters *)

(** Source: src/identity-core/src/security.rs:41-41 (PIN_ITERATIONS) *)
Definition PIN_ITERATIONS : Z := 600000.
(** Source: src/identity-core/src/security.rs:42-42 (PIN_DK_LEN) *)
Definition PIN_DK_LEN : Z := 32.
(** Source: src/identity-core/src/security.rs:43-43 (PIN_SALT_BYTES) *)
Definition PIN_SALT_BYTES : Z := 16.
(** Source: src/identity-core/src/security.rs:46-46 (PIN_MAX_ATTEMPTS) *)
Definition PIN_MAX_ATTEMPTS : Z := 3.
(** Source: src/identity-core/src/security.rs:48-48 (PIN_HARD_LIMIT) *)
Definition PIN_HARD_LIMIT : Z := 10.
(** Source: src/identity-core/src/security.rs:50-50 (PIN_LOCKOUT_DELAYS) *)
Definition PIN_LOCKOUT_DELAYS : list Z := [5000; 15000; 30000; 60000; 120000]%Z.

(** Source: src/identity-core/src/security.rs:55-62 (PinLockoutState) *)
Record PinLockoutState := mk_lockout { attempt_count : Z; last_attempt_at : Z; lockout_until : option Z }.

Definition lockout_default : PinLockoutState := mk_lockout 0 0 None.

(** Source: src/identity-core/src/security.rs:66-75 (PinVerdict) *)
Inductive PinVerdict :=
| Correct
| Incorrect (locked_until : option Z)
| LockedOutUntil (until : Z)
| PermanentlyLocked.

#[export] Instance verdict_eq_dec : EqDecision PinVerdict.
Proof. solve_decision. Defined.

(** Source: src/identity-core/src/security.rs:117-119 (apply_pin_attempt, delay) *)
Definition lockout_delay (attempt_count : Z) : Z :=
  nth (Z.to_nat (Z.max 0 (Z.min (attempt_count - PIN_MAX_ATTEMPTS) (zlen PIN_LOCKOUT_DELAYS - 1)))) PIN_LOCKOUT_DELAYS 0%Z.

(** A wrong PIN outside a lockout.
    Source: src/identity-core/src/security.rs:111-125 (apply_pin_attempt, wrong PIN) *)
Definition wrong_pin (state : PinLockoutState) (now : Z) : may_fail (PinLockoutState * PinVerdict) :=
  count ← checked_i64 (attempt_count state + 1);
  if (PIN_HARD_LIMIT <=? count)%Z then Ok (mk_lockout count now (lockout_until state), PermanentlyLocked)
  else if (PIN_MAX_ATTEMPTS <=? count)%Z then
    until ← checked_i64 (now + lockout_delay count);
    Ok (mk_lockout count now (Some until), Incorrect (Some until))
  else Ok (mk_lockout count now (lockout_until state), Incorrect None).

Definition inside (now : Z) (state : PinLockoutState) : bool :=
  match lockout_until state with Some until => (now <? until)%Z | None => false end.

(** Source: src/identity-core/src/security.rs:79-127 (apply_pin_attempt) *)
Definition apply_pin_attempt (state : PinLockoutState) (now : Z) (correct permanent_locked : bool)
    : may_fail (PinLockoutState * PinVerdict) :=
  if permanent_locked then Ok (state, PermanentlyLocked)
  else
    let now := Z.max now (last_attempt_at state) in
    match lockout_until state with
    | Some until =>
        if (now <? until)%Z then
          count ← checked_i64 (attempt_count state + 1);
          Ok (mk_lockout count now (Some until),
              if (PIN_HARD_LIMIT <=? count)%Z then PermanentlyLocked else LockedOutUntil until)
        else if correct then Ok (mk_lockout 0 now None, Correct)
        else wrong_pin state now
    | None => if correct then Ok (mk_lockout 0 now None, Correct) else wrong_pin state now
    end.

(** ** What the PIN lock relies on *)

Class PinEnv := {
  (** pbkdf2: password, salt, iterations, length *)
  pbkdf2_hmac_sha256 : bytes → bytes → Z → Z → bytes;
  (** serde_json on the counters; a missing field takes its default *)
  lockout_to_json : PinLockoutState → str;
  lockout_from_json : str → option PinLockoutState
}.

Class PinEnvLaws `{PinEnv} : Prop := {
  pbkdf2_length p s i n : (0 ≤ n)%Z → zlen (pbkdf2_hmac_sha256 p s i n) = n;
  pbkdf2_bytes p s i n : all_bytes (pbkdf2_hmac_sha256 p s i n);
  lockout_json s : lockout_from_json (lockout_to_json s) = Some s;
  lockout_json_empty : lockout_from_json (lit "{}") = Some lockout_default
}.

(** ** The settings table *)

Abbreviation settings := (gmap (list Z) (list Z)) (only parsing).

Definition PIN_HASH_KEY : str := lit "pin_hash".
Definition PERMANENT_KEY : str := lit "pin_permanently_locked".
Definition STATE_KEY : str := lit "pin_lockout_state".

(** Source: src/db-core/src/repos/settings.rs:13-23 (set) *)
Definition settings_set (success : bool) (key value : str) (d : settings) : settings * may_fail unit :=
  if success then (<[key := value]> d, Ok ()) else (d, err "database").

(** Source: src/db-core/src/repos/settings.rs:65-73 (get) *)
Definition settings_get (key : str) (d : settings) : option str := d !! key.

(** Source: src/db-core/src/repos/settings.rs:101-107 (delete) *)
Definition settings_delete (success : bool) (key : str) (d : settings) : settings * may_fail unit :=
  if success then (delete key d, Ok ()) else (d, err "database").

(** The writes of one call in order, up to the first that fails. *)
Fixpoint set_all (io : nat → bool) (n : nat) (rows : list (str * str)) (d : settings) : settings * may_fail unit :=
  match rows with
  | [] => (d, Ok ())
  | (k, v) :: rows =>
      match settings_set (io n) k v d with
      | (d, Ok _) => set_all io (S n) rows d
      | (d, Err e) => (d, Err e)
      end
  end.

(** ** The calls *)

(** Source: src/flutter-bridge/src/ffi/pin.rs:31-31 (pin_set, pin_change: digits) *)
Definition pin_shape (pin : str) : bool :=
  forallb is_ascii_digit pin && (4 <=? zlen pin)%Z && (zlen pin <=? 12)%Z.

Definition permanent_flag (d : settings) : bool :=
  match settings_get PERMANENT_KEY d with Some v => bool_decide (v = lit "true") | None => false end.

Section pin.
Context `{Primitives, PinEnv}.

(** Source: src/identity-core/src/security.rs:16-36 (derive_pin_hash) *)
Definition derive_pin_hash (pin salt_hex : str) (iterations dk_len : Z) : may_fail str :=
  _ ← ensure (negb (bool_decide (pin = []) || (64 <? zlen pin)%Z)) "invalid pin";
  _ ← ensure (between 600000 1000000 iterations && between 16 64 dk_len) "invalid kdf parameters";
  salt ← ok_or (Fail "invalid salt") (hex_decode_str salt_hex);
  _ ← ensure (16 <=? zlen salt)%Z "salt too short";
  Ok (hex_encode (pbkdf2_hmac_sha256 pin salt iterations dk_len)).

Definition lockout_state (d : settings) : PinLockoutState :=
  default lockout_default (settings_get STATE_KEY d ≫= lockout_from_json).

(** Source: src/flutter-bridge/src/ffi/pin.rs:83-90 (pin_has) *)
Definition pin_has (d : settings) : bool :=
  match settings_get PIN_HASH_KEY d with Some v => negb (bool_decide (v = [])) | None => false end.

(** The hash of a new PIN and the three rows that go with it.
    Source: src/flutter-bridge/src/ffi/pin.rs:40-51 (pin_set, rows) *)
Definition store_pin (io : nat → bool) (n : nat) (salt : option bytes) (pin : str) (d : settings)
    : settings * may_fail bool :=
  match
    (salt ← ok_or (Fail "rng") salt;
     let salt_hex := hex_encode salt in
     hash ← derive_pin_hash pin salt_hex PIN_ITERATIONS PIN_DK_LEN;
     Ok (salt_hex ++ [0x3A%Z] ++ hash))
  with
  | Err e => (d, Err e)
  | Ok v =>
      match set_all io n [(PIN_HASH_KEY, v); (PERMANENT_KEY, lit "false"); (STATE_KEY, lit "{}")] d with
      | (d, Ok _) => (d, Ok true)
      | (d, Err e) => (d, Err e)
      end
  end.

(** Source: src/flutter-bridge/src/ffi/pin.rs:29-53 (pin_set) *)
Definition pin_set (io : nat → bool) (salt : option bytes) (pin : str) (d : settings) : settings * may_fail bool :=
  if negb (pin_shape pin) then (d, err "PIN must be 4-12 digits")
  else if pin_has d then (d, err "a PIN is already set")
  else store_pin io 0 salt pin d.

(** What a check reads before it derives the key.
    Source: src/flutter-bridge/src/ffi/pin.rs:94-108 (check_pin_with_lockout, reads) *)
Definition check_reads (d : settings) : bool * PinLockoutState * option str :=
  (permanent_flag d, lockout_state d, settings_get PIN_HASH_KEY d).

(** Source: src/flutter-bridge/src/ffi/pin.rs:112-116 (check_pin_with_lockout, is_locked) *)
Definition is_locked (now : Z) (permanent : bool) (state : PinLockoutState) : bool := permanent || inside now state.

Definition LOCKED_OUT : failure := Fail "too many incorrect PIN attempts; try again later".
Definition PERMANENT : failure := Fail "account permanently locked after too many failed PIN attempts".
Definition INCORRECT : failure := Fail "incorrect PIN".

(** Source: src/flutter-bridge/src/ffi/pin.rs:117-140 (check_pin_with_lockout, locked) *)
Definition check_locked (io : nat → bool) (now : Z) (permanent : bool) (state : PinLockoutState) (d : settings)
    : settings * may_fail unit :=
  match apply_pin_attempt state now false permanent with
  | Err e => (d, Err e)
  | Ok (state, verdict) =>
      let flag := bool_decide (verdict = PermanentlyLocked) in
      let rows := (STATE_KEY, lockout_to_json state) :: if flag then [(PERMANENT_KEY, lit "true")] else [] in
      match set_all io 0 rows d with
      | (d, Err e) => (d, Err e)
      | (d, Ok _) => (d, Err (if flag then PERMANENT else LOCKED_OUT))
      end
  end.

(** Source: src/flutter-bridge/src/ffi/pin.rs:142-149 (check_pin_with_lockout, comparison) *)
Definition check_compare (pin : str) (stored : option str) : may_fail bool :=
  stored ← ok_or (Fail "no PIN configured; set a PIN in Settings > Security first")
             (match stored with Some [] => None | o => o end);
  '(salt_hex, expected) ← ok_or (Fail "corrupt pin storage") (split_once 0x3A stored);
  candidate ← derive_pin_hash pin salt_hex PIN_ITERATIONS PIN_DK_LEN;
  Ok (ct_eq candidate expected).

(** A write whose failure is only logged. *)
Definition set_logged (success : bool) (key value : str) (d : settings) : settings :=
  (settings_set success key value d).1.

(** Source: src/flutter-bridge/src/ffi/pin.rs:151-189 (check_pin_with_lockout, verdict) *)
Definition check_settle (io : nat → bool) (now : Z) (permanent correct : bool) (state : PinLockoutState) (d : settings)
    : settings * may_fail unit :=
  match apply_pin_attempt state now correct permanent with
  | Err e => (d, Err e)
  | Ok (state, verdict) =>
      let state_json := lockout_to_json state in
      match verdict with
      | Correct => (set_logged (io 1) PERMANENT_KEY (lit "false") (set_logged (io 0) STATE_KEY state_json d), Ok ())
      | Incorrect _ => (set_logged (io 0) STATE_KEY state_json d, Err INCORRECT)
      | LockedOutUntil _ =>
          match settings_set (io 0) STATE_KEY state_json d with
          | (d, Ok _) => (d, Err LOCKED_OUT)
          | (d, Err e) => (d, Err e)
          end
      | PermanentlyLocked =>
          match set_all io 0 [(STATE_KEY, state_json); (PERMANENT_KEY, lit "true")] d with
          | (d, Ok _) => (d, Err PERMANENT)
          | (d, Err e) => (d, Err e)
          end
      end
  end.

(** The second half of a check: what follows the reads.
    Source: src/flutter-bridge/src/ffi/pin.rs:110-191 (check_pin_with_lockout, after the reads) *)
Definition check_finish (io : nat → bool) (now : Z) (pin : str) (seen : bool * PinLockoutState * option str)
    (d : settings) : settings * may_fail unit :=
  let '(permanent, state, stored) := seen in
  if is_locked now permanent state then check_locked io now permanent state d
  else
    match check_compare pin stored with
    | Err e => (d, Err e)
    | Ok correct => check_settle io now permanent correct state d
    end.

(** Source: src/flutter-bridge/src/ffi/pin.rs:92-191 (check_pin_with_lockout) *)
Definition check_pin_with_lockout (io : nat → bool) (now : Z) (pin : str) (d : settings) : settings * may_fail unit :=
  check_finish io now pin (check_reads d) d.

(** Source: src/flutter-bridge/src/ffi/pin.rs:204-215 (pin_verify) *)
Definition pin_verify (io : nat → bool) (now : Z) (pin : str) (d : settings) : settings * may_fail bool :=
  match check_pin_with_lockout io now pin d with
  | (d, Ok _) => (d, Ok true)
  | (d, Err e) => (d, if bool_decide (e = INCORRECT) then Ok false else Err e)
  end.

(** The writes of the new PIN come after at most two of the check.
    Source: src/flutter-bridge/src/ffi/pin.rs:58-79 (pin_change) *)
Definition pin_change (io : nat → bool) (now : Z) (salt : option bytes) (old_pin new_pin : str) (d : settings)
    : settings * may_fail bool :=
  if negb (pin_shape new_pin) then (d, err "new PIN must be 4-12 digits")
  else
    match check_pin_with_lockout io now old_pin d with
    | (d, Err e) => (d, Err e)
    | (d, Ok _) => store_pin io 2 salt new_pin d
    end.

(** Source: src/flutter-bridge/src/ffi/pin.rs:220-232 (pin_clear) *)
Definition pin_clear (io : nat → bool) (now : Z) (pin : str) (d : settings) : settings * may_fail bool :=
  match check_pin_with_lockout io now pin d with
  | (d, Err e) => (d, Err e)
  | (d, Ok _) =>
      match set_all io 2 [(PIN_HASH_KEY, []); (STATE_KEY, lit "{}"); (PERMANENT_KEY, lit "false")] d with
      | (d, Ok _) => (d, Ok true)
      | (d, Err e) => (d, Err e)
      end
  end.

(** ** The generic calls on one setting *)

(** Source: src/flutter-bridge/src/ffi/db.rs:361-362 (PROTECTED_SETTING_KEYS) *)
Definition PROTECTED_SETTING_KEYS : list (list Z) := [PIN_HASH_KEY; PERMANENT_KEY; STATE_KEY].

(** Source: src/flutter-bridge/src/ffi/db.rs:681-689 (db_set_setting) *)
Definition db_set_setting (io : nat → bool) (key value : str) (d : settings) : settings * may_fail bool :=
  if bool_decide (key ∈ PROTECTED_SETTING_KEYS) then (d, err "setting key is protected")
  else match settings_set (io 0) key value d with (d, Ok _) => (d, Ok true) | (d, Err e) => (d, Err e) end.

(** Source: src/flutter-bridge/src/ffi/db.rs:694-703 (db_get_setting) *)
Definition db_get_setting (key : str) (d : settings) : may_fail (option str) :=
  if bool_decide (key ∈ PROTECTED_SETTING_KEYS) then err "setting key is protected"
  else Ok (match settings_get key d with Some [] => None | o => o end).

(** Source: src/flutter-bridge/src/ffi/db.rs:747-755 (db_delete_setting) *)
Definition db_delete_setting (io : nat → bool) (key : str) (d : settings) : settings * may_fail bool :=
  if bool_decide (key ∈ PROTECTED_SETTING_KEYS) then (d, err "setting key is protected")
  else match settings_delete (io 0) key d with (d, Ok _) => (d, Ok true) | (d, Err e) => (d, Err e) end.

(** ** Sequences of calls *)

Inductive call :=
| Set_ (salt : option bytes) (pin : str)
| Change (now : Z) (salt : option bytes) (old_pin new_pin : str)
| Verify (now : Z) (pin : str)
| Clear (now : Z) (pin : str)
| SetSetting (key value : str)
| DeleteSetting (key : str).

Definition perform (io : nat → bool) (c : call) (d : settings) : settings * may_fail bool :=
  match c with
  | Set_ salt pin => pin_set io salt pin d
  | Change now salt old_pin new_pin => pin_change io now salt old_pin new_pin d
  | Verify now pin => pin_verify io now pin d
  | Clear now pin => pin_clear io now pin d
  | SetSetting key value => db_set_setting io key value d
  | DeleteSetting key => db_delete_setting io key d
  end.

(** The calls with the outcomes of their writes, one after the other. *)
Fixpoint run (calls : list ((nat → bool) * call)) (d : settings) : settings * list (may_fail bool) :=
  match calls with
  | [] => (d, [])
  | (io, c) :: calls =>
      let '(d, r) := perform io c d in
      let '(d, rs) := run calls d in (d, r :: rs)
  end.
End pin.
