(* ===== verification/PinLaws.v ===== *)
(** The PIN lock: ten wrong PINs lock the account whatever the clock does, as
    long as the settings are durable and the checks do not overlap; nothing
    unlocks it afterwards, a PIN is accepted only when it is the one stored, and
    two ways around the counters. *)

From S2P Require Import Prelude RustStr Primitives Pin.

Lemma lockout_delay_range count : (5000 ≤ lockout_delay count ≤ 120000)%Z.
Proof.
  unfold lockout_delay. set (i := Z.to_nat _). assert (Hi : i < 5).
  { unfold i. cbn [PIN_LOCKOUT_DELAYS length]. lia. }
  clearbody i. do 5 (destruct i as [|i]; [cbn; lia|]). lia.
Qed.

(** Every verdict but the right PIN outside a lockout costs an attempt. *)
Lemma apply_wrong state now :
  (0 ≤ attempt_count state < 10)%Z → (Z.max now (last_attempt_at state) ≤ i64_max - 120000)%Z → (i64_min ≤ now)%Z →
  ∃ state' v, apply_pin_attempt state now false false = Ok (state', v) ∧
    attempt_count state' = (attempt_count state + 1)%Z ∧ last_attempt_at state' = Z.max now (last_attempt_at state) ∧
    (v = PermanentlyLocked ↔ attempt_count state' = 10%Z) ∧ v ≠ Correct.
Proof.
  intros Hc Hm Hn. unfold apply_pin_attempt, wrong_pin. pose proof (lockout_delay_range (attempt_count state + 1)).
  rewrite !checked_i64_ok by (unfold i64_min, i64_max in *; lia). simpl. rewrite !checked_i64_ok by (unfold i64_min, i64_max in *; lia).
  unfold PIN_HARD_LIMIT, PIN_MAX_ATTEMPTS. simpl.
  repeat match goal with
  | |- context [match lockout_until ?s with _ => _ end] => destruct (lockout_until s)
  | |- context [(?a <? ?b)%Z] => destruct (Z.ltb_spec a b)
  | |- context [(?a <=? ?b)%Z] => destruct (Z.leb_spec a b)
  end; simpl; eexists _, _; (split; [reflexivity|]); simpl; (split_and!; [lia|lia| |done]); split; (done || lia).
Qed.

Section pin.
Context `{PrimitiveLaws, PinEnvLaws}.

(** ** Keys *)

Lemma keys_distinct : PIN_HASH_KEY ≠ PERMANENT_KEY ∧ PIN_HASH_KEY ≠ STATE_KEY ∧ PERMANENT_KEY ≠ STATE_KEY.
Proof. by split_and!; vm_compute. Qed.

(** The three rows of the lock. *)
Record same_lock (d d' : settings) : Prop := {
  sl_hash : d' !! PIN_HASH_KEY = d !! PIN_HASH_KEY;
  sl_flag : d' !! PERMANENT_KEY = d !! PERMANENT_KEY;
  sl_state : d' !! STATE_KEY = d !! STATE_KEY
}.

Lemma unprotected_same (key value : str) (d : settings) :
  key ∉ PROTECTED_SETTING_KEYS → same_lock d (<[key := value]> d) ∧ same_lock d (delete key d).
Proof.
  intros Hk. assert (key ≠ PIN_HASH_KEY ∧ key ≠ PERMANENT_KEY ∧ key ≠ STATE_KEY) as (?&?&?).
  { unfold PROTECTED_SETTING_KEYS in Hk. split_and!; intros ->; apply Hk; [left|right; left|right; right; left]. }
  split; split; rewrite ?lookup_insert_ne, ?lookup_delete_ne; congruence.
Qed.

(** The generic calls never reach the rows of the lock. *)
Lemma generic_calls_same io c d d' r :
  match c with SetSetting _ _ | DeleteSetting _ => True | _ => False end →
  perform io c d = (d', r) → same_lock d d'.
Proof.
  destruct c as [| | | |key value|key]; try done; intros _; simpl; unfold db_set_setting, db_delete_setting, settings_set, settings_delete;
    case_bool_decide as Hk; [by intros [= <- _]| |by intros [= <- _]|];
    destruct (io 0); intros [= <- _]; try done;
    first [exact (proj1 (unprotected_same key value d Hk))|exact (proj2 (unprotected_same key [] d Hk))].
Qed.

(** ** A PIN that is accepted *)

Definition guess_right (d : settings) (pin : str) : bool := bool_decide (check_compare pin (d !! PIN_HASH_KEY) = Ok true).

Lemma wrong_not_correct state now s : wrong_pin state now ≠ Ok (s, Correct).
Proof.
  unfold wrong_pin. destruct (checked_i64 _) as [count|]; [simpl|done].
  destruct (_ <=? count)%Z; [done|]. destruct (_ <=? count)%Z; [|done]. by destruct (checked_i64 _).
Qed.

Lemma apply_correct state now correct permanent s :
  apply_pin_attempt state now correct permanent = Ok (s, Correct) → correct = true ∧ permanent = false.
Proof.
  unfold apply_pin_attempt. destruct permanent; [done|]. destruct correct; [done|].
  destruct (lockout_until state) as [until|]; [destruct (_ <? _)%Z|]; try (intros Hw; by apply wrong_not_correct in Hw).
  destruct (checked_i64 _); [simpl|done]. by destruct (_ <=? _)%Z.
Qed.

Lemma settle_ok io now permanent correct state d d' :
  check_settle io now permanent correct state d = (d', Ok ()) → correct = true ∧ permanent = false.
Proof.
  unfold check_settle. destruct (apply_pin_attempt _ _ _ _) as [[s v]|] eqn:Ha; [|done].
  destruct v; try done; [intros _; by eapply apply_correct|..].
  - by destruct (settings_set _ _ _ _) as [? [?|?]].
  - by destruct (set_all _ _ _ _) as [? [?|?]].
Qed.

Lemma check_locked_fails io now permanent state d d' : check_locked io now permanent state d ≠ (d', Ok ()).
Proof.
  unfold check_locked. destruct (apply_pin_attempt _ _ _ _) as [[s v]|]; [|done]. destruct (set_all _ _ _ _) as [? [?|?]]; done.
Qed.

(** A check succeeds only for the PIN that is stored, outside a lockout and
    without the permanent lock. *)
Theorem accepted_pin io now pin d d' :
  check_pin_with_lockout io now pin d = (d', Ok ()) →
  guess_right d pin = true ∧ permanent_flag d = false ∧ inside now (lockout_state d) = false.
Proof.
  unfold check_pin_with_lockout, check_finish, check_reads. destruct (is_locked _ _ _) eqn:Hl.
  { intros Hc. by apply check_locked_fails in Hc. }
  unfold is_locked in Hl. apply orb_false_iff in Hl as [-> ->].
  destruct (check_compare _ _) as [correct|] eqn:Hc; [|done]. intros [-> _]%settle_ok.
  split_and!; [|done|done]. unfold guess_right. by apply bool_decide_eq_true.
Qed.

(** ** The permanent lock *)

Definition locked_for_good (h : str) (d : settings) : Prop :=
  h ≠ [] ∧ d !! PIN_HASH_KEY = Some h ∧ d !! PERMANENT_KEY = Some (lit "true").

Lemma locked_same h d d' : locked_for_good h d → same_lock d d' → locked_for_good h d'.
Proof. intros (?&?&?) [? ? ?]. split_and!; congruence. Qed.

(** Writing the counters, or the flag again, keeps the lock. *)
Lemma set_all_locked io n rows h d :
  Forall (λ kv, kv.1 = STATE_KEY ∨ kv = (PERMANENT_KEY, lit "true")) rows →
  locked_for_good h d → locked_for_good h (set_all io n rows d).1.
Proof.
  destruct keys_distinct as (?&?&?). revert n d. induction rows as [|[k v] rows IH]; intros n d Hr Hd; [done|].
  apply Forall_cons in Hr as [Hk Hr]. cbn [set_all]. unfold settings_set. destruct (io n); [|done]. apply IH; [done|].
  destruct Hd as (?&?&?). destruct Hk as [Hk| [= -> ->]]; simpl in *; subst; split_and!; try done;
    rewrite ?lookup_insert_eq, ?lookup_insert_ne by done; done.
Qed.

Lemma check_locked_for_good io now pin h d :
  locked_for_good h d →
  locked_for_good h (check_pin_with_lockout io now pin d).1 ∧ is_ok (check_pin_with_lockout io now pin d).2 = false ∧
  (check_pin_with_lockout io now pin d).2 ≠ Err INCORRECT.
Proof.
  intros Hd. assert (Hp : permanent_flag d = true).
  { destruct Hd as (_&_&Hf). unfold permanent_flag, settings_get. rewrite Hf. by apply bool_decide_eq_true. }
  unfold check_pin_with_lockout, check_finish, check_reads, is_locked. rewrite Hp. cbn [orb].
  unfold check_locked. cbn [apply_pin_attempt]. rewrite bool_decide_eq_true_2 by done.
  pose proof (set_all_locked io 0 [(STATE_KEY, lockout_to_json (lockout_state d)); (PERMANENT_KEY, lit "true")] h d) as Hs.
  assert (He : ∀ e, (set_all io 0 [(STATE_KEY, lockout_to_json (lockout_state d)); (PERMANENT_KEY, lit "true")] d).2 = Err e → e ≠ INCORRECT).
  { unfold set_all, settings_set. destruct (io 0), (io 1); naive_solver. }
  destruct (set_all _ _ _ _) as [d1 [?|?]]; simpl in *; (split; [apply Hs; [by repeat constructor; (left + right)|done]|]); split; try done.
  intros [= ->]. by eapply He.
Qed.

Definition is_pin_call (c : call) : Prop := match c with SetSetting _ _ | DeleteSetting _ => False | _ => True end.

Lemma perform_locked_for_good io c h d :
  locked_for_good h d →
  locked_for_good h (perform io c d).1 ∧ (is_pin_call c → is_ok (perform io c d).2 = false).
Proof.
  intros Hd. destruct c as [salt pin|now salt old new|now pin|now pin|key value|key]; simpl.
  - unfold pin_set. destruct (negb _); [done|]. assert (pin_has d = true) as ->; [|done].
    destruct Hd as (?&Hh&_). unfold pin_has, settings_get. rewrite Hh. by rewrite bool_decide_eq_false_2.
  - unfold pin_change. destruct (negb _); [done|]. destruct (check_locked_for_good io now old h d Hd) as (?&?&_).
    by destruct (check_pin_with_lockout _ _ _ _) as [? [?|?]].
  - unfold pin_verify. destruct (check_locked_for_good io now pin h d Hd) as (?&?&Hne).
    destruct (check_pin_with_lockout _ _ _ _) as [? [?|?]]; simpl in *; [done|]. split; [done|].
    rewrite bool_decide_eq_false_2; [done|]. congruence.
  - unfold pin_clear. destruct (check_locked_for_good io now pin h d Hd) as (?&?&_).
    by destruct (check_pin_with_lockout _ _ _ _) as [? [?|?]].
  - split; [|done]. eapply locked_same; [done|]. eapply (generic_calls_same io (SetSetting key value)); [done|]. apply surjective_pairing.
  - split; [|done]. eapply locked_same; [done|]. eapply (generic_calls_same io (DeleteSetting key)); [done|]. apply surjective_pairing.
Qed.

(** Once the account is permanently locked, no sequence of calls, with
    any PIN, clock or failing writes, clears the lock or the stored hash, and
    no call on the PIN succeeds. *)
Theorem permanent_lock_final calls h d d' rs :
  locked_for_good h d → run calls d = (d', rs) →
  locked_for_good h d' ∧ Forall2 (λ c r, is_pin_call c.2 → is_ok r = false) calls rs.
Proof.
  revert d rs. induction calls as [|[io c] calls IH]; intros d rs Hd; cbn [run]; [by intros [= <- <-]|].
  destruct (perform_locked_for_good io c h d Hd) as [Hd1 Hr]. destruct (perform io c d) as [d1 r]. simpl in *.
  destruct (run calls d1) as [d2 rs'] eqn:E. intros [= <- <-]. destruct (IH _ _ Hd1 E) as [? ?]. split; [done|]. by constructor.
Qed.

(** ** Guessing *)

(** What the rows of the lock say after [n] wrong attempts. *)
Definition counting (h : str) (n : nat) (d : settings) : Prop :=
  if decide (n < 10) then
    h ≠ [] ∧ d !! PIN_HASH_KEY = Some h ∧ permanent_flag d = false ∧ attempt_count (lockout_state d) = Z.of_nat n ∧
    (last_attempt_at (lockout_state d) ≤ i64_max - 120000)%Z
  else locked_for_good h d.

Lemma counting_same h n d d' : counting h n d → same_lock d d' → counting h n d'.
Proof.
  unfold counting. intros Hn Hs. case_match; [|by eapply locked_same]. destruct Hs as [E1 E2 E3].
  unfold permanent_flag, lockout_state, settings_get in *. by rewrite E1, E2, E3.
Qed.

Lemma counting_has h n d : counting h n d → pin_has d = true.
Proof.
  unfold counting, pin_has, settings_get. intros Hn. assert (h ≠ [] ∧ d !! PIN_HASH_KEY = Some h) as [? ->].
  { case_match; [|unfold locked_for_good in Hn]; naive_solver. }
  by rewrite bool_decide_eq_false_2.
Qed.

(** The rows after one more attempt. *)
Definition attempted (s : PinLockoutState) (flag : bool) (d : settings) : settings :=
  let d := <[STATE_KEY := lockout_to_json s]> d in if flag then <[PERMANENT_KEY := lit "true"]> d else d.

Lemma attempted_counting h n d s flag :
  n < 10 → counting h n d → attempt_count s = (Z.of_nat n + 1)%Z → (last_attempt_at s ≤ i64_max - 120000)%Z →
  (flag = true ↔ attempt_count s = 10%Z) → counting h (S n) (attempted s flag d).
Proof.
  intros Hn Hd Hs Hl Hf. destruct keys_distinct as (N1 & N2 & N3). unfold counting in *. rewrite decide_True in Hd by done.
  destruct Hd as (Hh & Hk & Hp & _ & _). unfold attempted.
  assert (Hls : lockout_state (<[STATE_KEY := lockout_to_json s]> d) = s).
  { unfold lockout_state, settings_get. rewrite lookup_insert_eq. simpl. by rewrite lockout_json. }
  destruct flag.
  - rewrite decide_False by (specialize (proj1 Hf eq_refl); lia). split_and!; [done| |by rewrite lookup_insert_eq].
    rewrite !lookup_insert_ne by done. done.
  - assert (attempt_count s ≠ 10%Z) by (intros E; by apply Hf in E). rewrite decide_True by lia. rewrite Hls.
    split_and!; [done| | |lia|done].
    + by rewrite lookup_insert_ne.
    + unfold permanent_flag, settings_get in *. by rewrite lookup_insert_ne.
Qed.

Definition durable (io : nat → bool) : Prop := ∀ n, io n = true.
Definition in_time (now : Z) : Prop := (i64_min ≤ now ≤ i64_max - 120000)%Z.

(** A wrong PIN costs an attempt, in a lockout or not. *)
Lemma check_counts io now pin h n d :
  durable io → in_time now → counting h n d → check_compare pin (Some h) = Ok false →
  counting h (S n) (check_pin_with_lockout io now pin d).1 ∧ is_ok (check_pin_with_lockout io now pin d).2 = false.
Proof.
  intros Hio Ht Hd Hw. destruct (decide (n < 10)) as [Hn|Hn].
  2: { unfold counting in *. rewrite !decide_False in * by lia. destruct (check_locked_for_good io now pin h d Hd) as (?&?&_). by split. }
  assert (Hd' := Hd). unfold counting in Hd'. rewrite decide_True in Hd' by done. destruct Hd' as (Hh & Hk & Hp & Hc & Hl).
  destruct (apply_wrong (lockout_state d) now) as (s & v & Ha & Hs1 & Hs2 & Hv & Hv'); [lia|unfold in_time in Ht; lia|unfold in_time in Ht; lia|].
  assert (Hst : ∀ flag, (flag = true ↔ v = PermanentlyLocked) → counting h (S n) (attempted s flag d)).
  { intros flag Hf. apply attempted_counting; try done; [lia|unfold in_time in Ht; lia|]. rewrite Hf. done. }
  unfold check_pin_with_lockout, check_finish, check_reads, is_locked, settings_get. rewrite Hp, Hk. cbn [orb]. destruct (inside _ _).
  - unfold check_locked. rewrite Ha. destruct (bool_decide_reflect (v = PermanentlyLocked)) as [Hpv|Hpv]; cbn [set_all]; unfold settings_set;
      rewrite !Hio; (split; [|done]); [apply (Hst true)|apply (Hst false)]; naive_solver.
  - rewrite Hw. unfold check_settle. rewrite Ha. destruct v as [|u|u|]; [done|..]; cbn [set_all]; unfold set_logged, settings_set; rewrite !Hio; cbn [fst snd];
      (split; [|done]); [apply (Hst false)|apply (Hst false)|apply (Hst true)]; naive_solver.
Qed.

(** A call that tries a PIN, and that the PIN is not [h]'s. *)
Definition counts (c : call) : bool :=
  match c with Verify _ _ | Clear _ _ => true | Change _ _ _ new_pin => pin_shape new_pin | _ => false end.
Definition wrong_try (h : str) (c : call) : Prop :=
  match c with
  | Verify now pin | Clear now pin | Change now _ pin _ => in_time now ∧ check_compare pin (Some h) = Ok false
  | _ => True
  end.

Lemma perform_counts io c h n d :
  durable io → counting h n d → wrong_try h c →
  counting h (if counts c then S n else n) (perform io c d).1 ∧ (is_pin_call c → (perform io c d).2 ≠ Ok true).
Proof.
  intros Hio Hd Hw. destruct c as [salt pin|now salt old new|now pin|now pin|key value|key]; simpl in *.
  - unfold pin_set. rewrite (counting_has _ _ _ Hd). by destruct (negb _).
  - unfold pin_change. destruct (pin_shape new); [|done]. cbn [negb]. destruct Hw as [Ht Hw].
    destruct (check_counts io now old h n d Hio Ht Hd Hw). by destruct (check_pin_with_lockout _ _ _ _) as [? [?|?]].
  - unfold pin_verify. destruct Hw as [Ht Hw]. destruct (check_counts io now pin h n d Hio Ht Hd Hw).
    destruct (check_pin_with_lockout _ _ _ _) as [? [?|?]]; [done|]. split; [done|]. intros _. simpl. by case_bool_decide.
  - unfold pin_clear. destruct Hw as [Ht Hw]. destruct (check_counts io now pin h n d Hio Ht Hd Hw).
    by destruct (check_pin_with_lockout _ _ _ _) as [? [?|?]].
  - split; [|done]. eapply counting_same; [done|]. eapply (generic_calls_same io (SetSetting key value)); [done|]. apply surjective_pairing.
  - split; [|done]. eapply counting_same; [done|]. eapply (generic_calls_same io (DeleteSetting key)); [done|]. apply surjective_pairing.
Qed.

(** C26: someone who does not know the PIN has nine tries, as long as the
    settings are written durably and one check is over before the next begins.
    Then, whatever calls are made one after the other, in any order and with
    any clock, without the right PIN none succeeds, each attempt is counted
    while there are fewer than ten, and from the tenth on the account is locked
    for good. Without these conditions it fails: see [lost_attempts_unlimited]
    and [overlapping_attempts_count_once]. *)
Theorem ten_wrong_pins_lock calls h n d d' rs :
  counting h n d → Forall (λ c, durable c.1 ∧ wrong_try h c.2) calls → run calls d = (d', rs) →
  counting h (n + length (filter (λ c, counts c.2 = true) calls)) d' ∧
  Forall2 (λ c r, is_pin_call c.2 → r ≠ Ok true) calls rs.
Proof.
  revert n d rs. induction calls as [|[io c] calls IH]; intros n d rs Hd Hc; cbn [run].
  { intros [= <- <-]. simpl. by rewrite Nat.add_0_r. }
  apply Forall_cons in Hc as [[Hio Hw] Hc]. destruct (perform_counts io c h n d Hio Hd Hw) as [Hd1 Hr].
  destruct (perform io c d) as [d1 r]. simpl in *. destruct (run calls d1) as [d2 rs'] eqn:E. intros [= <- <-].
  destruct (IH _ _ _ Hd1 Hc E) as [Hd2 Hrs]. split; [|by constructor]. rewrite filter_cons. simpl.
  destruct (counts c); [rewrite decide_True by done|rewrite decide_False by (intros ?; discriminate)]; [|done]. cbn [length].
  by replace (n + S (length (filter (λ c, counts c.2 = true) calls))) with (S n + length (filter (λ c, counts c.2 = true) calls)) by lia.
Qed.

(** During a lockout every PIN is refused, the right one too; the third wrong
    PIN starts one of at least five seconds, which setting the clock back
    only prolongs. *)
Theorem lockout_refuses io now pin d :
  inside now (lockout_state d) = true → is_ok (check_pin_with_lockout io now pin d).2 = false.
Proof.
  intros Hi. unfold check_pin_with_lockout, check_finish, check_reads, is_locked. rewrite Hi, orb_true_r.
  pose proof (check_locked_fails io now (permanent_flag d) (lockout_state d) d). destruct (check_locked _ _ _ _ _) as [d1 [[]|?]]; [|done].
  by destruct (H3 d1).
Qed.

Theorem lockout_starts state now count :
  (3 ≤ attempt_count state + 1 < 10)%Z → (i64_min ≤ now)%Z → (Z.max now (last_attempt_at state) ≤ i64_max - 120000)%Z →
  inside (Z.max now (last_attempt_at state)) state = false → count = (attempt_count state + 1)%Z →
  ∃ state', apply_pin_attempt state now false false = Ok (state', Incorrect (lockout_until state')) ∧
    ∀ later, (later < now + 5000)%Z → inside later state' = true.
Proof.
  intros Hc Hn Hm Hi ->. pose proof (lockout_delay_range (attempt_count state + 1)).
  assert (Hw : ∃ state', wrong_pin state (Z.max now (last_attempt_at state)) = Ok (state', Incorrect (lockout_until state')) ∧
    ∀ later, (later < now + 5000)%Z → inside later state' = true).
  { unfold wrong_pin. rewrite !checked_i64_ok by (unfold i64_min, i64_max in *; lia). simpl.
    rewrite checked_i64_ok by (unfold i64_min, i64_max in *; lia). unfold PIN_HARD_LIMIT, PIN_MAX_ATTEMPTS.
    destruct (Z.leb_spec 10 (attempt_count state + 1)); [lia|]. destruct (Z.leb_spec 3 (attempt_count state + 1)); [|lia].
    simpl. eexists (mk_lockout _ _ _). split; [reflexivity|].
    intros later Hl. unfold inside. simpl. apply Z.ltb_lt. lia. }
  unfold apply_pin_attempt, inside in *. destruct (lockout_until state); [by rewrite Hi|done].
Qed.

(** ** Two ways around the counters *)

Definition never : nat → bool := λ _, false.

(** While the writes fail, a wrong PIN below the hard limit is not counted:
    the guesses are unlimited. *)
Theorem lost_attempts_unlimited h d pins :
  counting h 0 d → Forall (λ p, in_time p.1 ∧ check_compare p.2 (Some h) = Ok false ∧ inside p.1 (lockout_state d) = false ∧ inside (Z.max p.1 (last_attempt_at (lockout_state d))) (lockout_state d) = false) pins →
  run ((λ p, (never, Verify p.1 p.2)) <$> pins) d = (d, replicate (length pins) (Ok false)).
Proof.
  intros Hd. induction pins as [|[now pin] pins IH]; intros Hp; [done|]. apply Forall_cons in Hp as [(Ht & Hw & Hi & Hi') Hp].
  rewrite fmap_cons. cbn [run]. simpl in *. specialize (IH Hp).
  unfold counting in Hd. rewrite decide_True in Hd by lia. destruct Hd as (_ & Hk & Hf & Hc & Hl). simpl in Hc.
  assert (Ha : ∃ s, apply_pin_attempt (lockout_state d) now false false = Ok (s, Incorrect None)).
  { assert (Hwp : ∃ s, wrong_pin (lockout_state d) (Z.max now (last_attempt_at (lockout_state d))) = Ok (s, Incorrect None)).
    { unfold wrong_pin. rewrite Hc. exists (mk_lockout 1 (Z.max now (last_attempt_at (lockout_state d))) (lockout_until (lockout_state d))). reflexivity. }
    unfold apply_pin_attempt, inside in *. destruct (lockout_until _); [by rewrite Hi'|done]. }
  destruct Ha as [s Ha]. unfold pin_verify, check_pin_with_lockout, check_finish, check_reads, is_locked, settings_get.
  rewrite Hf, Hi, Hk. cbn [orb]. rewrite Hw. unfold check_settle. rewrite Ha. unfold set_logged, settings_set. simpl.
  by rewrite IH.
Qed.

(** Checks that overlap, each reading the counters before another writes
    them, are counted once. *)
Theorem overlapping_attempts_count_once io now h d pins :
  durable io → in_time now → counting h 0 d → lockout_until (lockout_state d) = None → Forall (λ pin, check_compare pin (Some h) = Ok false) pins →
  pins ≠ [] →
  let finish d1 pin := (check_finish io now pin (check_reads d) d1).1 in
  Forall (λ pin, ∀ d1, (check_finish io now pin (check_reads d) d1).2 = Err INCORRECT) pins ∧
  attempt_count (lockout_state (foldl finish d pins)) = 1%Z.
Proof.
  intros Hio Ht Hd Hu Hp Hne finish. unfold counting in Hd. rewrite decide_True in Hd by lia. destruct Hd as (_ & Hk & Hf & Hc & Hl). simpl in Hc.
  set (s := mk_lockout 1 (Z.max now (last_attempt_at (lockout_state d))) None).
  assert (Ha : apply_pin_attempt (lockout_state d) now false false = Ok (s, Incorrect None)).
  { unfold apply_pin_attempt, wrong_pin. rewrite Hu, Hc. done. }
  assert (Hfin : ∀ pin d1, check_compare pin (Some h) = Ok false →
    check_finish io now pin (check_reads d) d1 = (<[STATE_KEY := lockout_to_json s]> d1, Err INCORRECT)).
  { intros pin d1 Hw. unfold check_finish, check_reads, is_locked, inside, settings_get. rewrite Hf, Hu, Hk. cbn [orb]. rewrite Hw.
    unfold check_settle. rewrite Ha. unfold set_logged, settings_set. by rewrite Hio. }
  split. { eapply Forall_impl; [exact Hp|]. intros pin Hw d1. by rewrite Hfin. }
  assert (Hall : ∀ d1, pins ≠ [] → lockout_state (foldl finish d1 pins) = s).
  { clear Hne. induction Hp as [|pin pins Hw Hp IH]; intros d1 Hne; [done|]. cbn [foldl]. destruct pins as [|p2 pins].
    - cbn [foldl]. unfold finish. rewrite Hfin by done. unfold lockout_state, settings_get. cbn [fst]. rewrite lookup_insert_eq.
      cbn. by rewrite lockout_json.
    - by apply IH. }
  by rewrite Hall.
Qed.
End pin.

(** ** A concrete phone *)

Module PinExamples.

#[local] Existing Instances Toy.primitives Toy.primitive_laws.

Definition counters_to_json (s : PinLockoutState) : str :=
  match lockout_until s with
  | None => [0; attempt_count s; last_attempt_at s]
  | Some until => [1; attempt_count s; last_attempt_at s; until]
  end%Z.

Definition counters_from_json (s : str) : option PinLockoutState :=
  match s with
  | [0; c; l] => Some (mk_lockout c l None)
  | [1; c; l; u] => Some (mk_lockout c l (Some u))
  | _ => if bool_decide (s = lit "{}") then Some lockout_default else None
  end%Z.

#[export] Instance phone_env : PinEnv := {
  pbkdf2_hmac_sha256 p s i n := Toy.digest (Z.to_nat n) (p ++ s);
  lockout_to_json := counters_to_json;
  lockout_from_json := counters_from_json
}.

#[export] Instance phone_laws : PinEnvLaws.
Proof.
  split.
  - intros p s i n Hn. simpl. rewrite Toy.digest_length. lia.
  - intros. apply Toy.digest_bytes.
  - intros [c l [u|]]; done.
  - by vm_compute.
Qed.

Definition salt : bytes := replicate 16 7%Z.
Definition always : nat → bool := λ _, true.
Definition phone : settings := (pin_set always (Some salt) (lit "2580") ∅).1.
Definition hash : str := default [] (phone !! PIN_HASH_KEY).

Lemma always_durable : durable always.
Proof. done. Qed.

Lemma phone_counting : counting hash 0 phone.
Proof. unfold counting. rewrite decide_True by lia. by split_and!; vm_compute. Qed.

(** Eleven guesses two minutes apart, then the right PIN. *)
Definition guesses : list ((nat → bool) * call) :=
  (λ k, (always, Verify (120000 * Z.of_nat k) (lit "0000"))) <$> seq 1 11.

Example right_pin : (perform always (Verify 1000 (lit "2580")) phone).2 = Ok true.
Proof. by vm_compute. Qed.
Example guesses_answered :
  (run (guesses ++ [(always, Verify 9000000 (lit "2580"))]) phone).2
  = replicate 9 (Ok false) ++ [Err PERMANENT; Err PERMANENT; Err PERMANENT].
Proof. by vm_compute. Qed.

Lemma guesses_wrong : Forall (λ c, durable c.1 ∧ wrong_try hash c.2) guesses.
Proof.
  unfold guesses. repeat apply Forall_cons_2; try apply Forall_nil_2;
    (split; [done|]); (split; [split; by_leb|by vm_compute]).
Qed.

Definition locked_phone : settings := (run guesses phone).1.

Lemma ten_wrong_pins_lock_witness :
  length (filter (λ c, counts c.2 = true) guesses) = 11 ∧ counting hash (0 + 11) locked_phone ∧
  Forall2 (λ c r, is_pin_call c.2 → r ≠ Ok true) guesses (run guesses phone).2.
Proof.
  split; [by vm_compute|].
  apply (ten_wrong_pins_lock guesses hash 0 phone locked_phone (run guesses phone).2 phone_counting guesses_wrong).
  apply surjective_pairing.
Defined.

Lemma locked_phone_locked : locked_for_good hash locked_phone.
Proof. by split_and!; vm_compute. Qed.

Definition pleas : list ((nat → bool) * call) :=
  [(never, Verify 0 (lit "2580")); (always, Clear 99999999 (lit "2580")); (always, DeleteSetting PERMANENT_KEY);
   (always, Set_ (Some salt) (lit "1111"))].

Lemma permanent_lock_final_witness :
  (run pleas locked_phone).2 = [err "database"; Err PERMANENT; err "setting key is protected"; err "a PIN is already set"] ∧
  locked_for_good hash (run pleas locked_phone).1 ∧
  Forall2 (λ c r, is_pin_call c.2 → is_ok r = false) pleas (run pleas locked_phone).2.
Proof.
  split; [by vm_compute|].
  apply (permanent_lock_final pleas hash locked_phone (run pleas locked_phone).1 (run pleas locked_phone).2 locked_phone_locked).
  apply surjective_pairing.
Defined.

End PinExamples.
