(* ===== verification/Act.v ===== *)
(** Calls of the bridge that change a state and may fail: what a call did
    before it failed stays. Shared by the components of the bridge; no code of
    the repository is modelled here. *)

From S2P Require Import Prelude.

Definition act (S A : Type) : Type := S → S * may_fail A.

Section act.
Context {S : Type}.

#[export] Instance act_ret : MRet (act S) := λ A a s, (s, Ok a).
#[export] Instance act_bind : MBind (act S) := λ A B f m s,
  match m s with (s, Ok a) => f a s | (s, Err e) => (s, Err e) end.

Definition fail {A} (msg : string) : act S A := λ s, (s, err msg).
Definition guard_else (b : bool) (msg : string) : act S unit := λ s, (s, ensure b msg).
Definition lift {A} (r : may_fail A) : act S A := λ s, (s, r).
Definition reads {A} (f : S → A) : act S A := λ s, (s, Ok (f s)).
Definition writes (f : S → S) : act S unit := λ s, (f s, Ok ()).
(** A row that must be there. *)
Definition found {A} (o : option A) (msg : string) : act S A := λ s, (s, ok_or (Fail msg) o).

(** [m] only makes steps of [R]. *)
Definition within (R : S → S → Prop) {A} (m : act S A) : Prop := ∀ s, R s (m s).1.

Context (R : S → S → Prop) `{!PreOrder R}.

Lemma within_pure {A} (r : S → may_fail A) : within R (λ s, (s, r s)).
Proof. intros s. simpl. reflexivity. Qed.
Lemma within_ret {A} (a : A) : within R (mret a : act S A).
Proof. apply (within_pure (λ _, Ok a)). Qed.
Lemma within_fail {A} msg : within R (fail msg : act S A).
Proof. apply (within_pure (λ _, err msg)). Qed.
Lemma within_guard b msg : within R (guard_else b msg).
Proof. apply (within_pure (λ _, ensure b msg)). Qed.
Lemma within_lift {A} (r : may_fail A) : within R (lift r).
Proof. apply (within_pure (λ _, r)). Qed.
Lemma within_reads {A} (f : S → A) : within R (reads f).
Proof. apply (within_pure (λ s, Ok (f s))). Qed.
Lemma within_found {A} (o : option A) msg : within R (found o msg).
Proof. apply (within_pure (λ _, ok_or (Fail msg) o)). Qed.

Lemma within_bind {A B} (m : act S A) (f : A → act S B) : within R m → (∀ a, within R (f a)) → within R (m ≫= f).
Proof.
  intros Hm Hf s. unfold mbind, act_bind. specialize (Hm s). destruct (m s) as [s1 [a|e]]; [|done].
  etrans; [exact Hm|apply Hf].
Qed.

(** A guard in front: what follows may rely on it. *)
Lemma within_guarded {B} (b : bool) msg (k : act S B) : (b = true → within R k) → within R (_ ← guard_else b msg; k).
Proof.
  intros Hk s. unfold mbind, act_bind, guard_else, ensure. destruct b; [by apply Hk|]. simpl. reflexivity.
Qed.

Lemma within_read_bind {A B} (f : S → A) (k : A → act S B) : (∀ s, R s (k (f s) s).1) → within R (reads f ≫= k).
Proof. intros Hk s. apply Hk. Qed.
End act.

(** A chain of calls that succeeded, link by link. *)
Lemma act_bind_ok {S A B} (m : act S A) (f : A → act S B) s s' b :
  (m ≫= f) s = (s', Ok b) ↔ ∃ s1 a, m s = (s1, Ok a) ∧ f a s1 = (s', Ok b).
Proof.
  unfold mbind, act_bind. destruct (m s) as [s1 [a|e]].
  - split; [intros Hf; by exists s1, a|by intros (? & ? & [= <- <-] & ?)].
  - split; [done|by intros (? & ? & ? & ?)].
Qed.

Lemma act_guard_ok {S} b msg (s s' : S) u : guard_else b msg s = (s', Ok u) ↔ s' = s ∧ b = true.
Proof. unfold guard_else, ensure, err. destruct b, u; naive_solver. Qed.
Lemma reads_ok {S A} (f : S → A) s s' a : reads f s = (s', Ok a) ↔ s' = s ∧ a = f s.
Proof. unfold reads. naive_solver. Qed.
Lemma act_found_ok {S A} (o : option A) msg (s s' : S) a : found o msg s = (s', Ok a) ↔ s' = s ∧ o = Some a.
Proof. unfold found. destruct o; simpl; naive_solver. Qed.
Lemma lift_ok {S A} (r : may_fail A) (s s' : S) a : lift r s = (s', Ok a) ↔ s' = s ∧ r = Ok a.
Proof. unfold lift. naive_solver. Qed.
Lemma writes_ok {S} (f : S → S) s s' u : writes f s = (s', Ok u) ↔ s' = f s.
Proof. unfold writes. destruct u. naive_solver. Qed.
Lemma ret_ok {S A} (a b : A) (s s' : S) : (mret a : act S A) s = (s', Ok b) ↔ s' = s ∧ b = a.
Proof. unfold mret, act_ret. naive_solver. Qed.

(** Splits a hypothesis saying that a chain of actions succeeded. *)
Ltac inv_act :=
  repeat match goal with
  | H : (_ ≫= _) _ = (_, Ok _) |- _ => apply act_bind_ok in H as (? & ? & ? & ?)
  | H : guard_else _ _ _ = (_, Ok _) |- _ => apply act_guard_ok in H as [-> H]
  | H : reads _ _ = (_, Ok _) |- _ => apply reads_ok in H as [-> ->]
  | H : found _ _ _ = (_, Ok _) |- _ => apply act_found_ok in H as [-> H]
  | H : lift _ _ = (_, Ok _) |- _ => apply lift_ok in H as [-> H]
  | H : writes _ _ = (_, Ok _) |- _ => apply writes_ok in H as ->
  | H : mret _ _ = (_, Ok _) |- _ => apply ret_ok in H as [-> ->]
  | H : fail _ _ = (_, Ok _) |- _ => discriminate H
  end.

(** ** Running a chain *)

Section equations.
Context {S : Type}.

Lemma bind_assoc {A B C} (m : act S A) (f : A → act S B) (g : B → act S C) s :
  ((m ≫= f) ≫= g) s = (m ≫= λ a, f a ≫= g) s.
Proof. unfold mbind, act_bind. by destruct (m s) as [? [?|?]]. Qed.
Lemma run_ret {A B} (a : A) (k : A → act S B) s : (mret a ≫= k) s = k a s.
Proof. done. Qed.
Lemma run_guard {B} b msg (k : unit → act S B) s : (guard_else b msg ≫= k) s = if b then k () s else (s, err msg).
Proof. by destruct b. Qed.
Lemma run_reads {A B} (f : S → A) (k : A → act S B) s : (reads f ≫= k) s = k (f s) s.
Proof. done. Qed.
Lemma run_found {A B} (o : option A) msg (k : A → act S B) s :
  (found o msg ≫= k) s = match o with Some a => k a s | None => (s, err msg) end.
Proof. by destruct o. Qed.
Lemma run_writes {B} f (k : unit → act S B) s : (writes f ≫= k) s = k () (f s).
Proof. done. Qed.
End equations.

(** Runs the chain in the goal up to the next condition. *)
Ltac act_run := rewrite ?bind_assoc, ?run_ret, ?run_guard, ?run_reads, ?run_found, ?run_writes.
