(* ===== verification/Json.v ===== *)
(** JSON values as serde_json gives them, and the numbers in them. The parser
    and the printer are serde_json's and an interface, and so are the decimal
    forms of binary64 numbers; no code of the repository is modelled here. *)

From Stdlib Require Import SpecFloat.
From S2P Require Import Prelude.

Abbreviation f64 := spec_float (only parsing).

(** [z as f64]. *)
Definition f64_of_Z (z : Z) : f64 := binary_normalize 53 1024 z 0 false.

(** [x as u64]: truncated and saturating; a NaN is zero. *)
Definition f64_to_u64 (x : f64) : Z :=
  match x with
  | S754_finite false m e => Z.min u64_max (if (0 <=? e)%Z then Z.pos m * 2 ^ e else Z.pos m / 2 ^ (- e))
  | S754_infinity false => u64_max
  | _ => 0
  end.

Definition f64_is_finite (x : f64) : bool := match x with S754_finite _ _ _ | S754_zero _ => true | _ => false end.

(** [x.max(0.0)]. *)
Definition f64_max0 (x : f64) : f64 := if SFleb (S754_zero false) x then x else S754_zero false.

Inductive number := NInt (z : Z) | NFloat (x : f64).

(** [as_f64]. *)
Definition number_f64 (n : number) : f64 := match n with NInt z => f64_of_Z z | NFloat x => x end.

Inductive json :=
| JNull
| JBool (b : bool)
| JNum (n : number)
| JStr (s : str)
| JArr (l : list json)
| JObj (fields : list (list Z * json)).

(** The last field of that name: [v.get(key)]. *)
Definition get_field (key : str) (j : json) : option json :=
  match j with
  | JObj fields => list_find (λ kv, kv.1 = key) (reverse fields) ≫= λ x, Some x.2.2
  | _ => None
  end.

(** [v[key]]: null when there is none. *)
Definition field (j : json) (key : str) : json := default JNull (get_field key j).

(** [v[key] = x] on an object. *)
Definition set_field (key : str) (x : json) (fields : list (list Z * json)) : list (list Z * json) :=
  filter (λ kv, kv.1 ≠ key) fields ++ [(key, x)].

Definition as_str (v : json) : option str := match v with JStr s => Some s | _ => None end.
Definition as_u64 (v : json) : option Z := match v with JNum (NInt z) => if (0 <=? z)%Z then Some z else None | _ => None end.
Definition as_i64 (v : json) : option Z := match v with JNum (NInt z) => if (z <=? i64_max)%Z then Some z else None | _ => None end.
Definition as_f64 (v : json) : option f64 := match v with JNum n => Some (number_f64 n) | _ => None end.
Definition as_bool (v : json) : option bool := match v with JBool b => Some b | _ => None end.
Definition as_array (v : json) : option (list json) := match v with JArr l => Some l | _ => None end.

(** The values of the fields of a struct, all of them optional, as serde's
    derived reader finds them: in an object each at most once, or in an array of
    exactly as many elements. A field that is absent reads as null. *)
Definition struct_fields (names : list (list Z)) (j : json) : option (list json) :=
  match j with
  | JObj fields =>
      mapM (λ n, match filter (λ kv, kv.1 = n) fields with
                 | [] => Some JNull
                 | [(_, v)] => Some v
                 | _ => None
                 end) names
  | JArr l => if length l =? length names then Some l else None
  | _ => None
  end.

(** An optional field: null gives [None], any other value than the expected
    fails the whole. *)
Definition opt_val {A} (get : json → option A) (v : json) : option (option A) :=
  match v with JNull => Some None | v => Some <$> get v end.

(** An array all of whose elements are strings. *)
Definition as_strs (v : json) : option (list (list Z)) := match v with JArr l => mapM as_str l | _ => None end.

Class JsonText := {
  json_parse : str → option json;
  (** an object *)
  json_print : list (list Z * json) → str;
  (** whether every string of the text is free of escapes, so that it can be
      borrowed from it *)
  json_borrows : str → bool;
  json_strings : list (list Z) → str;
  json_tags : list (list (list Z)) → str;
  parse_strings : str → option (list (list Z));
  parse_tags : str → option (list (list (list Z)));
  f64_print : f64 → str;
  f64_parse : str → option f64
}.

(** Text that needs no escape. *)
Definition plain (s : str) : Prop := Forall (λ b, (0x20 ≤ b < 0x7F)%Z ∧ b ≠ 0x22%Z ∧ b ≠ 0x5C%Z) s.
Definition plain_val (v : json) : Prop :=
  match v with
  | JStr s => plain s
  | JArr l => Forall (λ v, ∃ s, v = JStr s ∧ plain s) l
  | JObj _ => False
  | _ => True
  end.

Class JsonLaws `{JsonText} : Prop := {
  (** an object with distinct keys *)
  json_roundtrip fields : NoDup fields.*1 → json_parse (json_print fields) = Some (JObj fields);
  json_brace fields : ∃ rest, json_print fields = 0x7B%Z :: rest;
  json_plain fields : Forall (λ kv, plain kv.1 ∧ plain_val kv.2) fields → json_borrows (json_print fields) = true;
  strings_roundtrip l : parse_strings (json_strings l) = Some l;
  tags_roundtrip l : parse_tags (json_tags l) = Some l;
  (** Rust prints the shortest decimal that parses to the same number *)
  f64_roundtrip x : f64_is_finite x = true → valid_binary 53 1024 x = true → f64_parse (f64_print x) = Some x;
  (** without an exponent: at most 309 digits before the point, or 343 with those after it *)
  f64_short x : (zlen (f64_print x) <= 400)%Z
}.

(** ** Fields of an object *)

Lemma get_field_app key l1 l2 : get_field key (JObj (l1 ++ l2)) =
  match get_field key (JObj l2) with Some v => Some v | None => get_field key (JObj l1) end.
Proof.
  cbn [get_field]. rewrite reverse_app. generalize (reverse l1) (reverse l2). clear l1 l2. intros l1 l2.
  induction l2 as [|[k v] l2 IH]; [done|].
  cbn [app list_find fst]. case_decide; [done|]. revert IH.
  by destruct (list_find _ (l2 ++ l1)) as [[? ?]|], (list_find _ l2) as [[? ?]|].
Qed.

Lemma get_field_none key l : key ∉ l.*1 → get_field key (JObj l) = None.
Proof.
  intros Hk. cbn [get_field]. destruct (list_find _ _) as [[i kv]|] eqn:E; [|done]. exfalso. apply Hk.
  apply list_find_Some in E as (Hi & <- & _). apply list_elem_of_lookup_2 in Hi. rewrite elem_of_reverse in Hi.
  apply list_elem_of_fmap. by exists kv.
Qed.

Lemma get_field_drop key other l : key ≠ other → get_field key (JObj (filter (λ kv, kv.1 ≠ other) l)) = get_field key (JObj l).
Proof.
  intros Hne. induction l as [|[k v] l IH]; [done|]. rewrite filter_cons. cbn [fst].
  change ((k, v) :: l) with ([(k, v)] ++ l). rewrite (get_field_app key [(k, v)] l). case_decide as Hk.
  - change ((k, v) :: filter (λ kv, kv.1 ≠ other) l) with ([(k, v)] ++ filter (λ kv : list Z * json, kv.1 ≠ other) l).
    by rewrite get_field_app, IH.
  - rewrite IH. subst k. rewrite (get_field_none key [(other, v)]) by (cbn; set_solver).
    by destruct (get_field key (JObj l)).
Qed.

Lemma get_set_field key key' v l : get_field key (JObj (set_field key' v l)) = if decide (key = key') then Some v else get_field key (JObj l).
Proof.
  unfold set_field. rewrite get_field_app. destruct (decide (key = key')) as [->|Hne].
  - cbn [get_field reverse rev_append list_find]. cbn. by rewrite decide_True by done.
  - rewrite (get_field_none key [(key', v)]) by (cbn; set_solver). by apply get_field_drop.
Qed.

(** ** Integers as floats *)

Lemma digits_shift p d : digits2_pos (Pos.iter xO p d) = (digits2_pos p + d)%positive.
Proof. induction d as [|d IH] using Pos.peano_ind; [simpl; lia|]. rewrite Pos.iter_succ. simpl. rewrite IH. lia. Qed.
Lemma value_shift p d : Z.pos (Pos.iter xO p d) = (Z.pos p * 2 ^ Z.pos d)%Z.
Proof.
  induction d as [|d IH] using Pos.peano_ind; [simpl; lia|].
  rewrite Pos.iter_succ, Pos2Z.inj_xO, IH, Pos2Z.inj_succ, Z.pow_succ_r by lia. lia.
Qed.
Lemma digits_log2 p : Z.pos (digits2_pos p) = (Z.log2 (Z.pos p) + 1)%Z.
Proof. assert (digits2_pos p = Pos.size p) as -> by (induction p; simpl; congruence). destruct p; simpl; lia. Qed.

(** The 53 bits of the mantissa. *)
Definition mantissa (p : positive) : positive :=
  match (53 - Z.pos (digits2_pos p))%Z with Zpos d => Pos.iter xO p d | _ => p end.

Lemma mantissa_spec p : (Z.pos p < 2 ^ 53)%Z →
  digits2_pos (mantissa p) = 53%positive ∧ Z.pos (mantissa p) = (Z.pos p * 2 ^ (53 - Z.pos (digits2_pos p)))%Z ∧ (Z.pos (digits2_pos p) ≤ 53)%Z.
Proof.
  intros Hp. assert (Z.log2 (Z.pos p) < 53)%Z by (apply Z.log2_lt_pow2; lia).
  pose proof (digits_log2 p) as Hd. pose proof (Z.log2_nonneg (Z.pos p)). unfold mantissa.
  destruct (53 - Z.pos (digits2_pos p))%Z as [|d|d] eqn:E; [| |lia].
  - split_and!; [lia|simpl; lia|lia].
  - rewrite digits_shift, value_shift. split_and!; [lia|lia|lia].
Qed.

(** Integers below 2^53 are represented exactly. *)
Lemma f64_of_small p : (Z.pos p < 2 ^ 53)%Z → f64_of_Z (Z.pos p) = S754_finite false (mantissa p) (Z.pos (digits2_pos p) - 53).
Proof.
  intros Hp. destruct (mantissa_spec p Hp) as (Hm & _ & Hd). unfold f64_of_Z, binary_normalize, binary_round.
  assert (Hf : ∀ e, (-52 ≤ e ≤ 0)%Z → fexp 53 1024 (53 + e) = e) by (intros e He; unfold fexp, emin; lia).
  assert (Hs : shl_align p 0 (fexp 53 1024 (Z.pos (digits2_pos p) + 0)) = (mantissa p, (Z.pos (digits2_pos p) - 53)%Z)).
  { replace (Z.pos (digits2_pos p) + 0)%Z with (53 + (Z.pos (digits2_pos p) - 53))%Z by lia. rewrite Hf by lia.
    unfold shl_align, mantissa. destruct (Z.pos (digits2_pos p) - 53 - 0)%Z as [|q|q] eqn:E; [|lia|].
    - replace (53 - Z.pos (digits2_pos p))%Z with 0%Z by lia. f_equal. lia.
    - by replace (53 - Z.pos (digits2_pos p))%Z with (Z.pos q) by lia. }
  rewrite Hs. unfold binary_round_aux, shr_fexp. cbn [Zdigits2]. rewrite Hm, Hf, Z.sub_diag by lia. cbn [shr shr_record_of_loc shr_m loc_of_shr_record round_nearest_even Zdigits2].
  rewrite Hm, Hf, Z.sub_diag by lia. cbn [shr shr_m]. rewrite (proj2 (Z.leb_le _ _)) by lia. done.
Qed.

(** [z as f64 as u64] for such integers, and their order. *)
Lemma f64_to_u64_of_Z z : (0 ≤ z < 2 ^ 53)%Z → f64_to_u64 (f64_of_Z z) = z.
Proof.
  intros Hz. destruct z as [|p|p]; [done| |lia]. rewrite f64_of_small by lia. destruct (mantissa_spec p) as (_ & Hv & Hd); [lia|].
  cbn [f64_to_u64]. destruct (Z.leb_spec 0 (Z.pos (digits2_pos p) - 53)) as [Hl|Hl].
  - rewrite Hv. replace (53 - Z.pos (digits2_pos p))%Z with 0%Z by lia. replace (Z.pos (digits2_pos p) - 53)%Z with 0%Z by lia.
    unfold u64_max. lia.
  - rewrite Hv. replace (- (Z.pos (digits2_pos p) - 53))%Z with (53 - Z.pos (digits2_pos p))%Z by lia.
    rewrite Z.div_mul by (apply Z.pow_nonzero; lia). unfold u64_max. lia.
Qed.

Lemma f64_of_Z_le a b : (0 ≤ a ≤ b)%Z → (b < 2 ^ 53)%Z → SFleb (f64_of_Z a) (f64_of_Z b) = true.
Proof.
  intros Ha Hb. destruct a as [|p|p]; [|destruct b as [|q|q]; [lia| |lia]|lia].
  - destruct b as [|q|q]; [done| |lia]. by rewrite f64_of_small by lia.
  - rewrite !f64_of_small by lia. unfold SFleb, SFcompare. pose proof (digits_log2 p). pose proof (digits_log2 q).
    assert (Z.log2 (Z.pos p) ≤ Z.log2 (Z.pos q))%Z by (apply Z.log2_le_mono; lia).
    destruct (Z.compare_spec (Z.pos (digits2_pos p) - 53) (Z.pos (digits2_pos q) - 53)) as [He|He|He]; [|done|lia].
    destruct (mantissa_spec p) as (_ & Hp & _), (mantissa_spec q) as (_ & Hq & _); try lia.
    assert (mantissa p ≤ mantissa q)%positive as Hm.
    { cut (Z.pos (mantissa p) ≤ Z.pos (mantissa q))%Z; [lia|]. rewrite Hp, Hq. replace (Z.pos (digits2_pos p)) with (Z.pos (digits2_pos q)) by lia.
      apply Z.mul_le_mono_nonneg_r; [apply Z.pow_nonneg|]; lia. }
    change (Pos.compare_cont Eq (mantissa p) (mantissa q)) with (Pos.compare (mantissa p) (mantissa q)).
    by destruct (Pos.compare_spec (mantissa p) (mantissa q)); [|done|lia].
Qed.

Lemma f64_of_Z_valid z : (0 ≤ z < 2 ^ 53)%Z → f64_is_finite (f64_of_Z z) = true ∧ valid_binary 53 1024 (f64_of_Z z) = true.
Proof.
  intros Hz. destruct z as [|p|p]; [done| |lia]. rewrite f64_of_small by lia. split; [done|].
  destruct (mantissa_spec p) as (Hm & _ & Hd); [lia|]. unfold valid_binary, bounded, canonical_mantissa. rewrite Hm.
  unfold fexp, emin. apply andb_true_iff. split; [apply Z.eqb_eq|apply Z.leb_le]; lia.
Qed.

(** ** A codec for the examples: the value as one number *)

Module ToyJsonText.
#[local] Instance float_eq_dec : EqDecision spec_float.
Proof. solve_decision. Defined.
#[local] Instance float_countable : Countable spec_float.
Proof.
  apply (inj_countable'
    (λ x, match x with S754_zero s => inl (inl s) | S754_infinity s => inl (inr s) | S754_nan => inr (inl ()) | S754_finite s m e => inr (inr (s, m, e)) end)
    (λ y, match y with inl (inl s) => S754_zero s | inl (inr s) => S754_infinity s | inr (inl _) => S754_nan | inr (inr (s, m, e)) => S754_finite s m e end)).
  by intros [].
Defined.
#[local] Instance number_eq_dec : EqDecision number.
Proof. solve_decision. Defined.
#[local] Instance number_countable : Countable number.
Proof.
  apply (inj_countable' (λ x, match x with NInt z => inl z | NFloat x => inr x end) (λ y, match y with inl z => NInt z | inr x => NFloat x end)).
  by intros [].
Defined.
Definition print {A} `{Countable A} (a : A) : str := [Z.pos (encode a)].
Definition parse (A : Type) `{Countable A} (s : str) : option A := match s with [Z.pos p] => decode p | _ => None end.

(** Strings, arrays and objects with their lengths, a number as one number. *)
Definition print_str (s : list Z) : list Z := Z.of_nat (length s) :: s.
Fixpoint print_val (v : json) : list Z :=
  match v with
  | JNull => [0%Z]
  | JBool b => [1%Z; Z.b2z b]
  | JNum n => [2%Z; Z.pos (encode n)]
  | JStr s => 3%Z :: print_str s
  | JArr l => 4%Z :: Z.of_nat (length l) :: concat (map print_val l)
  | JObj fields => 0x7B%Z :: Z.of_nat (length fields) :: concat (map (λ kv, print_str kv.1 ++ print_val kv.2) fields)
  end.

Definition parse_str (s : list Z) : option (list Z * list Z) :=
  match s with n :: r => Some (take (Z.to_nat n) r, drop (Z.to_nat n) r) | [] => None end.
(** [n] items one after the other. *)
Fixpoint parse_items {A} (item : list Z → option (A * list Z)) (n : nat) (s : list Z) : option (list A * list Z) :=
  match n with
  | O => Some ([], s)
  | S n => '(a, s) ← item s; '(l, s) ← parse_items item n s; Some (a :: l, s)
  end.
Fixpoint parse_val (fuel : nat) (s : list Z) : option (json * list Z) :=
  match fuel, s with
  | S fuel, 0%Z :: r => Some (JNull, r)
  | S fuel, 1%Z :: b :: r => Some (JBool (b =? 1)%Z, r)
  | S fuel, 2%Z :: Z.pos p :: r => n ← decode p; Some (JNum n, r)
  | S fuel, 3%Z :: r => '(v, r) ← parse_str r; Some (JStr v, r)
  | S fuel, 4%Z :: n :: r => '(l, r) ← parse_items (parse_val fuel) (Z.to_nat n) r; Some (JArr l, r)
  | S fuel, 0x7B%Z :: n :: r =>
      '(l, r) ← parse_items (λ s, '(k, s) ← parse_str s; '(v, s) ← parse_val fuel s; Some ((k, v), s)) (Z.to_nat n) r;
      Some (JObj l, r)
  | _, _ => None
  end.

Lemma parse_print_str s r : parse_str (print_str s ++ r) = Some (s, r).
Proof. unfold parse_str, print_str. cbn. by rewrite Nat2Z.id, take_app_length, drop_app_length. Qed.

Lemma parse_print_items {A} (item : list Z → option (A * list Z)) (show : A → list Z) l r :
  (∀ a r, a ∈ l → item (show a ++ r) = Some (a, r)) →
  parse_items item (length l) (concat (map show l) ++ r) = Some (l, r).
Proof.
  induction l as [|a l IH]; intros Hl; [done|]. cbn [length parse_items map concat]. rewrite <-app_assoc, Hl by (by left).
  cbn [mbind option_bind]. by rewrite IH by (intros; apply Hl; by right).
Qed.

Lemma length_concat_elem {A} (show : A → list Z) l a : a ∈ l → length (show a) ≤ length (concat (map show l)).
Proof.
  induction 1 as [a l|a b l Ha IH]; cbn [map concat]; rewrite length_app; lia.
Qed.

Lemma parse_print_val fuel v r : length (print_val v) ≤ fuel → parse_val fuel (print_val v ++ r) = Some (v, r).
Proof.
  revert v r. induction fuel as [|fuel IH]; intros v r Hf; [destruct v; cbn [print_val length] in Hf; lia|].
  destruct v as [|b|n|s|l|fields]; cbn [print_val app parse_val].
  - done.
  - by destruct b.
  - by rewrite decode_encode.
  - by rewrite parse_print_str.
  - rewrite Nat2Z.id, parse_print_items; [done|]. intros a r' Ha. apply IH.
    pose proof (length_concat_elem print_val l a Ha). cbn [print_val length] in Hf. lia.
  - rewrite Nat2Z.id, (parse_print_items _ (λ kv, print_str kv.1 ++ print_val kv.2)); [done|]. intros [k a] r' Ha.
    cbn [fst snd]. rewrite <-app_assoc, parse_print_str. cbn [mbind option_bind]. rewrite IH; [done|].
    pose proof (length_concat_elem (λ kv, print_str kv.1 ++ print_val kv.2) fields (k, a) Ha) as Hl.
    cbn [print_val length fst snd] in Hf, Hl. rewrite length_app in Hl. lia.
Qed.

#[export] Instance toy_json : JsonText := {|
  json_parse s := fst <$> parse_val (length s) s;
  json_print fields := print_val (JObj fields);
  json_borrows s := true;
  json_strings := print;
  json_tags := print;
  parse_strings := parse (list (list Z));
  parse_tags := parse (list (list (list Z)));
  f64_print := print;
  f64_parse := parse spec_float
|}.

Lemma parse_print `{Countable A} (a : A) : parse A (print a) = Some a.
Proof. apply decode_encode. Qed.

#[export] Instance toy_json_laws : JsonLaws.
Proof.
  split; cbn -[print_val parse_val].
  - intros fields _. pose proof (parse_print_val (length (print_val (JObj fields))) (JObj fields) []) as Hp.
    rewrite app_nil_r in Hp. by rewrite Hp.
  - intros fields. by eexists.
  - done.
  - intros l. apply parse_print.
  - intros l. apply parse_print.
  - intros x _ _. apply parse_print.
  - intros x. lia.
Qed.
End ToyJsonText.
