(* ===== verification/Floats.v ===== *)
(** Binary64 arithmetic of the source: the operations, comparisons and
    conversions of Rust's f64 and f32 over the standard library's SpecFloat,
    the facts about rounding that the bounds of the scores rest on (a quotient
    is a binary64 number, and a product below an integer stays below it when
    rounded), and sorting by a comparison. No code of the repository is
    modelled here. *)

From Stdlib Require Import SpecFloat.
From S2P Require Import Prelude Json.

Abbreviation f32 := spec_float (only parsing).

(** ** Operations *)

Definition f64_zero : f64 := S754_zero false.
Definition f64_add (x y : f64) : f64 := SFadd 53 1024 x y.
Definition f64_sub (x y : f64) : f64 := SFsub 53 1024 x y.
Definition f64_mul (x y : f64) : f64 := SFmul 53 1024 x y.
Definition f64_div (x y : f64) : f64 := SFdiv 53 1024 x y.
Definition f64_sqrt (x : f64) : f64 := SFsqrt 53 1024 x.
Definition f64_is_nan (x : f64) : bool := match x with S754_nan => true | _ => false end.
Definition f64_is_infinite (x : f64) : bool := match x with S754_infinity _ => true | _ => false end.

(** A decimal literal: the quotient of two integers, rounded once. *)
Definition f64_dec (n d : Z) : f64 := f64_div (f64_of_Z n) (f64_of_Z d).

(** [(lo..=hi).contains(&x)]. *)
Definition f64_within (lo hi x : f64) : bool := SFleb lo x && SFleb x hi.
(** [x.clamp(lo, hi)]: a NaN stays. *)
Definition f64_clamp (lo hi x : f64) : f64 := if SFltb x lo then lo else if SFltb hi x then hi else x.
(** [x.max(y)] and [x.min(y)]: a NaN gives the other. *)
Definition f64_max (x y : f64) : f64 := if f64_is_nan x then y else if SFltb x y then y else x.
Definition f64_min (x y : f64) : f64 := if f64_is_nan x then y else if SFltb y x then y else x.
(** [x.powi(2)]. *)
Definition f64_sq (x : f64) : f64 := f64_mul x x.

(** [x.round() as u32]: halves away from zero, then saturating; a NaN is zero. *)
Definition f64_round_u32 (x : f64) : Z :=
  match x with
  | S754_finite false m e =>
      Z.min u32_max (if (0 <=? e)%Z then Z.pos m * 2 ^ e else (Z.pos m + 2 ^ (- e - 1)) / 2 ^ (- e))
  | S754_infinity false => u32_max
  | _ => 0
  end.

(** [x as i32]: truncated and saturating. *)
Definition f64_to_i32 (x : f64) : Z :=
  let mag m e := if (0 <=? e)%Z then (Z.pos m * 2 ^ e)%Z else (Z.pos m / 2 ^ (- e))%Z in
  match x with
  | S754_finite false m e => Z.min (2 ^ 31 - 1) (mag m e)
  | S754_finite true m e => Z.max (- 2 ^ 31) (- mag m e)
  | S754_infinity false => 2 ^ 31 - 1
  | S754_infinity true => - 2 ^ 31
  | _ => 0
  end.

(** [x as f32] and back, which is exact. *)
Definition f64_to_f32 (x : f64) : f32 :=
  match x with S754_finite s m e => binary_round 24 128 s m e | x => x end.
Definition f32_to_f64 (x : f32) : f64 :=
  match x with S754_finite s m e => binary_round 53 1024 s m e | x => x end.

(** ** Rounding *)

Section rounding.
#[local] Open Scope Z_scope.

Lemma digits_bounds m : 0 < m → 2 ^ (Zdigits2 m - 1) ≤ m < 2 ^ Zdigits2 m ∧ 0 < Zdigits2 m.
Proof.
  intros Hm. destruct m as [|p|p]; [done| |done]. cbn [Zdigits2]. rewrite digits_log2.
  destruct (Z.log2_spec (Z.pos p)) as [Hl Hh]; [done|]. pose proof (Z.log2_nonneg (Z.pos p)).
  replace (Z.log2 (Z.pos p) + 1 - 1) with (Z.log2 (Z.pos p)) by lia. split; [by split|lia].
Qed.

Lemma pow2_inj_le a b m : 2 ^ (a - 1) ≤ m → m < 2 ^ b → 0 < a → a ≤ b.
Proof.
  intros Ha Hb Hp. destruct (decide (a ≤ b)) as [|Hn]; [done|]. exfalso.
  assert (2 ^ b ≤ 2 ^ (a - 1)); [apply Z.pow_le_mono_r; lia|lia].
Qed.

Lemma digits_unique m d : 2 ^ (d - 1) ≤ m < 2 ^ d → 0 < d → Zdigits2 m = d.
Proof.
  intros [Hl Hh] Hd. assert (Hm : 0 < m) by (pose proof (Z.pow_pos_nonneg 2 (d - 1)); lia).
  destruct (digits_bounds m Hm) as [[Hl' Hh'] Hp].
  pose proof (pow2_inj_le _ _ _ Hl Hh' Hd). pose proof (pow2_inj_le _ _ _ Hl' Hh Hp). lia.
Qed.

Lemma digits_nonneg m : 0 ≤ m → 0 ≤ Zdigits2 m.
Proof. intros Hm. destruct (decide (m = 0)) as [->|]; [done|]. destruct (digits_bounds m); lia. Qed.

(** The digits that are left after a shift. *)
Lemma digits_shr m k : 0 ≤ k → 0 < m → Zdigits2 (m / 2 ^ k) = Z.max 0 (Zdigits2 m - k).
Proof.
  intros Hk Hm. destruct (digits_bounds m Hm) as [[Hl Hh] Hp]. assert (0 < 2 ^ k) by (by apply Z.pow_pos_nonneg).
  destruct (decide (Zdigits2 m ≤ k)) as [Hd|Hd].
  - rewrite Z.div_small; [cbn; lia|]. split; [lia|]. assert (2 ^ Zdigits2 m ≤ 2 ^ k); [apply Z.pow_le_mono_r; lia|lia].
  - apply digits_unique; [|lia]. replace (Z.max 0 (Zdigits2 m - k)) with (Zdigits2 m - k) by lia. split.
    + apply Z.div_le_lower_bound; [done|]. rewrite <-Z.pow_add_r by lia. by replace (k + (Zdigits2 m - k - 1)) with (Zdigits2 m - 1) by lia.
    + apply Z.div_lt_upper_bound; [done|]. rewrite <-Z.pow_add_r by lia. by replace (k + (Zdigits2 m - k)) with (Zdigits2 m) by lia.
Qed.

Definition inexact (r : shr_record) : bool := shr_r r || shr_s r.

Lemma shr_1_spec r : 0 ≤ shr_m r →
  shr_m (shr_1 r) = shr_m r / 2 ∧ (inexact (shr_1 r) = true → inexact r = true ∨ shr_m (shr_1 r) * 2 < shr_m r).
Proof.
  destruct r as [m a b]. unfold inexact. cbn [shr_m shr_r shr_s]. intros Hm.
  destruct m as [|[p|p|]|p]; [..|lia]; cbn [shr_1 shr_m shr_r shr_s]; (split; [by rewrite <-?Z.div2_div|]); try lia; intros Hi; left; destruct a, b; done.
Qed.

Lemma iter_shr_spec p r : 0 ≤ shr_m r →
  shr_m (SpecFloat.iter_pos shr_1 p r) = shr_m r / 2 ^ Z.pos p ∧
  (inexact (SpecFloat.iter_pos shr_1 p r) = true → inexact r = true ∨ shr_m (SpecFloat.iter_pos shr_1 p r) * 2 ^ Z.pos p < shr_m r).
Proof.
  assert (Htwo : ∀ (f g : shr_record → shr_record) a b, 0 ≤ a → 0 ≤ b →
    (∀ r, 0 ≤ shr_m r → shr_m (f r) = shr_m r / 2 ^ a ∧ (inexact (f r) = true → inexact r = true ∨ shr_m (f r) * 2 ^ a < shr_m r)) →
    (∀ r, 0 ≤ shr_m r → shr_m (g r) = shr_m r / 2 ^ b ∧ (inexact (g r) = true → inexact r = true ∨ shr_m (g r) * 2 ^ b < shr_m r)) →
    ∀ r, 0 ≤ shr_m r → shr_m (g (f r)) = shr_m r / 2 ^ (a + b) ∧
      (inexact (g (f r)) = true → inexact r = true ∨ shr_m (g (f r)) * 2 ^ (a + b) < shr_m r)).
  { clear. intros f g a b Ha Hb Hf Hg r Hr. pose proof (Z.pow_pos_nonneg 2 a). pose proof (Z.pow_pos_nonneg 2 b).
    destruct (Hf r Hr) as [Ef If]. assert (Hr2 : 0 ≤ shr_m (f r)) by (rewrite Ef; apply Z.div_pos; lia).
    destruct (Hg _ Hr2) as [Eg Ig]. assert (shr_m (f r) * 2 ^ a ≤ shr_m r) as Hle.
    { rewrite Ef, Z.mul_comm. apply Z.mul_div_le. lia. }
    split; [rewrite Eg, Ef, Z.pow_add_r, Z.div_div by lia; done|]. intros Hi. rewrite Z.pow_add_r by lia.
    destruct (Ig Hi) as [Hi2|Hlt]; [destruct (If Hi2) as [|Hlt]; [by left|]|]; right; [|nia].
    assert (shr_m (g (f r)) * 2 ^ b ≤ shr_m (f r)); [rewrite Eg, Z.mul_comm; apply Z.mul_div_le; lia|nia]. }
  revert r. induction p as [p IH|p IH|]; intros r Hr; cbn [SpecFloat.iter_pos].
  - replace (Z.pos p~1) with (1 + (Z.pos p + Z.pos p)) by lia.
    apply (Htwo shr_1 (λ r, SpecFloat.iter_pos shr_1 p (SpecFloat.iter_pos shr_1 p r)) 1 (Z.pos p + Z.pos p)); [lia|lia| | |done].
    + exact shr_1_spec.
    + by apply (Htwo (SpecFloat.iter_pos shr_1 p) (SpecFloat.iter_pos shr_1 p)).
  - replace (Z.pos p~0) with (Z.pos p + Z.pos p) by lia. by apply (Htwo (SpecFloat.iter_pos shr_1 p) (SpecFloat.iter_pos shr_1 p)).
  - by apply shr_1_spec.
Qed.

Lemma shr_record_spec m l : shr_m (shr_record_of_loc m l) = m ∧ (inexact (shr_record_of_loc m l) = true → l ≠ loc_Exact).
Proof. by destruct l as [|[]]. Qed.
Lemma loc_inexact r : loc_of_shr_record r ≠ loc_Exact → inexact r = true.
Proof. by destruct r as [m [] []]. Qed.

(** The exponent a mantissa is shifted to, and what is left of it. *)
Lemma shr_fexp_spec m e l : 0 ≤ m →
  ∃ r k, shr_fexp 53 1024 m e l = (r, e + k) ∧ k = Z.max 0 (fexp 53 1024 (Zdigits2 m + e) - e) ∧ shr_m r = m / 2 ^ k ∧
    (loc_of_shr_record r ≠ loc_Exact → l ≠ loc_Exact ∨ shr_m r * 2 ^ k < m).
Proof.
  intros Hm. unfold shr_fexp. destruct (shr_record_spec m l) as [Em Hl]. set (n := fexp 53 1024 _ - e).
  destruct n as [|p|p] eqn:En; cbn [shr].
  - exists (shr_record_of_loc m l), 0. rewrite Em. split_and!; [f_equal; lia|lia|by rewrite Z.div_1_r|]. intros Hi%loc_inexact. left. by apply Hl.
  - exists (SpecFloat.iter_pos shr_1 p (shr_record_of_loc m l)), (Z.pos p). destruct (iter_shr_spec p (shr_record_of_loc m l)) as [E1 E2]; [by rewrite Em|].
    rewrite Em in E1, E2. split_and!; [done|lia|done|]. intros Hi%loc_inexact. destruct (E2 Hi) as [Hi2|]; [left; by apply Hl|by right].
  - exists (shr_record_of_loc m l), 0. rewrite Em. split_and!; [f_equal; lia|lia|by rewrite Z.div_1_r|]. intros Hi%loc_inexact. left. by apply Hl.
Qed.

Lemma round_nearest_spec m l :
  round_nearest_even m l = m ∨ round_nearest_even m l = m + 1 ∧ l ≠ loc_Exact.
Proof. destruct l as [|[]]; cbn; [by left| |by left|by right]. destruct (Z.even m); [by left|by right]. Qed.

Lemma fexp_eq d : fexp 53 1024 d = Z.max (d - 53) (-1074).
Proof. unfold fexp, emin. lia. Qed.

Lemma finite_valid s q e : 0 ≤ q → (0 < q → Z.max (Zdigits2 q + e - 53) (-1074) = e) →
  valid_binary 53 1024 match q with
    | 0 => S754_zero s
    | Z.pos m => if e <=? 1024 - 53 then S754_finite s m e else S754_infinity s
    | Z.neg _ => S754_nan
    end = true.
Proof.
  intros Hq He. destruct q as [|p|p]; [reflexivity| |lia]. destruct (Z.leb_spec e (1024 - 53)); [|reflexivity].
  cbn [valid_binary]. unfold bounded, canonical_mantissa. rewrite fexp_eq. change (Z.pos (digits2_pos p)) with (Zdigits2 (Z.pos p)).
  apply andb_true_iff. split; [apply Z.eqb_eq, He; lia|apply Z.leb_le; lia].
Qed.

(** The digits of a mantissa once shifted and rounded up. *)
Lemma digits_round_up m k : 0 ≤ m → 0 ≤ k →
  Zdigits2 (m / 2 ^ k + 1) = Z.max 1 (Zdigits2 m - k) ∨
  0 < Zdigits2 m - k ∧ m / 2 ^ k + 1 = 2 ^ (Zdigits2 m - k) ∧ Zdigits2 (m / 2 ^ k + 1) = Zdigits2 m - k + 1.
Proof.
  intros Hm Hk. pose proof (Z.pow_pos_nonneg 2 k). assert (Hm1 : 0 ≤ m / 2 ^ k) by (apply Z.div_pos; lia).
  destruct (decide (m = 0)) as [->|Hn]; [left; rewrite Z.div_0_l by lia; change (Zdigits2 (0 + 1)) with 1; change (Zdigits2 0) with 0; lia|].
  assert (Hd := digits_shr m k Hk ltac:(lia)). destruct (decide (m / 2 ^ k = 0)) as [E0|Hn1].
  - left. rewrite E0 in *. change (Zdigits2 (0 + 1)) with 1. change (Zdigits2 0) with 0 in Hd. lia.
  - destruct (digits_bounds (m / 2 ^ k)) as [[Hl Hh] Hp]; [lia|]. replace (Zdigits2 (m / 2 ^ k)) with (Zdigits2 m - k) in * by lia.
    destruct (decide (m / 2 ^ k + 1 = 2 ^ (Zdigits2 m - k))) as [E|Hne]; [right|left].
    + split_and!; [lia|done|]. apply digits_unique; [|lia]. rewrite E. replace (Zdigits2 m - k + 1 - 1) with (Zdigits2 m - k) by lia.
      split; [lia|]. apply Z.pow_lt_mono_r; lia.
    + replace (Z.max 1 (Zdigits2 m - k)) with (Zdigits2 m - k) by lia. apply digits_unique; lia.
Qed.

(** A rounded result is a binary64 number when the mantissa to be rounded has
    at least the digits of the format. *)
Lemma round_aux_valid s m e l :
  0 ≤ m → e ≤ fexp 53 1024 (Zdigits2 m + e) → valid_binary 53 1024 (binary_round_aux 53 1024 s m e l) = true.
Proof.
  intros Hm He. unfold binary_round_aux. destruct (shr_fexp_spec m e l Hm) as (r & k & -> & Hk & Er & _).
  assert (Hk0 : 0 ≤ k) by lia. pose proof (Z.pow_pos_nonneg 2 k). assert (Hm1 : 0 ≤ shr_m r) by (rewrite Er; apply Z.div_pos; lia).
  pose proof (digits_nonneg m Hm). rewrite fexp_eq in *.
  destruct (round_nearest_spec (shr_m r) (loc_of_shr_record r)) as [->|[-> _]].
  - destruct (shr_fexp_spec (shr_m r) (e + k) loc_Exact Hm1) as (r2 & k2 & -> & Hk2 & -> & _).
    rewrite fexp_eq in *. apply finite_valid; [apply Z.div_pos; [done|apply Z.pow_pos_nonneg; lia]|]. intros Hpos.
    assert (0 < shr_m r) by (destruct (decide (shr_m r = 0)) as [E|]; [rewrite E, Z.div_0_l in Hpos; [lia|pose proof (Z.pow_pos_nonneg 2 k2); lia]|lia]).
    assert (0 < m) by (destruct (decide (m = 0)) as [->|]; [rewrite Z.div_0_l in Er; lia|lia]).
    assert (Hd := digits_shr m k Hk0 ltac:(lia)). rewrite <-Er in Hd. destruct (digits_bounds (shr_m r)); [lia|].
    assert (k2 = 0) as -> by lia. rewrite Z.div_1_r. lia.
  - destruct (shr_fexp_spec (shr_m r + 1) (e + k) loc_Exact) as (r2 & k2 & -> & Hk2 & -> & _); [lia|].
    rewrite fexp_eq in *. apply finite_valid; [apply Z.div_pos; [lia|apply Z.pow_pos_nonneg; lia]|]. intros _.
    rewrite Er in *. destruct (digits_round_up m k Hm Hk0) as [Hd|(Hp & Epow & Hd)]; [|rewrite digits_shr by lia; lia].
    assert (k2 = 0) as -> by lia. rewrite Z.div_1_r. lia.
Qed.

(** A product or quotient below an integer stays below it when rounded. *)
Lemma round_aux_le m e l K :
  0 ≤ m → e ≤ 0 → 0 < K < 2 ^ 53 → m ≤ K * 2 ^ (- e) → (l ≠ loc_Exact → m < K * 2 ^ (- e)) →
  match binary_round_aux 53 1024 false m e l with
  | S754_zero _ => True
  | S754_finite s m' e' => s = false ∧ e' ≤ 0 ∧ Z.pos m' ≤ K * 2 ^ (- e')
  | _ => False
  end.
Proof.
  assert (Hdig : ∀ m e, 0 ≤ m → e ≤ 0 → m ≤ K * 2 ^ (- e) → K < 2 ^ 53 → Zdigits2 m + e ≤ 53).
  { intros m' e' Hm' He' Hle HK. destruct (decide (m' = 0)) as [->|]; [change (Zdigits2 0) with 0; lia|].
    destruct (digits_bounds m') as [[Hl _] Hp]; [lia|]. assert (Zdigits2 m' ≤ 53 + - e'); [|lia].
    apply (pow2_inj_le _ _ m'); [done| |done]. rewrite Z.pow_add_r by lia. pose proof (Z.pow_pos_nonneg 2 (- e')). nia. }
  assert (Hshift : ∀ m e k, 0 ≤ k → e + k ≤ 0 → m * 2 ^ k ≤ K * 2 ^ (- e) → m ≤ K * 2 ^ (- (e + k))).
  { intros m' e' k Hk He' Hle. pose proof (Z.pow_pos_nonneg 2 k). replace (- e') with (- (e' + k) + k) in Hle by lia.
    rewrite Z.pow_add_r in Hle by lia. nia. }
  intros Hm He HK Hle Hlt. unfold binary_round_aux. destruct (shr_fexp_spec m e l Hm) as (r & k & -> & Hk & Er & Hloc).
  pose proof (Hdig m e Hm He Hle ltac:(lia)). rewrite fexp_eq in Hk. assert (Hk0 : 0 ≤ k) by lia. assert (He1 : e + k ≤ 0) by lia.
  pose proof (Z.pow_pos_nonneg 2 k). assert (Hm1 : 0 ≤ shr_m r) by (rewrite Er; apply Z.div_pos; lia).
  assert (shr_m r * 2 ^ k ≤ m) as Hfl by (rewrite Er, Z.mul_comm; apply Z.mul_div_le; lia).
  assert (∃ q, round_nearest_even (shr_m r) (loc_of_shr_record r) = q ∧ 0 ≤ q ∧ q ≤ K * 2 ^ (- (e + k))) as (q & -> & Hq0 & Hq).
  { eexists. split; [done|]. destruct (round_nearest_spec (shr_m r) (loc_of_shr_record r)) as [->|[-> Hi]].
    - split; [done|]. apply Hshift; lia.
    - split; [lia|]. assert (shr_m r * 2 ^ k < K * 2 ^ (- e)) as Hs by (destruct (Hloc Hi) as [Hl|]; [specialize (Hlt Hl)|]; lia).
      replace (- e) with (- (e + k) + k) in Hs by lia. rewrite Z.pow_add_r in Hs by lia. nia. }
  destruct (shr_fexp_spec q (e + k) loc_Exact Hq0) as (r2 & k2 & -> & Hk2 & Er2 & _).
  pose proof (Hdig q (e + k) Hq0 He1 Hq ltac:(lia)). rewrite fexp_eq in Hk2. assert (Hk20 : 0 ≤ k2) by lia. pose proof (Z.pow_pos_nonneg 2 k2).
  assert (shr_m r2 * 2 ^ k2 ≤ q) as Hfl2 by (rewrite Er2, Z.mul_comm; apply Z.mul_div_le; lia).
  assert (0 ≤ shr_m r2) by (rewrite Er2; apply Z.div_pos; lia).
  destruct (shr_m r2) as [|p|p]; [done| |lia]. destruct (Z.leb_spec (e + k + k2) (1024 - 53)); [|lia].
  split_and!; [done|lia|]. apply Hshift; lia.
Qed.

(** A quotient is a binary64 number. *)
Lemma f64_div_valid x y : valid_binary 53 1024 (f64_div x y) = true.
Proof.
  unfold f64_div. destruct x as [s|s| |s m e], y as [s'|s'| |s' m' e']; try done. unfold SFdiv, SFdiv_core_binary.
  set (ee := Z.min _ _). set (sh := e - e' - ee).
  assert (Hsh : 0 ≤ sh) by (unfold sh, ee; lia).
  assert (E : match sh with Z.pos _ => Z.shiftl (Z.pos m) sh | 0 => Z.pos m | Z.neg _ => 0 end = Z.pos m * 2 ^ sh).
  { destruct sh; [lia|rewrite Z.shiftl_mul_pow2 by lia; done|lia]. }
  rewrite E. pose proof (Z.pow_pos_nonneg 2 sh). destruct (Z.div_eucl (Z.pos m * 2 ^ sh) (Z.pos m')) as [q r] eqn:Ed.
  assert (q = Z.pos m * 2 ^ sh / Z.pos m') as -> by (unfold Z.div; by rewrite Ed).
  apply round_aux_valid; [apply Z.div_pos; lia|]. rewrite fexp_eq.
  assert (Hd : Zdigits2 (Z.pos m) + sh ≤ Zdigits2 (Z.pos m * 2 ^ sh / Z.pos m') + Zdigits2 (Z.pos m')).
  { destruct (digits_bounds (Z.pos m)) as [[Hl1 _] Hp1]; [done|]. destruct (digits_bounds (Z.pos m')) as [[_ Hh2] Hp2]; [done|].
    set (q := _ / _). assert (Hq : 0 ≤ q) by (apply Z.div_pos; lia).
    assert (Hm : Z.pos m * 2 ^ sh < (q + 1) * Z.pos m') by (pose proof (Z.mul_succ_div_gt (Z.pos m * 2 ^ sh) (Z.pos m')); unfold q; lia).
    assert (Hqd : q + 1 ≤ 2 ^ Zdigits2 q).
    { destruct (decide (q = 0)) as [->|]; [done|]. destruct (digits_bounds q); lia. }
    apply (pow2_inj_le _ _ (Z.pos m * 2 ^ sh)); [|rewrite Z.pow_add_r by (pose proof (digits_nonneg q Hq); lia); nia|lia].
    replace (Zdigits2 (Z.pos m) + sh - 1) with (Zdigits2 (Z.pos m) - 1 + sh) by lia. rewrite Z.pow_add_r by lia. nia. }
  assert (Hee : ee ≤ fexp 53 1024 (Zdigits2 (Z.pos m) + e - (Zdigits2 (Z.pos m') + e'))) by (unfold ee; lia).
  rewrite fexp_eq in Hee. lia.
Qed.

(** A binary64 number from 0 to 1, times an integer, rounded. *)
Lemma f64_scaled_round x K :
  valid_binary 53 1024 x = true → f64_within f64_zero (f64_of_Z 1) x = true → 0 < K < 2 ^ 46 → 0 ≤ f64_round_u32 (f64_mul x (f64_of_Z K)) ≤ K.
Proof.
  intros Hv [H0 H1]%andb_true_iff HK. destruct K as [|p|p]; [lia| |lia]. rewrite f64_of_small by lia.
  destruct x as [s|s| |s m e]; [by cbn|by destruct s|done|]. destruct s; [done|].
  assert (Hx : e ≤ 0 ∧ Z.pos m ≤ 2 ^ (- e)).
  { rewrite (f64_of_small 1) in H1 by done. unfold SFleb in H1. cbn [SFcompare] in H1.
    cbn [valid_binary] in Hv. unfold bounded, canonical_mantissa in Hv. rewrite fexp_eq in Hv.
    change (Z.pos (digits2_pos m)) with (Zdigits2 (Z.pos m)) in Hv. apply andb_true_iff in Hv as [Hv _]. apply Z.eqb_eq in Hv.
    destruct (mantissa_spec 1) as (_ & Hone & _); [done|]. set (one := mantissa 1) in *. clearbody one.
    change (Z.pos (digits2_pos 1) - 53) with (-52) in H1. change (53 - Z.pos (digits2_pos 1)) with 52 in Hone.
    change (Pos.compare_cont Eq m one) with (Pos.compare m one) in H1.
    destruct (digits_bounds (Z.pos m)) as [[_ Hh] _]; [done|]. destruct (Z.compare_spec e (-52)) as [->|He|He]; [| |done].
    - split; [lia|]. destruct (Pos.compare_spec m one); [lia|lia|done].
    - split; [lia|]. assert (2 ^ Zdigits2 (Z.pos m) ≤ 2 ^ (- e)); [apply Z.pow_le_mono_r; lia|lia]. }
  destruct Hx as [He Hm]. destruct (mantissa_spec p) as (_ & Hv2 & Hd); [lia|]. cbn [f64_mul SFmul].
  unfold f64_mul, SFmul. cbn [xorb].
  assert (Hpd : Z.pos (digits2_pos p) ≤ 53) by lia. rewrite Pos2Z.inj_mul, Hv2.
  set (d := 53 - Z.pos (digits2_pos p)) in *. replace (e + (Z.pos (digits2_pos p) - 53)) with (e - d) by (unfold d; lia).
  assert (Hd0 : 0 ≤ d) by (unfold d; lia). pose proof (Z.pow_pos_nonneg 2 d). pose proof (Z.pow_pos_nonneg 2 (- e)).
  pose proof (round_aux_le (Z.pos m * (Z.pos p * 2 ^ d)) (e - d) loc_Exact (Z.pos p)) as Hr.
  destruct (binary_round_aux _ _ _ _ _ _) as [s|s| |s m' e']; cbn [f64_round_u32]; [lia| | |].
  - exfalso. apply Hr; [lia|lia|lia| |done]. replace (- (e - d)) with (- e + d) by lia. rewrite Z.pow_add_r by lia. nia.
  - exfalso. apply Hr; [lia|lia|lia| |done]. replace (- (e - d)) with (- e + d) by lia. rewrite Z.pow_add_r by lia. nia.
  - destruct Hr as (-> & He' & Hm'); [lia|lia|lia| |done|].
    { replace (- (e - d)) with (- e + d) by lia. rewrite Z.pow_add_r by lia. nia. }
    destruct (Z.leb_spec 0 e') as [Hz|Hz].
    + replace e' with 0 in * by lia. unfold u32_max. cbn [Z.opp Z.pow Z.pow_pos Pos.iter] in *. lia.
    + pose proof (Z.pow_pos_nonneg 2 (- e' - 1)). assert (E2 : 2 ^ (- e') = 2 * 2 ^ (- e' - 1)) by (rewrite <-Z.pow_succ_r by lia; f_equal; lia).
      assert (0 ≤ (Z.pos m' + 2 ^ (- e' - 1)) / 2 ^ (- e') < Z.pos p + 1); [|unfold u32_max; lia].
      split; [apply Z.div_pos; lia|]. apply Z.div_lt_upper_bound; nia.
Qed.

Lemma f64_clamp_valid lo hi x :
  valid_binary 53 1024 lo = true → valid_binary 53 1024 hi = true → valid_binary 53 1024 x = true →
  valid_binary 53 1024 (f64_clamp lo hi x) = true.
Proof. intros. unfold f64_clamp. destruct (SFltb x lo); [done|]. by destruct (SFltb hi x). Qed.
End rounding.

(** ** Comparisons and sorting *)

(** [a.partial_cmp(&b).unwrap_or(Equal)]. *)
Definition f64_cmp (x y : f64) : comparison := default Eq (SFcompare x y).

(** A comparison function that orders totally. *)
Definition total_order {A} (cmp : A → A → comparison) : Prop :=
  (∀ x y, cmp y x = CompOpp (cmp x y)) ∧ (∀ x y z, cmp x y ≠ Gt → cmp y z ≠ Gt → cmp x z ≠ Gt).

(** [sort_unstable_by]: some rearrangement, and a sorted one when
    the comparison orders totally. *)
Class RustSort := {
  sort_by {A} (cmp : A → A → comparison) : list A → list A;
  sort_by_perm {A} (cmp : A → A → comparison) l : sort_by cmp l ≡ₚ l;
  sort_by_sorted {A} (cmp : A → A → comparison) l : total_order cmp → StronglySorted (λ x y, cmp x y ≠ Gt) (sort_by cmp l)
}.

Lemma elem_of_sort_by `{RustSort} {A} (cmp : A → A → comparison) l x : x ∈ sort_by cmp l ↔ x ∈ l.
Proof. by rewrite sort_by_perm. Qed.

(** [sort_by] proper, which is stable: equal elements keep their order. *)
Fixpoint insert_by {A} (cmp : A → A → comparison) (x : A) (l : list A) : list A :=
  match l with
  | [] => [x]
  | y :: l => match cmp x y with Gt => y :: insert_by cmp x l | _ => x :: y :: l end
  end.
Definition stable_sort_by {A} (cmp : A → A → comparison) (l : list A) : list A := foldr (insert_by cmp) [] l.

Lemma insert_by_perm {A} (cmp : A → A → comparison) x l : insert_by cmp x l ≡ₚ x :: l.
Proof. induction l as [|y l IH]; [done|]. cbn. destruct (cmp x y); [done|done|]. rewrite IH. by constructor. Qed.

Lemma insert_by_sorted {A} (cmp : A → A → comparison) x l :
  total_order cmp → StronglySorted (λ x y, cmp x y ≠ Gt) l → StronglySorted (λ x y, cmp x y ≠ Gt) (insert_by cmp x l).
Proof.
  intros [Hsym Htrans]. induction 1 as [|y l Hs IH Hy]; [by repeat constructor|]. cbn. destruct (cmp x y) eqn:E.
  1-2: assert (cmp x y ≠ Gt) as Hxy by congruence; constructor; [by constructor|]; constructor; [done|];
    eapply Forall_impl; [exact Hy|]; intros z Hz; by apply (Htrans x y z).
  constructor; [done|]. rewrite insert_by_perm. constructor; [by rewrite Hsym, E|done].
Qed.

Lemma stable_sort_perm {A} (cmp : A → A → comparison) l : stable_sort_by cmp l ≡ₚ l.
Proof. induction l as [|x l IH]; [done|]. cbn. rewrite insert_by_perm. by constructor. Qed.
Lemma stable_sort_sorted {A} (cmp : A → A → comparison) l :
  total_order cmp → StronglySorted (λ x y, cmp x y ≠ Gt) (stable_sort_by cmp l).
Proof. intros Ht. induction l as [|x l IH]; [constructor|]. by apply insert_by_sorted. Qed.

(** One such sort, for the examples. *)
Module InsertionSort.
#[export] Instance insertion : RustSort := {|
  sort_by := @stable_sort_by;
  sort_by_perm := @stable_sort_perm;
  sort_by_sorted := @stable_sort_sorted
|}.
End InsertionSort.
