(* ===== verification/Compat.v ===== *)
(** Interest overlap (src/social-core/src/compatibility.rs): the one kernel
    behind the compatibility scores. The loops over hash sets are modelled as
    they run; they compute the sizes of the intersection and of the union of
    the trimmed, non-empty items, so that the Jaccard score does not depend on
    the order of its arguments. *)

From Stdlib Require Import SpecFloat.
From S2P Require Import Prelude RustStr Json Floats.

(** The comparison key of a trimmed item. *)
Definition item_key (case_insensitive : bool) (t : str) : str := if case_insensitive then to_ascii_lowercase t else t.

(** The keys of the non-empty items, as a set. *)
Definition key_set (ci : bool) (l : list (list Z)) : gset (list Z) :=
  fold_left (λ seen s, if bool_decide (trim s = []) then seen else {[ item_key ci (trim s) ]} ∪ seen) l ∅.

Definition zsize_set (X : gset (list Z)) : Z := Z.of_nat (size X).

(** The loop over the first list ends as soon as the second set is used up.
    Source: src/social-core/src/compatibility.rs:75-85 (interest_overlap_details, common) *)
Fixpoint take_common (ci : bool) (l : list (list Z)) (seen_b : gset (list Z)) : list (list Z) :=
  match l with
  | [] => []
  | s :: l =>
      if bool_decide (seen_b = ∅) then []
      else
        let t := trim s in
        if negb (bool_decide (t = [])) && bool_decide (item_key ci t ∈ seen_b)
        then t :: take_common ci l (seen_b ∖ {[ item_key ci t ]})
        else take_common ci l seen_b
  end.

(** The common items, the size of the union and of both sets.
    Source: src/social-core/src/compatibility.rs:9-89 (interest_overlap_details) *)
Definition interest_overlap_details (a b : list (list Z)) (ci : bool) : list (list Z) * Z * Z * Z :=
  if bool_decide (a = []) && bool_decide (b = []) then ([], 0, 0, 0)%Z
  else
    let seen_a := key_set ci a in
    let seen_b := key_set ci b in
    let common := take_common ci a seen_b in
    (common, zsize_set seen_a + zsize_set seen_b - zlen common, zsize_set seen_a, zsize_set seen_b)%Z.

(** Source: src/social-core/src/compatibility.rs:91-98 (interest_overlap) *)
Definition interest_overlap (a b : list (list Z)) (ci : bool) : list (list Z) * Z :=
  let '(common, union, _, _) := interest_overlap_details a b ci in (common, union).

(** Source: src/social-core/src/compatibility.rs:101-114 (basic_compatibility) *)
Definition basic_compatibility (a b : list (list Z)) : f64 :=
  if bool_decide (a = []) || bool_decide (b = []) then f64_dec 1 2
  else if bool_decide (a = b) then f64_of_Z 1
  else
    let '(common, _, len_a, len_b) := interest_overlap_details a b false in
    let m := Z.max len_a len_b in
    if (m =? 0)%Z then f64_dec 1 2 else f64_div (f64_of_Z (zlen common)) (f64_of_Z m).

(** Source: src/social-core/src/compatibility.rs:166-171 (interest_overlap_counts, count) *)
Definition count_common (ci : bool) (s : gset (list Z) * gset (list Z) * Z) (item : list Z) : gset (list Z) * gset (list Z) * Z :=
  let '(seen_a, seen_b, count) := s in
  let t := trim item in
  if bool_decide (t = []) then s
  else if bool_decide (item_key ci t ∈ seen_a) then s
  else if bool_decide (item_key ci t ∈ seen_b) then ({[ item_key ci t ]} ∪ seen_a, seen_b ∖ {[ item_key ci t ]}, (count + 1)%Z)
  else ({[ item_key ci t ]} ∪ seen_a, seen_b, count).

(** Source: src/social-core/src/compatibility.rs:116-175 (interest_overlap_counts) *)
Definition interest_overlap_counts (a b : list (list Z)) (ci : bool) : Z * Z :=
  if bool_decide (a = []) || bool_decide (b = []) then (0, 0)%Z
  else
    let seen_b := key_set ci b in
    let '(seen_a, _, count) := fold_left (count_common ci) a (∅, seen_b, 0%Z) in
    (count, zsize_set seen_a + zsize_set seen_b - count)%Z.

(** Source: src/social-core/src/compatibility.rs:179-195 (jaccard_similarity) *)
Definition jaccard_similarity (a b : list (list Z)) (ci : bool) : f64 :=
  if bool_decide (a = []) || bool_decide (b = []) then f64_dec 1 2
  else if bool_decide (a = b) then f64_of_Z 1
  else
    let '(common_len, union) := interest_overlap_counts a b ci in
    if (union =? 0)%Z then f64_zero else f64_div (f64_of_Z common_len) (f64_of_Z union).

(** ** What the loops compute *)

Definition item_keys (ci : bool) (l : list (list Z)) : list (list Z) := item_key ci <$> filter (λ t, t ≠ []) (trim <$> l).

Lemma item_keys_cons ci s l : item_keys ci (s :: l) = (if bool_decide (trim s = []) then [] else [item_key ci (trim s)]) ++ item_keys ci l.
Proof.
  unfold item_keys. cbn [fmap list_fmap]. case_bool_decide as Ht; [by rewrite filter_cons_False by auto|by rewrite filter_cons_True by done].
Qed.

Lemma key_set_spec ci l : key_set ci l = list_to_set (item_keys ci l).
Proof.
  unfold key_set. cut (∀ X : gset (list Z), fold_left (λ seen s, if bool_decide (trim s = []) then seen else {[ item_key ci (trim s) ]} ∪ seen) l X = list_to_set (item_keys ci l) ∪ X).
  { intros ->. set_solver. }
  induction l as [|s l IH]; intros X; cbn [fold_left]; [set_solver|]. rewrite IH, item_keys_cons. case_bool_decide; simpl; set_solver.
Qed.

Lemma count_common_spec (ci : bool) (a : list (list Z)) (B : gset (list Z)) :
  ∃ seen_b : gset (list Z), fold_left (count_common ci) a (∅, B, 0%Z) = (list_to_set (item_keys ci a), seen_b, zsize_set (list_to_set (item_keys ci a) ∩ B)).
Proof.
  cut (∀ X Y : gset (list Z), Y = B ∖ X → ∃ seen_b : gset (list Z), fold_left (count_common ci) a (X, Y, zsize_set (X ∩ B)) =
         (X ∪ list_to_set (item_keys ci a), seen_b, zsize_set ((X ∪ list_to_set (item_keys ci a)) ∩ B))).
  { intros Hc. destruct (Hc ∅ B ltac:(set_solver)) as [sb E]. exists sb.
    replace (∅ ∩ B) with (∅ : gset (list Z)) in E by set_solver. unfold zsize_set at 1 in E. rewrite size_empty in E. change (Z.of_nat 0) with 0%Z in E.
    rewrite E. by replace (∅ ∪ list_to_set (item_keys ci a) : gset (list Z)) with (list_to_set (item_keys ci a) : gset (list Z)) by set_solver. }
  induction a as [|s a IH]; intros X Y HY; cbn [fold_left].
  { exists Y. unfold item_keys. cbn. by rewrite union_empty_r_L. }
  rewrite item_keys_cons. unfold count_common at 2. cbn beta iota zeta. set (t := trim s). case_bool_decide as Ht; cbn [app]; [by apply IH|].
  rewrite list_to_set_cons. set (k := item_key ci t). case_bool_decide as Hk.
  { destruct (IH X Y HY) as [sb E]. exists sb. rewrite E.
    by replace (X ∪ ({[ k ]} ∪ list_to_set (item_keys ci a)) : gset (list Z)) with (X ∪ list_to_set (item_keys ci a) : gset (list Z)) by set_solver. }
  replace (X ∪ ({[ k ]} ∪ list_to_set (item_keys ci a)) : gset (list Z)) with (({[ k ]} ∪ X) ∪ list_to_set (item_keys ci a) : gset (list Z)) by set_solver.
  case_bool_decide as Hb.
  - replace (zsize_set (X ∩ B) + 1)%Z with (zsize_set (({[ k ]} ∪ X) ∩ B)); [apply IH; set_solver|]. unfold zsize_set.
    replace (({[ k ]} ∪ X) ∩ B) with ({[ k ]} ∪ X ∩ B) by set_solver. rewrite size_union, size_singleton by set_solver. lia.
  - replace (X ∩ B) with (({[ k ]} ∪ X) ∩ B) by set_solver. apply IH. set_solver.
Qed.

Lemma keys_inter_comm (A B : gset (list Z)) : A ∩ B = B ∩ A.
Proof. set_solver. Qed.
Lemma keys_union_comm (A B : gset (list Z)) : A ∪ B = B ∪ A.
Proof. set_solver. Qed.

Lemma union_size (A B : gset (list Z)) : (zsize_set A + zsize_set B - zsize_set (A ∩ B))%Z = zsize_set (A ∪ B).
Proof.
  pose proof (size_union_alt A B) as Hu. pose proof (size_difference_alt B A) as Hd. rewrite (keys_inter_comm B A) in Hd.
  unfold zsize_set.  assert (size (A ∩ B) ≤ size B) by (apply subseteq_size; set_solver). lia.
Qed.

(** The counts are the sizes of the intersection and of the union of the keys. *)
Theorem overlap_counts_spec a b ci : a ≠ [] → b ≠ [] →
  interest_overlap_counts a b ci =
    (zsize_set (list_to_set (item_keys ci a) ∩ list_to_set (item_keys ci b)), zsize_set (list_to_set (item_keys ci a) ∪ list_to_set (item_keys ci b))).
Proof.
  intros Ha Hb. unfold interest_overlap_counts. rewrite (bool_decide_eq_false_2 _ Ha), (bool_decide_eq_false_2 _ Hb). cbn [orb].
  rewrite key_set_spec. destruct (count_common_spec ci a (list_to_set (item_keys ci b))) as [sb ->]. by rewrite union_size.
Qed.

Lemma take_elem (k : list Z) (K B : gset (list Z)) : k ∈ B → {[ k ]} ∪ K ∩ (B ∖ {[ k ]}) = ({[ k ]} ∪ K) ∩ B.
Proof. intros Hk. apply set_eq. intros x. destruct (decide (x = k)) as [->|]; set_solver. Qed.

Lemma take_common_spec (ci : bool) (a : list (list Z)) (B : gset (list Z)) :
  list_to_set (item_key ci <$> take_common ci a B) =@{gset (list Z)} list_to_set (item_keys ci a) ∩ B ∧ NoDup (item_key ci <$> take_common ci a B).
Proof.
  revert B. induction a as [|s a IH]; intros B; cbn [take_common].
  { split; [unfold item_keys; cbn; set_solver|constructor]. }
  case_bool_decide as HB; [subst B; split; [set_solver|constructor]|]. rewrite item_keys_cons. set (t := trim s).
  destruct (bool_decide (t = [])) eqn:Ht; cbn [negb andb app]; [apply IH|]. clear Ht. case_bool_decide as Hk.
  - rewrite fmap_cons. destruct (IH (B ∖ {[ item_key ci t ]})) as [E Hd]. split; [by rewrite !list_to_set_cons, E, take_elem|].
    constructor; [|done]. rewrite <-(elem_of_list_to_set (C := gset (list Z))), E. set_solver.
  - destruct (IH B) as [E Hd]. split; [rewrite E; set_solver|done].
Qed.

(** The items and the counts agree. *)
Theorem overlap_details_agree a b ci : a ≠ [] → b ≠ [] →
  let '(common, union, len_a, len_b) := interest_overlap_details a b ci in
  interest_overlap_counts a b ci = (zlen common, union) ∧
  len_a = zsize_set (list_to_set (item_keys ci a)) ∧ len_b = zsize_set (list_to_set (item_keys ci b)) ∧
  NoDup (item_key ci <$> common) ∧
  list_to_set (item_key ci <$> common) =@{gset (list Z)} list_to_set (item_keys ci a) ∩ list_to_set (item_keys ci b).
Proof.
  intros Ha Hb. rewrite overlap_counts_spec by done. unfold interest_overlap_details. rewrite (bool_decide_eq_false_2 _ Ha). cbn [andb].
  rewrite !key_set_spec. destruct (take_common_spec ci a (list_to_set (item_keys ci b))) as [E Hd].
  assert (Hl : zlen (take_common ci a (list_to_set (item_keys ci b))) = zsize_set (list_to_set (item_keys ci a) ∩ list_to_set (item_keys ci b))).
  { unfold zsize_set. rewrite <-E, size_list_to_set, length_fmap by done. done. }
  split_and!; [|done|done|done|done]. by rewrite Hl, union_size.
Qed.

(** The score does not depend on who asks. *)
Theorem jaccard_symmetric a b ci : jaccard_similarity a b ci = jaccard_similarity b a ci.
Proof.
  unfold jaccard_similarity. rewrite orb_comm. destruct (_ || _) eqn:Ho; [done|]. apply orb_false_iff in Ho as [Hb%bool_decide_eq_false Ha%bool_decide_eq_false].
  rewrite !overlap_counts_spec by done. rewrite (bool_decide_ext (a = b) (b = a)) by done.
  by rewrite (keys_inter_comm (list_to_set (item_keys ci a))), (keys_union_comm (list_to_set (item_keys ci a))).
Qed.

Theorem basic_compatibility_symmetric a b : basic_compatibility a b = basic_compatibility b a.
Proof.
  unfold basic_compatibility. rewrite orb_comm. destruct (_ || _) eqn:Ho; [done|]. apply orb_false_iff in Ho as [Hb%bool_decide_eq_false Ha%bool_decide_eq_false].
  rewrite (bool_decide_ext (a = b) (b = a)) by done. case_bool_decide; [done|].
  pose proof (overlap_details_agree a b false Ha Hb) as H1. pose proof (overlap_details_agree b a false Hb Ha) as H2.
  destruct (interest_overlap_details a b false) as [[[c1 u1] la1] lb1], (interest_overlap_details b a false) as [[[c2 u2] la2] lb2].
  destruct H1 as (E1 & -> & -> & _), H2 as (E2 & -> & -> & _). rewrite overlap_counts_spec in E1, E2 by done.
  injection E1 as E1 _. injection E2 as E2 _. rewrite keys_inter_comm in E2. by rewrite <-E1, <-E2, Z.max_comm.
Qed.
