(* ===== verification/Spatial.v ===== *)
(** Positions on the globe (src/spatial-core/src): great-circle distances, the
    geohash helpers, the point index and the geofence polygons. The geohash
    codec, the R-tree and the polygon predicate are crates and interfaces
    here, the trigonometric functions are the platform's. *)

From Stdlib Require Import SpecFloat.
From S2P Require Import Prelude RustStr Url Content Json Floats.

(** sin, cos and atan2 of the platform. *)
Class Trig := { f64_sin : f64 → f64; f64_cos : f64 → f64; f64_atan2 : f64 → f64 → f64 }.

(** The geohash crate; coordinates as (x, y), that is (longitude, latitude),
    and the eight neighbours from the north clockwise. *)
Class GeohashCrate := {
  geohash_decode : str → option (f64 * f64);
  geohash_encode : f64 * f64 → nat → option str;
  geohash_neighbors : str → option (list (list Z))
}.

(** ** Distances: spatial-core/src/distance.rs *)

(** The binary64 number nearest to pi. *)
Definition PI : f64 := S754_finite false 7074237752028440 (-51).
Definition to_radians (x : f64) : f64 := f64_mul x (f64_div PI (f64_of_Z 180)).
Definition EARTH_RADIUS : f64 := f64_of_Z 6371.
Definition valid_lat (x : f64) : bool := f64_within (f64_of_Z (-90)) (f64_of_Z 90) x.
Definition valid_lon (x : f64) : bool := f64_within (f64_of_Z (-180)) (f64_of_Z 180) x.

Section distance.
Context `{Trig}.

(** Source: src/spatial-core/src/distance.rs:15-22 (haversine_km, formula) *)
Definition haversine_arc (cos_lat1 lat1 lon1 lat2 lon2 : f64) : f64 :=
  let d_lat := to_radians (f64_sub lat2 lat1) in
  let d_lon := to_radians (f64_sub lon2 lon1) in
  let half x := f64_sq (f64_sin (f64_div x (f64_of_Z 2))) in
  let a := f64_clamp f64_zero (f64_of_Z 1)
             (f64_add (half d_lat) (f64_mul (f64_mul cos_lat1 (f64_cos (to_radians lat2))) (half d_lon))) in
  f64_mul EARTH_RADIUS (f64_mul (f64_of_Z 2) (f64_atan2 (f64_sqrt a) (f64_sqrt (f64_sub (f64_of_Z 1) a)))).

(** Source: src/spatial-core/src/distance.rs:1-23 (haversine_km) *)
Definition haversine_km (lat1 lon1 lat2 lon2 : f64) : f64 :=
  if f64_is_nan lat1 || f64_is_nan lon1 || f64_is_nan lat2 || f64_is_nan lon2 then S754_nan
  else if f64_is_infinite lat1 || f64_is_infinite lon1 || f64_is_infinite lat2 || f64_is_infinite lon2 then S754_infinity false
  else if negb (valid_lat lat1) || negb (valid_lat lat2) || negb (valid_lon lon1) || negb (valid_lon lon2) then S754_nan
  else haversine_arc (f64_cos (to_radians lat1)) lat1 lon1 lat2 lon2.

(** Closer than 1e-7 degrees in both coordinates. *)
Definition same_place (lat1 lon1 lat2 lon2 : f64) : bool :=
  SFltb (SFabs (f64_sub lat1 lat2)) (f64_dec 1 (10 ^ 7)) && SFltb (SFabs (f64_sub lon1 lon2)) (f64_dec 1 (10 ^ 7)).

(** Source: src/spatial-core/src/distance.rs:46-70 (haversine_batch_km, loop) *)
Definition batch_one (cos_lat1 lat1 lon1 : f64) (target : f64 * f64) : f64 :=
  let '(lat2, lon2) := target in
  if f64_is_nan lat2 || f64_is_nan lon2 || negb (valid_lat lat2) || negb (valid_lon lon2) then S754_nan
  else if f64_is_infinite lat2 || f64_is_infinite lon2 then S754_infinity false
  else if same_place lat1 lon1 lat2 lon2 then f64_zero
  else haversine_arc cos_lat1 lat1 lon1 lat2 lon2.

(** The slots beyond the targets keep what they held.
    Source: src/spatial-core/src/distance.rs:25-71 (haversine_batch_km) *)
Definition haversine_batch_km (lat1 lon1 : f64) (targets : list (f64 * f64)) (results : list f64) : list f64 :=
  if f64_is_nan lat1 || f64_is_nan lon1 || negb (valid_lat lat1) || negb (valid_lon lon1) then (λ _, S754_nan) <$> results
  else if f64_is_infinite lat1 || f64_is_infinite lon1 then (λ _, S754_infinity false) <$> results
  else
    let cos_lat1 := f64_cos (to_radians lat1) in
    (batch_one cos_lat1 lat1 lon1 <$> take (length results) targets) ++ drop (length targets) results.

Context `{GeohashCrate}.

(** Latitude first.
    Source: src/spatial-core/src/distance.rs:73-81 (decode_geohash_coords) *)
Definition decode_geohash_coords (g : str) : option (f64 * f64) :=
  if bool_decide (g = []) || (16 <? zlen g)%Z then None
  else '(x, y) ← geohash_decode g; Some (y, x).

(** Source: src/spatial-core/src/distance.rs:83-98 (haversine_distance) *)
Definition haversine_distance (g1 g2 : str) : f64 :=
  if bool_decide (g1 = g2) && negb (bool_decide (g1 = [])) then f64_zero
  else if bool_decide (g1 = []) || bool_decide (g2 = []) then S754_infinity false
  else if (16 <? zlen g1)%Z || (16 <? zlen g2)%Z then S754_infinity false
  else match decode_geohash_coords g1, decode_geohash_coords g2 with
       | Some (lat1, lon1), Some (lat2, lon2) => haversine_km lat1 lon1 lat2 lon2
       | _, _ => S754_infinity false
       end.

(** ** Geohashes: spatial-core/src/geohash.rs *)

(** Source: src/spatial-core/src/geohash.rs:4-4 (MAX_GEOHASH_LEN) *)
Definition MAX_GEOHASH_LEN : Z := 16.
(** Source: src/spatial-core/src/geohash.rs:7-7 (MAX_PRECISION) *)
Definition MAX_PRECISION : nat := 12.

(** Cut at a character: the bytes of an ASCII text, the characters of another.
    Source: src/spatial-core/src/geohash.rs:22-32 (get_nearby_prefixes, center) *)
Definition prefix_center (g : str) (precision : nat) : str :=
  if forallb (λ b, (b <? 128)%Z) g && (precision <? length g) then take precision g
  else if (Z.of_nat precision <? chars_count g)%Z then concat (take precision (chars g))
  else g.

(** Source: src/spatial-core/src/geohash.rs:9-48 (get_nearby_prefixes) *)
Definition get_nearby_prefixes (g : str) (precision : nat) : list (list Z) :=
  if bool_decide (g = []) || (MAX_GEOHASH_LEN <? zlen g)%Z || (precision =? 0) then []
  else
    let center := prefix_center g (min precision MAX_PRECISION) in
    center :: match geohash_decode center with
              | Some _ => default [] (geohash_neighbors center)
              | None => []
              end.

(** Source: src/spatial-core/src/geohash.rs:50-64 (precision_for_distance) *)
Definition precision_for_distance (max_km : f64) : Z :=
  if SFleb max_km f64_zero then 4
  else if SFleb (f64_of_Z 500) max_km then 3
  else if SFleb (f64_of_Z 100) max_km then 4
  else if SFleb (f64_of_Z 10) max_km then 5
  else 6.

(** Source: src/spatial-core/src/geohash.rs:67-76 (encode_geohash) *)
Definition encode_geohash (lat lon : f64) (precision : nat) : option str :=
  if negb (f64_is_finite lat) || negb (f64_is_finite lon) || (precision =? 0) then None
  else if negb (valid_lat lat) || negb (valid_lon lon) then None
  else geohash_encode (lon, lat) (min precision MAX_PRECISION).

(** Source: src/spatial-core/src/geohash.rs:80-82 (is_valid_geohash) *)
Definition is_valid_geohash (s : str) : bool :=
  negb (bool_decide (s = [])) && (length s <=? MAX_PRECISION) && bool_decide (is_Some (geohash_decode s)).

(** Source: src/spatial-core/src/geohash.rs:168-172 (expand_geohash_prefix_json, after parsing) *)
Definition expand_geohash_prefix (geohash : str) (precision : option nat) : list (list Z) :=
  get_nearby_prefixes (to_ascii_lowercase (trim geohash)) (default 5 precision).

Record LocationPoint := mk_point { pt_id : str; pt_lat : f64; pt_lon : f64 }.

Context `{RustSort}.

(** The points within the distance, the nearest first.
    Source: src/spatial-core/src/geohash.rs:114-145 (compute_spatial_matrix_json, after parsing) *)
Definition compute_spatial_matrix (center_lat center_lon : f64) (points : list LocationPoint) (max_distance_km : f64)
    : list (list Z * f64) :=
  if negb (valid_lat center_lat) || negb (valid_lon center_lon) then []
  else
    sort_by (λ a b, f64_cmp a.2 b.2)
      (omap (λ pt,
        if negb (valid_lat (pt_lat pt)) || negb (valid_lon (pt_lon pt)) then None
        else
          let dist := haversine_km center_lat center_lon (pt_lat pt) (pt_lon pt) in
          if f64_is_finite dist && (SFleb max_distance_km f64_zero || SFleb dist max_distance_km)
          then Some (pt_id pt, dist) else None)
      (take 10000 points)).

Record SpatialEvent := mk_spatial_event { sev_id : str; sev_pubkey : str; sev_geohash : str; sev_created_at : Z }.

Definition presence_fresh (now_sec max_age_sec : Z) (ev : SpatialEvent) : bool :=
  negb ((sev_created_at ev <? now_sec)%Z && (max_age_sec <? now_sec - sev_created_at ev)%Z).

Definition presence_near (norm_target : str) (ev : SpatialEvent) : bool :=
  negb (bool_decide (sev_geohash ev = [])) && (zlen (sev_geohash ev) <=? MAX_GEOHASH_LEN)%Z &&
  (bool_decide (norm_target = []) || starts_with norm_target (to_ascii_lowercase (trim (sev_geohash ev)))).

(** An identifier counts as seen whatever becomes of its event.
    Source: src/spatial-core/src/geohash.rs:215-240 (filter_geohash_presence_events_json, loop) *)
Definition presence_step (norm_target : str) (now_sec max_age_sec : Z) (s : gset (list Z) * list SpatialEvent) (ev : SpatialEvent)
    : gset (list Z) * list SpatialEvent :=
  let '(seen, filtered) := s in
  if bool_decide (sev_id ev ∈ seen) then s
  else ({[ sev_id ev ]} ∪ seen,
        if presence_fresh now_sec max_age_sec ev && presence_near norm_target ev then filtered ++ [ev] else filtered).

(** Source: src/spatial-core/src/geohash.rs:211-242 (filter_geohash_presence_events_json, after parsing) *)
Definition filter_geohash_presence_events (events : list SpatialEvent) (target_prefix : str) (now_sec max_age_sec : Z) : list SpatialEvent :=
  (fold_left (presence_step (to_ascii_lowercase (trim target_prefix)) now_sec max_age_sec) events (∅, [])).2.
End distance.

(** ** The point index: spatial-core/src/index.rs *)

(** A point and its data. *)
Definition element (T : Type) : Type := T * (f64 * f64).

(** The corners of an axis-aligned box, latitude first. *)
Definition in_box (lo hi p : f64 * f64) : bool :=
  f64_within lo.1 hi.1 p.1 && f64_within lo.2 hi.2 p.2.

(** The R-tree: the elements in an envelope, in some order, and a nearest one. *)
Class RTree := {
  rtree_in_envelope {T} : list (element T) → f64 * f64 → f64 * f64 → list (element T);
  rtree_in_envelope_perm {T} (t : list (element T)) lo hi :
    rtree_in_envelope t lo hi ≡ₚ filter (λ e, in_box lo hi e.2 = true) t;
  rtree_nearest {T} : list (element T) → f64 * f64 → option (element T);
  rtree_nearest_elem {T} (t : list (element T)) p e : rtree_nearest t p = Some e → e ∈ t
}.

Section index.
Context `{Trig, RustSort, RTree} {T : Type}.

(** The elements of the tree, whatever its shape.
    Source: src/spatial-core/src/index.rs:10-12 (SpatialIndex) *)
Definition SpatialIndex : Type := list (element T).

(** Source: src/spatial-core/src/index.rs:22-24 (SpatialIndex::new) *)
Definition index_new : SpatialIndex := [].

(** Source: src/spatial-core/src/index.rs:28-37 (SpatialIndex::insert) *)
Definition index_insert (t : SpatialIndex) (data : T) (lat lon : f64) : SpatialIndex * may_fail unit :=
  if f64_is_nan lat || f64_is_nan lon || f64_is_infinite lat || f64_is_infinite lon
  then (t, err "Coordinates must be finite numbers")
  else if negb (valid_lat lat) || negb (valid_lon lon) then (t, err "Coordinates out of range")
  else ((data, (lat, lon)) :: t, Ok ()).

(** Source: src/spatial-core/src/index.rs:40-42 (SpatialIndex::len) *)
Definition index_len (t : SpatialIndex) : nat := length t.

(** Source: src/spatial-core/src/index.rs:51-59 (SpatialIndex::nearest_neighbor) *)
Definition nearest_neighbor (t : SpatialIndex) (lat lon : f64) : option (T * f64) :=
  if f64_is_nan lat || f64_is_nan lon || f64_is_infinite lat || f64_is_infinite lon then None
  else e ← rtree_nearest t (lat, lon); Some (e.1, haversine_km lat lon e.2.1 e.2.2).

(** The corners of the box searched around a point.
    Source: src/spatial-core/src/index.rs:68-76 (SpatialIndex::locate_within_distance, envelope) *)
Definition search_box (lat lon radius_km : f64) : (f64 * f64) * (f64 * f64) :=
  let lat_delta := f64_div radius_km (f64_of_Z 111) in
  let cos_lat := f64_max (SFabs (f64_cos (to_radians lat))) (f64_dec 1 100) in
  let lon_delta := f64_div radius_km (f64_mul (f64_of_Z 111) cos_lat) in
  ((f64_max (f64_sub lat lat_delta) (f64_of_Z (-90)), f64_max (f64_sub lon lon_delta) (f64_of_Z (-180))),
   (f64_min (f64_add lat lat_delta) (f64_of_Z 90), f64_min (f64_add lon lon_delta) (f64_of_Z 180))).

(** Source: src/spatial-core/src/index.rs:63-91 (SpatialIndex::locate_within_distance) *)
Definition locate_within_distance (t : SpatialIndex) (lat lon radius_km : f64) : list (T * f64) :=
  if f64_is_nan lat || f64_is_nan lon || f64_is_nan radius_km || SFltb radius_km f64_zero then []
  else
    let '(lo, hi) := search_box lat lon radius_km in
    sort_by (λ a b, f64_cmp a.2 b.2)
      (omap (λ e : element T, let dist := haversine_km lat lon e.2.1 e.2.2 in if SFleb dist radius_km then Some (e.1, dist) else None)
         (rtree_in_envelope t lo hi)).

(** Source: src/spatial-core/src/index.rs:94-109 (SpatialIndex::locate_in_bounding_box) *)
Definition locate_in_bounding_box (t : SpatialIndex) (min_lat min_lon max_lat max_lon : f64) : list T :=
  if SFltb max_lat min_lat || SFltb max_lon min_lon then []
  else (rtree_in_envelope t (min_lat, min_lon) (max_lat, max_lon)).*1.
End index.
Arguments SpatialIndex T : clear implicits.

(** ** Geofences: spatial-core/src/polygon.rs *)

(** The polygon predicate of the geo crate, on a closed ring. *)
Class GeoCrate := { polygon_contains : list (f64 * f64) → f64 * f64 → bool }.

(** Source: src/spatial-core/src/polygon.rs:14-17 (GeofencePolygon) *)
Record GeofencePolygon := mk_geofence { vertices : list (f64 * f64) }.

Definition valid_vertex (v : f64 * f64) : bool :=
  negb (f64_is_nan v.1 || f64_is_nan v.2 || f64_is_infinite v.1 || f64_is_infinite v.2) && valid_lat v.1 && valid_lon v.2.

(** More than 1e-9 degrees apart in a coordinate. *)
Definition apart (v w : f64 * f64) : bool :=
  let eps := f64_dec 1 (10 ^ 9) in
  SFltb eps (SFabs (f64_sub v.1 w.1)) || SFltb eps (SFabs (f64_sub v.2 w.2)).

(** Source: src/spatial-core/src/polygon.rs:25-67 (GeofencePolygon::from_lat_lon) *)
Definition from_lat_lon (vs : list (f64 * f64)) : may_fail GeofencePolygon :=
  _ ← ensure (3 <=? length vs) "geofence polygon requires at least 3 vertices";
  _ ← ensure (forallb valid_vertex vs) "invalid vertex coordinate";
  let ring := match head vs, last vs with
              | Some first, Some last => if apart first last then vs ++ [first] else vs
              | _, _ => vs
              end in
  _ ← ensure (4 <=? length ring) "geofence polygon requires at least 3 distinct vertices";
  Ok (mk_geofence ring).

(** Source: src/spatial-core/src/polygon.rs:70-80 (GeofencePolygon::contains_point) *)
Definition contains_point `{GeoCrate} (g : GeofencePolygon) (lat lon : f64) : bool :=
  if f64_is_nan lat || f64_is_nan lon || negb (valid_lat lat) || negb (valid_lon lon) then false
  else polygon_contains ((λ v, (v.2, v.1)) <$> vertices g) (lon, lat).

(** Source: src/spatial-core/src/polygon.rs:95-97 (GeofencePolygon::vertex_count) *)
Definition vertex_count (g : GeofencePolygon) : nat := length (vertices g).

(** ** Properties *)

Lemma within_not_special lo hi x :
  f64_within (f64_of_Z lo) (f64_of_Z hi) x = true → f64_is_infinite (f64_of_Z lo) = false → f64_is_infinite (f64_of_Z hi) = false →
  f64_is_nan x = false ∧ f64_is_infinite x = false.
Proof.
  unfold f64_within. intros [Hl Hh]%andb_true_iff Hfl Hfh.
  destruct x as [s|s| |s m e]; [done| | |done].
  - destruct s; [destruct (f64_of_Z lo) as [?|[]| |[] ? ?]; done|destruct (f64_of_Z hi) as [?|[]| |[] ? ?]; done].
  - by destruct (f64_of_Z lo).
Qed.

Lemma valid_lat_plain x : valid_lat x = true → f64_is_nan x = false ∧ f64_is_infinite x = false.
Proof. intros Hx. by apply (within_not_special (-90) 90). Qed.
Lemma valid_lon_plain x : valid_lon x = true → f64_is_nan x = false ∧ f64_is_infinite x = false.
Proof. intros Hx. by apply (within_not_special (-180) 180). Qed.

Section laws.
Context `{Trig}.

(** The batch gives what the single distance gives, but zero for the places
    that are within 1e-7 degrees. *)
Theorem batch_equiv lat1 lon1 targets results :
  valid_lat lat1 = true → valid_lon lon1 = true → Forall (λ t, valid_lat t.1 = true ∧ valid_lon t.2 = true) targets →
  length targets = length results →
  haversine_batch_km lat1 lon1 targets results =
    (λ t, if same_place lat1 lon1 t.1 t.2 then f64_zero else haversine_km lat1 lon1 t.1 t.2) <$> targets.
Proof.
  intros H1 H2 Ht Hl. destruct (valid_lat_plain _ H1) as [En1 Ei1], (valid_lon_plain _ H2) as [En2 Ei2].
  unfold haversine_batch_km. rewrite En1, En2, Ei1, Ei2, H1, H2. cbn [negb orb]. rewrite <-Hl, take_ge by done.
  rewrite drop_ge by lia. rewrite app_nil_r. apply list_fmap_ext. intros i [lat2 lon2] Hi.
  rewrite Forall_forall in Ht. destruct (Ht (lat2, lon2)) as [H3 H4]; [by apply list_elem_of_lookup_2 in Hi|]. cbn [fst snd] in *.
  destruct (valid_lat_plain _ H3) as [En3 Ei3], (valid_lon_plain _ H4) as [En4 Ei4].
  unfold batch_one, haversine_km. rewrite En1, En2, En3, En4, Ei1, Ei2, Ei3, Ei4, H1, H2, H3, H4. done.
Qed.

(** An infinite coordinate is infinitely far for the one and no number for the
    other. *)
Theorem batch_infinite lat1 lon1 lon2 s :
  valid_lat lat1 = true → valid_lon lon1 = true → f64_is_nan lon2 = false →
  haversine_km lat1 lon1 (S754_infinity s) lon2 = S754_infinity false ∧
  haversine_batch_km lat1 lon1 [(S754_infinity s, lon2)] [f64_zero] = [S754_nan].
Proof.
  intros H1 H2 Hn. destruct (valid_lat_plain _ H1) as [En1 Ei1], (valid_lon_plain _ H2) as [En2 Ei2].
  unfold haversine_km, haversine_batch_km. rewrite En1, En2, Ei1, Ei2, H1, H2, Hn. cbn [f64_is_nan f64_is_infinite orb negb].
  split; [done|]. cbn [length take drop fmap list_fmap app]. unfold batch_one. rewrite Hn. cbn [f64_is_nan orb]. by destruct s.
Qed.

Context `{RustSort, RTree} {T : Type}.

(** What the index finds is in it, within the distance, and comes sorted when
    the distances do; what is in the box and within the distance is found. *)
Theorem within_distance_spec (t : SpatialIndex T) lat lon radius d dist :
  (d, dist) ∈ locate_within_distance t lat lon radius ↔
    f64_is_nan lat || f64_is_nan lon || f64_is_nan radius || SFltb radius f64_zero = false ∧
    ∃ p, (d, p) ∈ t ∧ in_box (search_box lat lon radius).1 (search_box lat lon radius).2 p = true ∧
         dist = haversine_km lat lon p.1 p.2 ∧ SFleb dist radius = true.
Proof.
  unfold locate_within_distance. destruct (_ || _) eqn:Hn; [set_solver|]. destruct (search_box lat lon radius) as [lo hi]. cbn [fst snd].
  rewrite elem_of_sort_by, list_elem_of_omap. setoid_rewrite rtree_in_envelope_perm. setoid_rewrite list_elem_of_filter. split.
  - intros ([d' p] & [Hbox Hin] & Hd). split; [done|]. cbn [fst snd] in *. destruct (SFleb _ _) eqn:Hle; [|done]. injection Hd as -> <-.
    by exists p.
  - intros (_ & p & Hin & Hbox & -> & Hle). exists (d, p). cbn [fst snd]. by rewrite Hle.
Qed.

Lemma index_insert_spec (t : SpatialIndex T) d lat lon :
  index_insert t d lat lon = if valid_vertex (lat, lon) then ((d, (lat, lon)) :: t, Ok ()) else (t, (index_insert t d lat lon).2).
Proof.
  unfold index_insert, valid_vertex. cbn [fst snd]. destruct (_ || _ || _ || _) eqn:Hn; [done|]. cbn [negb andb].
  by destruct (valid_lat lat), (valid_lon lon).
Qed.
End laws.

(** A geofence is a ring of at least four valid vertices that ends where it
    began. *)
Theorem geofence_ring vs g : from_lat_lon vs = Ok g →
  4 ≤ vertex_count g ∧ Forall (λ v, valid_vertex v = true) (vertices g) ∧
  (∃ v w, head (vertices g) = Some v ∧ last (vertices g) = Some w ∧ (w = v ∨ apart v w = false)) ∧
  ∃ l, vertices g = vs ++ l ∧ length l ≤ 1.
Proof.
  unfold from_lat_lon, vertex_count. intros Hg. inv_ok.
  match goal with H : (4 <=? _) = true |- _ => apply Nat.leb_le in H as H4 end. match goal with H : forallb _ _ = true |- _ => rename H into Hv end.
  assert (Hall : Forall (λ v, valid_vertex v = true) vs) by (by apply Forall_forall; intros v Hv'; eapply forallb_forall in Hv; [|by apply list_elem_of_In]).
  cbn [vertices]. destruct vs as [|v rest]; [done|]. cbn [head] in *. destruct (last (v :: rest)) as [w|] eqn:Hw; [|apply last_None in Hw; discriminate Hw].
  destruct (apart v w) eqn:Ha; (split; [exact H4|]).
  - split; [by apply Forall_app; split; [|apply Forall_singleton; apply Forall_cons in Hall as [? _]]|]. split; [|by exists [v]].
    exists v, v. split_and!; [done|by rewrite last_snoc|by left].
  - split; [done|]. split; [exists v, w; auto|]. exists []. rewrite app_nil_r. split; [reflexivity|apply Nat.le_0_l].
Qed.

(** Two distinct places are enough when one comes first and again second. *)
Theorem two_places_accepted v w : valid_vertex v = true → valid_vertex w = true → apart v w = true →
  from_lat_lon [v; v; w] = Ok (mk_geofence [v; v; w; v]).
Proof. intros Hv Hw Ha. unfold from_lat_lon. cbn [length Nat.leb forallb head last]. by rewrite Hv, Hw, Ha. Qed.

(** ** Presence events *)

Section presence.
Context (norm_target : str) (now_sec max_age_sec : Z).

Abbreviation step := (presence_step norm_target now_sec max_age_sec) (only parsing).
Definition kept (ev : SpatialEvent) : bool := presence_fresh now_sec max_age_sec ev && presence_near norm_target ev.

(** The first event of each identifier. *)
Fixpoint first_per_id (seen : gset (list Z)) (events : list SpatialEvent) : list SpatialEvent :=
  match events with
  | [] => []
  | ev :: events =>
      if bool_decide (sev_id ev ∈ seen) then first_per_id seen events
      else ev :: first_per_id ({[ sev_id ev ]} ∪ seen) events
  end.

Lemma presence_loop events : ∀ seen out,
  (fold_left step events (seen, out)).2 = out ++ filter (λ ev, kept ev = true) (first_per_id seen events).
Proof.
  induction events as [|ev events IH]; intros seen out; cbn [fold_left first_per_id]; [by rewrite app_nil_r|].
  unfold presence_step at 2. case_bool_decide; rewrite IH; [done|]. fold (kept ev). destruct (kept ev) eqn:E.
  - by rewrite filter_cons_True, <-app_assoc by done.
  - by rewrite filter_cons_False by congruence.
Qed.

Lemma first_per_id_spec events : ∀ seen,
  NoDup (sev_id <$> first_per_id seen events) ∧ (∀ ev, ev ∈ first_per_id seen events → ev ∈ events ∧ sev_id ev ∉ seen).
Proof.
  induction events as [|ev events IH]; intros seen; cbn [first_per_id]; [split; [constructor|set_solver]|].
  case_bool_decide as Hs; [destruct (IH seen); set_solver|]. destruct (IH ({[ sev_id ev ]} ∪ seen)) as [Hd Hin]. rewrite fmap_cons. split.
  - constructor; [|done]. intros (ev' & E & Hev)%list_elem_of_fmap. destruct (Hin ev' Hev) as [_ Hn]. rewrite <-E in Hn. set_solver.
  - intros ev' [->|Hev]%elem_of_cons; [split; [by left|done]|]. destruct (Hin ev' Hev). split; [by right|set_solver].
Qed.
End presence.

(** The presence filter looks at the first event of each identifier and lists
    those of them that are fresh and near, each identifier once. *)
Theorem presence_filter events target now_sec max_age_sec :
  let out := filter_geohash_presence_events events target now_sec max_age_sec in
  let norm := to_ascii_lowercase (trim target) in
  out = filter (λ ev, kept norm now_sec max_age_sec ev = true) (first_per_id ∅ events) ∧
  NoDup (sev_id <$> out) ∧ (∀ ev, ev ∈ out → ev ∈ events ∧ presence_fresh now_sec max_age_sec ev = true ∧ presence_near norm ev = true).
Proof.
  intros out norm. assert (E : out = filter (λ ev, kept norm now_sec max_age_sec ev = true) (first_per_id ∅ events)).
  { unfold out, filter_geohash_presence_events. by rewrite presence_loop. }
  destruct (first_per_id_spec events ∅) as [Hd Hin]. split; [done|]. rewrite E. split.
  - eapply sublist_NoDup; [exact Hd|]. apply fmap_sublist, sublist_filter.
  - intros ev [[Hf Hnr]%andb_true_iff Hev]%list_elem_of_filter. by destruct (Hin ev Hev).
Qed.

(** ** Examples *)

Module SpatialExamples.
(** An expired announcement hides a fresh one with its identifier. *)
Example expired_hides_fresh :
  let old := mk_spatial_event (lit "a") (lit "p") (lit "u4pru") 10 in
  let new := mk_spatial_event (lit "a") (lit "p") (lit "u4pru") 990 in
  filter_geohash_presence_events [old; new] (lit "u4") 1000 100 = [] ∧
  filter_geohash_presence_events [new; old] (lit "u4") 1000 100 = [new].
Proof. by vm_compute. Qed.

Lemma two_places_accepted_witness :
  from_lat_lon [(f64_of_Z 1, f64_of_Z 2); (f64_of_Z 1, f64_of_Z 2); (f64_of_Z 3, f64_of_Z 2)] =
    Ok (mk_geofence [(f64_of_Z 1, f64_of_Z 2); (f64_of_Z 1, f64_of_Z 2); (f64_of_Z 3, f64_of_Z 2); (f64_of_Z 1, f64_of_Z 2)]).
Proof. apply two_places_accepted; vm_compute; exact eq_refl. Defined.
End SpatialExamples.
