(* ===== verification/DatingCore.v ===== *)
(** Compatibility of dating profiles (src/dating-core/src): the scores of the
    single traits, the weighted score with its dealbreakers, the filter, the
    sort and the icebreakers. Scores are binary64 numbers as in the source; the
    JSON entry points, which only parse and print, are left out. *)

From Stdlib Require Import SpecFloat.
From S2P Require Import Prelude RustStr Url Content Json Floats Compat Spatial.

(** [char::is_alphanumeric] and, on ASCII, what it is. *)
Class UnicodeAlnum := { is_alphanumeric : list Z → bool }.
Class UnicodeAlnumLaws `{UnicodeAlnum} : Prop := {
  alnum_ascii b : (0 ≤ b < 128)%Z → is_alphanumeric [b] = is_ascii_digit b || between 0x41 0x5A b || between 0x61 0x7A b
}.

(** ** Profiles *)

(** Source: src/dating-core/src/lib.rs:22-37 (PreferenceWeights) *)
Record PreferenceWeights := mk_weights {
  w_age : option f64; w_height : option f64; w_body_type : option f64; w_interests : option f64; w_smoking : option f64;
  w_drinking : option f64; w_politics : option f64; w_ethnicity : option f64; w_education : option f64; w_language : option f64;
  w_relationship_intent : option f64; w_distance : option f64
}.

(** Source: src/dating-core/src/lib.rs:66-92 (DatingProfileInput) *)
Record DatingProfileInput := mk_profile {
  event_id : option str; pubkey : str; age : option f64; gender : option str; seeking : option str; height : option f64;
  body_type : option str; smoking : option str; drinking : option str; relationship_intent : option str;
  location_geohash : option str; max_distance_km : option f64; interests : option (list (list Z)); politics : option str;
  ethnicity : option str; education : option str; language : option (list (list Z));
  preference_weights : option PreferenceWeights; dealbreakers : option (list (list Z));
  verified_mutual_friends : option (list (list Z)); liked_by_me : option bool; liked_me : option bool;
  liker_total_likes : option Z
}.

(** [..Default::default()]. *)
Definition default_profile : DatingProfileInput :=
  mk_profile None [] None None None None None None None None None None None None None None None None None None None None None.

(** ** Scores of the traits: dating-core/src/scoring *)

Definition one : f64 := f64_of_Z 1.
Definition half : f64 := f64_dec 1 2.
Definition quarter : f64 := f64_dec 1 4.

(** A trait that both have is compared, one that only one has is neutral. *)
Definition both {A} (missing : f64) (score : A → A → f64) (s o : option A) : f64 :=
  match s, o with Some s, Some o => score s o | None, None => missing | _, _ => half end.

(** Source: src/dating-core/src/scoring/metrics.rs:6-21 (score_distance) *)
Definition score_distance (km : f64) : f64 :=
  if negb (f64_is_finite km) || SFltb km f64_zero then half
  else if SFleb km (f64_of_Z 10) then one
  else if SFleb km (f64_of_Z 50) then f64_dec 8 10
  else if SFleb km (f64_of_Z 100) then f64_dec 6 10
  else if SFleb km (f64_of_Z 250) then f64_dec 4 10
  else f64_dec 2 10.

(** Finite, positive and at most [top]. *)
Definition measure_ok (top : Z) (x : f64) : bool := f64_is_finite x && SFltb f64_zero x && SFleb x (f64_of_Z top).

(** Source: src/dating-core/src/scoring/metrics.rs:24-44 (score_age) *)
Definition score_age : option f64 → option f64 → f64 :=
  both one (λ s o,
    if negb (measure_ok 150 s) || negb (measure_ok 150 o) then half
    else
      let diff := SFabs (f64_sub s o) in
      if SFleb diff (f64_of_Z 3) then one
      else if SFleb diff (f64_of_Z 5) then half
      else if SFleb diff (f64_of_Z 10) then quarter
      else f64_zero).

(** Source: src/dating-core/src/scoring/metrics.rs:47-65 (score_height) *)
Definition score_height : option f64 → option f64 → f64 :=
  both one (λ s o,
    if negb (measure_ok 300 s) || negb (measure_ok 300 o) then half
    else
      let diff := SFabs (f64_sub s o) in
      if SFleb diff (f64_of_Z 10) then one else if SFleb diff (f64_of_Z 20) then half else f64_zero).

(** Trimmed, and in lower case. *)
Definition norm (s : str) : str := to_ascii_lowercase (trim s).

(** The neighbours of a value, given as a table. *)
Definition adjacent (table : list (list Z * list (list Z))) (s : str) : list (list Z) :=
  default [] (snd ∘ snd <$> list_find (λ row, row.1 = s) table).

Definition body_types : list (list Z * list (list Z)) :=
  [(lit "slim", [lit "athletic"; lit "average"]); (lit "athletic", [lit "slim"; lit "average"; lit "muscular"]);
   (lit "average", [lit "slim"; lit "athletic"; lit "curvy"]); (lit "curvy", [lit "average"; lit "muscular"]);
   (lit "muscular", [lit "athletic"; lit "average"; lit "curvy"])].

(** Source: src/dating-core/src/scoring/metrics.rs:68-109 (score_body_type) *)
Definition score_body_type : option str → option str → f64 :=
  both one (λ s o,
    let s := norm s in let o := norm o in
    if bool_decide (s = o) then one
    else if bool_decide (o ∈ adjacent body_types s) || bool_decide (s ∈ adjacent body_types o) then half
    else f64_zero).

(** Source: src/dating-core/src/scoring/metrics.rs:112-125 (score_ethnicity) *)
Definition score_ethnicity : option str → option str → f64 :=
  both half (λ s o, if negb (bool_decide (trim s = [])) && eq_ignore_ascii_case (trim s) (trim o) then one else half).

Definition tier (ed : str) : Z :=
  if bool_decide (ed ∈ [lit "some college"; lit "associate"; lit "trade school"]) then 1
  else if bool_decide (ed = lit "bachelor's") then 2
  else if bool_decide (ed = lit "master's") then 3
  else if bool_decide (ed = lit "doctorate") then 4
  else 0.

(** Source: src/dating-core/src/scoring/metrics.rs:128-156 (score_education) *)
Definition score_education : option str → option str → f64 :=
  both half (λ s o,
    let s := norm s in let o := norm o in
    if bool_decide (s = o) then one
    else if (Z.abs (tier s - tier o) <=? 1)%Z then half else quarter).

(** Equal, next to each other in the table, or neither. *)
Definition score_adjacent (table : list (list Z * list (list Z))) (s o : str) : f64 :=
  if bool_decide (s = o) then one else if bool_decide (o ∈ adjacent table s) then half else f64_zero.

Definition smoking_habits : list (list Z * list (list Z)) :=
  [(lit "never", [lit "occasionally"]); (lit "occasionally", [lit "never"; lit "regularly"]); (lit "regularly", [lit "occasionally"])].
Definition drinking_habits : list (list Z * list (list Z)) :=
  [(lit "never", [lit "socially"]); (lit "socially", [lit "never"; lit "regularly"]); (lit "regularly", [lit "socially"])].
Definition political_views : list (list Z * list (list Z)) :=
  [(lit "liberal", [lit "moderate"]); (lit "moderate", [lit "liberal"; lit "conservative"; lit "other"]);
   (lit "conservative", [lit "moderate"; lit "libertarian"]); (lit "libertarian", [lit "conservative"; lit "other"]);
   (lit "other", [lit "moderate"; lit "libertarian"])].

(** Source: src/dating-core/src/scoring/lifestyle.rs:4-31 (score_smoking) *)
Definition score_smoking : option str → option str → f64 := both one (λ s o, score_adjacent smoking_habits (norm s) (norm o)).

(** Source: src/dating-core/src/scoring/lifestyle.rs:34-61 (score_drinking) *)
Definition score_drinking : option str → option str → f64 := both one (λ s o, score_adjacent drinking_habits (norm s) (norm o)).

Definition unsaid : str := lit "prefer not to say".

(** Source: src/dating-core/src/scoring/lifestyle.rs:64-97 (score_politics) *)
Definition score_politics : option str → option str → f64 :=
  both half (λ s o,
    let s := norm s in let o := norm o in
    if bool_decide (s = unsaid) || bool_decide (o = unsaid) then half else score_adjacent political_views s o).

(** Source: src/dating-core/src/scoring/lifestyle.rs:100-119 (score_relationship_intent) *)
Definition score_relationship_intent : option str → option str → f64 :=
  both half (λ s o,
    let s := norm s in let o := norm o in
    let figuring := lit "still figuring out" in
    if bool_decide (s = o) then one
    else if bool_decide (s = figuring) || bool_decide (o = figuring) then half
    else if bool_decide (s = lit "serious") && bool_decide (o = lit "casual") || bool_decide (s = lit "casual") && bool_decide (o = lit "serious")
    then f64_zero
    else half).

(** Source: src/dating-core/src/scoring/interests.rs:6-19 (score_interests) *)
Definition score_interests : option (list (list Z)) → option (list (list Z)) → f64 :=
  both half (λ s o, if bool_decide (s = []) || bool_decide (o = []) then half else jaccard_similarity s o true).

(** Source: src/dating-core/src/scoring/interests.rs:22-24 (score_language) *)
Definition score_language : option (list (list Z)) → option (list (list Z)) → f64 := score_interests.

(** ** The weighted score: dating-core/src/scoring/mod.rs *)

Section scoring.
Context `{UnicodeAlnum}.

(** Source: src/dating-core/src/scoring/mod.rs:13-19 (clamp_weight) *)
Definition clamp_weight (w : f64) : f64 := if f64_is_finite w then f64_clamp f64_zero one w else f64_zero.

Definition alnum_fold (s : str) : str := to_ascii_lowercase (concat (filter (λ c, is_alphanumeric c = true) (chars s))).

(** Source: src/dating-core/src/scoring/mod.rs:38-47 (matches_field) *)
Definition matches_field (dealbreaker field_snake : str) : bool := bool_decide (alnum_fold dealbreaker = alnum_fold field_snake).

(** Source: src/dating-core/src/scoring/mod.rs:49-51 (has_dealbreaker) *)
Definition has_dealbreaker (l : option (list (list Z))) (field_snake : str) : bool :=
  match l with Some l => existsb (λ d, matches_field d field_snake) l | None => false end.

(** A field that is less than perfect and a dealbreaker ends the scoring.
    Source: src/dating-core/src/scoring/mod.rs:63-75 (compute_compatibility_score_inner, check_field) *)
Definition check_field (dealbreakers : option (list (list Z))) (acc : f64 * f64) (field : str * f64 * option f64) : option (f64 * f64) :=
  let '(name, score, w) := field in
  let weight := default one (clamp_weight <$> w) in
  if SFltb score one && has_dealbreaker dealbreakers name then None
  else Some (f64_add acc.1 (f64_mul score weight), f64_add acc.2 weight).

Fixpoint check_fields (dealbreakers : option (list (list Z))) (acc : f64 * f64) (fields : list (str * f64 * option f64)) : option (f64 * f64) :=
  match fields with
  | [] => Some acc
  | f :: fields => acc ← check_field dealbreakers acc f; check_fields dealbreakers acc fields
  end.

(** The fields with their scores and weights, in order.
    Source: src/dating-core/src/scoring/mod.rs:76-137 (compute_compatibility_score_inner, fields) *)
Definition scored_fields (self_p other_p : DatingProfileInput) (distance_km : option f64) : list (str * f64 * option f64) :=
  let w f := preference_weights self_p ≫= f in
  [(lit "age", score_age (age self_p) (age other_p), w w_age);
   (lit "height", score_height (height self_p) (height other_p), w w_height);
   (lit "body_type", score_body_type (body_type self_p) (body_type other_p), w w_body_type);
   (lit "interests", score_interests (interests self_p) (interests other_p), Some (default one (w w_interests)));
   (lit "smoking", score_smoking (smoking self_p) (smoking other_p), w w_smoking);
   (lit "drinking", score_drinking (drinking self_p) (drinking other_p), w w_drinking);
   (lit "politics", score_politics (politics self_p) (politics other_p), w w_politics);
   (lit "ethnicity", score_ethnicity (ethnicity self_p) (ethnicity other_p), w w_ethnicity);
   (lit "education", score_education (education self_p) (education other_p), w w_education);
   (lit "language", score_language (language self_p) (language other_p), w w_language);
   (lit "relationship_intent", score_relationship_intent (relationship_intent self_p) (relationship_intent other_p), w w_relationship_intent)] ++
  match distance_km with Some km => [(lit "distance", score_distance km, w w_distance)] | None => [] end.

(** Source: src/dating-core/src/scoring/mod.rs:138-146 (compute_compatibility_score_inner, average) *)
Definition average_score (total_weighted_score total_weight : f64) : Z :=
  if SFeqb total_weight f64_zero then 50
  else
    let avg := f64_div total_weighted_score total_weight in
    if negb (f64_is_finite avg) then 50 else f64_round_u32 (f64_mul (f64_clamp f64_zero one avg) (f64_of_Z 100)).

(** Source: src/dating-core/src/scoring/mod.rs:53-147 (compute_compatibility_score_inner) *)
Definition compute_compatibility_score_d (self_p other_p : DatingProfileInput) (distance_km : option f64) : Z :=
  match check_fields (dealbreakers self_p) (f64_zero, f64_zero) (scored_fields self_p other_p distance_km) with
  | None => 0
  | Some (total_weighted_score, total_weight) => average_score total_weighted_score total_weight
  end.

(** Source: src/dating-core/src/scoring/mod.rs:21-23 (compute_compatibility_score) *)
Definition compute_compatibility_score (self_p other_p : DatingProfileInput) : Z := compute_compatibility_score_d self_p other_p None.

(** Source: src/dating-core/src/scoring/mod.rs:151-159 (compute_mutual_score_with_distance) *)
Definition compute_mutual_score_with_distance (self_p other_p : DatingProfileInput) (distance_km : option f64) : may_fail Z :=
  let score_self := compute_compatibility_score_d self_p other_p distance_km in
  let score_other := compute_compatibility_score_d other_p self_p distance_km in
  sum ← (if (score_self + score_other <=? u32_max)%Z then Ok (score_self + score_other)%Z else Err Panic);
  Ok (f64_round_u32 (f64_div (f64_of_Z sum) (f64_of_Z 2))).

(** Source: src/dating-core/src/scoring/mod.rs:163-167 (compute_mutual_score) *)
Definition compute_mutual_score (self_p other_p : DatingProfileInput) : may_fail Z := compute_mutual_score_with_distance self_p other_p None.
End scoring.

(** ** The filter: dating-core/src/filter.rs *)

(** Source: src/dating-core/src/lib.rs:254-277 (FilterDatingProfilesInput) *)
Record FilterDatingProfilesInput := mk_filter_input {
  profiles : list DatingProfileInput; own_gender : option str; own_seeking : option str; own_location_geohash : option str;
  own_max_distance_km : option f64; self_contacts : list (list Z); hide_friends : option bool; min_age : option f64;
  max_age : option f64; height_min_cm : option f64; height_max_cm : option f64; want_body_type : option str; want_smoking : option str;
  want_drinking : option str; want_relationship_intent : option str; want_politics : option str; want_education : option str
}.

(** Source: src/dating-core/src/lib.rs:211-216 (FilteredDatingProfileOut) *)
Record FilteredDatingProfileOut := mk_filtered { fo_index : nat; fo_passes : bool; fo_is_contact : bool; fo_mutual_friends : list (list Z) }.

(** Source: src/dating-core/src/lib.rs:19-19 (MAX_PROFILES) *)
Definition MAX_PROFILES : Z := 100000.

Definition GENDERS : list (list Z) := [lit "male"; lit "female"; lit "non-binary"; lit "other"].

(** The genders a preference stands for: any other value for all of them.
    Source: src/dating-core/src/filter.rs:10-16 (filter_dating_profiles, gender_map) *)
Definition gender_map (seeking : str) : list (list Z) :=
  match list_find (λ g, eq_ignore_ascii_case seeking g = true) GENDERS with Some (_, g) => [g] | None => GENDERS end.

(** Source: src/dating-core/src/filter.rs:41-71 (filter_dating_profiles, genders) *)
Definition genders_pass (own_gender own_seeking gender seeking : option str) : bool :=
  match own_seeking with
  | Some s =>
      eq_ignore_ascii_case s (lit "all") ||
      match gender with Some g => existsb (λ m, eq_ignore_ascii_case m g) (gender_map s) | None => false end
  | None => true
  end &&
  match own_gender, seeking with
  | Some own, Some other => existsb (λ m, eq_ignore_ascii_case m own) (gender_map other)
  | _, _ => true
  end.

(** A measure within the bounds asked for; without one when no bound is.
    Source: src/dating-core/src/filter.rs:72-109 (filter_dating_profiles, age and height) *)
Definition measure_passes (lo hi value : option f64) : bool :=
  match lo, hi with
  | None, None => true
  | _, _ =>
      match value with
      | Some v =>
          f64_is_finite v && SFltb f64_zero v &&
          (match lo with Some m => f64_is_finite m && negb (SFltb v m) | None => true end) &&
          (match hi with Some m => f64_is_finite m && negb (SFltb m v) | None => true end)
      | None => false
      end
  end.

(** Source: src/dating-core/src/filter.rs:110-118 (filter_dating_profiles, matches_trait) *)
Definition matches_trait (want value : option str) : bool :=
  match want with
  | Some f =>
      if negb (bool_decide (f = [])) && negb (eq_ignore_ascii_case f (lit "any"))
      then match value with Some v => eq_ignore_ascii_case v f | None => false end
      else true
  | None => true
  end.

(** Source: src/dating-core/src/filter.rs:137-172 (filter_dating_profiles, distance) *)
Definition distance_passes `{Trig, GeohashCrate} (own_coords : option (f64 * f64)) (own_max other_max : option f64) (geohash : option str) : bool :=
  match own_max, other_max with
  | None, None => true
  | _, _ =>
      match own_coords with
      | None => false
      | Some (own_lat, own_lon) =>
          let dist := '(lat, lon) ← geohash ≫= decode_geohash_coords; Some (haversine_km own_lat own_lon lat lon) in
          let within m :=
            match m with
            | None => true
            | Some m => f64_is_finite m && negb (SFltb m f64_zero) &&
                        match dist with Some d => f64_is_finite d && SFleb d m | None => false end
            end in
          within own_max && within other_max
      end
  end.

(** The friends that are also contacts, each once whatever its case.
    Source: src/dating-core/src/filter.rs:176-191 (filter_dating_profiles, mutual_friends) *)
Fixpoint mutual_contacts (contacts seen : gset (list Z)) (friends : list (list Z)) : list (list Z) :=
  match friends with
  | [] => []
  | f :: friends =>
      if bool_decide (norm f ∈ contacts) && negb (bool_decide (norm f ∈ seen))
      then f :: mutual_contacts contacts ({[ norm f ]} ∪ seen) friends
      else mutual_contacts contacts seen friends
  end.

Section filter.
Context `{Trig, GeohashCrate}.

(** Source: src/dating-core/src/filter.rs:35-174 (filter_dating_profiles, passes) *)
Definition profile_passes (input : FilterDatingProfilesInput) (is_contact : bool) (profile : DatingProfileInput) : bool :=
  negb (default false (hide_friends input) && is_contact) &&
  genders_pass (own_gender input) (own_seeking input) (gender profile) (seeking profile) &&
  measure_passes (min_age input) (max_age input) (age profile) &&
  measure_passes (height_min_cm input) (height_max_cm input) (height profile) &&
  matches_trait (want_body_type input) (body_type profile) &&
  matches_trait (want_smoking input) (smoking profile) &&
  matches_trait (want_drinking input) (drinking profile) &&
  matches_trait (want_relationship_intent input) (relationship_intent profile) &&
  matches_trait (want_politics input) (politics profile) &&
  matches_trait (want_education input) (education profile) &&
  distance_passes (own_location_geohash input ≫= decode_geohash_coords) (own_max_distance_km input) (max_distance_km profile)
    (location_geohash profile).

Definition contact_set (contacts : list (list Z)) : gset (list Z) := list_to_set (norm <$> contacts).

(** Source: src/dating-core/src/filter.rs:6-203 (filter_dating_profiles) *)
Definition filter_dating_profiles (input : FilterDatingProfilesInput) : list FilteredDatingProfileOut :=
  if (MAX_PROFILES <? zlen (profiles input))%Z then []
  else
    let contacts := contact_set (self_contacts input) in
    imap (λ i profile,
      let is_contact := bool_decide (norm (pubkey profile) ∈ contacts) in
      let passes := profile_passes input is_contact profile in
      mk_filtered i passes is_contact
        (if passes then mutual_contacts contacts ∅ (default [] (verified_mutual_friends profile)) else [])) (profiles input).
End filter.

(** ** The sort: dating-core/src/sort.rs *)

(** Source: src/dating-core/src/lib.rs:198-207 (SortedProfileOut) *)
Record SortedProfileOut := mk_sorted {
  so_event_id : option str; so_pubkey : str; so_compatibility_score : Z; so_mutual_friends : list (list Z); so_distance : Z;
  so_liked_by_me : bool; so_liked_me : bool; so_liker_total_likes : Z
}.

(** Source: src/dating-core/src/lib.rs:241-249 (SortProfilesInput) *)
Record SortProfilesInput := mk_sort_input {
  si_profiles : list DatingProfileInput; si_self_profile : DatingProfileInput; si_self_contacts : list (list Z); si_sort_by : option str
}.

(** What is sorted: a result with the age, the height and the distance. *)
Record scored := mk_scored { sc_out : SortedProfileOut; sc_age : option f64; sc_height : option f64; sc_distance : f64 }.

Definition then_cmp (c d : comparison) : comparison := match c with Eq => d | c => c end.

Definition bool_cmp (a b : bool) : comparison := match a, b with false, true => Lt | true, false => Gt | _, _ => Eq end.

(** A missing value comes last. *)
Definition opt_cmp (cmp : f64 → f64 → comparison) (x y : option f64) : comparison :=
  match x, y with Some x, Some y => cmp x y | None, Some _ => Gt | Some _, None => Lt | None, None => Eq end.

(** Source: src/dating-core/src/sort.rs:99-113 (sort_dating_profiles, default order) *)
Definition rank_cmp (a b : scored) : comparison :=
  then_cmp (Z.compare (so_compatibility_score (sc_out b)) (so_compatibility_score (sc_out a)))
  (then_cmp (bool_cmp (so_liked_me (sc_out b)) (so_liked_me (sc_out a)))
  (then_cmp (Z.compare (so_liker_total_likes (sc_out b)) (so_liker_total_likes (sc_out a)))
            (Z.compare (so_distance (sc_out a)) (so_distance (sc_out b))))).

(** Source: src/dating-core/src/sort.rs:82-114 (sort_dating_profiles, orders) *)
Definition order_of (sort_by : option str) : scored → scored → comparison :=
  match sort_by with
  | Some o =>
      if bool_decide (o = lit "age") then λ a b, opt_cmp f64_cmp (sc_age a) (sc_age b)
      else if bool_decide (o = lit "height") then λ a b, opt_cmp (λ x y, f64_cmp y x) (sc_height a) (sc_height b)
      else if bool_decide (o = lit "distance") then λ a b, f64_cmp (sc_distance a) (sc_distance b)
      else rank_cmp
  | None => rank_cmp
  end.

Section sort.
Context `{Trig, GeohashCrate, RustSort, UnicodeAlnum}.

(** The distance, and whether it is one: without the places a contact counts
    as 1, anyone else as 2.
    Source: src/dating-core/src/sort.rs:46-54 (sort_dating_profiles, distance) *)
Definition profile_distance (contacts : gset (list Z)) (self_p profile : DatingProfileInput) : f64 * bool :=
  match location_geohash self_p ≫= decode_geohash_coords, location_geohash profile ≫= decode_geohash_coords with
  | Some (lat1, lon1), Some (lat2, lon2) => (haversine_km lat1 lon1 lat2 lon2, true)
  | _, _ => (f64_of_Z (if bool_decide (norm (pubkey profile) ∈ contacts) then 1 else 2), false)
  end.

(** Source: src/dating-core/src/sort.rs:29-81 (sort_dating_profiles, scoring) *)
Definition score_profile (contacts : gset (list Z)) (self_p : DatingProfileInput) (profile : DatingProfileInput) : may_fail scored :=
  let friends := mutual_contacts contacts ∅ (default [] (verified_mutual_friends profile)) in
  let '(distance_km, known) := profile_distance contacts self_p profile in
  score ← compute_mutual_score_with_distance self_p profile (if (known : bool) then Some distance_km else None);
  let distance_u32 := if f64_is_finite distance_km && SFleb f64_zero distance_km then f64_round_u32 distance_km else 0%Z in
  Ok (mk_scored
        (mk_sorted (event_id profile) (pubkey profile) score friends distance_u32 (default false (liked_by_me profile))
           (default false (liked_me profile)) (default 0%Z (liker_total_likes profile)))
        (age profile) (height profile) distance_km).

(** Source: src/dating-core/src/sort.rs:11-116 (sort_dating_profiles) *)
Definition sort_dating_profiles (input : SortProfilesInput) : may_fail (list SortedProfileOut) :=
  if (MAX_PROFILES <? zlen (si_profiles input))%Z then Ok []
  else
    results ← mapM (score_profile (contact_set (si_self_contacts input)) (si_self_profile input)) (si_profiles input);
    Ok (sc_out <$> sort_by (order_of (si_sort_by input)) results).
End sort.

(** ** Icebreakers: dating-core/src/icebreaker.rs *)

(** The shared items, trimmed, each once, in the order of the first list.
    Source: src/dating-core/src/icebreaker.rs:36-48 (generate_icebreakers, shared) *)
Fixpoint shared_items (peer : list (list Z)) (seen : gset (list Z)) (l : list (list Z)) : list (list Z) :=
  match l with
  | [] => []
  | s :: l =>
      let t := trim s in
      if negb (bool_decide (t = [])) && existsb (λ p, eq_ignore_ascii_case (trim p) t) peer && negb (bool_decide (to_ascii_lowercase t ∈ seen))
      then t :: shared_items peer ({[ to_ascii_lowercase t ]} ∪ seen) l
      else shared_items peer seen l
  end.

Definition shared (s p : option (list (list Z))) : list (list Z) :=
  match s, p with Some s, Some p => shared_items p ∅ s | _, _ => [] end.

(** Source: src/dating-core/src/icebreaker.rs:26-99 (generate_icebreakers) *)
Definition generate_icebreakers (self_p peer_p : DatingProfileInput) : list (list Z) :=
  match shared (interests self_p) (interests peer_p) with
  | [] => []
  | [a] => [lit "I notice we both love " ++ a ++ lit "! How did you get into that?"]
  | a :: b :: _ => [lit "I notice we both love " ++ a ++ lit " and " ++ b ++ lit "! How did you get into that?"]
  end ++
  [lit "Hey! Nice to match with you."; lit "What's your favorite way to spend a weekend?"] ++
  match relationship_intent self_p, relationship_intent peer_p with
  | Some s, Some p =>
      if negb (bool_decide (trim s = [])) && eq_ignore_ascii_case (trim s) (trim p)
      then [lit "It's awesome that we're both looking for " ++ trim s ++ lit ". What does that mean to you?"] else []
  | _, _ => []
  end ++
  match shared (language self_p) (language peer_p) with
  | [] => []
  | a :: _ => [lit "We both speak " ++ a ++ lit "!"]
  end.

(** ** Bounds *)

Lemma one_valid : valid_binary 53 1024 one = true.
Proof. by vm_compute. Qed.

Lemma clamp_unit x : f64_is_nan x = false → f64_within f64_zero one (f64_clamp f64_zero one x) = true.
Proof.
  unfold f64_clamp, f64_within. intros Hn.
  assert (Hflip : ∀ a b, f64_is_nan a = false → f64_is_nan b = false → SFltb a b = false → SFleb b a = true).
  { clear. intros a b Ha Hb. unfold SFltb, SFleb.
    assert (SFcompare b a = CompOpp <$> SFcompare a b) as ->.
    { destruct a as [[]|[]| |[] m e], b as [[]|[]| |[] m' e']; try done; cbn [SFcompare fmap option_fmap option_map]; rewrite (Z.compare_antisym e e');
        destruct (e ?= e')%Z; cbn [CompOpp]; try done; change (Pos.compare_cont Eq m' m) with (Pos.compare m' m);
        change (Pos.compare_cont Eq m m') with (Pos.compare m m'); by rewrite (Pos.compare_antisym m m'). }
    destruct (SFcompare a b) as [[]|] eqn:E; try done.
    by destruct a as [[]|[]| |[] m e], b as [[]|[]| |[] m' e']. }
  destruct (SFltb x f64_zero) eqn:E0; [by vm_compute|]. destruct (SFltb one x) eqn:E1; [by vm_compute|].
  apply andb_true_iff. split; by apply Hflip.
Qed.

Lemma average_bounds tws tw : (0 ≤ average_score tws tw ≤ 100)%Z.
Proof.
  unfold average_score. destruct (SFeqb tw f64_zero); [lia|]. destruct (f64_is_finite _) eqn:Hf; [|cbn [negb]; lia]. cbn [negb].
  apply (f64_scaled_round _ 100); [|apply clamp_unit; by destruct (f64_div tws tw)|lia].
  apply f64_clamp_valid; [done|apply one_valid|apply f64_div_valid].
Qed.

Lemma halves_small n : (0 ≤ n ≤ 200)%Z → (0 ≤ f64_round_u32 (f64_div (f64_of_Z n) (f64_of_Z 2)) ≤ 100)%Z.
Proof.
  assert (Hall : forallb (λ n, (0 <=? f64_round_u32 (f64_div (f64_of_Z n) (f64_of_Z 2)))%Z &&
                               (f64_round_u32 (f64_div (f64_of_Z n) (f64_of_Z 2)) <=? 100)%Z) (seqZ 0 201) = true) by (by vm_compute).
  intros Hn. rewrite forallb_forall in Hall. assert (Hin : In n (seqZ 0 201)) by (apply list_elem_of_In, elem_of_seqZ; lia).
  apply Hall, andb_true_iff in Hin as [H1%Z.leb_le H2%Z.leb_le]. by split.
Qed.

Section laws.
Context `{UnicodeAlnum}.

Lemma score_bounds a b d : (0 ≤ compute_compatibility_score_d a b d ≤ 100)%Z.
Proof. unfold compute_compatibility_score_d. destruct (check_fields _ _ _) as [[tws tw]|]; [apply average_bounds|lia]. Qed.

Lemma mutual_total a b d : ∃ n, compute_mutual_score_with_distance a b d = Ok n ∧ (0 ≤ n ≤ 100)%Z.
Proof.
  pose proof (score_bounds a b d). pose proof (score_bounds b a d). unfold compute_mutual_score_with_distance.
  set (n := (compute_compatibility_score_d a b d + compute_compatibility_score_d b a d)%Z) in *.
  assert (Hn : (0 ≤ n ≤ 200)%Z) by lia. rewrite (proj2 (Z.leb_le _ _)) by (unfold u32_max; lia). cbn [mbind result_bind].
  eexists. split; [done|]. by apply halves_small.
Qed.

(** Whatever two profiles hold, weights that are negative, huge, infinite
    or no numbers included, their mutual score exists, is between 0 and 100,
    and does not depend on which of the two asks. *)
Theorem mutual_score_sound a b d :
  ∃ n, compute_mutual_score_with_distance a b d = Ok n ∧ compute_mutual_score_with_distance b a d = Ok n ∧ (0 ≤ n ≤ 100)%Z.
Proof.
  destruct (mutual_total a b d) as (n & E & Hn). exists n. split; [done|]. split; [|done]. rewrite <-E.
  unfold compute_mutual_score_with_distance. by rewrite Z.add_comm.
Qed.

(** ** Dealbreakers *)

Lemma check_fields_in db fields acc out name score w :
  check_fields db acc fields = Some out → (name, score, w) ∈ fields → has_dealbreaker db name = true → SFltb score one = false.
Proof.
  revert acc. induction fields as [|f fields IH]; intros acc Hc Hin Hd; [set_solver|]. cbn [check_fields] in Hc.
  destruct (check_field db acc f) as [acc'|] eqn:Hf; [|done]. apply elem_of_cons in Hin as [<-|Hin]; [|by eapply IH].
  unfold check_field in Hf. rewrite Hd, andb_true_r in Hf. by destruct (SFltb score one).
Qed.

(** One declared field that is less than perfect makes the score zero. *)
Theorem dealbreaker_rejects a b d name score w :
  (name, score, w) ∈ scored_fields a b d → has_dealbreaker (dealbreakers a) name = true → SFltb score one = true →
  compute_compatibility_score_d a b d = 0%Z.
Proof.
  intros Hin Hd Hs. unfold compute_compatibility_score_d. destruct (check_fields _ _ _) as [[tws tw]|] eqn:Hc; [|done].
  rewrite (check_fields_in _ _ _ _ _ _ _ Hc Hin Hd) in Hs. done.
Qed.

(** Yet the mutual score of a rejected profile is half of what the other side
    gives. *)
Theorem rejected_keeps_half a b d :
  compute_compatibility_score_d a b d = 0%Z →
  compute_mutual_score_with_distance a b d = Ok (f64_round_u32 (f64_div (f64_of_Z (compute_compatibility_score_d b a d)) (f64_of_Z 2))).
Proof.
  intros H0. pose proof (score_bounds b a d). unfold compute_mutual_score_with_distance. rewrite H0, Z.add_0_l.
  rewrite (proj2 (Z.leb_le _ _)) by (unfold u32_max; lia). done.
Qed.

(** ** Symmetry *)

Lemma binary_round_aux_abs s m e l : SFabs (binary_round_aux 53 1024 s m e l) = SFabs (binary_round_aux 53 1024 false m e l).
Proof.
  unfold binary_round_aux. destruct (shr_fexp _ _ _ _ _) as [r e1]. destruct (shr_fexp _ _ _ _ _) as [r2 e2].
  destruct (shr_m r2); [done| |done]. by destruct (_ <=? _)%Z.
Qed.
Lemma normalize_abs m e z : SFabs (binary_normalize 53 1024 m e z) = SFabs (binary_normalize 53 1024 (- m) e z).
Proof.
  destruct m as [|p|p]; [done| |]; unfold binary_normalize, Z.opp, binary_round; destruct (shl_align _ _ _) as [mz ez].
  - by rewrite (binary_round_aux_abs true).
  - by rewrite (binary_round_aux_abs true).
Qed.

(** The distance of two numbers does not depend on their order. *)
Lemma abs_sub_comm x y : SFabs (f64_sub x y) = SFabs (f64_sub y x).
Proof.
  unfold f64_sub. destruct x as [[]|[]| |s m e], y as [[]|[]| |s' m' e']; try done. unfold SFsub.
  rewrite (Z.min_comm e' e), normalize_abs. do 2 f_equal. lia.
Qed.

Lemma both_comm {A} missing (score : A → A → f64) s o : (∀ s o, score s o = score o s) → both missing score s o = both missing score o s.
Proof. intros Hc. unfold both. destruct s, o; [apply Hc|done..]. Qed.

(** A table in which every neighbour lists the value back. *)
Definition table_symmetric (table : list (list Z * list (list Z))) : bool :=
  forallb (λ row, forallb (λ o, bool_decide (row.1 ∈ adjacent table o)) row.2) table.

Lemma adjacent_sym table s o : table_symmetric table = true → o ∈ adjacent table s → s ∈ adjacent table o.
Proof.
  unfold table_symmetric. intros Ht Hin. rewrite forallb_forall in Ht. unfold adjacent in Hin.
  destruct (list_find _ table) as [[i [s' l]]|] eqn:Hf; [|cbn in Hin; set_solver].
  apply list_find_Some in Hf as (Hrow & Hs & _). cbn in Hs, Hin. subst s'.
  assert (Hr := Ht (s, l) ltac:(by apply list_elem_of_In, list_elem_of_lookup; eauto)). cbn [fst snd] in Hr.
  rewrite forallb_forall in Hr. specialize (Hr o ltac:(by apply list_elem_of_In)). by apply bool_decide_eq_true in Hr.
Qed.

Lemma score_adjacent_comm table s o : table_symmetric table = true → score_adjacent table s o = score_adjacent table o s.
Proof.
  intros Ht. unfold score_adjacent. rewrite (bool_decide_ext (s = o) (o = s)) by done.
  by rewrite (bool_decide_ext (o ∈ adjacent table s) (s ∈ adjacent table o)) by (split; by apply adjacent_sym).
Qed.

Lemma eq_dec_comm {A} `{EqDecision A} (x y : A) : bool_decide (x = y) = bool_decide (y = x).
Proof. by apply bool_decide_ext. Qed.

Lemma eq_ignore_case_comm a b : eq_ignore_ascii_case a b = eq_ignore_ascii_case b a.
Proof. apply eq_true_iff_eq. rewrite !eq_ignore_ascii_case_true. split; congruence. Qed.

Lemma score_age_comm s o : score_age s o = score_age o s.
Proof. apply both_comm. intros x y. by rewrite abs_sub_comm, orb_comm. Qed.
Lemma score_height_comm s o : score_height s o = score_height o s.
Proof. apply both_comm. intros x y. by rewrite abs_sub_comm, orb_comm. Qed.
Lemma score_body_type_comm s o : score_body_type s o = score_body_type o s.
Proof. apply both_comm. intros x y. cbv zeta. by rewrite (eq_dec_comm (norm x)), orb_comm. Qed.
Lemma score_interests_comm s o : score_interests s o = score_interests o s.
Proof. apply both_comm. intros x y. by rewrite orb_comm, jaccard_symmetric. Qed.
Lemma score_smoking_comm s o : score_smoking s o = score_smoking o s.
Proof. apply both_comm. intros x y. by apply score_adjacent_comm. Qed.
Lemma score_drinking_comm s o : score_drinking s o = score_drinking o s.
Proof. apply both_comm. intros x y. by apply score_adjacent_comm. Qed.
Lemma score_politics_comm s o : score_politics s o = score_politics o s.
Proof. apply both_comm. intros x y. cbv zeta. rewrite orb_comm, score_adjacent_comm by done. done. Qed.
Lemma score_ethnicity_comm s o : score_ethnicity s o = score_ethnicity o s.
Proof.
  apply both_comm. intros x y. rewrite (eq_ignore_case_comm (trim x)).
  destruct (eq_ignore_ascii_case (trim y) (trim x)) eqn:E; [|by rewrite !andb_false_r].
  apply eq_ignore_ascii_case_true in E. unfold to_ascii_lowercase in E.
  by rewrite (bool_decide_ext (trim x = []) (trim y = [])) by (destruct (trim x), (trim y); done).
Qed.
Lemma score_education_comm s o : score_education s o = score_education o s.
Proof.
  apply both_comm. intros x y. cbv zeta. rewrite (eq_dec_comm (norm x)).
  by replace (Z.abs (tier (norm x) - tier (norm y))) with (Z.abs (tier (norm y) - tier (norm x))) by lia.
Qed.
Lemma score_intent_comm s o : score_relationship_intent s o = score_relationship_intent o s.
Proof.
  apply both_comm. intros x y. cbv zeta. rewrite (eq_dec_comm (norm x) (norm y)), orb_comm.
  by rewrite (orb_comm (bool_decide (norm x = lit "serious") && _)), (andb_comm (bool_decide (norm x = lit "casual"))),
    (andb_comm (bool_decide (norm x = lit "serious"))).
Qed.

(** Every trait scores the same whoever asks. *)
Theorem scores_symmetric a b d : (scored_fields a b d).*1 = (scored_fields b a d).*1.
Proof.
  unfold scored_fields, score_language.
  rewrite (score_age_comm (age a)), (score_height_comm (height a)), (score_body_type_comm (body_type a)), (score_interests_comm (interests a)),
    (score_smoking_comm (smoking a)), (score_drinking_comm (drinking a)), (score_politics_comm (politics a)), (score_ethnicity_comm (ethnicity a)),
    (score_education_comm (education a)), (score_interests_comm (language a)), (score_intent_comm (relationship_intent a)).
  by destruct d.
Qed.

(** Profiles with the same preferences score each other the same. *)
Theorem same_preferences_symmetric a b d :
  preference_weights a = preference_weights b → dealbreakers a = dealbreakers b →
  compute_compatibility_score_d a b d = compute_compatibility_score_d b a d.
Proof.
  intros Hw Hd. unfold compute_compatibility_score_d, scored_fields, score_language. rewrite Hd, Hw.
  rewrite (score_age_comm (age a)), (score_height_comm (height a)), (score_body_type_comm (body_type a)), (score_interests_comm (interests a)),
    (score_smoking_comm (smoking a)), (score_drinking_comm (drinking a)), (score_politics_comm (politics a)), (score_ethnicity_comm (ethnicity a)),
    (score_education_comm (education a)), (score_interests_comm (language a)), (score_intent_comm (relationship_intent a)).
  done.
Qed.

(** A weight above one counts as one. *)
Lemma clamp_weight_big w : f64_is_finite w = true → SFleb one w = true → clamp_weight w = one.
Proof.
  intros Hf Hw. unfold clamp_weight, f64_clamp. rewrite Hf.
  assert (SFltb w f64_zero = false) as -> by (destruct w as [[]|[]| |[] m e]; done).
  destruct (SFltb one w) eqn:E; [done|]. unfold SFleb, SFltb in *.
  assert (Hone : one = S754_finite false 4503599627370496 (-52)) by (by vm_compute). rewrite Hone in *.
  destruct w as [s|s| |s m e]; [done..|]. cbn [SFcompare] in *. destruct s; [done|].
  destruct (Z.compare_spec (-52) e) as [<-|He|He]; [|done|done].
  change (Pos.compare_cont Eq 4503599627370496 m) with (Pos.compare 4503599627370496 m) in *.
  by destruct (Pos.compare_spec 4503599627370496 m) as [<-| |].
Qed.
End laws.

(** ** The filter *)

Definition known_gender (g : str) : Prop := ∃ m, m ∈ GENDERS ∧ eq_ignore_ascii_case m g = true.

Lemma gender_map_in seeking m : m ∈ gender_map seeking → m ∈ GENDERS.
Proof.
  unfold gender_map. destruct (list_find _ _) as [[i g]|] eqn:E; [|done]. apply list_find_Some in E as (Hg & _ & _).
  rewrite list_elem_of_singleton. intros ->. by apply list_elem_of_lookup_2 in Hg.
Qed.

(** Of profiles that say their gender and whom they seek, the one passes the
    gender check of the other exactly when the other passes its own. *)
Theorem genders_mutual g1 s1 g2 s2 :
  known_gender g1 → known_gender g2 →
  genders_pass (Some g1) (Some s1) (Some g2) (Some s2) = genders_pass (Some g2) (Some s2) (Some g1) (Some s1).
Proof.
  intros H1 H2. unfold genders_pass.
  assert (Hall : ∀ s g, known_gender g →
    eq_ignore_ascii_case s (lit "all") || existsb (λ m, eq_ignore_ascii_case m g) (gender_map s) = existsb (λ m, eq_ignore_ascii_case m g) (gender_map s)).
  { intros s g (m & Hm & Hg). destruct (eq_ignore_ascii_case s (lit "all")) eqn:Ha; [|done]. symmetry. apply existsb_exists. exists m.
    split; [|done]. apply list_elem_of_In. unfold gender_map. apply eq_ignore_ascii_case_true in Ha.
    destruct (list_find _ _) as [[i x]|] eqn:E; [|done]. exfalso. apply list_find_Some in E as (Hx & He & _).
    apply eq_ignore_ascii_case_true in He. rewrite Ha in He. clear -Hx He. do 4 (destruct i as [|i]; [by injection Hx as <-|]). done. }
  rewrite !Hall by done. apply andb_comm.
Qed.

Section filter_laws.
Context `{Trig, GeohashCrate}.

(** Where a distance is asked for, by either side, only profiles pass whose
    place is known and near. *)
Theorem distance_pass_known own own_max other_max g :
  is_Some own_max ∨ is_Some other_max → distance_passes own own_max other_max g = true →
  ∃ lat lon lat2 lon2, own = Some (lat, lon) ∧ g ≫= decode_geohash_coords = Some (lat2, lon2) ∧
    (∀ m, own_max = Some m ∨ other_max = Some m → SFleb (haversine_km lat lon lat2 lon2) m = true).
Proof.
  intros Hsome. unfold distance_passes. set (dist := g ≫= decode_geohash_coords).
  assert (Hw : match own with None => false | Some (own_lat, own_lon) =>
    let d := '(lat, lon) ← dist; Some (haversine_km own_lat own_lon lat lon) in
    let within m := match m with None => true | Some m => f64_is_finite m && negb (SFltb m f64_zero) &&
      match d with Some d => f64_is_finite d && SFleb d m | None => false end end in within own_max && within other_max end = true →
    ∃ lat lon lat2 lon2, own = Some (lat, lon) ∧ dist = Some (lat2, lon2) ∧
      (∀ m, own_max = Some m ∨ other_max = Some m → SFleb (haversine_km lat lon lat2 lon2) m = true)).
  { destruct own as [[lat lon]|]; [|done]. destruct dist as [[lat2 lon2]|]; cbn [mbind option_bind].
    - intros [Ho Ht]%andb_true_iff. exists lat, lon, lat2, lon2. split_and!; [done|done|]. intros m [->| ->].
      + by apply andb_true_iff in Ho as [_ [_ ?]%andb_true_iff].
      + by apply andb_true_iff in Ht as [_ [_ ?]%andb_true_iff].
    - intros [Ho Ht]%andb_true_iff. exfalso. destruct Hsome as [[m ->]|[m ->]]; [by rewrite andb_false_r in Ho|by rewrite andb_false_r in Ht]. }
  intros Hp. apply Hw. destruct own_max, other_max; [done..|]. by destruct Hsome as [[? ?]|[? ?]].
Qed.

Context `{RustSort, UnicodeAlnum}.

Lemma then_cmp_total {A} (c d : A → A → comparison) : total_order c → total_order d → total_order (λ x y, then_cmp (c x y) (d x y)).
Proof.
  intros [Hc1 Hc2] [Hd1 Hd2]. split; [intros x y; rewrite Hc1, Hd1; by destruct (c x y)|]. intros x y z. unfold then_cmp.
  pose proof (Hc2 x y z) as Hxyz. pose proof (Hc1 x z). pose proof (Hc1 y x). pose proof (Hc1 z y). pose proof (Hc1 x y). pose proof (Hc1 y z). pose proof (Hc1 z x).
  pose proof (Hc2 z x y). pose proof (Hc2 y z x). pose proof (Hc2 z y x). pose proof (Hd2 x y z).
  destruct (c x y), (c y z), (c x z), (c y x), (c z y), (c z x); cbn in *; naive_solver.
Qed.

Lemma key_total {A} (key : A → Z) : total_order (λ x y, Z.compare (key x) (key y)) ∧ total_order (λ x y, Z.compare (key y) (key x)).
Proof.
  split; (split; [intros x y; by rewrite Z.compare_antisym|]); intros x y z; rewrite ?Z.compare_gt_iff; intros Hxy Hyz Hxz; lia.
Qed.

Lemma rank_total : total_order rank_cmp.
Proof.
  unfold rank_cmp. apply (then_cmp_total (λ a b, Z.compare (so_compatibility_score (sc_out b)) (so_compatibility_score (sc_out a)))).
  { apply (key_total (λ a, so_compatibility_score (sc_out a))). }
  apply (then_cmp_total (λ a b, bool_cmp (so_liked_me (sc_out b)) (so_liked_me (sc_out a)))).
  { split; [intros x y; by destruct (so_liked_me (sc_out x)), (so_liked_me (sc_out y))|].
    intros x y z. by destruct (so_liked_me (sc_out x)), (so_liked_me (sc_out y)), (so_liked_me (sc_out z)). }
  apply (then_cmp_total (λ a b, Z.compare (so_liker_total_likes (sc_out b)) (so_liker_total_likes (sc_out a)))).
  { apply (key_total (λ a, so_liker_total_likes (sc_out a))). }
  apply (key_total (λ a, so_distance (sc_out a))).
Qed.

Lemma score_profile_pubkey contacts self_p p s : score_profile contacts self_p p = Ok s → so_pubkey (sc_out s) = pubkey p.
Proof.
  unfold score_profile. destruct (profile_distance _ _ _) as [km known]. intros Hs. by inv_ok.
Qed.

Lemma mapM_ok {A B} (f : A → may_fail B) l ks : mapM f l = Ok ks → Forall2 (λ x y, f x = Ok y) l ks.
Proof.
  revert ks. induction l as [|x l IH]; intros ks; cbn [mapM]; intros Hm.
  - injection Hm as <-. constructor.
  - inv_ok. match goal with H : mret _ = Ok _ |- _ => injection H as <- end. constructor; [done|by apply IH].
Qed.

(** The sort returns every profile once, however it orders them, and by the
    default order the higher scores first. *)
Theorem sort_profiles_spec input out :
  (zlen (si_profiles input) <= MAX_PROFILES)%Z → sort_dating_profiles input = Ok out →
  so_pubkey <$> out ≡ₚ pubkey <$> si_profiles input ∧
  (si_sort_by input = None → StronglySorted (λ x y, (so_compatibility_score y <= so_compatibility_score x)%Z) out).
Proof.
  unfold sort_dating_profiles. intros Hl. rewrite (proj2 (Z.ltb_ge _ _)) by lia. intros Hs.
  destruct (mapM _ _) as [results|] eqn:Hm; [|done]. injection Hs as <-. split.
  - rewrite sort_by_perm, <-list_fmap_compose. apply mapM_ok in Hm. match goal with |- ?a ≡ₚ ?b => enough (a = b) as -> by done end.
    clear Hl. induction Hm as [|p s ps ss Hp Hps IH]; [done|]. rewrite !fmap_cons, IH. f_equal. by eapply score_profile_pubkey.
  - intros Hso. rewrite Hso. eapply (StronglySorted_fmap _ (λ x y, rank_cmp x y ≠ Gt)); [|apply sort_by_sorted, rank_total].
    intros x y. unfold rank_cmp, then_cmp. cbn beta.
    destruct (Z.compare_spec (so_compatibility_score (sc_out y)) (so_compatibility_score (sc_out x))); [lia|lia|done].
Qed.

Lemma score_profile_total contacts self_p p : ∃ s, score_profile contacts self_p p = Ok s.
Proof.
  unfold score_profile. destruct (profile_distance _ _ _) as [km known].
  destruct (mutual_total self_p p (if known then Some km else None)) as (n & -> & _). by eexists.
Qed.

(** The sort does not fail. *)
Lemma sort_profiles_total input : ∃ out, sort_dating_profiles input = Ok out.
Proof.
  unfold sort_dating_profiles. destruct (_ <? _)%Z; [by eexists|].
  assert (Hall : ∀ ps, ∃ out, mapM (score_profile (contact_set (si_self_contacts input)) (si_self_profile input)) ps = Ok out).
  { induction ps as [|p ps [ks IH]]; [by eexists|]. destruct (score_profile_total (contact_set (si_self_contacts input)) (si_self_profile input) p) as [s Hs].
    exists (s :: ks). cbn [mapM]. by rewrite Hs, IH. }
  destruct (Hall (si_profiles input)) as [ks ->]. by eexists.
Qed.
End filter_laws.
