(* ===== verification/Dating.v ===== *)
(** Dating: src/flutter-bridge/src/ffi/dating.rs over the repositories of
    db-core (post, reaction, dating_unmatch, block, spam_report) and the rules
    of src/dating-core. Profiles are posts whose content is a JSON object;
    likes and passes are reactions to the profile event. Every call that
    changes state is an action; clocks, random names and the authors of an
    audience are arguments. The stream of profiles is left out, and of the SQL
    engine's errors all but the foreign key of the blocks. *)

From Stdlib Require Import SpecFloat.
From S2P Require Import Url Content Prelude RustStr Text Primitives Sql Json Floats Compat Spatial DatingCore Act Store Outbox.

(** Source: src/common-core/src/consts.rs:2-2 (KIND_PROFILE) *)
Definition KIND_PROFILE : Z := 30082.
(** Source: src/flutter-bridge/src/ffi/dating.rs:14-14 (D_TAG) *)
Definition D_TAG : str := lit "dating_profile".

(** ** State *)

(** Source: src/db-core/src/repos/spam_report.rs:69-77 (SpamReportRow) *)
Record SpamReportRow := mk_report {
  rep_id : str; rep_pubkey : str; rep_target_id : option str; rep_target_pubkey : option str; rep_reason : option str;
  rep_tags : str; rep_created_at : Z
}.

(** The tables, the queue of events to send and the unlocked identity. Blocks
    are keyed by the blocking and the blocked account, unmatches by the actor
    and the other, views by the viewer and the post. *)
Record dating := mk_dating {
  dat_db : db;
  dat_unmatches : gmap (str * str) Z;
  dat_blocks : gmap (str * str) Z;
  dat_reports : gmap str SpamReportRow;
  dat_views : gmap (str * str) Z;
  dat_outbox : outbox;
  dat_signer : option str
}.

Definition dat_on_db f (s : dating) :=
  mk_dating (f (dat_db s)) (dat_unmatches s) (dat_blocks s) (dat_reports s) (dat_views s) (dat_outbox s) (dat_signer s).
Definition on_unmatches f (s : dating) :=
  mk_dating (dat_db s) (f (dat_unmatches s)) (dat_blocks s) (dat_reports s) (dat_views s) (dat_outbox s) (dat_signer s).
Definition on_blocks f (s : dating) :=
  mk_dating (dat_db s) (dat_unmatches s) (f (dat_blocks s)) (dat_reports s) (dat_views s) (dat_outbox s) (dat_signer s).
Definition on_reports f (s : dating) :=
  mk_dating (dat_db s) (dat_unmatches s) (dat_blocks s) (f (dat_reports s)) (dat_views s) (dat_outbox s) (dat_signer s).
Definition on_outbox f (s : dating) :=
  mk_dating (dat_db s) (dat_unmatches s) (dat_blocks s) (dat_reports s) (dat_views s) (f (dat_outbox s)) (dat_signer s).

Abbreviation call A := (act dating A) (only parsing).

(** What the component takes from elsewhere: JSON, the positions, the sorts,
    the signing of an event (its identifier and its JSON), the order of equal
    rows, compression and the sealing of what is queued. *)
Class DatingEnv := {
  dat_json :: JsonText;
  dat_trig :: Trig;
  dat_geohash :: GeohashCrate;
  dat_sort :: RustSort;
  dat_alnum :: UnicodeAlnum;
  dat_zstd :: Zstd;
  dat_sign : str → Z → list (list (list Z)) → str → may_fail (str * str);
  dat_seal : str → may_fail str;
  dat_posts_order :: OrderBy (desc (λ p, pst_created_at (post_row p)));
  dat_reactions_order :: OrderBy (desc rct_created_at);
  dat_any_order :: OrderBy (λ _ _ : Post, True)
}.

(** ** The repositories *)

(** Source: src/db-core/src/repos/dating_unmatch.rs:11-21 (DatingUnmatchRepo::upsert) *)
Definition unmatch_upsert (actor pubkey : str) (at_ : Z) (t : gmap (str * str) Z) : gmap (str * str) Z :=
  <[(clean actor, clean pubkey) := at_]> t.

(** Source: src/db-core/src/repos/dating_unmatch.rs:23-34 (DatingUnmatchRepo::is_unmatched) *)
Definition is_unmatched (actor pubkey : str) (t : gmap (str * str) Z) : bool := bool_decide (is_Some (t !! (clean actor, clean pubkey))).

(** Source: src/db-core/src/repos/dating_unmatch.rs:36-46 (DatingUnmatchRepo::delete) *)
Definition unmatch_delete (actor pubkey : str) (t : gmap (str * str) Z) : gmap (str * str) Z := delete (clean actor, clean pubkey) t.

(** The row is written anew; its account must be among the users.
    Source: src/db-core/src/repos/block.rs:11-28 (BlockRepo::upsert) *)
Definition block_upsert (pubkey blocked : str) (created_at : Z) : call unit :=
  _ ← writes (on_blocks (delete (clean pubkey, clean blocked)));
  known ← reads (λ s, bool_decide (is_Some (users (dat_db s) !! clean pubkey)));
  _ ← guard_else known "FOREIGN KEY constraint failed";
  writes (on_blocks (insert (clean pubkey, clean blocked) created_at)).

(** Source: src/db-core/src/repos/block.rs:30-41 (BlockRepo::is_blocked) *)
Definition is_blocked (pubkey blocked : str) (t : gmap (str * str) Z) : bool := bool_decide (is_Some (t !! (clean pubkey, clean blocked))).

(** Source: src/db-core/src/repos/block.rs:43-55 (BlockRepo::delete) *)
Definition block_delete (pubkey blocked : str) (t : gmap (str * str) Z) : gmap (str * str) Z := delete (clean pubkey, clean blocked) t.

(** Source: src/db-core/src/repos/block.rs:68-77 (BlockRepo::delete_all_for) *)
Definition block_delete_all_for (pubkey : str) (t : gmap (str * str) Z) : gmap (str * str) Z :=
  filter (λ kv, kv.1.1 ≠ clean pubkey) t.

(** Source: src/db-core/src/repos/spam_report.rs:11-32 (SpamReportRepo::insert) *)
Definition report_insert (r : SpamReportRow) (t : gmap str SpamReportRow) : gmap str SpamReportRow :=
  match t !! rep_id r with
  | Some _ => t
  | None => <[rep_id r := mk_report (rep_id r) (clean (rep_pubkey r)) (rep_target_id r) (clean <$> rep_target_pubkey r) (rep_reason r)
                            (rep_tags r) (rep_created_at r)]> t
  end.

(** Source: src/db-core/src/repos/mod.rs:58-58 (MAX_PAGE_LIMIT) *)
Definition MAX_PAGE_LIMIT : Z := 2000.
(** Source: src/db-core/src/repos/mod.rs:62-64 (clamp_limit) *)
Definition clamp_limit (limit : Z) : Z := Z.max 1 (Z.min limit MAX_PAGE_LIMIT).

(** Source: src/db-core/src/repos/block.rs:57-66 (BlockRepo::list) *)
Definition block_list `{!OrderBy (desc (λ kv : str * str * Z, kv.2))} (pubkey : str) (t : gmap (str * str) Z) : list (list Z) :=
  (λ kv : str * str * Z, kv.1.2) <$> order_by (desc (λ kv : str * str * Z, kv.2)) (filter (λ kv, kv.1.1 = clean pubkey) (map_to_list t)).

(** Source: src/db-core/src/repos/spam_report.rs:34-48 (SpamReportRepo::list_by_target) *)
Definition list_by_target `{!OrderBy (desc rep_created_at)} (target_pubkey : str) (limit : Z) (t : gmap str SpamReportRow) : list SpamReportRow :=
  take (Z.to_nat (clamp_limit limit))
    (order_by (desc rep_created_at) (filter (λ r, rep_target_pubkey r = Some (clean target_pubkey)) (map_to_list t).*2)).

(** Source: src/db-core/src/repos/spam_report.rs:50-54 (SpamReportRepo::delete) *)
Definition report_delete (id : str) (t : gmap str SpamReportRow) : gmap str SpamReportRow := delete id t.

(** ** Cards *)

(** Source: src/flutter-bridge/src/ffi/dating.rs:18-40 (DatingCardInfo) *)
Record DatingCardInfo := mk_card {
  crd_pubkey : str; crd_name : str; crd_age : Z; crd_location : str; crd_gender : str; crd_seeking : str; crd_height : f32;
  crd_body_type : str; crd_smoking : str; crd_drinking : str; crd_relationship_intent : str; crd_politics : str; crd_ethnicity : str;
  crd_education : str; crd_language : list (list Z); crd_max_distance_km : f32; crd_bio : str; crd_images : list (list Z);
  crd_interests : list (list Z); crd_score : f32; crd_last_seen : Z
}.

(** Source: src/flutter-bridge/src/ffi/dating.rs:44-62 (ProfileContent) *)
Record ProfileContent := mk_content {
  pc_age : option f64; pc_gender : option str; pc_seeking : option str; pc_height : option f64; pc_body_type : option str;
  pc_smoking : option str; pc_drinking : option str; pc_relationship_intent : option str; pc_politics : option str;
  pc_ethnicity : option str; pc_education : option str; pc_language : option (list (list Z)); pc_max_distance_km : option f64;
  pc_location_geohash : option str; pc_bio : option str; pc_interests : option (list (list Z)); pc_images : option (list (list Z))
}.

Section dating.
Context `{Primitives, DatingEnv}.

(** As serde reads it. *)
Definition profile_content (content : str) : option ProfileContent :=
  j ← json_parse content;
  l ← struct_fields [lit "age"; lit "gender"; lit "seeking"; lit "height"; lit "bodyType"; lit "smoking"; lit "drinking";
        lit "relationshipIntent"; lit "politics"; lit "ethnicity"; lit "education"; lit "language"; lit "maxDistanceKm";
        lit "locationGeohash"; lit "bio"; lit "interests"; lit "images"] j;
  match l with
  | [age; gender; seeking; height; body; smoking; drinking; intent; politics; ethnicity; education; language; dist; geo; bio; ints; imgs] =>
      age ← opt_val as_f64 age; gender ← opt_val as_str gender; seeking ← opt_val as_str seeking; height ← opt_val as_f64 height;
      body ← opt_val as_str body; smoking ← opt_val as_str smoking; drinking ← opt_val as_str drinking;
      intent ← opt_val as_str intent; politics ← opt_val as_str politics; ethnicity ← opt_val as_str ethnicity;
      education ← opt_val as_str education; language ← opt_val as_strs language; dist ← opt_val as_f64 dist; geo ← opt_val as_str geo;
      bio ← opt_val as_str bio; ints ← opt_val as_strs ints; imgs ← opt_val as_strs imgs;
      Some (mk_content age gender seeking height body smoking drinking intent politics ethnicity education language dist geo bio ints imgs)
  | _ => None
  end.

(** A row with the name of its author and a score.
    Source: src/flutter-bridge/src/ffi/dating.rs:64-97 (card_from_value) *)
Definition card_from_row (name : str) (score : f32) (p : PostRow) : option DatingCardInfo :=
  c ← profile_content (pst_content p);
  Some (mk_card (pst_pubkey p) name (f64_to_i32 (default f64_zero (pc_age c)))
    (concat (take 5 (chars (default [] (pc_location_geohash c))))) (default [] (pc_gender c)) (default [] (pc_seeking c))
    (f64_to_f32 (default f64_zero (pc_height c))) (default [] (pc_body_type c)) (default [] (pc_smoking c)) (default [] (pc_drinking c))
    (default [] (pc_relationship_intent c)) (default [] (pc_politics c)) (default [] (pc_ethnicity c)) (default [] (pc_education c))
    (default [] (pc_language c)) (f64_to_f32 (default f64_zero (pc_max_distance_km c))) (default [] (pc_bio c)) (default [] (pc_images c))
    (default [] (pc_interests c)) score (Z.max 0 (pst_created_at p))).

(** LEFT JOIN users. *)
Definition author_name (d : db) (p : PostRow) : str := default [] (users d !! pst_pubkey p ≫= usr_name).

Definition card_of (d : db) (p : PostRow) : option DatingCardInfo := card_from_row (author_name d p) f64_zero p.

Definition live_profile (p : PostRow) : bool := (pst_kind p =? KIND_PROFILE)%Z && negb (pst_is_deleted p).

(** The profile rows that satisfy [P], the newest first. *)
Definition profile_rows (P : PostRow → bool) (d : db) : list PostRow :=
  post_row <$> order_by (desc (λ p, pst_created_at (post_row p))) (filter (λ p, P (post_row p) = true) (map_to_list (posts d)).*2).

(** No live profile of the author is newer. *)
Definition newest_profile (d : db) (p : PostRow) : bool :=
  forallb (λ q, negb (bool_decide (pst_pubkey q = pst_pubkey p) && live_profile q && (pst_created_at p <? pst_created_at q)%Z))
    (post_row <$> (map_to_list (posts d)).*2).

(** Source: src/flutter-bridge/src/ffi/dating.rs:99-109 (profile_rows_sql) *)
Definition profile_deck (extra : PostRow → bool) (limit : Z) (d : db) : list PostRow :=
  take (Z.to_nat (Z.max 1 (Z.min limit 100))) (profile_rows (λ p, live_profile p && extra p && newest_profile d p) d).

(** The newest live profile of an author, as stored.
    Source: src/flutter-bridge/src/ffi/dating.rs:797-804 (get_own_profile_internal, query) *)
Definition own_profile_row (pubkey : str) (d : db) : option PostRow :=
  head (profile_rows (λ p, live_profile p && bool_decide (pst_pubkey p = pubkey)) d).

(** Source: src/flutter-bridge/src/ffi/dating.rs:795-807 (get_own_profile_internal) *)
Definition get_own_profile_internal (pubkey : str) (d : db) : option DatingCardInfo := own_profile_row pubkey d ≫= card_of d.

(** ** Attributes *)

(** Source: src/flutter-bridge/src/ffi/dating.rs:112-112 (SEEKING) *)
Definition SEEKING : list (list Z) := GENDERS ++ [lit "All"].
(** Source: src/flutter-bridge/src/ffi/dating.rs:113-113 (BODY_TYPES) *)
Definition BODY_TYPES : list (list Z) := [lit "slim"; lit "athletic"; lit "average"; lit "curvy"; lit "muscular"].
(** Source: src/flutter-bridge/src/ffi/dating.rs:114-114 (SMOKING) *)
Definition SMOKING : list (list Z) := [lit "never"; lit "occasionally"; lit "regularly"].
(** Source: src/flutter-bridge/src/ffi/dating.rs:115-115 (DRINKING) *)
Definition DRINKING : list (list Z) := [lit "never"; lit "socially"; lit "regularly"].
(** Source: src/flutter-bridge/src/ffi/dating.rs:116-116 (RELATIONSHIP_INTENTS) *)
Definition RELATIONSHIP_INTENTS : list (list Z) := [lit "serious"; lit "casual"; lit "still figuring out"].
(** Source: src/flutter-bridge/src/ffi/dating.rs:117-124 (POLITICS) *)
Definition POLITICS : list (list Z) :=
  [lit "prefer not to say"; lit "liberal"; lit "moderate"; lit "conservative"; lit "libertarian"; lit "other"].
(** Source: src/flutter-bridge/src/ffi/dating.rs:125-133 (EDUCATION) *)
Definition EDUCATION : list (list Z) :=
  [lit "high school"; lit "some college"; lit "associate"; lit "trade school"; lit "bachelor's"; lit "master's"; lit "doctorate"].

(** Source: src/flutter-bridge/src/ffi/dating.rs:136-139 (opt_str) *)
Definition opt_str (s : str) : option str := let t := trim s in if bool_decide (t = []) then None else Some t.

(** Source: src/flutter-bridge/src/ffi/dating.rs:141-146 (validate_enum) *)
Definition validate_enum (value : str) (allowed : list (list Z)) : may_fail unit :=
  ensure (bool_decide (trim value = []) || bool_decide (trim value ∈ allowed)) "invalid attribute".

(** Source: src/flutter-bridge/src/ffi/dating.rs:151-172 (resolve_location) *)
Definition resolve_location (location : str) : may_fail str :=
  let trimmed := trim location in
  if bool_decide (trimmed = []) then err "location is required"
  else
    match split_once 0x2C trimmed with
    | Some (lat, lon) =>
        lat ← ok_or (Fail "invalid latitude") (f64_parse (trim lat));
        lon ← ok_or (Fail "invalid longitude") (f64_parse (trim lon));
        ok_or (Fail "invalid coordinates (lat -90..=90, lon -180..=180)") (encode_geohash lat lon 5)
    | None => if is_valid_geohash trimmed then Ok trimmed else err "invalid geohash"
    end.

(** What the form holds.
    Source: src/flutter-bridge/src/ffi/dating.rs:677-695 (dating_update_profile, arguments) *)
Record attributes := mk_attributes {
  at_location : str; at_gender : str; at_seeking : str; at_height_cm : Z; at_body_type : str; at_smoking : str; at_drinking : str;
  at_relationship_intent : str; at_politics : str; at_ethnicity : str; at_education : str; at_language_json : str;
  at_max_distance_km : Z; at_bio : str; at_images_json : str; at_interests_json : str
}.

(** Source: src/flutter-bridge/src/ffi/dating.rs:176-209 (validate_attributes) *)
Definition validate_attributes (a : attributes) : may_fail unit :=
  _ ← validate_enum (at_gender a) GENDERS;
  _ ← validate_enum (at_seeking a) SEEKING;
  _ ← ensure (negb (0 <? at_height_cm a)%Z || ((100 <=? at_height_cm a)%Z && (at_height_cm a <=? 250)%Z)) "height must be 100..=250 cm";
  _ ← validate_enum (at_body_type a) BODY_TYPES;
  _ ← validate_enum (at_smoking a) SMOKING;
  _ ← validate_enum (at_drinking a) DRINKING;
  _ ← validate_enum (at_relationship_intent a) RELATIONSHIP_INTENTS;
  _ ← validate_enum (at_politics a) POLITICS;
  _ ← validate_enum (at_education a) EDUCATION;
  ensure ((0 <=? at_max_distance_km a)%Z && (at_max_distance_km a <=? 500)%Z) "maxDistanceKm must be 0..=500".

(** Null when there is nothing to say. *)
Definition jopt (o : option str) : json := match o with Some s => JStr s | None => JNull end.
Definition jpos (z : Z) : json := if (0 <? z)%Z then JNum (NFloat (f64_of_Z z)) else JNull.

(** The fields of the content, with the lists already read.
    Source: src/flutter-bridge/src/ffi/dating.rs:214-250 (attribute_content) *)
Definition attribute_content (geohash : str) (a : attributes) (language interests images : list (list Z)) : list (list Z * json) :=
  [(lit "locationGeohash", JStr geohash); (lit "gender", jopt (opt_str (at_gender a))); (lit "seeking", jopt (opt_str (at_seeking a)));
   (lit "height", jpos (at_height_cm a)); (lit "bodyType", jopt (opt_str (at_body_type a)));
   (lit "smoking", jopt (opt_str (at_smoking a))); (lit "drinking", jopt (opt_str (at_drinking a)));
   (lit "relationshipIntent", jopt (opt_str (at_relationship_intent a))); (lit "politics", jopt (opt_str (at_politics a)));
   (lit "ethnicity", jopt (opt_str (at_ethnicity a))); (lit "education", jopt (opt_str (at_education a)));
   (lit "language", if bool_decide (language = []) then JNull else JArr (JStr <$> language));
   (lit "maxDistanceKm", jpos (at_max_distance_km a)); (lit "bio", JStr (truncate (at_bio a) 1500));
   (lit "interests", JArr (JStr <$> interests)); (lit "images", JArr (JStr <$> images))].

(** Validation and the content, shared by creation and update.
    Source: src/flutter-bridge/src/ffi/dating.rs:593-639 (dating_create_profile, validation and content) *)
Definition form_content (a : attributes) : may_fail (list (list Z * json)) :=
  _ ← validate_attributes a;
  geohash ← resolve_location (at_location a);
  images ← ok_or (Fail "invalid images JSON") (parse_strings (at_images_json a));
  _ ← ensure (length images <=? 9) "too many images";
  interests ← ok_or (Fail "invalid interests JSON") (parse_strings (at_interests_json a));
  language ← ok_or (Fail "invalid language JSON") (parse_strings (at_language_json a));
  Ok (attribute_content geohash a (take 10 language) (take 20 interests) images).

(** ** The signer and the posts *)

(** Source: src/flutter-bridge/src/ffi/signer.rs:122-128 (signer_pubkey) *)
Definition signer_pubkey : call str := s ← reads dat_signer; found s "signer locked".

(** Source: src/flutter-bridge/src/ffi/signer.rs:134-147 (require_identity) *)
Definition require_identity (expected : str) : call unit :=
  actual ← signer_pubkey;
  guard_else (ct_eq (clean actual) (clean expected)) "identity mismatch: caller is not the claimed pubkey".

Definition sign_event (kind : Z) (tags : list (list (list Z))) (content : str) : call (str * str) :=
  key ← signer_pubkey; lift (dat_sign key kind tags content).

(** Source: src/flutter-bridge/src/ffi/db.rs:1137-1170 (upsert_post_row) *)
Definition upsert_post_row (id pubkey content : str) (kind created_at : Z) (tags_json : str) (subject : option str) : call unit := λ s,
  match post_upsert (mk_post_row id pubkey content kind created_at tags_json None None None [] [] subject (lit "pending") false
                       None None false None) (dat_db s) with
  | Ok d => (dat_on_db (λ _, d) s, Ok ())
  | Err _ => (s, err "row too big")
  end.

(** UPDATE posts SET is_deleted = 1 on the profiles of an author but one; the
    author is compared as given.
    Source: src/flutter-bridge/src/ffi/dating.rs:662-667 (dating_create_profile, older profiles) *)
Definition delete_profiles (pubkey : str) (but : option str) (d : db) : db :=
  on_posts (fmap (λ p, if (pst_kind (post_row p) =? KIND_PROFILE)%Z && bool_decide (pst_pubkey (post_row p) = pubkey)
                          && negb (bool_decide (Some (pst_id (post_row p)) = but)) then with_deleted p else p)) d.

Definition profile_tags : list (list (list Z)) := [[lit "d"; D_TAG]].

(** Signing, storing and retiring the older profiles.
    Source: src/flutter-bridge/src/ffi/dating.rs:640-668 (dating_create_profile, publication) *)
Definition publish_profile (now : Z) (user_pubkey : str) (content : list (list Z * json)) (name : option str) : call str :=
  '(event_id, signed_json) ← sign_event KIND_PROFILE profile_tags (json_print content);
  _ ← upsert_post_row event_id user_pubkey (json_print content) KIND_PROFILE now (json_tags profile_tags) name;
  _ ← writes (dat_on_db (delete_profiles user_pubkey (Some event_id)));
  mret signed_json.

(** Source: src/flutter-bridge/src/ffi/dating.rs:568-669 (dating_create_profile) *)
Definition dating_create_profile (now : Z) (user_pubkey name : str) (age : Z) (a : attributes) : call str :=
  _ ← require_identity user_pubkey;
  _ ← guard_else ((0 <? age)%Z && (age <=? 120)%Z) "age must be 1..=120";
  content ← lift (form_content a);
  publish_profile now user_pubkey (set_field (lit "age") (JNum (NInt age)) content) (Some name).

(** A value of the former content carried over. *)
Definition carry (key : str) (prev : json) (content : list (list Z * json)) : list (list Z * json) :=
  match get_field key prev with Some v => set_field key v content | None => content end.

(** Source: src/flutter-bridge/src/ffi/dating.rs:742-763 (dating_update_profile, former content) *)
Definition carried_content (old : option PostRow) (content : list (list Z * json)) : list (list Z * json) :=
  match old ≫= λ p, json_parse (pst_content p) with
  | Some prev =>
      carry (lit "verifiedMutualFriends") prev (carry (lit "dealbreakers") prev (carry (lit "preferenceWeights") prev (carry (lit "age") prev content)))
  | None => content
  end.

(** No identity is required here.
    Source: src/flutter-bridge/src/ffi/dating.rs:677-793 (dating_update_profile) *)
Definition dating_update_profile (now : Z) (user_pubkey : str) (a : attributes) : call bool :=
  content ← lift (form_content a);
  old ← reads (λ s, own_profile_row user_pubkey (dat_db s));
  _ ← publish_profile now user_pubkey (carried_content old content) None;
  mret true.

(** Source: src/flutter-bridge/src/ffi/dating.rs:811-817 (dating_get_own_profile) *)
Definition dating_get_own_profile (user_pubkey : str) : call DatingCardInfo :=
  let user_pubkey := clean user_pubkey in
  _ ← require_identity user_pubkey;
  card ← reads (λ s, get_own_profile_internal user_pubkey (dat_db s));
  found card "No dating profile yet".

(** Source: src/flutter-bridge/src/ffi/dating.rs:822-831 (dating_delete_profile) *)
Definition dating_delete_profile (user_pubkey : str) : call bool :=
  _ ← require_identity user_pubkey;
  _ ← writes (dat_on_db (delete_profiles (clean user_pubkey) None));
  mret true.

(** A deleted profile is found too.
    Source: src/flutter-bridge/src/ffi/dating.rs:546-560 (dating_get_profile) *)
Definition dating_get_profile (profile_id : str) : call DatingCardInfo :=
  card ← reads (λ s, p ← posts (dat_db s) !! profile_id;
                     if (pst_kind (post_row p) =? KIND_PROFILE)%Z then card_of (dat_db s) (post_row p) else None);
  found card "Dating profile not found".

(** ** Likes and passes *)

(** Source: src/flutter-bridge/src/ffi/dating.rs:833-891 (react) *)
Definition react (now : Z) (user_pubkey profile_pubkey content : str) : call bool :=
  let user := clean user_pubkey in
  let profile := clean profile_pubkey in
  _ ← require_identity user;
  _ ← guard_else (zlen profile =? 64)%Z "invalid profile event id";
  _ ← guard_else (negb (bool_decide (user = profile))) "cannot react to self";
  row ← reads (λ s, own_profile_row profile (dat_db s));
  row ← found row "no profile event";
  let profile_event_id := pst_id row in
  '(event_id, signed_json) ← sign_event 7 [[lit "e"; profile_event_id]] content;
  _ ← writes (dat_on_db (reaction_upsert
        (mk_reaction (lit "reaction:" ++ user ++ lit ":" ++ profile) user profile_event_id 7 (Some content) now)));
  ob ← reads dat_outbox;
  ob ← lift (enqueue_outbox_item_with_seal ob event_id (lit "reaction") signed_json None now dat_seal);
  _ ← writes (on_outbox (λ _, ob));
  mret true.

(** Source: src/flutter-bridge/src/ffi/dating.rs:896-898 (dating_like) *)
Definition dating_like (now : Z) (user_pubkey profile_id : str) : call bool := react now user_pubkey profile_id (lit "+").
(** Source: src/flutter-bridge/src/ffi/dating.rs:902-904 (dating_unlike) *)
Definition dating_unlike (now : Z) (user_pubkey profile_id : str) : call bool := react now user_pubkey profile_id (lit "-").
(** Source: src/flutter-bridge/src/ffi/dating.rs:908-910 (dating_superlike) *)
Definition dating_superlike (now : Z) (user_pubkey profile_id : str) : call bool := react now user_pubkey profile_id (lit "super").

(** Source: src/flutter-bridge/src/ffi/dating.rs:915-934 (dating_pass) *)
Definition dating_pass (now : Z) (user_pubkey profile_id : str) : call bool :=
  _ ← require_identity user_pubkey;
  let profile_id := trim profile_id in
  _ ← guard_else (zlen profile_id =? 64)%Z "invalid profile event id";
  let user := clean user_pubkey in
  _ ← writes (dat_on_db (reaction_upsert (mk_reaction (lit "pass:" ++ user ++ lit ":" ++ profile_id) user profile_id 7 (Some (lit "pass")) now)));
  mret true.

Definition passed_by (user : str) (r : ReactionRow) : bool :=
  bool_decide (rct_pubkey r = user) && bool_decide (rct_content r = Some (lit "pass")).

(** Source: src/flutter-bridge/src/ffi/dating.rs:940-948 (dating_reset_passes) *)
Definition dating_reset_passes (user_pubkey : str) : call Z :=
  _ ← require_identity user_pubkey;
  let user := clean user_pubkey in
  n ← reads (λ s, size (filter (λ kr, passed_by user kr.2 = true) (reactions (dat_db s))));
  _ ← writes (dat_on_db (on_reactions (filter (λ kr, passed_by user kr.2 = false))));
  mret (Z.of_nat n).

(** ** Who is hidden from whom *)

(** An unmatch or a block, in either direction. *)
Definition hidden (s : dating) (user other : str) : bool :=
  bool_decide (is_Some (dat_unmatches s !! (user, other))) || bool_decide (is_Some (dat_unmatches s !! (other, user))) ||
  bool_decide (is_Some (dat_blocks s !! (user, other))) || bool_decide (is_Some (dat_blocks s !! (other, user))).

Definition reaction_rows (P : ReactionRow → bool) (d : db) : list ReactionRow :=
  order_by (desc rct_created_at) (filter (λ r, P r = true) (map_to_list (reactions d)).*2).

Definition reacted_to (user event_id : str) (d : db) : bool :=
  bool_decide (reaction_rows (λ r, bool_decide (rct_pubkey r = user) && bool_decide (rct_event_id r = event_id)) d ≠ []).

(** The newest live profile of each account, unless the viewer has blocked it.
    Source: src/flutter-bridge/src/ffi/dating.rs:265-297 (cards_by_pubkey) *)
Definition cards_by_pubkey (pubkeys : list (list Z)) (viewer : str) (limit : nat) (s : dating) : gmap str DatingCardInfo :=
  let ids := take limit pubkeys in
  let rows := profile_rows (λ p, live_profile p && bool_decide (pst_pubkey p ∈ ids)
                                 && negb (bool_decide (is_Some (dat_blocks s !! (clean viewer, pst_pubkey p))))) (dat_db s) in
  fold_left (λ m c, match m !! to_ascii_lowercase (crd_pubkey c) with
                    | Some _ => m
                    | None => <[to_ascii_lowercase (crd_pubkey c) := c]> m
                    end) (omap (card_of (dat_db s)) rows) ∅.

(** The accounts, each once whatever its case.
    Source: src/flutter-bridge/src/ffi/dating.rs:967-974 (dating_fetch_likes, likers) *)
Fixpoint distinct_accounts (seen : gset (list Z)) (pks : list (list Z)) : list (list Z) :=
  match pks with
  | [] => []
  | pk :: pks =>
      let pk := trim pk in
      if bool_decide (pk = []) || bool_decide (to_ascii_lowercase pk ∈ seen) then distinct_accounts seen pks
      else pk :: distinct_accounts ({[ to_ascii_lowercase pk ]} ∪ seen) pks
  end.

(** The cards of the accounts, in order and repeated as they are.
    Source: src/flutter-bridge/src/ffi/dating.rs:975-987 (dating_fetch_likes, cards) *)
Definition account_cards (pks : list (list Z)) (viewer : str) (limit : nat) (s : dating) : list DatingCardInfo :=
  let cards := cards_by_pubkey (distinct_accounts ∅ pks) viewer limit s in
  omap (λ pk, cards !! clean pk) pks.

Definition own_profile_id (user id : str) (d : db) : bool :=
  match posts d !! id with Some p => (pst_kind (post_row p) =? KIND_PROFILE)%Z && bool_decide (pst_pubkey (post_row p) = user) | None => false end.
Definition is_live (id : str) (d : db) : bool :=
  match posts d !! id with Some p => negb (pst_is_deleted (post_row p)) | None => false end.

Definition liked (r : ReactionRow) : bool := bool_decide (rct_content r = Some (lit "+")).

(** Source: src/flutter-bridge/src/ffi/dating.rs:956-966 (dating_fetch_likes, query) *)
Definition like_rows (user : str) (s : dating) : list ReactionRow :=
  take 200 (reaction_rows (λ r, liked r && own_profile_id user (rct_event_id r) (dat_db s) && is_live (rct_event_id r) (dat_db s)
                                && negb (hidden s user (rct_pubkey r))) (dat_db s)).

(** Source: src/flutter-bridge/src/ffi/dating.rs:953-988 (dating_fetch_likes) *)
Definition dating_fetch_likes (user_pubkey : str) : call (list DatingCardInfo) :=
  _ ← require_identity user_pubkey;
  let user := clean user_pubkey in
  reads (λ s, account_cards (rct_pubkey <$> like_rows user s) user 200 s).

(** Whether the owner of a profile has liked a profile of the user, live or not. *)
Definition likes_back (user owner : str) (d : db) : bool :=
  existsb (λ r, liked r && bool_decide (rct_pubkey r = owner) && own_profile_id user (rct_event_id r) d) (map_to_list (reactions d)).*2.

(** The owner of a profile, live or not. *)
Definition profile_owner (id : str) (d : db) : option str :=
  p ← posts d !! id; if (pst_kind (post_row p) =? KIND_PROFILE)%Z then Some (pst_pubkey (post_row p)) else None.

Definition mutual (user : str) (d : db) (r : ReactionRow) : bool :=
  liked r && bool_decide (rct_pubkey r = user) &&
  match profile_owner (rct_event_id r) d with Some owner => likes_back user owner d | None => false end.

(** The owners of the profiles liked mutually.
    Source: src/flutter-bridge/src/ffi/dating.rs:995-1007 (dating_fetch_matches, query) *)
Definition match_owners (user : str) (s : dating) : list (list Z) :=
  take 100 (omap (λ r, profile_owner (rct_event_id r) (dat_db s))
    (reaction_rows (λ r, mutual user (dat_db s) r
        && match profile_owner (rct_event_id r) (dat_db s) with Some owner => negb (hidden s user owner) | None => false end) (dat_db s))).

(** Source: src/flutter-bridge/src/ffi/dating.rs:992-1029 (dating_fetch_matches) *)
Definition dating_fetch_matches (user_pubkey : str) : call (list DatingCardInfo) :=
  _ ← require_identity user_pubkey;
  let user := clean user_pubkey in
  reads (λ s, account_cards (match_owners user s) user 100 s).

(** Source: src/flutter-bridge/src/ffi/dating.rs:1037-1052 (dating_unmatch) *)
Definition dating_unmatch (now : Z) (user_pubkey profile_id : str) : call bool :=
  _ ← require_identity user_pubkey;
  let profile := clean profile_id in
  _ ← guard_else (negb (bool_decide (profile = [])) && (zlen profile <=? 128)%Z) "invalid profile_id";
  _ ← writes (on_unmatches (unmatch_upsert (clean user_pubkey) profile now));
  mret true.

(** Source: src/flutter-bridge/src/ffi/dating.rs:1287-1306 (dating_block_profile) *)
Definition dating_block_profile (now : Z) (user_pubkey target_pubkey : str) : call bool :=
  _ ← require_identity user_pubkey;
  let user := clean user_pubkey in
  let target := clean target_pubkey in
  _ ← guard_else (negb (bool_decide (user = target))) "cannot block self";
  _ ← guard_else (negb (bool_decide (target = [])) && (zlen target <=? 128)%Z) "invalid target_pubkey";
  _ ← block_upsert user target now;
  mret true.

(** Source: src/flutter-bridge/src/ffi/dating.rs:1310-1318 (dating_unblock_profile) *)
Definition dating_unblock_profile (user_pubkey target_pubkey : str) : call bool :=
  _ ← require_identity user_pubkey;
  _ ← writes (on_blocks (block_delete (clean user_pubkey) (clean target_pubkey)));
  mret true.

(** [name] is the random part of the identifier.
    Source: src/flutter-bridge/src/ffi/dating.rs:1323-1352 (dating_report_profile) *)
Definition dating_report_profile (now : Z) (id reporter_pubkey target_pubkey reason : str) : call bool :=
  _ ← require_identity reporter_pubkey;
  let reporter := clean reporter_pubkey in
  let target := clean target_pubkey in
  _ ← guard_else (negb (bool_decide (reporter = target))) "cannot report self";
  _ ← guard_else (negb (bool_decide (target = [])) && (zlen target <=? 128)%Z) "invalid target_pubkey";
  _ ← writes (on_reports (report_insert (mk_report id reporter None (Some target) (Some (truncate reason 512)) ([0x5B; 0x22]%Z ++ lit "dating" ++ [0x22; 0x5D]%Z) now)));
  mret true.

(** ** Ranking *)

(** Source: src/flutter-bridge/src/ffi/dating.rs:300-315 (suggestion_weights) *)
Definition suggestion_weights : PreferenceWeights :=
  mk_weights None None None (Some (f64_of_Z 2)) None None None None None None None (Some (f64_dec 3 2)).

Definition nonempty (s : str) : option str := if bool_decide (s = []) then None else Some s.
Definition positive (x : f32) : option f64 := if SFltb f64_zero x then Some (f32_to_f64 x) else None.

(** Source: src/flutter-bridge/src/ffi/dating.rs:318-339 (profile_input_from_card) *)
Definition profile_input_from_card (c : DatingCardInfo) : DatingProfileInput :=
  mk_profile None (crd_pubkey c) (Some (f64_of_Z (crd_age c))) (nonempty (crd_gender c)) (nonempty (crd_seeking c)) (positive (crd_height c))
    (nonempty (crd_body_type c)) (nonempty (crd_smoking c)) (nonempty (crd_drinking c)) (nonempty (crd_relationship_intent c))
    (nonempty (crd_location c)) (positive (crd_max_distance_km c)) (Some (crd_interests c)) (nonempty (crd_politics c))
    (nonempty (crd_ethnicity c)) (nonempty (crd_education c)) (if bool_decide (crd_language c = []) then None else Some (crd_language c))
    None None None None None None.

Definition weights_of_json (j : json) : option PreferenceWeights :=
  l ← struct_fields [lit "age"; lit "height"; lit "bodyType"; lit "interests"; lit "smoking"; lit "drinking"; lit "politics"; lit "ethnicity";
        lit "education"; lit "language"; lit "relationshipIntent"; lit "distance"] j;
  l ← mapM (opt_val as_f64) l;
  match l with
  | [a; h; b; i; s; d; p; e; u; g; r; t] => Some (mk_weights a h b i s d p e u g r t)
  | _ => None
  end.

Definition get_str (key : str) (v : json) : option str := s ← get_field key v ≫= as_str; nonempty s.
Definition get_strs (key : str) (v : json) : option (list (list Z)) := (λ l : list json, omap as_str l) <$> (get_field key v ≫= as_array).

(** The scoring input of the viewer: the traits that are read, with the weights
    stored or else the suggested ones.
    Source: src/flutter-bridge/src/ffi/dating.rs:342-395 (self_profile_input) *)
Definition self_profile_input (user_pubkey : str) (d : db) : DatingProfileInput :=
  match own_profile_row user_pubkey d ≫= λ p, json_parse (pst_content p) with
  | None =>
      mk_profile None user_pubkey None None None None None None None None None None None None None None None (Some suggestion_weights)
        None None None None None
  | Some v =>
      mk_profile None user_pubkey (get_field (lit "age") v ≫= as_f64) (get_str (lit "gender") v) (get_str (lit "seeking") v) None None None None
        None (get_str (lit "locationGeohash") v) (get_field (lit "maxDistanceKm") v ≫= as_f64) (get_strs (lit "interests") v) None None None
        None (Some (default suggestion_weights (get_field (lit "preferenceWeights") v ≫= weights_of_json))) (get_strs (lit "dealbreakers") v)
        None None None None
  end.

Definition with_score (score : f32) (c : DatingCardInfo) : DatingCardInfo :=
  mk_card (crd_pubkey c) (crd_name c) (crd_age c) (crd_location c) (crd_gender c) (crd_seeking c) (crd_height c) (crd_body_type c)
    (crd_smoking c) (crd_drinking c) (crd_relationship_intent c) (crd_politics c) (crd_ethnicity c) (crd_education c) (crd_language c)
    (crd_max_distance_km c) (crd_bio c) (crd_images c) (crd_interests c) score (crd_last_seen c).

(** [n as f32] and the ranks and scores by account, the last of an account
    winning. *)
Definition f32_of_Z (z : Z) : f32 := binary_normalize 24 128 z 0 false.
Definition rank_map (sorted : list SortedProfileOut) : gmap str (Z * f32) :=
  list_to_map (reverse (imap (λ i s, (so_pubkey s, (Z.of_nat i, f32_of_Z (so_compatibility_score s)))) sorted)).

(** Source: src/flutter-bridge/src/ffi/dating.rs:399-432 (rank_cards_by_interest_distance) *)
Definition rank_cards_by_interest_distance (user_pubkey : str) (cards : list DatingCardInfo) (d : db) : may_fail (list DatingCardInfo) :=
  if bool_decide (length cards = 0) then Ok cards
  else
    sorted ← sort_dating_profiles (mk_sort_input (profile_input_from_card <$> cards) (self_profile_input user_pubkey d) [] None);
    let m := rank_map sorted in
    let rank c := default u64_max (fst <$> m !! crd_pubkey c) in
    Ok (stable_sort_by (λ a b, Z.compare (rank a) (rank b))
          ((λ c, match m !! crd_pubkey c with Some (_, score) => with_score score c | None => c end) <$> cards)).

(** The authors of an audience, one of them or several.
    Source: src/flutter-bridge/src/ffi/dating.rs:449-461 (fetch_profiles_internal, audience) *)
Definition in_audience (authors : option (list (list Z))) (pubkey : str) : bool :=
  match authors with
  | None => true
  | Some [a] => bool_decide (pubkey = clean a)
  | Some l => bool_decide (pubkey ∈ to_ascii_lowercase <$> l)
  end.

(** The rows of the deck: of others, not reacted to, not hidden.
    Source: src/flutter-bridge/src/ffi/dating.rs:462-473 (fetch_profiles_internal, query) *)
Definition deck (user : str) (limit : Z) (authors : option (list (list Z))) (s : dating) : list PostRow :=
  profile_deck (λ p, negb (bool_decide (pst_pubkey p = user)) && negb (reacted_to user (pst_id p) (dat_db s))
                     && negb (hidden s user (pst_pubkey p)) && in_audience authors (pst_pubkey p)) limit (dat_db s).

(** An audience without authors gives nothing.
    Source: src/flutter-bridge/src/ffi/dating.rs:438-480 (fetch_profiles_internal) *)
Definition fetch_profiles_internal (user_pubkey : str) (limit : Z) (authors : option (list (list Z))) (s : dating) : may_fail (list DatingCardInfo) :=
  match authors with
  | Some [] => Ok []
  | _ => rank_cards_by_interest_distance user_pubkey (omap (card_of (dat_db s)) (deck (clean user_pubkey) limit authors s)) (dat_db s)
  end.

(** Source: src/flutter-bridge/src/ffi/dating.rs:485-492 (dating_fetch_profiles) *)
Definition dating_fetch_profiles (user_pubkey : str) (limit : Z) (authors : option (list (list Z))) : call (list DatingCardInfo) :=
  cards ← reads (fetch_profiles_internal user_pubkey limit authors); lift cards.

(** What the filter form asks for.
    Source: src/flutter-bridge/src/ffi/dating.rs:1111-1125 (dating_filter_profiles, arguments) *)
Record filter_form := mk_filter_form {
  ff_min_age : Z; ff_max_age : Z; ff_radius_km : Z; ff_height_min : Z; ff_height_max : Z; ff_body_type : str; ff_smoking : str;
  ff_drinking : str; ff_relationship_intent : str; ff_politics : str; ff_education : str; ff_interests_json : str
}.

Definition asked (z : Z) : option f64 := if (0 <? z)%Z then Some (f64_of_Z z) else None.

(** Source: src/flutter-bridge/src/ffi/dating.rs:1127-1141 (dating_filter_profiles, interests) *)
Definition shares_interest (wanted : list (list Z)) (c : DatingCardInfo) : bool :=
  existsb (λ i, existsb (λ r, eq_ignore_ascii_case (trim r) (trim i)) wanted) (crd_interests c).

(** Cards taken out of the map in the order of the sort, at most 50.
    Source: src/flutter-bridge/src/ffi/dating.rs:1187-1198 (dating_filter_profiles, result) *)
Fixpoint take_cards (n : nat) (sorted : list SortedProfileOut) (m : gmap str DatingCardInfo) : list DatingCardInfo :=
  match n, sorted with
  | S n', s :: sorted =>
      match m !! so_pubkey s with
      | Some c => with_score (f32_of_Z (so_compatibility_score s)) c :: take_cards n' sorted (delete (so_pubkey s) m)
      | None => take_cards n sorted m
      end
  | _, _ => []
  end.

(** Source: src/flutter-bridge/src/ffi/dating.rs:1111-1200 (dating_filter_profiles) *)
Definition filter_profiles (user_pubkey : str) (f : filter_form) (s : dating) : may_fail (list DatingCardInfo) :=
  cards ← fetch_profiles_internal user_pubkey 100 None s;
  cards ← (if bool_decide (ff_interests_json f = []) then Ok cards
           else
             _ ← ensure (zlen (ff_interests_json f) <=? 1024 * 1024)%Z "interests JSON too large";
             match default [] (parse_strings (ff_interests_json f)) with
             | [] => Ok cards
             | wanted => Ok (filter (λ c, shares_interest wanted c = true) cards)
             end);
  let own := get_own_profile_internal user_pubkey (dat_db s) in
  let profiles := profile_input_from_card <$> cards in
  let filtered := filter_dating_profiles
        (mk_filter_input profiles (own ≫= λ c, nonempty (crd_gender c)) (own ≫= λ c, nonempty (crd_seeking c)) (own ≫= λ c, nonempty (crd_location c))
           (asked (ff_radius_km f)) [] None (asked (ff_min_age f)) (asked (ff_max_age f)) (asked (ff_height_min f)) (asked (ff_height_max f))
           (opt_str (ff_body_type f)) (opt_str (ff_smoking f)) (opt_str (ff_drinking f)) (opt_str (ff_relationship_intent f))
           (opt_str (ff_politics f)) (opt_str (ff_education f))) in
  let kept := omap (λ o, if fo_passes o then profiles !! fo_index o else None) filtered in
  sorted ← sort_dating_profiles (mk_sort_input kept (self_profile_input user_pubkey (dat_db s)) [] None);
  Ok (take_cards 50 sorted (list_to_map (reverse ((λ c, (crd_pubkey c, c)) <$> cards)))).

Definition dating_filter_profiles (user_pubkey : str) (f : filter_form) : call (list DatingCardInfo) :=
  cards ← reads (filter_profiles user_pubkey f); lift cards.

(** ** A single score *)

(** What serde reads a stored profile as.
    Source: src/dating-core/src/lib.rs:42-63 (DatingProfile) *)
Definition profile_of_json (j : json) : option DatingProfileInput :=
  l ← struct_fields [lit "age"; lit "gender"; lit "seeking"; lit "height"; lit "bodyType"; lit "smoking"; lit "drinking"; lit "bio";
        lit "relationshipIntent"; lit "locationGeohash"; lit "maxDistanceKm"; lit "verifiedMutualFriends"; lit "interests"; lit "images";
        lit "politics"; lit "ethnicity"; lit "education"; lit "language"; lit "preferenceWeights"; lit "dealbreakers"] j;
  match l with
  | [age; gender; seeking; height; body; smoking; drinking; bio; intent; geo; dist; friends; ints; images; politics; ethnicity; education;
     language; weights; breakers] =>
      age ← opt_val as_f64 age; gender ← opt_val as_str gender; seeking ← opt_val as_str seeking; height ← opt_val as_f64 height;
      body ← opt_val as_str body; smoking ← opt_val as_str smoking; drinking ← opt_val as_str drinking; _ ← opt_val as_str bio;
      intent ← opt_val as_str intent; geo ← opt_val as_str geo; dist ← opt_val as_f64 dist; friends ← opt_val as_strs friends;
      ints ← opt_val as_strs ints; _ ← opt_val as_strs images; politics ← opt_val as_str politics; ethnicity ← opt_val as_str ethnicity;
      education ← opt_val as_str education; language ← opt_val as_strs language; weights ← opt_val weights_of_json weights;
      breakers ← opt_val as_strs breakers;
      Some (mk_profile None [] age gender seeking height body smoking drinking intent geo dist ints politics ethnicity education language
              weights breakers friends None None None)
  | _ => None
  end.

(** [obj[key] = v]: null becomes an object, other values have no keys. *)
Definition assign_key (key : str) (v : json) (obj : json) : may_fail json :=
  match obj with
  | JObj fields => Ok (JObj (set_field key v fields))
  | JNull => Ok (JObj [(key, v)])
  | _ => Err Panic
  end.

Definition prefer (key : str) (prefs obj : json) : may_fail json :=
  match get_field key prefs with Some v => assign_key key v obj | None => Ok obj end.

(** One way only, from the stored contents.
    Source: src/flutter-bridge/src/ffi/dating.rs:1056-1105 (dating_calculate_score) *)
Definition calculate_score (user_pubkey target_pubkey preferences_json : str) (d : db) : may_fail f32 :=
  _ ← ensure (zlen preferences_json <=? 1024 * 1024)%Z "preferences JSON too large";
  let prefs := default JNull (json_parse preferences_json) in
  match own_profile_row (clean user_pubkey) d, own_profile_row (clean target_pubkey) d with
  | Some self_row, Some target_row =>
      obj ← prefer (lit "preferenceWeights") prefs (default (JObj []) (json_parse (pst_content self_row)));
      obj ← prefer (lit "dealbreakers") prefs obj;
      Ok (match profile_of_json obj, json_parse (pst_content target_row) ≫= profile_of_json with
          | Some self_p, Some other_p => f32_of_Z (compute_compatibility_score self_p other_p)
          | _, _ => f64_zero
          end)
  | _, _ => Ok f64_zero
  end.

Definition dating_calculate_score (user_pubkey target_pubkey preferences_json : str) : call f32 :=
  r ← reads (λ s, calculate_score user_pubkey target_pubkey preferences_json (dat_db s)); lift r.

(** ** Statistics *)

(** Source: src/flutter-bridge/src/ffi/dating.rs:1273-1280 (dating_get_stats, result) *)
Record dating_stats := mk_stats {
  st_profile_views : nat; st_likes_received : nat; st_superlike_received : nat; st_matches : nat; st_profile_complete : bool; st_photo_count : nat
}.

Definition count_rows {A} (P : A → bool) (l : list A) : nat := length (filter (λ r, P r = true) l).

(** Some live profile, and counts that know neither unmatches nor blocks.
    Source: src/flutter-bridge/src/ffi/dating.rs:1204-1282 (dating_get_stats) *)
Definition stats_of (user : str) (s : dating) : dating_stats :=
  let d := dat_db s in
  let own := head (filter (λ p, live_profile (post_row p) && bool_decide (pst_pubkey (post_row p) = user) = true)
                     (order_by (λ _ _ : Post, True) (map_to_list (posts d)).*2)) in
  let rows := (map_to_list (reactions d)).*2 in
  let received c := count_rows (λ r, bool_decide (rct_content r = Some c) && own_profile_id user (rct_event_id r) d) rows in
  mk_stats
    (match own with Some p => size (filter (λ kv : str * str * Z, kv.1.2 = pst_id (post_row p)) (dat_views s)) | None => 0 end)
    (received (lit "+")) (received (lit "super")) (count_rows (mutual user d) rows)
    (match own with Some p => negb (bool_decide (pst_id (post_row p) = [])) | None => false end)
    (match own with
     | Some p => default 0 (c ← json_parse (pst_content (post_row p)); length <$> as_array (field c (lit "images")))
     | None => 0
     end).

(** The account is compared as given. *)
Definition dating_get_stats (user_pubkey : str) : call dating_stats :=
  _ ← require_identity user_pubkey; reads (stats_of user_pubkey).

(** ** The calls that change the state *)

Inductive request :=
| Create (now : Z) (user name : str) (age : Z) (a : attributes)
| Update (now : Z) (user : str) (a : attributes)
| Delete (user : str)
| Like (now : Z) (user profile : str)
| Unlike (now : Z) (user profile : str)
| Superlike (now : Z) (user profile : str)
| Skip (now : Z) (user profile : str)
| ResetPasses (user : str)
| Unmatch (now : Z) (user profile : str)
| Block (now : Z) (user target : str)
| Unblock (user target : str)
| Report (now : Z) (id user target reason : str).

Definition run_call {A} (m : call A) (s : dating) : dating * may_fail unit := ((m s).1, _ ← (m s).2; Ok ()).

Definition perform (r : request) : dating → dating * may_fail unit :=
  match r with
  | Create now user name age a => run_call (dating_create_profile now user name age a)
  | Update now user a => run_call (dating_update_profile now user a)
  | Delete user => run_call (dating_delete_profile user)
  | Like now user profile => run_call (dating_like now user profile)
  | Unlike now user profile => run_call (dating_unlike now user profile)
  | Superlike now user profile => run_call (dating_superlike now user profile)
  | Skip now user profile => run_call (dating_pass now user profile)
  | ResetPasses user => run_call (dating_reset_passes user)
  | Unmatch now user profile => run_call (dating_unmatch now user profile)
  | Block now user target => run_call (dating_block_profile now user target)
  | Unblock user target => run_call (dating_unblock_profile user target)
  | Report now id user target reason => run_call (dating_report_profile now id user target reason)
  end.

(** The account a call names as its own. *)
Definition caller (r : request) : str :=
  match r with
  | Create _ user _ _ _ | Update _ user _ | Delete user | Like _ user _ | Unlike _ user _ | Superlike _ user _ | Skip _ user _
  | ResetPasses user | Unmatch _ user _ | Block _ user _ | Unblock user _ | Report _ _ user _ _ => user
  end.
End dating.
