(* ===== verification/DatingLaws.v ===== *)
(** Dating: matches are mutual and vanish once either side unmatches or
    blocks; nothing but the update of a profile runs for an account that is not
    unlocked; an update keeps what the form does not show; one profile per
    account lives; the deck is ranked without losing a card. A renewed like
    after the other has updated the profile stays with the former event. *)

From Stdlib Require Import SpecFloat.
From S2P Require Import Url Content Prelude RustStr Text Primitives Sql Json Floats Compat Spatial DatingCore Act Store Outbox Dating.

(** ** Permutations *)

Lemma eq_perm {A} (l k : list A) : l = k → l ≡ₚ k.
Proof. by intros ->. Qed.

(** ** Rows *)

Section rows.
Context `{PrimitiveLaws, DatingEnv}.

Lemma elem_of_reaction_rows P d r : r ∈ reaction_rows P d ↔ P r = true ∧ ∃ k, reactions d !! k = Some r.
Proof. unfold reaction_rows. by rewrite order_by_perm, list_elem_of_filter, elem_of_table. Qed.

Lemma elem_of_profile_rows P d p : p ∈ profile_rows P d → P p = true ∧ ∃ k q, posts d !! k = Some q ∧ post_row q = p.
Proof.
  unfold profile_rows. rewrite list_elem_of_fmap. intros (q & -> & Hq). rewrite order_by_perm, list_elem_of_filter, elem_of_table in Hq.
  destruct Hq as (HP & k & Hk). split; [done|]. by exists k, q.
Qed.

Lemma own_profile_row_spec pk d p : own_profile_row pk d = Some p →
  pst_pubkey p = pk ∧ live_profile p = true ∧ ∃ k q, posts d !! k = Some q ∧ post_row q = p.
Proof.
  unfold own_profile_row. intros Hp%head_Some_elem_of. apply elem_of_profile_rows in Hp as [HP Hk].
  apply andb_true_iff in HP as [Hl Hpk]. apply bool_decide_eq_true in Hpk. by split_and!.
Qed.

(** ** Likes and matches *)

(** A reaction of one account, [+], to a profile event of the other. *)
Definition likes (d : db) (a b : str) : Prop :=
  ∃ k r, reactions d !! k = Some r ∧ rct_content r = Some (lit "+") ∧ rct_pubkey r = a ∧ profile_owner (rct_event_id r) d = Some b.

Lemma own_profile_id_owner user id d : own_profile_id user id d = true ↔ profile_owner id d = Some user.
Proof.
  unfold own_profile_id, profile_owner. destruct (posts d !! id) as [p|]; [|done]. cbn.
  destruct (_ =? _)%Z; [|done]. cbn. rewrite bool_decide_eq_true. naive_solver.
Qed.

Lemma likes_back_likes user owner d : likes_back user owner d = true ↔ likes d owner user.
Proof.
  unfold likes_back, likes, liked. rewrite existsb_exists. split.
  - intros (r & Hr & HP). apply list_elem_of_In, elem_of_table in Hr as [k Hk].
    rewrite !andb_true_iff, !bool_decide_eq_true, own_profile_id_owner in HP. naive_solver.
  - intros (k & r & Hk & Hc & Hp & Ho). exists r. split; [apply list_elem_of_In, elem_of_table; eauto|].
    by rewrite !andb_true_iff, !bool_decide_eq_true, own_profile_id_owner.
Qed.

(** The rows behind the matches, before the limit. *)
Definition match_rows (user : str) (s : dating) : list ReactionRow :=
  reaction_rows (λ r, mutual user (dat_db s) r
        && match profile_owner (rct_event_id r) (dat_db s) with Some owner => negb (hidden s user owner) | None => false end) (dat_db s).

Lemma elem_of_match_rows user s r o :
  profile_owner (rct_event_id r) (dat_db s) = Some o →
  r ∈ match_rows user s ↔
    (∃ k, reactions (dat_db s) !! k = Some r) ∧ rct_content r = Some (lit "+") ∧ rct_pubkey r = user ∧
    likes (dat_db s) o user ∧ hidden s user o = false.
Proof.
  intros Ho. unfold match_rows. rewrite elem_of_reaction_rows. unfold mutual, liked. rewrite Ho.
  rewrite !andb_true_iff, !bool_decide_eq_true, negb_true_iff, likes_back_likes. naive_solver.
Qed.

Lemma hidden_comm s a b : hidden s a b = hidden s b a.
Proof.
  unfold hidden. destruct (bool_decide (is_Some (dat_unmatches s !! (a, b)))), (bool_decide (is_Some (dat_unmatches s !! (b, a)))),
    (bool_decide (is_Some (dat_blocks s !! (a, b)))), (bool_decide (is_Some (dat_blocks s !! (b, a)))); done.
Qed.

Lemma match_rows_owner user s o :
  o ∈ omap (λ r, profile_owner (rct_event_id r) (dat_db s)) (match_rows user s) ↔
    likes (dat_db s) user o ∧ likes (dat_db s) o user ∧ hidden s user o = false.
Proof.
  rewrite list_elem_of_omap. split.
  - intros (r & Hr & Ho). apply (elem_of_match_rows user s r o Ho) in Hr as ([k Hk] & Hc & Hp & Hl & Hh).
    split_and!; [|done|done]. by exists k, r.
  - intros ((k & r & Hk & Hc & Hp & Ho) & Hl & Hh). exists r. split; [|done].
    apply (elem_of_match_rows user s r o Ho). eauto 10.
Qed.

Lemma omap_length_le {A B} (f : A → option B) l : length (omap f l) ≤ length l.
Proof. induction l as [|x l IH]; [done|]. cbn. destruct (f x); cbn; lia. Qed.

Lemma matches_facts user s o :
  (o ∈ match_owners user s → likes (dat_db s) user o ∧ likes (dat_db s) o user ∧ hidden s user o = false) ∧
  (length (match_rows user s) ≤ 100 →
   likes (dat_db s) user o ∧ likes (dat_db s) o user ∧ hidden s user o = false → o ∈ match_owners user s).
Proof.
  unfold match_owners. fold (match_rows user s). split.
  - intros Ho%subseteq_take. by apply match_rows_owner.
  - intros Hl Ho. rewrite take_ge; [by apply match_rows_owner|]. etrans; [apply omap_length_le|done].
Qed.

(** Whoever [dating_fetch_matches] shows to an account was liked by it,
    likes it back, and neither has unmatched or blocked the other; and while
    at most 100 likes are mutual, everyone of whom that holds is shown. *)
Theorem matches_mutual user s o :
  (o ∈ match_owners user s → likes (dat_db s) user o ∧ likes (dat_db s) o user ∧ hidden s user o = false) ∧
  (length (match_rows user s) ≤ 100 →
   likes (dat_db s) user o ∧ likes (dat_db s) o user ∧ hidden s user o = false → o ∈ match_owners user s).
Proof. apply matches_facts. Qed.

(** ** Unmatching and blocking *)

(** Neither account is shown to the other: not as a match, not as a like, not
    in the deck, whatever its limit and audience. *)
Definition apart (s : dating) (a b : str) : Prop :=
  b ∉ match_owners a s ∧ (∀ r, r ∈ like_rows a s → rct_pubkey r ≠ b) ∧ (∀ limit authors p, p ∈ deck a limit authors s → pst_pubkey p ≠ b).

Lemma hidden_apart s a b : hidden s a b = true → apart s a b ∧ apart s b a.
Proof.
  intros Hab. assert (∀ x y, hidden s x y = true → apart s x y) as Hone; [|split; apply Hone; [done|by rewrite hidden_comm]].
  clear. intros x y Hh. split_and!.
  - intros Ho. apply (proj1 (matches_facts x s y)) in Ho as (_ & _ & Hn). congruence.
  - unfold like_rows. intros r Hr%subseteq_take <-. apply elem_of_reaction_rows in Hr as [HP _].
    rewrite !andb_true_iff, negb_true_iff in HP. destruct HP as [_ Hn]. congruence.
  - unfold deck, profile_deck. intros limit authors p Hp%subseteq_take <-. apply elem_of_profile_rows in Hp as [HP _].
    rewrite !andb_true_iff, !negb_true_iff in HP. destruct HP as [[_ [[_ Hn] _]] _]. congruence.
Qed.

(** After a successful unmatch or block neither account is shown to the
    other, and the calls changed nothing but that one row. *)
Theorem parted now user other s s' b :
  dating_unmatch now user other s = (s', Ok b) ∨ dating_block_profile now user other s = (s', Ok b) →
  apart s' (clean user) (clean other) ∧ apart s' (clean other) (clean user) ∧
  dat_db s' = dat_db s ∧ dat_reports s' = dat_reports s ∧ dat_outbox s' = dat_outbox s ∧
  (∀ k, k ≠ (clean user, clean other) → dat_unmatches s' !! k = dat_unmatches s !! k ∧ dat_blocks s' !! k = dat_blocks s !! k).
Proof.
  intros Hrun. enough (hidden s' (clean user) (clean other) = true ∧ dat_db s' = dat_db s ∧ dat_reports s' = dat_reports s ∧
    dat_outbox s' = dat_outbox s ∧
    (∀ k, k ≠ (clean user, clean other) → dat_unmatches s' !! k = dat_unmatches s !! k ∧ dat_blocks s' !! k = dat_blocks s !! k))
    as (Hh & Hrest) by (destruct (hidden_apart _ _ _ Hh); split; [done|split; done]).
  unfold dating_unmatch, dating_block_profile, block_upsert, require_identity, signer_pubkey in Hrun.
  destruct Hrun as [Hrun|Hrun]; inv_act; cbn [on_unmatches on_blocks dat_db dat_reports dat_outbox dat_unmatches dat_blocks].
  - split; [|split_and!; [done..|]].
    + unfold hidden, unmatch_upsert. cbn [on_unmatches dat_unmatches]. rewrite !clean_idemp, lookup_insert_eq. done.
    + intros k Hk. unfold unmatch_upsert. rewrite !clean_idemp, lookup_insert_ne by done. done.
  - split; [|split_and!; [done..|]].
    + unfold hidden. cbn [on_blocks dat_blocks dat_unmatches]. rewrite !clean_idemp, lookup_insert_eq. by rewrite !orb_true_r.
    + intros k Hk. rewrite !clean_idemp, lookup_insert_ne, lookup_delete_ne by done. done.
Qed.

(** ** The unlocked identity *)

Definition unlocked (s : dating) (who : str) : Prop := ∃ k, dat_signer s = Some k ∧ clean k = clean who.

Lemma dating_identity_run {B} who (k : unit → act dating B) s :
  (require_identity who ≫= k) s =
    match dat_signer s with
    | Some a => if ct_eq (clean a) (clean who) then k () s else (s, err "identity mismatch: caller is not the claimed pubkey")
    | None => (s, err "signer locked")
    end.
Proof. unfold require_identity, signer_pubkey. by destruct (dat_signer s) as [a|] eqn:E; repeat (act_run; rewrite ?E). Qed.

(** Locked, or unlocked for someone else: the call ends at once. *)
Lemma not_unlocked {B} who (k : unit → act dating B) s : ¬ unlocked s who → ∃ e, (require_identity who ≫= k) s = (s, Err e).
Proof.
  intros Hn. rewrite dating_identity_run. destruct (dat_signer s) as [a|] eqn:E; [|by eexists].
  destruct (ct_eq (clean a) (clean who)) eqn:Hc; [|by eexists]. apply ct_eq_iff in Hc. destruct Hn. by exists a.
Qed.

(** Every call but the update of a profile is refused, and changes
    nothing, unless the account it acts for is the unlocked one. *)
Theorem identity_required r s :
  (if r is Update _ _ _ then False else True) → ¬ unlocked s (caller r) → (perform r s).1 = s ∧ ∃ e, (perform r s).2 = Err e.
Proof.
  intros Hr Hn. assert (Hc : ¬ unlocked s (clean (caller r))) by (unfold unlocked in *; by rewrite clean_idemp).
  destruct r; try done; unfold perform, run_call, caller in *;
    unfold dating_create_profile, dating_delete_profile, dating_like, dating_unlike, dating_superlike, react, dating_pass, dating_reset_passes,
      dating_unmatch, dating_block_profile, dating_unblock_profile, dating_report_profile;
    match goal with |- context [(require_identity ?who ≫= ?k) s] =>
      let e := fresh in let E := fresh in destruct (not_unlocked who k s) as [e E]; [done|rewrite E; by eauto] end.
Qed.

(** ** Likes *)

(** The identifier a like is stored under. *)
Definition like_id (user profile : str) : str := clean (lit "reaction:" ++ clean user ++ lit ":" ++ clean profile).

(** A stored reaction of the account to that profile keeps its event. *)
Lemma reaction_upsert_kept row d old :
  reactions d !! clean (rct_id row) = Some old → rct_event_id old ≠ clean (rct_event_id row) →
  rct_content row ≠ Some (lit "-") → (∀ k r, reactions d !! k = Some r → own_reaction (clean (rct_event_id row)) (clean (rct_pubkey row)) r = false) →
  reactions (reaction_upsert row d) = <[clean (rct_id row) := mk_reaction (rct_id old) (rct_pubkey old) (rct_event_id old) (rct_kind old)
                                           (rct_content row) (rct_created_at old)]> (reactions d).
Proof.
  intros Ho Hne Hc Hown. unfold reaction_upsert.
  assert (filter (λ r, own_reaction (clean (rct_event_id row)) (clean (rct_pubkey row)) r = true) (map_to_list (reactions d)).*2 = []) as ->.
  { apply elem_of_nil_inv. intros r. rewrite list_elem_of_filter, elem_of_table. intros [Ht [k Hk]]. by rewrite (Hown k r Hk) in Ht. }
  assert (Hf : filter (λ kr, own_reaction (clean (rct_event_id row)) (clean (rct_pubkey row)) kr.2 = false) (reactions d) = reactions d)
    by (apply map_filter_id; intros k r Hk; cbn [snd]; by apply (Hown k)).
  cbn [head]. rewrite bool_decide_eq_false_2 by done. unfold upsert, ensure_exists, on_users, on_reactions. cbn [reactions]. by rewrite Hf, Ho.
Qed.

(** An account that had liked a profile, and likes it again after the
    profile has been published anew, is told that it succeeded; but the row
    stays with the former event, so the new profile counts as not reacted to,
    it stays in the deck, and its owner does not see the like. *)
Theorem like_of_updated_profile_lost now user profile p old s s' b :
  let d := dat_db s in
  clean (pst_id p) = pst_id p → own_profile_row (clean profile) d = Some p →
  reactions d !! like_id user profile = Some old → rct_pubkey old = clean user → rct_event_id old ≠ pst_id p →
  reacted_to (clean user) (pst_id p) d = false →
  dating_like now user profile s = (s', Ok b) →
  reacted_to (clean user) (pst_id p) (dat_db s') = false ∧
  ∀ r, r ∈ like_rows (clean profile) s' → rct_event_id r = pst_id p → rct_pubkey r ≠ clean user.
Proof.
  intros d Hid Hp Hold Hpk Hne Hnot Hrun.
  assert (Hnone : ∀ k r, reactions d !! k = Some r → rct_pubkey r = clean user → rct_event_id r ≠ pst_id p).
  { intros k r Hk Hru Hre. unfold reacted_to in Hnot. apply bool_decide_eq_false, dec_stable in Hnot.
    assert (r ∈ reaction_rows (λ r, bool_decide (rct_pubkey r = clean user) && bool_decide (rct_event_id r = pst_id p)) d) as Hin.
    { apply elem_of_reaction_rows. rewrite !bool_decide_eq_true_2 by done. eauto. }
    rewrite Hnot in Hin. by apply elem_of_nil in Hin. }
  assert (Hrow : reactions (dat_db s') = <[like_id user profile := mk_reaction (rct_id old) (rct_pubkey old) (rct_event_id old) (rct_kind old)
                                           (Some (lit "+")) (rct_created_at old)]> (reactions d)).
  { unfold dating_like, react in Hrun. rewrite dating_identity_run in Hrun. destruct (dat_signer s); [|done]. destruct (ct_eq _ _); [|done].
    rewrite !run_guard in Hrun. destruct (_ =? _)%Z; [|done]. destruct (negb _); [|done]. rewrite run_reads, run_found in Hrun.
    fold d in Hrun. rewrite Hp in Hrun. unfold sign_event, signer_pubkey in Hrun. inv_act.
    match goal with Hs : (let '(_, _) := ?x in _) _ = _ |- _ => destruct x as [event_id signed] end. inv_act.
    cbn [on_outbox dat_on_db dat_db]. fold d. rewrite (reaction_upsert_kept _ _ old); cbn [rct_id rct_event_id rct_pubkey rct_content]; try done.
    - by rewrite Hid.
    - intros k r Hk. rewrite Hid, clean_idemp. unfold own_reaction. apply andb_false_iff.
      destruct (decide (rct_pubkey r = clean user)) as [Hu|Hu]; [left|right]; apply bool_decide_eq_false; [by eapply Hnone|done]. }
  assert (Hstill : ∀ k r, reactions (dat_db s') !! k = Some r → rct_pubkey r = clean user → rct_event_id r ≠ pst_id p).
  { intros k r. rewrite Hrow, lookup_insert_Some. intros [[<- <-]|[_ Hk]]; [done|]. by eapply Hnone. }
  split.
  - unfold reacted_to. apply bool_decide_eq_false. intros Hex. apply Hex, elem_of_nil_inv. intros r Hr.
    apply elem_of_reaction_rows in Hr as [HP [k Hk]]. apply andb_true_iff in HP as [Hu He]. apply bool_decide_eq_true in Hu, He. by eapply Hstill.
  - unfold like_rows. intros r Hr%subseteq_take He Hu. apply elem_of_reaction_rows in Hr as [_ [k Hk]]. by eapply Hstill.
Qed.

(** ** Publishing a profile *)

(** Posts are stored under their identifier. *)
Definition keyed (d : db) : Prop := ∀ k p, posts d !! k = Some p → pst_id (post_row p) = k.

Lemma own_profile_only user d k p :
  posts d !! k = Some p → live_profile (post_row p) = true → pst_pubkey (post_row p) = user →
  (∀ k' q, posts d !! k' = Some q → live_profile (post_row q) = true → pst_pubkey (post_row q) = user → k' = k) →
  own_profile_row user d = Some (post_row p).
Proof.
  intros Hk Hl Hu Honly. unfold own_profile_row, profile_rows. erewrite (only_row (posts d) _ k p); [|done| |].
  - assert (order_by (desc (λ p, pst_created_at (post_row p))) [p] = [p]) as -> by (apply Permutation_singleton_r, order_by_perm). done.
  - cbn beta. by rewrite Hl, bool_decide_eq_true_2.
  - cbn beta. intros k' q Hq HP. apply andb_true_iff in HP as [Hlq Hpq]. apply bool_decide_eq_true in Hpq. by eapply Honly.
Qed.

Lemma with_deleted_dead p : live_profile (post_row (with_deleted p)) = false.
Proof. unfold live_profile. cbn. apply andb_false_r. Qed.

(** The profiles that survive are the one that was spared. *)
Lemma delete_profiles_live user but d k q :
  posts (delete_profiles user but d) !! k = Some q → live_profile (post_row q) = true → pst_pubkey (post_row q) = user →
  posts d !! k = Some q ∧ Some (pst_id (post_row q)) = but.
Proof.
  unfold delete_profiles, on_posts. cbn [posts]. rewrite lookup_fmap. destruct (posts d !! k) as [p|]; [|done]. cbn [fmap option_fmap option_map].
  intros [= <-]. case_match eqn:E; [by rewrite with_deleted_dead|]. intros Hl Hu. split; [done|].
  unfold live_profile in Hl. apply andb_true_iff in Hl as [Hkind _]. rewrite Hkind, bool_decide_eq_true_2 in E by done. cbn in E.
  by apply negb_false_iff, bool_decide_eq_true in E.
Qed.

Lemma publish_profile_run now user content name s s' signed :
  publish_profile now user content name s = (s', Ok signed) →
  ∃ key eid, dat_signer s = Some key ∧ dat_sign key KIND_PROFILE profile_tags (json_print content) = Ok (eid, signed) ∧
    dat_db s' = delete_profiles user (Some eid) (store_post (mk_post_row eid user (json_print content) KIND_PROFILE now (json_tags profile_tags)
      None None None [] [] name (lit "pending") false None None false None) (dat_db s)).
Proof.
  unfold publish_profile, sign_event, signer_pubkey. intros Hrun. inv_act.
  match goal with Hs : (let '(_, _) := ?x in _) _ = _ |- _ => destruct x as [eid sj] end. inv_act.
  match goal with Hs : upsert_post_row _ _ _ _ _ _ _ _ = _ |- _ => unfold upsert_post_row, post_upsert in Hs; destruct (row_too_big _ _); [done|]; injection Hs as <- end.
  do 2 eexists. by split_and!.
Qed.

(** The new row, and no other profile of the account. *)
Lemma published_row now user content name s s' signed :
  clean user = user → keyed (dat_db s) → publish_profile now user content name s = (s', Ok signed) →
  ∃ key eid, dat_signer s = Some key ∧ dat_sign key KIND_PROFILE profile_tags (json_print content) = Ok (eid, signed) ∧
    (clean eid = eid → posts (dat_db s) !! eid = None →
     own_profile_row user (dat_db s') = Some (mk_post_row eid user (json_print content) KIND_PROFILE now (json_tags profile_tags)
      None None None [] [] name (lit "pending") false None None false None) ∧
     (∀ k q, posts (dat_db s') !! k = Some q → live_profile (post_row q) = true → pst_pubkey (post_row q) = user → k = eid)).
Proof.
  intros Huser Hkey (key & eid & Hsig & Hsign & Hdb)%publish_profile_run. exists key, eid. split_and!; [done|done|].
  intros Hid Hfresh. rewrite Hdb. set (row := mk_post_row eid user _ _ _ _ _ _ _ _ _ _ _ _ _ _ _ _).
  assert (Hrow : normalize_post row = row) by (unfold normalize_post; subst row; cbn -[clean]; by rewrite Hid, Huser).
  assert (Hposts : posts (store_post row (dat_db s)) = <[eid := mk_post row 0]> (posts (dat_db s))).
  { unfold store_post. rewrite Hrow. unfold on_posts, upsert, ensure_exists, on_users. cbn [posts].
    change (pst_id row) with eid. by rewrite Hfresh. }
  assert (Honly : ∀ k q, posts (delete_profiles user (Some eid) (store_post row (dat_db s))) !! k = Some q →
    live_profile (post_row q) = true → pst_pubkey (post_row q) = user → k = eid).
  { intros k q Hk Hl Hu. destruct (delete_profiles_live _ _ _ _ _ Hk Hl Hu) as [Hq [= Hqid]].
    rewrite Hposts, lookup_insert_Some in Hq. destruct Hq as [[<- _]|[_ Hq]]; [done|]. rewrite <-(Hkey _ _ Hq). done. }
  split; [|done]. apply (own_profile_only user _ eid (mk_post row 0)); [|done|done|intros; by eapply Honly].
  unfold delete_profiles, on_posts. cbn [posts]. rewrite lookup_fmap, Hposts, lookup_insert_eq. cbn [fmap option_fmap option_map].
  rewrite (bool_decide_eq_true_2 (Some _ = Some _)) by done. by rewrite andb_false_r.
Qed.

Lemma carry_lookup key k prev content :
  get_field key (JObj (carry k prev content)) =
    match (if decide (key = k) then get_field k prev else None) with Some v => Some v | None => get_field key (JObj content) end.
Proof.
  unfold carry. destruct (get_field k prev) as [v|] eqn:E.
  - rewrite get_set_field. by case_decide.
  - by case_decide.
Qed.

Lemma carries_lookup key keys prev content :
  get_field key (JObj (foldr (λ k c, carry k prev c) content keys)) =
    match (if decide (key ∈ keys) then get_field key prev else None) with Some v => Some v | None => get_field key (JObj content) end.
Proof.
  induction keys as [|k keys IH]; [done|]. cbn [foldr]. rewrite carry_lookup, IH.
  destruct (decide (key = k)) as [->|Hne]; [rewrite (decide_True (P := k ∈ k :: keys)) by left|].
  - destruct (get_field k prev) as [v|] eqn:E; [done|]. by case_decide.
  - destruct (decide (key ∈ keys)) as [Hin|Hin].
    + by rewrite decide_True by (by right).
    + by rewrite decide_False by (rewrite elem_of_cons; naive_solver).
Qed.

Definition kept_keys : list (list Z) := [lit "verifiedMutualFriends"; lit "dealbreakers"; lit "preferenceWeights"; lit "age"].

(** What is not on the form comes from the former content. *)
Lemma carried_lookup old prev content key :
  old ≫= (λ p, json_parse (pst_content p)) = Some prev →
  get_field key (JObj (carried_content old content)) =
    match (if decide (key ∈ kept_keys) then get_field key prev else None) with Some v => Some v | None => get_field key (JObj content) end.
Proof. intros Hold. unfold carried_content. rewrite Hold. apply (carries_lookup key kept_keys). Qed.

(** C30: whoever is unlocked, an update that succeeds makes the new row the
    only live profile of the account it names. Its content is that of the form,
    but for the age, the weights, the dealbreakers and the friends, which are
    those of the former profile where it had them. *)
Theorem update_replaces_profile now user a s s' b :
  clean user = user → keyed (dat_db s) → dating_update_profile now user a s = (s', Ok b) →
  ∃ key content fields eid signed, dat_signer s = Some key ∧ form_content a = Ok content ∧
    fields = carried_content (own_profile_row user (dat_db s)) content ∧
    dat_sign key KIND_PROFILE profile_tags (json_print fields) = Ok (eid, signed) ∧
    (∀ prev name, own_profile_row user (dat_db s) ≫= (λ p, json_parse (pst_content p)) = Some prev →
      get_field name (JObj fields) =
        match (if decide (name ∈ kept_keys) then get_field name prev else None) with Some v => Some v | None => get_field name (JObj content) end) ∧
    (clean eid = eid → posts (dat_db s) !! eid = None →
      (∃ row, own_profile_row user (dat_db s') = Some row ∧ pst_id row = eid ∧ pst_content row = json_print fields ∧ pst_created_at row = now) ∧
      (∀ k q, posts (dat_db s') !! k = Some q → live_profile (post_row q) = true → pst_pubkey (post_row q) = user → k = eid)).
Proof.
  intros Hu Hk Hrun. unfold dating_update_profile in Hrun. inv_act.
  match goal with Hp : publish_profile _ _ _ _ _ = _ |- _ => apply (published_row _ _ _ _ _ _ _ Hu Hk) in Hp as (key & eid & Hsig & Hsign & Hpub) end.
  do 5 eexists. split_and!; [done|done|done|done| |].
  - intros prev name. apply carried_lookup.
  - intros Hid Hfresh. destruct (Hpub Hid Hfresh) as [Hown Honly]. split; [|done]. eexists. by split_and!.
Qed.

(** ** The order of the deck *)

Lemma rank_map_lookup sorted i s :
  NoDup (so_pubkey <$> sorted) → sorted !! i = Some s → rank_map sorted !! so_pubkey s = Some (Z.of_nat i, f32_of_Z (so_compatibility_score s)).
Proof.
  intros Hnd Hi. unfold rank_map. apply elem_of_list_to_map.
  - rewrite fmap_reverse, fmap_imap, reverse_Permutation. cbn. by rewrite (imap_const so_pubkey).
  - rewrite elem_of_reverse. apply elem_of_lookup_imap. by exists i, s.
Qed.

Definition stamp (m : gmap str (Z * f32)) (c : DatingCardInfo) : DatingCardInfo :=
  match m !! crd_pubkey c with Some (_, score) => with_score score c | None => c end.

Lemma stamp_same m c : with_score f64_zero (stamp m c) = with_score f64_zero c ∧ crd_pubkey (stamp m c) = crd_pubkey c.
Proof. unfold stamp. by destruct (m !! crd_pubkey c) as [[? ?]|]. Qed.

(** A list sorted by the places of its keys in another one is that one. *)
Lemma ranked_unique {B} (rank : str → Z) (g : str → str * B) (pks : list (list Z)) (l : list (str * B)) :
  (∀ i pk, pks !! i = Some pk → rank pk = Z.of_nat i) → (∀ pk, (g pk).1 = pk) → l ≡ₚ g <$> pks →
  StronglySorted (λ x y, (rank x.1 <= rank y.1)%Z) l → l = g <$> pks.
Proof.
  intros Hrank Hg Hperm Hsort. apply (StronglySorted_unique_strong (λ x y : str * B, (rank x.1 <= rank y.1)%Z)); [|done| |done].
  - intros x y Hx Hy Hxy Hyx. rewrite Hperm in Hx. apply list_elem_of_fmap in Hx as (a & -> & [i Hi]%list_elem_of_lookup),
      Hy as (b & -> & [j Hj]%list_elem_of_lookup). rewrite !Hg in *. rewrite (Hrank i a Hi), (Hrank j b Hj) in *.
    assert (i = j) as -> by lia. congruence.
  - clear l Hperm Hsort. assert (∀ i pk, pks !! i = Some pk → rank pk = (0 + Z.of_nat i)%Z) as Hr by done. clear Hrank. revert Hr. generalize 0%Z.
    induction pks as [|pk pks IH]; intros z Hr; [constructor|]. rewrite fmap_cons. constructor.
    + apply (IH (z + 1)%Z). intros i q Hi. rewrite (Hr (S i) q Hi). lia.
    + apply Forall_fmap, Forall_lookup. intros i q Hi. cbn. rewrite !Hg, (Hr 0 pk eq_refl), (Hr (S i) q Hi). lia.
Qed.

(** Ranking cards of distinct accounts loses none and changes nothing but
    their scores: it gives them in the order of the compatibility sort, each
    stamped with the score it has there, and those decrease. *)
Theorem deck_ranked user cards d :
  (zlen cards <= MAX_PROFILES)%Z → NoDup (crd_pubkey <$> cards) →
  ∃ sorted out,
    sort_dating_profiles (mk_sort_input (profile_input_from_card <$> cards) (self_profile_input user d) [] None) = Ok sorted ∧
    rank_cards_by_interest_distance user cards d = Ok out ∧
    (λ c, (crd_pubkey c, crd_score c)) <$> out = (λ s, (so_pubkey s, f32_of_Z (so_compatibility_score s))) <$> sorted ∧
    with_score f64_zero <$> out ≡ₚ with_score f64_zero <$> cards ∧
    StronglySorted (λ x y, (so_compatibility_score y <= so_compatibility_score x)%Z) sorted.
Proof.
  intros Hlen Hnd. set (input := mk_sort_input (profile_input_from_card <$> cards) (self_profile_input user d) [] None).
  destruct (sort_profiles_total input) as [sorted Hs].
  destruct (sort_profiles_spec input sorted) as [Hperm Hdown]; [subst input; unfold zlen; cbn [si_profiles]; by rewrite length_fmap|done|].
  assert (Hpks : so_pubkey <$> sorted ≡ₚ crd_pubkey <$> cards) by (rewrite Hperm; subst input; cbn [si_profiles]; by rewrite <-list_fmap_compose).
  set (m := rank_map sorted). set (rank := λ pk : str, default u64_max (fst <$> m !! pk)).
  set (out := stable_sort_by (λ a b, Z.compare (rank (crd_pubkey a)) (rank (crd_pubkey b))) (stamp m <$> cards)).
  assert (Hout : out ≡ₚ stamp m <$> cards) by apply stable_sort_perm.
  assert (Hmem : ∀ i s, sorted !! i = Some s → m !! so_pubkey s = Some (Z.of_nat i, f32_of_Z (so_compatibility_score s)))
    by (intros i s; apply rank_map_lookup; by rewrite Hpks).
  set (g := λ pk : str, (pk, default f64_zero (snd <$> m !! pk))).
  assert (Hg : (λ s, (so_pubkey s, f32_of_Z (so_compatibility_score s))) <$> sorted = g <$> (so_pubkey <$> sorted)).
  { rewrite <-list_fmap_compose. apply list_fmap_ext. intros i s Hi. cbn. unfold g. by rewrite (Hmem i s Hi). }
  exists sorted, out. split_and!; [done| | | |by apply Hdown].
  - unfold rank_cards_by_interest_distance. case_bool_decide as Hnil; [apply nil_length_inv in Hnil; by subst cards|]. fold input. by rewrite Hs.
  - rewrite Hg. apply (ranked_unique rank).
    + intros i pk Hi. rewrite list_lookup_fmap in Hi. destruct (sorted !! i) as [s|] eqn:E; [|done]. injection Hi as <-.
      unfold rank. by rewrite (Hmem i s E).
    + done.
    + rewrite Hout, Hpks, <-!list_fmap_compose. apply eq_perm, list_fmap_ext. intros i c Hc. cbn. unfold stamp, g.
      assert (crd_pubkey c ∈ so_pubkey <$> sorted) as (s & Hs' & [j Hj]%list_elem_of_lookup)%list_elem_of_fmap
        by (rewrite Hpks; apply list_elem_of_fmap; exists c; split; [done|by eapply list_elem_of_lookup_2]).
      rewrite Hs', (Hmem j s Hj). cbn. by rewrite Hs'.
    + eapply StronglySorted_fmap; [|apply stable_sort_sorted, (key_total (λ c, rank (crd_pubkey c)))]. intros x y. cbn beta. by rewrite Z.compare_le_iff.
  - rewrite Hout, <-list_fmap_compose. apply eq_perm, list_fmap_ext. intros i c _. apply stamp_same.
Qed.

(** ** Scores *)

Definition with_weights (w : option PreferenceWeights) (p : DatingProfileInput) : DatingProfileInput :=
  mk_profile (event_id p) (pubkey p) (age p) (gender p) (seeking p) (height p) (body_type p) (smoking p) (drinking p) (relationship_intent p)
    (location_geohash p) (max_distance_km p) (interests p) (politics p) (ethnicity p) (education p) (language p) w (dealbreakers p)
    (verified_mutual_friends p) (liked_by_me p) (liked_me p) (liker_total_likes p).

(** Fields with the same scores and weights of the same effect. *)
Lemma check_fields_weights db acc l l' :
  Forall2 (λ f f' : str * f64 * option f64, f.1 = f'.1 ∧ default one (clamp_weight <$> f.2) = default one (clamp_weight <$> f'.2)) l l' →
  check_fields db acc l = check_fields db acc l'.
Proof.
  intros Hl. revert acc. induction Hl as [|[[n x] w] [[n' x'] w'] l l' [[= <- <-] Hw] _ IH]; [done|]. intros acc. cbn [check_fields].
  assert (check_field db acc (n, x, w) = check_field db acc (n, x, w')) as -> by (unfold check_field; cbn [fst snd] in Hw; by rewrite Hw).
  destruct (check_field db acc (n, x, w')); [apply IH|done].
Qed.

(** The suggested weights, 2 for the interests and 1.5 for the distance,
    are clamped to 1, which is what a missing weight counts: no score differs
    from that of a profile without weights. *)
Theorem suggested_weights_flat self_p other_p d :
  compute_compatibility_score_d (with_weights (Some suggestion_weights) self_p) other_p d =
  compute_compatibility_score_d (with_weights None self_p) other_p d.
Proof.
  unfold compute_compatibility_score_d. rewrite (check_fields_weights _ _ _ (scored_fields (with_weights None self_p) other_p d)); [done|].
  unfold scored_fields. apply Forall2_app; [|destruct d]; repeat constructor.
Qed.

(** The traits that count as a half when the viewer has none, whatever the
    candidate has; and those that do when the candidate has one. *)
Definition never_known : list (list Z) := [lit "ethnicity"; lit "education"; lit "politics"; lit "relationship_intent"; lit "language"].
Definition states (p : DatingProfileInput) (name : str) : Prop :=
  (name = lit "height" ∧ is_Some (height p)) ∨ (name = lit "body_type" ∧ is_Some (body_type p)) ∨
  (name = lit "smoking" ∧ is_Some (smoking p)) ∨ (name = lit "drinking" ∧ is_Some (drinking p)).

(** A profile of which none of these traits was read. *)
Definition unread (a : DatingProfileInput) : Prop :=
  height a = None ∧ body_type a = None ∧ smoking a = None ∧ drinking a = None ∧ politics a = None ∧ ethnicity a = None ∧ education a = None ∧
  language a = None ∧ relationship_intent a = None.

Lemma self_unread user d : unread (self_profile_input user d).
Proof. unfold self_profile_input. by destruct (own_profile_row user d ≫= _). Qed.

Ltac find_field := eexists; apply elem_of_app; left; repeat first [apply list_elem_of_here | apply list_elem_of_further].

Lemma unread_half a p km name : unread a → name ∈ never_known ∨ states p name → ∃ w, (name, half, w) ∈ scored_fields a p km.
Proof.
  intros (Hh & Hb & Hs & Hd & Hp & He & Hed & Hl & Hi) Hn. unfold scored_fields. rewrite Hh, Hb, Hs, Hd, Hp, He, Hed, Hl, Hi.
  unfold score_height, score_body_type, score_smoking, score_drinking, score_politics, score_ethnicity, score_education, score_language,
    score_relationship_intent, score_interests, both.
  destruct Hn as [Hn|[[-> [x ->]]|[[-> [x ->]]|[[-> [x ->]]|[-> [x ->]]]]]]; [|find_field..].
  unfold never_known in Hn. rewrite !elem_of_cons in Hn.
  destruct Hn as [->|[->|[->|[->|[->|Hn]]]]]; [..|by apply elem_of_nil in Hn].
  - destruct (ethnicity p); find_field.
  - destruct (education p); find_field.
  - destruct (politics p); find_field.
  - destruct (relationship_intent p); find_field.
  - destruct (language p); find_field.
Qed.

(** The viewer's profile is read for the ranking without most of its
    traits, so a dealbreaker on one of these rejects the candidates that state
    it, or all of them, whatever the viewer entered. *)
Theorem unread_dealbreaker_rejects user d p km name :
  has_dealbreaker (dealbreakers (self_profile_input user d)) name = true → name ∈ never_known ∨ states p name →
  compute_compatibility_score_d (self_profile_input user d) p km = 0%Z.
Proof.
  intros Hd Hn. destruct (unread_half (self_profile_input user d) p km name (self_unread user d) Hn) as [w Hw].
  apply (dealbreaker_rejects _ _ _ _ _ _ Hw Hd). by vm_compute.
Qed.

Lemma prefer_outcome key prefs obj :
  match prefer key prefs obj with
  | Ok obj' => obj' = obj ∨ ∃ fields, obj' = JObj fields
  | Err e => e = Panic ∧ is_Some (get_field key prefs) ∧ obj ≠ JNull ∧ ∀ fields, obj ≠ JObj fields
  end.
Proof.
  unfold prefer. destruct (get_field key prefs) as [v|]; [|by left]. destruct obj; cbn; try (split_and!; [done|by eexists|done..]); right; by eexists.
Qed.

(** [dating_calculate_score], given preferences of an admissible size,
    yields a whole number of at most 100, or it panics: when the account's own
    profile is stored as something that has no fields, and the preferences name
    weights or dealbreakers to put there. *)
Theorem score_call_outcome user target prefs d :
  (zlen prefs <= 1024 * 1024)%Z →
  match calculate_score user target prefs d with
  | Ok x => ∃ n, (0 ≤ n ≤ 100)%Z ∧ x = f32_of_Z n
  | Err e => e = Panic ∧ ∃ row j, own_profile_row (clean user) d = Some row ∧ json_parse (pst_content row) = Some j ∧
      j ≠ JNull ∧ (∀ fields, j ≠ JObj fields) ∧
      let p := default JNull (json_parse prefs) in is_Some (get_field (lit "preferenceWeights") p) ∨ is_Some (get_field (lit "dealbreakers") p)
  end.
Proof.
  intros Hlen. assert (Hzero : ∃ n, (0 ≤ n ≤ 100)%Z ∧ f64_zero = f32_of_Z n) by (exists 0%Z; split; [lia|by vm_compute]).
  unfold calculate_score, ensure. rewrite (proj2 (Z.leb_le _ _)) by done. cbn [mbind result_bind].
  destruct (own_profile_row (clean user) d) as [row|]; [|done]. destruct (own_profile_row (clean target) d) as [trow|]; [|done].
  set (p := default JNull (json_parse prefs)). set (obj := default (JObj []) (json_parse (pst_content row))).
  assert (Hobj : obj ≠ JNull → (∀ fields, obj ≠ JObj fields) → json_parse (pst_content row) = Some obj ∧ obj ≠ JNull ∧ ∀ fields, obj ≠ JObj fields).
  { subst obj. destruct (json_parse (pst_content row)); [done|]. cbn. intros _ Hf. by destruct (Hf []). }
  pose proof (prefer_outcome (lit "preferenceWeights") p obj) as H1'. destruct (prefer _ p obj) as [obj1|e] eqn:E1; cbn [mbind result_bind].
  - pose proof (prefer_outcome (lit "dealbreakers") p obj1) as H2'. destruct (prefer _ p obj1) as [obj2|e] eqn:E2; cbn [mbind result_bind].
    + destruct (profile_of_json obj2) as [a|]; [|done]. destruct (json_parse (pst_content trow) ≫= profile_of_json) as [b|]; [|done].
      eexists. split; [apply score_bounds|done].
    + destruct H2' as (-> & Hk & Hn & Hf). split; [done|]. destruct H1' as [->|[fields ->]]; [|by destruct (Hf fields)].
      destruct (Hobj Hn Hf) as (Hj & _). eauto 12.
  - destruct H1' as (-> & Hk & Hn & Hf). split; [done|]. destruct (Hobj Hn Hf) as (Hj & _). eauto 12.
Qed.
End rows.

(** ** Examples *)

Module DatingExamples.
Import Toy ToyJsonText InsertionSort.

Lemma any_sorted (l : list Post) : StronglySorted (λ _ _, True) l.
Proof. induction l; constructor; [done|]. by apply Forall_true. Qed.

#[local] Instance toy_dating : DatingEnv := {|
  dat_json := toy_json;
  dat_trig := {| f64_sin x := x; f64_cos x := x; f64_atan2 x y := x |};
  dat_geohash := {| geohash_decode s := Some (f64_zero, f64_zero); geohash_encode p n := None; geohash_neighbors s := None |};
  dat_sort := insertion;
  dat_alnum := {| is_alphanumeric c := match c with [b] => between 0x61 0x7A b | _ => false end |};
  dat_zstd := {| zstd_encode_all d := None; zstd_read n z := None |};
  dat_sign key kind tags content := Ok (lit "e" ++ [(0x61 + zlen content mod 26)%Z], lit "signed");
  dat_seal s := Ok s;
  dat_posts_order := _; dat_reactions_order := _;
  dat_any_order := {| order_by l := l; order_by_perm l := reflexivity l; order_by_sorted := any_sorted |}
|}.

Definition alice : str := replicate 64 0x61%Z.
Definition bob : str := replicate 64 0x62%Z.
Definition nobody : dating := mk_dating db_empty ∅ ∅ ∅ ∅ (mk_outbox ∅ false) None.
Definition as_user (who : str) (s : dating) : dating :=
  mk_dating (dat_db s) (dat_unmatches s) (dat_blocks s) (dat_reports s) (dat_views s) (dat_outbox s) (Some who).
Definition form (bio : str) : attributes :=
  mk_attributes (lit "u4pru") (lit "other") (lit "All") 0 [] [] [] [] [] [] [] (json_strings []) 0 bio (json_strings []) (json_strings []).
Definition step (who : str) (r : request) (s : dating) : dating := (perform r (as_user who s)).1.

(** Bob has a profile, and Alice likes it; then Bob writes more about himself. *)
Definition liked_once : dating := step alice (Like 2 alice bob) (step bob (Create 1 bob (lit "Bob") 30 (form [])) nobody).
Definition rewritten : dating := as_user alice (step bob (Update 3 bob (form (lit "hi"))) liked_once).

Lemma keyed_decide d : forallb (λ kp, bool_decide (pst_id (post_row kp.2) = kp.1)) (map_to_list (posts d)) = true → keyed d.
Proof.
  rewrite forallb_forall. intros Hall k p Hk. specialize (Hall (k, p)). rewrite <-list_elem_of_In, bool_decide_eq_true in Hall.
  by apply Hall, elem_of_map_to_list.
Qed.

(** Whoever is unlocked: Mallory replaces Bob's profile. *)
Definition mallory : str := replicate 64 0x6D%Z.
Example update_of_another :
  let s := as_user mallory liked_once in
  (dating_update_profile 5 bob (form (lit "no")) s).2 = Ok true ∧
  (pst_created_at <$> own_profile_row bob (dat_db (dating_update_profile 5 bob (form (lit "no")) s).1)) = Some 5%Z ∧
  (dating_delete_profile bob s).2 = err "identity mismatch: caller is not the claimed pubkey".
Proof. by vm_compute. Qed.

(** Alice's second like is taken, and lost. *)
Lemma like_of_updated_profile_lost_witness :
  ∃ p s', own_profile_row (clean bob) (dat_db rewritten) = Some p ∧ dating_like 4 alice bob rewritten = (s', Ok true) ∧
    reacted_to (clean alice) (pst_id p) (dat_db s') = false.
Proof.
  assert (Hok : (dating_like 4 alice bob rewritten).2 = Ok true) by (by vm_compute).
  assert (Hfacts : match own_profile_row (clean bob) (dat_db rewritten), reactions (dat_db rewritten) !! like_id alice bob with
    | Some p, Some old => bool_decide (clean (pst_id p) = pst_id p) && bool_decide (rct_pubkey old = clean alice) &&
                          bool_decide (rct_event_id old ≠ pst_id p) && negb (reacted_to (clean alice) (pst_id p) (dat_db rewritten))
    | _, _ => false
    end = true) by (by vm_compute).
  destruct (own_profile_row (clean bob) (dat_db rewritten)) as [p|] eqn:Hp; [|done].
  destruct (reactions (dat_db rewritten) !! like_id alice bob) as [old|] eqn:Ho; [|done].
  rewrite !andb_true_iff, negb_true_iff, !bool_decide_eq_true in Hfacts. destruct Hfacts as (((Hid & Hpk) & Hne) & Hnot).
  destruct (dating_like 4 alice bob rewritten) as [s' r] eqn:Hs. cbn [snd] in Hok. subst r.
  exists p, s'. split; [reflexivity|]. split; [reflexivity|].
  exact (proj1 (like_of_updated_profile_lost 4 alice bob p old rewritten s' true Hid Hp Ho Hpk Hne Hnot Hs)).
Defined.

(** Bob's second profile takes the place of his first, and he keeps his age. *)
Lemma update_replaces_profile_witness :
  let s := as_user bob liked_once in
  let s' := (dating_update_profile 3 bob (form (lit "hi")) s).1 in
  ∃ row, own_profile_row bob (dat_db s') = Some row ∧ pst_created_at row = 3%Z ∧
    ∀ k q, posts (dat_db s') !! k = Some q → live_profile (post_row q) = true → pst_pubkey (post_row q) = bob → k = pst_id row.
Proof.
  intros s s'. assert (Hok : (dating_update_profile 3 bob (form (lit "hi")) s).2 = Ok true) by (by vm_compute).
  assert (Hclean : bool_decide (clean bob = bob) = true) by (by vm_compute). apply bool_decide_eq_true in Hclean.
  assert (Hkeyed : keyed (dat_db s)) by (apply keyed_decide; by vm_compute).
  assert (Hfacts : match form_content (form (lit "hi")) with
    | Ok content => match dat_sign bob KIND_PROFILE profile_tags (@json_print dat_json (carried_content (own_profile_row bob (dat_db s)) content)) with
                    | Ok (eid, _) => bool_decide (clean eid = eid) && negb (bool_decide (is_Some (posts (dat_db s) !! eid)))
                    | Err _ => false
                    end
    | Err _ => false
    end = true) by (by vm_compute).
  destruct (update_replaces_profile 3 bob (form (lit "hi")) s s' true Hclean Hkeyed) as
    (key & content & fields & eid & signed & Hsig & Hform & Hfields & Hsign & _ & Hrow); [by rewrite <-Hok; apply surjective_pairing|].
  assert (bob = key) as <- by (by injection Hsig). rewrite Hform, <-Hfields, Hsign, andb_true_iff, negb_true_iff, bool_decide_eq_true in Hfacts.
  destruct Hfacts as [Hid Hnone]. apply bool_decide_eq_false, eq_None_not_Some in Hnone.
  destruct (Hrow Hid Hnone) as [(row & Hown & <- & _ & Hat) Honly]. exists row. split; [exact Hown|]. split; [exact Hat|exact Honly].
Defined.

End DatingExamples.
