(* ===== verification/Events.v ===== *)
(** Calendar events: src/flutter-bridge/src/ffi/events.rs over the store, the
    reminders of db-core and the rules of src/events-core (check-in, deletion,
    expiry, interests). An event is a post of kind 31922 or 31923 whose content
    is a JSON object, an answer to an invitation (RSVP) a post of kind 31924,
    and a check-in a post of kind 9. Every call that changes state is an action;
    clocks, random names and the authors of an audience are arguments. The
    recurrence rules, a wrapper of the rrule crate, are left out, and of the
    JSON entry points the reading and printing.
    Proved: an attendee is counted once, by the latest answer; an answer takes
    the place of the former one; a created event is shown as entered, where it
    has a location; nobody checks in outside the window, or far from a location
    off the equator and the prime meridian; the search around a place finds only
    events created on the device. *)

From Stdlib Require Import SpecFloat.
From S2P Require Import Url Content Prelude RustStr Text Primitives Sql Json Floats Compat Spatial Act Store Outbox.

(** ** Rules: events-core *)

(** Source: src/events-core/src/checkin.rs:1-7 (can_checkin) *)
Definition can_checkin (event_start event_end now buffer_secs : Z) : bool :=
  if (event_end <=? event_start)%Z then false
  else (sat_sub event_start buffer_secs <=? now)%Z && (now <? event_end)%Z.

Section checkin.
Context `{Trig}.

(** Source: src/events-core/src/checkin.rs:9-45 (within_checkin_radius) *)
Definition within_checkin_radius (event_lat event_lon user_lat user_lon radius_m : f64) : bool :=
  if negb (f64_is_finite event_lat) || negb (f64_is_finite event_lon) || negb (f64_is_finite user_lat) || negb (f64_is_finite user_lon)
     || negb (valid_lat event_lat) || negb (valid_lat user_lat) || negb (valid_lon event_lon) || negb (valid_lon user_lon)
     || negb (f64_is_finite radius_m) || SFleb radius_m f64_zero then false
  else if SFltb (f64_div radius_m (f64_of_Z 111000)) (SFabs (f64_sub user_lat event_lat)) then false
  else
    let d_lat := to_radians (f64_sub user_lat event_lat) in
    let d_lon := to_radians (f64_sub user_lon event_lon) in
    let half x := f64_sq (f64_sin (f64_div x (f64_of_Z 2))) in
    let a := f64_add (half d_lat) (f64_mul (f64_mul (f64_cos (to_radians event_lat)) (f64_cos (to_radians user_lat))) (half d_lon)) in
    let a := f64_clamp f64_zero (f64_of_Z 1) a in
    let c := f64_mul (f64_of_Z 2) (f64_atan2 (f64_sqrt a) (f64_sqrt (f64_sub (f64_of_Z 1) a))) in
    SFleb (f64_mul (f64_of_Z 6371000) c) radius_m.
End checkin.

(** Source: src/common-core/src/consts.rs:30-30 (MAX_TAGS) *)
Definition MAX_TAGS : nat := 2000.
(** Source: src/events-core/src/deletion.rs:6-6 (MAX_TAG_FIELDS) *)
Definition MAX_TAG_FIELDS : nat := 16.
(** Source: src/events-core/src/deletion.rs:7-7 (MAX_TAG_FIELD_LEN) *)
Definition MAX_TAG_FIELD_LEN : Z := 1024.
(** Source: src/events-core/src/deletion.rs:8-8 (MAX_OUTPUT_IDS) *)
Definition MAX_OUTPUT_IDS : nat := 5000.

(** The loop, with the ids found so far.
    Source: src/events-core/src/deletion.rs:23-45 (extract_deletion_ids, loop) *)
Fixpoint deletion_loop (tags : list (list (list Z))) (ids : list (list Z)) : list (list Z) :=
  match tags with
  | [] => ids
  | tag :: tags =>
      if MAX_OUTPUT_IDS <=? length ids then ids
      else
        match tag with
        | [] => deletion_loop tags ids
        | name :: fields =>
            if negb (bool_decide (name = lit "e")) then deletion_loop tags ids
            else if MAX_TAG_FIELDS <? length tag then deletion_loop tags ids
            else
              match fields with
              | [] => deletion_loop tags ids
              | id :: _ =>
                  let id := clean id in
                  if bool_decide (id = []) || (MAX_TAG_FIELD_LEN <? zlen id)%Z then deletion_loop tags ids
                  else if bool_decide (id ∈ ids) then deletion_loop tags ids
                  else deletion_loop tags (ids ++ [id])
              end
        end
  end.

(** Source: src/events-core/src/deletion.rs:18-47 (extract_deletion_ids) *)
Definition extract_deletion_ids (tags : list (list (list Z))) : list (list Z) := deletion_loop (take MAX_TAGS tags) [].

(** Source: src/content-core/src/tags.rs:5-12 (find_tag_value) *)
Fixpoint find_tag_value (tags : list (list (list Z))) (key : str) : option str :=
  match tags with
  | [] => None
  | (name :: v :: _) :: tags => if bool_decide (name = key) then Some v else find_tag_value tags key
  | _ :: tags => find_tag_value tags key
  end.

(** Source: src/events-core/src/event/expiry.rs:11-17 (get_expiry_from_tags) *)
Definition get_expiry_from_tags (tags : list (list (list Z))) : Z :=
  let value := match find_tag_value tags (lit "expiration") with Some v => Some v | None => find_tag_value tags (lit "expires_at") end in
  default 0%Z (v ← value; Z.max 0 <$> parse_i64 v).

Fixpoint first_expiry (tags : list (list (list Z))) : Z :=
  match tags with
  | [] => 0
  | (name :: v :: _) :: tags =>
      if bool_decide (name = lit "expiration") || bool_decide (name = lit "expires_at") then
        match parse_i64 v with Some z => Z.max 0 z | None => first_expiry tags end
      else first_expiry tags
  | _ :: tags => first_expiry tags
  end.

(** Source: src/events-core/src/event/expiry.rs:19-34 (get_expiry_from_tags_json, after parsing) *)
Definition get_expiry_after_parsing (tags : list (list (list Z))) : Z :=
  if MAX_TAGS <? length tags then 0%Z else first_expiry (take MAX_TAGS tags).

(** Source: src/events-core/src/event/interest.rs:20-38 (compute_interest_score) *)
Definition compute_interest_score (my_interests peer_interests : list (list Z)) : f64 * list (list Z) :=
  if bool_decide (my_interests = []) || bool_decide (peer_interests = []) then (f64_zero, [])
  else
    let '(common, union) := interest_overlap my_interests peer_interests false in
    ((if (union =? 0)%Z then f64_zero else f64_div (f64_of_Z (zlen common)) (f64_of_Z union)), common).

(** The first 1000 items, the blank ones dropped, each cut to 128 bytes.
    Source: src/events-core/src/event/interest.rs:51-76 (compute_interest_score_json, items) *)
Definition capped_items (l : list (list Z)) : list (list Z) :=
  (λ s, truncate_str s 128) <$> filter (λ s, trim s ≠ []) (take 1000 l).

(** Source: src/events-core/src/event/interest.rs:40-82 (compute_interest_score_json, after parsing) *)
Definition interest_score_after_parsing (my_interests peer_interests : list (list Z)) : f64 * list (list Z) :=
  compute_interest_score (capped_items my_interests) (capped_items peer_interests).

(** ** State *)

(** Source: src/common-core/src/consts.rs:10-10 (KIND_EVENT) *)
Definition KIND_EVENT : Z := 31923.
(** Source: src/common-core/src/consts.rs:11-11 (KIND_EVENT_RSVP) *)
Definition KIND_EVENT_RSVP : Z := 31924.
(** The kind the nostr crate has for a badge award. *)
Definition badge_award : Z := 8.
(** Source: src/flutter-bridge/src/ffi/events.rs:13-13 (EVENT_KINDS) *)
Definition is_event (p : PostRow) : bool := (pst_kind p =? 31922)%Z || (pst_kind p =? 31923)%Z.

(** Source: src/db-core/src/repos/reminder.rs:6-14 (ReminderRow) *)
Record ReminderRow := mk_reminder { rem_id : str; rem_event_id : str; rem_title : str; rem_start_time : Z; rem_minutes_before : Z; rem_created_at : Z }.

(** The tables, with the columns event_lat and event_lng of the posts apart. *)
Record agenda := mk_agenda {
  ag_db : db;
  ag_geo : gmap str (f64 * f64);
  ag_reminders : gmap str ReminderRow;
  ag_outbox : outbox;
  ag_signer : option str
}.

Definition ag_on_db f (s : agenda) := mk_agenda (f (ag_db s)) (ag_geo s) (ag_reminders s) (ag_outbox s) (ag_signer s).
Definition on_geo f (s : agenda) := mk_agenda (ag_db s) (f (ag_geo s)) (ag_reminders s) (ag_outbox s) (ag_signer s).
Definition on_reminders f (s : agenda) := mk_agenda (ag_db s) (ag_geo s) (f (ag_reminders s)) (ag_outbox s) (ag_signer s).
Definition ag_on_outbox f (s : agenda) := mk_agenda (ag_db s) (ag_geo s) (ag_reminders s) (f (ag_outbox s)) (ag_signer s).

Abbreviation call A := (act agenda A) (only parsing).

(** ORDER BY created_at DESC, id DESC. *)
Definition latest_first (p q : Post) : Prop :=
  (pst_created_at (post_row q) < pst_created_at (post_row p))%Z ∨
  pst_created_at (post_row q) = pst_created_at (post_row p) ∧ str_leb (pst_id (post_row q)) (pst_id (post_row p)) = true.
#[export] Instance latest_first_dec p q : Decision (latest_first p q).
Proof. unfold latest_first. apply _. Defined.
#[export] Instance latest_first_total : Total latest_first.
Proof.
  intros p q. unfold latest_first. destruct (str_leb_total (pst_id (post_row p)) (pst_id (post_row q)));
    destruct (Z.lt_total (pst_created_at (post_row p)) (pst_created_at (post_row q))) as [|[|]]; eauto.
Qed.
#[export] Instance latest_first_trans : Transitive latest_first.
Proof.
  intros p q r. unfold latest_first. intros [|[? ?]] [|[? ?]]; [left; lia..|]. right. split; [congruence|]. by eapply str_leb_trans.
Qed.

(** What the component takes from elsewhere; [six_decimals] is the number a
    coordinate has once printed with six decimals. *)
Class EventsEnv := {
  ev_json :: JsonText;
  ev_urls :: UrlCrate;
  ev_trig :: Trig;
  ev_zstd :: Zstd;
  ev_sign : str → Z → list (list (list Z)) → str → may_fail (str * str);
  ev_seal : str → may_fail str;
  six_decimals : f64 → f64;
  ev_posts_order :: OrderBy (desc (λ p, pst_created_at (post_row p)));
  ev_latest_order :: OrderBy latest_first;
  ev_reminders_order :: OrderBy (asc rem_start_time);
  ev_trigger_order :: OrderBy (asc (λ r, rem_start_time r - rem_minutes_before r * 60)%Z)
}.

(** ** Reminders: db-core *)

(** Source: src/db-core/src/repos/reminder.rs:43-52 (ReminderRepo::upsert) *)
Definition reminder_upsert (r : ReminderRow) (t : gmap str ReminderRow) : gmap str ReminderRow := <[rem_id r := r]> t.

(** Source: src/db-core/src/repos/reminder.rs:54-58 (ReminderRepo::delete) *)
Definition reminder_delete (id : str) (t : gmap str ReminderRow) : gmap str ReminderRow := delete (trim id) t.

(** LIKE: [%] stands for any characters, [_] for one, letters ignore case. *)
Fixpoint like (p t : list (list Z)) : bool :=
  match p with
  | [] => bool_decide (t = [])
  | c :: p =>
      if bool_decide (c = [0x25]%Z) then
        (fix from (t : list (list Z)) : bool := like p t || match t with [] => false | _ :: t => from t end) t
      else
        match t with
        | [] => false
        | d :: t => (bool_decide (c = [0x5F]%Z) || eq_ignore_ascii_case c d) && like p t
        end
  end.

Section events.
Context `{Primitives, EventsEnv}.

(** Source: src/db-core/src/repos/reminder.rs:23-41 (ReminderRepo::list) *)
Definition reminder_list (t : gmap str ReminderRow) : list ReminderRow := take 1000 (order_by (asc rem_start_time) (map_to_list t).*2).

(** Source: src/db-core/src/repos/reminder.rs:62-89 (ReminderRepo::due) *)
Definition reminders_due (now lookahead_ms : Z) (t : gmap str ReminderRow) : list ReminderRow :=
  let trigger r := (rem_start_time r - rem_minutes_before r * 60)%Z in
  order_by (asc (λ r, rem_start_time r - rem_minutes_before r * 60)%Z)
    (filter (λ r, (now <= trigger r)%Z ∧ (trigger r <= Z.min i64_max (now + Z.max 0 lookahead_ms / 1000))%Z) (map_to_list t).*2).

(** ** Reading an event *)

(** Source: src/flutter-bridge/src/ffi/events.rs:16-31 (EventInfo) *)
Record EventInfo := mk_event_info {
  evt_id : str; evt_creator_pubkey : str; evt_title : str; evt_description : str; evt_location : str; evt_latitude : f64; evt_longitude : f64;
  evt_start_time : Z; evt_end_time : Z; evt_image : str; evt_attendees : Z; evt_rsvp_status : str; evt_created_at : Z
}.

(** Source: src/flutter-bridge/src/ffi/events.rs:33-46 (EventContent) *)
Record EventContent := mk_event_content {
  ec_name : option str; ec_title : option str; ec_description : option str; ec_location : option json; ec_start_time : option Z;
  ec_end_time : option Z; ec_image : option str
}.

Definition event_content (content : str) : option EventContent :=
  j ← json_parse content;
  l ← struct_fields [lit "name"; lit "title"; lit "description"; lit "location"; lit "start"; lit "end"; lit "image"; lit "t"] j;
  match l with
  | [name; title; description; location; start; stop; image; t] =>
      name ← opt_val as_str name; title ← opt_val as_str title; description ← opt_val as_str description;
      location ← opt_val Some location; start ← opt_val as_u64 start; stop ← opt_val as_u64 stop; image ← opt_val as_str image;
      _ ← opt_val as_str t;
      Some (mk_event_content name title description location start stop image)
  | _ => None
  end.

(** Source: src/flutter-bridge/src/ffi/events.rs:96-108 (centroid_of) *)
Definition centroid_of (s : str) : f64 * f64 :=
  match split_once 0x2C s with
  | Some (lat, lon) =>
      if bool_decide (0x2C%Z ∈ lon) then (f64_zero, f64_zero)
      else (default f64_zero (f64_parse (trim lat)), default f64_zero (f64_parse (trim lon)))
  | None => (f64_zero, f64_zero)
  end.

Definition location_name (location : option json) : str :=
  match location with
  | Some (JStr s) => s
  | Some (JObj fields) => default [] (get_field (lit "name") (JObj fields) ≫= as_str)
  | _ => []
  end.

Definition location_place (location : option json) : f64 * f64 :=
  match location with
  | Some (JStr s) => centroid_of s
  | Some (JObj fields) => (default f64_zero (get_field (lit "lat") (JObj fields) ≫= as_f64), default f64_zero (get_field (lit "lng") (JObj fields) ≫= as_f64))
  | _ => (f64_zero, f64_zero)
  end.

(** Without attendees and answer, which no query of the file selects.
    Source: src/flutter-bridge/src/ffi/events.rs:48-94 (event_from_value) *)
Definition event_from_row (p : PostRow) : option EventInfo :=
  c ← event_content (pst_content p);
  let '(lat, lon) := location_place (ec_location c) in
  Some (mk_event_info (pst_id p) (pst_pubkey p) (default [] (match ec_title c with Some t => Some t | None => ec_name c end))
    (default [] (ec_description c)) (location_name (ec_location c)) lat lon (default 0%Z (ec_start_time c)) (default 0%Z (ec_end_time c))
    (default [] (ec_image c)) 0 [] (Z.max 0 (pst_created_at p))).

Definition with_attendees (n : Z) (e : EventInfo) : EventInfo :=
  mk_event_info (evt_id e) (evt_creator_pubkey e) (evt_title e) (evt_description e) (evt_location e) (evt_latitude e) (evt_longitude e)
    (evt_start_time e) (evt_end_time e) (evt_image e) n (evt_rsvp_status e) (evt_created_at e).
Definition with_rsvp (st : str) (e : EventInfo) : EventInfo :=
  mk_event_info (evt_id e) (evt_creator_pubkey e) (evt_title e) (evt_description e) (evt_location e) (evt_latitude e) (evt_longitude e)
    (evt_start_time e) (evt_end_time e) (evt_image e) (evt_attendees e) st (evt_created_at e).

Definition all_posts (d : db) : list Post := (map_to_list (posts d)).*2.

(** Source: src/flutter-bridge/src/ffi/events.rs:110-117 (event_rows_sql) *)
Definition event_rows (extra : PostRow → bool) (limit : Z) (d : db) : list PostRow :=
  post_row <$> take (Z.to_nat (Z.max 1 (Z.min limit 100)))
    (order_by (desc (λ p, pst_created_at (post_row p)))
       (filter (λ p, is_event (post_row p) && negb (pst_is_deleted (post_row p)) && extra (post_row p) = true) (all_posts d))).

(** ** Answers *)

(** A live answer of that account to that event. *)
Definition answers (event_id pubkey : str) (p : PostRow) : bool :=
  (pst_kind p =? KIND_EVENT_RSVP)%Z && bool_decide (pst_rsvp_event_id p = Some event_id) && bool_decide (pst_pubkey p = pubkey) &&
  negb (pst_is_deleted p).

Definition later (p q : PostRow) : bool :=
  (pst_created_at q <? pst_created_at p)%Z || ((pst_created_at p =? pst_created_at q)%Z && negb (str_leb (pst_id p) (pst_id q))).

(** Source: src/flutter-bridge/src/ffi/events.rs:125-132 (RSVP_NOT_SUPERSEDED) *)
Definition not_superseded (d : db) (event_id : str) (p : PostRow) : bool :=
  forallb (λ q, negb (answers event_id (pst_pubkey p) (post_row q) && later (post_row q) p)) (all_posts d).

(** The rows that count for an event. *)
Definition accepted_rows (event_id : str) (d : db) : list Post :=
  filter (λ p, answers event_id (pst_pubkey (post_row p)) (post_row p) && bool_decide (pst_content (post_row p) = lit "accepted")
               && not_superseded d event_id (post_row p) = true) (all_posts d).

(** Source: src/flutter-bridge/src/ffi/events.rs:185-202 (attendees_count) *)
Definition attendees_count (event_id : str) (d : db) : Z := zlen (accepted_rows event_id d).

(** Source: src/flutter-bridge/src/ffi/events.rs:134-183 (attendee_counts_for_ids) *)
Definition attendee_counts_for_ids (ids : list (list Z)) (d : db) : gmap str Z :=
  list_to_map ((λ id, (id, attendees_count id d)) <$> filter (λ id, accepted_rows id d ≠ []) ids).

(** Source: src/flutter-bridge/src/ffi/events.rs:671-687 (events_get_attendees) *)
Definition events_get_attendees (event_id : str) (d : db) : list (list Z) :=
  take 200 (remove_dups ((λ p, pst_pubkey (post_row p)) <$> order_by (desc (λ p, pst_created_at (post_row p))) (accepted_rows event_id d))).

(** The status of an account, by its latest answer that is one. *)
Definition own_answer (event_id user : str) (d : db) : option str :=
  head (filter (λ st, st ∈ [lit "accepted"; lit "declined"; lit "pending"])
    ((λ p, pst_content (post_row p)) <$>
       order_by latest_first (filter (λ p, answers event_id user (post_row p) && not_superseded d event_id (post_row p) = true) (all_posts d)))).

Definition with_counts (d : db) (l : list EventInfo) : list EventInfo :=
  let counts := attendee_counts_for_ids (evt_id <$> l) d in
  (λ e, with_attendees (default 0%Z (counts !! evt_id e)) e) <$> l.

(** ** Queries *)

(** An audience without authors gives nothing.
    Source: src/flutter-bridge/src/ffi/events.rs:223-237 (events_fetch_nearby, audience) *)
Definition in_audience (authors : option (list (list Z))) (pubkey : str) : bool :=
  match authors with None => true | Some l => bool_decide (pubkey ∈ l) end.

(** A column that is null is between nothing. *)
Definition in_box (geo : gmap str (f64 * f64)) (lat1 lat2 lon1 lon2 : f64) (p : PostRow) : bool :=
  match geo !! pst_id p with
  | Some (lat, lon) => f64_within (six_decimals lat1) (six_decimals lat2) lat && f64_within (six_decimals lon1) (six_decimals lon2) lon
  | None => false
  end.

(** The half sides of the box, in degrees.
    Source: src/flutter-bridge/src/ffi/events.rs:250-251 (events_fetch_nearby, box) *)
Definition box_sides (latitude radius : f64) : f64 * f64 :=
  (f64_div radius (f64_dec 110574 1000),
   f64_div radius (f64_mul (f64_dec 111320 1000) (f64_max (SFabs (f64_cos (to_radians latitude))) (f64_dec 1 100)))).

(** The radius is an f32.
    Source: src/flutter-bridge/src/ffi/events.rs:249-267 (events_fetch_nearby, search) *)
Definition search_around (latitude longitude : f64) (radius_km : f32) (limit : Z) (authors : option (list (list Z))) (s : agenda) : list EventInfo :=
  let radius := f32_to_f64 (f64_min radius_km (f64_of_Z 5000)) in
  let '(lat_deg, lon_deg) := box_sides latitude radius in
  let rows := event_rows (λ p, in_box (ag_geo s) (f64_sub latitude lat_deg) (f64_add latitude lat_deg) (f64_sub longitude lon_deg)
                                 (f64_add longitude lon_deg) p && in_audience authors (pst_pubkey p)) limit (ag_db s) in
  filter (λ e, negb (SFeqb (evt_latitude e) f64_zero && SFeqb (evt_longitude e) f64_zero) &&
               SFleb (haversine_km latitude longitude (evt_latitude e) (evt_longitude e)) radius = true)
    (omap event_from_row rows).

(** Source: src/flutter-bridge/src/ffi/events.rs:211-277 (events_fetch_nearby) *)
Definition fetch_nearby (latitude longitude : f64) (radius_km : f32) (limit : Z) (authors : option (list (list Z))) (s : agenda) : may_fail (list EventInfo) :=
  _ ← ensure (f64_is_finite latitude && f64_is_finite longitude) "invalid coordinates";
  match authors with
  | Some [] => Ok []
  | _ =>
      Ok (with_counts (ag_db s)
        (if SFleb radius_km f64_zero then omap event_from_row (event_rows (λ p, in_audience authors (pst_pubkey p)) limit (ag_db s))
         else search_around latitude longitude radius_km limit authors s))
  end.

Definition checkin_id (user event_id : str) : str := lit "checkin:" ++ user ++ lit ":" ++ event_id.

(** Created, answered or attended, in whatever state the answer is.
    Source: src/flutter-bridge/src/ffi/events.rs:284-290 (events_fetch_user_events, query) *)
Definition involved (user : str) (d : db) (p : PostRow) : bool :=
  bool_decide (pst_pubkey p = user) ||
  existsb (λ r, bool_decide (pst_pubkey (post_row r) = user) &&
                (bool_decide (pst_rsvp_event_id (post_row r) = Some (pst_id p)) || bool_decide (pst_id (post_row r) = checkin_id user (pst_id p))))
    (all_posts d).

(** Source: src/flutter-bridge/src/ffi/events.rs:280-335 (events_fetch_user_events) *)
Definition fetch_user_events (user_pubkey : str) (limit : Z) (s : agenda) : list EventInfo :=
  let user := clean user_pubkey in
  let d := ag_db s in
  let rows := event_rows (involved user d) limit d in
  let counts := attendee_counts_for_ids (pst_id <$> rows) d in
  (λ e, with_rsvp (if bool_decide (user = []) then [] else default [] (own_answer (evt_id e) user d))
          (with_attendees (default 0%Z (counts !! evt_id e)) e)) <$> omap event_from_row rows.

(** Source: src/flutter-bridge/src/ffi/events.rs:655-669 (events_get_event) *)
Definition get_event (event_id : str) (d : db) : option EventInfo :=
  p ← posts d !! event_id;
  if is_event (post_row p) && negb (pst_is_deleted (post_row p)) then with_attendees (attendees_count event_id d) <$> event_from_row (post_row p)
  else None.

(** ** The calls *)

(** Source: src/flutter-bridge/src/ffi/signer.rs:122-128 (signer_pubkey) *)
Definition signer_pubkey : call str := s ← reads ag_signer; found s "signer locked".

(** Source: src/flutter-bridge/src/ffi/signer.rs:134-147 (require_identity) *)
Definition require_identity (expected : str) : call unit :=
  actual ← signer_pubkey;
  guard_else (ct_eq (clean actual) (clean expected)) "identity mismatch: caller is not the claimed pubkey".

Definition sign_event (kind : Z) (tags : list (list (list Z))) (content : str) : call (str * str) :=
  key ← signer_pubkey; lift (ev_sign key kind tags content).

Definition store_row (p : PostRow) : call unit := λ s,
  match post_upsert p (ag_db s) with
  | Ok d => (ag_on_db (λ _, d) s, Ok ())
  | Err _ => (s, err "row too big")
  end.

(** Source: src/flutter-bridge/src/ffi/db.rs:1137-1170 (upsert_post_row) *)
Definition upsert_post_row (id pubkey content : str) (kind created_at : Z) (tags_json : str) (subject : option str) : call unit :=
  store_row (mk_post_row id pubkey content kind created_at tags_json None None None [] [] subject (lit "pending") false None None false None).

Definition enqueue (id action payload : str) (now : Z) : call unit :=
  ob ← reads ag_outbox;
  ob ← lift (enqueue_outbox_item_with_seal ob id action payload None now ev_seal);
  writes (ag_on_outbox (λ _, ob)).

(** What the form holds.
    Source: src/flutter-bridge/src/ffi/events.rs:341-351 (events_create, arguments) *)
Record new_event := mk_new_event {
  ne_title : str; ne_description : str; ne_location : str; ne_latitude : f64; ne_longitude : f64; ne_start_time : Z; ne_end_time : Z; ne_image_url : str
}.

(** Source: src/flutter-bridge/src/ffi/events.rs:352-375 (events_create, checks) *)
Definition check_new_event (e : new_event) : may_fail unit :=
  _ ← ensure (negb (bool_decide (trim (ne_title e) = [])) && (zlen (ne_title e) <=? 300)%Z) "title must be 1..=300 chars";
  _ ← ensure (zlen (ne_description e) <=? 65536)%Z "description must not exceed 65536 bytes";
  _ ← ensure (zlen (ne_location e) <=? 500)%Z "location must not exceed 500 chars";
  _ ← ensure (f64_is_finite (ne_latitude e) && valid_lat (ne_latitude e)) "latitude must be a finite float between -90 and 90";
  _ ← ensure (f64_is_finite (ne_longitude e) && valid_lon (ne_longitude e)) "longitude must be a finite float between -180 and 180";
  _ ← ensure (bool_decide (trim (ne_image_url e) = []) || is_valid_media_url (ne_image_url e)) "invalid image url";
  _ ← ensure (negb ((ne_start_time e =? 0)%Z || (negb (ne_end_time e =? 0)%Z && (ne_end_time e <? ne_start_time e)%Z))) "invalid time range";
  ensure (negb (negb (ne_end_time e =? 0)%Z && (7 * 24 * 3600 <? sat_sub (ne_end_time e) (ne_start_time e))%Z)) "events may not span more than 7 days".

(** A place only where a name of it is given.
    Source: src/flutter-bridge/src/ffi/events.rs:383-396 (events_create, content) *)
Definition new_event_content (e : new_event) : list (list Z * json) :=
  [(lit "name", JStr (ne_title e)); (lit "description", JStr (truncate (ne_description e) 2000));
   (lit "location",
     if bool_decide (trim (ne_location e) = []) then JNull
     else if negb (SFeqb (ne_latitude e) f64_zero) || negb (SFeqb (ne_longitude e) f64_zero) then
       JObj [(lit "name", JStr (ne_location e)); (lit "lat", JNum (NFloat (ne_latitude e))); (lit "lng", JNum (NFloat (ne_longitude e)))]
     else JStr (ne_location e));
   (lit "start", JNum (NInt (ne_start_time e))); (lit "end", JNum (NInt (ne_end_time e)));
   (lit "image", if bool_decide (ne_image_url e = []) then JNull else JStr (ne_image_url e))].

(** [s.get(..12).unwrap_or_default()]. *)
Definition prefix12 (s : str) : str := if (12 <=? length s) && is_char_boundary s 12 then take 12 s else [].

(** The signed tags are those that were given.
    Source: src/flutter-bridge/src/ffi/events.rs:337-428 (events_create) *)
Definition events_create (now : Z) (creator_pubkey : str) (e : new_event) : call str :=
  _ ← lift (check_new_event e);
  let creator := clean creator_pubkey in
  _ ← require_identity creator;
  let tags := [[lit "d"; prefix12 creator ++ lit "-" ++ print_u64 (ne_start_time e)]; [lit "t"; lit "date"]] in
  let content := json_print (new_event_content e) in
  '(event_id, signed_json) ← sign_event KIND_EVENT tags content;
  _ ← upsert_post_row event_id creator content KIND_EVENT now (json_tags tags) (Some (ne_title e));
  _ ← writes (λ s, on_geo (if bool_decide (is_Some (posts (ag_db s) !! event_id)) then insert event_id (ne_latitude e, ne_longitude e) else id) s);
  mret signed_json.

(** The host, the kind and the d-tag, of deleted events too.
    Source: src/flutter-bridge/src/ffi/events.rs:430-460 (event_host_kind_and_d_tag) *)
Definition event_host_kind_and_d_tag (event_id : str) (d : db) : option (str * Z * str) :=
  p ← posts d !! event_id;
  if is_event (post_row p) then
    Some (pst_pubkey (post_row p), pst_kind (post_row p),
          default [] (tags ← parse_tags (pst_tags_json (post_row p)); t ← head (filter (λ t, head t = Some (lit "d")) tags); t !! 1))
  else None.

(** Source: src/flutter-bridge/src/ffi/events.rs:462-464 (valid_rsvp) *)
Definition valid_rsvp (status : str) : bool := bool_decide (status ∈ [lit "accepted"; lit "declined"; lit "pending"]).

Definition rsvp_id (user event_id status : str) : str := lit "rsvp:" ++ user ++ lit ":" ++ event_id ++ lit ":" ++ status.

(** A post that an answer replaces.
    Source: src/flutter-bridge/src/ffi/events.rs:546-555 (events_rsvp, deletion) *)
Definition replaced (user event_id : str) (keep : str) (p : PostRow) : bool :=
  (((pst_kind p =? KIND_EVENT_RSVP)%Z && bool_decide (pst_pubkey p = user) && bool_decide (pst_rsvp_event_id p = Some event_id))
   || like (chars (rsvp_id user event_id (lit "%"))) (chars (pst_id p))) && negb (bool_decide (pst_id p = keep)).

(** [{"..."}] of the tags as they are spelled out. *)
Definition quoted (s : str) : str := [0x22]%Z ++ s ++ [0x22]%Z.
Definition tag_text (name v : str) : str := lit "[" ++ quoted name ++ lit "," ++ quoted v ++ lit "]".

(** Source: src/flutter-bridge/src/ffi/events.rs:546-556 (events_rsvp, delete) *)
Definition without_replaced (user event_id keep : str) (d : db) : db :=
  on_posts (filter (λ kp, replaced user event_id keep (post_row kp.2) = false)) d.

(** The former answer and the new one in one transaction: when the row is
    refused nothing is deleted.
    Source: src/flutter-bridge/src/ffi/events.rs:543-563 (events_rsvp, row) *)
Definition replace_answer (row : PostRow) (user event_id : str) : call unit := λ s,
  match post_upsert row (without_replaced user event_id (pst_id row) (ag_db s)) with
  | Ok d' => (on_geo (filter (λ kg, is_Some (posts d' !! kg.1))) (ag_on_db (λ _, d') s), Ok ())
  | Err _ => (s, err "row too big")
  end.

(** The answer is queued before it is stored.
    Source: src/flutter-bridge/src/ffi/events.rs:466-565 (events_rsvp) *)
Definition events_rsvp (now : Z) (event_id user_pubkey rsvp_status : str) : call bool :=
  let user := clean user_pubkey in
  let status := clean rsvp_status in
  _ ← require_identity user;
  _ ← guard_else (valid_rsvp status) "rsvp_status must be accepted/declined/pending";
  host ← reads (λ s, event_host_kind_and_d_tag event_id (ag_db s));
  '(host, kind, d) ← found host "event not found locally (sync relays first)";
  let address := print_u64 kind ++ lit ":" ++ host ++ lit ":" ++ d in
  '(signed_id, signed_json) ← sign_event KIND_EVENT_RSVP [[lit "a"; address]; [lit "e"; event_id]; [lit "p"; host]] status;
  _ ← enqueue signed_id (lit "rsvp") signed_json now;
  _ ← replace_answer
        (mk_post_row (rsvp_id user event_id status) user status KIND_EVENT_RSVP now
           (lit "[" ++ tag_text (lit "a") address ++ lit "," ++ tag_text (lit "e") event_id ++ lit "," ++ tag_text (lit "p") host ++ lit "]")
           None None None [] [] None (lit "pending") false None None false (Some event_id)) user event_id;
  mret true.

(** When one may check in: two hours around now without a start, else from an
    hour before it to the end, or four hours.
    Source: src/flutter-bridge/src/ffi/events.rs:590-599 (events_check_in, window) *)
Definition checkin_window (now : Z) (e : EventInfo) : Z * Z :=
  if (evt_start_time e =? 0)%Z then (sat_sub now (2 * 3600), sat_add u64_max now (2 * 3600))
  else (sat_sub (evt_start_time e) 3600,
        if (evt_start_time e <? evt_end_time e)%Z then evt_end_time e else sat_add u64_max (evt_start_time e) (4 * 3600)).

(** Source: src/flutter-bridge/src/ffi/events.rs:603-608 (events_check_in, place) *)
Definition checkin_place_ok (e : EventInfo) (latitude longitude : f64) : bool :=
  negb (negb (SFeqb (evt_latitude e) f64_zero) && negb (SFeqb (evt_longitude e) f64_zero) &&
        negb (within_checkin_radius (evt_latitude e) (evt_longitude e) latitude longitude (f64_of_Z 500))).

(** A coordinate that is no finite number is printed as null, and not read back.
    Source: src/flutter-bridge/src/ffi/events.rs:567-653 (events_check_in) *)
Definition events_check_in (now : Z) (event_id user_pubkey : str) (latitude longitude : f64) : call bool :=
  let user := clean user_pubkey in
  _ ← guard_else (negb (bool_decide (trim event_id = [])) && (zlen event_id <=? 128)%Z) "invalid event id";
  _ ← guard_else (f64_is_finite latitude && valid_lat latitude) "latitude must be a finite float between -90 and 90";
  _ ← guard_else (f64_is_finite longitude && valid_lon longitude) "longitude must be a finite float between -180 and 180";
  _ ← require_identity user;
  event ← reads (λ s, get_event event_id (ag_db s));
  event ← found event "Event not found";
  _ ← guard_else (f64_is_finite (evt_latitude event) && f64_is_finite (evt_longitude event)) "parse event";
  let '(from, until) := checkin_window now event in
  _ ← guard_else (can_checkin from until now 0) "check-in outside the event window";
  _ ← guard_else (checkin_place_ok event latitude longitude) "check-in too far from the event location";
  let content := lit "Claim attendance badge for event " ++ event_id in
  '(signed_id, signed_json) ← sign_event badge_award [[lit "d"; lit "badge-" ++ event_id]; [lit "e"; event_id]; [lit "p"; user]] content;
  _ ← enqueue signed_id (lit "checkin") signed_json now;
  _ ← upsert_post_row (checkin_id user event_id) user content 9 now
        (lit "[" ++ tag_text (lit "d") (lit "badge-" ++ event_id) ++ lit "," ++ tag_text (lit "e") event_id ++ lit "," ++ tag_text (lit "p") user ++ lit "]") None;
  mret true.

(** [name] is the random part of a new identifier.
    Source: src/flutter-bridge/src/ffi/events.rs:1033-1065 (events_reminder_upsert) *)
Definition events_reminder_upsert (now : Z) (new_id reminder_id event_id title : str) (start_time minutes_before : Z) : call str :=
  _ ← guard_else (0 <=? minutes_before)%Z "minutes_before must be >= 0";
  _ ← signer_pubkey;
  let id := if bool_decide (reminder_id = []) then new_id else reminder_id in
  _ ← writes (on_reminders (reminder_upsert (mk_reminder id event_id title start_time minutes_before now)));
  mret id.

(** Source: src/flutter-bridge/src/ffi/events.rs:1067-1075 (events_reminder_delete) *)
Definition events_reminder_delete (reminder_id : str) : call bool :=
  _ ← signer_pubkey; _ ← writes (on_reminders (reminder_delete reminder_id)); mret true.

(** Source: src/flutter-bridge/src/ffi/events.rs:1022-1031 (events_reminders_list) *)
Definition events_reminders_list : call (list ReminderRow) := _ ← signer_pubkey; reads (λ s, reminder_list (ag_reminders s)).

(** The last score of an identifier stands.
    Source: src/flutter-bridge/src/ffi/events.rs:1116-1135 (events_score_events, after parsing) *)
Definition score_events `{ContentCrates} (my_interests : list (list Z)) (events : list (str * str * str)) : gmap str f64 :=
  fold_left (λ out ev,
    let '(id, title, description) := ev in
    let tags := Content.extract title ++ (if bool_decide (description = []) then [] else Content.extract description) in
    <[id := if bool_decide (my_interests = []) || bool_decide (tags = []) then f64_zero else (compute_interest_score my_interests tags).1]> out)
    events ∅.

(** ** What a device does: calls of the user, and posts that relays bring *)

Inductive request :=
| Create (now : Z) (user : str) (e : new_event)
| Answer (now : Z) (event_id user status : str)
| CheckIn (now : Z) (event_id user : str) (latitude longitude : f64)
| Remind (now : Z) (new_id id event_id title : str) (start_time minutes_before : Z)
| Forget (id : str)
| Arrive (p : PostRow).

Definition perform (r : request) (s : agenda) : agenda :=
  match r with
  | Create now user e => (events_create now user e s).1
  | Answer now event_id user status => (events_rsvp now event_id user status s).1
  | CheckIn now event_id user latitude longitude => (events_check_in now event_id user latitude longitude s).1
  | Remind now new_id id event_id title start_time minutes_before => (events_reminder_upsert now new_id id event_id title start_time minutes_before s).1
  | Forget id => (events_reminder_delete id s).1
  | Arrive p => (store_row p s).1
  end.
End events.

(** * Laws *)

(** ** Identifiers in a deletion *)

Definition names_deleted (tags : list (list (list Z))) (id : str) : Prop :=
  ∃ x rest, (lit "e" :: x :: rest) ∈ tags ∧ length (lit "e" :: x :: rest) ≤ MAX_TAG_FIELDS ∧ clean x = id ∧ id ≠ [] ∧ (zlen id <= MAX_TAG_FIELD_LEN)%Z.

Lemma deletion_loop_spec tags ids :
  NoDup ids → length tags + length ids ≤ MAX_OUTPUT_IDS →
  NoDup (deletion_loop tags ids) ∧ ∀ id, id ∈ deletion_loop tags ids ↔ id ∈ ids ∨ names_deleted tags id.
Proof.
  revert ids. induction tags as [|tag tags IH]; intros ids Hnd Hlen.
  { split; [done|]. intros id. split; [by left|]. intros [?|(x & rest & Hin & _)]; [done|]. by apply elem_of_nil in Hin. }
  assert (Hskip : (∀ x rest, tag = lit "e" :: x :: rest → length tag ≤ MAX_TAG_FIELDS → clean x ≠ [] → (zlen (clean x) <= MAX_TAG_FIELD_LEN)%Z → clean x ∈ ids) →
    NoDup (deletion_loop tags ids) ∧ ∀ id, id ∈ deletion_loop tags ids ↔ id ∈ ids ∨ names_deleted (tag :: tags) id).
  { intros Hno. destruct (IH ids Hnd) as [Hd He]; [cbn in Hlen; lia|]. split; [done|]. intros id. rewrite He. split.
    - intros [?|(x & rest & Hin & Hr)]; [by left|]. right. exists x, rest. split; [by right|done].
    - intros [?|(x & rest & Hin & Hl & Hc & Hne & Hz)]; [by left|]. apply elem_of_cons in Hin as [<-|Hin].
      + left. subst id. by eapply Hno.
      + right. by exists x, rest. }
  cbn [deletion_loop]. destruct (Nat.leb_spec MAX_OUTPUT_IDS (length ids)) as [Hge|_]; [cbn in Hlen; lia|].
  destruct tag as [|name fields]; [by apply Hskip|].
  case_bool_decide as Hname; cbn [negb]; [subst name|apply Hskip; by intros x rest [= -> _]].
  destruct (Nat.ltb_spec MAX_TAG_FIELDS (length (lit "e" :: fields))) as [Hlong|Hshort]; [apply Hskip; intros; lia|].
  destruct fields as [|x rest]; [by apply Hskip|].
  destruct (bool_decide (clean x = []) || (MAX_TAG_FIELD_LEN <? zlen (clean x))%Z) eqn:Hbad.
  { apply Hskip. intros y r [= <- <-] _ Hne Hz. rewrite bool_decide_eq_false_2 in Hbad by done. cbn in Hbad. apply Z.ltb_lt in Hbad. lia. }
  apply orb_false_iff in Hbad as [Hne%bool_decide_eq_false Hz%Z.ltb_ge].
  case_bool_decide as Hin; [by apply Hskip; intros y r [= <- <-]|].
  destruct (IH (ids ++ [clean x])) as [Hd He].
  { apply NoDup_app. split_and!; [done|set_solver|apply NoDup_singleton]. }
  { rewrite length_app. cbn in Hlen |- *. lia. }
  split; [done|]. intros id. rewrite He, elem_of_app, list_elem_of_singleton. split.
  - intros [[?| ->]|(y & r & Hy & Hr)]; [by left| |right; exists y, r; split; [by right|done]].
    right. exists x, rest. split; [by left|done].
  - intros [?|(y & r & Hy & Hl & Hc & Hn & Hzz)]; [by left; left|]. apply elem_of_cons in Hy as [[= <- <-]|Hy]; [by left; right|].
    right. by exists y, r.
Qed.

(** The identifiers of the first 2000 tags that are well formed, each once. *)
Theorem deletion_ids_spec tags :
  NoDup (extract_deletion_ids tags) ∧ ∀ id, id ∈ extract_deletion_ids tags ↔ names_deleted (take MAX_TAGS tags) id.
Proof.
  unfold extract_deletion_ids. destruct (deletion_loop_spec (take MAX_TAGS tags) [] NoDup_nil_2) as [Hd He].
  { rewrite length_take. unfold MAX_TAGS, MAX_OUTPUT_IDS. cbn [length]. lia. }
  split; [done|]. intros id. rewrite He, elem_of_nil. naive_solver.
Qed.

(** The two readers of an expiry disagree: on the order of the two names, and
    on a value that is no number. *)
Example expiry_readers_differ :
  let late := [[lit "expires_at"; lit "5"]; [lit "expiration"; lit "9"]] in
  let bad := [[lit "expiration"; lit "soon"]; [lit "expires_at"; lit "5"]] in
  get_expiry_from_tags late = 9%Z ∧ get_expiry_after_parsing late = 5%Z ∧
  get_expiry_from_tags bad = 0%Z ∧ get_expiry_after_parsing bad = 5%Z.
Proof. by vm_compute. Qed.

(** ** Interests *)

Theorem interest_score_symmetric a b : (compute_interest_score a b).1 = (compute_interest_score b a).1.
Proof.
  unfold compute_interest_score. rewrite orb_comm. destruct (_ || _) eqn:Ho; [done|]. apply orb_false_iff in Ho as [Hb%bool_decide_eq_false Ha%bool_decide_eq_false].
  pose proof (overlap_counts_spec a b false Ha Hb) as Hab. pose proof (overlap_counts_spec b a false Hb Ha) as Hba.
  pose proof (overlap_details_agree a b false Ha Hb) as Dab. pose proof (overlap_details_agree b a false Hb Ha) as Dba.
  unfold interest_overlap. destruct (interest_overlap_details a b false) as [[[c u] ?] ?], (interest_overlap_details b a false) as [[[c' u'] ?] ?].
  destruct Dab as [Dab _], Dba as [Dba _]. rewrite Dab in Hab. rewrite Dba in Hba.
  rewrite (keys_inter_comm (list_to_set (item_keys false b))), (keys_union_comm (list_to_set (item_keys false b))), <-Hab in Hba.
  injection Hba as Hc Hu. by rewrite Hc, Hu.
Qed.

Section laws.
Context `{PrimitiveLaws, EventsEnv}.

(** The unlocked identity is that one. *)
Definition unlocked_for (signer : option str) (who : str) : Prop := ∃ k, signer = Some k ∧ clean k = clean who.

(** ** Attendees *)

(** Posts are stored under their identifier, which is normal. *)
Definition by_id (d : db) : Prop := ∀ k p, posts d !! k = Some p → pst_id (post_row p) = k ∧ clean k = k.

Lemma elem_of_all_posts d p : p ∈ all_posts d ↔ ∃ k, posts d !! k = Some p.
Proof. apply elem_of_table. Qed.

(** The latest answer of an account to an event. *)
Definition latest_answer (d : db) (event_id user : str) (p : Post) : Prop :=
  (∃ k, posts d !! k = Some p) ∧ answers event_id user (post_row p) = true ∧
  ∀ k q, posts d !! k = Some q → answers event_id user (post_row q) = true → later (post_row q) (post_row p) = false.

Lemma later_total p q : pst_id p ≠ pst_id q → later p q = true ∨ later q p = true.
Proof.
  intros Hne. unfold later. destruct (Z.lt_total (pst_created_at p) (pst_created_at q)) as [Hlt|[Heq|Hgt]].
  - right. rewrite (proj2 (Z.ltb_lt _ _)) by done. done.
  - rewrite Heq, Z.ltb_irrefl, Z.eqb_refl. cbn. destruct (str_leb (pst_id p) (pst_id q)) eqn:E1, (str_leb (pst_id q) (pst_id p)) eqn:E2; [|by right|by left|by left].
    by destruct Hne; apply str_leb_antisym.
  - left. rewrite (proj2 (Z.ltb_lt _ _)) by done. done.
Qed.

Lemma latest_unique d e u p q : by_id d → latest_answer d e u p → latest_answer d e u q → p = q.
Proof.
  intros Hd ([k Hk] & Hp & Hpl) ([k' Hk'] & Hq & Hql). destruct (decide (k = k')) as [->|Hne]; [congruence|].
  assert (pst_id (post_row p) ≠ pst_id (post_row q)) as Hids by (by rewrite (proj1 (Hd _ _ Hk)), (proj1 (Hd _ _ Hk'))).
  pose proof (Hpl _ _ Hk' Hq) as H1'. pose proof (Hql _ _ Hk Hp) as H2'. destruct (later_total _ _ Hids); congruence.
Qed.

Lemma answers_user e u p : answers e u p = true → pst_pubkey p = u.
Proof. unfold answers. rewrite !andb_true_iff, !bool_decide_eq_true. tauto. Qed.

Lemma answers_event e u p : answers e u p = true → pst_rsvp_event_id p = Some e ∧ pst_pubkey p = u.
Proof. unfold answers. rewrite !andb_true_iff, !bool_decide_eq_true. tauto. Qed.

Lemma elem_of_accepted d e p :
  p ∈ accepted_rows e d ↔ latest_answer d e (pst_pubkey (post_row p)) p ∧ pst_content (post_row p) = lit "accepted".
Proof.
  unfold accepted_rows, latest_answer. rewrite list_elem_of_filter, elem_of_all_posts, !andb_true_iff, bool_decide_eq_true. unfold not_superseded. rewrite forallb_forall.
  split.
  - intros (((Ha & Hc) & Hn) & Hk). split_and!; [done|done| |done]. intros k q Hq Haq. specialize (Hn q).
    rewrite Haq in Hn. cbn [andb] in Hn. apply negb_true_iff, Hn, list_elem_of_In, elem_of_all_posts. by exists k.
  - intros ((Hk & Ha & Hl) & Hc). split; [split; [by split|]|done]. intros q Hq%list_elem_of_In. apply elem_of_all_posts in Hq as [k Hq].
    destruct (answers _ _ (post_row q)) eqn:Haq; [|done]. cbn [andb]. by rewrite (Hl k q Hq Haq).
Qed.

Lemma NoDup_table `{Countable K} {A} (t : gmap K A) (f : A → K) : (∀ k x, t !! k = Some x → f x = k) → NoDup (map_to_list t).*2.
Proof.
  intros Hf. apply (NoDup_fmap_1 f). rewrite <-list_fmap_compose. erewrite (list_fmap_ext (f ∘ snd) fst).
  - apply NoDup_fst_map_to_list.
  - intros i [k x] Hi. cbn. apply Hf, elem_of_map_to_list. by eapply list_elem_of_lookup_2.
Qed.

(** The number of attendees of an event is the number of accounts whose
    latest answer is that they accept; whatever answers are stored, by whatever
    way they came, an account counts once. *)
Theorem attendees_counted_once d e :
  by_id d → ∃ l, NoDup l ∧ attendees_count e d = zlen l ∧ ∀ u, u ∈ l ↔ ∃ p, latest_answer d e u p ∧ pst_content (post_row p) = lit "accepted".
Proof.
  intros Hd. exists ((λ p, pst_pubkey (post_row p)) <$> accepted_rows e d). split_and!.
  - apply NoDup_fmap_2_strong.
    + intros p q Hp Hq Hpq. apply elem_of_accepted in Hp as [Hp _], Hq as [Hq _]. rewrite Hpq in Hp. by eapply latest_unique.
    + apply list.NoDup_filter, (NoDup_table _ (λ p, pst_id (post_row p))). intros k p Hk. by apply Hd.
  - unfold attendees_count, zlen. by rewrite length_fmap.
  - intros u. rewrite list_elem_of_fmap. split.
    + intros (p & -> & Hp). exists p. by apply elem_of_accepted.
    + intros (p & Hp & Hc). assert (pst_pubkey (post_row p) = u) as Hu by (by destruct Hp as (_ & Ha%answers_user & _)).
      exists p. split; [done|]. apply elem_of_accepted. by rewrite Hu.
Qed.

(** ** Answering *)

(** The row an answer stores, over the posts it leaves. *)
Definition answer_row (now : Z) (tags : str) (e user status : str) : PostRow :=
  mk_post_row (rsvp_id user e status) user status KIND_EVENT_RSVP now tags None None None [] [] None (lit "pending") false None None false (Some e).

Lemma events_rsvp_run now e user status s s' b :
  events_rsvp now e user status s = (s', Ok b) →
  unlocked_for (ag_signer s) user ∧ valid_rsvp (clean status) = true ∧
  ∃ tags d', let row := answer_row now tags e (clean user) (clean status) in
    post_upsert row (without_replaced (clean user) e (pst_id row) (ag_db s)) = Ok d' ∧ ag_db s' = d'.
Proof.
  unfold events_rsvp, require_identity, sign_event, enqueue, signer_pubkey. intros Hrun. inv_act.
  repeat match goal with Hs : (let '(_, _) := ?x in _) _ = _ |- _ => destruct x; inv_act end.
  match goal with Hc : ct_eq _ _ = true, Hs : ag_signer _ = Some ?k |- _ => apply ct_eq_iff in Hc; rewrite clean_idemp in Hc; split; [by exists k|] end.
  split; [done|].
  match goal with Hr : replace_answer ?row _ _ _ = _ |- _ => exists (pst_tags_json row); unfold replace_answer in Hr; destruct (post_upsert _ _) as [d'|] eqn:Hup; [|done] end.
  exists d'. cbn zeta. split; [first [reflexivity|exact Hup]|]. by simplify_eq.
Qed.

(** What the posts are after an answer. *)
Lemma answer_posts d row user e d' k0 :
  post_upsert row (without_replaced user e (pst_id row) d) = Ok d' → clean (pst_id row) = k0 →
  ∃ m, posts d' = <[k0 := m]> (filter (λ kp, replaced user e (pst_id row) (post_row kp.2) = false) (posts d)) ∧
    (m = mk_post (normalize_post row) 0 ∨ ∃ old, posts d !! k0 = Some old ∧ m = merge_post old (mk_post (normalize_post row) 0)).
Proof.
  unfold post_upsert. destruct (row_too_big _ _); [done|]. intros [= <-] <-. unfold store_post, without_replaced, on_posts, upsert, ensure_exists, on_users. cbn [posts pst_id normalize_post].
  eexists. split; [done|]. destruct (filter _ (posts d) !! clean (pst_id row)) as [old|] eqn:E; [right|by left].
  apply map_lookup_filter_Some in E as [E _]. by exists old.
Qed.

(** C31: a successful answer is that of the unlocked account, and right after
    the call it is its latest to the event, whatever it answered before and
    whatever the clock says, and every other account and every other event
    keeps the answer it had; provided that the row that stands under the
    identifier of this answer, if there is one, is a live answer of the account
    to the event, and that the identifiers that start like those of its answers
    to the event are those of such answers. A deleted row under the identifier
    stays deleted: see [deleted_answer_stays]. *)
Theorem answer_takes_effect now e user0 status0 s s' b :
  let user := clean user0 in let status := clean status0 in let d := ag_db s in let d' := ag_db s' in
  by_id d →
  (∀ k q, posts d !! k = Some q → like (chars (rsvp_id user e (lit "%"))) (chars k) = true →
     pst_pubkey (post_row q) = user ∧ pst_rsvp_event_id (post_row q) = Some e) →
  (∀ q, posts d !! clean (rsvp_id user e status) = Some q → answers e user (post_row q) = true) →
  events_rsvp now e user0 status0 s = (s', Ok b) →
  unlocked_for (ag_signer s) user0 ∧
  (∃ p, latest_answer d' e user p ∧ pst_content (post_row p) = status) ∧
  (∀ e' v p, (e', v) ≠ (e, user) → latest_answer d' e' v p ↔ latest_answer d e' v p).
Proof.
  intros user status d d' Hid Hlike Hown (Hun & Hvalid & tags & d1 & Hup & Hd1)%events_rsvp_run. split; [done|].
  assert (d1 = d') as -> by done. clear Hd1. fold user status d in Hup. set (k0 := clean (rsvp_id user e status)) in *.
  destruct (answer_posts d _ user e d' k0 Hup eq_refl) as (m & Hposts & Hm). clear Hup.
  assert (Hmans : answers e user (post_row m) = true ∧ pst_content (post_row m) = status).
  { assert (Huser : clean user = user) by apply clean_idemp. destruct Hm as [->|(old & Ho & ->)].
    - unfold answers. cbn -[clean lit]. rewrite Huser, !bool_decide_eq_true_2 by done. done.
    - pose proof (Hown old Ho) as Ha. unfold answers in Ha |- *. unfold merge_post. rewrite !andb_true_iff in Ha. destruct Ha as (((Hk & He) & Hu) & Hdel).
      apply negb_true_iff in Hdel. rewrite Hdel. cbn -[clean lit]. by rewrite Hk, Hu, bool_decide_eq_true_2. }
  destruct Hmans as [Hmans Hmst].
  assert (Honly : ∀ k q, posts d' !! k = Some q → answers e user (post_row q) = true → q = m).
  { intros k q. rewrite Hposts, lookup_insert_Some. intros [[_ <-]|[Hk Hq]] Ha; [done|]. apply map_lookup_filter_Some in Hq as [Hq Hkeep].
    destruct (Hid k q Hq) as [Hqid Hkc]. unfold replaced in Hkeep. cbn [snd] in Hkeep. unfold answers in Ha.
    rewrite !andb_true_iff in Ha. destruct Ha as (((Hkind & He) & Hu) & _). rewrite Hkind, He, Hu in Hkeep. cbn [andb orb] in Hkeep.
    apply negb_false_iff, bool_decide_eq_true in Hkeep. destruct Hk. unfold k0. change (pst_id (answer_row now tags e user status)) with (rsvp_id user e status) in Hkeep.
    by rewrite <-Hkeep, Hqid. }
  split.
  - exists m. split; [|done]. split; [exists k0; rewrite Hposts; apply lookup_insert_eq|]. split; [done|].
    intros k q Hq Ha. rewrite (Honly k q Hq Ha). unfold later. by rewrite Z.ltb_irrefl, Z.eqb_refl, str_leb_refl.
  - intros e' v p Hne. assert (Hsame : ∀ k q, answers e' v (post_row q) = true → posts d' !! k = Some q ↔ posts d !! k = Some q).
    { intros k q Ha. rewrite Hposts, lookup_insert_Some, map_lookup_filter_Some. cbn [snd].
      pose proof (answers_event _ _ _ Ha) as (He & Hu). split.
      - intros [[<- <-]|[_ [Hq _]]]; [|done]. destruct (answers_event _ _ _ Hmans) as [He' Hu']. destruct Hne. congruence.
      - intros Hq. right. split.
        + intros <-. destruct (answers_event _ _ _ (Hown q Hq)) as [He' Hu']. destruct Hne. congruence.
        + split; [done|]. apply not_true_iff_false. unfold replaced. rewrite andb_true_iff, orb_true_iff, !andb_true_iff, !bool_decide_eq_true.
          rewrite (proj1 (Hid k q Hq)). intros [[[[_ Hu'] He']|Hl] _]; [destruct Hne; congruence|].
          destruct (Hlike k q Hq Hl) as [Hu' He']. destruct Hne; congruence. }
    unfold latest_answer. split; intros ([k Hk] & Ha & Hl); (split; [exists k; by apply Hsame|]); (split; [done|]); intros k' q Hq Haq;
      apply (Hl k'); try done; by apply Hsame.
Qed.

(** ** Creating *)

(** What a reader of the content of a new event finds. *)
Lemma new_event_fields e (Hs : (0 <= ne_start_time e)%Z) (Hst : (0 <= ne_end_time e)%Z) `{!JsonLaws} :
  event_content (json_print (new_event_content e)) =
    Some (mk_event_content (Some (ne_title e)) None (Some (truncate (ne_description e) 2000))
      (if bool_decide (trim (ne_location e) = []) then None
       else if negb (SFeqb (ne_latitude e) f64_zero) || negb (SFeqb (ne_longitude e) f64_zero) then
         Some (JObj [(lit "name", JStr (ne_location e)); (lit "lat", JNum (NFloat (ne_latitude e))); (lit "lng", JNum (NFloat (ne_longitude e)))])
       else Some (JStr (ne_location e)))
      (Some (ne_start_time e)) (Some (ne_end_time e)) (if bool_decide (ne_image_url e = []) then None else Some (ne_image_url e))).
Proof.
  unfold event_content. rewrite json_roundtrip by (apply (bool_decide_unpack _); by vm_compute). cbn [mbind option_bind].
  unfold new_event_content. generalize (truncate (ne_description e) 2000). intros desc.
  set (loc := if bool_decide (trim (ne_location e) = []) then _ else _).
  set (image := if bool_decide (ne_image_url e = []) then _ else _).
  assert (Hf : ∀ a b c d x y, struct_fields [lit "name"; lit "title"; lit "description"; lit "location"; lit "start"; lit "end"; lit "image"; lit "t"]
    (JObj [(lit "name", a); (lit "description", b); (lit "location", c); (lit "start", d); (lit "end", x); (lit "image", y)]) = Some [a; JNull; b; c; d; x; y; JNull])
    by (intros; by vm_compute).
  rewrite Hf. clear Hf. unfold opt_val, as_u64. cbn [as_str fmap option_fmap option_map mbind option_bind].
  rewrite (proj2 (Z.leb_le 0 (ne_start_time e)) Hs), (proj2 (Z.leb_le 0 (ne_end_time e)) Hst).
  subst loc image. repeat case_bool_decide; try destruct (negb _ || negb _); reflexivity.
Qed.

Definition shown_location (e : new_event) : str := if bool_decide (trim (ne_location e) = []) then [] else ne_location e.
Definition shown_place (e : new_event) : f64 * f64 :=
  if bool_decide (trim (ne_location e) = []) then (f64_zero, f64_zero)
  else if negb (SFeqb (ne_latitude e) f64_zero) || negb (SFeqb (ne_longitude e) f64_zero) then (ne_latitude e, ne_longitude e)
  else centroid_of (ne_location e).

Lemma event_of_new `{!JsonLaws} e p : (0 <= ne_start_time e)%Z → (0 <= ne_end_time e)%Z → pst_content p = json_print (new_event_content e) →
  event_from_row p = Some (mk_event_info (pst_id p) (pst_pubkey p) (ne_title e) (truncate (ne_description e) 2000) (shown_location e)
    (shown_place e).1 (shown_place e).2 (ne_start_time e) (ne_end_time e) (ne_image_url e) 0 [] (Z.max 0 (pst_created_at p))).
Proof.
  intros Hs Hst Hp. unfold event_from_row. rewrite Hp, new_event_fields by done. cbn [mbind option_bind ec_location ec_title ec_name ec_description ec_start_time ec_end_time ec_image].
  unfold shown_location, shown_place. generalize (truncate (ne_description e) 2000). intros desc.
  assert (default [] (if bool_decide (ne_image_url e = []) then None else Some (ne_image_url e)) = ne_image_url e) as ->
    by (case_bool_decide as Hi; [by rewrite Hi|done]).
  case_bool_decide; [reflexivity|]. destruct (negb _ || negb _); [|cbn [location_place location_name fst snd]; by destruct (centroid_of _)].
  assert (Hn : ∀ a b c, get_field (lit "name") (JObj [(lit "name", a); (lit "lat", b); (lit "lng", c)]) = Some a) by (intros; by vm_compute).
  assert (Ha : ∀ a b c, get_field (lit "lat") (JObj [(lit "name", a); (lit "lat", b); (lit "lng", c)]) = Some b) by (intros; by vm_compute).
  assert (Hb : ∀ a b c, get_field (lit "lng") (JObj [(lit "name", a); (lit "lat", b); (lit "lng", c)]) = Some c) by (intros; by vm_compute).
  unfold location_place, location_name. rewrite Hn, Ha, Hb. reflexivity.
Qed.

(** What the form held is what the event shows, once it was created by the
    account it names: the description cut to 2000 bytes, and the coordinates
    only where a location is named; the box search finds it there too. *)
Theorem created_event_shown `{!JsonLaws} now user e s s' signed :
  (0 <= ne_start_time e)%Z → (0 <= ne_end_time e)%Z → (0 <= now)%Z →
  events_create now user e s = (s', Ok signed) →
  unlocked_for (ag_signer s) user ∧
  ∃ key tags eid, ag_signer s = Some key ∧ ev_sign key KIND_EVENT tags (json_print (new_event_content e)) = Ok (eid, signed) ∧
    (clean eid = eid → posts (ag_db s) !! eid = None →
     get_event eid (ag_db s') = Some (mk_event_info eid (clean user) (ne_title e) (truncate (ne_description e) 2000) (shown_location e)
       (shown_place e).1 (shown_place e).2 (ne_start_time e) (ne_end_time e) (ne_image_url e) (attendees_count eid (ag_db s')) [] now) ∧
     ag_geo s' !! eid = Some (ne_latitude e, ne_longitude e)).
Proof.
  intros Hs Hst Hnow. unfold events_create, require_identity, sign_event, signer_pubkey. intros Hrun. inv_act.
  repeat match goal with Hs : (let '(_, _) := ?x in _) _ = _ |- _ => destruct x; inv_act end.
  match goal with Hc : ct_eq _ _ = true, Hs : ag_signer _ = Some ?k |- _ => apply ct_eq_iff in Hc; rewrite clean_idemp in Hc; split; [by exists k|] end.
  match goal with Hsign : ev_sign ?k _ ?tags _ = Ok (?eid, _) |- _ => exists k, tags, eid end.
  split_and!; [done|done|]. intros Hid Hnew.
  match goal with Hu : upsert_post_row _ _ _ _ _ _ _ _ = _ |- _ => unfold upsert_post_row, store_row, post_upsert in Hu; destruct (row_too_big _ _); [done|] end.
  simplify_eq. set (row := mk_post_row _ _ _ _ _ _ _ _ _ _ _ _ _ _ _ _ _ _).
  assert (Hrow : posts (store_post row (ag_db s)) !! l = Some (mk_post (normalize_post row) 0)).
  { unfold store_post, on_posts, upsert, ensure_exists, on_users. cbn [posts pst_id normalize_post row]. rewrite Hid, Hnew. apply lookup_insert_eq. }
  unfold on_geo, ag_on_db. cbn [ag_db ag_geo]. split.
  - unfold get_event. rewrite Hrow. cbn [mbind option_bind post_row]. unfold is_event. cbn [pst_kind pst_is_deleted normalize_post row].
    change (KIND_EVENT =? 31922)%Z with false. change (KIND_EVENT =? 31923)%Z with true. cbn [orb andb negb].
    rewrite (event_of_new e) by done. cbn [fmap option_fmap option_map pst_id pst_pubkey pst_created_at normalize_post row].
    unfold with_attendees. cbn [evt_id evt_creator_pubkey evt_title evt_description evt_location evt_latitude evt_longitude evt_start_time evt_end_time evt_image evt_rsvp_status evt_created_at].
    by rewrite Hid, clean_idemp, Z.max_r.
  - rewrite bool_decide_eq_true_2 by (by rewrite Hrow). apply lookup_insert_eq.
Qed.

(** ** Checking in *)

(** Who checks in is the unlocked account, at a live event of the store, at
    a time in its window (from an hour before its start up to its end, or four
    hours after a start without an end), and within 500 m of the place of the
    event, unless its latitude or its longitude is zero. *)
Theorem check_in_guarded now e user lat lon s s' b :
  events_check_in now e user lat lon s = (s', Ok b) →
  unlocked_for (ag_signer s) user ∧
  ∃ ev, get_event e (ag_db s) = Some ev ∧
    (evt_start_time ev ≠ 0%Z → (sat_sub (evt_start_time ev) 3600 <= now)%Z ∧
       (now < if (evt_start_time ev <? evt_end_time ev)%Z then evt_end_time ev else sat_add u64_max (evt_start_time ev) 14400)%Z) ∧
    (SFeqb (evt_latitude ev) f64_zero = true ∨ SFeqb (evt_longitude ev) f64_zero = true ∨
     within_checkin_radius (evt_latitude ev) (evt_longitude ev) lat lon (f64_of_Z 500) = true).
Proof.
  unfold events_check_in, require_identity, signer_pubkey. intros Hrun. inv_act.
  repeat match goal with Hs : (let '(_, _) := ?x in _) _ = _ |- _ => destruct x eqn:?; inv_act end.
  match goal with Hc : ct_eq _ _ = true, Hs : ag_signer _ = Some ?k |- _ => apply ct_eq_iff in Hc; rewrite clean_idemp in Hc; split; [by exists k|] end.
  match goal with Hg : get_event _ _ = Some ?ev |- _ => exists ev; split; [done|] end.
  match goal with Hw : checkin_window _ _ = _, Hc : can_checkin _ _ _ _ = true, Hp : checkin_place_ok _ _ _ = true |- _ =>
    unfold checkin_window in Hw; unfold can_checkin in Hc; unfold checkin_place_ok in Hp end.
  split.
  - intros Hne. apply Z.eqb_neq in Hne. rewrite Hne in *. simplify_eq. match goal with Hc : (if ?c then false else _) = true |- _ => destruct c; [discriminate Hc|] end.
    rewrite andb_true_iff, Z.leb_le, Z.ltb_lt in *. unfold sat_sub in *. split; [lia|tauto].
  - rewrite negb_true_iff, !andb_false_iff, !negb_false_iff in *. tauto.
Qed.

(** ** Searching around a place *)

(** Only these identifiers get a place. *)
Definition new_places (C : str → Prop) (s s' : agenda) : Prop := ∀ k, is_Some (ag_geo s' !! k) → is_Some (ag_geo s !! k) ∨ C k.
#[local] Instance new_places_preorder C : PreOrder (new_places C).
Proof. split; [by intros s k; left|]. intros s1 s2 s3 H12 H23 k Hk. destruct (H23 k Hk) as [H2'|]; [by apply H12|by right]. Qed.

Section places.
Context (C : str → Prop).

Lemma places_signer : within (new_places C) signer_pubkey.
Proof. apply within_read_bind. intros s. by apply within_found; apply _. Qed.
Lemma places_identity user : within (new_places C) (require_identity user).
Proof. apply within_bind; [apply _|apply places_signer|]. intros key. by apply within_guard; apply _. Qed.
Lemma places_sign kind tags content : within (new_places C) (sign_event kind tags content).
Proof. apply within_bind; [apply _|apply places_signer|]. intros key. by apply within_lift; apply _. Qed.
Lemma places_store p : within (new_places C) (store_row p).
Proof. intros s k Hk. left. revert Hk. unfold store_row. by destruct (post_upsert _ _). Qed.
Lemma places_writes f : (∀ s, ag_geo (f s) = ag_geo s) → within (new_places C) (writes f).
Proof. intros Hf s k Hk. left. revert Hk. cbn. by rewrite Hf. Qed.
Lemma places_enqueue id action payload now : within (new_places C) (enqueue id action payload now).
Proof.
  apply within_read_bind. intros s. apply within_bind; [apply _|by apply within_lift; apply _|]. intros ob. by apply places_writes.
Qed.
Lemma places_replace row user e : within (new_places C) (replace_answer row user e).
Proof.
  intros s k Hk. left. revert Hk. unfold replace_answer. destruct (post_upsert _ _); [|done]. cbn [fst]. unfold on_geo, ag_on_db. cbn [ag_geo].
  intros [x Hx]. apply map_lookup_filter_Some in Hx as [Hx _]. by eexists.
Qed.

Ltac placing :=
  repeat match goal with
  | |- within _ (_ ≫= _) => apply within_bind; [apply _| |intros ?]
  | |- within _ (require_identity _) => apply places_identity
  | |- within _ signer_pubkey => apply places_signer
  | |- within _ (sign_event _ _ _) => apply places_sign
  | |- within _ (enqueue _ _ _ _) => apply places_enqueue
  | |- within _ (replace_answer _ _ _) => apply places_replace
  | |- within _ (upsert_post_row _ _ _ _ _ _ _) => apply places_store
  | |- within _ (store_row _) => apply places_store
  | |- within _ (guard_else _ _) => apply within_guard; apply _
  | |- within _ (reads _) => apply within_reads; apply _
  | |- within _ (found _ _) => apply within_found; apply _
  | |- within _ (lift _) => apply within_lift; apply _
  | |- within _ (mret _) => apply within_ret; apply _
  | |- within _ (writes _) => by apply places_writes
  | |- within _ (let '(_, _) := ?x in _) => destruct x
  end.

Lemma places_answer now e user status : within (new_places C) (events_rsvp now e user status).
Proof. unfold events_rsvp. placing. Qed.
Lemma places_check_in now e user lat lon : within (new_places C) (events_check_in now e user lat lon).
Proof. unfold events_check_in. placing. Qed.
Lemma places_remind now new_id id e title st mb : within (new_places C) (events_reminder_upsert now new_id id e title st mb).
Proof. unfold events_reminder_upsert. placing. Qed.
Lemma places_forget id : within (new_places C) (events_reminder_delete id).
Proof. unfold events_reminder_delete. placing. Qed.
End places.

Lemma within_lift_bind (R : agenda → agenda → Prop) `{!PreOrder R} {A B} (r : may_fail A) (k : A → call B) :
  (∀ a, r = Ok a → within R (k a)) → within R (lift r ≫= k).
Proof. intros Hk s. unfold mbind, act_bind, lift. destruct r as [a|err]; [by apply Hk|cbn; reflexivity]. Qed.

(** Signed for an event of that request. *)
Definition created_by (r : request) (eid : str) : Prop :=
  ∃ now user e key tags signed, r = Create now user e ∧ ev_sign key KIND_EVENT tags (json_print (new_event_content e)) = Ok (eid, signed).

Lemma places_create now user e : within (new_places (created_by (Create now user e))) (events_create now user e).
Proof.
  unfold events_create. apply within_bind; [apply _|by apply within_lift; apply _|intros _].
  apply within_bind; [apply _|apply places_identity|intros _]. unfold sign_event. intros s. rewrite bind_assoc. revert s.
  apply within_bind; [apply _|apply places_signer|]. intros key. apply within_lift_bind; [apply _|]. intros [eid signed] Hsign.
  apply within_bind; [apply _|apply places_store|intros _]. apply within_bind; [apply _| |by intros _; apply within_ret; apply _].
  intros s2 k. unfold writes, on_geo. cbn [fst ag_geo]. destruct (bool_decide _); [|by left].
  destruct (decide (k = eid)) as [->|Hne]; [intros _; right; by repeat eexists|]. rewrite lookup_insert_ne by done. by left.
Qed.

Definition run (rs : list request) (s : agenda) : agenda := fold_left (λ s r, perform r s) rs s.

Lemma places_run rs s k : is_Some (ag_geo (run rs s) !! k) → is_Some (ag_geo s !! k) ∨ ∃ r, r ∈ rs ∧ created_by r k.
Proof.
  revert s. induction rs as [|r rs IH]; intros s; [by left|]. intros [Hk|(r' & Hr' & Hc)]%(IH (perform r s)); [|right; exists r'; split; [by right|done]].
  assert (new_places (created_by r) s (perform r s)) as Hr.
  { destruct r; cbn [perform]; [apply places_create|apply places_answer|apply places_check_in|apply places_remind|apply places_forget|apply places_store]. }
  destruct (Hr k Hk) as [|Hc]; [by left|]. right. exists r. split; [by left|done].
Qed.

Lemma found_has_place lat lon radius limit authors s ev : ev ∈ search_around lat lon radius limit authors s → is_Some (ag_geo s !! evt_id ev).
Proof.
  unfold search_around. destruct (box_sides _ _). intros [_ (p & Hp & Hev)%list_elem_of_omap]%list_elem_of_filter.
  apply list_elem_of_fmap in Hp as (q & -> & Hq%subseteq_take). rewrite order_by_perm in Hq. apply list_elem_of_filter in Hq as [Hq _].
  rewrite !andb_true_iff in Hq. destruct Hq as (_ & Hbox & _). unfold in_box in Hbox.
  assert (evt_id ev = pst_id (post_row q)) as ->.
  { unfold event_from_row in Hev. destruct (event_content _) as [c|]; [|done]. cbn [mbind option_bind] in Hev. destruct (location_place _). by injection Hev as <-. }
  by destruct (ag_geo s !! pst_id (post_row q)).
Qed.

(** Whatever the users of a device did on it, and whatever posts reached it,
    a search around a place finds only events that were created on the device:
    those of others, which relays bring, never. *)
Theorem search_finds_own_events lat lon radius limit authors rs s ev :
  ag_geo s = ∅ → ev ∈ search_around lat lon radius limit authors (run rs s) → ∃ r, r ∈ rs ∧ created_by r (evt_id ev).
Proof.
  intros Hempty [Hold|Hnew]%found_has_place%places_run; [|done]. rewrite Hempty in Hold. by destruct Hold.
Qed.
End laws.

(** ** Examples *)

Module EventsExamples.
Import Toy ToyJsonText.

#[local] Instance toy_events : EventsEnv := {|
  ev_json := toy_json;
  ev_urls := {| url_parse s := None |};
  ev_trig := {| f64_sin x := x; f64_cos x := x; f64_atan2 x y := x |};
  ev_zstd := {| zstd_encode_all d := None; zstd_read n z := None |};
  ev_sign key kind tags content := Ok (lit "e" ++ print_u64 kind, lit "signed");
  ev_seal s := Ok s;
  six_decimals x := x;
  ev_posts_order := _; ev_latest_order := _; ev_reminders_order := _; ev_trigger_order := _
|}.

Definition alice : str := replicate 64 0x61%Z.
Definition bob : str := replicate 64 0x62%Z.
Definition nobody : agenda := mk_agenda db_empty ∅ ∅ (mk_outbox ∅ false) None.
Definition as_user (who : str) (s : agenda) : agenda := mk_agenda (ag_db s) (ag_geo s) (ag_reminders s) (ag_outbox s) (Some who).

(** Quito: its latitude is 0, its longitude -78. *)
Definition party (location : string) : new_event :=
  mk_new_event (lit "Party") (lit "bring food") (lit location) f64_zero (f64_of_Z (-78)) 100000 110000 [].
Definition the_event : str := lit "e31923".
Definition planned : agenda := perform (Create 5 alice (party "Quito")) (as_user alice nobody).
Definition answered (status : string) (s : agenda) : agenda := perform (Answer 7 the_event bob (lit status)) (as_user bob s).

Example event_shown :
  (λ e, (evt_title e, evt_location e, evt_longitude e)) <$> get_event the_event (ag_db planned) = Some (lit "Party", lit "Quito", f64_of_Z (-78)).
Proof. by vm_compute. Qed.

(** Coordinates without the name of a location are lost. *)
Example place_without_name_lost :
  let s := perform (Create 5 alice (party "")) (as_user alice nobody) in
  evt_longitude <$> get_event the_event (ag_db s) = Some f64_zero ∧ snd <$> ag_geo s !! the_event = Some (f64_of_Z (-78)).
Proof. by vm_compute. Qed.

Example minds_change :
  attendees_count the_event (ag_db (answered "accepted" planned)) = 1%Z ∧
  attendees_count the_event (ag_db (answered "declined" (answered "accepted" planned))) = 0%Z ∧
  attendees_count the_event (ag_db (answered "accepted" (answered "declined" (answered "accepted" planned)))) = 1%Z ∧
  events_get_attendees the_event (ag_db (answered "accepted" planned)) = [bob].
Proof. by vm_compute. Qed.

(** On the equator anybody may check in, from the other side of the world. *)
Example far_check_in :
  (events_check_in 100000 the_event bob (f64_of_Z 10) (f64_of_Z 100) (as_user bob planned)).2 = Ok true ∧
  within_checkin_radius f64_zero (f64_of_Z (-78)) (f64_of_Z 10) (f64_of_Z 100) (f64_of_Z 500) = false ∧
  (events_check_in 96399 the_event bob (f64_of_Z 10) (f64_of_Z 100) (as_user bob planned)).2 = err "check-in outside the event window".
Proof. by vm_compute. Qed.

(** A deleted event still takes answers, and no check-in. *)
Example deleted_event_answered :
  let s := as_user bob (ag_on_db (mark_deleted the_event alice) planned) in
  get_event the_event (ag_db s) = None ∧ (events_rsvp 9 the_event bob (lit "accepted") s).2 = Ok true ∧
  (events_check_in 100000 the_event bob f64_zero (f64_of_Z (-78)) s).2 = err "Event not found".
Proof. by vm_compute. Qed.

(** All cached posts were deleted (post.rs, delete_all_posts); accepting again
    succeeds and leaves the row of the answer deleted, so nobody attends. *)
Example deleted_answer_stays :
  let s := as_user bob (ag_on_db (on_posts (fmap with_deleted)) (answered "accepted" planned)) in
  let r := events_rsvp 9 the_event bob (lit "accepted") s in
  r.2 = Ok true ∧ attendees_count the_event (ag_db r.1) = 0%Z ∧
  attendees_count the_event (ag_db (answered "accepted" planned)) = 1%Z.
Proof. by vm_compute. Qed.

(** Bob declines, then accepts. *)
Lemma answer_takes_effect_witness :
  let s := as_user bob (answered "declined" planned) in
  ∃ p, latest_answer (ag_db (events_rsvp 8 the_event bob (lit "accepted") s).1) the_event bob p ∧ pst_content (post_row p) = lit "accepted".
Proof.
  intros s. assert (Hok : (events_rsvp 8 the_event bob (lit "accepted") s).2 = Ok true) by (by vm_compute).
  assert (Hb : bool_decide (clean bob = bob) && bool_decide (clean (lit "accepted") = lit "accepted") = true) by (by vm_compute).
  apply andb_true_iff in Hb as [Hb%bool_decide_eq_true Ha%bool_decide_eq_true].
  assert (Hall : forallb (λ kp, bool_decide (pst_id (post_row kp.2) = kp.1) && bool_decide (clean kp.1 = kp.1) &&
      (negb (like (chars (rsvp_id bob the_event (lit "%"))) (chars kp.1)) ||
       bool_decide (pst_pubkey (post_row kp.2) = bob) && bool_decide (pst_rsvp_event_id (post_row kp.2) = Some the_event)) &&
      (negb (bool_decide (kp.1 = clean (rsvp_id bob the_event (lit "accepted")))) || answers the_event bob (post_row kp.2)))
    (map_to_list (posts (ag_db s))) = true) by (by vm_compute).
  rewrite forallb_forall in Hall.
  assert (Hpost : ∀ k q, posts (ag_db s) !! k = Some q → _) by (intros k q Hk; exact (Hall (k, q) (proj1 (list_elem_of_In _ _) (proj2 (elem_of_map_to_list _ _ _) Hk)))).
  clear Hall. pose proof (answer_takes_effect 8 the_event bob (lit "accepted") s (events_rsvp 8 the_event bob (lit "accepted") s).1 true) as Ht.
  rewrite Hb, Ha in Ht. apply Ht; clear Ht; [| | |by rewrite <-Hok; apply surjective_pairing].
  - intros k q Hk. specialize (Hpost k q Hk). cbn [fst snd] in Hpost. rewrite !andb_true_iff, !bool_decide_eq_true in Hpost. tauto.
  - intros k q Hk Hl. specialize (Hpost k q Hk). cbn [fst snd] in Hpost. rewrite Hl in Hpost. cbn [negb orb] in Hpost. rewrite !andb_true_iff, !bool_decide_eq_true in Hpost. tauto.
  - intros q Hk. specialize (Hpost _ q Hk). cbn [fst snd] in Hpost. rewrite (bool_decide_eq_true_2 _ eq_refl) in Hpost. cbn [negb orb] in Hpost. rewrite !andb_true_iff in Hpost. tauto.
Defined.
End EventsExamples.
