(* ===== verification/Market.v ===== *)
(** The marketplace: src/flutter-bridge/src/ffi/marketplace.rs over the
    repositories of db-core (post, escrow, marketplace_review, poll) and the
    rules of src/marketplace-core (listing, escrow). Every call that changes
    state is an action; identifiers and clocks are arguments, the authors of
    an audience too. Errors of the SQL engine are left out, and so are the
    streams and the derived category column. *)

From Stdlib Require Import SpecFloat.
From S2P Require Import Url Content Prelude RustStr Text Primitives Sql Json Act Store.

(** Source: src/common-core/src/consts.rs:7-7 (KIND_LISTING) *)
Definition KIND_LISTING : Z := 30402.
(** Source: src/common-core/src/consts.rs:8-8 (KIND_ORDER) *)
Definition KIND_ORDER : Z := 30403.
(** Source: src/common-core/src/consts.rs:29-29 (MAX_TAG_VALUE_LEN) *)
Definition MAX_TAG_VALUE_LEN : Z := 4096.

(** ** Rows *)

(** Source: src/db-core/src/repos/escrow.rs:6-17 (EscrowRow) *)
Record EscrowRow := mk_escrow_row {
  esc_id : str;
  esc_listing_id : str;
  esc_buyer_pubkey : str;
  esc_seller_pubkey : str;
  esc_amount_msats : Z;
  esc_currency : str;
  esc_status : str;
  esc_note : option str;
  esc_created_at : Z;
  esc_updated_at : Z
}.

(** A stored escrow also keeps the confirmations.
    Source: src/db-core/src/schema/migrations/v001_initial.rs:243-256 (escrows) *)
Record Escrow := mk_escrow { escrow_row : EscrowRow; buyer_confirmed : bool; seller_confirmed : bool }.

(** Source: src/db-core/src/repos/marketplace_review.rs:60-67 (MarketplaceReviewRow) *)
Record MarketplaceReviewRow := mk_review {
  rev_id : str; rev_listing_id : str; rev_reviewer_pubkey : str; rev_rating : Z; rev_text : str; rev_created_at : Z
}.

(** Source: src/db-core/src/repos/poll.rs:115-123 (PollRow) *)
Record PollRow := mk_poll {
  pol_id : str; pol_pubkey : str; pol_question : str; pol_options : str; pol_expires_at : Z; pol_closed : bool;
  pol_created_at : Z
}.

(** Keyed by poll and voter.
    Source: src/db-core/src/repos/poll.rs:125-131 (PollVoteRow) *)
Record PollVoteRow := mk_vote {
  vot_id : str; vot_poll_id : str; vot_option_id : Z; vot_voter_pubkey : str; vot_voted_at : Z
}.

(** Listings and orders are posts; the signer is the unlocked identity. *)
Record market := mk_market {
  mkt_db : db;
  mkt_escrows : gmap str Escrow;
  mkt_reviews : gmap str MarketplaceReviewRow;
  mkt_polls : gmap str PollRow;
  mkt_votes : gmap (str * str) PollVoteRow;
  mkt_signer : option str
}.

Definition on_db f (m : market) := mk_market (f (mkt_db m)) (mkt_escrows m) (mkt_reviews m) (mkt_polls m) (mkt_votes m) (mkt_signer m).
Definition on_escrows f (m : market) := mk_market (mkt_db m) (f (mkt_escrows m)) (mkt_reviews m) (mkt_polls m) (mkt_votes m) (mkt_signer m).
Definition on_reviews f (m : market) := mk_market (mkt_db m) (mkt_escrows m) (f (mkt_reviews m)) (mkt_polls m) (mkt_votes m) (mkt_signer m).
Definition on_polls f (m : market) := mk_market (mkt_db m) (mkt_escrows m) (mkt_reviews m) (f (mkt_polls m)) (mkt_votes m) (mkt_signer m).
Definition on_votes f (m : market) := mk_market (mkt_db m) (mkt_escrows m) (mkt_reviews m) (mkt_polls m) (f (mkt_votes m)) (mkt_signer m).

Abbreviation call A := (act market A) (only parsing).

(** ** marketplace-core: listings *)

(** Source: src/marketplace-core/src/listing.rs:9-16 (ListingEvent) *)
Record ListingEvent := mk_listing_event {
  lev_id : str; lev_pubkey : str; lev_content : str; lev_created_at : f64; lev_tags : list (list (list Z))
}.

(** Source: src/marketplace-core/src/listing.rs:19-42 (ListingOut) *)
Record ListingOut := mk_listing_out {
  out_id : str; out_pubkey : str; out_d_tag : str; out_title : str; out_price : f64; out_currency : str;
  out_condition : str; out_description : option str; out_location_geohash : option str; out_images : list (list Z);
  out_videos : option (list (list Z)); out_contact_methods : list (list Z); out_tags : list (list Z);
  out_created_at : f64; out_escrow_enabled : bool
}.

(** Source: src/flutter-bridge/src/ffi/marketplace.rs:18-34 (ListingInfo) *)
Record ListingInfo := mk_listing_info {
  inf_id : str; inf_seller_pubkey : str; inf_seller_name : str; inf_title : str; inf_description : str;
  inf_images : list (list Z); inf_price : Z; inf_currency : str; inf_category : str; inf_condition : str;
  inf_shipping_available : bool; inf_escrow_enabled : bool; inf_created_at : Z; inf_updated_at : Z; inf_status : str
}.

(** Source: src/flutter-bridge/src/ffi/marketplace.rs:38-46 (OrderInfo) *)
Record OrderInfo := mk_order_info {
  ord_id : str; ord_listing_id : str; ord_buyer_pubkey : str; ord_seller_pubkey : str; ord_status : str;
  ord_amount : Z; ord_created_at : Z
}.

(** Source: src/marketplace-core/src/listing.rs:5-5 (MAX_TAGS_ENTRIES) *)
Definition MAX_TAGS_ENTRIES : Z := 100000.
(** Source: src/marketplace-core/src/listing.rs:6-6 (MAX_PRICE) *)
Definition MAX_PRICE : f64 := f64_of_Z (10 ^ 15).

(** The second fields of the tags of that name, the long ones left out. *)
Definition tag_values (names : list (list Z)) (tags : list (list (list Z))) : list (list Z) :=
  omap (λ t, match t with
             | n :: v :: _ => if bool_decide (n ∈ names) && (zlen v <=? MAX_TAG_VALUE_LEN)%Z then Some v else None
             | _ => None
             end) tags.

Definition ascii_alnum (b : Z) : bool := is_ascii_digit b || between 0x41 0x5A b || between 0x61 0x7A b.

(** What the marketplace takes from elsewhere: JSON, URLs, the signing of an
    event (its identifier and its JSON), the order of equal rows. *)
Class MarketEnv := {
  market_json :: JsonText;
  market_urls :: UrlCrate;
  sign_builder : str → Z → list (list (list Z)) → str → may_fail (str * str);
  posts_order :: OrderBy (desc (λ p, pst_created_at (post_row p)));
  escrows_order :: OrderBy (desc (λ e, esc_created_at (escrow_row e)));
  reviews_order :: OrderBy (desc rev_created_at)
}.

Section market.
Context `{Primitives, MarketEnv}.

(** Source: src/marketplace-core/src/listing.rs:101-105 (parse_listing, price) *)
Definition parse_price (s : str) : option f64 :=
  p ← f64_parse s;
  if f64_is_finite p && SFleb (S754_zero false) p && SFleb p MAX_PRICE then Some p else None.

(** Source: src/marketplace-core/src/listing.rs:106-112 (parse_listing, currency) *)
Definition valid_currency (s : str) : bool :=
  negb (bool_decide (s = [])) && (zlen s <=? 16)%Z && forallb ascii_alnum s.

(** Source: src/marketplace-core/src/listing.rs:120-130 (parse_listing, location) *)
Definition parse_geohash (s : str) : option str :=
  let trimmed := trim s in
  if negb (bool_decide (trimmed = [])) && (zlen trimmed <=? 12)%Z && forallb ascii_alnum trimmed then Some trimmed else None.

(** Source: src/marketplace-core/src/listing.rs:45-52 (ListingContent) *)
Record ListingContent := mk_listing_content {
  lc_description : option str; lc_condition : option str; lc_contact_methods : option (list (list Z));
  lc_escrow_enabled : option bool
}.

Definition listing_content (content : str) : option ListingContent :=
  j ← json_parse content;
  l ← struct_fields [lit "description"; lit "condition"; lit "contactMethods"; lit "escrowEnabled"] j;
  match l with
  | [d; c; m; e] =>
      d ← opt_val as_str d; c ← opt_val as_str c; m ← opt_val as_strs m; e ← opt_val as_bool e;
      Some (mk_listing_content d c m e)
  | _ => None
  end.

(** Source: src/marketplace-core/src/listing.rs:54-181 (parse_listing) *)
Definition parse_listing (ev : ListingEvent) : option ListingOut :=
  if (MAX_TAGS_ENTRIES <? zlen (lev_tags ev))%Z then None
  else
    let first names := head (tag_values names (lev_tags ev)) in
    let images := take 32 (filter (λ v, is_valid_media_url v = true) (tag_values [lit "image"] (lev_tags ev))) in
    let videos := take 16 (filter (λ v, is_valid_media_url v = true) (tag_values [lit "video"] (lev_tags ev))) in
    let hashtags := take 64 (filter (λ v, v ≠ [] ∧ (zlen v <= 64)%Z) (trim <$> tag_values [lit "t"] (lev_tags ev))) in
    price_str ← first [lit "price"];
    price ← parse_price price_str;
    let currency := default (lit "USD") (first [lit "currency"]) in
    if negb (valid_currency currency) then None
    else
      let d_tag := default (if is_char_boundary (lev_id ev) 12 then take 12 (lev_id ev) else lev_id ev) (first [lit "d"]) in
      let title := truncate_str (default (lit "Untitled") (first [lit "title"])) 256 in
      let location := first [lit "location"; lit "g"] ≫= parse_geohash in
      let c :=
        if (zlen (lev_content ev) <=? 256 * 1024)%Z then
          match listing_content (lev_content ev) with
          | Some c => c
          | None => mk_listing_content (if bool_decide (lev_content ev = []) then None else Some (lev_content ev)) None None None
          end
        else mk_listing_content None None None None in
      Some (mk_listing_out (lev_id ev) (lev_pubkey ev) d_tag title price currency
        (default (lit "good") ((λ s, truncate_str s 64) <$> lc_condition c)) (lc_description c) location images
        (if bool_decide (videos = []) then None else Some videos)
        (default [] ((λ l, (λ s, truncate_str s 256) <$> take 64 l) <$> lc_contact_methods c)) hashtags
        (if f64_is_finite (lev_created_at ev) && SFleb (S754_zero false) (lev_created_at ev) then lev_created_at ev else S754_zero false)
        (default false (lc_escrow_enabled c))).

(** Source: src/marketplace-core/src/escrow.rs:13-23 (can_release) *)
Definition can_release (buyer_confirmed seller_confirmed arbitrator_approved dispute_active : bool) : bool :=
  if dispute_active then arbitrator_approved else buyer_confirmed && seller_confirmed.

(** ** Reading rows *)

(** Source: src/flutter-bridge/src/ffi/marketplace.rs:48-51 (has_tag) *)
Definition has_tag (tags : list (list (list Z))) (name : str) : bool :=
  existsb (λ t, bool_decide (head t = Some name)) tags.

Definition add_tag (name : str) (o : option str) (missing : bool) (tags : list (list (list Z))) : list (list (list Z)) :=
  match o with Some v => if missing then tags ++ [[name; v]] else tags | None => tags end.

(** The row's tags, completed by what its content says.
    Source: src/flutter-bridge/src/ffi/marketplace.rs:58-111 (listing_event_from_row) *)
Definition listing_event_from_row (p : PostRow) : ListingEvent :=
  let tags := default [] (parse_tags (pst_tags_json p)) in
  let tags :=
    match json_parse (pst_content p) with
    | None => tags
    | Some v =>
        let tags := add_tag (lit "title") (as_str (field v (lit "title"))) (negb (has_tag tags (lit "title"))) tags in
        let tags := add_tag (lit "price") (f64_print <$> as_f64 (field v (lit "price"))) (negb (has_tag tags (lit "price"))) tags in
        let tags := add_tag (lit "currency") (as_str (field v (lit "currency"))) (negb (has_tag tags (lit "currency"))) tags in
        let tags := add_tag (lit "location") (as_str (field v (lit "locationGeohash")))
                      (negb (has_tag tags (lit "location")) && negb (has_tag tags (lit "g"))) tags in
        match field v (lit "images") with
        | JArr l => tags ++ ((λ s, [lit "image"; s]) <$> omap as_str l)
        | _ => tags
        end
    end in
  mk_listing_event (pst_id p) (pst_pubkey p) (pst_content p) (f64_of_Z (pst_created_at p)) tags.

(** The row's [is_deleted] comes as the number 0 or 1, which is no boolean, so
    the status is always "active".
    Source: src/flutter-bridge/src/ffi/marketplace.rs:113-137 (listing_from_value) *)
Definition listing_from_row (seller_name : str) (p : PostRow) : option ListingInfo :=
  out ← parse_listing (listing_event_from_row p);
  Some (mk_listing_info (out_id out) (pst_pubkey p) seller_name (out_title out) (default [] (out_description out))
    (out_images out) (f64_to_u64 (f64_max0 (out_price out))) (out_currency out) (default [] (head (out_tags out)))
    (out_condition out) (bool_decide (is_Some (out_location_geohash out))) (out_escrow_enabled out)
    (f64_to_u64 (f64_max0 (out_created_at out))) (f64_to_u64 (f64_max0 (out_created_at out))) (lit "active")).

(** LEFT JOIN users: the name of the author, when there is one. *)
Definition seller_name (d : db) (p : PostRow) : str := default [] (users d !! pst_pubkey p ≫= usr_name).

(** Source: src/flutter-bridge/src/ffi/marketplace.rs:139-148 (OrderContent) *)
Record OrderContent := mk_order_content {
  oc_listing_id : option str; oc_seller : option str; oc_status : option str; oc_amount : option f64
}.

(** Strings are borrowed from the text, which an escape forbids. *)
Definition order_content (content : str) : option OrderContent :=
  if json_borrows content then
    j ← json_parse content;
    l ← struct_fields [lit "listingId"; lit "seller"; lit "status"; lit "amount"] j;
    match l with
    | [i; s; t; a] =>
        i ← opt_val as_str i; s ← opt_val as_str s; t ← opt_val as_str t; a ← opt_val as_f64 a; Some (mk_order_content i s t a)
    | _ => None
    end
  else None.

(** Source: src/flutter-bridge/src/ffi/marketplace.rs:150-173 (order_from_fields) *)
Definition order_from_fields (id content pubkey : str) (created_at : Z) : OrderInfo :=
  let c := order_content content in
  mk_order_info id (default [] (c ≫= oc_listing_id)) pubkey (default [] (c ≫= oc_seller)) (default (lit "created") (c ≫= oc_status))
    (f64_to_u64 (default (S754_zero false) (c ≫= oc_amount))) (Z.max 0 created_at).

(** ** Queries on posts *)

(** The rows that satisfy [P], newest first. *)
Definition post_rows (P : PostRow → bool) (d : db) : list PostRow :=
  post_row <$> order_by (desc (λ p, pst_created_at (post_row p))) (filter (λ p, P (post_row p) = true) (map_to_list (posts d)).*2).

(** Source: src/flutter-bridge/src/ffi/marketplace.rs:192-207 (listings_sql) *)
Definition listings (authors : option (list (list Z))) (extra : PostRow → bool) (limit max offset : Z) (d : db) : list PostRow :=
  take (Z.to_nat (Z.max 1 (Z.min limit max))) (drop (Z.to_nat (Z.max 0 offset))
    (post_rows (λ p, (pst_kind p =? KIND_LISTING)%Z && negb (pst_is_deleted p)
       && match authors with Some a => bool_decide (pst_pubkey p ∈ a) | None => true end && extra p) d)).

(** Source: src/flutter-bridge/src/ffi/marketplace.rs:223-234 (db_listings_params) *)
Definition db_listings (d : db) (rows : list PostRow) : list ListingInfo :=
  omap (λ p, listing_from_row (seller_name d p) p) rows.

(** An audience without authors gives nothing.
    Source: src/flutter-bridge/src/ffi/marketplace.rs:238-261 (marketplace_fetch_listings) *)
Definition marketplace_fetch_listings (limit offset : Z) (authors : option (list (list Z))) (m : market) : list ListingInfo :=
  match authors with
  | Some [] => []
  | _ => db_listings (mkt_db m) (listings authors (λ _, true) limit 200 offset (mkt_db m))
  end.

(** LIKE with the wildcards of the query escaped: a substring, ASCII case
    ignored.
    Source: src/flutter-bridge/src/ffi/marketplace.rs:308-345 (marketplace_search) *)
Definition marketplace_search (query : str) (limit : Z) (authors : option (list (list Z))) (m : market) : list ListingInfo :=
  if bool_decide (trim query = []) then []
  else
    match authors with
    | Some [] => []
    | _ => db_listings (mkt_db m) (listings authors
             (λ p, contains (to_ascii_lowercase query) (to_ascii_lowercase (pst_content p))) limit 100 0 (mkt_db m))
    end.

(** Source: src/flutter-bridge/src/ffi/marketplace.rs:591-603 (marketplace_fetch_seller_listings) *)
Definition marketplace_fetch_seller_listings (seller_pubkey : str) (m : market) : list ListingInfo :=
  db_listings (mkt_db m) (take 200 (post_rows (λ p, (pst_kind p =? KIND_LISTING)%Z
    && bool_decide (to_ascii_lowercase (pst_pubkey p) = clean seller_pubkey) && negb (pst_is_deleted p)) (mkt_db m))).

Definition row_of_kind (kind : Z) (id : str) (d : db) : option PostRow :=
  p ← posts d !! id; if (pst_kind (post_row p) =? kind)%Z then Some (post_row p) else None.

(** A deleted listing is found too.
    Source: src/flutter-bridge/src/ffi/marketplace.rs:349-364 (marketplace_get_listing) *)
Definition get_listing (listing_id : str) (m : market) : option ListingInfo :=
  p ← row_of_kind KIND_LISTING listing_id (mkt_db m); listing_from_row (seller_name (mkt_db m) p) p.

Definition marketplace_get_listing (listing_id : str) : call ListingInfo :=
  l ← reads (get_listing listing_id); found l "Listing not found".

(** Source: src/flutter-bridge/src/ffi/marketplace.rs:368-384 (marketplace_get_content) *)
Definition marketplace_get_content (listing_id : str) (m : market) : str :=
  default (lit "{}") (pst_content <$> row_of_kind KIND_LISTING listing_id (mkt_db m)).

(** Source: src/flutter-bridge/src/ffi/marketplace.rs:717-739 (marketplace_get_order) *)
Definition get_order (order_id : str) (m : market) : option OrderInfo :=
  p ← row_of_kind KIND_ORDER order_id (mkt_db m);
  Some (order_from_fields (pst_id p) (pst_content p) (pst_pubkey p) (pst_created_at p)).

Definition marketplace_get_order (order_id : str) : call OrderInfo :=
  o ← reads (get_order order_id); found o "Order not found".

(** ** The signer and the posts *)

(** Source: src/flutter-bridge/src/ffi/signer.rs:122-128 (signer_pubkey) *)
Definition signer_pubkey : call str := s ← reads mkt_signer; found s "signer locked".

(** Source: src/flutter-bridge/src/ffi/signer.rs:134-147 (require_identity) *)
Definition require_identity (expected : str) : call unit :=
  actual ← signer_pubkey;
  guard_else (ct_eq (clean actual) (clean expected)) "identity mismatch: caller is not the claimed pubkey".

Definition store_row (p : PostRow) : call unit := λ m,
  match post_upsert p (mkt_db m) with
  | Ok d => (on_db (λ _, d) m, Ok ())
  | Err _ => (m, err "row too big")
  end.

(** Source: src/flutter-bridge/src/ffi/db.rs:1137-1170 (upsert_post_row) *)
Definition upsert_post_row (id pubkey content : str) (kind created_at : Z) (tags_json : str) (subject : option str) : call unit :=
  store_row (mk_post_row id pubkey content kind created_at tags_json None None None [] [] subject (lit "pending") false
    None None false None).

(** ** Listings *)

Definition strs (l : list (list Z)) : json := JArr (JStr <$> l).

(** Source: src/flutter-bridge/src/ffi/marketplace.rs:427-436 (marketplace_create_listing, content) *)
Definition new_listing_content (title : str) (price : Z) (currency condition description : str) (shipping_available : bool)
    (images : list (list Z)) : str :=
  json_print [(lit "title", JStr title); (lit "price", JNum (NFloat (f64_of_Z price)));
    (lit "currency", JStr (if bool_decide (currency = []) then lit "sats" else currency));
    (lit "condition", JStr condition); (lit "description", JStr description);
    (lit "locationGeohash", if shipping_available then JStr (lit "local") else JNull);
    (lit "images", strs images); (lit "escrowEnabled", JBool true)].

(** Source: src/flutter-bridge/src/ffi/marketplace.rs:391-468 (marketplace_create_listing) *)
Definition marketplace_create_listing (now : Z) (d_tag seller_pubkey title description : str) (price : Z)
    (currency category condition images_json : str) (shipping_available : bool) : call str :=
  let seller_pubkey := clean seller_pubkey in
  _ ← require_identity seller_pubkey;
  _ ← guard_else (negb (bool_decide (trim title = [])) && (zlen title <=? 500)%Z) "title must be between 1 and 500 chars";
  _ ← guard_else (negb (price =? 0)%Z) "price must be positive";
  _ ← guard_else (zlen description <=? 10000)%Z "description exceeds 10,000 chars cap";
  _ ← guard_else (zlen images_json <=? 64 * 1024)%Z "images JSON exceeds 64KB cap";
  images ← found (parse_strings images_json) "invalid images JSON";
  _ ← guard_else (zlen images <=? 12)%Z "too many images";
  _ ← guard_else (forallb (λ img, negb (bool_decide (trim img = [])) && is_valid_media_url img) images) "invalid image URL";
  let content := new_listing_content title price currency condition description shipping_available images in
  let tags := [[lit "d"; d_tag]; [lit "t"; category]] in
  key ← signer_pubkey;
  '(event_id, signed_json) ← lift (sign_builder key KIND_LISTING tags content);
  _ ← upsert_post_row event_id seller_pubkey content KIND_LISTING now (json_tags tags) (Some title);
  mret signed_json.

(** Source: src/flutter-bridge/src/ffi/marketplace.rs:496-503 (marketplace_update_listing, content) *)
Definition edited_listing_content (title : str) (price : Z) (existing : ListingInfo) (description : str) : str :=
  json_print [(lit "title", JStr title); (lit "price", JNum (NFloat (f64_of_Z price)));
    (lit "currency", JStr (inf_currency existing)); (lit "condition", JStr (inf_condition existing));
    (lit "description", JStr description); (lit "images", strs (inf_images existing))].

(** Source: src/flutter-bridge/src/ffi/marketplace.rs:473-553 (marketplace_update_listing) *)
Definition marketplace_update_listing (now : Z) (listing_id seller_pubkey title description : str) (price : Z) : call bool :=
  _ ← guard_else (negb (bool_decide (trim title = [])) && (zlen title <=? 500)%Z) "title must be between 1 and 500 chars";
  _ ← guard_else (negb (price =? 0)%Z) "price must be positive";
  _ ← guard_else (zlen description <=? 10000)%Z "description exceeds 10,000 chars cap";
  existing ← marketplace_get_listing listing_id;
  _ ← guard_else (eq_ignore_ascii_case (inf_seller_pubkey existing) seller_pubkey) "only the seller can update a listing";
  let seller_pubkey := clean seller_pubkey in
  _ ← require_identity seller_pubkey;
  let content := edited_listing_content title price existing description in
  let fresh_tags := json_tags [[lit "d"; listing_id]; [lit "t"; inf_category existing]] in
  row ← reads (λ m, post_row <$> posts (mkt_db m) !! clean listing_id);
  let '(tags_json, created_at) :=
    match row with
    | Some r => (if bool_decide (pst_tags_json r = []) then fresh_tags else pst_tags_json r, pst_created_at r)
    | None => (fresh_tags, now)
    end in
  _ ← store_row (mk_post_row listing_id seller_pubkey content KIND_LISTING created_at tags_json None None None [] []
        (Some title) (lit "edited") false None None false None);
  mret true.

Definition OPEN_STATUSES : list (list Z) := [lit "created"; lit "funded"; lit "shipped"; lit "disputed"].

Definition open_escrows (listing_id : str) (m : market) : nat :=
  size (filter (λ e : str * Escrow, esc_listing_id (escrow_row e.2) = listing_id ∧ esc_status (escrow_row e.2) ∈ OPEN_STATUSES) (mkt_escrows m)).

(** Source: src/flutter-bridge/src/ffi/marketplace.rs:557-587 (marketplace_delete_listing) *)
Definition marketplace_delete_listing (listing_id seller_pubkey : str) : call bool :=
  existing ← marketplace_get_listing listing_id;
  _ ← guard_else (eq_ignore_ascii_case (inf_seller_pubkey existing) seller_pubkey) "only the seller can delete a listing";
  _ ← require_identity (clean seller_pubkey);
  open ← reads (open_escrows listing_id);
  _ ← guard_else (open =? 0) "listing has open escrows";
  _ ← writes (on_db (on_posts (alter with_deleted listing_id)));
  mret true.

(** ** Orders *)

(** Source: src/flutter-bridge/src/ffi/marketplace.rs:692-697 (marketplace_create_order, content) *)
Definition new_order_content (listing_id seller_pubkey : str) (price : Z) : str :=
  json_print [(lit "listingId", JStr listing_id); (lit "seller", JStr seller_pubkey); (lit "amount", JNum (NInt price));
    (lit "status", JStr (lit "created"))].

(** Source: src/flutter-bridge/src/ffi/marketplace.rs:672-713 (marketplace_create_order) *)
Definition marketplace_create_order (now : Z) (id listing_id buyer_pubkey seller_pubkey : str) : call str :=
  listing ← marketplace_get_listing listing_id;
  _ ← guard_else (eq_ignore_ascii_case (inf_seller_pubkey listing) seller_pubkey) "seller does not own this listing";
  _ ← guard_else (negb (eq_ignore_ascii_case (trim buyer_pubkey) (trim seller_pubkey))) "cannot order own listing";
  _ ← require_identity buyer_pubkey;
  let buyer_pubkey := clean buyer_pubkey in
  let seller_pubkey := clean seller_pubkey in
  _ ← upsert_post_row id buyer_pubkey (new_order_content listing_id seller_pubkey (inf_price listing)) KIND_ORDER now
        (json_tags [[lit "p"; seller_pubkey]; [lit "e"; listing_id]]) None;
  mret id.

(** Source: src/flutter-bridge/src/ffi/marketplace.rs:743-768 (marketplace_fetch_buyer_orders) *)
Definition marketplace_fetch_buyer_orders (buyer_pubkey : str) : call (list OrderInfo) :=
  let buyer_pubkey := clean buyer_pubkey in
  _ ← require_identity buyer_pubkey;
  reads (λ m, (λ p, order_from_fields (pst_id p) (pst_content p) (pst_pubkey p) (pst_created_at p)) <$>
    take 200 (post_rows (λ p, (pst_kind p =? KIND_ORDER)%Z && bool_decide (to_ascii_lowercase (pst_pubkey p) = buyer_pubkey)
                              && negb (pst_is_deleted p)) (mkt_db m))).

(** The seller is looked for in the text of the content.
    Source: src/flutter-bridge/src/ffi/marketplace.rs:773-799 (marketplace_fetch_seller_orders) *)
Definition marketplace_fetch_seller_orders (seller_pubkey : str) : call (list OrderInfo) :=
  let seller_pubkey := clean seller_pubkey in
  _ ← require_identity seller_pubkey;
  let quote := [0x22%Z] in
  let needle := quote ++ lit "seller" ++ quote ++ lit ":" ++ quote ++ seller_pubkey ++ quote in
  reads (λ m, (λ p, order_from_fields (pst_id p) (pst_content p) (pst_pubkey p) (pst_created_at p)) <$>
    take 200 (post_rows (λ p, (pst_kind p =? KIND_ORDER)%Z && negb (pst_is_deleted p)
                              && contains needle (to_ascii_lowercase (pst_content p))) (mkt_db m))).

(** ** Escrows *)

(** INSERT fails when the identifier is taken.
    Source: src/db-core/src/repos/escrow.rs:26-48 (create) *)
Definition escrow_create (e : EscrowRow) : call unit := λ m,
  if bool_decide (is_Some (mkt_escrows m !! esc_id e)) then (m, err "UNIQUE constraint failed")
  else (on_escrows (insert (esc_id e) (mk_escrow
          (mk_escrow_row (esc_id e) (esc_listing_id e) (clean (esc_buyer_pubkey e)) (clean (esc_seller_pubkey e))
             (esc_amount_msats e) (esc_currency e) (esc_status e) (esc_note e) (esc_created_at e) (esc_updated_at e))
          false false)) m, Ok ()).

(** Source: src/db-core/src/repos/escrow.rs:50-59 (get) *)
Definition escrow_get (id : str) (m : market) : option EscrowRow := escrow_row <$> mkt_escrows m !! id.

(** Source: src/db-core/src/repos/escrow.rs:61-73 (get_by_listing) *)
Definition escrow_get_by_listing (listing_id : str) (m : market) : list EscrowRow :=
  escrow_row <$> order_by (desc (λ e, esc_created_at (escrow_row e)))
    (filter (λ e, esc_listing_id (escrow_row e) = listing_id) (map_to_list (mkt_escrows m)).*2).

(** Source: src/db-core/src/repos/escrow.rs:77-94 (get_by_participant) *)
Definition escrow_get_by_participant (pubkey : str) (m : market) : list EscrowRow :=
  let norm_pk := clean pubkey in
  escrow_row <$> order_by (desc (λ e, esc_created_at (escrow_row e)))
    (filter (λ e, esc_buyer_pubkey (escrow_row e) = norm_pk ∨ esc_seller_pubkey (escrow_row e) = norm_pk)
            (map_to_list (mkt_escrows m)).*2).

(** An UPDATE of one row; no row is an error. *)
Definition escrow_update (id : str) (f : Escrow → Escrow) : call unit := λ m,
  match mkt_escrows m !! id with
  | Some e => (on_escrows (insert id (f e)) m, Ok ())
  | None => (m, err "not found")
  end.

Definition with_status (status : str) (now : Z) (e : Escrow) : Escrow :=
  let r := escrow_row e in
  mk_escrow (mk_escrow_row (esc_id r) (esc_listing_id r) (esc_buyer_pubkey r) (esc_seller_pubkey r) (esc_amount_msats r)
    (esc_currency r) status (esc_note r) (esc_created_at r) now) (buyer_confirmed e) (seller_confirmed e).
Definition with_note (note : str) (now : Z) (e : Escrow) : Escrow :=
  let r := escrow_row e in
  mk_escrow (mk_escrow_row (esc_id r) (esc_listing_id r) (esc_buyer_pubkey r) (esc_seller_pubkey r) (esc_amount_msats r)
    (esc_currency r) (esc_status r) (Some note) (esc_created_at r) now) (buyer_confirmed e) (seller_confirmed e).
Definition with_confirms (buyer seller : bool) (now : Z) (e : Escrow) : Escrow :=
  let r := escrow_row e in
  mk_escrow (mk_escrow_row (esc_id r) (esc_listing_id r) (esc_buyer_pubkey r) (esc_seller_pubkey r) (esc_amount_msats r)
    (esc_currency r) (esc_status r) (esc_note r) (esc_created_at r) now) buyer seller.

(** Source: src/db-core/src/repos/escrow.rs:96-107 (update_status) *)
Definition update_status (now : Z) (id status : str) : call unit := escrow_update id (with_status status now).

(** Source: src/db-core/src/repos/escrow.rs:110-121 (set_note) *)
Definition set_note (now : Z) (id note : str) : call unit := escrow_update id (with_note note now).

(** Source: src/db-core/src/repos/escrow.rs:124-136 (get_confirms) *)
Definition get_confirms (id : str) : call (bool * bool) :=
  e ← reads (λ m, mkt_escrows m !! id); e ← found e "not found"; mret (buyer_confirmed e, seller_confirmed e).

(** Source: src/db-core/src/repos/escrow.rs:139-154 (set_buyer_confirmed) *)
Definition set_buyer_confirmed (now : Z) (id : str) (confirmed : bool) : call unit :=
  escrow_update id (λ e, with_confirms confirmed (seller_confirmed e) now e).

(** Source: src/db-core/src/repos/escrow.rs:157-172 (set_seller_confirmed) *)
Definition set_seller_confirmed (now : Z) (id : str) (confirmed : bool) : call unit :=
  escrow_update id (λ e, with_confirms (buyer_confirmed e) confirmed now e).

Definition escrow_row_of (id : str) : call EscrowRow := e ← reads (escrow_get id); found e "not found".

(** One of the two identities passes; the other need not.
    Source: src/flutter-bridge/src/ffi/marketplace.rs:817-821 (marketplace_create_escrow, caller) *)
Definition require_either (a b : str) : call unit := λ m,
  if is_ok (require_identity a m).2 || is_ok (require_identity b m).2 then (m, Ok ())
  else (m, err "identity mismatch: caller is not buyer or seller").

(** Source: src/flutter-bridge/src/ffi/marketplace.rs:804-844 (marketplace_create_escrow) *)
Definition marketplace_create_escrow (now : Z) (escrow_id order_id buyer_pubkey seller_pubkey : str) (amount : Z) : call str :=
  order ← marketplace_get_order order_id;
  _ ← guard_else (eq_ignore_ascii_case (ord_buyer_pubkey order) buyer_pubkey
                  && eq_ignore_ascii_case (ord_seller_pubkey order) seller_pubkey) "order parties do not match escrow parties";
  _ ← require_either buyer_pubkey seller_pubkey;
  _ ← guard_else (negb (amount =? 0)%Z) "escrow amount must be positive";
  _ ← guard_else (amount <=? i64_max)%Z "amount too large";
  _ ← escrow_create (mk_escrow_row escrow_id (ord_listing_id order) (clean buyer_pubkey) (clean seller_pubkey) amount (lit "sats")
        (lit "created") None now now);
  mret escrow_id.

(** Source: src/flutter-bridge/src/ffi/marketplace.rs:852-887 (marketplace_release_escrow) *)
Definition marketplace_release_escrow (now : Z) (escrow_id seller_pubkey : str) : call bool :=
  caller ← signer_pubkey;
  _ ← guard_else (eq_ignore_ascii_case caller seller_pubkey) "release must be initiated by the seller identity";
  escrow ← escrow_row_of escrow_id;
  _ ← guard_else (eq_ignore_ascii_case (esc_seller_pubkey escrow) caller) "not found";
  '(buyer_ok, seller_ok) ← get_confirms escrow_id;
  let disputed := bool_decide (esc_status escrow = lit "disputed") in
  let arbitrator_approved := false in
  _ ← guard_else (can_release buyer_ok seller_ok arbitrator_approved disputed) "release requires both-party confirmation";
  _ ← update_status now escrow_id (lit "completed");
  mret true.

(** Source: src/flutter-bridge/src/ffi/marketplace.rs:892-908 (marketplace_escrow_confirm_buyer) *)
Definition marketplace_escrow_confirm_buyer (now : Z) (escrow_id caller : str) : call bool :=
  escrow ← escrow_row_of escrow_id;
  _ ← guard_else (eq_ignore_ascii_case (esc_buyer_pubkey escrow) caller) "confirmation must be initiated by the buyer identity";
  _ ← require_identity caller;
  _ ← set_buyer_confirmed now escrow_id true;
  mret true.

(** Source: src/flutter-bridge/src/ffi/marketplace.rs:913-932 (marketplace_escrow_confirm_seller) *)
Definition marketplace_escrow_confirm_seller (now : Z) (escrow_id caller : str) : call bool :=
  escrow ← escrow_row_of escrow_id;
  _ ← guard_else (eq_ignore_ascii_case (esc_seller_pubkey escrow) caller) "confirmation must be initiated by the seller identity";
  _ ← require_identity caller;
  _ ← set_seller_confirmed now escrow_id true;
  mret true.

(** Source: src/flutter-bridge/src/ffi/marketplace.rs:936-958 (marketplace_dispute_escrow) *)
Definition marketplace_dispute_escrow (now : Z) (escrow_id disputer_pubkey reason : str) : call bool :=
  let reason := truncate reason 512 in
  escrow ← escrow_row_of escrow_id;
  _ ← guard_else (eq_ignore_ascii_case (esc_buyer_pubkey escrow) disputer_pubkey
                  || eq_ignore_ascii_case (esc_seller_pubkey escrow) disputer_pubkey) "not found";
  _ ← require_identity disputer_pubkey;
  _ ← update_status now escrow_id (lit "disputed");
  _ ← set_note now escrow_id reason;
  mret true.

(** The mediator's key is dropped.
    Source: src/flutter-bridge/src/ffi/marketplace.rs:963-1010 (marketplace_resolve_escrow) *)
Definition marketplace_resolve_escrow (now : Z) (escrow_id winner_pubkey : str) : call bool :=
  caller ← signer_pubkey;
  escrow ← escrow_row_of escrow_id;
  _ ← guard_else (eq_ignore_ascii_case caller (esc_buyer_pubkey escrow) || eq_ignore_ascii_case caller (esc_seller_pubkey escrow)) "not found";
  _ ← guard_else (eq_ignore_ascii_case winner_pubkey (esc_buyer_pubkey escrow)
                  || eq_ignore_ascii_case winner_pubkey (esc_seller_pubkey escrow)) "winner must be an escrow party";
  status ←
    (if bool_decide (esc_status escrow = lit "disputed") then
       mret (if eq_ignore_ascii_case winner_pubkey (esc_seller_pubkey escrow) then lit "completed" else lit "refunded")
     else
       '(buyer_ok, seller_ok) ← get_confirms escrow_id;
       _ ← guard_else (buyer_ok && seller_ok) "resolve requires both-party confirmation";
       mret (lit "completed"));
  _ ← update_status now escrow_id status;
  _ ← set_note now escrow_id (lit "resolved by mediator");
  mret true.

(** Source: src/flutter-bridge/src/ffi/marketplace.rs:1014-1025 (marketplace_get_escrow) *)
Definition marketplace_get_escrow (escrow_id : str) : call EscrowRow := e ← reads (escrow_get escrow_id); found e "Escrow not found".

(** Source: src/flutter-bridge/src/ffi/marketplace.rs:1029-1040 (marketplace_get_escrow_by_listing) *)
Definition marketplace_get_escrow_by_listing (listing_id : str) (m : market) : option EscrowRow := head (escrow_get_by_listing listing_id m).

(** ** Reviews *)

(** A review whose identifier is taken is dropped.
    Source: src/db-core/src/repos/marketplace_review.rs:11-20 (insert) *)
Definition review_insert (r : MarketplaceReviewRow) : call unit :=
  writes (on_reviews (λ t, match t !! rev_id r with
    | Some _ => t
    | None => <[rev_id r := mk_review (rev_id r) (trim (rev_listing_id r)) (clean (rev_reviewer_pubkey r)) (rev_rating r)
                              (rev_text r) (rev_created_at r)]> t
    end)).

(** Source: src/db-core/src/repos/marketplace_review.rs:22-35 (list_by_listing) *)
Definition list_by_listing (listing_id : str) (limit : Z) (m : market) : list MarketplaceReviewRow :=
  select_rows (desc rev_created_at) (λ r, rev_listing_id r = trim listing_id) (Z.to_nat limit) (mkt_reviews m).

(** Source: src/db-core/src/repos/marketplace_review.rs:37-46 (average_for) *)
Definition average_for (listing_id : str) (m : market) : option f64 :=
  let rs := filter (λ r, rev_listing_id r = trim listing_id) (map_to_list (mkt_reviews m)).*2 in
  match rs with
  | [] => None
  | _ => Some (SFdiv 53 1024 (f64_of_Z (foldr Z.add 0%Z (rev_rating <$> rs))) (f64_of_Z (zlen rs)))
  end.

(** Source: src/flutter-bridge/src/ffi/marketplace.rs:1044-1077 (marketplace_review_listing) *)
Definition marketplace_review_listing (now : Z) (id listing_id reviewer_pubkey : str) (rating : Z) (text : str) : call bool :=
  let listing_id := trim listing_id in
  _ ← guard_else (negb (bool_decide (listing_id = [])) && (zlen listing_id <=? 128)%Z) "listing_id must be between 1 and 128 characters";
  _ ← guard_else (between 1 5 rating) "rating must be between 1 and 5";
  _ ← guard_else (negb (bool_decide (trim reviewer_pubkey = []))) "reviewer_pubkey cannot be empty";
  _ ← require_identity reviewer_pubkey;
  _ ← guard_else (zlen text <=? 5000)%Z "review text exceeds 5,000 characters cap";
  _ ← review_insert (mk_review id listing_id (clean reviewer_pubkey) rating text now);
  mret true.

(** Source: src/flutter-bridge/src/ffi/marketplace.rs:1082-1100 (marketplace_listing_reviews) *)
Definition marketplace_listing_reviews (listing_id : str) (limit : Z) (m : market) : list (Z * str * str) :=
  (λ r, (rev_rating r, rev_reviewer_pubkey r, rev_text r)) <$> list_by_listing (trim listing_id) (Z.max 1 (Z.min limit 200)) m.

(** Source: src/flutter-bridge/src/ffi/marketplace.rs:1104-1110 (marketplace_listing_rating) *)
Definition marketplace_listing_rating (listing_id : str) (m : market) : f64 := default (S754_zero false) (average_for listing_id m).

(** ** Polls *)

Definition sat_i64 (z : Z) : Z := Z.max i64_min (Z.min i64_max z).

(** The author and the creation time stay on conflict.
    Source: src/db-core/src/repos/poll.rs:11-28 (upsert_poll) *)
Definition upsert_poll (p : PollRow) : call unit :=
  writes (on_polls (λ t, <[pol_id p :=
    match t !! pol_id p with
    | Some old => mk_poll (pol_id old) (pol_pubkey old) (pol_question p) (pol_options p) (pol_expires_at p) (pol_closed p) (pol_created_at old)
    | None => mk_poll (pol_id p) (clean (pol_pubkey p)) (pol_question p) (pol_options p) (pol_expires_at p) (pol_closed p) (pol_created_at p)
    end]> t)).

(** Source: src/db-core/src/repos/poll.rs:30-38 (get_poll) *)
Definition get_poll (id : str) (m : market) : option PollRow := mkt_polls m !! id.

(** Source: src/db-core/src/repos/poll.rs:55-63 (set_closed) *)
Definition set_closed (id : str) (closed : bool) : call unit :=
  writes (on_polls (alter (λ p, mk_poll (pol_id p) (pol_pubkey p) (pol_question p) (pol_options p) (pol_expires_at p) closed (pol_created_at p)) id)).

(** One vote per voter; a second one replaces the option.
    Source: src/db-core/src/repos/poll.rs:65-74 (vote) *)
Definition vote (v : PollVoteRow) : call unit :=
  let k := (vot_poll_id v, clean (vot_voter_pubkey v)) in
  writes (on_votes (λ t, <[k :=
    match t !! k with
    | Some old => mk_vote (vot_id old) (vot_poll_id old) (vot_option_id v) (vot_voter_pubkey old) (vot_voted_at v)
    | None => mk_vote (vot_id v) (vot_poll_id v) (vot_option_id v) (clean (vot_voter_pubkey v)) (vot_voted_at v)
    end]> t)).

(** Source: src/db-core/src/repos/poll.rs:76-85 (has_voted) *)
Definition has_voted (poll_id voter : str) (m : market) : bool := bool_decide (is_Some (mkt_votes m !! (poll_id, clean voter))).

(** Source: src/db-core/src/repos/poll.rs:87-100 (option_count) *)
Definition option_count (poll_id : str) (option_id : Z) (m : market) : Z :=
  zsize (filter (λ kv : str * str * PollVoteRow, kv.1.1 = poll_id ∧ vot_option_id kv.2 = option_id) (mkt_votes m)).

(** Source: src/flutter-bridge/src/ffi/marketplace.rs:1115-1166 (marketplace_poll_create) *)
Definition marketplace_poll_create (now : Z) (id user_pubkey question options_json : str) (expires_in_hours : Z) : call (str * str) :=
  _ ← guard_else (zlen options_json <=? 64 * 1024)%Z "options JSON exceeds 64KB cap";
  let user_pubkey := clean user_pubkey in
  _ ← require_identity user_pubkey;
  options ← found (parse_strings options_json) "invalid options JSON";
  _ ← guard_else (2 <=? length options) "poll needs at least 2 options";
  _ ← guard_else (length options <=? 20) "poll supports at most 20 options";
  _ ← guard_else (negb (bool_decide (trim question = [])) && (zlen question <=? 512)%Z) "poll question must be 1-512 characters";
  _ ← guard_else (forallb (λ o, negb (bool_decide (trim o = [])) && (zlen (trim o) <=? 256)%Z) options) "poll option must be 1-256 characters";
  let offset := sat_i64 (expires_in_hours * 3600) in
  let expires_at := Z.max (sat_i64 (now + offset)) (now - 1) in
  _ ← upsert_poll (mk_poll id user_pubkey question options_json expires_at false now);
  mret (id, question).

(** Source: src/flutter-bridge/src/ffi/marketplace.rs:1170-1201 (marketplace_poll_vote) *)
Definition marketplace_poll_vote (now : Z) (id poll_id voter_pubkey : str) (option_index : Z) : call bool :=
  _ ← guard_else (0 <=? option_index)%Z "option_index must be non-negative";
  let voter_pubkey := clean voter_pubkey in
  _ ← require_identity voter_pubkey;
  poll ← reads (get_poll poll_id);
  poll ← found poll "poll not found";
  _ ← guard_else (negb (pol_closed poll)) "poll is closed";
  _ ← vote (mk_vote id poll_id option_index voter_pubkey now);
  mret true.

(** Source: src/flutter-bridge/src/ffi/marketplace.rs:1205-1221 (marketplace_poll_close) *)
Definition marketplace_poll_close (poll_id user_pubkey : str) : call bool :=
  let user_pubkey := clean user_pubkey in
  _ ← require_identity user_pubkey;
  poll ← reads (get_poll poll_id);
  poll ← found poll "poll not found";
  _ ← guard_else (eq_ignore_ascii_case (pol_pubkey poll) user_pubkey) "not poll owner";
  _ ← set_closed poll_id true;
  mret true.

(** The counts of the options that the poll has.
    Source: src/flutter-bridge/src/ffi/marketplace.rs:1225-1249 (marketplace_poll_get) *)
Definition marketplace_poll_get (poll_id : str) : call (str * str * list Z) :=
  poll ← reads (get_poll poll_id);
  poll ← found poll "poll not found";
  options ← found (parse_strings (pol_options poll)) "invalid options JSON";
  reads (λ m, (pol_id poll, pol_question poll, (λ i, option_count poll_id (Z.of_nat i) m) <$> seq 0 (length options))).

(** Source: src/flutter-bridge/src/ffi/marketplace.rs:1253-1258 (marketplace_poll_has_voted) *)
Definition marketplace_poll_has_voted (poll_id voter_pubkey : str) (m : market) : bool := has_voted poll_id (clean voter_pubkey) m.

(** ** Every call that changes state *)

Inductive request :=
| CreateListing (now : Z) (d_tag seller_pubkey title description : str) (price : Z) (currency category condition images_json : str) (shipping : bool)
| UpdateListing (now : Z) (listing_id seller_pubkey title description : str) (price : Z)
| DeleteListing (listing_id seller_pubkey : str)
| CreateOrder (now : Z) (id listing_id buyer_pubkey seller_pubkey : str)
| CreateEscrow (now : Z) (id order_id buyer_pubkey seller_pubkey : str) (amount : Z)
| Release (now : Z) (escrow_id seller_pubkey : str)
| ConfirmBuyer (now : Z) (escrow_id caller : str)
| ConfirmSeller (now : Z) (escrow_id caller : str)
| Dispute (now : Z) (escrow_id disputer reason : str)
| Resolve (now : Z) (escrow_id winner : str)
| Review (now : Z) (id listing_id reviewer : str) (rating : Z) (text : str)
| PollCreate (now : Z) (id user question options_json : str) (hours : Z)
| PollVote (now : Z) (id poll_id voter : str) (option_index : Z)
| PollClose (poll_id user : str).

Definition perform (r : request) : call unit :=
  match r with
  | CreateListing now d seller title desc price currency category condition images shipping =>
      _ ← marketplace_create_listing now d seller title desc price currency category condition images shipping; mret ()
  | UpdateListing now id seller title desc price => _ ← marketplace_update_listing now id seller title desc price; mret ()
  | DeleteListing id seller => _ ← marketplace_delete_listing id seller; mret ()
  | CreateOrder now id listing buyer seller => _ ← marketplace_create_order now id listing buyer seller; mret ()
  | CreateEscrow now id order buyer seller amount => _ ← marketplace_create_escrow now id order buyer seller amount; mret ()
  | Release now id seller => _ ← marketplace_release_escrow now id seller; mret ()
  | ConfirmBuyer now id caller => _ ← marketplace_escrow_confirm_buyer now id caller; mret ()
  | ConfirmSeller now id caller => _ ← marketplace_escrow_confirm_seller now id caller; mret ()
  | Dispute now id disputer reason => _ ← marketplace_dispute_escrow now id disputer reason; mret ()
  | Resolve now id winner => _ ← marketplace_resolve_escrow now id winner; mret ()
  | Review now id listing reviewer rating text => _ ← marketplace_review_listing now id listing reviewer rating text; mret ()
  | PollCreate now id user question options hours => _ ← marketplace_poll_create now id user question options hours; mret ()
  | PollVote now id poll voter option => _ ← marketplace_poll_vote now id poll voter option; mret ()
  | PollClose poll user => _ ← marketplace_poll_close poll user; mret ()
  end.

(** Another identity unlocked, or none. *)
Definition with_signer (s : option str) (m : market) : market :=
  mk_market (mkt_db m) (mkt_escrows m) (mkt_reviews m) (mkt_polls m) (mkt_votes m) s.

(** Calls in their order, each with the identity unlocked at that moment. *)
Definition run (tr : list (option (list Z) * request)) (m : market) : market :=
  fold_left (λ m '(s, r), (perform r (with_signer s m)).1) tr m.
End market.
