(* ===== verification/MarketLaws.v ===== *)
(** The marketplace over any sequence of calls: what settles an escrow and
    what does not, that a listing is shown as its seller entered it, and that
    closed polls are final. *)

From Stdlib Require Import SpecFloat.
From S2P Require Import Url Content Prelude RustStr Text Primitives Sql Json Act Store Market.

Section market.
Context `{PrimitiveLaws, MarketEnv}.

(** The unlocked identity is that one. *)
Definition unlocked (s : option str) (who : str) : Prop := ∃ k, s = Some k ∧ clean k = clean who.

Lemma require_identity_run {B} who (k : unit → act market B) m :
  (require_identity who ≫= k) m =
    match mkt_signer m with
    | Some a => if ct_eq (clean a) (clean who) then k () m else (m, err "identity mismatch: caller is not the claimed pubkey")
    | None => (m, err "signer locked")
    end.
Proof. unfold require_identity, signer_pubkey. by destruct (mkt_signer m) as [a|] eqn:E; repeat (act_run; rewrite ?E). Qed.

(** ** Escrows *)

(** What a call does to the escrow of that identifier. *)
Inductive escrow_step (s : option str) (id : str) : request → option Escrow → option Escrow → Prop :=
| es_same r o : escrow_step s id r o o
| es_new r e : esc_status (escrow_row e) = lit "created" → buyer_confirmed e = false → seller_confirmed e = false →
    escrow_step s id r None (Some e)
| es_buyer now caller e : unlocked s (esc_buyer_pubkey (escrow_row e)) →
    escrow_step s id (ConfirmBuyer now id caller) (Some e) (Some (with_confirms true (seller_confirmed e) now e))
| es_seller now caller e : unlocked s (esc_seller_pubkey (escrow_row e)) →
    escrow_step s id (ConfirmSeller now id caller) (Some e) (Some (with_confirms (buyer_confirmed e) true now e))
| es_dispute now who reason note e :
    unlocked s (esc_buyer_pubkey (escrow_row e)) ∨ unlocked s (esc_seller_pubkey (escrow_row e)) →
    escrow_step s id (Dispute now id who reason) (Some e) (Some (with_note note now (with_status (lit "disputed") now e)))
| es_release now seller e : buyer_confirmed e = true → seller_confirmed e = true →
    escrow_step s id (Release now id seller) (Some e) (Some (with_status (lit "completed") now e))
| es_resolve now winner status note e :
    unlocked s (esc_buyer_pubkey (escrow_row e)) ∨ unlocked s (esc_seller_pubkey (escrow_row e)) →
    (buyer_confirmed e = true ∧ seller_confirmed e = true ∧ status = lit "completed") ∨
      (esc_status (escrow_row e) = lit "disputed" ∧ status ∈ [lit "completed"; lit "refunded"]) →
    escrow_step s id (Resolve now id winner) (Some e) (Some (with_note note now (with_status status now e))).

Definition escrows_kept (m m' : market) : Prop := mkt_escrows m' = mkt_escrows m.
#[local] Instance escrows_kept_pre : PreOrder escrows_kept.
Proof. unfold escrows_kept. split; [done|]. intros ??? -> ->. done. Qed.

Lemma store_row_keeps p : within escrows_kept (store_row p).
Proof. intros m. unfold store_row. by destruct (post_upsert p (mkt_db m)). Qed.
Lemma require_either_keeps a b : within escrows_kept (require_either a b).
Proof. intros m. unfold require_either. by destruct (_ || _). Qed.

Ltac keeps_escrows :=
  repeat first
    [ apply within_bind; [exact _| |intros]
    | apply within_guard | apply within_found | apply within_reads | apply within_lift | apply within_ret
    | apply store_row_keeps | apply require_either_keeps
    | progress unfold require_identity, signer_pubkey, upsert_post_row, marketplace_get_listing, marketplace_get_order
    | case_match | exact _ | intros ?; reflexivity ].

(** Only the calls on escrows touch them. *)
Lemma other_calls_keep r :
  match r with
  | CreateEscrow _ _ _ _ _ _ | Release _ _ _ | ConfirmBuyer _ _ _ | ConfirmSeller _ _ _ | Dispute _ _ _ _ | Resolve _ _ _ => False
  | _ => True
  end → within escrows_kept (perform r).
Proof.
  destruct r; intros []; cbn [perform].
  - unfold marketplace_create_listing. keeps_escrows.
  - unfold marketplace_update_listing. keeps_escrows.
  - unfold marketplace_delete_listing. keeps_escrows.
  - unfold marketplace_create_order. keeps_escrows.
  - unfold marketplace_review_listing, review_insert. keeps_escrows.
  - unfold marketplace_poll_create, upsert_poll. keeps_escrows.
  - unfold marketplace_poll_vote, vote. keeps_escrows.
  - unfold marketplace_poll_close, set_closed. keeps_escrows.
Qed.

Lemma run_update {B} id f (k : unit → act market B) m :
  (escrow_update id f ≫= k) m =
    match mkt_escrows m !! id with Some e => k () (on_escrows (insert id (f e)) m) | None => (m, err "not found") end.
Proof. unfold mbind, act_bind, escrow_update. by destruct (mkt_escrows m !! id). Qed.

Lemma run_row {B} id (k : EscrowRow → act market B) m :
  (escrow_row_of id ≫= k) m = match mkt_escrows m !! id with Some e => k (escrow_row e) m | None => (m, err "not found") end.
Proof. unfold escrow_row_of, escrow_get. repeat act_run. by destruct (mkt_escrows m !! id). Qed.

Lemma run_confirms {B} id (k : bool * bool → act market B) m :
  (get_confirms id ≫= k) m =
    match mkt_escrows m !! id with Some e => k (buyer_confirmed e, seller_confirmed e) m | None => (m, err "not found") end.
Proof. unfold get_confirms. repeat act_run. by destruct (mkt_escrows m !! id). Qed.

Lemma run_signer {B} (k : str → act market B) m :
  (signer_pubkey ≫= k) m = match mkt_signer m with Some a => k a m | None => (m, err "signer locked") end.
Proof. unfold signer_pubkey. repeat act_run. by destruct (mkt_signer m). Qed.

Lemma run_create {B} e (k : unit → act market B) m :
  (escrow_create e ≫= k) m =
    match mkt_escrows m !! esc_id e with
    | Some _ => (m, err "UNIQUE constraint failed")
    | None => k () (on_escrows (insert (esc_id e) (mk_escrow
          (mk_escrow_row (esc_id e) (esc_listing_id e) (clean (esc_buyer_pubkey e)) (clean (esc_seller_pubkey e))
             (esc_amount_msats e) (esc_currency e) (esc_status e) (esc_note e) (esc_created_at e) (esc_updated_at e))
          false false)) m)
    end.
Proof. unfold mbind, act_bind, escrow_create. by destruct (mkt_escrows m !! esc_id e). Qed.

Lemma run_either {B} a b (k : unit → act market B) m :
  (require_either a b ≫= k) m =
    if is_ok (require_identity a m).2 || is_ok (require_identity b m).2 then k () m
    else (m, err "identity mismatch: caller is not buyer or seller").
Proof. unfold mbind, act_bind, require_either. by destruct (_ || _). Qed.

Lemma stored_row (id : str) e m : mkt_escrows (on_escrows (insert id e) m) !! id = Some e.
Proof. apply lookup_insert_eq. Qed.

Lemma stored_twice (id : str) (e e' : Escrow) m :
  mkt_escrows (on_escrows (insert id e') (on_escrows (insert id e) m)) = <[id := e']> (mkt_escrows m).
Proof. apply insert_insert_eq. Qed.

(** A call that rewrites the row, or none at all. *)
Lemma step_insert (s : option str) (id eid : str) (r : request) (e new : Escrow) (M : gmap str Escrow) :
  M !! eid = Some e → (id = eid → escrow_step s id r (Some e) (Some new)) → escrow_step s id r (M !! id) (<[eid := new]> M !! id).
Proof.
  intros He Hs. destruct (decide (id = eid)) as [->|]; [|rewrite lookup_insert_ne by done; apply es_same].
  rewrite lookup_insert_eq, He. by apply Hs.
Qed.

(** Runs a call on escrows up to its next condition, and takes both sides. *)
Ltac escrow_run :=
  repeat first
    [ progress act_run
    | rewrite require_identity_run | rewrite run_update | rewrite run_row | rewrite run_confirms | rewrite stored_row | rewrite run_signer | rewrite run_create | rewrite run_either
    | progress unfold update_status, set_note, set_buyer_confirmed, set_seller_confirmed
    | match goal with
      | Ho : ?o = Some _ |- context [match ?o with Some _ => _ | None => _ end] => rewrite Ho
      | |- context [match ?o with Some _ => _ | None => _ end] => destruct o eqn:?
      | |- context [if ?b then _ else _] => destruct b eqn:?
      end ];
  cbn [mret act_ret fst]; rewrite ?stored_twice; try apply es_same;
  cbn [on_escrows mkt_escrows]; try (eapply step_insert; [eassumption|intros ->]).

Lemma can_release_both b s d : can_release b s false d = true → b = true ∧ s = true.
Proof. unfold can_release. destruct d, b, s; done. Qed.

Lemma same_unlocked (k a b : str) : eq_ignore_ascii_case k a = true ∨ eq_ignore_ascii_case a k = true → clean k = clean b → unlocked (Some b) a.
Proof. intros Hk Hb. exists b. split; [done|]. rewrite <-Hb. destruct Hk as [Hk|Hk]; apply clean_ignores_case in Hk; congruence. Qed.

Lemma escrow_moves r m id : escrow_step (mkt_signer m) id r (mkt_escrows m !! id) (mkt_escrows (perform r m).1 !! id).
Proof.
  destruct r as [| | | |now eid oid b se amount|now eid se|now eid caller|now eid caller|now eid who reason|now eid winner| | | |];
    try (match goal with |- escrow_step _ _ ?r _ _ => rewrite (other_calls_keep r I m : mkt_escrows _ = _) end; apply es_same);
    cbn [perform].
  - unfold marketplace_create_escrow, marketplace_get_order. escrow_run. cbn [esc_id on_escrows mkt_escrows] in *.
    destruct (decide (id = eid)) as [->|]; [|rewrite lookup_insert_ne by done; apply es_same].
    match goal with Hn : _ !! eid = None |- _ => rewrite lookup_insert_eq, Hn end. by apply es_new.
  - unfold marketplace_release_escrow. escrow_run. by apply es_release; apply can_release_both in Heqb1 as [].
  - unfold marketplace_escrow_confirm_buyer. escrow_run. apply es_buyer.
    apply (same_unlocked caller); [by right|]. by apply ct_eq_iff in Heqb0.
  - unfold marketplace_escrow_confirm_seller. escrow_run. apply es_seller.
    apply (same_unlocked caller); [by right|]. by apply ct_eq_iff in Heqb0.
  - unfold marketplace_dispute_escrow. escrow_run. apply es_dispute. apply ct_eq_iff in Heqb0.
    apply orb_true_iff in Heqb as [Hb|Hb]; [left|right]; apply (same_unlocked who); auto.
  - unfold marketplace_resolve_escrow. escrow_run; (apply es_resolve; [apply orb_true_iff in Heqb as [Hb|Hb]; [left|right]; apply (same_unlocked l); auto|]).
    + right. apply bool_decide_eq_true in Heqb1. rewrite Heqb1. split; [done|left].
    + right. apply bool_decide_eq_true in Heqb1. split; [done|right; left].
    + left. by apply andb_true_iff in Heqb2 as [].
Qed.

(** Who did what to an escrow in a sequence of calls. *)
Definition consented (tr : list (option (list Z) * request)) (id : str) (e : Escrow) : Prop :=
  (∃ s now caller, (s, ConfirmBuyer now id caller) ∈ tr ∧ unlocked s (esc_buyer_pubkey (escrow_row e))) ∧
  (∃ s now caller, (s, ConfirmSeller now id caller) ∈ tr ∧ unlocked s (esc_seller_pubkey (escrow_row e))).

Definition contested (tr : list (option (list Z) * request)) (id : str) (e : Escrow) : Prop :=
  ∃ s now who reason, (s, Dispute now id who reason) ∈ tr ∧
    (unlocked s (esc_buyer_pubkey (escrow_row e)) ∨ unlocked s (esc_seller_pubkey (escrow_row e))).

Definition settled (e : Escrow) : Prop := esc_status (escrow_row e) ∈ [lit "completed"; lit "refunded"].

(** The parties and the sum. *)
Definition deal (e : Escrow) : str * str * str * Z * str * Z :=
  let r := escrow_row e in
  (esc_listing_id r, esc_buyer_pubkey r, esc_seller_pubkey r, esc_amount_msats r, esc_currency r, esc_created_at r).

Record accounted (tr : list (option (list Z) * request)) (id : str) (e : Escrow) : Prop := {
  acc_buyer : buyer_confirmed e = true →
    ∃ s now caller, (s, ConfirmBuyer now id caller) ∈ tr ∧ unlocked s (esc_buyer_pubkey (escrow_row e));
  acc_seller : seller_confirmed e = true →
    ∃ s now caller, (s, ConfirmSeller now id caller) ∈ tr ∧ unlocked s (esc_seller_pubkey (escrow_row e));
  acc_disputed : esc_status (escrow_row e) = lit "disputed" → contested tr id e;
  acc_settled : settled e → (buyer_confirmed e = true ∧ seller_confirmed e = true) ∨ contested tr id e
}.

Lemma run_app tr1 tr2 m : run (tr1 ++ tr2) m = run tr2 (run tr1 m).
Proof. apply fold_left_app. Qed.

Lemma run_last tr s r m : run (tr ++ [(s, r)]) m = (perform r (with_signer s (run tr m))).1.
Proof. by rewrite run_app. Qed.

Lemma open_statuses : lit "created" ∉ [lit "completed"; lit "refunded"] ∧ lit "disputed" ∉ [lit "completed"; lit "refunded"] ∧
  lit "created" ≠ lit "disputed" ∧ lit "completed" ≠ lit "disputed" ∧ lit "refunded" ≠ lit "disputed".
Proof. split_and!; by apply (bool_decide_unpack _); vm_compute. Qed.

Lemma accounted_grow tr x id e : accounted tr id e → accounted (tr ++ [x]) id e.
Proof.
  assert (Hm : ∀ y, y ∈ tr → y ∈ tr ++ [x]) by (intros; apply elem_of_app; auto).
  assert (Hc : contested tr id e → contested (tr ++ [x]) id e).
  { intros (? & ? & ? & ? & Hi & Hu). do 4 eexists. split; [by apply Hm|exact Hu]. }
  intros [Hb Hs Hd Hst]. split.
  - intros (? & ? & ? & Hi & Hu)%Hb. do 3 eexists. split; [by apply Hm|exact Hu].
  - intros (? & ? & ? & Hi & Hu)%Hs. do 3 eexists. split; [by apply Hm|exact Hu].
  - intros Hst'. by apply Hc, Hd.
  - intros [?|?]%Hst; [by left|right; by apply Hc].
Qed.

Lemma accounted_step tr s r id (o : option Escrow) (e : Escrow) :
  (∀ e0, o = Some e0 → accounted tr id e0) → escrow_step s id r o (Some e) → accounted (tr ++ [(s, r)]) id e.
Proof.
  intros IH Hs. assert (Hnew : (s, r) ∈ tr ++ [(s, r)]) by (apply elem_of_app; right; by left).
  assert (IH' : ∀ e0, o = Some e0 → accounted (tr ++ [(s, r)]) id e0) by (intros; by apply accounted_grow, IH).
  remember (tr ++ [(s, r)]) as tr' eqn:Etr. clear IH Etr.
  inversion Hs as [|? ? Hst Hb Hse|now caller e0 Hu|now caller e0 Hu|now who reason note e0 Hu|now se e0 Hb Hse
                  |now winner status note e0 Hu Hc]; subst; try destruct (IH' _ eq_refl) as [Ib Is Id Ist].
  - by split.
  - split; [congruence|congruence|by rewrite Hst; intros ?%open_statuses|]. unfold settled. rewrite Hst. by intros ?%open_statuses.
  - split; cbn; [by intros _; exists s, now, caller|done|done|]. intros [[_ ?]|?]%Ist; auto.
  - split; cbn; [done|by intros _; exists s, now, caller|done|]. intros [[? _]|?]%Ist; auto.
  - split; cbn; [done|done|by intros _; exists s, now, who, reason|]. unfold settled. cbn. by intros ?%open_statuses.
  - split; cbn; [done|done|by intros ?%open_statuses|auto].
  - split; cbn; [done|done| |].
    + destruct Hc as [(_ & _ & ->)|[Hd _]]; [by intros ?%open_statuses|]. by intros _; apply Id.
    + intros _. destruct Hc as [(? & ? & _)|[Hd _]]; [by left|right]. by apply Id.
Qed.

(** The deal of an escrow never changes, and it never disappears. *)
Lemma deal_step s id r e o : escrow_step s id r (Some e) o → ∃ e', o = Some e' ∧ deal e' = deal e.
Proof. inversion 1; subst; eexists; (split; [reflexivity|done]). Qed.

Lemma run_accounted tr m id e : mkt_escrows m = ∅ → mkt_escrows (run tr m) !! id = Some e → accounted tr id e.
Proof.
  intros Hm. revert e. induction tr as [|[s r] tr IH] using rev_ind; intros e.
  - unfold run. simpl. by rewrite Hm.
  - rewrite run_last. intros He. apply (accounted_step _ _ _ _ (mkt_escrows (run tr m) !! id)); [exact IH|].
    rewrite <-He. exact (escrow_moves r (with_signer s (run tr m)) id).
Qed.

(** C28: whatever calls are made, with whichever identities unlocked, an escrow is completed or refunded
    only when the buyer and the seller have each confirmed it under their own identity, or when one of
    them had disputed it. *)
Theorem settled_by_consent_or_dispute (m : market) (tr : list (option (list Z) * request)) (id : str) (e : Escrow) :
  mkt_escrows m = ∅ → mkt_escrows (run tr m) !! id = Some e → settled e → consented tr id e ∨ contested tr id e.
Proof.
  intros Hm He Hs. destruct (run_accounted tr m id e Hm He) as [Hb Hse _ Hst].
  destruct (Hst Hs) as [[??]|?]; [left; split; auto|by right].
Qed.

(** The parties, the listing and the sum of an escrow are fixed when it is made, and it is never removed. *)
Lemma deal_fixed tr m id e : mkt_escrows m !! id = Some e → ∃ e', mkt_escrows (run tr m) !! id = Some e' ∧ deal e' = deal e.
Proof.
  intros He. induction tr as [|[s r] tr (e1 & He1 & Hd)] using rev_ind; [by exists e|].
  rewrite run_last. pose proof (escrow_moves r (with_signer s (run tr m)) id) as Hs. cbn [with_signer mkt_escrows] in Hs.
  rewrite He1 in Hs. apply deal_step in Hs as (e' & ? & ?). exists e'. split; [done|congruence].
Qed.

Lemma eq_ignore_refl a : eq_ignore_ascii_case a a = true.
Proof. by apply eq_ignore_ascii_case_true. Qed.
Lemma ct_eq_refl a : ct_eq a a = true.
Proof. by apply ct_eq_iff. Qed.

(** A dispute raised by a party, and what it finds. *)
Lemma dispute_done m id e who now reason :
  mkt_escrows m !! id = Some e →
  eq_ignore_ascii_case (esc_buyer_pubkey (escrow_row e)) who || eq_ignore_ascii_case (esc_seller_pubkey (escrow_row e)) who = true →
  (perform (Dispute now id who reason) (with_signer (Some who) m)).1 =
    on_escrows (insert id (with_note (truncate reason 512) now (with_status (lit "disputed") now e)))
      (on_escrows (insert id (with_status (lit "disputed") now e)) (with_signer (Some who) m)).
Proof.
  intros He Hp. cbn [perform]. unfold marketplace_dispute_escrow, update_status, set_note. act_run.
  rewrite run_row. cbn [with_signer mkt_escrows]. rewrite He. act_run. rewrite Hp. act_run.
  rewrite require_identity_run. cbn [with_signer mkt_signer]. rewrite ct_eq_refl.
  act_run. rewrite run_update. cbn [with_signer mkt_escrows]. rewrite He. act_run. by rewrite run_update, stored_row.
Qed.

Lemma resolve_done m id e who winner now :
  mkt_escrows m !! id = Some e → esc_status (escrow_row e) = lit "disputed" →
  eq_ignore_ascii_case who (esc_buyer_pubkey (escrow_row e)) || eq_ignore_ascii_case who (esc_seller_pubkey (escrow_row e)) = true →
  eq_ignore_ascii_case winner (esc_buyer_pubkey (escrow_row e)) || eq_ignore_ascii_case winner (esc_seller_pubkey (escrow_row e)) = true →
  mkt_escrows (perform (Resolve now id winner) (with_signer (Some who) m)).1 !! id =
    Some (with_note (lit "resolved by mediator") now (with_status
      (if eq_ignore_ascii_case winner (esc_seller_pubkey (escrow_row e)) then lit "completed" else lit "refunded") now e)).
Proof.
  intros He Hd Hp Hw. cbn [perform]. unfold marketplace_resolve_escrow, update_status, set_note. act_run. rewrite run_signer.
  cbn [with_signer mkt_signer]. act_run. rewrite run_row. cbn [with_signer mkt_escrows]. rewrite He. act_run. rewrite Hp. act_run.
  rewrite Hw. act_run. rewrite bool_decide_eq_true_2 by done. do 2 act_run. rewrite run_update. cbn [with_signer mkt_escrows]. rewrite He.
  act_run. rewrite run_update, stored_row. apply stored_row.
Qed.

(** One party of an escrow disputes it and then resolves it, in whoever's favour it likes: no confirmation
    is looked at, and no mediator either. *)
Lemma settled_alone m id e who winner now reason :
  mkt_escrows m !! id = Some e →
  who = esc_buyer_pubkey (escrow_row e) ∨ who = esc_seller_pubkey (escrow_row e) →
  winner = esc_buyer_pubkey (escrow_row e) ∨ winner = esc_seller_pubkey (escrow_row e) →
  ∃ e', mkt_escrows (run [(Some who, Dispute now id who reason); (Some who, Resolve now id winner)] m) !! id = Some e' ∧
    esc_status (escrow_row e') = (if eq_ignore_ascii_case winner (esc_seller_pubkey (escrow_row e)) then lit "completed" else lit "refunded") ∧
    buyer_confirmed e' = buyer_confirmed e ∧ seller_confirmed e' = seller_confirmed e.
Proof.
  intros He Hwho Hwin. unfold run. cbn [fold_left]. rewrite (dispute_done m id e) by (done || destruct Hwho as [<- | <-]; rewrite eq_ignore_refl, ?orb_true_r; done).
  eexists. split; [apply resolve_done|].
  - apply stored_row.
  - done.
  - destruct Hwho as [-> | ->]; cbn; rewrite eq_ignore_refl, ?orb_true_r; done.
  - destruct Hwin as [-> | ->]; cbn; rewrite eq_ignore_refl, ?orb_true_r; done.
  - done.
Qed.

End market.

(** ** Listings *)

(** Evaluates the comparisons of field and tag names in the goal. *)
Ltac names :=
  repeat match goal with
  | |- context [bool_decide (?a ∈ ?b)] => let v := eval vm_compute in (bool_decide (a ∈ b)) in change (bool_decide (a ∈ b)) with v
  | |- context [bool_decide (?a = ?b)] =>
      let v := eval vm_compute in (bool_decide (a = b)) in first [constr_eq v true|constr_eq v false]; change (bool_decide (a = b)) with v
  end; cbn [andb orb negb].

Section listings.
Context `{PrimitiveLaws, MarketEnv, !JsonLaws}.

Lemma tag_values_app names a b : tag_values names (a ++ b) = tag_values names a ++ tag_values names b.
Proof. apply omap_app. Qed.

Lemma tag_values_cons names n v (l : list (list (list Z))) :
  tag_values names ([n; v] :: l) =
    (if bool_decide (n ∈ names) && (zlen v <=? MAX_TAG_VALUE_LEN)%Z then [v] else []) ++ tag_values names l.
Proof. unfold tag_values. cbn [omap list_omap]. by destruct (_ && _). Qed.

Lemma tag_values_images names (l : list (list Z)) :
  (∀ v, v ∈ l → (zlen v <= MAX_TAG_VALUE_LEN)%Z) →
  tag_values names ((λ v, [lit "image"; v]) <$> l) = if bool_decide (lit "image" ∈ names) then l else [].
Proof.
  induction l as [|v l IH]; intros Hl; [by destruct (bool_decide _)|].
  change ((λ v, [lit "image"; v]) <$> v :: l) with ([lit "image"; v] :: ((λ v, [lit "image"; v]) <$> l)).
  rewrite tag_values_cons, IH by (intros; apply Hl; by right). rewrite (proj2 (Z.leb_le _ _)) by (apply Hl; by left).
  by destruct (bool_decide _).
Qed.

(** The tags that a created listing is read with. *)
Definition created_tags (d_tag title : str) (price : Z) (currency category : str) (shipping : bool) (images : list (list Z)) : list (list (list Z)) :=
  [[lit "d"; d_tag]; [lit "t"; category]; [lit "title"; title]; [lit "price"; f64_print (f64_of_Z price)];
   [lit "currency"; if bool_decide (currency = []) then lit "sats" else currency]] ++
  (if shipping then [[lit "location"; lit "local"]] else []) ++ ((λ v, [lit "image"; v]) <$> images).

Definition created_fields (title : str) (price : Z) (currency condition description : str) (shipping : bool) (images : list (list Z)) : list (list Z * json) :=
  [(lit "title", JStr title); (lit "price", JNum (NFloat (f64_of_Z price)));
    (lit "currency", JStr (if bool_decide (currency = []) then lit "sats" else currency));
    (lit "condition", JStr condition); (lit "description", JStr description);
    (lit "locationGeohash", if shipping then JStr (lit "local") else JNull);
    (lit "images", strs images); (lit "escrowEnabled", JBool true)].

Lemma created_parses title price currency condition description shipping images :
  json_parse (new_listing_content title price currency condition description shipping images) =
    Some (JObj (created_fields title price currency condition description shipping images)).
Proof.
  apply json_roundtrip. cbn [fmap list_fmap fst]. apply (bool_decide_unpack _). by vm_compute.
Qed.

(** What the content says, field by field. *)
Lemma created_field title price currency condition description shipping images :
  let j := JObj (created_fields title price currency condition description shipping images) in
  field j (lit "title") = JStr title ∧ field j (lit "price") = JNum (NFloat (f64_of_Z price)) ∧
  field j (lit "currency") = JStr (if bool_decide (currency = []) then lit "sats" else currency) ∧
  field j (lit "condition") = JStr condition ∧ field j (lit "description") = JStr description ∧
  field j (lit "locationGeohash") = (if shipping then JStr (lit "local") else JNull) ∧
  field j (lit "images") = strs images ∧ field j (lit "escrowEnabled") = JBool true ∧ field j (lit "contactMethods") = JNull.
Proof. split_and!; reflexivity. Qed.

Lemma omap_strs (l : list (list Z)) : omap as_str (JStr <$> l) = l.
Proof. induction l as [|x l IH]; [done|]. cbn. by rewrite <-IH at 2. Qed.

Lemma created_event eid pubkey d_tag title price currency category condition description shipping images now subject :
  listing_event_from_row (mk_post_row eid pubkey (new_listing_content title price currency condition description shipping images)
    KIND_LISTING now (json_tags [[lit "d"; d_tag]; [lit "t"; category]]) None None None [] [] subject (lit "pending") false None None false None) =
  mk_listing_event eid pubkey (new_listing_content title price currency condition description shipping images) (f64_of_Z now)
    (created_tags d_tag title price currency category shipping images).
Proof.
  unfold listing_event_from_row. cbn [pst_id pst_pubkey pst_content pst_created_at pst_tags_json].
  rewrite tags_roundtrip, created_parses. cbn [default].
  destruct (created_field title price currency condition description shipping images) as (-> & -> & -> & _ & _ & -> & -> & _).
  unfold strs. rewrite omap_strs. by destruct shipping.
Qed.

Lemma created_content title price currency condition description shipping images :
  listing_content (new_listing_content title price currency condition description shipping images) =
    Some (mk_listing_content (Some description) (Some condition) None (Some true)).
Proof.
  unfold listing_content. rewrite created_parses. by destruct shipping.
Qed.

Lemma parse_price_exact price : (0 ≤ price ≤ 10 ^ 15)%Z → parse_price (f64_print (f64_of_Z price)) = Some (f64_of_Z price).
Proof.
  intros Hp. assert (0 ≤ price < 2 ^ 53)%Z as Hb by lia. destruct (f64_of_Z_valid price Hb) as [Hf Hv].
  unfold parse_price. rewrite f64_roundtrip by done. cbn [mbind option_bind]. rewrite Hf. unfold MAX_PRICE.
  rewrite (f64_of_Z_le price (10 ^ 15)) by lia. change (S754_zero false) with (f64_of_Z 0). by rewrite (f64_of_Z_le 0 price) by lia.
Qed.

(** What makes a listing one that is shown. *)
Record presentable (title : str) (price : Z) (currency : str) (images : list (list Z)) : Prop := {
  pr_title : (zlen title <= 500)%Z;
  pr_price : (0 < price ≤ 10 ^ 15)%Z;
  pr_currency : currency = [] ∨ valid_currency currency = true;
  pr_images : length images ≤ 12 ∧ Forall (λ v, is_valid_media_url v = true) images
}.

Lemma media_short v : is_valid_media_url v = true → (zlen v <= MAX_TAG_VALUE_LEN)%Z.
Proof.
  unfold is_valid_media_url, MAX_URL_LENGTH, MAX_TAG_VALUE_LEN. destruct (Z.ltb_spec 2048 (zlen v)); [done|lia].
Qed.

Lemma shown_currency_valid currency : currency = [] ∨ valid_currency currency = true →
  valid_currency (if bool_decide (currency = []) then lit "sats" else currency) = true ∧
  (zlen (if bool_decide (currency = []) then lit "sats" else currency) <= MAX_TAG_VALUE_LEN)%Z.
Proof.
  intros Hc. case_bool_decide as Hd; [by subst|]. destruct Hc as [->|Hc]; [done|]. split; [done|].
  unfold valid_currency in Hc. apply andb_true_iff in Hc as [[_ Hl]%andb_true_iff _]. apply Z.leb_le in Hl. unfold MAX_TAG_VALUE_LEN. lia.
Qed.

Lemma created_tag_values d_tag title price currency category shipping images :
  presentable title price currency images →
  let tags := created_tags d_tag title price currency category shipping images in
  tag_values [lit "title"] tags = [title] ∧ tag_values [lit "price"] tags = [f64_print (f64_of_Z price)] ∧
  tag_values [lit "currency"] tags = [if bool_decide (currency = []) then lit "sats" else currency] ∧
  tag_values [lit "location"; lit "g"] tags = (if shipping then [lit "local"] else []) ∧
  tag_values [lit "image"] tags = images ∧ tag_values [lit "video"] tags = [] ∧
  tag_values [lit "t"] tags = (if (zlen category <=? MAX_TAG_VALUE_LEN)%Z then [category] else []).
Proof.
  intros [Ht _ Hc [_ Hi]]. cbv zeta. unfold created_tags.
  assert (Hl : ∀ v, v ∈ images → (zlen v <= MAX_TAG_VALUE_LEN)%Z).
  { intros v Hv. rewrite Forall_forall in Hi. by apply media_short, Hi. }
  assert (Ht' : (zlen title <=? MAX_TAG_VALUE_LEN)%Z = true) by (unfold MAX_TAG_VALUE_LEN; apply Z.leb_le; lia).
  assert (Hp' : (zlen (f64_print (f64_of_Z price)) <=? MAX_TAG_VALUE_LEN)%Z = true).
  { apply Z.leb_le. pose proof (f64_short (f64_of_Z price)). unfold MAX_TAG_VALUE_LEN. lia. }
  pose proof (proj2 (Z.leb_le _ _) (proj2 (shown_currency_valid currency Hc))) as Hc'.
  revert Hc'. generalize (if bool_decide (currency = []) then lit "sats" else currency). intros cur Hc'.
  split_and!; rewrite !tag_values_app, !tag_values_cons, tag_values_images by done; destruct shipping; rewrite ?tag_values_cons; names;
    rewrite ?Ht', ?Hp', ?Hc'; cbn [app tag_values omap list_omap]; rewrite ?app_nil_r; try done.
Qed.

(** The category as it is shown: the trimmed text, when it is no longer than 64 bytes. *)
Definition shown_category (category : str) : str :=
  if (zlen category <=? MAX_TAG_VALUE_LEN)%Z && bool_decide (trim category ≠ [] ∧ (zlen (trim category) <= 64)%Z) then trim category else [].

Lemma f64_max0_of_Z z : (0 ≤ z < 2 ^ 53)%Z → f64_max0 (f64_of_Z z) = f64_of_Z z.
Proof. intros Hz. unfold f64_max0. change (S754_zero false) with (f64_of_Z 0). by rewrite f64_of_Z_le by lia. Qed.

Lemma filter_true {A} (P : A → Prop) `{∀ x, Decision (P x)} l : Forall P l → filter P l = l.
Proof. induction 1; [done|]. rewrite filter_cons_True by done. congruence. Qed.

Lemma created_shown name eid pubkey d_tag title price currency category condition description shipping images now subject :
  presentable title price currency images →
  (zlen (new_listing_content title price currency condition description shipping images) <= 256 * 1024)%Z → (0 ≤ now < 2 ^ 53)%Z →
  listing_from_row name (mk_post_row eid pubkey (new_listing_content title price currency condition description shipping images)
    KIND_LISTING now (json_tags [[lit "d"; d_tag]; [lit "t"; category]]) None None None [] [] subject (lit "pending") false None None false None) =
  Some (mk_listing_info eid pubkey name (truncate_str title 256) description images price
    (if bool_decide (currency = []) then lit "sats" else currency) (shown_category category) (truncate_str condition 64) shipping true
    now now (lit "active")).
Proof.
  intros Hpr Hlen Hnow. unfold listing_from_row. rewrite created_event. unfold parse_listing.
  cbn [lev_id lev_pubkey lev_content lev_created_at lev_tags]. pose proof Hpr as [_ Hp Hc [Hn Hi]].
  assert ((MAX_TAGS_ENTRIES <? zlen (created_tags d_tag title price currency category shipping images))%Z = false) as ->.
  { apply Z.ltb_ge. unfold created_tags, MAX_TAGS_ENTRIES. rewrite !length_app, length_fmap. cbn [length]. destruct shipping; cbn [length]; lia. }
  destruct (created_tag_values d_tag title price currency category shipping images Hpr) as (-> & -> & -> & -> & -> & -> & ->).
  cbn [head mbind option_bind fmap list_fmap filter list_filter take]. rewrite (parse_price_exact price) by lia. cbn [mbind option_bind].
  destruct (shown_currency_valid currency Hc) as [Hcur _]. cbn [default]. set (cur := if bool_decide (currency = []) then _ else currency) in *.
  cbn [from_option id]. rewrite Hcur. cbn [negb].
  rewrite (proj2 (Z.leb_le _ _) Hlen), created_content, filter_true by done.
  destruct (f64_of_Z_valid now Hnow) as [Hfin _]. rewrite Hfin. change (S754_zero false) with (f64_of_Z 0). rewrite (f64_of_Z_le 0 now) by lia.
  cbn [andb mbind option_bind out_id out_pubkey out_title out_price out_currency out_condition out_description out_location_geohash out_images
    out_tags out_created_at out_escrow_enabled lc_description lc_condition lc_escrow_enabled lc_contact_methods fmap option_fmap option_map from_option id].
  rewrite !f64_max0_of_Z, !f64_to_u64_of_Z by lia. rewrite take_ge by lia.
  assert (Hcat : default [] (head (take 64 (filter (λ v : list Z, v ≠ [] ∧ (zlen v <= 64)%Z)
    (trim <$> (if (zlen category <=? MAX_TAG_VALUE_LEN)%Z then [category] else []))))) = shown_category category).
  { unfold shown_category. destruct (zlen category <=? _)%Z; [|done]. cbn [fmap list_fmap filter list_filter andb].
    case_bool_decide; by case_decide. }
  rewrite Hcat. by destruct shipping.
Qed.

(** A new row is found under its identifier. *)
Lemma store_row_new p m m' u :
  store_row p m = (m', Ok u) → posts (mkt_db m) !! clean (pst_id p) = None → posts (mkt_db m') !! clean (pst_id p) = Some (mk_post (normalize_post p) 0).
Proof.
  unfold store_row, post_upsert. destruct (row_too_big _ _); [by intros [=]|]. intros [= <- _] Hf. cbn [on_db mkt_db].
  unfold store_post, on_posts, upsert. cbn [posts pst_id normalize_post].
  replace (posts (ensure_exists _ (mkt_db m))) with (posts (mkt_db m)) by done. rewrite Hf. apply lookup_insert_eq.
Qed.

(** C29: a listing that was created, with a price of at most 10^15, no currency or a valid one and a content of at most
    256 KiB, under an identifier that no stored post has, is fetched by its event identifier with the price, the currency, the images, the description and the shipping
    option that were entered, its title and condition cut to what is shown, and its creator as seller. *)
Theorem listing_shown_as_created now d_tag seller title description price currency category condition images_json shipping images key event_id signed m m' :
  mkt_signer m = Some key → parse_strings images_json = Some images →
  sign_builder key KIND_LISTING [[lit "d"; d_tag]; [lit "t"; category]]
    (new_listing_content title price currency condition description shipping images) = Ok (event_id, signed) →
  clean event_id = event_id → posts (mkt_db m) !! event_id = None →
  (0 ≤ price ≤ 10 ^ 15)%Z → currency = [] ∨ valid_currency currency = true → (0 ≤ now < 2 ^ 53)%Z →
  (zlen (new_listing_content title price currency condition description shipping images) <= 256 * 1024)%Z →
  marketplace_create_listing now d_tag seller title description price currency category condition images_json shipping m = (m', Ok signed) →
  ∃ name, get_listing event_id m' = Some (mk_listing_info event_id (clean seller) name (truncate_str title 256) description images price
    (if bool_decide (currency = []) then lit "sats" else currency) (shown_category category) (truncate_str condition 64) shipping true
    now now (lit "active")).
Proof.
  intros Hsig Himg Hsign Hid Hfresh Hprice Hcur Hnow Hlen Hrun. unfold marketplace_create_listing in Hrun.
  unfold require_identity, signer_pubkey in Hrun. inv_act. simplify_eq.
  match goal with Hu : (let '(_, _) := ?x in _) _ = _, Hs : sign_builder _ _ _ _ = Ok ?x |- _ =>
    rewrite Hsign in Hs; injection Hs as <-; unfold upsert_post_row in Hu end.
  inv_act. match goal with Hs : store_row _ _ = _ |- _ => apply store_row_new in Hs; cbn [pst_id] in *; [|by rewrite Hid] end.
  rewrite Hid in *. repeat match goal with Hr : mret _ _ = _ |- _ => injection Hr as <- end. unfold get_listing, row_of_kind.
  match goal with Hs : posts _ !! event_id = _ |- _ => rewrite Hs end. unfold normalize_post.
  cbn [mbind option_bind post_row pst_kind pst_id pst_pubkey pst_content pst_created_at pst_tags_json pst_sig pst_reply_to pst_root_id fmap option_fmap
    option_map pst_mentioned_pubkeys pst_mentioned_hashtags pst_subject pst_sync_status pst_is_deleted pst_scheduled_at pst_freenet_key pst_is_freenet_native pst_rsvp_event_id].
  rewrite Hid, clean_idemp, Z.eqb_refl. eexists. apply created_shown; [|done|done].
  repeat match goal with Hb : _ && _ = true |- _ => apply andb_true_iff in Hb as [??] end.
  repeat match goal with Hb : (_ <=? _)%Z = true |- _ => apply Z.leb_le in Hb end.
  match goal with Hf : forallb _ images = true |- _ => rewrite forallb_forall in Hf; rename Hf into Hmedia end.
  split; [done| |done|split; [lia|]].
  - match goal with Hz : negb (price =? 0)%Z = true |- _ => apply negb_true_iff, Z.eqb_neq in Hz end. lia.
  - apply Forall_forall. intros v Hv. by apply list_elem_of_In, Hmedia, andb_true_iff in Hv as [_ ?].
Qed.

(** The title and the price that are shown come from the tags alone. *)
Lemma parsed_from_tags ev out :
  parse_listing ev = Some out →
  out_title out = truncate_str (default (lit "Untitled") (head (tag_values [lit "title"] (lev_tags ev)))) 256 ∧
  head (tag_values [lit "price"] (lev_tags ev)) ≫= parse_price = Some (out_price out).
Proof.
  unfold parse_listing. destruct (MAX_TAGS_ENTRIES <? _)%Z; [done|].
  destruct (head (tag_values [lit "price"] _)) as [ps|]; [|done]. cbn [mbind option_bind].
  destruct (parse_price ps) as [price|]; [|done]. cbn [mbind option_bind].
  destruct (negb (valid_currency _)); [done|]. by intros [= <-].
Qed.

Lemma add_tag_other names n o b tags : bool_decide (n ∈ names) = false → tag_values names (add_tag n o b tags) = tag_values names tags.
Proof.
  intros Hn. unfold add_tag. destruct o as [v|]; [destruct b|]; [|done..].
  rewrite tag_values_app, tag_values_cons, Hn. apply app_nil_r.
Qed.

Lemma add_tag_present n o tags : has_tag tags n = true → add_tag n o (negb (has_tag tags n)) tags = tags.
Proof. intros ->. by destruct o. Qed.

Lemma tag_values_no_images names (l : list (list Z)) :
  bool_decide (lit "image" ∈ names) = false → tag_values names ((λ v, [lit "image"; v]) <$> l) = [].
Proof.
  intros Hn. induction l as [|v l IH]; [done|].
  change ((λ v, [lit "image"; v]) <$> v :: l) with ([lit "image"; v] :: ((λ v, [lit "image"; v]) <$> l)).
  by rewrite tag_values_cons, Hn, IH.
Qed.

(** What the content says of a title and a price counts only where the tags say nothing. *)
Lemma tags_win n p tags :
  n = lit "title" ∨ n = lit "price" → default [] (parse_tags (pst_tags_json p)) = tags →
  has_tag tags (lit "title") = true → has_tag tags (lit "price") = true →
  tag_values [n] (lev_tags (listing_event_from_row p)) = tag_values [n] tags.
Proof.
  intros Hn Htags Ht Hp. unfold listing_event_from_row. cbn [lev_tags]. rewrite Htags.
  destruct (json_parse (pst_content p)) as [v|]; [|done].
  rewrite (add_tag_present _ _ tags Ht), (add_tag_present _ _ tags Hp).
  destruct (field v (lit "images")); rewrite ?tag_values_app, ?tag_values_no_images, ?app_nil_r;
    rewrite ?add_tag_other; try done; by destruct Hn as [->| ->].
Qed.

Definition tags_of (p : PostRow) : list (list (list Z)) := default [] (parse_tags (pst_tags_json p)).

Lemma shown_of_tags name p l :
  has_tag (tags_of p) (lit "title") = true → has_tag (tags_of p) (lit "price") = true → listing_from_row name p = Some l →
  inf_title l = truncate_str (default (lit "Untitled") (head (tag_values [lit "title"] (tags_of p)))) 256 ∧
  Some (inf_price l) = (λ x, f64_to_u64 (f64_max0 x)) <$> (head (tag_values [lit "price"] (tags_of p)) ≫= parse_price).
Proof.
  intros Ht Hp. unfold listing_from_row. destruct (parse_listing _) as [out|] eqn:E; [|done]. intros [= <-].
  apply parsed_from_tags in E as [E1 E2]. rewrite (tags_win _ p (tags_of p)) in E1 by auto. rewrite (tags_win _ p (tags_of p)) in E2 by auto.
  cbn [inf_title inf_price]. rewrite E1, E2. done.
Qed.

(** An old row that is written again keeps its own tags or gets the new ones. *)
Lemma store_row_old q p m m' u :
  store_row q m = (m', Ok u) → posts (mkt_db m) !! clean (pst_id q) = Some p →
  ∃ p', posts (mkt_db m') !! clean (pst_id q) = Some p' ∧
    (pst_tags_json (post_row p') = pst_tags_json (post_row p) ∨ pst_tags_json (post_row p') = pst_tags_json q).
Proof.
  unfold store_row, post_upsert. destruct (row_too_big _ _); [by intros [=]|]. intros [= <- _] Hf. cbn [on_db mkt_db].
  unfold store_post, on_posts, upsert. cbn [posts pst_id normalize_post].
  replace (posts (ensure_exists _ (mkt_db m))) with (posts (mkt_db m)) by done. rewrite Hf, lookup_insert_eq. eexists. split; [done|].
  unfold merge_post. destruct (pst_is_deleted (post_row p)); auto.
Qed.

(** A listing whose row has the tags "title" and "price" is shown with them, whatever its seller enters as the new
    title and price. *)
Lemma edit_hidden_by_tags now listing_id seller title description price m m' p l l' :
  clean listing_id = listing_id → posts (mkt_db m) !! listing_id = Some p → pst_tags_json (post_row p) ≠ [] →
  has_tag (tags_of (post_row p)) (lit "title") = true → has_tag (tags_of (post_row p)) (lit "price") = true →
  get_listing listing_id m = Some l →
  marketplace_update_listing now listing_id seller title description price m = (m', Ok true) →
  get_listing listing_id m' = Some l' → inf_title l' = inf_title l ∧ inf_price l' = inf_price l.
Proof.
  intros Hid Hp Hne Ht Hpr Hl Hrun Hl'. unfold marketplace_update_listing, marketplace_get_listing in Hrun.
  unfold require_identity, signer_pubkey in Hrun. inv_act.
  match goal with Hu : _ = (m', Ok true) |- _ =>
    rewrite Hid, Hp in Hu; change (post_row <$> Some p) with (Some (post_row p)) in Hu; cbv beta iota in Hu; rewrite bool_decide_eq_false_2 in Hu by done end.
  inv_act. match goal with Hs : store_row _ _ = _ |- _ => apply (store_row_old _ p) in Hs; cbn [pst_id pst_tags_json] in *; [|by rewrite Hid] end.
  repeat match goal with Hr : mret _ _ = _ |- _ => injection Hr as <- end. rewrite Hid in *.
  match goal with Hs : ∃ _, _ |- _ => destruct Hs as (p' & Hp' & Htags) end.
  assert (Hsame : tags_of (post_row p') = tags_of (post_row p)) by (unfold tags_of; by destruct Htags as [-> | ->]).
  unfold get_listing, row_of_kind in Hl, Hl'. rewrite Hp in Hl. rewrite Hp' in Hl'. cbn [mbind option_bind] in Hl, Hl'.
  destruct (_ =? _)%Z in Hl; [|done]. destruct (_ =? _)%Z in Hl'; [|done]. cbn [mbind option_bind] in Hl, Hl'.
  apply shown_of_tags in Hl as [-> Hl], Hl' as [-> Hl']; try (by rewrite ?Hsame). rewrite Hsame in *. split; [done|congruence].
Qed.
End listings.

(** ** Polls *)

Section polls.
Context `{PrimitiveLaws, MarketEnv} (pid : str).

(** The poll and the votes for it. *)
Record same_poll (m m' : market) : Prop := {
  sp_poll : mkt_polls m' !! pid = mkt_polls m !! pid;
  sp_votes voter : mkt_votes m' !! (pid, voter) = mkt_votes m !! (pid, voter)
}.
#[local] Instance same_poll_pre : PreOrder same_poll.
Proof. split; [done|]. intros ??? [] []. split; [congruence|]. intros. congruence. Qed.

Lemma store_row_poll p : within same_poll (store_row p).
Proof. intros m. unfold store_row. by destruct (post_upsert p (mkt_db m)). Qed.
Lemma require_either_poll a b : within same_poll (require_either a b).
Proof. intros m. unfold require_either. by destruct (_ || _). Qed.
Lemma escrow_create_poll e : within same_poll (escrow_create e).
Proof. intros m. unfold escrow_create. by case_bool_decide. Qed.
Lemma escrow_update_poll id f : within same_poll (escrow_update id f).
Proof. intros m. unfold escrow_update. by destruct (mkt_escrows m !! id). Qed.

Ltac keeps_poll :=
  repeat first
    [ apply within_bind; [exact _| |intros]
    | apply within_guard | apply within_found | apply within_reads | apply within_lift | apply within_ret
    | apply store_row_poll | apply require_either_poll | apply escrow_create_poll | apply escrow_update_poll
    | progress unfold require_identity, signer_pubkey, upsert_post_row, marketplace_get_listing, marketplace_get_order, escrow_row_of,
        get_confirms, update_status, set_note, set_buyer_confirmed, set_seller_confirmed
    | case_match | exact _ | intros ?; by split ].

Lemma other_calls_keep_poll r :
  match r with PollCreate _ _ _ _ _ _ | PollVote _ _ _ _ _ | PollClose _ _ => False | _ => True end → within same_poll (perform r).
Proof.
  destruct r; intros []; cbn [perform];
    [unfold marketplace_create_listing|unfold marketplace_update_listing|unfold marketplace_delete_listing|unfold marketplace_create_order
    |unfold marketplace_create_escrow|unfold marketplace_release_escrow|unfold marketplace_escrow_confirm_buyer
    |unfold marketplace_escrow_confirm_seller|unfold marketplace_dispute_escrow|unfold marketplace_resolve_escrow
    |unfold marketplace_review_listing, review_insert]; keeps_poll.
Qed.

Definition closed_poll (m : market) : Prop := ∃ p, mkt_polls m !! pid = Some p ∧ pol_closed p = true.

(** Nothing changes once the poll is closed. *)
Definition frozen (m m' : market) : Prop := closed_poll m → same_poll m m'.
#[local] Instance frozen_pre : PreOrder frozen.
Proof.
  split; [by intros ??|]. intros m1 m2 m3 H12 H23 Hc. pose proof (H12 Hc) as H12'. etrans; [exact H12'|]. apply H23.
  destruct Hc as (p & Hp & Hc). exists p. by rewrite (sp_poll _ _ H12').
Qed.

Lemma within_frozen {A} (c : act market A) : within same_poll c → within frozen c.
Proof. intros Hw m _. apply Hw. Qed.

Lemma frozen_upsert p : pol_id p ≠ pid → within frozen (upsert_poll p).
Proof. intros Hp. apply within_frozen. intros m. split; [by apply lookup_insert_ne|done]. Qed.
Lemma same_vote v m : vot_poll_id v ≠ pid → same_poll m (vote v m).1.
Proof. intros Hp. split; [done|]. intros voter. apply lookup_insert_ne. congruence. Qed.
Lemma frozen_vote poll v : vot_poll_id v = poll →
  within frozen (p ← reads (get_poll poll); p ← found p "poll not found"; _ ← guard_else (negb (pol_closed p)) "poll is closed"; _ ← vote v; mret true).
Proof.
  intros Hv. apply within_read_bind. intros m (p & Hp & Hc). rewrite run_found.
  destruct (get_poll poll m) as [p'|] eqn:Hg; [|done]. rewrite run_guard. destruct (pol_closed p') eqn:Hc'; [done|]. cbn [negb].
  apply (same_vote v m). intros Hpid. unfold get_poll in Hg. congruence.
Qed.
Lemma frozen_close id : within frozen (set_closed id true).
Proof.
  intros m (p & Hp & Hc). split; [|done]. cbn. destruct (decide (id = pid)) as [->|]; [|by apply lookup_alter_ne].
  rewrite lookup_alter_eq, Hp. cbn. by destruct p; simpl in Hc; subst.
Qed.

(** Polls are created under fresh identifiers. *)
Definition fresh_poll (r : request) : Prop := match r with PollCreate _ id _ _ _ _ => id ≠ pid | _ => True end.

Lemma frozen_step r : fresh_poll r → within frozen (perform r).
Proof.
  intros Hr. destruct r as [| | | | | | | | | | |now id user question options hours|now id poll voter opt|poll user];
    try (match goal with |- within _ (perform ?r) => exact (within_frozen _ (other_calls_keep_poll r I)) end); cbn [perform].
  - unfold marketplace_poll_create. keeps_poll. by apply frozen_upsert.
  - unfold marketplace_poll_vote. apply within_bind; [exact _| |intros; apply within_ret; exact _].
    do 2 (apply within_bind; [exact _|keeps_poll|intros _]). by apply frozen_vote.
  - unfold marketplace_poll_close. keeps_poll. apply frozen_close.
Qed.

(** Once a poll is closed, no call reopens it, changes it, or adds or changes a vote for it; so its counts are final. *)
Theorem closed_poll_final (m : market) (tr : list (option (list Z) * request)) :
  closed_poll m → Forall (λ sr, fresh_poll sr.2) tr →
  same_poll m (run tr m) ∧ ∀ option_id, option_count pid option_id (run tr m) = option_count pid option_id m.
Proof.
  intros Hc Ht. assert (Hs : frozen m (run tr m)).
  { induction tr as [|[s r] tr IH] using rev_ind; [by intros _|]. apply Forall_app in Ht as [Ht [Hr _]%Forall_cons].
    etrans; [by apply IH|]. rewrite run_last. etrans; [|by apply frozen_step]. by intros _. }
  specialize (Hs Hc). split; [done|]. intros o. unfold option_count. do 2 f_equal. apply map_eq. intros [q voter].
  destruct (decide (q = pid)) as [->|Hq].
  - rewrite !map_lookup_filter. by rewrite (sp_votes _ _ Hs voter).
  - transitivity (None : option PollVoteRow); [|symmetry]; apply map_lookup_filter_None; right; intros v _ [E _]; by apply Hq.
Qed.
End polls.

(** ** Examples *)

Module MarketExamples.
Import Toy ToyJsonText.

#[local] Instance toy_market : MarketEnv := {|
  market_json := toy_json;
  market_urls := {| url_parse s := Some (mk_url (lit "https") [] None (Some (lit "a.example"))) |};
  sign_builder key kind tags content := Ok (lit "e1", lit "signed");
  posts_order := _; escrows_order := _; reviews_order := _
|}.

Definition fair : market := mk_market db_empty ∅ ∅ ∅ ∅ None.
Definition pictures : str := json_strings [lit "https://a.example/lamp.png"].
Definition sell : request :=
  CreateListing 1 (lit "d1") (lit "sue") (lit "Lamp") (lit "An old lamp") 100 [] (lit "home") (lit "used") pictures true.
Definition by_sue (r : request) : option (list Z) * request := (Some (lit "sue"), r).
Definition by_bob (r : request) : option (list Z) * request := (Some (lit "bob"), r).

(** Sue sells a lamp to Bob, and both confirm. *)
Definition sale : list (option (list Z) * request) :=
  [by_sue sell; by_bob (CreateOrder 2 (lit "o1") (lit "e1") (lit "bob") (lit "sue"));
   by_bob (CreateEscrow 3 (lit "x1") (lit "o1") (lit "bob") (lit "sue") 100);
   by_sue (ConfirmSeller 4 (lit "x1") (lit "sue")); by_bob (ConfirmBuyer 5 (lit "x1") (lit "bob"));
   by_sue (Release 6 (lit "x1") (lit "sue"))].

Lemma settled_by_consent_or_dispute_witness :
  ∃ e, mkt_escrows (run sale fair) !! lit "x1" = Some e ∧ esc_amount_msats (escrow_row e) = 100%Z ∧
    (consented sale (lit "x1") e ∨ contested sale (lit "x1") e).
Proof.
  destruct (mkt_escrows (run sale fair) !! lit "x1") as [e|] eqn:He; [|vm_compute in He; discriminate He].
  assert (Hf : (λ e, (esc_status (escrow_row e), esc_amount_msats (escrow_row e))) <$> mkt_escrows (run sale fair) !! lit "x1" =
    Some (lit "completed", 100%Z)) by (by vm_compute).
  rewrite He in Hf. injection Hf as Hst Ham. exists e. split; [done|]. split; [done|].
  apply (settled_by_consent_or_dispute fair sale (lit "x1") e); [done|done|]. unfold settled. rewrite Hst. left.
Defined.

Lemma listing_shown_as_created_witness :
  let m := with_signer (Some (lit "sue")) fair in
  let m' := (perform sell m).1 in
  (∃ name, get_listing (lit "e1") m' = Some (mk_listing_info (lit "e1") (lit "sue") name (lit "Lamp") (lit "An old lamp")
    [lit "https://a.example/lamp.png"] 100 (lit "sats") (lit "home") (lit "used") true true 1 1 (lit "active"))) ∧
  size (posts (mkt_db m')) = 1.
Proof.
  cbv zeta. split; [|by vm_compute].
  apply (listing_shown_as_created 1 (lit "d1") (lit "sue") (lit "Lamp") (lit "An old lamp") 100 [] (lit "home") (lit "used") pictures true
    [lit "https://a.example/lamp.png"] (lit "sue") (lit "e1") (lit "signed") (with_signer (Some (lit "sue")) fair));
    first [by vm_compute|by left|lia|idtac].
Defined.

(** A poll that its owner closed after one vote. *)
Definition asked : market :=
  run [by_sue (PollCreate 1 (lit "p1") (lit "sue") (lit "Tea?") (json_strings [lit "yes"; lit "no"]) 24);
       by_bob (PollVote 2 (lit "v1") (lit "p1") (lit "bob") 0); by_sue (PollClose (lit "p1") (lit "sue"))] fair.
Definition late : list (option (list Z) * request) :=
  [by_bob (PollVote 3 (lit "v2") (lit "p1") (lit "bob") 1); by_sue (PollVote 4 (lit "v3") (lit "p1") (lit "sue") 1)].

Lemma closed_poll_final_witness :
  option_count (lit "p1") 0 (run late asked) = option_count (lit "p1") 0 asked ∧ option_count (lit "p1") 0 asked = 1%Z.
Proof.
  split; [|by vm_compute]. apply (closed_poll_final (lit "p1") asked late).
  - destruct (mkt_polls asked !! lit "p1") as [p|] eqn:Hp; [|vm_compute in Hp; discriminate Hp].
    exists p. split; [done|]. assert (Hc : pol_closed <$> mkt_polls asked !! lit "p1" = Some true) by (by vm_compute).
    rewrite Hp in Hc. by injection Hc.
  - by repeat constructor.
Defined.
End MarketExamples.
