(* ===== verification/ConnPool.v ===== *)
(** The connection pool of src/db-core/src/lib.rs: threads that check a
    connection out, open one while there are fewer than the maximum, or wait
    on the condition variable, and give it back. A thread may ask for another
    connection while it holds some, as some calls of the bridge do; then the
    pool can deadlock. Each critical section of the
    state mutex is one step; the notification after a give-back comes after
    the unlock and is a step of its own. Connections are numbered. Poisoned
    locks are left out: no critical section can panic. *)

From S2P Require Import Prelude RustStr.

(** Source: src/db-core/src/lib.rs:31-36 (max_connections) *)
Definition max_connections (parallelism : option nat) : nat := Nat.max 4 (Nat.min 16 (default 4 parallelism)).

(** Where a thread stands in [conn] or in the drop of a guard. *)
Inductive phase := Outside | Entering | Waiting | Opening | Notifying.

#[export] Instance phase_eq_dec : EqDecision phase.
Proof. solve_decision. Defined.

(** A thread, with the connections it holds: it may call [conn] again while it
    holds some. *)
Record thread := mk_thread { ph : phase; guards : list nat }.

#[export] Instance thread_eq_dec : EqDecision thread.
Proof. solve_decision. Defined.

(** Source: src/db-core/src/lib.rs:79-82 (PoolState) *)
Record PoolState := mk_pool {
  conns : list nat;
  in_use : nat;
  opened : nat;
  threads : list thread
}.

Definition set_thread (i : nat) (t : thread) (s : PoolState) : PoolState :=
  mk_pool (conns s) (in_use s) (opened s) (<[i := t]> (threads s)).

(** [notify_one]: one of the waiting threads goes on, if there is any. *)
Inductive woken (ts : list thread) : list thread → Prop :=
| woken_one j g : ts !! j = Some (mk_thread Waiting g) → woken ts (<[j := mk_thread Entering g]> ts)
| woken_none : (∀ g, mk_thread Waiting g ∉ ts) → woken ts ts.

Section pool.
Context (max : nat).

(** One turn of the loop: what a thread that holds [g] is after it.
    Source: src/db-core/src/lib.rs:236-267 (conn, loop) *)
Definition conn_turn (i : nat) (g : list nat) (s : PoolState) : PoolState :=
  match conns s with
  | c :: rest => mk_pool rest (S (in_use s)) (opened s) (<[i := mk_thread Outside (c :: g)]> (threads s))
  | [] =>
      if in_use s <? max then mk_pool [] (S (in_use s)) (opened s) (<[i := mk_thread Opening g]> (threads s))
      else set_thread i (mk_thread Waiting g) s
  end.

(** Source: src/db-core/src/lib.rs:245-260 (conn, open_extra) *)
Definition open_done (ok : bool) (i : nat) (g : list nat) (s : PoolState) : PoolState :=
  if ok then mk_pool (conns s) (in_use s) (S (opened s)) (<[i := mk_thread Outside (opened s :: g)]> (threads s))
  else mk_pool (conns s) (in_use s - 1) (opened s) (<[i := mk_thread Outside g]> (threads s)).

(** Of the guards [g1 ++ c :: g2] the one on [c].
    Source: src/db-core/src/lib.rs:301-311 (drop) *)
Definition guard_drop (i : nat) (g1 : list nat) (c : nat) (g2 : list nat) (s : PoolState) : PoolState :=
  mk_pool (c :: conns s) (in_use s - 1) (opened s) (<[i := mk_thread Notifying (g1 ++ g2)]> (threads s)).

Definition with_threads (s : PoolState) (ts : list thread) : PoolState := mk_pool (conns s) (in_use s) (opened s) ts.

(** The steps by which calls and drops that have begun, and the use of the
    guards, come to their end. *)
Inductive goes_on : PoolState → PoolState → Prop :=
| Turn s i g : threads s !! i = Some (mk_thread Entering g) → goes_on s (conn_turn i g s)
| Opens s i g : threads s !! i = Some (mk_thread Opening g) → goes_on s (open_done true i g s)
| OpenFails s i g ts : threads s !! i = Some (mk_thread Opening g) →
    woken (threads (open_done false i g s)) ts → goes_on s (with_threads (open_done false i g s) ts)
| Drops s i g1 c g2 : threads s !! i = Some (mk_thread Outside (g1 ++ c :: g2)) → goes_on s (guard_drop i g1 c g2 s)
| Notifies s i g ts : threads s !! i = Some (mk_thread Notifying g) →
    woken (<[i := mk_thread Outside g]> (threads s)) ts → goes_on s (with_threads s ts).

(** The condition variable may also wake a thread for no reason. *)
Inductive calm : PoolState → PoolState → Prop :=
| Goes s s' : goes_on s s' → calm s s'
| Spurious s i g : threads s !! i = Some (mk_thread Waiting g) → calm s (set_thread i (mk_thread Entering g) s).

(** Source: src/db-core/src/lib.rs:230-268 (conn) *)
Inductive pool_step : PoolState → PoolState → Prop :=
| Continues s s' : calm s s' → pool_step s s'
| Calls s i g : threads s !! i = Some (mk_thread Outside g) → pool_step s (set_thread i (mk_thread Entering g) s).

(** Source: src/db-core/src/lib.rs:111-122 (open, pool) *)
Definition pool_start (n : nat) : PoolState := mk_pool [0] 0 1 (replicate n (mk_thread Outside [])).

(** ** Counting threads *)

Lemma sum_threads (w : thread → nat) ts i x y :
  ts !! i = Some x → sum_list_with w (<[i := y]> ts) + w x = sum_list_with w ts + w y.
Proof.
  revert i. induction ts as [|z ts IH]; intros [|i] Hx; simpl in *; try done.
  - injection Hx as ->. lia.
  - specialize (IH i Hx). lia.
Qed.

Definition at_phase (P p : phase) : nat :=
  match P, p with
  | Outside, Outside | Entering, Entering | Waiting, Waiting | Opening, Opening | Notifying, Notifying => 1
  | _, _ => 0
  end.
Definition count (P : phase) (ts : list thread) : nat := sum_list_with (λ t, at_phase P (ph t)) ts.

(** The slots of the pool that a thread has. *)
Definition seats (t : thread) : nat := length (guards t) + at_phase Opening (ph t).
Definition seated (ts : list thread) : nat := sum_list_with seats ts.
Definition held (ts : list thread) : list nat := ts ≫= guards.

(** The connections a thread holds while it asks for another. *)
Definition nested1 (t : thread) : nat := match ph t with Entering | Waiting | Opening => length (guards t) | _ => 0 end.
Definition nested (ts : list thread) : nat := sum_list_with nested1 ts.

#[local] Arguments at_phase !_ !_ /.
#[local] Arguments seats !_ /.
#[local] Arguments nested1 !_ /.

Lemma held_insert ts i x y : ts !! i = Some x → guards x ++ held (<[i := y]> ts) ≡ₚ guards y ++ held ts.
Proof.
  revert i. induction ts as [|z ts IH]; intros [|i] Hx; simpl in *; try done.
  - injection Hx as ->. cbn. rewrite !app_assoc. apply Permutation_app_tail, Permutation_app_comm.
  - unfold held in *. cbn. rewrite (Permutation_app_swap_app (guards x)), IH by done. apply Permutation_app_swap_app.
Qed.

Lemma sum_pos (w : thread → nat) ts : 0 < sum_list_with w ts ↔ ∃ i t, ts !! i = Some t ∧ 0 < w t.
Proof.
  induction ts as [|z ts IH]; simpl.
  - split; [lia|by intros (? & ? & [=] & ?)].
  - split.
    + destruct (decide (0 < w z)) as [E|E]; [by exists 0, z|]. intros Hs. destruct IH as [(i & t & ? & ?) _]; [lia|]. by exists (S i), t.
    + intros ([|i] & t & Hi & HP); simpl in Hi; [injection Hi as ->; lia|].
      assert (0 < sum_list_with w ts) by (apply IH; eauto). lia.
Qed.

Lemma count_pos P ts : 0 < count P ts ↔ ∃ i g, ts !! i = Some (mk_thread P g).
Proof.
  unfold count. rewrite sum_pos. split.
  - intros (i & [p g] & Hi & Hw). exists i, g. rewrite Hi. cbn in Hw. destruct P, p; cbn in Hw; done || lia.
  - intros (i & g & Hi). exists i, (mk_thread P g). split; [done|]. destruct P; cbn; lia.
Qed.

Lemma count_zero P ts i t : count P ts = 0 → ts !! i = Some t → ph t ≠ P.
Proof. intros Hc Hi Hp. assert (0 < count P ts); [|lia]. apply count_pos. exists i, (guards t). rewrite Hi, <-Hp. by destruct t. Qed.

(** ** The invariant *)

Record pool_inv (s : PoolState) : Prop := {
  pi_bound : length (conns s) + in_use s ≤ max;
  pi_seats : in_use s = seated (threads s);
  pi_distinct : NoDup (conns s ++ held (threads s));
  pi_known : Forall (λ c, c < opened s) (conns s ++ held (threads s));
  (** every free slot has a thread on its way to it, while any waits *)
  pi_wakeups : 0 < count Waiting (threads s) →
    max - in_use s ≤ count Entering (threads s) + count Notifying (threads s)
}.

(** Waking does not touch who is seated. *)
Lemma woken_counts ts ts' : woken ts ts' →
  seated ts' = seated ts ∧ held ts' ≡ₚ held ts ∧ nested ts' = nested ts ∧ count Notifying ts' = count Notifying ts ∧
  ((0 < count Waiting ts ∧ count Entering ts' = S (count Entering ts) ∧ S (count Waiting ts') = count Waiting ts) ∨
   (count Waiting ts = 0 ∧ ts' = ts)).
Proof.
  intros [j g Hj|Hn].
  - pose proof (sum_threads seats ts j _ (mk_thread Entering g) Hj). pose proof (sum_threads nested1 ts j _ (mk_thread Entering g) Hj).
    pose proof (λ P, sum_threads (λ t, at_phase P (ph t)) ts j _ (mk_thread Entering g) Hj) as Hc.
    pose proof (Hc Notifying). pose proof (Hc Waiting). pose proof (Hc Entering). clear Hc.
    pose proof (held_insert ts j _ (mk_thread Entering g) Hj) as Hh. unfold seated, nested, count in *. simpl in *.
    split_and!; [lia|by apply Permutation_app_inv_l in Hh|lia|lia|]. left. split; [|lia]. lia.
  - split_and!; try done. right. split; [|done]. destruct (decide (0 < count Waiting ts)) as [Hc|]; [|lia].
    apply count_pos in Hc as (i & g & Hi). destruct (Hn g). by eapply list_elem_of_lookup_2.
Qed.

Lemma sum_outside (w : thread → nat) n : w (mk_thread Outside []) = 0 → sum_list_with w (replicate n (mk_thread Outside [])) = 0.
Proof. intros Hw. induction n as [|n IH]; [done|]. simpl. by rewrite Hw, IH. Qed.

Lemma inv_start n : 1 ≤ max → pool_inv (pool_start n).
Proof.
  intros Hm. assert (Hh : held (replicate n (mk_thread Outside [])) = []) by (unfold held; induction n as [|n IH]; [done|]; exact IH).
  split; simpl; rewrite ?Hh; unfold seated, count; rewrite ?sum_outside by done; try lia; repeat constructor; set_solver.
Qed.

(** What the step of one thread does to the counts. *)
Ltac counts i x y :=
  match goal with Hi : threads ?s !! i = Some x |- _ =>
    pose proof (sum_threads seats (threads s) i x y Hi); pose proof (sum_threads nested1 (threads s) i x y Hi);
    pose proof (sum_threads (λ t, at_phase Notifying (ph t)) (threads s) i x y Hi);
    pose proof (sum_threads (λ t, at_phase Waiting (ph t)) (threads s) i x y Hi);
    pose proof (sum_threads (λ t, at_phase Entering (ph t)) (threads s) i x y Hi);
    pose proof (held_insert (threads s) i x y Hi) as Hheld end;
  unfold seated, nested, count in *; simpl in *.
Ltac same_held := match goal with H : ?g ++ ?a ≡ₚ ?g ++ ?b |- _ => apply Permutation_app_inv_l in H end.

Lemma inv_goes s s' : pool_inv s → goes_on s s' → pool_inv s'.
Proof.
  intros [Hb Hs Hd Hk Hw] Hstep. destruct Hstep as [s i g Hi|s i g Hi|s i g ts Hi Hwk|s i g1 c g2 Hi|s i g ts Hi Hwk].
  - unfold conn_turn. destruct (conns s) as [|c rest] eqn:Hc.
    + destruct (Nat.ltb_spec (in_use s) max).
      * counts i (mk_thread Entering g) (mk_thread Opening g). same_held. split; simpl; rewrite ?Hheld; unfold seated, count; simpl; lia || done.
      * counts i (mk_thread Entering g) (mk_thread Waiting g). same_held. split; simpl; rewrite ?Hc; simpl; rewrite ?Hheld; unfold seated, count; simpl; lia || done.
    + counts i (mk_thread Entering g) (mk_thread Outside (c :: g)).
      assert (Hp : c :: rest ++ held (threads s) ≡ₚ rest ++ held (<[i:=mk_thread Outside (c :: g)]> (threads s))).
      { apply (Permutation_app_inv_l g). rewrite (Permutation_app_swap_app g rest), Hheld. cbn. solve_Permutation. }
      split; simpl; rewrite <-?Hp; unfold seated, count; simpl; lia || done.
  - counts i (mk_thread Opening g) (mk_thread Outside (opened s :: g)).
    assert (Hp : opened s :: conns s ++ held (threads s) ≡ₚ conns s ++ held (<[i:=mk_thread Outside (opened s :: g)]> (threads s))).
    { apply (Permutation_app_inv_l g). rewrite (Permutation_app_swap_app g (conns s)), Hheld. cbn. solve_Permutation. }
    split; simpl; rewrite <-?Hp; unfold seated, count; simpl; try lia.
    + constructor; [|done]. intros Hin. rewrite Forall_forall in Hk. specialize (Hk _ Hin). simpl in Hk. lia.
    + constructor; [lia|]. eapply Forall_impl; [exact Hk|]. simpl. lia.
  - destruct (woken_counts _ _ Hwk) as (Hws & Hwh & _ & Hwn & Hww). counts i (mk_thread Opening g) (mk_thread Outside g). same_held. rewrite Hheld in Hwh.
    split; simpl; rewrite ?Hwh; unfold seated, count; simpl; try (done || lia).
    intros Hwait. destruct Hww as [(? & ? & ?)|[? ->]]; lia.
  - counts i (mk_thread Outside (g1 ++ c :: g2)) (mk_thread Notifying (g1 ++ g2)). rewrite !length_app in *. simpl in *.
    assert (Hp : conns s ++ held (threads s) ≡ₚ c :: conns s ++ held (<[i:=mk_thread Notifying (g1 ++ g2)]> (threads s))).
    { apply (Permutation_app_inv_l (g1 ++ g2)). rewrite (Permutation_app_swap_app (g1 ++ g2) (conns s)), <-Hheld. cbn. solve_Permutation. }
    rewrite Hp in Hd, Hk. split; simpl; unfold seated, count; simpl; try (done || lia).
  - destruct (woken_counts _ _ Hwk) as (Hws & Hwh & _ & Hwn & Hww). counts i (mk_thread Notifying g) (mk_thread Outside g). same_held. rewrite Hheld in Hwh.
    split; simpl; rewrite ?Hwh; unfold seated, count; simpl; try (done || lia).
    intros Hwait. destruct Hww as [(? & ? & ?)|[? ->]]; lia.
Qed.

Lemma inv_calm s s' : pool_inv s → calm s s' → pool_inv s'.
Proof.
  intros Hinv Hc. destruct Hc as [s s' Hg|s i g Hi]; [by eapply inv_goes|]. destruct Hinv as [Hb Hs Hd Hk Hw].
  counts i (mk_thread Waiting g) (mk_thread Entering g). same_held. split; simpl; rewrite ?Hheld; unfold seated, count; simpl; lia || done.
Qed.

Lemma inv_step s s' : pool_inv s → pool_step s s' → pool_inv s'.
Proof.
  intros Hinv Hc. destruct Hc as [s s' Hg|s i g Hi]; [by eapply inv_calm|]. destruct Hinv as [Hb Hs Hd Hk Hw].
  counts i (mk_thread Outside g) (mk_thread Entering g). same_held. split; simpl; rewrite ?Hheld; unfold seated, count; simpl; lia || done.
Qed.

Lemma pool_reachable_inv n s : 1 ≤ max → rtc pool_step (pool_start n) s → pool_inv s.
Proof.
  intros Hm Hr. assert (Hi : pool_inv (pool_start n)) by by apply inv_start.
  induction Hr as [s|s1 s2 s3 Hs _ IH]; [done|]. apply IH. by eapply inv_step.
Qed.

(** At any moment there are at most [max] connections, every seat that is counted belongs to a thread that
    opens or holds one, and no connection is in two hands or both held and in the pool. *)
Theorem connections_bounded n s :
  1 ≤ max → rtc pool_step (pool_start n) s →
  length (conns s) + in_use s ≤ max ∧ in_use s = seated (threads s) ∧ NoDup (conns s ++ held (threads s)).
Proof. intros Hm Hr. by destruct (pool_reachable_inv n s Hm Hr). Qed.

(** ** Progress *)

(** The steps a thread still has before it, the drops of its guards included,
    without being made to wait again. *)
Definition remaining (t : thread) : nat :=
  2 * length (guards t) + match ph t with Outside => 0 | Notifying => 1 | Opening => 3 | Entering | Waiting => 4 end.
#[local] Arguments remaining !_ /.

(** A notification may send one thread into another turn, no more. *)
Definition effort (s : PoolState) : nat := 2 * sum_list_with remaining (threads s) + count Entering (threads s).

Lemma woken_effort ts ts' : woken ts ts' →
  sum_list_with remaining ts' = sum_list_with remaining ts ∧ count Entering ts' ≤ S (count Entering ts).
Proof.
  intros [j g Hj|]; [|lia]. pose proof (sum_threads remaining ts j _ (mk_thread Entering g) Hj).
  pose proof (sum_threads (λ t, at_phase Entering (ph t)) ts j _ (mk_thread Entering g) Hj). unfold count. simpl in *. lia.
Qed.

Lemma woken_exists ts : ∃ ts', woken ts ts'.
Proof.
  destruct (Nat.eq_0_gt_0_cases (count Waiting ts)) as [Hz|(j & g & Hj)%count_pos]; [|by eexists; eapply woken_one].
  exists ts. constructor. intros g [j Hj]%list_elem_of_lookup. by apply (count_zero _ _ _ _ Hz) in Hj.
Qed.

Lemma goes_on_effort s s' : goes_on s s' → effort s' < effort s.
Proof.
  intros Hstep. unfold effort, count. destruct Hstep as [s i g Hi|s i g Hi|s i g ts Hi Hwk|s i g1 c g2 Hi|s i g ts Hi Hwk].
  - pose proof (λ t, sum_threads remaining _ _ _ t Hi) as Hr. pose proof (λ t, sum_threads (λ t, at_phase Entering (ph t)) _ _ _ t Hi) as Hc.
    unfold conn_turn. destruct (conns s) as [|c rest]; [destruct (_ <? _)|].
    + specialize (Hr (mk_thread Opening g)). specialize (Hc (mk_thread Opening g)). simpl in *. lia.
    + specialize (Hr (mk_thread Waiting g)). specialize (Hc (mk_thread Waiting g)). simpl in *. lia.
    + specialize (Hr (mk_thread Outside (c :: g))). specialize (Hc (mk_thread Outside (c :: g))). simpl in *. lia.
  - pose proof (sum_threads remaining _ _ _ (mk_thread Outside (opened s :: g)) Hi).
    pose proof (sum_threads (λ t, at_phase Entering (ph t)) _ _ _ (mk_thread Outside (opened s :: g)) Hi). simpl in *. lia.
  - apply woken_effort in Hwk as [Hw Hc]. unfold count in Hc. pose proof (sum_threads remaining _ _ _ (mk_thread Outside g) Hi).
    pose proof (sum_threads (λ t, at_phase Entering (ph t)) _ _ _ (mk_thread Outside g) Hi). simpl in *. lia.
  - pose proof (sum_threads remaining _ _ _ (mk_thread Notifying (g1 ++ g2)) Hi).
    pose proof (sum_threads (λ t, at_phase Entering (ph t)) _ _ _ (mk_thread Notifying (g1 ++ g2)) Hi). simpl in *. rewrite !length_app in *. simpl in *. lia.
  - apply woken_effort in Hwk as [Hw Hc]. unfold count in Hc. pose proof (sum_threads remaining _ _ _ (mk_thread Outside g) Hi).
    pose proof (sum_threads (λ t, at_phase Entering (ph t)) _ _ _ (mk_thread Outside g) Hi). simpl in *. lia.
Qed.

(** Without new calls nobody begins to wait with connections in hand. *)
Lemma goes_on_nested s s' : goes_on s s' → nested (threads s') ≤ nested (threads s).
Proof.
  intros Hstep. destruct Hstep as [s i g Hi|s i g Hi|s i g ts Hi Hwk|s i g1 c g2 Hi|s i g ts Hi Hwk].
  - pose proof (λ t, sum_threads nested1 _ _ _ t Hi) as Hr. unfold conn_turn, nested. destruct (conns s) as [|c rest]; [destruct (_ <? _)|].
    + specialize (Hr (mk_thread Opening g)). simpl in *. lia.
    + specialize (Hr (mk_thread Waiting g)). simpl in *. lia.
    + specialize (Hr (mk_thread Outside (c :: g))). simpl in *. lia.
  - pose proof (sum_threads nested1 _ _ _ (mk_thread Outside (opened s :: g)) Hi). unfold nested. simpl in *. lia.
  - apply woken_counts in Hwk as (_ & _ & Hn & _). pose proof (sum_threads nested1 _ _ _ (mk_thread Outside g) Hi). unfold nested in *. simpl in *. lia.
  - pose proof (sum_threads nested1 _ _ _ (mk_thread Notifying (g1 ++ g2)) Hi). unfold nested. simpl in *. lia.
  - apply woken_counts in Hwk as (_ & _ & Hn & _). pose proof (sum_threads nested1 _ _ _ (mk_thread Outside g) Hi). unfold nested in *. simpl in *. lia.
Qed.

Lemma calm_nested s s' : calm s s' → nested (threads s') ≤ nested (threads s).
Proof.
  intros Hc. destruct Hc as [s s' Hg|s i g Hi]; [by apply goes_on_nested|].
  pose proof (sum_threads nested1 _ _ _ (mk_thread Entering g) Hi). unfold nested. simpl in *. lia.
Qed.

(** Nobody holds a connection, calls or gives back. *)
Definition at_rest (s : PoolState) : Prop := in_use s = 0 ∧ ∀ i t, threads s !! i = Some t → t = mk_thread Outside [].

Lemma goes_on_or_rests s : pool_inv s → nested (threads s) < max → at_rest s ∨ ∃ s', goes_on s s'.
Proof.
  intros [Hb Hs _ _ Hw] Hn.
  destruct (Nat.eq_0_gt_0_cases (count Opening (threads s))) as [Hop|(j & g & Hj)%count_pos]; [|by right; eexists; eapply Opens].
  destruct (Nat.eq_0_gt_0_cases (count Notifying (threads s))) as [Hnot|(j & g & Hj)%count_pos].
  2: { right. destruct (woken_exists (<[j:=mk_thread Outside g]> (threads s))) as [ts Hts]. eexists. by eapply Notifies. }
  destruct (Nat.eq_0_gt_0_cases (count Entering (threads s))) as [Hent|(j & g & Hj)%count_pos]; [|by right; eexists; eapply Turn].
  destruct (Nat.eq_0_gt_0_cases (sum_list_with (λ t, match ph t with Outside => length (guards t) | _ => 0 end) (threads s)))
    as [Hout|(j & [p g] & Hj & Hg)%sum_pos].
  2: { right. destruct p; simpl in Hg; try lia. destruct g as [|c g]; simpl in Hg; [lia|]. eexists. by apply (Drops _ j [] c g). }
  left. assert (Hwait : count Waiting (threads s) = 0).
  { destruct (Nat.eq_0_gt_0_cases (count Waiting (threads s))) as [|Hpos]; [done|]. exfalso.
    enough (seated (threads s) ≤ nested (threads s)) by (specialize (Hw Hpos); lia).
    revert Hop Hnot Hout. unfold seated, nested, count. clear. induction (threads s) as [|[p g] ts IH]; simpl; [lia|].
    intros Hop Hnot Hout. specialize (IH ltac:(lia) ltac:(lia) ltac:(destruct p; lia)). destruct p; simpl in *; lia. }
  assert (Hrest : ∀ i t, threads s !! i = Some t → t = mk_thread Outside []).
  { intros i [p g] Hi. destruct p; [|by apply (count_zero _ _ _ _ Hent) in Hi|by apply (count_zero _ _ _ _ Hwait) in Hi
      |by apply (count_zero _ _ _ _ Hop) in Hi|by apply (count_zero _ _ _ _ Hnot) in Hi].
    destruct g as [|c g]; [done|]. exfalso. enough (0 < sum_list_with (λ t, match ph t with Outside => length (guards t) | _ => 0 end) (threads s)) by lia.
    apply sum_pos. exists i, (mk_thread Outside (c :: g)). split; [done|]. simpl. lia. }
  split; [|done]. rewrite Hs. destruct (Nat.eq_0_gt_0_cases (seated (threads s))) as [|(i & t & Hi & Ht)%sum_pos]; [done|].
  rewrite (Hrest i t Hi) in Ht. simpl in Ht. lia.
Qed.

(** C23: no wake-up is lost and nobody waits for ever. Let any number of threads
    check connections out and give them back in any interleaving, also while
    they hold some, and then make no further calls: if those that wait for a
    connection or are about to hold fewer than the maximum between them (as they
    do when no thread asks while it holds one), then every way to go on comes to
    an end, and wherever it has come to, spurious wake-ups included, either
    every thread has got its connections and has given them back, or some thread
    can go on. *)
Theorem pool_drains n s :
  1 ≤ max → rtc pool_step (pool_start n) s → nested (threads s) < max →
  sn goes_on s ∧ ∀ s', rtc calm s s' → at_rest s' ∨ ∃ s'', goes_on s' s''.
Proof.
  intros Hm Hr%(pool_reachable_inv n) Hn; [|done]. split.
  - clear. assert (Hacc : ∀ e s, effort s < e → sn goes_on s); [|by apply (Hacc (S (effort s))); lia].
    induction e as [|e IH]; intros x Hx; [lia|]. constructor. intros y Hy%goes_on_effort. apply IH. lia.
  - intros s' Hc. cut (pool_inv s' ∧ nested (threads s') < max); [intros []; by apply goes_on_or_rests|].
    induction Hc as [s|s1 s2 s3 Hs _ IH]; [done|]. apply IH; [by eapply inv_calm|]. apply calm_nested in Hs. lia.
Qed.

(** Threads that wait for one another's connections wait for ever. *)
Lemma all_wait s : (∀ t, t ∈ threads s → ph t = Waiting) → ¬ ∃ s', goes_on s s'.
Proof.
  intros Hall [s' Hs]. assert (Hp : ∀ i t, threads s !! i = Some t → ph t = Waiting) by (intros; by eapply Hall, list_elem_of_lookup_2).
  by destruct Hs as [s i g Hi|s i g Hi|s i g ts Hi Hwk|s i g1 c g2 Hi|s i g ts Hi Hwk]; apply Hp in Hi.
Qed.
End pool.

(** ** One pool per path *)

(** The pools by path, the handles alive on each, and the number of the next
    pool.
    Source: src/db-core/src/lib.rs:98-99 (OPEN_POOLS) *)
Record pools := mk_pools { by_path : gmap str nat; handles : gmap nat nat; next_pool : nat }.

Definition strong_count (p : nat) (t : pools) : nat := default 0 (handles t !! p).
Definition with_handle (p : nat) (t : pools) : pools :=
  mk_pools (by_path t) (<[p := S (strong_count p t)]> (handles t)) (next_pool t).

(** The look-up, under the lock.
    Source: src/db-core/src/lib.rs:103-106 (open, look-up) *)
Definition open_lookup (path : str) (t : pools) : option (pools * nat) :=
  p ← by_path t !! path; if 0 <? strong_count p t then Some (with_handle p t, p) else None.

(** The registration of a pool that was built in between, under the lock again.
    Source: src/db-core/src/lib.rs:123-126 (open, insert) *)
Definition open_insert (path : str) (t : pools) : pools * nat :=
  let p := next_pool t in
  let t := mk_pools (filter (λ kv, 0 < strong_count kv.2 t) (by_path t)) (handles t) (S p) in
  (with_handle p (mk_pools (<[path := p]> (by_path t)) (handles t) (next_pool t)), p).

(** Source: src/db-core/src/lib.rs:102-128 (open) *)
Definition open (path : str) (t : pools) : pools * nat :=
  match open_lookup path t with Some r => r | None => open_insert path t end.

(** Opened one after the other while a handle lives, a path has one pool. *)
Lemma open_twice path t :
  next_pool t ∉ dom (handles t) →
  let '(t1, p) := open path t in let '(t2, q) := open path t1 in p = q ∧ strong_count p t2 = S (strong_count p t1).
Proof.
  intros Hn. assert (Hlive : ∀ t1 p, by_path t1 !! path = Some p → 0 < strong_count p t1 →
    let '(t2, q) := open path t1 in p = q ∧ strong_count p t2 = S (strong_count p t1)).
  { intros t1 p Hp Hc. unfold open, open_lookup. rewrite Hp. cbn [mbind option_bind]. rewrite (proj2 (Nat.ltb_lt _ _) Hc). split; [done|].
    unfold strong_count at 1, with_handle. simpl. by rewrite lookup_insert_eq. }
  unfold open at 1. destruct (open_lookup path t) as [[t1 p]|] eqn:E.
  - apply Hlive; unfold open_lookup in E; destruct (by_path t !! path) as [q|] eqn:Eq; simpl in E; try done;
      destruct (0 <? _) in E; try done; injection E as <- <-; [done|]. unfold strong_count at 1, with_handle. simpl. rewrite lookup_insert_eq. simpl. lia.
  - unfold open_insert. apply Hlive; simpl; [by rewrite lookup_insert_eq|]. unfold strong_count at 1. simpl. rewrite lookup_insert_eq. simpl. lia.
Qed.

(** Two threads that look a path up before either registers get a pool each. *)
Lemma open_race path t :
  open_lookup path t = None →
  let '(t1, p) := open_insert path t in let '(t2, q) := open_insert path t1 in p ≠ q ∧ by_path t2 !! path = Some q.
Proof. intros _. unfold open_insert. simpl. split; [lia|apply lookup_insert_eq]. Qed.

(** ** Examples *)

Module PoolExamples.
(** Four connections at least, sixteen at most. *)
Example limits : (max_connections (Some 1), max_connections (Some 8), max_connections (Some 64), max_connections None) = (4, 8, 16, 4).
Proof. done. Qed.

(** Two threads on a pool of one connection: the second waits. *)
Definition crowded : PoolState := mk_pool [] 1 1 [mk_thread Outside [0]; mk_thread Waiting []].
Lemma crowded_reachable : rtc (pool_step 1) (pool_start 2) crowded.
Proof.
  eapply rtc_l; [by apply (Calls 1 _ 0)|]. eapply rtc_l; [by apply Continues, Goes, (Turn 1 _ 0)|].
  eapply rtc_l; [by apply (Calls 1 _ 1)|]. eapply rtc_l; [by apply Continues, Goes, (Turn 1 _ 1)|]. apply rtc_refl.
Defined.

Lemma connections_bounded_witness :
  (length (conns crowded) + in_use crowded ≤ 1 ∧ in_use crowded = seated (threads crowded) ∧
    NoDup (conns crowded ++ held (threads crowded))) ∧ held (threads crowded) = [0].
Proof. split; [|done]. apply (connections_bounded 1 2); [lia|apply crowded_reachable]. Defined.

Lemma pool_drains_witness :
  (sn (goes_on 1) crowded ∧ ∀ s', rtc (calm 1) crowded s' → at_rest s' ∨ ∃ s'', goes_on 1 s' s'') ∧ effort crowded = 12.
Proof. split; [|done]. apply (pool_drains 1 2); [lia|apply crowded_reachable|by apply Nat.ltb_lt]. Defined.

(** Four threads on the smallest pool, each of which asks for a second
    connection while it holds one. *)
Definition embraced : PoolState := mk_pool [] 4 4 ((λ c, mk_thread Waiting [c]) <$> [0; 1; 2; 3]).
Lemma embraced_reachable : rtc (pool_step 4) (pool_start 4) embraced.
Proof.
  eapply rtc_l; [by apply (Calls 4 _ 0)|]. eapply rtc_l; [by apply Continues, Goes, (Turn 4 _ 0)|].
  do 3 (match goal with |- rtc _ ?s _ => let i := eval vm_compute in (opened s) in
    eapply rtc_l; [by apply (Calls 4 _ i)|]; eapply rtc_l; [by apply Continues, Goes, (Turn 4 _ i)|]; eapply rtc_l; [by apply Continues, Goes, (Opens 4 _ i)|] end).
  eapply rtc_l; [by apply (Calls 4 _ 0)|]. eapply rtc_l; [by apply Continues, Goes, (Turn 4 _ 0)|].
  eapply rtc_l; [by apply (Calls 4 _ 1)|]. eapply rtc_l; [by apply Continues, Goes, (Turn 4 _ 1)|].
  eapply rtc_l; [by apply (Calls 4 _ 2)|]. eapply rtc_l; [by apply Continues, Goes, (Turn 4 _ 2)|].
  eapply rtc_l; [by apply (Calls 4 _ 3)|]. eapply rtc_l; [by apply Continues, Goes, (Turn 4 _ 3)|]. apply rtc_refl.
Qed.

Theorem nested_checkouts_deadlock : rtc (pool_step 4) (pool_start 4) embraced ∧ ¬ ∃ s', goes_on 4 embraced s'.
Proof. split; [exact embraced_reachable|]. apply all_wait. intros t Ht. cbn in Ht. set_solver. Qed.
End PoolExamples.
