(* ===== verification/EpochGc.v ===== *)
(** The collector of tombstones, src/sync-core/src/epoch_gc.rs: one
    transaction that deletes the tombstones up to a cutoff and counts them per
    domain. Each SQL statement may fail, and a connection remembers an open
    transaction. The upkeep of the full-text index after the commit and the
    text of [last_gc_at] are left out. *)

From S2P Require Import Prelude RustStr Text Sql Act Store.

(** Source: src/sync-core/src/epoch_gc.rs:12-17 (EpochGcSummary) *)
Record EpochGcSummary := mk_summary {
  sm_domain : str; sm_epoch_counter : Z; sm_pruned_tombstones : Z; sm_bytes_reclaimed : Z
}.

(** Source: src/sync-core/src/epoch_gc.rs:65-71 (prune_tombstones_if_consensus_reached, table) *)
Record EpochRow := mk_epoch { ep_counter : Z; ep_horizon : Z; ep_pruned : Z }.

(** The tables behind a connection, and what they were when its transaction began. *)
Record gc_conn := mk_conn { gc_db : db; gc_epochs : gmap str EpochRow; gc_begun : option (db * gmap str EpochRow) }.

Definition noop (domain : str) : EpochGcSummary := mk_summary domain 0 0 0.

(** The tombstones a cutoff covers. *)
Definition prunable (cutoff : Z) (p : Post) : bool := pst_is_deleted (post_row p) && (pst_created_at (post_row p) <=? cutoff)%Z.

Definition pruned (cutoff : Z) (d : db) : gmap str Post := filter (λ kv, prunable cutoff kv.2 = true) (posts d).
Definition keep_unpruned (cutoff : Z) (d : db) : db := on_posts (filter (λ kv, prunable cutoff kv.2 = false)) d.

(** LENGTH counts characters.
    Source: src/sync-core/src/epoch_gc.rs:79-87 (prune_tombstones_if_consensus_reached, reclaimed) *)
Definition reclaimed (cutoff : Z) (d : db) : Z :=
  foldr Z.add 0%Z ((λ p, chars_count (pst_content (post_row p)) + chars_count (pst_tags_json (post_row p)) + 200)%Z
                     <$> (map_to_list (pruned cutoff d)).*2).

Section gc.
(** Which statements fail, in the order of the text: BEGIN, CREATE TABLE, the sum, DELETE, INSERT, COMMIT; and ROLLBACK. *)
Context (fails : nat → bool) (rollback_fails : bool).

Definition statement {A} (n : nat) (msg : string) (m : act gc_conn A) : act gc_conn A := λ c,
  if fails n then (c, err msg) else m c.

(** BEGIN inside a transaction is an error. *)
Definition begin_immediate : act gc_conn unit := λ c,
  match gc_begun c with
  | Some _ => (c, err "Failed to start transaction")
  | None => statement 0 "Failed to start transaction" (writes (λ c, mk_conn (gc_db c) (gc_epochs c) (Some (gc_db c, gc_epochs c)))) c
  end.

Definition rollback (c : gc_conn) : gc_conn :=
  if rollback_fails then c
  else match gc_begun c with Some (d, e) => mk_conn d e None | None => c end.

(** A statement after whose failure the code rolls back. *)
Definition or_rollback {A} (n : nat) (msg : string) (m : act gc_conn A) : act gc_conn A := λ c,
  match statement n msg m c with (c, Ok a) => (c, Ok a) | (c, Err e) => (rollback c, Err e) end.

(** Source: src/sync-core/src/epoch_gc.rs:104-115 (prune_tombstones_if_consensus_reached, epochs) *)
Definition count_epoch (domain : str) (cutoff n : Z) (e : gmap str EpochRow) : gmap str EpochRow :=
  <[domain := match e !! domain with
              | Some old => mk_epoch (ep_counter old + 1) cutoff (ep_pruned old + n)
              | None => mk_epoch 1 cutoff n
              end]> e.

(** Source: src/sync-core/src/epoch_gc.rs:59-134 (prune_tombstones_if_consensus_reached, transaction) *)
Definition prune_transaction (domain : str) (cutoff : Z) : act gc_conn (Z * Z) :=
  _ ← begin_immediate;
  _ ← statement 1 "create" (mret ());
  bytes ← statement 2 "Reclaimed-bytes query failed" (reads (λ c, reclaimed cutoff (gc_db c)));
  n ← or_rollback 3 "Tombstone deletion failed" (λ c, (mk_conn (keep_unpruned cutoff (gc_db c)) (gc_epochs c) (gc_begun c), Ok (zsize (pruned cutoff (gc_db c)))));
  _ ← or_rollback 4 "Epoch tracking update failed" (writes (λ c, mk_conn (gc_db c) (count_epoch domain cutoff n (gc_epochs c)) (gc_begun c)));
  _ ← or_rollback 5 "Commit failed" (writes (λ c, mk_conn (gc_db c) (gc_epochs c) None));
  mret (n, Z.max 0 bytes).

(** Source: src/sync-core/src/epoch_gc.rs:41-57 (prune_tombstones_if_consensus_reached, cutoff) *)
Definition cutoff_of (clocks : list Z) (threshold : Z) : option Z :=
  match clocks with
  | [] => None
  | c :: cs =>
      let min_horizon := foldr Z.min c cs in
      if (min_horizon <=? threshold)%Z then None else Some (Z.min (min_horizon - threshold) i64_max)
  end.

(** [clocks] are the values of the peers' vector clocks.
    Source: src/sync-core/src/epoch_gc.rs:23-152 (prune_tombstones_if_consensus_reached) *)
Definition prune_tombstones_if_consensus_reached (domain : str) (clocks : list Z) (threshold : Z) : act gc_conn EpochGcSummary :=
  _ ← guard_else (negb (bool_decide (trim domain = [])) && (zlen domain <=? 128)%Z) "domain must be between 1 and 128 chars";
  match cutoff_of clocks threshold with
  | None => mret (noop domain)
  | Some cutoff =>
      '(n, bytes) ← prune_transaction domain cutoff;
      reads (λ c, mk_summary domain (Z.max 0 (match gc_epochs c !! domain with Some e => ep_counter e | None => 1%Z end)) n bytes)
  end.
End gc.

(** ** What a pass does *)

Definition no_fault : nat → bool := λ _, false.

(** A pass without failing statements: exactly the tombstones up to the cutoff go, they are counted, and no
    transaction stays open. *)
Lemma prune_result domain clocks threshold cutoff c :
  trim domain ≠ [] → (zlen domain <= 128)%Z → cutoff_of clocks threshold = Some cutoff → gc_begun c = None →
  prune_tombstones_if_consensus_reached no_fault false domain clocks threshold c =
    (mk_conn (keep_unpruned cutoff (gc_db c)) (count_epoch domain cutoff (zsize (pruned cutoff (gc_db c))) (gc_epochs c)) None,
     Ok (mk_summary domain (Z.max 0 (match gc_epochs c !! domain with Some e => ep_counter e + 1 | None => 1 end)%Z)
           (zsize (pruned cutoff (gc_db c))) (Z.max 0 (reclaimed cutoff (gc_db c))))).
Proof.
  intros Hd Hl Hc Hb. unfold prune_tombstones_if_consensus_reached. rewrite run_guard, bool_decide_eq_false_2, (proj2 (Z.leb_le _ _) Hl) by done.
  cbn [negb andb]. rewrite Hc. unfold prune_transaction, begin_immediate, mbind, act_bind. rewrite Hb. cbn.
  unfold reads. cbn [gc_epochs]. unfold count_epoch at 2. rewrite lookup_insert_eq. by destruct (gc_epochs c !! domain).
Qed.

(** What is in the table after a pass: every row but the tombstones up to the cutoff. *)
Lemma kept_rows cutoff d id p : posts (keep_unpruned cutoff d) !! id = Some p ↔ posts d !! id = Some p ∧ prunable cutoff p = false.
Proof. apply map_lookup_filter_Some. Qed.

Section faults.
Context (fails : nat → bool) (domain : str) (cutoff : Z) (c : gc_conn).

(** When a statement of the transaction after the sum fails and the roll-back works, nothing has happened. *)
Lemma failed_pass_undone :
  gc_begun c = None → fails 0 = false → fails 1 = false → fails 2 = false →
  fails 3 = true ∨ fails 4 = true ∨ fails 5 = true →
  ∃ e, prune_transaction fails false domain cutoff c = (c, Err e).
Proof.
  intros Hb F0 F1 F2 F. destruct c as [d e b]. cbn in Hb. subst b.
  unfold prune_transaction, begin_immediate, or_rollback, statement, mbind, act_bind. cbn. rewrite F0, F1, F2. cbn.
  destruct (fails 3) eqn:F3; [by eexists|]. cbn. destruct (fails 4) eqn:F4; [by eexists|]. cbn.
  destruct (fails 5) eqn:F5; [by eexists|]. naive_solver.
Qed.

(** When the creation of the table or the sum fails, the transaction stays open on the connection, and no later
    pass on it can begin one. *)
Lemma failed_sum_stays_open rb rb' fails' domain' cutoff' :
  gc_begun c = None → fails 0 = false → fails 1 = true ∨ fails 2 = true →
  ∃ c' e, prune_transaction fails rb domain cutoff c = (c', Err e) ∧ gc_begun c' = Some (gc_db c, gc_epochs c) ∧
    ∃ e', prune_transaction fails' rb' domain' cutoff' c' = (c', Err e').
Proof.
  intros Hb F0 F. unfold prune_transaction at 1, begin_immediate at 1, statement, mbind, act_bind. rewrite Hb, F0. cbn.
  destruct (fails 1) eqn:F1; cbn; [|destruct F as [F|F]; [done|rewrite F; cbn]]; do 2 eexists; (split; [done|]); (split; [done|]);
    unfold prune_transaction, begin_immediate, mbind, act_bind; cbn; by eexists.
Qed.
End faults.

(** The domain only names the row that is counted: the tombstones of all domains go. *)
Lemma domain_ignored rb domain domain' cutoff c :
  gc_begun c = None → gc_db (prune_transaction no_fault rb domain cutoff c).1 = gc_db (prune_transaction no_fault rb domain' cutoff c).1.
Proof. intros Hb. unfold prune_transaction, begin_immediate, mbind, act_bind. by rewrite Hb. Qed.

(** The age that counts is that of the post, not of its deletion: a post older than the cutoff is forgotten in
    the pass after it was deleted, and storing it once more (a copy that comes from a peer who has not heard of the
    deletion) brings it back; with its tombstone it stays deleted. *)
Lemma replay_resurrects cutoff d p old :
  row_too_big (pst_content p) (pst_tags_json p) = false → pst_is_deleted p = false →
  posts d !! clean (pst_id p) = Some old → prunable cutoff old = true →
  (∃ d', post_upsert p d = Ok d' ∧ posts d' !! clean (pst_id p) = Some old ∧ pst_is_deleted (post_row old) = true) ∧
  (∃ d' new, post_upsert p (keep_unpruned cutoff d) = Ok d' ∧ posts d' !! clean (pst_id p) = Some new ∧ pst_is_deleted (post_row new) = false).
Proof.
  intros Hbig Hp Hold Hpr. apply andb_true_iff in Hpr as [Hdel Hage]. unfold post_upsert. rewrite Hbig. split.
  - eexists. split; [done|]. split; [|done]. unfold store_post, on_posts, upsert. cbn [posts pst_id normalize_post].
    replace (posts (ensure_exists _ d)) with (posts d) by done. rewrite Hold, lookup_insert_eq. unfold merge_post. cbv zeta. by rewrite Hdel.
  - assert (Hgone : posts (keep_unpruned cutoff d) !! clean (pst_id p) = None).
    { apply map_lookup_filter_None. right. intros q Hq. rewrite Hold in Hq. injection Hq as <-. cbn [snd]. unfold prunable. by rewrite Hdel, Hage. }
    do 2 eexists. split; [done|]. unfold store_post at 1, on_posts at 1, upsert. cbn [posts pst_id normalize_post].
    replace (posts (ensure_exists _ (keep_unpruned cutoff d))) with (posts (keep_unpruned cutoff d)) by done.
    rewrite Hgone, lookup_insert_eq. by split.
Qed.

(** ** Examples *)

Definition tombstone : Post :=
  mk_post (mk_post_row (lit "p1") (lit "ann") (lit "gone") 1 100 (lit "[]") None None None [] [] None (lit "synced") true None None false None) 0.
Definition yard : gc_conn := mk_conn (mk_db ∅ {[ lit "p1" := tombstone ]} ∅ ∅ ∅ ∅ ∅ ∅ ∅ ∅) ∅ None.

(** Peers at 5000 and 6000, a threshold of 4000: everything up to 1000 goes. *)
Example one_pass :
  match prune_tombstones_if_consensus_reached no_fault false (lit "posts") [5000; 6000]%Z 4000 yard with
  | (c, Ok s) => (size (posts (gc_db c)), sm_epoch_counter s, sm_pruned_tombstones s, sm_bytes_reclaimed s) = (0%nat, 1, 1, 206)%Z
  | _ => False
  end.
Proof. by vm_compute. Qed.
