(* ===== verification/LocalStore.v ===== *)
(** The capped event store of src/relay-core/src/local_store.rs: events by
    identifier, the identifiers in their order of arrival, subscriptions; the
    calls one after the other, and insertions of several threads interleaved
    at the operations of the sharded map and of the lock. Events and filters
    are the nostr crate's and parameters. *)

From S2P Require Import Prelude RustStr Text.

Class Nostr := {
  event : Type;
  filter_t : Type;
  event_id : event → str;
  match_event : filter_t → event → bool;
  filter_limit : filter_t → option nat
}.

(** Source: src/relay-core/src/local_store.rs:15-15 (DEFAULT_LOCAL_STORE_CAPACITY) *)
Definition DEFAULT_LOCAL_STORE_CAPACITY : nat := 100 * 100.

Section store.
Context `{Nostr}.

(** Source: src/relay-core/src/local_store.rs:18-23 (LocalRelayStore) *)
Record LocalRelayStore := mk_store {
  events : gmap str event;
  subscriptions : gmap str (list filter_t);
  recent_ids : list str;
  max_events : nat
}.

(** Source: src/relay-core/src/local_store.rs:33-40 (new) *)
Definition new (cap : nat) : LocalRelayStore := mk_store ∅ ∅ [] (Nat.max cap 1).

(** Source: src/relay-core/src/local_store.rs:43-45 (subscribe) *)
Definition subscribe (sub_id : str) (filters : list filter_t) (s : LocalRelayStore) : LocalRelayStore :=
  mk_store (events s) (<[sub_id := filters]> (subscriptions s)) (recent_ids s) (max_events s).

(** Source: src/relay-core/src/local_store.rs:48-50 (unsubscribe) *)
Definition unsubscribe (sub_id : str) (s : LocalRelayStore) : LocalRelayStore * bool :=
  (mk_store (events s) (delete sub_id (subscriptions s)) (recent_ids s) (max_events s),
   bool_decide (is_Some (subscriptions s !! sub_id))).

(** Source: src/relay-core/src/local_store.rs:53-55 (subscription_count) *)
Definition subscription_count (s : LocalRelayStore) : nat := size (subscriptions s).
(** Source: src/relay-core/src/local_store.rs:58-60 (event_count) *)
Definition event_count (s : LocalRelayStore) : nat := size (events s).

(** Source: src/relay-core/src/local_store.rs:63-66 (get_event) *)
Definition get_event (id : str) (s : LocalRelayStore) : option event := events s !! clean id.

(** Source: src/relay-core/src/local_store.rs:72-83 (insert_event, matching) *)
Definition matching_subs (e : event) (s : LocalRelayStore) : list str :=
  (filter (λ kv : str * list filter_t, existsb (λ f, match_event f e) kv.2 = true) (map_to_list (subscriptions s))).*1.

(** Source: src/relay-core/src/local_store.rs:90-94 (insert_event, eviction) *)
Definition evict (s : LocalRelayStore) : LocalRelayStore :=
  let n := length (recent_ids s) - max_events s in
  mk_store (foldr delete (events s) (take n (recent_ids s))) (subscriptions s) (drop n (recent_ids s)) (max_events s).

(** Source: src/relay-core/src/local_store.rs:69-99 (insert_event) *)
Definition insert_event (e : event) (s : LocalRelayStore) : LocalRelayStore * list str :=
  let id := event_id e in
  let stored := mk_store (<[id := e]> (events s)) (subscriptions s) (recent_ids s) (max_events s) in
  (match events s !! id with
   | Some _ => stored
   | None => evict (mk_store (events stored) (subscriptions s) (recent_ids s ++ [id]) (max_events s))
   end, matching_subs e s).

(** The loop over the identifiers, newest first.
    Source: src/relay-core/src/local_store.rs:114-123 (query, loop) *)
Fixpoint collect (f : filter_t) (limit : nat) (es : gmap str event) (ids : list str) (matched : list event) : list event :=
  match ids with
  | [] => matched
  | id :: ids =>
      match es !! id with
      | Some e =>
          if match_event f e then
            let matched := matched ++ [e] in
            if limit <=? length matched then matched else collect f limit es ids matched
          else collect f limit es ids matched
      | None => collect f limit es ids matched
      end
  end.

(** Source: src/relay-core/src/local_store.rs:102-126 (query) *)
Definition query (f : filter_t) (s : LocalRelayStore) : list event :=
  collect f (default 100 (filter_limit f)) (events s) (reverse (recent_ids s)) [].

(** Source: src/relay-core/src/local_store.rs:129-135 (clear) *)
Definition clear (s : LocalRelayStore) : LocalRelayStore := mk_store ∅ ∅ [] (max_events s).

(** ** One call after the other *)

Record store_inv (s : LocalRelayStore) : Prop := {
  si_same id : id ∈ recent_ids s ↔ is_Some (events s !! id);
  si_nodup : NoDup (recent_ids s);
  si_bound : length (recent_ids s) ≤ max_events s;
  si_cap : 1 ≤ max_events s;
  si_ids id e : events s !! id = Some e → event_id e = id
}.

Lemma new_inv cap : store_inv (new cap).
Proof. split; simpl; try lia; [|constructor|done]. intros id. rewrite lookup_empty. split; [by intros ?%elem_of_nil|by intros [? [=]]]. Qed.

(** An event is added at the end; when the store was full exactly the oldest goes. *)
Lemma insert_new_spec e s :
  store_inv s → events s !! event_id e = None →
  let s' := (insert_event e s).1 in
  store_inv s' ∧ events s' !! event_id e = Some e ∧
  (if length (recent_ids s) <? max_events s then recent_ids s' = recent_ids s ++ [event_id e] ∧ events s' = <[event_id e := e]> (events s)
   else ∃ old rest, recent_ids s = old :: rest ∧ recent_ids s' = rest ++ [event_id e] ∧
          events s' = <[event_id e := e]> (delete old (events s))).
Proof.
  intros [Hsame Hnd Hb Hc Hids] Hnew. unfold insert_event. rewrite Hnew. cbn [fst].
  assert (Hni : event_id e ∉ recent_ids s) by (rewrite Hsame, Hnew; by intros [? [=]]).
  unfold evict. cbn [recent_ids events subscriptions max_events]. rewrite length_app. cbn [length].
  destruct (Nat.ltb_spec (length (recent_ids s)) (max_events s)) as [Hl|Hl].
  - replace (length (recent_ids s) + 1 - max_events s) with 0 by lia. rewrite drop_0, take_0. simpl. split; [|by rewrite lookup_insert_eq].
    split; simpl; rewrite ?length_app; simpl; try lia.
    + intros id. rewrite elem_of_app, list_elem_of_singleton, Hsame, lookup_insert_is_Some. clear. destruct (decide (event_id e = id)); naive_solver.
    + apply NoDup_app. split_and!; [done| |by apply NoDup_singleton]. intros x Hx ->%list_elem_of_singleton. done.
    + intros id e'. rewrite lookup_insert_Some. naive_solver.
  - assert (Hfull : length (recent_ids s) = max_events s) by lia.
    destruct (recent_ids s) as [|old rest] eqn:Er; [simpl in *; lia|].
    replace (length (old :: rest) + 1 - max_events s) with 1 by lia.
    change (take 1 ((old :: rest) ++ [event_id e])) with [old]. change (drop 1 ((old :: rest) ++ [event_id e])) with (rest ++ [event_id e]). cbn [foldr].
    assert (Hold : old ≠ event_id e) by (intros ->; apply Hni; left).
    rewrite delete_insert_ne by done. apply NoDup_cons in Hnd as [Ho Hnd].
    split; [|split; [by rewrite lookup_insert_eq|by exists old, rest]].
    split; cbn [recent_ids events max_events drop app] in *; rewrite ?length_app in *; cbn [length] in *; try lia.
    + intros id. rewrite elem_of_app, list_elem_of_singleton, lookup_insert_is_Some, lookup_delete_is_Some, <-Hsame, elem_of_cons.
      destruct (decide (event_id e = id)) as [<-|]; [naive_solver|]. split; [|naive_solver]. intros [Hid|]; [|naive_solver].
      right. split; [done|]. split; [by intros ->|auto].
    + apply NoDup_app. split_and!; [done| |by apply NoDup_singleton]. intros x Hx ->%list_elem_of_singleton. apply Hni. by right.
    + intros id e'. rewrite lookup_insert_Some, lookup_delete_Some. naive_solver.
Qed.

(** An identifier that is there already keeps its place. *)
Lemma insert_again_spec e s :
  store_inv s → is_Some (events s !! event_id e) →
  let s' := (insert_event e s).1 in
  store_inv s' ∧ events s' = <[event_id e := e]> (events s) ∧ recent_ids s' = recent_ids s.
Proof.
  intros [Hsame Hnd Hb Hc Hids] [e0 He]. unfold insert_event. rewrite He. cbn [fst]. split; [|done]. split; simpl; try done.
  - intros id. rewrite Hsame, lookup_insert_is_Some. destruct (decide (event_id e = id)) as [<-|]; [rewrite He|]; naive_solver.
  - intros id e'. rewrite lookup_insert_Some. naive_solver.
Qed.

(** The events, newest first. *)
Definition newest_first (s : LocalRelayStore) : list event := omap (λ id, events s !! id) (reverse (recent_ids s)).

Lemma collect_spec f limit es ids matched :
  length matched < Nat.max 1 limit →
  collect f limit es ids matched =
    matched ++ take (Nat.max 1 limit - length matched) (filter (λ e, match_event f e = true) (omap (λ id, es !! id) ids)).
Proof.
  revert matched. induction ids as [|id ids IH]; intros matched Hm; cbn [collect omap list_omap].
  - by rewrite filter_nil, take_nil, app_nil_r.
  - destruct (es !! id) as [e|]; [|by apply IH]. rewrite filter_cons. destruct (match_event f e); [|by apply IH].
    destruct (Nat.leb_spec limit (length (matched ++ [e]))) as [Hl|Hl]; rewrite length_app in Hl; cbn [length] in Hl.
    + replace (Nat.max 1 limit - length matched) with 1 by lia. by destruct (filter _ _).
    + rewrite IH by (rewrite length_app; cbn [length]; lia). rewrite <-app_assoc. f_equal. rewrite length_app. cbn [length].
      replace (Nat.max 1 limit - length matched) with (S (Nat.max 1 limit - (length matched + 1))) by lia. done.
Qed.

(** A query gives the newest matching events, as many as the limit of the filter says (100 without one), but never
    none: a limit of zero gives one event. *)
Lemma query_spec f s : query f s = take (Nat.max 1 (default 100 (filter_limit f))) (filter (λ e, match_event f e = true) (newest_first s)).
Proof. unfold query. rewrite collect_spec by (simpl; lia). simpl. by rewrite Nat.sub_0_r. Qed.

(** ** Interleaved calls *)

(** What stands between the operations: the insertions that found their identifier new and have not taken the
    lock yet, and the holder of the lock, with the identifier it has popped and not removed. *)
Record shared := mk_shared { sh_store : LocalRelayStore; in_flight : list str; holder : option (option str) }.

Definition on_store (f : LocalRelayStore → LocalRelayStore) (s : shared) : shared := mk_shared (f (sh_store s)) (in_flight s) (holder s).

Definition put (e : event) (s : LocalRelayStore) : LocalRelayStore :=
  mk_store (<[event_id e := e]> (events s)) (subscriptions s) (recent_ids s) (max_events s).
Definition remove (id : str) (s : LocalRelayStore) : LocalRelayStore :=
  mk_store (delete id (events s)) (subscriptions s) (recent_ids s) (max_events s).
Definition with_recent (ids : list str) (s : LocalRelayStore) : LocalRelayStore :=
  mk_store (events s) (subscriptions s) ids (max_events s).

(** Source: src/relay-core/src/local_store.rs:85-96 (insert_event, threads) *)
Inductive insert_step : shared → shared → Prop :=
| PutNew s e : events (sh_store s) !! event_id e = None →
    insert_step s (mk_shared (put e (sh_store s)) (event_id e :: in_flight s) (holder s))
| PutOld s e : is_Some (events (sh_store s) !! event_id e) → insert_step s (on_store (put e) s)
| Push s id before after : in_flight s = before ++ id :: after → holder s = None →
    insert_step s (mk_shared (with_recent (recent_ids (sh_store s) ++ [id]) (sh_store s)) (before ++ after) (Some None))
| Pop s old rest : holder s = Some None → max_events (sh_store s) < length (recent_ids (sh_store s)) →
    recent_ids (sh_store s) = old :: rest →
    insert_step s (mk_shared (with_recent rest (sh_store s)) (in_flight s) (Some (Some old)))
| Remove s old : holder s = Some (Some old) →
    insert_step s (mk_shared (remove old (sh_store s)) (in_flight s) (Some None))
| Unlock s : holder s = Some None → length (recent_ids (sh_store s)) ≤ max_events (sh_store s) →
    insert_step s (mk_shared (sh_store s) (in_flight s) None).

(** Source: src/relay-core/src/local_store.rs:130-134 (clear, threads) *)
Inductive clear_step : shared → shared → Prop :=
| ClearMaps s : clear_step s (on_store (λ t, mk_store ∅ ∅ (recent_ids t) (max_events t)) s)
| ClearRecent s : holder s = None → clear_step s (on_store (with_recent []) s).

(** Every stored event is on its way out: it is queued, or its insertion is under way, or it is being removed. *)
Record shared_inv (s : shared) : Prop := {
  sv_tracked id : is_Some (events (sh_store s) !! id) →
    id ∈ recent_ids (sh_store s) ∨ id ∈ in_flight s ∨ holder s = Some (Some id);
  sv_bound : length (recent_ids (sh_store s)) ≤ max_events (sh_store s) + match holder s with Some None => 1 | _ => 0 end
}.

Lemma shared_step s s' : insert_step s s' → shared_inv s → shared_inv s' ∧ max_events (sh_store s') = max_events (sh_store s).
Proof.
  intros Hstep [Ht Hb].
  destruct Hstep as [s e Hn|s e Ho|s id before after Hf Hh|s old rest Hh Hl Hr|s old Hh|s Hh Hl]; (split; [|done]); split; cbn in *; rewrite ?Hh in *.
  - intros id. rewrite lookup_insert_is_Some. intros [<-|[_ [?|[?|?]]%Ht]]; rewrite ?elem_of_cons; auto.
  - done.
  - intros id. rewrite lookup_insert_is_Some. intros [<-|[_ Hid]]; by apply Ht.
  - done.
  - intros i Hi%Ht. rewrite !elem_of_app in *. rewrite Hf, elem_of_app, elem_of_cons in Hi. rewrite list_elem_of_singleton.
    destruct Hi as [?|[[?|[->|?]]|[=]]]; auto.
  - rewrite length_app. simpl. lia.
  - intros i Hi%Ht. rewrite Hr, elem_of_cons in Hi. destruct Hi as [[->|?]|[?|[=]]]; auto.
  - rewrite Hr in Hb. simpl in Hb. lia.
  - intros i. rewrite lookup_delete_is_Some. intros [Hne Hi%Ht]. destruct Hi as [?|[?|[= ->]]]; auto. done.
  - lia.
  - intros i Hi%Ht. destruct Hi as [?|[?|[=]]]; auto.
  - lia.
Qed.

(** However the insertions of any number of threads interleave, the store holds at most its cap of events,
    one more while a thread evicts, and one for every insertion under way. *)
Theorem store_bounded_concurrently cap s :
  rtc insert_step (mk_shared (new cap) [] None) s →
  event_count (sh_store s) ≤ Nat.max cap 1 + length (in_flight s) + match holder s with Some _ => 1 | None => 0 end.
Proof.
  intros Hr. assert (Hinv : shared_inv s ∧ max_events (sh_store s) = Nat.max cap 1).
  { assert (Hi : shared_inv (mk_shared (new cap) [] None)) by (split; simpl; [intros id; rewrite lookup_empty; by intros [? [=]]|lia]).
    assert (Hm : max_events (sh_store (mk_shared (new cap) [] None)) = Nat.max cap 1) by done.
    induction Hr as [s|s1 s2 s3 Hs _ IH]; [done|]. apply (shared_step _ _ Hs) in Hi as [Hi He]. apply IH; [done|congruence]. }
  destruct Hinv as [[Ht Hb] Hm]. unfold event_count. rewrite <-size_dom.
  set (out := match holder s with Some (Some id) => [id] | _ => [] end).
  assert (Hsub : dom (events (sh_store s)) ⊆ list_to_set (recent_ids (sh_store s) ++ in_flight s ++ out)).
  { intros id Hid%elem_of_dom. apply elem_of_list_to_set. rewrite !elem_of_app. destruct (Ht id Hid) as [?|[?|He]]; auto.
    right. right. unfold out. rewrite He. left. }
  apply subseteq_size in Hsub. etrans; [exact Hsub|]. etrans; [apply size_list_to_set_le|]. rewrite !length_app.
  unfold out. destruct (holder s) as [[id|]|]; simpl in *; lia.
Qed.

(** An insertion that falls between the two halves of [clear] leaves an event in the map that no query finds and
    nothing will ever evict. *)
Lemma clear_race cap e :
  ∃ s, rtc (λ a b, insert_step a b ∨ clear_step a b) (mk_shared (new cap) [] None) s ∧
    events (sh_store s) !! event_id e = Some e ∧ recent_ids (sh_store s) = [] ∧ in_flight s = [] ∧ holder s = None ∧
    ∀ f, query f (sh_store s) = [].
Proof.
  eexists. split.
  - eapply rtc_l; [right; apply ClearMaps|]. eapply rtc_l; [left; apply (PutNew _ e); apply lookup_empty|].
    eapply rtc_l; [left; by apply (Push _ (event_id e) [] [])|]. eapply rtc_l; [left; apply Unlock; [done|simpl; lia]|].
    eapply rtc_l; [right; by apply ClearRecent|]. apply rtc_refl.
  - cbn. split; [by rewrite lookup_insert_eq|done].
Qed.
End store.

(** ** Examples *)

Module StoreExamples.
(** Events and filters that are numbers; a filter finds the larger events. *)
#[local] Instance numbers : Nostr := {|
  event := Z; filter_t := Z * option nat; event_id e := [e]; match_event f e := (f.1 <? e)%Z; filter_limit f := f.2
|}.

Definition three : LocalRelayStore := fold_left (λ s e, (insert_event e s).1) [5; 9; 7]%Z (new 2).

Example newest_two : recent_ids three = [[9]; [7]]%Z ∧ query (0%Z, None) three = [7; 9]%Z ∧ query (8%Z, Some 5) three = [9]%Z.
Proof. by vm_compute. Qed.

(** A limit of zero. *)
Example zero_gives_one : query (0%Z, Some 0) three = [7]%Z.
Proof. by vm_compute. Qed.
End StoreExamples.
