(* ===== verification/Console.v ===== *)
(** The guard of the raw SQL console, [raw_sql_allowed] of
    src/flutter-bridge/src/ffi/db.rs: comments and hex literals are removed
    from the text, and what is left is searched for words. What it lets through
    is characterised for plain statements, and statements with text literals
    are shown that it lets through although they name the settings table. *)

From S2P Require Import Url Content Prelude RustStr Text Pin.

Class UnicodeCase := { to_lowercase : str → str }.
(** [str::to_lowercase] on ASCII. *)
Class UnicodeCaseLaws `{UnicodeCase} : Prop := { to_lowercase_ascii s : Forall (λ b, (0 ≤ b < 128)%Z) s → to_lowercase s = to_ascii_lowercase s }.

Inductive scan := Code | Block | Line.

Definition is_char (c : list Z) (b : Z) : bool := bool_decide (c = [b]).
Definition space_unless (sp : bool) : str := if sp then [] else [0x20%Z].

(** The first pass; [sp] tells whether what was written so far ends with a space.
    Source: src/flutter-bridge/src/ffi/db.rs:369-406 (raw_sql_allowed, comments) *)
Fixpoint strip_comments (m : scan) (sp : bool) (cs : list (list Z)) : str :=
  match cs with
  | [] => []
  | c :: rest =>
      let plain := if ws_char c then space_unless sp ++ strip_comments Code true rest else c ++ strip_comments Code false rest in
      match m with
      | Line => strip_comments (if is_char c 0x0A then Code else Line) sp rest
      | Block =>
          match rest with
          | c2 :: rest2 =>
              if is_char c 0x2A && is_char c2 0x2F then space_unless sp ++ strip_comments Code true rest2 else strip_comments Block sp rest
          | [] => []
          end
      | Code =>
          match rest with
          | c2 :: rest2 =>
              if is_char c 0x2D && is_char c2 0x2D then [0x20%Z] ++ strip_comments Line true rest2
              else if is_char c 0x2F && is_char c2 0x2A then strip_comments Block sp rest2
              else plain
          | [] => plain
          end
      end
  end.

(** The second pass; [q] inside a literal.
    Source: src/flutter-bridge/src/ffi/db.rs:413-433 (raw_sql_allowed, hex literals) *)
Fixpoint strip_hex (q sp : bool) (cs : list (list Z)) : str :=
  match cs with
  | [] => if q then space_unless sp else []
  | c :: rest =>
      if q then if is_char c 0x27 then space_unless sp ++ strip_hex false true rest else strip_hex true sp rest
      else
        match rest with
        | c2 :: rest2 =>
            if (is_char c 0x78 || is_char c 0x58) && is_char c2 0x27 then strip_hex true sp rest2
            else c ++ strip_hex false (is_char c 0x20) rest
        | [] => c
        end
  end.

(** Source: src/flutter-bridge/src/ffi/db.rs:441-465 (raw_sql_allowed, words) *)
Definition forbidden : list (list Z) :=
  [lit ";"; lit "attach "; lit "drop "; lit "vacuum"; lit "create "; lit "alter "; lit "reindex "; lit "pragma "; lit "insert ";
   lit "replace "; lit "update "; lit "delete "; lit "union "; lit "returning "; lit "sqlite_master"; lit "sqlite_schema";
   lit "sqlite_temp_master"; lit "with recursive"].

(** Source: src/flutter-bridge/src/ffi/db.rs:364-483 (raw_sql_allowed) *)
Definition raw_sql_allowed `{UnicodeCase} (sql : str) : bool :=
  let norm := strip_comments Code false (chars sql) in
  let norm := strip_hex false false (chars norm) in
  let lower := to_lowercase (trim norm) in
  if existsb (λ w, contains w lower) forbidden then false
  else if negb (bool_decide (default [] (head (split_whitespace lower)) ∈ [lit "select"; lit "with"])) then false
  else negb (contains (lit "settings") lower) && negb (existsb (λ k, contains k lower) PROTECTED_SETTING_KEYS).

(** Source: src/flutter-bridge/src/ffi/db.rs:337-342 (db_query_raw) *)
Definition db_query_raw `{UnicodeCase} {A} (query : str → may_fail A) (sql : str) : may_fail A :=
  _ ← ensure (raw_sql_allowed sql) "sql touches a protected settings key"; query sql.

(** ** Plain statements *)

(** ASCII, without quotes and without comments. *)
Record plain_sql (s : str) : Prop := {
  ps_ascii : Forall (λ b, (0 ≤ b < 128)%Z) s;
  ps_quote : 0x27%Z ∉ s;
  ps_dashes : contains (lit "--") s = false;
  ps_block : contains (lit "/*") s = false
}.

(** Runs of white space become one space. *)
Fixpoint squeeze (sp : bool) (s : str) : str :=
  match s with
  | [] => []
  | b :: s => if ws1 b then space_unless sp ++ squeeze true s else b :: squeeze false s
  end.

Lemma contains_head p b s : contains p (b :: s) = false → contains p s = false.
Proof. simpl. by destruct (strip_prefix p (b :: s)). Qed.

Lemma strip_squeeze sp s :
  contains (lit "--") s = false → contains (lit "/*") s = false →
  strip_comments Code sp ((λ b, [b]) <$> s) = squeeze sp s.
Proof.
  revert sp. induction s as [|b s IH]; intros sp Hd Hb; [done|].
  assert (IH' : ∀ sp, strip_comments Code sp ((λ b, [b]) <$> s) = squeeze sp s).
  { intros sp'. apply IH; by eapply contains_head. }
  assert (Hplain : (if ws_char [b] then space_unless sp ++ strip_comments Code true ((λ b, [b]) <$> s)
                    else [b] ++ strip_comments Code false ((λ b, [b]) <$> s)) = squeeze sp (b :: s)) by (by rewrite !IH').
  destruct s as [|c s]; [exact Hplain|]. cbn [fmap list_fmap strip_comments].
  assert (H1 : is_char [b] 0x2D && is_char [c] 0x2D = false).
  { apply not_true_is_false. intros [E1%bool_decide_eq_true E2%bool_decide_eq_true]%andb_true_iff. injection E1 as ->. injection E2 as ->. discriminate Hd. }
  assert (H2 : is_char [b] 0x2F && is_char [c] 0x2A = false).
  { apply not_true_is_false. intros [E1%bool_decide_eq_true E2%bool_decide_eq_true]%andb_true_iff. injection E1 as ->. injection E2 as ->. discriminate Hb. }
  rewrite H1, H2. exact Hplain.
Qed.

Lemma squeeze_ascii sp s : Forall (λ b, (0 ≤ b < 128)%Z) s → Forall (λ b, (0 ≤ b < 128)%Z) (squeeze sp s).
Proof.
  intros Hs. revert sp. induction Hs as [|b s Hb _ IH]; intros sp; [done|]. simpl. destruct (ws1 b); [|by constructor].
  apply Forall_app. split; [destruct sp; repeat constructor; lia|done].
Qed.

Lemma squeeze_quote sp s : 0x27%Z ∉ s → 0x27%Z ∉ squeeze sp s.
Proof.
  revert sp. induction s as [|b s IH]; intros sp Hs; [done|]. apply not_elem_of_cons in Hs as [Hb Hs]. simpl. destruct (ws1 b).
  - rewrite elem_of_app. intros [Hi|Hi]; [|by apply (IH true)]. destruct sp; simpl in Hi; [by apply elem_of_nil in Hi|].
    by apply list_elem_of_singleton in Hi.
  - rewrite elem_of_cons. intros [?|?]; [done|by apply (IH false)].
Qed.

Lemma strip_hex_none sp s : 0x27%Z ∉ s → strip_hex false sp ((λ b, [b]) <$> s) = s.
Proof.
  revert sp. induction s as [|b s IH]; intros sp Hs; [done|]. apply not_elem_of_cons in Hs as [Hb Hs].
  destruct s as [|c s]; [done|]. apply not_elem_of_cons in Hs as [Hc Hs']. cbn [fmap list_fmap strip_hex].
  assert (is_char [c] 0x27 = false) as -> by (apply bool_decide_eq_false; by intros [= ->]). rewrite andb_false_r.
  change ([b] ++ strip_hex false (is_char [b] 0x20) ((λ b, [b]) <$> c :: s) = b :: c :: s). rewrite IH; [done|].
  by apply not_elem_of_cons.
Qed.

(** *** Words *)

Lemma contains_iff p s : contains p s = true ↔ ∃ a b, s = a ++ p ++ b.
Proof.
  induction s as [|x s IH]; cbn [contains].
  - destruct (strip_prefix p []) as [r|] eqn:E.
    + apply strip_prefix_inv in E. split; [|done]. intros _. by exists [], r.
    + split; [done|]. intros (a & b & Hs). destruct a; [|done]. simpl in Hs. by rewrite Hs, strip_prefix_app in E.
  - destruct (strip_prefix p (x :: s)) as [r|] eqn:E.
    + apply strip_prefix_inv in E. split; [|done]. intros _. by exists [], r.
    + rewrite IH. split; [intros (a & b & ->); by exists (x :: a), b|]. intros ([|y a] & b & Hs); simpl in Hs.
      * by rewrite Hs, strip_prefix_app in E.
      * injection Hs as -> ->. by exists a, b.
Qed.

Definition no_space (p : str) : Prop := p ≠ [] ∧ Forall (λ b, ws1 b = false) p.

(** A word survives the squeezing. *)
Lemma contains_squeeze p s sp : no_space p → contains p s = true → contains p (squeeze sp s) = true.
Proof.
  intros [Hne Hp] (a & b & ->)%contains_iff. apply contains_iff.
  assert (Hcopy : ∀ q, Forall (λ b, ws1 b = false) q → ∀ sp r, ∃ sp', squeeze sp (q ++ r) = q ++ squeeze sp' r).
  { induction 1 as [|x q Hx _ IH]; intros sp' r; [by exists sp'|]. simpl. rewrite Hx. destruct (IH false r) as [sp'' ->]. by exists sp''. }
  revert sp. induction a as [|x a IH]; intros sp; simpl.
  - destruct (Hcopy p Hp sp b) as [sp' ->]. by exists [], (squeeze sp' b).
  - destruct (ws1 x); [destruct (IH true) as (l & r & ->); by exists (space_unless sp ++ l), r; rewrite <-!app_assoc|].
    destruct (IH false) as (l & r & ->). by exists (x :: l), r.
Qed.

(** ... and the trimming. *)
Lemma contains_between p u t v :
  no_space p → Forall (λ b, ws1 b = true) u → Forall (λ b, ws1 b = true) v → contains p (u ++ t ++ v) = true → contains p t = true.
Proof.
  intros [Hne Hp] Hu Hv (a & b & E)%contains_iff. apply contains_iff.
  assert (Hclash : ∀ x, Forall (λ b, ws1 b = true) x → Forall (λ b, ws1 b = false) x → x = []).
  { intros [|c x] H1 H2; [done|]. apply Forall_cons in H1 as [H1 _], H2 as [H2 _]. congruence. }
  assert (Hstage : ∀ k, t ++ v = k ++ p ++ b → ∃ a b, t = a ++ p ++ b).
  { intros k Ek. rewrite app_assoc in Ek. apply app_eq_inv in Ek as [(k' & -> & _)|(k' & Ek & ->)].
    - exists k, k'. by rewrite <-app_assoc.
    - apply Forall_app in Hv as [Hk' _]. apply app_eq_inv in Ek as [(z & -> & ->)|(z & -> & ->)].
      + apply Forall_app in Hk' as [_ Hk']. by rewrite (Hclash p Hk' Hp) in Hne.
      + apply Forall_app in Hp as [_ Hz]. exists k, []. by rewrite (Hclash k' Hk' Hz), !app_nil_r. }
  apply app_eq_inv in E as [(k & -> & E)|(k & -> & E)]; [|by apply (Hstage k)].
  destruct k as [|c k]; [by apply (Hstage [])|]. destruct p as [|c' p]; [done|]. injection E as -> _.
  apply Forall_app in Hu as [_ [Hc _]%Forall_cons]. apply Forall_cons in Hp as [Hc' _]. congruence.
Qed.

(** Trimming ASCII text takes spaces off its ends. *)
Lemma ascii_ws_char w : ws_char w = true → Forall (λ b, (0 ≤ b < 128)%Z) w → Forall (λ b, ws1 b = true) w.
Proof.
  intros [(a & -> & H)|[(b & -> & H)|(a & b & c & -> & H & Ha & _)]]%ws_char_inv Hr; [by repeat constructor|..];
    apply Forall_cons in Hr as [Hr _]; exfalso; [lia|]. destruct Ha as [->|[->| ->]]; lia.
Qed.

Lemma concat_ws ws : Forall (λ w, ws_char w = true) ws → Forall (λ b, (0 ≤ b < 128)%Z) (concat ws) → Forall (λ b, ws1 b = true) (concat ws).
Proof.
  induction 1 as [|w ws Hw _ IH]; [done|]. cbn [concat]. rewrite !Forall_app. intros [H1 H2]. split; [by apply ascii_ws_char|by apply IH].
Qed.

Lemma contains_trim p s : no_space p → Forall (λ b, (0 ≤ b < 128)%Z) s → contains p s = true → contains p (trim s) = true.
Proof.
  intros Hp Hs Hc. unfold trim. destruct (trim_start_split s) as (ws & Hws & E & _).
  destruct (trim_end_split (trim_start s)) as (ws' & Hws' & E' & _).
  rewrite E, E' in Hc, Hs. apply Forall_app in Hs as [Hs1 [_ Hs2]%Forall_app].
  eapply contains_between; [exact Hp|by apply (concat_ws ws)|by apply (concat_ws ws')|exact Hc].
Qed.

Lemma trim_ascii s : Forall (λ b, (0 ≤ b < 128)%Z) s → Forall (λ b, (0 ≤ b < 128)%Z) (trim s).
Proof.
  intros Hs. unfold trim. destruct (trim_start_split s) as (ws & _ & E & _). destruct (trim_end_split (trim_start s)) as (ws' & _ & E' & _).
  rewrite E in Hs. apply Forall_app in Hs as [_ Hs]. rewrite E' in Hs. by apply Forall_app in Hs as [? _].
Qed.

(** Lower case keeps spaces. *)
Lemma ws1_lower b : ws1 (to_ascii_lowercase_byte b) = ws1 b.
Proof. exact (ws_char_lower [b]). Qed.

Lemma squeeze_lower sp s : squeeze sp (to_ascii_lowercase s) = to_ascii_lowercase (squeeze sp s).
Proof.
  revert sp. induction s as [|b s IH]; intros sp; [done|]. cbn. rewrite ws1_lower. unfold to_ascii_lowercase in *.
  destruct (ws1 b); [rewrite fmap_app, IH; by destruct sp|cbn; by rewrite IH].
Qed.

Lemma lower_range s : Forall (λ b, (0 ≤ b < 128)%Z) s → Forall (λ b, (0 ≤ b < 128)%Z) (to_ascii_lowercase s).
Proof.
  intros Hs. apply Forall_fmap. eapply Forall_impl; [exact Hs|]. cbn beta. intros b Hb. unfold compose, to_ascii_lowercase_byte.
  destruct (between 0x41 0x5A b) eqn:E; [apply between_iff in E; cbn beta; lia|exact Hb].
Qed.

Section console.
Context `{UnicodeCaseLaws}.

(** What is searched, for a plain statement: the statement in lower case with its white space squeezed. *)
Lemma searched_plain sql : plain_sql sql →
  to_lowercase (trim (strip_hex false false (chars (strip_comments Code false (chars sql))))) = trim (squeeze false (to_ascii_lowercase sql)).
Proof.
  intros [Ha Hq Hd Hb]. rewrite (chars_ascii sql Ha), strip_squeeze by done. pose proof (squeeze_ascii false sql Ha) as Hs.
  rewrite (chars_ascii _ Hs), strip_hex_none by (by apply squeeze_quote). rewrite to_lowercase_ascii by (by apply trim_ascii).
  by rewrite <-trim_lower, squeeze_lower.
Qed.

(** The words no accepted plain statement contains, in any case. *)
Definition kept_out : list (list Z) :=
  [lit ";"; lit "vacuum"; lit "sqlite_master"; lit "sqlite_schema"; lit "sqlite_temp_master"; lit "settings"] ++ PROTECTED_SETTING_KEYS.

(** C27: a plain statement (ASCII, no quotes, no comments) that the console accepts is one statement, begins with
    SELECT or WITH, and names neither the settings table, nor a protected key, nor the schema tables, whatever its
    case and spacing. *)
Theorem raw_sql_plain sql :
  plain_sql sql → raw_sql_allowed sql = true →
  (∀ w, w ∈ kept_out → contains w (to_ascii_lowercase sql) = false) ∧
  default [] (head (split_whitespace (trim (squeeze false (to_ascii_lowercase sql))))) ∈ [lit "select"; lit "with"].
Proof.
  intros Hp Hok. unfold raw_sql_allowed in Hok. rewrite searched_plain in Hok by done.
  destruct (existsb _ forbidden) eqn:Hf; [done|]. destruct (negb (bool_decide _)) eqn:Hw in Hok; [done|].
  apply andb_true_iff in Hok as [Hs Hk]. apply negb_true_iff in Hs, Hk. split; [|by apply negb_false_iff, bool_decide_eq_true in Hw].
  intros w Hin. apply not_true_is_false. intros Hc.
  assert (Hns : no_space w).
  { assert (Hall : Forall no_space kept_out) by (repeat constructor; done). rewrite Forall_forall in Hall. by apply Hall. }
  apply (contains_squeeze _ _ false) in Hc; [|done]. apply contains_trim in Hc; [|done|apply squeeze_ascii, lower_range, (ps_ascii _ Hp)].
  assert (Hany : ∀ l, existsb (λ w, contains w (trim (squeeze false (to_ascii_lowercase sql)))) l = false → w ∉ l).
  { intros l Hl Hwl. assert (existsb (λ w, contains w (trim (squeeze false (to_ascii_lowercase sql)))) l = true); [|congruence].
    apply existsb_exists. exists w. split; [by apply list_elem_of_In|done]. }
  unfold kept_out in Hin. apply elem_of_app in Hin as [Hin|Hin]; [|by apply (Hany _ Hk)].
  apply (Hany (forbidden ++ [lit "settings"])); [rewrite existsb_app, Hf; simpl; by rewrite Hs|].
  assert (Hall : Forall (λ w, w ∈ forbidden ++ [lit "settings"])
    [lit ";"; lit "vacuum"; lit "sqlite_master"; lit "sqlite_schema"; lit "sqlite_temp_master"; lit "settings"])
    by (apply (bool_decide_unpack _); by vm_compute).
  rewrite Forall_forall in Hall. by apply Hall.
Qed.
End console.

(** ** Examples *)

Module ConsoleExamples.
#[local] Instance ascii_case : UnicodeCase := {| to_lowercase := to_ascii_lowercase |}.
#[local] Instance ascii_case_laws : UnicodeCaseLaws.
Proof. by split. Qed.

Definition fine : str := lit "SELECT  id FROM posts".

Lemma raw_sql_plain_witness :
  raw_sql_allowed fine = true ∧ contains (lit "settings") (to_ascii_lowercase fine) = false.
Proof.
  assert (Hp : plain_sql fine).
  { split; [by apply (bool_decide_unpack _); vm_compute|by apply (bool_decide_unpack _); vm_compute|by vm_compute|by vm_compute]. }
  assert (Hok : raw_sql_allowed fine = true) by (by vm_compute).
  split; [done|]. apply (raw_sql_plain fine Hp Hok). by apply (bool_decide_unpack _); vm_compute.
Defined.

Example refused : raw_sql_allowed (lit "select value from/**/SETTINGS") = false ∧ raw_sql_allowed (lit "drop/**/table posts") = false.
Proof. by vm_compute. Qed.

(** Two dashes, the opening of a comment or an x before a closing quote inside a text literal hide the rest of the
    statement from the search; the last statement changes the table. *)
Example hidden_by_literals :
  Forall (λ sql, raw_sql_allowed sql = true ∧ contains (lit "settings") sql = true)
    [lit "SELECT '--', value FROM settings"; lit "SELECT '/*', value FROM settings"; lit "SELECT 'x', value FROM settings WHERE '' = ''";
     lit "WITH a AS (SELECT '--') UPDATE settings SET value = '0'"].
Proof. repeat constructor; by vm_compute. Qed.
End ConsoleExamples.
