(* ===== verification/Recorder.v ===== *)
(** The flight recorder of src/telemetry-core/src/lib.rs: records appended to a
    memory-mapped file behind a checksummed header, and their enumeration. The
    map is a list of bytes of fixed length; an access outside it panics. The
    clock and the random bytes are arguments; SHA-256 and ChaCha20-Poly1305
    are the primitives' interface; errors of the file system are left out. *)

From S2P Require Import Prelude RustStr Primitives.

(** Source: src/telemetry-core/src/lib.rs:24-24 (HEADER_LEN) *)
Definition HEADER_LEN : Z := 4096.
(** Source: src/telemetry-core/src/lib.rs:25-25 (MAGIC) *)
Definition MAGIC : bytes := lit "SOSHTELE".
(** Source: src/telemetry-core/src/lib.rs:26-26 (VERSION) *)
Definition VERSION : Z := 1.
(** Source: src/telemetry-core/src/lib.rs:28-28 (DUMP_MAGIC) *)
Definition DUMP_MAGIC : bytes := lit "SOSHDMP1".
(** Source: src/telemetry-core/src/lib.rs:30-30 (DUMP_HEADER_LEN) *)
Definition DUMP_HEADER_LEN : nat := 8 + 12.
(** Source: src/telemetry-core/src/lib.rs:32-32 (ENTRY_MAX_PAYLOAD) *)
Definition ENTRY_MAX_PAYLOAD : Z := 4096.
(** Source: src/telemetry-core/src/lib.rs:33-33 (ENTRY_HEADER) *)
Definition ENTRY_HEADER : Z := 4 + 1 + 8 + 4.
(** Source: src/telemetry-core/src/lib.rs:34-34 (ENTRY_MAX_TOTAL) *)
Definition ENTRY_MAX_TOTAL : Z := ENTRY_HEADER + ENTRY_MAX_PAYLOAD.

(** Source: src/telemetry-core/src/lib.rs:45-52 (RecordKind) *)
Inductive RecordKind := State | Ipc | Network | Ffi | App | Crash.

Definition kind_u8 (k : RecordKind) : Z := match k with State => 1 | Ipc => 2 | Network => 3 | Ffi => 4 | App => 5 | Crash => 6 end.

(** Source: src/telemetry-core/src/lib.rs:55-65 (from_u8) *)
Definition from_u8 (v : Z) : option RecordKind :=
  if (v =? 1)%Z then Some State else if (v =? 2)%Z then Some Ipc else if (v =? 3)%Z then Some Network
  else if (v =? 4)%Z then Some Ffi else if (v =? 5)%Z then Some App else if (v =? 6)%Z then Some Crash else None.

(** Source: src/telemetry-core/src/lib.rs:37-42 (RecorderInfo) *)
Record RecorderInfo := mk_info { capacity_bytes : Z; used_bytes : Z; info_entries : nat; info_sealed : bool }.

(** Source: src/telemetry-core/src/lib.rs:79-83 (HeaderView) *)
Record HeaderView := mk_view { hv_head : Z; hv_len : Z; hv_sealed : bool }.

(** Source: src/telemetry-core/src/lib.rs:85-89 (Recorder) *)
Record Recorder := mk_recorder { mmap : bytes; rec_key : bytes }.

(** *** The map *)

(** [m[a..b]] and [m[a..].copy_from_slice(bs)]. *)
Definition slice (m : bytes) (a b : Z) : may_fail bytes :=
  if (0 <=? a)%Z && (a <=? b)%Z && (b <=? zlen m)%Z then Ok (take (Z.to_nat (b - a)) (drop (Z.to_nat a) m)) else Err Panic.
Definition write_at (m : bytes) (a : Z) (bs : bytes) : may_fail bytes :=
  if (0 <=? a)%Z && (a + zlen bs <=? zlen m)%Z
  then Ok (take (Z.to_nat a) m ++ bs ++ drop (Z.to_nat a + length bs) m) else Err Panic.

Section recorder.
Context `{Primitives}.

(** Source: src/telemetry-core/src/lib.rs:360-365 (checksum) *)
Definition checksum (data : bytes) : bytes := take 8 (sha256 data).

(** The fields before the state, the state, and the rest of a header.
    Source: src/telemetry-core/src/lib.rs:367-378 (write_header) *)
Definition write_header (total : nat) (capacity : Z) : bytes :=
  let hdr := MAGIC ++ to_le 4 VERSION ++ to_le 4 capacity ++ to_le 8 HEADER_LEN ++ [0%Z] ++ to_le 8 HEADER_LEN ++ to_le 8 0
             ++ replicate (4096 - 8 - 41) 0%Z in
  hdr ++ checksum hdr ++ replicate (total - 4096) 0%Z.

(** Source: src/telemetry-core/src/lib.rs:380-395 (read_header) *)
Definition read_header (m : bytes) : may_fail HeaderView :=
  _ ← ensure ((HEADER_LEN <=? zlen m)%Z && bool_decide (take 8 m = MAGIC)) "recorder header invalid";
  _ ← ensure (bool_decide (take 8 (drop 4088 m) = checksum (take 4088 m))) "recorder header checksum failed";
  let available := (zlen m - HEADER_LEN)%Z in
  Ok (mk_view (from_le (take 8 (drop 25 m))) (Z.min (from_le (take 8 (drop 33 m))) available)
        (negb (default 0%Z (m !! 24%nat) =? 0)%Z)).

(** Source: src/telemetry-core/src/lib.rs:397-399 (header_valid) *)
Definition header_valid (m : bytes) : bool := is_ok (read_header m).

(** Source: src/telemetry-core/src/lib.rs:327-352 (load_or_create_key) *)
Definition load_or_create_key (file : option bytes) (entropy : bytes) : bytes :=
  let content := default [] file in if 32 <=? length content then take 32 content else entropy.

(** Source: src/telemetry-core/src/lib.rs:94-127 (init) *)
Definition init (file key_file : option bytes) (entropy : bytes) (capacity : Z) : Recorder :=
  let cap := Z.max capacity (64 * 1024) in
  let total := Z.to_nat (HEADER_LEN + cap) in
  let content := default [] file in
  let m := take total content ++ replicate (total - length content) 0%Z in
  mk_recorder (if header_valid m then m else write_header total cap) (load_or_create_key key_file entropy).

(** ** Writing *)

Definition padded_total (n : Z) : Z := Z.land (ENTRY_HEADER + n + 3) (Z.lnot 3).

(** Source: src/telemetry-core/src/lib.rs:142-150 (record_bytes, entry) *)
Definition entry_bytes (kind ts : Z) (payload : bytes) : bytes :=
  let total := padded_total (zlen payload) in
  let entry := to_le 4 total ++ [kind] ++ to_le 8 ts ++ to_le 4 (zlen payload) ++ payload in
  entry ++ replicate (Z.to_nat total - length entry) 0%Z.

(** Source: src/telemetry-core/src/lib.rs:173-185 (write_header_state) *)
Definition write_header_state (m : bytes) (head len : Z) : bytes :=
  let hdr := take 24 m ++ [0%Z] ++ to_le 8 head ++ to_le 8 len ++ drop 41 (take 4088 m) in
  hdr ++ checksum hdr ++ drop 4096 m.

(** Source: src/telemetry-core/src/lib.rs:134-167 (record_bytes) *)
Definition record_bytes (now_ms : Z) (kind : RecordKind) (payload : bytes) (m : bytes) : may_fail bytes :=
  _ ← ensure (zlen payload <=? ENTRY_MAX_PAYLOAD)%Z "record payload too large";
  hdr ← read_header m;
  _ ← ensure (negb (hv_sealed hdr)) "recorder sealed";
  let entry := entry_bytes (kind_u8 kind) now_ms payload in
  let total := zlen entry in
  let data_start := HEADER_LEN in
  let cap := (zlen m - data_start)%Z in
  let write_pos := Z.max (hv_head hdr) data_start in
  _ ← (if (write_pos + total <=? u64_max)%Z then Ok () else Err Panic);
  let fits := (write_pos + total <=? zlen m)%Z in
  if negb fits then
    m ← write_at m write_pos [0; 0; 0; 0]%Z;
    m ← write_at m data_start entry;
    Ok (write_header_state m (data_start + total) cap)
  else
    m ← write_at m write_pos entry;
    Ok (write_header_state m (write_pos + total) (Z.min (hv_len hdr + total) cap)).

(** Source: src/telemetry-core/src/lib.rs:188-199 (mark_crash) *)
Definition mark_crash (now_ms : Z) (reason : bytes) (m : bytes) : may_fail bytes :=
  m ← record_bytes now_ms Crash reason m;
  hdr ← read_header m;
  let h := take 24 m ++ [1%Z] ++ to_le 8 (hv_head hdr) ++ to_le 8 (hv_len hdr) ++ drop 41 (take 4088 m) in
  Ok (h ++ checksum h ++ drop 4096 m).

(** Source: src/telemetry-core/src/lib.rs:201-203 (is_sealed) *)
Definition is_sealed (m : bytes) : bool := match read_header m with Ok h => hv_sealed h | Err _ => false end.

(** Source: src/telemetry-core/src/lib.rs:245-252 (clear) *)
Definition clear (m : bytes) : bytes := write_header_state (take 4096 m ++ replicate (length m - 4096) 0%Z) HEADER_LEN 0.

(** ** Reading *)

(** Source: src/telemetry-core/src/lib.rs:401-416 (count_entries) *)
Fixpoint count_entries (fuel : nat) (m : bytes) (pos end_ : Z) (n : nat) : may_fail nat :=
  match fuel with
  | O => err "out of fuel"
  | S fuel =>
      if (pos + 4 <=? end_)%Z then
        word ← slice m pos (pos + 4);
        let total := from_le word in
        if (total =? 0)%Z || (ENTRY_MAX_TOTAL <? total)%Z || (end_ <? pos + total)%Z then Ok n
        else count_entries fuel m (pos + total) end_ (S n)
      else Ok n
  end.

(** Source: src/telemetry-core/src/lib.rs:254-262 (info) *)
Definition info (m : bytes) : may_fail RecorderInfo :=
  hdr ← read_header m;
  n ← count_entries (S (Z.to_nat (hv_len hdr))) m HEADER_LEN (HEADER_LEN + hv_len hdr) 0;
  Ok (mk_info (zlen m - HEADER_LEN) (hv_len hdr) n (hv_sealed hdr)).

Definition keep_known (kind : option RecordKind) (ts : Z) (payload : bytes) : list (RecordKind * Z * bytes) :=
  match kind with Some k => [(k, ts, payload)] | None => [] end.

(** Source: src/telemetry-core/src/lib.rs:274-309 (read_all, loop) *)
Fixpoint read_entries (fuel : nat) (m : bytes) (pos end_ : Z) (out : list (RecordKind * Z * bytes)) : may_fail (list (RecordKind * Z * bytes)) :=
  match fuel with
  | O => err "out of fuel"
  | S fuel =>
      if (pos + 4 <=? end_)%Z then
        word ← slice m pos (pos + 4);
        let total := from_le word in
        if (total =? 0)%Z || (ENTRY_MAX_TOTAL <? total)%Z || (end_ <? pos + total)%Z then Ok out
        else if (end_ <? pos + ENTRY_HEADER)%Z then Ok out
        else
          kind ← slice m (pos + 4) (pos + 5);
          ts ← slice m (pos + 5) (pos + 13);
          plen ← slice m (pos + 13) (pos + 17);
          let plen := from_le plen in
          if (ENTRY_MAX_PAYLOAD <? plen)%Z || (total <? ENTRY_HEADER + plen)%Z then Ok out
          else
            payload ← slice m (pos + ENTRY_HEADER) (pos + ENTRY_HEADER + plen);
            read_entries fuel m (pos + total) end_ (out ++ keep_known (from_u8 (from_le kind)) (from_le ts) payload)
      else Ok out
  end.

(** Source: src/telemetry-core/src/lib.rs:269-311 (read_all) *)
Definition read_all (m : bytes) : may_fail (list (RecordKind * Z * bytes)) :=
  hdr ← read_header m;
  read_entries (S (Z.to_nat (hv_len hdr))) m HEADER_LEN (HEADER_LEN + hv_len hdr) [].

(** ** Dumps *)

(** Source: src/telemetry-core/src/lib.rs:213-218 (dump_encrypted, plain) *)
Definition dump_plain (m : bytes) : may_fail bytes :=
  hdr ← read_header m;
  data ← slice m HEADER_LEN (HEADER_LEN + hv_len hdr);
  Ok (to_le 8 (hv_head hdr) ++ to_le 8 (hv_len hdr) ++ data).

(** Source: src/telemetry-core/src/lib.rs:206-228 (dump_encrypted) *)
Definition dump_encrypted (nonce : bytes) (r : Recorder) : may_fail bytes :=
  plain ← dump_plain (mmap r);
  ct ← ok_or (Fail "encrypt dump") (p1305_encrypt (rec_key r) nonce plain []);
  Ok (DUMP_MAGIC ++ nonce ++ ct).

(** Source: src/telemetry-core/src/lib.rs:231-242 (decrypt_dump) *)
Definition decrypt_dump (dump : bytes) (r : Recorder) : may_fail bytes :=
  _ ← ensure (negb (length dump <? DUMP_HEADER_LEN) && bool_decide (take 8 dump = DUMP_MAGIC)) "bad dump envelope";
  ok_or (Fail "dump decryption failed") (p1305_decrypt (rec_key r) (take 12 (drop 8 dump)) (drop 20 dump) []).
End recorder.
