(* ===== verification/RecorderLaws.v ===== *)
(** Laws of the flight recorder: what a fresh recorder is given is read back in
    order, reading a map of any contents stays inside it and ends, a sealed
    recorder takes nothing until it is cleared, and what happens at its edges. *)

From S2P Require Import Prelude RustStr Primitives Recorder.

(** ** Slices *)

Lemma slice_ok m a b : (0 ≤ a)%Z → (a ≤ b)%Z → (b ≤ zlen m)%Z → ∃ x, slice m a b = Ok x ∧ length x = Z.to_nat (b - a) ∧ (all_bytes m → all_bytes x).
Proof.
  intros Ha Hab Hb. unfold slice. rewrite !(proj2 (Z.leb_le _ _)) by lia. eexists. split; [done|]. split.
  - rewrite length_take, length_drop. lia.
  - intros Hm. by apply all_bytes_take, all_bytes_drop.
Qed.

Lemma slice_app pre x post a b : a = zlen pre → b = (zlen pre + zlen x)%Z → slice (pre ++ x ++ post) a b = Ok x.
Proof.
  intros -> ->. unfold slice. rewrite !(proj2 (Z.leb_le _ _)) by (rewrite ?length_app; lia).
  cbn [andb]. replace (Z.to_nat (zlen pre + zlen x - zlen pre)) with (length x) by lia. rewrite Nat2Z.id, drop_app_length, take_app_length. done.
Qed.

Lemma write_at_app pre x y post a : a = zlen pre → length x = length y → write_at (pre ++ x ++ post) a y = Ok (pre ++ y ++ post).
Proof.
  intros -> Hl. unfold write_at. rewrite !(proj2 (Z.leb_le _ _)) by (rewrite ?length_app; lia).
  cbn [andb]. rewrite Nat2Z.id, take_app_length, drop_app_add', <-Hl, drop_app_length by done. done.
Qed.

Lemma write_at_outside m a bs : (zlen m < a + zlen bs)%Z → write_at m a bs = Err Panic.
Proof. intros Hl. unfold write_at. by rewrite (proj2 (Z.leb_gt (a + zlen bs) (zlen m))), andb_false_r by lia. Qed.

(** ** Entries *)

Definition entry : Type := RecordKind * Z * bytes.
Definition enc (e : entry) : bytes := entry_bytes (kind_u8 e.1.1) e.1.2 e.2.
Definition enc_all (es : list entry) : bytes := concat (enc <$> es).

(** The entries the reader takes: a payload of less than 4096 bytes and a time of 64 bits. *)
Definition readable (e : entry) : Prop := (zlen e.2 < ENTRY_MAX_PAYLOAD)%Z ∧ (0 ≤ e.1.2 < 2 ^ 64)%Z.

Lemma padded_bounds n : (0 ≤ n)%Z → (17 + n ≤ padded_total n < 21 + n)%Z ∧ (padded_total n mod 4 = 0)%Z.
Proof.
  intros Hn. unfold padded_total, ENTRY_HEADER. change 3%Z with (Z.ones 2). rewrite <-Z.ldiff_land, Z.ldiff_ones_r by lia.
  rewrite Z.shiftr_div_pow2, Z.shiftl_mul_pow2 by lia. change (2 ^ 2)%Z with 4%Z. change (Z.ones 2) with 3%Z.
  pose proof (Z.div_mod (4 + 1 + 8 + 4 + n + 3) 4 ltac:(lia)). pose proof (Z.mod_pos_bound (4 + 1 + 8 + 4 + n + 3) 4 ltac:(lia)).
  split; [lia|apply Z.mod_mul; lia].
Qed.

(** An entry is its five fields and the padding. *)
Lemma entry_split k ts (p : bytes) : ∃ pad, entry_bytes k ts p = to_le 4 (padded_total (zlen p)) ++ [k] ++ to_le 8 ts ++ to_le 4 (zlen p) ++ p ++ pad ∧
  length (entry_bytes k ts p) = Z.to_nat (padded_total (zlen p)).
Proof.
  destruct (padded_bounds (zlen p) ltac:(lia)) as [Hp _]. unfold entry_bytes. eexists. split.
  - rewrite <-!app_assoc. done.
  - rewrite length_app, length_replicate. len.
Qed.

Lemma entry_length k ts p : zlen (entry_bytes k ts p) = padded_total (zlen p).
Proof. destruct (entry_split k ts p) as (pad & _ & Hl). rewrite Hl. pose proof (padded_bounds (zlen p)). lia. Qed.

(** The fields of an entry found at a position. *)
Lemma entry_fields k ts p pre rest pos : pos = zlen pre →
  let m := pre ++ entry_bytes k ts p ++ rest in
  slice m pos (pos + 4) = Ok (to_le 4 (padded_total (zlen p))) ∧
  slice m (pos + 4) (pos + 5) = Ok [k] ∧ slice m (pos + 5) (pos + 13) = Ok (to_le 8 ts) ∧
  slice m (pos + 13) (pos + 17) = Ok (to_le 4 (zlen p)) ∧
  slice m (pos + ENTRY_HEADER) (pos + ENTRY_HEADER + zlen p) = Ok p.
Proof.
  intros ->. destruct (entry_split k ts p) as (pad & -> & _). set (t := to_le 4 (padded_total (zlen p))).
  set (tb := to_le 8 ts). set (n := to_le 4 (zlen p)). unfold ENTRY_HEADER.
  assert (length t = 4 ∧ length [k] = 1 ∧ length tb = 8 ∧ length n = 4) as (Ht & Hk & Hts & Hn) by (unfold t, tb, n; by rewrite !to_le_length).
  rewrite <-!app_assoc. repeat split.
  - apply slice_app; [done|lia].
  - rewrite (app_assoc pre t). apply slice_app; rewrite length_app; lia.
  - rewrite (app_assoc pre t), (app_assoc _ [k]). apply slice_app; rewrite !length_app; lia.
  - rewrite (app_assoc pre t), (app_assoc _ [k]), (app_assoc _ tb). apply slice_app; rewrite !length_app; lia.
  - rewrite (app_assoc pre t), (app_assoc _ [k]), (app_assoc _ tb), (app_assoc _ n). apply slice_app; rewrite !length_app; lia.
Qed.

Lemma enc_length e : zlen (enc e) = padded_total (zlen e.2).
Proof. apply entry_length. Qed.

Lemma from_kind k : from_u8 (kind_u8 k) = Some k.
Proof. by destruct k. Qed.

Lemma enc_all_cons e es : enc_all (e :: es) = enc e ++ enc_all es.
Proof. done. Qed.
Lemma enc_all_app es es' : enc_all (es ++ es') = enc_all es ++ enc_all es'.
Proof. unfold enc_all. by rewrite fmap_app, concat_app. Qed.

Lemma enc_all_length es : length es ≤ length (enc_all es).
Proof.
  induction es as [|e es IH]; [done|]. rewrite enc_all_cons, length_app. pose proof (enc_length e). pose proof (padded_bounds (zlen e.2)).
  simpl. lia.
Qed.

(** ** Reading entries that were laid out *)

Lemma read_entry_step fuel e pre rest pos end_ out : pos = zlen pre → (pos + zlen (enc e) ≤ end_)%Z → readable e →
  read_entries (S fuel) (pre ++ enc e ++ rest) pos end_ out = read_entries fuel (pre ++ enc e ++ rest) (pos + zlen (enc e)) end_ (out ++ [e]).
Proof.
  intros Hp He [Hr Ht]. destruct (entry_fields (kind_u8 e.1.1) e.1.2 e.2 pre rest pos Hp) as (H1 & H2 & H3 & H4 & H5). fold (enc e) in *. rewrite enc_length in *.
  pose proof (padded_bounds (zlen e.2) ltac:(lia)) as [Hb Hm]. unfold ENTRY_MAX_PAYLOAD in Hr.
  pose proof (Z.div_mod (padded_total (zlen e.2)) 4 ltac:(lia)).
  cbn [read_entries]. rewrite (proj2 (Z.leb_le _ _)) by lia. rewrite H1. cbn [mbind result_bind].
  rewrite from_to_le by lia. rewrite (proj2 (Z.eqb_neq _ _)) by lia.
  rewrite (proj2 (Z.ltb_ge ENTRY_MAX_TOTAL _)) by (unfold ENTRY_MAX_TOTAL, ENTRY_HEADER, ENTRY_MAX_PAYLOAD; lia).
  rewrite (proj2 (Z.ltb_ge end_ _)) by lia. cbn [orb]. rewrite (proj2 (Z.ltb_ge end_ _)) by (unfold ENTRY_HEADER; lia).
  rewrite H2, H3, H4. cbn [mbind result_bind]. rewrite !from_to_le by lia.
  rewrite (proj2 (Z.ltb_ge ENTRY_MAX_PAYLOAD _)) by (unfold ENTRY_MAX_PAYLOAD; lia). rewrite (proj2 (Z.ltb_ge (padded_total _) _)) by (unfold ENTRY_HEADER; lia).
  cbn [orb]. rewrite H5. cbn [mbind result_bind]. f_equal. destruct e as [[k ts] p]. cbn [fst snd].
  replace (from_le [kind_u8 k]) with (kind_u8 k) by (cbn; lia). by rewrite from_kind.
Qed.

Lemma count_entry_step fuel e pre rest pos end_ n : pos = zlen pre → (pos + zlen (enc e) ≤ end_)%Z → readable e →
  count_entries (S fuel) (pre ++ enc e ++ rest) pos end_ n = count_entries fuel (pre ++ enc e ++ rest) (pos + zlen (enc e)) end_ (S n).
Proof.
  intros Hp He [Hr Ht]. destruct (entry_fields (kind_u8 e.1.1) e.1.2 e.2 pre rest pos Hp) as (H1 & _). fold (enc e) in *. rewrite enc_length in *.
  pose proof (padded_bounds (zlen e.2) ltac:(lia)) as [Hb Hm]. unfold ENTRY_MAX_PAYLOAD in Hr.
  pose proof (Z.div_mod (padded_total (zlen e.2)) 4 ltac:(lia)).
  cbn [count_entries]. rewrite (proj2 (Z.leb_le _ _)) by lia. rewrite H1. cbn [mbind result_bind].
  rewrite from_to_le by lia. rewrite (proj2 (Z.eqb_neq _ _)) by lia.
  rewrite (proj2 (Z.ltb_ge ENTRY_MAX_TOTAL _)) by (unfold ENTRY_MAX_TOTAL, ENTRY_HEADER, ENTRY_MAX_PAYLOAD; lia).
  by rewrite (proj2 (Z.ltb_ge end_ _)) by lia.
Qed.

Lemma read_entries_enc es fuel pre rest pos end_ out :
  pos = zlen pre → (pos + zlen (enc_all es) ≤ end_)%Z → Forall readable es →
  read_entries (length es + fuel) (pre ++ enc_all es ++ rest) pos end_ out =
  read_entries fuel (pre ++ enc_all es ++ rest) (pos + zlen (enc_all es)) end_ (out ++ es).
Proof.
  revert pre pos out. induction es as [|e es IH]; intros pre pos out Hp He Hr.
  { simpl. by rewrite app_nil_r, Z.add_0_r. }
  inversion_clear Hr. rewrite enc_all_cons, length_app in *. cbn [length Nat.add].
  rewrite <-(app_assoc (enc e)), read_entry_step by (done || lia).
  rewrite (app_assoc pre), IH by (rewrite ?length_app; done || lia). rewrite <-!app_assoc. f_equal. lia.
Qed.

Lemma count_entries_enc es fuel pre rest pos end_ n :
  pos = zlen pre → (pos + zlen (enc_all es) ≤ end_)%Z → Forall readable es →
  count_entries (length es + fuel) (pre ++ enc_all es ++ rest) pos end_ n =
  count_entries fuel (pre ++ enc_all es ++ rest) (pos + zlen (enc_all es)) end_ (length es + n).
Proof.
  revert pre pos n. induction es as [|e es IH]; intros pre pos n Hp He Hr.
  { simpl. by rewrite Z.add_0_r. }
  inversion_clear Hr. rewrite enc_all_cons, length_app in *. cbn [length Nat.add].
  rewrite <-(app_assoc (enc e)), count_entry_step by (done || lia).
  rewrite (app_assoc pre), IH by (rewrite ?length_app; done || lia). rewrite <-!app_assoc. f_equal; lia.
Qed.

(** A list exhausted. *)
Lemma read_entries_end fuel m pos end_ out : (end_ < pos + 4)%Z → read_entries (S fuel) m pos end_ out = Ok out.
Proof. intros Hp. cbn [read_entries]. by rewrite (proj2 (Z.leb_gt _ _)) by lia. Qed.
Lemma count_entries_end fuel m pos end_ n : (end_ < pos + 4)%Z → count_entries (S fuel) m pos end_ n = Ok n.
Proof. intros Hp. cbn [count_entries]. by rewrite (proj2 (Z.leb_gt _ _)) by lia. Qed.

(** An entry whose payload has 4096 bytes is not read, nor anything after it. *)
Lemma read_entry_full fuel e pre rest pos end_ out : pos = zlen pre → (pos + zlen (enc e) ≤ end_)%Z → zlen e.2 = ENTRY_MAX_PAYLOAD →
  read_entries (S fuel) (pre ++ enc e ++ rest) pos end_ out = Ok out.
Proof.
  intros Hp He Hr. destruct (entry_fields (kind_u8 e.1.1) e.1.2 e.2 pre rest pos Hp) as (H1 & _). fold (enc e) in *. rewrite enc_length in *.
  cbn [read_entries]. rewrite Hr in *. change (padded_total ENTRY_MAX_PAYLOAD) with 4116%Z in *.
  rewrite (proj2 (Z.leb_le _ _)) by lia. rewrite H1. cbn [mbind result_bind]. by rewrite from_to_le.
Qed.

(** ** The header *)

Section laws.
Context `{PrimitiveLaws}.

(** The header with its state replaced, as [write_header_state] and [mark_crash] write it. *)
Definition stamped (m : bytes) (sealed head len : Z) : bytes :=
  let hdr := take 24 m ++ [sealed] ++ to_le 8 head ++ to_le 8 len ++ drop 41 (take 4088 m) in hdr ++ checksum hdr ++ drop 4096 m.

Lemma write_header_state_stamped m head len : write_header_state m head len = stamped m 0 head len.
Proof. done. Qed.

Lemma checksum_length d : length (checksum d) = 8.
Proof. unfold checksum. by rewrite length_take, sha256_length. Qed.

Lemma stamped_hdr_length m s head len : 4096 ≤ length m → length (take 24 m ++ [s] ++ to_le 8 head ++ to_le 8 len ++ drop 41 (take 4088 m)) = 4088.
Proof. intros Hm. rewrite !length_app, !to_le_length, length_drop, !length_take. cbn [length]. lia. Qed.

Lemma stamped_length m s head len : 4096 ≤ length m → length (stamped m s head len) = length m.
Proof. intros Hm. unfold stamped. rewrite length_app, stamped_hdr_length, length_app, checksum_length, length_drop by done. lia. Qed.

Lemma stamped_data m s head len : 4096 ≤ length m → drop 4096 (stamped m s head len) = drop 4096 m.
Proof.
  intros Hm. unfold stamped. rewrite drop_app_ge by (rewrite stamped_hdr_length by done; lia). rewrite stamped_hdr_length by done.
  by rewrite drop_app_length' by (by rewrite checksum_length).
Qed.

Lemma stamped_magic m s head len : 4096 ≤ length m → take 8 m = MAGIC → take 8 (stamped m s head len) = MAGIC.
Proof.
  intros Hm <-. unfold stamped. rewrite <-app_assoc, take_app_le by (rewrite length_take; lia). by rewrite take_take.
Qed.

(** A header before its checksum, read back. *)
Lemma read_header_of hdr data : length hdr = 4088 → take 8 hdr = MAGIC →
  read_header (hdr ++ checksum hdr ++ data) =
  Ok (mk_view (from_le (take 8 (drop 25 hdr))) (Z.min (from_le (take 8 (drop 33 hdr))) (zlen data)) (negb (default 0%Z (hdr !! 24%nat) =? 0)%Z)).
Proof.
  intros Hl Hm. unfold read_header. set (m := hdr ++ _).
  assert (E1 : take 4088 m = hdr) by (unfold m; by rewrite <-Hl, take_app_length).
  assert (E2 : take 8 (drop 4088 m) = checksum hdr).
  { unfold m. rewrite <-Hl, drop_app_length. apply take_app_length'. by rewrite checksum_length. }
  assert (E3 : zlen m = (HEADER_LEN + zlen data)%Z) by (unfold m, HEADER_LEN; rewrite !length_app, checksum_length; lia).
  assert (E4 : take 8 m = MAGIC) by (rewrite <-Hm; unfold m; rewrite take_app_le by lia; done).
  assert (Hin : ∀ n, n + 8 ≤ 4088 → take 8 (drop n m) = take 8 (drop n hdr)).
  { intros n Hn. unfold m. rewrite drop_app_le by lia. rewrite take_app_le by (rewrite length_drop; lia). done. }
  rewrite E4, E1, E2, E3, !Hin by lia. rewrite (bool_decide_eq_true_2 (MAGIC = MAGIC)), (bool_decide_eq_true_2 (checksum hdr = checksum hdr)) by done.
  rewrite (proj2 (Z.leb_le _ _)) by lia. cbn [andb ensure mbind result_bind]. unfold m. rewrite lookup_app_l by lia. do 2 f_equal. lia.
Qed.

(** A stamped header is read back. *)
Lemma read_stamped m s head len : 4096 ≤ length m → take 8 m = MAGIC → (0 ≤ head < 2 ^ 64)%Z → (0 ≤ len < 2 ^ 64)%Z →
  read_header (stamped m s head len) = Ok (mk_view head (Z.min len (zlen m - HEADER_LEN)) (negb (s =? 0)%Z)).
Proof.
  intros Hm Hmagic Hh Hl. unfold stamped. cbv zeta. rewrite read_header_of.
  - assert (Ht : length (take 24 m) = 24) by (rewrite length_take; lia). do 2 f_equal.
    + change 25 with (24 + 1). rewrite drop_app_add' by done. rewrite (drop_app_length' [s] _ 1), take_app_length' by (done || by rewrite to_le_length).
      apply from_to_le. lia.
    + change 33 with (24 + 9). rewrite drop_app_add' by done. change 9 with (1 + 8). rewrite (drop_app_add' [s]) by done.
      rewrite drop_app_length', take_app_length' by (by rewrite to_le_length). rewrite from_to_le, length_drop by lia. f_equal. by rewrite Nat2Z.inj_sub.
    + by rewrite (lookup_app_r (take 24 m)), Ht by lia.
  - by apply stamped_hdr_length.
  - rewrite <-Hmagic, take_app_le by (rewrite length_take; lia). by rewrite take_take.
Qed.

(** What a readable header says. *)
Lemma read_header_ok m hv : read_header m = Ok hv →
  (HEADER_LEN ≤ zlen m)%Z ∧ take 8 m = MAGIC ∧ (hv_len hv ≤ zlen m - HEADER_LEN)%Z ∧ (all_bytes m → 0 ≤ hv_len hv)%Z.
Proof.
  unfold read_header. intros Hr. inv_ok. repeat match goal with E : bool_decide _ = true |- _ => apply bool_decide_eq_true in E end.
  repeat split; [lia|done|cbn; lia|]. intros Hb. cbn. apply Z.min_glb; [|lia].
  pose proof (from_le_range (take 8 (drop 33 m)) ltac:(by apply all_bytes_take, all_bytes_drop)). lia.
Qed.

(** ** A recorder that has not wrapped *)

(** The map holds exactly these entries. *)
Definition holds (m : bytes) (es : list entry) : Prop := ∃ hdr rest,
  m = hdr ++ enc_all es ++ rest ∧ length hdr = 4096 ∧ take 8 m = MAGIC ∧ (zlen m < 2 ^ 64)%Z ∧
  read_header m = Ok (mk_view (HEADER_LEN + zlen (enc_all es)) (zlen (enc_all es)) false).

Lemma holds_length m es : holds m es → (4096 + zlen (enc_all es) ≤ zlen m)%Z.
Proof. intros (hdr & rest & -> & Hh & _). rewrite !length_app. lia. Qed.

Lemma stamped_split m hdr data s head len : m = hdr ++ data → length hdr = 4096 → ∃ hdr', stamped m s head len = hdr' ++ data ∧ length hdr' = 4096.
Proof.
  intros -> Hh. assert (Hm : 4096 ≤ length (hdr ++ data)) by (rewrite length_app, Hh; apply Nat.le_add_r).
  pose proof (stamped_length _ s head len Hm) as Hl. pose proof (stamped_data _ s head len Hm) as Hd. rewrite (drop_app_length' hdr data 4096) in Hd by done.
  revert Hl Hd. generalize (stamped (hdr ++ data) s head len). intros x Hl Hd.
  exists (take 4096 x). split; [by rewrite <-Hd, take_drop|]. rewrite length_take, Hl. by apply Nat.min_l.
Qed.

Lemma holds_stamped m hdr es rest : m = hdr ++ enc_all es ++ rest → length hdr = 4096 → take 8 m = MAGIC → (zlen m < 2 ^ 64)%Z →
  holds (write_header_state m (HEADER_LEN + zlen (enc_all es)) (zlen (enc_all es))) es.
Proof.
  intros Hm Hh Hmagic Hlt. assert (Hl : zlen m = (4096 + zlen (enc_all es) + zlen rest)%Z) by (rewrite Hm, !length_app, Hh; lia).
  assert (Hle : 4096 ≤ length m) by lia. rewrite write_header_state_stamped.
  destruct (stamped_split m hdr _ 0 (HEADER_LEN + zlen (enc_all es)) (zlen (enc_all es)) Hm Hh) as (hdr' & E & Hh').
  exists hdr', rest. repeat split; [done|done|by apply stamped_magic|by rewrite stamped_length|].
  rewrite read_stamped by (done || unfold HEADER_LEN; lia). do 2 f_equal. unfold HEADER_LEN. lia.
Qed.

Lemma laid_out_read m hdr es rest h s : m = hdr ++ enc_all es ++ rest → length hdr = 4096 → Forall readable es →
  read_header m = Ok (mk_view h (zlen (enc_all es)) s) →
  read_all m = Ok es ∧ info m = Ok (mk_info (zlen m - HEADER_LEN) (zlen (enc_all es)) (length es) s).
Proof.
  intros Hm Hh Hes Hr. unfold read_all, info. rewrite Hr. cbn [mbind result_bind hv_len hv_sealed].
  pose proof (enc_all_length es) as Hle. assert (Hp : HEADER_LEN = zlen hdr) by (by rewrite Hh).
  destruct (Nat.le_exists_sub _ _ Hle) as (d & Hd & _). rewrite Nat2Z.id.
  replace (S (length (enc_all es))) with (length es + S d) by lia. rewrite Hm. split.
  - rewrite read_entries_enc by (done || lia). by rewrite read_entries_end by lia.
  - rewrite count_entries_enc by (done || lia). rewrite count_entries_end by lia. cbn [mbind result_bind]. do 2 f_equal. lia.
Qed.

Lemma holds_read m es : holds m es → Forall readable es → read_all m = Ok es ∧ info m = Ok (mk_info (zlen m - HEADER_LEN) (zlen (enc_all es)) (length es) false).
Proof. intros (hdr & rest & Hm & Hh & _ & _ & Hr) Hes. by eapply laid_out_read. Qed.

Lemma record_ok m es e : holds m es → (zlen e.2 ≤ ENTRY_MAX_PAYLOAD)%Z → (4096 + zlen (enc_all es) + zlen (enc e) ≤ zlen m)%Z →
  ∃ m', record_bytes e.1.2 e.1.1 e.2 m = Ok m' ∧ holds m' (es ++ [e]) ∧ length m' = length m.
Proof.
  intros (hdr & rest & Hm & Hh & Hmagic & Hlt & Hr) Hpay Hfit. unfold record_bytes. rewrite (proj2 (Z.leb_le _ _)), Hr by done.
  cbn [ensure mbind result_bind negb hv_sealed hv_head hv_len]. fold (enc e). rewrite Z.max_l by (unfold HEADER_LEN; lia).
  rewrite (proj2 (Z.leb_le _ u64_max)) by (unfold HEADER_LEN, u64_max; lia). cbn [mbind result_bind].
  rewrite (proj2 (Z.leb_le _ (zlen m))) by (unfold HEADER_LEN; lia). cbn [negb].
  assert (Hrest : length (enc e) ≤ length rest) by (rewrite Hm, !length_app, Hh in Hfit; lia).
  assert (E : m = (hdr ++ enc_all es) ++ take (length (enc e)) rest ++ drop (length (enc e)) rest) by (by rewrite take_drop, <-app_assoc).
  set (m1 := (hdr ++ enc_all es) ++ enc e ++ drop (length (enc e)) rest).
  assert (W : write_at m (HEADER_LEN + zlen (enc_all es)) (enc e) = Ok m1).
  { rewrite E. apply write_at_app; rewrite ?length_app, ?length_take, ?Hh; unfold HEADER_LEN; lia. }
  rewrite W. cbn [mbind result_bind].
  assert (Hl1 : length m1 = length m).
  { unfold m1. rewrite E, !length_app, length_take. lia. }
  assert (E1 : m1 = hdr ++ enc_all (es ++ [e]) ++ drop (length (enc e)) rest).
  { unfold m1. by rewrite enc_all_app, enc_all_cons, app_nil_r, <-!app_assoc. }
  eexists. split; [done|]. rewrite Z.min_l by (unfold HEADER_LEN; lia). replace (HEADER_LEN + zlen (enc_all es) + zlen (enc e))%Z with (HEADER_LEN + zlen (enc_all (es ++ [e])))%Z
    by (rewrite enc_all_app, length_app, enc_all_cons, app_nil_r; lia).
  replace (zlen (enc_all es) + zlen (enc e))%Z with (zlen (enc_all (es ++ [e])))
    by (rewrite enc_all_app, length_app, enc_all_cons, app_nil_r; lia).
  split; [|rewrite write_header_state_stamped, stamped_length by lia; done].
  apply (holds_stamped _ hdr _ (drop (length (enc e)) rest)); [done|done| |by rewrite Hl1].
  rewrite <-Hmagic, Hm, E1, !take_app_le by lia. done.
Qed.

(** What is recorded, one after the other. *)
Fixpoint record_each (es : list entry) (m : bytes) : may_fail bytes :=
  match es with [] => Ok m | e :: es => m ← record_bytes e.1.2 e.1.1 e.2 m; record_each es m end.

Lemma record_each_ok es es0 m : holds m es0 → Forall (λ e : entry, zlen e.2 ≤ ENTRY_MAX_PAYLOAD)%Z es → (4096 + zlen (enc_all es0) + zlen (enc_all es) ≤ zlen m)%Z →
  ∃ m', record_each es m = Ok m' ∧ holds m' (es0 ++ es) ∧ length m' = length m.
Proof.
  revert es0 m. induction es as [|e es IH]; intros es0 m Hm Hes Hfit.
  { exists m. by rewrite app_nil_r. }
  inversion_clear Hes. rewrite enc_all_cons, length_app in Hfit. destruct (record_ok m es0 e Hm) as (m1 & E & Hm1 & Hl); [done|lia|].
  destruct (IH _ m1 Hm1) as (m' & E' & Hm' & Hl'); [done|rewrite enc_all_app, length_app, enc_all_cons, app_nil_r; lia|].
  exists m'. cbn [record_each]. rewrite E. cbn [mbind result_bind]. rewrite E', <-app_assoc in *. by rewrite Hl'.
Qed.

(** ** The edges *)

Lemma fresh_header cap : (0 ≤ cap)%Z → (HEADER_LEN + cap < 2 ^ 64)%Z → holds (write_header (Z.to_nat (HEADER_LEN + cap)) cap) [].
Proof.
  intros Hc Hlt. unfold write_header. set (hdr := MAGIC ++ _).
  assert (Hl : length hdr = 4088) by (unfold hdr; rewrite !length_app, !to_le_length, length_replicate; done).
  set (data := replicate _ 0%Z). assert (Hd : zlen data = cap) by (unfold data, HEADER_LEN; rewrite length_replicate; lia).
  assert (Hm : take 8 hdr = MAGIC) by done.
  exists (hdr ++ checksum hdr), data. split; [by rewrite <-!app_assoc|]. split; [by rewrite length_app, Hl, checksum_length|].
  split; [by rewrite take_app_le by lia|]. split; [rewrite !length_app, checksum_length, Hl; unfold HEADER_LEN in Hlt; lia|].
  rewrite read_header_of by done. change (from_le (take 8 (drop 25 hdr))) with HEADER_LEN.
  change (from_le (take 8 (drop 33 hdr))) with 0%Z. change (hdr !! 24%nat) with (Some 0%Z). rewrite Z.min_l by lia. done.
Qed.

Lemma write_header_length total cap : 4096 ≤ total → length (write_header total cap) = total.
Proof.
  intros Ht. unfold write_header. rewrite !length_app, checksum_length, !length_replicate, !to_le_length.
  change (length MAGIC + _) with 4088. lia.
Qed.

(** C32: what a fresh recorder is given, in records of less than 4096 bytes that fit its capacity, is read back in
    order, unchanged, and counted. *)
Theorem recorded_then_read cap es :
  (0 ≤ cap)%Z → (HEADER_LEN + cap < 2 ^ 64)%Z → Forall readable es → (zlen (enc_all es) ≤ cap)%Z →
  ∃ m, record_each es (write_header (Z.to_nat (HEADER_LEN + cap)) cap) = Ok m ∧ read_all m = Ok es ∧
       info m = Ok (mk_info cap (zlen (enc_all es)) (length es) false).
Proof.
  intros Hc Hlt Hes Hfit. set (m0 := write_header _ cap). assert (Hm0 : holds m0 []) by (by apply fresh_header).
  assert (Hl : zlen m0 = (HEADER_LEN + cap)%Z).
  { unfold m0, HEADER_LEN. rewrite write_header_length; lia. }
  destruct (record_each_ok es [] m0 Hm0) as (m & E & Hm & Hlm).
  - eapply Forall_impl; [exact Hes|]. intros e [? _]. lia.
  - rewrite Hl. unfold HEADER_LEN. cbn [enc_all fmap list_fmap concat length]. lia.
  - exists m. split; [done|]. destruct (holds_read m es Hm Hes) as [Hr Hi]. split; [done|]. rewrite Hi, Hlm, Hl. do 2 f_equal. lia.
Qed.

(** *** Reading any contents *)

Lemma word_range m a b w : all_bytes m → slice m a b = Ok w → (0 ≤ from_le w)%Z.
Proof.
  unfold slice. destruct (_ && _); [|done]. intros Hm [= <-].
  pose proof (from_le_range (take (Z.to_nat (b - a)) (drop (Z.to_nat a) m)) ltac:(by apply all_bytes_take, all_bytes_drop)). lia.
Qed.

Lemma read_entries_total fuel m pos end_ out : all_bytes m → (0 ≤ pos)%Z → (end_ ≤ zlen m)%Z → (end_ - pos < Z.of_nat fuel)%Z → (0 < fuel)%nat →
  ∃ out', read_entries fuel m pos end_ out = Ok (out ++ out').
Proof.
  intros Hm. revert pos out. induction fuel as [|fuel IH]; intros pos out Hp He Hf Hf0; [lia|]. cbn [read_entries].
  destruct (Z.leb_spec (pos + 4) end_); [|exists []; by rewrite app_nil_r].
  destruct (slice_ok m pos (pos + 4)) as (w & Ew & _); [lia..|]. rewrite Ew. cbn [mbind result_bind].
  pose proof (word_range _ _ _ _ Hm Ew) as Hw.
  destruct (_ || _) eqn:Hb; [exists []; by rewrite app_nil_r|]. apply orb_false_iff in Hb as [Hb Hb3]. apply orb_false_iff in Hb as [Hb1 Hb2].
  apply Z.eqb_neq in Hb1. apply Z.ltb_ge in Hb2, Hb3.
  destruct (Z.ltb_spec end_ (pos + ENTRY_HEADER)) as [|Hb4]; [exists []; by rewrite app_nil_r|]. unfold ENTRY_HEADER in Hb4.
  destruct (slice_ok m (pos + 4) (pos + 5)) as (k & -> & _); [lia..|].
  destruct (slice_ok m (pos + 5) (pos + 13)) as (ts & -> & _); [lia..|].
  destruct (slice_ok m (pos + 13) (pos + 17)) as (pl & Epl & _); [lia..|]. rewrite Epl. cbn [mbind result_bind].
  pose proof (word_range _ _ _ _ Hm Epl) as Hpl.
  destruct (_ || _) eqn:Hb; [exists []; by rewrite app_nil_r|]. apply orb_false_iff in Hb as [Hb5 Hb6]. apply Z.ltb_ge in Hb5, Hb6. unfold ENTRY_HEADER in Hb6.
  destruct (slice_ok m (pos + ENTRY_HEADER) (pos + ENTRY_HEADER + from_le pl)) as (p & -> & _); [unfold ENTRY_HEADER; lia..|]. cbn [mbind result_bind].
  destruct (IH (pos + from_le w)%Z (out ++ keep_known (from_u8 (from_le k)) (from_le ts) p)) as (out' & ->); [lia..|].
  eexists. by rewrite <-app_assoc.
Qed.

Lemma count_entries_total fuel m pos end_ n : all_bytes m → (0 ≤ pos)%Z → (end_ ≤ zlen m)%Z → (end_ - pos < Z.of_nat fuel)%Z → (0 < fuel)%nat →
  ∃ n', count_entries fuel m pos end_ n = Ok n'.
Proof.
  intros Hm. revert pos n. induction fuel as [|fuel IH]; intros pos n Hp He Hf Hf0; [lia|]. cbn [count_entries].
  destruct (Z.leb_spec (pos + 4) end_); [|by eexists].
  destruct (slice_ok m pos (pos + 4)) as (w & Ew & _); [lia..|]. rewrite Ew. cbn [mbind result_bind].
  pose proof (word_range _ _ _ _ Hm Ew) as Hw.
  destruct (_ || _) eqn:Hb; [by eexists|]. apply orb_false_iff in Hb as [Hb Hb3]. apply orb_false_iff in Hb as [Hb1 Hb2].
  apply Z.eqb_neq in Hb1. apply Z.ltb_ge in Hb2, Hb3. apply IH; lia.
Qed.

(** Whatever bytes a map has, forged lengths included, if its header is accepted then reading its records and
    counting them end, stay inside the map (no access panics) and succeed. *)
Theorem read_any_map m : all_bytes m → header_valid m = true → is_ok (read_all m) = true ∧ is_ok (info m) = true.
Proof.
  intros Hm Hv. unfold header_valid in Hv. unfold read_all, info. destruct (read_header m) as [hv|] eqn:Hr; [|done]. cbn [mbind result_bind].
  destruct (read_header_ok m hv Hr) as (Hl & _ & Hlen & Hpos). specialize (Hpos Hm). unfold HEADER_LEN in *.
  destruct (read_entries_total (S (Z.to_nat (hv_len hv))) m 4096 (4096 + hv_len hv) [] Hm) as (out & ->); [lia..|].
  destruct (count_entries_total (S (Z.to_nat (hv_len hv))) m 4096 (4096 + hv_len hv) 0 Hm) as (n & ->); [lia..|]. done.
Qed.

(** *** The edges *)

(** An exactly full map: the next record panics, on the mark it writes past the end. *)
Theorem full_map_panics m es ts k p : holds m es → zlen m = (HEADER_LEN + zlen (enc_all es))%Z → (zlen p ≤ ENTRY_MAX_PAYLOAD)%Z →
  (zlen m + 4200 < 2 ^ 64)%Z → record_bytes ts k p m = Err Panic.
Proof.
  intros (hdr & rest & _ & _ & _ & Hlt & Hr) Hfull Hp Hroom. unfold record_bytes. rewrite (proj2 (Z.leb_le _ _)), Hr by done.
  cbn [ensure mbind result_bind negb hv_sealed hv_head hv_len]. change (entry_bytes (kind_u8 k) ts p) with (enc (k, ts, p)).
  pose proof (enc_length (k, ts, p)) as He. pose proof (padded_bounds (zlen p) ltac:(lia)) as [Hb _]. cbn [snd] in He. rewrite <-He in Hb.
  rewrite Z.max_l by (unfold HEADER_LEN; lia). unfold ENTRY_MAX_PAYLOAD in Hp.
  rewrite (proj2 (Z.leb_le _ u64_max)) by (unfold u64_max; lia). cbn [mbind result_bind].
  rewrite (proj2 (Z.leb_gt _ (zlen m))) by lia. cbn [negb]. rewrite write_at_outside by (cbn [length]; lia). done.
Qed.

(** A record of 4096 bytes is stored, and hides itself and every later record from the reader. *)
Theorem full_payload_hides m es e es' : holds m (es ++ e :: es') → Forall readable es → zlen e.2 = ENTRY_MAX_PAYLOAD → read_all m = Ok es.
Proof.
  intros (hdr & rest & Hm & Hh & _ & _ & Hr) Hes He. unfold read_all. rewrite Hr. cbn [mbind result_bind hv_len]. rewrite Nat2Z.id.
  assert (Hp : HEADER_LEN = zlen hdr) by (by rewrite Hh). rewrite enc_all_app, enc_all_cons, <-!app_assoc in Hm. rewrite enc_all_app, enc_all_cons, !length_app.
  pose proof (enc_all_length es) as Hle. destruct (Nat.le_exists_sub _ _ Hle) as (d & Hd & _).
  replace (S (length (enc_all es) + (length (enc e) + length (enc_all es')))) with (length es + S (d + length (enc e) + length (enc_all es'))) by lia.
  rewrite Hm, read_entries_enc by (done || lia). rewrite (app_assoc hdr), read_entry_full by (rewrite ?length_app; done || lia). done.
Qed.

Lemma clear_empty m : 4096 ≤ length m → take 8 m = MAGIC → (zlen m < 2 ^ 64)%Z → is_sealed (clear m) = false ∧ read_all (clear m) = Ok [].
Proof.
  intros Hm Hmagic Hlt. set (m1 := take 4096 m ++ replicate (length m - 4096) 0%Z).
  assert (Hh : length (take 4096 m) = 4096) by (rewrite length_take; lia).
  assert (Hl : length m1 = length m) by (unfold m1; rewrite length_app, Hh, length_replicate; lia).
  assert (H1 : holds (clear m) []).
  { change (clear m) with (write_header_state m1 (HEADER_LEN + zlen (enc_all [])) (zlen (enc_all []))).
    apply (holds_stamped _ (take 4096 m) _ (replicate (length m - 4096) 0%Z)); [done|done| |by rewrite Hl].
    unfold m1. rewrite <-Hmagic, take_app_le, take_take by lia. f_equal. }
  split; [|by apply holds_read]. destruct H1 as (hdr & rest & _ & _ & _ & _ & Hr). unfold is_sealed. by rewrite Hr.
Qed.

(** A crash mark keeps what was recorded, with itself as the last record; the sealed map takes nothing more, until
    it is cleared, which empties and unseals it. *)
Theorem crash_seals m es now reason : holds m es → Forall readable (es ++ [(Crash, now, reason)]) →
  (4096 + zlen (enc_all (es ++ [(Crash, now, reason)])) ≤ zlen m)%Z →
  ∃ m', mark_crash now reason m = Ok m' ∧ is_sealed m' = true ∧ read_all m' = Ok (es ++ [(Crash, now, reason)]) ∧
    (∀ ts k p, is_ok (record_bytes ts k p m') = false) ∧ is_sealed (clear m') = false ∧ read_all (clear m') = Ok [].
Proof.
  intros Hm Hes Hfit. pose proof (proj2 (proj1 (Forall_app _ _ _) Hes)) as He. inversion_clear He as [|? ? [Hp _] _].
  rewrite enc_all_app, length_app, enc_all_cons, app_nil_r in Hfit.
  destruct (record_ok m es (Crash, now, reason) Hm) as (m1 & E & Hm1 & Hl); [cbn in *; lia|lia|].
  pose proof (holds_length _ _ Hm1) as Hlen. destruct Hm1 as (hdr & rest & E1 & Hh & Hmagic & Hlt & Hr).
  set (head := (HEADER_LEN + zlen (enc_all (es ++ [(Crash, now, reason)])))%Z) in *.
  set (len := zlen (enc_all (es ++ [(Crash, now, reason)]))) in *. assert (Hle : 4096 ≤ length m1) by lia.
  assert (Hst : read_header (stamped m1 1 head len) = Ok (mk_view head len true)).
  { rewrite read_stamped by (done || unfold head, HEADER_LEN; lia). unfold HEADER_LEN. rewrite Z.min_l by lia. done. }
  destruct (stamped_split m1 hdr _ 1 head len E1 Hh) as (hdr' & E2 & Hh').
  exists (stamped m1 1 head len). split.
  { unfold mark_crash. cbn [fst snd] in E. rewrite E. cbn [mbind result_bind]. rewrite Hr. done. }
  unfold is_sealed at 1. rewrite Hst. split; [done|]. split; [by eapply laid_out_read|].
  split. { intros ts k p. unfold record_bytes. rewrite Hst. destruct (zlen p <=? ENTRY_MAX_PAYLOAD)%Z; done. }
  pose proof (clear_empty (stamped m1 1 head len)) as Hc. rewrite stamped_length in Hc by done.
  destruct Hc as [Hc1 Hc2]; [done|by apply stamped_magic|done|done].
Qed.
End laws.

(** A dump is opened with the same key. The behaviour relied on is that of an authenticated cipher. *)
Section dumps.
Context `{Primitives}.
Hypothesis p1305_roundtrip : ∀ k n pt ct aad, p1305_encrypt k n pt aad = Some ct → p1305_decrypt k n ct aad = Some pt.

Theorem dump_roundtrip nonce r d : length nonce = 12 → dump_encrypted nonce r = Ok d → ∃ plain, dump_plain (mmap r) = Ok plain ∧ decrypt_dump d r = Ok plain.
Proof.
  intros Hn Hd. unfold dump_encrypted in Hd. destruct (dump_plain (mmap r)) as [plain|] eqn:Hp; [|done]. cbn [mbind result_bind] in Hd.
  destruct (p1305_encrypt (rec_key r) nonce plain []) as [ct|] eqn:He; [|done]. cbn [ok_or mbind result_bind] in Hd.
  assert (d = DUMP_MAGIC ++ nonce ++ ct) as -> by congruence. exists plain. split; [done|].
  unfold decrypt_dump. rewrite !length_app, Hn. change (length DUMP_MAGIC) with 8.
  rewrite (proj2 (Nat.ltb_ge _ _)) by (unfold DUMP_HEADER_LEN; lia). change 20 with (8 + 12) at 1.
  rewrite (take_app_length' DUMP_MAGIC), (drop_app_length' DUMP_MAGIC _ 8), (drop_app_add' DUMP_MAGIC _ 8 12) by done.
  rewrite bool_decide_eq_true_2 by done. cbn [negb andb ensure mbind result_bind].
  rewrite take_app_length', drop_app_length' by done. by rewrite (p1305_roundtrip _ _ _ _ _ He).
Qed.
End dumps.

(** ** Examples *)

Module RecorderExamples.
Import Toy.

Definition two : list entry := [(App, 7%Z, lit "started"); (Network, 9%Z, lit "peer lost")].

Lemma recorded_then_read_witness : ∃ m, record_each two (write_header (Z.to_nat (HEADER_LEN + 65536)) 65536) = Ok m ∧ read_all m = Ok two.
Proof.
  destruct (recorded_then_read 65536 two) as (m & Hm & Hr & _).
  - lia.
  - by unfold HEADER_LEN.
  - repeat constructor; cbn; unfold ENTRY_MAX_PAYLOAD; lia.
  - vm_compute. discriminate.
  - exists m. split; assumption.
Defined.

(** A map whose state was forged: a length beyond its end, and an entry that claims more than there is. *)
Definition forged : bytes := stamped (write_header 4200 104) 0 0 1000000.

Lemma read_any_map_witness : header_valid forged = true ∧ is_ok (read_all forged) = true.
Proof.
  assert (Hb : all_bytes forged) by (apply (bool_decide_unpack _); by vm_compute).
  assert (Hv : header_valid forged = true) by (by vm_compute).
  split; [exact Hv|]. exact (proj1 (read_any_map forged Hb Hv)).
Defined.
End RecorderExamples.
