(* ===== verification/Ring.v ===== *)
(** The shared ring of src/telemetry-core/src/ring.rs: a mapped region with a
    head and a tail cursor that only grow, the consumer that reads the entries
    between them, and the registry of rings by address. What the writer leaves
    in the region is stated by [laid], from the description at the top of that
    file. An access outside the map and an overflow panic. *)

From S2P Require Import Prelude RustStr Primitives Recorder RecorderLaws.

(** Source: src/telemetry-core/src/ring.rs:31-31 (RING_HEADER_LEN) *)
Definition RING_HEADER_LEN : Z := 4096.
(** Source: src/telemetry-core/src/ring.rs:32-32 (RING_ENTRY_MAX_PAYLOAD) *)
Definition RING_ENTRY_MAX_PAYLOAD : Z := 4096.
(** Source: src/telemetry-core/src/ring.rs:33-33 (RING_ENTRY_HEADER) *)
Definition RING_ENTRY_HEADER : Z := 4 + 1 + 8 + 4.
(** Source: src/telemetry-core/src/ring.rs:47-47 (MAX_RING_CAPACITY) *)
Definition MAX_RING_CAPACITY : Z := 256 * 1024 * 1024.
(** Source: src/telemetry-core/src/ring.rs:48-48 (MAX_REGISTERED_RINGS) *)
Definition MAX_REGISTERED_RINGS : nat := 32.
(** Source: src/telemetry-core/src/ring.rs:162-163 (drain, RING_ENTRY_MAX_TOTAL) *)
Definition RING_ENTRY_MAX_TOTAL : Z := Z.land (RING_ENTRY_HEADER + RING_ENTRY_MAX_PAYLOAD + 3) (Z.lnot 3).

(** Source: src/telemetry-core/src/ring.rs:37-40 (DrainedEntry) *)
Record DrainedEntry := mk_drained { de_kind : Z; de_payload : bytes }.

(** Source: src/telemetry-core/src/ring.rs:42-45 (SharedRing) *)
Record SharedRing := mk_ring { map : bytes; capacity : Z }.

(** Source: src/telemetry-core/src/ring.rs:201-203 (read_u64) *)
Definition read_u64 (m : bytes) (off : Z) : may_fail Z := w ← slice m off (off + 8); Ok (from_le w).
(** Source: src/telemetry-core/src/ring.rs:205-207 (read_u32) *)
Definition read_u32 (m : bytes) (off : Z) : may_fail Z := w ← slice m off (off + 4); Ok (from_le w).

(** Source: src/telemetry-core/src/ring.rs:59-59 (init, cap) *)
Definition rounded (capacity_bytes : Z) : Z := ((Z.max capacity_bytes (64 * 1024) + 4095) / 4096 * 4096)%Z.

(** The file there may be, and what it was mapped to.
    Source: src/telemetry-core/src/ring.rs:53-114 (init) *)
Definition init (file : option bytes) (capacity_bytes : Z) : may_fail SharedRing :=
  _ ← ensure (negb (MAX_RING_CAPACITY <? capacity_bytes)%Z) "ring capacity too large";
  let cap := rounded capacity_bytes in
  let content := default [] file in
  let total := (RING_HEADER_LEN + cap)%Z in
  let existing_cap := if (RING_HEADER_LEN + 4 <=? zlen content)%Z then from_le (take 4 (drop 16 content)) else 0%Z in
  _ ← ensure (negb (negb (existing_cap =? 0)%Z && negb (existing_cap =? cap)%Z)) "ring capacity shrink not supported";
  let m := take (Z.to_nat total) content ++ replicate (Z.to_nat total - length content) 0%Z in
  existing ← read_u64 m 0;
  if (existing =? 0)%Z then
    m ← write_at m 0 (to_le 8 0);
    m ← write_at m 8 (to_le 8 0);
    m ← write_at m 16 (to_le 4 cap);
    Ok (mk_ring m cap)
  else Ok (mk_ring m cap).

(** Source: src/telemetry-core/src/ring.rs:125-127 (head) *)
Definition head (r : SharedRing) : may_fail Z := read_u64 (map r) 0.

(** Source: src/telemetry-core/src/ring.rs:130-140 (advance_head) *)
Definition advance_head (new_head : Z) (r : SharedRing) : may_fail SharedRing :=
  old ← head r;
  _ ← ensure (negb (new_head <? old)%Z) "head rewind";
  _ ← ensure (negb (capacity r <? new_head - old)%Z) "head advanced beyond capacity";
  m ← write_at (map r) 0 (to_le 8 new_head);
  Ok (mk_ring m (capacity r)).

(** Where the consumer starts.
    Source: src/telemetry-core/src/ring.rs:147-151 (drain, tail) *)
Definition start_tail (cap tail head : Z) : Z :=
  if (head <? tail)%Z then head
  else if (cap <? head)%Z && (tail <? head - cap)%Z then (head - cap)%Z else tail.

Definition add_u64 (a b : Z) : may_fail Z := if (a + b <=? u64_max)%Z then Ok (a + b)%Z else Err Panic.

(** Source: src/telemetry-core/src/ring.rs:153-188 (drain, loop) *)
Fixpoint drain_loop (fuel : nat) (m : bytes) (cap tail head : Z) (out : list DrainedEntry) : may_fail (Z * list DrainedEntry) :=
  match fuel with
  | O => err "out of fuel"
  | S fuel =>
      if (tail <? head)%Z then
        let idx := (tail mod cap)%Z in
        len_word ← read_u32 m (RING_HEADER_LEN + idx);
        if (len_word =? 0)%Z then
          tail ← add_u64 tail (cap - idx);
          drain_loop fuel m cap tail head out
        else
        let total := len_word in
        if negb ((RING_ENTRY_HEADER <=? total)%Z && (total <=? RING_ENTRY_MAX_TOTAL)%Z) || (cap <? idx + total)%Z then
          tail ← add_u64 tail 4;
          drain_loop fuel m cap tail head out
        else
        let base := (RING_HEADER_LEN + idx)%Z in
        kind ← slice m (base + 4) (base + 5);
        payload_len ← read_u32 m (base + 13);
        let start := (base + RING_ENTRY_HEADER)%Z in
        payload ← (if (payload_len <=? RING_ENTRY_MAX_PAYLOAD)%Z && (payload_len <=? sat_sub total RING_ENTRY_HEADER)%Z &&
                      (start + payload_len <=? zlen m)%Z
                   then slice m start (start + payload_len) else Ok []);
        tail ← add_u64 tail total;
        drain_loop fuel m cap tail head (out ++ [mk_drained (from_le kind) payload])
      else Ok (tail, out)
  end.

(** Source: src/telemetry-core/src/ring.rs:144-191 (drain) *)
Definition drain (r : SharedRing) : may_fail (SharedRing * list DrainedEntry) :=
  tail ← read_u64 (map r) 8;
  head ← head r;
  let tail := start_tail (capacity r) tail head in
  '(tail, out) ← drain_loop (S (Z.to_nat (head - tail))) (map r) (capacity r) tail head [];
  m ← write_at (map r) 8 (to_le 8 tail);
  Ok (mk_ring m (capacity r), out).

(** Source: src/telemetry-core/src/ring.rs:194-198 (pending) *)
Definition pending (r : SharedRing) : may_fail Z :=
  head ← head r;
  tail ← read_u64 (map r) 8;
  Ok (Z.min (sat_sub head tail) (capacity r)).

(** ** The registry *)

Definition rings : Type := gmap Z SharedRing.

(** Source: src/telemetry-core/src/ring.rs:224-235 (register_ring) *)
Definition register_ring (addr : Z) (file : option bytes) (capacity_bytes : Z) (reg : rings) : may_fail (rings * Z) :=
  _ ← ensure (negb (MAX_REGISTERED_RINGS <=? size reg)) "too many registered rings";
  ring ← init file capacity_bytes;
  Ok (<[addr := ring]> reg, addr).

(** Source: src/telemetry-core/src/ring.rs:238-244 (unregister_ring) *)
Definition unregister_ring (addr : Z) (reg : rings) : rings := delete addr reg.

(** Source: src/telemetry-core/src/ring.rs:247-256 (ffi_advance_head) *)
Definition ffi_advance_head (addr new_head : Z) (reg : rings) : may_fail rings :=
  ring ← ok_or (Fail "unknown ring addr") (reg !! addr);
  ring ← advance_head new_head ring;
  Ok (<[addr := ring]> reg).

(** Source: src/telemetry-core/src/ring.rs:259-275 (ffi_drain) *)
Definition ffi_drain (addr : Z) (reg : rings) : may_fail (rings * list DrainedEntry) :=
  ring ← ok_or (Fail "unknown ring addr") (reg !! addr);
  '(ring, out) ← drain ring;
  Ok (<[addr := ring]> reg, out).

(** Source: src/telemetry-core/src/ring.rs:278-287 (ffi_pending) *)
Definition ffi_pending (addr : Z) (reg : rings) : may_fail Z :=
  ring ← ok_or (Fail "unknown ring addr") (reg !! addr);
  pending ring.

(** ** What the writer leaves *)

(** An entry as Dart lays it out: kind, time, payload. *)
Definition ring_entry : Type := Z * Z * bytes.

(** Between two cursors the region holds these entries: each at its cursor modulo the capacity, not across the end;
    a zero word at the cursor stands for the rest of the region, up to the end.
    Source: src/telemetry-core/src/ring.rs:8-30 (shared memory layout) *)
Inductive laid (m : bytes) (cap : Z) : Z → Z → list ring_entry → Prop :=
| laid_end h : laid m cap h h []
| laid_entry t h k ts p es pre post :
    m = pre ++ entry_bytes k ts p ++ post → zlen pre = (RING_HEADER_LEN + t mod cap)%Z → (t mod cap + padded_total (zlen p) ≤ cap)%Z →
    is_byte k → (zlen p ≤ RING_ENTRY_MAX_PAYLOAD)%Z →
    laid m cap (t + padded_total (zlen p)) h es → laid m cap t h ((k, ts, p) :: es)
| laid_wrap t h es :
    (t < h)%Z → read_u32 m (RING_HEADER_LEN + t mod cap) = Ok 0%Z → laid m cap (t + (cap - t mod cap)) h es → laid m cap t h es.

Definition drained_of (e : ring_entry) : DrainedEntry := mk_drained e.1.1 e.2.

Section laws.
Context (m : bytes) (cap : Z) (cap_pos : (0 < cap)%Z) (map_len : zlen m = (RING_HEADER_LEN + cap)%Z).

Lemma laid_le t h es : laid m cap t h es → (t ≤ h)%Z.
Proof.
  induction 1 as [|t h k ts p es pre post _ _ _ _ _ _ IH|t h es _ _ _ IH]; [lia| |pose proof (Z.mod_pos_bound t cap cap_pos); lia].
  pose proof (padded_bounds (zlen p)). lia.
Qed.

Lemma add_u64_ok a b : (a + b ≤ u64_max)%Z → add_u64 a b = Ok (a + b)%Z.
Proof. intros Hl. unfold add_u64. by rewrite (proj2 (Z.leb_le _ _)). Qed.

(** One entry. *)
Lemma drain_entry fuel t h k ts p pre post out :
  m = pre ++ entry_bytes k ts p ++ post → zlen pre = (RING_HEADER_LEN + t mod cap)%Z → (t mod cap + padded_total (zlen p) ≤ cap)%Z →
  is_byte k → (zlen p ≤ RING_ENTRY_MAX_PAYLOAD)%Z → (t + padded_total (zlen p) ≤ h)%Z → (h ≤ u64_max)%Z →
  drain_loop (S fuel) m cap t h out = drain_loop fuel m cap (t + padded_total (zlen p)) h (out ++ [mk_drained k p]).
Proof.
  intros Hm Hpre Hfit Hk Hp Hh Hmax. destruct (padded_bounds (zlen p) ltac:(lia)) as [Hb _].
  destruct (entry_fields k ts p pre post _ (eq_sym Hpre)) as (H1 & H2 & _ & H4 & H5). rewrite <-Hm in *.
  unfold RING_ENTRY_MAX_PAYLOAD in Hp. cbn [drain_loop]. rewrite (proj2 (Z.ltb_lt _ _)) by lia. unfold read_u32. rewrite H1. cbn [mbind result_bind].
  rewrite from_to_le by lia. rewrite (proj2 (Z.eqb_neq _ _)) by lia.
  assert (Hpad : (padded_total (zlen p) ≤ 4116)%Z).
  { destruct (padded_bounds (zlen p) ltac:(lia)) as [_ Hmod]. pose proof (Z.div_mod (padded_total (zlen p)) 4 ltac:(lia)). lia. }
  rewrite (proj2 (Z.leb_le RING_ENTRY_HEADER _)) by (unfold RING_ENTRY_HEADER; lia).
  rewrite (proj2 (Z.leb_le _ RING_ENTRY_MAX_TOTAL)) by (change RING_ENTRY_MAX_TOTAL with 4116%Z; lia).
  rewrite (proj2 (Z.ltb_ge cap _)) by lia. cbn [negb andb orb]. rewrite H2. cbn [mbind result_bind].
  replace (RING_HEADER_LEN + t mod cap + 13 + 4)%Z with (RING_HEADER_LEN + t mod cap + 17)%Z by lia. rewrite H4. cbn [mbind result_bind].
  rewrite from_to_le by lia. rewrite (proj2 (Z.leb_le _ RING_ENTRY_MAX_PAYLOAD)) by (unfold RING_ENTRY_MAX_PAYLOAD; lia).
  rewrite (proj2 (Z.leb_le _ (sat_sub _ _))) by (unfold sat_sub, RING_ENTRY_HEADER; lia).
  rewrite (proj2 (Z.leb_le _ (zlen m))) by (rewrite map_len; unfold RING_ENTRY_HEADER; lia). cbn [andb].
  change RING_ENTRY_HEADER with ENTRY_HEADER. rewrite H5. cbn [mbind result_bind]. rewrite add_u64_ok by lia. cbn [mbind result_bind].
  do 4 f_equal. cbn. unfold is_byte in Hk. lia.
Qed.

Lemma drain_loop_laid t h es fuel out : laid m cap t h es → (h ≤ u64_max)%Z → (h - t < Z.of_nat fuel)%Z →
  drain_loop fuel m cap t h out = Ok (h, out ++ (drained_of <$> es)).
Proof.
  intros Hl Hmax. revert fuel out. induction Hl as [h|t h k ts p es pre post Hm Hpre Hfit Hk Hp Hl IH|t h es Hlt Hz Hl IH]; intros fuel out Hf.
  - destruct fuel as [|fuel]; [lia|]. cbn [drain_loop]. rewrite (proj2 (Z.ltb_ge _ _)) by lia. by rewrite app_nil_r.
  - pose proof (laid_le _ _ _ Hl). pose proof (padded_bounds (zlen p)). destruct fuel as [|fuel]; [lia|].
    erewrite drain_entry by (done || lia). rewrite IH by lia. by rewrite <-app_assoc.
  - pose proof (laid_le _ _ _ Hl). pose proof (Z.mod_pos_bound t cap cap_pos). destruct fuel as [|fuel]; [lia|].
    cbn [drain_loop]. rewrite (proj2 (Z.ltb_lt _ _)), Hz by lia. cbn [mbind result_bind Z.eqb]. rewrite add_u64_ok by lia. cbn [mbind result_bind].
    apply IH; lia.
Qed.

(** Any contents: the loop ends within its fuel; what it can do besides is panic. *)
Lemma drain_loop_ends fuel tail head out : all_bytes m → (0 ≤ tail)%Z → (head - tail < Z.of_nat fuel)%Z → (0 < fuel)%nat →
  match drain_loop fuel m cap tail head out with
  | Ok (t, out') => (head ≤ t)%Z ∧ (tail ≤ t)%Z ∧ (t < head + cap + RING_ENTRY_MAX_TOTAL ∨ t = tail)%Z ∧ out `prefix_of` out'
  | Err e => e = Panic
  end.
Proof.
  intros Hm. revert tail out. induction fuel as [|fuel IH]; intros tail out Ht Hf Hf0; [lia|]. cbn [drain_loop].
  destruct (Z.ltb_spec tail head); [|repeat split; [lia|lia|by right|done]].
  pose proof (Z.mod_pos_bound tail cap cap_pos) as Hidx.
  assert (Hrec : ∀ d out', (0 < d ≤ Z.max cap RING_ENTRY_MAX_TOTAL)%Z → out `prefix_of` out' →
    match (t ← add_u64 tail d; drain_loop fuel m cap t head out') with
    | Ok (t, o) => (head ≤ t)%Z ∧ (tail ≤ t)%Z ∧ (t < head + cap + RING_ENTRY_MAX_TOTAL ∨ t = tail)%Z ∧ out `prefix_of` o
    | Err e => e = Panic end).
  { intros d out' Hd Hpre. unfold add_u64. destruct (_ <=? u64_max)%Z; [|done]. cbn [mbind result_bind].
    change RING_ENTRY_MAX_TOTAL with 4116%Z in *.
    destruct (Z.ltb_spec (tail + d) head).
    - specialize (IH (tail + d)%Z out' ltac:(lia) ltac:(lia) ltac:(lia)). destruct (drain_loop _ _ _ _ _ _) as [[t o]|]; [|done].
      destruct IH as (? & ? & ? & ?). repeat split; [lia|lia|lia|by etrans].
    - destruct fuel as [|fuel']; [lia|]. cbn [drain_loop]. rewrite (proj2 (Z.ltb_ge (tail + d) head)) by lia. repeat split; [lia|lia|lia|done]. }
  assert (Hslice : ∀ a b, (∃ w, slice m a b = Ok w ∧ all_bytes w) ∨ slice m a b = Err Panic).
  { intros a b. unfold slice. destruct (_ && _); [left|by right]. eexists. split; [done|]. by apply all_bytes_take, all_bytes_drop. }
  unfold read_u32. destruct (Hslice (RING_HEADER_LEN + tail mod cap) (RING_HEADER_LEN + tail mod cap + 4))%Z as [(w & -> & Hw)| ->]; [|done].
  cbn [mbind result_bind].
  destruct (Z.eqb_spec (from_le w) 0); [apply Hrec; [lia|done]|].
  destruct (_ || _) eqn:Hc; [apply Hrec; [change RING_ENTRY_MAX_TOTAL with 4116%Z; lia|done]|].
  apply orb_false_iff in Hc as [Hc _]. apply negb_false_iff, andb_true_iff in Hc as [Hc1 Hc2]. apply Z.leb_le in Hc1, Hc2. unfold RING_ENTRY_HEADER in Hc1.
  destruct (Hslice (RING_HEADER_LEN + tail mod cap + 4) (RING_HEADER_LEN + tail mod cap + 5))%Z as [(k & -> & _)| ->]; [|done]. cbn [mbind result_bind].
  destruct (Hslice (RING_HEADER_LEN + tail mod cap + 13) (RING_HEADER_LEN + tail mod cap + 13 + 4))%Z as [(pl & -> & _)| ->]; [|done]. cbn [mbind result_bind].
  destruct (_ && _ && _).
  - destruct (Hslice (RING_HEADER_LEN + tail mod cap + RING_ENTRY_HEADER) (RING_HEADER_LEN + tail mod cap + RING_ENTRY_HEADER + from_le pl))%Z
      as [(p & -> & _)| ->]; [|done]. cbn [mbind result_bind]. apply Hrec; [lia|by apply prefix_app_r].
  - cbn [mbind result_bind]. apply Hrec; [lia|by apply prefix_app_r].
Qed.
End laws.

(** ** The ring *)

Lemma read_u64_app pre z post off : off = zlen pre → (0 ≤ z < 2 ^ 64)%Z → read_u64 (pre ++ to_le 8 z ++ post) off = Ok z.
Proof.
  intros Ho Hz. unfold read_u64. rewrite (slice_app pre (to_le 8 z) post) by (rewrite ?to_le_length; lia). cbn [mbind result_bind].
  by rewrite from_to_le.
Qed.

(** Writing one cursor leaves the other and the data as they were. *)
Lemma write_tail m t z : 16 ≤ length m → read_u64 m 8 = Ok t → (0 ≤ z < 2 ^ 64)%Z →
  ∃ m', write_at m 8 (to_le 8 z) = Ok m' ∧ read_u64 m' 0 = read_u64 m 0 ∧ read_u64 m' 8 = Ok z ∧ drop 16 m' = drop 16 m ∧ length m' = length m.
Proof.
  intros Hl _ Hz. assert (Hm : m = take 8 m ++ take 8 (drop 8 m) ++ drop 16 m).
  { rewrite <-(take_drop 8 m) at 1. f_equal. rewrite <-(take_drop 8 (drop 8 m)) at 1. by rewrite drop_drop. }
  assert (H8 : length (take 8 m) = 8) by (rewrite length_take; lia).
  assert (H8' : length (take 8 (drop 8 m)) = 8) by (rewrite length_take, length_drop; lia).
  exists (take 8 m ++ to_le 8 z ++ drop 16 m). split.
  { rewrite Hm at 1. apply write_at_app; rewrite ?H8, ?H8', ?to_le_length; done. }
  split; [|split; [by apply read_u64_app; rewrite ?H8|split]].
  - unfold read_u64. assert (Hs : ∀ post, slice (take 8 m ++ post) 0 (0 + 8) = Ok (take 8 m)).
    { intros post. apply (slice_app [] (take 8 m) post); cbn [length]; rewrite ?H8; done. }
    assert (Hs' : slice m 0 (0 + 8) = Ok (take 8 m)) by (rewrite Hm at 1; apply Hs). by rewrite Hs, Hs'.
  - rewrite app_assoc, drop_app_length' by (by rewrite length_app, to_le_length, H8). done.
  - rewrite !length_app, to_le_length, length_drop, H8. lia.
Qed.

(** C33: the consumer reads exactly the entries the writer laid out between the cursors, in order and with their
    payloads, and advances its cursor to the head, so that the next drain gives nothing. *)
Theorem drain_reads_laid r t h es :
  (0 < capacity r)%Z → zlen (map r) = (RING_HEADER_LEN + capacity r)%Z → read_u64 (map r) 8 = Ok t → head r = Ok h →
  (0 ≤ t)%Z → (h ≤ u64_max)%Z → (h - t ≤ capacity r)%Z → laid (map r) (capacity r) t h es →
  ∃ r', drain r = Ok (r', drained_of <$> es) ∧ capacity r' = capacity r ∧ drop 16 (map r') = drop 16 (map r) ∧ head r' = Ok h ∧
    pending r' = Ok 0%Z ∧ ∃ r'', drain r' = Ok (r'', []).
Proof.
  intros Hc Hm Ht Hh Ht0 Hmax Hcap Hl. pose proof (laid_le _ _ Hc _ _ _ Hl) as Hle. unfold RING_HEADER_LEN in Hm.
  destruct (write_tail (map r) t h) as (m' & Ew & E0 & E8 & Ed & El); [lia|done|unfold u64_max in Hmax; lia|].
  exists (mk_ring m' (capacity r)).
  assert (Hd : ∀ m1 t1 es1 m2, laid m1 (capacity r) t1 h es1 → zlen m1 = zlen (map r) → read_u64 m1 8 = Ok t1 → read_u64 m1 0 = Ok h → (t ≤ t1 ≤ h)%Z →
    write_at m1 8 (to_le 8 h) = Ok m2 → drain (mk_ring m1 (capacity r)) = Ok (mk_ring m2 (capacity r), drained_of <$> es1)).
  { intros m1 t1 es1 m2 Hl1 Hz1 Ht1 Hh1 Hle1 Hw1. unfold drain, head. cbn [Ring.map Ring.capacity]. rewrite Ht1, Hh1. cbn [mbind result_bind].
    unfold start_tail. rewrite (proj2 (Z.ltb_ge h t1)) by lia. rewrite (proj2 (Z.ltb_ge t1 _)), andb_false_r by lia.
    rewrite (drain_loop_laid m1 (capacity r) Hc) with (es := es1) by (done || rewrite ?Hz1, ?Hm; unfold RING_HEADER_LEN; lia).
    cbn [mbind result_bind]. by rewrite Hw1. }
  destruct r as [m cap]. cbn [Ring.map Ring.capacity] in *. unfold head in Hh. cbn [Ring.map] in Hh.
  split; [by apply (Hd m t)|]. split; [done|]. split; [done|]. unfold head, pending, head. cbn [Ring.map Ring.capacity]. rewrite E0, Hh, E8. split; [done|].
  cbn [mbind result_bind]. split. { unfold sat_sub. do 2 f_equal. lia. }
  destruct (write_tail m' h h) as (m2 & Ew2 & _); [lia|done|unfold u64_max in Hmax; lia|].
  eexists. apply (Hd m' h []); [constructor|lia|done|by rewrite E0|lia|done].
Qed.

(** A drain never loops: over any map it returns, with the cursor at or after the head, or panics. *)
Theorem drain_ends r : all_bytes (map r) → (0 < capacity r)%Z → zlen (map r) = (RING_HEADER_LEN + capacity r)%Z →
  match drain r with Ok (r', out) => True | Err e => e = Panic end.
Proof.
  intros Hm Hc Hl. unfold drain, head, read_u64.
  assert (Hs : ∀ a, (0 ≤ a ≤ 8)%Z → ∃ w, slice (map r) a (a + 8) = Ok w ∧ all_bytes w).
  { intros a Ha. destruct (slice_ok (map r) a (a + 8)) as (w & E & _ & Hw); [lia|lia|unfold RING_HEADER_LEN in Hl; lia|]. exists w. split; [done|by apply Hw]. }
  destruct (Hs 8%Z) as (w8 & -> & Hw8); [lia|]. destruct (Hs 0%Z) as (w0 & -> & Hw0); [lia|]. cbn [mbind result_bind].
  pose proof (from_le_range w8 Hw8). pose proof (from_le_range w0 Hw0).
  set (tail := start_tail (capacity r) (from_le w8) (from_le w0)).
  assert (Ht : (0 ≤ tail)%Z). { unfold tail, start_tail. destruct (_ <? _)%Z; [lia|]. destruct (_ && _) eqn:E; [|lia]. apply andb_true_iff in E as [E _]. apply Z.ltb_lt in E. lia. }
  pose proof (drain_loop_ends (map r) (capacity r) Hc (S (Z.to_nat (from_le w0 - tail))) tail (from_le w0) [] Hm Ht ltac:(lia) ltac:(lia)) as He.
  destruct (drain_loop _ _ _ _ _ _) as [[t out]|e]; [|done]. cbn [mbind result_bind]. unfold write_at. by destruct (_ && _).
Qed.

(** The word at a cursor that is not aligned and near the end crosses the end of the map. *)
Theorem unaligned_tail_panics m cap t h fuel out : (0 < cap)%Z → zlen m = (RING_HEADER_LEN + cap)%Z → (t < h)%Z → (cap - 4 < t mod cap)%Z →
  drain_loop (S fuel) m cap t h out = Err Panic.
Proof.
  intros Hc Hm Hlt Ht. cbn [drain_loop]. rewrite (proj2 (Z.ltb_lt _ _)) by lia. unfold read_u32, slice.
  rewrite (proj2 (Z.leb_gt (RING_HEADER_LEN + t mod cap + 4) (zlen m))), andb_false_r by lia. done.
Qed.

(** ** Examples *)

Module RingExamples.

(** A ring of 64 bytes: one entry, then a wrap to a second one; the head is at 64 + 20. *)
Definition region : bytes := entry_bytes 3 7 [1; 2]%Z ++ replicate 44 0%Z.
Definition small : SharedRing :=
  mk_ring (to_le 8 84 ++ to_le 8 64 ++ to_le 4 64 ++ replicate 4076 0%Z ++ region) 64.

Lemma drain_reads_laid_witness : ∃ r', drain small = Ok (r', [mk_drained 3 [1; 2]%Z]).
Proof.
  assert (Hl : laid (map small) 64 64 84 [(3, 7, [1; 2])]%Z).
  { apply (laid_entry _ _ 64 84 3 7 [1; 2]%Z [] (take 4096 (map small)) (replicate 44 0%Z)); [by vm_compute..| |apply laid_end].
    unfold RING_ENTRY_MAX_PAYLOAD. cbn. lia. }
  destruct (drain_reads_laid small 64 84 [(3, 7, [1; 2])]%Z) as (r' & Hd & _); [by vm_compute|by vm_compute|by vm_compute|by vm_compute|lia|by vm_compute|by vm_compute|exact Hl|].
  exists r'. exact Hd.
Defined.

(** A wrapped consumer: an entry, the zero word that ends the region, and the next entry at the start. *)
Definition wrapped : bytes := entry_bytes 5 9 [8]%Z ++ replicate 12 0%Z ++ entry_bytes 4 8 [6]%Z ++ replicate 12 0%Z.
Example drain_wraps :
  match drain (mk_ring (to_le 8 84 ++ to_le 8 32 ++ to_le 4 64 ++ replicate 4076 0%Z ++ wrapped) 64) with
  | Ok (_, out) => out = [mk_drained 4 [6]; mk_drained 5 [8]]%Z | Err _ => False end.
Proof. by vm_compute. Qed.

(** After an overrun the tail is put inside an entry that was overwritten: what is read there is payload bytes taken
    for an entry, whose length is not a multiple of four, and the tail runs past the last whole word: a panic. *)
Definition overrun : bytes := replicate 28 255%Z ++ to_le 4 33 ++ replicate 32 255%Z.
Example overrun_panics : drain (mk_ring (to_le 8 92 ++ to_le 8 0 ++ to_le 4 64 ++ replicate 4076 0%Z ++ overrun) 64) = Err Panic.
Proof. by vm_compute. Qed.

(** The head moved over a zero word (nothing written yet) takes the tail past the head; the entry written next is lost. *)
Example zero_word_loses :
  match drain (mk_ring (to_le 8 20 ++ to_le 8 0 ++ to_le 4 64 ++ replicate 4076 0%Z ++ replicate 64 0%Z) 64) with
  | Ok (r, []) => read_u64 (map r) 8 = Ok 64%Z ∧
      match (m ← write_at (map r) (4096 + 20) (entry_bytes 3 7 [1]%Z); r ← advance_head 40 (mk_ring m 64); drain r) with
      | Ok (_, out) => out = [] | Err _ => False end
  | _ => False end.
Proof. by vm_compute. Qed.
End RingExamples.
