(* ===== verification/Seal.v ===== *)
(** One-shot sealing to a public key: src/pqc-core/src/kem.rs (ML-KEM alone)
    and src/pqc-core/src/seal.rs (a key and a nonce derived from the shared
    secret, then ChaCha20-Poly1305), for ML-KEM and for the hybrid KEM. The
    outcomes of the random generator are arguments. *)

From S2P Require Import Prelude RustStr Primitives Hybrid.

(** What the code relies on of ChaCha20-Poly1305 (RFC 8439): it decrypts what it encrypted, and adds a tag of 16 bytes. *)
Class P1305Laws `{Primitives} : Prop := {
  p1305_open k n pt ct aad : p1305_encrypt k n pt aad = Some ct → p1305_decrypt k n ct aad = Some pt;
  p1305_length k n pt ct aad : p1305_encrypt k n pt aad = Some ct → length ct = length pt + 16;
  p1305_bytes k n pt ct aad : all_bytes pt → p1305_encrypt k n pt aad = Some ct → all_bytes ct
}.

(** Source: src/pqc-core/src/kem.rs:6-6 (KEM_PK_LEN) *)
Definition KEM_PK_LEN : nat := 1184.
(** Source: src/pqc-core/src/kem.rs:7-7 (KEM_CT_LEN) *)
Definition KEM_CT_LEN : nat := 1088.
(** Source: src/pqc-core/src/kem.rs:9-9 (KEM_SEED_LEN) *)
Definition KEM_SEED_LEN : nat := 64.
(** Source: src/pqc-core/src/seal.rs:6-6 (KEY_LEN) *)
Definition KEY_LEN : nat := 32.
(** Source: src/pqc-core/src/seal.rs:7-7 (NONCE_LEN) *)
Definition NONCE_LEN : nat := 12.
(** Source: src/pqc-core/src/seal.rs:8-8 (MAX_SEAL_PAYLOAD_BYTES) *)
Definition MAX_SEAL_PAYLOAD_BYTES : Z := 16 * 1024 * 1024.
(** Source: src/pqc-core/src/seal.rs:9-9 (MAX_UNSEAL_CIPHERTEXT_BYTES) *)
Definition MAX_UNSEAL_CIPHERTEXT_BYTES : Z := 24 * 1024 * 1024.
(** Source: src/pqc-core/src/seal.rs:10-10 (MAX_DOMAIN_LEN) *)
Definition MAX_DOMAIN_LEN : Z := 256.
(** Source: src/pqc-core/src/seal.rs:174-174 (MAX_CIPHERTEXT_B64_LEN) *)
Definition MAX_CIPHERTEXT_B64_LEN : Z := 64 * 1024 * 1024.

Section seal.
Context `{Primitives}.

(** ** ML-KEM *)

(** Source: src/pqc-core/src/kem.rs:11-22 (kem_keygen_bytes) *)
Definition kem_keygen_bytes (draw : option bytes) : may_fail (bytes * bytes) :=
  seed_bytes ← ok_or (Fail "rng") draw;
  Ok (mlkem_ek seed_bytes, seed_bytes).

(** A failing generator panics ([UnwrapErr]).
    Source: src/pqc-core/src/kem.rs:24-35 (kem_encapsulate_bytes) *)
Definition kem_encapsulate_bytes (draw : option bytes) (pk_bytes : bytes) : may_fail (bytes * bytes) :=
  coins ← ok_or Panic draw;
  ok_or (Fail "bad ek") (mlkem_encapsulate coins pk_bytes).

(** Source: src/pqc-core/src/kem.rs:37-50 (kem_decapsulate_bytes) *)
Definition kem_decapsulate_bytes (ct_bytes sk_bytes : bytes) : may_fail bytes :=
  ok_or (Fail "bad ct") (mlkem_decapsulate sk_bytes ct_bytes).

(** Source: src/pqc-core/src/kem.rs:53-58 (kem_keygen) *)
Definition kem_keygen (draw : option bytes) : may_fail (str * str) :=
  '(pk, sk) ← kem_keygen_bytes draw;
  Ok (hex_encode pk, hex_encode sk).

(** Source: src/pqc-core/src/kem.rs:60-71 (kem_encapsulate) *)
Definition kem_encapsulate (draw : option bytes) (peer_pk_hex : str) : may_fail (str * str) :=
  pk_bytes ← ok_or (Fail "bad pk hex") (hex_decode_str peer_pk_hex);
  _ ← ensure (length pk_bytes =? KEM_PK_LEN) "bad pk len";
  '(ct, ss) ← kem_encapsulate_bytes draw pk_bytes;
  Ok (hex_encode ct, hex_encode ss).

(** Source: src/pqc-core/src/kem.rs:73-90 (kem_decapsulate) *)
Definition kem_decapsulate (ct_hex sk_hex : str) : may_fail str :=
  ct_bytes ← ok_or (Fail "bad ct hex") (hex_decode_str ct_hex);
  sk_bytes ← ok_or (Fail "bad sk hex") (hex_decode_str sk_hex);
  _ ← ensure ((length ct_bytes =? KEM_CT_LEN) && (length sk_bytes =? KEM_SEED_LEN)) "bad input length";
  ss ← kem_decapsulate_bytes ct_bytes sk_bytes;
  Ok (hex_encode ss).

(** ** The derived key, and the cipher *)

(** Source: src/pqc-core/src/seal.rs:145-156 (hkdf_derive) *)
Definition hkdf_derive (shared_secret domain : bytes) : may_fail (bytes * bytes) :=
  derived ← pqc_hkdf_sha256 shared_secret (lit "soshal-kem-seal-v1") domain (KEY_LEN + NONCE_LEN);
  Ok (take KEY_LEN derived, drop KEY_LEN derived).

(** Source: src/pqc-core/src/seal.rs:158-172 (aead_encrypt) *)
Definition aead_encrypt (plaintext key nonce : bytes) : may_fail (str * str) :=
  ct ← ok_or (Fail "encrypt failed") (p1305_encrypt key nonce plaintext []);
  Ok (base64_encode ct, hex_encode nonce).

(** Source: src/pqc-core/src/seal.rs:176-195 (aead_decrypt) *)
Definition aead_decrypt (ciphertext_b64 : str) (key nonce : bytes) : may_fail bytes :=
  _ ← ensure (zlen ciphertext_b64 <=? MAX_CIPHERTEXT_B64_LEN)%Z "ciphertext oversized";
  ct ← ok_or (Fail "bad base64") (base64_decode ciphertext_b64);
  ok_or (Fail "decrypt failed") (p1305_decrypt key nonce ct []).

(** The nonce that came along has to be the derived one.
    Source: src/pqc-core/src/seal.rs:114-124 (hybrid_unseal, opening) *)
Definition open_derived (ciphertext_b64 nonce_hex : str) (ss domain : bytes) : may_fail bytes :=
  '(enc_key, nonce) ← hkdf_derive ss domain;
  nonce_bytes ← ok_or (Fail "bad nonce hex") (hex_decode_str (trim nonce_hex));
  _ ← ensure (length nonce_bytes =? NONCE_LEN) "bad nonce len";
  _ ← ensure (bool_decide (nonce_bytes = nonce)) "nonce mismatch with derived KEM session";
  aead_decrypt ciphertext_b64 enc_key nonce.

(** ** Sealing *)

(** Source: src/pqc-core/src/seal.rs:12-29 (kem_seal) *)
Definition kem_seal (draw : option bytes) (payload : bytes) (peer_pk_hex : str) (domain : bytes) : may_fail (str * str * str) :=
  _ ← ensure (zlen payload <=? MAX_SEAL_PAYLOAD_BYTES)%Z "payload exceeds max size";
  _ ← ensure (zlen domain <=? MAX_DOMAIN_LEN)%Z "domain exceeds max length";
  '(ct_hex, ss_hex) ← kem_encapsulate draw (trim peer_pk_hex);
  ss ← ok_or (Fail "bad ss hex") (hex_decode_str ss_hex);
  '(enc_key, nonce) ← hkdf_derive ss domain;
  '(encrypted, nonce) ← aead_encrypt payload enc_key nonce;
  Ok (ct_hex, nonce, encrypted).

(** Source: src/pqc-core/src/seal.rs:31-58 (kem_unseal) *)
Definition kem_unseal (ciphertext_b64 nonce_hex ct_hex sk_hex : str) (domain : bytes) : may_fail bytes :=
  _ ← ensure (zlen ciphertext_b64 <=? MAX_UNSEAL_CIPHERTEXT_BYTES)%Z "ciphertext exceeds max size";
  _ ← ensure (zlen domain <=? MAX_DOMAIN_LEN)%Z "domain exceeds max length";
  ss_hex ← kem_decapsulate (trim ct_hex) (trim sk_hex);
  ss ← ok_or (Fail "bad ss hex") (hex_decode_str ss_hex);
  open_derived ciphertext_b64 nonce_hex ss domain.

(** Source: src/pqc-core/src/seal.rs:60-82 (hybrid_seal) *)
Definition hybrid_seal (draws : option bytes * option bytes) (payload : bytes) (peer_pk_hex : str) (domain : bytes) : may_fail (str * str * str) :=
  _ ← ensure (zlen payload <=? MAX_SEAL_PAYLOAD_BYTES)%Z "payload exceeds max size";
  _ ← ensure (zlen domain <=? MAX_DOMAIN_LEN)%Z "domain exceeds max length";
  pk_bytes ← ok_or (Fail "bad pk hex") (hex_decode_str (trim peer_pk_hex));
  _ ← ensure (length pk_bytes =? HYBRID_PK_LEN) "bad pk len";
  '(ct, ss) ← hybrid_encapsulate_bytes draws.1 draws.2 pk_bytes domain;
  '(enc_key, nonce) ← hkdf_derive ss domain;
  '(encrypted, nonce) ← aead_encrypt payload enc_key nonce;
  Ok (hex_encode ct, nonce, encrypted).

(** Source: src/pqc-core/src/seal.rs:85-125 (hybrid_unseal) *)
Definition hybrid_unseal (ciphertext_b64 nonce_hex ct_hex sk_hex : str) (domain : bytes) : may_fail bytes :=
  _ ← ensure (zlen ciphertext_b64 <=? MAX_UNSEAL_CIPHERTEXT_BYTES)%Z "ciphertext exceeds max size";
  _ ← ensure (zlen domain <=? MAX_DOMAIN_LEN)%Z "domain exceeds max length";
  ct_bytes ← ok_or (Fail "bad ct hex") (hex_decode_str (trim ct_hex));
  sk_bytes ← ok_or (Fail "bad sk hex") (hex_decode_str (trim sk_hex));
  _ ← ensure ((length ct_bytes =? HYBRID_CT_LEN) && (length sk_bytes =? HYBRID_SK_LEN)) "bad input length";
  ss ← hybrid_decapsulate_bytes ct_bytes sk_bytes domain;
  open_derived ciphertext_b64 nonce_hex ss domain.
End seal.

(** ** Laws *)

Section laws.
Context `{PrimitiveLaws} {P5 : P1305Laws}.

Lemma hkdf_derive_ok ss domain : ∃ k n, hkdf_derive ss domain = Ok (k, n) ∧ length n = NONCE_LEN ∧ all_bytes n.
Proof.
  destruct (hkdf_some ss (lit "soshal-kem-seal-v1") domain (KEY_LEN + NONCE_LEN)) as (okm & E & Hl & Hb); [unfold KEY_LEN, NONCE_LEN; lia|].
  unfold hkdf_derive, pqc_hkdf_sha256. rewrite E. do 2 eexists. split; [done|]. split; [rewrite length_drop, Hl; done|by apply all_bytes_drop].
Qed.

Lemma base64_fits payload ct k n : (zlen payload ≤ MAX_SEAL_PAYLOAD_BYTES)%Z → p1305_encrypt k n payload [] = Some ct →
  (zlen (base64_encode ct) ≤ MAX_UNSEAL_CIPHERTEXT_BYTES)%Z.
Proof.
  intros Hp He. apply p1305_length in He. rewrite base64_length, He. unfold MAX_SEAL_PAYLOAD_BYTES, MAX_UNSEAL_CIPHERTEXT_BYTES in *.
  rewrite Nat2Z.inj_mul, Nat2Z.inj_div. pose proof (Z.mul_div_le (Z.of_nat (length payload + 16 + 2)) 3 ltac:(lia)).
  change (Z.of_nat 3) with 3%Z. lia.
Qed.

(** What was encrypted under the derived key opens under the same secret and domain. *)
Lemma open_derived_ok payload ss domain k n enc nonce_hex :
  all_bytes payload → (zlen payload ≤ MAX_SEAL_PAYLOAD_BYTES)%Z → hkdf_derive ss domain = Ok (k, n) → length n = NONCE_LEN → all_bytes n →
  aead_encrypt payload k n = Ok (enc, nonce_hex) →
  (zlen enc ≤ MAX_UNSEAL_CIPHERTEXT_BYTES)%Z ∧ open_derived enc nonce_hex ss domain = Ok payload.
Proof.
  intros Hb Hp Hk Hn Hnb He. unfold aead_encrypt in He. destruct (p1305_encrypt k n payload []) as [ct|] eqn:E; [|done]. injection He as <- <-.
  pose proof (base64_fits _ _ _ _ Hp E) as Hfit. split; [done|]. unfold open_derived. rewrite Hk. cbn [mbind result_bind].
  rewrite decode_trim_hex by done. cbn [ok_or mbind result_bind]. rewrite Hn, Nat.eqb_refl, bool_decide_eq_true_2 by done. cbn [ensure mbind result_bind].
  unfold aead_decrypt. rewrite (proj2 (Z.leb_le _ _)) by (unfold MAX_UNSEAL_CIPHERTEXT_BYTES, MAX_CIPHERTEXT_B64_LEN in *; lia). cbn [ensure mbind result_bind].
  rewrite base64_roundtrip by (exact (p1305_bytes k n payload ct [] Hb E)). cbn [ok_or mbind result_bind]. by rewrite (p1305_open _ _ _ _ _ E).
Qed.

(** What is sealed to a generated hybrid key, under any domain, opens with its secret key to the same payload. *)
Theorem hybrid_seal_roundtrip draws pk sk payload domain ct nonce enc :
  hybrid_pair pk sk → all_bytes payload → hybrid_seal draws payload pk domain = Ok (ct, nonce, enc) →
  hybrid_unseal enc nonce ct sk domain = Ok payload.
Proof.
  intros (xsk & seed & Hx & Hs & Hb & Hgen) Hpay Hseal. unfold hybrid_seal in Hseal.
  destruct (pk_bytes_of_wf xsk seed) as [Hpb Hpl].
  assert (pk = hex_encode (pk_bytes_of xsk seed) ∧ sk = hex_encode (xsk ++ seed)) as [-> ->] by (unfold hex_keygen in Hgen; cbn in Hgen; by injection Hgen).
  destruct (Z.leb_spec (zlen payload) MAX_SEAL_PAYLOAD_BYTES) as [Hp|]; [|done]. destruct (Z.leb_spec (zlen domain) MAX_DOMAIN_LEN) as [Hd|]; [|done].
  cbn [ensure mbind result_bind] in Hseal. rewrite decode_trim_hex in Hseal by done. cbn [ok_or mbind result_bind] in Hseal.
  rewrite Hpl, Nat.eqb_refl in Hseal. cbn [ensure mbind result_bind] in Hseal.
  destruct (hybrid_encapsulate_bytes draws.1 draws.2 (pk_bytes_of xsk seed) domain) as [[ctb ss]|] eqn:He; [|done].
  assert (∃ eph coins, draws = (Some eph, Some coins)) as (eph & coins & ->).
  { destruct draws as [d1 d2]. unfold hybrid_encapsulate_bytes in He. destruct (_ =? _)%Z; [|done]. destruct d1, d2; try done. by do 2 eexists. }
  destruct (decapsulate_bytes_correct xsk seed eph coins domain ctb ss Hx He) as (Hcl & Hcb & Hsl & Hsb & Hdec).
  destruct (hkdf_derive_ok ss domain) as (k & n & Hk & Hn & Hnb). cbn [mbind result_bind] in Hseal. rewrite Hk in Hseal. cbn [mbind result_bind] in Hseal.
  destruct (aead_encrypt payload k n) as [[enc' nh]|] eqn:Henc; [|done]. injection Hseal as <- <- <-.
  destruct (open_derived_ok payload ss domain k n enc' nh) as [Hfit Hopen]; [done..|].
  unfold hybrid_unseal. rewrite (proj2 (Z.leb_le _ _)) by done. rewrite (proj2 (Z.leb_le _ _)) by done. cbn [ensure mbind result_bind].
  rewrite !decode_trim_hex by done. cbn [ok_or mbind result_bind]. rewrite Hcl, length_app, Hx, Hs, !Nat.eqb_refl. cbn [andb ensure mbind result_bind].
  rewrite Hdec. cbn [mbind result_bind]. done.
Qed.

(** The same for a generated ML-KEM key. *)
Theorem kem_seal_roundtrip draw seed pk sk payload domain ct nonce enc :
  length seed = KEM_SEED_LEN → all_bytes seed → kem_keygen (Some seed) = Ok (pk, sk) → all_bytes payload →
  kem_seal draw payload pk domain = Ok (ct, nonce, enc) → kem_unseal enc nonce ct sk domain = Ok payload.
Proof.
  intros Hs Hsb Hgen Hpay Hseal. unfold kem_seal in Hseal.
  assert (pk = hex_encode (mlkem_ek seed) ∧ sk = hex_encode seed) as [-> ->] by (unfold kem_keygen in Hgen; cbn in Hgen; by injection Hgen).
  destruct (Z.leb_spec (zlen payload) MAX_SEAL_PAYLOAD_BYTES) as [Hp|]; [|done]. destruct (Z.leb_spec (zlen domain) MAX_DOMAIN_LEN) as [Hd|]; [|done].
  cbn [ensure mbind result_bind] in Hseal. unfold kem_encapsulate in Hseal.
  rewrite (trim_hex _ (mlkem_ek_bytes seed)), (hex_roundtrip _ (mlkem_ek_bytes seed)) in Hseal. cbn [ok_or mbind result_bind] in Hseal.
  rewrite mlkem_ek_length in Hseal. cbn [Nat.eqb KEM_PK_LEN ensure mbind result_bind] in Hseal.
  destruct draw as [coins|]; [|done]. unfold kem_encapsulate_bytes in Hseal. cbn [ok_or mbind result_bind] in Hseal.
  destruct (mlkem_correct coins seed) as (mct & mss & Hm & Hlen & Hb & Hss & Hdec). rewrite Hm in Hseal. cbn [ok_or mbind result_bind] in Hseal.
  destruct (hex_decode_str (hex_encode mss)) as [ss|] eqn:Hdss; [|done]. cbn [ok_or mbind result_bind] in Hseal.
  destruct (hkdf_derive_ok ss domain) as (k & n & Hk & Hn & Hnb). rewrite Hk in Hseal. cbn [mbind result_bind] in Hseal.
  destruct (aead_encrypt payload k n) as [[enc' nh]|] eqn:Henc; [|done]. injection Hseal as <- <- <-.
  destruct (open_derived_ok payload ss domain k n enc' nh) as [Hfit Hopen]; [done..|].
  unfold kem_unseal. rewrite (proj2 (Z.leb_le _ _)) by done. rewrite (proj2 (Z.leb_le _ _)) by done. cbn [ensure mbind result_bind].
  unfold kem_decapsulate. rewrite !decode_trim_hex by done. cbn [ok_or mbind result_bind]. rewrite Hlen, Hs, !Nat.eqb_refl. cbn [andb ensure mbind result_bind].
  unfold kem_decapsulate_bytes. rewrite Hdec. cbn [ok_or mbind result_bind]. rewrite Hdss. done.
Qed.
End laws.

(** ** The toy primitives obey the laws *)

#[export] Instance toy_p1305 : @P1305Laws Toy.primitives.
Proof.
  split.
  - intros k n pt ct aad [= <-]. unfold p1305_decrypt, Toy.primitives. rewrite length_app, (Toy.digest_length 16), Nat.add_sub, take_app_length, drop_app_length.
    by rewrite bool_decide_eq_true_2.
  - intros k n pt ct aad [= <-]. by rewrite length_app, Toy.digest_length.
  - intros k n pt ct aad Hb [= <-]. apply all_bytes_app. split; [done|apply Toy.digest_bytes].
Qed.

Module SealExamples.
Import Toy.
Definition draws : option bytes * option bytes := (Some (replicate 32 3%Z), Some (replicate 32 4%Z)).
Definition keys : str * str := default ([], []) (ok (hex_keygen (Some (replicate 32 1%Z), Some (replicate 64 2%Z)))).

Lemma hybrid_seal_roundtrip_witness : ∃ ct nonce enc,
  hybrid_seal draws [1; 2; 3]%Z keys.1 (lit "d") = Ok (ct, nonce, enc) ∧ hybrid_unseal enc nonce ct keys.2 (lit "d") = Ok [1; 2; 3]%Z.
Proof.
  assert (Hp : hybrid_pair keys.1 keys.2).
  { exists (replicate 32 1%Z), (replicate 64 2%Z). split; [done|]. split; [done|]. split; [|by vm_compute].
    apply (bool_decide_unpack _). by vm_compute. }
  destruct (hybrid_seal draws [1; 2; 3]%Z keys.1 (lit "d")) as [[[ct nonce] enc]|] eqn:E; [|by vm_compute in E].
  exists ct, nonce, enc. split; [reflexivity|].
  apply (hybrid_seal_roundtrip draws keys.1 keys.2 [1; 2; 3]%Z (lit "d") ct nonce enc Hp); [|exact E].
  apply (bool_decide_unpack _). by vm_compute.
Defined.
End SealExamples.
