(* ===== verification/AtRest.v ===== *)
(** Encryption of key material at rest, src/crypto-core/src/at_rest.rs: the
    keys derived from the master secret, the AES-GCM blobs of version 1, and
    the envelopes of version 2, which seal such a blob once more to the hybrid
    key of the platform keychain. AES-256-GCM is an interface. *)

From S2P Require Import Prelude RustStr Text Primitives Hybrid Json Seal.

(** ring: AES-256-GCM with the tag after the text. *)
Class AesGcm := {
  aes_seal : bytes → bytes → bytes → option bytes;
  aes_open : bytes → bytes → bytes → option bytes
}.
Class AesGcmLaws `{AesGcm} : Prop := {
  aes_roundtrip k n pt ct : aes_seal k n pt = Some ct → aes_open k n ct = Some pt;
  aes_length k n pt ct : aes_seal k n pt = Some ct → length ct = length pt + 16;
  aes_bytes k n pt ct : all_bytes pt → aes_seal k n pt = Some ct → all_bytes ct
}.

(** Source: src/crypto-core/src/at_rest.rs:20-20 (AT_REST_V1_INFO) *)
Definition AT_REST_V1_INFO : bytes := lit "soshal-at-rest-v1".
(** Source: src/crypto-core/src/at_rest.rs:96-96 (AT_REST_V2_DOMAIN) *)
Definition AT_REST_V2_DOMAIN : bytes := lit "soshal-at-rest-v2".
(** Source: src/crypto-core/src/at_rest.rs:102-102 (ALLOW_UNTAGGED_V1) *)
Definition ALLOW_UNTAGGED_V1 : bool := false.
(** Source: src/crypto-core/src/at_rest.rs:104-104 (AT_REST_V2_INNER_TAG) *)
Definition AT_REST_V2_INNER_TAG : bytes := lit "soshal-at-rest-v2" ++ [0%Z].
Definition AES_NONCE_LEN : nat := 12.
Definition AES_TAG_LEN : nat := 16.

Section at_rest.
Context `{Primitives, AesGcm, JsonText}.

(** Source: src/crypto-core/src/at_rest.rs:23-36 (at_rest_key) *)
Definition at_rest_key (master : bytes) : may_fail bytes :=
  _ ← ensure (negb (length master =? 0)) "at-rest master secret is empty";
  pqc_hkdf_sha256 (sha256 master) (lit "soshal-at-rest-salt") AT_REST_V1_INFO 32.

(** Source: src/crypto-core/src/at_rest.rs:110-122 (at_rest_key_v2) *)
Definition at_rest_key_v2 (master : bytes) : may_fail bytes :=
  _ ← ensure (negb (length master =? 0)) "at-rest master secret is empty";
  pqc_hkdf_sha256 (sha256 master) (lit "soshal-at-rest-salt") AT_REST_V2_DOMAIN 32.

(** Source: src/crypto-core/src/at_rest.rs:45-62 (seal_at_rest_bin) *)
Definition seal_at_rest_bin (draw : option bytes) (key plaintext : bytes) : may_fail bytes :=
  nonce ← ok_or (Fail "rng") draw;
  ct ← ok_or (Fail "seal") (aes_seal key nonce plaintext);
  Ok (nonce ++ ct).

(** Source: src/crypto-core/src/at_rest.rs:39-41 (seal_at_rest) *)
Definition seal_at_rest (draw : option bytes) (key plaintext : bytes) : may_fail str :=
  blob ← seal_at_rest_bin draw key plaintext;
  Ok (hex_encode blob).

(** Source: src/crypto-core/src/at_rest.rs:72-92 (open_at_rest_bin) *)
Definition open_at_rest_bin (key blob : bytes) : may_fail bytes :=
  _ ← ensure (negb (length blob <? AES_NONCE_LEN + AES_TAG_LEN)) "sealed blob too short";
  ok_or (Fail "decryption failed (tampered or wrong key)") (aes_open key (take AES_NONCE_LEN blob) (drop AES_NONCE_LEN blob)).

(** Source: src/crypto-core/src/at_rest.rs:66-69 (open_at_rest) *)
Definition open_at_rest (key : bytes) (sealed_hex : str) : may_fail bytes :=
  blob ← ok_or (Fail "sealed blob") (hex_decode_str sealed_hex);
  open_at_rest_bin key blob.

(** Source: src/crypto-core/src/at_rest.rs:128-146 (seal_at_rest_v2) *)
Definition seal_at_rest_v2 (draw : option bytes) (kem_draws : option bytes * option bytes) (master_key : bytes) (wrap_pk_hex : str) (plaintext : bytes)
    : may_fail str :=
  inner ← seal_at_rest draw master_key plaintext;
  let tagged := AT_REST_V2_INNER_TAG ++ inner in
  '(ct_hex, nonce, payload) ← hybrid_seal kem_draws tagged wrap_pk_hex AT_REST_V2_DOMAIN;
  Ok (json_print [(lit "v", JNum (NInt 2)); (lit "ct", JStr ct_hex); (lit "nonce", JStr nonce); (lit "payload", JStr payload)]).

(** The parts of an envelope of version 2.
    Source: src/crypto-core/src/at_rest.rs:156-165 (open_at_rest_v2, envelope) *)
Definition parse_v2 (blob : str) : option (str * str * str) :=
  _ ← strip_prefix [0x7B%Z] blob;
  v ← json_parse blob;
  if bool_decide (as_u64 (field v (lit "v")) = Some 2%Z) then
    ct ← as_str (field v (lit "ct"));
    nonce ← as_str (field v (lit "nonce"));
    payload ← as_str (field v (lit "payload"));
    Some (ct, nonce, payload)
  else None.

(** Source: src/crypto-core/src/at_rest.rs:151-209 (open_at_rest_v2) *)
Definition open_at_rest_v2 (master_key : bytes) (wrap_sk_hex blob : str) : may_fail bytes :=
  match parse_v2 blob with
  | None =>
      let is_hex := negb (length blob =? 0) && Nat.even (length blob) && forallb is_ascii_hexdigit blob in
      _ ← ensure is_hex "at-rest blob is neither a v2 JSON envelope nor a valid v1 hex blob";
      _ ← ensure ALLOW_UNTAGGED_V1 "legacy v1 blob rejected: untagged blobs disabled";
      open_at_rest master_key blob
  | Some (ct, nonce, payload) =>
      inner ← hybrid_unseal payload nonce ct wrap_sk_hex AT_REST_V2_DOMAIN;
      inner_hex ← match strip_prefix AT_REST_V2_INNER_TAG inner with
                  | Some tagged => Ok tagged
                  | None => if ALLOW_UNTAGGED_V1 then Ok inner else err "v2 envelope missing version marker; untagged disabled"
                  end;
      inner_str ← ok_or (Fail "v2 inner blob is not UTF-8 (wrong key?)") (from_utf8 inner_hex);
      open_at_rest master_key inner_str
  end.
End at_rest.

(** ** Laws *)

Section laws.
Context `{PrimitiveLaws} {P5 : P1305Laws} `{AesGcmLaws} `{JsonLaws}.

Lemma seal_bin_length nonce key pt blob : length nonce = AES_NONCE_LEN → seal_at_rest_bin (Some nonce) key pt = Ok blob →
  length blob = AES_NONCE_LEN + length pt + AES_TAG_LEN ∧ open_at_rest_bin key blob = Ok pt.
Proof.
  intros Hn. unfold seal_at_rest_bin. cbn [ok_or mbind result_bind]. destruct (aes_seal key nonce pt) as [ct|] eqn:E; [|done]. intros [= <-].
  pose proof (aes_length _ _ _ _ E) as Hl. assert (Hlen : length (nonce ++ ct) = AES_NONCE_LEN + length pt + AES_TAG_LEN).
  { rewrite length_app, Hn, Hl. unfold AES_TAG_LEN. lia. }
  split; [done|]. unfold open_at_rest_bin. rewrite Hlen, (proj2 (Nat.ltb_ge _ _)) by lia. cbn [negb ensure mbind result_bind].
  rewrite take_app_length', drop_app_length' by done. by rewrite (aes_roundtrip _ _ _ _ E).
Qed.

(** A blob of version 1 opens under its key. *)
Theorem at_rest_roundtrip nonce key pt sealed : length nonce = AES_NONCE_LEN → all_bytes nonce → all_bytes pt →
  seal_at_rest (Some nonce) key pt = Ok sealed → open_at_rest key sealed = Ok pt ∧ Forall visible sealed.
Proof.
  intros Hn Hnb Hp Hs. unfold seal_at_rest in Hs. destruct (seal_at_rest_bin (Some nonce) key pt) as [blob|] eqn:E; [|done]. injection Hs as <-.
  destruct (seal_bin_length _ _ _ _ Hn E) as [_ Ho]. assert (Hb : all_bytes blob).
  { unfold seal_at_rest_bin in E. cbn [ok_or mbind result_bind] in E. destruct (aes_seal key nonce pt) as [ct|] eqn:E'; [|done]. injection E as <-.
    apply all_bytes_app. split; [done|]. exact (aes_bytes _ _ _ _ Hp E'). }
  unfold open_at_rest. rewrite hex_roundtrip by done. split; [done|by apply hex_visible].
Qed.

Lemma parse_v2_print ct nonce payload :
  parse_v2 (json_print [(lit "v", JNum (NInt 2)); (lit "ct", JStr ct); (lit "nonce", JStr nonce); (lit "payload", JStr payload)]) = Some (ct, nonce, payload).
Proof.
  set (fields := [_; _; _; _]). assert (Hd : NoDup fields.*1) by (apply (bool_decide_unpack _); by vm_compute).
  unfold parse_v2. rewrite (json_roundtrip fields Hd). destruct (json_brace fields) as [rest E]. rewrite E.
  cbn [strip_prefix Z.eqb Pos.eqb mbind option_bind].
  assert (F : field (JObj fields) (lit "v") = JNum (NInt 2) ∧ field (JObj fields) (lit "ct") = JStr ct ∧
    field (JObj fields) (lit "nonce") = JStr nonce ∧ field (JObj fields) (lit "payload") = JStr payload) by (split_and!; by vm_compute).
  destruct F as (-> & -> & -> & ->). done.
Qed.

Lemma open_v2_marked key sk blob ct nonce payload inner :
  parse_v2 blob = Some (ct, nonce, payload) → hybrid_unseal payload nonce ct sk AT_REST_V2_DOMAIN = Ok (AT_REST_V2_INNER_TAG ++ inner) →
  is_ascii inner → open_at_rest_v2 key sk blob = open_at_rest key inner.
Proof.
  intros Hp Hu Ha. unfold open_at_rest_v2. rewrite Hp, Hu. cbn [mbind result_bind]. rewrite strip_prefix_app. cbn [mbind result_bind].
  by rewrite from_utf8_ascii.
Qed.

Lemma seal_v2_parts draw draws key pk pt blob : seal_at_rest_v2 draw draws key pk pt = Ok blob →
  ∃ inner ct nn payload, seal_at_rest draw key pt = Ok inner ∧ hybrid_seal draws (AT_REST_V2_INNER_TAG ++ inner) pk AT_REST_V2_DOMAIN = Ok (ct, nn, payload) ∧
    parse_v2 blob = Some (ct, nn, payload).
Proof.
  intros Hs. unfold seal_at_rest_v2 in Hs. apply result_bind_ok in Hs as (inner & Hi & Hs).
  apply result_bind_ok in Hs as ([[ct nn] payload] & Hh & [= <-]). exists inner, ct, nn, payload. split; [done|]. split; [done|]. apply parse_v2_print.
Qed.

(** Key material sealed for storage opens again with the same master key and the keychain's secret key. *)
Theorem at_rest_v2_roundtrip nonce draws key pk sk pt blob : length nonce = AES_NONCE_LEN → all_bytes nonce → all_bytes pt → hybrid_pair pk sk →
  seal_at_rest_v2 (Some nonce) draws key pk pt = Ok blob → open_at_rest_v2 key sk blob = Ok pt.
Proof.
  intros Hn Hnb Hp Hk Hs. destruct (seal_v2_parts _ _ _ _ _ _ Hs) as (inner & ct & nn & payload & Ei & Eh & Hparse).
  destruct (at_rest_roundtrip _ _ _ _ Hn Hnb Hp Ei) as [Ho Hv].
  assert (Hb : all_bytes (AT_REST_V2_INNER_TAG ++ inner)).
  { apply all_bytes_app. split; [apply (bool_decide_unpack _); by vm_compute|by apply is_ascii_bytes, visible_ascii]. }
  rewrite (open_v2_marked key sk blob ct nn payload inner); [done|done| |by apply visible_ascii].
  exact (hybrid_seal_roundtrip _ _ _ _ _ _ _ _ Hk Hb Eh).
Qed.

(** C11: opening takes both secrets, and there is no way round the envelope: whatever opens is an envelope of version 2
    whose payload was unsealed with the keychain's secret key to a marked blob that opened under the master key. So a blob of
    version 1 does not open, as the comment of the switch says, and unlike what the module comment promises. *)
Theorem at_rest_no_downgrade key sk blob p : open_at_rest_v2 key sk blob = Ok p →
  ∃ ct nonce payload inner, parse_v2 blob = Some (ct, nonce, payload) ∧
    hybrid_unseal payload nonce ct sk AT_REST_V2_DOMAIN = Ok (AT_REST_V2_INNER_TAG ++ inner) ∧ open_at_rest key inner = Ok p.
Proof.
  unfold open_at_rest_v2. destruct (parse_v2 blob) as [[[ct nonce] payload]|].
  - intros Ho. destruct (hybrid_unseal payload nonce ct sk AT_REST_V2_DOMAIN) as [inner|] eqn:Hu; [|done]. cbn [mbind result_bind] in Ho.
    destruct (strip_prefix AT_REST_V2_INNER_TAG inner) as [tagged|] eqn:Ht; [|done]. cbn [mbind result_bind] in Ho.
    destruct (from_utf8 tagged) as [s|] eqn:Hs; [|done]. cbn [ok_or mbind result_bind] in Ho. apply from_utf8_Some in Hs as ->.
    exists ct, nonce, payload, tagged. split; [done|]. split; [|done]. apply strip_prefix_inv in Ht as ->. done.
  - destruct (negb _ && _ && _); done.
Qed.

(** A blob of version 1, under any keys, is refused: it is never an envelope. *)
Theorem v1_refused nonce key key' sk pt sealed : length nonce = AES_NONCE_LEN → all_bytes nonce → all_bytes pt →
  seal_at_rest (Some nonce) key pt = Ok sealed → open_at_rest_v2 key' sk sealed = err "legacy v1 blob rejected: untagged blobs disabled" ∨
  open_at_rest_v2 key' sk sealed = err "at-rest blob is neither a v2 JSON envelope nor a valid v1 hex blob" ∨ head sealed = Some 0x7B%Z.
Proof.
  intros Hn Hnb Hp Hs. unfold open_at_rest_v2, parse_v2. destruct sealed as [|b s]; [right; by left|].
  cbn [strip_prefix]. destruct (Z.eqb_spec 0x7B b) as [<-|Hne]; [right; by right|]. cbn [mbind option_bind].
  destruct (negb _ && _ && _); [by left|right; by left].
Qed.
End laws.

(** ** Examples *)

Module AtRestExamples.
Import Toy ToyJsonText.

#[local] Instance toy_aes : AesGcm := {|
  aes_seal k n pt := p1305_encrypt k n pt [];
  aes_open k n ct := p1305_decrypt k n ct []
|}.
#[local] Instance toy_aes_laws : AesGcmLaws.
Proof.
  split.
  - intros k n pt ct. apply p1305_open.
  - intros k n pt ct. apply p1305_length.
  - intros k n pt ct. apply p1305_bytes.
Qed.

Definition master : bytes := replicate 32 9%Z.
Definition nonce : bytes := replicate 12 5%Z.
Definition sealed : str := default [] (ok (seal_at_rest_v2 (Some nonce) SealExamples.draws master SealExamples.keys.1 [7; 8]%Z)).

Lemma blob_sealed : seal_at_rest_v2 (Some nonce) SealExamples.draws master SealExamples.keys.1 [7; 8]%Z = Ok sealed.
Proof. by vm_compute. Qed.

Lemma at_rest_v2_roundtrip_witness : open_at_rest_v2 master SealExamples.keys.2 sealed = Ok [7; 8]%Z.
Proof.
  apply (at_rest_v2_roundtrip nonce SealExamples.draws master SealExamples.keys.1 SealExamples.keys.2 [7; 8]%Z sealed).
  - reflexivity.
  - apply (bool_decide_unpack _). by vm_compute.
  - apply (bool_decide_unpack _). by vm_compute.
  - exists (replicate 32 1%Z), (replicate 64 2%Z). split; [done|]. split; [done|]. split; [|by vm_compute].
    apply (bool_decide_unpack _). by vm_compute.
  - exact blob_sealed.
Defined.

(** A blob of version 1 under the right keys: the module comment says that it is still readable. *)
Example v1_blob_rejected :
  (open_at_rest_v2 master SealExamples.keys.2 <$> ok (seal_at_rest (Some nonce) master [7; 8]%Z)) =
    Some (err "legacy v1 blob rejected: untagged blobs disabled") ∧
  (open_at_rest master <$> ok (seal_at_rest (Some nonce) master [7; 8]%Z)) = Some (Ok [7; 8]%Z).
Proof. by vm_compute. Qed.

Lemma at_rest_no_downgrade_witness : ∃ inner, open_at_rest master inner = Ok [7; 8]%Z.
Proof.
  assert (Ho : open_at_rest_v2 master SealExamples.keys.2 sealed = Ok [7; 8]%Z) by (by vm_compute).
  destruct (at_rest_no_downgrade _ _ _ _ Ho) as (ct & nn & payload & inner & _ & _ & Hi). by exists inner.
Defined.
End AtRestExamples.
