(* ===== verification/Ble.v ===== *)
(** Offline sync over Bluetooth, src/mesh-core/src/ble.rs, with the signatures
    of src/pqc-core/src/dsa.rs and compat.rs and the compression of
    src/content-core/src/compress.rs: device names, the lines a payload is cut
    into and their reassembly, and the sealed envelope. ML-DSA is an
    interface. *)

From S2P Require Import Prelude RustStr Text Primitives Hybrid Nip44 Json Content.

(** ml-dsa: signing with a seed or with an expanded key, and verification by the encoded key. *)
Class MlDsa := {
  dsa_vk : bytes → bytes;
  seed_sign : bytes → bytes → bytes;
  expanded_sign : bytes → bytes → bytes;
  vk_verify : bytes → bytes → bytes → bool
}.
(** A signature made with a seed verifies under the key of the seed. *)
Class MlDsaLaws `{MlDsa} : Prop := {
  dsa_correct seed msg : length seed = 32 → vk_verify (dsa_vk seed) msg (seed_sign seed msg) = true;
  dsa_vk_bytes seed : all_bytes (dsa_vk seed);
  dsa_sig_bytes seed msg : all_bytes (seed_sign seed msg)
}.

Section dsa.
Context `{Primitives, MlDsa}.

(** Source: src/pqc-core/src/dsa.rs:4-24 (dsa_keygen) *)
Definition dsa_keygen (seed : option bytes) (draw : option bytes) : may_fail (str * str) :=
  seed_bytes ← match seed with
               | Some s => if 32 <=? length s then Ok (take 32 s) else ok_or (Fail "rng") draw
               | None => ok_or (Fail "rng") draw
               end;
  Ok (hex_encode seed_bytes, hex_encode (dsa_vk seed_bytes)).

(** Source: src/pqc-core/src/compat.rs:6-32 (make_signer_from_secret_bytes) *)
Definition make_signer_from_secret_bytes (sk_bytes : bytes) : option (bytes → bytes) :=
  if length sk_bytes =? 32 then Some (seed_sign sk_bytes)
  else if length sk_bytes =? 4032 then Some (expanded_sign sk_bytes) else None.

(** Source: src/pqc-core/src/dsa.rs:26-29 (dsa_sign_bytes) *)
Definition dsa_sign_bytes (msg sk_bytes : bytes) : option bytes :=
  signer ← make_signer_from_secret_bytes sk_bytes; Some (signer msg).

(** Source: src/pqc-core/src/dsa.rs:31-34 (dsa_sign) *)
Definition dsa_sign (msg : bytes) (sk_hex : str) : option str :=
  sk_bytes ← hex_decode_str sk_hex; sig ← dsa_sign_bytes msg sk_bytes; Some (hex_encode sig).

(** Source: src/pqc-core/src/dsa.rs:36-48 (dsa_verify_bytes) *)
Definition dsa_verify_bytes (sig_bytes msg pk_bytes : bytes) : bool := vk_verify pk_bytes msg sig_bytes.

(** Source: src/pqc-core/src/dsa.rs:50-56 (dsa_verify) *)
Definition dsa_verify (sig_bytes msg : bytes) (pk_hex : str) : bool :=
  match hex_decode_str pk_hex with Some pk_bytes => dsa_verify_bytes sig_bytes msg pk_bytes | None => false end.

(** Source: src/pqc-core/src/dsa.rs:58-64 (dsa_verify_hex) *)
Definition dsa_verify_hex (sig_hex : str) (msg : bytes) (pk_hex : str) : bool :=
  match hex_decode_str sig_hex with Some sig_bytes => dsa_verify sig_bytes msg pk_hex | None => false end.
End dsa.

(** ** Compression *)

(** Source: src/content-core/src/compress.rs:25-25 (MAX_COMPRESS_BYTES) *)
Definition MAX_COMPRESS_BYTES : Z := 16 * 1024 * 1024.
(** Source: src/content-core/src/compress.rs:44-44 (MAX_DECOMPRESS_BYTES) *)
Definition MAX_DECOMPRESS_BYTES : Z := 4 * 1024 * 1024.

Section compression.
Context `{Primitives}.

(** Source: src/content-core/src/compress.rs:27-40 (compress) *)
Definition compress (data : bytes) : may_fail bytes :=
  _ ← ensure (zlen data <=? MAX_COMPRESS_BYTES)%Z "payload exceeds bytes";
  ok_or (Fail "compress") (deflate data).

(** Source: src/content-core/src/compress.rs:46-48 (decompress) *)
Definition decompress (data : bytes) : may_fail bytes := ok_or (Fail "decompress") (decompress_limited data MAX_DECOMPRESS_BYTES).

(** Source: src/content-core/src/compress.rs:76-81 (compress_json) *)
Definition compress_json (data : str) : str := match compress data with Ok compressed => base64_encode compressed | Err _ => [] end.

(** Source: src/content-core/src/compress.rs:83-94 (decompress_json) *)
Definition decompress_json (encoded : str) : str :=
  if (MAX_DECOMPRESS_BYTES * 2 <? zlen encoded)%Z then []
  else match base64_decode encoded with
       | Some bytes => match decompress bytes with Ok decompressed => default [] (from_utf8 decompressed) | Err _ => [] end
       | None => []
       end.
End compression.

(** ** Names and lines *)

(** Source: src/mesh-core/src/ble.rs:22-22 (DEVICE_NAME_PREFIX) *)
Definition DEVICE_NAME_PREFIX : str := lit "SOSHAL_".
(** Source: src/mesh-core/src/ble.rs:24-24 (DEVICE_NAME_PUBKEY_CHARS) *)
Definition DEVICE_NAME_PUBKEY_CHARS : nat := 12.
(** Source: src/mesh-core/src/ble.rs:26-26 (DEFAULT_MTU) *)
Definition DEFAULT_MTU : nat := 23.
(** Source: src/mesh-core/src/ble.rs:28-28 (MAX_MTU) *)
Definition MAX_MTU : nat := 512.
(** Source: src/mesh-core/src/ble.rs:30-30 (MAX_PAYLOAD_BYTES) *)
Definition MAX_PAYLOAD_BYTES : Z := 64 * 1024.
(** Source: src/mesh-core/src/ble.rs:33-33 (SYNC_CONTEXT) *)
Definition SYNC_CONTEXT : str := lit "soshal-ble-sync-v1".

(** Source: src/mesh-core/src/ble.rs:37-45 (device_name) *)
Definition device_name (pubkey : str) : str :=
  DEVICE_NAME_PREFIX ++ concat (take DEVICE_NAME_PUBKEY_CHARS (chars (to_ascii_lowercase (trim pubkey)))).

(** Source: src/mesh-core/src/ble.rs:49-58 (pubkey_fragment_from_device_name) *)
Definition pubkey_fragment_from_device_name (name : str) : option str :=
  frag ← strip_prefix DEVICE_NAME_PREFIX name;
  if bool_decide (frag = []) || negb (forallb is_ascii_hexdigit frag) then None else Some (to_ascii_lowercase frag).

(** Source: src/mesh-core/src/ble.rs:61-64 (chunk_size) *)
Definition chunk_size (mtu : nat) : nat := Nat.max (Nat.min (Nat.max mtu DEFAULT_MTU) MAX_MTU - 3) 20.

(** [slice::chunks]. *)
Fixpoint chunks_of {A} (fuel size : nat) (l : list A) : list (list A) :=
  match fuel, l with
  | S fuel, _ :: _ => take size l :: chunks_of fuel size (drop size l)
  | _, _ => []
  end.

Section lines.
Context `{Primitives}.

Definition chunk_line (i count : nat) (piece : str) : str :=
  print_u64 (Z.of_nat i) ++ [0x3A%Z] ++ print_u64 (Z.of_nat count) ++ [0x3A%Z] ++ piece.

(** Source: src/mesh-core/src/ble.rs:69-80 (split_chunks) *)
Definition split_chunks (data : str) (mtu : nat) : list (list Z) :=
  let size := chunk_size mtu in
  let cs := chars data in
  let chunk_count := (length cs + size - 1) / size in
  imap (λ i piece, base64_encode (chunk_line i chunk_count (concat piece))) (chunks_of (length cs) size cs).

(** A line: its index, the number of lines, the piece.
    Source: src/mesh-core/src/ble.rs:90-104 (reassemble_chunks, line) *)
Definition parse_line (line : str) : option (Z * Z * str) :=
  if MAX_MTU * 4 <? length line then None else
  decoded ← base64_decode line;
  text ← from_utf8 decoded;
  let '(first, rest) := match split_once 0x3A text with Some (l, r) => (l, Some r) | None => (text, None) end in
  idx ← parse_u64 first;
  rest ← rest;
  let '(second, rest) := match split_once 0x3A rest with Some (l, r) => (l, Some r) | None => (rest, None) end in
  count ← parse_u64 second;
  if (count =? 0)%Z || (4096 <? count)%Z then None else
  data ← rest;
  if MAX_MTU <? length data then None else Some (idx, count, data).

(** Source: src/mesh-core/src/ble.rs:89-116 (reassemble_chunks, loop) *)
Fixpoint collect_lines (lines : list (list Z)) (map : gmap Z (list Z)) (declared : option Z) (total_len : Z)
    : option (gmap Z (list Z) * option Z) :=
  match lines with
  | [] => Some (map, declared)
  | line :: lines =>
      '(idx, count, data) ← parse_line line;
      if match declared with Some c => negb (c =? count)%Z | None => false end then None else
      let total_len := (total_len + zlen data)%Z in
      if (MAX_PAYLOAD_BYTES * 2 <? total_len)%Z then None else
      if bool_decide (is_Some (map !! idx)) then None else
      collect_lines lines (<[idx := data]> map) (Some count) total_len
  end.

(** Source: src/mesh-core/src/ble.rs:85-126 (reassemble_chunks) *)
Definition reassemble_chunks (lines : list (list Z)) : option str :=
  '(map, declared) ← collect_lines lines ∅ None 0;
  count ← declared;
  if (count =? 0)%Z || negb (zsize map =? count)%Z then None else
  pieces ← mapM (λ i, map !! i) (seqZ 0 count);
  Some (concat pieces).
End lines.

(** ** The envelope *)

(** Source: src/mesh-core/src/ble.rs:132-140 (SyncEnvelope) *)
Record SyncEnvelope := mk_envelope { pqc_ct : str; inner : str; sender_pubkey : str; dsa_sig : str }.

Section envelope.
Context `{Primitives, Kem, Aead, MlDsa, JsonText}.

(** Source: src/mesh-core/src/ble.rs:142-150 (hex_to_key32) *)
Definition hex_to_key32 (hex_str : str) : option bytes :=
  raw ← hex_decode_str hex_str; if negb (length raw =? KEY_LEN) then None else Some raw.

(** Source: src/mesh-core/src/ble.rs:155-178 (encrypt_envelope) *)
Definition encrypt_envelope (r : kem_rng) (draw : option bytes) (payload peer_pk_hex dsa_sk_hex sender : str) : may_fail str :=
  _ ← ensure (zlen payload <=? MAX_PAYLOAD_BYTES)%Z "payload exceeds bytes";
  let compressed := compress_json payload in
  '(ct, ss_hex) ← hybrid_encapsulate r peer_pk_hex SYNC_CONTEXT;
  key ← ok_or (Fail "kem shared secret decode") (hex_to_key32 ss_hex);
  inner ← aead_seal draw compressed key;
  let sign_msg := ct ++ [0x3A%Z] ++ SYNC_CONTEXT in
  dsa_sig ← ok_or (Fail "dsa sign") (dsa_sign sign_msg dsa_sk_hex);
  Ok (json_print [(lit "pqc_ct", JStr ct); (lit "inner", JStr inner); (lit "senderPubkey", JStr sender); (lit "dsaSig", JStr dsa_sig)]).

(** serde: an object in which each of the four fields is there once and a string, or an array of four strings.
    Source: src/mesh-core/src/ble.rs:192-193 (decrypt_envelope, parse) *)
Definition parse_envelope (envelope_json : str) : option SyncEnvelope :=
  j ← json_parse envelope_json;
  match j with
  | JArr [JStr ct; JStr inner; JStr sender; JStr sig] => Some (mk_envelope ct inner sender sig)
  | JObj fields =>
      let get key := if length (filter (λ kv : list Z * json, kv.1 = key) fields) =? 1 then as_str (field j key) else None in
      ct ← get (lit "pqc_ct");
      inner ← get (lit "inner");
      sender ← get (lit "senderPubkey");
      sig ← get (lit "dsaSig");
      Some (mk_envelope ct inner sender sig)
  | _ => None
  end.

(** Source: src/mesh-core/src/ble.rs:184-213 (decrypt_envelope) *)
Definition decrypt_envelope (envelope_json own_sk_hex : str) (sender_dsa_pk_hex : option str) : may_fail str :=
  _ ← ensure (zlen envelope_json <=? 256 * 1024)%Z "envelope JSON too large (max 256KB)";
  envelope ← ok_or (Fail "envelope parse") (parse_envelope envelope_json);
  _ ← ensure ((length (pqc_ct envelope) =? HYBRID_CT_LEN * 2) && bool_decide (is_Some (strip_prefix (lit "01") (pqc_ct envelope)))) "invalid hybrid ciphertext";
  let sign_msg := pqc_ct envelope ++ [0x3A%Z] ++ SYNC_CONTEXT in
  _ ← ensure (match sender_dsa_pk_hex with Some pk => dsa_verify_hex (dsa_sig envelope) sign_msg pk | None => true end)
        "sender signature verification failed";
  ss ← hybrid_decapsulate (pqc_ct envelope) own_sk_hex SYNC_CONTEXT;
  key ← ok_or (Fail "kem shared secret decode") (hex_to_key32 ss);
  inner ← aead_open (inner envelope) key;
  inner_str ← ok_or (Fail "inner utf8") (from_utf8 inner);
  let payload := decompress_json inner_str in
  _ ← ensure (negb (bool_decide (payload = []))) "payload decompress failed";
  Ok payload.
End envelope.
