(* ===== verification/BleLaws.v ===== *)
(** Laws of the Bluetooth sync: exactly which sets of lines reassemble, in any
    order, and to what; what is split reassembles; the sealed envelope opens
    to its payload; what the signature does not cover. *)

From S2P Require Import Prelude RustStr Text Primitives Hybrid Nip44 Json Content Ble.

(** ** Reassembly *)

Abbreviation frame := (Z * Z * list Z)%type (only parsing).
Definition frame_key (f : frame) : Z * list Z := (f.1.1, f.2).
Definition frames_of (pieces : list (list Z)) : list frame := (λ ip, (ip.1, zlen pieces, ip.2)) <$> zip (seqZ 0 (zlen pieces)) pieces.
Definition total_length (pieces : list (list Z)) : Z := Z.of_nat (sum_list (length <$> pieces)).

(** The loop over frames already parsed. *)
Fixpoint collect_frames (fs : list frame) (m : gmap Z (list Z)) (declared : option Z) (total_len : Z) : option (gmap Z (list Z) * option Z) :=
  match fs with
  | [] => Some (m, declared)
  | (idx, count, data) :: fs =>
      if match declared with Some c => negb (c =? count)%Z | None => false end then None else
      if (MAX_PAYLOAD_BYTES * 2 <? total_len + zlen data)%Z then None else
      if bool_decide (is_Some (m !! idx)) then None else
      collect_frames fs (<[idx := data]> m) (Some count) (total_len + zlen data)
  end.

(** The frames a loop accepts from a state, and where it ends. *)
Record accepted (fs : list frame) (m : gmap Z (list Z)) (d : option Z) (t : Z) (m' : gmap Z (list Z)) (d' : option Z) : Prop := {
  acc_count : Forall (λ f : frame, d' = Some f.1.2) fs;
  acc_declared : d = None ∧ fs ≠ [] ∨ d' = d;
  acc_nodup : NoDup (frame_key <$> fs).*1;
  acc_fresh : Forall (λ f : frame, m !! f.1.1 = None) fs;
  acc_map : m' = list_to_map (frame_key <$> fs) ∪ m;
  acc_total : fs = [] ∨ (t + total_length (snd <$> fs) ≤ MAX_PAYLOAD_BYTES * 2)%Z
}.

Lemma total_length_cons p ps : total_length (p :: ps) = (zlen p + total_length ps)%Z.
Proof. unfold total_length. cbn. lia. Qed.

Lemma collect_frames_iff fs m d t m' d' : collect_frames fs m d t = Some (m', d') ↔ accepted fs m d t m' d'.
Proof.
  revert m d t. induction fs as [|[[idx count] data] fs IH]; intros m d t; cbn [collect_frames].
  { split.
    - intros [= <- <-]. split; [done|by right|apply NoDup_nil_2|done|cbn; by rewrite (left_id_L ∅ (∪))|by left].
    - intros [_ Hd _ _ -> _]. destruct Hd as [[_ ?]| ->]; [done|]. cbn; by rewrite (left_id_L ∅ (∪)). }
  assert (Hpos : (0 ≤ total_length (snd <$> fs))%Z) by (unfold total_length; lia).
  split.
  - destruct (match d with Some c => _ | None => false end) eqn:Hd; [done|].
    destruct (Z.ltb_spec (MAX_PAYLOAD_BYTES * 2) (t + zlen data)) as [|Ht]; [done|].
    destruct (bool_decide (is_Some (m !! idx))) eqn:Hm; [done|]. apply bool_decide_eq_false, eq_None_not_Some in Hm.
    intros Hc. apply IH in Hc as [Hcount Hdecl Hnd Hfresh -> Htot].
    assert (Hd' : d' = Some count) by (by destruct Hdecl as [[? _]|]).
    assert (Hne : Forall (λ f : frame, idx ≠ f.1.1 ∧ m !! f.1.1 = None) fs).
    { eapply Forall_impl; [exact Hfresh|]. intros f Hf. apply lookup_insert_None in Hf. naive_solver. }
    split.
    + by constructor.
    + destruct d as [c|]; [right|by left]. apply negb_false_iff, Z.eqb_eq in Hd. by rewrite Hd', Hd.
    + cbn. constructor; [|done]. intros Hin. apply list_elem_of_fmap in Hin as ([k p] & -> & Hin). apply list_elem_of_fmap in Hin as (f & E & Hin).
      rewrite Forall_forall in Hne. destruct (Hne f Hin) as [Hn _]. injection E as Ek _. by apply Hn.
    + constructor; [done|]. eapply Forall_impl; [exact Hne|]. by intros f [_ ?].
    + cbn. rewrite <-insert_union_r, insert_union_l; [done|].
      apply not_elem_of_list_to_map_1. intros Hin. apply list_elem_of_fmap in Hin as ([k p] & -> & Hin). apply list_elem_of_fmap in Hin as (f & E & Hin).
      rewrite Forall_forall in Hne. destruct (Hne f Hin) as [Hn _]. injection E as Ek _. by apply Hn.
    + right. cbn [fmap list_fmap]. rewrite total_length_cons. cbn [snd]. destruct Htot as [->|Htot]; [|lia]. unfold total_length. cbn. lia.
  - intros [Hcount Hdecl Hnd Hfresh -> Htot]. apply Forall_cons in Hcount as [Hd' Hcount]. cbn in Hd'. subst d'. apply Forall_cons in Hfresh as [Hm Hfresh].
    cbn in Hnd. apply NoDup_cons in Hnd as [Hnin Hnd]. destruct Htot as [?|Htot]; [done|]. cbn [fmap list_fmap] in Htot. rewrite total_length_cons in Htot. cbn [snd] in Htot.
    assert (match d with Some c => negb (c =? count)%Z | None => false end = false) as ->.
    { destruct d as [c|]; [|done]. destruct Hdecl as [[? _]|[= ->]]; [done|]. by rewrite Z.eqb_refl. }
    rewrite (proj2 (Z.ltb_ge _ _)) by lia. cbn in Hm. rewrite bool_decide_eq_false_2 by (by rewrite Hm; intros [? ?]).
    apply IH. split.
    + done.
    + by right.
    + done.
    + rewrite Forall_forall in Hfresh |- *. intros f Hf. apply lookup_insert_None. split; [by apply Hfresh|]. intros ->. apply Hnin.
      apply list_elem_of_fmap. exists (frame_key f). split; [done|]. by apply list_elem_of_fmap_2.
    + cbn. rewrite <-insert_union_r, insert_union_l; [done|]. by apply not_elem_of_list_to_map_1.
    + destruct fs; [by left|right]. lia.
Qed.

Section reassembly.
Context `{Primitives}.

Lemma collect_lines_frames lines m d t : collect_lines lines m d t = (fs ← mapM parse_line lines; collect_frames fs m d t).
Proof.
  revert m d t. induction lines as [|l lines IH]; intros m d t; [done|]. cbn [collect_lines mapM]. destruct (parse_line l) as [[[idx count] data]|]; [|done].
  cbn [mbind option_bind].
  destruct (match d with Some c => negb (c =? count)%Z | None => false end) eqn:E1; [|destruct (MAX_PAYLOAD_BYTES * 2 <? t + zlen data)%Z eqn:E2;
    [|destruct (bool_decide (is_Some (m !! idx))) eqn:E3; [|rewrite IH]]];
  destruct (mapM parse_line lines) as [fs|]; cbn [mret option_ret mbind option_bind collect_frames]; rewrite ?E1, ?E2, ?E3; done.
Qed.

Lemma sum_perm (l k : list nat) : l ≡ₚ k → sum_list l = sum_list k.
Proof. induction 1; cbn; lia. Qed.

Lemma frames_keys pieces : frame_key <$> frames_of pieces = zip (seqZ 0 (zlen pieces)) pieces.
Proof. unfold frames_of. rewrite <-list_fmap_compose. rewrite <-(list_fmap_id (zip _ _)) at 2. apply list_fmap_ext. by intros _ [? ?] _. Qed.

Lemma frames_data pieces : snd <$> frames_of pieces = pieces.
Proof.
  unfold frames_of. rewrite <-list_fmap_compose. transitivity ((zip (seqZ 0 (zlen pieces)) pieces).*2); [by apply list_fmap_ext; intros _ [? ?] _|].
  apply snd_zip. rewrite length_seqZ. lia.
Qed.

Lemma zip_indices (pieces : list (list Z)) : (zip (seqZ 0 (zlen pieces)) pieces).*1 = seqZ 0 (zlen pieces).
Proof. apply fst_zip. rewrite length_seqZ. lia. Qed.

(** The pieces of a map that has exactly the indices below its size. *)
Lemma map_pieces (m : gmap Z (list Z)) n pieces : (0 ≤ n)%Z → zsize m = n → mapM (λ i, m !! i) (seqZ 0 n) = Some pieces →
  n = zlen pieces ∧ m = list_to_map (zip (seqZ 0 n) pieces).
Proof.
  intros Hn Hs Hp. apply mapM_Some in Hp. assert (Hl : n = zlen pieces).
  { apply Forall2_length in Hp. rewrite length_seqZ in Hp. lia. }
  split; [done|]. symmetry. assert (Hnd : NoDup (zip (seqZ 0 n) pieces).*1) by (rewrite Hl, zip_indices; apply NoDup_seqZ).
  apply map_subseteq_size_eq.
  - apply map_subseteq_spec. intros i x Hi. apply elem_of_list_to_map in Hi; [|done]. apply list_elem_of_lookup in Hi as [j Hj].
    apply lookup_zip_Some in Hj as [Hj1 Hj2]. by apply (Forall2_lookup_lr _ _ _ _ _ _ Hp Hj1 Hj2).
  - rewrite <-(length_map_to_list (list_to_map (zip (seqZ 0 n) pieces) : gmap Z (list Z))), (map_to_list_to_map _ Hnd), length_zip, length_seqZ. lia.
Qed.

Lemma frames_reassemble lines fs pieces : mapM parse_line lines = Some fs → fs ≡ₚ frames_of pieces → pieces ≠ [] →
  (total_length pieces ≤ MAX_PAYLOAD_BYTES * 2)%Z → reassemble_chunks lines = Some (concat pieces).
Proof.
  intros Hparse Hfs Hne Htot. unfold reassemble_chunks. rewrite collect_lines_frames, Hparse. cbn [mbind option_bind].
  assert (Hkeys : frame_key <$> fs ≡ₚ zip (seqZ 0 (zlen pieces)) pieces) by (by rewrite Hfs, frames_keys).
  assert (Hnd : NoDup (frame_key <$> fs).*1) by (rewrite Hkeys, zip_indices; apply NoDup_seqZ).
  assert (Hc : collect_frames fs ∅ None 0 = Some (list_to_map (zip (seqZ 0 (zlen pieces)) pieces), Some (zlen pieces))).
  { apply collect_frames_iff. split.
    - rewrite Forall_forall. intros f Hf. rewrite Hfs in Hf. unfold frames_of in Hf. apply list_elem_of_fmap in Hf as (? & -> & _). done.
    - left. split; [done|]. intros ->. apply Permutation_nil_l in Hfs. apply (f_equal length) in Hfs. unfold frames_of in Hfs.
      rewrite length_fmap, length_zip, length_seqZ in Hfs. destruct pieces; [done|cbn in Hfs; lia].
    - done.
    - rewrite Forall_forall. intros f _. apply lookup_empty.
    - rewrite (right_id_L ∅ (∪)). symmetry. by apply list_to_map_proper.
    - right. unfold total_length in *. rewrite (sum_perm _ (length <$> pieces)); [lia|]. by rewrite Hfs, frames_data. }
  rewrite Hc. cbn [mbind option_bind]. assert (Hlen : (zlen pieces =? 0)%Z = false) by (apply Z.eqb_neq; destruct pieces; [done|cbn; lia]). rewrite Hlen.
  assert (Hnd' : NoDup (zip (seqZ 0 (zlen pieces)) pieces).*1) by (rewrite zip_indices; apply NoDup_seqZ).
  assert (zsize (list_to_map (zip (seqZ 0 (zlen pieces)) pieces) : gmap Z (list Z)) = zlen pieces) as ->.
  { rewrite <-length_map_to_list, map_to_list_to_map, length_zip, length_seqZ by done. lia. }
  rewrite Z.eqb_refl. cbn [orb negb]. assert (Hm : mapM (λ i, (list_to_map (zip (seqZ 0 (zlen pieces)) pieces) : gmap Z (list Z)) !! i) (seqZ 0 (zlen pieces)) = Some pieces).
  { apply mapM_Some. apply Forall2_same_length_lookup_2; [rewrite length_seqZ; lia|]. intros i x y Hx Hy.
    apply elem_of_list_to_map_1; [done|]. apply list_elem_of_lookup. exists i. by apply lookup_zip_Some. }
  by rewrite Hm.
Qed.

Lemma reassemble_frames lines out : reassemble_chunks lines = Some out →
  ∃ fs pieces, mapM parse_line lines = Some fs ∧ fs ≡ₚ frames_of pieces ∧ pieces ≠ [] ∧
    (total_length pieces ≤ MAX_PAYLOAD_BYTES * 2)%Z ∧ out = concat pieces.
Proof.
  intros Hr. unfold reassemble_chunks in Hr. rewrite collect_lines_frames in Hr. destruct (mapM parse_line lines) as [fs|]; cbn [mbind option_bind] in Hr; [|done].
  destruct (collect_frames fs ∅ None 0) as [[m d]|] eqn:Hc; [|done]. cbn [mbind option_bind] in Hr.
  destruct d as [n|]; [|done]. cbn [mbind option_bind] in Hr. destruct ((n =? 0)%Z || _) eqn:Hb; [done|]. apply orb_false_iff in Hb as [Hn0 Hs].
  apply Z.eqb_neq in Hn0. apply negb_false_iff, Z.eqb_eq in Hs. destruct (mapM _ _) as [pieces|] eqn:Hm; [|done]. injection Hr as <-.
  apply collect_frames_iff in Hc as [Hcount _ Hnd _ -> Htot]. rewrite (right_id_L ∅ (∪)) in Hs, Hm.
  destruct (map_pieces _ n pieces ltac:(lia) Hs Hm) as [Hl Hmap].
  assert (Hperm : frame_key <$> fs ≡ₚ zip (seqZ 0 (zlen pieces)) pieces).
  { rewrite <-(map_to_list_to_map (M := gmap Z) (frame_key <$> fs)), Hmap, Hl by done. apply map_to_list_to_map. rewrite zip_indices. apply NoDup_seqZ. }
  assert (Hfs : fs ≡ₚ frames_of pieces).
  { unfold frames_of. rewrite <-Hperm, <-list_fmap_compose. apply reflexive_eq. rewrite <-(list_fmap_id fs) at 1. apply list_fmap_ext.
    intros i [[idx count] data] Hi. rewrite Forall_forall in Hcount. apply list_elem_of_lookup_2, Hcount in Hi. cbn in Hi. injection Hi as <-. cbn. by rewrite Hl. }
  exists fs, pieces. split; [done|]. split; [done|]. split; [intros ->; cbn in Hl; lia|]. split; [|done].
  destruct Htot as [->|Htot]; [by cbn in Hs; rewrite map_size_empty in Hs; destruct Hn0|].
  unfold total_length in *. rewrite (sum_perm _ (length <$> pieces)) in Htot; [lia|]. by rewrite Hfs, frames_data.
Qed.

(** C36: the sets of lines that reassemble, in whatever order they come, are exactly the frames of some pieces, each
    once, every one with the number of pieces, within the size limits, and they give the pieces in order. *)
Theorem reassemble_iff lines out : reassemble_chunks lines = Some out ↔
  ∃ fs pieces, mapM parse_line lines = Some fs ∧ fs ≡ₚ frames_of pieces ∧ pieces ≠ [] ∧
    (total_length pieces ≤ MAX_PAYLOAD_BYTES * 2)%Z ∧ out = concat pieces.
Proof.
  split; [apply reassemble_frames|]. intros (fs & pieces & Hp & Hfs & Hne & Ht & ->). by eapply frames_reassemble.
Qed.
End reassembly.

(** ** Splitting *)

Lemma no_plus (c : Z) (r : list Z) : c ≠ 0x2B%Z → match c :: r with 0x2B%Z :: r0 => r0 | _ => c :: r end = c :: r.
Proof. intros Hc. repeat (case_match; try done); congruence. Qed.

Lemma parse_print_u64 z : (0 ≤ z ≤ u64_max)%Z → parse_u64 (print_u64 z) = Some z.
Proof.
  intros Hz. assert (u64_max < 10 ^ 20)%Z by (vm_compute; reflexivity). unfold parse_u64, parse_unsigned, print_u64.
  destruct (digits 20 z) as [|c r] eqn:E; [exfalso; exact (digits_nonempty 20 z (Nat.neq_succ_0 19) E)|]. destruct (digits_not_sign z c r) as [H1 _]; [lia|done|].
  rewrite (no_plus c r H1).
  rewrite <-E, parse_digits_digits by lia. cbn [mbind option_bind]. by rewrite (proj2 (Z.leb_le _ _)) by lia.
Qed.

Lemma print_u64_chars z : (0 ≤ z)%Z → Forall (λ b, 0x30 ≤ b ≤ 0x39)%Z (print_u64 z).
Proof.
  intros Hz. pose proof (digits_digits 20 z Hz) as Hd. apply Forall_forall. intros b Hb. rewrite forallb_forall in Hd.
  apply list_elem_of_In, Hd in Hb. unfold is_ascii_digit, between in Hb. apply andb_true_iff in Hb as [?%Z.leb_le ?%Z.leb_le]. lia.
Qed.

Lemma digits_length n z : length (digits n z) ≤ n.
Proof. revert z. induction n as [|n IH]; intros z; [done|]. cbn [digits]. rewrite length_app. cbn [length]. destruct (z <? 10)%Z; [cbn; lia|]. specialize (IH (z / 10)%Z). lia. Qed.

Lemma no_colon z : (0 ≤ z)%Z → 0x3A%Z ∉ print_u64 z.
Proof. intros Hz Hin. pose proof (print_u64_chars z Hz) as Hc. rewrite Forall_forall in Hc. apply Hc in Hin. lia. Qed.

Section splitting.
Context `{PrimitiveLaws}.

Lemma line_ascii i count piece : is_ascii piece → is_ascii (chunk_line i count piece).
Proof.
  intros Hp. assert (Hd : ∀ n, is_ascii (print_u64 (Z.of_nat n))).
  { intros n. eapply Forall_impl; [apply print_u64_chars; lia|]. intros b Hb. cbn in *. lia. }
  unfold chunk_line. rewrite !is_ascii_app. assert (is_ascii [0x3A%Z]) by (repeat constructor; lia). naive_solver.
Qed.

Lemma parse_chunk_line i count piece : (i < 4096)%nat → (0 < count ≤ 4096)%nat → is_ascii piece → length piece ≤ MAX_MTU →
  parse_line (base64_encode (chunk_line i count piece)) = Some (Z.of_nat i, Z.of_nat count, piece).
Proof.
  intros Hi Hcount Hp Hl. unfold parse_line. rewrite base64_length. unfold MAX_MTU in *.
  assert (Hlen : length (chunk_line i count piece) ≤ 42 + length piece).
  { unfold chunk_line, print_u64. rewrite !length_app. pose proof (digits_length 20 (Z.of_nat i)). pose proof (digits_length 20 (Z.of_nat count)). cbn [length]. lia. }
  assert (Hd3 : (length (chunk_line i count piece) + 2) / 3 ≤ 512).
  { transitivity (1536 / 3); [apply Nat.Div0.div_le_mono; lia|done]. }
  rewrite (proj2 (Nat.ltb_ge _ _)) by lia.
  rewrite base64_roundtrip by (by apply is_ascii_bytes, line_ascii). cbn [mbind option_bind]. rewrite from_utf8_ascii by (by apply line_ascii).
  cbn [mbind option_bind]. unfold chunk_line. cbn [app]. rewrite (split_once_app _ _ _ (no_colon (Z.of_nat i) ltac:(lia))).
  rewrite parse_print_u64 by (unfold u64_max; lia). cbn [mbind option_bind].
  rewrite (split_once_app _ _ _ (no_colon (Z.of_nat count) ltac:(lia))). rewrite parse_print_u64 by (unfold u64_max; lia). cbn [mbind option_bind].
  rewrite (proj2 (Z.eqb_neq _ _)), (proj2 (Z.ltb_ge _ _)) by lia. cbn [orb mbind option_bind]. by rewrite (proj2 (Nat.ltb_ge 512 (length piece))) by lia.
Qed.
End splitting.

Lemma chunks_of_spec {A} fuel size (l : list A) : 0 < size → length l ≤ fuel →
  concat (chunks_of fuel size l) = l ∧ Forall (λ c, c ≠ [] ∧ length c ≤ size) (chunks_of fuel size l) ∧
  length (chunks_of fuel size l) = (length l + size - 1) / size.
Proof.
  intros Hs. revert l. induction fuel as [|fuel IH]; intros [|x l] Hl; [|cbn in Hl; lia| |]; cbn [chunks_of].
  1, 2: split; [done|]; split; [done|]; cbn [length]; rewrite Nat.div_small by lia; done.
  destruct (IH (drop size (x :: l))) as (Hc & Hf & Hn); [rewrite length_drop; cbn in *; lia|]. split; [|split].
  - cbn [concat]. by rewrite Hc, take_drop.
  - constructor; [|done]. split; [destruct size; [lia|done]|rewrite length_take; lia].
  - cbn [length]. rewrite Hn, length_drop. cbn [length]. destruct (decide (S (length l) ≤ size)) as [Hle|Hgt].
    + replace (S (length l) - size) with 0 by lia. rewrite Nat.div_small by lia. apply Nat.div_unique with (length l); lia.
    + replace (S (length l) + size - 1) with (1 * size + (S (length l) - size + size - 1)) by lia. rewrite Nat.div_add_l by lia. lia.
Qed.

Lemma concat_concat {A} (g : list (list (list A))) : concat (concat g) = concat ((λ x, concat x) <$> g).
Proof. induction g as [|x g IH]; [done|]. cbn. by rewrite concat_app, IH. Qed.

Lemma concat_singletons {A} (l : list A) : concat ((λ b, [b]) <$> l) = l.
Proof. induction l as [|b l IH]; [done|]. cbn. f_equal. exact IH. Qed.

Section roundtrip.
Context `{PrimitiveLaws}.

(** An ASCII payload cut into lines for any transfer unit comes back whole from its lines in any order, as long as
    it is not empty, takes at most 4096 lines and at most 131072 bytes. *)
Theorem split_reassembles data mtu lines :
  is_ascii data → data ≠ [] → (zlen data ≤ MAX_PAYLOAD_BYTES * 2)%Z → length data ≤ 4096 * chunk_size mtu →
  lines ≡ₚ split_chunks data mtu → reassemble_chunks lines = Some data.
Proof.
  intros Ha Hne Htot Hcount Hperm. set (size := chunk_size mtu) in *.
  assert (Hsize : 20 ≤ size ≤ 509) by (unfold size, chunk_size, DEFAULT_MTU, MAX_MTU; lia).
  unfold split_chunks in Hperm. fold size in Hperm. rewrite (chars_ascii data Ha), length_fmap in Hperm.
  set (cs := (λ b, [b]) <$> data : list (list Z)) in *. assert (Hlcs : length cs = length data) by (apply length_fmap).
  destruct (chunks_of_spec (length data) size cs) as (Hcat & Hch & Hn); [lia|lia|]. rewrite Hlcs in Hn.
  set (groups := chunks_of (length data) size cs) in *. rewrite <-Hn in Hperm. set (pieces := (λ x, concat x) <$> groups).
  assert (Hpieces : concat pieces = data).
  { unfold pieces. rewrite <-concat_concat.
    rewrite Hcat. apply concat_singletons. }
  assert (Hlen : length pieces = length groups) by (apply length_fmap).
  assert (Hcnt : 0 < length groups ≤ 4096).
  { rewrite Hn. split.
    - apply Nat.div_str_pos. destruct data; [done|cbn; lia].
    - transitivity ((4096 * size + size - 1) / size); [apply Nat.Div0.div_le_mono; lia|].
      replace (4096 * size + size - 1) with (size - 1 + 4096 * size) by lia. rewrite Nat.div_add, Nat.div_small by lia. lia. }
  assert (Hone : Forall (λ p, is_ascii p ∧ length p ≤ MAX_MTU) pieces).
  { unfold pieces. apply Forall_fmap. rewrite Forall_forall in Hch |- *. intros g Hg. destruct (Hch g Hg) as [_ Hgl].
    assert (Hgin : ∀ c, c ∈ g → ∃ b, c = [b] ∧ (0 ≤ b < 0x80)%Z).
    { intros c Hc. assert (Hin : c ∈ cs) by (rewrite <-Hcat; apply list_elem_of_In, in_concat; exists g; split; by apply list_elem_of_In). apply list_elem_of_fmap in Hin as (b & -> & Hb).
      exists b. split; [done|]. unfold is_ascii in Ha. rewrite Forall_forall in Ha. by apply Ha. }
    cbn. clear -Hgin Hgl Hsize. revert Hgl. unfold MAX_MTU. intros Hgl. assert (Hg : is_ascii (concat g) ∧ length (concat g) = length g); [|split; [apply Hg|lia]].
    clear Hgl. induction g as [|c g IH]; [split; [constructor|done]|]. destruct (Hgin c) as (b & -> & Hb); [apply list_elem_of_here|]. destruct IH as [IH1 IH2]; [intros c Hc; apply Hgin; by apply list_elem_of_further|].
    cbn. split; [by constructor|lia]. }
  set (line := λ i p, base64_encode (chunk_line i (length groups) p)).
  assert (Hlines : imap (λ i piece, base64_encode (chunk_line i (length groups) (concat piece))) groups = imap line pieces).
  { unfold pieces. by rewrite imap_fmap. }
  rewrite Hlines in Hperm. set (parse := λ l, default (0, 0, [])%Z (parse_line l)).
  assert (Hparse : ∀ i p, pieces !! i = Some p → parse_line (line i p) = Some (Z.of_nat i, zlen pieces, p)).
  { intros i p Hip. rewrite Forall_forall in Hone. destruct (Hone p) as [Hpa Hpl]; [by apply list_elem_of_lookup_2 in Hip|].
    apply lookup_lt_Some in Hip as Hi. unfold line. rewrite parse_chunk_line by (done || lia). by rewrite Hlen. }
  assert (Himap : parse <$> imap line pieces = frames_of pieces).
  { apply list_eq. intros i. rewrite list_lookup_fmap, list_lookup_imap. unfold frames_of. rewrite list_lookup_fmap.
    destruct (pieces !! i) as [p|] eqn:Hip; cbn [fmap option_fmap option_map].
    - unfold parse. rewrite (Hparse i p Hip). cbn [default]. assert (zip (seqZ 0 (zlen pieces)) pieces !! i = Some (Z.of_nat i, p)) as ->; [|done].
      apply lookup_zip_Some. split; [|done]. apply lookup_lt_Some in Hip. rewrite lookup_seqZ_lt by lia. done.
    - assert (zip (seqZ 0 (zlen pieces)) pieces !! i = None) as ->; [|done]. apply lookup_ge_None. rewrite length_zip, length_seqZ. apply lookup_ge_None in Hip. lia. }
  rewrite <-Hpieces. apply (frames_reassemble lines (parse <$> lines)); [|by rewrite Hperm, Himap|intros E; rewrite E in Hlen; cbn in Hlen; lia|].
  - apply mapM_Some. apply Forall2_fmap_r, Forall_Forall2_diag, Forall_forall. intros l Hl. rewrite Hperm in Hl.
    apply elem_of_lookup_imap in Hl as (i & p & -> & Hip). cbn. unfold parse. by rewrite (Hparse i p Hip).
  - unfold total_length. rewrite <-length_concat, Hpieces. done.
Qed.
End roundtrip.

(** ** The envelope *)

Section envelopes.
Context {P : Primitives} {PL : PrimitiveLaws} {A : Aead} {AL : AeadLaws} {D : MlDsa} {DL : MlDsaLaws} {J : JsonText} {JL : JsonLaws}.
(** The hex crate prints the byte 1 as 01; deflate gives at least one byte for a text that is not empty. *)
Hypothesis hex_one : ∀ l, ∃ r, hex_encode (1%Z :: l) = lit "01" ++ r.
Hypothesis deflate_some : ∀ d z, d ≠ [] → deflate d = Some z → z ≠ [].

Lemma encapsulate_version d1 d2 pk dom ct ss : hybrid_encapsulate_bytes d1 d2 pk dom = Ok (ct, ss) → ∃ l, ct = 1%Z :: l.
Proof.
  unfold hybrid_encapsulate_bytes. intros He. destruct (_ =? _)%Z; [|done]. destruct d1 as [eph|]; [|done]. destruct d2 as [coins|]; [|done].
  cbn [ensure ok_or mbind result_bind] in He. destruct (mlkem_encapsulate _ _) as [[mct mss]|]; [|done]. cbn [ok_or mbind result_bind] in He.
  destruct (pqc_hkdf_sha256 _ _ _ _); [|done]. cbn [mbind result_bind] in He. injection He as <- _. by eexists.
Qed.

(** An encapsulation to a generated key. *)
Lemma encapsulated r pk sk dom ct ss : hybrid_pair pk sk → hex_encapsulate r pk dom = Ok (ct, ss) →
  length ct = HYBRID_CT_LEN * 2 ∧ is_Some (strip_prefix (lit "01") ct) ∧ hex_decapsulate ct sk dom = Ok ss ∧
  ∃ b, hex_to_key32 ss = Some b.
Proof.
  intros Hp He. destruct (hex_kem_correct _ _ _ _ _ _ Hp He) as (Hl & (b & -> & Hb & Hbl) & Hd).
  destruct (hybrid_pair_pk _ _ Hp) as (pkb & Hpk & Hpkb & _). destruct (hex_encapsulate_inv _ _ _ _ _ _ Hpk Hpkb He) as (eph & coins & ctb & ssb & _ & _ & Hbytes & -> & _).
  destruct (encapsulate_version _ _ _ _ _ _ Hbytes) as [l ->]. destruct (hex_one l) as [rest E].
  split; [lia|]. split; [rewrite E, strip_prefix_app; by eexists|]. split; [done|]. exists b. unfold hex_to_key32. rewrite hex_roundtrip by done.
  cbn [mbind option_bind]. by rewrite Hbl.
Qed.

(** Compressing and decompressing a text within the limits. *)
Lemma compress_roundtrip payload : utf8_valid payload = true → payload ≠ [] → (zlen payload ≤ MAX_PAYLOAD_BYTES)%Z →
  decompress_json (compress_json payload) = payload ∧ Forall visible (compress_json payload) ∧ compress_json payload ≠ [] ∧
  (zlen (compress_json payload) < 2 ^ 32)%Z.
Proof.
  intros Hu Hne Hl. unfold compress_json, compress. unfold MAX_PAYLOAD_BYTES in Hl.
  rewrite (proj2 (Z.leb_le _ _)) by (unfold MAX_COMPRESS_BYTES; lia). cbn [ensure mbind result_bind].
  destruct (deflate_total payload) as [z Hz]. rewrite Hz. cbn [ok_or]. pose proof (deflate_some _ _ Hne Hz) as Hzne.
  pose proof (deflate_bytes _ _ (utf8_bytes _ Hu) Hz) as Hzb. pose proof (deflate_length _ _ Hz) as Hzl.
  assert (Hlen : (zlen (base64_encode z) ≤ 400000)%Z).
  { rewrite base64_length, Nat2Z.inj_mul, Nat2Z.inj_div. pose proof (Z.mul_div_le (Z.of_nat (length z + 2)) 3 ltac:(lia)). change (Z.of_nat 3) with 3%Z. lia. }
  split; [|split; [by apply base64_visible|split; [|lia]]].
  - unfold decompress_json. rewrite (proj2 (Z.ltb_ge _ _)) by (unfold MAX_DECOMPRESS_BYTES; lia). rewrite base64_roundtrip by done.
    unfold decompress. rewrite (deflate_roundtrip _ _ _ Hz) by (unfold MAX_DECOMPRESS_BYTES; lia). cbn [ok_or]. unfold from_utf8. by rewrite Hu.
  - intros E. apply (f_equal length) in E. rewrite base64_length in E. destruct z as [|b z]; [done|]. cbn [length] in E.
    pose proof (Nat.Div0.div_le_mono 3 (S (length z) + 2) 3 ltac:(lia)) as Hdiv. change (3 / 3) with 1 in Hdiv. lia.
Qed.

Lemma parse_envelope_print ct i sender sig :
  parse_envelope (json_print [(lit "pqc_ct", JStr ct); (lit "inner", JStr i); (lit "senderPubkey", JStr sender); (lit "dsaSig", JStr sig)]) =
  Some (mk_envelope ct i sender sig).
Proof.
  set (fields := [_; _; _; _]). assert (Hd : NoDup fields.*1) by (apply (bool_decide_unpack _); by vm_compute).
  unfold parse_envelope. rewrite (json_roundtrip fields Hd). by vm_compute.
Qed.

Lemma dsa_roundtrip seed msg sig : length seed = 32 → all_bytes seed → dsa_sign msg (hex_encode seed) = Some sig →
  dsa_verify_hex sig msg (hex_encode (dsa_vk seed)) = true.
Proof.
  intros Hl Hb. unfold dsa_sign, dsa_sign_bytes, make_signer_from_secret_bytes. rewrite hex_roundtrip by done. cbn [mbind option_bind]. rewrite Hl.
  cbn [Nat.eqb mbind option_bind]. intros [= <-]. unfold dsa_verify_hex, dsa_verify. rewrite !hex_roundtrip by (apply dsa_sig_bytes || apply dsa_vk_bytes).
  by apply dsa_correct.
Qed.

(** An envelope made for a generated hybrid key and signed with a generated ML-DSA key opens with the secret key,
    the signature checked against the sender's key, to the payload that was sealed. *)
Theorem envelope_roundtrip r nonce payload pk sk seed sender json :
  hybrid_pair pk sk → length seed = 32 → all_bytes seed → length nonce = 32 → all_bytes nonce →
  utf8_valid payload = true → payload ≠ [] → encrypt_envelope r (Some nonce) payload pk (hex_encode seed) sender = Ok json →
  (zlen json ≤ 256 * 1024)%Z → decrypt_envelope json sk (Some (hex_encode (dsa_vk seed))) = Ok payload.
Proof.
  intros Hpair Hs Hsb Hn Hnb Hu Hne He Hj. unfold encrypt_envelope in He. apply result_bind_ok in He as ([] & Hlen & He). apply ensure_ok, Z.leb_le in Hlen.
  destruct (compress_roundtrip payload Hu Hne Hlen) as (Hdec & Hvis & Hcne & Hclen).
  apply result_bind_ok in He as ([ct ss] & Hkem & He). destruct (encapsulated _ _ _ _ _ _ Hpair Hkem) as (Hctl & Hct & Hdecap & key & Hkey).
  rewrite Hkey in He. cbn [ok_or mbind result_bind] in He. apply result_bind_ok in He as (i & Hseal & He).
  destruct (aead_roundtrip nonce (compress_json payload) key) as (i' & Hseal' & Hopen);
    [done|done|by apply is_ascii_bytes, visible_ascii|done|done|]. assert (i' = i) as -> by congruence.
  apply result_bind_ok in He as (sig & Hsig & He). apply ok_or_ok in Hsig. cbn beta in He. injection He as <-.
  unfold decrypt_envelope. rewrite (proj2 (Z.leb_le _ _)) by done. cbn [ensure mbind result_bind]. rewrite parse_envelope_print. cbn [ok_or mbind result_bind pqc_ct].
  rewrite Hctl, Nat.eqb_refl, bool_decide_eq_true_2 by done. cbn [andb ensure mbind result_bind dsa_sig].
  rewrite (dsa_roundtrip seed _ sig Hs Hsb Hsig). cbn [ensure mbind result_bind]. change (hybrid_decapsulate ct sk SYNC_CONTEXT) with (hex_decapsulate ct sk SYNC_CONTEXT).
  rewrite Hdecap. cbn [mbind result_bind]. rewrite Hkey. cbn [ok_or mbind result_bind inner]. rewrite Hopen. cbn [mbind result_bind].
  rewrite from_utf8_ascii by (by apply visible_ascii). cbn [ok_or mbind result_bind]. rewrite Hdec.
  by rewrite bool_decide_eq_false_2.
Qed.

(** The signature binds the ciphertext of the key only: with another body, sealed to the same key by whoever has it, and
    with any other claimed sender, the envelope opens all the same. *)
Theorem signature_skips_body ct sig i i' sender sender' sk pk key p :
  let env inner sender := json_print [(lit "pqc_ct", JStr ct); (lit "inner", JStr inner); (lit "senderPubkey", JStr sender); (lit "dsaSig", JStr sig)] in
  (zlen (env i' sender') ≤ 256 * 1024)%Z → is_ok (decrypt_envelope (env i sender) sk (Some pk)) = true →
  (ss ← hybrid_decapsulate ct sk SYNC_CONTEXT; ok_or (Fail "kem shared secret decode") (hex_to_key32 ss)) = Ok key →
  aead_open i' key = Ok (compress_json p) → utf8_valid p = true → p ≠ [] → (zlen p ≤ MAX_PAYLOAD_BYTES)%Z →
  decrypt_envelope (env i' sender') sk (Some pk) = Ok p.
Proof.
  intros env Hlen Hok Hkey Hopen Hu Hne Hpl. destruct (compress_roundtrip p Hu Hne Hpl) as (Hdec & Hvis & _ & _).
  destruct (decrypt_envelope (env i sender) sk (Some pk)) as [q|] eqn:E; [|done]. clear Hok. unfold decrypt_envelope in *.
  apply result_bind_ok in E as ([] & _ & E). unfold env in E at 1. rewrite parse_envelope_print in E. cbn [ok_or mbind result_bind pqc_ct dsa_sig inner] in E.
  apply result_bind_ok in E as ([] & Hct & E). apply result_bind_ok in E as ([] & Hsig & _).
  rewrite (proj2 (Z.leb_le _ _)) by done. cbn [ensure mbind result_bind]. unfold env. rewrite parse_envelope_print. cbn [ok_or mbind result_bind pqc_ct dsa_sig inner].
  rewrite Hct. cbn [mbind result_bind]. rewrite Hsig. cbn [mbind result_bind]. apply result_bind_ok in Hkey as (ss & -> & Hk). cbn [mbind result_bind].
  apply ok_or_ok in Hk. rewrite Hk. cbn [ok_or mbind result_bind]. rewrite Hopen. cbn [mbind result_bind].
  rewrite from_utf8_ascii by (by apply visible_ascii). cbn [ok_or mbind result_bind]. rewrite Hdec.
  by rewrite bool_decide_eq_false_2.
Qed.
End envelopes.

(** ** Examples *)

Module BleExamples.
Import Toy ToyJsonText.

#[local] Instance toy_dsa : MlDsa := {|
  dsa_vk seed := digest 32 seed;
  seed_sign seed msg := digest 32 (digest 32 seed ++ msg);
  expanded_sign sk msg := digest 32 (sk ++ msg);
  vk_verify vk msg sig := bool_decide (sig = digest 32 (vk ++ msg))
|}.
#[local] Instance toy_dsa_laws : MlDsaLaws.
Proof.
  split.
  - intros seed msg _. by apply bool_decide_eq_true_2.
  - intros seed. apply digest_bytes.
  - intros seed msg. apply digest_bytes.
Qed.

Definition text : str := lit "two posts and a like, to sync".

Lemma split_reassembles_witness : reassemble_chunks (reverse (split_chunks text 0)) = Some text.
Proof.
  apply (split_reassembles text 0).
  - apply (bool_decide_unpack _). by vm_compute.
  - discriminate.
  - by vm_compute.
  - apply (bool_decide_unpack _). by vm_compute.
  - apply reverse_Permutation.
Defined.

(** A piece of 509 characters of two bytes each is refused by the receiver, and so is the empty payload. *)
Definition accents : str := concat (replicate 509 [0xC3; 0xA9]%Z).
Example long_piece_refused : utf8_valid accents = true ∧ length (split_chunks accents 512) = 1 ∧ reassemble_chunks (split_chunks accents 512) = None.
Proof. by vm_compute. Qed.
Example empty_refused : split_chunks [] 512 = [] ∧ reassemble_chunks (split_chunks [] 512) = None.
Proof. done. Qed.

Definition hybrid_keys : str * str := default ([], []) (ok (hex_keygen (Some (replicate 32 1%Z), Some (replicate 64 2%Z)))).
Lemma hybrid_keys_pair : hybrid_pair hybrid_keys.1 hybrid_keys.2.
Proof.
  exists (replicate 32 1%Z), (replicate 64 2%Z). split; [done|]. split; [done|]. split; [|by vm_compute].
  apply (bool_decide_unpack _). by vm_compute.
Qed.
Lemma draws_wf : wf_draw 32 (Some (replicate 32 3%Z)) ∧ wf_draw 64 (Some (replicate 64 4%Z)).
Proof. split; apply wf_draw_replicate; unfold is_byte; lia. Qed.
Definition rng : kem_rng := exist _ (Some (replicate 32 3%Z), Some (replicate 64 4%Z)) draws_wf.
Definition signer : bytes := replicate 32 6%Z.
Definition sealed : str := default [] (ok (encrypt_envelope rng (Some (replicate 32 8%Z)) text hybrid_keys.1 (hex_encode signer) (lit "a"))).

Lemma sealed_ok : encrypt_envelope rng (Some (replicate 32 8%Z)) text hybrid_keys.1 (hex_encode signer) (lit "a") = Ok sealed.
Proof. by vm_compute. Qed.

Lemma envelope_roundtrip_witness : decrypt_envelope sealed hybrid_keys.2 (Some (hex_encode (dsa_vk signer))) = Ok text.
Proof.
  apply (envelope_roundtrip) with (r := rng) (nonce := replicate 32 8%Z) (pk := hybrid_keys.1) (sender := lit "a").
  - intros l. exists (to_hex l). reflexivity.
  - intros d z Hd Hz. vm_compute in Hz. congruence.
  - exact hybrid_keys_pair.
  - reflexivity.
  - apply (bool_decide_unpack _). by vm_compute.
  - reflexivity.
  - apply (bool_decide_unpack _). by vm_compute.
  - by vm_compute.
  - discriminate.
  - exact sealed_ok.
  - by vm_compute.
Defined.
End BleExamples.
