(* ===== verification/Lan.v ===== *)
(** Two small modules of src/crypto-core: the sessions of a LAN pull (lan.rs:
    an X25519 agreement, a derived key, sealed frames), and the record query
    of pir.rs, which the source itself calls a toy. *)

From S2P Require Import Prelude RustStr Primitives Hybrid Seal.

(** ** LAN sessions *)

(** Source: src/crypto-core/src/lan.rs:15-15 (NONCE_LEN) *)
Definition LAN_NONCE_LEN : nat := 12.
(** Source: src/crypto-core/src/lan.rs:16-16 (PUBLIC_KEY_LEN) *)
Definition PUBLIC_KEY_LEN : nat := 32.

Section lan.
Context `{Primitives}.

(** Source: src/crypto-core/src/lan.rs:19-22 (EphemeralSessionKey) *)
Record EphemeralSessionKey := mk_ephemeral { private : bytes; public : bytes }.

(** Source: src/crypto-core/src/lan.rs:26-36 (generate) *)
Definition generate (draw : option bytes) : may_fail EphemeralSessionKey :=
  private ← ok_or (Fail "x25519 keygen failed") draw;
  Ok (mk_ephemeral private (x25519_public private)).

(** ring refuses an agreement whose outcome is zero.
    Source: src/crypto-core/src/lan.rs:41-55 (agree) *)
Definition agree (k : EphemeralSessionKey) (peer_public : bytes) : may_fail bytes :=
  let shared := x25519 (private k) peer_public in
  _ ← ensure (negb (forallb (Z.eqb 0) shared)) "x25519 agreement failed";
  map_err (λ _, Fail "session key derivation failed") (pqc_hkdf_sha256 shared (lit "soshal-lan-session") (lit "lan-session") 32).

(** Source: src/crypto-core/src/lan.rs:65-79 (encrypt_frame) *)
Definition encrypt_frame (draw : option bytes) (key plaintext : bytes) : may_fail bytes :=
  nonce ← ok_or (Fail "rng failed") draw;
  ct ← ok_or (Fail "frame encrypt failed") (p1305_encrypt key nonce plaintext []);
  Ok (nonce ++ ct).

(** Source: src/crypto-core/src/lan.rs:83-96 (decrypt_frame) *)
Definition decrypt_frame (key frame : bytes) : may_fail bytes :=
  _ ← ensure (negb (length frame <? LAN_NONCE_LEN + 16)) "frame too short";
  ok_or (Fail "frame decrypt failed (tampered or wrong key)") (p1305_decrypt key (take LAN_NONCE_LEN frame) (drop LAN_NONCE_LEN frame) []).
End lan.

Section lan_laws.
Context `{PrimitiveLaws} {P5 : P1305Laws}.

(** Both ends of a session derive the same key, and a frame sealed by one opens at the other. *)
Theorem lan_session draw_a draw_b a b ka nonce pt frame :
  generate draw_a = Ok a → generate draw_b = Ok b → agree a (public b) = Ok ka → length nonce = LAN_NONCE_LEN →
  encrypt_frame (Some nonce) ka pt = Ok frame → ∃ kb, agree b (public a) = Ok kb ∧ decrypt_frame kb frame = Ok pt.
Proof.
  intros Ha Hb Hka Hn Hf. unfold generate in Ha, Hb. destruct draw_a as [pa|]; [|done]. destruct draw_b as [pb|]; [|done].
  cbn in Ha, Hb. injection Ha as <-. injection Hb as <-. exists ka. split.
  { unfold agree in *. cbn [private public] in *. by rewrite x25519_agree. }
  unfold encrypt_frame in Hf. cbn [ok_or mbind result_bind] in Hf. destruct (p1305_encrypt ka nonce pt []) as [ct|] eqn:E; [|done]. injection Hf as <-.
  unfold decrypt_frame. pose proof (p1305_length _ _ _ _ _ E) as Hl. rewrite length_app, Hn, Hl.
  rewrite (proj2 (Nat.ltb_ge _ _)) by lia. cbn [negb ensure mbind result_bind]. rewrite take_app_length', drop_app_length' by done.
  by rewrite (p1305_open _ _ _ _ _ E).
Qed.
End lan_laws.

(** ** The record query *)

Definition add64 (a b : Z) : Z := ((a + b) mod 2 ^ 64)%Z.
Definition sub64 (a b : Z) : Z := ((a - b) mod 2 ^ 64)%Z.

(** Source: src/crypto-core/src/pir.rs:14-18 (PirQuery) *)
Record PirQuery := mk_query { target_dimension : nat; encrypted_vector : list Z; client_pubkey : str }.
(** Source: src/crypto-core/src/pir.rs:22-25 (PirResponse) *)
Record PirResponse := mk_response { response_vector : list Z; record_found : bool }.
(** Source: src/crypto-core/src/pir.rs:28-31 (HintlessPirClient) *)
Record HintlessPirClient := mk_client { secret_key : list Z; dimension : nat }.

Definition key_at (i : nat) : Z := ((Z.of_nat i * 31 + 7) mod 65537)%Z.
Definition noise_at (i : nat) : Z := ((Z.of_nat i * 13) mod 17)%Z.

(** Source: src/crypto-core/src/pir.rs:34-43 (new) *)
Definition pir_new (dim : nat) : HintlessPirClient := mk_client (key_at <$> seq 0 dim) dim.

(** Source: src/crypto-core/src/pir.rs:46-69 (generate_query) *)
Definition generate_query (c : HintlessPirClient) (target_index : nat) (pubkey : str) : may_fail PirQuery :=
  _ ← ensure (negb (dimension c <=? target_index)) "target index out of bounds";
  let slot i := add64 (add64 (if (i =? target_index)%nat then 1 else 0)%Z (nth i (secret_key c) 0%Z)) (noise_at i) in
  Ok (mk_query (dimension c) (slot <$> seq 0 (dimension c)) pubkey).

(** Source: src/crypto-core/src/pir.rs:72-95 (decrypt_response) *)
Definition decrypt_response (c : HintlessPirClient) (target_index : nat) (r : PirResponse) : may_fail bytes :=
  _ ← ensure (record_found r) "record not found in database";
  let slot i val :=
    let d := sub64 (sub64 val (nth i (secret_key c) 0%Z)) (noise_at i) in
    ((if (i =? target_index)%nat && (0 <? d) then d - 1 else d) mod 256)%Z in
  Ok (imap slot (take (dimension c) (response_vector r))).

(** Source: src/crypto-core/src/pir.rs:103-124 (evaluate_query) *)
Definition evaluate_query (q : PirQuery) (db_records : list (list Z)) : PirResponse :=
  match db_records with
  | [] => mk_response [] false
  | _ =>
      let slot idx := match db_records !! idx with
                      | Some record => add64 (default 0%Z (encrypted_vector q !! idx)) (default 0%Z (head record))
                      | None => 0%Z
                      end in
      mk_response (slot <$> seq 0 (target_dimension q)) true
  end.

Definition first_byte (record : list Z) : Z := default 0%Z (head record).

Lemma mod64 x : ∃ q, (x mod 2 ^ 64 = x + 2 ^ 64 * q ∧ 0 ≤ x mod 2 ^ 64 < 2 ^ 64)%Z.
Proof. exists (- (x / 2 ^ 64))%Z. pose proof (Z.div_mod x (2 ^ 64) ltac:(lia)). pose proof (Z.mod_pos_bound x (2 ^ 64) ltac:(lia)). lia. Qed.

Lemma unmasked i b k n : (0 ≤ i + b < 2 ^ 64)%Z → sub64 (sub64 (add64 (add64 (add64 i k) n) b) k) n = (i + b)%Z.
Proof.
  intros Hi. unfold sub64, add64. destruct (mod64 (i + k)) as (q1 & -> & _). destruct (mod64 (i + k + 2 ^ 64 * q1 + n)) as (q2 & -> & _).
  destruct (mod64 (i + k + 2 ^ 64 * q1 + n + 2 ^ 64 * q2 + b)) as (q3 & -> & _).
  destruct (mod64 (i + k + 2 ^ 64 * q1 + n + 2 ^ 64 * q2 + b + 2 ^ 64 * q3 - k)) as (q4 & -> & _).
  match goal with |- (?x mod _)%Z = _ => destruct (mod64 x) as (q5 & E & Hr); rewrite E in Hr |- * end.
  assert (q1 + q2 + q3 + q4 + q5 = 0)%Z by lia. lia.
Qed.

(** The client gets the first byte of every record, not of the one it asked for alone; the rest of a record never
    leaves the host. *)
Theorem pir_first_bytes dim t pubkey q recs : Forall all_bytes recs → dim ≤ length recs → 0 < dim →
  generate_query (pir_new dim) t pubkey = Ok q →
  decrypt_response (pir_new dim) t (evaluate_query q recs) = Ok (first_byte <$> take dim recs).
Proof.
  intros Hb Hl Hd Hq. unfold generate_query in Hq. apply result_bind_ok in Hq as ([] & _ & Hq). cbn beta in Hq. injection Hq as <-.
  unfold evaluate_query. cbn [target_dimension encrypted_vector]. destruct recs as [|r0 recs']; [cbn in Hl; lia|]. set (recs := r0 :: recs') in *.
  unfold decrypt_response. cbn [record_found response_vector ensure mbind result_bind dimension pir_new]. f_equal.
  rewrite firstn_all2 by (rewrite length_fmap, length_seq; done). apply list_eq. intros i. rewrite list_lookup_imap, !list_lookup_fmap.
  destruct (decide (i < dim)) as [Hi|Hi].
  - rewrite lookup_seq_lt by done. cbn [fmap option_fmap option_map Nat.add]. rewrite lookup_take_lt by done.
    destruct (lookup_lt_is_Some_2 recs i ltac:(lia)) as [rec Hrec]. rewrite Hrec. cbn [fmap option_fmap option_map]. f_equal.
    rewrite list_lookup_fmap, lookup_seq_lt by done. cbn [fmap option_fmap option_map default Nat.add].
    change (default 0%Z (head rec)) with (first_byte rec). assert (Hf : (0 ≤ first_byte rec < 256)%Z).
    { rewrite Forall_forall in Hb. specialize (Hb rec ltac:(by eapply list_elem_of_lookup_2)). destruct rec as [|b rec]; [cbn; lia|].
      by apply Forall_cons in Hb as [? _]. }
    unfold id. cbn [secret_key pir_new]. rewrite unmasked by (destruct (i =? t)%nat; lia). destruct (i =? t)%nat; cbn [andb].
    + rewrite (proj2 (Z.ltb_lt _ _)) by lia. replace (1 + first_byte rec - 1)%Z with (first_byte rec) by lia. by apply Z.mod_small.
    + rewrite Z.add_0_l. by apply Z.mod_small.
  - rewrite lookup_seq_ge, lookup_take_ge by lia. done.
Qed.
