(* ===== verification/Threads.v ===== *)
(** Threads over mutexes: programs that take and release locks and read and
    change a shared state in between, their interleaving, what a thread may
    rely on while it holds a lock, and an order of the locks that rules
    deadlocks out. Shared by the components that guard global state with
    several mutexes; no code of the repository is modelled here. *)

From S2P Require Import Prelude.

(** A thread: done, about to take or to release a mutex, or about to change
    the state and to go on with what it read. *)
Inductive prog (M St A : Type) : Type :=
| Ret (a : A)
| Acquire (m : M) (k : prog M St A)
| Release (m : M) (k : prog M St A)
| Atomic (f : St → St) (k : St → prog M St A).
Arguments Ret {M St A} a.
Arguments Acquire {M St A} m k.
Arguments Release {M St A} m k.
Arguments Atomic {M St A} f k.

Section programs.
Context {M St : Type}.

#[export] Instance prog_ret : MRet (prog M St) := λ A a, Ret a.

#[export] Instance prog_bind : MBind (prog M St) := λ A B f,
  fix go p := match p with
              | Ret a => f a
              | Acquire m k => Acquire m (go k)
              | Release m k => Release m (go k)
              | Atomic g k => Atomic g (λ s, go (k s))
              end.

Definition get {A} (f : St → A) : prog M St A := Atomic id (λ s, Ret (f s)).
Definition put (f : St → St) : prog M St unit := Atomic f (λ _, Ret ()).
Definition acquire (m : M) : prog M St unit := Acquire m (Ret ()).
Definition release (m : M) : prog M St unit := Release m (Ret ()).

(** The guard of [m] lives as long as [p]. *)
Definition locked {A} (m : M) (p : prog M St A) : prog M St A := _ ← acquire m; a ← p; _ ← release m; mret a.

Fixpoint sequence {A} (ps : list (prog M St A)) : prog M St (list A) :=
  match ps with
  | [] => mret []
  | p :: ps => a ← p; l ← sequence ps; mret (a :: l)
  end.
End programs.

(** ** Interleaving *)

Record config (M St A : Type) `{Countable M} := mk_config {
  shared : St;
  owner : gmap M nat;
  pool : list (prog M St A)
}.
Arguments mk_config {M St A _ _} shared owner pool.
Arguments shared {M St A _ _} c.
Arguments owner {M St A _ _} c.
Arguments pool {M St A _ _} c.

Section threads.
Context {M St A : Type} `{Countable M}.

(** A mutex that is taken is waited for. *)
Inductive thread_step : config M St A → config M St A → Prop :=
| step_acquire c i m k : pool c !! i = Some (Acquire m k) → owner c !! m = None →
    thread_step c (mk_config (shared c) (<[m := i]> (owner c)) (<[i := k]> (pool c)))
| step_release c i m k : pool c !! i = Some (Release m k) → owner c !! m = Some i →
    thread_step c (mk_config (shared c) (delete m (owner c)) (<[i := k]> (pool c)))
| step_atomic c i f k : pool c !! i = Some (Atomic f k) →
    thread_step c (mk_config (f (shared c)) (owner c) (<[i := k (shared c)]> (pool c))).

(** No thread holds a lock yet. *)
Definition start (s : St) (ps : list (prog M St A)) : config M St A := mk_config s ∅ ps.

Definition finished (p : prog M St A) : Prop := ∃ a, p = Ret a.
Definition all_done (c : config M St A) : Prop := Forall finished (pool c).

Definition held (i : nat) (o : gmap M nat) : gset M := dom (filter (λ mi, mi.2 = i) o).

Lemma elem_of_held i o m : m ∈ held i o ↔ o !! m = Some i.
Proof.
  unfold held. rewrite elem_of_dom. unfold is_Some. setoid_rewrite map_lookup_filter_Some. cbn.
  split; [by intros (? & ? & <-)|]. intros ?. by exists i.
Qed.

Lemma held_acquired i m o : held i (<[m := i]> o) = {[m]} ∪ held i o.
Proof.
  apply set_eq. intros m'. rewrite elem_of_union, elem_of_singleton, !elem_of_held.
  destruct (decide (m = m')) as [->|Hm]; [rewrite lookup_insert_eq|rewrite lookup_insert_ne by done]; naive_solver.
Qed.
Lemma held_by_other i j m o : i ≠ j → o !! m = None → held j (<[m := i]> o) = held j o.
Proof.
  intros Hij Hm. apply set_eq. intros m'. rewrite !elem_of_held.
  destruct (decide (m = m')) as [->|Hm']; [rewrite lookup_insert_eq|by rewrite lookup_insert_ne]. rewrite Hm. naive_solver.
Qed.
Lemma held_released i j m o : o !! m = Some i → held j (delete m o) = held j o ∖ {[m]}.
Proof.
  intros Hm. apply set_eq. intros m'. rewrite elem_of_difference, elem_of_singleton, !elem_of_held.
  destruct (decide (m = m')) as [->|Hm']; [rewrite lookup_delete_eq|rewrite lookup_delete_ne by done]; naive_solver.
Qed.

Lemma held_none i : held i ∅ = ∅.
Proof. apply set_eq. intros m. rewrite elem_of_held, lookup_empty. set_solver. Qed.
Lemma not_held i m o : o !! m ≠ Some i → held i o ∖ {[m]} = held i o.
Proof. intros Hm. apply set_eq. intros m'. rewrite elem_of_difference, elem_of_singleton, elem_of_held. naive_solver. Qed.

(** ** What a thread may rely on *)

Section reasoning.
Context (inv : St → Prop).
(** What the others cannot undo as long as the mutex is held. *)
Context (stable : M → St → St → Prop) `{!∀ m, PreOrder (stable m)}.

Definition agree (L : gset M) (s s' : St) : Prop := ∀ m, m ∈ L → stable m s s'.

#[export] Instance agree_preorder L : PreOrder (agree L).
Proof.
  split; [intros s m _; reflexivity|]. intros s1 s2 s3 H1 H2 m Hm. etrans; [by apply H1|by apply H2].
Qed.

(** With the locks [L] and the state last seen as [s]: every change keeps the
    invariant and what the locks of the others make stable, only free locks are
    taken and only held ones are given back, and [Q] holds in the end. Between
    two steps the others may change what [L] does not make stable. *)
Fixpoint wp {B} (L : gset M) (s : St) (p : prog M St B) (Q : B → gset M → St → Prop) : Prop :=
  match p with
  | Ret a => Q a L s
  | Acquire m k => m ∉ L ∧ ∀ s', agree L s s' → inv s' → wp ({[m]} ∪ L) s' k Q
  | Release m k => m ∈ L ∧ ∀ s', agree L s s' → inv s' → wp (L ∖ {[m]}) s' k Q
  | Atomic f k => ∀ s', agree L s s' → inv s' → inv (f s') ∧ (∀ m, m ∉ L → stable m s' (f s')) ∧ wp L (f s') (k s') Q
  end.

Lemma wp_mono {B} L s (p : prog M St B) (Q Q' : B → gset M → St → Prop) :
  (∀ a L s, Q a L s → Q' a L s) → wp L s p Q → wp L s p Q'.
Proof.
  intros HQ. revert L s. induction p as [a|m k IH|m k IH|f k IH]; intros L s; cbn [wp].
  - apply HQ.
  - intros [Hm Hk]. split; [done|]. intros s' Ha Hi. by apply IH, Hk.
  - intros [Hm Hk]. split; [done|]. intros s' Ha Hi. by apply IH, Hk.
  - intros Hk s' Ha Hi. destruct (Hk s' Ha Hi) as (? & ? & ?). split_and!; [done..|]. by apply IH.
Qed.

Lemma wp_bind {B C} L s (p : prog M St B) (f : B → prog M St C) Q :
  wp L s p (λ a L' s', wp L' s' (f a) Q) → wp L s (p ≫= f) Q.
Proof.
  revert L s. induction p as [a|m k IH|m k IH|g k IH]; intros L s; [done|..]; unfold mbind, prog_bind; cbn [wp].
  - intros [Hm Hk]. split; [done|]. intros s' Ha Hi. by apply IH, Hk.
  - intros [Hm Hk]. split; [done|]. intros s' Ha Hi. by apply IH, Hk.
  - intros Hk s' Ha Hi. destruct (Hk s' Ha Hi) as (? & ? & ?). split_and!; [done..|]. by apply IH.
Qed.

Lemma wp_get {B} L s (f : St → B) Q : (∀ s', agree L s s' → inv s' → Q (f s') L s') → wp L s (get f) Q.
Proof. intros HQ s' Ha Hi. split_and!; [done| |by apply HQ]. intros m _. reflexivity. Qed.

Lemma wp_put L s f Q : (∀ s', agree L s s' → inv s' → inv (f s') ∧ (∀ m, m ∉ L → stable m s' (f s')) ∧ Q () L (f s')) →
  wp L s (put f) Q.
Proof. intros HQ s' Ha Hi. by apply HQ. Qed.

(** The body runs with the lock; afterwards only what the outer locks make
    stable is kept. *)
Lemma wp_locked {B} L s m (p : prog M St B) Q : m ∉ L →
  (∀ s', agree L s s' → inv s' → wp ({[m]} ∪ L) s' p (λ a L' s2, L' = {[m]} ∪ L ∧ ∀ s3, agree L s2 s3 → inv s3 → Q a L s3)) →
  wp L s (locked m p) Q.
Proof.
  intros Hm Hp. unfold locked. apply wp_bind. cbn [acquire wp]. split; [done|]. intros s1 H1 Hi1. apply wp_bind.
  eapply wp_mono; [|by apply Hp]. intros a L' s2 [-> HQ]. apply wp_bind. cbn [release wp]. split; [set_solver|]. intros s3 H3 Hi3.
  unfold mret, prog_ret. cbn [wp]. replace (({[m]} ∪ L) ∖ {[m]}) with L by set_solver. apply HQ; [|done].
  intros m' Hm'. apply H3. set_solver.
Qed.

Context (post : A → Prop).

(** A whole thread. *)
Definition safe (L : gset M) (s : St) (p : prog M St A) : Prop := wp L s p (λ a L _, L = ∅ ∧ post a).

Lemma safe_agree L s s' p : agree L s s' → safe L s p → safe L s' p.
Proof.
  intros Ha. unfold safe. destruct p as [a|m k|m k|f k]; cbn [wp]; [done|..].
  1,2: intros [Hm Hk]; split; [done|]; intros s2 H2; apply Hk; by etrans.
  intros Hk s2 H2. apply Hk. by etrans.
Qed.

Definition safe_config (c : config M St A) : Prop :=
  inv (shared c) ∧ ∀ i p, pool c !! i = Some p → safe (held i (owner c)) (shared c) p.

Lemma safe_start s ps : inv s → Forall (safe ∅ s) ps → safe_config (start s ps).
Proof.
  intros Hs Hps. split; [done|]. intros i p Hi. cbn [start owner shared] in *. rewrite held_none. by eapply Forall_lookup_1.
Qed.

Lemma safe_step c c' : safe_config c → thread_step c c' → safe_config c'.
Proof.
  intros Hc Hstep. revert Hc. destruct Hstep as [d i m k Hi Ho|d i m k Hi Ho|d i f k Hi]; intros [Hinv Hps];
    pose proof (Hps i _ Hi) as Hsafe; unfold safe in Hsafe; cbn [wp] in Hsafe; pose proof (lookup_lt_Some _ _ _ Hi) as Hlt.
  - destruct Hsafe as [_ Hk]. split; [done|]. intros j p. cbn [pool shared owner]. destruct (decide (i = j)) as [<-|Hj].
    + rewrite list_lookup_insert_eq by done. intros [= <-]. rewrite held_acquired. by apply Hk; [reflexivity|].
    + rewrite list_lookup_insert_ne by done. intros Hp. rewrite held_by_other by done. by apply Hps.
  - destruct Hsafe as [_ Hk]. split; [done|]. intros j p. cbn [pool shared owner]. rewrite (held_released i) by done. destruct (decide (i = j)) as [<-|Hj].
    + rewrite list_lookup_insert_eq by done. intros [= <-]. by apply Hk; [reflexivity|].
    + rewrite list_lookup_insert_ne by done. intros Hp. rewrite not_held by congruence. by apply Hps.
  - destruct (Hsafe (shared d)) as (Hf & Hframe & Hk); [reflexivity|done|]. split; [done|]. intros j p. cbn [pool shared owner].
    destruct (decide (i = j)) as [<-|Hj].
    + rewrite list_lookup_insert_eq by done. by intros [= <-].
    + rewrite list_lookup_insert_ne by done. intros Hp. eapply safe_agree; [|by apply Hps].
      intros m Hm%elem_of_held. apply Hframe. rewrite elem_of_held. congruence.
Qed.

(** The invariant holds at every moment, and every result is as promised. *)
Lemma safe_reachable s ps c : inv s → Forall (safe ∅ s) ps → rtc thread_step (start s ps) c →
  inv (shared c) ∧ ∀ i a, pool c !! i = Some (Ret a) → post a.
Proof.
  intros Hs Hps Hc. assert (Hsafe : safe_config c).
  { apply safe_start in Hps; [|done]. clear Hs. induction Hc as [|c1 c2 c3 Hstep _ IH]; [done|]. apply IH. by eapply safe_step. }
  split; [by apply Hsafe|]. intros i a Hi. by destruct (proj2 Hsafe i _ Hi).
Qed.
End reasoning.

(** ** An order of the locks *)

Section order.
Context (rank : M → nat).

(** From the locks [L] to the locks [L']: they are taken in the order of their
    rank, and only those held are given back. *)
Fixpoint ordered {B} (L : gset M) (p : prog M St B) (L' : gset M) : Prop :=
  match p with
  | Ret _ => L = L'
  | Acquire m k => (∀ m', m' ∈ L → rank m' < rank m) ∧ ordered ({[m]} ∪ L) k L'
  | Release m k => m ∈ L ∧ ordered (L ∖ {[m]}) k L'
  | Atomic f k => ∀ s, ordered L (k s) L'
  end.

Lemma ordered_bind {B C} L L1 L2 (p : prog M St B) (f : B → prog M St C) :
  ordered L p L1 → (∀ a, ordered L1 (f a) L2) → ordered L (p ≫= f) L2.
Proof.
  intros Hp Hf. revert L Hp. induction p as [a|m k IH|m k IH|g k IH]; intros L; unfold mbind, prog_bind; cbn [ordered].
  - intros ->. apply Hf.
  - intros [? ?]. split; [done|]. by apply IH.
  - intros [? ?]. split; [done|]. by apply IH.
  - intros Hk s. by apply IH.
Qed.

Lemma ordered_locked {B} L m (p : prog M St B) : (∀ m', m' ∈ L → rank m' < rank m) → ordered ({[m]} ∪ L) p ({[m]} ∪ L) →
  ordered L (locked m p) L.
Proof.
  intros Hr Hp. unfold locked. eapply ordered_bind; [by cbn|]. intros []. eapply ordered_bind; [exact Hp|]. intros a.
  eapply ordered_bind; [split; [set_solver|by cbn]|]. intros []. cbn. apply set_eq. intros x. specialize (Hr x).
  rewrite elem_of_difference, elem_of_union, elem_of_singleton. destruct (decide (x = m)) as [->|]; [|naive_solver].
  split; [naive_solver|]. intros Hin. specialize (Hr Hin). lia.
Qed.

Definition ordered_config (c : config M St A) : Prop :=
  (∀ m i, owner c !! m = Some i → i < length (pool c)) ∧
  ∀ i p, pool c !! i = Some p → ordered (held i (owner c)) p ∅.

Lemma ordered_start s ps : Forall (λ p, ordered ∅ p ∅) ps → ordered_config (start s ps).
Proof.
  intros Hps. split; [done|]. intros i p Hi. cbn [start owner] in *. rewrite held_none. by eapply (Forall_lookup_1 (λ p, ordered ∅ p ∅)).
Qed.

Lemma ordered_step c c' : ordered_config c → thread_step c c' → ordered_config c'.
Proof.
  intros Hc Hstep. revert Hc. destruct Hstep as [d i m k Hi Ho|d i m k Hi Ho|d i f k Hi]; intros [Hlen Hps];
    pose proof (Hps i _ Hi) as Hord; cbn [ordered] in Hord; pose proof (lookup_lt_Some _ _ _ Hi) as Hlt; split; cbn [pool owner]; try rewrite length_insert.
  - intros m' j. destruct (decide (m = m')) as [->|Hm]; [rewrite lookup_insert_eq; by intros [= <-]|].
    rewrite lookup_insert_ne by done. apply Hlen.
  - intros j p. destruct (decide (i = j)) as [<-|Hj].
    + rewrite list_lookup_insert_eq by done. intros [= <-]. rewrite held_acquired. apply Hord.
    + rewrite list_lookup_insert_ne by done. intros Hp. rewrite held_by_other by done. by apply Hps.
  - intros m' j Hj. apply (Hlen m'). by apply lookup_delete_Some in Hj as [_ ?].
  - intros j p. rewrite (held_released i) by done. destruct (decide (i = j)) as [<-|Hj].
    + rewrite list_lookup_insert_eq by done. intros [= <-]. apply Hord.
    + rewrite list_lookup_insert_ne by done. intros Hp. rewrite not_held by congruence. by apply Hps.
  - apply Hlen.
  - intros j p. destruct (decide (i = j)) as [<-|Hj].
    + rewrite list_lookup_insert_eq by done. intros [= <-]. apply Hord.
    + rewrite list_lookup_insert_ne by done. by apply Hps.
Qed.

Definition can_step (c : config M St A) : Prop := ∃ c', thread_step c c'.

(** A thread that waits for a mutex can be let go on: its holder moves, or
    waits for a mutex of higher rank. *)
Lemma waiting_moves c B n : ordered_config c → (∀ m j, owner c !! m = Some j → rank m ≤ B) →
  ∀ i m k, pool c !! i = Some (Acquire m k) → B - rank m < n → can_step c.
Proof.
  intros Hc HB. induction n as [|n IH]; intros i m k Hi Hn; [lia|].
  destruct (owner c !! m) as [j|] eqn:Ho; [|eexists; by eapply step_acquire].
  destruct (lookup_lt_is_Some_2 (pool c) j) as [p Hp]; [by eapply Hc|].
  assert (Hm : m ∈ held j (owner c)) by (by apply elem_of_held). pose proof (proj2 Hc j p Hp) as Hord.
  destruct p as [a|m'|m'|f k']; cbn [ordered] in Hord.
  - set_solver.
  - destruct (owner c !! m') as [j'|] eqn:Ho'; [|eexists; by eapply step_acquire].
    specialize (proj1 Hord m Hm). pose proof (HB _ _ Ho'). intros Hr. eapply IH; [exact Hp|]. lia.
  - destruct Hord as [Hm'%elem_of_held _]. eexists. by eapply step_release.
  - eexists. by eapply step_atomic.
Qed.

Lemma ranks_bounded (o : gmap M nat) : ∃ B, ∀ m j, o !! m = Some j → rank m ≤ B.
Proof.
  induction o as [|m j o Hm [B HB]] using map_ind; [by exists 0|]. exists (B + rank m). intros m' j'.
  destruct (decide (m = m')) as [->|Hne]; [lia|]. rewrite lookup_insert_ne by done. intros Ho%HB. lia.
Qed.

(** Some thread can always go on, until all are done. *)
Lemma no_deadlock c : ordered_config c → all_done c ∨ can_step c.
Proof.
  intros Hc. destruct (ranks_bounded (owner c)) as [B HB].
  assert (Hps : ∀ i p, pool c !! i = Some p → finished p ∨ can_step c).
  { intros i p Hi. destruct p as [a|m k|m k|f k].
    - left. by exists a.
    - right. by eapply (waiting_moves c B (S B)); [..|lia].
    - destruct (proj2 Hc i _ Hi) as [Hm%elem_of_held _]. right. eexists. by eapply step_release.
    - right. eexists. by eapply step_atomic. }
  clear HB Hc. unfold all_done. revert Hps. generalize (pool c) as ps. induction ps as [|p ps IH]; intros Hps; [by left; constructor|].
  destruct (Hps 0 p eq_refl) as [Hp|]; [|by right]. destruct IH as [IH|]; [intros i; apply (Hps (S i))|left; by constructor|by right].
Qed.
End order.

(** ** Every run ends *)

Inductive child : prog M St A → prog M St A → Prop :=
| child_acquire m k : child k (Acquire m k)
| child_release m k : child k (Release m k)
| child_atomic f k s : child (k s) (Atomic f k).

Lemma child_wf p : Acc child p.
Proof. induction p as [a|m k IH|m k IH|f k IH]; constructor; intros q Hq; inversion Hq; subst; auto. Qed.

(** One of the threads goes on. *)
Definition pool_child (ps' ps : list (prog M St A)) : Prop := ∃ i p q, ps !! i = Some p ∧ child q p ∧ ps' = <[i := q]> ps.

Lemma pool_wf ps : Acc pool_child ps.
Proof.
  induction ps as [|p ps IH]; [constructor; intros ps' (i & p & q & Hi & _); by rewrite lookup_nil in Hi|].
  revert ps IH. induction (child_wf p) as [p _ IHp]. intros ps Hps.
  assert (Hps' := Hps). induction Hps as [ps _ IHps]. constructor. intros ps' ([|i] & p' & q & Hi & Hq & ->); cbn in *.
  - injection Hi as <-. by apply IHp.
  - apply IHps; [by exists i, p', q|]. apply Hps'. by exists i, p', q.
Qed.

Lemma runs_end c : Acc (λ c' c, thread_step c c') c.
Proof.
  destruct c as [s o ps]. revert s o. induction (pool_wf ps) as [ps _ IH]. intros s o. constructor. intros c' Hc.
  inversion Hc as [d i m k Hi Ho|d i m k Hi Ho|d i f k Hi]; subst; cbn [shared owner pool] in *; apply IH; eexists i, _, _; (split; [exact Hi|]); split; try done; constructor.
Qed.

(** ** Schedules *)

(** The step of thread [i], if it can make one. *)
Definition step_thread (i : nat) (c : config M St A) : option (config M St A) :=
  match pool c !! i with
  | Some (Acquire m k) =>
      match owner c !! m with Some _ => None | None => Some (mk_config (shared c) (<[m := i]> (owner c)) (<[i := k]> (pool c))) end
  | Some (Release m k) =>
      if bool_decide (owner c !! m = Some i) then Some (mk_config (shared c) (delete m (owner c)) (<[i := k]> (pool c))) else None
  | Some (Atomic f k) => Some (mk_config (f (shared c)) (owner c) (<[i := k (shared c)]> (pool c)))
  | _ => None
  end.

Fixpoint run_schedule (l : list nat) (c : config M St A) : option (config M St A) :=
  match l with [] => Some c | i :: l => c ← step_thread i c; run_schedule l c end.

Lemma step_thread_sound i c c' : step_thread i c = Some c' → thread_step c c'.
Proof.
  unfold step_thread. destruct (pool c !! i) as [[a|m k|m k|f k]|] eqn:E; try done.
  - destruct (owner c !! m) eqn:Eo; [done|]. intros [= <-]. by eapply step_acquire.
  - destruct (bool_decide_reflect (owner c !! m = Some i)) as [Ho|]; [|done]. intros [= <-]. by eapply step_release.
  - intros [= <-]. by eapply step_atomic.
Qed.

Lemma run_schedule_sound l c c' : run_schedule l c = Some c' → rtc thread_step c c'.
Proof.
  revert c. induction l as [|i l IH]; intros c; cbn [run_schedule]; [intros [= <-]; apply rtc_refl|].
  destruct (step_thread i c) as [c1|] eqn:E; [|done]. intros Hl. eapply rtc_l; [by eapply step_thread_sound|]. by apply IH.
Qed.

(** Where a schedule leads; nowhere if it asks for a step that is not there. *)
Definition after (l : list nat) (c : config M St A) : config M St A := default c (run_schedule l c).
Lemma after_reached l c : rtc thread_step c (after l c).
Proof. unfold after. destruct (run_schedule l c) as [c'|] eqn:E; [by eapply run_schedule_sound|apply rtc_refl]. Qed.

Definition blocked (c : config M St A) : bool := forallb (λ i, match step_thread i c with None => true | Some _ => false end) (seq 0 (length (pool c))).

Lemma blocked_sound c : blocked c = true → ∀ c', ¬ thread_step c c'.
Proof.
  unfold blocked. rewrite forallb_forall. intros Hb c' Hs.
  assert (Hi : ∃ i, i < length (pool c) ∧ is_Some (step_thread i c)).
  { destruct Hs as [c i m k Hi Ho|c i m k Hi Ho|c i f k Hi]; exists i; (split; [by eapply lookup_lt_Some|]); unfold step_thread; rewrite Hi.
    - rewrite Ho. by eexists.
    - rewrite bool_decide_eq_true_2 by done. by eexists.
    - by eexists. }
  destruct Hi as (i & Hlt & [c1 E]). specialize (Hb i). rewrite E in Hb. discriminate Hb. apply in_seq. lia.
Qed.

Definition finished_dec (p : prog M St A) : bool := match p with Ret _ => true | _ => false end.

Lemma all_done_dec c : all_done c ↔ forallb finished_dec (pool c) = true.
Proof.
  unfold all_done. rewrite forallb_forall, Forall_forall. setoid_rewrite list_elem_of_In. split; intros Hp p Hin; specialize (Hp p Hin).
  - by destruct Hp as [a ->].
  - destruct p as [a|m k|m k|f k]; [by exists a|discriminate Hp..].
Qed.
End threads.
