(* ===== verification/BridgeUtil.v ===== *)
(** Helpers of the bridge, src/flutter-bridge/src/ffi/util.rs: the lock-free
    limiter of calls per second, whose window and counter share one atomic
    word, and the bounded cache with expiry. The order in which a hash map is
    traversed is an interface. *)

From S2P Require Import Prelude.

(** ** The limiter *)

(** Source: src/flutter-bridge/src/ffi/util.rs:92-92 (RateLimiter::check, now_win) *)
Definition now_window (now : Z) : Z := Z.land (now mod 2 ^ 64) 0xFFFFFFFF.
Definition window_of (state : Z) : Z := Z.shiftr state 32.
Definition count_of (state : Z) : Z := Z.land state 0xFFFFFFFF.
Definition pack (win cnt : Z) : Z := Z.lor (Z.shiftl win 32) cnt.

(** What one turn of the loop would store; nothing when the budget is used up.
    Source: src/flutter-bridge/src/ffi/util.rs:93-110 (RateLimiter::check, turn) *)
Definition check_turn (max_per_sec now_win old : Z) : option Z :=
  if (window_of old =? now_win)%Z then
    if (max_per_sec <=? count_of old)%Z then None else Some (pack now_win (count_of old + 1))
  else Some (pack now_win 1).

(** Where a thread stands in [check]. *)
Inductive check_phase := Outside | Looping (win : Z) | Loaded (win old : Z).

(** The atomic, the threads, and the windows of the calls let through, oldest
    first.
    Source: src/flutter-bridge/src/ffi/util.rs:87-90 (RateLimiter) *)
Record limiter := mk_limiter { lim_state : Z; lim_threads : list check_phase; lim_passed : list Z }.

(** Source: src/flutter-bridge/src/ffi/util.rs:93-98 (RateLimiter::new) *)
Definition limiter_new (n : nat) : limiter := mk_limiter 0 (replicate n Outside) [].

Definition at_phase (i : nat) (p : check_phase) (l : limiter) : limiter :=
  mk_limiter (lim_state l) (<[i := p]> (lim_threads l)) (lim_passed l).

(** The exchange may fail even though the word is unchanged.
    Source: src/flutter-bridge/src/ffi/util.rs:102-131 (RateLimiter::check) *)
Inductive limiter_step (max_per_sec : Z) : limiter → limiter → Prop :=
| Lim_call l i now : lim_threads l !! i = Some Outside → limiter_step max_per_sec l (at_phase i (Looping (now_window now)) l)
| Lim_load l i w new : lim_threads l !! i = Some (Looping w) → check_turn max_per_sec w (lim_state l) = Some new →
    limiter_step max_per_sec l (at_phase i (Loaded w (lim_state l)) l)
| Lim_refuse l i w : lim_threads l !! i = Some (Looping w) → check_turn max_per_sec w (lim_state l) = None →
    limiter_step max_per_sec l (at_phase i Outside l)
| Lim_swap l i w new : lim_threads l !! i = Some (Loaded w (lim_state l)) → check_turn max_per_sec w (lim_state l) = Some new →
    limiter_step max_per_sec l (mk_limiter new (<[i := Outside]> (lim_threads l)) (lim_passed l ++ [w]))
| Lim_retry l i w old : lim_threads l !! i = Some (Loaded w old) → limiter_step max_per_sec l (at_phase i (Looping w) l).

(** ** The cache *)

(** A traversal of a hash map visits each entry once, in some order. *)
Class HashIter := {
  iter : ∀ {K V} `{Countable K}, gmap K V → list (K * V);
  iter_perm {K V} `{Countable K} (m : gmap K V) : iter m ≡ₚ map_to_list m
}.

(** [i64::saturating_sub]. *)
Definition i64_sat_sub (a b : Z) : Z := Z.max i64_min (Z.min i64_max (a - b)).

(** [min_by_key]: the first of the smallest. *)
Fixpoint first_min {A} (key : A → Z) (l : list A) : option A :=
  match l with
  | [] => None
  | x :: l => match first_min key l with
              | Some y => if (key y <? key x)%Z then Some y else Some x
              | None => Some x
              end
  end.

Section cache.
Context {K V : Type} `{Countable K} `{HashIter}.

(** Source: src/flutter-bridge/src/ffi/util.rs:138-146 (TtlCache) *)
Record TtlCache := mk_ttl_cache { entries : gmap K (Z * V); order : list K; ttl_secs : Z; cap : Z }.

(** Source: src/flutter-bridge/src/ffi/util.rs:149-156 (TtlCache::new) *)
Definition ttl_new (ttl_secs cap : Z) : TtlCache := mk_ttl_cache ∅ [] ttl_secs cap.

Definition expired (ttl now : Z) (e : Z * V) : bool := (ttl <=? i64_sat_sub now e.1)%Z.

(** Source: src/flutter-bridge/src/ffi/util.rs:162-172 (TtlCache::get) *)
Definition ttl_get (k : K) (now : Z) (c : TtlCache) : option V :=
  e ← entries c !! k; if expired (ttl_secs c) now e then None else Some e.2.

(** Source: src/flutter-bridge/src/ffi/util.rs:181-183 (TtlCache::can_expire) *)
Definition can_expire (c : TtlCache) : bool := negb (ttl_secs c =? i64_max)%Z.

(** Source: src/flutter-bridge/src/ffi/util.rs:193-204 (TtlCache::evict_one, victim) *)
Definition find_victim (now : Z) (c : TtlCache) : option K :=
  match list_find (λ ke, expired (ttl_secs c) now ke.2 = true) (iter (entries c)) with
  | Some (_, ke) => Some ke.1
  | None => fst <$> first_min (λ ke, ke.2.1) (iter (entries c))
  end.

(** Source: src/flutter-bridge/src/ffi/util.rs:217-221 (TtlCache::evict_one, order) *)
Fixpoint pop_oldest (order : list K) (t : gmap K (Z * V)) : list K * gmap K (Z * V) :=
  match order with
  | [] => ([], t)
  | k :: rest => match t !! k with Some _ => (rest, delete k t) | None => pop_oldest rest t end
  end.

(** Source: src/flutter-bridge/src/ffi/util.rs:192-223 (TtlCache::evict_one) *)
Definition evict_one (now : Z) (c : TtlCache) : TtlCache :=
  match (if can_expire c then find_victim now c else None) with
  | Some victim => mk_ttl_cache (delete victim (entries c)) (filter (λ k, k ≠ victim) (order c)) (ttl_secs c) (cap c)
  | None => let '(o, t) := pop_oldest (order c) (entries c) in mk_ttl_cache t o (ttl_secs c) (cap c)
  end.

(** Source: src/flutter-bridge/src/ffi/util.rs:233-248 (TtlCache::insert) *)
Definition ttl_insert (k : K) (v : V) (now : Z) (c : TtlCache) : TtlCache :=
  let c := if bool_decide (entries c !! k = None) && (cap c <=? Z.of_nat (size (entries c)))%Z then evict_one now c else c in
  mk_ttl_cache (<[k := (now, v)]> (entries c)) (match entries c !! k with Some _ => order c | None => order c ++ [k] end)
    (ttl_secs c) (cap c).

(** Source: src/flutter-bridge/src/ffi/util.rs:250-253 (TtlCache::clear) *)
Definition ttl_clear (c : TtlCache) : TtlCache := mk_ttl_cache ∅ [] (ttl_secs c) (cap c).

Inductive cache_op := Cache_insert (k : K) (v : V) (now : Z) | Cache_clear.
Definition cache_run (c : TtlCache) (op : cache_op) : TtlCache :=
  match op with Cache_insert k v now => ttl_insert k v now c | Cache_clear => ttl_clear c end.
End cache.
Arguments TtlCache K V {_ _}.

(** ** The budget of a second *)

Lemma pack_window w n : (0 ≤ w)%Z → (0 ≤ n < 2 ^ 32)%Z → window_of (pack w n) = w.
Proof.
  intros Hw Hn. unfold window_of, pack. apply Z.bits_inj'. intros b Hb.
  rewrite Z.shiftr_spec, Z.lor_spec, Z.shiftl_spec by lia. replace (b + 32 - 32)%Z with b by lia.
  rewrite <-(Z.mod_small n (2 ^ 32)), Z.mod_pow2_bits_high by lia. apply orb_false_r.
Qed.
Lemma pack_count w n : (0 ≤ w)%Z → (0 ≤ n < 2 ^ 32)%Z → count_of (pack w n) = n.
Proof.
  intros Hw Hn. unfold count_of, pack. change 0xFFFFFFFF%Z with (Z.ones 32). apply Z.bits_inj'. intros b Hb.
  rewrite Z.land_spec, Z.lor_spec, Z.shiftl_spec, Z.testbit_ones_nonneg by lia. destruct (Z.ltb_spec b 32) as [Hl|Hl].
  - rewrite Z.testbit_neg_r by lia. by rewrite andb_true_r.
  - rewrite andb_false_r. symmetry. rewrite <-(Z.mod_small n (2 ^ 32)) by lia. by apply Z.mod_pow2_bits_high.
Qed.
Lemma now_window_bound now : (0 ≤ now_window now < 2 ^ 32)%Z.
Proof.
  unfold now_window. change 0xFFFFFFFF%Z with (Z.ones 32). rewrite Z.land_ones by lia. apply Z.mod_pos_bound. lia.
Qed.

Section budget.
Context (max_per_sec : Z) (Hmax : (0 < max_per_sec < 2 ^ 32)%Z).

(** No run of calls let through in the same window is longer than the budget. *)
Definition bursts_bounded (passed : list Z) : Prop :=
  ∀ l1 w n l2, passed = l1 ++ replicate n w ++ l2 → (Z.of_nat n ≤ max_per_sec)%Z.

(** The counter counts the last run. *)
Record limiter_inv (l : limiter) : Prop := {
  li_windows : ∀ i p, lim_threads l !! i = Some p → match p with Looping w | Loaded w _ => (0 ≤ w < 2 ^ 32)%Z | Outside => True end;
  li_run : ∃ l1 w n, lim_passed l = l1 ++ replicate n w ∧ last l1 ≠ Some w ∧ (n = 0 → l1 = []) ∧ (0 ≤ w < 2 ^ 32)%Z ∧ (Z.of_nat n ≤ max_per_sec)%Z
             ∧ lim_state l = pack w (Z.of_nat n);
  li_bursts : bursts_bounded (lim_passed l)
}.

Lemma last_run {A} (l1 l2 : list A) w n m : last l1 ≠ Some w → l1 ++ replicate n w = l2 ++ replicate m w → m ≤ n.
Proof.
  intros Hl. revert m. induction n as [|n IH]; intros m.
  - cbn [replicate]. rewrite app_nil_r. intros ->. destruct m as [|m]; [lia|]. destruct Hl. rewrite replicate_S_end, app_assoc. apply last_snoc.
  - destruct m as [|m]; [lia|]. rewrite !replicate_S_end, !app_assoc. intros [E _]%app_inj_tail. specialize (IH _ E). lia.
Qed.

Lemma bursts_snoc passed l1 w n : bursts_bounded passed → passed = l1 ++ replicate n w → last l1 ≠ Some w →
  (Z.of_nat (S n) ≤ max_per_sec)%Z → bursts_bounded (passed ++ [w]).
Proof.
  intros Hb Hp Hl Hn k1 u m k2 E. destruct k2 as [|y k2 _] using rev_ind.
  - rewrite app_nil_r in E. destruct m as [|m]; [lia|]. rewrite replicate_S_end, app_assoc in E. apply app_inj_tail in E as [E <-].
    rewrite Hp in E. pose proof (last_run _ _ _ _ _ Hl E). lia.
  - rewrite !app_assoc in E. apply app_inj_tail in E as [E _]. rewrite <-app_assoc in E. by eapply Hb.
Qed.

Lemma limiter_inv_new n : limiter_inv (limiter_new n).
Proof.
  split; cbn.
  - intros i p [-> _]%lookup_replicate_1. done.
  - exists [], 0%Z, 0. split_and!; try done; cbn; lia.
  - intros l1 w m l2 E. destruct l1, m; simplify_eq/=. lia.
Qed.

Lemma phase_inv l i p : limiter_inv l → match p with Looping w | Loaded w _ => (0 ≤ w < 2 ^ 32)%Z | Outside => True end →
  limiter_inv (at_phase i p l).
Proof.
  intros [Hw Hr Hb] Hp. split; [|done..]. intros j q. cbn [at_phase lim_threads]. rewrite list_lookup_insert.
  case_decide as Hj; [by intros [= <-]|]. apply Hw.
Qed.

Lemma limiter_inv_step l l' : limiter_inv l → limiter_step max_per_sec l l' → limiter_inv l'.
Proof.
  intros Hinv Hstep. pose proof (li_windows _ Hinv) as Hws. destruct Hstep as [l i now Hi|l i w new Hi _|l i w Hi _|l i w new Hi Hnew|l i w old Hi].
  - apply phase_inv; [done|]. apply now_window_bound.
  - apply phase_inv; [done|]. exact (Hws _ _ Hi).
  - by apply phase_inv.
  - pose proof (Hws _ _ Hi : 0 ≤ w < 2 ^ 32)%Z as Hw. destruct Hinv as [_ (l1 & u & n & Hp & Hl & Hz & Hu & Hn & Hst) Hb].
    assert (Hnn : (0 ≤ Z.of_nat n < 2 ^ 32)%Z) by lia. unfold check_turn in Hnew. rewrite Hst, pack_window, pack_count in Hnew by lia.
    split; cbn [lim_threads lim_passed lim_state].
    + intros j q. rewrite list_lookup_insert. case_decide; [by intros [= <-]|]. apply Hws.
    + destruct (Z.eqb_spec u w) as [->|Hne].
      * destruct (Z.leb_spec max_per_sec (Z.of_nat n)) as [|Hlt]; [done|]. injection Hnew as <-. exists l1, w, (S n).
        rewrite Hp, replicate_S_end, app_assoc. split_and!; try done; try lia. f_equal. lia.
      * injection Hnew as <-. exists (lim_passed l), w, 1. split_and!; [done| |done|lia..|done]. rewrite Hp.
        destruct n as [|n]; [by rewrite Hz|]. rewrite replicate_S_end, app_assoc, last_snoc. congruence.
    + destruct (Z.eqb_spec u w) as [->|Hne].
      * destruct (Z.leb_spec max_per_sec (Z.of_nat n)) as [|Hlt]; [done|]. eapply bursts_snoc; [done..|lia].
      * apply (bursts_snoc _ (lim_passed l) w 0); [done|by rewrite app_nil_r| |lia]. rewrite Hp.
        destruct n as [|n]; [by rewrite Hz|]. rewrite replicate_S_end, app_assoc, last_snoc. congruence.
  - apply phase_inv; [done|]. exact (Hws _ _ Hi).
Qed.

Lemma limiter_reachable n l : rtc (limiter_step max_per_sec) (limiter_new n) l → limiter_inv l.
Proof.
  intros Hr. assert (Hi := limiter_inv_new n). induction Hr as [|l1 l2 l3 Hs _ IH]; [done|]. apply IH. by eapply limiter_inv_step.
Qed.

Lemma sorted_split (w : Z) l : StronglySorted Z.le l →
  l = filter (λ x, x < w)%Z l ++ filter (λ x, x = w) l ++ filter (λ x, w < x)%Z l.
Proof.
  induction 1 as [|x l _ IH Hx]; [done|]. rewrite Forall_forall in Hx.
  assert (Hnone : ∀ (P : Z → Prop) `{∀ y, Decision (P y)}, (∀ y, x ≤ y → ¬ P y)%Z → filter P l = []).
  { intros P ? HP. destruct (filter P l) as [|y r] eqn:E; [done|].
    assert (y ∈ filter P l) as [Hy Hl]%list_elem_of_filter by (rewrite E; constructor). destruct (HP y); [|done]. by apply Hx. }
  destruct (Ztrichotomy x w) as [Hlt|[->|Hgt%Z.gt_lt]].
  - rewrite (filter_cons_True (λ x, x < w)%Z), (filter_cons_False (λ x, x = w)), (filter_cons_False (λ x, w < x)%Z) by lia.
    cbn [app]. by rewrite <-IH.
  - rewrite (filter_cons_False (λ x, x < w)%Z), (filter_cons_True (λ x, x = w)), (filter_cons_False (λ x, w < x)%Z) by lia.
    rewrite IH at 1. rewrite (Hnone (λ x, x < w)%Z) by lia. done.
  - rewrite (filter_cons_False (λ x, x < w)%Z), (filter_cons_False (λ x, x = w)), (filter_cons_True (λ x, w < x)%Z) by lia.
    rewrite IH at 1. rewrite (Hnone (λ x, x < w)%Z), (Hnone (λ x, x = w)) by lia. done.
Qed.

Lemma filter_eq_replicate (w : Z) l : filter (λ x, x = w) l = replicate (length (filter (λ x, x = w) l)) w.
Proof.
  induction l as [|x l IH]; [done|]. destruct (decide (x = w)) as [->|Hx].
  - rewrite filter_cons_True by done. cbn [length replicate]. by f_equal.
  - by rewrite filter_cons_False by done.
Qed.

(** As long as the calls are let through in the order of their seconds, no
    second sees more than the budget, whatever the threads interleave. *)
Theorem limiter_budget n l w : rtc (limiter_step max_per_sec) (limiter_new n) l → StronglySorted Z.le (lim_passed l) →
  (Z.of_nat (length (filter (λ x, x = w) (lim_passed l))) ≤ max_per_sec)%Z.
Proof.
  intros Hr Hs. apply limiter_reachable, li_bursts in Hr. rewrite (sorted_split w _ Hs) in Hr.
  rewrite (filter_eq_replicate w (lim_passed l)) in Hr at 1. by eapply Hr.
Qed.
End budget.

(** *** A thread whose clock reading is old *)

Section stale.
Context (max_per_sec : Z) (Hmax : (0 < max_per_sec < 2 ^ 32)%Z).

Lemma pass_once l i now new : lim_threads l !! i = Some Outside → check_turn max_per_sec (now_window now) (lim_state l) = Some new →
  rtc (limiter_step max_per_sec) l (mk_limiter new (lim_threads l) (lim_passed l ++ [now_window now])).
Proof.
  intros Hi Hnew. pose proof (lookup_lt_Some _ _ _ Hi) as Hlt. destruct l as [st ts ps]. cbn [lim_threads lim_state lim_passed] in *.
  assert (Hlook : ∀ p, <[i := p]> ts !! i = Some p) by (intros p; by apply list_lookup_insert_eq).
  eapply rtc_l; [by apply (Lim_call _ _ i now)|]. eapply rtc_l; [by eapply (Lim_load _ _ i), Hnew; apply Hlook|].
  unfold at_phase. cbn [lim_state lim_threads lim_passed]. rewrite ?list_insert_insert_eq. eapply rtc_l; [by eapply (Lim_swap _ _ i), Hnew; apply Hlook|].
  cbn [lim_threads lim_passed]. rewrite ?list_insert_insert_eq, list_insert_id by done. apply rtc_refl.
Qed.

Lemma pass_many k l i now c : lim_threads l !! i = Some Outside → lim_state l = pack (now_window now) c →
  (0 ≤ c)%Z → (c + Z.of_nat k ≤ max_per_sec)%Z →
  rtc (limiter_step max_per_sec) l
    (mk_limiter (pack (now_window now) (c + Z.of_nat k)) (lim_threads l) (lim_passed l ++ replicate k (now_window now))).
Proof.
  pose proof (now_window_bound now) as Hw. revert l c. induction k as [|k IH]; intros l c Hi Hst Hc Hk.
  - rewrite Z.add_0_r, app_nil_r, <-Hst. by destruct l.
  - assert (Hnew : check_turn max_per_sec (now_window now) (lim_state l) = Some (pack (now_window now) (c + 1))).
    { unfold check_turn. rewrite Hst, pack_window, pack_count, Z.eqb_refl by lia. by rewrite (proj2 (Z.leb_gt max_per_sec c)) by lia. }
    etrans; [by apply (pass_once _ i)|]. etrans; [apply (IH _ (c + 1)%Z); [done|done|lia|lia]|]. cbn [lim_threads lim_passed].
    rewrite <-app_assoc. replace (c + 1 + Z.of_nat k)%Z with (c + Z.of_nat (S k))%Z by lia. done.
Qed.

Lemma fill l i now : lim_threads l !! i = Some Outside → window_of (lim_state l) ≠ now_window now →
  rtc (limiter_step max_per_sec) l
    (mk_limiter (pack (now_window now) max_per_sec) (lim_threads l) (lim_passed l ++ replicate (Z.to_nat max_per_sec) (now_window now))).
Proof.
  intros Hi Hw. etrans.
  - apply (pass_once l i now); [done|]. unfold check_turn. by rewrite (proj2 (Z.eqb_neq _ _) Hw).
  - etrans; [apply (pass_many (Z.to_nat (max_per_sec - 1)) _ i now 1); [done|done|lia|lia]|]. cbn [lim_threads lim_passed].
    rewrite <-app_assoc. replace (1 + Z.of_nat (Z.to_nat (max_per_sec - 1)))%Z with max_per_sec by lia.
    replace (Z.to_nat max_per_sec) with (S (Z.to_nat (max_per_sec - 1))) by lia. done.
Qed.

(** A thread that read the clock in another second and is delayed resets the
    word when it goes on: the second then sees twice its budget. *)
Theorem stale_thread_doubles now stale : now_window now ≠ 0%Z → now_window stale ≠ now_window now →
  ∃ l, rtc (limiter_step max_per_sec) (limiter_new 2) l ∧
    Z.of_nat (length (filter (λ x, x = now_window now) (lim_passed l))) = (2 * max_per_sec)%Z.
Proof.
  intros H0 Hs. pose proof (now_window_bound now). pose proof (now_window_bound stale). eexists. split.
  - eapply rtc_l; [by apply (Lim_call _ _ 1 stale)|]. etrans; [by apply (fill _ 0 now)|]. cbn [at_phase lim_threads lim_passed limiter_new app replicate insert list_insert].
    assert (Hturn : check_turn max_per_sec (now_window stale) (pack (now_window now) max_per_sec) = Some (pack (now_window stale) 1)).
    { unfold check_turn. rewrite pack_window by lia. by rewrite (proj2 (Z.eqb_neq (now_window now) _)) by done. }
    eapply rtc_l; [by eapply (Lim_load _ _ 1)|]. eapply rtc_l; [by eapply (Lim_swap _ _ 1)|].
    etrans; [apply (fill _ 0 now); [done|cbn [lim_state]; rewrite pack_window by lia; done]|]. apply rtc_refl.
  - cbn [lim_passed at_phase]. rewrite !filter_app, !length_app, filter_cons_False by done.
    assert (Hr : ∀ n, filter (λ x, x = now_window now) (replicate n (now_window now)) = replicate n (now_window now)).
    { intros n. induction n as [|n IH]; [done|]. cbn [replicate]. by rewrite filter_cons_True, IH. }
    rewrite Hr, length_replicate. cbn. lia.
Qed.
End stale.

(** ** The cache stays bounded and loses one entry at a time *)

Section laws.
Context {K V : Type} `{Countable K} `{HashIter}.
Implicit Types (c : TtlCache K V).

Record cache_inv c : Prop := {
  ci_nodup : NoDup (order c);
  ci_keys : ∀ k, k ∈ order c ↔ is_Some (entries c !! k);
  ci_bounded : (Z.of_nat (size (entries c)) ≤ Z.max 1 (cap c))%Z
}.

Lemma first_min_spec {A} (key : A → Z) l :
  match first_min key l with Some x => x ∈ l ∧ Forall (λ y, (key x ≤ key y)%Z) l | None => l = [] end.
Proof.
  induction l as [|x l IH]; [done|]. cbn [first_min]. destruct (first_min key l) as [y|].
  - destruct IH as [Hy Hl]. destruct (Z.ltb_spec (key y) (key x)).
    + split; [by constructor|]. constructor; [lia|done].
    + split; [constructor|]. constructor; [lia|]. eapply Forall_impl; [exact Hl|]. simpl. lia.
  - subst l. split; [constructor|]. by repeat constructor.
Qed.

Lemma elem_of_iter (m : gmap K (Z * V)) k e : (k, e) ∈ iter m ↔ m !! k = Some e.
Proof. rewrite iter_perm. apply elem_of_map_to_list. Qed.

(** The entry that goes: an expired one if there is one, else the oldest; if
    nothing can expire, the first in the order of insertion. *)
Definition evictable (now : Z) c (k : K) : Prop :=
  ∃ e, entries c !! k = Some e ∧
  if can_expire c then
    if bool_decide (map_Exists (λ _ e, expired (ttl_secs c) now e = true) (entries c)) then expired (ttl_secs c) now e = true
    else map_Forall (λ _ e', (e.1 ≤ e'.1)%Z) (entries c)
  else head (order c) = Some k.

Lemma find_victim_spec now c : entries c ≠ ∅ → ∃ k e, find_victim now c = Some k ∧ entries c !! k = Some e ∧
  if bool_decide (map_Exists (λ _ e, expired (ttl_secs c) now e = true) (entries c)) then expired (ttl_secs c) now e = true
  else map_Forall (λ _ e', (e.1 ≤ e'.1)%Z) (entries c).
Proof.
  intros Hne. unfold find_victim. destruct (list_find _ (iter (entries c))) as [[i [k e]]|] eqn:E.
  - apply list_find_Some in E as (Hi%list_elem_of_lookup_2%elem_of_iter & He & _). exists k, e. split_and!; [done..|].
    by rewrite bool_decide_eq_true_2 by (exists k, e; done).
  - apply list_find_None in E. rewrite Forall_forall in E. pose proof (first_min_spec (λ ke : K * (Z * V), ke.2.1) (iter (entries c))) as Hm.
    destruct (first_min _ _) as [[k e]|].
    + destruct Hm as [Hk%elem_of_iter Hmin]. exists k, e. split_and!; [done..|]. rewrite bool_decide_eq_false_2.
      * intros k' e' Hk'. rewrite Forall_forall in Hmin. apply (Hmin (k', e')). by apply elem_of_iter.
      * intros (k' & e' & Hk' & He'). apply (E (k', e')); [by apply elem_of_iter|done].
    + destruct Hne. apply map_to_list_empty_iff, Permutation_nil_r. by rewrite <-iter_perm, Hm.
Qed.

Definition without (k : K) c : TtlCache K V :=
  mk_ttl_cache (delete k (entries c)) (filter (λ k', k' ≠ k) (order c)) (ttl_secs c) (cap c).

Lemma without_spec k c : cache_inv c → is_Some (entries c !! k) → NoDup (order (without k c)) ∧
  (∀ x, x ∈ order (without k c) ↔ is_Some (entries (without k c) !! x)) ∧
  (Z.of_nat (size (entries (without k c))) < Z.max 1 (cap c))%Z.
Proof.
  intros [Hnd Hk Hle] [e He]. unfold without. split_and!.
  - by apply NoDup_filter.
  - intros x. change (x ∈ filter (λ y, y ≠ k) (order c) ↔ is_Some (delete k (entries c) !! x)).
    rewrite list_elem_of_filter, Hk, lookup_delete_is_Some. naive_solver.
  - change (Z.of_nat (size (delete k (entries c))) < Z.max 1 (cap c))%Z. rewrite map_size_delete, He. simpl.
    assert (size (entries c) ≠ 0) by (rewrite map_size_empty_iff; intros E; by rewrite E, lookup_empty in He). lia.
Qed.

Lemma evict_one_spec now c : cache_inv c → entries c ≠ ∅ → ∃ k, evictable now c k ∧ evict_one now c = without k c.
Proof.
  intros [Hnd Hk _] Hne. unfold evict_one, evictable, without. destruct (can_expire c) eqn:Hexp.
  - destruct (find_victim_spec now c Hne) as (k & e & -> & He & Hv). exists k. split; [by exists e|done].
  - destruct (order c) as [|k o] eqn:Ho.
    + destruct Hne. apply map_empty. intros k. destruct (entries c !! k) as [e|] eqn:E; [|done].
      assert (k ∈ []) as Hin by (apply Hk; by rewrite E). inversion Hin.
    + assert (is_Some (entries c !! k)) as [e He] by (apply Hk; constructor). exists k. split; [by exists e|].
      cbn [pop_oldest]. rewrite He. apply NoDup_cons in Hnd as [Hko _]. rewrite filter_cons_False by naive_solver.
      f_equal. symmetry. clear -Hko. induction o as [|x o IH]; [done|].
      rewrite filter_cons_True by set_solver. f_equal. apply IH. set_solver.
Qed.

(** An insertion gives up at most one entry, and only when the cache is full
    and the key is new. *)
Lemma inv_insert k v now c : NoDup (order c) → (∀ k, k ∈ order c ↔ is_Some (entries c !! k)) →
  (Z.of_nat (size (entries c)) ≤ Z.max 1 (cap c))%Z →
  (entries c !! k = None → Z.of_nat (size (entries c)) < Z.max 1 (cap c))%Z →
  cache_inv (mk_ttl_cache (<[k := (now, v)]> (entries c)) (match entries c !! k with Some _ => order c | None => order c ++ [k] end)
    (ttl_secs c) (cap c)).
Proof.
  intros Hnd Hk Hle Hlt. assert (Hsize := map_size_insert k (now, v) (entries c)). destruct (entries c !! k) as [e|] eqn:E; cbn in Hsize; split; cbn [order entries cap].
  - done.
  - intros k'. rewrite Hk, lookup_insert_is_Some'. split; [by right|]. by intros [<-|].
  - lia.
  - apply NoDup_app. split_and!; [done| |apply NoDup_singleton]. intros x Hx ->%list_elem_of_singleton. apply Hk in Hx. rewrite E in Hx. by destruct Hx.
  - intros k'. rewrite elem_of_app, list_elem_of_singleton, Hk, lookup_insert_is_Some'. naive_solver.
  - specialize (Hlt eq_refl). lia.
Qed.

Lemma evict_empty now c : cache_inv c → entries c = ∅ → evict_one now c = c.
Proof.
  intros [_ Hk _] He. assert (order c = []) as Ho.
  { destruct (order c) as [|k o] eqn:E; [done|]. assert (k ∈ k :: o) as Hin by constructor. rewrite Hk, He, lookup_empty in Hin. by destruct Hin. }
  destruct c as [t o ttl n]. cbn in *. subst. unfold evict_one, find_victim. cbn [entries order].
  assert (iter (∅ : gmap K (Z * V)) = []) as -> by (apply Permutation_nil_r; by rewrite iter_perm, map_to_list_empty).
  cbn. by destruct (can_expire _).
Qed.

(** An insertion gives up at most one entry, only when the cache is full and
    the key is new, and then one that may go; the cache keeps within its bound
    and each key once in its order. *)
Theorem ttl_insert_spec k v now c (Hinv : cache_inv c) :
  ∃ victim, cache_inv (ttl_insert k v now c) ∧
    entries (ttl_insert k v now c) = <[k := (now, v)]> (match victim with Some k' => delete k' (entries c) | None => entries c end) ∧
    match victim with
    | Some k' => entries c !! k = None ∧ (cap c ≤ Z.of_nat (size (entries c)))%Z ∧ evictable now c k'
    | None => entries c !! k ≠ None ∨ (Z.of_nat (size (entries c)) < cap c)%Z ∨ entries c = ∅
    end.
Proof.
  pose proof Hinv as [Hnd Hk Hle]. unfold ttl_insert. destruct (bool_decide_reflect (entries c !! k = None)) as [Hnone|Hsome]; cbn [andb].
  - destruct (Z.leb_spec (cap c) (Z.of_nat (size (entries c)))) as [Hfull|Hroom].
    + destruct (decide (entries c = ∅)) as [He|He].
      * exists None. rewrite evict_empty by done. split_and!; [|done|by auto]. apply inv_insert; [done..|]. intros _. rewrite He, map_size_empty. lia.
      * destruct (evict_one_spec now c Hinv He) as (k' & Hk' & ->). exists (Some k'). split_and!; [|done..].
        destruct (without_spec k' c Hinv) as (H1 & H2 & H3); [destruct Hk' as (e & -> & _); by eexists|].
        apply (inv_insert k v now (without k' c) H1 H2); cbn [without cap]; lia.
    + exists None. split_and!; [|done|by auto]. apply inv_insert; [done..|]. lia.
  - exists None. split_and!; [|done|by left]. by apply inv_insert.
Qed.

(** What was inserted is found until it is [ttl_secs] old. *)
Theorem ttl_get_insert k v now now' c : ttl_get k now' (ttl_insert k v now c) =
  if (i64_sat_sub now' now <? ttl_secs c)%Z then Some v else None.
Proof.
  assert (Httl : ttl_secs (ttl_insert k v now c) = ttl_secs c).
  { unfold ttl_insert, evict_one. cbn [ttl_secs]. destruct (_ && _); [|done]. destruct (if can_expire c then _ else _); [done|].
    by destruct (pop_oldest _ _). }
  unfold ttl_get. rewrite Httl. unfold ttl_insert at 1. cbn [entries]. rewrite lookup_insert_eq. cbn [mbind option_bind].
  unfold expired. cbn [fst snd]. rewrite Z.leb_antisym. by destruct (_ <? _)%Z.
Qed.

(** The comment of [can_expire]: with the largest lifetime nothing ever expires. *)
Theorem never_expires c k now : ttl_secs c = i64_max → (now < i64_max)%Z → map_Forall (λ _ e, (0 ≤ e.1)%Z) (entries c) →
  ttl_get k now c = snd <$> entries c !! k.
Proof.
  intros Ht Hn Hf. unfold ttl_get. destruct (entries c !! k) as [e|] eqn:E; [|done]. cbn [mbind option_bind fmap option_fmap option_map].
  specialize (Hf k e E). cbn in Hf. unfold expired. rewrite Ht. destruct (Z.leb_spec i64_max (i64_sat_sub now e.1)) as [Hle|]; [|done].
  unfold i64_sat_sub, i64_min, i64_max in *. lia.
Qed.

Lemma inv_new ttl n : cache_inv (ttl_new ttl n : TtlCache K V).
Proof. split; cbn; [constructor| |rewrite map_size_empty; lia]. intros k. rewrite lookup_empty. split; [by intros ?%elem_of_nil|by intros [? ?]]. Qed.

(** Over any sequence of operations. *)
Theorem ttl_cache_bounded ttl n (ops : list (cache_op)) : cache_inv (fold_left cache_run ops (ttl_new ttl n : TtlCache K V)).
Proof.
  assert (Hi := inv_new ttl n). revert Hi. generalize (ttl_new ttl n : TtlCache K V). induction ops as [|op ops IH]; intros c Hi; [done|].
  cbn [fold_left]. apply IH. destruct op as [k v now|]; cbn [cache_run].
  - by destruct (ttl_insert_spec k v now c Hi) as (? & ? & _).
  - split; cbn; [constructor| |rewrite map_size_empty; lia]. intros k. rewrite lookup_empty. split; [by intros ?%elem_of_nil|by intros [? ?]].
Qed.
End laws.
