(* ===== verification/Mdns.v ===== *)
(** Discovery of peers on the local network over mDNS,
    src/network-core/src/mdns.rs: the names of the advertised services, and the
    browser that turns the resolved ones into peers. The responder and the
    resolver are the mdns_sd crate: the queue of its events is part of the
    state. *)

From S2P Require Import Prelude RustStr Text Url.

Definition SERVICE_TYPE : str := lit "_soshal._tcp.local.".

(** Source: src/network-core/src/mdns.rs:20-22 (instance_name) *)
Definition instance_name (pubkey : str) : str := lit "soshal-" ++ pubkey.

(** Source: src/network-core/src/mdns.rs:25-32 (parse_instance_pubkey) *)
Definition parse_instance_pubkey (instance : str) : option str :=
  pk ← strip_prefix (lit "soshal-") instance;
  if (length pk =? 64) && forallb is_ascii_hexdigit pk then Some pk else None.

(** The octets of an address; with a port, a socket address. *)
Abbreviation ipv4 := (Z * Z * Z * Z)%type (only parsing).
Abbreviation sock_addr := (Z * Z * Z * Z * Z)%type (only parsing).

(** [Ipv4Addr]'s [Display]. *)
Definition print_ipv4 (ip : ipv4) : str :=
  let '(a, b, c, d) := ip in print_u64 a ++ [0x2E%Z] ++ print_u64 b ++ [0x2E%Z] ++ print_u64 c ++ [0x2E%Z] ++ print_u64 d.

(** Source: src/network-core/src/lan.rs:11-13 (is_private_ip) *)
Definition lan_is_private_ip (ip : ipv4) : bool := is_private_ip_str (print_ipv4 ip).

(** Source: src/network-core/src/mdns.rs:36-40 (MdnsPeer) *)
Record MdnsPeer := mk_mdns_peer { mp_pubkey : str; mp_addr : sock_addr; mp_quic_port : option Z }.

#[export] Instance mdns_peer_eq_dec : EqDecision MdnsPeer.
Proof. solve_decision. Defined.

(** A resolved service: its full name, its addresses, its port and the text
    of its quic_port property. *)
Record ServiceInfo := mk_service { svc_fullname : str; svc_addresses_v4 : list ipv4; svc_port : Z; svc_quic_port : option str }.

(** Other events are passed over. *)
Inductive ServiceEvent := ServiceResolved (info : ServiceInfo) | OtherEvent.

(** Source: src/network-core/src/mdns.rs:116-126 (MdnsBrowser) *)
Record MdnsBrowser := mk_browser { br_events : list ServiceEvent; br_seen : gmap sock_addr (option Z) }.

(** [fullname.split('.').next()]. *)
Definition first_label (fullname : str) : str := match split_once 0x2E fullname with Some (l, _) => l | None => fullname end.

(** Source: src/network-core/src/mdns.rs:161-186 (drain_peers, address) *)
Definition drain_address (pubkey : str) (quic_port : option Z) (port : Z) (acc : list MdnsPeer * gmap sock_addr (option Z)) (ip : ipv4)
    : list MdnsPeer * gmap sock_addr (option Z) :=
  let '(peers, seen) := acc in
  if lan_is_private_ip ip then
    let addr := (ip, port) in
    match seen !! addr with
    | None => (peers ++ [mk_mdns_peer pubkey addr quic_port], <[addr := quic_port]> seen)
    | Some prev =>
        if bool_decide (prev = quic_port) then (peers, seen)
        else (peers ++ [mk_mdns_peer pubkey addr quic_port], <[addr := quic_port]> seen)
    end
  else (peers, seen).

(** Source: src/network-core/src/mdns.rs:148-187 (drain_peers, event) *)
Definition drain_event (acc : list MdnsPeer * gmap sock_addr (option Z)) (ev : ServiceEvent) : list MdnsPeer * gmap sock_addr (option Z) :=
  match ev with
  | OtherEvent => acc
  | ServiceResolved info =>
      match parse_instance_pubkey (first_label (svc_fullname info)) with
      | None => acc
      | Some pubkey =>
          fold_left (drain_address pubkey (svc_quic_port info ≫= parse_unsigned 65535) (svc_port info)) (svc_addresses_v4 info) acc
      end
  end.

(** Source: src/network-core/src/mdns.rs:145-190 (drain_peers) *)
Definition drain_peers (b : MdnsBrowser) : list MdnsPeer * MdnsBrowser :=
  let '(peers, seen) := fold_left drain_event (br_events b) ([], br_seen b) in
  (peers, mk_browser [] seen).

(** ** What is reported *)

Lemma hex_digits s : forallb is_ascii_hexdigit s = true ↔ Forall (λ b, is_ascii_hexdigit b = true) s.
Proof. rewrite forallb_forall, Forall_forall. by setoid_rewrite list_elem_of_In. Qed.

(** An advertised name gives the key back; a browser reads it off the full
    name of the service. *)
Theorem instance_roundtrip pk : length pk = 64 → Forall (λ b, is_ascii_hexdigit b = true) pk →
  parse_instance_pubkey (first_label (instance_name pk ++ 0x2E%Z :: SERVICE_TYPE)) = Some pk.
Proof.
  intros Hl Hh. unfold first_label. rewrite split_once_app.
  - unfold parse_instance_pubkey, instance_name. rewrite strip_prefix_app. cbn [mbind option_bind]. rewrite Hl, Nat.eqb_refl.
    by rewrite (proj2 (hex_digits pk)).
  - unfold instance_name. rewrite elem_of_app. intros [Hin|Hin].
    + vm_compute in Hin. set_solver.
    + rewrite Forall_forall in Hh. apply Hh in Hin. done.
Qed.

Definition reported (p : MdnsPeer) : Prop :=
  length (mp_pubkey p) = 64 ∧ Forall (λ b, is_ascii_hexdigit b = true) (mp_pubkey p) ∧ lan_is_private_ip (mp_addr p).1 = true.

Lemma parse_instance_spec s pk : parse_instance_pubkey s = Some pk → length pk = 64 ∧ Forall (λ b, is_ascii_hexdigit b = true) pk.
Proof.
  unfold parse_instance_pubkey. destruct (strip_prefix _ s) as [r|]; [|done]. cbn [mbind option_bind].
  destruct (Nat.eqb_spec (length r) 64) as [Hl|]; [|done]. cbn [andb]. destruct (forallb is_ascii_hexdigit r) eqn:Hh; [|done]. intros [= ->].
  split; [done|]. by apply hex_digits.
Qed.

(** The peers of a drain, and what has been seen after it. *)
Record drained (seen0 : gmap sock_addr (option Z)) (acc : list MdnsPeer * gmap sock_addr (option Z)) : Prop := {
  dr_reported : Forall reported acc.1;
  (** the last report of an address is what is seen of it *)
  dr_last : ∀ addr, acc.2 !! addr =
    match last (filter (λ p, mp_addr p = addr) acc.1) with Some p => Some (mp_quic_port p) | None => seen0 !! addr end
}.

Lemma drained_address seen0 pk q port acc ip : length pk = 64 → Forall (λ b, is_ascii_hexdigit b = true) pk →
  drained seen0 acc → drained seen0 (drain_address pk q port acc ip).
Proof.
  intros Hl Hh [Hr Hlast]. destruct acc as [peers seen]. unfold drain_address. destruct (lan_is_private_ip ip) eqn:Hp; [|by split].
  assert (Hnew : drained seen0 (peers ++ [mk_mdns_peer pk (ip, port) q], <[(ip, port) := q]> seen)).
  { split; cbn [fst snd] in *.
    - apply Forall_app. split; [done|]. by repeat constructor.
    - intros addr. rewrite filter_app. destruct (decide ((ip, port) = addr)) as [<-|Hne].
      + rewrite lookup_insert_eq, filter_cons_True, last_app by done. done.
      + rewrite lookup_insert_ne, filter_cons_False, filter_nil, app_nil_r by done. apply Hlast. }
  destruct (seen !! (ip, port)) as [prev|]; [|done]. destruct (bool_decide_reflect (prev = q)); [by split|done].
Qed.

Lemma drained_event seen0 acc ev : drained seen0 acc → drained seen0 (drain_event acc ev).
Proof.
  intros Hd. destruct ev as [info|]; [|done]. cbn [drain_event].
  destruct (parse_instance_pubkey _) as [pk|] eqn:E; [|done]. destruct (parse_instance_spec _ _ E) as [Hl Hh].
  revert acc Hd. induction (svc_addresses_v4 info) as [|ip ips IH]; intros acc Hd; [done|]. cbn [fold_left]. apply IH. by apply drained_address.
Qed.

(** Every reported peer has a well-formed key and a private address, and what
    the browser remembers of an address is the port it last reported. *)
Theorem drain_peers_spec b : let '(peers, b') := drain_peers b in
  Forall reported peers ∧ br_events b' = [] ∧
  ∀ addr, br_seen b' !! addr =
    match last (filter (λ p, mp_addr p = addr) peers) with Some p => Some (mp_quic_port p) | None => br_seen b !! addr end.
Proof.
  unfold drain_peers. assert (Hd : drained (br_seen b) (fold_left drain_event (br_events b) ([], br_seen b))).
  { assert (H0 : drained (br_seen b) ([], br_seen b)) by (by split). revert H0. generalize ([] : list MdnsPeer, br_seen b).
    induction (br_events b) as [|ev evs IH]; intros acc Hacc; [done|]. cbn [fold_left]. apply IH. by apply drained_event. }
  destruct (fold_left drain_event _ _) as [peers seen]. by destruct Hd.
Qed.

(** The address alone decides what is new: a record that names another key at
    an address already seen with the same port is not reported. *)
Theorem second_key_hidden pk pk' ip port q seen : lan_is_private_ip ip = true →
  (fold_left (drain_address pk' q port) [ip] (drain_address pk q port ([], seen) ip)).1 = (drain_address pk q port ([], seen) ip).1.
Proof.
  intros Hp. cbn [fold_left]. unfold drain_address at 2 3. rewrite Hp. destruct (seen !! (ip, port)) as [prev|] eqn:E.
  - destruct (bool_decide_reflect (prev = q)) as [->|Hne].
    + unfold drain_address. rewrite Hp, E. by rewrite bool_decide_eq_true_2.
    + unfold drain_address. rewrite Hp, lookup_insert_eq. by rewrite bool_decide_eq_true_2.
  - unfold drain_address. rewrite Hp, lookup_insert_eq. by rewrite bool_decide_eq_true_2.
Qed.
