(* ===== verification/Signer.v ===== *)
(** The signer of the bridge: the unlocked key and what is derived from it,
    src/flutter-bridge/src/ffi/signer.rs, with the cache of shared secrets of
    src/identity-core/src/signers.rs and the calls of ffi/zap.rs, ffi/p2p.rs
    and ffi/sync.rs that share its locks. Each call is a program over the
    mutexes of these files; the calls of several threads interleave as in
    Threads. Keys, signatures and the server sockets are interfaces, clocks
    and draws are arguments; poisoned locks and the platform keychain are left
    out. *)

From S2P Require Import Prelude RustStr Text Primitives Hybrid BridgeUtil Store Mdns Nip44 Json Seal AtRest Outbox Threads.

(** Source: src/flutter-bridge/src/ffi/signer.rs:18-24 (SIGNER, LAN_KEY_CACHE, AT_REST_KEY_CACHE) *)
Inductive mutex :=
| SIGNER | LAN_KEY_CACHE | AT_REST_KEY_CACHE | CK_CACHE | SHARED_SECRET_CACHE | NWC | NWC_URI_STATE | PENDING_PAYMENT | P2P.

#[export] Instance mutex_eq_dec : EqDecision mutex.
Proof. solve_decision. Defined.
#[export] Instance mutex_countable : Countable mutex.
Proof.
  apply (inj_countable
    (λ m, match m with SIGNER => 0 | LAN_KEY_CACHE => 1 | AT_REST_KEY_CACHE => 2 | CK_CACHE => 3 | SHARED_SECRET_CACHE => 4
          | NWC => 5 | NWC_URI_STATE => 6 | PENDING_PAYMENT => 7 | P2P => 8 end)
    (λ n, [SIGNER; LAN_KEY_CACHE; AT_REST_KEY_CACHE; CK_CACHE; SHARED_SECRET_CACHE; NWC; NWC_URI_STATE; PENDING_PAYMENT; P2P] !! n)).
  by intros [].
Defined.

(** The nostr crate and secp256k1: a secret key from its text, the public key
    in hex, signing, the shared x-coordinate with a public key, whether a text
    is a public key, and the crate's own NIP-44. *)
Class NostrKeys := {
  keys_parse : str → option bytes;
  public_hex : bytes → str;
  sign_json : bytes → Z → list (list (list Z)) → str → may_fail str;
  unsigned_pubkey : str → option str;
  sign_unsigned : bytes → str → may_fail str;
  sign_schnorr : bytes → bytes → str;
  ecdh_x : bytes → str → may_fail bytes;
  valid_pubkey : str → bool;
  nip44_encrypt : bytes → str → str → may_fail str;
  nip44_decrypt : bytes → str → str → may_fail str
}.
(** The public key has no sign, and neither has the shared coordinate. *)
Class NostrKeysLaws `{NostrKeys} : Prop := {
  ecdh_public sk sk' pk : public_hex sk = public_hex sk' → ecdh_x sk pk = ecdh_x sk' pk
}.

(** Source: src/identity-core/src/signers.rs:127-131 (SharedSecretCache) *)
Record SharedSecretCache := mk_shared { ss_order : list (str * str); ss_map : gmap (str * str) bytes; ss_cap : Z }.

(** Source: src/flutter-bridge/src/ffi/zap.rs:56-60 (NwcConnectionInfo) *)
Record NwcConnectionInfo := mk_nwc { nwc_wallet_pubkey : str; nwc_relay_url : str; nwc_lud16 : option str }.

(** What an advertiser announces. *)
Record announced := mk_announced { ann_pubkey : str; ann_port : Z; ann_quic : option Z }.

(** Of the runtime, the advertiser, the browser and the two servers: the key
    each serves with and its port; the downloads are left out.
    Source: src/flutter-bridge/src/ffi/p2p.rs:32-39 (P2pState) *)
Record P2pState := mk_p2p { advertiser : option announced; browser : option MdnsBrowser; lan_server : option (bytes * Z); quic_server : option (bytes * Z) }.

(** Source: src/flutter-bridge/src/ffi/p2p.rs:684-693 (P2pState::new) *)
Definition p2p_new : P2pState := mk_p2p None None None None.

(** The globals behind the mutexes, the word of the rate limiter and the users
    of the database. *)
Record bridge := mk_bridge {
  sg_signer : option bytes;
  sg_lan : option bytes;
  sg_rest : option bytes;
  sg_ck : option CkCache;
  sg_shared : option SharedSecretCache;
  sg_nwc : option NwcConnectionInfo;
  sg_nwc_uri : option str;
  sg_pending : option (str * Z);
  sg_p2p : option P2pState;
  sg_rate : Z;
  sg_users : gmap str UserRow
}.

Definition set_signer k (b : bridge) := mk_bridge k (sg_lan b) (sg_rest b) (sg_ck b) (sg_shared b) (sg_nwc b) (sg_nwc_uri b) (sg_pending b) (sg_p2p b) (sg_rate b) (sg_users b).
Definition set_lan k (b : bridge) := mk_bridge (sg_signer b) k (sg_rest b) (sg_ck b) (sg_shared b) (sg_nwc b) (sg_nwc_uri b) (sg_pending b) (sg_p2p b) (sg_rate b) (sg_users b).
Definition set_rest k (b : bridge) := mk_bridge (sg_signer b) (sg_lan b) k (sg_ck b) (sg_shared b) (sg_nwc b) (sg_nwc_uri b) (sg_pending b) (sg_p2p b) (sg_rate b) (sg_users b).
Definition set_ck k (b : bridge) := mk_bridge (sg_signer b) (sg_lan b) (sg_rest b) k (sg_shared b) (sg_nwc b) (sg_nwc_uri b) (sg_pending b) (sg_p2p b) (sg_rate b) (sg_users b).
Definition set_shared k (b : bridge) := mk_bridge (sg_signer b) (sg_lan b) (sg_rest b) (sg_ck b) k (sg_nwc b) (sg_nwc_uri b) (sg_pending b) (sg_p2p b) (sg_rate b) (sg_users b).
Definition set_nwc k (b : bridge) := mk_bridge (sg_signer b) (sg_lan b) (sg_rest b) (sg_ck b) (sg_shared b) k (sg_nwc_uri b) (sg_pending b) (sg_p2p b) (sg_rate b) (sg_users b).
Definition set_nwc_uri k (b : bridge) := mk_bridge (sg_signer b) (sg_lan b) (sg_rest b) (sg_ck b) (sg_shared b) (sg_nwc b) k (sg_pending b) (sg_p2p b) (sg_rate b) (sg_users b).
Definition set_pending k (b : bridge) := mk_bridge (sg_signer b) (sg_lan b) (sg_rest b) (sg_ck b) (sg_shared b) (sg_nwc b) (sg_nwc_uri b) k (sg_p2p b) (sg_rate b) (sg_users b).
Definition set_p2p k (b : bridge) := mk_bridge (sg_signer b) (sg_lan b) (sg_rest b) (sg_ck b) (sg_shared b) (sg_nwc b) (sg_nwc_uri b) (sg_pending b) k (sg_rate b) (sg_users b).
Definition set_rate k (b : bridge) := mk_bridge (sg_signer b) (sg_lan b) (sg_rest b) (sg_ck b) (sg_shared b) (sg_nwc b) (sg_nwc_uri b) (sg_pending b) (sg_p2p b) k (sg_users b).

Abbreviation run A := (prog mutex bridge A) (only parsing).

(** [*lock(m) = v]. *)
Definition assign (m : mutex) (f : bridge → bridge) : run unit := locked m (put f).

Section signer.
Context `{Primitives, NostrKeys}.

(** ** Locking and unlocking *)

(** Source: src/flutter-bridge/src/ffi/signer.rs:39-52 (clear_derived_cache) *)
Definition clear_derived_cache : run unit :=
  _ ← assign LAN_KEY_CACHE (set_lan None);
  assign AT_REST_KEY_CACHE (set_rest None).

(** Source: src/identity-core/src/signers.rs:159-168 (clear_shared_secret_cache) *)
Definition clear_shared_secret_cache : run unit := assign SHARED_SECRET_CACHE (set_shared None).
Definition clear_conversation_keys : run unit := assign CK_CACHE (λ b, set_ck (clear_conversation_key_cache (sg_ck b)) b).

(** Source: src/flutter-bridge/src/ffi/zap.rs:90-94 (clear_pending_payment) *)
Definition clear_pending_payment : run unit := assign PENDING_PAYMENT (set_pending None).

(** Source: src/flutter-bridge/src/ffi/zap.rs:170-175 (zap_disconnect_nwc) *)
Definition zap_disconnect_nwc : run unit :=
  _ ← assign NWC (set_nwc None);
  _ ← assign NWC_URI_STATE (set_nwc_uri None);
  clear_pending_payment.

(** The servers stop and the browser is dropped while the state is locked.
    Source: src/flutter-bridge/src/ffi/p2p.rs:631-643 (p2p_stop_all) *)
Definition p2p_stop_all : run unit := assign P2P (set_p2p None).

(** Source: src/flutter-bridge/src/ffi/signer.rs:71-92 (signer_unlock) *)
Definition signer_unlock (secret : str) : run (may_fail str) :=
  match keys_parse secret with
  | None => mret (err "invalid secret key")
  | Some keys =>
      _ ← locked SIGNER (
        _ ← clear_derived_cache;
        _ ← clear_conversation_keys;
        _ ← clear_shared_secret_cache;
        put (set_signer (Some keys)));
      mret (Ok (public_hex keys))
  end.

(** The wallet and the servers go down under the lock of the signer.
    Source: src/flutter-bridge/src/ffi/signer.rs:102-111 (signer_lock) *)
Definition signer_lock : run (may_fail bool) :=
  locked SIGNER (
    _ ← clear_derived_cache;
    _ ← clear_conversation_keys;
    _ ← clear_shared_secret_cache;
    _ ← put (set_signer None);
    _ ← zap_disconnect_nwc;
    _ ← p2p_stop_all;
    mret (Ok true)).

(** Source: src/flutter-bridge/src/ffi/signer.rs:115-118 (signer_is_locked) *)
Definition signer_is_locked : run (may_fail bool) :=
  locked SIGNER (get (λ b, Ok (match sg_signer b with Some _ => false | None => true end))).

(** Source: src/flutter-bridge/src/ffi/signer.rs:122-128 (signer_pubkey) *)
Definition signer_pubkey : run (may_fail str) :=
  locked SIGNER (get (λ b, match sg_signer b with Some keys => Ok (public_hex keys) | None => err "signer locked" end)).

(** Source: src/flutter-bridge/src/ffi/signer.rs:151-155 (pubkey_matches) *)
Definition pubkey_matches (actual_hex expected_hex : str) : bool := ct_eq (clean actual_hex) (clean expected_hex).

(** Source: src/flutter-bridge/src/ffi/signer.rs:134-147 (require_identity) *)
Definition require_identity (expected : str) : run (may_fail unit) :=
  actual ← signer_pubkey;
  mret (actual ← actual; ensure (pubkey_matches actual expected) "identity mismatch: caller is not the claimed pubkey").

(** With the secret that the keychain or the sealed file gave.
    Source: src/flutter-bridge/src/ffi/signer.rs:324-351 (signer_unlock_from_keyring, unlock) *)
Definition signer_unlock_from_keyring (pubkey : str) (stored : may_fail str) : run (may_fail bool) :=
  match stored with
  | Err e => mret (Err e)
  | Ok secret =>
      match keys_parse secret with
      | None => mret (err "stored key invalid")
      | Some keys =>
          if pubkey_matches (public_hex keys) (clean pubkey) then
            _ ← locked SIGNER (
              _ ← clear_derived_cache;
              _ ← clear_shared_secret_cache;
              _ ← clear_conversation_keys;
              put (set_signer (Some keys)));
            mret (Ok true)
          else mret (err "stored key does not match pubkey")
      end
  end.

(** ** The derived keys *)

Definition secret_bytes (keys : bytes) : may_fail bytes := ok_or (Fail "secret decode") (hex_decode_str (hex_encode keys)).

(** Source: src/flutter-bridge/src/ffi/signer.rs:440-453 (lan_key, derivation) *)
Definition derive_lan (keys : bytes) : may_fail bytes :=
  secret ← secret_bytes keys;
  map_err (λ _, Fail "lan key derive") (pqc_hkdf_sha256 secret (lit "soshal-lan-salt-v1") (lit "soshal-lan-key-v1") 32).

(** Source: src/flutter-bridge/src/ffi/signer.rs:476-480 (signer_at_rest_key, derivation) *)
Definition derive_rest (keys : bytes) : may_fail bytes := secret ← secret_bytes keys; at_rest_key secret.

(** The fast path, then the derivation under the lock of the signer. *)
Definition cached_key (m : mutex) (cache : bridge → option bytes) (store : option bytes → bridge → bridge)
    (derive : bytes → may_fail bytes) : run (may_fail bytes) :=
  cached ← locked m (get cache);
  match cached with
  | Some k => mret (Ok k)
  | None =>
      locked SIGNER (
        signer ← get sg_signer;
        match signer with
        | None => mret (err "signer locked")
        | Some keys =>
            match derive keys with
            | Err e => mret (Err e)
            | Ok k => _ ← assign m (store (Some k)); mret (Ok k)
            end
        end)
  end.

(** Source: src/flutter-bridge/src/ffi/signer.rs:428-456 (lan_key) *)
Definition lan_key : run (may_fail bytes) := cached_key LAN_KEY_CACHE sg_lan set_lan derive_lan.

(** Source: src/flutter-bridge/src/ffi/signer.rs:465-486 (signer_at_rest_key) *)
Definition signer_at_rest_key : run (may_fail bytes) := cached_key AT_REST_KEY_CACHE sg_rest set_rest derive_rest.

(** ** Signing *)

Definition SIGN_MAX : Z := 500.

(** One token of the budget, taken at once.
    Source: src/flutter-bridge/src/ffi/signer.rs:37-37 (SIGN_RATE) *)
Definition sign_rate_check (now : Z) : run (may_fail unit) :=
  Atomic (λ b, match check_turn SIGN_MAX (now_window now) (sg_rate b) with Some w => set_rate w b | None => b end)
         (λ b, mret (ensure (bool_decide (is_Some (check_turn SIGN_MAX (now_window now) (sg_rate b)))) "rate limit exceeded")).

Definition with_keys (now : Z) (f : bytes → may_fail str) : run (may_fail str) :=
  rate ← sign_rate_check now;
  match rate with
  | Err e => mret (Err e)
  | Ok _ => locked SIGNER (get (λ b, match sg_signer b with Some keys => f keys | None => err "signer locked" end))
  end.

(** Source: src/flutter-bridge/src/ffi/signer.rs:538-546 (sign_builder) *)
Definition sign_builder (now kind : Z) (tags : list (list (list Z))) (content : str) : run (may_fail str) :=
  with_keys now (λ keys, sign_json keys kind tags content).

(** Source: src/flutter-bridge/src/ffi/signer.rs:552-572 (signer_sign_unsigned) *)
Definition signer_sign_unsigned (now : Z) (event_json : str) : run (may_fail str) :=
  with_keys now (λ keys,
    pk ← ok_or (Fail "invalid unsigned event") (unsigned_pubkey event_json);
    _ ← ensure (pubkey_matches (public_hex keys) pk) "event pubkey does not match active signer";
    sign_unsigned keys event_json).

Definition ALLOWED_PURPOSES : list (list Z) := [lit "blossom-auth"].

(** Source: src/identity-core/src/signers.rs:191-211 (sign_schnorr_digest) *)
Definition sign_schnorr_digest (keys digest : bytes) (purpose : str) : may_fail str :=
  _ ← ensure (length digest =? 32) "digest must be 32 bytes";
  _ ← ensure (bool_decide (purpose ∈ ALLOWED_PURPOSES)) "unknown schnorr purpose";
  Ok (sign_schnorr keys (sha256 (purpose ++ digest))).

(** Source: src/flutter-bridge/src/ffi/signer.rs:499-515 (signer_schnorr_sign) *)
Definition signer_schnorr_sign (now : Z) (message_hex : str) : run (may_fail str) :=
  with_keys now (λ keys,
    msg ← ok_or (Fail "invalid hex") (hex_decode_str message_hex);
    _ ← ensure (length msg =? 32) "message must be 32 bytes";
    sign_schnorr_digest keys msg (lit "blossom-auth")).

(** Source: src/flutter-bridge/src/ffi/signer.rs:521-524 (signer_sign_text) *)
Definition signer_sign_text (now : Z) (message : str) : run (may_fail str) :=
  signer_schnorr_sign now (hex_encode (sha256 message)).

(** NIP-44 of the nostr crate, under the lock of the signer.
    Source: src/flutter-bridge/src/ffi/signer.rs:577-603 (signer_nip44_encrypt) *)
Definition signer_nip44_encrypt (now : Z) (plaintext recipient_pubkey : str) : run (may_fail str) :=
  with_keys now (λ keys,
    _ ← ensure (valid_pubkey recipient_pubkey) "invalid recipient pubkey";
    map_err (λ _, Fail "nip44 encrypt") (nip44_encrypt keys recipient_pubkey plaintext)).

(** Source: src/flutter-bridge/src/ffi/signer.rs:610-626 (signer_nip44_decrypt) *)
Definition signer_nip44_decrypt (now : Z) (payload sender_pubkey : str) : run (may_fail str) :=
  with_keys now (λ keys,
    _ ← ensure (valid_pubkey sender_pubkey) "invalid sender pubkey";
    map_err (λ _, Fail "nip44 decrypt") (nip44_decrypt keys sender_pubkey payload)).

(** ** Shared secrets *)

(** Source: src/identity-core/src/signers.rs:138-151 (SharedSecretCache::put) *)
Definition ss_put (key : str * str) (value : bytes) (c : SharedSecretCache) : SharedSecretCache :=
  match ss_map c !! key with
  | Some _ => c
  | None =>
      let c := if (ss_cap c <=? Z.of_nat (size (ss_map c)))%Z then
                 match ss_order c with
                 | oldest :: rest => mk_shared rest (delete oldest (ss_map c)) (ss_cap c)
                 | [] => c
                 end
               else c in
      mk_shared (ss_order c ++ [key]) (<[key := value]> (ss_map c)) (ss_cap c)
  end.

(** A look-up, and after the derivation an entry, each under the lock.
    Source: src/identity-core/src/signers.rs:68-99 (shared_secret) *)
Definition shared_secret (keys : bytes) (pk : str) : run (may_fail bytes) :=
  let key := (public_hex keys, pk) in
  cached ← locked SHARED_SECRET_CACHE (get (λ b, sg_shared b ≫= λ c, ss_map c !! key));
  match cached with
  | Some k => mret (Ok k)
  | None =>
      match ecdh_x keys pk with
      | Err e => mret (Err e)
      | Ok k =>
          _ ← assign SHARED_SECRET_CACHE (λ b, set_shared (Some (ss_put key k (default (mk_shared [] ∅ 128) (sg_shared b)))) b);
          mret (Ok k)
      end
  end.

(** ** The wallet and the local network *)

(** Source: src/flutter-bridge/src/ffi/zap.rs:156-166 (zap_connect_nwc) *)
Definition zap_connect_nwc (parse_nwc_uri : str → option NwcConnectionInfo) (nwc_uri : str) : run (may_fail bool) :=
  if (4096 <? zlen nwc_uri)%Z then mret (err "NWC URI too long")
  else
    match parse_nwc_uri nwc_uri with
    | None => mret (err "invalid NWC URI")
    | Some info =>
        _ ← clear_pending_payment;
        _ ← assign NWC (set_nwc (Some info));
        _ ← assign NWC_URI_STATE (set_nwc_uri (Some nwc_uri));
        mret (Ok true)
    end.

(** Source: src/flutter-bridge/src/ffi/zap.rs:122-128 (nwc_uri) *)
Definition nwc_uri : run (may_fail str) :=
  locked NWC_URI_STATE (get (λ b, ok_or (Fail "NWC not connected") (sg_nwc_uri b))).

(** What is reported of the connection: the wallet and the relay, never the
    secret; the JSON is left out.
    Source: src/flutter-bridge/src/ffi/zap.rs:186-198 (zap_get_nwc_status) *)
Definition zap_get_nwc_status : run (may_fail (option (str * str))) :=
  locked NWC (get (λ b, Ok ((λ info, (nwc_wallet_pubkey info, nwc_relay_url info)) <$> sg_nwc b))).

(** Source: src/flutter-bridge/src/ffi/zap.rs:202-208 (zap_get_nwc_pubkey) *)
Definition zap_get_nwc_pubkey : run (may_fail str) :=
  locked NWC (get (λ b, match sg_nwc b with
    | Some info => if bool_decide (nwc_wallet_pubkey info = []) then err "NWC disconnected" else Ok (nwc_wallet_pubkey info)
    | None => err "NWC disconnected"
    end)).

Definition p2p_update (f : P2pState → P2pState) (b : bridge) : bridge := set_p2p (Some (f (default p2p_new (sg_p2p b)))) b.

(** With an empty key the signer is asked for its own, before the state is
    locked; a running advertiser only announces the new port. [started] and
    [updated] are what the service says.
    Source: src/flutter-bridge/src/ffi/p2p.rs:129-153 (p2p_mdns_advertise_start) *)
Definition p2p_mdns_advertise_start (started updated : may_fail unit) (pubkey : str) (port : Z) (quic_port : option Z)
    : run (may_fail bool) :=
  pubkey ← (if bool_decide (pubkey = []) then signer_pubkey else mret (Ok pubkey));
  match pubkey with
  | Err e => mret (Err e)
  | Ok pubkey =>
      if negb (zlen pubkey =? 64)%Z then mret (err "invalid pubkey")
      else
        locked P2P (Atomic
          (p2p_update (λ st,
             match advertiser st, started, updated with
             | Some re, _, Ok _ => mk_p2p (Some (mk_announced (ann_pubkey re) (ann_port re) quic_port)) (browser st) (lan_server st) (quic_server st)
             | None, Ok _, _ => mk_p2p (Some (mk_announced pubkey port quic_port)) (browser st) (lan_server st) (quic_server st)
             | _, _, _ => st
             end))
          (λ b, mret (match sg_p2p b ≫= advertiser with Some _ => _ ← updated; Ok true | None => _ ← started; Ok true end)))
  end.

(** Source: src/flutter-bridge/src/ffi/p2p.rs:157-162 (p2p_mdns_advertise_stop) *)
Definition p2p_mdns_advertise_stop : run (may_fail bool) :=
  locked P2P (_ ← put (λ b, set_p2p ((λ st, mk_p2p None (browser st) (lan_server st) (quic_server st)) <$> sg_p2p b) b); mret (Ok true)).

(** The service gives a browser, or fails.
    Source: src/flutter-bridge/src/ffi/p2p.rs:166-173 (p2p_mdns_browse_start) *)
Definition p2p_mdns_browse_start (started : may_fail MdnsBrowser) : run (may_fail bool) :=
  locked P2P (Atomic
    (p2p_update (λ st, match browser st, started with
                       | None, Ok br => mk_p2p (advertiser st) (Some br) (lan_server st) (quic_server st) | _, _ => st end))
    (λ b, mret (match sg_p2p b ≫= browser with Some _ => Ok true | None => _ ← started; Ok true end))).

(** Source: src/flutter-bridge/src/ffi/p2p.rs:229-234 (p2p_mdns_browse_stop) *)
Definition p2p_mdns_browse_stop : run (may_fail bool) :=
  locked P2P (_ ← put (λ b, set_p2p ((λ st, mk_p2p (advertiser st) None (lan_server st) (quic_server st)) <$> sg_p2p b) b); mret (Ok true)).

(** [split(',')], the empty pieces left out. *)
Fixpoint comma_pieces (cur : str) (s : str) : list (list Z) :=
  match s with
  | [] => if bool_decide (cur = []) then [] else [reverse cur]
  | b :: s => if (b =? 0x2C)%Z then (if bool_decide (cur = []) then [] else [reverse cur]) ++ comma_pieces [] s else comma_pieces (b :: cur) s
  end.

(** Source: src/flutter-bridge/src/ffi/p2p.rs:188-204 (p2p_mdns_browse_drain, known_contacts) *)
Definition known_contacts (mine : may_fail str) (users : gmap str UserRow) : list (list Z) :=
  match mine with
  | Ok me => match users !! clean me with Some u => comma_pieces [] (usr_contact_pubkeys u) | None => [] end
  | Err _ => []
  end.

(** The state of the network is locked throughout, also while the signer is
    asked for its key.
    Source: src/flutter-bridge/src/ffi/p2p.rs:182-225 (p2p_mdns_browse_drain) *)
Definition p2p_mdns_browse_drain : run (may_fail (list MdnsPeer)) :=
  locked P2P (
    st ← Atomic (p2p_update id) (λ b, mret (sg_p2p b ≫= browser));
    match st with
    | None => mret (Ok [])
    | Some br =>
        mine ← signer_pubkey;
        contacts ← get (λ b, known_contacts mine (sg_users b));
        let '(peers, br) := drain_peers br in
        _ ← put (p2p_update (λ st, mk_p2p (advertiser st) (Some br) (lan_server st) (quic_server st)));
        get (λ b, Ok (filter (λ p, is_Some (sg_users b !! mp_pubkey p) ∨ mp_pubkey p ∈ contacts) peers))
    end).

(** The key is read first, the state locked after it.
    Source: src/flutter-bridge/src/ffi/p2p.rs:240-258 (p2p_lan_server_start) *)
Definition p2p_lan_server_start (started : bytes → may_fail Z) : run (may_fail Z) :=
  key ← lan_key;
  match key with
  | Err e => mret (Err e)
  | Ok key =>
      locked P2P (Atomic
        (p2p_update (λ st, match lan_server st, started key with
                           | None, Ok port => mk_p2p (advertiser st) (browser st) (Some (key, port)) (quic_server st) | _, _ => st end))
        (λ b, mret (match sg_p2p b ≫= lan_server with Some (_, port) => Ok port | None => started key end)))
  end.

(** Source: src/flutter-bridge/src/ffi/p2p.rs:262-267 (p2p_lan_server_port) *)
Definition p2p_lan_server_port : run (may_fail Z) :=
  locked P2P (get (λ b, match sg_p2p b ≫= lan_server with Some (_, port) => Ok port | None => err "lan server not running" end)).

(** Source: src/flutter-bridge/src/ffi/p2p.rs:271-279 (p2p_lan_server_stop) *)
Definition p2p_lan_server_stop : run (may_fail bool) :=
  locked P2P (_ ← put (λ b, set_p2p ((λ st, mk_p2p (advertiser st) (browser st) None (quic_server st)) <$> sg_p2p b) b); mret (Ok true)).

(** Source: src/flutter-bridge/src/ffi/p2p.rs:286-304 (p2p_quic_server_start) *)
Definition p2p_quic_server_start (started : bytes → may_fail Z) : run (may_fail Z) :=
  key ← lan_key;
  match key with
  | Err e => mret (Err e)
  | Ok key =>
      locked P2P (Atomic
        (p2p_update (λ st, match quic_server st, started key with
                           | None, Ok port => mk_p2p (advertiser st) (browser st) (lan_server st) (Some (key, port)) | _, _ => st end))
        (λ b, mret (match sg_p2p b ≫= quic_server with Some (_, port) => Ok port | None => started key end)))
  end.

(** Source: src/flutter-bridge/src/ffi/p2p.rs:308-313 (p2p_quic_server_port) *)
Definition p2p_quic_server_port : run (may_fail Z) :=
  locked P2P (get (λ b, match sg_p2p b ≫= quic_server with Some (_, port) => Ok port | None => err "quic server not running" end)).

(** Source: src/flutter-bridge/src/ffi/p2p.rs:317-324 (p2p_quic_server_stop) *)
Definition p2p_quic_server_stop : run (may_fail bool) :=
  locked P2P (_ ← put (λ b, set_p2p ((λ st, mk_p2p (advertiser st) (browser st) (lan_server st) None) <$> sg_p2p b) b); mret (Ok true)).

(** ** The seal of the outbox *)

Section outbox_seal.
Context `{AesGcm}.

(** With the key as the signer gives it: without one the text stays as it is.
    Source: src/flutter-bridge/src/ffi/sync.rs:292-304 (outbox_seal_fn) *)
Definition outbox_seal_fn (key : may_fail bytes) (draw : option bytes) (compressed : str) : may_fail str :=
  match key with
  | Err _ => Ok compressed
  | Ok key =>
      sealed ← map_err (λ _, Fail "seal outbox") (seal_at_rest_bin draw key compressed);
      Ok (SEAL_PREFIX ++ base64_encode sealed)
  end.

(** Source: src/flutter-bridge/src/ffi/sync.rs:309-320 (outbox_unseal_fn) *)
Definition outbox_unseal_fn (key : may_fail bytes) (inner : str) : may_fail str :=
  blob ← ok_or (Fail "outbox seal b64") (base64_decode inner);
  key ← map_err (λ _, Fail "at-rest key") key;
  plain ← map_err (λ _, Fail "open outbox") (open_at_rest_bin key blob);
  ok_or (Fail "outbox utf8") (from_utf8 plain).
End outbox_seal.

(** ** What the threads call *)

Inductive call :=
| Unlock (secret : str) | Lock | IsLocked | Pubkey | RequireIdentity (expected : str)
| UnlockStored (pubkey : str) (stored : may_fail str)
| LanKey | AtRestKey
| SignBuilder (now kind : Z) (tags : list (list (list Z))) (content : str)
| SignUnsigned (now : Z) (event_json : str) | SchnorrSign (now : Z) (message_hex : str) | SignText (now : Z) (message : str)
| Nip44Encrypt (now : Z) (plaintext recipient : str) | Nip44Decrypt (now : Z) (payload sender : str)
| SharedSecret (keys : bytes) (pk : str)
| ConnectNwc (parse : str → option NwcConnectionInfo) (uri : str) | DisconnectNwc | NwcUri | NwcStatus | NwcPubkey
| AdvertiseStart (started updated : may_fail unit) (pubkey : str) (port : Z) (quic_port : option Z) | AdvertiseStop
| BrowseStart (started : may_fail MdnsBrowser) | BrowseDrain | BrowseStop
| LanStart (started : bytes → may_fail Z) | LanPort | LanStop
| QuicStart (started : bytes → may_fail Z) | QuicPort | QuicStop | StopAll.

Inductive answer := Done | Text (s : str) | Key (k : bytes) | Number (z : Z) | Failed (f : failure).

Definition answered {A} (f : A → answer) (p : run (may_fail A)) : run answer :=
  r ← p; mret (match r with Ok a => f a | Err e => Failed e end).

Definition perform (c : call) : run answer :=
  match c with
  | Unlock secret => answered Text (signer_unlock secret)
  | Lock => answered (λ _, Done) signer_lock
  | IsLocked => answered (λ _, Done) signer_is_locked
  | Pubkey => answered Text signer_pubkey
  | RequireIdentity expected => answered (λ _, Done) (require_identity expected)
  | UnlockStored pubkey stored => answered (λ _, Done) (signer_unlock_from_keyring pubkey stored)
  | LanKey => answered Key lan_key
  | AtRestKey => answered Key signer_at_rest_key
  | SignBuilder now kind tags content => answered Text (sign_builder now kind tags content)
  | SignUnsigned now event_json => answered Text (signer_sign_unsigned now event_json)
  | SchnorrSign now message_hex => answered Text (signer_schnorr_sign now message_hex)
  | SignText now message => answered Text (signer_sign_text now message)
  | Nip44Encrypt now plaintext recipient => answered Text (signer_nip44_encrypt now plaintext recipient)
  | Nip44Decrypt now payload sender => answered Text (signer_nip44_decrypt now payload sender)
  | SharedSecret keys pk => answered Key (shared_secret keys pk)
  | ConnectNwc parse uri => answered (λ _, Done) (zap_connect_nwc parse uri)
  | DisconnectNwc => _ ← zap_disconnect_nwc; mret Done
  | NwcUri => answered Text nwc_uri
  | NwcStatus => answered (λ _, Done) zap_get_nwc_status
  | NwcPubkey => answered Text zap_get_nwc_pubkey
  | AdvertiseStart started updated pubkey port quic_port =>
      answered (λ _, Done) (p2p_mdns_advertise_start started updated pubkey port quic_port)
  | AdvertiseStop => answered (λ _, Done) p2p_mdns_advertise_stop
  | BrowseStart started => answered (λ _, Done) (p2p_mdns_browse_start started)
  | BrowseDrain => answered (λ _, Done) p2p_mdns_browse_drain
  | BrowseStop => answered (λ _, Done) p2p_mdns_browse_stop
  | LanStart started => answered Number (p2p_lan_server_start started)
  | LanPort => answered Number p2p_lan_server_port
  | LanStop => answered (λ _, Done) p2p_lan_server_stop
  | QuicStart started => answered Number (p2p_quic_server_start started)
  | QuicPort => answered Number p2p_quic_server_port
  | QuicStop => answered (λ _, Done) p2p_quic_server_stop
  | StopAll => _ ← p2p_stop_all; mret Done
  end.

(** A thread makes its calls one after the other. *)
Definition thread (calls : list call) : run (list answer) := sequence (perform <$> calls).
End signer.
