(* ===== verification/SignerLaws.v ===== *)
(** The signer under any interleaving: its calls cannot block each other unless
    one drains the local network while another locks the signer, in which case
    both can wait forever; the derived keys always belong to the unlocked
    secret; but an identity that was checked is not the one that signs, and a
    server can outlive the lock. *)

From S2P Require Import Prelude RustStr Text Primitives Hybrid BridgeUtil Store Mdns Nip44 Json Seal AtRest Outbox Threads Signer.

(** The lock order of the comments: the signer first, then one other. The
    drain of the browser takes the network before the signer instead. *)
Definition lock_rank (network_first : bool) (m : mutex) : nat :=
  match m with P2P => if network_first then 0 else 2 | SIGNER => 1 | _ => 2 end.

(** The two calls that disagree. *)
Definition drains (c : call) : bool := match c with BrowseDrain => true | _ => false end.
Definition locks (c : call) : bool := match c with Lock => true | _ => false end.

(** ** No deadlock *)

Section order.
Context `{Primitives, NostrKeys}.

Abbreviation neat b L p := (ordered (lock_rank b) L p L) (only parsing).

Lemma neat_get {A} b L (f : bridge → A) : neat b L (get f).
Proof. by intros s. Qed.
Lemma neat_put b L f : neat b L (put f : run unit).
Proof. by intros s. Qed.
Lemma neat_atomic {A} b L f (k : bridge → run A) : (∀ s, neat b L (k s)) → neat b L (Atomic f k).
Proof. done. Qed.
Lemma neat_seq {A B} b L (p : run A) (f : A → run B) : neat b L p → (∀ a, neat b L (f a)) → neat b L (p ≫= f).
Proof. apply ordered_bind. Qed.
Lemma neat_lock {A} b L m (p : run A) :
  (∀ m', m' ∈ L → lock_rank b m' < lock_rank b m) → neat b ({[m]} ∪ L) p → neat b L (locked m p).
Proof. apply ordered_locked. Qed.

(** A mutex under at most the signer, in the order. *)
Ltac ranked :=
  let m := fresh in intros m; rewrite ?elem_of_union, ?elem_of_singleton, ?elem_of_empty; intros ?; destruct_or?; try (is_var m; subst m);
  first [done | cbn; lia | match goal with |- context [lock_rank ?b] => is_var b; destruct b end; cbn in *; first [done | lia]].

Ltac neat_go :=
  repeat match goal with
    | |- ordered _ _ (locked _ _) _ => apply neat_lock; [ranked|]
    | |- ordered _ _ (Atomic _ _) _ => apply neat_atomic; intros ?
    | |- ordered _ _ (get _) _ => apply neat_get
    | |- ordered _ _ (put _) _ => apply neat_put
    | |- ordered _ _ (_ ≫= _) _ => apply neat_seq; [|intros ?]
    | |- ordered _ _ (mret _) _ => done
    | |- ordered _ _ (match ?x with _ => _ end) _ => destruct x
    | _ => progress unfold clear_derived_cache, clear_shared_secret_cache, clear_conversation_keys, clear_pending_payment,
        zap_disconnect_nwc, signer_pubkey, assign, with_keys, sign_rate_check
    end.

Lemma neat_cached b m cache store derive : lock_rank b m = 2 → neat b ∅ (cached_key m cache store derive).
Proof.
  intros Hm. unfold cached_key, assign. apply neat_seq; [apply neat_lock; [set_solver|apply neat_get]|]. intros [k|]; [done|].
  apply neat_lock; [set_solver|]. apply neat_seq; [apply neat_get|]. intros [sec|]; [|done]. destruct (derive sec); [|done].
  apply neat_seq; [|done]. apply neat_lock; [|apply neat_put]. intros m'. rewrite union_empty_r_L, elem_of_singleton. intros ->. rewrite Hm. simpl. lia.
Qed.
Lemma neat_answered {A} b f (p : run (may_fail A)) : neat b ∅ p → neat b ∅ (answered f p).
Proof. intros Hp. apply neat_seq; [done|]. by intros []. Qed.

(** Every call but one of the two follows the order. *)
Lemma neat_perform (b : bool) c : (if b then locks c else drains c) = false → neat b ∅ (perform c).
Proof.
  intros Hc. destruct c; cbn [perform locks drains] in *; try apply neat_answered;
    unfold signer_unlock, signer_is_locked, require_identity, signer_unlock_from_keyring, sign_builder,
      signer_sign_unsigned, signer_sign_text, signer_schnorr_sign, signer_nip44_encrypt, signer_nip44_decrypt, shared_secret,
      zap_connect_nwc, nwc_uri, zap_get_nwc_status, zap_get_nwc_pubkey, p2p_mdns_advertise_start, p2p_mdns_advertise_stop,
      p2p_mdns_browse_start, p2p_mdns_browse_stop, p2p_lan_server_port, p2p_lan_server_stop, p2p_quic_server_port,
      p2p_quic_server_stop, p2p_stop_all; try solve [neat_go].
  - destruct b; [done|]. unfold signer_lock, p2p_stop_all. neat_go.
  - by apply neat_cached.
  - by apply neat_cached.
  - destruct b; [|done]. unfold p2p_mdns_browse_drain. neat_go.
  - unfold p2p_lan_server_start. apply neat_seq; [by apply neat_cached|]. intros r. neat_go.
  - unfold p2p_quic_server_start. apply neat_seq; [by apply neat_cached|]. intros r. neat_go.
Qed.

Lemma neat_thread (b : bool) cs : Forall (λ c, (if b then locks c else drains c) = false) cs → neat b ∅ (thread cs).
Proof.
  induction 1 as [|c cs Hc _ IH]; [done|]. unfold thread. cbn [fmap list_fmap sequence]. apply neat_seq; [by apply neat_perform|]. intros a.
  apply neat_seq; [exact IH|]. by intros l.
Qed.

Lemma neat_run (nf : bool) (b : bridge) (threads : list (list call)) c :
  Forall (Forall (λ c, (if nf then locks c else drains c) = false)) threads →
  rtc thread_step (start b (thread <$> threads)) c → all_done c ∨ ∃ c', thread_step c c'.
Proof.
  intros Ht Hc. apply (no_deadlock (lock_rank nf)).
  assert (Ho : ordered_config (lock_rank nf) (start b (thread <$> threads))).
  { apply ordered_start, Forall_fmap. eapply Forall_impl; [exact Ht|]. intros cs. apply neat_thread. }
  induction Hc as [|c1 c2 c3 Hs _ IH]; [done|]. apply IH. by eapply ordered_step.
Qed.
End order.

Section complete.
Context `{Primitives, NostrKeys}.

(** C24: unless one thread drains the mDNS browser and one locks the signer, the
    calls of the threads, in whatever interleaving, cannot block each other:
    at every moment all calls have returned or some thread can go on, and the
    runs are finite. With these two calls the condition is needed: see
    [drain_lock_deadlock]. *)
Theorem signer_calls_complete (b : bridge) (threads : list (list call)) c
    (Ht : Forall (Forall (λ c, drains c = false)) threads ∨ Forall (Forall (λ c, locks c = false)) threads) :
  rtc thread_step (start b (thread <$> threads)) c →
  (all_done c ∨ ∃ c', thread_step c c') ∧ Acc (λ c' c, thread_step c c') c.
Proof.
  intros Hc. split; [|apply runs_end]. destruct Ht as [Ht|Ht]; [by apply (neat_run false b threads)|by apply (neat_run true b threads)].
Qed.
End complete.

(** ** Derived keys belong to the unlocked secret *)

Section keys.
Context {Prim : Primitives} {Keys : NostrKeys} {Laws : NostrKeysLaws}.
(** The secrets that were ever given to the signer. *)
Context (known : bytes → Prop).

Definition derived (cache : option bytes) (derive : bytes → may_fail bytes) (b : bridge) : Prop :=
  ∀ k, cache = Some k → ∃ sec, sg_signer b = Some sec ∧ derive sec = Ok k.

Record keys_inv (b : bridge) : Prop := {
  ki_lan : derived (sg_lan b) derive_lan b;
  ki_rest : derived (sg_rest b) derive_rest b;
  ki_known : ∀ sec, sg_signer b = Some sec → known sec;
  ki_shared : ∀ c me pk v, sg_shared b = Some c → ss_map c !! (me, pk) = Some v → ∀ sk, public_hex sk = me → ecdh_x sk pk = Ok v
}.

(** While the signer is locked nobody else changes it or fills a cache of
    derived keys that is empty. *)
Definition stable (m : mutex) (s s' : bridge) : Prop :=
  match m with
  | SIGNER => sg_signer s' = sg_signer s ∧ (sg_lan s = None → sg_lan s' = None) ∧ (sg_rest s = None → sg_rest s' = None)
  | LAN_KEY_CACHE => sg_lan s' = sg_lan s
  | AT_REST_KEY_CACHE => sg_rest s' = sg_rest s
  | SHARED_SECRET_CACHE => sg_shared s' = sg_shared s
  | _ => True
  end.

#[local] Instance stable_preorder m : PreOrder (stable m).
Proof. split; [intros s|intros s1 s2 s3]; destruct m; cbn; naive_solver congruence. Qed.

Abbreviation wp := (wp keys_inv stable) (only parsing).
Abbreviation agree := (agree stable) (only parsing).

(** A change of what no invariant speaks of. *)
Definition neutral (f : bridge → bridge) : Prop :=
  ∀ s, sg_signer (f s) = sg_signer s ∧ sg_lan (f s) = sg_lan s ∧ sg_rest (f s) = sg_rest s ∧ sg_shared (f s) = sg_shared s.

Lemma neutral_inv f s : neutral f → keys_inv s → keys_inv (f s).
Proof.
  intros Hf [Hl Hr Hk Hs]. destruct (Hf s) as (E1 & E2 & E3 & E4). split; unfold derived in *; rewrite ?E1, ?E2, ?E3, ?E4; done.
Qed.
Lemma neutral_stable f m s : neutral f → stable m s (f s).
Proof. intros Hf. destruct (Hf s) as (E1 & E2 & E3 & E4). destruct m; cbn; rewrite ?E1, ?E2, ?E3, ?E4; done. Qed.

Lemma wp_neutral {A} L s f (k : bridge → run A) Q : neutral f → (∀ s', agree L s s' → keys_inv s' → wp L (f s') (k s') Q) → wp L s (Atomic f k) Q.
Proof.
  intros Hf Hk s' Ha Hi. split_and!; [by apply neutral_inv| |by apply Hk]. intros m _. by apply neutral_stable.
Qed.

Lemma agree_neutral L f s : neutral f → agree L s (f s).
Proof. intros Hf m _. by apply neutral_stable. Qed.

Lemma wp_assign L s m f Q : m ∉ L →
  (∀ s', agree L s s' → keys_inv s' → keys_inv (f s') ∧ (∀ m', m' ∉ {[m]} ∪ L → stable m' s' (f s')) ∧
     ∀ s2, agree L (f s') s2 → keys_inv s2 → Q () L s2) →
  wp L s (assign m f) Q.
Proof.
  intros Hm Hf. apply wp_locked; [exact _|done|]. intros s1 H1 Hi1. apply wp_put. intros s2 H2 Hi2.
  destruct (Hf s2) as (Hi & Hfr & HQ); [|done|done]. etrans; [exact H1|]. intros m' Hm'. apply H2. set_solver.
Qed.

Lemma wp_assign_neutral L s m f Q : m ∉ L → neutral f → (∀ s', agree L s s' → keys_inv s' → Q () L s') → wp L s (assign m f) Q.
Proof.
  intros Hm Hf HQ. apply wp_assign; [done|]. intros s1 H1 Hi1. split_and!; [by apply neutral_inv|intros m' _; by apply neutral_stable|].
  intros s2 H2 Hi2. apply HQ; [|done]. etrans; [exact H1|]. etrans; [by apply agree_neutral|done].
Qed.

(** What the signer's programs give: the locks as they were, and [P] of the
    answer. *)
Definition gives {A} (P : A → Prop) (p : run A) : Prop := ∀ s, wp ∅ s p (λ a L _, L = ∅ ∧ P a).

Lemma gives_ret {A} (P : A → Prop) a : P a → gives P (mret a).
Proof. by intros HP s. Qed.
Lemma gives_bind {A B} (P : A → Prop) (Q : B → Prop) p (f : A → run B) : gives P p → (∀ a, P a → gives Q (f a)) → gives Q (p ≫= f).
Proof.
  intros Hp Hf s. apply wp_bind. eapply wp_mono; [|apply Hp]. intros a L s' [-> HP]. by apply Hf.
Qed.
Lemma gives_mono {A} (P P' : A → Prop) p : (∀ a, P a → P' a) → gives P p → gives P' p.
Proof. intros HP Hp s. eapply wp_mono; [|apply Hp]. intros a L s' [-> ?]. split; [done|by apply HP]. Qed.
Lemma gives_locked {A} (P : A → Prop) m p :
  (∀ s, keys_inv s → wp {[m]} s p (λ a L _, L = {[m]} ∧ P a)) → gives P (locked m p).
Proof.
  intros Hp s. apply wp_locked; [exact _|set_solver|]. intros s' _ Hi. rewrite union_empty_r_L. eapply wp_mono; [|by apply Hp].
  intros a L s2 [-> HP]. split; [by rewrite union_empty_r_L|]. by intros.
Qed.
Lemma gives_get {A} (P : A → Prop) m f : (∀ s, keys_inv s → P (f s)) → gives P (locked m (get f)).
Proof. intros HP. apply gives_locked. intros s Hi. apply wp_get; [exact _|]. intros s' _ Hi'. split; [done|by apply HP]. Qed.
Lemma gives_assign m f : neutral f → gives (λ _, True) (assign m f).
Proof. intros Hf s. apply wp_assign_neutral; [set_solver|done|]. by intros. Qed.
Lemma gives_atomic {A} (P : A → Prop) m f (k : bridge → run A) : neutral f → (∀ s, keys_inv s → ∃ a, k s = mret a ∧ P a) → gives P (locked m (Atomic f k)).
Proof.
  intros Hf Hk. apply gives_locked. intros s Hi. apply wp_neutral; [done|]. intros s' _ Hi'. destruct (Hk s' Hi') as (a & -> & HP). by split.
Qed.

(** *** Locking and unlocking *)

(** A change under the lock of the signer that leaves the other locks' parts. *)
Definition harmless (m : mutex) (f : bridge → bridge) : Prop :=
  ∀ s, keys_inv s → keys_inv (f s) ∧ ∀ m', m' ≠ m → stable m' s (f s).

Lemma wp_assign_under s m f Q : m ≠ SIGNER → harmless m f →
  (∀ s1 s', agree {[SIGNER]} s s1 → agree {[SIGNER]} (f s1) s' → agree {[SIGNER]} s s' → keys_inv s' → Q () {[SIGNER]} s') →
  wp {[SIGNER]} s (assign m f) Q.
Proof.
  intros Hm Hf HQ. apply wp_assign; [set_solver|]. intros s1 H1 Hi1. destruct (Hf s1 Hi1) as [Hi Hfr].
  split_and!; [done|intros m' Hm'; apply Hfr; set_solver|]. intros s2 H2 Hi2. apply (HQ s1); [done|done| |done].
  etrans; [exact H1|]. etrans; [|exact H2]. intros m' ->%elem_of_singleton. by apply Hfr.
Qed.

Lemma harmless_lan : harmless LAN_KEY_CACHE (set_lan None).
Proof. intros s [Hl Hr Hk Hs]. split; [by split|]. by intros []. Qed.
Lemma harmless_rest : harmless AT_REST_KEY_CACHE (set_rest None).
Proof. intros s [Hl Hr Hk Hs]. split; [by split|]. by intros []. Qed.
Lemma harmless_shared : harmless SHARED_SECRET_CACHE (set_shared None).
Proof. intros s [Hl Hr Hk Hs]. split; [by split|]. by intros []. Qed.
Lemma harmless_neutral m f : neutral f → harmless m f.
Proof. intros Hf s Hi. split; [by apply neutral_inv|]. intros m' _. by apply neutral_stable. Qed.

Lemma signer_stable s s' : agree {[SIGNER]} s s' →
  sg_signer s' = sg_signer s ∧ (sg_lan s = None → sg_lan s' = None) ∧ (sg_rest s = None → sg_rest s' = None).
Proof. intros Ha. apply (Ha SIGNER). set_solver. Qed.

(** Both caches of derived keys are empty. *)
Definition cleared (s : bridge) : Prop := sg_lan s = None ∧ sg_rest s = None.
Lemma cleared_stable s s' : agree {[SIGNER]} s s' → cleared s → cleared s'.
Proof. intros (_ & Hl & Hr)%signer_stable [? ?]. split; auto. Qed.

Lemma wp_clear_derived s Q : (∀ s', cleared s' → Q () {[SIGNER]} s') → wp {[SIGNER]} s clear_derived_cache Q.
Proof.
  intros HQ. apply wp_bind. apply wp_assign_under; [done|apply harmless_lan|]. intros s1 s2 _ (_ & Hl & _)%signer_stable _ _.
  apply wp_assign_under; [done|apply harmless_rest|]. intros s3 s4 H3 H4 _ _. apply HQ. apply signer_stable in H3 as (_ & Hl3 & _), H4 as (_ & Hl4 & Hr4).
  split; [|by apply Hr4]. by apply Hl4, Hl3, Hl.
Qed.

Lemma wp_cleared s m f Q : m ≠ SIGNER → harmless m f → cleared s → (∀ s', cleared s' → Q () {[SIGNER]} s') → wp {[SIGNER]} s (assign m f) Q.
Proof. intros Hm Hf Hc HQ. apply wp_assign_under; [done..|]. intros s1 s' _ _ Ha _. apply HQ. by eapply cleared_stable. Qed.

(** With nothing derived, the secret may change. *)
Lemma wp_set_signer s k Q : cleared s → (∀ sec, k = Some sec → known sec) → (∀ s', Q () {[SIGNER]} s') → wp {[SIGNER]} s (put (set_signer k)) Q.
Proof.
  intros Hc Hk HQ. apply wp_put. intros s1 H1 [_ _ _ Hs]. destruct (cleared_stable _ _ H1 Hc) as [El Er]. split_and!; [| |done].
  - split; unfold derived; cbn [set_signer sg_lan sg_rest sg_signer sg_shared]; rewrite ?El, ?Er; done.
  - intros []; cbn; set_solver.
Qed.

Ltac clears :=
  repeat first [ apply wp_bind | apply wp_clear_derived; intros ? ? | apply wp_cleared; [done|apply harmless_shared|done|intros ? ?]
               | apply wp_cleared; [done|by apply harmless_neutral|done|intros ? ?] ].

Lemma unlock_gives secret : (∀ keys, keys_parse secret = Some keys → known keys) → gives (λ _, True) (signer_unlock secret).
Proof.
  intros Hk. unfold signer_unlock. destruct (keys_parse secret) as [keys|]; [|by apply gives_ret].
  apply (gives_bind (λ _, True)); [|intros; by apply gives_ret]. apply gives_locked. intros s _. clears.
  apply wp_set_signer; [done| |done]. intros sec [= <-]. by apply Hk.
Qed.

Lemma unlock_stored_gives pubkey stored : (∀ secret keys, stored = Ok secret → keys_parse secret = Some keys → known keys) →
  gives (λ _, True) (signer_unlock_from_keyring pubkey stored).
Proof.
  intros Hk. unfold signer_unlock_from_keyring. destruct stored as [secret|e]; [|by apply gives_ret].
  destruct (keys_parse secret) as [keys|] eqn:E; [|by apply gives_ret]. destruct (pubkey_matches _ _); [|by apply gives_ret].
  apply (gives_bind (λ _, True)); [|intros; by apply gives_ret]. apply gives_locked. intros s _. clears.
  apply wp_set_signer; [done| |done]. intros sec [= <-]. by eapply Hk.
Qed.

Lemma wp_neutral_under s m f Q : m ≠ SIGNER → neutral f → (∀ s', Q () {[SIGNER]} s') → wp {[SIGNER]} s (assign m f) Q.
Proof. intros Hm Hf HQ. apply wp_assign_neutral; [set_solver|done|]. by intros. Qed.

Lemma lock_gives : gives (λ _, True) signer_lock.
Proof.
  unfold signer_lock. apply gives_locked. intros s _. clears. apply wp_set_signer; [done..|]. intros s1.
  unfold zap_disconnect_nwc, clear_pending_payment, p2p_stop_all.
  repeat first [apply wp_bind | apply wp_neutral_under; [done|done|intros ?]]. done.
Qed.

(** *** The derived keys *)

Definition from_known (derive : bytes → may_fail bytes) (r : may_fail bytes) : Prop := ∀ k, r = Ok k → ∃ sec, known sec ∧ derive sec = Ok k.

Lemma cached_gives m cache store derive : m ≠ SIGNER →
  (∀ s k, keys_inv s → cache s = Some k → ∃ sec, sg_signer s = Some sec ∧ derive sec = Ok k) →
  (∀ s sec k, keys_inv s → sg_signer s = Some sec → derive sec = Ok k →
     keys_inv (store (Some k) s) ∧ ∀ m', m' ∉ ({[m]} ∪ {[SIGNER]} : gset mutex) → stable m' s (store (Some k) s)) →
  gives (from_known derive) (cached_key m cache store derive).
Proof.
  intros Hm Hcache Hstore. unfold cached_key.
  apply (gives_bind (λ o, ∀ k, o = Some k → ∃ sec, known sec ∧ derive sec = Ok k)).
  - apply gives_get. intros s Hi k Hk. destruct (Hcache s k Hi Hk) as (sec & Hsec & Hd). exists sec. split; [by apply (ki_known _ Hi)|done].
  - intros [k|] Hk; [apply gives_ret; by intros ? [= <-]; apply Hk|]. apply gives_locked. intros s _. apply wp_bind. apply wp_get; [exact _|].
    intros s1 _ Hi1. destruct (sg_signer s1) as [sec|] eqn:Es; [|by split]. destruct (derive sec) as [k|e] eqn:Ed; [|by split].
    apply wp_bind. apply wp_assign; [set_solver|]. intros s2 H2 Hi2. pose proof (proj1 (signer_stable _ _ H2)) as Es2. rewrite Es in Es2.
    destruct (Hstore s2 sec k Hi2 Es2 Ed) as [Hi3 Hfr]. split_and!; [done|exact Hfr|]. intros s3 _ _. split; [done|]. intros k' [= <-].
    exists sec. split; [by apply (ki_known _ Hi1)|done].
Qed.

Lemma lan_key_gives : gives (from_known derive_lan) lan_key.
Proof.
  unfold lan_key. apply cached_gives; [done|intros s k Hi; apply (ki_lan _ Hi)|]. intros s sec k [Hl Hr Hk Hs] Es Ed. split.
  - split; try done. intros k' [= <-]. by exists sec.
  - intros []; cbn; set_solver.
Qed.
Lemma at_rest_key_gives : gives (from_known derive_rest) signer_at_rest_key.
Proof.
  unfold signer_at_rest_key. apply cached_gives; [done|intros s k Hi; apply (ki_rest _ Hi)|]. intros s sec k [Hl Hr Hk Hs] Es Ed. split.
  - split; try done. intros k' [= <-]. by exists sec.
  - intros []; cbn; set_solver.
Qed.

Lemma ss_put_lookup key v c k w : ss_map (ss_put key v c) !! k = Some w → ss_map c !! k = Some w ∨ (k = key ∧ w = v).
Proof.
  unfold ss_put. destruct (ss_map c !! key) as [|]; [by left|]. cbn [ss_map]. rewrite lookup_insert_Some. intros [[<- <-]|[_ Hk]]; [by right|left].
  destruct (_ <=? _)%Z; [|done]. destruct (ss_order c) as [|o r]; [done|]. cbn [ss_map] in Hk. by apply lookup_delete_Some in Hk as [_ ?].
Qed.

Lemma shared_secret_gives keys pk : gives (λ r, r = ecdh_x keys pk) (shared_secret keys pk).
Proof.
  unfold shared_secret. apply (gives_bind (λ o, ∀ k, o = Some k → ecdh_x keys pk = Ok k)).
  - apply gives_get. intros s Hi k. destruct (sg_shared s) as [c|] eqn:Ec; [|done]. cbn [mbind option_bind]. intros Hk. by eapply (ki_shared _ Hi).
  - intros [k|] Hk; [apply gives_ret; by rewrite (Hk k)|]. destruct (ecdh_x keys pk) as [k|e] eqn:Ee; [|by apply gives_ret].
    apply (gives_bind (λ _, True)); [|intros; by apply gives_ret]. intros s. apply wp_assign; [set_solver|].
    intros s1 _ [Hl Hr Hn Hs]. split_and!; [|intros []; cbn; set_solver|by intros].
    split; try done. cbn [set_shared sg_shared]. intros c me pk' v [= <-] [Hv|[[= -> ->] ->]]%ss_put_lookup sk Hsk.
    + destruct (sg_shared s1) as [c|] eqn:Ec; cbn [default] in Hv; [by eapply Hs|]. cbn in Hv. by rewrite lookup_empty in Hv.
    + by rewrite (ecdh_public sk keys).
Qed.

(** *** All calls *)

Definition answer_known (a : answer) : Prop :=
  match a with
  | Key k => ∃ sec, known sec ∧ (derive_lan sec = Ok k ∨ derive_rest sec = Ok k ∨ ∃ pk, ecdh_x sec pk = Ok k)
  | _ => True
  end.

Definition call_known (c : call) : Prop :=
  match c with
  | Unlock secret => ∀ keys, keys_parse secret = Some keys → known keys
  | UnlockStored _ stored => ∀ secret keys, stored = Ok secret → keys_parse secret = Some keys → known keys
  | SharedSecret keys _ => known keys
  | _ => True
  end.

Lemma answered_gives {A} (P : may_fail A → Prop) f p : gives P p → (∀ a, P (Ok a) → answer_known (f a)) → gives answer_known (answered f p).
Proof. intros Hp Hf. apply (gives_bind P); [done|]. intros [a|e] HP; apply gives_ret; [by apply Hf|done]. Qed.

Lemma with_keys_gives now f : gives (λ _, True) (with_keys now f).
Proof.
  unfold with_keys. apply (gives_bind (λ _, True)).
  - intros s. apply wp_neutral; [|done]. intros s1. by destruct (check_turn _ _ _).
  - intros [|] _; [|by apply gives_ret]. by apply gives_get.
Qed.

Ltac gives_neutral := repeat first [ by apply gives_assign | by apply gives_ret | apply (gives_bind (λ _, True)); [|intros ? _] ].

Lemma drain_gives : gives (λ _, True) p2p_mdns_browse_drain.
Proof.
  unfold p2p_mdns_browse_drain. apply gives_locked. intros s _. apply wp_bind. apply wp_neutral; [done|]. intros s1 _ _.
  destruct (sg_p2p s1 ≫= browser) as [br|]; [|done]. unfold signer_pubkey. apply wp_bind, wp_locked; [exact _|set_solver|].
  intros s2 _ _. apply wp_get; [exact _|]. intros s3 _ _. split; [set_solver|]. intros s4 _ _.
  replace (({[SIGNER]} ∪ {[P2P]} : gset mutex) ∖ {[SIGNER]}) with ({[P2P]} : gset mutex) by set_solver.
  apply wp_bind, wp_get; [exact _|]. intros s5 _ _. destruct (drain_peers br) as [peers br']. apply wp_bind. apply wp_neutral; [done|].
  intros s6 _ _. apply wp_get; [exact _|]. by intros s7 _ _.
Qed.

Lemma perform_gives c : call_known c → gives answer_known (perform c).
Proof.
  destruct c; cbn [perform call_known]; intros Hk; try (apply (answered_gives (λ _, True)); [|done]).
  - by apply unlock_gives.
  - apply lock_gives.
  - by apply gives_get.
  - by apply gives_get.
  - unfold require_identity. apply (gives_bind (λ _, True)); [by apply gives_get|]. intros; by apply gives_ret.
  - by apply unlock_stored_gives.
  - eapply answered_gives; [apply lan_key_gives|]. intros k Hr. destruct (Hr k eq_refl) as (sec & ? & ?). exists sec. split; [done|by left].
  - eapply answered_gives; [apply at_rest_key_gives|]. intros k Hr. destruct (Hr k eq_refl) as (sec & ? & ?). exists sec. split; [done|by right; left].
  - apply with_keys_gives.
  - apply with_keys_gives.
  - apply with_keys_gives.
  - apply with_keys_gives.
  - apply with_keys_gives.
  - apply with_keys_gives.
  - eapply answered_gives; [apply shared_secret_gives|]. intros k Hr. exists keys. split; [done|]. right. right. by exists pk.
  - unfold zap_connect_nwc, clear_pending_payment. destruct (_ <? _)%Z; [by apply gives_ret|]. destruct (parse _); [|by apply gives_ret]. gives_neutral.
  - unfold zap_disconnect_nwc, clear_pending_payment. gives_neutral.
  - by apply gives_get.
  - by apply gives_get.
  - by apply gives_get.
  - unfold p2p_mdns_advertise_start. apply (gives_bind (λ _, True)).
    + destruct (bool_decide _); [by apply gives_get|by apply gives_ret].
    + intros [pk|e] _; [|by apply gives_ret]. destruct (negb _); [by apply gives_ret|]. apply gives_atomic; [done|]. intros s _. by eexists.
  - unfold p2p_mdns_advertise_stop. apply gives_locked. intros s _. apply wp_bind. by apply wp_neutral.
  - unfold p2p_mdns_browse_start. apply gives_atomic; [done|]. intros s _. by eexists.
  - apply drain_gives.
  - unfold p2p_mdns_browse_stop. apply gives_locked. intros s _. apply wp_bind. by apply wp_neutral.
  - unfold p2p_lan_server_start. eapply gives_bind; [apply lan_key_gives|]. intros [k|e] _; [|by apply gives_ret]. apply gives_atomic; [done|]. intros s _. by eexists.
  - by apply gives_get.
  - unfold p2p_lan_server_stop. apply gives_locked. intros s _. apply wp_bind. by apply wp_neutral.
  - unfold p2p_quic_server_start. eapply gives_bind; [apply lan_key_gives|]. intros [k|e] _; [|by apply gives_ret]. apply gives_atomic; [done|]. intros s _. by eexists.
  - by apply gives_get.
  - unfold p2p_quic_server_stop. apply gives_locked. intros s _. apply wp_bind. by apply wp_neutral.
  - unfold p2p_stop_all. gives_neutral.
Qed.

Lemma thread_gives cs : Forall call_known cs → gives (Forall answer_known) (thread cs).
Proof.
  induction 1 as [|c cs Hc _ IH]; [by apply gives_ret|]. unfold thread. cbn [fmap list_fmap sequence].
  apply (gives_bind answer_known); [by apply perform_gives|]. intros a Ha. apply (gives_bind (Forall answer_known)); [exact IH|].
  intros l Hl. apply gives_ret. by constructor.
Qed.

(** C12: at every moment of every interleaving, also in the middle of a call, a
    cached key is the one derived from the secret that is unlocked right then,
    and every key a call returns comes from a secret that was unlocked. *)
Theorem derived_keys_current (b : bridge) (threads : list (list call)) c
    (Hb : sg_lan b = None ∧ sg_rest b = None ∧ sg_shared b = None) (Hs : ∀ sec, sg_signer b = Some sec → known sec)
    (Hk : Forall (Forall call_known) threads) :
  rtc thread_step (start b (thread <$> threads)) c →
  (∀ k, sg_lan (shared c) = Some k → ∃ sec, sg_signer (shared c) = Some sec ∧ derive_lan sec = Ok k) ∧
  (∀ k, sg_rest (shared c) = Some k → ∃ sec, sg_signer (shared c) = Some sec ∧ derive_rest sec = Ok k) ∧
  (∀ i answers, pool c !! i = Some (Ret answers) → Forall answer_known answers).
Proof.
  intros Hc. destruct Hb as (E1 & E2 & E3). assert (Hi : keys_inv b).
  { split; unfold derived; rewrite ?E1, ?E2; try done. intros c' ? ? ?. by rewrite E3. }
  destruct (safe_reachable keys_inv stable (Forall answer_known) b (thread <$> threads) c Hi) as [[Hl Hr _ _] Hpost]; [|done|].
  - apply Forall_fmap. eapply Forall_impl; [exact Hk|]. intros cs Hcs. by apply thread_gives.
  - split_and!; [exact Hl|exact Hr|exact Hpost].
Qed.
End keys.

(** ** The seal of the outbox *)

(** What the seal of the bridge stores, its unseal opens under the same key,
    and with the signer locked the text is stored as it is: the contract the
    outbox relies on. *)
Theorem outbox_seal_opens `{PrimitiveLaws, AesGcmLaws} (key : may_fail bytes) nonce (Hn : length nonce = AES_NONCE_LEN ∧ all_bytes nonce) :
  seal_ok (outbox_unseal_fn key) (outbox_seal_fn key (Some nonce)).
Proof.
  destruct Hn as [Hn Hb]. intros x s Hx. unfold outbox_seal_fn. destruct key as [key|e]; [|intros [= <-]; by left].
  destruct (seal_at_rest_bin (Some nonce) key x) as [blob|] eqn:E; [|done]. intros [= <-]. right. eexists. split; [done|].
  destruct (seal_bin_length _ _ _ _ Hn E) as [_ Ho]. assert (Hbytes : all_bytes blob).
  { unfold seal_at_rest_bin in E. cbn [ok_or mbind result_bind] in E. destruct (aes_seal key nonce x) as [ct|] eqn:E'; [|done]. injection E as <-.
    apply all_bytes_app. split; [done|]. exact (aes_bytes _ _ _ _ (utf8_bytes _ Hx) E'). }
  unfold outbox_unseal_fn. rewrite base64_roundtrip by done. cbn [ok_or mbind result_bind map_err]. rewrite Ho. cbn [mbind result_bind map_err].
  unfold from_utf8. by rewrite Hx.
Qed.

(** ** What the locks do not rule out *)

Section deadlock.
Context `{Primitives, NostrKeys}.

(** Draining the browser locks the network and then asks for the signer;
    locking the signer takes the network down under the lock. With one thread
    in each, both wait forever, whatever the state. *)
Theorem drain_lock_deadlock (b : bridge) br (Hbr : sg_p2p b ≫= browser = Some br) :
  ∃ c, rtc thread_step (start b [answered (λ _, Done) p2p_mdns_browse_drain; perform Lock]) c ∧
    ¬ all_done c ∧ ∀ c', ¬ thread_step c c'.
Proof.
  destruct b as [sg lan rest ck sh nwc uri pend [[adv bro ls qs]|] rate us]; [|discriminate Hbr]. cbn in Hbr. subst bro.
  set (b := mk_bridge _ _ _ _ _ _ _ _ _ _ _).
  exists (after ([0; 0] ++ replicate 23 1) (start b [answered (λ _, Done) p2p_mdns_browse_drain; perform Lock])). split_and!.
  - apply after_reached.
  - rewrite all_done_dec. by vm_compute.
  - apply blocked_sound. by vm_compute.
Qed.
End deadlock.

(** ** Examples *)

Module SignerExamples.
Import Toy.

(** The secret is its own public key. *)
#[local] Instance toy_keys : NostrKeys := {|
  keys_parse s := Some s; public_hex k := k; sign_json k _ _ content := Ok (k ++ content);
  unsigned_pubkey _ := None; sign_unsigned k s := Ok (k ++ s); sign_schnorr k d := k ++ d; ecdh_x k pk := Ok (k ++ pk);
  valid_pubkey _ := true; nip44_encrypt k _ s := Ok s; nip44_decrypt k _ s := Ok s
|}.
#[local] Instance toy_keys_laws : NostrKeysLaws.
Proof. split. by intros sk sk' pk [= ->]. Qed.

Definition unlocked (k : str) : bridge := mk_bridge (Some k) None None None None None None None None 0 ∅.
Definition ada : str := lit "ada".
Definition bob : str := lit "bob".
Definition known (k : bytes) : Prop := k = ada ∨ k = bob.

(** One thread changes the identity while another derives its keys. *)
Definition threads : list (list call) := [[LanKey; AtRestKey]; [Unlock bob; LanKey]].
Definition midway : config mutex bridge (list answer) :=
  after (replicate 12 0 ++ replicate 15 1 ++ replicate 9 1) (start (unlocked ada) (thread <$> threads)).

Lemma midway_reached : rtc thread_step (start (unlocked ada) (thread <$> threads)) midway.
Proof. apply after_reached. Qed.

(** One thread drains the browser while another changes the identity. *)
Definition draining : list (list call) := [[BrowseStart (Ok (mk_browser [] ∅)); BrowseDrain; BrowseStop]; [Unlock bob; LanKey]].
Definition drained : config mutex bridge (list answer) :=
  after (replicate 8 0 ++ replicate 24 1) (start (unlocked ada) (thread <$> draining)).

(** The drain is not over and the other identity is unlocked already. *)
Lemma signer_calls_complete_witness :
  (all_done drained ∨ ∃ c', thread_step drained c') ∧ ¬ all_done drained ∧ sg_signer (shared drained) = Some bob.
Proof.
  split_and!; [|rewrite all_done_dec; by vm_compute|by vm_compute].
  refine (proj1 (signer_calls_complete (unlocked ada) draining drained _ (after_reached _ _))).
  right. by repeat constructor.
Defined.

Lemma threads_known : Forall (Forall (call_known known)) threads.
Proof. repeat first [apply Forall_cons_2 | apply Forall_nil_2]; [done..|intros k [= <-]; by right|done]. Qed.

Lemma midway_key : is_Some (sg_lan (shared midway)).
Proof. apply not_eq_None_Some. by vm_compute. Qed.

Lemma derived_keys_current_witness : ∃ k, sg_lan (shared midway) = Some k ∧ derive_lan bob = Ok k.
Proof.
  destruct (derived_keys_current known (unlocked ada) threads midway (conj eq_refl (conj eq_refl eq_refl)) (λ sec E, or_introl (eq_sym (Some_inj _ _ E)))
    threads_known midway_reached) as (Hl & _).
  assert (Hs : sg_signer (shared midway) = Some bob) by (by vm_compute). destruct midway_key as [k Hk]. exists k.
  destruct (Hl k Hk) as (sec & Hs' & Hd). split; [exact Hk|]. rewrite Hs in Hs'. injection Hs' as <-. exact Hd.
Defined.

(** A call that checks the identity and then signs, as the calls of the bridge
    do, beside one that unlocks another account: what it signs carries the
    other's key although the check passed. *)
Definition checked_sign (who content : str) : run answer :=
  r ← require_identity who; match r with Ok _ => answered Text (sign_builder 1 1 [] content) | Err e => mret (Failed e) end.

Theorem checked_identity_race : ∃ c,
  rtc thread_step (start (unlocked ada) [checked_sign ada (lit "!"); perform (Unlock bob)]) c ∧
  pool c = [Ret (Text (lit "bob!")); Ret (Text bob)].
Proof.
  exists (after (replicate 4 0 ++ replicate 15 1 ++ replicate 3 0) (start (unlocked ada) [checked_sign ada (lit "!"); perform (Unlock bob)])).
  split; [apply after_reached|by vm_compute].
Qed.

(** A server that was being started when the signer was locked comes up after
    it, with the key of the locked identity. *)
Theorem server_outlives_lock : ∃ c k,
  rtc thread_step (start (unlocked ada) [perform (LanStart (λ _, Ok 7%Z)); perform Lock]) c ∧
  all_done c ∧ sg_signer (shared c) = None ∧ derive_lan ada = Ok k ∧ sg_p2p (shared c) = Some (mk_p2p None None (Some (k, 7%Z)) None).
Proof.
  set (c := after (replicate 9 0 ++ replicate 27 1 ++ replicate 3 0) (start (unlocked ada) [perform (LanStart (λ _, Ok 7%Z)); perform Lock])).
  exists c. destruct (derive_lan ada) as [k|e] eqn:E; [|vm_compute in E; discriminate E]. exists k. split_and!.
  - apply after_reached.
  - rewrite all_done_dec. by vm_compute.
  - by vm_compute.
  - done.
  - vm_compute in E. injection E as <-. by vm_compute.
Qed.

(** The contacts of a user are stored as a JSON array, but read as a list
    separated by commas: the only contact is not found. *)
Theorem contacts_misread pk : 0x2C%Z ∉ pk → pk ≠ [] →
  comma_pieces [] ([0x5B; 0x22]%Z ++ pk ++ [0x22; 0x5D]%Z) = [[0x5B; 0x22]%Z ++ pk ++ [0x22; 0x5D]%Z] ∧ pk ∉ [[0x5B; 0x22]%Z ++ pk ++ [0x22; 0x5D]%Z].
Proof.
  intros Hc Hne. split.
  - assert (Hp : ∀ l cur, 0x2C%Z ∉ l → cur ++ l ≠ [] → comma_pieces cur l = [reverse cur ++ l]).
    { intros l. induction l as [|x l IH]; intros cur Hl Hcur; cbn [comma_pieces].
      - rewrite app_nil_r in *. by rewrite bool_decide_eq_false_2.
      - destruct (Z.eqb_spec x 0x2C) as [->|]; [set_solver|]. rewrite IH; [by rewrite reverse_cons, <-app_assoc|set_solver|done]. }
    rewrite Hp; [done| |done]. rewrite !elem_of_app. intros [Hin|[Hin|Hin]]; [|done|]; repeat (apply elem_of_cons in Hin as [Hin|Hin]; [lia|]); by apply elem_of_nil in Hin.
  - intros Heq%list_elem_of_singleton. apply (f_equal length) in Heq. rewrite !length_app in Heq. simpl in Heq. lia.
Qed.
End SignerExamples.
